(* ===== verification/_CoqProject ===== *)
-Q . S2P
Prelude.v
RustStr.v
Paths.v
Identity.v
Registry.v
ConfigModel.v
Hostname.v
ConfigParser.v
ProjectEnv.v
EnvBlock.v
StateTypes.v
StateIds.v
StateDb.v
StatePorts.v
StateResources.v
StateObserved.v
StateProjects.v
StateLink.v
StateJobs.v
StateAllocations.v
DaemonScope.v
DaemonQueue.v
DaemonDebounce.v
Manifest.v
DaemonJobs.v
KernelTable.v
HostFs.v
Installer.v
RustLines.v
PfRules.v
StateFs.v
AppRelease.v
SelfUpdate.v
AppUpdate.v
PfInstall.v
StatePaths.v
Effects.v
Errors.v
Supervisor.v
ConfigFiles.v
PhpRuntimes.v
ResourceCache.v
ArtifactDownload.v
ResourceCommands.v
GatewayConfig.v
ProjectPlan.v
ProjectReconcile.v
GatewayPlan.v
Gateway.v
ManagedRuntimes.v
SqlRuntimes.v
Migrations.v
