(* ===== verification/Prelude.v ===== *)
(** * PV: a verification library

    PV is a local development environment for macOS: a command line and a daemon that
    link project directories to [.test] hostnames, install PHP and backing services
    as versioned artifacts, run them, route the gateway's traffic to the projects and
    write each project's [.env].  This library models the parts of the program that
    decide things (the Rust crates under [src/crates/]) and proves what they promise.
    Definitions keep the names of the Rust items they translate; paths below are
    relative to [src/crates/].

    ** The program and where its parts are modelled

    - Foundations.  [Prelude]: the [result] type, its monad and tactics.  [RustStr],
      [RustLines]: the [str] methods the program calls, on UTF-8 bytes.  [Paths]:
      [Utf8Path::components] and the lexical checks built on it.  [Effects]: computations
      that keep a state and may fail, sequencing over a part of the state, and triples.
      [Errors]: the error types of the crates and their texts.
    - Identities ([resources/src/identity.rs], [platform.rs], [error.rs]): [Identity].
      Names, tracks, versions, digests.  [Registry] ([registry.rs], [allocation.rs]):
      the fixed table of resources and the names generated for allocations.
    - Project configuration ([config/src/]): [Hostname] ([hostname.rs]), [ConfigModel]
      and [ConfigParser] ([model.rs], [parser.rs]: from the YAML value to a checked
      [ProjectConfig]), [ProjectEnv] ([env.rs]: placeholders and precedence), [EnvBlock]
      ([env.rs]: the managed block of [.env]) and [ConfigFiles] ([discovery.rs],
      [filesystem.rs], [env.rs]: finding the configuration, writing the env file, with
      symbolic links followed at every component).
    - The state database ([state/src/database.rs] and the schema in [state/src/sql/]):
      [StateTypes] (columns, validators, errors), [StateDb] (one finite map per table,
      keys, UNIQUE columns, foreign keys and triggers; transactions as state passing
      with rollback), [StateIds], and one file per group of operations: [StatePorts],
      [StateResources], [StateObserved], [StateProjects] with [StateLink], [StateJobs],
      [StateAllocations].  [StateFs] ([state/src/fs.rs]): PV's files, written atomically;
      [StatePaths] ([paths.rs]): where they are.  [Migrations] ([migrations.rs],
      [backup.rs]): how the database is migrated, and backed up before.
    - The daemon ([daemon/src/]): [DaemonScope], [DaemonQueue], [DaemonDebounce]
      ([reconciliation.rs]: what a job is about, the queue that runs one at a time under
      the update lock, the debouncer in front of it) and [DaemonJobs] ([jobs.rs]: what
      a job writes to the database from its start to its end).  [ProjectPlan] and
      [ProjectReconcile] ([project_env.rs]: from a project's configuration to the tracks,
      the allocations, the env context and the [.env] file).  [Supervisor]
      ([supervisor.rs]: the processes PV runs, found again after a restart).
      [GatewayConfig] ([gateway_config.rs]: the Caddy configuration of the gateway and of
      the PHP workers, and its promotion, commit and rollback), [GatewayPlan] ([gateway.rs]:
      which workers there are, with which ports and projects) and [Gateway] ([gateway.rs]:
      the candidates that are validated and promoted, the runtimes that are reloaded,
      started or stopped, the routing that is found, and what is recorded).
      [ManagedRuntimes] ([managed_resources/]: the tracks that are wanted are installed,
      those that a project needs are started or adopted, those that nobody needs stopped;
      the adapters of Redis, Mailpit and RustFS, as records of operations) and
      [SqlRuntimes] (the same for MySQL and Postgres: what PV writes for them, and the
      databases of the allocations).
    - Artifacts ([resources/src/]): [Manifest] ([manifest.rs]: validation of the
      manifest and the choice of an artifact), [HostFs] ([fs.rs] over a model of
      [std::fs] in which any call may fail), [ResourceCache] ([cache.rs]: the cached
      manifest and its refresh), [ArtifactDownload] ([download.rs], [http.rs]: what is
      fetched, and when it is believed), [Installer] ([install.rs]: install, promote,
      prune, point, roll back) and [PhpRuntimes] ([php_extensions.rs],
      [php_defaults.rs]: the extensions of an installed PHP and the overlay of its
      configuration).  [ResourceCommands] ([command.rs], [runtime.rs]) composes them with
      the database: installing, updating, checking and uninstalling tracks, PHP always
      with FrankenPHP, and taking back what was prepared when a later step fails.
    - PV's own updates: [SelfUpdate] ([self-update/src/lib.rs]: the manifest and
      the asset for this platform), [AppRelease] ([state/src/app_release.rs]: releases,
      the active link, pruning) and [AppUpdate] ([cli/src/commands/update.rs]: the
      application phase, from the download to the switch, the health check and the
      rollback).
    - The host ([platform/src/]): [KernelTable] ([listener/macos/kernel_table.rs]: which
      ports listen on loopback, read from the bytes of the kernel's socket table),
      [PfRules] ([pf.rs]: the packet-filter anchor and the reference to it in [pf.conf])
      and [PfInstall] ([pf.rs]: the state of the two files, the privileged commands that
      install them and the rollback when one is refused).

    The command line and the daemon's jobs call the state database for everything they
    remember; a job started over IPC or by the watcher goes through the debouncer and
    the queue, runs a reconciler, and records its outcome.  Reconcilers read the project
    configuration, choose artifacts from the manifest, install them, assign ports and
    render env.

    ** How code becomes definitions

    - A fallible function returns [result E A], with [E] the crate's error type and the
      errors in the order the code reports them.  A [Database] method takes the database
      and returns it with the result; a transaction that fails returns the one it began
      with.  File system code is in the [IO] monad of [HostFs]: a [World] of files, a
      clock that numbers the calls and a counter for temporary names.
    - A loop is a [Fixpoint] on what it walks over.  Where there is nothing to recurse
      on, it has fuel and a lemma that the fuel is enough: a round of [scan_loop] consumes
      at least a byte, and it starts with more rounds than bytes; a round of the
      placeholder scanners consumes a byte of the text, whose length is their fuel; slugs
      and identifiers are searched for as often as the code tries them, and the theorems
      say when such a search can fail.
    - Concurrency is explicit: the mutex makes each queue operation one transition, the
      callers' futures are values, and a step relation interleaves them with arbitrary
      cancellations and changes of the stored state.
    - Machine integers are numbers with their bounds written out where the code parses,
      adds or casts them ([parse_u64], [parse_u16], ids, ports, generations, offsets).
    - What is not this repository's code is an argument: the YAML, JSON, URL and RFC 3339
      parsers, [serde_json]'s printers (a class with the laws used), the archive reader
      and the resource adapters (the class [InstallerLaws]), the release server, the
      daemon and the checks of an update (the class [UpdateEnvironment] with
      [UpdateLaws]), [cp], [install], [rm] and [pfctl] (the class [SystemCommands]), the
      processes of the host (the class [ProcessHost]), the JSON of a process's metadata
      (the class [MetadataJson] with [MetadataJsonLaws]), the HTTP agent and SHA-256, what
      the archive reader, the HTTP agent and the connection leave alone while a command
      runs (the class [CommandEnvironment]), the reconciler of a project's resources and
      its certificate for [ProjectReconcile], FrankenPHP's validation of a configuration,
      the output of [pfctl] and whether a port is free for [Gateway] and [GatewayPlan], the
      adapter of a resource and the commands that install (the records [RuntimeAdapter] and
      [InstallCommands] with [AdapterLaws] and [CommandsLaws], which the modelled ones
      satisfy) for [ManagedRuntimes], the clients of the SQL servers, [initdb] and [mysqld]
      and the random bytes (the class [SqlClient] with [SqlLaws]), SQLite's calls while a
      database is migrated (the class [SqliteHost] with [SqliteLaws]), the [sysctl] call, [Database::open],
      [UpdateLock::acquire], the clock, and the host's failures (the class [Host]).  Each
      property that assumes something of them has a witness that
      instantiates it.

    ** What the theorems show

    - Projects and their hostnames ([StateLink], [StateProjects], [Hostname]): linking and
      unlinking keep the tables well formed, change only what they name, and own every
      hostname once; slugs are found unless thousands of attempts fail.
    - Resources, allocations and ports ([StateResources], [StateAllocations],
      [StatePorts]): usage counts always equal the requirements, replacing allocations
      refines its specification, an env context holds exactly what is ready, two owners
      never share a port.
    - Migrations ([Migrations]): all that are pending or none, with a backup before, which
      a failed migration leaves in place and which is only removed when five later ones
      are there.
    - Jobs ([StateJobs], [DaemonJobs], [DaemonScope]): a job has a fresh id, is closed
      with its outcome unless the database does not open for that or refuses it (the next
      start of the daemon closes what is open then), and covers exactly what it did; a
      failure is reported as long as nothing newer on its subject succeeded.
    - Scheduling ([DaemonQueue], [DaemonDebounce]): mutual exclusion, no lost wake-up, the
      queue drains, it refines a FIFO of the accepted jobs; each request is delivered, and a
      burst of them is one call.
    - Configuration and env ([ConfigParser], [ProjectEnv], [EnvBlock]): an accepted
      configuration is well formed and always renders; the most specific level wins;
      rewriting the managed block keeps the user's lines in their order, carriage returns
      at their ends apart, and is idempotent; the env file
      is inside the project, and a write that fails leaves it whole.
    - A project's reconciliation ([ProjectPlan], [ProjectReconcile]): a plan that is applied
      is stable, changes the tables as it says, and gives the context that the env is
      rendered in; every outcome, failures included, is recorded as the project's observed
      state.
    - Processes ([Supervisor]): a process is signalled only while its identity is the one
      that was recorded; starting records or terminates; waiting for readiness ends.
    - The gateway ([GatewayConfig], [GatewayPlan], [Gateway]): a plan serves each project at
      most where its runtime says, on ports that are its own; a runtime that is started
      is verified, preserved on purpose, or recorded as failed with its process told to
      end; the configuration on disk is the new one if the runtime is in force, and the old
      one, file for file, if it is not and going back succeeds; what a project's text puts
      into the configuration is one token.
    - Managed resources ([ManagedRuntimes]): what is wanted and missing is asked for once
      and every install is tried; a track that is reconciled is answering and shown as
      running, or shown as failed; at most one process is started for it, and one that was
      started has answered, or was told to end unless it had ended or the host failed.
    - The SQL servers ([SqlRuntimes]): names and passwords in the init file, in URLs and in
      statements are read back as they are, and never as anything else.
    - Artifacts ([Manifest], [Installer]): an accepted manifest is well formed and the
      artifact chosen is the newest that fits; an install interrupted anywhere leaves the
      current pointer on a whole release (unless the current one was already invalid and is
      installed again), a rollback returns to the release before, and
      nothing outside the track is touched ([Installer]); a refresh keeps a valid cached
      manifest, a file that is answered as an artifact has the artifact's digest, whatever
      fails on the way ([ResourceCache], [ArtifactDownload]); the extensions loaded are
      those of the installed artifact ([PhpRuntimes]).
    - Commands ([ResourceCommands]): the database names a release only after it is there,
      checked and pointed to; PHP and FrankenPHP are recorded together or not at all, and a
      failure takes back what was prepared of both; a check for updates shows what the update
      would do; a track in use is not removed unless that is forced.
    - Files and PV's own updates ([StateFs], [AppRelease], [AppUpdate], [SelfUpdate]): a
      write leaves the old text or the new one; an update interrupted or refused anywhere
      leaves a whole release active, and only a binary with the manifest's digest is ever
      installed; pruning keeps the active release and the one before.
    - The host ([KernelTable], [PfRules], [PfInstall]): the socket table is parsed within
      bounds and exactly; the edit of [pf.conf] keeps the user's rules and puts the
      redirects where packet filter accepts them; an installation that is refused puts
      both files back.

    ** Not modelled

    Reading and writing of sockets and terminals; what the started processes do; SQLite
    itself (its tables and constraints are modelled, its files, its locking and what the
    statements of a migration do are not); what the clients of MySQL, Postgres and S3 do;
    TLS certificates, the keychain and launchd; the transport under HTTP; the serde message types of the
    protocol crate; argument parsing by clap and what is printed; the release tooling.  In
    the file system model a path is its list of components; the calls follow symbolic links
    only at the last component, except in [ConfigFiles], which resolves whole paths; a slash at the end of a path is
    dropped with the empty component after it, also where the host would take it for a
    directory; and permissions, owners and times are left out.  SQLite may fail when the
    database is opened, in a call of [command.rs] and of a migration, and when a job
    opens it again; elsewhere a database that is open answers, and fails only where the
    code or a constraint refuses. *)

From Stdlib Require Export Ascii.
From stdpp Require Export base tactics list gmap strings sorting pretty.
From Stdlib Require Export Lia.

#[export] Set Warnings "-clear-no-such-hyp,-register-all".
#[global] Arguments String.append !s1 s2 : simpl nomatch.

Declare Scope pv_scope.
Delimit Scope pv_scope with pv.

(** ** Fallible computations: Rust's [Result<A, E>] *)

Inductive result (E A : Type) : Type :=
| Ok (a : A)
| Err (e : E).
Arguments Ok {E A} a.
Arguments Err {E A} e.

#[export] Instance result_ret {E} : MRet (result E) := λ A a, Ok a.
#[export] Instance result_bind {E} : MBind (result E) := λ A B f m,
  match m with Ok a => f a | Err e => Err e end.
#[export] Instance result_fmap {E} : FMap (result E) := λ A B f m,
  match m with Ok a => Ok (f a) | Err e => Err e end.
#[export] Instance result_eq_dec {E A} `{EqDecision E, EqDecision A} :
  EqDecision (result E A).
Proof. solve_decision. Defined.

(** [Result::map_err]. *)
Definition map_err {E F A} (f : E → F) (m : result E A) : result F A :=
  match m with Ok a => Ok a | Err e => Err (f e) end.

(** [Option::ok_or_else]. *)
Definition ok_or {E A} (o : option A) (e : E) : result E A :=
  match o with Some a => Ok a | None => Err e end.

(** [if !b { return Err(e) }]. *)
Definition ensure {E} (b : bool) (e : E) : result E unit :=
  if b then Ok tt else Err e.

Definition is_ok {E A} (m : result E A) : bool :=
  match m with Ok _ => true | Err _ => false end.

(** A [for] loop whose body may return early with an error. *)
Fixpoint try_fold {E A B} (f : B → A → result E B) (l : list A) (b : B) : result E B :=
  match l with
  | [] => Ok b
  | x :: l => b' ← f b x; try_fold f l b'
  end.

Definition try_iter {E A} (f : A → result E unit) (l : list A) : result E unit :=
  try_fold (λ _ x, f x) l tt.

(** [iter().map(f).collect::<Result<Vec<_>, _>>()]. *)
Fixpoint try_map {E A B} (f : A → result E B) (l : list A) : result E (list B) :=
  match l with
  | [] => Ok []
  | x :: l => y ← f x; ys ← try_map f l; Ok (y :: ys)
  end.

(** ** Tactics *)

Create HintDb pv discriminated.

(** Turns an equation about a fallible computation into equations about its
    steps, discarding the branches that cannot produce the given result. *)
Ltac inv_ok :=
  repeat match goal with
  | u : unit |- _ => destruct u
  | H : Ok _ = Err _ |- _ => discriminate H
  | H : Err _ = Ok _ |- _ => discriminate H
  | H : Ok _ = Ok _ |- _ => injection H; clear H; intros; subst
  | H : Err _ = Err _ |- _ => injection H; clear H; intros; subst
  | H : mbind _ ?m = Ok _ |- _ =>
      let E := fresh "E" in destruct m eqn:E; simpl in H; [|discriminate H]
  | H : ok_or ?m _ = Ok _ |- _ =>
      let E := fresh "E" in destruct m eqn:E; simpl in H; [|discriminate H]
  | H : map_err _ ?m = Ok _ |- _ =>
      let E := fresh "E" in destruct m eqn:E; simpl in H; [|discriminate H]
  | H : ensure ?b _ = Ok _ |- _ =>
      let E := fresh "E" in destruct b eqn:E; simpl in H; [|discriminate H]
  end.

(** Splits conjunctions of booleans in the context into their parts. *)
Ltac split_bools :=
  repeat match goal with
  | H : _ && _ = true |- _ => apply andb_true_iff in H; destruct H
  | H : _ || _ = false |- _ => apply orb_false_iff in H; destruct H
  | H : negb _ = true |- _ => apply negb_true_iff in H
  | H : negb _ = false |- _ => apply negb_false_iff in H
  | H : bool_decide _ = true |- _ => apply bool_decide_eq_true in H
  | H : bool_decide _ = false |- _ => apply bool_decide_eq_false in H
  end.

(** ** Facts about [try_fold], [try_iter] and [try_map] *)

Lemma fmap_result_ok {E A B : Type} (f : A → B) (r : result E A) b : f <$> r = Ok b → ∃ a, r = Ok a ∧ f a = b.
Proof. destruct r as [a|]; [|done]. intros [= <-]. by exists a. Qed.

Section results.
Context {E : Type}.

Lemma try_fold_inv {A B} (P : B → Prop) (f : B → A → result E B) l b b' :
  (∀ b x b', x ∈ l → P b → f b x = Ok b' → P b') →
  P b → try_fold f l b = Ok b' → P b'.
Proof.
  revert b. induction l as [|x l IH]; intros b Hstep Hb Hf; simpl in Hf; inv_ok; [done|].
  eapply IH; [|by eapply Hstep; [apply list_elem_of_here| |]|done].
  intros; eapply Hstep; [by right| |]; done.
Qed.

Lemma try_fold_err {A B} (f : B → A → result E B) l b e :
  try_fold f l b = Err e → ∃ b' x, x ∈ l ∧ f b' x = Err e.
Proof.
  revert b. induction l as [|x l IH]; intros b; simpl; [done|].
  destruct (f b x) as [b'|e'] eqn:Hf; simpl.
  - intros (b1 & y & Hy & H)%IH. exists b1, y. split; [by right|done].
  - intros [= ->]. exists b, x. split; [by left|done].
Qed.

Lemma try_fold_ext {A B} (f g : B → A → result E B) l b :
  (∀ b x, f b x = g b x) → try_fold f l b = try_fold g l b.
Proof.
  intros Heq. revert b. induction l as [|x l IH]; intros b; simpl; [done|].
  rewrite Heq. destruct (g b x); [apply IH|done].
Qed.

(** Two loops over the same list that keep their states related. *)
Lemma try_fold_sim {F A B C} (R : B → C → Prop) (f : B → A → result E B)
    (g : C → A → result F C) l b c b' :
  (∀ x b c b', x ∈ l → R b c → f b x = Ok b' → ∃ c', g c x = Ok c' ∧ R b' c') →
  R b c → try_fold f l b = Ok b' → ∃ c', try_fold g l c = Ok c' ∧ R b' c'.
Proof.
  revert b c. induction l as [|x l IH]; intros b c Hstep HR Hf; simpl in *; inv_ok; [by eexists|].
  match goal with H : f b x = Ok _ |- _ => destruct (Hstep x b c _ ltac:(by left) HR H) as (c1 & -> & HR1) end.
  simpl. eapply IH; [|done..]. intros; eapply Hstep; [by right|done..].
Qed.

Lemma try_iter_ok {A} (f : A → result E unit) l :
  try_iter f l = Ok tt ↔ Forall (λ x, f x = Ok tt) l.
Proof.
  unfold try_iter. induction l as [|x l IH]; simpl; [split; constructor|].
  rewrite Forall_cons, <-IH. destruct (f x) as [[]|]; simpl; [tauto|].
  split; [discriminate|intros [? _]; discriminate].
Qed.

Lemma try_map_ok {A B} (f : A → result E B) l l' :
  try_map f l = Ok l' ↔ Forall2 (λ x y, f x = Ok y) l l'.
Proof.
  revert l'. induction l as [|x l IH]; intros l'; simpl.
  - split; [intros [=<-]; constructor|intros ->%Forall2_nil_inv_l; done].
  - split.
    + intros H; inv_ok. constructor; [done|]. by apply IH.
    + intros (y & ys & Hy & Hys%IH & ->)%Forall2_cons_inv_l.
      rewrite Hy; simpl. by rewrite Hys.
Qed.

Lemma try_map_ext_ok {A B} (f : A → result E B) (g : A → B) l :
  (∀ x, x ∈ l → f x = Ok (g x)) → try_map f l = Ok (g <$> l).
Proof.
  intros H. apply try_map_ok, Forall2_fmap_r, Forall_Forall2_diag, Forall_forall, H.
Qed.
End results.

(** ** Ordering of text

    Rust's [Ord] on [str] and SQLite's BINARY collation both compare bytes from
    the left: this is [String.le]. *)

Definition le_on {A} (f : A → string) (x y : A) : Prop := String.le (f x) (f y).

#[export] Instance le_on_dec {A} (f : A → string) : RelDecision (le_on f).
Proof. intros x y. unfold le_on. apply _. Defined.
#[export] Instance le_on_total {A} (f : A → string) : Total (le_on f).
Proof. intros x y. apply String.le_total. Qed.
#[export] Instance le_on_trans {A} (f : A → string) : Transitive (le_on f).
Proof. intros x y z. unfold le_on. etrans; eauto. Qed.

(** [ORDER BY f], or iteration of a [BTreeMap] keyed by [f]. *)
Definition sort_on {A} (f : A → string) (l : list A) : list A := merge_sort (le_on f) l.

Lemma sort_on_perm {A} (f : A → string) l : sort_on f l ≡ₚ l.
Proof. apply merge_sort_Permutation. Qed.
Lemma sort_on_sorted {A} (f : A → string) l : StronglySorted (le_on f) (sort_on f l).
Proof. apply StronglySorted_merge_sort; apply _. Qed.
Lemma elem_of_sort_on {A} (f : A → string) l x : x ∈ sort_on f l ↔ x ∈ l.
Proof. by rewrite sort_on_perm. Qed.

(** Sorting by a key that is injective on the list depends only on the elements. *)
Lemma sort_on_perm_eq {A} (f : A → string) l1 l2 :
  (∀ x y, x ∈ l1 → y ∈ l1 → f x = f y → x = y) →
  l1 ≡ₚ l2 → sort_on f l1 = sort_on f l2.
Proof.
  intros Hinj Hp. apply (StronglySorted_unique_strong (le_on f));
    [|apply sort_on_sorted..|by rewrite !sort_on_perm].
  intros x y Hx Hy Hxy Hyx. rewrite elem_of_sort_on in Hx, Hy.
  apply Hinj; [done|by rewrite Hp|by apply (anti_symm String.le)].
Qed.

#[export] Hint Resolve sort_on_perm sort_on_sorted : pv.

(** [ORDER BY] several text columns: the keys are compared from the left. *)
Fixpoint keys_le (l m : list string) : Prop :=
  match l, m with
  | [], _ => True
  | _ :: _, [] => False
  | x :: l, y :: m => (x = y ∧ keys_le l m) ∨ (x ≠ y ∧ String.le x y)
  end.

#[export] Instance keys_le_dec : RelDecision keys_le.
Proof.
  intros l. induction l as [|x l IH]; intros [|y m]; simpl; try (left; done); try (right; tauto).
  destruct (decide (x = y)) as [->|Hxy].
  - destruct (IH m); [left; by left|right; tauto].
  - destruct (decide (String.le x y)); [left; by right|right; tauto].
Defined.
#[export] Instance keys_le_total : Total keys_le.
Proof.
  intros l. induction l as [|x l IH]; intros [|y m]; simpl; try tauto.
  destruct (decide (x = y)) as [->|Hxy]; [destruct (IH m); tauto|].
  destruct (String.le_total x y); [tauto|right; right; auto].
Qed.
#[export] Instance keys_le_trans : Transitive keys_le.
Proof.
  intros l. induction l as [|x l IH]; intros [|y m] [|z n]; simpl; try tauto.
  intros [[-> H1]|[Hn1 H1]] [[-> H2]|[Hn2 H2]]; [left; split; [done|by eapply IH]|by right..|].
  right. split; [|by etrans]. intros ->. apply Hn1. by apply (anti_symm String.le).
Qed.
#[export] Instance keys_le_antisym : AntiSymm (=) keys_le.
Proof.
  intros l. induction l as [|x l IH]; intros [|y m]; simpl; try tauto.
  intros [[-> H1]|[Hn1 H1]] [[Heq H2]|[Hn2 H2]]; [f_equal; by apply IH|done|done|].
  exfalso. apply Hn1. by apply (anti_symm String.le).
Qed.

Definition keys_on {A} (f : A → list string) (x y : A) : Prop := keys_le (f x) (f y).
#[export] Instance keys_on_dec {A} (f : A → list string) : RelDecision (keys_on f).
Proof. intros x y. unfold keys_on. apply _. Defined.
#[export] Instance keys_on_total {A} (f : A → list string) : Total (keys_on f).
Proof. intros x y. apply keys_le_total. Qed.
#[export] Instance keys_on_trans {A} (f : A → list string) : Transitive (keys_on f).
Proof. intros x y z. unfold keys_on. etrans; eauto. Qed.

Definition order_by {A} (f : A → list string) (l : list A) : list A := merge_sort (keys_on f) l.

Lemma order_by_perm {A} (f : A → list string) l : order_by f l ≡ₚ l.
Proof. apply merge_sort_Permutation. Qed.
Lemma order_by_sorted {A} (f : A → list string) l : StronglySorted (keys_on f) (order_by f l).
Proof. apply StronglySorted_merge_sort; apply _. Qed.
Lemma elem_of_order_by {A} (f : A → list string) l x : x ∈ order_by f l ↔ x ∈ l.
Proof. by rewrite order_by_perm. Qed.

(** ** [BTreeMap<String, V>] and [BTreeSet<String>]

    Lookups and updates are those of [gmap]; iteration goes through the keys in
    byte order. *)

Definition btree_iter {V} (m : gmap string V) : list (string * V) := sort_on fst (map_to_list m).

Lemma elem_of_btree_iter {V} (m : gmap string V) k v : (k, v) ∈ btree_iter m ↔ m !! k = Some v.
Proof. unfold btree_iter. by rewrite elem_of_sort_on, elem_of_map_to_list. Qed.

Lemma NoDup_fst_btree_iter {V} (m : gmap string V) : NoDup (btree_iter m).*1.
Proof. unfold btree_iter. rewrite sort_on_perm. apply NoDup_fst_map_to_list. Qed.

Lemma btree_iter_nil {V} (m : gmap string V) : btree_iter m = [] ↔ m = ∅.
Proof.
  unfold btree_iter. split.
  - intros H. apply map_to_list_empty_iff.
    apply Permutation_nil_r. by rewrite <-H, sort_on_perm.
  - intros ->. by rewrite map_to_list_empty.
Qed.

(** ** Options *)

Definition option_bool {A} (o : option A) : bool :=
  match o with Some _ => true | None => false end.

Lemma option_bool_true {A} (o : option A) : option_bool o = true ↔ is_Some o.
Proof. destruct o; simpl; split; intros H; try done; by destruct H. Qed.

(** ** Integer ranges *)

Lemma StronglySorted_filter {A} (R : relation A) (P : A → Prop) `{∀ x, Decision (P x)} l :
  StronglySorted R l → StronglySorted R (filter P l).
Proof.
  induction 1 as [|x l Hl IH Hx]; [constructor|]. rewrite filter_cons. case_decide; [|done].
  constructor; [done|]. rewrite Forall_forall in *. intros y [_ Hy]%list_elem_of_filter. by apply Hx.
Qed.

Lemma list_filter_every {A} (P : A → Prop) `{∀ x, Decision (P x)} (l : list A) :
  (∀ x, x ∈ l → P x) → filter P l = l.
Proof.
  induction l as [|x l IH]; [done|]. intros Hl.
  rewrite filter_cons_True by (apply Hl; by left). f_equal. apply IH. set_solver.
Qed.

Lemma Forall2_elem_r {A B} (P : A → B → Prop) xs ys y : Forall2 P xs ys → y ∈ ys → ∃ x, x ∈ xs ∧ P x y.
Proof.
  induction 1 as [|x y' xs ys Hp _ IH]; [by intros ?%elem_of_nil|].
  intros [->|Hin]%elem_of_cons; [exists x; split; [by left|done]|].
  destruct (IH Hin) as (x' & ? & ?). exists x'. split; [by right|done].
Qed.

Lemma Forall2_elem_l {A B} (P : A → B → Prop) xs ys x : Forall2 P xs ys → x ∈ xs → ∃ y, y ∈ ys ∧ P x y.
Proof. intros H%Forall2_flip Hx. by apply (Forall2_elem_r _ _ _ _ H). Qed.

Lemma Forall2_keys {A B K} (P : A → B → Prop) (f : A → K) (g : B → K) xs ys :
  (∀ x y, P x y → f x = g y) → Forall2 P xs ys → f <$> xs = g <$> ys.
Proof. intros H. induction 1 as [|x y xs ys Hp _ IH]; [done|]. by rewrite !fmap_cons, IH, (H x y). Qed.

(** Elements of a list without repeated keys are determined by their keys. *)
Lemma NoDup_fmap_inj_on {A B} (f : A → B) (l : list A) x y :
  NoDup (f <$> l) → x ∈ l → y ∈ l → f x = f y → x = y.
Proof.
  induction l as [|z l IH]; [by intros _ ?%elem_of_nil|]. simpl. intros [Hz Hnd]%NoDup_cons.
  intros [->|Hx]%elem_of_cons [->|Hy]%elem_of_cons Heq; [done|..|by apply IH].
  - destruct Hz. rewrite Heq. by apply list_elem_of_fmap_2.
  - destruct Hz. rewrite <-Heq. by apply list_elem_of_fmap_2.
Qed.

Lemma list_filter_none {A} (P : A → Prop) `{∀ x, Decision (P x)} l :
  (∀ x, x ∈ l → ¬ P x) → filter P l = [].
Proof.
  intros Hl. induction l as [|x l IH]; [done|]. rewrite filter_cons_False; [|apply Hl; by left].
  apply IH. intros y Hy. apply Hl. by right.
Qed.

Lemma seqZ_sorted a n : StronglySorted Z.lt (seqZ a n).
Proof.
  assert (seqZ a n = seqZ a (Z.of_nat (Z.to_nat n))) as -> by (unfold seqZ; by rewrite Nat2Z.id).
  generalize (Z.to_nat n) as m. clear n. intros m. revert a. induction m as [|m IH]; intros a.
  - rewrite seqZ_nil by lia. constructor.
  - rewrite seqZ_cons by lia. replace (Z.pred (Z.of_nat (S m))) with (Z.of_nat m) by lia.
    constructor; [done|]. apply Forall_forall. intros p Hp%elem_of_seqZ. lia.
Qed.
