(* ===== verification/RustStr.v ===== *)
(** * The parts of Rust's [str] and [char] the program uses

    A Rust string is its sequence of UTF-8 bytes, a Rocq [string].  Operations
    that Rust defines on bytes, or on ASCII patterns, act on the bytes directly;
    [chars] groups the bytes of valid UTF-8 into characters, for the operations
    that Rust defines on characters ([trim], [is_whitespace], [to_lowercase]). *)

From S2P Require Import Prelude.

(** ** Bytes *)

Definition byte_in (lo hi : nat) (c : ascii) : bool :=
  (lo <=? Ascii.nat_of_ascii c) && (Ascii.nat_of_ascii c <=? hi).

Definition is_ascii_digit (c : ascii) : bool := byte_in 48 57 c.
Definition is_ascii_uppercase (c : ascii) : bool := byte_in 65 90 c.
Definition is_ascii_lowercase (c : ascii) : bool := byte_in 97 122 c.
Definition is_ascii_alphanumeric (c : ascii) : bool :=
  is_ascii_digit c || is_ascii_uppercase c || is_ascii_lowercase c.
Definition is_ascii_hexdigit (c : ascii) : bool :=
  is_ascii_digit c || byte_in 65 70 c || byte_in 97 102 c.

Definition char_to_ascii_lowercase (c : ascii) : ascii :=
  if is_ascii_uppercase c then Ascii.ascii_of_nat (Ascii.nat_of_ascii c + 32) else c.

Definition char_eqb (c d : ascii) : bool := Ascii.eqb c d.

Definition byte_of (n : nat) : string := String (Ascii.ascii_of_nat n) "".
Definition NEWLINE : ascii := "010".
Definition CARRIAGE_RETURN : ascii := "013".
Definition TAB : ascii := "009".
Definition QUOTE : ascii := "034".
Definition BACKSLASH : ascii := "092".

(** ** Strings *)

Fixpoint str_all (p : ascii → bool) (s : string) : bool :=
  match s with "" => true | String c s => p c && str_all p s end.

Fixpoint str_map (f : ascii → ascii) (s : string) : string :=
  match s with "" => "" | String c s => String (f c) (str_map f s) end.

Definition to_ascii_lowercase : string → string := str_map char_to_ascii_lowercase.
Definition replace (c d : ascii) : string → string :=
  str_map (λ x, if char_eqb x c then d else x).
Definition contains (c : ascii) (s : string) : bool := negb (str_all (λ x, negb (char_eqb x c)) s).
Definition is_empty (s : string) : bool := match s with "" => true | _ => false end.
Definition len (s : string) : nat := String.length s.

Definition str_head (s : string) : option ascii :=
  match s with "" => None | String c _ => Some c end.
Fixpoint str_last (s : string) : option ascii :=
  match s with "" => None | String c "" => Some c | String _ s => str_last s end.
Definition starts_with_char (c : ascii) (s : string) : bool := bool_decide (str_head s = Some c).
Definition ends_with_char (c : ascii) (s : string) : bool := bool_decide (str_last s = Some c).

Fixpoint strip_prefix (p s : string) : option string :=
  match p, s with
  | "", _ => Some s
  | String a p, String b s => if char_eqb a b then strip_prefix p s else None
  | _, "" => None
  end.
Fixpoint strip_suffix (p s : string) : option string :=
  if bool_decide (s = p) then Some ""
  else match s with "" => None | String c s => String c <$> strip_suffix p s end.
Definition starts_with (p s : string) : bool := option_bool (strip_prefix p s).
Definition ends_with (p s : string) : bool := option_bool (strip_suffix p s).

(** [s.split(c)]: never empty. *)
Fixpoint split (c : ascii) (s : string) : list string :=
  match s with
  | "" => [""]
  | String d s =>
      if char_eqb d c then "" :: split c s
      else match split c s with
           | h :: t => String d h :: t
           | [] => [String d ""]
           end
  end.

(** [s.split_once(c)]. *)
Fixpoint split_once (c : ascii) (s : string) : option (string * string) :=
  match s with
  | "" => None
  | String d s =>
      if char_eqb d c then Some ("", s)
      else '(a, b) ← split_once c s; Some (String d a, b)
  end.

Fixpoint str_concat (l : list string) : string :=
  match l with [] => "" | s :: l => s +:+ str_concat l end.

(** [l.join(sep)]. *)
Fixpoint join (sep : string) (l : list string) : string :=
  match l with
  | [] => ""
  | [s] => s
  | s :: l => s +:+ sep +:+ join sep l
  end.

Fixpoint str_take (n : nat) (s : string) : string :=
  match n, s with
  | S n, String c s => String c (str_take n s)
  | _, _ => ""
  end.
Fixpoint str_drop (n : nat) (s : string) : string :=
  match n, s with
  | S n, String _ s => str_drop n s
  | _, _ => s
  end.

Fixpoint drop_while {A} (p : A → bool) (l : list A) : list A :=
  match l with [] => [] | x :: l' => if p x then drop_while p l' else l end.

(** [trim_end_matches(c)]: the last bytes equal to [c] are removed. *)
Fixpoint trim_end_matches (c : ascii) (s : string) : string :=
  match s with
  | "" => ""
  | String d s =>
      match trim_end_matches c s with
      | "" => if char_eqb d c then "" else String d ""
      | s => String d s
      end
  end.

(** ** Characters *)

Definition is_continuation (c : ascii) : bool := byte_in 128 191 c.
Definition is_ascii (c : ascii) : bool := Ascii.nat_of_ascii c <? 128.

(** [s.chars()]: an ASCII byte is a character; any other byte that is not a UTF-8
    continuation byte starts one, and continuation bytes follow it. *)
Fixpoint chars (s : string) : list string :=
  match s with
  | "" => []
  | String c s =>
      match chars s with
      | (String d r as g) :: gs =>
          if is_continuation d && negb (is_ascii c) then String c g :: gs else String c "" :: g :: gs
      | gs => String c "" :: gs
      end
  end.

Definition utf8_2 (a b : nat) : string := byte_of a +:+ byte_of b.
Definition utf8_3 (a b c : nat) : string := byte_of a +:+ byte_of b +:+ byte_of c.

(** The Unicode property White_Space, which is what [char::is_whitespace] tests. *)
Definition whitespace_chars : list string :=
  (byte_of <$> [9; 10; 11; 12; 13; 32])
  ++ [utf8_2 194 133; utf8_2 194 160; utf8_3 225 154 128]
  ++ (utf8_3 226 128 <$> [128; 129; 130; 131; 132; 133; 134; 135; 136; 137; 138; 168; 169; 175])
  ++ [utf8_3 226 129 159; utf8_3 227 128 128].
Definition is_whitespace (c : string) : bool := bool_decide (c ∈ whitespace_chars).

Definition trim_start (s : string) : string := str_concat (drop_while is_whitespace (chars s)).
Definition trim_end (s : string) : string :=
  str_concat (reverse (drop_while is_whitespace (reverse (chars s)))).
Definition trim (s : string) : string := trim_end (trim_start s).

(** [char::to_lowercase], exact on ASCII and on the two characters outside ASCII
    whose lowercase form contains an ASCII character (the Kelvin sign and the
    dotted capital I).  The lowercase form of any other character has no ASCII
    character, and no caller distinguishes such characters. *)
Definition to_lowercase (c : string) : list string :=
  match c with
  | String a "" => [String (char_to_ascii_lowercase a) ""]
  | _ =>
      if bool_decide (c = utf8_3 226 132 170) then ["k"]
      else if bool_decide (c = utf8_2 196 176) then ["i"; utf8_2 204 135]
      else [c]
  end.

Definition char_is_ascii_alphanumeric (c : string) : bool :=
  match c with String a "" => is_ascii_alphanumeric a | _ => false end.

(** ** Numbers *)

Definition digit_value (c : ascii) : N := N_of_ascii c - 48.

Fixpoint digits_value (acc : N) (s : string) : option N :=
  match s with
  | "" => Some acc
  | String c s => if is_ascii_digit c then digits_value (10 * acc + digit_value c)%N s else None
  end.

Definition U64_MAX : N := 2 ^ 64 - 1.

(** [s.parse::<u64>()]: an optional plus sign, at least one digit, no overflow. *)
Definition parse_u64 (s : string) : option N :=
  let digits := match s with String c s' => if char_eqb c "+" then s' else s | _ => s end in
  if is_empty digits then None
  else n ← digits_value 0 digits; if (n <=? U64_MAX)%N then Some n else None.

(** [format!("{n}")], and [format!("{n:0w$}")] of a number that is not negative. *)
Definition show_nat (n : nat) : string := pretty n.
Fixpoint zeros (n : nat) : string := match n with 0 => "" | S n => String "0" (zeros n) end.
Definition show_padded (w : nat) (n : N) : string := zeros (w - len (pretty n)) +:+ pretty n.

(** [format!("{s:?}")]: exact on the printable ASCII characters and the escapes
    that Rust writes with a letter; other characters are written unchanged. *)
Fixpoint debug_escape (s : string) : string :=
  match s with
  | "" => ""
  | String c s =>
      (if char_eqb c QUOTE then String BACKSLASH (String QUOTE "")
       else if char_eqb c BACKSLASH then String BACKSLASH (String BACKSLASH "")
       else if char_eqb c NEWLINE then String BACKSLASH "n"
       else if char_eqb c CARRIAGE_RETURN then String BACKSLASH "r"
       else if char_eqb c TAB then String BACKSLASH "t"
       else String c "") +:+ debug_escape s
  end.
Definition debug_str (s : string) : string :=
  String QUOTE (debug_escape s) +:+ String QUOTE "".

(** ** Facts *)

Lemma str_app_nil_r (s : string) : s +:+ "" = s.
Proof. induction s as [|c s IH]; [done|]. cbn. by f_equal. Qed.
Lemma str_app_assoc (s t u : string) : s +:+ t +:+ u = (s +:+ t) +:+ u.
Proof. induction s as [|c s IH]; [done|]. cbn. by f_equal. Qed.
Lemma len_app (s t : string) : len (s +:+ t) = len s + len t.
Proof. induction s as [|c s IH]; [done|]. cbn in *. by f_equal. Qed.
Lemma str_app_inv_l (s t u : string) : s +:+ t = s +:+ u → t = u.
Proof. apply (inj (String.append s)). Qed.
Lemma str_cons_app c s t : String c s +:+ t = String c (s +:+ t).
Proof. done. Qed.
Lemma str_app_singleton c s : String c "" +:+ s = String c s.
Proof. done. Qed.
Lemma is_empty_true s : is_empty s = true ↔ s = "".
Proof. split; by destruct s. Qed.
Lemma is_empty_false s : is_empty s = false ↔ s ≠ "".
Proof. split; by destruct s. Qed.

Lemma char_eqb_eq c d : char_eqb c d = true ↔ c = d.
Proof. unfold char_eqb. by apply Ascii.eqb_eq. Qed.
Lemma char_eqb_neq c d : char_eqb c d = false ↔ c ≠ d.
Proof. apply Ascii.eqb_neq. Qed.
Lemma char_eqb_refl c : char_eqb c c = true.
Proof. by apply char_eqb_eq. Qed.

(** Case analysis on whether two bytes are equal. *)
Ltac case_char :=
  match goal with
  | |- context [char_eqb ?c ?d] =>
      let E := fresh "Hc" in destruct (char_eqb c d) eqn:E;
      [apply char_eqb_eq in E|apply char_eqb_neq in E]
  | H : context [char_eqb ?c ?d] |- _ =>
      let E := fresh "Hc" in destruct (char_eqb c d) eqn:E;
      [apply char_eqb_eq in E|apply char_eqb_neq in E]
  end.

Lemma str_all_app p s t : str_all p (s +:+ t) = str_all p s && str_all p t.
Proof. induction s as [|c s IH]; [done|]. cbn in *. by rewrite IH, andb_assoc. Qed.
Lemma str_all_impl (p q : ascii → bool) s :
  (∀ c, p c = true → q c = true) → str_all p s = true → str_all q s = true.
Proof. intros Hpq. induction s as [|c s IH]; [done|]. simpl. intros; split_bools. by rewrite Hpq, IH. Qed.
Lemma str_all_take p n s : str_all p s = true → str_all p (str_take n s) = true.
Proof.
  revert n. induction s as [|c s IH]; intros [|n]; simpl; try done.
  intros; split_bools. by rewrite H, IH.
Qed.
Lemma str_all_map p f s : str_all p (str_map f s) = str_all (λ c, p (f c)) s.
Proof. induction s as [|c s IH]; [done|]. simpl. by rewrite IH. Qed.
Lemma len_str_map f s : len (str_map f s) = len s.
Proof. induction s as [|c s IH]; [done|]. cbn in *. by f_equal. Qed.
Lemma len_str_take n s : len (str_take n s) = n `min` len s.
Proof. revert n. induction s as [|c s IH]; intros [|n]; cbn; [done..|]. f_equal. apply IH. Qed.

(** A byte absent from a string, as the boolean the operations compute. *)
Definition lacks (c : ascii) (s : string) : bool := str_all (λ x, negb (char_eqb x c)) s.

Lemma lacks_cons c d s : lacks c (String d s) = negb (char_eqb d c) && lacks c s.
Proof. done. Qed.

Lemma lacks_app c s t : lacks c (s +:+ t) = lacks c s && lacks c t.
Proof. apply str_all_app. Qed.
Lemma contains_lacks c s : contains c s = negb (lacks c s).
Proof. done. Qed.
Lemma str_all_lacks p c s : p c = false → str_all p s = true → lacks c s = true.
Proof.
  intros Hc. apply str_all_impl. intros d Hd.
  apply negb_true_iff, char_eqb_neq. congruence.
Qed.

Lemma strip_prefix_Some p s r : strip_prefix p s = Some r ↔ s = p +:+ r.
Proof.
  revert s. induction p as [|a p IH]; intros s; [split; [by intros [= ->]|by intros ->]|].
  destruct s as [|b s]; simpl; [done|]. case_char; subst.
  - rewrite IH. split; [by intros ->|by intros [= ->]].
  - split; [done|]. congruence.
Qed.
Lemma strip_prefix_app p r : strip_prefix p (p +:+ r) = Some r.
Proof. by apply strip_prefix_Some. Qed.

Lemma strip_suffix_unfold p s :
  strip_suffix p s = if bool_decide (s = p) then Some ""
    else match s with "" => None | String c s => String c <$> strip_suffix p s end.
Proof. by destruct s. Qed.
Lemma str_app_length_ne (c : ascii) (s p : string) : String c s +:+ p ≠ p.
Proof. intros H%(f_equal len). rewrite len_app in H. simpl in H. lia. Qed.
Lemma strip_suffix_Some p s r : strip_suffix p s = Some r ↔ s = r +:+ p.
Proof.
  revert r. induction s as [|c s IH]; intros r; rewrite strip_suffix_unfold; case_bool_decide as Hp.
  - subst. destruct r; [done|]. by split.
  - split; [done|]. destruct r; simpl; [by intros <-|done].
  - subst. split; [by intros [= <-]|]. destruct r; [done|].
    intros Heq; symmetry in Heq; by apply str_app_length_ne in Heq.
  - rewrite fmap_Some. setoid_rewrite IH. split.
    + by intros (? & -> & ->).
    + destruct r as [|d r]; [intros Heq; by simpl in Heq|]. simpl. intros [= -> ->]. eauto.
Qed.
Lemma ends_with_app p r : ends_with p (r +:+ p) = true.
Proof. apply option_bool_true. exists r. by apply strip_suffix_Some. Qed.
Lemma ends_with_true p s : ends_with p s = true ↔ ∃ r, s = r +:+ p.
Proof. unfold ends_with. rewrite option_bool_true. unfold is_Some. by setoid_rewrite strip_suffix_Some. Qed.

Lemma str_last_app s c : str_last (s +:+ String c "") = Some c.
Proof. induction s as [|d s IH]; [done|]. simpl. rewrite IH. by destruct s. Qed.
Lemma str_last_Some s c : str_last s = Some c ↔ ∃ t, s = t +:+ String c "".
Proof.
  split; [|by intros [t ->]; apply str_last_app].
  induction s as [|d s IH]; [done|]. simpl. destruct s as [|e s].
  - intros [= ->]. by exists "".
  - intros [t ->]%IH. by exists (String d t).
Qed.
Lemma ends_with_char_Some c s : ends_with_char c s = true ↔ ∃ t, s = t +:+ String c "".
Proof. unfold ends_with_char. by rewrite bool_decide_eq_true, str_last_Some. Qed.

(** *** [split] and [join] *)

Lemma split_nonempty c s : split c s ≠ [].
Proof. destruct s; simpl; [done|]. case_char; [done|]. by destruct (split c s). Qed.

Lemma split_cons_ne c d s : d ≠ c →
  ∃ h t, split c s = h :: t ∧ split c (String d s) = String d h :: t.
Proof.
  intros Hd. simpl. rewrite (proj2 (char_eqb_neq d c) Hd).
  destruct (split c s) eqn:E; [by apply split_nonempty in E|eauto].
Qed.

Lemma join_cons sep s l : l ≠ [] → join sep (s :: l) = s +:+ sep +:+ join sep l.
Proof. by destruct l. Qed.

Lemma join_split c s : join (String c "") (split c s) = s.
Proof.
  induction s as [|d s IH]; [done|]. destruct (decide (d = c)) as [->|Hd].
  - simpl. rewrite char_eqb_refl, join_cons by apply split_nonempty. by rewrite IH.
  - destruct (split_cons_ne c d s Hd) as (h & t & Hs & ->). rewrite Hs in IH.
    rewrite <-IH. destruct t; done.
Qed.

Lemma split_lacks c s : lacks c s = true → split c s = [s].
Proof.
  induction s as [|d s IH]; [done|]. rewrite lacks_cons. intros; split_bools.
  simpl. by rewrite H, IH.
Qed.

Lemma split_app_sep c s t : lacks c s = true → split c (s +:+ String c t) = s :: split c t.
Proof.
  induction s as [|d s IH]; intros H; [cbn; by rewrite char_eqb_refl|].
  rewrite lacks_cons in H; split_bools. simpl. by rewrite H, IH.
Qed.

Lemma split_app c s t : split c (s +:+ String c t) = split c s ++ split c t.
Proof.
  induction s as [|d s IH]; [simpl; by rewrite char_eqb_refl|].
  simpl. destruct (char_eqb d c); [by rewrite IH|]. rewrite IH.
  destruct (split c s) eqn:E; [by apply split_nonempty in E|done].
Qed.

Lemma split_join c l : l ≠ [] → Forall (λ s, lacks c s = true) l →
  split c (join (String c "") l) = l.
Proof.
  intros Hl Hall. induction Hall as [|s l Hs Hall IH]; [done|].
  destruct l as [|s' l]; [by apply split_lacks|].
  rewrite join_cons, str_app_singleton, split_app_sep by done. by rewrite IH.
Qed.

Lemma elem_of_split_all p c s x : str_all p s = true → x ∈ split c s → str_all p x = true.
Proof.
  revert x. induction s as [|d s IH]; intros x Hs; [by intros ->%list_elem_of_singleton|].
  simpl in Hs; split_bools. destruct (decide (d = c)) as [->|Hd].
  - simpl. rewrite char_eqb_refl. intros [->|]%elem_of_cons; [done|by apply IH].
  - destruct (split_cons_ne c d s Hd) as (h & t & Hs & ->).
    intros [->|Hx]%elem_of_cons; [|by apply IH; [|rewrite Hs; right]].
    simpl. rewrite H. apply IH; [done|]. rewrite Hs. by left.
Qed.

Lemma split_pieces_lack c s : Forall (λ x, lacks c x = true) (split c s).
Proof.
  induction s as [|d s IH]; [by repeat constructor|].
  destruct (decide (d = c)) as [->|Hd].
  - simpl. rewrite char_eqb_refl. by constructor.
  - destruct (split_cons_ne c d s Hd) as (h & t & Hs & ->). rewrite Hs in IH.
    apply Forall_cons in IH as [Hh Ht]. constructor; [|done].
    rewrite lacks_cons. by rewrite (proj2 (char_eqb_neq d c) Hd).
Qed.

Lemma split_once_Some c s a b :
  split_once c s = Some (a, b) ↔ s = a +:+ String c b ∧ lacks c a = true.
Proof.
  revert a. induction s as [|d s IH]; intros a; simpl.
  - split; [done|]. intros [H _]. by destruct a.
  - destruct (decide (d = c)) as [->|Hd].
    + rewrite char_eqb_refl. split; [by intros [= <- <-]|].
      intros [H Ha]. destruct a as [|e a]; [by injection H as ->|].
      simpl in H. injection H as -> H.
      by rewrite lacks_cons, char_eqb_refl in Ha.
    + rewrite (proj2 (char_eqb_neq d c) Hd). split.
      * destruct (split_once c s) as [[a' b']|]; simpl; [|done]. intros [= <- <-].
        destruct (proj1 (IH a') eq_refl) as [-> Ha']. split; [done|].
        rewrite lacks_cons. by rewrite (proj2 (char_eqb_neq d c) Hd).
      * intros [H Ha]. destruct a as [|e a]; [by injection H as ->|].
        simpl in H. injection H as -> H.
        rewrite lacks_cons in Ha; split_bools.
        by rewrite (proj2 (IH a) (conj H H1)).
Qed.

(** *** Characters *)

Lemma str_concat_app l1 l2 : str_concat (l1 ++ l2) = str_concat l1 +:+ str_concat l2.
Proof. induction l1 as [|s l1 IH]; [done|]. simpl. by rewrite IH, str_app_assoc. Qed.

Lemma str_concat_chars s : str_concat (chars s) = s.
Proof.
  induction s as [|c s IH]; [done|]. simpl.
  destruct (chars s) as [|[|d r] gs]; simpl in *.
  - by rewrite <-IH.
  - cbn. by rewrite <-IH.
  - destruct (is_continuation d && negb (is_ascii c)); cbn; by rewrite <-IH.
Qed.

(** A string without continuation bytes, in particular an ASCII one, has one
    character per byte. *)
Fixpoint singles (s : string) : list string :=
  match s with "" => [] | String c s => String c "" :: singles s end.

Lemma chars_cons_ascii c s : is_ascii c = true → chars (String c s) = String c "" :: chars s.
Proof.
  intros Hc. simpl. destruct (chars s) as [|[|d r] gs] eqn:E; [done| |].
  - pose proof (str_concat_chars s) as H. rewrite E in H.
    destruct s as [|e s]; [done|]. simpl in E. destruct (chars s) as [|[|]]; [done..|by case_match].
  - by rewrite Hc, andb_false_r.
Qed.

Lemma chars_ascii s : str_all is_ascii s = true → chars s = singles s.
Proof.
  induction s as [|c s IH]; [done|]. cbn [str_all]. intros; split_bools.
  by rewrite chars_cons_ascii, IH.
Qed.

(** An ASCII byte of a string is one of its characters. *)
Lemma chars_elem_ascii c s : is_ascii c = true → lacks c s = false → String c "" ∈ chars s.
Proof.
  intros Hc. induction s as [|d s IH]; [done|]. rewrite lacks_cons.
  destruct (decide (d = c)) as [->|Hd]; [rewrite chars_cons_ascii by done; by left|].
  rewrite (proj2 (char_eqb_neq d c) Hd). simpl. intros H. specialize (IH H). clear H.
  destruct (chars s) as [|[|e r] gs]; [by apply not_elem_of_nil in IH|by right|].
  destruct (is_continuation e) eqn:He; simpl; [|by right].
  destruct (is_ascii d); simpl; [by right|]. apply elem_of_cons in IH as [[= <- <-]|IH]; [|by right].
  exfalso. unfold is_ascii, is_continuation, byte_in in *. split_bools.
  apply Nat.ltb_lt in Hc. apply Nat.leb_le in H. lia.
Qed.

(** *** Trimming *)

Lemma drop_while_id {A} (p : A → bool) l x : head l = Some x → p x = false → drop_while p l = l.
Proof. destruct l; simpl; [done|]. by intros [= ->] ->. Qed.

Lemma head_singles c s : head (singles (String c s)) = Some (String c "").
Proof. done. Qed.

Lemma singles_last s c : str_last s = Some c → last (singles s) = Some (String c "").
Proof.
  induction s as [|d s IH]; [done|]. destruct s as [|e s]; [by intros [= ->]|].
  intros H. specialize (IH H). simpl in *. done.
Qed.

(** A printable ASCII byte: neither whitespace nor part of a longer character. *)
Definition is_graph (c : ascii) : bool := byte_in 33 126 c.

(** A property of bytes, checked on all 256 of them. *)
Definition all_bytes (p : ascii → bool) : bool :=
  forallb (λ n, p (Ascii.ascii_of_nat n)) (seq 0 256).
Lemma all_bytes_spec p : all_bytes p = true → ∀ c, p c = true.
Proof.
  intros H c. unfold all_bytes in H. rewrite forallb_forall in H.
  rewrite <-(Ascii.ascii_nat_embedding c). apply H, in_seq.
  pose proof (Ascii.nat_ascii_bounded c). lia.
Qed.

Lemma is_graph_facts c : is_graph c = true →
  is_ascii c = true ∧ is_whitespace (String c "") = false.
Proof.
  intros Hc.
  assert (implb (is_graph c) (is_ascii c && negb (is_whitespace (String c ""))) = true) as H
    by (revert c Hc; intros c _; revert c;
        apply (all_bytes_spec (λ c, implb (is_graph c) (is_ascii c && negb (is_whitespace (String c "")))));
        by vm_compute).
  rewrite Hc in H. simpl in H. split_bools. done.
Qed.

Lemma str_all_last p s c : str_all p s = true → str_last s = Some c → p c = true.
Proof. intros H [t ->]%str_last_Some. rewrite str_all_app in H. simpl in H. split_bools. done. Qed.

Lemma str_last_nonempty s : s ≠ "" → ∃ c, str_last s = Some c.
Proof.
  induction s as [|c s IH]; [done|]. intros _. destruct s as [|d s]; [by exists c|].
  destruct IH as [e He]; [done|]. by exists e.
Qed.

Lemma chars_graph s : str_all is_graph s = true → chars s = singles s.
Proof. intros H. apply chars_ascii. eapply str_all_impl; [|done]. by intros ? [? _]%is_graph_facts. Qed.

Lemma trim_start_graph s : str_all is_graph s = true → trim_start s = s.
Proof.
  intros H. unfold trim_start. destruct s as [|c s]; [done|].
  rewrite (drop_while_id _ _ (String c "")).
  - by rewrite str_concat_chars.
  - by rewrite chars_graph.
  - simpl in H; split_bools. by apply is_graph_facts.
Qed.

Lemma trim_end_graph s : str_all is_graph s = true → trim_end s = s.
Proof.
  intros H. destruct (decide (s = "")) as [->|Hne]; [done|].
  destruct (str_last_nonempty s Hne) as [c Hc]. unfold trim_end.
  rewrite (drop_while_id _ _ (String c "")).
  - by rewrite reverse_involutive, str_concat_chars.
  - rewrite chars_graph by done. apply singles_last in Hc.
    rewrite <-last_reverse, reverse_involutive. done.
  - apply is_graph_facts. by eapply str_all_last.
Qed.

Lemma trim_graph s : str_all is_graph s = true → trim s = s.
Proof. intros H. unfold trim. by rewrite trim_start_graph, trim_end_graph. Qed.

Lemma trim_end_matches_all p c s : str_all p s = true → str_all p (trim_end_matches c s) = true.
Proof.
  induction s as [|d s IH]; [done|]. simpl. intros; split_bools. specialize (IH H0).
  destruct (trim_end_matches c s); [case_char; simpl; by rewrite ?H|].
  cbn [str_all] in *. by rewrite H, IH.
Qed.

Lemma trim_end_matches_last c s : ends_with_char c (trim_end_matches c s) = false.
Proof.
  induction s as [|d s IH]; [by apply bool_decide_eq_false|]. simpl.
  destruct (trim_end_matches c s) as [|e t] eqn:E.
  - case_char; [done|]. apply bool_decide_eq_false. simpl. congruence.
  - unfold ends_with_char in *. exact IH.
Qed.

Lemma trim_end_matches_head c s :
  trim_end_matches c s = "" ∨ str_head (trim_end_matches c s) = str_head s.
Proof.
  destruct s as [|d s]; [by left|]. simpl.
  destruct (trim_end_matches c s); [case_char; [by left|by right]|by right].
Qed.

Lemma len_trim_end_matches c s : len (trim_end_matches c s) ≤ len s.
Proof.
  induction s as [|d s IH]; [done|]. simpl in *.
  destruct (trim_end_matches c s); [case_char; simpl; lia|]. simpl in *. lia.
Qed.

Lemma trim_end_matches_id c s : ends_with_char c s = false → trim_end_matches c s = s.
Proof.
  induction s as [|d s IH]; [done|]. unfold ends_with_char. intros H%bool_decide_eq_false. simpl.
  destruct s as [|e s].
  - simpl in *. case_char; [congruence|done].
  - rewrite IH; [done|]. apply bool_decide_eq_false. by simpl in *.
Qed.

Lemma trim_end_matches_nonempty c s : s ≠ "" → starts_with_char c s = false →
  trim_end_matches c s ≠ "".
Proof.
  destruct s as [|d s]; [done|]. unfold starts_with_char. intros _ Hd%bool_decide_eq_false. simpl in *.
  destruct (trim_end_matches c s); [|done]. case_char; [congruence|done].
Qed.

(** ** Decimal text *)

Lemma digits_value_app acc s t :
  digits_value acc (s +:+ t) = acc' ← digits_value acc s; digits_value acc' t.
Proof.
  revert acc. induction s as [|c s IH]; intros acc; [done|]. simpl.
  by destruct (is_ascii_digit c).
Qed.

Lemma pretty_digit (d : N) : (d < 10)%N →
  is_ascii_digit (pretty_N_char d) = true ∧ digit_value (pretty_N_char d) = d.
Proof.
  intros Hd.
  assert (d = 0 ∨ d = 1 ∨ d = 2 ∨ d = 3 ∨ d = 4 ∨ d = 5 ∨ d = 6 ∨ d = 7 ∨ d = 8 ∨ d = 9)%N
    as H by lia.
  by repeat destruct H as [->|H]; [..|subst].
Qed.

(** The digits [pretty] writes for [n], read back from any accumulator. *)
Lemma digits_value_pretty_go (n : N) : ∀ s,
  (0 < n)%N → ∃ w, (∀ t, pretty_N_go n t = w +:+ t) ∧ w ≠ "" ∧ str_all is_ascii_digit w = true
    ∧ starts_with_char "0" w = false ∧ digits_value 0 (w +:+ s) = digits_value n s.
Proof.
  induction (N.lt_wf_0 n) as [n _ IH]. intros s Hn.
  destruct (pretty_digit (n mod 10)) as [Hdig Hval]; [by apply N.mod_lt|].
  pose proof (N.div_mod n 10 ltac:(done)) as Hdm.
  destruct (decide (n < 10)%N) as [Hlt|Hge].
  - pose proof (N.mod_small n 10 Hlt) as Hmod. rewrite Hmod in *.
    exists (String (pretty_N_char n) ""). split_and!.
    + intros t. rewrite pretty_N_go_step by done.
      rewrite Hmod, N.div_small by done. apply pretty_N_go_0.
    + done.
    + simpl. by rewrite Hdig.
    + apply bool_decide_eq_false. simpl. intros [= Hz]. rewrite Hz in Hval.
      vm_compute in Hval. lia.
    + simpl. rewrite Hdig, Hval. f_equal.
  - destruct (IH (n / 10)%N) with (s := String (pretty_N_char (n mod 10)) s)
      as (w & Hw & Hne & Hall & Hz & Hv).
    { apply N.div_lt; lia. } { apply N.div_str_pos. lia. }
    exists (w +:+ String (pretty_N_char (n mod 10)) ""). split_and!.
    + intros t. rewrite pretty_N_go_step by done. by rewrite Hw, <-str_app_assoc.
    + by destruct w.
    + rewrite str_all_app, Hall. simpl. by rewrite Hdig.
    + by destruct w.
    + rewrite <-str_app_assoc. simpl. rewrite Hv. simpl. rewrite Hdig, Hval. f_equal. lia.
Qed.

Lemma pretty_N_digits (n : N) :
  pretty n ≠ "" ∧ str_all is_ascii_digit (pretty n) = true
  ∧ ((1 <? len (pretty n)) && starts_with_char "0" (pretty n) = false)
  ∧ digits_value 0 (pretty n) = Some n.
Proof.
  unfold pretty, pretty_N. case_decide as Hn; [by subst; vm_compute|].
  destruct (digits_value_pretty_go n "") as (w & Hw & Hne & Hall & Hz & Hv); [lia|].
  rewrite Hw, !str_app_nil_r in *. split_and!; [done..| |done].
  by rewrite Hz, andb_false_r.
Qed.

Lemma parse_u64_pretty (n : N) : (n ≤ U64_MAX)%N → parse_u64 (pretty n) = Some n.
Proof.
  intros Hn. destruct (pretty_N_digits n) as (Hne & Hall & _ & Hv). unfold parse_u64.
  assert (match pretty n with
          | String c s' => if char_eqb c "+" then s' else pretty n
          | _ => pretty n end = pretty n) as ->.
  { destruct (pretty n) as [|c s] eqn:E; [done|]. simpl in Hall. split_bools.
    case_char; [by subst|done]. }
  rewrite (proj2 (is_empty_false _) Hne), Hv. simpl. by rewrite (proj2 (N.leb_le _ _) Hn).
Qed.

Lemma parse_u64_bound s n : parse_u64 s = Some n → (n ≤ U64_MAX)%N.
Proof.
  unfold parse_u64. destruct (is_empty _); [done|]. destruct (digits_value _ _); simpl; [|done].
  destruct (N.leb_spec n0 U64_MAX); naive_solver.
Qed.

Lemma show_nat_digits n : str_all is_ascii_digit (show_nat n) = true ∧ show_nat n ≠ "".
Proof. destruct (pretty_N_digits (N.of_nat n)) as (? & ? & _). done. Qed.

Lemma show_nat_inj n m : show_nat n = show_nat m → n = m.
Proof. apply (inj pretty). Qed.

Lemma digits_value_lower acc s n : digits_value acc s = Some n → (acc * 10 ^ N.of_nat (len s) ≤ n)%N.
Proof.
  revert acc. induction s as [|c s IH]; intros acc; simpl.
  - intros [= ->]. lia.
  - destruct (is_ascii_digit c); [|done]. intros H%IH. etrans; [|exact H].
    change (N.of_nat (S (len s))) with (N.of_nat (S (len s))). rewrite Nat2N.inj_succ, N.pow_succ_r'. nia.
Qed.

(** The number of digits of a small number. *)
Lemma len_show_nat n k : (N.of_nat n < 10 ^ N.of_nat k)%N → 0 < k → len (show_nat n) ≤ k.
Proof.
  intros Hn Hk. change (show_nat n) with (pretty (N.of_nat n)).
  destruct (pretty_N_digits (N.of_nat n)) as (Hne & Hd & Hz & Hv).
  destruct (pretty (N.of_nat n)) as [|c s] eqn:E; [done|]. simpl in *.
  destruct (is_ascii_digit c) eqn:Hc; [|done]. apply digits_value_lower in Hv.
  destruct (Nat.ltb_spec 1 (S (len s))) as [Hlt|]; [|lia].
  assert (1 ≤ digit_value c)%N.
  { assert (c ≠ "0"%char) as Hc0.
    { intros ->. unfold starts_with_char in Hz. by rewrite bool_decide_eq_true_2 in Hz. }
    clear -Hc Hc0. unfold digit_value. revert Hc Hc0. unfold is_ascii_digit, byte_in.
    intros H Hne. split_bools. apply Nat.leb_le in H, H0.
    assert (Ascii.nat_of_ascii c ≠ 48) as H1.
    { intros H1. apply Hne. by rewrite <-(Ascii.ascii_nat_embedding c), H1. }
    unfold Ascii.nat_of_ascii in *. lia. }
  destruct (decide (len s < k)) as [|Hge]; [lia|]. exfalso.
  assert (10 ^ N.of_nat k ≤ 10 ^ N.of_nat (len s))%N by (apply N.pow_le_mono_r; lia). nia.
Qed.
