(* ===== verification/Paths.v ===== *)
(** * Lexical paths: [camino::Utf8Path] over [std::path] on Unix

    [components] follows the documented normalisation of [Path::components]:
    repeated separators and interior [.] components are dropped, a leading [.]
    and every [..] are kept. *)

From S2P Require Import Prelude RustStr.

Inductive component : Type :=
| RootDir
| CurDir
| ParentDir
| Normal (name : string).

#[export] Instance component_eq_dec : EqDecision component.
Proof. solve_decision. Defined.

Definition SEPARATOR : ascii := "/".

(** A piece after the first one. *)
Definition piece_component (s : string) : option component :=
  if bool_decide (s = "") then None
  else if bool_decide (s = ".") then None
  else if bool_decide (s = "..") then Some ParentDir
  else Some (Normal s).

Definition first_component (s : string) : option component :=
  if bool_decide (s = ".") then Some CurDir else piece_component s.

Definition is_absolute (p : string) : bool := starts_with_char SEPARATOR p.

Definition components (p : string) : list component :=
  if is_absolute p then RootDir :: omap piece_component (split SEPARATOR p)
  else match split SEPARATOR p with
       | first :: rest => option_list (first_component first) ++ omap piece_component rest
       | [] => []
       end.

(** [Path::file_name]. *)
Definition file_name (p : string) : option string :=
  match last (components p) with Some (Normal s) => Some s | _ => None end.

(** [PartialEq for Utf8Path] compares components. *)
Definition path_eqb (p q : string) : bool := bool_decide (components p = components q).

Fixpoint component_prefix (a b : list component) : bool :=
  match a, b with
  | [], _ => true
  | x :: a, y :: b => bool_decide (x = y) && component_prefix a b
  | _ :: _, [] => false
  end.

(** [path.starts_with(base)]: a whole-component prefix. *)
Definition path_starts_with (p base : string) : bool :=
  component_prefix (components base) (components p).

(** [base.join(p)]. *)
Definition path_join (base p : string) : string :=
  if is_absolute p then p
  else if is_empty base then p
  else if ends_with_char SEPARATOR base then base +:+ p
  else base +:+ "/" +:+ p.

(** ** Relative paths that stay below their root

    The loop shared by the checks on [document_root] and [env_file]: a [u32]
    depth that a normal component raises and [..] lowers, refused at zero. *)

Inductive shape_error : Type :=
| ShapeAbsolute
| ShapeEscapes.

Fixpoint check_depth (depth : nat) (l : list component) : result shape_error nat :=
  match l with
  | [] => Ok depth
  | Normal _ :: l => check_depth (S depth) l
  | ParentDir :: l =>
      match depth with
      | 0 => Err ShapeEscapes
      | S depth => check_depth depth l
      end
  | CurDir :: l => check_depth depth l
  | RootDir :: _ => Err ShapeAbsolute
  end.

Definition check_relative_shape (p : string) : result shape_error unit :=
  _ ← ensure (negb (is_absolute p)) ShapeAbsolute;
  _ ← check_depth 0 (components p);
  Ok tt.

(** The directory stack a walk along the components reaches from a root, with
    the number of times the walk leaves the root. *)
Fixpoint walk (stack : list string) (escapes : nat) (l : list component) : list string * nat :=
  match l with
  | [] => (stack, escapes)
  | Normal s :: l => walk (s :: stack) escapes l
  | ParentDir :: l =>
      match stack with
      | [] => walk [] (S escapes) l
      | _ :: stack => walk stack escapes l
      end
  | (CurDir | RootDir) :: l => walk stack escapes l
  end.

Lemma walk_escapes_le stack e l : e ≤ (walk stack e l).2.
Proof.
  revert stack e. induction l as [|[] l IH]; intros stack e; simpl; try done.
  destruct stack; [|done]. etrans; [|apply IH]. lia.
Qed.

(** The depth counter accepts exactly the walks that never leave the root. *)
Lemma check_depth_walk stack l :
  RootDir ∉ l →
  match check_depth (length stack) l with
  | Ok d => (walk stack 0 l).2 = 0 ∧ length (walk stack 0 l).1 = d
  | Err e => e = ShapeEscapes ∧ (walk stack 0 l).2 ≠ 0
  end.
Proof.
  revert stack. induction l as [|[] l IH]; intros stack Hroot;
    apply not_elem_of_cons in Hroot || simpl; try (destruct Hroot as [Hne Hroot]); [done|..]; simpl.
  - done.
  - by apply IH.
  - destruct stack as [|s stack]; simpl; [|by apply IH].
    split; [done|]. pose proof (walk_escapes_le [] 1 l). lia.
  - by apply (IH (name :: stack)).
Qed.

Lemma omap_piece_no_root (l : list string) : RootDir ∉ omap piece_component l.
Proof.
  intros (s & _ & H)%list_elem_of_omap. unfold piece_component in H.
  repeat case_bool_decide; simplify_eq.
Qed.

Lemma components_no_root p : is_absolute p = false → RootDir ∉ components p.
Proof.
  intros Hp. unfold components. rewrite Hp. destruct (split SEPARATOR p) as [|f r]; [set_solver|].
  rewrite elem_of_app. intros [H|H]; [|by eapply omap_piece_no_root].
  unfold first_component, piece_component in H. repeat case_bool_decide; set_solver.
Qed.

Lemma check_relative_shape_ok p :
  check_relative_shape p = Ok tt ↔ is_absolute p = false ∧ (walk [] 0 (components p)).2 = 0.
Proof.
  unfold check_relative_shape. destruct (is_absolute p) eqn:Hp; simpl; [naive_solver|].
  pose proof (check_depth_walk [] (components p) (components_no_root p Hp)) as H. simpl in H.
  destruct (check_depth 0 (components p)); simpl; naive_solver.
Qed.

Lemma check_relative_shape_err p e :
  check_relative_shape p = Err e → e = ShapeAbsolute ∧ is_absolute p = true
    ∨ e = ShapeEscapes ∧ is_absolute p = false ∧ (walk [] 0 (components p)).2 ≠ 0.
Proof.
  unfold check_relative_shape. destruct (is_absolute p) eqn:Hp; simpl; [naive_solver|].
  pose proof (check_depth_walk [] (components p) (components_no_root p Hp)) as H. simpl in H.
  destruct (check_depth 0 (components p)); simpl; naive_solver.
Qed.

(** Joining a piece that is one normal component appends exactly that component. *)
Lemma components_join_piece base s name :
  is_absolute base = true → lacks SEPARATOR s = true → piece_component s = Some (Normal name) →
  components (path_join base s) = components base ++ [Normal name].
Proof.
  intros Hb Hs Hp.
  assert (is_absolute s = false) as Hrel.
  { destruct s as [|c s]; [done|]. rewrite lacks_cons in Hs; split_bools.
    unfold is_absolute, starts_with_char; simpl. apply bool_decide_eq_false.
    apply char_eqb_neq in H. congruence. }
  unfold path_join. rewrite Hrel. destruct base as [|c base]; [done|]. simpl is_empty; cbv iota.
  assert (∀ b, is_absolute (String c base +:+ b) = true) as Habs by done.
  destruct (ends_with_char SEPARATOR (String c base)) eqn:He.
  - apply ends_with_char_Some in He as [t Ht]. unfold components. rewrite Habs, Hb, Ht.
    rewrite <-str_app_assoc, str_app_singleton, !split_app, (split_lacks _ s) by done.
    rewrite !omap_app. simpl. by rewrite Hp, app_nil_r.
  - unfold components. rewrite Habs, Hb, str_app_singleton, split_app, (split_lacks _ s) by done.
    rewrite omap_app. simpl. by rewrite Hp.
Qed.
