(* ===== verification/Identity.v ===== *)
(** * Resource identities: [resources/src/identity.rs], [platform.rs], [error.rs] *)

From S2P Require Import Prelude RustStr Paths.

(** ** Errors *)

Inductive ResourceHostCapability : Type := OwnerOnlyFilesystem | SymbolicLinks.

Definition host_capability_display (c : ResourceHostCapability) : string :=
  match c with
  | OwnerOnlyFilesystem => "owner-only filesystem"
  | SymbolicLinks => "symbolic links"
  end.

Inductive ResourcesError : Type :=
| UnknownResource (name : string)
| ResourceNotInManifest (resource : string)
| TrackNotFound (resource track : string)
| UnsupportedManifestSchema (schema_version supported_schema_version : N)
| RequiresNewerPv (minimum_pv_version current_pv_version : string)
| ManifestUsesAlias (alias canonical : string)
| InvalidIdentity (kind value : string)
| InvalidManifest (reason : string)
| ReservedTrackName (name : string)
| UnsupportedResourceAllocation (resource : string)
| GeneratedAllocationNameTooLong (resource allocation generated : string) (max : nat)
| MissingConcreteTrack (resource : string)
| InvalidRevocationState (reason : string)
| UnsupportedPlatform (platform : string)
| AmbiguousArtifactSelection (resource track platform : string)
| NoInstallableArtifact (resource track platform : string)
| InvalidPublishedAt (value : string)
| ManifestUnavailable (url cache_path reason : string)
| HttpRequestFailed (url reason : string)
| HttpStatusFailed (url : string) (status_code : nat)
| DownloadWriteFailed (url reason : string)
| InvalidManifestUrl (url : string)
| InvalidArtifactUrl (url : string)
| ArtifactChecksumMismatch (url expected actual : string)
| InvalidArtifactArchive (path reason : string)
| InvalidArtifactLayout (resource reason : string)
| Filesystem (path reason : string)
| UnsupportedHostCapability (capability : ResourceHostCapability) (target : string).

Definition tick (s : string) : string := "`" +:+ s +:+ "`".

(** The [Display] text, from the [#[error]] attributes. *)
Definition resources_error_display (e : ResourcesError) : string :=
  match e with
  | UnknownResource name => "unknown Managed Resource " +:+ tick name
  | ResourceNotInManifest r => "artifact manifest does not include Managed Resource " +:+ tick r
  | TrackNotFound r t => "artifact manifest resource " +:+ tick r +:+ " has no track " +:+ tick t
  | UnsupportedManifestSchema v s =>
      "unsupported artifact manifest schema version " +:+ pretty v +:+ ", expected " +:+ pretty s
  | RequiresNewerPv m c =>
      "artifact manifest requires PV " +:+ m +:+ ", current PV is " +:+ c
  | ManifestUsesAlias a c =>
      "artifact manifests must use canonical resource name " +:+ tick c +:+ ", not alias " +:+ tick a
  | InvalidIdentity kind value => "invalid " +:+ kind +:+ " " +:+ tick value
  | InvalidManifest reason => "invalid artifact manifest: " +:+ reason
  | ReservedTrackName name => "artifact manifest track name " +:+ tick name +:+ " is reserved"
  | UnsupportedResourceAllocation r =>
      "Managed Resource " +:+ tick r +:+ " does not support Resource allocations"
  | GeneratedAllocationNameTooLong r a g m =>
      "generated Resource allocation name " +:+ tick g +:+ " for " +:+ tick r +:+ " allocation "
        +:+ tick a +:+ " exceeds " +:+ show_nat m +:+ " characters"
  | MissingConcreteTrack r => "Managed Resource " +:+ tick r +:+ " is missing a concrete track"
  | InvalidRevocationState reason => "invalid artifact revocation state: " +:+ reason
  | UnsupportedPlatform p => "unsupported artifact platform " +:+ tick p
  | AmbiguousArtifactSelection r t p =>
      "artifact selection is ambiguous for " +:+ r +:+ " track " +:+ t +:+ " on " +:+ p
  | NoInstallableArtifact r t p =>
      "no installable artifact exists for " +:+ r +:+ " track " +:+ t +:+ " on " +:+ p
  | InvalidPublishedAt v => "failed to parse published_at " +:+ tick v
  | ManifestUnavailable u c r =>
      "artifact manifest is unavailable from " +:+ tick u +:+ " and cache " +:+ tick c +:+ ": " +:+ r
  | HttpRequestFailed u r => "HTTP request failed for " +:+ tick u +:+ ": " +:+ r
  | HttpStatusFailed u c => "HTTP status " +:+ show_nat c +:+ " for " +:+ tick u
  | DownloadWriteFailed u r => "failed to write download from " +:+ tick u +:+ ": " +:+ r
  | InvalidManifestUrl u => "invalid artifact manifest URL " +:+ tick u
  | InvalidArtifactUrl u => "invalid artifact URL " +:+ tick u
  | ArtifactChecksumMismatch u e a =>
      "artifact checksum mismatch for " +:+ tick u +:+ ": expected " +:+ e +:+ ", got " +:+ a
  | InvalidArtifactArchive p r => "invalid artifact archive " +:+ tick p +:+ ": " +:+ r
  | InvalidArtifactLayout res r => "invalid artifact layout for " +:+ tick res +:+ ": " +:+ r
  | Filesystem p r => "filesystem error at " +:+ tick p +:+ ": " +:+ r
  | UnsupportedHostCapability c t =>
      "unsupported host capability " +:+ tick (host_capability_display c) +:+ " on " +:+ tick t
  end.

(** ** Identities

    [ResourceName], [TrackName], [ConcreteTrackName] and [ArtifactVersion] are
    newtypes over the validated string. *)

Record ResourceName := { resource_name_str : string }.
Record TrackName := { track_name_str : string }.
Record ConcreteTrackName := { concrete_track : TrackName }.
Record ArtifactVersion := { artifact_version_str : string }.
Record Sha256Digest := { sha256_str : string }.
Record PvVersion := { pv_major : N; pv_minor : N; pv_patch : N; pv_raw : string }.
Inductive TrackSelector : Type := Latest | Track (name : TrackName).

Definition identity_char (c : ascii) : bool :=
  is_ascii_alphanumeric c || char_eqb c "." || char_eqb c "-" || char_eqb c "_".

Definition valid_identity (value : string) : bool :=
  negb (is_empty value) && negb (bool_decide (value = ".")) && negb (bool_decide (value = ".."))
  && str_all identity_char value.

Definition validate_identity (kind value : string) : result ResourcesError string :=
  if valid_identity value then Ok value else Err (InvalidIdentity kind value).

Definition resource_name_new (value : string) : result ResourcesError ResourceName :=
  Build_ResourceName <$> validate_identity "resource name" value.
Definition track_name_new (value : string) : result ResourcesError TrackName :=
  Build_TrackName <$> validate_identity "track" value.
Definition artifact_version_new (value : string) : result ResourcesError ArtifactVersion :=
  Build_ArtifactVersion <$> validate_identity "artifact version" value.

Definition LATEST_ALIAS : string := "latest".
Definition is_reserved_alias (value : string) : bool := bool_decide (value = LATEST_ALIAS).

Definition concrete_track_name_new (value : string) : result ResourcesError ConcreteTrackName :=
  if is_reserved_alias value then Err (ReservedTrackName value)
  else Build_ConcreteTrackName <$> track_name_new value.

Definition concrete_track_name_required (resource_name : ResourceName) (value : option string) :
    result ResourcesError ConcreteTrackName :=
  match value with
  | None => Err (MissingConcreteTrack (resource_name_str resource_name))
  | Some value => concrete_track_name_new value
  end.

Definition track_selector_parse (value : string) : result ResourcesError TrackSelector :=
  if is_reserved_alias value then Ok Latest else Track <$> track_name_new value.

Definition sha256_new (value : string) : result ResourcesError Sha256Digest :=
  if bool_decide (len value = 64) && str_all is_ascii_hexdigit value
  then Ok {| sha256_str := to_ascii_lowercase value |}
  else Err (InvalidIdentity "sha256" value).

(** ** [PvVersion] *)

Definition invalid_version {A} (value : string) : result ResourcesError A :=
  Err (InvalidIdentity "PV version" value).

Definition parse_version_component (part raw : string) : result ResourcesError N :=
  if is_empty part || (1 <? len part) && starts_with_char "0" part then invalid_version raw
  else ok_or (parse_u64 part) (InvalidIdentity "PV version" raw).

Definition pv_version_parse (value : string) : result ResourcesError PvVersion :=
  match split "." value with
  | [major; minor; patch] =>
      major ← parse_version_component major value;
      minor ← parse_version_component minor value;
      patch ← parse_version_component patch value;
      Ok {| pv_major := major; pv_minor := minor; pv_patch := patch; pv_raw := value |}
  | _ => invalid_version value
  end.

(** The derived [Ord]: fields in declaration order. *)
Definition pv_version_compare (a b : PvVersion) : comparison :=
  match N.compare (pv_major a) (pv_major b) with
  | Eq => match N.compare (pv_minor a) (pv_minor b) with
          | Eq => match N.compare (pv_patch a) (pv_patch b) with
                  | Eq => String.compare (pv_raw a) (pv_raw b)
                  | c => c
                  end
          | c => c
          end
  | c => c
  end.

(** ** Platforms: [resources/src/platform.rs] *)

Inductive ArtifactPlatform : Type := AnyPlatform | ArtifactDarwinArm64 | ArtifactDarwinAmd64.
Inductive TargetPlatform : Type := DarwinArm64 | DarwinAmd64.

#[export] Instance target_platform_eq_dec : EqDecision TargetPlatform.
Proof. solve_decision. Defined.
#[export] Instance artifact_platform_eq_dec : EqDecision ArtifactPlatform.
Proof. solve_decision. Defined.

Definition artifact_platform_new (value : string) : result ResourcesError ArtifactPlatform :=
  if bool_decide (value = "any") then Ok AnyPlatform
  else if bool_decide (value = "darwin-arm64") then Ok ArtifactDarwinArm64
  else if bool_decide (value = "darwin-amd64") then Ok ArtifactDarwinAmd64
  else Err (UnsupportedPlatform value).
Definition artifact_platform_str (p : ArtifactPlatform) : string :=
  match p with
  | AnyPlatform => "any"
  | ArtifactDarwinArm64 => "darwin-arm64"
  | ArtifactDarwinAmd64 => "darwin-amd64"
  end.
Definition platform_matches (p : ArtifactPlatform) (target : TargetPlatform) : bool :=
  match p with
  | AnyPlatform => true
  | ArtifactDarwinArm64 => bool_decide (target = DarwinArm64)
  | ArtifactDarwinAmd64 => bool_decide (target = DarwinAmd64)
  end.
Definition platform_is_exact (p : ArtifactPlatform) : bool := negb (bool_decide (p = AnyPlatform)).

Definition target_platform_new (value : string) : result ResourcesError TargetPlatform :=
  if bool_decide (value = "darwin-arm64") then Ok DarwinArm64
  else if bool_decide (value = "darwin-amd64") then Ok DarwinAmd64
  else Err (UnsupportedPlatform value).
Definition target_platform_str (p : TargetPlatform) : string :=
  match p with DarwinArm64 => "darwin-arm64" | DarwinAmd64 => "darwin-amd64" end.

Definition target_platform_for (os arch : string) : result ResourcesError TargetPlatform :=
  if bool_decide (os = "macos" ∧ arch = "aarch64") then Ok DarwinArm64
  else if bool_decide (os = "macos" ∧ arch = "x86_64") then Ok DarwinAmd64
  else Err (UnsupportedPlatform (os +:+ "-" +:+ arch)).

(** ** Facts *)

(** *** Decimal numbers *)

Lemma pretty_no_dot (n : N) : lacks "." (pretty n) = true.
Proof. apply (str_all_lacks is_ascii_digit); [done|]. apply pretty_N_digits. Qed.

(** *** Identities *)

Lemma validate_identity_ok kind value v :
  validate_identity kind value = Ok v ↔ v = value ∧ valid_identity value = true.
Proof. unfold validate_identity. destruct (valid_identity value); naive_solver. Qed.

Lemma valid_identity_chars value : valid_identity value = true →
  value ≠ "" ∧ value ≠ "." ∧ value ≠ ".." ∧ str_all identity_char value = true.
Proof. unfold valid_identity. intros; split_bools. apply is_empty_false in H. tauto. Qed.

Lemma identity_lacks c value :
  identity_char c = false → valid_identity value = true → lacks c value = true.
Proof. intros Hc (_&_&_&H)%valid_identity_chars. by apply (str_all_lacks identity_char). Qed.

Definition version_text (major minor patch : N) : string :=
  pretty major +:+ "." +:+ pretty minor +:+ "." +:+ pretty patch.

Lemma split_version_text a b c : split "." (version_text a b c) = [pretty a; pretty b; pretty c].
Proof.
  assert (version_text a b c = join "." [pretty a; pretty b; pretty c]) as -> by done.
  apply split_join; [done|]. repeat constructor; apply pretty_no_dot.
Qed.

Lemma parse_version_component_pretty n raw :
  (n ≤ U64_MAX)%N → parse_version_component (pretty n) raw = Ok n.
Proof.
  intros Hn. destruct (pretty_N_digits n) as (Hne & _ & Hz & _). unfold parse_version_component.
  rewrite (proj2 (is_empty_false _) Hne), Hz. simpl. by rewrite parse_u64_pretty.
Qed.

(** ** Properties *)

(** Every version number of three [u64] components is read back from its
    dotted text, with those components and that text kept. *)
Theorem pv_version_roundtrip major minor patch :
  (major ≤ U64_MAX)%N → (minor ≤ U64_MAX)%N → (patch ≤ U64_MAX)%N →
  pv_version_parse (version_text major minor patch)
  = Ok {| pv_major := major; pv_minor := minor; pv_patch := patch;
          pv_raw := version_text major minor patch |}.
Proof.
  intros Ha Hb Hc. unfold pv_version_parse. rewrite split_version_text.
  by rewrite !parse_version_component_pretty.
Qed.

Lemma pv_version_roundtrip_witness :
  pv_version_parse "10.0.18446744073709551615"
  = Ok {| pv_major := 10; pv_minor := 0; pv_patch := 18446744073709551615;
          pv_raw := "10.0.18446744073709551615" |}.
Proof. apply (pv_version_roundtrip 10 0 18446744073709551615); by vm_compute. Defined.


(** Whatever text an identity constructor accepts is one normal path
    component: joined to an absolute directory it names an entry of that
    directory, never the directory itself, its parent or a deeper path. *)
Theorem identity_single_component kind value accepted base :
  validate_identity kind value = Ok accepted → is_absolute base = true →
  components (path_join base accepted) = components base ++ [Normal value].
Proof.
  intros [-> Hv]%validate_identity_ok Hb. apply components_join_piece; [done|..].
  - by apply identity_lacks.
  - unfold piece_component. apply valid_identity_chars in Hv as (?&?&?&_).
    by rewrite !bool_decide_eq_false_2.
Qed.

Lemma identity_single_component_witness :
  components (path_join "/home/u/.pv/resources" "8.4") = components "/home/u/.pv/resources" ++ [Normal "8.4"].
Proof. by apply (identity_single_component "track" "8.4"). Defined.
