(* ===== verification/Registry.v ===== *)
(** * Managed Resource registry and allocation names:
    [resources/src/registry.rs], [resources/src/allocation.rs] *)

From S2P Require Import Prelude RustStr Identity.

(** ** Registry *)

Inductive ResourceKind : Type := Runtime | Tool | BackingService.
Inductive ResourceCapability : Type :=
| Install | Init | Start | Stop | Readiness | Allocation | EnvValues | Logs | Commands.
Inductive ResourceAllocationKind : Type := SqlDatabase | RedisPrefix | RustfsBucket.

#[export] Instance resource_kind_eq_dec : EqDecision ResourceKind.
Proof. solve_decision. Defined.
#[export] Instance resource_capability_eq_dec : EqDecision ResourceCapability.
Proof. solve_decision. Defined.

Record EnvPlaceholderContract := {
  resource_placeholders : list string;
  allocation_placeholders : list string;
}.

Record ResourceDescriptor := {
  rd_name : string;
  rd_aliases : list string;
  rd_kind : ResourceKind;
  rd_capabilities : list ResourceCapability;
  rd_allocation_kind : option ResourceAllocationKind;
  rd_env_placeholder_contract : EnvPlaceholderContract;
}.

Definition RUNTIME_CAPABILITIES := [Install; Start; Stop; Readiness; Logs; Commands].
Definition TOOL_CAPABILITIES := [Install; Commands].
Definition BACKING_SERVICE_CAPABILITIES :=
  [Install; Init; Start; Stop; Readiness; Allocation; EnvValues; Logs; Commands].
Definition NO_ALLOCATION_BACKING_SERVICE_CAPABILITIES :=
  [Install; Init; Start; Stop; Readiness; EnvValues; Logs; Commands].

Definition NO_ENV_PLACEHOLDERS : list string := [].
Definition SQL_RESOURCE_ENV_PLACEHOLDERS : list string :=
  ["host"; "password"; "port"; "url"; "username"].
Definition SQL_ALLOCATION_ENV_PLACEHOLDERS : list string :=
  ["database"; "host"; "password"; "port"; "url"; "username"].
Definition REDIS_RESOURCE_ENV_PLACEHOLDERS : list string := ["host"; "port"; "url"].
Definition REDIS_ALLOCATION_ENV_PLACEHOLDERS : list string := ["host"; "port"; "prefix"; "url"].
Definition MAILPIT_RESOURCE_ENV_PLACEHOLDERS : list string :=
  ["dashboard_url"; "smtp_host"; "smtp_port"].
Definition RUSTFS_RESOURCE_ENV_PLACEHOLDERS : list string :=
  ["access_key"; "endpoint"; "host"; "port"; "secret_key"; "url"].
Definition RUSTFS_ALLOCATION_ENV_PLACEHOLDERS : list string :=
  ["access_key"; "bucket"; "endpoint"; "host"; "port"; "secret_key"; "url"].

Definition RESOURCES : list ResourceDescriptor :=
  [ {| rd_name := "php"; rd_aliases := []; rd_kind := Runtime;
       rd_capabilities := RUNTIME_CAPABILITIES; rd_allocation_kind := None;
       rd_env_placeholder_contract :=
         Build_EnvPlaceholderContract NO_ENV_PLACEHOLDERS NO_ENV_PLACEHOLDERS |};
    {| rd_name := "frankenphp"; rd_aliases := []; rd_kind := Runtime;
       rd_capabilities := RUNTIME_CAPABILITIES; rd_allocation_kind := None;
       rd_env_placeholder_contract :=
         Build_EnvPlaceholderContract NO_ENV_PLACEHOLDERS NO_ENV_PLACEHOLDERS |};
    {| rd_name := "composer"; rd_aliases := []; rd_kind := Tool;
       rd_capabilities := TOOL_CAPABILITIES; rd_allocation_kind := None;
       rd_env_placeholder_contract :=
         Build_EnvPlaceholderContract NO_ENV_PLACEHOLDERS NO_ENV_PLACEHOLDERS |};
    {| rd_name := "mysql"; rd_aliases := []; rd_kind := BackingService;
       rd_capabilities := BACKING_SERVICE_CAPABILITIES; rd_allocation_kind := Some SqlDatabase;
       rd_env_placeholder_contract :=
         Build_EnvPlaceholderContract SQL_RESOURCE_ENV_PLACEHOLDERS SQL_ALLOCATION_ENV_PLACEHOLDERS |};
    {| rd_name := "postgres"; rd_aliases := ["postgresql"; "pg"]; rd_kind := BackingService;
       rd_capabilities := BACKING_SERVICE_CAPABILITIES; rd_allocation_kind := Some SqlDatabase;
       rd_env_placeholder_contract :=
         Build_EnvPlaceholderContract SQL_RESOURCE_ENV_PLACEHOLDERS SQL_ALLOCATION_ENV_PLACEHOLDERS |};
    {| rd_name := "redis"; rd_aliases := []; rd_kind := BackingService;
       rd_capabilities := BACKING_SERVICE_CAPABILITIES; rd_allocation_kind := Some RedisPrefix;
       rd_env_placeholder_contract :=
         Build_EnvPlaceholderContract REDIS_RESOURCE_ENV_PLACEHOLDERS REDIS_ALLOCATION_ENV_PLACEHOLDERS |};
    {| rd_name := "mailpit"; rd_aliases := ["mail"]; rd_kind := BackingService;
       rd_capabilities := NO_ALLOCATION_BACKING_SERVICE_CAPABILITIES; rd_allocation_kind := None;
       rd_env_placeholder_contract :=
         Build_EnvPlaceholderContract MAILPIT_RESOURCE_ENV_PLACEHOLDERS NO_ENV_PLACEHOLDERS |};
    {| rd_name := "rustfs"; rd_aliases := ["s3"]; rd_kind := BackingService;
       rd_capabilities := BACKING_SERVICE_CAPABILITIES; rd_allocation_kind := Some RustfsBucket;
       rd_env_placeholder_contract :=
         Build_EnvPlaceholderContract RUSTFS_RESOURCE_ENV_PLACEHOLDERS RUSTFS_ALLOCATION_ENV_PLACEHOLDERS |} ].

Definition is_canonical (d : ResourceDescriptor) (value : string) : bool :=
  bool_decide (rd_name d = value).
Definition is_alias (d : ResourceDescriptor) (value : string) : bool :=
  bool_decide (value ∈ rd_aliases d).

Definition resolve_canonical (name : string) : result ResourcesError ResourceDescriptor :=
  ok_or (List.find (λ d, is_canonical d name) RESOURCES) (UnknownResource name).

Definition resolve (name_or_alias : string) : result ResourcesError ResourceDescriptor :=
  ok_or (List.find (λ d, is_canonical d name_or_alias || is_alias d name_or_alias) RESOURCES)
    (UnknownResource name_or_alias).

(** ** Allocation names *)

Definition MAX_GENERATED_ALLOCATION_NAME_LEN : nat := 63.

Record ResourceAllocationName := {
  ran_resource_name : ResourceName;
  ran_allocation_name : string;
  ran_generated_name : string;
}.

(** The [match allocation_kind] that spells the generated name. *)
Definition spell_allocation (kind : ResourceAllocationKind) (project_slug allocation_name : string) :
    string :=
  match kind with
  | SqlDatabase => replace "-" "_" project_slug +:+ "_" +:+ replace "-" "_" allocation_name
  | RedisPrefix => project_slug +:+ "-" +:+ replace "_" "-" allocation_name +:+ "-"
  | RustfsBucket => project_slug +:+ "-" +:+ replace "_" "-" allocation_name
  end.

Definition generated_allocation_name (name_or_alias project_slug allocation_name : string) :
    result ResourcesError ResourceAllocationName :=
  descriptor ← resolve name_or_alias;
  kind ← ok_or (rd_allocation_kind descriptor) (UnsupportedResourceAllocation (rd_name descriptor));
  let generated_name := spell_allocation kind project_slug allocation_name in
  if MAX_GENERATED_ALLOCATION_NAME_LEN <? len generated_name
  then Err (GeneratedAllocationNameTooLong (rd_name descriptor) allocation_name generated_name
              MAX_GENERATED_ALLOCATION_NAME_LEN)
  else
    resource_name ← resource_name_new (rd_name descriptor);
    Ok {| ran_resource_name := resource_name; ran_allocation_name := allocation_name;
          ran_generated_name := generated_name |}.

Definition resource_env_placeholders (name_or_alias : string) :
    result ResourcesError (list string) :=
  d ← resolve name_or_alias; Ok (resource_placeholders (rd_env_placeholder_contract d)).

Definition allocation_env_placeholders (name_or_alias : string) :
    result ResourcesError (list string) :=
  d ← resolve name_or_alias; Ok (allocation_placeholders (rd_env_placeholder_contract d)).

(** ** Facts *)

Lemma resolve_in name d : resolve name = Ok d → d ∈ RESOURCES.
Proof.
  unfold resolve. destruct (List.find _ _) eqn:E; simpl; [|done]. intros [= <-].
  apply find_some in E as [H _]. by apply list_elem_of_In.
Qed.

(** A statement about every registered descriptor, checked by computation. *)
Lemma registry_forall (P : ResourceDescriptor → bool) :
  forallb P RESOURCES = true → ∀ d, d ∈ RESOURCES → P d = true.
Proof. intros H d Hd. rewrite forallb_forall in H. by apply H, list_elem_of_In. Qed.

(** The names a descriptor answers to. *)
Definition descriptor_names (d : ResourceDescriptor) : list string := rd_name d :: rd_aliases d.

Lemma find_unique {A} (p q : A → bool) (l : list A) x :
  (∀ y, y ∈ l → q y = true → p x = true → p y = true → y = x) →
  x ∈ l → p x = true → (∀ y, p y = true → q y = true) → List.find p l = Some x.
Proof.
  intros Huniq Hx Hp Hpq. destruct (List.find p l) as [y|] eqn:E.
  - apply find_some in E as [Hy Hpy]. f_equal. apply Huniq; auto. by apply list_elem_of_In.
  - eapply find_none in E; [|by apply list_elem_of_In]. congruence.
Qed.

Lemma str_map_replace_lacks c d s : c ≠ d → lacks c (replace c d s) = true.
Proof.
  intros Hcd. unfold lacks, replace. rewrite str_all_map. induction s as [|x s IH]; [done|].
  simpl. rewrite IH, andb_true_r. apply negb_true_iff.
  destruct (char_eqb x c) eqn:E; [by apply char_eqb_neq|done].
Qed.

(** ** Properties *)

(** Resolving is unambiguous and complete: a text resolves to a descriptor
    exactly when it is its canonical name or one of its aliases, and no two
    registered descriptors share a name or an alias. *)
Theorem resolve_spec name d :
  resolve name = Ok d ↔ d ∈ RESOURCES ∧ name ∈ descriptor_names d.
Proof.
  split.
  - intros H. split; [by eapply resolve_in|]. unfold resolve in H.
    destruct (List.find _ _) eqn:E; simpl in H; [|done]. injection H as <-.
    apply find_some in E as [_ E]. unfold descriptor_names, is_canonical, is_alias in *.
    rewrite orb_true_iff, !bool_decide_eq_true in E. set_solver.
  - intros [Hd Hn]. unfold RESOURCES in Hd. unfold descriptor_names in Hn.
    repeat (apply elem_of_cons in Hd as [->|Hd];
      [simpl in Hn; repeat (apply elem_of_cons in Hn as [->|Hn]; [by vm_compute|]);
       by apply not_elem_of_nil in Hn|]).
    by apply not_elem_of_nil in Hd.
Qed.

(** A generated allocation name fits the 63-byte limit of SQL identifiers
    and bucket names, uses only the characters of its backend (no hyphen in a
    database name; no underscore coming from the allocation in a key prefix or
    bucket name), and an alias of a resource yields the same name as its
    canonical name. *)
Theorem generated_allocation_name_sound name slug allocation g :
  generated_allocation_name name slug allocation = Ok g →
  ∃ d kind, resolve name = Ok d ∧ rd_allocation_kind d = Some kind
    ∧ ran_generated_name g = spell_allocation kind slug allocation
    ∧ len (ran_generated_name g) ≤ 63
    ∧ match kind with
      | SqlDatabase => lacks "-" (ran_generated_name g) = true
      | _ => lacks "_" slug = true → lacks "_" (ran_generated_name g) = true
      end
    ∧ generated_allocation_name (rd_name d) slug allocation = Ok g.
Proof.
  unfold generated_allocation_name. destruct (resolve name) as [d|] eqn:Hd; simpl; [|done].
  destruct (rd_allocation_kind d) as [kind|] eqn:Hk; simpl; [|done].
  case_match eqn:Hlen; [done|]. intros H; inv_ok. apply Nat.ltb_ge in Hlen.
  exists d, kind. split_and!; [done..| |].
  - destruct kind; unfold spell_allocation; cbn [ran_generated_name];
      rewrite ?lacks_app, ?str_map_replace_lacks by done; [done|by intros ->..].
  - assert (resolve (rd_name d) = Ok d) as ->.
    { apply resolve_spec. split; [by eapply resolve_in|by left]. }
    simpl. rewrite Hk. simpl. rewrite (proj2 (Nat.ltb_ge _ _) Hlen). by rewrite E.
Qed.

Lemma generated_allocation_name_sound_witness :
  ∃ g, generated_allocation_name "pg" "acme-shop" "main-db" = Ok g
    ∧ ran_generated_name g = "acme_shop_main_db"
    ∧ ∃ d kind, resolve "pg" = Ok d ∧ rd_allocation_kind d = Some kind
    ∧ ran_generated_name g = spell_allocation kind "acme-shop" "main-db"
    ∧ len (ran_generated_name g) ≤ 63
    ∧ match kind with
      | SqlDatabase => lacks "-" (ran_generated_name g) = true
      | _ => lacks "_" "acme-shop" = true → lacks "_" (ran_generated_name g) = true
      end
    ∧ generated_allocation_name (rd_name d) "acme-shop" "main-db" = Ok g.
Proof.
  eexists. split; [by vm_compute|]. split; [done|].
  apply (generated_allocation_name_sound "pg" "acme-shop" "main-db"). by vm_compute.
Defined.
