(* ===== verification/ConfigModel.v ===== *)
(** * Project configuration: [config/src/model.rs], [config/src/error.rs] *)

From S2P Require Import Prelude RustStr Paths.

(** ** Errors *)

(** [std::io::ErrorKind], as far as the code distinguishes it. *)
Inductive io_error_kind : Type := NotFound | NotADirectory | OtherIo.

Inductive ConfigError : Type :=
| NonUtf8Path (path : string)
| ConfigFileConflict (preferred alternate : string)
| ConfigFilesystem (path : string) (source : io_error_kind)
| ConfigUnsupportedPlatform (capability target : string)
| ProjectRootNotDirectory (path : string)
| ConfigPathEscapesRoot (path : string)
| ParseError (source : string)
| InvalidInitJson (path reason : string)
| RootMustBeMapping (found : string)
| UnknownTopLevelKey (key : string)
| UnknownPhpKey (key : string)
| UnknownResourceKey (resource key : string)
| UnknownAllocationKey (resource allocation key : string)
| InvalidFieldType (field expected found : string)
| EmptyField (field : string)
| InvalidPhpTrack (track reason : string)
| InvalidResourceTrack (resource track reason : string)
| InvalidHostname (hostname reason : string)
| DuplicateHostname (hostname : string)
| AbsoluteDocumentRoot (document_root : string)
| DocumentRootEscapesProject (document_root : string)
| DocumentRootNotDirectory (document_root : string)
| AbsoluteEnvFile (env_file : string)
| EnvFileEscapesProject (env_file : string)
| EnvFileParentNotDirectory (env_file : string)
| EnvFileNotFile (env_file : string)
| InvalidEnvKey (key : string)
| InvalidAllocationName (allocation : string)
| DuplicateResource (resource : string)
| UnsupportedResourceAllocations (resource : string)
| DuplicateNormalizedAllocation (resource allocation normalized : string)
| InvalidEnvPlaceholder (field placeholder reason : string)
| UnknownEnvPlaceholder (field placeholder : string)
| EnvPlaceholderContractError (resource reason : string)
| MissingResourceEnvContext (resource : string)
| MissingAllocationEnvContext (resource allocation : string)
| MissingEnvContext (field placeholder : string)
| DuplicateRenderedEnvKey (key first second : string)
| MalformedManagedEnvBlock (reason : string).

(** ** Data *)

Record PhpConfig := {
  php_version : option string;
  php_extensions : list string;
}.
Record AllocationConfig := { alloc_env : gmap string string }.
Record ResourceConfig := {
  rc_track : option string;
  rc_env : gmap string string;
  rc_allocations : gmap string AllocationConfig;
}.
Record ProjectConfig := {
  serve : bool;
  env_file : string;
  php : option PhpConfig;
  document_root : option string;
  hostnames : list string;
  env : gmap string string;
  resources : gmap string ResourceConfig;
}.

Definition DEFAULT_ENV_FILE : string := ".env".

Definition php_config_default : PhpConfig := {| php_version := None; php_extensions := [] |}.
Definition php_config_version (version : string) : PhpConfig :=
  {| php_version := Some version; php_extensions := [] |}.
Definition allocation_config_default : AllocationConfig := {| alloc_env := ∅ |}.
Definition resource_config_default : ResourceConfig :=
  {| rc_track := None; rc_env := ∅; rc_allocations := ∅ |}.
Definition project_config_default : ProjectConfig :=
  {| serve := true; env_file := DEFAULT_ENV_FILE; php := None; document_root := None;
     hostnames := []; env := ∅; resources := ∅ |}.

(** ** Scanning an env value

    The three loops over env values ([value_uses_any_placeholder],
    [render_env_value], [validate_env_placeholders]) take the same decision at
    each index.  [scan] is that decision on the text from the index on; what
    each loop does with it, and where it continues, is written in the loop. *)

Inductive scanned : Type :=
| ScanEnd
| ScanChar (c : ascii) (rest : string)
| ScanEscaped (rest : string)
| ScanBareDollar (rest : string)
| ScanUnclosed (rest : string)
| ScanPlaceholder (name rest : string).

Definition DOLLAR : ascii := "$".
Definition OPEN : ascii := "{".
Definition CLOSE : ascii := "}".

Definition scan (s : string) : scanned :=
  match s with
  | "" => ScanEnd
  | String c r =>
      if negb (char_eqb c DOLLAR) then ScanChar c r
      else match r with
           | String d r' =>
               if char_eqb d DOLLAR then ScanEscaped r'
               else if negb (char_eqb d OPEN) then ScanBareDollar r
               else match split_once CLOSE r' with
                    | None => ScanUnclosed r'
                    | Some (name, rest) => ScanPlaceholder name rest
                    end
           | "" => ScanBareDollar r
           end
  end.

(** The loop of [value_uses_any_placeholder]; every step moves the index forward,
    so the length of the text is enough fuel. *)
Fixpoint uses_any_loop (fuel : nat) (placeholders : list string) (s : string) : bool :=
  match fuel with
  | 0 => false
  | S fuel =>
      match scan s with
      | ScanEnd => false
      | ScanChar _ rest | ScanEscaped rest | ScanBareDollar rest | ScanUnclosed rest =>
          uses_any_loop fuel placeholders rest
      | ScanPlaceholder name rest =>
          if bool_decide (name ∈ placeholders) then true else uses_any_loop fuel placeholders rest
      end
  end.

Definition value_uses_any_placeholder (value : string) (placeholders : list string) : bool :=
  uses_any_loop (len value) placeholders value.

Definition value_uses_tls_placeholder (value : string) : bool :=
  value_uses_any_placeholder value ["tls_ca"; "tls_cert"; "tls_key"].
Definition value_uses_serving_placeholder (value : string) : bool :=
  value_uses_any_placeholder value ["project_url"; "tls_ca"; "tls_cert"; "tls_key"].

(** ** Queries on a configuration *)

Definition map_any {V} (p : V → bool) (m : gmap string V) : bool :=
  existsb (λ kv : string * V, p kv.2) (map_to_list m).

Definition has_env_mappings (c : ProjectConfig) : bool :=
  negb (bool_decide (env c = ∅))
  || map_any (λ r, negb (bool_decide (rc_env r = ∅))
       || map_any (λ a, negb (bool_decide (alloc_env a = ∅))) (rc_allocations r)) (resources c).

Definition uses_tls_placeholders (c : ProjectConfig) : bool :=
  serve c
  && (map_any value_uses_tls_placeholder (env c)
      || map_any (λ r, map_any value_uses_tls_placeholder (rc_env r)
           || map_any (λ a, map_any value_uses_tls_placeholder (alloc_env a)) (rc_allocations r))
           (resources c)).

(** ** Env values as token sequences *)

Inductive token : Type :=
| TChar (c : ascii)
| TDollar
| TPlaceholder (name : string).

Definition write_token (t : token) : string :=
  match t with
  | TChar c => String c ""
  | TDollar => "$$"
  | TPlaceholder name => "${" +:+ name +:+ "}"
  end.
Definition write_tokens (l : list token) : string := str_concat (write_token <$> l).

Definition token_wf (t : token) : Prop :=
  match t with
  | TChar c => c ≠ DOLLAR
  | TDollar => True
  | TPlaceholder name => lacks CLOSE name = true
  end.

Definition scan_of (t : token) (rest : string) : scanned :=
  match t with
  | TChar c => ScanChar c rest
  | TDollar => ScanEscaped rest
  | TPlaceholder name => ScanPlaceholder name rest
  end.

Lemma scan_token t rest : token_wf t → scan (write_token t +:+ rest) = scan_of t rest.
Proof.
  destruct t as [c| |name]; simpl; intros Ht; [|done|].
  - by rewrite (proj2 (char_eqb_neq c DOLLAR) Ht).
  - rewrite <-str_app_assoc, str_app_singleton.
    by rewrite (proj2 (split_once_Some CLOSE _ name rest)).
Qed.

Lemma write_tokens_cons t l : write_tokens (t :: l) = write_token t +:+ write_tokens l.
Proof. done. Qed.

Lemma len_write_token t : 1 ≤ len (write_token t).
Proof. destruct t; simpl; lia. Qed.

Lemma len_write_tokens_cons t l : S (len (write_tokens l)) ≤ len (write_tokens (t :: l)).
Proof. rewrite write_tokens_cons, len_app. pose proof (len_write_token t). lia. Qed.

(** What [scan] consumes, as text. *)
Lemma scan_inv s :
  match scan s with
  | ScanEnd => s = ""
  | ScanChar c rest => s = write_token (TChar c) +:+ rest ∧ token_wf (TChar c)
  | ScanEscaped rest => s = write_token TDollar +:+ rest
  | ScanBareDollar rest => s = String DOLLAR rest
  | ScanUnclosed rest => s = "${" +:+ rest
  | ScanPlaceholder name rest =>
      s = write_token (TPlaceholder name) +:+ rest ∧ token_wf (TPlaceholder name)
  end.
Proof.
  destruct s as [|c r]; [done|]. simpl. case_char; simpl; [|done]. subst.
  destruct r as [|d r']; [done|]. case_char; [by subst|]. case_char; simpl; [|done]. subst.
  destruct (split_once CLOSE r') as [[name rest]|] eqn:E; [|done].
  apply split_once_Some in E as [-> H]. by rewrite <-str_app_assoc.
Qed.

Lemma uses_any_loop_tokens fuel names l : Forall token_wf l → len (write_tokens l) ≤ fuel →
  uses_any_loop fuel names (write_tokens l)
  = existsb (λ t, match t with TPlaceholder n => bool_decide (n ∈ names) | _ => false end) l.
Proof.
  revert fuel. induction l as [|t l IH]; intros fuel Hwf Hf; [by destruct fuel|].
  apply Forall_cons in Hwf as [Ht Hwf]. pose proof (len_write_tokens_cons t l).
  destruct fuel as [|fuel]; [lia|]. cbn [uses_any_loop].
  rewrite write_tokens_cons, scan_token by done.
  destruct t; simpl; try case_bool_decide; [apply IH; [done|lia]..|done|apply IH; [done|lia]].
Qed.

(** On a well-formed value the detection finds exactly the placeholders written
    in it; an escaped [$${...}] is not one. *)
Lemma value_uses_any_tokens names l : Forall token_wf l →
  value_uses_any_placeholder (write_tokens l) names = true
  ↔ ∃ n, TPlaceholder n ∈ l ∧ n ∈ names.
Proof.
  intros Hl. unfold value_uses_any_placeholder. rewrite uses_any_loop_tokens, existsb_exists by done.
  split.
  - intros ([| |n] & Hin%list_elem_of_In & Hn); try done. exists n. by apply bool_decide_eq_true in Hn.
  - intros (n & Hin%list_elem_of_In & Hn). exists (TPlaceholder n). by rewrite bool_decide_eq_true.
Qed.
