(* ===== verification/Hostname.v ===== *)
(** * Project hostnames: [config/src/hostname.rs] *)

From S2P Require Import Prelude RustStr Paths ConfigModel.

Definition RESERVED_HOSTNAME : string := "pv.test".
Definition MAX_DNS_LABEL_LENGTH : nat := 63.
Definition MAX_HOSTNAME_LENGTH : nat := 253.

Definition label_char (c : ascii) : bool := is_ascii_alphanumeric c || char_eqb c "-".

Definition validate_dns_label (label original : string) : result ConfigError unit :=
  if is_empty label then Err (InvalidHostname original "hostname labels must not be empty")
  else if MAX_DNS_LABEL_LENGTH <? len label
  then Err (InvalidHostname original "hostname labels must be at most 63 bytes")
  else if str_all label_char label && negb (starts_with_char "-" label)
          && negb (ends_with_char "-" label)
  then Ok tt
  else Err (InvalidHostname original
              "hostname labels must contain only letters, numbers, or interior hyphens").

Definition validate_hostname (hostname original : string) (allow_bare_label : bool) :
    result ConfigError unit :=
  if bool_decide (hostname = RESERVED_HOSTNAME)
  then Err (InvalidHostname original "`pv.test` is reserved")
  else if contains "*" hostname
  then Err (InvalidHostname original "wildcard hostnames are not supported")
  else if negb (ends_with ".test" hostname)
  then Err (InvalidHostname original
              (if allow_bare_label then "hostname must be a bare label or end in `.test`"
               else "additional hostnames must be full `.test` hostnames"))
  else if MAX_HOSTNAME_LENGTH <? len hostname
  then Err (InvalidHostname original "hostname must be at most 253 bytes")
  else try_iter (λ label, validate_dns_label label original) (split "." hostname).

Definition normalize_hostname (input : string) (allow_bare_label : bool) :
    result ConfigError string :=
  let original := trim input in
  if is_empty original then Err (InvalidHostname input "hostname must not be empty")
  else
    let trimmed := default original (strip_suffix "." original) in
    let hostname := to_ascii_lowercase trimmed in
    let hostname :=
      if allow_bare_label && negb (contains "." hostname) then hostname +:+ ".test" else hostname in
    _ ← validate_hostname hostname input allow_bare_label;
    Ok hostname.

Definition normalize_primary_hostname (input : string) : result ConfigError string :=
  normalize_hostname input true.
Definition normalize_additional_hostname (input : string) : result ConfigError string :=
  normalize_hostname input false.

(** The slug loop over the lowercased characters of the directory name; the state
    is the slug so far and whether its last character was a hyphen. *)
Definition slug_step (st : string * bool) (character : string) : string * bool :=
  let '(slug, previous_was_hyphen) := st in
  if char_is_ascii_alphanumeric character then (slug +:+ character, false)
  else if negb previous_was_hyphen && negb (is_empty slug) then (slug +:+ "-", true)
  else st.

Definition slug_of (name : string) : string :=
  trim_end_matches "-" (foldl slug_step ("", false) (chars name ≫= to_lowercase)).1.

Definition hostname_from_project_path (path : string) : result ConfigError string :=
  match file_name path with
  | None => Err (InvalidHostname path "Project path has no directory name")
  | Some name =>
      let slug := slug_of name in
      if is_empty slug
      then Err (InvalidHostname name "Project directory name cannot produce a DNS label")
      else normalize_primary_hostname slug
  end.

(** ** Facts *)

Lemma lowercase_fixed c : is_ascii_uppercase c = false → char_to_ascii_lowercase c = c.
Proof. unfold char_to_ascii_lowercase. by intros ->. Qed.

Lemma lowercase_not_upper c : is_ascii_uppercase (char_to_ascii_lowercase c) = false.
Proof.
  apply negb_true_iff. revert c.
  apply (all_bytes_spec (λ c, negb (is_ascii_uppercase (char_to_ascii_lowercase c)))). by vm_compute.
Qed.

Definition is_lower (s : string) : bool := str_all (λ c, negb (is_ascii_uppercase c)) s.

Lemma to_ascii_lowercase_lower s : is_lower (to_ascii_lowercase s) = true.
Proof.
  unfold is_lower, to_ascii_lowercase. rewrite str_all_map.
  induction s as [|c s IH]; [done|]. simpl. by rewrite lowercase_not_upper, IH.
Qed.

Lemma to_ascii_lowercase_id s : is_lower s = true → to_ascii_lowercase s = s.
Proof.
  unfold is_lower, to_ascii_lowercase. induction s as [|c s IH]; [done|]. simpl.
  intros; split_bools. by rewrite lowercase_fixed, IH.
Qed.

Lemma is_lower_app s t : is_lower (s +:+ t) = is_lower s && is_lower t.
Proof. apply str_all_app. Qed.

(** What a validated label is. *)
Definition label_ok (label : string) : Prop :=
  label ≠ "" ∧ len label ≤ 63 ∧ str_all label_char label = true
  ∧ starts_with_char "-" label = false ∧ ends_with_char "-" label = false.

Lemma validate_dns_label_ok label original :
  validate_dns_label label original = Ok tt ↔ label_ok label.
Proof.
  unfold validate_dns_label, label_ok, MAX_DNS_LABEL_LENGTH.
  destruct (is_empty label) eqn:He; [apply is_empty_true in He; naive_solver|].
  apply is_empty_false in He. destruct (Nat.ltb_spec 63 (len label)); [split; [done|lia]|].
  destruct (str_all label_char label), (starts_with_char "-" label), (ends_with_char "-" label);
    simpl; naive_solver.
Qed.

(** What a validated hostname is. *)
Definition hostname_ok (hostname : string) : Prop :=
  hostname ≠ RESERVED_HOSTNAME ∧ ends_with ".test" hostname = true
  ∧ len hostname ≤ 253 ∧ Forall label_ok (split "." hostname).

Lemma label_ok_char c l : label_char c = false → label_ok l → lacks c l = true.
Proof. intros Hc (_&_&H&_). by apply (str_all_lacks label_char). Qed.

Lemma lacks_split c d s : c ≠ d → Forall (λ x, lacks c x = true) (split d s) → lacks c s = true.
Proof.
  intros Hcd. induction s as [|e s IH]; [done|]. rewrite lacks_cons.
  destruct (decide (e = d)) as [->|He].
  - simpl. rewrite char_eqb_refl. intros [_ ?]%Forall_cons. rewrite IH by done.
    by rewrite (proj2 (char_eqb_neq d c)).
  - destruct (split_cons_ne d e s He) as (h & t & Hs & ->). rewrite Hs in IH.
    rewrite Forall_cons, lacks_cons. intros [Hh Ht]. split_bools. by rewrite H, IH by by constructor.
Qed.

Lemma validate_hostname_ok hostname original allow :
  validate_hostname hostname original allow = Ok tt ↔ hostname_ok hostname.
Proof.
  unfold validate_hostname, hostname_ok, MAX_HOSTNAME_LENGTH.
  case_bool_decide as Hr; [naive_solver|].
  rewrite contains_lacks. destruct (lacks "*" hostname) eqn:Hs; simpl.
  - destruct (ends_with ".test" hostname) eqn:He; simpl; [|naive_solver].
    destruct (Nat.ltb_spec 253 (len hostname)); [split; [done|lia]|].
    rewrite try_iter_ok. setoid_rewrite validate_dns_label_ok. naive_solver.
  - split; [done|]. intros (_&_&_&H). rewrite (lacks_split "*" ".") in Hs; [done..|].
    eapply Forall_impl; [exact H|]. intros; by apply label_ok_char.
Qed.

Lemma label_char_graph c : label_char c = true → is_graph c = true.
Proof.
  intros H. assert (implb (label_char c) (is_graph c) = true) as H'
    by (clear H; revert c; apply all_bytes_spec; by vm_compute).
  by rewrite H in H'.
Qed.

Lemma str_all_split p c s :
  p c = true → Forall (λ x, str_all p x = true) (split c s) → str_all p s = true.
Proof.
  intros Hc. rewrite <-(join_split c s) at 2. generalize (split c s) as l.
  intros l Hl. induction Hl as [|x l Hx Hl IH]; [done|].
  destruct l; [done|]. rewrite join_cons, !str_all_app, Hx, IH by done. simpl. by rewrite Hc.
Qed.

Lemma hostname_ok_graph h : hostname_ok h → str_all is_graph h = true.
Proof.
  intros (_&_&_&H). apply (str_all_split is_graph "."); [done|].
  eapply Forall_impl; [exact H|]. intros x (_&_&Hx&_). eapply str_all_impl; [|done].
  apply label_char_graph.
Qed.

Lemma hostname_ok_not_dotted h : hostname_ok h → strip_suffix "." h = None.
Proof.
  intros (_&He&_&_). destruct (strip_suffix "." h) as [t|] eqn:Ht; [|done].
  apply strip_suffix_Some in Ht. apply ends_with_true in He as [r ->].
  assert (str_last (r +:+ ".test") = Some "t"%char) as Hl.
  { change ".test" with (".tes" +:+ "t"). by rewrite str_app_assoc, str_last_app. }
  by rewrite Ht, str_last_app in Hl.
Qed.

Lemma hostname_ok_dot h : hostname_ok h → contains "." h = true.
Proof.
  intros (_&He&_&_). apply ends_with_true in He as [r ->].
  rewrite contains_lacks. unfold lacks. rewrite str_all_app. simpl. by rewrite andb_false_r.
Qed.

Lemma normalize_hostname_fixed h allow : hostname_ok h → is_lower h = true →
  normalize_hostname h allow = Ok h.
Proof.
  intros Hh Hl. unfold normalize_hostname. rewrite trim_graph by by apply hostname_ok_graph.
  assert (is_empty h = false) as ->.
  { apply is_empty_false. intros ->. destruct Hh as (_&He&_). by vm_compute in He. }
  rewrite hostname_ok_not_dotted by done. simpl. rewrite to_ascii_lowercase_id by done.
  rewrite hostname_ok_dot by done. rewrite andb_false_r.
  by rewrite (proj2 (validate_hostname_ok h h allow) Hh).
Qed.

Lemma normalize_hostname_inv input allow h : normalize_hostname input allow = Ok h →
  hostname_ok h ∧ is_lower h = true.
Proof.
  unfold normalize_hostname. destruct (is_empty (trim input)); [done|].
  intros H; inv_ok. apply validate_hostname_ok in E. split; [done|].
  case_match; [rewrite is_lower_app|]; by rewrite to_ascii_lowercase_lower.
Qed.

(** *** Slugs *)

Lemma lowercased_char x name :
  x ∈ (chars name ≫= to_lowercase) → char_is_ascii_alphanumeric x = true →
  ∃ c, x = String c "" ∧ label_char c = true ∧ is_ascii_uppercase c = false ∧ c ≠ "-"%char.
Proof.
  intros (y & Hx & _)%list_elem_of_bind Halnum.
  destruct x as [|c [|? ?]]; [done| |done]. exists c. simpl in Halnum. split; [done|].
  split_and!.
  - unfold label_char. by rewrite Halnum.
  - unfold to_lowercase in Hx. destruct y as [|a [|b r]].
    + rewrite !bool_decide_eq_false_2 in Hx by done. set_solver.
    + apply list_elem_of_singleton in Hx as [= ->]. apply lowercase_not_upper.
    + repeat case_bool_decide; set_unfold; naive_solver.
  - by intros ->.
Qed.

(** The text grown by the slug loop. *)
Definition slug_inv (st : string * bool) : Prop :=
  str_all label_char st.1 = true ∧ is_lower st.1 = true ∧ starts_with_char "-" st.1 = false.

Lemma starts_with_char_app c s t : s ≠ "" → starts_with_char c (s +:+ t) = starts_with_char c s.
Proof. by destruct s. Qed.

Lemma slug_step_inv name x st :
  x ∈ (chars name ≫= to_lowercase) → slug_inv st → slug_inv (slug_step st x).
Proof.
  intros Hx. destruct st as [slug prev]. intros (Hall & Hlow & Hst). simpl in *. unfold slug_step.
  destruct (char_is_ascii_alphanumeric x) eqn:Ha.
  - destruct (lowercased_char x name Hx Ha) as (c & -> & Hc & Hu & Hne).
    unfold slug_inv; simpl. rewrite str_all_app, is_lower_app, Hall, Hlow. simpl.
    unfold is_lower; simpl. rewrite Hc, Hu. split_and!; [done..|].
    destruct (decide (slug = "")) as [->|]; [|by rewrite starts_with_char_app].
    simpl. apply bool_decide_eq_false. simpl. congruence.
  - destruct (negb prev && negb (is_empty slug)) eqn:E; [|done].
    split_bools. apply is_empty_false in H0.
    unfold slug_inv; simpl. rewrite str_all_app, is_lower_app, Hall, Hlow.
    by rewrite starts_with_char_app.
Qed.

Lemma foldl_inv {A B} (P : B → Prop) (f : B → A → B) l b :
  (∀ x b, x ∈ l → P b → P (f b x)) → P b → P (foldl f b l).
Proof.
  revert b. induction l as [|x l IH]; intros b Hs Hb; [done|]. simpl.
  apply IH; [|by apply Hs; [left|]]. intros; apply Hs; [by right|done].
Qed.

Lemma slug_of_chars name :
  str_all label_char (slug_of name) = true ∧ is_lower (slug_of name) = true
  ∧ (slug_of name ≠ "" → starts_with_char "-" (slug_of name) = false)
  ∧ ends_with_char "-" (slug_of name) = false.
Proof.
  unfold slug_of.
  assert (slug_inv (foldl slug_step ("", false) (chars name ≫= to_lowercase))) as (Ha & Hl & Hs).
  { apply foldl_inv; [|done]. intros; by eapply slug_step_inv. }
  split_and!.
  - by apply trim_end_matches_all.
  - by apply trim_end_matches_all.
  - intros Hne. destruct (trim_end_matches_head "-"
      (foldl slug_step ("", false) (chars name ≫= to_lowercase)).1) as [|Hh]; [done|].
    unfold starts_with_char. rewrite Hh. exact Hs.
  - apply trim_end_matches_last.
Qed.

Lemma slug_of_label name : slug_of name ≠ "" → len (slug_of name) ≤ 63 →
  label_ok (slug_of name) ∧ is_lower (slug_of name) = true.
Proof.
  intros Hne Hlen. destruct (slug_of_chars name) as (?&?&?&?). unfold label_ok. naive_solver.
Qed.

(** ** Properties *)

(** Normalisation returns a hostname exactly when that hostname is one it
    leaves unchanged: a lowercase [.test] name of at most 253 bytes, other than
    the reserved [pv.test], whose labels are non-empty, at most 63 bytes, of
    letters, digits and interior hyphens.  So what is accepted once is accepted
    again, unchanged, by both entry points. *)
Theorem normalize_hostname_spec h allow :
  (∃ input, normalize_hostname input allow = Ok h) ↔ hostname_ok h ∧ is_lower h = true.
Proof.
  split.
  - by intros [input H%normalize_hostname_inv].
  - intros [Hh Hl]. exists h. by apply normalize_hostname_fixed.
Qed.

Lemma slug_hostname_ok slug : label_ok slug → is_lower slug = true → slug ≠ "pv" →
  hostname_ok (slug +:+ ".test").
Proof.
  intros Hs Hl Hpv. pose proof (label_ok_char "." slug eq_refl Hs) as Hdot.
  split_and!.
  - intros H%(f_equal (strip_suffix ".test")).
    rewrite (proj2 (strip_suffix_Some ".test" _ slug) eq_refl) in H. vm_compute in H. congruence.
  - apply ends_with_app.
  - destruct Hs as (_&Hlen&_). rewrite len_app. simpl. lia.
  - rewrite (split_app_sep "." slug "test") by done. constructor; [done|]. constructor; [|done].
    apply (validate_dns_label_ok "test" ""). by vm_compute.
Qed.

Lemma normalize_slug slug : str_all label_char slug = true → is_lower slug = true → slug ≠ "" →
  normalize_primary_hostname slug
  = _ ← validate_hostname (slug +:+ ".test") slug true; Ok (slug +:+ ".test").
Proof.
  intros Hc Hl Hne. unfold normalize_primary_hostname, normalize_hostname.
  rewrite trim_graph by (eapply str_all_impl; [apply label_char_graph|done]).
  rewrite (proj2 (is_empty_false slug) Hne).
  assert (strip_suffix "." slug = None) as ->.
  { destruct (strip_suffix "." slug) as [t|] eqn:Ht; [|done]. apply strip_suffix_Some in Ht.
    rewrite Ht, str_all_app in Hc. by rewrite andb_false_r in Hc. }
  simpl default. rewrite to_ascii_lowercase_id by done.
  rewrite contains_lacks, (str_all_lacks label_char) by done. done.
Qed.

(** A project path gets a hostname exactly when the slug of its directory
    name is a non-empty label of at most 63 bytes other than [pv]; the hostname
    is that slug under [.test]. *)
Theorem hostname_from_project_path_spec path h :
  hostname_from_project_path path = Ok h
  ↔ ∃ name, file_name path = Some name ∧ slug_of name ≠ "" ∧ len (slug_of name) ≤ 63
      ∧ slug_of name ≠ "pv" ∧ h = slug_of name +:+ ".test".
Proof.
  unfold hostname_from_project_path. destruct (file_name path) as [name|]; [|naive_solver].
  destruct (slug_of_chars name) as (Hc & Hl & _ & _).
  destruct (is_empty (slug_of name)) eqn:He;
    [apply is_empty_true in He; naive_solver|apply is_empty_false in He].
  rewrite normalize_slug by done. split.
  - intros H; inv_ok. apply validate_hostname_ok in E as (Hr & _ & _ & Hls).
    exists name. split_and!; [done..| | |done].
    + change ".test" with (String "." "test") in Hls. rewrite split_app_sep in Hls.
      * by apply Forall_cons in Hls as [(_&?&_) _].
      * by apply (str_all_lacks label_char).
    + intros Hpv. by rewrite Hpv in Hr.
  - intros (n & [= <-] & _ & Hlen & Hpv & ->). destruct (slug_of_label name He Hlen) as [Hlab _].
    by rewrite (proj2 (validate_hostname_ok _ _ _) (slug_hostname_ok _ Hlab Hl Hpv)).
Qed.
