(* ===== verification/ConfigParser.v ===== *)
(** * Parsing [pv.yml]: [config/src/parser.rs], [config/src/discovery.rs]

    YAML text is turned into a [yaml] value by the YAML library, a parameter of
    [parse]; the checks on that value are the code's own. *)

From S2P Require Import Prelude RustStr Paths Identity Registry ConfigModel Hostname.

(** The library's [Value], with the constructors the code matches on.  A number
    is used only through its [Display] text, a tag only through being one. *)
Inductive yaml : Type :=
| YNull
| YBool (b : bool)
| YNumber (display : string)
| YString (s : string)
| YSequence (l : list yaml)
| YMapping (l : list (yaml * yaml))
| YTagged.

Definition value_type (v : yaml) : string :=
  match v with
  | YNull => "null"
  | YBool _ => "boolean"
  | YNumber _ => "number"
  | YString _ => "string"
  | YSequence _ => "sequence"
  | YMapping _ => "mapping"
  | YTagged => "tagged value"
  end.

Definition PROJECT_ENV_PLACEHOLDERS : list string := ["project_url"; "tls_ca"; "tls_cert"; "tls_key"].

Inductive EnvPlaceholderScope : Type :=
| ScopeProject
| ScopeResource (resource : string)
| ScopeAllocation (resource : string).

(** ** Scalars *)

Definition string_scalar (field : string) (v : yaml) : result ConfigError string :=
  match v with
  | YString s => Ok s
  | v => Err (InvalidFieldType field "a string" (value_type v))
  end.

Definition bool_scalar (field : string) (v : yaml) : result ConfigError bool :=
  match v with
  | YBool b => Ok b
  | v => Err (InvalidFieldType field "a boolean" (value_type v))
  end.

Definition string_or_number_to_string (field : string) (v : yaml) : result ConfigError string :=
  match v with
  | YString s => Ok s
  | YNumber n => Ok n
  | v => Err (InvalidFieldType field "a string or number" (value_type v))
  end.

Definition bool_to_string (b : bool) : string := if b then "true" else "false".

Definition env_scalar_to_string (field : string) (v : yaml) : result ConfigError string :=
  match v with
  | YString s => Ok s
  | YNumber n => Ok n
  | YBool b => Ok (bool_to_string b)
  | v => Err (InvalidFieldType field "a string, number, or boolean" (value_type v))
  end.

Definition string_key (v : yaml) : result ConfigError string := string_scalar "mapping key" v.

Definition non_empty_string (field : string) (v : yaml) : result ConfigError string :=
  scalar ← string_scalar field v;
  if is_empty (trim scalar) then Err (EmptyField field) else Ok scalar.

Definition non_empty_string_or_number (field : string) (v : yaml) : result ConfigError string :=
  scalar ← string_or_number_to_string field v;
  if is_empty (trim scalar) then Err (EmptyField field) else Ok scalar.

(** ** Names *)

(** A non-empty text whose first byte satisfies one test and the others another. *)
Definition valid_word (first rest : ascii → bool) (s : string) : bool :=
  match s with "" => false | String c s => first c && str_all rest s end.

Definition env_key_first (c : ascii) : bool := is_ascii_uppercase c || char_eqb c "_".
Definition env_key_rest (c : ascii) : bool :=
  is_ascii_uppercase c || is_ascii_digit c || char_eqb c "_".
Definition placeholder_rest (c : ascii) : bool :=
  is_ascii_lowercase c || is_ascii_digit c || char_eqb c "_".
Definition allocation_rest (c : ascii) : bool :=
  is_ascii_lowercase c || is_ascii_digit c || char_eqb c "_" || char_eqb c "-".

Definition validate_env_key (key : string) : result ConfigError unit :=
  if valid_word env_key_first env_key_rest key then Ok tt else Err (InvalidEnvKey key).

Definition validate_allocation_name (allocation : string) : result ConfigError unit :=
  if valid_word is_ascii_lowercase allocation_rest allocation then Ok tt
  else Err (InvalidAllocationName allocation).

Definition validate_placeholder_name (field placeholder : string) : result ConfigError unit :=
  if is_empty placeholder
  then Err (InvalidEnvPlaceholder field placeholder "placeholder name must not be empty")
  else if valid_word is_ascii_lowercase placeholder_rest placeholder then Ok tt
  else Err (InvalidEnvPlaceholder field placeholder
              "placeholder names must use lowercase snake_case").

Definition normalized_allocation_name (resource allocation : string) : string :=
  if bool_decide (resource = "mysql" ∨ resource = "postgres") then replace "-" "_" allocation
  else if bool_decide (resource = "redis" ∨ resource = "rustfs") then replace "_" "-" allocation
  else allocation.

Definition project_config_resource_name (name : string) : option string :=
  match resolve name with
  | Ok d => if bool_decide (rd_kind d = BackingService) then Some (rd_name d) else None
  | Err _ => None
  end.

Definition resource_supports_allocations (resource : string) : bool :=
  match resolve_canonical resource with
  | Ok d => bool_decide (Allocation ∈ rd_capabilities d)
  | Err _ => false
  end.

(** ** Env placeholders *)

Definition resource_placeholders_of (resource : string) : result ConfigError (list string) :=
  map_err (λ e, EnvPlaceholderContractError resource (resources_error_display e))
    (resource_env_placeholders resource).
Definition allocation_placeholders_of (resource : string) : result ConfigError (list string) :=
  map_err (λ e, EnvPlaceholderContractError resource (resources_error_display e))
    (allocation_env_placeholders resource).

Definition allows_placeholder (scope : EnvPlaceholderScope) (placeholder : string) :
    result ConfigError bool :=
  if bool_decide (placeholder ∈ PROJECT_ENV_PLACEHOLDERS) then Ok true
  else match scope with
       | ScopeProject => Ok false
       | ScopeResource resource =>
           l ← resource_placeholders_of resource; Ok (bool_decide (placeholder ∈ l))
       | ScopeAllocation resource =>
           l ← resource_placeholders_of resource;
           if bool_decide (placeholder ∈ l) then Ok true
           else l ← allocation_placeholders_of resource; Ok (bool_decide (placeholder ∈ l))
       end.

Fixpoint validate_loop (fuel : nat) (field : string) (scope : EnvPlaceholderScope) (s : string) :
    result ConfigError unit :=
  match fuel with
  | 0 => Ok tt
  | S fuel =>
      match scan s with
      | ScanEnd => Ok tt
      | ScanChar _ rest | ScanEscaped rest => validate_loop fuel field scope rest
      | ScanBareDollar _ =>
          Err (InvalidEnvPlaceholder field "$" "literal dollar signs must be escaped as `$$`")
      | ScanUnclosed _ => Err (InvalidEnvPlaceholder field s "placeholder must end with `}`")
      | ScanPlaceholder placeholder rest =>
          _ ← validate_placeholder_name field placeholder;
          allowed ← allows_placeholder scope placeholder;
          if (allowed : bool) then validate_loop fuel field scope rest
          else Err (UnknownEnvPlaceholder field placeholder)
      end
  end.

Definition validate_env_placeholders (field : string) (scope : EnvPlaceholderScope) (value : string) :
    result ConfigError unit := validate_loop (len value) field scope value.

(** ** Sections of the file *)

(** The [match value { Null => empty, Mapping => ..., other => Err }] that opens
    most section parsers. *)
Definition mapping_or_null {A} (field : string) (empty : A)
    (k : list (yaml * yaml) → result ConfigError A) (v : yaml) : result ConfigError A :=
  match v with
  | YNull => Ok empty
  | YMapping m => k m
  | v => Err (InvalidFieldType field "a mapping" (value_type v))
  end.

Definition env_entry (field : string) (scope : EnvPlaceholderScope) (acc : gmap string string)
    (entry : yaml * yaml) : result ConfigError (gmap string string) :=
  key ← string_key entry.1;
  _ ← validate_env_key key;
  let value_field := field +:+ "." +:+ key in
  value ← env_scalar_to_string value_field entry.2;
  _ ← validate_env_placeholders value_field scope value;
  Ok (<[key := value]> acc).

Definition parse_env_mapping (field : string) (scope : EnvPlaceholderScope) (v : yaml) :
    result ConfigError (gmap string string) :=
  mapping_or_null field ∅ (λ m, try_fold (env_entry field scope) m ∅) v.

Definition allocation_entry (resource allocation : string) (acc : AllocationConfig)
    (entry : yaml * yaml) : result ConfigError AllocationConfig :=
  key ← string_key entry.1;
  if bool_decide (key = "env") then
    e ← parse_env_mapping (resource +:+ ".allocations." +:+ allocation +:+ ".env")
          (ScopeAllocation resource) entry.2;
    Ok {| alloc_env := e |}
  else Err (UnknownAllocationKey resource allocation key).

Definition parse_allocation_config (resource allocation : string) (v : yaml) :
    result ConfigError AllocationConfig :=
  mapping_or_null (resource +:+ ".allocations." +:+ allocation) allocation_config_default
    (λ m, try_fold (allocation_entry resource allocation) m allocation_config_default) v.

(** The state of the loop: the allocations and the normalised names seen. *)
Definition allocations_entry (resource : string)
    (acc : gmap string AllocationConfig * gmap string string) (entry : yaml * yaml) :
    result ConfigError (gmap string AllocationConfig * gmap string string) :=
  let '(allocations, normalized_allocations) := acc in
  allocation ← string_key entry.1;
  _ ← validate_allocation_name allocation;
  let normalized := normalized_allocation_name resource allocation in
  if option_bool (normalized_allocations !! normalized)
  then Err (DuplicateNormalizedAllocation resource allocation normalized)
  else
    config ← parse_allocation_config resource allocation entry.2;
    Ok (<[allocation := config]> allocations, <[normalized := allocation]> normalized_allocations).

Definition parse_allocations (resource : string) (v : yaml) :
    result ConfigError (gmap string AllocationConfig) :=
  mapping_or_null (resource +:+ ".allocations") ∅
    (λ m, acc ← try_fold (allocations_entry resource) m (∅, ∅); Ok acc.1) v.

Definition resource_track (resource : string) (v : yaml) : result ConfigError string :=
  track ← non_empty_string_or_number (resource +:+ ".version") v;
  _ ← map_err (λ e, InvalidResourceTrack resource track (resources_error_display e))
        (track_selector_parse track);
  Ok track.

Definition resource_entry (resource : string) (acc : ResourceConfig) (entry : yaml * yaml) :
    result ConfigError ResourceConfig :=
  key ← string_key entry.1;
  if bool_decide (key = "version") then
    track ← resource_track resource entry.2;
    Ok {| rc_track := Some track; rc_env := rc_env acc; rc_allocations := rc_allocations acc |}
  else if bool_decide (key = "env") then
    e ← parse_env_mapping (resource +:+ ".env") (ScopeResource resource) entry.2;
    Ok {| rc_track := rc_track acc; rc_env := e; rc_allocations := rc_allocations acc |}
  else if bool_decide (key = "allocations") then
    if negb (resource_supports_allocations resource)
    then Err (UnsupportedResourceAllocations resource)
    else
      allocations ← parse_allocations resource entry.2;
      Ok {| rc_track := rc_track acc; rc_env := rc_env acc; rc_allocations := allocations |}
  else Err (UnknownResourceKey resource key).

Definition parse_resource_config (resource : string) (v : yaml) : result ConfigError ResourceConfig :=
  mapping_or_null resource resource_config_default
    (λ m, try_fold (resource_entry resource) m resource_config_default) v.

Definition hostnames_entry (acc : list string) (v : yaml) : result ConfigError (list string) :=
  hostname ← non_empty_string "hostnames" v;
  hostname ← normalize_additional_hostname hostname;
  if bool_decide (hostname ∈ acc) then Err (DuplicateHostname hostname)
  else Ok (acc ++ [hostname]).

Definition parse_hostnames (v : yaml) : result ConfigError (list string) :=
  match v with
  | YNull => Ok []
  | YSequence l => try_fold hostnames_entry l []
  | v => Err (InvalidFieldType "hostnames" "a sequence" (value_type v))
  end.

Definition validate_env_file (env_file : string) : result ConfigError string :=
  match check_relative_shape env_file with
  | Ok _ => Ok env_file
  | Err ShapeAbsolute => Err (AbsoluteEnvFile env_file)
  | Err ShapeEscapes => Err (EnvFileEscapesProject env_file)
  end.

Definition validate_document_root_shape (document_root : string) : result ConfigError unit :=
  match check_relative_shape document_root with
  | Ok _ => Ok tt
  | Err ShapeAbsolute => Err (AbsoluteDocumentRoot document_root)
  | Err ShapeEscapes => Err (DocumentRootEscapesProject document_root)
  end.

Definition php_track_field (field : string) (v : yaml) : result ConfigError string :=
  track ← non_empty_string_or_number field v;
  _ ← map_err (λ e, InvalidPhpTrack track (resources_error_display e)) (track_selector_parse track);
  Ok track.

Definition php_extensions_of (v : yaml) : result ConfigError (list string) :=
  match v with
  | YSequence l => try_map (non_empty_string "php.extensions") l
  | v => Err (InvalidFieldType "php.extensions" "a sequence" (value_type v))
  end.

Definition php_entry (acc : PhpConfig) (entry : yaml * yaml) : result ConfigError PhpConfig :=
  key ← string_key entry.1;
  if bool_decide (key = "version") then
    version ← php_track_field "php.version" entry.2;
    Ok {| php_version := Some version; php_extensions := php_extensions acc |}
  else if bool_decide (key = "extensions") then
    extensions ← php_extensions_of entry.2;
    Ok {| php_version := php_version acc; php_extensions := extensions |}
  else Err (UnknownPhpKey key).

Definition php_config (v : yaml) : result ConfigError PhpConfig :=
  match v with
  | YMapping m => try_fold php_entry m php_config_default
  | v => php_config_version <$> php_track_field "php" v
  end.

(** ** The whole file *)

Definition set_serve (b : bool) (c : ProjectConfig) : ProjectConfig :=
  {| serve := b; env_file := env_file c; php := php c; document_root := document_root c;
     hostnames := hostnames c; env := env c; resources := resources c |}.
Definition set_env_file (f : string) (c : ProjectConfig) : ProjectConfig :=
  {| serve := serve c; env_file := f; php := php c; document_root := document_root c;
     hostnames := hostnames c; env := env c; resources := resources c |}.
Definition set_php (p : PhpConfig) (c : ProjectConfig) : ProjectConfig :=
  {| serve := serve c; env_file := env_file c; php := Some p; document_root := document_root c;
     hostnames := hostnames c; env := env c; resources := resources c |}.
Definition set_document_root (d : string) (c : ProjectConfig) : ProjectConfig :=
  {| serve := serve c; env_file := env_file c; php := php c; document_root := Some d;
     hostnames := hostnames c; env := env c; resources := resources c |}.
Definition set_hostnames (l : list string) (c : ProjectConfig) : ProjectConfig :=
  {| serve := serve c; env_file := env_file c; php := php c; document_root := document_root c;
     hostnames := l; env := env c; resources := resources c |}.
Definition set_env (e : gmap string string) (c : ProjectConfig) : ProjectConfig :=
  {| serve := serve c; env_file := env_file c; php := php c; document_root := document_root c;
     hostnames := hostnames c; env := e; resources := resources c |}.
Definition set_resources (r : gmap string ResourceConfig) (c : ProjectConfig) : ProjectConfig :=
  {| serve := serve c; env_file := env_file c; php := php c; document_root := document_root c;
     hostnames := hostnames c; env := env c; resources := r |}.

(** One iteration of the loop over the root mapping; [hostnames] is remembered
    and parsed after the loop. *)
Definition project_entry (acc : ProjectConfig * option yaml) (entry : yaml * yaml) :
    result ConfigError (ProjectConfig * option yaml) :=
  let '(config, hosts) := acc in
  key ← string_key entry.1;
  if bool_decide (key = "serve") then
    b ← bool_scalar "serve" entry.2; Ok (set_serve b config, hosts)
  else if bool_decide (key = "env_file") then
    f ← non_empty_string "env_file" entry.2;
    f ← validate_env_file f; Ok (set_env_file f config, hosts)
  else if bool_decide (key = "php") then
    p ← php_config entry.2; Ok (set_php p config, hosts)
  else if bool_decide (key = "document_root") then
    d ← non_empty_string "document_root" entry.2;
    _ ← validate_document_root_shape d; Ok (set_document_root d config, hosts)
  else if bool_decide (key = "hostnames") then Ok (config, Some entry.2)
  else if bool_decide (key = "env") then
    e ← parse_env_mapping "env" ScopeProject entry.2; Ok (set_env e config, hosts)
  else match project_config_resource_name key with
       | None => Err (UnknownTopLevelKey key)
       | Some resource_name =>
           resource_config ← parse_resource_config resource_name entry.2;
           if option_bool (resources config !! resource_name)
           then Err (DuplicateResource resource_name)
           else Ok (set_resources (<[resource_name := resource_config]> (resources config)) config,
                    hosts)
       end.

Definition parse_project_mapping (m : list (yaml * yaml)) : result ConfigError ProjectConfig :=
  acc ← try_fold project_entry m (project_config_default, None);
  match acc.2 with
  | None => Ok acc.1
  | Some hosts => l ← parse_hostnames hosts; Ok (set_hostnames l acc.1)
  end.

Definition from_value (v : yaml) : result ConfigError ProjectConfig :=
  match v with
  | YNull => Ok project_config_default
  | YMapping m => parse_project_mapping m
  | v => Err (RootMustBeMapping (value_type v))
  end.

(** [ProjectConfig::parse], over the YAML library's [from_str] and [apply_merge]. *)
Definition parse (yaml_from_str : string → result string yaml)
    (apply_merge : yaml → result string yaml) (source : string) : result ConfigError ProjectConfig :=
  if is_empty (trim source) then Ok project_config_default
  else
    v ← map_err ParseError (yaml_from_str source);
    v ← map_err ParseError (apply_merge v);
    from_value v.

(** ** What a parsed configuration satisfies *)

(** A value whose placeholders are all well formed and allowed in its scope. *)
Definition value_ok (scope : EnvPlaceholderScope) (value : string) : Prop :=
  ∃ tokens, value = write_tokens tokens ∧ Forall token_wf tokens
    ∧ ∀ n, TPlaceholder n ∈ tokens → allows_placeholder scope n = Ok true.

Definition env_wf (scope : EnvPlaceholderScope) (m : gmap string string) : Prop :=
  map_Forall (λ k v, valid_word env_key_first env_key_rest k = true ∧ value_ok scope v) m.

Definition track_ok (track : string) : Prop := is_ok (track_selector_parse track) = true.

Definition allocations_wf (resource : string) (m : gmap string AllocationConfig) : Prop :=
  map_Forall (λ k a, valid_word is_ascii_lowercase allocation_rest k = true
    ∧ env_wf (ScopeAllocation resource) (alloc_env a)) m
  ∧ ∀ k k', is_Some (m !! k) → is_Some (m !! k') →
      normalized_allocation_name resource k = normalized_allocation_name resource k' → k = k'.

Record resource_wf (name : string) (r : ResourceConfig) : Prop := {
  rwf_service : ∃ d, resolve_canonical name = Ok d ∧ rd_kind d = BackingService;
  rwf_track : from_option track_ok True (rc_track r);
  rwf_env : env_wf (ScopeResource name) (rc_env r);
  rwf_allocations : allocations_wf name (rc_allocations r);
  rwf_supported : rc_allocations r ≠ ∅ → resource_supports_allocations name = true;
}.

(** A relative path whose walk from a directory never climbs above it. *)
Definition stays_inside (p : string) : Prop :=
  is_absolute p = false ∧ (walk [] 0 (components p)).2 = 0.

Definition php_wf (p : PhpConfig) : Prop :=
  from_option track_ok True (php_version p) ∧ Forall (λ e, trim e ≠ "") (php_extensions p).

Record config_wf (c : ProjectConfig) : Prop := {
  cwf_hostnames : NoDup (hostnames c)
    ∧ Forall (λ h, hostname_ok h ∧ is_lower h = true) (hostnames c);
  cwf_env_file : stays_inside (env_file c);
  cwf_document_root : from_option stays_inside True (document_root c);
  cwf_php : from_option php_wf True (php c);
  cwf_env : env_wf ScopeProject (env c);
  cwf_resources : map_Forall resource_wf (resources c);
}.

(** ** Facts *)

Lemma validate_loop_ok fuel field scope s : len s ≤ fuel →
  validate_loop fuel field scope s = Ok tt → value_ok scope s.
Proof.
  revert s. induction fuel as [|fuel IH]; intros s Hlen.
  { destruct s; [|simpl in Hlen; lia]. intros _. exists []. split_and!; [done..|set_solver]. }
  assert (∀ t rest, s = write_token t +:+ rest → token_wf t →
    (∀ n, t = TPlaceholder n → allows_placeholder scope n = Ok true) →
    validate_loop fuel field scope rest = Ok tt → value_ok scope s) as Hstep.
  { intros t rest -> Ht Hal H. destruct (IH rest) as (tokens & -> & Htok & Hn); [|done|].
    { rewrite len_app in Hlen. pose proof (len_write_token t). lia. }
    exists (t :: tokens). split_and!; [done|by constructor|].
    intros n [?|?]%elem_of_cons; auto. }
  cbn [validate_loop]. pose proof (scan_inv s) as Hs.
  destruct (scan s) as [|c rest|rest|rest|rest|name rest]; [|..]; intros H; try done.
  - exists []. split_and!; [done..|set_solver].
  - destruct Hs. by apply (Hstep (TChar c) rest).
  - by apply (Hstep TDollar rest).
  - destruct Hs as [Hs Hwf]. inv_ok. case_match; [|done].
    apply (Hstep (TPlaceholder name) rest); [done..| |done]. by intros ? [= <-].
Qed.

Lemma mapping_or_null_inv {A} (P : A → Prop) field e k v a :
  P e → (∀ m a, k m = Ok a → P a) → mapping_or_null field e k v = Ok a → P a.
Proof. intros He Hk. destruct v; simpl; try done; [by intros [= <-]|apply Hk]. Qed.

Lemma parse_env_mapping_wf field scope v m : parse_env_mapping field scope v = Ok m → env_wf scope m.
Proof.
  apply (mapping_or_null_inv (env_wf scope)); [apply map_Forall_empty|]. intros l a.
  apply (try_fold_inv (env_wf scope)); [|apply map_Forall_empty]. intros acc [k w] acc' _ Hacc.
  unfold env_entry; simpl. intros H; inv_ok. apply map_Forall_insert_2; [|done].
  unfold validate_env_key in E0. case_match; [|done]. split; [done|].
  by eapply validate_loop_ok.
Qed.

Lemma parse_allocation_config_wf resource allocation v a :
  parse_allocation_config resource allocation v = Ok a →
  env_wf (ScopeAllocation resource) (alloc_env a).
Proof.
  apply (mapping_or_null_inv (λ a, env_wf (ScopeAllocation resource) (alloc_env a)));
    [apply map_Forall_empty|]. intros l b.
  apply (try_fold_inv (λ a, env_wf (ScopeAllocation resource) (alloc_env a)));
    [|apply map_Forall_empty].
  intros acc [k w] acc' _ Hacc. unfold allocation_entry; simpl. intros H; inv_ok.
  case_bool_decide; [|done]. inv_ok. by eapply parse_env_mapping_wf.
Qed.

(** The loop of [parse_allocations]: the second map inverts normalisation on the
    first one's keys. *)
Definition allocations_inv (resource : string)
    (acc : gmap string AllocationConfig * gmap string string) : Prop :=
  map_Forall (λ k a, valid_word is_ascii_lowercase allocation_rest k = true
    ∧ env_wf (ScopeAllocation resource) (alloc_env a)) acc.1
  ∧ ∀ k, is_Some (acc.1 !! k) → acc.2 !! normalized_allocation_name resource k = Some k.

Lemma allocations_entry_inv resource acc entry acc' :
  allocations_inv resource acc → allocations_entry resource acc entry = Ok acc' →
  allocations_inv resource acc'.
Proof.
  destruct acc as [m seen], entry as [k w]. intros [Hm Hseen]. unfold allocations_entry; simpl in *.
  intros H; inv_ok. destruct (option_bool _) eqn:Hnew; [done|]. inv_ok.
  unfold validate_allocation_name in E0. case_match; [|done]. split; simpl.
  - apply map_Forall_insert_2; [|done]. split; [done|]. by eapply parse_allocation_config_wf.
  - intros k' Hk'. destruct (decide (k' = a)) as [->|Hne]; [by rewrite lookup_insert_eq|].
    rewrite lookup_insert_ne in Hk' by done. pose proof (Hseen k' Hk') as Hk2.
    rewrite lookup_insert_ne; [done|]. intros Heq. by rewrite Heq, Hk2 in Hnew.
Qed.

Lemma parse_allocations_wf resource v m : parse_allocations resource v = Ok m →
  allocations_wf resource m.
Proof.
  apply (mapping_or_null_inv (allocations_wf resource)).
  - split; [apply map_Forall_empty|]. intros k k' [? H]. by rewrite lookup_empty in H.
  - intros l a H; inv_ok.
    apply (try_fold_inv (allocations_inv resource)) in E.
    + destruct E as [Hm Hseen]. split; [done|]. intros k k' Hk Hk' Heq.
      apply Hseen in Hk, Hk'. rewrite Heq in Hk. congruence.
    + intros; by eapply allocations_entry_inv.
    + split; [apply map_Forall_empty|]. intros k [? H]. simpl in H. by rewrite lookup_empty in H.
Qed.

Lemma project_config_resource_name_spec key name :
  project_config_resource_name key = Some name →
  ∃ d, resolve_canonical name = Ok d ∧ rd_kind d = BackingService.
Proof.
  unfold project_config_resource_name. destruct (resolve key) as [d|] eqn:Hr; [|done].
  case_bool_decide as Hk; [|done]. intros [= <-]. exists d. split; [|done].
  apply resolve_in in Hr. clear Hk.
  unfold RESOURCES in Hr.
  repeat (apply elem_of_cons in Hr as [->|Hr]; [by vm_compute|]). by apply not_elem_of_nil in Hr.
Qed.

Lemma track_field_ok (track : string) r :
  track_selector_parse track = Ok r → track_ok track.
Proof. unfold track_ok. by intros ->. Qed.

Lemma parse_resource_config_wf resource v r :
  (∃ d, resolve_canonical resource = Ok d ∧ rd_kind d = BackingService) →
  parse_resource_config resource v = Ok r → resource_wf resource r.
Proof.
  intros Hd.
  assert (resource_wf resource resource_config_default) as Hdef.
  { split; simpl; [done|done|apply map_Forall_empty| |done].
    split; [apply map_Forall_empty|]. intros k k' [? H]. by rewrite lookup_empty in H. }
  apply (mapping_or_null_inv (resource_wf resource)); [done|]. intros l a.
  apply (try_fold_inv (resource_wf resource)); [|done].
  intros acc [k w] acc' _ [_ Ht He Ha Hs]. unfold resource_entry; simpl. intros H; inv_ok.
  destruct (resource_supports_allocations resource) eqn:Hsup;
    repeat case_bool_decide; simpl in H; inv_ok; split; simpl; try done;
    try (by eapply parse_env_mapping_wf); try (by eapply parse_allocations_wf);
    try (by rewrite Hsup); unfold resource_track in *; inv_ok; by eapply track_field_ok.
Qed.

Lemma parse_hostnames_wf v l : parse_hostnames v = Ok l →
  NoDup l ∧ Forall (λ h, hostname_ok h ∧ is_lower h = true) l.
Proof.
  destruct v as [| | | |vs| |]; simpl; try done;
    [by intros [= <-]; split; constructor|].
  apply (try_fold_inv (λ l, NoDup l ∧ Forall (λ h, hostname_ok h ∧ is_lower h = true) l));
    [|by split; constructor].
  intros acc w acc' _ [Hnd Hall]. unfold hostnames_entry. intros H; inv_ok.
  case_bool_decide as Hin; [done|]. inv_ok. apply normalize_hostname_inv in E0.
  split; [|apply Forall_app; split; [done|by constructor]].
  apply NoDup_app. split_and!; [done|set_solver|apply NoDup_singleton].
Qed.

Lemma php_config_wf v p : php_config v = Ok p → php_wf p.
Proof.
  assert (∀ field w t, php_track_field field w = Ok t → track_ok t) as Htr.
  { unfold php_track_field. intros field w t H; inv_ok. by eapply track_field_ok. }
  assert (∀ w, php_config_version <$> php_track_field "php" w = Ok p → php_wf p) as Hver.
  { intros w. destruct (php_track_field "php" w) as [t|] eqn:E; simpl; [|done].
    intros [= <-]. split; [by eapply Htr|constructor]. }
  destruct v as [| | | | |l|]; try apply Hver. simpl.
  apply (try_fold_inv php_wf); [|by split; constructor]. intros acc [k w] acc' _ [Hv He].
  unfold php_entry; simpl. intros H; inv_ok. repeat case_bool_decide; inv_ok; split; simpl; try done.
  - by eapply Htr.
  - unfold php_extensions_of in E0. destruct w; try done. apply try_map_ok in E0.
    apply Forall_forall. intros x Hx. apply list_elem_of_lookup in Hx as [i Hi].
    destruct (Forall2_lookup_r _ _ _ _ _ E0 Hi) as (y & _ & Hy).
    unfold non_empty_string in Hy. inv_ok. case_match eqn:Hx; [done|]. inv_ok.
    by apply is_empty_false.
Qed.

(** The loop over the root mapping, before [hostnames] is filled in. *)
Lemma project_entry_wf acc entry acc' :
  config_wf acc.1 → project_entry acc entry = Ok acc' → config_wf acc'.1.
Proof.
  destruct acc as [c hosts], entry as [k w]. simpl. intros [Hh Hf Hd Hp He Hr].
  unfold project_entry; simpl. intros H; inv_ok.
  repeat (case_bool_decide; [|]); inv_ok;
    [..|destruct (project_config_resource_name a) as [name|] eqn:Hn; [|done]; inv_ok;
        case_match; [done|]; inv_ok]; split; simpl; try done.
  - unfold validate_env_file in E1. case_match eqn:Hs; [|by case_match]. inv_ok.
    by apply check_relative_shape_ok.
  - by apply php_config_wf in E0.
  - unfold validate_document_root_shape in E1. case_match eqn:Hs; [|by case_match]. inv_ok.
    by apply check_relative_shape_ok.
  - by eapply parse_env_mapping_wf.
  - apply map_Forall_insert_2; [|done]. eapply parse_resource_config_wf; [|done].
    by eapply project_config_resource_name_spec.
Qed.

Lemma project_config_default_wf : config_wf project_config_default.
Proof.
  split; simpl; try done; try apply map_Forall_empty; by split; first [constructor|by vm_compute].
Qed.

Lemma from_value_wf v c : from_value v = Ok c → config_wf c.
Proof.
  destruct v as [| | | | |m|]; simpl; try done.
  { intros [= <-]. apply project_config_default_wf. }
  unfold parse_project_mapping.
  destruct (try_fold project_entry m (project_config_default, None)) as [[c' hosts]|] eqn:E;
    simpl; [|done].
  apply (try_fold_inv (λ acc, config_wf acc.1)) in E;
    [|by intros; eapply project_entry_wf|apply project_config_default_wf].
  destruct hosts as [hosts|]; intros H; inv_ok; [|done].
  destruct E. split; simpl; try done. by eapply parse_hostnames_wf.
Qed.

Lemma parsed_config_wf yaml_from_str apply_merge source c : parse yaml_from_str apply_merge source = Ok c → config_wf c.
Proof.
  unfold parse. destruct (is_empty (trim source)).
  { intros [= <-]. apply project_config_default_wf. }
  intros H; inv_ok. by eapply from_value_wf.
Qed.

(** ** Properties *)

(** Every configuration the parser returns is well formed: hostnames are
    valid, normalised and distinct; [env_file] and [document_root] stay below the
    project; every PHP or resource track is a valid selector; every section is a
    canonical backing service, with allocations only where the registry supports
    them and no two allocation names that normalise to the same one; and every
    env key is a valid variable name whose value uses only placeholders of its
    scope. *)
Theorem parse_wf yaml_from_str apply_merge source c :
  parse yaml_from_str apply_merge source = Ok c → config_wf c.
Proof. apply parsed_config_wf. Qed.

(** A YAML reader for a concrete file: [hostnames: [api.acme.test]],
    [pg: {version: 18, allocations: {main: {env: {DB_URL: "${url}"}}}}]. *)
Definition sample_yaml : yaml :=
  YMapping
    [(YString "hostnames", YSequence [YString "API.acme.test."]);
     (YString "pg", YMapping
       [(YString "version", YNumber "18");
        (YString "allocations", YMapping
          [(YString "main", YMapping
             [(YString "env", YMapping [(YString "DB_URL", YString "${url}")])])])])].

Lemma parse_wf_witness :
  ∃ c, parse (λ _, Ok sample_yaml) Ok "hostnames: ..." = Ok c
    ∧ hostnames c = ["api.acme.test"] ∧ config_wf c.
Proof.
  eexists. split; [by vm_compute|]. split; [by vm_compute|].
  apply (parse_wf (λ _, Ok sample_yaml) Ok "hostnames: ..."). by vm_compute.
Defined.
