(* ===== verification/ProjectEnv.v ===== *)
(** * Rendering a project's env: [config/src/env.rs], first half *)

From S2P Require Import Prelude RustStr Paths Identity Registry ConfigModel Hostname ConfigParser.

Record AllocationEnvContext := {
  ac_generated_name : string;
  ac_values : gmap string string;
}.
Record ResourceEnvContext := {
  rx_track : string;
  rx_values : gmap string string;
  rx_allocations : gmap string AllocationEnvContext;
}.
Record ProjectEnvContext := {
  primary_hostname : string;
  tls_ca_path : string;
  tls_cert_path : string;
  tls_key_path : string;
  cx_resources : gmap string ResourceEnvContext;
}.
Record RenderedProjectEnv := { rendered_values : gmap string string }.
Record RenderedEnvEntry := { entry_source : string; entry_value : string }.

(** ** Rendering values *)

Fixpoint render_loop (fuel : nat) (field : string) (context_values : gmap string string)
    (s : string) : result ConfigError string :=
  match fuel with
  | 0 => Ok ""
  | S fuel =>
      match scan s with
      | ScanEnd => Ok ""
      | ScanChar c rest => String c <$> render_loop fuel field context_values rest
      | ScanEscaped rest => String DOLLAR <$> render_loop fuel field context_values rest
      | ScanBareDollar _ =>
          Err (InvalidEnvPlaceholder field "$" "literal dollar signs must be escaped as `$$`")
      | ScanUnclosed _ => Err (InvalidEnvPlaceholder field s "placeholder must end with `}`")
      | ScanPlaceholder placeholder rest =>
          value ← ok_or (context_values !! placeholder) (MissingEnvContext field placeholder);
          String.append value <$> render_loop fuel field context_values rest
      end
  end.

Definition render_env_value (field value : string) (context_values : gmap string string) :
    result ConfigError string := render_loop (len value) field context_values value.

(** [if !value.is_empty() { values.insert(key, value) }]. *)
Definition insert_non_empty (key value : string) (m : gmap string string) : gmap string string :=
  if is_empty value then m else <[key := value]> m.

Definition project_context_values (cx : ProjectEnvContext) (serve : bool) :
    result ConfigError (gmap string string) :=
  if serve && is_empty (primary_hostname cx)
  then Err (MissingEnvContext "project.primary_hostname" "project_url")
  else
    let values := if is_empty (primary_hostname cx) then ∅
                  else <["project_url" := "https://" +:+ primary_hostname cx]> ∅ in
    let values := insert_non_empty "tls_ca" (tls_ca_path cx) values in
    let values := insert_non_empty "tls_cert" (tls_cert_path cx) values in
    Ok (insert_non_empty "tls_key" (tls_key_path cx) values).

(** [values.extend(more)]: the new values win. *)
Definition resource_context_values (project_values : gmap string string) (rx : ResourceEnvContext) :
    gmap string string := project_values ∪ rx_values rx.

Definition allocation_context_values (project_values : gmap string string)
    (rx : ResourceEnvContext) (ac : AllocationEnvContext) : gmap string string :=
  let values := insert_non_empty "generated_name" (ac_generated_name ac) (rx_values rx) in
  project_values ∪ (ac_values ac ∪ values).

Definition mapping_step (field : string) (context_values : gmap string string) (serve : bool)
    (acc : gmap string RenderedEnvEntry) (kv : string * string) :
    result ConfigError (gmap string RenderedEnvEntry) :=
  let '(key, value) := kv in
  if negb serve && value_uses_serving_placeholder value then Ok acc
  else
    let field := field +:+ "." +:+ key in
    value ← render_env_value field value context_values;
    Ok (<[key := {| entry_source := field; entry_value := value |}]> acc).

Definition render_mapping (field : string) (mapping context_values : gmap string string)
    (serve : bool) : result ConfigError (gmap string RenderedEnvEntry) :=
  try_fold (mapping_step field context_values serve) (btree_iter mapping) ∅.

Definition insert_entry (entries : gmap string RenderedEnvEntry) (ke : string * RenderedEnvEntry) :
    result ConfigError (gmap string RenderedEnvEntry) :=
  let '(key, entry) := ke in
  match entries !! key with
  | Some existing =>
      Err (DuplicateRenderedEnvKey key (entry_source existing) (entry_source entry))
  | None => Ok (<[key := entry]> entries)
  end.

Definition insert_same_depth_entries (entries new_entries : gmap string RenderedEnvEntry) :
    result ConfigError (gmap string RenderedEnvEntry) :=
  try_fold insert_entry (btree_iter new_entries) entries.

Definition resource_env_step (cx : ProjectEnvContext) (project_values : gmap string string)
    (serve : bool) (acc : gmap string RenderedEnvEntry) (kr : string * ResourceConfig) :
    result ConfigError (gmap string RenderedEnvEntry) :=
  let '(resource, resource_config) := kr in
  if bool_decide (rc_env resource_config = ∅) then Ok acc
  else
    rx ← ok_or (cx_resources cx !! resource) (MissingResourceEnvContext resource);
    rendered ← render_mapping (resource +:+ ".env") (rc_env resource_config)
                 (resource_context_values project_values rx) serve;
    insert_same_depth_entries acc rendered.

Definition allocation_env_step (cx : ProjectEnvContext) (project_values : gmap string string)
    (serve : bool) (resource : string) (acc : gmap string RenderedEnvEntry)
    (ka : string * AllocationConfig) : result ConfigError (gmap string RenderedEnvEntry) :=
  let '(allocation, allocation_config) := ka in
  if bool_decide (alloc_env allocation_config = ∅) then Ok acc
  else
    rx ← ok_or (cx_resources cx !! resource) (MissingResourceEnvContext resource);
    ac ← ok_or (rx_allocations rx !! allocation) (MissingAllocationEnvContext resource allocation);
    rendered ← render_mapping (resource +:+ ".allocations." +:+ allocation +:+ ".env")
                 (alloc_env allocation_config)
                 (allocation_context_values project_values rx ac) serve;
    insert_same_depth_entries acc rendered.

Definition entry_values (m : gmap string RenderedEnvEntry) : gmap string string := entry_value <$> m.

Definition render_project_env (c : ProjectConfig) (cx : ProjectEnvContext) :
    result ConfigError RenderedProjectEnv :=
  project_values ← project_context_values cx (serve c);
  project_entries ← render_mapping "env" (env c) project_values (serve c);
  let values := entry_values project_entries in
  resource_values ←
    try_fold (resource_env_step cx project_values (serve c)) (btree_iter (resources c)) ∅;
  let values := entry_values resource_values ∪ values in
  allocation_values ←
    try_fold (λ acc kr,
        try_fold (allocation_env_step cx project_values (serve c) kr.1)
          (btree_iter (rc_allocations kr.2)) acc)
      (btree_iter (resources c)) ∅;
  Ok {| rendered_values := entry_values allocation_values ∪ values |}.

(** ** Validating the shape before a context exists *)

Definition insert_same_depth_key (entries : gmap string string) (key source : string) :
    result ConfigError (gmap string string) :=
  match entries !! key with
  | Some existing => Err (DuplicateRenderedEnvKey key existing source)
  | None => Ok (<[key := source]> entries)
  end.

Definition shape_step (serve : bool) (field : string) (acc : gmap string string)
    (kv : string * string) : result ConfigError (gmap string string) :=
  if negb serve && value_uses_serving_placeholder kv.2 then Ok acc
  else insert_same_depth_key acc kv.1 (field +:+ "." +:+ kv.1).

Definition validate_project_env_shape (c : ProjectConfig) : result ConfigError unit :=
  _ ← try_fold (λ acc kr,
        try_fold (shape_step (serve c) (kr.1 +:+ ".env")) (btree_iter (rc_env kr.2)) acc)
      (btree_iter (resources c)) (∅ : gmap string string);
  _ ← try_fold (λ acc kr,
        try_fold (λ acc ka,
            try_fold (shape_step (serve c) (kr.1 +:+ ".allocations." +:+ ka.1 +:+ ".env"))
              (btree_iter (alloc_env ka.2)) acc)
          (btree_iter (rc_allocations kr.2)) acc)
      (btree_iter (resources c)) (∅ : gmap string string);
  Ok tt.

(** ** Facts about rendering *)

(** Substitution in a token sequence. *)
Fixpoint render_tokens (field : string) (cx : gmap string string) (l : list token) :
    result ConfigError string :=
  match l with
  | [] => Ok ""
  | TChar c :: l => String c <$> render_tokens field cx l
  | TDollar :: l => String DOLLAR <$> render_tokens field cx l
  | TPlaceholder n :: l =>
      value ← ok_or (cx !! n) (MissingEnvContext field n);
      String.append value <$> render_tokens field cx l
  end.

Lemma render_loop_tokens fuel field cx l : Forall token_wf l → len (write_tokens l) ≤ fuel →
  render_loop fuel field cx (write_tokens l) = render_tokens field cx l.
Proof.
  revert fuel. induction l as [|t l IH]; intros fuel Hwf Hf; [by destruct fuel|].
  apply Forall_cons in Hwf as [Ht Hwf]. pose proof (len_write_tokens_cons t l).
  destruct fuel as [|fuel]; [lia|]. cbn [render_loop].
  rewrite write_tokens_cons, scan_token by done.
  destruct t; simpl; rewrite IH by (done || lia); done.
Qed.

Lemma render_env_value_tokens field cx l : Forall token_wf l →
  render_env_value field (write_tokens l) cx = render_tokens field cx l.
Proof. intros H. unfold render_env_value. by apply render_loop_tokens. Qed.

Lemma render_tokens_total field cx l :
  (∀ n, TPlaceholder n ∈ l → is_Some (cx !! n)) → ∃ s, render_tokens field cx l = Ok s.
Proof.
  induction l as [|t l IH]; intros H; [by eexists|].
  destruct IH as [s Hs]; [intros; apply H; by right|].
  destruct t as [c| |n]; simpl; rewrite Hs; [by eexists..|].
  destruct (H n) as [v Hv]; [by left|]. rewrite Hv. by eexists.
Qed.

(** Skipping in non-served projects. *)
Definition skipped (serve : bool) (value : string) : bool :=
  negb serve && value_uses_serving_placeholder value.

(** The context provides every placeholder a scope allows; the project-level ones
    are only needed when the project is served. *)
Definition covers (serve : bool) (scope : EnvPlaceholderScope) (cx : gmap string string) : Prop :=
  ∀ n, allows_placeholder scope n = Ok true →
    serve = true ∨ n ∉ PROJECT_ENV_PLACEHOLDERS → is_Some (cx !! n).

Lemma render_env_value_total serve scope cx field value :
  value_ok scope value → covers serve scope cx → skipped serve value = false →
  ∃ s, render_env_value field value cx = Ok s.
Proof.
  intros (l & -> & Hwf & Hal) Hc Hskip. rewrite render_env_value_tokens by done.
  apply render_tokens_total. intros n Hn. apply Hc; [by apply Hal|].
  destruct serve; [by left|right]. intros Hp. simpl in Hskip.
  unfold value_uses_serving_placeholder in Hskip.
  apply not_true_iff_false in Hskip. apply Hskip, value_uses_any_tokens; [done|]. by exists n.
Qed.

(** What [render_mapping] computes. *)
Definition mapping_entry (field : string) (mapping cx : gmap string string) (serve : bool)
    (k : string) (e : RenderedEnvEntry) : Prop :=
  ∃ v, mapping !! k = Some v ∧ skipped serve v = false
    ∧ entry_source e = field +:+ "." +:+ k
    ∧ render_env_value (entry_source e) v cx = Ok (entry_value e).

Lemma mapping_fold_spec field cx serve l acc m :
  NoDup l.*1 → try_fold (mapping_step field cx serve) l acc = Ok m →
  (∀ k, k ∈ l.*1 → acc !! k = None) →
  ∀ k e, m !! k = Some e ↔ acc !! k = Some e ∨ ∃ v, (k, v) ∈ l ∧ skipped serve v = false
    ∧ entry_source e = field +:+ "." +:+ k
    ∧ render_env_value (entry_source e) v cx = Ok (entry_value e).
Proof.
  revert acc. induction l as [|[k1 v1] l IH]; intros acc Hnd Hf Hfresh k e; simpl in Hf.
  { injection Hf as ->. split; [by left|]. intros [?|(?&?%not_elem_of_nil&_)]; done. }
  apply NoDup_cons in Hnd as [Hk1 Hnd].
  assert (∀ k, k ∈ l.*1 → acc !! k = None) as Hfresh' by (intros; apply Hfresh; by right).
  fold (skipped serve v1) in Hf. destruct (skipped serve v1) eqn:Hs; simpl in Hf.
  - rewrite (IH acc) by done. split; intros [?|(v&Hin&?)]; eauto; right; exists v.
    + split; [by right|done].
    + apply elem_of_cons in Hin as [[= -> ->]|Hin]; [by rewrite Hs in *; naive_solver|done].
  - destruct (render_env_value _ v1 cx) as [s|] eqn:Hr; simpl in Hf; [|done].
    rewrite (IH _ Hnd Hf).
    2: { intros k' Hk'. rewrite lookup_insert_ne; [by apply Hfresh'|]. by intros ->. }
    split.
    + intros [Hk|(v&Hin&?)]; [|right; exists v; split; [by right|done]].
      apply lookup_insert_Some in Hk as [[-> <-]|[? Hk]]; [|by left].
      right. exists v1. split; [by left|done].
    + intros [Hk|(v&Hin&Hv&Hsrc&Hval)].
      * left. rewrite lookup_insert_ne; [done|]. intros ->. rewrite Hfresh in Hk; [done|by left].
      * apply elem_of_cons in Hin as [[= -> ->]|Hin]; [|by eauto 10].
        left. apply lookup_insert_Some. left. split; [done|].
        destruct e as [src val]; simpl in *. subst src. congruence.
Qed.

Lemma render_mapping_spec field mapping cx serve m k e :
  render_mapping field mapping cx serve = Ok m →
  m !! k = Some e ↔ mapping_entry field mapping cx serve k e.
Proof.
  intros H. unfold render_mapping in H.
  rewrite (mapping_fold_spec _ _ _ _ _ _ (NoDup_fst_btree_iter mapping) H) by (intros; apply lookup_empty).
  rewrite lookup_empty. unfold mapping_entry. setoid_rewrite elem_of_btree_iter. naive_solver.
Qed.

Lemma render_mapping_total field scope mapping cx serve :
  env_wf scope mapping → covers serve scope cx →
  ∃ m, render_mapping field mapping cx serve = Ok m.
Proof.
  intros Hwf Hc. unfold render_mapping.
  assert (∀ k v, (k, v) ∈ btree_iter mapping → value_ok scope v) as Hok.
  { intros k v Hin%elem_of_btree_iter. by apply (Hwf k v). }
  generalize (∅ : gmap string RenderedEnvEntry) as acc.
  induction (btree_iter mapping) as [|[k v] l IH]; intros acc; [by eexists|]. simpl.
  fold (skipped serve v). destruct (skipped serve v) eqn:Hs; simpl.
  - apply IH. intros; eapply Hok; by right.
  - destruct (render_env_value_total serve scope cx (field +:+ String "." k) v) as [s ->];
      [by eapply Hok; left|done..|]. simpl. apply IH. intros; eapply Hok; by right.
Qed.

(** *** Same-depth insertion *)

Lemma insert_entries_ok (l : list (string * RenderedEnvEntry)) acc m :
  NoDup l.*1 → try_fold insert_entry l acc = Ok m →
  (∀ k, k ∈ l.*1 → acc !! k = None)
  ∧ ∀ k e, m !! k = Some e ↔ acc !! k = Some e ∨ (k, e) ∈ l.
Proof.
  revert acc. induction l as [|[k1 e1] l IH]; intros acc Hnd Hf; simpl in Hf.
  { injection Hf as ->. split; [set_solver|]. set_solver. }
  apply NoDup_cons in Hnd as [Hk1 Hnd]. unfold insert_entry in Hf at 1.
  destruct (acc !! k1) eqn:Ha; simpl in Hf; [done|].
  destruct (IH _ Hnd Hf) as [Hfresh Hm]. split.
  - intros k [->|Hk]%elem_of_cons; [done|]. specialize (Hfresh k Hk).
    by apply lookup_insert_None in Hfresh as [? _].
  - intros k e. rewrite Hm, lookup_insert_Some, elem_of_cons. split.
    + intros [[[-> ->]|[? ?]]|?]; auto.
    + intros [Hk|[[= -> ->]|?]]; [|by auto..]. left; right. split; [|done]. intros ->. congruence.
Qed.

Lemma insert_entries_total (l : list (string * RenderedEnvEntry)) acc :
  NoDup l.*1 → (∀ k, k ∈ l.*1 → acc !! k = None) →
  ∃ m, try_fold insert_entry l acc = Ok m.
Proof.
  revert acc. induction l as [|[k1 e1] l IH]; intros acc Hnd Hfresh; [by eexists|].
  apply NoDup_cons in Hnd as [Hk1 Hnd]. simpl. rewrite Hfresh by by left. simpl.
  apply IH; [done|]. intros k Hk. rewrite lookup_insert_ne; [|by intros ->].
  apply Hfresh. by right.
Qed.

Lemma insert_same_depth_spec entries new m : insert_same_depth_entries entries new = Ok m →
  new ##ₘ entries ∧ m = new ∪ entries.
Proof.
  intros H. destruct (insert_entries_ok _ _ _ (NoDup_fst_btree_iter new) H) as [Hfresh Hm].
  assert (new ##ₘ entries) as Hd.
  { apply map_disjoint_spec. intros k x y Hx Hy. rewrite Hfresh in Hy; [done|].
    apply list_elem_of_fmap. exists (k, x). by rewrite elem_of_btree_iter. }
  split; [done|]. apply map_eq. intros k. apply option_eq. intros e.
  rewrite Hm, elem_of_btree_iter, lookup_union_Some by done. tauto.
Qed.

Lemma insert_same_depth_total entries new : new ##ₘ entries →
  insert_same_depth_entries entries new = Ok (new ∪ entries).
Proof.
  intros Hd. destruct (insert_entries_total (btree_iter new) entries) as [m Hm].
  - apply NoDup_fst_btree_iter.
  - intros k (kv & -> & Hin)%list_elem_of_fmap. destruct kv as [k e].
    apply elem_of_btree_iter in Hin. simpl. by eapply map_disjoint_Some_l.
  - unfold insert_same_depth_entries. rewrite Hm. f_equal. by apply insert_same_depth_spec.
Qed.

(** *** The shape check simulates rendering *)

(** The keys of a mapping that are rendered, with the source recorded for each. *)
Definition mapping_sources (field : string) (serve : bool) (m : gmap string string) :
    gmap string string :=
  map_imap (λ k v, if skipped serve v then None else Some (field +:+ "." +:+ k)) m.

Lemma lookup_mapping_sources field serve m k :
  mapping_sources field serve m !! k
  = v ← m !! k; if skipped serve v then None else Some (field +:+ "." +:+ k).
Proof. apply map_lookup_imap. Qed.

Lemma shape_step_eq serve field acc k v : shape_step serve field acc (k, v)
  = if skipped serve v then Ok acc else insert_same_depth_key acc k (field +:+ "." +:+ k).
Proof. done. Qed.

Lemma shape_list_ok serve field (l : list (string * string)) acc acc' :
  NoDup l.*1 → try_fold (shape_step serve field) l acc = Ok acc' →
  (∀ k v, (k, v) ∈ l → skipped serve v = false → acc !! k = None)
  ∧ ∀ k s, acc' !! k = Some s ↔ acc !! k = Some s
      ∨ ∃ v, (k, v) ∈ l ∧ skipped serve v = false ∧ s = field +:+ "." +:+ k.
Proof.
  revert acc. induction l as [|[k1 v1] l IH]; intros acc Hnd Hf; cbn [try_fold] in Hf.
  { injection Hf as ->. set_solver. }
  apply NoDup_cons in Hnd as [Hk1 Hnd]. rewrite shape_step_eq in Hf. destruct (skipped serve v1) eqn:Hs; simpl in Hf.
  - destruct (IH _ Hnd Hf) as [Hfresh Hm]. split; intros k.
    + intros v [[= -> ->]|Hin]%elem_of_cons Hv; [congruence|by eapply Hfresh].
    + intros s. rewrite Hm. setoid_rewrite elem_of_cons. naive_solver congruence.
  - unfold insert_same_depth_key in Hf. destruct (acc !! k1) eqn:Ha; simpl in Hf; [done|].
    destruct (IH _ Hnd Hf) as [Hfresh Hm]. split; intros k.
    + intros v [[= -> ->]|Hin]%elem_of_cons Hv; [done|].
      specialize (Hfresh k v Hin Hv). by apply lookup_insert_None in Hfresh as [? _].
    + intros s. rewrite Hm, lookup_insert_Some. setoid_rewrite elem_of_cons. split.
      * intros [[[-> <-]|[? ?]]|(v&?&?&?)]; [right; exists v1; auto|by left|right; exists v; auto].
      * intros [Hk|(v&[[= -> ->]|?]&?&->)]; [|by left; left|right; exists v; auto].
        left; right. split; [|done]. intros ->. congruence.
Qed.

Lemma shape_fold_spec serve field m acc acc' :
  try_fold (shape_step serve field) (btree_iter m) acc = Ok acc' →
  mapping_sources field serve m ##ₘ acc ∧ acc' = mapping_sources field serve m ∪ acc.
Proof.
  intros H. destruct (shape_list_ok _ _ _ _ _ (NoDup_fst_btree_iter m) H) as [Hfresh Hm].
  assert (∀ k s, mapping_sources field serve m !! k = Some s
    ↔ ∃ v, (k, v) ∈ btree_iter m ∧ skipped serve v = false ∧ s = field +:+ "." +:+ k) as Hs.
  { intros k s. rewrite lookup_mapping_sources, bind_Some. setoid_rewrite elem_of_btree_iter.
    split; [|intros (v&Hv&Hk&->); exists v; by rewrite Hk].
    intros (v & Hv & Hk). destruct (skipped serve v) eqn:?; simplify_eq. eauto. }
  assert (mapping_sources field serve m ##ₘ acc) as Hd.
  { apply map_disjoint_spec. intros k x y (v&Hin&Hv&_)%Hs Hy. by rewrite (Hfresh k v) in Hy. }
  split; [done|]. apply map_eq. intros k. apply option_eq. intros s.
  rewrite Hm, lookup_union_Some, Hs by done. tauto.
Qed.

(** One mapping: if the shape check passes it and the context covers its scope,
    rendering passes it too, and the recorded sources stay equal. *)
Lemma mapping_sim field scope m cx serve acc acc' entries :
  env_wf scope m → covers serve scope cx → entry_source <$> entries = acc →
  try_fold (shape_step serve field) (btree_iter m) acc = Ok acc' →
  ∃ entries', (rendered ← render_mapping field m cx serve;
               insert_same_depth_entries entries rendered) = Ok entries'
    ∧ entry_source <$> entries' = acc'.
Proof.
  intros Hwf Hc <- [Hd ->]%shape_fold_spec.
  destruct (render_mapping_total field scope m cx serve Hwf Hc) as [rendered Hr]. rewrite Hr. simpl.
  assert (entry_source <$> rendered = mapping_sources field serve m) as Hsrc.
  { apply map_eq. intros k. rewrite lookup_fmap, lookup_mapping_sources.
    destruct (rendered !! k) as [e|] eqn:He; simpl.
    - apply (render_mapping_spec _ _ _ _ _ _ _ Hr) in He as (v & -> & Hs & -> & _). simpl. by rewrite Hs.
    - destruct (m !! k) as [v|] eqn:Hv; simpl; [|done]. destruct (skipped serve v) eqn:Hs; [done|].
      destruct (render_env_value_total serve scope cx (field +:+ "." +:+ k) v) as [s Hval];
        [by apply (Hwf k v)|done..|].
      assert (rendered !! k
        = Some {| entry_source := field +:+ "." +:+ k; entry_value := s |}) as Hk.
      { apply (render_mapping_spec _ _ _ _ _ _ _ Hr). by exists v. }
      congruence. }
  rewrite insert_same_depth_total.
  - eexists; split; [done|]. by rewrite map_fmap_union, Hsrc.
  - apply map_disjoint_spec. intros k x y Hx Hy. rewrite map_disjoint_spec in Hd.
    eapply (Hd k); [rewrite <-Hsrc|]; rewrite lookup_fmap, ?Hx, ?Hy; done.
Qed.

(** ** Context coverage *)

Definition provides (l : list string) (m : gmap string string) : Prop := ∀ n, n ∈ l → is_Some (m !! n).

(** The context holds the hostname and TLS paths when the project is served, and,
    for each mapping that is not empty, the placeholders the registry contract
    promises for that resource or allocation. *)
Record context_covers (c : ProjectConfig) (cx : ProjectEnvContext) : Prop := {
  cc_project : serve c = true → primary_hostname cx ≠ "" ∧ tls_ca_path cx ≠ ""
    ∧ tls_cert_path cx ≠ "" ∧ tls_key_path cx ≠ "";
  cc_resource : ∀ r rc, resources c !! r = Some rc → rc_env rc ≠ ∅ →
    ∃ rx, cx_resources cx !! r = Some rx
      ∧ ∀ l, resource_env_placeholders r = Ok l → provides l (rx_values rx);
  cc_allocation : ∀ r rc a ac, resources c !! r = Some rc → rc_allocations rc !! a = Some ac →
    alloc_env ac ≠ ∅ →
    ∃ rx ax, cx_resources cx !! r = Some rx ∧ rx_allocations rx !! a = Some ax
      ∧ (∀ l, resource_env_placeholders r = Ok l → provides l (ac_values ax ∪ rx_values rx))
      ∧ (∀ l, allocation_env_placeholders r = Ok l → provides l (ac_values ax ∪ rx_values rx));
}.

Lemma lookup_insert_non_empty_ne k k' v m :
  k ≠ k' → insert_non_empty k v m !! k' = m !! k'.
Proof. intros. unfold insert_non_empty. case_match; [done|by rewrite lookup_insert_ne]. Qed.
Lemma lookup_insert_non_empty k v m : v ≠ "" → insert_non_empty k v m !! k = Some v.
Proof.
  intros Hv. unfold insert_non_empty. rewrite (proj2 (is_empty_false v) Hv). apply lookup_insert_eq.
Qed.
Lemma insert_non_empty_mono k v m n : is_Some (m !! n) → is_Some (insert_non_empty k v m !! n).
Proof.
  intros. unfold insert_non_empty. case_match; [done|]. apply lookup_insert_is_Some'. by right.
Qed.

Lemma project_context_total c cx : context_covers c cx →
  ∃ pv, project_context_values cx (serve c) = Ok pv
    ∧ (serve c = true → provides PROJECT_ENV_PLACEHOLDERS pv).
Proof.
  intros [Hp _ _]. unfold project_context_values.
  destruct (serve c) eqn:Hs; simpl; [|eexists; split; [done|]; by intros].
  destruct (Hp eq_refl) as (H1 & H2 & H3 & H4).
  rewrite (proj2 (is_empty_false _) H1). eexists. split; [done|]. intros _ n Hn.
  unfold PROJECT_ENV_PLACEHOLDERS in Hn.
  repeat (apply elem_of_cons in Hn as [->|Hn];
    [repeat first [by eexists; apply lookup_insert_non_empty|apply insert_non_empty_mono]|]).
  - by rewrite lookup_insert_eq.
  - by apply not_elem_of_nil in Hn.
Qed.

Lemma union_is_Some (m1 m2 : gmap string string) n :
  is_Some (m1 !! n) ∨ is_Some (m2 !! n) → is_Some ((m1 ∪ m2) !! n).
Proof.
  rewrite lookup_union. destruct (m1 !! n), (m2 !! n); simpl; intros [[? ?]|[? ?]]; by eauto.
Qed.

(** A scope's placeholders come from the project, or from the registry contract. *)
Lemma allows_placeholder_inv scope n : allows_placeholder scope n = Ok true →
  n ∈ PROJECT_ENV_PLACEHOLDERS
  ∨ match scope with
    | ScopeProject => False
    | ScopeResource r => ∃ l, resource_env_placeholders r = Ok l ∧ n ∈ l
    | ScopeAllocation r => (∃ l, resource_env_placeholders r = Ok l ∧ n ∈ l)
        ∨ ∃ l, allocation_env_placeholders r = Ok l ∧ n ∈ l
    end.
Proof.
  unfold allows_placeholder. case_bool_decide; [by left|]. intros H0. right.
  unfold resource_placeholders_of, allocation_placeholders_of in H0.
  destruct scope as [|r|r]; [done|..]; inv_ok.
  - split_bools. eauto.
  - case_bool_decide; [by left; eauto|]. right. inv_ok. split_bools. eauto.
Qed.

Lemma covers_scope serve pv cx scope :
  (serve = true → provides PROJECT_ENV_PLACEHOLDERS pv) →
  (∀ n, n ∉ PROJECT_ENV_PLACEHOLDERS → allows_placeholder scope n = Ok true → is_Some (cx !! n)) →
  covers serve scope (pv ∪ cx).
Proof.
  intros Hpv Hcx n Hal Hs. apply union_is_Some.
  destruct (decide (n ∈ PROJECT_ENV_PLACEHOLDERS)) as [Hn|Hn]; [|by right; apply Hcx].
  left. destruct Hs as [Hs|]; [|done]. by apply Hpv.
Qed.

Lemma allocation_covers serve r pv rx ax :
  (serve = true → provides PROJECT_ENV_PLACEHOLDERS pv) →
  (∀ l, resource_env_placeholders r = Ok l → provides l (ac_values ax ∪ rx_values rx)) →
  (∀ l, allocation_env_placeholders r = Ok l → provides l (ac_values ax ∪ rx_values rx)) →
  covers serve (ScopeAllocation r) (allocation_context_values pv rx ax).
Proof.
  intros Hpv Hr Ha. apply covers_scope; [done|]. intros n Hn Hal.
  assert (is_Some ((ac_values ax ∪ rx_values rx) !! n)) as Hn'.
  { apply allows_placeholder_inv in Hal as [?|[(l&Hl&?)|(l&Hl&?)]]; [done|by eapply Hr|by eapply Ha]. }
  apply union_is_Some. rewrite lookup_union in Hn'. destruct (ac_values ax !! n); [left; eauto|].
  right. apply insert_non_empty_mono. by destruct (rx_values rx !! n).
Qed.

Lemma btree_iter_empty {V} : btree_iter (∅ : gmap string V) = [].
Proof. by apply btree_iter_nil. Qed.

(** *** Deciding coverage *)

Definition providesb (l : result ResourcesError (list string)) (m : gmap string string) : bool :=
  match l with Ok l => forallb (λ n, option_bool (m !! n)) l | Err _ => true end.

Lemma providesb_spec r m : providesb r m = true → ∀ l, r = Ok l → provides l m.
Proof.
  intros H l -> n Hn. simpl in H. rewrite forallb_forall in H.
  by apply option_bool_true, H, list_elem_of_In.
Qed.

Definition allocation_coversb (r : string) (rx : ResourceEnvContext) (ka : string * AllocationConfig) :
    bool :=
  bool_decide (alloc_env ka.2 = ∅) ||
  match rx_allocations rx !! ka.1 with
  | Some ax => providesb (resource_env_placeholders r) (ac_values ax ∪ rx_values rx)
               && providesb (allocation_env_placeholders r) (ac_values ax ∪ rx_values rx)
  | None => false
  end.

Definition resource_coversb (cx : ProjectEnvContext) (kr : string * ResourceConfig) : bool :=
  match cx_resources cx !! kr.1 with
  | Some rx => (bool_decide (rc_env kr.2 = ∅) || providesb (resource_env_placeholders kr.1) (rx_values rx))
               && forallb (allocation_coversb kr.1 rx) (btree_iter (rc_allocations kr.2))
  | None => bool_decide (rc_env kr.2 = ∅)
            && forallb (λ ka, bool_decide (alloc_env ka.2 = ∅)) (btree_iter (rc_allocations kr.2))
  end.

Definition context_coversb (c : ProjectConfig) (cx : ProjectEnvContext) : bool :=
  (negb (serve c) || negb (is_empty (primary_hostname cx)) && negb (is_empty (tls_ca_path cx))
     && negb (is_empty (tls_cert_path cx)) && negb (is_empty (tls_key_path cx)))
  && forallb (resource_coversb cx) (btree_iter (resources c)).

Lemma forallb_btree_iter {V} (f : string * V → bool) m k v :
  forallb f (btree_iter m) = true → m !! k = Some v → f (k, v) = true.
Proof. rewrite forallb_forall. intros H Hk. by apply H, list_elem_of_In, elem_of_btree_iter. Qed.

Lemma context_coversb_sound c cx : context_coversb c cx = true → context_covers c cx.
Proof.
  unfold context_coversb. intros [Hp Hr]%andb_true_iff. split.
  - intros Hs. rewrite Hs in Hp. simpl in Hp. split_bools. by rewrite <-!is_empty_false.
  - intros r rc Hrc He. apply (forallb_btree_iter _ _ _ _ Hr) in Hrc. unfold resource_coversb in Hrc. simpl in Hrc.
    destruct (cx_resources cx !! r) as [rx|]; split_bools; [|done]. exists rx. split; [done|].
    apply providesb_spec. rewrite bool_decide_eq_false_2 in H by done. done.
  - intros r rc a ac Hrc Hac He. apply (forallb_btree_iter _ _ _ _ Hr) in Hrc.
    unfold resource_coversb in Hrc. simpl in Hrc.
    destruct (cx_resources cx !! r) as [rx|]; split_bools;
      eapply forallb_btree_iter in Hac; [|done| |done]; simpl in Hac; [|by split_bools].
    unfold allocation_coversb in Hac. simpl in Hac. rewrite bool_decide_eq_false_2 in Hac by done.
    simpl in Hac. destruct (rx_allocations rx !! a) as [ax|] eqn:Hax; [|done]. split_bools.
    exists rx, ax. split_and!; [done|done|by apply providesb_spec..].
Qed.

(** *** Which mapping a rendered key comes from *)

(** A loop whose steps each add the entries [contrib] describes. *)
Lemma steps_contribute {X} (step : gmap string RenderedEnvEntry → X →
      result ConfigError (gmap string RenderedEnvEntry)) contrib l acc acc' :
  (∀ acc x acc', x ∈ l → step acc x = Ok acc' →
     ∀ k e, acc' !! k = Some e ↔ acc !! k = Some e ∨ contrib x k e) →
  try_fold step l acc = Ok acc' →
  ∀ k e, acc' !! k = Some e ↔ acc !! k = Some e ∨ ∃ x, x ∈ l ∧ contrib x k e.
Proof.
  revert acc. induction l as [|x l IH]; intros acc Hstep Hf k e; simpl in Hf.
  { injection Hf as ->. set_solver. }
  destruct (step acc x) as [acc1|] eqn:E; simpl in Hf; [|done].
  rewrite (IH acc1); [|intros; eapply Hstep; [by right|done]|done].
  rewrite (Hstep acc x acc1); [|by left|done]. set_solver.
Qed.

Lemma insert_rendered_spec field mapping cv serve acc acc' :
  (rendered ← render_mapping field mapping cv serve; insert_same_depth_entries acc rendered) = Ok acc' →
  ∀ k e, acc' !! k = Some e ↔ acc !! k = Some e ∨ mapping_entry field mapping cv serve k e.
Proof.
  intros H k e. destruct (render_mapping _ _ _ _) as [m|] eqn:Hm; simpl in H; [|done].
  apply insert_same_depth_spec in H as [Hd ->]. rewrite lookup_union_Some by done.
  rewrite (render_mapping_spec _ _ _ _ _ _ _ Hm). tauto.
Qed.

(** [resource]'s own [env] mapping defines the key. *)
Definition resource_defines (cx : ProjectEnvContext) (pv : gmap string string) (serve : bool)
    (kr : string * ResourceConfig) (k : string) (e : RenderedEnvEntry) : Prop :=
  ∃ rx, cx_resources cx !! kr.1 = Some rx
    ∧ mapping_entry (kr.1 +:+ ".env") (rc_env kr.2) (resource_context_values pv rx) serve k e.

(** The [env] mapping of one of its allocations defines the key. *)
Definition allocation_defines (cx : ProjectEnvContext) (pv : gmap string string) (serve : bool)
    (r : string) (ka : string * AllocationConfig) (k : string) (e : RenderedEnvEntry) : Prop :=
  ∃ rx ax, cx_resources cx !! r = Some rx ∧ rx_allocations rx !! ka.1 = Some ax
    ∧ mapping_entry (r +:+ ".allocations." +:+ ka.1 +:+ ".env") (alloc_env ka.2)
        (allocation_context_values pv rx ax) serve k e.

Lemma mapping_entry_empty field cv serve k e : ¬ mapping_entry field ∅ cv serve k e.
Proof. intros (v & Hv & _). by rewrite lookup_empty in Hv. Qed.

Lemma resource_env_step_spec cx pv serve acc kr acc' :
  resource_env_step cx pv serve acc kr = Ok acc' →
  ∀ k e, acc' !! k = Some e ↔ acc !! k = Some e ∨ resource_defines cx pv serve kr k e.
Proof.
  destruct kr as [r rc]. unfold resource_env_step, resource_defines. simpl.
  destruct (bool_decide _) eqn:He; split_bools.
  - intros [= ->] k e. rewrite He. split; [by left|].
    intros [?|(rx & _ & []%mapping_entry_empty)]. done.
  - destruct (cx_resources cx !! r) as [rx|]; simpl; [|done].
    intros H k e. rewrite (insert_rendered_spec _ _ _ _ _ _ H). naive_solver.
Qed.

Lemma allocation_env_step_spec cx pv serve r acc ka acc' :
  allocation_env_step cx pv serve r acc ka = Ok acc' →
  ∀ k e, acc' !! k = Some e ↔ acc !! k = Some e ∨ allocation_defines cx pv serve r ka k e.
Proof.
  destruct ka as [a ac]. unfold allocation_env_step, allocation_defines. simpl.
  destruct (bool_decide _) eqn:He; split_bools.
  - intros [= ->] k e. rewrite He. split; [by left|].
    intros [?|(rx & ax & _ & _ & []%mapping_entry_empty)]. done.
  - destruct (cx_resources cx !! r) as [rx|]; simpl; [|done].
    destruct (rx_allocations rx !! a) as [ax|] eqn:Hax; simpl; [|done].
    intros H k e. rewrite (insert_rendered_spec _ _ _ _ _ _ H).
    split; (intros [?|Hd]; [by left|right]); [by exists rx, ax|].
    destruct Hd as (rx' & ax' & [= <-] & Hax' & Hd). congruence.
Qed.

(** What the three levels of a configuration define. *)
Definition by_project (c : ProjectConfig) (pv : gmap string string) (k v : string) : Prop :=
  ∃ e, mapping_entry "env" (env c) pv (serve c) k e ∧ v = entry_value e.
Definition by_resource (c : ProjectConfig) (cx : ProjectEnvContext) (pv : gmap string string)
    (k v : string) : Prop :=
  ∃ e r rc, resources c !! r = Some rc ∧ resource_defines cx pv (serve c) (r, rc) k e
    ∧ v = entry_value e.
Definition by_allocation (c : ProjectConfig) (cx : ProjectEnvContext) (pv : gmap string string)
    (k v : string) : Prop :=
  ∃ e r rc a ac, resources c !! r = Some rc ∧ rc_allocations rc !! a = Some ac
    ∧ allocation_defines cx pv (serve c) r (a, ac) k e ∧ v = entry_value e.

Lemma lookup_entry_values m k v :
  entry_values m !! k = Some v ↔ ∃ e, m !! k = Some e ∧ v = entry_value e.
Proof.
  unfold entry_values. rewrite lookup_fmap. destruct (m !! k) as [e|]; simpl; [|naive_solver].
  split; [intros [= <-]; eauto|intros (e' & [= <-] & ->); done].
Qed.

Lemma resource_entries_spec cx pv serve (rs : gmap string ResourceConfig) m :
  try_fold (resource_env_step cx pv serve) (btree_iter rs) ∅ = Ok m →
  ∀ k e, m !! k = Some e ↔ ∃ r rc, rs !! r = Some rc ∧ resource_defines cx pv serve (r, rc) k e.
Proof.
  intros H k e.
  rewrite (steps_contribute _ _ _ _ _ (λ acc x acc' _, resource_env_step_spec cx pv serve acc x acc') H).
  rewrite lookup_empty. split.
  - intros [?|([r rc] & Hin%elem_of_btree_iter & Hd)]; [done|eauto].
  - intros (r & rc & Hin%elem_of_btree_iter & Hd). right. eauto.
Qed.

Lemma allocation_entries_spec cx pv serve (rs : gmap string ResourceConfig) m :
  try_fold (λ acc kr, try_fold (allocation_env_step cx pv serve kr.1)
      (btree_iter (rc_allocations kr.2)) acc) (btree_iter rs) ∅ = Ok m →
  ∀ k e, m !! k = Some e ↔ ∃ r rc a ac, rs !! r = Some rc ∧ rc_allocations rc !! a = Some ac
    ∧ allocation_defines cx pv serve r (a, ac) k e.
Proof.
  intros H k e.
  rewrite (steps_contribute _ (λ kr k e, ∃ ka, ka ∈ btree_iter (rc_allocations kr.2)
    ∧ allocation_defines cx pv serve kr.1 ka k e) _ _ _
    (λ acc x acc' _, steps_contribute _ _ _ _ _
      (λ acc ka acc' _, allocation_env_step_spec cx pv serve x.1 acc ka acc')) H).
  rewrite lookup_empty. split.
  - intros [?|([r rc] & Hin%elem_of_btree_iter & [a ac] & Ha%elem_of_btree_iter & Hd)]; [done|].
    exists r, rc, a, ac. done.
  - intros (r & rc & a & ac & Hin%elem_of_btree_iter & Ha%elem_of_btree_iter & Hd).
    right. exists (r, rc). eauto.
Qed.

(** ** Properties *)

(** C27: Rendering cannot fail on a checked configuration.  If the configuration is
    one the parser accepts, the shape check passes, and the context provides what
    the registry contract promises, then rendering the project env succeeds: no
    placeholder is malformed, unknown or missing, and no two mappings of the same
    depth define the same key. *)
Theorem render_project_env_total c cx :
  config_wf c → validate_project_env_shape c = Ok tt → context_covers c cx →
  ∃ r, render_project_env c cx = Ok r.
Proof.
  intros [_ _ _ _ Henv Hres] Hshape Hcov.
  destruct (project_context_total c cx Hcov) as (pv & Hpv & Hprov).
  unfold render_project_env. rewrite Hpv. simpl.
  destruct (render_mapping_total "env" ScopeProject (env c) pv (serve c) Henv) as [pe ->].
  { intros n Hal Hs. destruct Hs as [Hs|Hn].
    - apply allows_placeholder_inv in Hal as [Hn|[]]. by apply Hprov.
    - by apply allows_placeholder_inv in Hal as [?|[]]. }
  simpl. unfold validate_project_env_shape in Hshape.
  inv_ok. rename E into H1, E0 into H2. clear Hshape.
  apply (try_fold_sim (λ acc (m : gmap string RenderedEnvEntry), entry_source <$> m = acc)
    _ (resource_env_step cx pv (serve c)) _ _ ∅) in H1 as (re & -> & _); simpl.
  3: apply fmap_empty.
  2: { intros [r rc] acc m acc' Hin%elem_of_btree_iter Hm Hf. simpl in *.
    case_bool_decide as He; [rewrite He, btree_iter_empty in Hf; simpl in Hf; simplify_eq; eauto|].
    destruct (cc_resource c cx Hcov r rc Hin He) as (rx & -> & Hrx). simpl.
    eapply (mapping_sim _ (ScopeResource r)); [by apply (Hres r rc)| |done|done].
    apply covers_scope; [done|]. intros n Hn [?|(l & Hl & Hin')]%allows_placeholder_inv; [done|].
    by eapply Hrx. }
  apply (try_fold_sim (λ acc (m : gmap string RenderedEnvEntry), entry_source <$> m = acc)
    _ (λ acc kr, try_fold (allocation_env_step cx pv (serve c) kr.1)
         (btree_iter (rc_allocations kr.2)) acc) _ _ ∅) in H2 as (ae & -> & _); simpl.
  3: apply fmap_empty.
  2: { intros [r rc] acc m acc' Hin%elem_of_btree_iter Hm Hf. simpl in *.
    revert Hm Hf.
    apply (try_fold_sim (λ acc (m : gmap string RenderedEnvEntry), entry_source <$> m = acc)).
    clear acc m acc'.
    intros [al ac] acc m acc' Hain%elem_of_btree_iter Hm Hf. simpl in *.
    case_bool_decide as He; [rewrite He, btree_iter_empty in Hf; simpl in Hf; simplify_eq; eauto|].
    destruct (cc_allocation c cx Hcov r rc al ac Hin Hain He) as (rx & ax & -> & Hax & Hr & Ha). simpl.
    rewrite Hax. simpl.
    eapply (mapping_sim _ (ScopeAllocation r)); [|  |done|done].
    { destruct (Hres r rc Hin) as [_ _ _ [Hal _] _]. by apply (Hal al ac). }
    apply (allocation_covers (serve c) r pv rx ax); [done|..].
    - intros l Hl n. by apply Hr.
    - intros l Hl n. by apply Ha. }
  by eexists.
Qed.

(** A project with one key, [DB_URL], defined at all three levels. *)
Definition sample_env_yaml : yaml :=
  YMapping
    [(YString "env", YMapping [(YString "DB_URL", YString "project");
                               (YString "APP_URL", YString "${project_url}")]);
     (YString "pg", YMapping
       [(YString "env", YMapping [(YString "DB_URL", YString "resource");
                                  (YString "DB_PORT", YString "${port}")]);
        (YString "allocations", YMapping
          [(YString "main", YMapping
             [(YString "env", YMapping [(YString "DB_URL", YString "${url}/x")])])])])].

Definition sample_env_config : ProjectConfig :=
  match from_value sample_env_yaml with Ok c => c | Err _ => project_config_default end.

Definition sample_sql_values : gmap string string :=
  list_to_map ((λ n, (n, "<" +:+ n +:+ ">"))
    <$> (SQL_RESOURCE_ENV_PLACEHOLDERS ++ SQL_ALLOCATION_ENV_PLACEHOLDERS)).

Definition sample_env_context : ProjectEnvContext :=
  {| primary_hostname := "acme.test"; tls_ca_path := "/ca"; tls_cert_path := "/cert";
     tls_key_path := "/key";
     cx_resources := {[ "postgres" :=
       {| rx_track := "18"; rx_values := sample_sql_values;
          rx_allocations := {[ "main" := {| ac_generated_name := "acme_main";
                                            ac_values := sample_sql_values |} ]} |} ]} |}.

Lemma render_project_env_total_witness :
  config_wf sample_env_config ∧ validate_project_env_shape sample_env_config = Ok tt
  ∧ context_covers sample_env_config sample_env_context
  ∧ ∃ r, render_project_env sample_env_config sample_env_context = Ok r.
Proof.
  assert (config_wf sample_env_config) as Hwf by (apply (from_value_wf sample_env_yaml); by vm_compute).
  assert (validate_project_env_shape sample_env_config = Ok tt) as Hs by by vm_compute.
  assert (context_covers sample_env_config sample_env_context) as Hc
    by (apply context_coversb_sound; by vm_compute).
  split_and!; [done..|]. by apply render_project_env_total.
Defined.

(** Exactly what is rendered. *)
Lemma rendered_exactly c cx r :
  render_project_env c cx = Ok r →
  ∃ pv, project_context_values cx (serve c) = Ok pv ∧
  ∀ k v, rendered_values r !! k = Some v ↔
    by_allocation c cx pv k v
    ∨ (¬ ∃ v', by_allocation c cx pv k v') ∧
      (by_resource c cx pv k v ∨ (¬ ∃ v', by_resource c cx pv k v') ∧ by_project c pv k v).
Proof.
  unfold render_project_env. destruct (project_context_values cx (serve c)) as [pv|]; simpl; [|done].
  destruct (render_mapping _ _ _ _) as [pe|] eqn:Hpe; simpl; [|done].
  destruct (try_fold (resource_env_step _ _ _) _ _) as [re|] eqn:Hre; simpl; [|done].
  destruct (try_fold (λ _ _, _) (btree_iter (resources c)) ∅) as [ae|] eqn:Hae; simpl; [|done].
  intros [= <-]. exists pv. split; [done|]. intros k v. simpl.
  assert (∀ v, entry_values ae !! k = Some v ↔ by_allocation c cx pv k v) as Ha.
  { intros w. rewrite lookup_entry_values. setoid_rewrite (allocation_entries_spec _ _ _ _ _ Hae).
    unfold by_allocation. naive_solver. }
  assert (∀ v, entry_values re !! k = Some v ↔ by_resource c cx pv k v) as Hr.
  { intros w. rewrite lookup_entry_values. setoid_rewrite (resource_entries_spec _ _ _ _ _ Hre).
    unfold by_resource. naive_solver. }
  assert (∀ v, entry_values pe !! k = Some v ↔ by_project c pv k v) as Hp.
  { intros w. rewrite lookup_entry_values. setoid_rewrite (render_mapping_spec _ _ _ _ _ _ _ Hpe).
    done. }
  rewrite !lookup_union_Some_raw, !eq_None_not_Some. unfold is_Some.
  setoid_rewrite Ha. setoid_rewrite Hr. setoid_rewrite Hp. done.
Qed.

(** C25: Precedence and exactness of rendering.  A rendered key has the value of the
    most specific level that defines it: an allocation's mapping before a
    resource's, a resource's before the project's; and nothing else is rendered. *)
Theorem render_project_env_precedence c cx r :
  render_project_env c cx = Ok r →
  ∃ pv, project_context_values cx (serve c) = Ok pv ∧
  ∀ k v, rendered_values r !! k = Some v ↔
    by_allocation c cx pv k v
    ∨ (¬ ∃ v', by_allocation c cx pv k v') ∧
      (by_resource c cx pv k v ∨ (¬ ∃ v', by_resource c cx pv k v') ∧ by_project c pv k v).
Proof. apply rendered_exactly. Qed.

Lemma render_project_env_precedence_witness :
  ∃ r, render_project_env sample_env_config sample_env_context = Ok r
    ∧ rendered_values r !! "DB_URL" = Some "<url>/x"
    ∧ ∃ pv, ∀ k v, rendered_values r !! k = Some v ↔
        by_allocation sample_env_config sample_env_context pv k v
        ∨ (¬ ∃ v', by_allocation sample_env_config sample_env_context pv k v') ∧
          (by_resource sample_env_config sample_env_context pv k v
           ∨ (¬ ∃ v', by_resource sample_env_config sample_env_context pv k v')
             ∧ by_project sample_env_config pv k v).
Proof.
  eexists. split; [by vm_compute|]. split; [by vm_compute|].
  edestruct (render_project_env_precedence sample_env_config sample_env_context) as (pv & _ & H);
    [by vm_compute|]. exists pv. exact H.
Defined.
