(* ===== verification/EnvBlock.v ===== *)
(** * Writing the rendered env and the managed [.env] block:
    [config/src/env.rs], second half *)

From S2P Require Import Prelude RustStr ConfigModel ConfigParser ProjectEnv.

Definition MANAGED_ENV_START_MARKER : string := "# >>> PV MANAGED".
Definition MANAGED_ENV_END_MARKER : string := "# <<< PV MANAGED".

Inductive ProjectEnvWarning : Type := DuplicateExistingKey (key : string).

Record ManagedEnvBlockTransform := {
  content : string;
  warnings : list ProjectEnvWarning;
  changed : bool;
}.

(** ** Writing values *)

Definition unsafe_chars : list string := [byte_of 35; byte_of 34; byte_of 39; byte_of 92; byte_of 36].

Definition is_safe_unquoted_value (value : string) : bool :=
  negb (is_empty value)
  && forallb (λ c, negb (is_whitespace c) && negb (bool_decide (c ∈ unsafe_chars))) (chars value).

Definition escape_char (c : ascii) : string :=
  if char_eqb c QUOTE then String BACKSLASH (String QUOTE "")
  else if char_eqb c BACKSLASH then String BACKSLASH (String BACKSLASH "")
  else if char_eqb c DOLLAR then String BACKSLASH (String DOLLAR "")
  else if char_eqb c NEWLINE then String BACKSLASH "n"
  else if char_eqb c CARRIAGE_RETURN then String BACKSLASH "r"
  else if char_eqb c TAB then String BACKSLASH "t"
  else String c "".

Fixpoint escape (s : string) : string :=
  match s with "" => "" | String c s => escape_char c +:+ escape s end.

Definition format_env_value (value : string) : string :=
  if is_safe_unquoted_value value then value
  else String QUOTE (escape value +:+ String QUOTE "").

Definition env_line (kv : string * string) : string := kv.1 +:+ "=" +:+ format_env_value kv.2.

Definition newline : string := String NEWLINE "".

Definition format_project_env (r : RenderedProjectEnv) : string :=
  if bool_decide (rendered_values r = ∅) then ""
  else join newline (env_line <$> btree_iter (rendered_values r)) +:+ newline.

(** ** Lines *)

Definition split_env_lines (text : string) : list string :=
  if is_empty text then []
  else
    let lines := trim_end_matches CARRIAGE_RETURN <$> split NEWLINE text in
    if ends_with_char NEWLINE text then removelast lines else lines.

Definition join_env_lines (lines : list string) : string :=
  match lines with [] => "" | _ => join newline lines +:+ newline end.

(** ** Managed blocks *)

(** The loop over [lines.iter().enumerate()]; blocks are collected in order. *)
Fixpoint managed_blocks_loop (index : nat) (current_start : option nat)
    (lines : list string) : result ConfigError (list (nat * nat)) :=
  match lines with
  | [] =>
      if option_bool current_start
      then Err (MalformedManagedEnvBlock "start marker without end marker") else Ok []
  | line :: lines =>
      if bool_decide (line = MANAGED_ENV_START_MARKER) then
        if option_bool current_start
        then Err (MalformedManagedEnvBlock "nested start marker")
        else managed_blocks_loop (S index) (Some index) lines
      else if bool_decide (line = MANAGED_ENV_END_MARKER) then
        match current_start with
        | None => Err (MalformedManagedEnvBlock "end marker without start marker")
        | Some start => cons (start, index) <$> managed_blocks_loop (S index) None lines
        end
      else managed_blocks_loop (S index) current_start lines
  end.

Definition managed_blocks (lines : list string) : result ConfigError (list (nat * nat)) :=
  managed_blocks_loop 0 None lines.

Definition managed_block_lines (r : RenderedProjectEnv) : list string :=
  MANAGED_ENV_START_MARKER :: (env_line <$> btree_iter (rendered_values r))
  ++ [MANAGED_ENV_END_MARKER].

Definition append_managed_block (lines block_lines : list string) : list string :=
  lines ++ block_lines.

Definition replace_managed_block (lines : list string) (start stop : nat)
    (block_lines : list string) : list string :=
  take start lines ++ block_lines ++ drop (stop + 1) lines.

Definition in_blocks (blocks : list (nat * nat)) (index : nat) : bool :=
  existsb (λ b : nat * nat, (b.1 <=? index) && (index <=? b.2)) blocks.

(** The lines at indices outside every block, from [index] on. *)
Fixpoint outside_blocks (blocks : list (nat * nat)) (index : nat) (lines : list string) :
    list string :=
  match lines with
  | [] => []
  | line :: lines =>
      if in_blocks blocks index then outside_blocks blocks (S index) lines
      else line :: outside_blocks blocks (S index) lines
  end.

Definition fold_managed_blocks (lines : list string) (blocks : list (nat * nat))
    (block_lines : list string) : list string := outside_blocks blocks 0 lines ++ block_lines.

(** ** Warnings *)

Definition is_env_key (key : string) : bool := valid_word env_key_first env_key_rest key.

Definition assignment_key (line : string) : option string :=
  let line := trim_start line in
  if is_empty line || starts_with_char "#" line then None
  else
    let assignment := default line (strip_prefix "export " line) in
    '(key, _) ← split_once "=" assignment;
    let key := trim key in
    if is_env_key key then Some key else None.

Definition duplicate_existing_key_warnings (lines : list string) (blocks : list (nat * nat))
    (r : RenderedProjectEnv) : list ProjectEnvWarning :=
  let duplicate_keys : gset string :=
    list_to_set (List.filter (λ key, option_bool (rendered_values r !! key))
      (omap assignment_key (outside_blocks blocks 0 lines))) in
  DuplicateExistingKey <$> sort_on id (elements duplicate_keys).

(** ** Rewriting the file *)

Definition transform_lines (lines : list string) (blocks : list (nat * nat))
    (block_lines : list string) : list string :=
  match blocks with
  | [] => append_managed_block lines block_lines
  | [(start, stop)] => replace_managed_block lines start stop block_lines
  | _ => fold_managed_blocks lines blocks block_lines
  end.

Definition transform_managed_env_block (existing : option string) (r : RenderedProjectEnv) :
    result ConfigError ManagedEnvBlockTransform :=
  let existing_content := default "" existing in
  let lines := split_env_lines existing_content in
  blocks ← managed_blocks lines;
  if bool_decide (rendered_values r = ∅) && bool_decide (blocks = [])
  then Ok {| content := existing_content; warnings := []; changed := false |}
  else
    let warns := duplicate_existing_key_warnings lines blocks r in
    let text := join_env_lines (transform_lines lines blocks (managed_block_lines r)) in
    Ok {| content := text; warnings := warns; changed := negb (bool_decide (text = existing_content)) |}.

Definition validate_managed_env_block (existing : option string) : result ConfigError unit :=
  _ ← managed_blocks (split_env_lines (default "" existing)); Ok tt.


(** ** Facts about written values *)

Lemma escape_char_lacks_newline c : lacks NEWLINE (escape_char c) = true.
Proof.
  revert c. apply (all_bytes_spec (λ c, lacks NEWLINE (escape_char c))). by vm_compute.
Qed.

Lemma escape_lacks_newline s : lacks NEWLINE (escape s) = true.
Proof.
  induction s as [|c s IH]; [done|]. simpl. by rewrite lacks_app, escape_char_lacks_newline, IH.
Qed.

Lemma safe_value_char value c : is_safe_unquoted_value value = true →
  is_ascii c = true → is_whitespace (String c "") = true ∨ String c "" ∈ unsafe_chars →
  lacks c value = true.
Proof.
  unfold is_safe_unquoted_value. intros H Hc Hbad. split_bools.
  apply not_false_iff_true. intros Hl. apply chars_elem_ascii in Hl; [|done].
  rewrite forallb_forall in H0. specialize (H0 _ (proj1 (list_elem_of_In _ _) Hl)). split_bools.
  destruct Hbad; congruence.
Qed.

Lemma format_env_value_lacks_newline value : lacks NEWLINE (format_env_value value) = true.
Proof.
  unfold format_env_value. destruct (is_safe_unquoted_value value) eqn:Hs.
  - by apply safe_value_char; [..|left; vm_compute].
  - rewrite lacks_cons, lacks_app, escape_lacks_newline. done.
Qed.

Lemma format_env_value_last value : ends_with_char CARRIAGE_RETURN (format_env_value value) = false.
Proof.
  unfold format_env_value. destruct (is_safe_unquoted_value value) eqn:Hs.
  - assert (lacks CARRIAGE_RETURN value = true) as Hl
      by (by apply safe_value_char; [..|left; vm_compute]).
    apply bool_decide_eq_false. intros Hc. pose proof (str_all_last _ _ _ Hl Hc) as H.
    by vm_compute in H.
  - apply bool_decide_eq_false.
    change (String QUOTE (escape value +:+ String QUOTE "")) with
      (String QUOTE (escape value) +:+ String QUOTE "").
    by rewrite str_last_app.
Qed.

Lemma ends_with_char_app c s t : t ≠ "" → ends_with_char c (s +:+ t) = ends_with_char c t.
Proof.
  intros Ht. unfold ends_with_char. f_equal. induction s as [|d s IH]; [done|]. simpl.
  rewrite <-IH. destruct (s +:+ t) eqn:E; [|done]. destruct s, t; done.
Qed.

Lemma format_env_value_nonempty value : format_env_value value ≠ "".
Proof.
  unfold format_env_value. destruct (is_safe_unquoted_value value) eqn:Hs; [|done].
  unfold is_safe_unquoted_value in Hs. split_bools. by apply is_empty_false.
Qed.

(** ** Facts about lines *)

(** A line of the file: what [split_env_lines] produces. *)
Definition line_ok (line : string) : Prop :=
  lacks NEWLINE line = true ∧ ends_with_char CARRIAGE_RETURN line = false.

Lemma split_env_lines_ok text : Forall line_ok (split_env_lines text).
Proof.
  unfold split_env_lines. destruct (is_empty text); [constructor|].
  assert (Forall line_ok (trim_end_matches CARRIAGE_RETURN <$> split NEWLINE text)) as H.
  { apply Forall_fmap. eapply Forall_impl; [apply split_pieces_lack|]. intros x Hx.
    split; [by apply trim_end_matches_all|apply trim_end_matches_last]. }
  case_match; [|done]. rewrite Forall_forall in H |- *. intros x Hx. apply H.
  revert Hx. generalize (trim_end_matches CARRIAGE_RETURN <$> split NEWLINE text) as l.
  induction l as [|y l IH]; [done|]. simpl. destruct l; [set_solver|].
  rewrite !elem_of_cons in *. naive_solver.
Qed.

Lemma split_join_newline l : l ≠ [] → Forall (λ x, lacks NEWLINE x = true) l →
  split NEWLINE (join newline l +:+ newline) = l ++ [""].
Proof.
  intros Hl Hall. assert (join newline l +:+ newline = join newline (l ++ [""])) as ->.
  { clear Hall. induction l as [|x l IH]; [done|]. destruct l as [|y l].
    - done.
    - rewrite (join_cons newline x (y :: l)) by done.
      change ((x :: y :: l) ++ [""]) with (x :: ((y :: l) ++ [""])).
      rewrite (join_cons newline x ((y :: l) ++ [""])) by done.
      rewrite <-!str_app_assoc. do 2 f_equal. apply IH. done. }
  apply split_join; [by destruct l|]. apply Forall_app; by repeat constructor.
Qed.

Lemma split_join_env_lines lines : Forall line_ok lines →
  split_env_lines (join_env_lines lines) = lines.
Proof.
  intros Hall. destruct lines as [|x l]; [done|]. cbn [join_env_lines]. unfold split_env_lines.
  assert (is_empty (join newline (x :: l) +:+ newline) = false) as ->.
  { apply is_empty_false. intros H%(f_equal len). rewrite len_app in H. simpl in H. lia. }
  rewrite split_join_newline; [|done|by eapply Forall_impl; [exact Hall|intros ? [? _]]].
  assert (ends_with_char NEWLINE (join newline (x :: l) +:+ newline) = true) as ->.
  { unfold newline at 2. apply ends_with_char_Some. by eexists. }
  rewrite fmap_app. change (trim_end_matches CARRIAGE_RETURN <$> [""]) with [""].
  rewrite removelast_last. rewrite <-(list_fmap_id (x :: l)) at 2.
  apply list_fmap_ext. intros i y Hy. rewrite Forall_forall in Hall.
  destruct (Hall y) as [_ Hcr]; [by apply list_elem_of_lookup; eauto|]. by apply trim_end_matches_id.
Qed.

(** ** Facts about blocks *)

Definition plain (line : string) : Prop :=
  line ≠ MANAGED_ENV_START_MARKER ∧ line ≠ MANAGED_ENV_END_MARKER.

(** Where the managed blocks of a file are. *)
Inductive blocks_at : nat → list string → list (nat * nat) → Prop :=
| blocks_nil i : blocks_at i [] []
| blocks_plain i x l bs : plain x → blocks_at (S i) l bs → blocks_at i (x :: l) bs
| blocks_block i body l bs :
    Forall plain body → blocks_at (i + length body + 2) l bs →
    blocks_at i (MANAGED_ENV_START_MARKER :: body ++ MANAGED_ENV_END_MARKER :: l)
      ((i, i + length body + 1) :: bs).

(** The lines outside every block. *)
Fixpoint user_lines (inside : bool) (lines : list string) : list string :=
  match lines with
  | [] => []
  | x :: l =>
      if bool_decide (x = MANAGED_ENV_START_MARKER) then user_lines true l
      else if bool_decide (x = MANAGED_ENV_END_MARKER) then user_lines false l
      else if inside then user_lines inside l else x :: user_lines inside l
  end.

Lemma markers_differ : MANAGED_ENV_END_MARKER ≠ MANAGED_ENV_START_MARKER.
Proof. done. Qed.

(** Once a block is open, the loop reads a plain body and the end marker. *)
Lemma managed_blocks_loop_open i start lines bs :
  managed_blocks_loop i (Some start) lines = Ok bs →
  ∃ body rest bs', lines = body ++ MANAGED_ENV_END_MARKER :: rest ∧ Forall plain body
    ∧ bs = (start, i + length body) :: bs'
    ∧ managed_blocks_loop (i + length body + 1) None rest = Ok bs'.
Proof.
  revert i. induction lines as [|x lines IH]; intros i; [done|]. cbn [managed_blocks_loop option_bool].
  case_bool_decide as Hs; [done|]. case_bool_decide as He.
  - subst. destruct (managed_blocks_loop (S i) None lines) as [bs'|] eqn:Hb; [|done].
    intros [= <-]. exists [], lines, bs'. rewrite Nat.add_0_r, Nat.add_1_r. by split_and!.
  - intros (body & rest & bs' & -> & Hp & -> & Hr)%IH.
    exists (x :: body), rest, bs'. split_and!; [done|by constructor|f_equal; f_equal; simpl; lia|].
    rewrite <-Hr. f_equal. simpl. lia.
Qed.

Lemma managed_blocks_loop_close i body l bs : Forall plain body →
  managed_blocks_loop (i + length body + 1) None l = Ok bs →
  ∀ start, managed_blocks_loop i (Some start) (body ++ MANAGED_ENV_END_MARKER :: l)
    = Ok ((start, i + length body) :: bs).
Proof.
  intros Hp. revert i. induction Hp as [|x body [Hs He] Hp IH]; intros i Hl start.
  - cbn [app managed_blocks_loop length option_bool] in *. rewrite bool_decide_eq_false_2 by done.
    rewrite bool_decide_eq_true_2, Nat.add_0_r in * by done. rewrite Nat.add_1_r in Hl. by rewrite Hl.
  - cbn [app managed_blocks_loop length option_bool] in *. rewrite !bool_decide_eq_false_2 by done.
    rewrite (IH (S i)); [do 3 f_equal; lia|]. rewrite <-Hl. f_equal. lia.
Qed.

Lemma managed_blocks_loop_spec n : ∀ i lines bs, length lines ≤ n →
  managed_blocks_loop i None lines = Ok bs → blocks_at i lines bs.
Proof.
  induction n as [|n IH]; intros i lines bs Hn.
  { destruct lines; [intros [= <-]; constructor|simpl in Hn; lia]. }
  destruct lines as [|x lines]; [intros [= <-]; constructor|]. simpl in Hn.
  cbn [managed_blocks_loop option_bool]. case_bool_decide as Hs.
  - intros (body & rest & bs' & -> & Hp & -> & Hr)%managed_blocks_loop_open. subst x.
    replace (S i + length body) with (i + length body + 1) by lia. constructor; [done|].
    apply IH; [rewrite length_app in Hn; simpl in Hn; lia|]. rewrite <-Hr. f_equal. lia.
  - case_bool_decide as He; [done|]. intros H. constructor; [done|]. apply IH; [lia|done].
Qed.

Lemma managed_blocks_spec lines bs : managed_blocks lines = Ok bs ↔ blocks_at 0 lines bs.
Proof.
  unfold managed_blocks. split; [by apply (managed_blocks_loop_spec (length lines))|].
  generalize 0 as i. induction 1 as [|i x l bs [Hs He] _ IH|i body l bs Hp _ IH]; [done|..];
    cbn [managed_blocks_loop option_bool].
  - by rewrite !bool_decide_eq_false_2.
  - rewrite bool_decide_eq_true_2 by done. rewrite (managed_blocks_loop_close (S i) body l bs Hp).
    + do 3 f_equal. lia.
    + rewrite <-IH. f_equal. lia.
Qed.

Lemma user_lines_app_plain b l1 l2 : Forall plain l1 →
  user_lines b (l1 ++ l2) = (if b then [] else l1) ++ user_lines b l2.
Proof.
  induction 1 as [|x l1 [Hs He] _ IH]; [by destruct b|]. simpl.
  rewrite !bool_decide_eq_false_2 by done. rewrite IH. by destruct b.
Qed.

Lemma user_lines_block body l : Forall plain body →
  user_lines false (MANAGED_ENV_START_MARKER :: body ++ MANAGED_ENV_END_MARKER :: l)
  = user_lines false l.
Proof.
  intros Hp. cbn [user_lines]. rewrite bool_decide_eq_true_2 by done.
  rewrite user_lines_app_plain by done. cbn [user_lines app].
  rewrite bool_decide_eq_false_2 by done. by rewrite bool_decide_eq_true_2.
Qed.

Lemma user_lines_plain l : Forall plain l → user_lines false l = l.
Proof. intros H. rewrite <-(app_nil_r l) at 1. rewrite user_lines_app_plain by done. by rewrite app_nil_r. Qed.

Lemma user_lines_are_plain b l : Forall plain (user_lines b l).
Proof.
  revert b. induction l as [|x l IH]; intros b; simpl; [constructor|].
  repeat case_bool_decide; [apply IH..|]. destruct b; [apply IH|]. by constructor.
Qed.

Lemma blocks_at_nil i l : blocks_at i l [] → Forall plain l.
Proof. remember [] as bs eqn:Hbs. induction 1; [constructor|constructor; auto|done]. Qed.

Lemma blocks_at_single i l s e : blocks_at i l [(s, e)] →
  ∃ pre body post, l = pre ++ MANAGED_ENV_START_MARKER :: body ++ MANAGED_ENV_END_MARKER :: post
    ∧ s = i + length pre ∧ e = s + length body + 1
    ∧ Forall plain pre ∧ Forall plain body ∧ Forall plain post.
Proof.
  remember [(s, e)] as bs eqn:Hbs. intros H. revert Hbs.
  induction H as [|i x l bs Hx _ IH|i body l bs Hb Hl]; intros Heq; [done|..].
  - destruct (IH Heq) as (pre & body & post & -> & -> & -> & Hpre & ?).
    exists (x :: pre), body, post. simpl. split_and!; [done|lia|lia|by constructor|naive_solver..].
  - injection Heq as <- <- ->. exists [], body, l. apply blocks_at_nil in Hl.
    simpl. split_and!; [done|lia|lia|constructor|done..].
Qed.

Lemma blocks_at_starts i l bs : blocks_at i l bs → Forall (λ b : nat * nat, i ≤ b.1) bs.
Proof.
  induction 1 as [| |i body l bs _ _ IH]; [constructor|..].
  - eapply Forall_impl; [done|]. simpl. lia.
  - constructor; [done|]. eapply Forall_impl; [exact IH|]. simpl. lia.
Qed.

Lemma in_blocks_app b1 b2 i : in_blocks (b1 ++ b2) i = in_blocks b1 i || in_blocks b2 i.
Proof. apply existsb_app. Qed.
Lemma in_blocks_after bs i : Forall (λ b : nat * nat, b.2 < i) bs → in_blocks bs i = false.
Proof.
  induction 1 as [|b bs Hb _ IH]; [done|]. simpl. rewrite IH, orb_false_r.
  apply andb_false_iff. right. apply Nat.leb_gt. lia.
Qed.
Lemma in_blocks_before bs i : Forall (λ b : nat * nat, i < b.1) bs → in_blocks bs i = false.
Proof.
  induction 1 as [|b bs Hb _ IH]; [done|]. simpl. rewrite IH, orb_false_r.
  apply andb_false_iff. left. apply Nat.leb_gt. lia.
Qed.

Lemma outside_blocks_skip blocks i l1 l2 :
  (∀ k, i ≤ k < i + length l1 → in_blocks blocks k = true) →
  outside_blocks blocks i (l1 ++ l2) = outside_blocks blocks (i + length l1) l2.
Proof.
  revert i. induction l1 as [|x l1 IH]; intros i H; simpl; [by rewrite Nat.add_0_r|].
  simpl in H. rewrite (H i) by lia. rewrite IH; [f_equal; lia|]. intros k Hk. apply H. lia.
Qed.

(** The index test of the folding loop keeps exactly the lines outside blocks. *)
Lemma outside_blocks_spec i l bs seen : blocks_at i l bs →
  Forall (λ b : nat * nat, b.2 < i) seen →
  outside_blocks (seen ++ bs) i l = user_lines false l.
Proof.
  intros H. revert seen. induction H as [|i x l bs [Hs He] Hl IH|i body l bs Hb Hl IH]; intros seen Hseen.
  - done.
  - cbn [outside_blocks user_lines]. rewrite !bool_decide_eq_false_2 by done.
    rewrite in_blocks_app, in_blocks_after, in_blocks_before; [|..|done]; simpl.
    + f_equal. apply IH. eapply Forall_impl; [done|]. simpl. lia.
    + apply blocks_at_starts in Hl. eapply Forall_impl; [done|]. simpl. lia.
  - rewrite user_lines_block by done.
    change (MANAGED_ENV_START_MARKER :: body ++ MANAGED_ENV_END_MARKER :: l) with
      ((MANAGED_ENV_START_MARKER :: body) ++ [MANAGED_ENV_END_MARKER] ++ l).
    rewrite app_assoc, outside_blocks_skip.
    + rewrite length_app. simpl length.
      replace (i + (S (length body) + 1)) with (i + length body + 2) by lia.
      change ((i, i + length body + 1) :: bs) with ([(i, i + length body + 1)] ++ bs).
      rewrite app_assoc. apply IH. apply Forall_app. split.
      * eapply Forall_impl; [done|]. simpl. lia.
      * constructor; [simpl; lia|constructor].
    + intros k. rewrite length_app. simpl length. intros Hk.
      rewrite in_blocks_app. simpl. apply orb_true_iff. right. apply orb_true_iff. left.
      apply andb_true_iff. split; apply Nat.leb_le; simpl; lia.
Qed.

(** ** Rewriting a file *)

Definition env_keys_ok (r : RenderedProjectEnv) : Prop :=
  map_Forall (λ k _, is_env_key k = true) (rendered_values r).

(** The lines of the block between its markers. *)
Definition body_lines (r : RenderedProjectEnv) : list string :=
  env_line <$> btree_iter (rendered_values r).

Lemma env_key_facts k : is_env_key k = true →
  lacks NEWLINE k = true ∧ ∃ c s, k = String c s ∧ c ≠ "#"%char.
Proof.
  unfold is_env_key. destruct k as [|c s]; [done|]. simpl. intros; split_bools. split.
  - rewrite lacks_cons. rewrite (str_all_lacks env_key_rest NEWLINE s eq_refl) by done.
    rewrite andb_true_r. apply negb_true_iff, char_eqb_neq. by intros ->.
  - exists c, s. split; [done|]. by intros ->.
Qed.

Lemma env_line_facts k v : is_env_key k = true → plain (env_line (k, v)) ∧ line_ok (env_line (k, v)).
Proof.
  intros Hk. destruct (env_key_facts k Hk) as (Hl & c & s & -> & Hc). unfold env_line; simpl. split.
  - unfold plain, MANAGED_ENV_START_MARKER, MANAGED_ENV_END_MARKER. split; congruence.
  - split.
    + rewrite lacks_cons, lacks_app, lacks_cons, format_env_value_lacks_newline.
      rewrite lacks_cons in Hl. split_bools. by rewrite H, H0.
    + change (String c (s +:+ String "=" (format_env_value v))) with
        ((String c s) +:+ ("=" +:+ format_env_value v)).
      rewrite str_app_assoc, ends_with_char_app by apply format_env_value_nonempty.
      apply format_env_value_last.
Qed.

Lemma body_lines_ok r : env_keys_ok r → Forall plain (body_lines r) ∧ Forall line_ok (body_lines r).
Proof.
  intros Hk. rewrite <-Forall_and. apply Forall_fmap, Forall_forall. intros [k v] Hin%elem_of_btree_iter.
  apply env_line_facts. by apply (Hk k v).
Qed.

Lemma managed_block_lines_eq r : managed_block_lines r
  = MANAGED_ENV_START_MARKER :: body_lines r ++ [MANAGED_ENV_END_MARKER].
Proof. done. Qed.

Lemma managed_block_lines_app r post : managed_block_lines r ++ post
  = MANAGED_ENV_START_MARKER :: body_lines r ++ MANAGED_ENV_END_MARKER :: post.
Proof. rewrite managed_block_lines_eq. simpl. by rewrite <-app_assoc. Qed.

Lemma managed_block_lines_ok r : env_keys_ok r → Forall line_ok (managed_block_lines r).
Proof.
  intros Hk. rewrite managed_block_lines_eq. constructor; [by vm_compute|]. apply Forall_app.
  split; [by apply body_lines_ok|]. constructor; [by vm_compute|constructor].
Qed.

Lemma replace_one pre (block : list string) post start stop new :
  start = length pre → stop + 1 = length pre + length block →
  replace_managed_block (pre ++ block ++ post) start stop new = pre ++ new ++ post.
Proof.
  intros -> Hstop. unfold replace_managed_block. rewrite take_app_length. do 2 f_equal.
  rewrite app_assoc. apply drop_app_length'. rewrite length_app. lia.
Qed.

(** Every case of the rewrite yields the user's lines around one block. *)
Lemma transform_lines_shape lines bs r : blocks_at 0 lines bs →
  ∃ pre post, transform_lines lines bs (managed_block_lines r)
      = pre ++ managed_block_lines r ++ post
    ∧ pre ++ post = user_lines false lines ∧ Forall plain pre ∧ Forall plain post.
Proof.
  intros Hb. destruct bs as [|[s e] [|b bs]].
  - apply blocks_at_nil in Hb. exists lines, []. rewrite app_nil_r, user_lines_plain by done.
    unfold transform_lines, append_managed_block. by rewrite app_nil_r.
  - apply blocks_at_single in Hb as (pre & body & post & -> & -> & -> & Hpre & Hbody & Hpost).
    exists pre, post. rewrite user_lines_app_plain, user_lines_block, user_lines_plain by done.
    split_and!; [|done..]. simpl transform_lines.
    assert (MANAGED_ENV_START_MARKER :: body ++ MANAGED_ENV_END_MARKER :: post
      = (MANAGED_ENV_START_MARKER :: body ++ [MANAGED_ENV_END_MARKER]) ++ post) as ->
      by (simpl; by rewrite <-app_assoc).
    apply replace_one; [done|]. simpl. rewrite length_app. simpl. lia.
  - exists (user_lines false lines), []. rewrite !app_nil_r. split_and!; [|done| |constructor].
    + unfold transform_lines, fold_managed_blocks. f_equal.
      apply (outside_blocks_spec 0 lines ((s, e) :: b :: bs) []); [done|constructor].
    + apply user_lines_are_plain.
Qed.

Lemma blocks_at_plain_app i l1 l2 bs : Forall plain l1 →
  blocks_at (i + length l1) l2 bs → blocks_at i (l1 ++ l2) bs.
Proof.
  intros H. revert i. induction H as [|x l1 Hx _ IH]; intros i Hb; simpl in *.
  - by rewrite Nat.add_0_r in Hb.
  - constructor; [done|]. apply IH. by rewrite Nat.add_succ_r in Hb.
Qed.

Lemma plain_blocks_at i l : Forall plain l → blocks_at i l [].
Proof. intros H. rewrite <-(app_nil_r l). by apply blocks_at_plain_app; [|constructor]. Qed.

Lemma managed_blocks_one pre body post :
  Forall plain pre → Forall plain body → Forall plain post →
  managed_blocks (pre ++ (MANAGED_ENV_START_MARKER :: body ++ [MANAGED_ENV_END_MARKER]) ++ post)
  = Ok [(length pre, length pre + length body + 1)].
Proof.
  intros Hpre Hbody Hpost. apply managed_blocks_spec, blocks_at_plain_app; [done|].
  simpl. rewrite <-app_assoc. apply (blocks_block (length pre) body post []); [done|].
  by apply plain_blocks_at.
Qed.

Lemma user_lines_forall (P : string → Prop) b l : Forall P l → Forall P (user_lines b l).
Proof.
  intros H. revert b. induction H as [|x l Hx Hl IH]; intros b; [constructor|]. simpl.
  repeat case_bool_decide; [by apply IH..|]. destruct b; [by apply IH|]. constructor; [done|by apply IH].
Qed.

(** What a successful rewrite leaves in the file. *)
Lemma transform_result existing r t : env_keys_ok r →
  transform_managed_env_block existing r = Ok t →
  (content t = default "" existing ∧ changed t = false ∧ rendered_values r = ∅
    ∧ Forall plain (split_env_lines (content t)))
  ∨ ∃ pre post, split_env_lines (content t) = pre ++ managed_block_lines r ++ post
      ∧ content t = join_env_lines (pre ++ managed_block_lines r ++ post)
      ∧ pre ++ post = user_lines false (split_env_lines (default "" existing))
      ∧ Forall plain pre ∧ Forall plain post.
Proof.
  intros Hk. unfold transform_managed_env_block.
  destruct (managed_blocks _) as [bs|] eqn:Hb; simpl; [|done]. apply managed_blocks_spec in Hb.
  destruct (bool_decide _ && bool_decide _) eqn:He.
  - intros [= <-]. split_bools. subst bs. left. split_and!; [done..|]. by apply blocks_at_nil in Hb.
  - intros [= <-]. right. simpl.
    destruct (transform_lines_shape _ _ r Hb) as (pre & post & Heq & Hpp & Hpre & Hpost).
    exists pre, post. rewrite Heq. split_and!; [|done..].
    apply split_join_env_lines. pose proof (managed_block_lines_ok r Hk).
    pose proof (split_env_lines_ok (default "" existing)) as Hok.
    assert (Forall line_ok (pre ++ post)) as Hall by (rewrite Hpp; by apply user_lines_forall).
    apply Forall_app in Hall as [? ?]. assert (Forall line_ok (managed_block_lines r ++ post)) by by apply Forall_app_2.
    by apply Forall_app_2.
Qed.

(** ** Properties *)

Lemma transform_user_lines existing r t : env_keys_ok r → transform_managed_env_block existing r = Ok t →
  user_lines false (split_env_lines (content t)) = user_lines false (split_env_lines (default "" existing)).
Proof.
  intros Hk H. destruct (body_lines_ok r Hk) as [Hbp _].
  destruct (transform_result _ _ _ Hk H) as [(Hc & _)|(pre & post & Hs & _ & Hpp & Hpre & Hpost)]; [by rewrite <-Hc|].
  rewrite Hs, user_lines_app_plain, managed_block_lines_app by done. by rewrite user_lines_block, user_lines_plain.
Qed.

(** *** The file as text *)

(** A line as a reader of the file sees it: no line feed in it, no carriage return at its end. *)
Definition line_text (line : string) : Prop :=
  (∀ a b, line ≠ a +:+ newline +:+ b) ∧ ∀ a, line ≠ a +:+ String CARRIAGE_RETURN "".

Fixpoint carriage_returns (n : nat) : string :=
  match n with 0 => "" | S n => String CARRIAGE_RETURN (carriage_returns n) end.

(** The lines of a text: each ends with carriage returns, possibly none, and a line feed, which
    the last one need not have. *)
Inductive text_lines : string → list string → Prop :=
| text_end : text_lines "" []
| text_last line n : line_text line → line +:+ carriage_returns n ≠ "" → text_lines (line +:+ carriage_returns n) [line]
| text_line line n text lines : line_text line → text_lines text lines →
    text_lines (line +:+ carriage_returns n +:+ newline +:+ text) (line :: lines).

(** The text of lines, each ended by a line feed alone. *)
Fixpoint lines_text (lines : list string) : string :=
  match lines with [] => "" | line :: lines => line +:+ newline +:+ lines_text lines end.

Lemma lacks_spec c s : lacks c s = true ↔ ∀ a b, s ≠ a +:+ String c b.
Proof.
  split.
  - intros Hl a b ->. rewrite lacks_app, lacks_cons, char_eqb_refl, andb_false_r in Hl. done.
  - induction s as [|d s IH]; intros H; [done|]. rewrite lacks_cons. apply andb_true_iff. split.
    + apply negb_true_iff, char_eqb_neq. intros ->. by apply (H "" s).
    + apply IH. intros a b ->. by apply (H (String d a) b).
Qed.

Lemma line_text_ok line : line_text line ↔ line_ok line.
Proof.
  unfold line_text, line_ok. rewrite lacks_spec. apply and_iff_compat_l. split.
  - intros H. apply not_true_iff_false. intros (a & Ha)%ends_with_char_Some. by apply (H a).
  - intros H a ->. apply not_true_iff_false in H. apply H, ends_with_char_Some. by exists a.
Qed.

Lemma trim_carriage_returns line n : ends_with_char CARRIAGE_RETURN line = false →
  trim_end_matches CARRIAGE_RETURN (line +:+ carriage_returns n) = line.
Proof.
  intros Hl. rewrite <-(trim_end_matches_id _ _ Hl) at 2. clear Hl. induction line as [|c s IH]; simpl.
  - induction n as [|n IH]; [done|]. simpl. by rewrite IH.
  - by rewrite IH.
Qed.

Lemma trimmed_carriage_returns s : ∃ n, s = trim_end_matches CARRIAGE_RETURN s +:+ carriage_returns n.
Proof.
  induction s as [|c s [n IH]]; [by exists 0|]. simpl. destruct (trim_end_matches CARRIAGE_RETURN s) as [|d t] eqn:E.
  - destruct (char_eqb c CARRIAGE_RETURN) eqn:Hc; [|exists n; by rewrite IH].
    apply char_eqb_eq in Hc as ->. exists (S n). by rewrite IH.
  - exists n. by rewrite IH at 1.
Qed.

Lemma lacks_carriage_returns n : lacks NEWLINE (carriage_returns n) = true.
Proof. by induction n. Qed.

Lemma split_env_lines_last w : lacks NEWLINE w = true → w ≠ "" → split_env_lines w = [trim_end_matches CARRIAGE_RETURN w].
Proof.
  intros Hw Hne. unfold split_env_lines. rewrite (proj2 (is_empty_false w)), split_lacks by done.
  destruct (ends_with_char NEWLINE w) eqn:He; [|done]. apply ends_with_char_Some in He as [a Ha].
  exfalso. by apply (proj1 (lacks_spec _ _) Hw a "").
Qed.

Lemma split_env_lines_cons w text : lacks NEWLINE w = true →
  split_env_lines (w +:+ newline +:+ text) = trim_end_matches CARRIAGE_RETURN w :: split_env_lines text.
Proof.
  intros Hw. unfold split_env_lines.
  assert (is_empty (w +:+ newline +:+ text) = false) as ->.
  { apply is_empty_false. by destruct w. }
  change (newline +:+ text) with (String NEWLINE text). rewrite split_app_sep by done. rewrite fmap_cons.
  destruct text as [|c text].
  - rewrite (proj2 (ends_with_char_Some NEWLINE _)) by by eexists. done.
  - change (String NEWLINE (String c text)) with (String NEWLINE "" +:+ String c text).
    rewrite str_app_assoc, ends_with_char_app by done. cbn [is_empty]. destruct (ends_with_char NEWLINE (String c text)); [|done].
    destruct (trim_end_matches CARRIAGE_RETURN <$> split NEWLINE (String c text)) eqn:E; [|done].
    apply fmap_nil_inv in E. by apply split_nonempty in E.
Qed.

Lemma text_lines_eq text lines : text_lines text lines → split_env_lines text = lines.
Proof.
  induction 1 as [|line n Hl Hne|line n text lines Hl _ IH]; [done|..]; apply line_text_ok in Hl as [Hl Hr].
  - rewrite split_env_lines_last, trim_carriage_returns; [done..| |done]. by rewrite lacks_app, Hl, lacks_carriage_returns.
  - rewrite (str_app_assoc line), split_env_lines_cons, trim_carriage_returns, IH; [done..|].
    by rewrite lacks_app, Hl, lacks_carriage_returns.
Qed.

Lemma first_line text : lacks NEWLINE text = true ∨ ∃ w rest, lacks NEWLINE w = true ∧ text = w +:+ newline +:+ rest.
Proof.
  induction text as [|c text IH]; [by left|]. destruct (char_eqb c NEWLINE) eqn:Hc.
  - apply char_eqb_eq in Hc as ->. right. by exists "", text.
  - destruct IH as [IH|(w & rest & Hw & ->)].
    + left. by rewrite lacks_cons, Hc, IH.
    + right. exists (String c w), rest. by rewrite lacks_cons, Hc, Hw.
Qed.

Lemma trimmed_line w : lacks NEWLINE w = true → line_text (trim_end_matches CARRIAGE_RETURN w).
Proof. intros Hw. apply line_text_ok. split; [by apply trim_end_matches_all|apply trim_end_matches_last]. Qed.

Lemma text_lines_split text : text_lines text (split_env_lines text).
Proof.
  remember (len text) as n eqn:Hn. revert text Hn. induction n as [n IH] using lt_wf_ind. intros text ->.
  destruct (first_line text) as [Hl|(w & rest & Hw & ->)].
  - destruct (decide (text = "")) as [->|Hne]; [constructor|]. rewrite split_env_lines_last by done.
    destruct (trimmed_carriage_returns text) as [n Ht]. rewrite Ht at 1. constructor; [by apply trimmed_line|]. by rewrite <-Ht.
  - rewrite split_env_lines_cons by done. destruct (trimmed_carriage_returns w) as [n Ht].
    rewrite Ht at 1. rewrite <-(str_app_assoc _ (carriage_returns n)). constructor; [by apply trimmed_line|]. eapply IH; [|done].
    rewrite !len_app. simpl. lia.
Qed.

Lemma join_env_lines_text lines : join_env_lines lines = lines_text lines.
Proof.
  destruct lines as [|x l]; [done|]. unfold join_env_lines. revert x. induction l as [|y l IH]; intros x.
  - simpl. done.
  - rewrite join_cons by done. cbn [lines_text]. rewrite <-!str_app_assoc. by rewrite IH.
Qed.

(** The lines of the file with PV's block between the user's lines. *)
Definition with_block (pre : list string) (r : RenderedProjectEnv) (post : list string) : list string :=
  pre ++ "# >>> PV MANAGED" :: ((λ kv, kv.1 +:+ "=" +:+ format_env_value kv.2) <$> btree_iter (rendered_values r))
    ++ "# <<< PV MANAGED" :: post.

(** What is made of a text of such lines. *)
Definition block_rewritten (r : RenderedProjectEnv) (before : string) (lines : list string) (after : string) : Prop :=
  (rendered_values r = ∅ ∧ user_lines false lines = lines ∧ after = before)
  ∨ ∃ pre post, after = lines_text (with_block pre r post) ∧ text_lines after (with_block pre r post) ∧ pre ++ post = user_lines false lines.

Lemma transform_text existing r t lines :
  env_keys_ok r → text_lines (default "" existing) lines → transform_managed_env_block existing r = Ok t →
  block_rewritten r (default "" existing) lines (content t).
Proof.
  intros Hk <-%text_lines_eq H.
  destruct (transform_result _ _ _ Hk H) as [(Hc & _ & Hr & Hp)|(pre & post & Hs & Hj & Hpp & _)].
  - left. split_and!; [done| |done]. rewrite <-Hc. by apply user_lines_plain.
  - right. exists pre, post. rewrite managed_block_lines_app in Hs, Hj. split_and!; [by rewrite <-join_env_lines_text| |done].
    pose proof (text_lines_split (content t)) as Ht. by rewrite Hs in Ht.
Qed.

(** The keys that a line outside the block assigns too: each once, sorted. *)
Definition duplicate_keys (r : RenderedProjectEnv) (lines : list string) (keys : list string) : Prop :=
  NoDup keys ∧ StronglySorted (le_on id) keys
  ∧ ∀ key, key ∈ keys ↔ is_Some (rendered_values r !! key) ∧ ∃ line, line ∈ user_lines false lines ∧ assignment_key line = Some key.

Lemma transform_warnings existing r t lines :
  text_lines (default "" existing) lines → transform_managed_env_block existing r = Ok t →
  ∃ keys, warnings t = DuplicateExistingKey <$> keys ∧ duplicate_keys r lines keys.
Proof.
  intros <-%text_lines_eq H. unfold transform_managed_env_block in H.
  destruct (managed_blocks _) as [bs|] eqn:Hb; [|done]. apply managed_blocks_spec in Hb. simpl in H.
  destruct (_ && _) eqn:He; injection H as <-; cbn [warnings].
  - split_bools. exists []. split; [done|]. split_and!; [constructor..|]. intros key. rewrite H. split; [by intros ?%elem_of_nil|].
    intros [[? Hk] _]. by rewrite lookup_empty in Hk.
  - unfold duplicate_existing_key_warnings. change bs with ([] ++ bs) at 1. rewrite (outside_blocks_spec 0 _ bs [] Hb) by constructor.
    eexists. split; [done|]. split_and!.
    + rewrite sort_on_perm. apply NoDup_elements.
    + apply sort_on_sorted.
    + intros key. rewrite elem_of_sort_on, elem_of_elements, elem_of_list_to_set, list_elem_of_In, filter_In, <-list_elem_of_In, list_elem_of_omap.
      rewrite option_bool_true. naive_solver.
Qed.

(** C26: Rewriting the managed block never loses or reorders a line of the user's. Of a text with
    whatever line ends, a successful rewrite writes the lines that are outside the markers, in
    their order, each ended by one line feed (carriage returns at the ends of lines go: that is
    all that is edited), and between them once the block, the markers around a line for each
    rendered key, in the order of the keys; with nothing to write and no block before, the text is
    returned untouched. It says that something changed exactly when the text is another one. The
    keys are assumed to be env names, which rendering makes sure of. *)
Theorem transform_preserves_user_lines existing r t lines :
  env_keys_ok r → text_lines (default "" existing) lines → transform_managed_env_block existing r = Ok t →
  ((rendered_values r = ∅ ∧ user_lines false lines = lines ∧ content t = default "" existing)
   ∨ ∃ pre post, content t = lines_text (with_block pre r post) ∧ text_lines (content t) (with_block pre r post)
       ∧ pre ++ post = user_lines false lines)
  ∧ (changed t = true ↔ content t ≠ default "" existing).
Proof.
  intros Hk Hl H. split; [by apply (transform_text existing r t lines)|]. unfold transform_managed_env_block in H.
  destruct (managed_blocks _); [|done]. simpl in H. destruct (_ && _); injection H as <-; cbn [changed content]; [done|].
  rewrite negb_true_iff. apply bool_decide_eq_false.
Qed.

(** An [.env] with a user's lines before, between and after two stale blocks. *)
Definition sample_env_file : string :=
  join_env_lines ["APP=1"; MANAGED_ENV_START_MARKER; "OLD=1"; MANAGED_ENV_END_MARKER; "";
                  "DB_URL=mine"; MANAGED_ENV_START_MARKER; MANAGED_ENV_END_MARKER; "LAST=x"].
Definition sample_rendered : RenderedProjectEnv :=
  {| rendered_values := {[ "DB_URL" := "pg://a b"; "PORT" := "5432" ]} |}.

Lemma sample_keys_ok : env_keys_ok sample_rendered.
Proof.
  unfold env_keys_ok. simpl. apply map_Forall_insert_2; [by vm_compute|].
  apply map_Forall_singleton. by vm_compute.
Qed.

Lemma transform_preserves_user_lines_witness :
  ∃ t pre post, transform_managed_env_block (Some sample_env_file) sample_rendered = Ok t
    ∧ content t = lines_text (pre ++ ["# >>> PV MANAGED"; "DB_URL=" +:+ String QUOTE ("pg://a b" +:+ String QUOTE ""); "PORT=5432"; "# <<< PV MANAGED"] ++ post)
    ∧ pre ++ post = ["APP=1"; ""; "DB_URL=mine"; "LAST=x"].
Proof.
  destruct (transform_managed_env_block (Some sample_env_file) sample_rendered) as [t|] eqn:E; [|by vm_compute in E].
  destruct (transform_preserves_user_lines (Some sample_env_file) sample_rendered t _ sample_keys_ok (text_lines_split _) E)
    as [[(Hr & _)|(pre & post & Hc & _ & Hpp)] _]; [by vm_compute in Hr|].
  exists t, pre, post. split_and!; [done|rewrite Hc; f_equal|rewrite Hpp]; by vm_compute.
Defined.

(** Rewriting is idempotent: applied to its own output with the same rendered
    values it reports no change and returns the same text. *)
Theorem transform_idempotent existing r t :
  env_keys_ok r → transform_managed_env_block existing r = Ok t →
  ∃ t', transform_managed_env_block (Some (content t)) r = Ok t'
    ∧ content t' = content t ∧ changed t' = false.
Proof.
  intros Hk H. destruct (body_lines_ok r Hk) as [Hbp _].
  destruct (transform_result _ _ _ Hk H)
    as [(Hc & _ & Hr & Hp)|(pre & post & Hs & Hj & Hpp & Hpre & Hpost)];
    unfold transform_managed_env_block; simpl default.
  - rewrite (proj2 (managed_blocks_spec _ []) (plain_blocks_at 0 _ Hp)). simpl.
    rewrite bool_decide_eq_true_2 by done. by eexists.
  - pose proof (managed_blocks_one pre (body_lines r) post Hpre Hbp Hpost) as Hb1.
    change (MANAGED_ENV_START_MARKER :: body_lines r ++ [MANAGED_ENV_END_MARKER])
      with (managed_block_lines r) in Hb1.
    assert (length (managed_block_lines r) = length (body_lines r) + 2) as Hlen
      by (rewrite managed_block_lines_eq; simpl; rewrite length_app; simpl; lia).
    revert Hs Hj Hb1 Hlen. generalize (managed_block_lines r) as ml. intros ml Hs Hj Hb1 Hlen.
    rewrite Hs, Hb1. simpl. rewrite andb_false_r. eexists. split; [done|]. cbn [content changed].
    rewrite replace_one, <-Hj; [by rewrite bool_decide_eq_true_2|done|lia].
Qed.

Lemma transform_idempotent_witness :
  ∃ t t', transform_managed_env_block (Some sample_env_file) sample_rendered = Ok t
    ∧ changed t = true
    ∧ transform_managed_env_block (Some (content t)) sample_rendered = Ok t'
    ∧ content t' = content t ∧ changed t' = false.
Proof.
  destruct (transform_managed_env_block (Some sample_env_file) sample_rendered) as [t|] eqn:E;
    [|by vm_compute in E].
  destruct (transform_idempotent (Some sample_env_file) sample_rendered t sample_keys_ok E)
    as (t' & H1 & H2 & H3).
  exists t, t'. split_and!; [done| |done..]. vm_compute in E. by injection E as <-.
Defined.

(** The rewrite is refused exactly when the markers are not well bracketed:
    checking a file succeeds if and only if its lines parse as plain lines and
    closed blocks, one after the other. *)
Theorem validate_managed_env_block_spec existing :
  validate_managed_env_block existing = Ok tt
  ↔ ∃ blocks, blocks_at 0 (split_env_lines (default "" existing)) blocks.
Proof.
  unfold validate_managed_env_block. setoid_rewrite <-managed_blocks_spec.
  destruct (managed_blocks _) as [bs|]; simpl; [|naive_solver]. split; [by eexists|done].
Qed.
