(* ===== verification/StateTypes.v ===== *)
(** * The state crate's data, validators and database spellings:
    [state/src/error.rs] and the type and validation parts of [state/src/database.rs] *)

From S2P Require Import Prelude RustStr Paths.

(** ** Errors *)

Inductive StateCapability : Type := OwnerOnlyFilesystem | FileLocking | SymbolicLinks.

Definition capability_as_str (c : StateCapability) : string :=
  match c with
  | OwnerOnlyFilesystem => "owner-only filesystem"
  | FileLocking => "file locking"
  | SymbolicLinks => "symbolic link"
  end.

(** The SQLite errors the schema can raise: a violated UNIQUE or PRIMARY KEY
    constraint, a violated foreign key or CHECK, a trigger's [RAISE(ABORT, ..)],
    a query that must return a row and does not, and an integer column read at a
    narrower type. *)
Inductive SqliteError : Type :=
| UniqueViolation (columns : string)
| ForeignKeyViolation (table : string)
| TriggerAbort (message : string)
| QueryReturnedNoRows
| InvalidColumnType (column : string)
| IntegralValueOutOfRange (value : Z).

Inductive StateError : Type :=
| MissingHome
| NonUtf8Home (path : string)
| Filesystem (path source : string)
| UnsupportedPlatform (capability : StateCapability) (target : string)
| InvalidAppReleaseVersion (version : string)
| AppReleaseMissing (version path : string)
| InvalidAppReleasePointer (path target : string)
| CoordinationLockHeld (path : string)
| UnsafePermissions (path : string) (expected actual : N)
| UnexpectedOwner (path : string) (expected actual : N)
| Sqlite (source : SqliteError)
| MigrationFailed (version : Z) (name : string) (source : SqliteError)
| MigrationNameMismatch (version : Z) (expected actual : string)
| UnknownJobStatus (status : string)
| UnknownManagedResourceDesiredState (desired_state : string)
| UnknownResourceAllocationStatus (status : string)
| UnknownProjectEnvObservedStatus (status : string)
| UnknownProjectMode (value : Z)
| UnknownRuntimeObservedStatus (status : string)
| InvalidRuntimeSubject (kind value : string)
| ProjectNotFound (target : string)
| InvalidProjectPath (kind path reason : string)
| InvalidProjectHostname (hostname reason : string)
| InvalidProjectTrack (track : string)
| ProjectHostnameCollision (hostname project_id : string)
| DuplicateProjectHostname (hostname : string)
| ProjectIdExhausted (attempts : nat)
| InvalidProjectSlug (name : string)
| ProjectSlugMissing (project_id : string)
| ProjectSlugExhausted (attempts : nat)
| ProjectNotServed (project_id : string)
| InvalidManagedResourceIdentity (kind value : string)
| ReservedConcreteTrack (track : string)
| InvalidResourceAllocationIdentity (kind value : string)
| ResourceAllocationGeneratedNameCollision (resource track generated : string)
| InvalidEnvJson (context reason : string)
| InvalidEnvContext (context reason : string)
| ResourceAllocationNotFound (project_id resource allocation : string)
| ResourceAllocationNotDesired (project_id resource track allocation : string)
| InvalidProjectEnvObservedWarning (kind value : string)
| JobNotFound (id : string)
| InvalidPortOwner (owner reason : string)
| UnknownPortOwnerKind (owner_kind : string)
| NoAvailablePort (name : string) (preferred_port fallback_start fallback_end : Z) (attempts : nat)
| TimeFormat
| BackupNameExhausted (path : string).

(** ** Text enumerations *)

Inductive JobStatus : Type := JobRunning | JobSucceeded | JobFailed.
#[export] Instance job_status_eq_dec : EqDecision JobStatus.
Proof. solve_decision. Defined.

Definition job_status_as_str (s : JobStatus) : string :=
  match s with JobRunning => "running" | JobSucceeded => "succeeded" | JobFailed => "failed" end.

Definition job_status_from_database (status : string) : result StateError JobStatus :=
  if bool_decide (status = "running") then Ok JobRunning
  else if bool_decide (status = "succeeded") then Ok JobSucceeded
  else if bool_decide (status = "failed") then Ok JobFailed
  else Err (UnknownJobStatus status).

Inductive ManagedResourceDesiredState : Type := Installed | Removed.
#[export] Instance desired_state_eq_dec : EqDecision ManagedResourceDesiredState.
Proof. solve_decision. Defined.

Definition desired_state_as_str (s : ManagedResourceDesiredState) : string :=
  match s with Installed => "installed" | Removed => "removed" end.

Definition desired_state_from_database (s : string) : result StateError ManagedResourceDesiredState :=
  if bool_decide (s = "installed") then Ok Installed
  else if bool_decide (s = "removed") then Ok Removed
  else Err (UnknownManagedResourceDesiredState s).

Inductive ProjectMode : Type := Served | ResourceOnly.
#[export] Instance project_mode_eq_dec : EqDecision ProjectMode.
Proof. solve_decision. Defined.

Definition project_mode_as_str (m : ProjectMode) : string :=
  match m with Served => "served" | ResourceOnly => "resource-only" end.
Definition project_mode_as_database (m : ProjectMode) : Z :=
  match m with Served => 1 | ResourceOnly => 0 end.
Definition project_mode_from_database (serves_http : Z) : result StateError ProjectMode :=
  if (serves_http =? 1)%Z then Ok Served
  else if (serves_http =? 0)%Z then Ok ResourceOnly
  else Err (UnknownProjectMode serves_http).

Inductive ResourceAllocationStatus : Type :=
| AllocationDesired | AllocationReady | AllocationInactive | AllocationFailed.
#[export] Instance allocation_status_eq_dec : EqDecision ResourceAllocationStatus.
Proof. solve_decision. Defined.

Definition allocation_status_as_str (s : ResourceAllocationStatus) : string :=
  match s with
  | AllocationDesired => "desired" | AllocationReady => "ready"
  | AllocationInactive => "inactive" | AllocationFailed => "failed"
  end.

Definition allocation_status_from_database (s : string) : result StateError ResourceAllocationStatus :=
  if bool_decide (s = "desired") then Ok AllocationDesired
  else if bool_decide (s = "ready") then Ok AllocationReady
  else if bool_decide (s = "inactive") then Ok AllocationInactive
  else if bool_decide (s = "failed") then Ok AllocationFailed
  else Err (UnknownResourceAllocationStatus s).

Inductive ProjectEnvObservedStatus : Type := EnvPending | EnvRendered | EnvWarning | EnvFailed.
#[export] Instance env_observed_status_eq_dec : EqDecision ProjectEnvObservedStatus.
Proof. solve_decision. Defined.

Definition env_status_as_str (s : ProjectEnvObservedStatus) : string :=
  match s with
  | EnvPending => "pending" | EnvRendered => "rendered"
  | EnvWarning => "warning" | EnvFailed => "failed"
  end.

Definition env_status_from_database (s : string) : result StateError ProjectEnvObservedStatus :=
  if bool_decide (s = "pending") then Ok EnvPending
  else if bool_decide (s = "rendered") then Ok EnvRendered
  else if bool_decide (s = "warning") then Ok EnvWarning
  else if bool_decide (s = "failed") then Ok EnvFailed
  else Err (UnknownProjectEnvObservedStatus s).

Inductive RuntimeObservedStatus : Type :=
| RuntimePending | RuntimeRunning | RuntimeDegraded | RuntimeFailed | RuntimeStopped.
#[export] Instance runtime_status_eq_dec : EqDecision RuntimeObservedStatus.
Proof. solve_decision. Defined.

Definition runtime_status_as_str (s : RuntimeObservedStatus) : string :=
  match s with
  | RuntimePending => "pending" | RuntimeRunning => "running" | RuntimeDegraded => "degraded"
  | RuntimeFailed => "failed" | RuntimeStopped => "stopped"
  end.

Definition runtime_status_from_database (s : string) : result StateError RuntimeObservedStatus :=
  if bool_decide (s = "pending") then Ok RuntimePending
  else if bool_decide (s = "running") then Ok RuntimeRunning
  else if bool_decide (s = "degraded") then Ok RuntimeDegraded
  else if bool_decide (s = "failed") then Ok RuntimeFailed
  else if bool_decide (s = "stopped") then Ok RuntimeStopped
  else Err (UnknownRuntimeObservedStatus s).

(** ** Identity validation *)

Definition RESERVED_TRACK_NAME : string := "latest".

Definition identity_char (c : ascii) : bool :=
  is_ascii_alphanumeric c || char_eqb c "." || char_eqb c "-" || char_eqb c "_".

Definition is_identity (value : string) : bool :=
  negb (is_empty value) && negb (bool_decide (value = ".")) && negb (bool_decide (value = ".."))
  && str_all identity_char value.

Definition validate_managed_resource_identity (kind value : string) : result StateError unit :=
  ensure (is_identity value) (InvalidManagedResourceIdentity kind value).

Definition validate_concrete_track (track : string) : result StateError unit :=
  _ ← validate_managed_resource_identity "track" track;
  if bool_decide (track = RESERVED_TRACK_NAME) then Err (ReservedConcreteTrack track) else Ok tt.

Definition validate_resource_allocation_identity (kind value : string) : result StateError unit :=
  ensure (is_identity value) (InvalidResourceAllocationIdentity kind value).

Definition allocation_name_char (c : ascii) : bool :=
  is_ascii_lowercase c || is_ascii_digit c || char_eqb c "-" || char_eqb c "_".

Definition validate_resource_allocation_name (value : string) : result StateError unit :=
  match value with
  | "" => Err (InvalidResourceAllocationIdentity "allocation" value)
  | String first_byte bytes =>
      ensure (is_ascii_lowercase first_byte && str_all allocation_name_char bytes)
        (InvalidResourceAllocationIdentity "allocation" value)
  end.

Definition validate_project_env_observed_warning_component (kind value : string) :
    result StateError unit :=
  if is_empty (trim value) then Err (InvalidProjectEnvObservedWarning kind value) else Ok tt.

(** ** PHP runtimes *)

Definition extension_char (c : ascii) : bool := is_ascii_alphanumeric c || char_eqb c "_".

Definition validate_project_php_track (track : string) : result StateError unit :=
  map_err (λ _, InvalidProjectTrack track) (validate_concrete_track track).

Definition invalid_php_runtime (php_runtime : string) : StateError :=
  InvalidRuntimeSubject "php_runtime" php_runtime.

Definition validate_runtime_php_track (php_track : string) : result StateError unit :=
  map_err (λ _, invalid_php_runtime php_track) (validate_concrete_track php_track).

Definition validate_php_extension_identity (extension : string) : result StateError unit :=
  ensure (negb (is_empty extension) && str_all extension_char extension)
    (InvalidRuntimeSubject "php_extension" extension).

Definition validate_php_extension_list : list string → result StateError unit :=
  try_iter validate_php_extension_identity.

Definition validate_requested_php_extension (extension : string) : result StateError unit :=
  if negb (is_empty (trim extension)) then Ok tt
  else Err (InvalidRuntimeSubject "php_extension" extension).

Definition validate_requested_php_extension_list : list string → result StateError unit :=
  try_iter validate_requested_php_extension.

Definition validate_php_runtime_key (php_runtime : string) : result StateError unit :=
  match split "+" php_runtime with
  | [] => Err (invalid_php_runtime php_runtime)
  | track :: parts =>
      _ ← map_err (λ _, invalid_php_runtime php_runtime) (validate_concrete_track track);
      try_iter (λ extension, map_err (λ _, invalid_php_runtime php_runtime)
                               (validate_php_extension_identity extension)) parts
  end.

(** [Vec::sort] and [Vec::dedup] (adjacent duplicates). *)
Fixpoint dedup (l : list string) : list string :=
  match l with
  | x :: ((y :: _) as l') => if bool_decide (x = y) then dedup l' else x :: dedup l'
  | _ => l
  end.

Definition php_runtime_key (track : string) (loaded_extensions : list string) :
    result StateError string :=
  _ ← validate_project_php_track track;
  _ ← try_iter validate_php_extension_identity loaded_extensions;
  let loaded := dedup (sort_on id loaded_extensions) in
  match loaded with
  | [] => Ok track
  | _ => Ok (track +:+ "+" +:+ join "+" loaded)
  end.

(** ** Diagnostic subjects of jobs *)

Inductive JobDiagnosticSubject : Type :=
| SystemReconciliation
| GatewayRuntime
| SubjectProject (id : string)
| SubjectResource (name track : string)
| UpdateAssessment
| Other (kind scope : string).
#[export] Instance subject_eq_dec : EqDecision JobDiagnosticSubject.
Proof. solve_decision. Defined.

Definition from_job_identity (kind scope : string) : JobDiagnosticSubject :=
  if bool_decide (kind = "update") && bool_decide (scope = "system") then UpdateAssessment
  else if negb (bool_decide (kind = "reconcile")) then Other kind scope
  else
    match split ":" scope with
    | [a] => if bool_decide (a = "system") then SystemReconciliation else Other kind scope
    | [a; id] =>
        if bool_decide (a = "project") && negb (is_empty id) then SubjectProject id
        else Other kind scope
    | [a; name; track] =>
        if bool_decide (a = "resource") && bool_decide (name ∈ ["php"; "frankenphp"])
        then GatewayRuntime
        else if bool_decide (a = "resource") && negb (is_empty name) && negb (is_empty track)
        then SubjectResource name track
        else Other kind scope
    | _ => Other kind scope
    end.

Definition database_identity (s : JobDiagnosticSubject) : string * string :=
  match s with
  | SystemReconciliation => ("system_reconciliation", "")
  | GatewayRuntime => ("gateway_runtime", "")
  | SubjectProject id => ("project", id)
  | SubjectResource name track => ("resource", name +:+ ":" +:+ track)
  | UpdateAssessment => ("update_assessment", "")
  | Other kind scope => ("other:" +:+ kind, scope)
  end.

Definition subject_from_database (subject_kind subject_id : string) : JobDiagnosticSubject :=
  if bool_decide (subject_kind = "system_reconciliation") then SystemReconciliation
  else if bool_decide (subject_kind = "gateway_runtime") then GatewayRuntime
  else if bool_decide (subject_kind = "project") then SubjectProject subject_id
  else if bool_decide (subject_kind = "resource") then
    match split_once ":" subject_id with
    | None => Other subject_kind subject_id
    | Some (name, track) => SubjectResource name track
    end
  else if bool_decide (subject_kind = "update_assessment") then UpdateAssessment
  else Other (default subject_kind (strip_prefix "other:" subject_kind)) subject_id.

(** ** Subjects of runtime observations *)

Definition RUNTIME_OBSERVED_SUBJECT_KIND : string := "runtime".
Definition PHP_RUNTIME_WORKER_OBSERVED_SUBJECT_KIND : string := "php_runtime_worker".
Definition PROJECT_ENV_OBSERVED_SUBJECT_KIND : string := "project_env".

Inductive RuntimeSubject : Type :=
| RuntimeGateway
| RuntimePhpWorker (php_track : string)
| PhpRuntimeWorker (php_runtime_key : string)
| RuntimeResource (name track : string).
#[export] Instance runtime_subject_eq_dec : EqDecision RuntimeSubject.
Proof. solve_decision. Defined.

Definition subject_kind (s : RuntimeSubject) : string :=
  match s with
  | PhpRuntimeWorker _ => PHP_RUNTIME_WORKER_OBSERVED_SUBJECT_KIND
  | _ => RUNTIME_OBSERVED_SUBJECT_KIND
  end.

Definition subject_id (s : RuntimeSubject) : result StateError string :=
  match s with
  | RuntimeGateway => Ok "gateway"
  | RuntimePhpWorker php_track =>
      _ ← validate_runtime_php_track php_track; Ok ("php_worker:" +:+ php_track)
  | PhpRuntimeWorker key => _ ← validate_php_runtime_key key; Ok key
  | RuntimeResource name track =>
      _ ← validate_managed_resource_identity "name" name;
      _ ← validate_concrete_track track;
      Ok ("resource:" +:+ name +:+ ":" +:+ track)
  end.

Definition from_runtime_subject_id (id : string) : result StateError RuntimeSubject :=
  if bool_decide (id = "gateway") then Ok RuntimeGateway
  else
    match strip_prefix "php_worker:" id with
    | Some php_track => _ ← validate_runtime_php_track php_track; Ok (RuntimePhpWorker php_track)
    | None =>
        match strip_prefix "resource:" id ≫= split_once ":" with
        | Some (name, track) =>
            _ ← validate_managed_resource_identity "name" name;
            _ ← validate_concrete_track track;
            Ok (RuntimeResource name track)
        | None => Err (InvalidRuntimeSubject "subject_id" id)
        end
    end.

Definition runtime_subject_from_database (kind id : string) : result StateError RuntimeSubject :=
  if bool_decide (kind = RUNTIME_OBSERVED_SUBJECT_KIND) then from_runtime_subject_id id
  else if bool_decide (kind = PHP_RUNTIME_WORKER_OBSERVED_SUBJECT_KIND) then
    _ ← validate_php_runtime_key id; Ok (PhpRuntimeWorker id)
  else Err (InvalidRuntimeSubject "subject_kind" kind).

(** ** Columns that store an enumeration as text *)

(** What a text column promises its readers: what is written is read back, and
    only texts that are written are accepted. *)
Class DatabaseText (A : Type) := {
  as_str : A → string;
  from_database : string → result StateError A;
  from_as_str : ∀ a, from_database (as_str a) = Ok a;
  as_from_database : ∀ s a, from_database s = Ok a → as_str a = s;
}.

Ltac solve_database_text :=
  intros; repeat match goal with
  | a : _ |- _ = Ok ?a => is_var a; destruct a; reflexivity
  | H : context [bool_decide (?x = _)] |- _ => case_bool_decide; simplify_eq; try reflexivity
  end.

#[export, refine] Instance job_status_text : DatabaseText JobStatus :=
  {| as_str := job_status_as_str; from_database := job_status_from_database |}.
Proof. { by intros []. } { unfold job_status_from_database. solve_database_text. } Defined.
#[export, refine] Instance desired_state_text : DatabaseText ManagedResourceDesiredState :=
  {| as_str := desired_state_as_str; from_database := desired_state_from_database |}.
Proof. { by intros []. } { unfold desired_state_from_database. solve_database_text. } Defined.
#[export, refine] Instance allocation_status_text : DatabaseText ResourceAllocationStatus :=
  {| as_str := allocation_status_as_str; from_database := allocation_status_from_database |}.
Proof. { by intros []. } { unfold allocation_status_from_database. solve_database_text. } Defined.
#[export, refine] Instance env_status_text : DatabaseText ProjectEnvObservedStatus :=
  {| as_str := env_status_as_str; from_database := env_status_from_database |}.
Proof. { by intros []. } { unfold env_status_from_database. solve_database_text. } Defined.
#[export, refine] Instance runtime_status_text : DatabaseText RuntimeObservedStatus :=
  {| as_str := runtime_status_as_str; from_database := runtime_status_from_database |}.
Proof. { by intros []. } { unfold runtime_status_from_database. solve_database_text. } Defined.

Lemma as_str_inj `{DatabaseText A} (a b : A) : as_str a = as_str b → a = b.
Proof. intros Heq. pose proof (from_as_str a) as Ha. rewrite Heq, from_as_str in Ha. by injection Ha. Qed.

(** ** Facts about identities *)

Lemma ensure_ok {E} b (e : E) : ensure b e = Ok tt ↔ b = true.
Proof. by destruct b. Qed.

Lemma map_err_ok {E F A} (f : E → F) (m : result E A) a : map_err f m = Ok a ↔ m = Ok a.
Proof. destruct m; simpl; naive_solver. Qed.

Definition concrete_track (track : string) : Prop :=
  is_identity track = true ∧ track ≠ RESERVED_TRACK_NAME.

Lemma validate_concrete_track_ok track : validate_concrete_track track = Ok tt ↔ concrete_track track.
Proof.
  unfold validate_concrete_track, concrete_track, validate_managed_resource_identity.
  destruct (is_identity track); simpl; [|naive_solver]. case_bool_decide; naive_solver.
Qed.

Lemma is_identity_lacks c v : identity_char c = false → is_identity v = true → lacks c v = true.
Proof. unfold is_identity. intros Hc H. split_bools. by apply (str_all_lacks identity_char). Qed.

Lemma is_identity_nonempty v : is_identity v = true → v ≠ "".
Proof. unfold is_identity. intros H. split_bools. by apply is_empty_false. Qed.

Definition extension_ok (e : string) : Prop := e ≠ "" ∧ str_all extension_char e = true.

Lemma validate_php_extension_identity_ok e :
  validate_php_extension_identity e = Ok tt ↔ extension_ok e.
Proof.
  unfold validate_php_extension_identity, extension_ok.
  rewrite ensure_ok, andb_true_iff, negb_true_iff, is_empty_false. done.
Qed.

Lemma extension_ok_lacks e : extension_ok e → lacks "+" e = true.
Proof. intros [_ H]. by apply (str_all_lacks extension_char). Qed.

(** ** Sorted, distinct extension lists *)

Lemma dedup_cons x y l :
  dedup (x :: y :: l) = if bool_decide (x = y) then dedup (y :: l) else x :: dedup (y :: l).
Proof. done. Qed.

Lemma elem_of_dedup x l : x ∈ dedup l ↔ x ∈ l.
Proof.
  induction l as [|y l IH]; [done|]. destruct l as [|z l]; [done|].
  rewrite dedup_cons. case_bool_decide as Hyz.
  - rewrite IH. subst. set_solver.
  - rewrite !elem_of_cons in *. rewrite IH. set_solver.
Qed.

Lemma dedup_sorted l : StronglySorted (le_on id) l →
  StronglySorted (le_on id) (dedup l) ∧ NoDup (dedup l).
Proof.
  induction l as [|y l IH]; intros Hs; [split; constructor|].
  destruct l as [|z l]; [split; [done|apply NoDup_singleton]|].
  apply StronglySorted_inv in Hs as [Hs Hy]. destruct (IH Hs) as [IHs IHn].
  rewrite dedup_cons. case_bool_decide as Hyz; [done|].
  assert (Forall (le_on id y) (dedup (z :: l))) as Hall.
  { apply Forall_forall. intros x Hx. rewrite elem_of_dedup in Hx. exact (proj1 (Forall_forall _ _) Hy x Hx). }
  split; [by constructor|]. constructor; [|done]. intros Hin. rewrite elem_of_dedup in Hin.
  apply StronglySorted_inv in Hs as [_ Hz]. apply elem_of_cons in Hin as [->|Hin]; [done|].
  apply (proj1 (Forall_forall _ _) Hz) in Hin. apply Forall_cons in Hy as [Hy _].
  apply Hyz. by apply (anti_symm String.le).
Qed.

(** The canonical form of a list of extensions. *)
Definition canonical (l : list string) : list string := dedup (sort_on id l).

Lemma elem_of_canonical x l : x ∈ canonical l ↔ x ∈ l.
Proof. unfold canonical. by rewrite elem_of_dedup, elem_of_sort_on. Qed.

Lemma canonical_eq l l' : canonical l = canonical l' ↔ ∀ e, e ∈ l ↔ e ∈ l'.
Proof.
  split.
  - intros H e. by rewrite <-(elem_of_canonical e l), <-(elem_of_canonical e l'), H.
  - intros H. destruct (dedup_sorted _ (sort_on_sorted id l)) as [Hs Hn].
    destruct (dedup_sorted _ (sort_on_sorted id l')) as [Hs' Hn'].
    apply (StronglySorted_unique_strong (le_on id)); [|done..|].
    + intros x y _ _ Hxy Hyx. unfold le_on, id in Hxy, Hyx. by apply (anti_symm String.le).
    + apply NoDup_Permutation; [done..|]. intros x. by rewrite !elem_of_canonical.
Qed.

Lemma php_runtime_key_ok track l key : php_runtime_key track l = Ok key ↔
  concrete_track track ∧ Forall extension_ok l ∧ key = join "+" (track :: canonical l).
Proof.
  unfold php_runtime_key, validate_project_php_track. fold (canonical l).
  destruct (map_err _ _) as [[]|] eqn:Ht; simpl.
  2: { split; [done|]. intros [H _]. rewrite <-validate_concrete_track_ok in H. by rewrite H in Ht. }
  apply map_err_ok, validate_concrete_track_ok in Ht.
  destruct (try_iter _ l) as [[]|] eqn:Hl; simpl.
  2: { split; [done|]. intros (_ & H & _). rewrite (proj2 (try_iter_ok _ _)) in Hl; [done|].
       eapply Forall_impl; [exact H|]. intros. by apply validate_php_extension_identity_ok. }
  assert (Forall extension_ok l) by (apply try_iter_ok in Hl; eapply Forall_impl;
    [exact Hl|intros; by apply validate_php_extension_identity_ok]).
  destruct (canonical l) as [|x c]; naive_solver.
Qed.

Lemma runtime_key_pieces track l : concrete_track track → Forall extension_ok l →
  split "+" (join "+" (track :: canonical l)) = track :: canonical l.
Proof.
  intros [Ht _] Hl. apply split_join; [done|]. constructor; [by apply is_identity_lacks|].
  apply Forall_forall. intros e He. rewrite elem_of_canonical in He. apply extension_ok_lacks.
  exact (proj1 (Forall_forall _ _) Hl e He).
Qed.

(** ** Properties *)

(** A PHP runtime key identifies a PHP track together with a set of loaded
    extensions: a key exists exactly for a concrete track and well-formed
    extension names, the stored form is accepted back by the validator, and two
    keys are equal exactly when the tracks are equal and the lists hold the same
    extensions, whatever their order and repetitions. *)
Theorem php_runtime_key_spec track l :
  (is_ok (php_runtime_key track l) = true ↔ concrete_track track ∧ Forall extension_ok l)
  ∧ ∀ key, php_runtime_key track l = Ok key →
      validate_php_runtime_key key = Ok tt
      ∧ ∀ track' l' key', php_runtime_key track' l' = Ok key' →
          key = key' ↔ track = track' ∧ ∀ e, e ∈ l ↔ e ∈ l'.
Proof.
  split.
  - destruct (php_runtime_key track l) as [key|] eqn:Hk; simpl.
    + apply php_runtime_key_ok in Hk. naive_solver.
    + split; [done|]. intros [Ht Hl].
      by rewrite (proj2 (php_runtime_key_ok track l _) (conj Ht (conj Hl eq_refl))) in Hk.
  - intros key (Ht & Hl & ->)%php_runtime_key_ok. split.
    + unfold validate_php_runtime_key. rewrite runtime_key_pieces by done.
      rewrite (proj2 (validate_concrete_track_ok track) Ht). simpl.
      apply try_iter_ok, Forall_forall. intros e He. rewrite elem_of_canonical in He. apply map_err_ok.
      apply validate_php_extension_identity_ok. exact (proj1 (Forall_forall _ _) Hl e He).
    + intros track' l' key' (Ht' & Hl' & ->)%php_runtime_key_ok. rewrite <-canonical_eq. split.
      * intros H%(f_equal (split "+")). rewrite !runtime_key_pieces in H by done. by injection H.
      * by intros [-> ->].
Qed.

(** The database form of a job's diagnostic subject reads back as the subject,
    except for resources whose name holds a colon; a subject derived from a job's
    kind and scope never is one of those. *)
Theorem job_subject_roundtrip :
  (∀ s, subject_from_database (database_identity s).1 (database_identity s).2 = s
     ↔ ∀ name track, s = SubjectResource name track → lacks ":" name = true)
  ∧ ∀ kind scope name track, from_job_identity kind scope = SubjectResource name track →
      lacks ":" name = true.
Proof.
  split.
  - intros [| |id|name track| |kind scope]; simpl; try by split; [intros; simplify_eq|].
    unfold subject_from_database. simpl. split.
      * intros H n t [= <- <-]. destruct (split_once ":" _) as [[a b]|] eqn:E; [|done].
        apply split_once_Some in E as [_ Ha]. by injection H as -> _.
      * intros H. specialize (H name track eq_refl).
        by rewrite (proj2 (split_once_Some ":" _ name track)).
  - intros kind scope name track. unfold from_job_identity.
    destruct (_ && _); [done|]. destruct (negb _); [done|].
    pose proof (split_pieces_lack ":" scope) as Hp.
    destruct (split ":" scope) as [|a [|b [|c [|]]]]; try by repeat case_match.
    destruct (_ && _); [done|]. destruct (_ && _); [|done]. intros [= <- <-].
    by apply Forall_cons in Hp as [_ [? _]%Forall_cons].
Qed.

(** The database form of a runtime subject is faithful in both directions:
    a subject that can be written reads back as itself, and a row that can be read
    is the one its subject writes.  In particular no two subjects share a row. *)
Theorem runtime_subject_roundtrip s kind id :
  subject_kind s = kind ∧ subject_id s = Ok id ↔ runtime_subject_from_database kind id = Ok s.
Proof.
  unfold runtime_subject_from_database. split.
  - intros [<- H]. destruct s as [|t|k|n t]; simpl in *.
    + by injection H as <-.
    + inv_ok. unfold from_runtime_subject_id. simpl. by rewrite E.
    + inv_ok. by rewrite E.
    + inv_ok. unfold from_runtime_subject_id. simpl.
      rewrite (proj2 (split_once_Some ":" _ n t)).
      * by rewrite E, E0.
      * split; [done|]. apply is_identity_lacks; [done|]. by apply ensure_ok in E.
  - case_bool_decide as Hk.
    + unfold from_runtime_subject_id. case_bool_decide as Hg; [by intros [= <-]; subst|].
      destruct (strip_prefix "php_worker:" id) as [t|] eqn:Ht.
      * intros H; inv_ok. apply strip_prefix_Some in Ht as ->. simpl. by rewrite E.
      * destruct (_ ≫= _) as [[n t]|] eqn:Hr; [|done]. intros H; inv_ok.
        apply bind_Some in Hr as (r & Hr & Hs). apply strip_prefix_Some in Hr as ->.
        apply split_once_Some in Hs as [-> _]. simpl. by rewrite E, E0.
    + case_bool_decide; [|done]. intros H'; inv_ok. simpl. by rewrite E.
Qed.
