(* ===== verification/StateIds.v ===== *)
(** * Numbered row ids: [next_job_id] and [next_resource_allocation_id]
    of [state/src/database.rs] *)

From S2P Require Import Prelude RustStr StateTypes.

Definition I64_MAX : N := 2 ^ 63 - 1.

(** The value of the digits a text starts with. *)
Fixpoint leading_value (acc : N) (s : string) : N :=
  match s with
  | "" => acc
  | String c s => if is_ascii_digit c then leading_value (10 * acc + digit_value c)%N s else acc
  end.

(** [CAST(SUBSTR(id, len(prefix) + 1) AS INTEGER)] of an id that matches
    [GLOB 'prefix[0-9]*']: SQLite clamps a number that is too large. *)
Definition id_number (prefix id : string) : option N :=
  match strip_prefix prefix id with
  | Some (String c rest) =>
      if is_ascii_digit c then Some (N.min I64_MAX (leading_value 0 (String c rest))) else None
  | _ => None
  end.

(** [COALESCE(MAX(..), 0)]. *)
Definition max_number (prefix : string) (ids : list string) : N :=
  foldr (λ id m, match id_number prefix id with Some n => N.max n m | None => m end) 0%N ids.

(** [SELECT COALESCE(MAX(..), 0) + 1 ..] and [format!("{prefix}{next_number:06}")].
    The sum that does not fit is a real number, which is no [i64]. *)
Definition next_id (prefix : string) (ids : list string) : result StateError string :=
  let m := max_number prefix ids in
  if (m <? I64_MAX)%N then Ok (prefix +:+ show_padded 6 (m + 1))
  else Err (Sqlite (InvalidColumnType "next_number")).

(** ** Facts *)

Lemma leading_value_digits acc s n : digits_value acc s = Some n → leading_value acc s = n.
Proof.
  revert acc. induction s as [|c s IH]; intros acc; simpl; [by intros [= ->]|].
  destruct (is_ascii_digit c); [apply IH|done].
Qed.

Lemma digits_value_zeros k s : digits_value 0 (zeros k +:+ s) = digits_value 0 s.
Proof. induction k as [|k IH]; [done|]. simpl. exact IH. Qed.

Lemma show_padded_digits w n :
  digits_value 0 (show_padded w n) = Some n
  ∧ ∃ c s, show_padded w n = String c s ∧ is_ascii_digit c = true.
Proof.
  destruct (pretty_N_digits n) as (Hne & Hall & _ & Hv). unfold show_padded. split.
  - by rewrite digits_value_zeros.
  - destruct (w - len (pretty n)) as [|k]; [|by eexists "0"%char, _].
    destruct (pretty n) as [|c s]; [done|]. exists c, s. split; [done|].
    simpl in Hall. by destruct (is_ascii_digit c).
Qed.

Lemma id_number_padded prefix n : (n ≤ I64_MAX)%N →
  id_number prefix (prefix +:+ show_padded 6 n) = Some n.
Proof.
  intros Hn. unfold id_number. rewrite (proj2 (strip_prefix_Some prefix _ (show_padded 6 n)) eq_refl).
  destruct (show_padded_digits 6 n) as (Hv & c & s & Hs & Hc). rewrite Hs, Hc, <-Hs.
  rewrite (leading_value_digits 0 _ n Hv). f_equal. lia.
Qed.

Lemma max_number_ge prefix ids s n : s ∈ ids → id_number prefix s = Some n →
  (n ≤ max_number prefix ids)%N.
Proof.
  induction 1 as [|s id ids Hs IH]; simpl; intros Hn; [rewrite Hn; lia|].
  apply IH in Hn. destruct (id_number prefix id); lia.
Qed.

Lemma max_number_perm prefix l l' : l ≡ₚ l' → max_number prefix l = max_number prefix l'.
Proof.
  unfold max_number. induction 1; simpl; [done| | |congruence].
  - by rewrite IHPermutation.
  - repeat case_match; lia.
Qed.

Lemma max_number_attained prefix ids : (I64_MAX ≤ max_number prefix ids)%N →
  ∃ s, s ∈ ids ∧ id_number prefix s = Some I64_MAX.
Proof.
  induction ids as [|s ids IH]; simpl; [done|]. intros Hm.
  destruct (id_number prefix s) as [n|] eqn:Hn.
  - destruct (decide (n < I64_MAX)%N) as [Hlt|Hge].
    + destruct IH as (t & ? & ?); [lia|]. exists t. split; [by right|done].
    + exists s. split; [by left|]. rewrite Hn. f_equal. unfold id_number in Hn. repeat case_match; simplify_eq. lia.
  - destruct (IH Hm) as (t & ? & ?). exists t. split; [by right|done].
Qed.

(** The id is one no row has, and its number is larger than every row's. *)
Lemma next_id_fresh prefix ids s : next_id prefix ids = Ok s →
  (s ∉ ids) ∧ ∃ n, id_number prefix s = Some n ∧ ∀ t m, t ∈ ids → id_number prefix t = Some m → (m < n)%N.
Proof.
  unfold next_id. destruct (N.ltb_spec (max_number prefix ids) I64_MAX) as [Hlt|]; [|done].
  intros [= <-]. pose proof (id_number_padded prefix (max_number prefix ids + 1) ltac:(lia)) as Hn.
  split.
  - intros Hin. pose proof (max_number_ge prefix ids _ _ Hin Hn). lia.
  - eexists. split; [exact Hn|]. intros t m Ht Hm. pose proof (max_number_ge prefix ids t m Ht Hm). lia.
Qed.

Lemma next_id_ok prefix ids : (max_number prefix ids < I64_MAX)%N →
  next_id prefix ids = Ok (prefix +:+ show_padded 6 (max_number prefix ids + 1)).
Proof. intros H. unfold next_id. by rewrite (proj2 (N.ltb_lt _ _) H). Qed.
