(* ===== verification/StateDb.v ===== *)
(** * The state database: tables, transactions and text codecs
    [state/src/sql/*.sql] and the connection layer of [state/src/database.rs] *)

From S2P Require Import Prelude RustStr Paths StateTypes.

(** ** Tables

    One row type per table, without the columns of its key.  The key of each map
    is the table's primary key, so two rows never share one. *)

(** [projects], keyed by [id]. *)
Record ProjectRow := {
  p_path : string;
  p_primary_hostname : string;
  p_config_path : option string;
  p_desired_php_track : option string;
  p_created_at : string;
  p_updated_at : string;
  p_original_path : option string;
  p_requested_extensions_json : string;
  p_loaded_extensions_json : string;
  p_ignored_extensions_json : string;
  p_project_slug : option string;
  p_serves_http : Z;
}.

(** [project_hostnames], keyed by [hostname]. *)
Record HostnameRow := { h_project_id : string; h_is_primary : bool; h_created_at : string }.

(** [managed_resource_tracks], keyed by [(resource_name, track)]. *)
Record TrackRow := {
  t_desired_state : string;
  t_installed_version : option string;
  t_current_artifact_path : option string;
  t_usage_count : Z;
  t_env_json : string;
  t_removal_prune : bool;
  t_removal_force : bool;
  t_updated_at : string;
}.

(** [project_managed_resources], keyed by [(project_id, resource_name)]. *)
Record RequirementRow := { q_track : string; q_created_at : string; q_updated_at : string }.

(** [resource_allocations], keyed by [id]. *)
Record AllocationRow := {
  a_project_id : string;
  a_resource_name : string;
  a_track : string;
  a_allocation_name : string;
  a_generated_name : string;
  a_env_json : string;
  a_status : string;
  a_created_at : string;
  a_updated_at : string;
}.

(** [ports], keyed by [(owner_kind, owner_id, owner_track)], and [resource_ports],
    keyed by [(resource_name, track, port_name)]. *)
Record PortRow := { port : Z; port_updated_at : string }.

(** [observed_states], keyed by [(subject_kind, subject_id)]. *)
Record ObservedRow := { o_status : string; o_message : option string; o_observed_at : string }.

(** [jobs], keyed by [id]. *)
Record JobRow := {
  j_kind : string;
  j_scope : string;
  j_status : string;
  j_started_at : string;
  j_finished_at : option string;
  j_summary : option string;
  j_error : option string;
}.

(** [job_diagnostic_outcomes], in the order of [sequence]: SQLite gives a new row
    the largest sequence plus one, so a row is always appended. *)
Record OutcomeRow := {
  oc_job_id : string; oc_subject_kind : string; oc_subject_id : string; oc_outcome : string;
}.
#[export] Instance outcome_row_eq_dec : EqDecision OutcomeRow.
Proof. solve_decision. Defined.

Record Db := {
  projects : gmap string ProjectRow;
  project_hostnames : gmap string HostnameRow;
  managed_resource_tracks : gmap (string * string) TrackRow;
  project_managed_resources : gmap (string * string) RequirementRow;
  resource_allocations : gmap string AllocationRow;
  ports : gmap (string * string * string) PortRow;
  resource_ports : gmap (string * string * string) PortRow;
  observed_states : gmap (string * string) ObservedRow;
  project_env_observed_warnings : gmap (string * string * string) string;
  jobs : gmap string JobRow;
  job_diagnostic_outcomes : list OutcomeRow;
  global_php_default_track : option (string * string);
}.

Definition set_projects (f : gmap string ProjectRow → gmap string ProjectRow) (d : Db) : Db :=
  {| projects := f (projects d);
     project_hostnames := project_hostnames d;
     managed_resource_tracks := managed_resource_tracks d;
     project_managed_resources := project_managed_resources d;
     resource_allocations := resource_allocations d;
     ports := ports d;
     resource_ports := resource_ports d;
     observed_states := observed_states d;
     project_env_observed_warnings := project_env_observed_warnings d;
     jobs := jobs d;
     job_diagnostic_outcomes := job_diagnostic_outcomes d;
     global_php_default_track := global_php_default_track d |}.
Definition set_project_hostnames (f : gmap string HostnameRow → gmap string HostnameRow) (d : Db) : Db :=
  {| projects := projects d;
     project_hostnames := f (project_hostnames d);
     managed_resource_tracks := managed_resource_tracks d;
     project_managed_resources := project_managed_resources d;
     resource_allocations := resource_allocations d;
     ports := ports d;
     resource_ports := resource_ports d;
     observed_states := observed_states d;
     project_env_observed_warnings := project_env_observed_warnings d;
     jobs := jobs d;
     job_diagnostic_outcomes := job_diagnostic_outcomes d;
     global_php_default_track := global_php_default_track d |}.
Definition set_managed_resource_tracks (f : gmap (string * string) TrackRow → gmap (string * string) TrackRow) (d : Db) : Db :=
  {| projects := projects d;
     project_hostnames := project_hostnames d;
     managed_resource_tracks := f (managed_resource_tracks d);
     project_managed_resources := project_managed_resources d;
     resource_allocations := resource_allocations d;
     ports := ports d;
     resource_ports := resource_ports d;
     observed_states := observed_states d;
     project_env_observed_warnings := project_env_observed_warnings d;
     jobs := jobs d;
     job_diagnostic_outcomes := job_diagnostic_outcomes d;
     global_php_default_track := global_php_default_track d |}.
Definition set_project_managed_resources (f : gmap (string * string) RequirementRow → gmap (string * string) RequirementRow) (d : Db) : Db :=
  {| projects := projects d;
     project_hostnames := project_hostnames d;
     managed_resource_tracks := managed_resource_tracks d;
     project_managed_resources := f (project_managed_resources d);
     resource_allocations := resource_allocations d;
     ports := ports d;
     resource_ports := resource_ports d;
     observed_states := observed_states d;
     project_env_observed_warnings := project_env_observed_warnings d;
     jobs := jobs d;
     job_diagnostic_outcomes := job_diagnostic_outcomes d;
     global_php_default_track := global_php_default_track d |}.
Definition set_resource_allocations (f : gmap string AllocationRow → gmap string AllocationRow) (d : Db) : Db :=
  {| projects := projects d;
     project_hostnames := project_hostnames d;
     managed_resource_tracks := managed_resource_tracks d;
     project_managed_resources := project_managed_resources d;
     resource_allocations := f (resource_allocations d);
     ports := ports d;
     resource_ports := resource_ports d;
     observed_states := observed_states d;
     project_env_observed_warnings := project_env_observed_warnings d;
     jobs := jobs d;
     job_diagnostic_outcomes := job_diagnostic_outcomes d;
     global_php_default_track := global_php_default_track d |}.
Definition set_ports (f : gmap (string * string * string) PortRow → gmap (string * string * string) PortRow) (d : Db) : Db :=
  {| projects := projects d;
     project_hostnames := project_hostnames d;
     managed_resource_tracks := managed_resource_tracks d;
     project_managed_resources := project_managed_resources d;
     resource_allocations := resource_allocations d;
     ports := f (ports d);
     resource_ports := resource_ports d;
     observed_states := observed_states d;
     project_env_observed_warnings := project_env_observed_warnings d;
     jobs := jobs d;
     job_diagnostic_outcomes := job_diagnostic_outcomes d;
     global_php_default_track := global_php_default_track d |}.
Definition set_resource_ports (f : gmap (string * string * string) PortRow → gmap (string * string * string) PortRow) (d : Db) : Db :=
  {| projects := projects d;
     project_hostnames := project_hostnames d;
     managed_resource_tracks := managed_resource_tracks d;
     project_managed_resources := project_managed_resources d;
     resource_allocations := resource_allocations d;
     ports := ports d;
     resource_ports := f (resource_ports d);
     observed_states := observed_states d;
     project_env_observed_warnings := project_env_observed_warnings d;
     jobs := jobs d;
     job_diagnostic_outcomes := job_diagnostic_outcomes d;
     global_php_default_track := global_php_default_track d |}.
Definition set_observed_states (f : gmap (string * string) ObservedRow → gmap (string * string) ObservedRow) (d : Db) : Db :=
  {| projects := projects d;
     project_hostnames := project_hostnames d;
     managed_resource_tracks := managed_resource_tracks d;
     project_managed_resources := project_managed_resources d;
     resource_allocations := resource_allocations d;
     ports := ports d;
     resource_ports := resource_ports d;
     observed_states := f (observed_states d);
     project_env_observed_warnings := project_env_observed_warnings d;
     jobs := jobs d;
     job_diagnostic_outcomes := job_diagnostic_outcomes d;
     global_php_default_track := global_php_default_track d |}.
Definition set_project_env_observed_warnings (f : gmap (string * string * string) string → gmap (string * string * string) string) (d : Db) : Db :=
  {| projects := projects d;
     project_hostnames := project_hostnames d;
     managed_resource_tracks := managed_resource_tracks d;
     project_managed_resources := project_managed_resources d;
     resource_allocations := resource_allocations d;
     ports := ports d;
     resource_ports := resource_ports d;
     observed_states := observed_states d;
     project_env_observed_warnings := f (project_env_observed_warnings d);
     jobs := jobs d;
     job_diagnostic_outcomes := job_diagnostic_outcomes d;
     global_php_default_track := global_php_default_track d |}.
Definition set_jobs (f : gmap string JobRow → gmap string JobRow) (d : Db) : Db :=
  {| projects := projects d;
     project_hostnames := project_hostnames d;
     managed_resource_tracks := managed_resource_tracks d;
     project_managed_resources := project_managed_resources d;
     resource_allocations := resource_allocations d;
     ports := ports d;
     resource_ports := resource_ports d;
     observed_states := observed_states d;
     project_env_observed_warnings := project_env_observed_warnings d;
     jobs := f (jobs d);
     job_diagnostic_outcomes := job_diagnostic_outcomes d;
     global_php_default_track := global_php_default_track d |}.
Definition set_job_diagnostic_outcomes (f : list OutcomeRow → list OutcomeRow) (d : Db) : Db :=
  {| projects := projects d;
     project_hostnames := project_hostnames d;
     managed_resource_tracks := managed_resource_tracks d;
     project_managed_resources := project_managed_resources d;
     resource_allocations := resource_allocations d;
     ports := ports d;
     resource_ports := resource_ports d;
     observed_states := observed_states d;
     project_env_observed_warnings := project_env_observed_warnings d;
     jobs := jobs d;
     job_diagnostic_outcomes := f (job_diagnostic_outcomes d);
     global_php_default_track := global_php_default_track d |}.
Definition set_global_php_default_track (f : option (string * string) → option (string * string)) (d : Db) : Db :=
  {| projects := projects d;
     project_hostnames := project_hostnames d;
     managed_resource_tracks := managed_resource_tracks d;
     project_managed_resources := project_managed_resources d;
     resource_allocations := resource_allocations d;
     ports := ports d;
     resource_ports := resource_ports d;
     observed_states := observed_states d;
     project_env_observed_warnings := project_env_observed_warnings d;
     jobs := jobs d;
     job_diagnostic_outcomes := job_diagnostic_outcomes d;
     global_php_default_track := f (global_php_default_track d) |}.

Definition empty_db : Db :=
  {| projects := ∅;
     project_hostnames := ∅;
     managed_resource_tracks := ∅;
     project_managed_resources := ∅;
     resource_allocations := ∅;
     ports := ∅;
     resource_ports := ∅;
     observed_states := ∅;
     project_env_observed_warnings := ∅;
     jobs := ∅;
     job_diagnostic_outcomes := [];
     global_php_default_track := None |}.

(** ** Transactions

    A public operation takes the database and returns its result with the new
    database.  [transact] is a transaction that is committed when the operation
    returns and rolled back when it fails; [autocommit] is a statement run outside
    a transaction, followed by reads. *)
Definition Op (A : Type) : Type := Db → result StateError A * Db.

Definition transact {A} (f : Db → result StateError (A * Db)) : Op A := λ d,
  match f d with Ok (a, d') => (Ok a, d') | Err e => (Err e, d) end.

Definition autocommit {A} (update : Db → result StateError Db) (read : Db → result StateError A) :
    Op A := λ d,
  match update d with Ok d' => (read d', d') | Err e => (Err e, d) end.

Lemma transact_ok {A} (f : Db → result StateError (A * Db)) d a d' :
  transact f d = (Ok a, d') ↔ f d = Ok (a, d').
Proof. unfold transact. destruct (f d) as [[]|]; naive_solver. Qed.

(** A transaction is atomic: an error leaves the database as it was. *)
Lemma transact_err {A} (f : Db → result StateError (A * Db)) d e d' :
  transact f d = (Err e, d') → d' = d.
Proof. unfold transact. destruct (f d) as [[]|]; naive_solver. Qed.

(** An invariant kept by every successful run of the body is kept by the
    transaction, whatever its result. *)
Lemma transact_inv {A} (P : Db → Prop) (f : Db → result StateError (A * Db)) d :
  (∀ a d', f d = Ok (a, d') → P d → P d') → P d → P (transact f d).2.
Proof. unfold transact. intros H Hd. destruct (f d) as [[a d']|]; [by eapply H|done]. Qed.

Lemma autocommit_inv {A} (P : Db → Prop) update (read : Db → result StateError A) d :
  (∀ d', update d = Ok d' → P d → P d') → P d → P (autocommit update read d).2.
Proof. unfold autocommit. intros H Hd. destruct (update d) as [d'|]; [by eapply H|done]. Qed.

(** ** JSON columns

    [serde_json] is a dependency: the operations take its functions, and the
    theorems that need them assume what it documents, that a value it writes is
    read back.  [Err] carries the text of its error. *)
Class Json := {
  list_to_json : list string → result string string;
  list_from_json : string → result string (list string);
  env_to_json : gmap string string → result string string;
  env_from_json : string → result string (gmap string string);
}.

Class JsonLaws `{Json} : Prop := {
  list_json_roundtrip : ∀ l, ∃ s, list_to_json l = Ok s ∧ list_from_json s = Ok l;
  env_json_roundtrip : ∀ m, ∃ s, env_to_json m = Ok s ∧ env_from_json s = Ok m;
  list_json_empty : list_from_json "[]" = Ok [];
  env_json_empty : env_from_json "{}" = Ok ∅;
}.

Definition validate_env_context (context : string) (env : gmap string string) :
    result StateError unit :=
  try_iter (λ kv : string * string,
      if is_empty kv.1 then Err (InvalidEnvContext context "env keys must not be empty") else Ok tt)
    (btree_iter env).

Section json.
Context `{Json}.

Definition serialize_extension_json (extensions : list string) : result StateError string :=
  map_err (InvalidEnvJson "Project PHP runtime extensions") (list_to_json extensions).

Definition user_extension_json (extensions : list string) : result StateError string :=
  _ ← validate_requested_php_extension_list extensions; serialize_extension_json extensions.
Definition runtime_extension_json (extensions : list string) : result StateError string :=
  _ ← validate_php_extension_list extensions; serialize_extension_json extensions.

Definition parse_extension_json (project_id extension_kind extension_json : string) :
    result StateError (list string) :=
  map_err (InvalidEnvJson ("Project " +:+ debug_str project_id +:+ " PHP " +:+ extension_kind
                           +:+ " extensions"))
    (list_from_json extension_json).

Definition parse_user_extension_json (project_id extension_kind extension_json : string) :
    result StateError (list string) :=
  extensions ← parse_extension_json project_id extension_kind extension_json;
  _ ← validate_requested_php_extension_list extensions; Ok extensions.
Definition parse_runtime_extension_json (project_id extension_kind extension_json : string) :
    result StateError (list string) :=
  extensions ← parse_extension_json project_id extension_kind extension_json;
  _ ← validate_php_extension_list extensions; Ok extensions.

Definition serialize_env_context (context : string) (env : gmap string string) :
    result StateError string :=
  _ ← validate_env_context context env; map_err (InvalidEnvJson context) (env_to_json env).

Definition parse_env_context (context env_json : string) : result StateError (gmap string string) :=
  env ← map_err (InvalidEnvJson context) (env_from_json env_json);
  _ ← validate_env_context context env; Ok env.
End json.

(** ** Facts *)

Lemma validate_env_context_ok context env :
  validate_env_context context env = Ok tt ↔ env !! "" = None.
Proof.
  unfold validate_env_context. rewrite try_iter_ok, Forall_forall. split.
  - intros H. destruct (env !! "") as [v|] eqn:E; [|done].
    by specialize (H ("", v) (proj2 (elem_of_btree_iter env "" v) E)).
  - intros H [k v] Hin%elem_of_btree_iter. simpl. destruct (is_empty k) eqn:E; [|done].
    apply is_empty_true in E as ->. congruence.
Qed.

Section json_facts.
Context `{JsonLaws}.

(** A written env context reads back, under any context text. *)
Lemma env_context_roundtrip context context' env s :
  serialize_env_context context env = Ok s → parse_env_context context' s = Ok env.
Proof.
  unfold serialize_env_context, parse_env_context. intros Hs; inv_ok.
  destruct (env_json_roundtrip env) as (s' & Hw & Hr).
  destruct (env_to_json env) as [w|]; simpl in *; simplify_eq. rewrite Hr. simpl.
  apply validate_env_context_ok in E. by rewrite (proj2 (validate_env_context_ok context' env) E).
Qed.

Lemma serialize_env_context_total context env : env !! "" = None →
  ∃ s, serialize_env_context context env = Ok s.
Proof.
  intros He. unfold serialize_env_context. rewrite (proj2 (validate_env_context_ok _ _) He). simpl.
  destruct (env_json_roundtrip env) as (s & -> & _). by exists s.
Qed.
End json_facts.

(** ** A concrete codec

    An instance of [Json] for the examples.  It writes [a] before every byte of an
    element and [.] after the element, between the brackets. *)

Fixpoint tag_bytes (s : string) : string :=
  match s with "" => "." | String c s => String "a" (String c (tag_bytes s)) end.

Definition tag_list (opening closing : ascii) (l : list string) : string :=
  String opening (str_concat (tag_bytes <$> l) +:+ String closing "").

Fixpoint untag (closing : ascii) (cur : string) (acc : list string) (s : string) :
    result string (list string) :=
  match s with
  | "" => Err "unexpected end"
  | String x s1 =>
      if char_eqb x "." then untag closing "" (acc ++ [cur]) s1
      else if char_eqb x closing then Ok acc
      else match s1 with
           | "" => Err "unexpected end"
           | String c s2 => untag closing (cur +:+ String c "") acc s2
           end
  end.

Definition untag_list (closing : ascii) (s : string) : result string (list string) :=
  match s with "" => Err "unexpected end" | String _ s => untag closing "" [] s end.

Fixpoint pairs_of (l : list string) : list (string * string) :=
  match l with k :: v :: l => (k, v) :: pairs_of l | _ => [] end.

Definition flatten (l : list (string * string)) : list string := l ≫= λ kv, [kv.1; kv.2].

#[export] Instance tag_json : Json := {|
  list_to_json l := Ok (tag_list "[" "]" l);
  list_from_json := untag_list "]";
  env_to_json m := Ok (tag_list "{" "}" (flatten (btree_iter m)));
  env_from_json s := (λ l, list_to_map (pairs_of l)) <$> untag_list "}" s;
|}.

Lemma untag_tag closing cur acc c s : closing ≠ "a"%char →
  untag closing cur acc (String "a" (String c s)) = untag closing (cur +:+ String c "") acc s.
Proof.
  intros Hc. trans (if char_eqb "a" closing then Ok acc else untag closing (cur +:+ String c "") acc s);
    [done|]. by rewrite (proj2 (char_eqb_neq "a" closing)).
Qed.

Lemma untag_close closing acc s : closing ≠ "."%char → untag closing "" acc (String closing s) = Ok acc.
Proof.
  intros Hc. cbn [untag]. rewrite (proj2 (char_eqb_neq closing ".")) by done. by rewrite char_eqb_refl.
Qed.

Lemma untag_bytes closing cur acc s rest : closing ≠ "a"%char →
  untag closing cur acc (tag_bytes s +:+ rest) = untag closing "" (acc ++ [cur +:+ s]) rest.
Proof.
  intros Hc. revert cur. induction s as [|c s IH]; intros cur; cbn [tag_bytes].
  - simpl. by rewrite str_app_nil_r.
  - rewrite !str_cons_app, untag_tag, IH by done. by rewrite <-str_app_assoc.
Qed.

Lemma untag_concat closing acc l : closing ≠ "a"%char → closing ≠ "."%char →
  untag closing "" acc (str_concat (tag_bytes <$> l) +:+ String closing "") = Ok (acc ++ l).
Proof.
  intros Ha Hd. revert acc. induction l as [|s l IH]; intros acc.
  - trans (untag closing "" acc (String closing "")); [done|]. by rewrite untag_close, app_nil_r.
  - rewrite fmap_cons. cbn [str_concat]. rewrite <-str_app_assoc, untag_bytes, IH by done.
    by rewrite <-app_assoc.
Qed.

Lemma pairs_of_flatten l : pairs_of (flatten l) = l.
Proof. induction l as [|[k v] l IH]; [done|]. simpl. f_equal. apply IH. Qed.

#[export] Instance tag_json_laws : JsonLaws.
Proof.
  split; [| |done..].
  - intros l. eexists. split; [done|]. simpl. by apply untag_concat.
  - intros m. eexists. split; [done|]. simpl. rewrite untag_concat by done. simpl.
    rewrite pairs_of_flatten. f_equal. unfold btree_iter. apply map_eq. intros k.
    apply option_eq. intros v. rewrite <-elem_of_list_to_map.
    + by rewrite elem_of_sort_on, elem_of_map_to_list.
    + apply NoDup_fst_btree_iter.
Qed.

(** A database with one project, for the examples. *)
Definition sample_project : ProjectRow :=
  {| p_path := "/srv/acme"; p_primary_hostname := "acme.test"; p_config_path := Some "/srv/acme/pv.yml";
     p_desired_php_track := None; p_created_at := "t0"; p_updated_at := "t0";
     p_original_path := Some "/srv/acme"; p_requested_extensions_json := "[]";
     p_loaded_extensions_json := "[]"; p_ignored_extensions_json := "[]";
     p_project_slug := Some "acme"; p_serves_http := 1 |}.

Definition sample_db : Db :=
  set_project_hostnames (λ _, {[ "acme.test" :=
      {| h_project_id := "p1"; h_is_primary := true; h_created_at := "t0" |} ]})
    (set_projects (λ _, {[ "p1" := sample_project ]}) empty_db).
