(* ===== verification/StatePorts.v ===== *)
(** * Port assignments: [PortRequest], [PortOwner], [assign_port],
    [assign_gateway_ports] and [release_port] of [state/src/database.rs] *)

From S2P Require Import Prelude RustStr Paths StateTypes StateDb.

Definition DNS_PREFERRED_PORT : Z := 35353.
Definition GATEWAY_HTTP_PREFERRED_PORT : Z := 48080.
Definition GATEWAY_HTTPS_PREFERRED_PORT : Z := 48443.
Definition RUNTIME_PORT_FALLBACK_START : Z := 45000.
Definition RUNTIME_PORT_FALLBACK_END : Z := 48999.

(** A port is a [u16]. *)
Definition is_u16 (p : Z) : bool := (0 <=? p)%Z && (p <? 65536)%Z.

(** ** Owners *)

Inductive GatewayPort : Type := Http | Https.
#[export] Instance gateway_port_eq_dec : EqDecision GatewayPort.
Proof. solve_decision. Defined.

Inductive PortOwner : Type :=
| Dns
| Gateway (gateway_port : GatewayPort)
| PhpWorker (php_runtime_key : string)
| Resource (name track port : string).
#[export] Instance port_owner_eq_dec : EqDecision PortOwner.
Proof. solve_decision. Defined.

Record PortIdentity := {
  owner_kind : string; owner_id : string; owner_track : string; owner_port : string;
}.
#[export] Instance port_identity_eq_dec : EqDecision PortIdentity.
Proof. solve_decision. Defined.

Definition gateway_port_as_str (g : GatewayPort) : string :=
  match g with Http => "http" | Https => "https" end.

Definition gateway_port_from_database (id : string) : result StateError GatewayPort :=
  if bool_decide (id = "http") then Ok Http
  else if bool_decide (id = "https") then Ok Https
  else Err (InvalidPortOwner ("gateway:" +:+ id +:+ ":")
              "gateway ports must use owner id `http` or `https` and an empty owner track").

Definition identity (o : PortOwner) : result StateError PortIdentity :=
  match o with
  | Dns => Ok {| owner_kind := "dns"; owner_id := "dns"; owner_track := ""; owner_port := "" |}
  | Gateway g => Ok {| owner_kind := "gateway"; owner_id := gateway_port_as_str g;
                       owner_track := ""; owner_port := "" |}
  | PhpWorker key =>
      _ ← validate_php_runtime_key key;
      Ok {| owner_kind := "php_worker"; owner_id := "php"; owner_track := key; owner_port := "" |}
  | Resource name track port =>
      _ ← validate_managed_resource_identity "name" name;
      _ ← validate_concrete_track track;
      _ ← validate_managed_resource_identity "port" port;
      Ok {| owner_kind := "resource"; owner_id := name; owner_track := track; owner_port := port |}
  end.

Definition describe_port_identity (kind id track port : string) : string :=
  if negb (is_empty port)
  then kind +:+ " " +:+ debug_str id +:+ " track " +:+ debug_str track +:+ " port " +:+ debug_str port
  else if is_empty track then kind +:+ " " +:+ debug_str id
  else kind +:+ " " +:+ debug_str id +:+ " track " +:+ debug_str track.

Definition identity_display_name (i : PortIdentity) : string :=
  describe_port_identity (owner_kind i) (owner_id i) (owner_track i) (owner_port i).

Definition owner_display_name (o : PortOwner) : string :=
  match o with
  | Dns => "dns"
  | Gateway g => "gateway " +:+ gateway_port_as_str g
  | PhpWorker key => "php worker " +:+ debug_str key
  | Resource name track port =>
      "resource " +:+ debug_str name +:+ " track " +:+ debug_str track +:+ " port " +:+ debug_str port
  end.

Definition owner_from_database (kind id track port : string) : result StateError PortOwner :=
  let describe := describe_port_identity kind id track port in
  if bool_decide (kind = "dns") then
    if bool_decide (id = "dns") && is_empty track && is_empty port then Ok Dns
    else Err (InvalidPortOwner describe
                "dns ports must use owner id `dns` with empty owner track and port")
  else if bool_decide (kind = "gateway") then
    if is_empty track && is_empty port then Gateway <$> gateway_port_from_database id
    else Err (InvalidPortOwner describe
                "gateway ports must use owner id `http` or `https` with empty owner track and port")
  else if bool_decide (kind = "php_worker") then
    if bool_decide (id = "php") && negb (is_empty track) && is_empty port
    then _ ← identity (PhpWorker track); Ok (PhpWorker track)
    else Err (InvalidPortOwner describe
                "php worker ports must use owner id `php`, include a php runtime key, and use an empty owner port")
  else if bool_decide (kind = "resource") then
    if negb (is_empty id) && negb (is_empty track) && negb (is_empty port)
    then _ ← identity (Resource id track port); Ok (Resource id track port)
    else Err (InvalidPortOwner describe
                "resource ports must include a resource name, track, and port")
  else Err (UnknownPortOwnerKind kind).

(** ** Requests *)

Record PortRequest := {
  owner : PortOwner; preferred_port : Z; fallback_start : Z; fallback_end : Z;
}.

Definition pv_dns : PortRequest :=
  Build_PortRequest Dns DNS_PREFERRED_PORT RUNTIME_PORT_FALLBACK_START RUNTIME_PORT_FALLBACK_END.
Definition gateway (g : GatewayPort) (preferred_port fallback_start fallback_end : Z) : PortRequest :=
  Build_PortRequest (Gateway g) preferred_port fallback_start fallback_end.
Definition pv_gateway_http : PortRequest :=
  gateway Http GATEWAY_HTTP_PREFERRED_PORT RUNTIME_PORT_FALLBACK_START RUNTIME_PORT_FALLBACK_END.
Definition pv_gateway_https : PortRequest :=
  gateway Https GATEWAY_HTTPS_PREFERRED_PORT RUNTIME_PORT_FALLBACK_START RUNTIME_PORT_FALLBACK_END.
Definition php_worker (key : string) (preferred_port fallback_start fallback_end : Z) : PortRequest :=
  Build_PortRequest (PhpWorker key) preferred_port fallback_start fallback_end.
Definition resource_port (name track port : string)
    (preferred_port fallback_start fallback_end : Z) : PortRequest :=
  Build_PortRequest (Resource name track port) preferred_port fallback_start fallback_end.
Definition resource (name track : string) (preferred_port fallback_start fallback_end : Z) :
    PortRequest :=
  resource_port name track "default" preferred_port fallback_start fallback_end.

(** The inclusive range is walked without overflow, whatever its bounds. *)
Definition candidates (r : PortRequest) : list Z :=
  preferred_port r ::
  filter (λ p, p ≠ preferred_port r)
    (seqZ (fallback_start r) (fallback_end r - fallback_start r + 1)).

(** ** Tables *)

Record PortAssignment := { assigned_owner : PortOwner; assigned_port : Z; assigned_at : string }.
Record GatewayPortAssignments := { http : PortAssignment; https : PortAssignment }.

Definition uses_resource_ports_table (i : PortIdentity) : bool :=
  bool_decide (owner_kind i = "resource") && negb (bool_decide (owner_port i = "default")).

Definition ports_key (i : PortIdentity) : string * string * string :=
  (owner_kind i, owner_id i, owner_track i).
Definition resource_ports_key (i : PortIdentity) : string * string * string :=
  (owner_id i, owner_track i, owner_port i).

(** The [owner_port] column the queries over [ports] compute. *)
Definition ports_owner_port (kind : string) : string :=
  if bool_decide (kind = "resource") then "default" else "".

Definition read_u16 (p : Z) : result StateError Z :=
  if is_u16 p then Ok p else Err (Sqlite (IntegralValueOutOfRange p)).

Definition into_assignment (kind id track owner_port : string) (row : PortRow) :
    result StateError PortAssignment :=
  p ← read_u16 (port row);
  o ← owner_from_database kind id track owner_port;
  Ok {| assigned_owner := o; assigned_port := p; assigned_at := port_updated_at row |}.

Definition port_assignment (d : Db) (i : PortIdentity) : result StateError (option PortAssignment) :=
  if uses_resource_ports_table i then
    match resource_ports d !! resource_ports_key i with
    | Some row => Some <$> into_assignment "resource" (owner_id i) (owner_track i) (owner_port i) row
    | None => Ok None
    end
  else
    match ports d !! ports_key i with
    | Some row => Some <$> into_assignment (owner_kind i) (owner_id i) (owner_track i)
                             (ports_owner_port (owner_kind i)) row
    | None => Ok None
    end.

Definition port_column {K} `{Countable K} (m : gmap K PortRow) : list Z :=
  port ∘ snd <$> map_to_list m.

Definition assigned_port_numbers (d : Db) : result StateError (gset Z) :=
  list_to_set <$> try_map read_u16 (port_column (ports d) ++ port_column (resource_ports d)).

Definition assigned_port_numbers_except (d : Db) (i : PortIdentity) : result StateError (gset Z) :=
  numbers ← assigned_port_numbers d;
  existing ← port_assignment d i;
  match existing with
  | Some a => Ok (numbers ∖ {[assigned_port a]})
  | None => Ok numbers
  end.

(** [INSERT .. ON CONFLICT(key) DO UPDATE] on a table whose [port] is UNIQUE. *)
Definition upsert_port_row {K} `{Countable K} (table : string) (k : K) (row : PortRow)
    (m : gmap K PortRow) : result StateError (gmap K PortRow) :=
  if bool_decide (port row ∈ port_column (delete k m))
  then Err (Sqlite (UniqueViolation (table +:+ ".port")))
  else Ok (<[k := row]> m).

Definition upsert_port (d : Db) (i : PortIdentity) (p : Z) (updated_at : string) :
    result StateError Db :=
  let row := {| port := p; port_updated_at := updated_at |} in
  if uses_resource_ports_table i then
    m ← upsert_port_row "resource_ports" (resource_ports_key i) row (resource_ports d);
    Ok (set_resource_ports (λ _, m) d)
  else
    m ← upsert_port_row "ports" (ports_key i) row (ports d);
    Ok (set_ports (λ _, m) d).

(** ** Operations

    [is_available] is an [FnMut]: it may answer differently each time, so it is
    given the ports it was asked about before. *)

Fixpoint probe (assigned : gset Z) (is_available : list Z → Z → bool) (asked : list Z)
    (l : list Z) : option Z * list Z :=
  match l with
  | [] => (None, asked)
  | candidate :: l =>
      if bool_decide (candidate ∈ assigned) then probe assigned is_available asked l
      else if is_available asked candidate then (Some candidate, asked ++ [candidate])
      else probe assigned is_available (asked ++ [candidate]) l
  end.

Definition no_available_port (name : string) (r : PortRequest) : StateError :=
  NoAvailablePort name (preferred_port r) (fallback_start r) (fallback_end r)
    (length (candidates r)).

Definition assign_port (request : PortRequest) (is_available : list Z → Z → bool) (now : string) :
    Op PortAssignment := transact (λ d,
  i ← identity (owner request);
  existing ← port_assignment d i;
  match existing with
  | Some a => Ok (a, d)
  | None =>
      assigned_ports ← assigned_port_numbers_except d i;
      match (probe assigned_ports is_available [] (candidates request)).1 with
      | Some candidate =>
          d' ← upsert_port d i candidate now;
          Ok ({| assigned_owner := owner request; assigned_port := candidate;
                 assigned_at := now |}, d')
      | None => Err (no_available_port (identity_display_name i) request)
      end
  end).

(** [assign_port_in_transaction]: also threads the set of assigned ports. *)
Definition assign_port_in_transaction (d : Db) (request : PortRequest) (assigned_ports : gset Z)
    (is_available : list Z → Z → bool) (asked : list Z) (now : string) :
    result StateError (PortAssignment * gset Z * list Z * Db) :=
  i ← identity (owner request);
  existing ← port_assignment d i;
  match existing with
  | Some a => Ok (a, {[assigned_port a]} ∪ assigned_ports, asked, d)
  | None =>
      match probe assigned_ports is_available asked (candidates request) with
      | (Some candidate, asked) =>
          d' ← upsert_port d i candidate now;
          Ok ({| assigned_owner := owner request; assigned_port := candidate;
                 assigned_at := now |}, {[candidate]} ∪ assigned_ports, asked, d')
      | (None, _) => Err (no_available_port (owner_display_name (owner request)) request)
      end
  end.

Definition assign_gateway_ports (is_available : list Z → Z → bool) (now_http now_https : string) :
    Op GatewayPortAssignments := transact (λ d,
  assigned_ports ← assigned_port_numbers d;
  '(a, assigned_ports, asked, d) ←
    assign_port_in_transaction d pv_gateway_http assigned_ports is_available [] now_http;
  '(b, _, _, d) ←
    assign_port_in_transaction d pv_gateway_https assigned_ports is_available asked now_https;
  Ok ({| http := a; https := b |}, d)).

Definition release_port (o : PortOwner) : Op bool := λ d,
  match identity o with
  | Err e => (Err e, d)
  | Ok i =>
      if uses_resource_ports_table i
      then (Ok (bool_decide (is_Some (resource_ports d !! resource_ports_key i))),
            set_resource_ports (delete (resource_ports_key i)) d)
      else (Ok (bool_decide (is_Some (ports d !! ports_key i))), set_ports (delete (ports_key i)) d)
  end.

(** [assigned_ports]: the [UNION ALL] of the two tables, ordered. *)
Definition assigned_ports (d : Db) : result StateError (list PortAssignment) :=
  let from_ports := (λ '(k, i, t, row), (k, i, t, ports_owner_port k, row))
                      <$> map_to_list (ports d) in
  let from_resource_ports := (λ '(n, t, p, row), ("resource", n, t, p, row))
                               <$> map_to_list (resource_ports d) in
  try_map (λ '(k, i, t, p, row), into_assignment k i t p row)
    (order_by (λ '(k, i, t, p, _), [k; i; t; p]) (from_ports ++ from_resource_ports)).

(** ** The abstract view: a partial injective map from owners to ports *)

Definition port_of (d : Db) (o : PortOwner) : option PortRow :=
  match identity o with
  | Ok i => if uses_resource_ports_table i then resource_ports d !! resource_ports_key i
            else ports d !! ports_key i
  | Err _ => None
  end.

Definition port_numbers (d : Db) : gset Z :=
  list_to_set (port_column (ports d) ++ port_column (resource_ports d)).

(** Every row belongs to the table its owner uses, every port is a [u16], and no
    port appears twice, not even once in each table. *)
Record ports_wf (d : Db) : Prop := {
  pw_ports : ∀ k row, ports d !! k = Some row →
    is_u16 (port row) = true
    ∧ ∃ o i, identity o = Ok i ∧ uses_resource_ports_table i = false ∧ ports_key i = k;
  pw_resource_ports : ∀ k row, resource_ports d !! k = Some row →
    is_u16 (port row) = true
    ∧ ∃ o i, identity o = Ok i ∧ uses_resource_ports_table i = true ∧ resource_ports_key i = k;
  pw_unique : NoDup (port_column (ports d) ++ port_column (resource_ports d));
}.

(** ** Facts about owners *)

Lemma gateway_port_roundtrip g : gateway_port_from_database (gateway_port_as_str g) = Ok g.
Proof. by destruct g. Qed.

Lemma gateway_port_from_database_ok id g :
  gateway_port_from_database id = Ok g → gateway_port_as_str g = id.
Proof. unfold gateway_port_from_database. repeat case_bool_decide; intros; by simplify_eq. Qed.

Lemma runtime_key_nonempty key : validate_php_runtime_key key = Ok tt → key ≠ "".
Proof. by intros H ->. Qed.

Lemma owner_from_identity o i : identity o = Ok i →
  owner_from_database (owner_kind i) (owner_id i) (owner_track i) (owner_port i) = Ok o.
Proof.
  destruct o as [|g|key|name track port]; unfold owner_from_database; simpl; intros H.
  - by injection H as <-.
  - injection H as <-. simpl. by rewrite gateway_port_roundtrip.
  - inv_ok. simpl. pose proof (runtime_key_nonempty _ E) as Hne.
    rewrite (proj2 (is_empty_false key)) by done. simpl. by rewrite E.
  - inv_ok. simpl. pose proof E as Hn. pose proof E0 as Ht. pose proof E1 as Hp.
    apply ensure_ok, is_identity_nonempty in Hn. apply ensure_ok, is_identity_nonempty in Hp.
    apply validate_concrete_track_ok in Ht as [Ht%is_identity_nonempty _].
    rewrite !(proj2 (is_empty_false _)) by done. simpl. by rewrite E, E0, E1.
Qed.

Lemma identity_from_owner k i t p o : owner_from_database k i t p = Ok o →
  identity o = Ok (Build_PortIdentity k i t p).
Proof.
  unfold owner_from_database. repeat case_bool_decide; subst; try done.
  - destruct (is_empty t) eqn:Ht, (is_empty p) eqn:Hp; simpl; try done.
    apply is_empty_true in Ht, Hp. subst. by intros [= <-].
  - destruct (is_empty t) eqn:Ht, (is_empty p) eqn:Hp; simpl; try done.
    apply is_empty_true in Ht, Hp. subst.
    destruct (gateway_port_from_database i) as [g|] eqn:Hg; simpl; [|done].
    intros [= <-]. apply gateway_port_from_database_ok in Hg. simpl. by rewrite Hg.
  - destruct (is_empty t) eqn:Ht, (is_empty p) eqn:Hp; simpl; try done.
    apply is_empty_true in Hp. subst. intros HH; inv_ok. simpl in *.
    by destruct (validate_php_runtime_key t) as [[]|].
  - destruct (_ && _); [|done]. intros HH; inv_ok. simpl in *.
    destruct (validate_managed_resource_identity "name" i) as [[]|]; simpl in *; [|done].
    destruct (validate_concrete_track t) as [[]|]; simpl in *; [|done].
    by destruct (validate_managed_resource_identity "port" p) as [[]|].
Qed.

Lemma identity_inj o o' i : identity o = Ok i → identity o' = Ok i → o = o'.
Proof. intros H%owner_from_identity H'%owner_from_identity. congruence. Qed.

(** In the [ports] table the port name is implied by the kind. *)
Lemma ports_owner_port_of o i : identity o = Ok i → uses_resource_ports_table i = false →
  ports_owner_port (owner_kind i) = owner_port i.
Proof.
  unfold uses_resource_ports_table. destruct o; simpl; intros H Hu; inv_ok; try done.
  simpl in *. by apply negb_false_iff, bool_decide_eq_true in Hu.
Qed.

Lemma resource_table_kind i : uses_resource_ports_table i = true → owner_kind i = "resource".
Proof. unfold uses_resource_ports_table. intros H. by split_bools. Qed.

Lemma ports_key_inj o o' i i' : identity o = Ok i → identity o' = Ok i' →
  uses_resource_ports_table i = false → uses_resource_ports_table i' = false →
  ports_key i = ports_key i' → o = o'.
Proof.
  intros Hi Hi' Hu Hu' Hk. pose proof (ports_owner_port_of _ _ Hi Hu) as Hp.
  pose proof (ports_owner_port_of _ _ Hi' Hu') as Hp'. injection Hk as Hk1 Hk2 Hk3.
  eapply identity_inj; [exact Hi|]. rewrite Hi'. f_equal. destruct i, i'; simpl in *. congruence.
Qed.

Lemma resource_ports_key_inj o o' i i' : identity o = Ok i → identity o' = Ok i' →
  uses_resource_ports_table i = true → uses_resource_ports_table i' = true →
  resource_ports_key i = resource_ports_key i' → o = o'.
Proof.
  intros Hi Hi' Hu%resource_table_kind Hu'%resource_table_kind Hk. injection Hk as Hk1 Hk2 Hk3.
  eapply identity_inj; [exact Hi|]. rewrite Hi'. f_equal. destruct i, i'; simpl in *. congruence.
Qed.

(** ** Facts about the tables *)

Section column.
Context {K} `{Countable K}.

Lemma elem_of_port_column (m : gmap K PortRow) p :
  p ∈ port_column m ↔ ∃ k row, m !! k = Some row ∧ port row = p.
Proof.
  unfold port_column. rewrite list_elem_of_fmap. split.
  - intros ([k row] & -> & Hin%elem_of_map_to_list). eauto.
  - intros (k & row & Hk & <-). exists (k, row). by rewrite elem_of_map_to_list.
Qed.

Lemma port_column_insert (m : gmap K PortRow) k row : m !! k = None →
  port_column (<[k := row]> m) ≡ₚ port row :: port_column m.
Proof. intros Hk. unfold port_column. by rewrite map_to_list_insert. Qed.

Lemma port_column_delete (m : gmap K PortRow) k row : m !! k = Some row →
  port_column m ≡ₚ port row :: port_column (delete k m).
Proof. intros Hk. rewrite <-port_column_insert by apply lookup_delete_eq. by rewrite insert_delete_id. Qed.

Lemma port_column_inj (m : gmap K PortRow) k k' r r' : NoDup (port_column m) →
  m !! k = Some r → m !! k' = Some r' → port r = port r' → k = k'.
Proof.
  intros Hnd Hk Hk' Heq. destruct (decide (k = k')) as [|Hne]; [done|].
  rewrite (port_column_delete _ _ _ Hk) in Hnd. apply NoDup_cons in Hnd as [Hnd _].
  destruct Hnd. rewrite Heq. apply elem_of_port_column. exists k', r'.
  by rewrite lookup_delete_ne.
Qed.

Lemma upsert_port_row_fresh table (m : gmap K PortRow) k row :
  m !! k = None → port row ∉ port_column m → upsert_port_row table k row m = Ok (<[k := row]> m).
Proof.
  intros Hk Hp. unfold upsert_port_row. rewrite delete_id by done.
  by rewrite bool_decide_eq_false_2.
Qed.
End column.

Lemma port_of_identity d o i : identity o = Ok i →
  port_of d o = if uses_resource_ports_table i then resource_ports d !! resource_ports_key i
                else ports d !! ports_key i.
Proof. unfold port_of. by intros ->. Qed.

Lemma port_of_valid d o row : port_of d o = Some row → ∃ i, identity o = Ok i.
Proof. unfold port_of. destruct (identity o); [eauto|done]. Qed.

Lemma elem_of_port_numbers d p : ports_wf d →
  p ∈ port_numbers d ↔ ∃ o row, port_of d o = Some row ∧ port row = p.
Proof.
  intros Hwf. unfold port_numbers. rewrite elem_of_list_to_set, elem_of_app, !elem_of_port_column. split.
  - intros [(k & row & Hk & Hp)|(k & row & Hk & Hp)].
    + destruct (pw_ports d Hwf k row Hk) as (_ & o & i & Hi & Hu & <-). exists o, row.
      by rewrite (port_of_identity d o i Hi), Hu.
    + destruct (pw_resource_ports d Hwf k row Hk) as (_ & o & i & Hi & Hu & <-). exists o, row.
      by rewrite (port_of_identity d o i Hi), Hu.
  - intros (o & row & Ho & Hp). destruct (port_of_valid _ _ _ Ho) as [i Hi].
    rewrite (port_of_identity d o i Hi) in Ho. case_match; eauto.
Qed.

Lemma port_of_u16 d o row : ports_wf d → port_of d o = Some row → is_u16 (port row) = true.
Proof.
  intros Hwf Ho. destruct (port_of_valid _ _ _ Ho) as [i Hi].
  rewrite (port_of_identity d o i Hi) in Ho.
  case_match; [by eapply pw_resource_ports in Ho as [? _]|by eapply pw_ports in Ho as [? _]].
Qed.

Lemma assigned_port_numbers_ok d : ports_wf d → assigned_port_numbers d = Ok (port_numbers d).
Proof.
  intros Hwf. unfold assigned_port_numbers, port_numbers. rewrite (try_map_ext_ok read_u16 id).
  - simpl. by rewrite list_fmap_id.
  - intros p. rewrite elem_of_app, !elem_of_port_column. unfold read_u16.
    intros [(k & row & Hk & <-)|(k & row & Hk & <-)].
    + by rewrite (proj1 (pw_ports d Hwf k row Hk)).
    + by rewrite (proj1 (pw_resource_ports d Hwf k row Hk)).
Qed.

(** Looking an owner up reads its row back as an assignment of that owner. *)
Lemma port_assignment_ok d o i : ports_wf d → identity o = Ok i →
  port_assignment d i = Ok ((λ row, {| assigned_owner := o; assigned_port := port row;
                                       assigned_at := port_updated_at row |}) <$> port_of d o).
Proof.
  intros Hwf Hi. pose proof (port_of_u16 d o) as Hu16. unfold port_assignment.
  rewrite (port_of_identity d o i Hi) in *. pose proof (owner_from_identity o i Hi) as Hf.
  destruct (uses_resource_ports_table i) eqn:Hu.
  - rewrite (resource_table_kind i Hu) in Hf. destruct (resource_ports d !! _) as [row|]; [|done].
    unfold into_assignment, read_u16. rewrite (Hu16 row) by done. simpl. by rewrite Hf.
  - rewrite (ports_owner_port_of o i Hi Hu). destruct (ports d !! _) as [row|]; [|done].
    unfold into_assignment, read_u16. rewrite (Hu16 row) by done. simpl. by rewrite Hf.
Qed.

(** ** Facts about updates *)

(** Assigning a fresh port to an owner that has none. *)
Lemma upsert_port_spec d o i p now : ports_wf d → identity o = Ok i → port_of d o = None →
  is_u16 p = true → p ∉ port_numbers d →
  ∃ d', upsert_port d i p now = Ok d' ∧ ports_wf d'
    ∧ (∀ o', port_of d' o'
         = (if decide (o' = o) then Some {| port := p; port_updated_at := now |} else port_of d o')).
Proof.
  intros Hwf Hi Hnone Hp Hfresh. rewrite (port_of_identity d o i Hi) in Hnone.
  unfold port_numbers in Hfresh. rewrite elem_of_list_to_set in Hfresh.
  pose proof Hfresh as [Hf1 Hf2]%not_elem_of_app. destruct Hwf as [Hports Hres Hnd].
  unfold upsert_port. destruct (uses_resource_ports_table i) eqn:Hu.
  - rewrite upsert_port_row_fresh by done. eexists. split; [done|]. split; [split|]; simpl.
    + done.
    + intros k row [[<- <-]|[_ Hk]]%lookup_insert_Some; [eauto 10|by apply Hres].
    + rewrite port_column_insert by done. rewrite <-Permutation_middle. by constructor.
    + intros o'. unfold port_of. destruct (identity o') as [i'|] eqn:Hi'; simpl.
      2: { rewrite decide_False; [done|]. intros ->. congruence. }
      destruct (uses_resource_ports_table i') eqn:Hu'.
      * destruct (decide (o' = o)) as [->|Hne].
        -- assert (i' = i) as -> by congruence. by rewrite lookup_insert_eq.
        -- apply lookup_insert_ne. intros Hk. apply Hne. by eapply resource_ports_key_inj.
      * rewrite decide_False; [done|]. intros ->. congruence.
  - rewrite upsert_port_row_fresh by done. eexists. split; [done|]. split; [split|]; simpl.
    + intros k row [[<- <-]|[_ Hk]]%lookup_insert_Some; [eauto 10|by apply Hports].
    + done.
    + rewrite port_column_insert by done. by constructor.
    + intros o'. unfold port_of. destruct (identity o') as [i'|] eqn:Hi'; simpl.
      2: { rewrite decide_False; [done|]. intros ->. congruence. }
      destruct (uses_resource_ports_table i') eqn:Hu'.
      * rewrite decide_False; [done|]. intros ->. congruence.
      * destruct (decide (o' = o)) as [->|Hne].
        -- assert (i' = i) as -> by congruence. by rewrite lookup_insert_eq.
        -- apply lookup_insert_ne. intros Hk. apply Hne. by eapply ports_key_inj.
Qed.

(** ** Facts about probing *)

(** Every port of [l] is refused when it is asked about, in that order. *)
Fixpoint refused (is_available : list Z → Z → bool) (asked l : list Z) : Prop :=
  match l with
  | [] => True
  | p :: l => is_available asked p = false ∧ refused is_available (asked ++ [p]) l
  end.

(** The candidates worth asking about. *)
Definition free (assigned : gset Z) : list Z → list Z := filter (λ p, p ∉ assigned).

Lemma probe_Some assigned avail asked l p asked' :
  probe assigned avail asked l = (Some p, asked') →
  ∃ l1 l2, l = l1 ++ p :: l2 ∧ (p ∉ assigned) ∧ refused avail asked (free assigned l1)
    ∧ avail (asked ++ free assigned l1) p = true.
Proof.
  revert asked. induction l as [|c l IH]; intros asked; simpl; [done|].
  case_bool_decide as Hc.
  - intros (l1 & l2 & -> & Hp & Hr & Ha)%IH. exists (c :: l1), l2.
    unfold free. rewrite filter_cons_False by (by intros []). done.
  - destruct (avail asked c) eqn:Hav.
    + intros [= <- <-]. exists [], l. unfold free. simpl. by rewrite app_nil_r.
    + intros (l1 & l2 & -> & Hp & Hr & Ha)%IH. exists (c :: l1), l2.
      unfold free. rewrite filter_cons_True by done. simpl. by rewrite <-app_assoc in Ha.
Qed.

Lemma probe_None assigned avail asked l asked' :
  probe assigned avail asked l = (None, asked') → refused avail asked (free assigned l).
Proof.
  revert asked. induction l as [|c l IH]; intros asked; simpl; [done|].
  case_bool_decide as Hc.
  - intros H. unfold free. rewrite filter_cons_False by (by intros []). by apply IH.
  - destruct (avail asked c) eqn:Hav; [done|]. intros H. unfold free.
    rewrite filter_cons_True by done. split; [done|by apply IH].
Qed.

(** The request's bounds are [u16]s, as their Rust type says. *)
Definition request_wf (r : PortRequest) : bool :=
  is_u16 (preferred_port r) && is_u16 (fallback_start r) && is_u16 (fallback_end r).

Lemma candidates_u16 r p : request_wf r = true → p ∈ candidates r → is_u16 p = true.
Proof.
  unfold request_wf, is_u16, candidates. intros H. split_bools.
  intros [->|[_ Hp%elem_of_seqZ]%list_elem_of_filter]%elem_of_cons; [lia|]. lia.
Qed.

#[local] Arguments upsert_port : simpl never.
#[local] Arguments candidates : simpl never.

(** What [assign_port] and [assign_port_in_transaction] do for an owner without a
    port: the first candidate that no owner has and that is available. *)
Definition first_free (d : Db) (r : PortRequest) (avail : list Z → Z → bool) (asked : list Z) (p : Z) :
    Prop :=
  ∃ before after, candidates r = before ++ p :: after
    ∧ (p ∉ port_numbers d)
    ∧ refused avail asked (free (port_numbers d) before)
    ∧ avail (asked ++ free (port_numbers d) before) p = true.

Definition assigned_to (d d' : Db) (o : PortOwner) (p : Z) (now : string) : Prop :=
  ∀ o', port_of d' o'
    = (if decide (o' = o) then Some {| port := p; port_updated_at := now |} else port_of d o').

Lemma assign_port_in_transaction_spec d r avail asked now :
  ports_wf d → request_wf r = true → is_ok (identity (owner r)) = true →
  (∃ a row, port_of d (owner r) = Some row
     ∧ assign_port_in_transaction d r (port_numbers d) avail asked now
       = Ok (a, port_numbers d, asked, d)
     ∧ assigned_owner a = owner r ∧ assigned_port a = port row)
  ∨ (∃ a d' asked', port_of d (owner r) = None
     ∧ assign_port_in_transaction d r (port_numbers d) avail asked now
       = Ok (a, port_numbers d', asked', d')
     ∧ ports_wf d' ∧ first_free d r avail asked (assigned_port a) ∧ assigned_owner a = owner r
     ∧ assigned_to d d' (owner r) (assigned_port a) now)
  ∨ (port_of d (owner r) = None
     ∧ assign_port_in_transaction d r (port_numbers d) avail asked now
       = Err (no_available_port (owner_display_name (owner r)) r)
     ∧ refused avail asked (free (port_numbers d) (candidates r))).
Proof.
  intros Hwf Hr Hid. destruct (identity (owner r)) as [i|] eqn:Hi; [|done]. clear Hid.
  unfold assign_port_in_transaction. rewrite Hi. cbn [mbind result_bind].
  rewrite (port_assignment_ok d (owner r) i Hwf Hi). cbn [mbind result_bind].
  destruct (port_of d (owner r)) as [row|] eqn:Hrow; cbn [fmap option_fmap option_map].
  - left. exists {| assigned_owner := owner r; assigned_port := port row;
                    assigned_at := port_updated_at row |}, row. split_and!; [done| |done..].
    do 4 f_equal. simpl. assert (port row ∈ port_numbers d); [|set_solver].
    apply elem_of_port_numbers; eauto.
  - right. destruct (probe _ _ _ _) as [[p|] asked'] eqn:Hp.
    + left. destruct (probe_Some _ _ _ _ _ _ Hp) as (before & after & Hc & Hfresh & Href & Hav).
      destruct (upsert_port_spec d (owner r) i p now) as (d' & -> & Hwf' & Hd'); [done..| |done|].
      { eapply candidates_u16; [done|]. rewrite Hc. set_solver. }
      exists {| assigned_owner := owner r; assigned_port := p; assigned_at := now |}, d', asked'.
      split_and!; [done| |done| |done|done].
      * simpl. do 4 f_equal. apply leibniz_equiv. intros q. rewrite elem_of_union, elem_of_singleton.
        rewrite !elem_of_port_numbers by done. setoid_rewrite Hd'. split.
        -- intros [->|(o & row & Ho & <-)].
           ++ exists (owner r). eexists. by rewrite decide_True.
           ++ exists o, row. rewrite decide_False; [done|]. intros ->. congruence.
        -- intros (o & row & Ho & <-). case_decide; [|by eauto]. by simplify_eq; left.
      * simpl. by exists before, after.
    + right. split_and!; [done..|]. by eapply probe_None.
Qed.

(** [assign_port] is [assign_port_in_transaction] with its own text for the owner. *)
Definition retitle (i : PortIdentity) (r : PortRequest) (e : StateError) : StateError :=
  match e with
  | NoAvailablePort _ _ _ _ _ => no_available_port (identity_display_name i) r
  | e => e
  end.

Lemma assign_port_eq d r avail now i : ports_wf d → identity (owner r) = Ok i →
  assign_port r avail now d
  = match assign_port_in_transaction d r (port_numbers d) avail [] now with
    | Ok (a, _, _, d') => (Ok a, d')
    | Err e => (Err (retitle i r e), d)
    end.
Proof.
  intros Hwf Hi. unfold assign_port, assign_port_in_transaction, transact,
    assigned_port_numbers_except. rewrite Hi. cbn [mbind result_bind].
  rewrite (port_assignment_ok d (owner r) i Hwf Hi), (assigned_port_numbers_ok d Hwf).
  destruct (port_of d (owner r)) as [row|]; [done|]. cbn [mbind result_bind fmap option_fmap option_map].
  destruct (probe _ _ _ _) as [[p|] asked]; [|done]. cbn [fst].
  unfold upsert_port, upsert_port_row.
  destruct (uses_resource_ports_table i); case_bool_decide; done.
Qed.

(** Distinct owners never share a port. *)
Lemma port_of_inj d o o' row row' : ports_wf d →
  port_of d o = Some row → port_of d o' = Some row' → port row = port row' → o = o'.
Proof.
  intros [Hp Hr Hnd] Ho Ho' Heq. destruct (port_of_valid _ _ _ Ho) as [i Hi].
  destruct (port_of_valid _ _ _ Ho') as [i' Hi'].
  rewrite (port_of_identity d _ _ Hi) in Ho. rewrite (port_of_identity d _ _ Hi') in Ho'.
  apply NoDup_app in Hnd as (Hnd1 & Hdisj & Hnd2).
  assert (∀ k k' r r', ports d !! k = Some r → resource_ports d !! k' = Some r' → port r ≠ port r')
    as Hcross.
  { intros k k' r r' Hk Hk' He. apply (Hdisj (port r)); apply elem_of_port_column; eauto. }
  destruct (uses_resource_ports_table i) eqn:Hu, (uses_resource_ports_table i') eqn:Hu'.
  - eapply resource_ports_key_inj; [exact Hi|exact Hi'|done..|].
    exact (port_column_inj _ _ _ _ _ Hnd2 Ho Ho' Heq).
  - by destruct (Hcross _ _ _ _ Ho' Ho).
  - by destruct (Hcross _ _ _ _ Ho Ho').
  - eapply ports_key_inj; [exact Hi|exact Hi'|done..|].
    exact (port_column_inj _ _ _ _ _ Hnd1 Ho Ho' Heq).
Qed.

Lemma ports_wf_delete_resource d k : ports_wf d → ports_wf (set_resource_ports (delete k) d).
Proof.
  intros [Hp Hr Hnd]. split; simpl; [done| |].
  - intros k' row [_ Hk]%lookup_delete_Some. by apply Hr.
  - destruct (resource_ports d !! k) as [row|] eqn:Hk; [|by rewrite delete_id].
    rewrite (port_column_delete _ _ _ Hk), <-Permutation_middle in Hnd. by apply NoDup_cons in Hnd as [_ ?].
Qed.

Lemma ports_wf_delete_ports d k : ports_wf d → ports_wf (set_ports (delete k) d).
Proof.
  intros [Hp Hr Hnd]. split; simpl; [|done|].
  - intros k' row [_ Hk]%lookup_delete_Some. by apply Hp.
  - destruct (ports d !! k) as [row|] eqn:Hk; [|by rewrite delete_id].
    rewrite (port_column_delete _ _ _ Hk) in Hnd. by apply NoDup_cons in Hnd as [_ ?].
Qed.

(** One of the two gateway steps, seen from outside. *)
Lemma gateway_step d r avail asked now : ports_wf d → request_wf r = true →
  is_ok (identity (owner r)) = true →
  (∃ a d' asked', assign_port_in_transaction d r (port_numbers d) avail asked now
       = Ok (a, port_numbers d', asked', d')
     ∧ ports_wf d' ∧ port <$> port_of d' (owner r) = Some (assigned_port a)
     ∧ ∀ o, o ≠ owner r → port_of d' o = port_of d o)
  ∨ assign_port_in_transaction d r (port_numbers d) avail asked now
    = Err (no_available_port (owner_display_name (owner r)) r).
Proof.
  intros Hwf Hr Hid. destruct (assign_port_in_transaction_spec d r avail asked now Hwf Hr Hid)
    as [(a & row & Ho & -> & ? & Hp)|[(a & d' & asked' & Ho & -> & ? & ? & ? & Hto)|(Ho & -> & ?)]].
  - left. exists a, d, asked. by rewrite Ho, Hp.
  - left. exists a, d', asked'. split_and!; [done..| |].
    + by rewrite Hto, decide_True.
    + intros o Hne. by rewrite Hto, decide_False.
  - by right.
Qed.

(** ** Properties *)

(** The columns stored for a port owner identify it: a row reads back as an
    owner exactly when they are the columns that owner writes. *)
Theorem port_owner_roundtrip o k i t p :
  identity o = Ok (Build_PortIdentity k i t p) ↔ owner_from_database k i t p = Ok o.
Proof. split; [apply (owner_from_identity o (Build_PortIdentity k i t p))|apply identity_from_owner]. Qed.

(** Assigning a port.  On a well-formed database a valid owner either keeps the
    port it has and nothing changes; or it gets the first candidate, in the order
    preferred port then fallback range, that no owner has and that is available,
    only that owner's port changes, and the database stays well formed; or every
    candidate is taken or refused, the error reports it, and nothing changes. *)
Theorem assign_port_spec d r avail now i :
  ports_wf d → request_wf r = true → identity (owner r) = Ok i →
  (∃ row a, port_of d (owner r) = Some row ∧ assign_port r avail now d = (Ok a, d)
     ∧ assigned_owner a = owner r ∧ assigned_port a = port row)
  ∨ (∃ a d', port_of d (owner r) = None ∧ assign_port r avail now d = (Ok a, d')
     ∧ assigned_owner a = owner r ∧ first_free d r avail [] (assigned_port a)
     ∧ assigned_to d d' (owner r) (assigned_port a) now ∧ ports_wf d')
  ∨ (port_of d (owner r) = None
     ∧ assign_port r avail now d = (Err (no_available_port (identity_display_name i) r), d)
     ∧ refused avail [] (free (port_numbers d) (candidates r))).
Proof.
  intros Hwf Hr Hi. rewrite (assign_port_eq d r avail now i Hwf Hi).
  destruct (assign_port_in_transaction_spec d r avail [] now Hwf Hr ltac:(by rewrite Hi))
    as [(a & row & Ho & -> & ? & ?)|[(a & d' & asked & Ho & -> & ? & ? & ? & ?)|(Ho & -> & ?)]].
  - left. by exists row, a.
  - right; left. by exists a, d'.
  - right; right. done.
Qed.

(** A database in which DNS holds the port the gateway prefers. *)
Definition sample_ports_db : Db :=
  set_ports (λ _, {[ ("dns", "dns", "") := {| port := 48080; port_updated_at := "t0" |} ]}) empty_db.

Lemma sample_ports_wf : ports_wf sample_ports_db.
Proof.
  split; simpl.
  - intros k row [<- <-]%lookup_singleton_Some. split; [done|]. by eexists Dns, _.
  - intros k row. by rewrite lookup_empty.
  - assert (port_column (ports sample_ports_db) = [48080%Z]) as Hc by by vm_compute.
    simpl in Hc. rewrite Hc. apply NoDup_singleton.
Qed.

Lemma assign_port_spec_witness :
  (assign_port pv_gateway_http (λ _ p, negb (p =? 45000)%Z) "t1" sample_ports_db).1
    = Ok {| assigned_owner := Gateway Http; assigned_port := 45001; assigned_at := "t1" |}
  ∧ ports_wf (assign_port pv_gateway_http (λ _ p, negb (p =? 45000)%Z) "t1" sample_ports_db).2.
Proof.
  split; [by vm_compute|].
  destruct (assign_port_spec sample_ports_db pv_gateway_http (λ _ p, negb (p =? 45000)%Z) "t1"
              (Build_PortIdentity "gateway" "http" "" "") sample_ports_wf eq_refl eq_refl)
    as [(row & a & _ & -> & _)|[(a & d' & _ & -> & _ & _ & _ & Hwf)|(_ & -> & _)]];
    [exact sample_ports_wf|exact Hwf|exact sample_ports_wf].
Defined.

(** The two gateway ports are assigned together or not at all: a success leaves
    a well-formed database in which HTTP and HTTPS own the returned, distinct
    ports and no other owner's port changed; a failure is the exhaustion of one of
    the two requests and changes nothing. *)
Theorem assign_gateway_ports_spec d avail now1 now2 :
  ports_wf d →
  (∃ g d', assign_gateway_ports avail now1 now2 d = (Ok g, d') ∧ ports_wf d'
     ∧ port <$> port_of d' (Gateway Http) = Some (assigned_port (http g))
     ∧ port <$> port_of d' (Gateway Https) = Some (assigned_port (https g))
     ∧ assigned_port (http g) ≠ assigned_port (https g)
     ∧ ∀ o, o ≠ Gateway Http → o ≠ Gateway Https → port_of d' o = port_of d o)
  ∨ ∃ r, (r = pv_gateway_http ∨ r = pv_gateway_https)
     ∧ assign_gateway_ports avail now1 now2 d
       = (Err (no_available_port (owner_display_name (owner r)) r), d).
Proof.
  intros Hwf. unfold assign_gateway_ports, transact.
  rewrite (assigned_port_numbers_ok d Hwf). cbn [mbind result_bind].
  assert (∃ r1, r1 = pv_gateway_http ∧ owner r1 = Gateway Http ∧ request_wf r1 = true) as (r1 & <- & Ho1 & Hr1)
    by (exists pv_gateway_http; by split_and!).
  assert (∃ r2, r2 = pv_gateway_https ∧ owner r2 = Gateway Https ∧ request_wf r2 = true) as (r2 & <- & Ho2 & Hr2)
    by (exists pv_gateway_https; by split_and!).
  destruct (gateway_step d r1 avail [] now1 Hwf Hr1 ltac:(by rewrite Ho1))
    as [(a & d1 & asked & -> & Hwf1 & Ha & Hrest)| ->]; [|by right; eauto].
  cbn [mbind result_bind].
  destruct (gateway_step d1 r2 avail asked now2 Hwf1 Hr2 ltac:(by rewrite Ho2))
    as [(b & d2 & asked' & -> & Hwf2 & Hb & Hrest2)| ->]; [|by right; eauto].
  left. exists {| http := a; https := b |}, d2. rewrite Ho1 in Ha, Hrest. rewrite Ho2 in Hb, Hrest2.
  simpl. split_and!; [done|done| |done| |].
  - by rewrite Hrest2.
  - rewrite <-(Hrest2 (Gateway Http)) in Ha by done. intros Heq.
    apply fmap_Some in Ha as (ra & Ha & Hpa). apply fmap_Some in Hb as (rb & Hb & Hpb).
    discriminate (port_of_inj d2 (Gateway Http) (Gateway Https) ra rb Hwf2 Ha Hb ltac:(congruence)).
  - intros o H1 H2. by rewrite Hrest2, Hrest.
Qed.

Lemma assign_gateway_ports_spec_witness :
  ∃ g d', assign_gateway_ports (λ _ _, true) "t1" "t2" sample_ports_db = (Ok g, d')
    ∧ assigned_port (http g) = 45000%Z ∧ assigned_port (https g) = 48443%Z ∧ ports_wf d'.
Proof.
  assert ((λ r, (λ g, (assigned_port (http g), assigned_port (https g))) <$> r)
            (assign_gateway_ports (λ _ _, true) "t1" "t2" sample_ports_db).1
          = Ok (45000, 48443)%Z) as Hv by by vm_compute.
  destruct (assign_gateway_ports_spec sample_ports_db (λ _ _, true) "t1" "t2" sample_ports_wf)
    as [(g & d' & Heq & Hwf & _)|(r & _ & Heq)]; rewrite Heq in Hv; simpl in Hv; [|discriminate Hv].
  injection Hv as H1 H2. exists g, d'. split_and!; done.
Defined.

(** Releasing a port removes exactly that owner's row, and reports whether
    there was one; an owner that cannot have a port is refused and nothing changes. *)
Theorem release_port_spec d o : ports_wf d →
  match identity o with
  | Ok _ => ∃ d', release_port o d = (Ok (option_bool (port_of d o)), d') ∧ ports_wf d'
      ∧ ∀ o', port_of d' o' = (if decide (o' = o) then None else port_of d o')
  | Err e => release_port o d = (Err e, d)
  end.
Proof.
  intros Hwf. unfold release_port. destruct (identity o) as [i|e] eqn:Hi; [|done].
  rewrite (port_of_identity d o i Hi). destruct (uses_resource_ports_table i) eqn:Hu.
  - eexists. split_and!; [|by apply ports_wf_delete_resource|].
    + do 2 f_equal. by destruct (resource_ports d !! _).
    + intros o'. unfold port_of. destruct (identity o') as [i'|] eqn:Hi'; [|by case_decide].
      simpl. destruct (uses_resource_ports_table i') eqn:Hu';
        [|rewrite decide_False; [done|intros ->; congruence]].
      destruct (decide (o' = o)) as [->|Hne].
      * assert (i' = i) as -> by congruence. apply lookup_delete_eq.
      * apply lookup_delete_ne. intros Hk. apply Hne. by eapply resource_ports_key_inj.
  - eexists. split_and!; [|by apply ports_wf_delete_ports|].
    + do 2 f_equal. by destruct (ports d !! _).
    + intros o'. unfold port_of. destruct (identity o') as [i'|] eqn:Hi'; [|by case_decide].
      simpl. destruct (uses_resource_ports_table i') eqn:Hu';
        [rewrite decide_False; [done|intros ->; congruence]|].
      destruct (decide (o' = o)) as [->|Hne].
      * assert (i' = i) as -> by congruence. apply lookup_delete_eq.
      * apply lookup_delete_ne. intros Hk. apply Hne. by eapply ports_key_inj.
Qed.

Lemma release_port_spec_witness :
  ∃ d', release_port Dns sample_ports_db = (Ok true, d') ∧ port_of d' Dns = None ∧ ports_wf d'.
Proof.
  destruct (release_port_spec sample_ports_db Dns sample_ports_wf) as (d' & Heq & Hwf & Hd').
  exists d'. split_and!; [exact Heq| |exact Hwf]. by rewrite Hd', decide_True.
Defined.

(** The candidates of a request: the preferred port, then every other port of
    the inclusive fallback range exactly once, in increasing order; an empty range
    leaves only the preferred port. *)
Theorem candidates_spec r : ∃ rest, candidates r = preferred_port r :: rest
  ∧ StronglySorted Z.lt rest
  ∧ ∀ p, p ∈ rest ↔ (fallback_start r ≤ p ≤ fallback_end r)%Z ∧ p ≠ preferred_port r.
Proof.
  eexists. split; [done|]. split.
  - apply StronglySorted_filter, seqZ_sorted.
  - intros p. rewrite list_elem_of_filter, elem_of_seqZ. lia.
Qed.
