(* ===== verification/StateResources.v ===== *)
(** * Managed Resource tracks and Project requirements:
    the [managed_resource_tracks] and [project_managed_resources] operations of
    [state/src/database.rs], with the usage-count triggers of
    [state/src/sql/005_project_resource_requirements.sql] *)

From S2P Require Import Prelude RustStr Paths StateTypes StateDb.

(** ** Records *)

Record ManagedResourceTrackRecord := {
  tr_resource_name : string;
  tr_track : string;
  tr_desired_state : ManagedResourceDesiredState;
  tr_installed_version : option string;
  tr_current_artifact_path : option string;
  tr_env : gmap string string;
  tr_usage_count : Z;
  tr_removal_prune : bool;
  tr_removal_force : bool;
  tr_updated_at : string;
}.

Record ManagedResourceTrackInstallInput := {
  in_resource_name : string; in_track : string;
  in_installed_version : string; in_current_artifact_path : string;
}.
Record ManagedResourceTrackRemovalInput := {
  rm_resource_name : string; rm_track : string; rm_prune : bool; rm_force : bool;
}.

Record ProjectManagedResourceInput := { ri_resource_name : string; ri_track : string }.
Record ProjectManagedResourceRecord := {
  rr_project_id : string; rr_resource_name : string; rr_track : string;
  rr_created_at : string; rr_updated_at : string;
}.

(** ** Usage counts *)

(** [SELECT COUNT( * ) FROM project_managed_resources WHERE resource_name = .. AND track = ..]. *)
Definition count_requirements (reqs : gmap (string * string) RequirementRow) (k : string * string) : Z :=
  Z.of_nat (length (filter (λ '(pn, row), pn.2 = k.1 ∧ q_track row = k.2) (map_to_list reqs))).

Definition with_usage (n : Z) (row : TrackRow) : TrackRow :=
  {| t_desired_state := t_desired_state row; t_installed_version := t_installed_version row;
     t_current_artifact_path := t_current_artifact_path row; t_usage_count := n;
     t_env_json := t_env_json row; t_removal_prune := t_removal_prune row;
     t_removal_force := t_removal_force row; t_updated_at := t_updated_at row |}.

(** The body the three triggers share. *)
Definition refresh_usage (k : string * string) (d : Db) : Db :=
  set_managed_resource_tracks (alter (with_usage (count_requirements (project_managed_resources d) k)) k) d.

Definition recalculate_managed_resource_usage_counts (d : Db) : Db :=
  set_managed_resource_tracks
    (map_imap (λ k row, Some (with_usage (count_requirements (project_managed_resources d) k) row))) d.

(** ** Tracks *)

Section tracks.
Context `{Json}.

Definition track_into_record (k : string * string) (row : TrackRow) :
    result StateError ManagedResourceTrackRecord :=
  _ ← validate_managed_resource_identity "name" k.1;
  _ ← validate_managed_resource_identity "track" k.2;
  _ ← match t_installed_version row with
      | Some v => validate_managed_resource_identity "artifact version" v
      | None => Ok tt
      end;
  desired ← desired_state_from_database (t_desired_state row);
  env ← parse_env_context
          ("managed resource " +:+ debug_str k.1 +:+ " track " +:+ debug_str k.2) (t_env_json row);
  Ok {| tr_resource_name := k.1; tr_track := k.2; tr_desired_state := desired;
        tr_installed_version := t_installed_version row;
        tr_current_artifact_path := t_current_artifact_path row; tr_env := env;
        tr_usage_count := t_usage_count row; tr_removal_prune := t_removal_prune row;
        tr_removal_force := t_removal_force row; tr_updated_at := t_updated_at row |}.

Definition managed_resource_track (resource_name track : string) (d : Db) :
    result StateError ManagedResourceTrackRecord :=
  row ← ok_or (managed_resource_tracks d !! (resource_name, track)) (Sqlite QueryReturnedNoRows);
  track_into_record (resource_name, track) row.

(** [Database::managed_resource_tracks]. *)
Definition list_managed_resource_tracks (d : Db) :
    result StateError (list ManagedResourceTrackRecord) :=
  try_map (λ '(k, row), track_into_record k row)
    (order_by (λ '(k, _), [k.1; k.2]) (map_to_list (managed_resource_tracks d))).

(** [INSERT .. ON CONFLICT(resource_name, track) DO UPDATE]. *)
Definition upsert_track (resource_name track : string) (fresh : TrackRow)
    (update : TrackRow → TrackRow) : Db → Db :=
  set_managed_resource_tracks (partial_alter
    (λ old, Some (match old with Some row => update row | None => fresh end))
    (resource_name, track)).

Definition fresh_track (desired : string) (version path : option string) (env_json : string)
    (prune force : bool) (now : string) : TrackRow :=
  {| t_desired_state := desired; t_installed_version := version; t_current_artifact_path := path;
     t_usage_count := 0; t_env_json := env_json; t_removal_prune := prune;
     t_removal_force := force; t_updated_at := now |}.

(** The update of one row, column by column. *)
Definition update_track (desired : string) (version path : option string) (env_json : string)
    (prune force : bool) (now : string) (row : TrackRow) : TrackRow :=
  {| t_desired_state := desired; t_installed_version := version; t_current_artifact_path := path;
     t_usage_count := t_usage_count row; t_env_json := env_json; t_removal_prune := prune;
     t_removal_force := force; t_updated_at := now |}.

Definition set_desired (desired : string) (prune force : bool) (now : string) (row : TrackRow) :
    TrackRow :=
  update_track desired (t_installed_version row) (t_current_artifact_path row) (t_env_json row)
    prune force now row.

Definition record_managed_resource_track_desired (resource_name track : string)
    (desired_state : ManagedResourceDesiredState) (now : string) : Op ManagedResourceTrackRecord :=
  autocommit (λ d,
      _ ← validate_managed_resource_identity "name" resource_name;
      _ ← validate_concrete_track track;
      Ok (upsert_track resource_name track
            (fresh_track (as_str desired_state) None None "{}" false false now)
            (set_desired (as_str desired_state) false false now) d))
    (managed_resource_track resource_name track).

Definition upsert_removal_intent (resource_name track : string) (prune force : bool) (now : string) :
    Db → Db :=
  upsert_track resource_name track
    (fresh_track (as_str Removed) None None "{}" prune force now)
    (set_desired (as_str Removed) prune force now).

Definition record_managed_resource_track_removal_intent (resource_name track : string)
    (prune force : bool) (now : string) : Op ManagedResourceTrackRecord :=
  autocommit (λ d,
      _ ← validate_managed_resource_identity "name" resource_name;
      _ ← validate_concrete_track track;
      Ok (upsert_removal_intent resource_name track prune force now d))
    (managed_resource_track resource_name track).

Definition record_managed_resource_tracks_removal_intent
    (removals : list ManagedResourceTrackRemovalInput) (now : string) :
    Op (list ManagedResourceTrackRecord) :=
  autocommit (λ d,
      _ ← try_iter (λ r, _ ← validate_managed_resource_identity "name" (rm_resource_name r);
                         validate_concrete_track (rm_track r)) removals;
      Ok (foldl (λ d r, upsert_removal_intent (rm_resource_name r) (rm_track r) (rm_prune r)
                          (rm_force r) now d) d removals))
    (λ d, try_map (λ r, managed_resource_track (rm_resource_name r) (rm_track r) d) removals).

Definition record_managed_resource_track_installed
    (resource_name track installed_version current_artifact_path : string) (now : string) :
    Op ManagedResourceTrackRecord :=
  autocommit (λ d,
      _ ← validate_managed_resource_identity "name" resource_name;
      _ ← validate_concrete_track track;
      _ ← validate_managed_resource_identity "artifact version" installed_version;
      Ok (upsert_track resource_name track
            (fresh_track (as_str Installed) (Some installed_version) (Some current_artifact_path)
               "{}" false false now)
            (λ row, update_track (t_desired_state row) (Some installed_version)
                      (Some current_artifact_path) (t_env_json row) (t_removal_prune row)
                      (t_removal_force row) now row) d))
    (managed_resource_track resource_name track).

Definition upsert_desired_and_installed (i : ManagedResourceTrackInstallInput) (now : string) :
    Db → Db :=
  upsert_track (in_resource_name i) (in_track i)
    (fresh_track (as_str Installed) (Some (in_installed_version i))
       (Some (in_current_artifact_path i)) "{}" false false now)
    (λ row, update_track (as_str Installed) (Some (in_installed_version i))
              (Some (in_current_artifact_path i)) (t_env_json row) false false now row).

Definition record_managed_resource_tracks_desired_and_installed
    (installs : list ManagedResourceTrackInstallInput) (now : string) :
    Op (list ManagedResourceTrackRecord) :=
  autocommit (λ d,
      _ ← try_iter (λ i, _ ← validate_managed_resource_identity "name" (in_resource_name i);
                         _ ← validate_concrete_track (in_track i);
                         validate_managed_resource_identity "artifact version"
                           (in_installed_version i)) installs;
      Ok (foldl (λ d i, upsert_desired_and_installed i now d) d installs))
    (λ d, try_map (λ i, managed_resource_track (in_resource_name i) (in_track i) d) installs).

Definition record_managed_resource_track_env_context (resource_name track : string)
    (env : gmap string string) (now : string) : Op ManagedResourceTrackRecord :=
  autocommit (λ d,
      _ ← validate_managed_resource_identity "name" resource_name;
      _ ← validate_concrete_track track;
      env_json ← serialize_env_context
        ("managed resource " +:+ debug_str resource_name +:+ " track " +:+ debug_str track) env;
      Ok (upsert_track resource_name track
            (fresh_track (as_str Installed) None None env_json false false now)
            (λ row, update_track (t_desired_state row) (t_installed_version row)
                      (t_current_artifact_path row) env_json (t_removal_prune row)
                      (t_removal_force row) now row) d))
    (managed_resource_track resource_name track).
End tracks.

(** ** Requirements *)

(** A track marked as removed whose artifact is still there keeps its removal: the
    [CASE] expressions of [upsert_managed_resource_track_desired_in_transaction]. *)
Definition removal_pending (row : TrackRow) : bool :=
  bool_decide (t_desired_state row = "removed") && option_bool (t_current_artifact_path row).

Definition redesire (now : string) (row : TrackRow) : TrackRow :=
  if removal_pending row
  then set_desired (t_desired_state row) (t_removal_prune row) (t_removal_force row) now row
  else set_desired (as_str Installed) false false now row.

Definition upsert_desired (resource_name track now : string) : Db → Db :=
  upsert_track resource_name track (fresh_track (as_str Installed) None None "{}" false false now)
    (redesire now).

(** [INSERT INTO project_managed_resources .. ON CONFLICT(project_id, resource_name)
    DO UPDATE], with its foreign keys and triggers. *)
Definition upsert_requirement (project_id resource_name track now : string) (d : Db) :
    result StateError Db :=
  if negb (option_bool (projects d !! project_id))
     || negb (option_bool (managed_resource_tracks d !! (resource_name, track)))
  then Err (Sqlite (ForeignKeyViolation "project_managed_resources"))
  else
    let key := (project_id, resource_name) in
    let insert row := set_project_managed_resources (<[key := row]>) d in
    match project_managed_resources d !! key with
    | None =>
        Ok (refresh_usage (resource_name, track)
              (insert {| q_track := track; q_created_at := now; q_updated_at := now |}))
    | Some old =>
        Ok (refresh_usage (resource_name, track)
             (refresh_usage (resource_name, q_track old)
               (insert {| q_track := track; q_created_at := q_created_at old; q_updated_at := now |})))
    end.

(** [DELETE FROM project_managed_resources] of one row, with its trigger. *)
Definition delete_requirement (key : string * string) (d : Db) : Db :=
  match project_managed_resources d !! key with
  | None => d
  | Some row => refresh_usage (key.2, q_track row) (set_project_managed_resources (delete key) d)
  end.

Definition validate_project_managed_resource_inputs (requirements : list ProjectManagedResourceInput) :
    result StateError unit :=
  _ ← try_fold (λ (names : gset string) r,
        _ ← validate_managed_resource_identity "name" (ri_resource_name r);
        _ ← validate_concrete_track (ri_track r);
        if bool_decide (ri_resource_name r ∈ names)
        then Err (InvalidManagedResourceIdentity "name" (ri_resource_name r))
        else Ok ({[ri_resource_name r]} ∪ names)) requirements ∅;
  Ok tt.

Definition ensure_project_exists (project_id : string) (d : Db) : result StateError unit :=
  ensure (option_bool (projects d !! project_id)) (ProjectNotFound project_id).

Definition project_requirements (project_id : string) (d : Db) :
    list (string * RequirementRow) :=
  sort_on fst (omap (λ '(pn, row), if bool_decide (pn.1 = project_id) then Some (pn.2, row) else None)
                 (map_to_list (project_managed_resources d))).

Definition project_managed_resource_names (project_id : string) (d : Db) : list string :=
  (project_requirements project_id d).*1.

Definition requirement_into_record (project_id resource_name : string) (row : RequirementRow) :
    result StateError ProjectManagedResourceRecord :=
  _ ← validate_managed_resource_identity "name" resource_name;
  _ ← validate_managed_resource_identity "track" (q_track row);
  Ok {| rr_project_id := project_id; rr_resource_name := resource_name; rr_track := q_track row;
        rr_created_at := q_created_at row; rr_updated_at := q_updated_at row |}.

(** [Database::project_managed_resources]. *)
Definition list_project_managed_resources (project_id : string) (d : Db) :
    result StateError (list ProjectManagedResourceRecord) :=
  try_map (λ '(name, row), requirement_into_record project_id name row)
    (project_requirements project_id d).

Definition require_step (project_id now : string) (d : Db) (r : ProjectManagedResourceInput) :
    result StateError Db :=
  upsert_requirement project_id (ri_resource_name r) (ri_track r) now
    (upsert_desired (ri_resource_name r) (ri_track r) now d).

Definition replace_project_managed_resources (project_id : string)
    (requirements : list ProjectManagedResourceInput) (now : string) :
    Op (list ProjectManagedResourceRecord) := transact (λ d,
  _ ← validate_project_managed_resource_inputs requirements;
  _ ← ensure_project_exists project_id d;
  d ← try_fold (require_step project_id now) requirements d;
  let desired_resources := ri_resource_name <$> requirements in
  let existing_resources := project_managed_resource_names project_id d in
  let d := foldl (λ d name, if bool_decide (name ∈ desired_resources) then d
                            else delete_requirement (project_id, name) d) d existing_resources in
  let d := recalculate_managed_resource_usage_counts d in
  records ← list_project_managed_resources project_id d;
  Ok (records, d)).

(** ** Well-formedness *)

Record resources_wf `{Json} (d : Db) : Prop := {
  rw_usage : ∀ k row, managed_resource_tracks d !! k = Some row →
    t_usage_count row = count_requirements (project_managed_resources d) k;
  rw_project : ∀ p n q, project_managed_resources d !! (p, n) = Some q → is_Some (projects d !! p);
  rw_track : ∀ p n q, project_managed_resources d !! (p, n) = Some q →
    is_Some (managed_resource_tracks d !! (n, q_track q));
  rw_track_row : ∀ k row, managed_resource_tracks d !! k = Some row →
    is_ok (track_into_record k row) = true;
}.

(** ** Facts about counts *)

Definition requires (pn : string * string) (q : RequirementRow) (k : string * string) : Prop :=
  pn.2 = k.1 ∧ q_track q = k.2.

Lemma count_insert m pn q k : m !! pn = None →
  count_requirements (<[pn := q]> m) k
  = (count_requirements m k + if decide (requires pn q k) then 1 else 0)%Z.
Proof.
  intros Hn. unfold count_requirements. rewrite (map_to_list_insert m pn q Hn), filter_cons.
  repeat case_decide; unfold requires in *; simpl in *; try tauto; simpl; lia.
Qed.

Lemma count_delete m pn q k : m !! pn = Some q →
  count_requirements m k
  = (count_requirements (delete pn m) k + if decide (requires pn q k) then 1 else 0)%Z.
Proof.
  intros Hk. rewrite <-count_insert by apply lookup_delete_eq. by rewrite insert_delete_id.
Qed.

Lemma count_overwrite m pn q q' k : m !! pn = Some q →
  ¬ requires pn q k → ¬ requires pn q' k →
  count_requirements (<[pn := q']> m) k = count_requirements m k.
Proof.
  intros Hk Hq Hq'. rewrite <-insert_delete_eq, count_insert by apply lookup_delete_eq.
  rewrite (count_delete m pn q k Hk). by rewrite !decide_False.
Qed.

(** ** Rows up to their usage count *)

Definition tracks_of (d : Db) : gmap (string * string) TrackRow :=
  with_usage 0 <$> managed_resource_tracks d.

Lemma with_usage_idemp n m row : with_usage n (with_usage m row) = with_usage n row.
Proof. done. Qed.

Lemma tracks_of_refresh k d : tracks_of (refresh_usage k d) = tracks_of d.
Proof.
  apply map_eq. intros k'. unfold tracks_of, refresh_usage. simpl. rewrite !lookup_fmap.
  destruct (decide (k = k')) as [->|]; [rewrite lookup_alter_eq|by rewrite lookup_alter_ne].
  by destruct (managed_resource_tracks d !! k').
Qed.

Lemma tracks_of_recalculate d : tracks_of (recalculate_managed_resource_usage_counts d) = tracks_of d.
Proof.
  apply map_eq. intros k. unfold tracks_of. simpl. rewrite !lookup_fmap, map_lookup_imap.
  by destruct (managed_resource_tracks d !! k).
Qed.

Lemma tracks_of_is_Some d d' k : tracks_of d = tracks_of d' →
  is_Some (managed_resource_tracks d !! k) ↔ is_Some (managed_resource_tracks d' !! k).
Proof.
  intros H. apply (f_equal (lookup k)) in H. unfold tracks_of in H. rewrite !lookup_fmap in H.
  destruct (managed_resource_tracks d !! k), (managed_resource_tracks d' !! k); simpl in H; try done.
Qed.

Section facts.
Context `{JsonLaws}.

Lemma track_into_record_usage k n row :
  is_ok (track_into_record k (with_usage n row)) = is_ok (track_into_record k row).
Proof.
  unfold track_into_record. simpl.
  destruct (validate_managed_resource_identity _ _); [|done].
  destruct (validate_managed_resource_identity _ _); [|done]. simpl.
  destruct (match t_installed_version row with Some _ => _ | None => _ end); [|done]. simpl.
  destruct (desired_state_from_database _); [|done]. simpl. by destruct (parse_env_context _ _).
Qed.

Lemma rows_readable_of d d' : tracks_of d = tracks_of d' →
  (∀ k row, managed_resource_tracks d !! k = Some row → is_ok (track_into_record k row) = true) →
  ∀ k row, managed_resource_tracks d' !! k = Some row → is_ok (track_into_record k row) = true.
Proof.
  intros Heq Hok k row' Hrow'.
  assert (tracks_of d' !! k = Some (with_usage 0 row')) as Hk
    by (unfold tracks_of; by rewrite lookup_fmap, Hrow').
  rewrite <-Heq in Hk. unfold tracks_of in Hk. rewrite lookup_fmap in Hk.
  apply fmap_Some in Hk as (row & Hrow & Hu). rewrite <-(track_into_record_usage k 0), Hu.
  rewrite track_into_record_usage. by apply Hok.
Qed.

Lemma parse_env_empty context : parse_env_context context "{}" = Ok ∅.
Proof.
  unfold parse_env_context. rewrite env_json_empty. simpl.
  by rewrite (proj2 (validate_env_context_ok context ∅) (lookup_empty "")).
Qed.

Lemma validate_resource_identity_ok kind v : validate_managed_resource_identity kind v = Ok tt ↔ is_identity v = true.
Proof. apply ensure_ok. Qed.

(** When a row with valid keys is readable. *)
Lemma track_readable n t desired version path env_json env prune force now usage :
  is_identity n = true → is_identity t = true →
  (∀ v, version = Some v → is_identity v = true) →
  is_ok (desired_state_from_database desired) = true →
  (∀ context, parse_env_context context env_json = Ok env) →
  is_ok (track_into_record (n, t)
    {| t_desired_state := desired; t_installed_version := version; t_current_artifact_path := path;
       t_usage_count := usage; t_env_json := env_json; t_removal_prune := prune;
       t_removal_force := force; t_updated_at := now |}) = true.
Proof.
  intros Hn Ht Hv Hd He. unfold track_into_record. simpl.
  rewrite !(proj2 (validate_resource_identity_ok _ _)) by done. simpl.
  assert ((match version with
           | Some v => validate_managed_resource_identity "artifact version" v
           | None => Ok tt end) = Ok tt) as ->
    by (destruct version; [apply validate_resource_identity_ok; by apply Hv|done]). simpl.
  destruct (desired_state_from_database desired); [|done]. simpl. by rewrite He.
Qed.

(** What a readable row says about its columns. *)
Lemma track_readable_inv n t row : is_ok (track_into_record (n, t) row) = true →
  (∀ v, t_installed_version row = Some v → is_identity v = true)
  ∧ is_ok (desired_state_from_database (t_desired_state row)) = true
  ∧ ∃ env, ∀ context, parse_env_context context (t_env_json row) = Ok env.
Proof.
  unfold track_into_record. simpl.
  destruct (validate_managed_resource_identity "name" n); [|done]. simpl.
  destruct (validate_managed_resource_identity "track" t); [|done]. simpl.
  destruct (match t_installed_version row with Some _ => _ | None => _ end) as [[]|] eqn:Hv; [|done].
  simpl. destruct (desired_state_from_database _); [|done]. simpl.
  destruct (parse_env_context _ (t_env_json row)) as [env|] eqn:He; [|done]. intros _.
  split_and!; [|done|].
  - intros v Hv'. rewrite Hv' in Hv. by apply validate_resource_identity_ok in Hv.
  - exists env. intros context. unfold parse_env_context in *.
    destruct (env_from_json _) as [e|]; simpl in *; [|done]. inv_ok.
    apply validate_env_context_ok in E. by rewrite (proj2 (validate_env_context_ok context _) E).
Qed.

(** *** Steps *)

(** The database without the two tables of this file. *)
Definition outside (d : Db) : Db :=
  set_managed_resource_tracks (λ _, ∅) (set_project_managed_resources (λ _, ∅) d).

Lemma outside_projects d d' : outside d = outside d' → projects d = projects d'.
Proof. intros Heq. exact (f_equal projects Heq). Qed.

Lemma resources_wf_same d d' : resources_wf d → tracks_of d = tracks_of d' →
  (∀ k row, managed_resource_tracks d' !! k = Some row →
     t_usage_count row = count_requirements (project_managed_resources d') k) →
  (∀ p n q, project_managed_resources d' !! (p, n) = Some q →
     is_Some (projects d' !! p) ∧ is_Some (managed_resource_tracks d !! (n, q_track q))) →
  resources_wf d'.
Proof.
  intros Hwf Ht Hu Hfk. split; [done|by intros ??? [? _]%Hfk| |].
  - intros p n q [_ Hs]%Hfk. by eapply tracks_of_is_Some.
  - by eapply rows_readable_of, rw_track_row.
Qed.

Definition usage_except (ks : list (string * string)) (d : Db) : Prop :=
  ∀ k row, managed_resource_tracks d !! k = Some row → k ∉ ks →
    t_usage_count row = count_requirements (project_managed_resources d) k.

Lemma refresh_except k ks d : usage_except (k :: ks) d → usage_except ks (refresh_usage k d).
Proof.
  intros Hex k' row. unfold refresh_usage. simpl. destruct (decide (k = k')) as [->|Hne].
  - rewrite lookup_alter_eq. by intros (row0 & _ & ->)%fmap_Some _.
  - rewrite lookup_alter_ne by done. intros Hrow Hks. apply Hex; [done|].
    rewrite elem_of_cons. naive_solver.
Qed.

Lemma usage_except_nil d : usage_except [] d → ∀ k row, managed_resource_tracks d !! k = Some row →
  t_usage_count row = count_requirements (project_managed_resources d) k.
Proof. intros Hex k row Hrow. apply Hex; [done|apply not_elem_of_nil]. Qed.

Lemma upsert_requirement_spec p n t now d : resources_wf d → is_Some (projects d !! p) →
  is_Some (managed_resource_tracks d !! (n, t)) →
  ∃ d' q, upsert_requirement p n t now d = Ok d' ∧ resources_wf d' ∧ q_track q = t
    ∧ project_managed_resources d' = <[(p, n) := q]> (project_managed_resources d)
    ∧ tracks_of d' = tracks_of d ∧ outside d' = outside d.
Proof.
  intros Hwf [pr Hp] [tr Ht]. unfold upsert_requirement. rewrite Hp, Ht. simpl.
  assert (∀ q d', project_managed_resources d' = <[(p, n) := q]> (project_managed_resources d) →
    q_track q = t →
    tracks_of d' = tracks_of d → projects d' = projects d → usage_except [] d' → resources_wf d')
    as Hgen.
  { intros q d' Hr Hq Htr Hpr Hu. apply (resources_wf_same d); [done|done|by apply usage_except_nil|].
    intros p' n' q'. rewrite Hr, Hpr. intros [[[= <- <-] <-]|[_ Hl]]%lookup_insert_Some.
    - rewrite Hq. eauto.
    - split; [by eapply rw_project|by eapply rw_track]. }
  assert (∀ k row, managed_resource_tracks d !! k = Some row →
    t_usage_count row = count_requirements (project_managed_resources d) k) as Hu by apply Hwf.
  destruct (project_managed_resources d !! (p, n)) as [old|] eqn:Hold.
  - eexists _, {| q_track := t; q_created_at := q_created_at old; q_updated_at := now |}.
    split; [done|]. rewrite !tracks_of_refresh. split; [|done].
    eapply (Hgen _); [done|done|by rewrite !tracks_of_refresh|done|].
    apply refresh_except, refresh_except. intros k row Hk Hks. simpl in *.
    rewrite (count_overwrite _ (p, n) old); [by apply Hu|done|..];
      intros [Hk1 Hk2]; apply Hks; simpl in *; subst; destruct k; set_solver.
  - eexists _, {| q_track := t; q_created_at := now; q_updated_at := now |}.
    split; [done|]. rewrite tracks_of_refresh. split; [|done].
    eapply (Hgen _); [done|done|by rewrite tracks_of_refresh|done|].
    apply refresh_except. intros k row Hk Hks. simpl in *.
    rewrite count_insert, decide_False; [rewrite Z.add_0_r; by apply Hu| |done].
    intros [Hk1 Hk2]; apply Hks; simpl in *; subst; destruct k; set_solver.
Qed.

Lemma delete_requirement_spec key d : resources_wf d →
  resources_wf (delete_requirement key d)
  ∧ project_managed_resources (delete_requirement key d) = delete key (project_managed_resources d)
  ∧ tracks_of (delete_requirement key d) = tracks_of d
  ∧ outside (delete_requirement key d) = outside d.
Proof.
  intros Hwf. unfold delete_requirement.
  destruct (project_managed_resources d !! key) as [old|] eqn:Hold; [|by rewrite delete_id].
  rewrite tracks_of_refresh. split_and!; [|done..].
  apply (resources_wf_same d); [done|by rewrite tracks_of_refresh| |].
  - apply usage_except_nil, refresh_except. intros k row Hk Hks. simpl in *.
    rewrite (rw_usage d Hwf k row Hk), (count_delete _ key old k Hold).
    rewrite decide_False; [lia|]. intros [Hk1 Hk2]. apply Hks. simpl in *. subst.
    destruct k. set_solver.
  - simpl. intros p n q [_ Hl]%lookup_delete_Some.
    split; [by eapply rw_project|by eapply rw_track].
Qed.

Lemma recalculate_spec d : resources_wf d →
  resources_wf (recalculate_managed_resource_usage_counts d).
Proof.
  intros Hwf. apply (resources_wf_same d); [done|by rewrite tracks_of_recalculate| |].
  - intros k row. unfold recalculate_managed_resource_usage_counts. simpl.
    rewrite map_lookup_imap. by intros (row0 & _ & [= <-])%bind_Some.
  - intros p n q Hl. split; [exact (rw_project d Hwf p n q Hl)|exact (rw_track d Hwf p n q Hl)].
Qed.

Lemma count_zero d k : resources_wf d → managed_resource_tracks d !! k = None →
  count_requirements (project_managed_resources d) k = 0%Z.
Proof.
  intros Hwf Hk. unfold count_requirements.
  assert (filter (λ '(pn, row), pn.2 = k.1 ∧ q_track row = k.2)
    (map_to_list (project_managed_resources d)) = []) as ->; [|done].
  apply (list_filter_none _). intros [[p n] q] Hin%elem_of_map_to_list [Hn Hq]. simpl in *.
  destruct (rw_track d Hwf p n q Hin) as [row Hrow]. subst n.
  rewrite Hq in Hrow. destruct k. simpl in *. congruence.
Qed.

(** An upsert of a track that keeps its usage count and leaves it readable. *)
Lemma upsert_track_wf n t fresh update d : resources_wf d →
  t_usage_count fresh = 0%Z → (∀ row, t_usage_count (update row) = t_usage_count row) →
  is_ok (track_into_record (n, t) fresh) = true →
  (∀ row, is_ok (track_into_record (n, t) row) = true →
     is_ok (track_into_record (n, t) (update row)) = true) →
  resources_wf (upsert_track n t fresh update d).
Proof.
  intros Hwf Hf Hu Hrf Hru. split; simpl.
  - intros k row. destruct (decide ((n, t) = k)) as [<-|Hne].
    + rewrite lookup_partial_alter_eq. intros [= <-].
      destruct (managed_resource_tracks d !! (n, t)) as [old|] eqn:Hold.
      * rewrite Hu. by apply rw_usage.
      * by rewrite Hf, count_zero.
    + rewrite lookup_partial_alter_ne by done. by apply rw_usage.
  - by apply rw_project.
  - intros p n' q Hl. destruct (decide ((n, t) = (n', q_track q))) as [->|Hne].
    + rewrite lookup_partial_alter_eq. eauto.
    + rewrite lookup_partial_alter_ne by done. by eapply rw_track.
  - intros k row. destruct (decide ((n, t) = k)) as [<-|Hne].
    + rewrite lookup_partial_alter_eq. intros [= <-].
      destruct (managed_resource_tracks d !! (n, t)) as [old|] eqn:Hold; [|done].
      apply Hru. by apply (rw_track_row d Hwf).
    + rewrite lookup_partial_alter_ne by done. by apply rw_track_row.
Qed.

Lemma is_identity_of_track t : concrete_track t → is_identity t = true.
Proof. by intros [? _]. Qed.

Lemma fresh_track_readable n t desired version path env_json env prune force now :
  is_identity n = true → concrete_track t →
  (∀ v, version = Some v → is_identity v = true) →
  is_ok (desired_state_from_database desired) = true →
  (∀ context, parse_env_context context env_json = Ok env) →
  is_ok (track_into_record (n, t) (fresh_track desired version path env_json prune force now)) = true.
Proof. intros ? [? _] ???. by eapply track_readable. Qed.

Lemma as_str_readable (s : ManagedResourceDesiredState) :
  is_ok (desired_state_from_database (as_str s)) = true.
Proof. by destruct s. Qed.

Lemma set_desired_readable n t (s : string) prune force now row :
  is_identity n = true → concrete_track t → is_ok (desired_state_from_database s) = true →
  is_ok (track_into_record (n, t) row) = true →
  is_ok (track_into_record (n, t) (set_desired s prune force now row)) = true.
Proof.
  intros Hn [Ht _] Hs (Hv & _ & env & He)%track_readable_inv.
  by apply (track_readable n t s _ _ _ env).
Qed.

Lemma upsert_desired_wf n t now d : resources_wf d → is_identity n = true → concrete_track t →
  resources_wf (upsert_desired n t now d).
Proof.
  intros Hwf Hn Ht. apply upsert_track_wf; [done|done| | |].
  - intros row. unfold redesire. by case_match.
  - apply (fresh_track_readable n t _ _ _ _ ∅); [done..| |apply parse_env_empty]. done.
  - intros row Hrow. unfold redesire. case_match; apply set_desired_readable; try done.
    by apply track_readable_inv in Hrow as (_ & ? & _).
Qed.

Lemma removal_intent_wf n t prune force now d : resources_wf d → is_identity n = true →
  concrete_track t → resources_wf (upsert_removal_intent n t prune force now d).
Proof.
  intros Hwf Hn Ht. apply upsert_track_wf; [done|done|done| |].
  - eapply (fresh_track_readable n t); [done..|apply parse_env_empty].
  - intros row. by apply set_desired_readable.
Qed.

(** *** Replacing the requirements of a project *)

Lemma tracks_of_upsert n t fresh update d : t_usage_count fresh = 0%Z →
  (∀ u row, update (with_usage u row) = with_usage u (update row)) →
  tracks_of (upsert_track n t fresh update d)
  = partial_alter (λ old, Some (match old with Some row => update row | None => fresh end)) (n, t)
      (tracks_of d).
Proof.
  intros Hf Hu. apply map_eq. intros k. unfold tracks_of. simpl. rewrite lookup_fmap.
  destruct (decide ((n, t) = k)) as [<-|Hne].
  - rewrite !lookup_partial_alter_eq, lookup_fmap.
    destruct (managed_resource_tracks d !! (n, t)) as [row|]; simpl; [by rewrite Hu|].
    destruct fresh. simpl in *. by rewrite Hf.
  - by rewrite !lookup_partial_alter_ne, lookup_fmap by done.
Qed.

(** What a requirement does to the track it names. *)
Definition desire (now : string) (m : gmap (string * string) TrackRow)
    (r : ProjectManagedResourceInput) : gmap (string * string) TrackRow :=
  partial_alter (λ old, Some (match old with
      | Some row => redesire now row
      | None => fresh_track (as_str Installed) None None "{}" false false now
      end)) (ri_resource_name r, ri_track r) m.

Definition input_ok (r : ProjectManagedResourceInput) : Prop :=
  is_identity (ri_resource_name r) = true ∧ concrete_track (ri_track r).

Lemma validate_inputs_ok rs : validate_project_managed_resource_inputs rs = Ok tt ↔
  Forall input_ok rs ∧ NoDup (ri_resource_name <$> rs).
Proof.
  unfold validate_project_managed_resource_inputs.
  assert (∀ names, is_ok (try_fold (λ (names : gset string) r,
      _ ← validate_managed_resource_identity "name" (ri_resource_name r);
      _ ← validate_concrete_track (ri_track r);
      if bool_decide (ri_resource_name r ∈ names)
      then Err (InvalidManagedResourceIdentity "name" (ri_resource_name r))
      else Ok ({[ri_resource_name r]} ∪ names)) rs names) = true ↔
    Forall input_ok rs ∧ NoDup (ri_resource_name <$> rs)
    ∧ ∀ n, n ∈ ri_resource_name <$> rs → n ∉ names) as Hgen.
  { induction rs as [|r rs IH]; intros names; simpl.
    - split; [intros _; split_and!; [constructor|constructor|set_solver]|done].
    - rewrite Forall_cons, NoDup_cons. unfold input_ok.
      destruct (validate_managed_resource_identity "name" (ri_resource_name r)) as [[]|] eqn:Hn; simpl.
      2: { split; [done|]. intros ([[Hi _] _] & _). by rewrite (proj2 (validate_resource_identity_ok _ _) Hi) in Hn. }
      destruct (validate_concrete_track (ri_track r)) as [[]|] eqn:Ht; simpl.
      2: { split; [done|]. intros ([[_ Hi] _] & _). by rewrite (proj2 (validate_concrete_track_ok _) Hi) in Ht. }
      apply validate_resource_identity_ok in Hn. apply validate_concrete_track_ok in Ht.
      case_bool_decide as Hin; simpl.
      + split; [done|]. intros (_ & _ & Hno). by destruct (Hno (ri_resource_name r)); [left|].
      + rewrite IH. split; [|set_solver]. intros (H1 & H2 & H3).
        split; [split; [split; done|done]|]. split; [split; [set_solver|done]|set_solver]. }
  specialize (Hgen ∅). destruct (try_fold _ _ _) as [names|e]; simpl in *.
  - split; [|done]. intros _. by destruct (proj1 Hgen eq_refl) as (? & ? & _).
  - split; [done|]. intros [H1 H2].
    assert (false = true); [|done]. apply Hgen. split; [done|]. split; [done|set_solver].
Qed.

Lemma require_step_spec p now r d : resources_wf d → is_Some (projects d !! p) → input_ok r →
  ∃ d' q, require_step p now d r = Ok d' ∧ resources_wf d' ∧ outside d' = outside d
    ∧ tracks_of d' = desire now (tracks_of d) r ∧ q_track q = ri_track r
    ∧ project_managed_resources d'
      = <[(p, ri_resource_name r) := q]> (project_managed_resources d).
Proof.
  intros Hwf Hp [Hn Ht].
  pose proof (upsert_desired_wf (ri_resource_name r) (ri_track r) now d Hwf Hn Ht) as Hwf1.
  destruct (upsert_requirement_spec p (ri_resource_name r) (ri_track r) now
    (upsert_desired (ri_resource_name r) (ri_track r) now d)) as (d' & q & Heq & Hwf' & Hq & Hr & Htr & Ho).
  - done.
  - done.
  - simpl. rewrite lookup_partial_alter_eq. eauto.
  - exists d', q. split_and!; [exact Heq|done|by rewrite Ho| |done|done].
    rewrite Htr. apply tracks_of_upsert; [done|]. intros u row. unfold redesire, removal_pending.
    simpl. by case_match.
Qed.

Lemma require_loop_spec p now rs d : resources_wf d → is_Some (projects d !! p) →
  Forall input_ok rs → NoDup (ri_resource_name <$> rs) →
  ∃ d', try_fold (require_step p now) rs d = Ok d' ∧ resources_wf d' ∧ outside d' = outside d
    ∧ tracks_of d' = foldl (desire now) (tracks_of d) rs
    ∧ (∀ r, r ∈ rs → ∃ q, project_managed_resources d' !! (p, ri_resource_name r) = Some q
         ∧ q_track q = ri_track r)
    ∧ ∀ k, (k.1 = p → k.2 ∉ ri_resource_name <$> rs) →
        project_managed_resources d' !! k = project_managed_resources d !! k.
Proof.
  intros Hwf Hp Hok Hnd. revert d Hwf Hp. induction Hok as [|r rs Hr Hok IH]; intros d Hwf Hp.
  { exists d. split_and!; try done. intros r Hr. by apply not_elem_of_nil in Hr. }
  rewrite fmap_cons in *. apply NoDup_cons in Hnd as [Hnin Hnd].
  destruct (require_step_spec p now r d Hwf Hp Hr) as (d1 & q & Heq & Hwf1 & Ho1 & Ht1 & Hq & Hr1).
  destruct (IH Hnd d1 Hwf1) as (d' & Heq' & Hwf' & Ho' & Ht' & Hin' & Hout').
  { by rewrite (outside_projects _ _ Ho1). }
  exists d'. simpl. rewrite Heq. simpl. split_and!.
  - done.
  - done.
  - by rewrite Ho'.
  - by rewrite Ht', Ht1.
  - intros r' [->|Hr']%elem_of_cons; [|by apply Hin']. exists q.
    rewrite Hout' by done. by rewrite Hr1, lookup_insert_eq.
  - intros [p' n'] Hk. simpl in Hk. rewrite Hout' by (simpl; set_solver).
    rewrite Hr1. apply lookup_insert_ne. intros [= <- <-]. set_solver.
Qed.

Lemma delete_loop_spec p (keep : list string) names d : resources_wf d →
  resources_wf (foldl (λ d name, if bool_decide (name ∈ keep) then d
                                 else delete_requirement (p, name) d) d names)
  ∧ outside (foldl (λ d name, if bool_decide (name ∈ keep) then d
                              else delete_requirement (p, name) d) d names) = outside d
  ∧ tracks_of (foldl (λ d name, if bool_decide (name ∈ keep) then d
                                else delete_requirement (p, name) d) d names) = tracks_of d
  ∧ ∀ k, project_managed_resources
           (foldl (λ d name, if bool_decide (name ∈ keep) then d
                             else delete_requirement (p, name) d) d names) !! k
         = if decide (k.1 = p ∧ k.2 ∈ names ∧ k.2 ∉ keep) then None
           else project_managed_resources d !! k.
Proof.
  revert d. induction names as [|n names IH]; intros d Hwf; simpl.
  { split_and!; [done..|]. intros k. rewrite decide_False; [done|].
    intros (_ & Hn & _). by apply not_elem_of_nil in Hn. }
  case_bool_decide as Hk.
  - destruct (IH d Hwf) as (? & ? & ? & Hl). split_and!; [done..|]. intros k. rewrite Hl.
    apply decide_ext. rewrite elem_of_cons. naive_solver.
  - destruct (delete_requirement_spec (p, n) d Hwf) as (Hwf1 & Hr1 & Ht1 & Ho1).
    destruct (IH _ Hwf1) as (Hwf' & Ho' & Ht' & Hl). split_and!; [done|congruence|congruence|].
    intros [p' n']. rewrite Hl, Hr1. simpl. destruct (decide (p' = p ∧ n' = n)) as [[-> ->]|Hne].
    + rewrite lookup_delete_eq. rewrite (decide_True (P := p = p ∧ n ∈ n :: names ∧ n ∉ keep));
        [by case_decide|]. split; [done|]. split; [by left|done].
    + rewrite lookup_delete_ne by (intros [= <- <-]; by apply Hne). apply decide_ext.
      rewrite elem_of_cons. split; [tauto|]. intros (-> & [->|Hn] & Hk'); [|done].
      by destruct Hne.
Qed.

Lemma elem_of_project_requirements p d n q :
  (n, q) ∈ project_requirements p d ↔ project_managed_resources d !! (p, n) = Some q.
Proof.
  unfold project_requirements. rewrite elem_of_sort_on, list_elem_of_omap. split.
  - intros ([[p' n'] q'] & Hin%elem_of_map_to_list & Hx). simpl in Hx.
    case_bool_decide; simplify_eq. done.
  - intros Hl. exists (p, n, q). rewrite elem_of_map_to_list. split; [done|]. simpl.
    by rewrite bool_decide_eq_true_2.
Qed.

Lemma elem_of_requirement_names p d n :
  n ∈ project_managed_resource_names p d ↔ is_Some (project_managed_resources d !! (p, n)).
Proof.
  unfold project_managed_resource_names. rewrite list_elem_of_fmap. split.
  - intros ([n' q] & -> & Hin%elem_of_project_requirements). eauto.
  - intros [q Hq]. exists (n, q). by rewrite elem_of_project_requirements.
Qed.

Definition requirement_record (p : string) (nq : string * RequirementRow) :
    ProjectManagedResourceRecord :=
  {| rr_project_id := p; rr_resource_name := nq.1; rr_track := q_track nq.2;
     rr_created_at := q_created_at nq.2; rr_updated_at := q_updated_at nq.2 |}.

(** On a well-formed database every requirement can be read. *)
Lemma list_requirements_ok p d : resources_wf d →
  list_project_managed_resources p d = Ok (requirement_record p <$> project_requirements p d).
Proof.
  intros Hwf. unfold list_project_managed_resources. apply try_map_ext_ok.
  intros [n q] Hin%elem_of_project_requirements.
  destruct (rw_track d Hwf p n q Hin) as [row Hrow]. apply (rw_track_row d Hwf) in Hrow.
  unfold track_into_record in Hrow. unfold requirement_into_record. simpl in *.
  destruct (validate_managed_resource_identity "name" n); [|done].
  by destruct (validate_managed_resource_identity "track" (q_track q)).
Qed.
End facts.

(** ** Properties *)

Lemma replace_requirements_outcome `{JsonLaws} p rs now d : resources_wf d →
  match validate_project_managed_resource_inputs rs, projects d !! p with
  | Err e, _ => replace_project_managed_resources p rs now d = (Err e, d)
  | Ok _, None => replace_project_managed_resources p rs now d = (Err (ProjectNotFound p), d)
  | Ok _, Some _ => ∃ records d',
      replace_project_managed_resources p rs now d = (Ok records, d')
      ∧ resources_wf d' ∧ outside d' = outside d
      ∧ tracks_of d' = foldl (desire now) (tracks_of d) rs
      ∧ (∀ n t, (∃ q, project_managed_resources d' !! (p, n) = Some q ∧ q_track q = t)
           ↔ Build_ProjectManagedResourceInput n t ∈ rs)
      ∧ (∀ p' n, p' ≠ p →
           project_managed_resources d' !! (p', n) = project_managed_resources d !! (p', n))
      ∧ records = requirement_record p <$> project_requirements p d'
  end.
Proof.
  intros Hwf. unfold replace_project_managed_resources, transact.
  destruct (validate_project_managed_resource_inputs rs) as [[]|e] eqn:Hv; [|done].
  destruct (projects d !! p) as [row|] eqn:Hp; unfold ensure_project_exists; rewrite Hp; simpl; [|done].
  apply validate_inputs_ok in Hv as [Hok Hnd].
  destruct (require_loop_spec p now rs d Hwf ltac:(by rewrite Hp) Hok Hnd)
    as (d1 & -> & Hwf1 & Ho1 & Ht1 & Hin & Hout). cbn [mbind result_bind].
  destruct (delete_loop_spec p (ri_resource_name <$> rs) (project_managed_resource_names p d1) d1 Hwf1)
    as (Hwf2 & Ho2 & Ht2 & Hl2).
  set (d2 := foldl _ d1 _) in *. pose proof (recalculate_spec d2 Hwf2) as Hwf3.
  rewrite (list_requirements_ok p _ Hwf3). cbn [mbind result_bind].
  exists (requirement_record p <$> project_requirements p (recalculate_managed_resource_usage_counts d2)).
  eexists. split; [done|]. split; [done|]. split; [by rewrite <-Ho1, <-Ho2|].
  split; [by rewrite tracks_of_recalculate, Ht2, Ht1|].
  change (project_managed_resources (recalculate_managed_resource_usage_counts d2))
    with (project_managed_resources d2). split; [|split; [|done]].
  - intros n t. rewrite Hl2. simpl. split.
    + intros (q & Hq & Hqt). case_decide as Hc; [done|].
      assert (n ∈ ri_resource_name <$> rs) as Hn.
      { destruct (decide (n ∈ ri_resource_name <$> rs)) as [|Hn]; [done|]. destruct Hc.
        split_and!; [done| |done]. apply elem_of_requirement_names. eauto. }
      apply list_elem_of_fmap in Hn as (r & -> & Hr). destruct (Hin r Hr) as (q' & Hq' & Hqt').
      assert (ri_track r = t) as <- by congruence. by destruct r.
    + intros Hr. destruct (Hin _ Hr) as (q & Hq & Hqt). exists q. split; [|done].
      rewrite decide_False; [done|]. intros (_ & _ & Hn). apply Hn.
      apply list_elem_of_fmap. by exists (Build_ProjectManagedResourceInput n t).
  - intros p' n Hne. rewrite Hl2, decide_False by naive_solver. by rewrite Hout.
Qed.

#[export] Instance requirement_input_eq_dec : EqDecision ProjectManagedResourceInput.
Proof. solve_decision. Defined.

(** The requirements that are accepted: names and concrete tracks, no name twice. *)
Definition acceptable (rs : list ProjectManagedResourceInput) : Prop :=
  Forall input_ok rs ∧ NoDup (ri_resource_name <$> rs).

(** How often a track is required. *)
Definition times_required (k : string * string) (d : Db) : Z :=
  Z.of_nat (length (filter (λ x : (string * string) * RequirementRow, x.1.2 = k.1 ∧ q_track x.2 = k.2)
                      (map_to_list (project_managed_resources d)))).

Lemma times_required_eq k d : count_requirements (project_managed_resources d) k = times_required k d.
Proof.
  unfold count_requirements, times_required. do 2 f_equal. apply list_filter_iff. by intros [pn row].
Qed.

(** A row with another count. *)
Definition recounted (uses : Z) (row : TrackRow) : TrackRow := {|
  t_desired_state := t_desired_state row; t_installed_version := t_installed_version row;
  t_current_artifact_path := t_current_artifact_path row; t_usage_count := uses; t_env_json := t_env_json row;
  t_removal_prune := t_removal_prune row; t_removal_force := t_removal_force row; t_updated_at := t_updated_at row |}.

Lemma tracks_recounted `{Json} d d' k : resources_wf d' → tracks_of d' = tracks_of d →
  managed_resource_tracks d' !! k = recounted (times_required k d') <$> managed_resource_tracks d !! k.
Proof.
  intros Hwf Ht. pose proof (f_equal (lookup k) Ht) as Hl. unfold tracks_of in Hl. rewrite !lookup_fmap in Hl.
  destruct (managed_resource_tracks d' !! k) as [row'|] eqn:Hrow', (managed_resource_tracks d !! k) as [row|]; try discriminate Hl; [|done].
  apply (rw_usage d' Hwf) in Hrow' as Hu. rewrite times_required_eq in Hu. cbn [fmap option_fmap option_map] in *. apply (inj Some) in Hl.
  f_equal. transitivity (recounted (t_usage_count row') (with_usage 0 row')); [by destruct row'|]. by rewrite Hl, Hu.
Qed.

(** The row of a track that is asked for: a new one, or the old one with its release and its env,
    wanted again unless its removal is under way. *)
Definition asked_for (now : string) (uses : Z) (old : option TrackRow) : TrackRow :=
  match old with
  | None => {| t_desired_state := "installed"; t_installed_version := None; t_current_artifact_path := None; t_usage_count := uses;
      t_env_json := "{}"; t_removal_prune := false; t_removal_force := false; t_updated_at := now |}
  | Some row =>
      let going := bool_decide (t_desired_state row = "removed" ∧ is_Some (t_current_artifact_path row)) in
      {| t_desired_state := if going then "removed" else "installed";
         t_installed_version := t_installed_version row; t_current_artifact_path := t_current_artifact_path row; t_usage_count := uses;
         t_env_json := t_env_json row;
         t_removal_prune := if going then t_removal_prune row else false; t_removal_force := if going then t_removal_force row else false;
         t_updated_at := now |}
  end.

Lemma asked_for_eq now uses old : asked_for now uses old
  = with_usage uses (match old with Some row => redesire now row | None => fresh_track (as_str Installed) None None "{}" false false now end).
Proof.
  destruct old as [row|]; [|done]. cbn. unfold redesire.
  assert (removal_pending row = bool_decide (t_desired_state row = "removed" ∧ is_Some (t_current_artifact_path row))) as ->.
  { apply eq_true_iff_eq. unfold removal_pending. by rewrite andb_true_iff, !bool_decide_eq_true, option_bool_true. }
  case_bool_decide as Hg; [|done]. unfold set_desired, update_track, with_usage. cbn. by destruct Hg as [-> _].
Qed.

Lemma desire_lookup now rs m k : NoDup (ri_resource_name <$> rs) →
  foldl (desire now) m rs !! k
  = if bool_decide (Build_ProjectManagedResourceInput k.1 k.2 ∈ rs)
    then Some (match m !! k with Some row => redesire now row | None => fresh_track (as_str Installed) None None "{}" false false now end)
    else m !! k.
Proof.
  revert m. induction rs as [|r rs IH]; intros m Hnd; cbn [foldl].
  { by rewrite bool_decide_eq_false_2 by apply not_elem_of_nil. }
  rewrite fmap_cons in Hnd. apply NoDup_cons in Hnd as [Hn Hnd]. rewrite IH by done. unfold desire. destruct r as [n t], k as [n' t']. cbn in *.
  destruct (decide ((n, t) = (n', t'))) as [[= <- <-]|Hne].
  - rewrite lookup_partial_alter_eq. rewrite bool_decide_eq_false_2; [by rewrite bool_decide_eq_true_2 by by left|].
    intros Hin. apply Hn, list_elem_of_fmap. by exists (Build_ProjectManagedResourceInput n t).
  - rewrite lookup_partial_alter_ne by done. erewrite bool_decide_ext; [done|]. rewrite elem_of_cons. split; [by right|].
    by intros [[= -> ->]|?].
Qed.

Lemma redesire_usage now u row : with_usage u (redesire now (with_usage 0 row)) = with_usage u (redesire now row).
Proof. unfold redesire, removal_pending. cbn. by case_match. Qed.

(** C22: Replacing a project's requirements, on a well-formed database.  Invalid or
    repeated requirements and an unknown project are refused with nothing changed.
    Otherwise the operation succeeds: the project requires exactly the given
    resources at the given tracks and no other project's requirement changes; every
    required track has a row that asks for it, the release and the env it had kept, except that a
    removal that is under way (marked removed, the release still there) stays, with its options; every other track's row is the one of before; every
    usage count is again the number of requirements of its track; no other table changes, and the
    returned records are the project's requirements, sorted. *)
Theorem replace_project_managed_resources_spec `{JsonLaws} p rs now d : resources_wf d →
  (¬ acceptable rs → ∃ e, replace_project_managed_resources p rs now d = (Err e, d))
  ∧ (acceptable rs → projects d !! p = None → replace_project_managed_resources p rs now d = (Err (ProjectNotFound p), d))
  ∧ (acceptable rs → is_Some (projects d !! p) → ∃ records d',
      replace_project_managed_resources p rs now d = (Ok records, d')
      ∧ resources_wf d' ∧ outside d' = outside d
      ∧ (∀ n t, managed_resource_tracks d' !! (n, t) =
           if bool_decide (Build_ProjectManagedResourceInput n t ∈ rs)
           then Some (asked_for now (times_required (n, t) d') (managed_resource_tracks d !! (n, t)))
           else recounted (times_required (n, t) d') <$> managed_resource_tracks d !! (n, t))
      ∧ (∀ n t, (∃ q, project_managed_resources d' !! (p, n) = Some q ∧ q_track q = t)
           ↔ Build_ProjectManagedResourceInput n t ∈ rs)
      ∧ (∀ p' n, p' ≠ p →
           project_managed_resources d' !! (p', n) = project_managed_resources d !! (p', n))
      ∧ StronglySorted (le_on rr_resource_name) records
      ∧ ∀ r, r ∈ records ↔ rr_project_id r = p ∧ project_managed_resources d' !! (p, rr_resource_name r)
           = Some {| q_track := rr_track r; q_created_at := rr_created_at r; q_updated_at := rr_updated_at r |}).
Proof.
  intros Hwf. pose proof (replace_requirements_outcome p rs now d Hwf) as Hout.
  destruct (validate_project_managed_resource_inputs rs) as [[]|e] eqn:Hv.
  2:{ split; [by exists e|]. assert (¬ acceptable rs) as Hno; [|by split]. intros Hacc. apply validate_inputs_ok in Hacc. congruence. }
  apply validate_inputs_ok in Hv as Hacc. split; [done|]. destruct (projects d !! p) as [row|]; [|split; [done|by intros _ [? ?]]].
  split; [done|]. intros _ _. destruct Hout as (records & d' & Heq & Hwf' & Ho & Ht & Hreq & Hother & ->). exists (requirement_record p <$> project_requirements p d'), d'.
  split_and!; [done..| |done|done| |].
  - intros n t. pose proof (f_equal (lookup (n, t)) Ht) as Hl. rewrite (desire_lookup now rs _ (n, t)) in Hl by apply Hacc.
    unfold tracks_of in Hl. rewrite !lookup_fmap in Hl. cbn [fst snd] in Hl. rewrite asked_for_eq.
    destruct (managed_resource_tracks d' !! (n, t)) as [row'|] eqn:Hrow'.
    + apply (rw_usage d' Hwf') in Hrow' as Hu. rewrite times_required_eq in Hu.
      assert (row' = with_usage (times_required (n, t) d') (with_usage 0 row')) as -> by (rewrite <-Hu; by destruct row').
      case_bool_decide; destruct (managed_resource_tracks d !! (n, t)) as [row0|]; try discriminate Hl;
        cbn [fmap option_fmap option_map] in *; apply (inj Some) in Hl; rewrite Hl; [by rewrite redesire_usage|done..].
    + cbn in Hl. case_bool_decide; [done|]. by destruct (managed_resource_tracks d !! (n, t)).
  - apply (StronglySorted_fmap (requirement_record p) (le_on fst)); [done|]. apply sort_on_sorted.
  - intros [p' n t c u]. cbn. rewrite list_elem_of_fmap. split.
    + intros ([n' q] & [= -> -> -> -> ->] & Hq%elem_of_project_requirements). cbn. rewrite Hq. split; [done|]. by destruct q.
    + intros [-> Hq]. exists (n, Build_RequirementRow t c u). rewrite elem_of_project_requirements. by split.
Qed.

Lemma sample_resources_wf : resources_wf sample_db.
Proof. split; simpl; intros *; by rewrite lookup_empty. Qed.

Lemma replace_project_managed_resources_spec_witness :
  ∃ records d', replace_project_managed_resources "p1"
      [Build_ProjectManagedResourceInput "redis" "8"; Build_ProjectManagedResourceInput "postgres" "18"]
      "t1" sample_db = (Ok records, d')
    ∧ resources_wf d' ∧ rr_resource_name <$> records = ["postgres"; "redis"]
    ∧ t_usage_count <$> managed_resource_tracks d' !! ("redis", "8") = Some 1%Z.
Proof.
  destruct (replace_project_managed_resources_spec "p1"
    [Build_ProjectManagedResourceInput "redis" "8"; Build_ProjectManagedResourceInput "postgres" "18"]
    "t1" sample_db sample_resources_wf) as (_ & _ & Hspec).
  destruct Hspec as (records & d' & Heq & Hwf & _); [by apply validate_inputs_ok; vm_compute|by eexists|].
  exists records, d'. split; [exact Heq|]. split; [exact Hwf|].
  assert ((λ r : list ProjectManagedResourceRecord, rr_resource_name <$> r) <$> (replace_project_managed_resources "p1"
      [Build_ProjectManagedResourceInput "redis" "8"; Build_ProjectManagedResourceInput "postgres" "18"]
      "t1" sample_db).1 = Ok ["postgres"; "redis"]) as H1 by by vm_compute.
  assert (t_usage_count <$> managed_resource_tracks (replace_project_managed_resources "p1"
      [Build_ProjectManagedResourceInput "redis" "8"; Build_ProjectManagedResourceInput "postgres" "18"]
      "t1" sample_db).2 !! ("redis", "8") = Some 1%Z) as H2 by by vm_compute.
  rewrite Heq in H1, H2. injection H1 as H1. split; [exact H1|exact H2].
Defined.

(** *** What the operations on tracks do to well-formed tables *)

(** The tables with one track's row written. *)
Definition put (k : string * string) (row : TrackRow) (d : Db) : Db := set_managed_resource_tracks (insert k row) d.

Lemma upsert_put n t fresh update d :
  upsert_track n t fresh update d = put (n, t) (match managed_resource_tracks d !! (n, t) with Some row => update row | None => fresh end) d.
Proof.
  unfold upsert_track, put, set_managed_resource_tracks. f_equal. apply map_eq. intros k.
  destruct (decide ((n, t) = k)) as [<-|Hne]; [by rewrite lookup_partial_alter_eq, lookup_insert_eq|].
  by rewrite lookup_partial_alter_ne, lookup_insert_ne.
Qed.

Section operations.
Context `{JsonLaws}.

Lemma desired_wf n t (s : ManagedResourceDesiredState) now d : resources_wf d → is_identity n = true → concrete_track t →
  resources_wf (upsert_track n t (fresh_track (as_str s) None None "{}" false false now) (set_desired (as_str s) false false now) d).
Proof.
  intros Hwf Hn Ht. apply upsert_track_wf; [done..| |].
  - eapply fresh_track_readable; [done..|apply as_str_readable|apply parse_env_empty].
  - intros row. apply set_desired_readable; [done..|apply as_str_readable].
Qed.

Lemma installed_wf n t v path now d : resources_wf d → is_identity n = true → concrete_track t → is_identity v = true →
  resources_wf (upsert_track n t (fresh_track (as_str Installed) (Some v) (Some path) "{}" false false now)
    (λ row, update_track (t_desired_state row) (Some v) (Some path) (t_env_json row) (t_removal_prune row) (t_removal_force row) now row) d).
Proof.
  intros Hwf Hn Ht Hv. apply upsert_track_wf; [done..| |].
  - eapply fresh_track_readable; [done..| |done|apply parse_env_empty]. by intros ? [= <-].
  - intros row (_ & Hd & e & He)%track_readable_inv. destruct Ht as [? _].
    apply (track_readable n t _ _ _ _ e); [done..| |done|done]. by intros ? [= <-].
Qed.

Lemma desired_and_installed_wf i now d : resources_wf d → is_identity (in_resource_name i) = true → concrete_track (in_track i) →
  is_identity (in_installed_version i) = true → resources_wf (upsert_desired_and_installed i now d).
Proof.
  intros Hwf Hn Ht Hv. apply upsert_track_wf; [done..| |].
  - eapply fresh_track_readable; [done..| |done|apply parse_env_empty]. by intros v [= <-].
  - intros row (_ & _ & e & He)%track_readable_inv. destruct Ht as [? _].
    apply (track_readable _ _ _ _ _ _ e); [done..| |done|done]. by intros v [= <-].
Qed.

(** A row that was written is read back. *)
Lemma row_readable k d : resources_wf d → is_Some (managed_resource_tracks d !! k) → is_ok (managed_resource_track k.1 k.2 d) = true.
Proof.
  intros Hwf [row Hrow]. unfold managed_resource_track. destruct k as [n t]. cbn [fst snd]. rewrite Hrow. cbn. by apply (rw_track_row d Hwf).
Qed.

Lemma autocommit_reads {A} update (read : Db → result StateError A) d :
  (∀ d', update d = Ok d' → is_ok (read d') = true) →
  match autocommit update read d with (Ok _, d') => update d = Ok d' | (Err _, d') => d' = d end.
Proof.
  intros Hr. unfold autocommit. destruct (update d) as [d'|e]; [|done]. specialize (Hr d' eq_refl). by destruct (read d').
Qed.

Lemma put_lookup k row d : managed_resource_tracks (put k row d) !! k = Some row.
Proof. apply lookup_insert_eq. Qed.

Lemma record_desired_spec n t s now d : resources_wf d →
  match record_managed_resource_track_desired n t s now d with
  | (Ok _, d') => resources_wf d' ∧ is_identity n = true ∧ concrete_track t
      ∧ d' = put (n, t) (match managed_resource_tracks d !! (n, t) with
                         | Some row => set_desired (as_str s) false false now row
                         | None => fresh_track (as_str s) None None "{}" false false now end) d
  | (Err _, d') => d' = d
  end.
Proof.
  intros Hwf. set (update d := _ ← validate_managed_resource_identity "name" n; _ ← validate_concrete_track t;
      Ok (upsert_track n t (fresh_track (as_str s) None None "{}" false false now) (set_desired (as_str s) false false now) d)).
  assert (∀ d', update d = Ok d' → is_identity n = true ∧ concrete_track t ∧ resources_wf d'
    ∧ d' = upsert_track n t (fresh_track (as_str s) None None "{}" false false now) (set_desired (as_str s) false false now) d) as Hup.
  { intros d' Hd. unfold update in Hd. inv_ok. apply validate_resource_identity_ok in E. apply validate_concrete_track_ok in E0.
    split_and!; [done..|by apply desired_wf|done]. }
  pose proof (autocommit_reads update (managed_resource_track n t) d) as Ha. unfold record_managed_resource_track_desired.
  fold update. destruct (autocommit update _ d) as [[r|e] d'].
  - destruct (Hup d') as (? & ? & ? & ->); [|split_and!; [done..|apply upsert_put]]. apply Ha. intros d2 (_ & _ & Hwf2 & ->)%Hup.
    rewrite upsert_put in *. apply (row_readable (n, t)); [done|]. rewrite put_lookup. done.
  - apply Ha. intros d2 (_ & _ & Hwf2 & ->)%Hup. rewrite upsert_put in *. apply (row_readable (n, t)); [done|]. by rewrite put_lookup.
Qed.

Lemma record_installed_spec n t v path now d : resources_wf d →
  match record_managed_resource_track_installed n t v path now d with
  | (Ok _, d') => resources_wf d'
      ∧ d' = put (n, t) (match managed_resource_tracks d !! (n, t) with
                         | Some row => update_track (t_desired_state row) (Some v) (Some path) (t_env_json row)
                                         (t_removal_prune row) (t_removal_force row) now row
                         | None => fresh_track (as_str Installed) (Some v) (Some path) "{}" false false now end) d
  | (Err _, d') => d' = d
  end.
Proof.
  intros Hwf. unfold record_managed_resource_track_installed. match goal with |- context [autocommit ?u _ _] => set (update := u) end.
  assert (∀ d', update d = Ok d' → resources_wf d' ∧ ∃ row, d' = put (n, t) row d ∧ row = (match managed_resource_tracks d !! (n, t) with
     | Some row => update_track (t_desired_state row) (Some v) (Some path) (t_env_json row) (t_removal_prune row) (t_removal_force row) now row
     | None => fresh_track (as_str Installed) (Some v) (Some path) "{}" false false now end)) as Hup.
  { intros d' Hd. unfold update in Hd. inv_ok. apply validate_resource_identity_ok in E, E1. apply validate_concrete_track_ok in E0.
    split; [by apply installed_wf|]. eexists. split; [apply upsert_put|done]. }
  assert (∀ d', update d = Ok d' → is_ok (managed_resource_track n t d') = true) as Hread.
  { intros d' (Hwf' & row & -> & _)%Hup. apply (row_readable (n, t)); [done|]. by rewrite put_lookup. }
  pose proof (autocommit_reads update (managed_resource_track n t) d Hread) as Ha.
  destruct (autocommit update _ d) as [[r|e] d']; [|done]. destruct (Hup d' Ha) as (? & row & -> & ->). by split.
Qed.

(** The rows written by several installs, one after the other. *)
Definition put_installed (now : string) (d : Db) (i : ManagedResourceTrackInstallInput) : Db := upsert_desired_and_installed i now d.

Lemma record_installs_spec installs now d : resources_wf d →
  match record_managed_resource_tracks_desired_and_installed installs now d with
  | (Ok _, d') => resources_wf d' ∧ d' = foldl (put_installed now) d installs
  | (Err _, d') => d' = d
  end.
Proof.
  intros Hwf. unfold record_managed_resource_tracks_desired_and_installed. match goal with |- context [autocommit ?u _ _] => set (update := u) end.
  assert (∀ d', update d = Ok d' → resources_wf d' ∧ d' = foldl (put_installed now) d installs
    ∧ ∀ i, i ∈ installs → is_Some (managed_resource_tracks d' !! (in_resource_name i, in_track i))) as Hup.
  { intros d' Hd. unfold update in Hd. inv_ok. apply try_iter_ok in E. clear update. change (foldl _ d installs) with (foldl (put_installed now) d installs).
    assert (∀ (l : list ManagedResourceTrackInstallInput) d k, is_Some (managed_resource_tracks d !! k) → is_Some (managed_resource_tracks (foldl (put_installed now) d l) !! k)) as Hkeep.
    { induction l as [|i l IH]; intros d1 k Hk; [done|]. cbn. apply IH. unfold put_installed, upsert_desired_and_installed. rewrite upsert_put.
      cbn. destruct (decide ((in_resource_name i, in_track i) = k)) as [<-|]; [rewrite lookup_insert_eq; eauto|by rewrite lookup_insert_ne]. }
    split; [|split; [done|]].
    - revert d Hwf. induction E as [|i l Hi _ IH]; intros d1 Hwf1; [done|]. cbn. apply IH. inv_ok.
      apply validate_resource_identity_ok in E, Hi. apply validate_concrete_track_ok in E0. by apply desired_and_installed_wf.
    - clear Hwf E. revert d. induction installs as [|j l IH]; intros d1 i Hi; [by apply elem_of_nil in Hi|]. cbn.
      apply elem_of_cons in Hi as [->|Hi]; [|by apply IH]. apply Hkeep. unfold put_installed, upsert_desired_and_installed. rewrite upsert_put, put_lookup. eauto. }
  match goal with |- context [autocommit _ ?r _] => set (read := r) end.
  assert (∀ d', update d = Ok d' → is_ok (read d') = true) as Hread.
  { intros d' (Hwf' & _ & Hall)%Hup. unfold read. clear -Hwf' Hall.
    induction installs as [|i l IH]; [done|]. cbn. pose proof (row_readable _ d' Hwf' (Hall i ltac:(by left))) as Hr. cbn in Hr.
    destruct (managed_resource_track _ _ d') as [r|]; [|done]. cbn. specialize (IH (λ j Hj, Hall j ltac:(by right))).
    by destruct (try_map _ l). }
  pose proof (autocommit_reads update read d Hread) as Ha.
  destruct (autocommit update _ d) as [[r|e] d']; [|done]. destruct (Hup d' Ha) as (? & -> & _). by split.
Qed.
End operations.

(** Every operation on tracks keeps the database well formed, whatever its
    arguments and its result: counts match requirements, requirements point to
    existing tracks and projects, and every stored row can be read back. *)
Theorem track_operations_keep_wf `{JsonLaws} d n t s prune force version path env now removals installs :
  resources_wf d →
  resources_wf (record_managed_resource_track_desired n t s now d).2
  ∧ resources_wf (record_managed_resource_track_removal_intent n t prune force now d).2
  ∧ resources_wf (record_managed_resource_tracks_removal_intent removals now d).2
  ∧ resources_wf (record_managed_resource_track_installed n t version path now d).2
  ∧ resources_wf (record_managed_resource_tracks_desired_and_installed installs now d).2
  ∧ resources_wf (record_managed_resource_track_env_context n t env now d).2.
Proof.
  intros Hwf. unfold record_managed_resource_track_desired,
    record_managed_resource_track_removal_intent, record_managed_resource_tracks_removal_intent,
    record_managed_resource_track_installed, record_managed_resource_tracks_desired_and_installed,
    record_managed_resource_track_env_context.
  split_and!; (apply (autocommit_inv resources_wf); [|done]); intros d' H' _.
  - inv_ok. apply validate_resource_identity_ok in E. apply validate_concrete_track_ok in E0. by apply desired_wf.
  - inv_ok. apply validate_resource_identity_ok in E. apply validate_concrete_track_ok in E0.
    by apply removal_intent_wf.
  - inv_ok. apply try_iter_ok in E. clear -H0 Hwf E.
    revert d Hwf. induction E as [|r rs Hr _ IH]; intros d Hwf; [done|]. simpl. apply IH.
    inv_ok. apply validate_resource_identity_ok in E. apply validate_concrete_track_ok in Hr.
    by apply removal_intent_wf.
  - inv_ok. apply validate_resource_identity_ok in E, E1. apply validate_concrete_track_ok in E0. by apply installed_wf.
  - inv_ok. apply try_iter_ok in E. clear -H0 Hwf E.
    revert d Hwf. induction E as [|i il Hi _ IH]; intros d Hwf; [done|]. simpl. apply IH.
    inv_ok. apply validate_resource_identity_ok in E, Hi. apply validate_concrete_track_ok in E0. by apply desired_and_installed_wf.
  - inv_ok. apply validate_resource_identity_ok in E. apply validate_concrete_track_ok in E0.
    pose proof (λ c, env_context_roundtrip _ c _ _ E1) as He.
    apply upsert_track_wf; [done..| |].
    + eapply fresh_track_readable; [done..|exact He].
    + intros row (Hv & Hd & _)%track_readable_inv. destruct E0 as [? _].
      by apply (track_readable n t _ _ _ _ env).
Qed.

Lemma track_operations_keep_wf_witness :
  resources_wf (record_managed_resource_track_installed "redis" "8" "8.0.1" "/opt/redis" "t1" sample_db).2.
Proof.
  apply (track_operations_keep_wf sample_db "redis" "8" Installed false false "8.0.1" "/opt/redis" ∅
           "t1" [] [] sample_resources_wf).
Defined.

(** *** The projects stay *)

Lemma track_desired_projects `{Json} n t s now d : projects (record_managed_resource_track_desired n t s now d).2 = projects d.
Proof.
  apply (autocommit_inv (λ d', projects d' = projects d)); [|done]. intros d' Hd _. by inv_ok.
Qed.

Lemma requirements_projects `{Json} p rs now d : projects (replace_project_managed_resources p rs now d).2 = projects d.
Proof.
  apply (transact_inv (λ d', projects d' = projects d)); [|done]. intros records d' Hd _. inv_ok. cbn.
  assert (∀ names d1, projects (foldl (λ d name, if bool_decide (name ∈ ri_resource_name <$> rs) then d
    else delete_requirement (p, name) d) d1 names) = projects d1) as ->.
  { induction names as [|name names IH]; intros d1; [done|]. cbn. rewrite IH. case_bool_decide; [done|].
    unfold delete_requirement. by destruct (_ !! _). }
  revert E1. apply (try_fold_inv (λ d', projects d' = projects d)); [|done]. intros d1 r d2 _ <- Hr.
  unfold require_step, upsert_requirement in Hr. destruct (negb _ || negb _); [done|].
  destruct (project_managed_resources _ !! _); by inv_ok.
Qed.
