(* ===== verification/StateObserved.v ===== *)
(** * Observed states: the project env snapshot and the runtime snapshots of
    [state/src/database.rs] *)

From S2P Require Import Prelude RustStr Paths StateTypes StateDb StateResources.

(** ** Project env snapshots *)

Record ProjectEnvObservedWarningInput := { wi_kind : string; wi_message : string }.
Record ProjectEnvObservedWarningRecord := {
  wr_project_id : string; wr_kind : string; wr_message : string; wr_observed_at : string;
}.
Record ProjectEnvObservedStateRecord := {
  es_project_id : string;
  es_status : ProjectEnvObservedStatus;
  es_message : option string;
  es_observed_at : string;
  es_warnings : list ProjectEnvObservedWarningRecord;
}.

Definition warning_step (identities : gset (string * string)) (w : ProjectEnvObservedWarningInput) :
    result StateError (gset (string * string)) :=
  _ ← validate_project_env_observed_warning_component "kind" (wi_kind w);
  _ ← validate_project_env_observed_warning_component "message" (wi_message w);
  if bool_decide ((wi_kind w, wi_message w) ∈ identities)
  then Err (InvalidProjectEnvObservedWarning "warning" (wi_kind w +:+ ":" +:+ wi_message w))
  else Ok ({[(wi_kind w, wi_message w)]} ∪ identities).

Definition validate_project_env_observed_warnings (warnings : list ProjectEnvObservedWarningInput) :
    result StateError unit :=
  _ ← try_fold warning_step warnings ∅; Ok tt.

(** [INSERT INTO observed_states .. ON CONFLICT DO UPDATE]. *)
Definition upsert_observed (kind id status : string) (message : option string) (now : string) :
    Db → Db :=
  set_observed_states (<[(kind, id) :=
    {| o_status := status; o_message := message; o_observed_at := now |}]>).

(** [INSERT INTO project_env_observed_warnings], its primary key and foreign key. *)
Definition insert_warning (project_id now : string) (d : Db) (w : ProjectEnvObservedWarningInput) :
    result StateError Db :=
  let key := (project_id, wi_kind w, wi_message w) in
  if option_bool (project_env_observed_warnings d !! key)
  then Err (Sqlite (UniqueViolation "project_env_observed_warnings"))
  else if negb (option_bool (projects d !! project_id))
  then Err (Sqlite (ForeignKeyViolation "project_env_observed_warnings"))
  else Ok (set_project_env_observed_warnings (<[key := now]>) d).

Definition delete_warnings (project_id : string) : Db → Db :=
  set_project_env_observed_warnings (filter (λ '(k, _), k.1.1 ≠ project_id)).

Definition record_snapshot_in_transaction (project_id : string) (status : ProjectEnvObservedStatus)
    (message : option string) (warnings : list ProjectEnvObservedWarningInput) (now : string)
    (d : Db) : result StateError Db :=
  let d := upsert_observed PROJECT_ENV_OBSERVED_SUBJECT_KIND project_id (as_str status) message now d in
  try_fold (insert_warning project_id now) warnings (delete_warnings project_id d).

Definition warning_into_record (project_id kind message observed_at : string) :
    result StateError ProjectEnvObservedWarningRecord :=
  _ ← validate_project_env_observed_warning_component "kind" kind;
  _ ← validate_project_env_observed_warning_component "message" message;
  Ok {| wr_project_id := project_id; wr_kind := kind; wr_message := message;
        wr_observed_at := observed_at |}.

Definition warning_rows (project_id : string) (d : Db) : list (string * string * string) :=
  order_by (λ '(kind, message, _), [kind; message])
    (omap (λ '(k, at'), if bool_decide (k.1.1 = project_id) then Some (k.1.2, k.2, at') else None)
       (map_to_list (project_env_observed_warnings d))).

(** [Database::project_env_observed_warnings]. *)
Definition list_project_env_observed_warnings (project_id : string) (d : Db) :
    result StateError (list ProjectEnvObservedWarningRecord) :=
  try_map (λ '(kind, message, at'), warning_into_record project_id kind message at')
    (warning_rows project_id d).

Definition project_env_observed_state (project_id : string) (d : Db) :
    result StateError (option ProjectEnvObservedStateRecord) :=
  match observed_states d !! (PROJECT_ENV_OBSERVED_SUBJECT_KIND, project_id) with
  | None => Ok None
  | Some row =>
      warnings ← list_project_env_observed_warnings project_id d;
      status ← env_status_from_database (o_status row);
      Ok (Some {| es_project_id := project_id; es_status := status; es_message := o_message row;
                  es_observed_at := o_observed_at row; es_warnings := warnings |})
  end.

Definition record_project_env_observed_snapshot (project_id : string)
    (status : ProjectEnvObservedStatus) (message : option string)
    (warnings : list ProjectEnvObservedWarningInput) (now : string) :
    Op ProjectEnvObservedStateRecord :=
  autocommit (λ d,
      _ ← validate_project_env_observed_warnings warnings;
      _ ← ensure_project_exists project_id d;
      record_snapshot_in_transaction project_id status message warnings now d)
    (λ d, state ← project_env_observed_state project_id d; ok_or state (ProjectNotFound project_id)).

(** ** Runtime snapshots *)

Record RuntimeObservedStateRecord := {
  rs_subject : RuntimeSubject;
  rs_status : RuntimeObservedStatus;
  rs_message : option string;
  rs_observed_at : string;
}.

Definition record_runtime_observed_snapshot (subject : RuntimeSubject)
    (status : RuntimeObservedStatus) (message : option string) (now : string) :
    Op RuntimeObservedStateRecord := λ d,
  match subject_id subject with
  | Err e => (Err e, d)
  | Ok id =>
      (Ok {| rs_subject := subject; rs_status := status; rs_message := message;
             rs_observed_at := now |},
       upsert_observed (subject_kind subject) id (as_str status) message now d)
  end.

Definition runtime_into_record (kind id : string) (row : ObservedRow) :
    result StateError RuntimeObservedStateRecord :=
  subject ← runtime_subject_from_database kind id;
  status ← runtime_status_from_database (o_status row);
  Ok {| rs_subject := subject; rs_status := status; rs_message := o_message row;
        rs_observed_at := o_observed_at row |}.

Definition runtime_rows (d : Db) : list (string * string * ObservedRow) :=
  order_by (λ '(k, _), [k.1; k.2])
    (filter (λ '(k, _), k.1 = RUNTIME_OBSERVED_SUBJECT_KIND
                        ∨ k.1 = PHP_RUNTIME_WORKER_OBSERVED_SUBJECT_KIND)
       (map_to_list (observed_states d))).

Definition runtime_observed_states (d : Db) : result StateError (list RuntimeObservedStateRecord) :=
  try_map (λ '(k, row), runtime_into_record k.1 k.2 row) (runtime_rows d).

(** ** Well-formedness *)

(** Every observed row can be read back, and warnings belong to projects. *)
Record observed_wf (d : Db) : Prop := {
  ow_env : ∀ p row, observed_states d !! (PROJECT_ENV_OBSERVED_SUBJECT_KIND, p) = Some row →
    is_ok (env_status_from_database (o_status row)) = true;
  ow_runtime : ∀ kind id row, observed_states d !! (kind, id) = Some row →
    kind = RUNTIME_OBSERVED_SUBJECT_KIND ∨ kind = PHP_RUNTIME_WORKER_OBSERVED_SUBJECT_KIND →
    is_ok (runtime_into_record kind id row) = true;
  ow_project : ∀ p k m row, project_env_observed_warnings d !! (p, k, m) = Some row →
    is_Some (projects d !! p)
    ∧ is_empty (trim k) = false ∧ is_empty (trim m) = false;
}.

(** ** The observed state of a project *)

Definition env_key (p : string) : string * string := (PROJECT_ENV_OBSERVED_SUBJECT_KIND, p).
Definition warning_pairs (ws : list ProjectEnvObservedWarningInput) : list (string * string) := (λ w, (wi_kind w, wi_message w)) <$> ws.

(** The snapshot of [p] is the given one, the other observed states and tables stay. *)
Record snapshot_taken (p : string) (status : ProjectEnvObservedStatus) (message : option string)
    (ws : list ProjectEnvObservedWarningInput) (now : string) (d d' : Db) : Prop := {
  st_row : observed_states d' !! env_key p = Some {| o_status := as_str status; o_message := message; o_observed_at := now |};
  st_warnings : ∀ k m, is_Some (project_env_observed_warnings d' !! (p, k, m)) ↔ (k, m) ∈ warning_pairs ws;
  st_others : (∀ key, key ≠ env_key p → observed_states d' !! key = observed_states d !! key)
    ∧ (∀ p' k m, p' ≠ p → project_env_observed_warnings d' !! (p', k, m) = project_env_observed_warnings d !! (p', k, m));
  st_rest : ∃ o w, d' = set_project_env_observed_warnings (λ _, w) (set_observed_states (λ _, o) d);
}.

Lemma insert_warnings_ok p now ws d d' : try_fold (insert_warning p now) ws d = Ok d' →
  ∃ w, d' = set_project_env_observed_warnings (λ _, w) d
    ∧ (∀ k m, is_Some (w !! (p, k, m)) ↔ is_Some (project_env_observed_warnings d !! (p, k, m)) ∨ (k, m) ∈ warning_pairs ws)
    ∧ (∀ p' k m, p' ≠ p → w !! (p', k, m) = project_env_observed_warnings d !! (p', k, m)).
Proof.
  revert d. induction ws as [|x ws IH]; intros d Hf; cbn in Hf.
  { inv_ok. exists (project_env_observed_warnings d'). split_and!; [by destruct d'| |done]. intros k m. cbn.
    split; [by left|intros [?|[]%elem_of_nil]; done]. }
  inv_ok. unfold insert_warning in E. destruct (option_bool _); [done|]. destruct (negb _); [done|]. inv_ok.
  destruct (IH _ Hf) as (w & -> & Hin & Hout). exists w. split_and!; [done| |].
  - intros k m. rewrite Hin. cbn. rewrite elem_of_cons. destruct (decide ((p, wi_kind x, wi_message x) = (p, k, m))) as [[= <- <-]|Hne].
    + rewrite lookup_insert_eq. split; [intros _; right; by left|intros _; left; by eexists].
    + rewrite lookup_insert_ne by done. split; [naive_solver|]. intros [?|[[= -> ->]|?]]; [by left|done|by right].
  - intros p' k m Hne. rewrite Hout by done. cbn. apply lookup_insert_ne. congruence.
Qed.

Lemma snapshot_ok p status message ws now d d' : record_snapshot_in_transaction p status message ws now d = Ok d' →
  snapshot_taken p status message ws now d d'.
Proof.
  intros (w & -> & Hin & Hout)%insert_warnings_ok. split.
  - apply lookup_insert_eq.
  - intros k m. cbn in *. rewrite Hin. split; [|by right]. intros [[x [_ []]%map_lookup_filter_Some]|?]; [done|done].
  - split; [intros key Hne; exact (lookup_insert_ne _ _ _ _ (not_eq_sym Hne))|]. intros p' k m Hne. cbn. rewrite Hout by done. cbn.
    destruct (project_env_observed_warnings d !! (p', k, m)) as [x|] eqn:Hx.
    + by apply map_lookup_filter_Some.
    + apply map_lookup_filter_None. by left.
  - by eexists _, w.
Qed.

Lemma no_warnings_rows p status message now d d' : snapshot_taken p status message [] now d d' → warning_rows p d' = [].
Proof.
  intros Ht. unfold warning_rows. assert (∀ l, l ⊆ map_to_list (project_env_observed_warnings d') →
    omap (λ '(k, at'), if bool_decide (k.1.1 = p) then Some (k.1.2, k.2, at') else None) l = []) as Hnone; [|by rewrite Hnone].
  intros l. induction l as [|[[[q k] m] at'] l IH]; intros Hl; [done|]. cbn. rewrite IH by (intros x Hx; apply Hl; by right).
  case_bool_decide as Hq; [|done]. cbn in Hq. subst q.
  assert (project_env_observed_warnings d' !! (p, k, m) = Some at') as Hat by (apply elem_of_map_to_list, Hl; by left).
  assert ((k, m) ∈ warning_pairs []) as []%elem_of_nil by (apply (st_warnings _ _ _ _ _ _ _ Ht k m); by eexists).
Qed.

(** A failure is recorded whenever the project is there. *)
Lemma snapshot_recorded p status message now d : is_Some (projects d !! p) → ∃ record d',
  record_project_env_observed_snapshot p status message [] now d = (Ok record, d') ∧ snapshot_taken p status message [] now d d'.
Proof.
  intros [row Hrow]. unfold record_project_env_observed_snapshot, autocommit, ensure_project_exists. rewrite Hrow. cbn -[delete_warnings upsert_observed].
  set (d' := delete_warnings p _). assert (snapshot_taken p status message [] now d d') as Ht by (by apply snapshot_ok).
  exists {| es_project_id := p; es_status := status; es_message := message; es_observed_at := now; es_warnings := [] |}, d'.
  split; [|done]. f_equal. unfold project_env_observed_state. pose proof (st_row _ _ _ _ _ _ _ Ht) as Hst. unfold env_key in Hst. rewrite Hst.
  unfold list_project_env_observed_warnings. rewrite (no_warnings_rows _ _ _ _ _ _ Ht). by destruct status.
Qed.
