(* ===== verification/StateProjects.v ===== *)
(** * Projects and hostnames: linking, unlinking, hostname ownership, slugs and ids
    ([state/src/database.rs], [state/src/sql/001], [003], [009]) *)

From stdpp Require Import fin.
From S2P Require Import Prelude RustStr Paths Hostname StateTypes StateDb StateResources.
From S2P Require Import StateObserved.
#[local] Set Warnings "-abstract-large-number".

Definition PROJECT_ID_LENGTH : nat := 10.
Definition PROJECT_ID_ATTEMPTS : nat := 16.
Definition PROJECT_ID_ALPHABET : string := "abcdefghijklmnopqrstuvwxyz0123456789".
Definition PROJECT_SLUG_ATTEMPTS : nat := 10000.

(** ** Records *)

Record LinkProjectInput := {
  l_path : string;
  l_original_path : string;
  l_primary_hostname : string;
  l_config_path : string;
  l_desired_php_track : option string;
  l_additional_hostnames : list string;
}.

Inductive LinkProjectStatus : Type := Created | Updated | Unchanged.
#[export] Instance link_status_eq_dec : EqDecision LinkProjectStatus.
Proof. solve_decision. Defined.

Record ProjectPhpRuntimeRecord := {
  rt_track : option string;
  rt_requested_extensions : list string;
  rt_loaded_extensions : list string;
  rt_ignored_extensions : list string;
}.

Record ProjectPhpRuntimeInput := {
  rti_track : string;
  rti_requested_extensions : list string;
  rti_loaded_extensions : list string;
  rti_ignored_extensions : list string;
}.

Record ProjectRecord := {
  id : string;
  slug : string;
  mode : ProjectMode;
  path : string;
  original_path : string;
  primary_hostname : option string;
  config_path : string;
  desired_php_track : option string;
  php_runtime : ProjectPhpRuntimeRecord;
  additional_hostnames : list string;
  created_at : string;
  updated_at : string;
}.

Record LinkProjectResult := { lr_status : LinkProjectStatus; lr_project : ProjectRecord }.

Record ProjectConfigWatch := { watch_project_id : string; watch_project_path : string }.

(** ** Validation *)

Definition validate_original_project_path (path : string) : result StateError unit :=
  ensure (is_absolute path) (InvalidProjectPath "original path" path "path must be absolute").

Definition not_canonical (c : component) : bool :=
  match c with CurDir | ParentDir => true | _ => false end.

Definition validate_project_path (kind path : string) : result StateError unit :=
  if negb (is_absolute path) then Err (InvalidProjectPath kind path "path must be absolute")
  else if existsb not_canonical (components path)
  then Err (InvalidProjectPath kind path "path must be canonical")
  else Ok tt.

Definition hostname_label_char (c : ascii) : bool :=
  is_ascii_lowercase c || is_ascii_digit c || char_eqb c "-".

Definition validate_project_hostname_label (hostname label : string) : result StateError unit :=
  if is_empty label then Err (InvalidProjectHostname hostname "hostname labels must not be empty")
  else if MAX_DNS_LABEL_LENGTH <? len label
  then Err (InvalidProjectHostname hostname "hostname labels must be at most 63 bytes")
  else if str_all hostname_label_char label && negb (starts_with_char "-" label)
          && negb (ends_with_char "-" label)
  then Ok tt
  else Err (InvalidProjectHostname hostname
              "hostname labels must contain only lowercase letters, numbers, or interior hyphens").

Definition validate_project_hostname (hostname : string) : result StateError unit :=
  if is_empty hostname then Err (InvalidProjectHostname hostname "hostname must not be empty")
  else if negb (bool_decide (hostname = to_ascii_lowercase hostname))
  then Err (InvalidProjectHostname hostname "hostname must be normalized lowercase")
  else if bool_decide (hostname = RESERVED_HOSTNAME)
  then Err (InvalidProjectHostname hostname "`pv.test` is reserved")
  else if negb (ends_with ".test" hostname)
  then Err (InvalidProjectHostname hostname "hostname must end in `.test`")
  else if MAX_HOSTNAME_LENGTH <? len hostname
  then Err (InvalidProjectHostname hostname "hostname must be at most 253 bytes")
  else try_iter (validate_project_hostname_label hostname) (split "." hostname).

Definition validate_link_project_input (input : LinkProjectInput) (m : ProjectMode) :
    result StateError unit :=
  _ ← validate_project_path "path" (l_path input);
  _ ← validate_original_project_path (l_original_path input);
  _ ← validate_project_path "config path" (l_config_path input);
  _ ← (if bool_decide (m = Served) then
         _ ← validate_project_hostname (l_primary_hostname input);
         try_iter validate_project_hostname (l_additional_hostnames input)
       else Ok tt);
  match l_desired_php_track input with
  | Some track => validate_project_php_track track
  | None => Ok tt
  end.

(** ** Internal hostnames *)

Definition internal_project_hostname (project_id : string) : string := project_id +:+ ".invalid".
Definition is_internal_project_hostname (hostname : string) : bool := ends_with ".invalid" hostname.

(** ** Reading projects *)

Definition additional_hostnames_for_project (project_id : string) (d : Db) : list string :=
  sort_on (λ h, h) (omap (λ '(h, row), if bool_decide (h_project_id row = project_id)
                                          && negb (h_is_primary row) then Some h else None)
                      (map_to_list (project_hostnames d))).

Section reading.
Context `{Json}.

Definition project_php_runtime_for_project (project_id : string) (track : option string) (d : Db) :
    result StateError ProjectPhpRuntimeRecord :=
  row ← ok_or (projects d !! project_id) (ProjectNotFound project_id);
  requested ← parse_user_extension_json project_id "requested" (p_requested_extensions_json row);
  loaded ← parse_runtime_extension_json project_id "loaded" (p_loaded_extensions_json row);
  ignored ← parse_user_extension_json project_id "ignored" (p_ignored_extensions_json row);
  Ok {| rt_track := track; rt_requested_extensions := requested; rt_loaded_extensions := loaded;
        rt_ignored_extensions := ignored |}.

Definition project_into_record (d : Db) (project_id : string) (row : ProjectRow) :
    result StateError ProjectRecord :=
  runtime ← project_php_runtime_for_project project_id (p_desired_php_track row) d;
  s ← ok_or (p_project_slug row) (ProjectSlugMissing project_id);
  m ← project_mode_from_database (p_serves_http row);
  Ok {| id := project_id; slug := s; mode := m; path := p_path row;
        original_path := default (p_path row) (p_original_path row);
        primary_hostname := if is_internal_project_hostname (p_primary_hostname row) then None
                            else Some (p_primary_hostname row);
        config_path := default (path_join (p_path row) "pv.yml") (p_config_path row);
        desired_php_track := p_desired_php_track row; php_runtime := runtime;
        additional_hostnames := additional_hostnames_for_project project_id d;
        created_at := p_created_at row; updated_at := p_updated_at row |}.

(** The row a [WHERE] clause selects. *)
Definition find_project (p : string → ProjectRow → bool) (d : Db) : option (string * ProjectRow) :=
  List.find (λ kr, p kr.1 kr.2) (map_to_list (projects d)).

Definition read_project (row : option (string * ProjectRow)) (d : Db) :
    result StateError (option ProjectRecord) :=
  match row with
  | Some (i, row) => Some <$> project_into_record d i row
  | None => Ok None
  end.

Definition project_by_id (project_id : string) (d : Db) : result StateError (option ProjectRecord) :=
  read_project ((λ row, (project_id, row)) <$> projects d !! project_id) d.

Definition project_by_path (p : string) (d : Db) : result StateError (option ProjectRecord) :=
  read_project (find_project (λ _ row, bool_decide (p_path row = p)) d) d.

Definition project_by_hostname (hostname : string) (d : Db) :
    result StateError (option ProjectRecord) :=
  read_project (row ← project_hostnames d !! hostname;
                (λ r, (h_project_id row, r)) <$> projects d !! h_project_id row) d.

Definition project_by_slug (s : string) (d : Db) : result StateError (option ProjectRecord) :=
  read_project (find_project (λ _ row, bool_decide (p_project_slug row = Some s)) d) d.

(** [Database::projects]: [ORDER BY project_slug] puts a missing slug first. *)
Definition list_projects (d : Db) : result StateError (list ProjectRecord) :=
  try_map (λ '(i, row), project_into_record d i row)
    (order_by (λ '(_, row), option_list (p_project_slug row)) (map_to_list (projects d))).

(** [max_by_key]: the last of the longest. *)
Definition longer (best : option ProjectRecord) (p : ProjectRecord) : option ProjectRecord :=
  match best with
  | Some b => if len (path b) <=? len (path p) then Some p else Some b
  | None => Some p
  end.

Definition nearest_project_for_path (p : string) (d : Db) : result StateError (option ProjectRecord) :=
  l ← list_projects d;
  Ok (foldl longer None (filter (λ r, path_starts_with p (path r) = true) l)).
End reading.

Definition project_config_watches (d : Db) : list ProjectConfigWatch :=
  (λ '(i, row), {| watch_project_id := i; watch_project_path := p_path row |})
    <$> sort_on fst (map_to_list (projects d)).

(** ** Hostname ownership *)

Definition project_owner_for_hostname (hostname : string) (d : Db) : option string :=
  h_project_id <$> project_hostnames d !! hostname.

Definition hostname_set_step (project_id : string) (d : Db) (hostnames : gset string)
    (hostname : string) : result StateError (gset string) :=
  _ ← validate_project_hostname hostname;
  if bool_decide (hostname ∈ hostnames) then Err (DuplicateProjectHostname hostname)
  else
    match project_owner_for_hostname hostname d with
    | Some owner =>
        if bool_decide (owner = project_id) then Ok ({[hostname]} ∪ hostnames)
        else Err (ProjectHostnameCollision hostname owner)
    | None => Ok ({[hostname]} ∪ hostnames)
    end.

Definition validate_project_hostname_set (project_id primary : string) (additional : list string)
    (d : Db) : result StateError unit :=
  _ ← try_fold (hostname_set_step project_id d) (primary :: additional) ∅; Ok tt.

Definition validate_project_hostnames (project_id primary_hostname : string)
    (additional_hostnames : list string) (d : Db) : result StateError unit :=
  validate_project_hostname_set project_id primary_hostname additional_hostnames d.

(** ** The global PHP default *)

Definition read_global_php_default_track (d : Db) : option string := fst <$> global_php_default_track d.

Definition record_global_php_default_track (track now : string) : Op unit := λ d,
  match validate_concrete_track track with
  | Ok _ => (Ok tt, set_global_php_default_track (λ _, Some (track, now)) d)
  | Err e => (Err e, d)
  end.

(** ** Ids and slugs

    [draw] is the sequence of indices the random generator returns. *)

Definition random_project_id (draw : nat → fin 36) (attempt : nat) : string :=
  str_concat ((λ i, match String.get (fin_to_nat (draw (attempt * PROJECT_ID_LENGTH + i)))
                            PROJECT_ID_ALPHABET with
                    | Some c => String c "" | None => "" end) <$> seq 0 PROJECT_ID_LENGTH).

Definition generate_project_id (draw : nat → fin 36) (d : Db) : result StateError string :=
  ok_or (List.find (λ i, negb (option_bool (projects d !! i)))
           (random_project_id draw <$> seq 0 PROJECT_ID_ATTEMPTS))
    (ProjectIdExhausted PROJECT_ID_ATTEMPTS).

Definition project_slug_base (project_path : string) : result StateError string :=
  match file_name project_path with
  | None => Err (InvalidProjectSlug project_path)
  | Some name =>
      let s := slug_of name in
      if is_empty s || (MAX_DNS_LABEL_LENGTH <? len s) then Err (InvalidProjectSlug name) else Ok s
  end.

Definition slug_attempt (base : string) (attempt : nat) : string :=
  match attempt with
  | 0 => base
  | _ =>
      let suffix := "-" +:+ show_nat attempt in
      let maximum_base_length := MAX_DNS_LABEL_LENGTH - len suffix in
      let base_length := len base `min` maximum_base_length in
      trim_end_matches "-" (str_take base_length base) +:+ suffix
  end.

Definition slug_taken (s : string) (d : Db) : bool :=
  existsb (λ kr, bool_decide (p_project_slug kr.2 = Some s)) (map_to_list (projects d)).

(** The loop [for attempt in 0..PROJECT_SLUG_ATTEMPTS]. *)
Fixpoint slug_search (base : string) (d : Db) (attempt remaining : nat) : result StateError string :=
  match remaining with
  | 0 => Err (ProjectSlugExhausted PROJECT_SLUG_ATTEMPTS)
  | S remaining =>
      let s := slug_attempt base attempt in
      if slug_taken s d then slug_search base d (S attempt) remaining else Ok s
  end.

Definition generate_project_slug (project_path : string) (d : Db) : result StateError string :=
  base ← project_slug_base project_path; slug_search base d 0 PROJECT_SLUG_ATTEMPTS.

(** ** Writing projects *)

Definition other_project (p : ProjectRow → bool) (project_id : string) (d : Db) : bool :=
  existsb (λ kr, negb (bool_decide (kr.1 = project_id)) && p kr.2) (map_to_list (projects d)).

Definition unique_violation {A} (columns : string) : result StateError A :=
  Err (Sqlite (UniqueViolation columns)).

(** [INSERT INTO projects], its UNIQUE columns and the slug trigger. *)
Definition insert_project (project_id project_slug : string) (input : LinkProjectInput)
    (m : ProjectMode) (now : string) (d : Db) : result StateError Db :=
  if is_empty project_slug then Err (Sqlite (TriggerAbort "project slug is required"))
  else if option_bool (projects d !! project_id) then unique_violation "projects.id"
  else if other_project (λ row, bool_decide (p_path row = l_path input)) project_id d
  then unique_violation "projects.path"
  else if other_project (λ row, bool_decide (p_primary_hostname row = l_primary_hostname input))
            project_id d
  then unique_violation "projects.primary_hostname"
  else if slug_taken project_slug d then unique_violation "projects.project_slug"
  else
    Ok (set_projects (<[project_id :=
      {| p_path := l_path input; p_primary_hostname := l_primary_hostname input;
         p_config_path := Some (l_config_path input);
         p_desired_php_track := l_desired_php_track input; p_created_at := now;
         p_updated_at := now; p_original_path := Some (l_original_path input);
         p_requested_extensions_json := "[]"; p_loaded_extensions_json := "[]";
         p_ignored_extensions_json := "[]"; p_project_slug := Some project_slug;
         p_serves_http := project_mode_as_database m |}]>) d).

(** The triggers of [001]: a primary row must carry its project's primary hostname. *)
Definition check_primary_matches (hostname : string) (row : HostnameRow) (d : Db) :
    result StateError unit :=
  match projects d !! h_project_id row with
  | Some p =>
      if h_is_primary row && negb (bool_decide (p_primary_hostname p = hostname))
      then Err (Sqlite (TriggerAbort "primary hostname must match project primary_hostname"))
      else Ok tt
  | None => Ok tt
  end.

Definition primary_rows (project_id : string) (d : Db) : list string :=
  omap (λ '(h, row), if bool_decide (h_project_id row = project_id) && h_is_primary row
                     then Some h else None) (map_to_list (project_hostnames d)).

(** [UPDATE project_hostnames SET hostname = ..] of one row. *)
Definition rename_hostname (new : string) (d : Db) (old : string) : result StateError Db :=
  match project_hostnames d !! old with
  | None => Ok d
  | Some row =>
      _ ← check_primary_matches new row d;
      if negb (bool_decide (new = old)) && option_bool (project_hostnames d !! new)
      then unique_violation "project_hostnames.hostname"
      else Ok (set_project_hostnames (λ m, <[new := row]> (delete old m)) d)
  end.

(** The trigger of [003], after an update of [projects.primary_hostname]. *)
Definition sync_primary_hostname (project_id new : string) (d : Db) : result StateError Db :=
  try_fold (rename_hostname new) (primary_rows project_id d) d.

Definition update_row (input : LinkProjectInput) (m : ProjectMode) (now : string) (row : ProjectRow) :
    ProjectRow :=
  {| p_path := p_path row; p_primary_hostname := l_primary_hostname input;
     p_config_path := Some (l_config_path input);
     p_desired_php_track := l_desired_php_track input; p_created_at := p_created_at row;
     p_updated_at := now; p_original_path := Some (l_original_path input);
     p_requested_extensions_json := p_requested_extensions_json row;
     p_loaded_extensions_json := p_loaded_extensions_json row;
     p_ignored_extensions_json := p_ignored_extensions_json row;
     p_project_slug := p_project_slug row; p_serves_http := project_mode_as_database m |}.

Definition with_runtime (track : option string) (requested loaded ignored : string) (now : string)
    (row : ProjectRow) : ProjectRow :=
  {| p_path := p_path row; p_primary_hostname := p_primary_hostname row;
     p_config_path := p_config_path row; p_desired_php_track := track;
     p_created_at := p_created_at row; p_updated_at := now; p_original_path := p_original_path row;
     p_requested_extensions_json := requested; p_loaded_extensions_json := loaded;
     p_ignored_extensions_json := ignored; p_project_slug := p_project_slug row;
     p_serves_http := p_serves_http row |}.

Definition clear_extensions (row : ProjectRow) : ProjectRow :=
  with_runtime (p_desired_php_track row) "[]" "[]" "[]" (p_updated_at row) row.

Definition update_project (project_id : string) (input : LinkProjectInput) (m : ProjectMode)
    (now : string) (d : Db) : result StateError Db :=
  row ← ok_or (projects d !! project_id) (Sqlite QueryReturnedNoRows);
  let should_clear_runtime_extensions :=
    negb (bool_decide (p_desired_php_track row = l_desired_php_track input)) in
  if other_project (λ row, bool_decide (p_primary_hostname row = l_primary_hostname input))
       project_id d
  then unique_violation "projects.primary_hostname"
  else
    d ← sync_primary_hostname project_id (l_primary_hostname input)
          (set_projects (alter (update_row input m now) project_id) d);
    Ok (if should_clear_runtime_extensions
        then set_projects (alter clear_extensions project_id) d else d).

(** ** Writing hostnames *)

Definition delete_same_project_additional_hostname (project_id hostname : string) : Db → Db :=
  set_project_hostnames (filter (λ '(h, row),
    ¬ (h_project_id row = project_id ∧ h = hostname ∧ h_is_primary row = false))).

Definition insert_hostname (or_ignore : bool) (hostname : string) (row : HostnameRow) (d : Db) :
    result StateError Db :=
  _ ← check_primary_matches hostname row d;
  if option_bool (project_hostnames d !! hostname) then
    if or_ignore then Ok d else unique_violation "project_hostnames.hostname"
  else if h_is_primary row && negb (bool_decide (primary_rows (h_project_id row) d = [])) then
    if or_ignore then Ok d else unique_violation "project_hostnames.project_id"
  else if negb (option_bool (projects d !! h_project_id row))
  then Err (Sqlite (ForeignKeyViolation "project_hostnames"))
  else Ok (set_project_hostnames (<[hostname := row]>) d).

Definition delete_additional_hostnames (project_id : string) : Db → Db :=
  set_project_hostnames (filter (λ '(_, row),
    ¬ (h_project_id row = project_id ∧ h_is_primary row = false))).

Definition hostname_row (project_id now : string) (primary : bool) : HostnameRow :=
  {| h_project_id := project_id; h_is_primary := primary; h_created_at := now |}.

Definition insert_additional (project_id now : string) (d : Db) (hostname : string) :
    result StateError Db :=
  insert_hostname false hostname (hostname_row project_id now false) d.

Definition replace_project_hostnames (project_id : string) (input : LinkProjectInput) (now : string)
    (d : Db) : result StateError Db :=
  d ← insert_hostname true (l_primary_hostname input) (hostname_row project_id now true) d;
  try_fold (insert_additional project_id now) (l_additional_hostnames input)
    (delete_additional_hostnames project_id d).

(** ** Linking *)

Definition sorted_hostnames (hostnames : list string) : list string := sort_on (λ h, h) hostnames.

Definition with_hostnames (primary : string) (additional : list string) (input : LinkProjectInput) :
    LinkProjectInput :=
  {| l_path := l_path input; l_original_path := l_original_path input;
     l_primary_hostname := primary; l_config_path := l_config_path input;
     l_desired_php_track := l_desired_php_track input; l_additional_hostnames := additional |}.

(** Paths are compared by components, as [Utf8PathBuf]'s [PartialEq] does. *)
Definition project_matches_input (p : ProjectRecord) (input : LinkProjectInput) (m : ProjectMode) :
    bool :=
  path_eqb (path p) (l_path input)
  && path_eqb (original_path p) (l_original_path input)
  && bool_decide (primary_hostname p
       = if is_internal_project_hostname (l_primary_hostname input) then None
         else Some (l_primary_hostname input))
  && bool_decide (mode p = m)
  && path_eqb (config_path p) (l_config_path input)
  && bool_decide (desired_php_track p = l_desired_php_track input)
  && bool_decide (sorted_hostnames (additional_hostnames p)
       = sorted_hostnames (l_additional_hostnames input)).

(** A resource-only project keeps the hostnames it had. *)
Definition resource_only_input (existing : option ProjectRecord) (project_id : string)
    (input : LinkProjectInput) : LinkProjectInput :=
  match existing with
  | Some p => with_hostnames (default (internal_project_hostname project_id) (primary_hostname p))
                (additional_hostnames p) input
  | None => with_hostnames (internal_project_hostname project_id) [] input
  end.

Definition link_status (existing : option ProjectRecord) (input : LinkProjectInput) (m : ProjectMode) :
    LinkProjectStatus :=
  match existing with
  | Some p => if project_matches_input p input m then Unchanged else Updated
  | None => Created
  end.

Section linking.
Context `{Json}.

(** [now1] is read when the row is written, [now2] when the hostnames are. *)
Definition link_project_with_mode (input : LinkProjectInput) (m : ProjectMode)
    (draw : nat → fin 36) (now1 now2 : string) : Op LinkProjectResult := transact (λ d,
  _ ← validate_link_project_input input m;
  existing ← project_by_path (l_path input) d;
  project_id ← match existing with Some p => Ok (id p) | None => generate_project_id draw d end;
  project_slug ← match existing with
                 | Some p => Ok (slug p)
                 | None => generate_project_slug (l_path input) d
                 end;
  input ← (if bool_decide (m = ResourceOnly)
           then Ok (resource_only_input existing project_id input)
           else _ ← validate_project_hostname_set project_id (l_primary_hostname input)
                      (l_additional_hostnames input) d;
                Ok input);
  let status := link_status existing input m in
  d ← match existing with
      | Some p =>
          update_project (id p) input m now1
            (delete_same_project_additional_hostname (id p) (l_primary_hostname input) d)
      | None => insert_project project_id project_slug input m now1 d
      end;
  d ← (if bool_decide (m = Served) || option_bool (existing ≫= primary_hostname)
       then replace_project_hostnames project_id input now2 d else Ok d);
  project ← project_by_id project_id d;
  project ← ok_or project (ProjectNotFound project_id);
  Ok ({| lr_status := status; lr_project := project |}, d)).

Definition link_project (input : LinkProjectInput) : (nat → fin 36) → string → string →
    Op LinkProjectResult := link_project_with_mode input Served.

(** *** Unlinking *)

(** [DELETE FROM projects] with its [ON DELETE CASCADE] references.  The parent row
    is gone when the cascade deletes its hostnames, so their trigger is silent. *)
Definition delete_project (project_id : string) (d : Db) : Db :=
  let d := set_projects (delete project_id) d in
  let d := set_project_hostnames (filter (λ '(_, row), h_project_id row ≠ project_id)) d in
  let d := set_resource_allocations (filter (λ '(_, row), a_project_id row ≠ project_id)) d in
  let d := delete_warnings project_id d in
  foldl (λ d name, delete_requirement (project_id, name) d) d
    (project_managed_resource_names project_id d).

Definition unlink_project (project_id : string) : Op ProjectRecord := transact (λ d,
  project ← project_by_id project_id d;
  project ← ok_or project (ProjectNotFound project_id);
  let d := set_observed_states (delete (PROJECT_ENV_OBSERVED_SUBJECT_KIND, project_id)) d in
  let d := delete_project project_id d in
  Ok (project, recalculate_managed_resource_usage_counts d)).

Definition replace_project_additional_hostnames (project_id : string)
    (additional : list string) (now1 now2 : string) : Op ProjectRecord := transact (λ d,
  project ← project_by_id project_id d;
  project ← ok_or project (ProjectNotFound project_id);
  primary ← ok_or (primary_hostname project) (ProjectNotServed project_id);
  _ ← validate_project_hostname_set project_id primary additional d;
  d ← (if bool_decide (sorted_hostnames (additional_hostnames project) = sorted_hostnames additional)
       then Ok d
       else
         let input := {| l_path := path project; l_original_path := original_path project;
                         l_primary_hostname := primary; l_config_path := config_path project;
                         l_desired_php_track := desired_php_track project;
                         l_additional_hostnames := additional |} in
         d ← update_project project_id input Served now1 d;
         replace_project_hostnames project_id input now2 d);
  project ← project_by_id project_id d;
  project ← ok_or project (ProjectNotFound project_id);
  Ok (project, d)).

(** *** The PHP runtime of a project *)

Definition project_php_runtime_database_values (runtime : option ProjectPhpRuntimeInput) :
    result StateError (option string * string * string * string) :=
  match runtime with
  | Some r =>
      _ ← validate_project_php_track (rti_track r);
      requested ← user_extension_json (rti_requested_extensions r);
      loaded ← runtime_extension_json (rti_loaded_extensions r);
      ignored ← user_extension_json (rti_ignored_extensions r);
      Ok (Some (rti_track r), requested, loaded, ignored)
  | None => Ok (None, "[]", "[]", "[]")
  end.

Definition replace_php_runtime_in_connection (project_id : string)
    (values : option string * string * string * string) (now : string) (d : Db) :
    result StateError Db :=
  let '(track, requested, loaded, ignored) := values in
  _ ← ensure_project_exists project_id d;
  Ok (set_projects (alter (with_runtime track requested loaded ignored now) project_id) d).

Definition replace_project_php_runtime (project_id : string)
    (runtime : option ProjectPhpRuntimeInput) (now : string) : Op ProjectRecord :=
  autocommit (λ d,
      values ← project_php_runtime_database_values runtime;
      replace_php_runtime_in_connection project_id values now d)
    (λ d, project ← project_by_id project_id d; ok_or project (ProjectNotFound project_id)).

Definition replace_project_desired_php_track (project_id : string)
    (desired_php_track : option string) (now : string) : Op ProjectRecord :=
  replace_project_php_runtime project_id
    ((λ track, {| rti_track := track; rti_requested_extensions := []; rti_loaded_extensions := [];
                  rti_ignored_extensions := [] |}) <$> desired_php_track) now.

(** *** Reconciliation *)

Record ProjectReconciliationStateInput := {
  rc_project_id : string;
  rc_link : LinkProjectInput;
  rc_mode : ProjectMode;
  rc_php_runtime : option ProjectPhpRuntimeInput;
  rc_env_status : ProjectEnvObservedStatus;
  rc_env_message : option string;
  rc_env_warnings : list ProjectEnvObservedWarningInput;
}.

Definition with_track (track : option string) (input : LinkProjectInput) : LinkProjectInput :=
  {| l_path := l_path input; l_original_path := l_original_path input;
     l_primary_hostname := l_primary_hostname input; l_config_path := l_config_path input;
     l_desired_php_track := track; l_additional_hostnames := l_additional_hostnames input |}.

Definition finalize_project_reconciliation (input : ProjectReconciliationStateInput)
    (now1 now2 now3 now4 : string) : Op ProjectRecord := transact (λ d,
  let link := with_track (rti_track <$> rc_php_runtime input) (rc_link input) in
  _ ← validate_link_project_input link (rc_mode input);
  _ ← validate_project_env_observed_warnings (rc_env_warnings input);
  runtime ← project_php_runtime_database_values (rc_php_runtime input);
  project ← project_by_id (rc_project_id input) d;
  project ← ok_or project (ProjectNotFound (rc_project_id input));
  link ← (if bool_decide (rc_mode input = ResourceOnly)
          then Ok (resource_only_input (Some project) (id project) link)
          else _ ← validate_project_hostname_set (id project) (l_primary_hostname link)
                     (l_additional_hostnames link) d;
               Ok link);
  d ← update_project (id project) link (rc_mode input) now1
        (delete_same_project_additional_hostname (id project) (l_primary_hostname link) d);
  d ← (if bool_decide (rc_mode input = Served) || option_bool (primary_hostname project)
       then replace_project_hostnames (id project) link now2 d else Ok d);
  d ← replace_php_runtime_in_connection (id project) runtime now3 d;
  d ← record_snapshot_in_transaction (id project) (rc_env_status input) (rc_env_message input)
        (rc_env_warnings input) now4 d;
  project ← project_by_id (id project) d;
  project ← ok_or project (ProjectNotFound (rc_project_id input));
  Ok (project, d)).
End linking.

(** ** Facts about hostnames *)

Lemma hostname_label_char_eq c : hostname_label_char c = label_char c && negb (is_ascii_uppercase c).
Proof.
  apply (eqb_prop _ _). revert c.
  apply (all_bytes_spec (λ c, Bool.eqb (hostname_label_char c)
           (label_char c && negb (is_ascii_uppercase c)))). by vm_compute.
Qed.

Lemma str_all_andb p q s : str_all (λ c, p c && q c) s = str_all p s && str_all q s.
Proof.
  induction s as [|c s IH]; [done|]. simpl. rewrite IH.
  destruct (p c), (q c), (str_all p s), (str_all q s); done.
Qed.

Lemma hostname_label_chars l :
  str_all hostname_label_char l = str_all label_char l && is_lower l.
Proof.
  unfold is_lower. rewrite <-str_all_andb. induction l as [|c l IH]; [done|]. simpl.
  by rewrite IH, hostname_label_char_eq.
Qed.

Lemma validate_label_ok hostname l :
  validate_project_hostname_label hostname l = Ok tt ↔ label_ok l ∧ is_lower l = true.
Proof.
  unfold validate_project_hostname_label, label_ok, MAX_DNS_LABEL_LENGTH.
  destruct (is_empty l) eqn:He; [apply is_empty_true in He; naive_solver|].
  apply is_empty_false in He. destruct (Nat.ltb_spec 63 (len l)); [split; [done|lia]|].
  rewrite hostname_label_chars. destruct (str_all label_char l), (is_lower l),
    (starts_with_char "-" l), (ends_with_char "-" l); simpl; naive_solver.
Qed.

Lemma lower_labels h : is_lower h = true → Forall (λ l, is_lower l = true) (split "." h).
Proof. intros Hl. apply Forall_forall. intros l Hin. by eapply elem_of_split_all. Qed.

Lemma validate_project_hostname_ok h :
  validate_project_hostname h = Ok tt ↔ hostname_ok h ∧ is_lower h = true.
Proof.
  unfold validate_project_hostname, hostname_ok, MAX_HOSTNAME_LENGTH.
  destruct (is_empty h) eqn:He.
  { apply is_empty_true in He as ->. split; [done|]. intros ((_ & Hs & _) & _). by vm_compute in Hs. }
  case_bool_decide as Hlow; simpl.
  2: { split; [done|]. intros [_ Hl]. by rewrite to_ascii_lowercase_id in Hlow. }
  assert (is_lower h = true) as Hl by (rewrite Hlow; apply to_ascii_lowercase_lower).
  case_bool_decide as Hr; [naive_solver|]. destruct (ends_with ".test" h) eqn:Ht; simpl; [|naive_solver].
  destruct (Nat.ltb_spec 253 (len h)); [split; [done|lia]|].
  rewrite try_iter_ok. setoid_rewrite validate_label_ok. rewrite Forall_and.
  pose proof (lower_labels h Hl). naive_solver.
Qed.

Lemma served_not_internal h : hostname_ok h → is_internal_project_hostname h = false.
Proof.
  intros (_ & Ht & _). apply not_true_iff_false. intros Hi.
  apply ends_with_true in Ht as [r ->]. apply ends_with_true in Hi as [r' Hr].
  change ".test" with (".tes" +:+ "t") in Hr. change ".invalid" with (".invali" +:+ "d") in Hr.
  rewrite !str_app_assoc in Hr. apply (f_equal str_last) in Hr. by rewrite !str_last_app in Hr.
Qed.

Lemma internal_is_internal i : is_internal_project_hostname (internal_project_hostname i) = true.
Proof. apply ends_with_app. Qed.

(** ** Facts about slugs *)

(** A slug is a lowercase DNS label. *)
Definition slug_ok (s : string) : Prop := label_ok s ∧ is_lower s = true.

Lemma project_slug_base_ok p base : project_slug_base p = Ok base → slug_ok base.
Proof.
  unfold project_slug_base. destruct (file_name p) as [name|]; [|done].
  destruct (is_empty _) eqn:He; simpl; [done|]. unfold MAX_DNS_LABEL_LENGTH.
  destruct (Nat.ltb_spec 63 (len (slug_of name))); [done|]. intros [= <-].
  apply slug_of_label; [by apply is_empty_false|done].
Qed.

Lemma digit_label_char c : is_ascii_digit c = true →
  label_char c = true ∧ negb (is_ascii_uppercase c) = true ∧ c ≠ "-"%char.
Proof.
  intros Hc. assert (implb (is_ascii_digit c)
    (label_char c && negb (is_ascii_uppercase c) && negb (char_eqb c "-")) = true) as Hall
    by (clear Hc; revert c; apply all_bytes_spec; by vm_compute).
  rewrite Hc in Hall. cbn [implb] in Hall. apply andb_true_iff in Hall as [[H1 H2]%andb_true_iff H3%negb_true_iff]. split; [done|]. split; [done|]. by apply char_eqb_neq.
Qed.

Lemma suffix_facts n : str_all label_char (show_nat n) = true ∧ is_lower (show_nat n) = true
  ∧ lacks "-" (show_nat n) = true ∧ show_nat n ≠ "".
Proof.
  destruct (show_nat_digits n) as [Hd Hne].
  split; [|split; [|split; [|done]]]; (eapply str_all_impl; [|exact Hd]);
    intros c (? & ? & ?)%digit_label_char; try done. by apply negb_true_iff, char_eqb_neq.
Qed.

Lemma str_last_show_nat n s : ends_with_char "-" (s +:+ show_nat n) = false.
Proof.
  destruct (suffix_facts n) as (_ & _ & Hl & Hne). apply bool_decide_eq_false. intros H.
  destruct (str_last_nonempty _ Hne) as [c Hc]. pose proof (str_all_last _ _ _ Hl Hc) as Hcc.
  apply str_last_Some in Hc as [t Ht]. rewrite Ht, str_app_assoc, str_last_app in H.
  injection H as ->. by rewrite char_eqb_refl in Hcc.
Qed.

Lemma starts_with_char_take c n s : 0 < n → starts_with_char c (str_take n s) = starts_with_char c s.
Proof. destruct n, s; [lia|lia|done|done]. Qed.

Lemma slug_attempt_ok base n : slug_ok base → (N.of_nat n < 10 ^ 61)%N → slug_ok (slug_attempt base n).
Proof.
  intros Hb Hn. destruct n as [|n]; [done|]. unfold slug_attempt.
  set (m := S n) in *. pose proof (len_show_nat m 61 Hn ltac:(lia)) as Hlen.
  destruct Hb as [(Hne & Hbl & Hc & Hst & _) Hlow]. destruct (suffix_facts m) as (Hsc & Hsl & _ & _).
  assert (len ("-" +:+ show_nat m) = S (len (show_nat m))) as Hsuf by done.
  unfold MAX_DNS_LABEL_LENGTH. rewrite Hsuf.
  set (k := len base `min` (63 - S (len (show_nat m)))).
  assert (0 < len base) as Hpos by (destruct base; [done|unfold len; simpl; lia]).
  assert (0 < k) as Hk by (unfold k; lia).
  assert (trim_end_matches "-" (str_take k base) ≠ "") as Hne'.
  { apply trim_end_matches_nonempty; [|by rewrite starts_with_char_take].
    by destruct base, k; [done|done|lia|]. }
  split; [split_and!|].
  - intros H%(f_equal len). rewrite len_app, Hsuf in H. simpl in H. lia.
  - rewrite len_app, Hsuf. pose proof (len_trim_end_matches "-" (str_take k base)) as Ht.
    rewrite len_str_take in Ht. lia.
  - rewrite !str_all_app, Hsc. simpl. rewrite andb_true_r. by apply trim_end_matches_all, str_all_take.
  - rewrite starts_with_char_app by done.
    destruct (trim_end_matches_head "-" (str_take k base)) as [|Hh]; [done|].
    unfold starts_with_char. rewrite Hh. by rewrite <-(starts_with_char_take _ k) in Hst.
  - rewrite str_app_assoc. apply str_last_show_nat.
  - rewrite !is_lower_app, Hsl. unfold is_lower at 1. rewrite trim_end_matches_all; [done|].
    by apply str_all_take.
Qed.

(** Past the first attempt, the candidate slugs are all different. *)
Lemma dash_suffix_inj s1 s2 n m :
  s1 +:+ ("-" +:+ show_nat n) = s2 +:+ ("-" +:+ show_nat m) → n = m.
Proof.
  intros H%(f_equal (split "-")). change ("-" +:+ show_nat n) with (String "-" (show_nat n)) in H.
  change ("-" +:+ show_nat m) with (String "-" (show_nat m)) in H. rewrite !split_app in H.
  rewrite (split_lacks "-" (show_nat n)), (split_lacks "-" (show_nat m)) in H by apply suffix_facts. apply app_inj_tail in H as [_ H].
  by apply show_nat_inj.
Qed.

Lemma slug_attempt_inj base n m : slug_attempt base (S n) = slug_attempt base (S m) → n = m.
Proof. intros H%dash_suffix_inj. lia. Qed.

Lemma slug_taken_true s d : slug_taken s d = true ↔ ∃ i p, projects d !! i = Some p ∧ p_project_slug p = Some s.
Proof.
  unfold slug_taken. rewrite existsb_exists. split.
  - intros ([i p] & Hin%list_elem_of_In%elem_of_map_to_list & Hs). split_bools. eauto.
  - intros (i & p & Hi & Hs). exists (i, p). split; [by apply list_elem_of_In, elem_of_map_to_list|].
    by apply bool_decide_eq_true_2.
Qed.

Lemma slug_search_ok base d a r s : slug_search base d a r = Ok s →
  ∃ n, a ≤ n < a + r ∧ s = slug_attempt base n ∧ slug_taken s d = false
    ∧ ∀ m, a ≤ m < n → slug_taken (slug_attempt base m) d = true.
Proof.
  revert a. induction r as [|r IH]; intros a; [done|]. cbn [slug_search].
  destruct (slug_taken (slug_attempt base a) d) eqn:Ht.
  - intros (n & Hn & -> & Hf & Hall)%IH. exists n. split_and!; [lia|lia|done|done|].
    intros m Hm. destruct (decide (m = a)) as [->|]; [done|]. apply Hall. lia.
  - intros [= <-]. exists a. split_and!; [lia|lia|done|done|]. intros; lia.
Qed.

Lemma slug_search_err base d a r e : slug_search base d a r = Err e →
  e = ProjectSlugExhausted PROJECT_SLUG_ATTEMPTS
  ∧ ∀ m, a ≤ m < a + r → slug_taken (slug_attempt base m) d = true.
Proof.
  revert a. induction r as [|r IH]; intros a; cbn [slug_search].
  { intros [= <-]. split; [done|]. intros; lia. }
  destruct (slug_taken (slug_attempt base a) d) eqn:Ht; [|done].
  intros [-> Hall]%IH. split; [done|]. intros m Hm.
  destruct (decide (m = a)) as [->|]; [done|]. apply Hall. lia.
Qed.

(** Distinct taken slugs need distinct projects. *)
Lemma taken_slugs_le d (l : list string) : NoDup l → (∀ s, s ∈ l → slug_taken s d = true) →
  length l ≤ size (projects d).
Proof.
  intros Hnd Hl.
  assert (l ⊆+ omap (λ kr, p_project_slug kr.2) (map_to_list (projects d))) as Hsub.
  { apply NoDup_submseteq; [done|]. intros s Hs. apply Hl, slug_taken_true in Hs as (i & p & Hi & Hs).
    apply list_elem_of_omap. exists (i, p). by rewrite elem_of_map_to_list. }
  apply submseteq_length in Hsub. etrans; [exact Hsub|].
  rewrite <-length_map_to_list. generalize (map_to_list (projects d)) as kr.
  induction kr as [|[i p] kr IH]; [done|]. simpl. unfold omap in IH.
  destruct (p_project_slug p); simpl; lia.
Qed.

(** ** Properties of slugs and hostnames *)

(** The state crate accepts a hostname exactly when the config crate's
    normalisation returns it unchanged: what a [pv.yml] yields can always be
    stored, and nothing else can. *)
Theorem state_and_config_hostnames_agree h :
  validate_project_hostname h = Ok tt ↔ normalize_additional_hostname h = Ok h.
Proof.
  rewrite validate_project_hostname_ok. split.
  - intros [Hh Hl]. by apply normalize_hostname_fixed.
  - by intros H%normalize_hostname_inv.
Qed.

(** The slug generated for a project path is a lowercase DNS label that no
    project has; generation fails only when the directory name gives no slug or,
    after ten thousand attempts, when at least 9999 projects are stored. *)
Theorem generate_project_slug_spec p d :
  match generate_project_slug p d with
  | Ok s => slug_ok s ∧ (∀ i row, projects d !! i = Some row → p_project_slug row ≠ Some s)
  | Err e => project_slug_base p = Err e
      ∨ e = ProjectSlugExhausted PROJECT_SLUG_ATTEMPTS ∧ (9999 <= N.of_nat (size (projects d)))%N
  end.
Proof.
  unfold generate_project_slug. destruct (project_slug_base p) as [base|e] eqn:Hb; [|by left].
  cbn [mbind result_bind]. pose proof (project_slug_base_ok p base Hb) as Hok.
  assert (N.of_nat PROJECT_SLUG_ATTEMPTS = 10000%N) as Hatt by by vm_compute.
  destruct (slug_search base d 0 PROJECT_SLUG_ATTEMPTS) as [s|e] eqn:Hs.
  - apply slug_search_ok in Hs as (n & Hn & -> & Hf & _). split.
    + apply slug_attempt_ok; [done|]. lia.
    + intros i row Hi Hslug. rewrite (proj2 (slug_taken_true _ d)) in Hf by eauto. done.
  - right. apply slug_search_err in Hs as [-> Hall]. split; [done|].
    assert (length (slug_attempt base <$> seq 1 (PROJECT_SLUG_ATTEMPTS - 1)) ≤ size (projects d)) as Hle.
    { apply taken_slugs_le.
      - apply NoDup_fmap_2_strong; [|apply NoDup_seq]. intros n m Hn%elem_of_seq Hm%elem_of_seq.
        destruct n as [|n], m as [|m]; [lia|lia|lia|]. by intros ->%slug_attempt_inj.
      - intros s (n & -> & Hn%elem_of_seq)%list_elem_of_fmap. apply Hall. lia. }
    rewrite length_fmap, length_seq in Hle. lia.
Qed.

(** ** Well-formedness *)

(** The columns of a project that reading it parses. *)
Definition runtime_readable `{Json} (row : ProjectRow) : Prop :=
  is_ok (project_mode_from_database (p_serves_http row)) = true
  ∧ ∃ requested loaded ignored, ∀ i,
      parse_user_extension_json i "requested" (p_requested_extensions_json row) = Ok requested
      ∧ parse_runtime_extension_json i "loaded" (p_loaded_extensions_json row) = Ok loaded
      ∧ parse_user_extension_json i "ignored" (p_ignored_extensions_json row) = Ok ignored.

(** Paths, slugs and primary hostnames are unique; a served project owns exactly one
    primary hostname row, the one of its primary hostname, and a project that never
    was served has an internal hostname and no row at all. *)
Record projects_wf `{Json} (d : Db) : Prop := {
  hw_path : ∀ i j p q, projects d !! i = Some p → projects d !! j = Some q → p_path p = p_path q → i = j;
  hw_slug : ∀ i p, projects d !! i = Some p → ∃ s, p_project_slug p = Some s ∧ s ≠ "";
  hw_slug_unique : ∀ i j p q, projects d !! i = Some p → projects d !! j = Some q →
    p_project_slug p = p_project_slug q → i = j;
  hw_readable : ∀ i p, projects d !! i = Some p → runtime_readable p;
  hw_owner : ∀ h r, project_hostnames d !! h = Some r →
    ∃ p, projects d !! h_project_id r = Some p ∧ is_internal_project_hostname (p_primary_hostname p) = false
      ∧ (h_is_primary r = true → p_primary_hostname p = h);
  hw_internal : ∀ i p, projects d !! i = Some p →
    is_internal_project_hostname (p_primary_hostname p) = true →
    p_primary_hostname p = internal_project_hostname i;
  hw_primary : ∀ i p, projects d !! i = Some p →
    is_internal_project_hostname (p_primary_hostname p) = false →
    ∃ r, project_hostnames d !! p_primary_hostname p = Some r ∧ h_project_id r = i ∧ h_is_primary r = true;
}.

Lemma owner_Some h d i : project_owner_for_hostname h d = Some i ↔
  ∃ r, project_hostnames d !! h = Some r ∧ h_project_id r = i.
Proof. unfold project_owner_for_hostname. rewrite fmap_Some. naive_solver. Qed.

Lemma elem_of_primary_rows i d h : h ∈ primary_rows i d ↔
  ∃ r, project_hostnames d !! h = Some r ∧ h_project_id r = i ∧ h_is_primary r = true.
Proof.
  unfold primary_rows. rewrite list_elem_of_omap. split.
  - intros ([h' r] & Hin%elem_of_map_to_list & Hx). simpl in Hx.
    destruct (_ && _) eqn:E; [|done]. split_bools. simplify_eq. eauto.
  - intros (r & Hh & Hi & Hp). exists (h, r). rewrite elem_of_map_to_list. split; [done|]. simpl.
    by rewrite bool_decide_eq_true_2, Hp.
Qed.

Lemma NoDup_primary_rows i d : NoDup (primary_rows i d).
Proof.
  unfold primary_rows. pose proof (NoDup_fst_map_to_list (project_hostnames d)) as Hnd.
  induction (map_to_list (project_hostnames d)) as [|[h r] l IH]; [constructor|].
  rewrite fmap_cons in Hnd. apply NoDup_cons in Hnd as [Hn Hnd]. simpl.
  destruct (bool_decide _ && _); [|by apply IH]. constructor; [|by apply IH].
  intros Hin. apply Hn. apply list_elem_of_omap in Hin as ([h' r'] & Hin & Hx).
  apply list_elem_of_fmap. exists (h', r'). split; [|done]. simpl in Hx.
  destruct (_ && _); by simplify_eq.
Qed.

Lemma primary_rows_nil i d : (∀ h r, project_hostnames d !! h = Some r → h_project_id r = i →
  h_is_primary r = true → False) → primary_rows i d = [].
Proof.
  intros Hno. destruct (primary_rows i d) as [|h l] eqn:E; [done|].
  assert (h ∈ primary_rows i d) as Hin by (rewrite E; by left).
  apply elem_of_primary_rows in Hin as (r & ? & ? & ?). by destruct (Hno h r).
Qed.

Lemma primary_rows_one i d h r : project_hostnames d !! h = Some r → h_project_id r = i →
  h_is_primary r = true →
  (∀ h' r', project_hostnames d !! h' = Some r' → h_project_id r' = i → h_is_primary r' = true → h' = h) →
  primary_rows i d = [h].
Proof.
  intros Hh Hi Hp Huniq. apply Permutation_singleton_r, NoDup_Permutation.
  - apply NoDup_primary_rows.
  - apply NoDup_singleton.
  - intros h'. rewrite elem_of_primary_rows, list_elem_of_singleton. split.
    + intros (r' & ? & ? & ?). by eapply Huniq.
    + intros ->. eauto.
Qed.

Lemma other_project_false f i d : other_project f i d = false ↔
  ∀ j p, projects d !! j = Some p → j ≠ i → f p = false.
Proof.
  unfold other_project. rewrite <-not_true_iff_false, existsb_exists. split.
  - intros Hno j p Hj Hne. apply not_true_iff_false. intros Hf. apply Hno. exists (j, p).
    split; [by apply list_elem_of_In, elem_of_map_to_list|]. simpl. by rewrite bool_decide_eq_false_2.
  - intros Hall ([j p] & Hin%list_elem_of_In%elem_of_map_to_list & Hx). simpl in Hx.
    split_bools. by rewrite (Hall j p) in H0.
Qed.

(** ** Replacing the hostname rows of one project *)

Section hostnames.
Variables (i P : string) (A : list string) (p : ProjectRow) (now : string).
(** After the primary row is in place, each additional hostname is inserted. *)
Lemma insert_additionals_spec l d : projects d !! i = Some p →
  NoDup l → (∀ a, a ∈ l → project_hostnames d !! a = None) →
  ∃ m, try_fold (insert_additional i now) l d = Ok (set_project_hostnames (λ _, m) d)
    ∧ ∀ h, m !! h = if decide (h ∈ l) then Some (hostname_row i now false) else project_hostnames d !! h.
Proof.
  revert d. induction l as [|a l IH]; intros d Hp Hnd Hfree.
  { exists (project_hostnames d). split; [by destruct d|]. intros h. by rewrite decide_False
      by apply not_elem_of_nil. }
  apply NoDup_cons in Hnd as [Ha Hnd]. cbn [try_fold].
  assert (insert_additional i now d a
    = Ok (set_project_hostnames (<[a := hostname_row i now false]>) d)) as ->.
  { unfold insert_additional, insert_hostname, check_primary_matches. simpl. rewrite Hp. simpl.
    by rewrite (Hfree a) by by left. }
  cbn [mbind result_bind].
  destruct (IH (set_project_hostnames (<[a := hostname_row i now false]>) d)) as (m & -> & Hm); [done|done| |].
  { intros b Hb. simpl. rewrite lookup_insert_ne by set_solver. apply Hfree. by right. }
  exists m. split; [done|]. intros h. rewrite Hm. simpl. repeat case_decide.
  - done.
  - set_solver.
  - assert (h = a) as -> by set_solver. apply lookup_insert_eq.
  - apply lookup_insert_ne. set_solver.
Qed.

Lemma replace_project_hostnames_spec input d :
  l_primary_hostname input = P → l_additional_hostnames input = A →
  projects d !! i = Some p → p_primary_hostname p = P → NoDup (P :: A) →
  (∀ h r, project_hostnames d !! h = Some r → h_project_id r = i → h_is_primary r = true → h = P) →
  (∀ r, project_hostnames d !! P = Some r → h_project_id r = i ∧ h_is_primary r = true) →
  (∀ a r, a ∈ A → project_hostnames d !! a = Some r → h_project_id r = i) →
  ∃ m, replace_project_hostnames i input now d = Ok (set_project_hostnames (λ _, m) d)
    ∧ (∃ r, m !! P = Some r ∧ h_project_id r = i ∧ h_is_primary r = true)
    ∧ ∀ h, h ≠ P → m !! h = if decide (h ∈ A) then Some (hostname_row i now false)
        else r ← project_hostnames d !! h; if decide (h_project_id r = i) then None else Some r.
Proof.
  intros HP HA Hp HpP [HPA HndA]%NoDup_cons Huniq HrowP HrowA.
  unfold replace_project_hostnames. rewrite HP, HA.
  assert (∃ m1, insert_hostname true P (hostname_row i now true) d = Ok (set_project_hostnames (λ _, m1) d)
    ∧ (∃ r, m1 !! P = Some r ∧ h_project_id r = i ∧ h_is_primary r = true)
    ∧ ∀ h, h ≠ P → m1 !! h = project_hostnames d !! h) as (m1 & -> & HP1 & Hm1).
  { unfold insert_hostname, check_primary_matches. simpl. rewrite Hp, HpP.
    rewrite (bool_decide_eq_true_2 (P = P)) by done. simpl.
    destruct (project_hostnames d !! P) as [r|] eqn:HrP; simpl.
    - exists (project_hostnames d). destruct (HrowP r eq_refl). split; [by destruct d|]. eauto.
    - rewrite primary_rows_nil; [|intros h r Hh Hi Hpr; pose proof (Huniq h r Hh Hi Hpr); congruence].
      simpl. exists (<[P := hostname_row i now true]> (project_hostnames d)). split; [by destruct d|].
      split; [rewrite lookup_insert_eq; eauto|]. intros h Hne. by apply lookup_insert_ne. }
  cbn [mbind result_bind].
  set (d2 := delete_additional_hostnames i (set_project_hostnames (λ _, m1) d)).
  assert (∀ h, project_hostnames d2 !! h = r ← m1 !! h;
    if decide (h_project_id r = i ∧ h_is_primary r = false) then None else Some r) as Hd2.
  { intros h. unfold d2, delete_additional_hostnames. simpl. rewrite map_lookup_filter.
    destruct (m1 !! h) as [r|]; [|done]. simpl.
    destruct (decide (h_project_id r = i ∧ h_is_primary r = false)).
    - by rewrite option_guard_False by tauto.
    - by rewrite option_guard_True by tauto. }
  destruct (insert_additionals_spec A d2) as (m & Heq & Hm); [done|done| |].
  { intros a Ha. rewrite Hd2, Hm1 by (intros ->; done).
    destruct (project_hostnames d !! a) as [r|] eqn:Hr; [|done]. simpl.
    pose proof (HrowA a r Ha Hr) as Hi. rewrite decide_True; [done|]. split; [done|].
    destruct (h_is_primary r) eqn:Hpr; [|done]. destruct HPA. by rewrite <-(Huniq a r Hr Hi Hpr). }
  exists m. split; [exact Heq|]. split.
  - destruct HP1 as (r & Hr & Hi & Hpr). exists r. rewrite Hm, decide_False by done.
    rewrite Hd2, Hr. simpl. rewrite decide_False; [done|]. intros [_ Hf]. congruence.
  - intros h Hne. rewrite Hm. case_decide; [done|]. rewrite Hd2, Hm1 by done.
    destruct (project_hostnames d !! h) as [r|] eqn:Hr; [|done]. simpl.
    destruct (decide (h_project_id r = i)) as [Hi|Hi]; [|by rewrite decide_False by tauto].
    rewrite decide_True; [done|]. split; [done|]. destruct (h_is_primary r) eqn:Hpr; [|done].
    by destruct Hne, (Huniq h r Hr Hi Hpr).
Qed.
End hostnames.

(** ** Updating a project and its hostnames *)

(** The hostname table [m'] is the one of [d] with the rows of [i] replaced by a
    primary row for [P] and additional rows for [A]. *)
Definition hostnames_replaced (d : Db) (i P : string) (A : list string) (now : string)
    (m : gmap string HostnameRow) : Prop :=
  (∃ r, m !! P = Some r ∧ h_project_id r = i ∧ h_is_primary r = true)
  ∧ ∀ h, h ≠ P → m !! h = if decide (h ∈ A) then Some (hostname_row i now false)
      else r ← project_hostnames d !! h; if decide (h_project_id r = i) then None else Some r.

Definition updated_row (input : LinkProjectInput) (m : ProjectMode) (now : string) (row : ProjectRow) :
    ProjectRow :=
  if bool_decide (p_desired_php_track row = l_desired_php_track input)
  then update_row input m now row else clear_extensions (update_row input m now row).

Lemma updated_row_facts input m now row :
  p_path (updated_row input m now row) = p_path row
  ∧ p_project_slug (updated_row input m now row) = p_project_slug row
  ∧ p_primary_hostname (updated_row input m now row) = l_primary_hostname input
  ∧ p_serves_http (updated_row input m now row) = project_mode_as_database m.
Proof. unfold updated_row. by case_match. Qed.

Section update.
Context `{Json} (d : Db) (Hwf : projects_wf d) (i : string) (p0 : ProjectRow)
  (Hp0 : projects d !! i = Some p0) (input : LinkProjectInput) (m : ProjectMode) (now1 now2 : string).
Let P := l_primary_hostname input.
Let A := l_additional_hostnames input.

Lemma lookup_delete_same h :
  project_hostnames (delete_same_project_additional_hostname i P d) !! h
  = r ← project_hostnames d !! h;
    if decide (h_project_id r = i ∧ h = P ∧ h_is_primary r = false) then None else Some r.
Proof.
  unfold delete_same_project_additional_hostname. simpl. rewrite map_lookup_filter.
  destruct (project_hostnames d !! h) as [r|]; [|done]. simpl.
  destruct (decide (h_project_id r = i ∧ h = P ∧ h_is_primary r = false)).
  - by rewrite option_guard_False by tauto.
  - by rewrite option_guard_True by tauto.
Qed.

(** The primary rows of [i] before the update. *)
Lemma primary_row_of_project h r : project_hostnames d !! h = Some r → h_project_id r = i →
  h_is_primary r = true → h = p_primary_hostname p0
    ∧ is_internal_project_hostname (p_primary_hostname p0) = false.
Proof.
  intros Hh Hi Hpr. destruct (hw_owner d Hwf h r Hh) as (p & Hp & Hint & Heq).
  rewrite Hi, Hp0 in Hp. injection Hp as <-. split; [symmetry; by apply Heq|done].
Qed.

Lemma internal_has_no_rows h r : is_internal_project_hostname (p_primary_hostname p0) = true →
  project_hostnames d !! h = Some r → h_project_id r ≠ i.
Proof.
  intros Hint Hh Hi. destruct (hw_owner d Hwf h r Hh) as (p & Hp & Hint' & _).
  rewrite Hi, Hp0 in Hp. injection Hp as <-. congruence.
Qed.

(** The hostname rows after the trigger has moved the primary row to [P]. *)
Lemma sync_spec d1 : is_internal_project_hostname P = false →
  (∀ r, project_hostnames d !! P = Some r → h_project_id r = i) →
  project_hostnames d1 = project_hostnames (delete_same_project_additional_hostname i P d) →
  (∃ p1, projects d1 !! i = Some p1 ∧ p_primary_hostname p1 = P) →
  ∃ mh, sync_primary_hostname i P d1 = Ok (set_project_hostnames (λ _, mh) d1)
    ∧ (∀ r, mh !! P = Some r → h_project_id r = i ∧ h_is_primary r = true)
    ∧ (∀ h r, mh !! h = Some r → h_project_id r = i → h_is_primary r = true → h = P)
    ∧ ∀ h, h ≠ P → (project_hostnames d !! h = mh !! h
         ∨ mh !! h = None ∧ ∃ r, project_hostnames d !! h = Some r ∧ h_project_id r = i).
Proof.
  intros HP HownP Hd1 (p1 & Hp1 & HpP). unfold sync_primary_hostname.
  assert (∀ h r, project_hostnames d1 !! h = Some r → project_hostnames d !! h = Some r
    ∧ (h_project_id r = i → h = P → h_is_primary r = true)) as Hsub.
  { intros h r. rewrite Hd1, lookup_delete_same. destruct (project_hostnames d !! h) as [r'|]; [|done].
    simpl. case_decide as Hc; [done|]. intros [= ->]. split; [done|]. intros ? ?.
    destruct (h_is_primary r) eqn:?; [done|]. by destruct Hc. }
  assert (∀ h, h ≠ P → project_hostnames d1 !! h = project_hostnames d !! h) as Hne1.
  { intros h Hne. rewrite Hd1, lookup_delete_same. destruct (project_hostnames d !! h); [|done].
    simpl. by rewrite decide_False by tauto. }
  destruct (is_internal_project_hostname (p_primary_hostname p0)) eqn:Hint.
  - rewrite primary_rows_nil; [|intros h r [Hh _]%Hsub Hi _; by eapply internal_has_no_rows].
    exists (project_hostnames d1). split; [by destruct d1|]. split_and!.
    + intros r [Hr _]%Hsub. destruct (internal_has_no_rows P r Hint Hr). by apply HownP.
    + intros h r [Hr _]%Hsub Hi. by destruct (internal_has_no_rows h r Hint Hr).
    + intros h Hne. left. by rewrite Hne1.
  - destruct (hw_primary d Hwf i p0 Hp0 Hint) as (r0 & Hr0 & Hi0 & Hpr0).
    set (old := p_primary_hostname p0) in *.
    assert (project_hostnames d1 !! old = Some r0) as Hr0'.
    { rewrite Hd1, lookup_delete_same, Hr0. simpl. rewrite decide_False; [done|].
      intros (_ & _ & Hf). congruence. }
    rewrite (primary_rows_one i d1 old r0); [|done|done|done|].
    2: { intros h' r' [Hh' _]%Hsub Hi' Hpr'.
         exact (proj1 (primary_row_of_project h' r' Hh' Hi' Hpr')). }
    cbn [try_fold]. unfold rename_hostname. rewrite Hr0'.
    assert (check_primary_matches P r0 d1 = Ok tt) as ->.
    { unfold check_primary_matches. rewrite Hi0, Hp1, HpP.
      by rewrite (bool_decide_eq_true_2 (P = P)), andb_false_r. }
    cbn [mbind result_bind].
    assert (negb (bool_decide (P = old)) && option_bool (project_hostnames d1 !! P) = false) as ->.
    { case_bool_decide as Heq; [done|]. simpl. destruct (project_hostnames d1 !! P) as [r|] eqn:Hr; [|done].
      destruct (Hsub P r Hr) as [Hr' Hpr]. pose proof (HownP r Hr') as Hir.
      destruct (primary_row_of_project P r Hr' Hir (Hpr Hir eq_refl)). done. }
    cbn [mbind result_bind].
    exists (<[P := r0]> (delete old (project_hostnames d1))). split; [by destruct d1|]. split_and!.
    + intros r. rewrite lookup_insert_eq. intros [= <-]. done.
    + intros h r. rewrite lookup_insert_Some, lookup_delete_Some.
      intros [[-> _]|(_ & Hno & Hr)] Hi Hpr; [done|]. apply Hsub in Hr as [Hr _].
      by destruct Hno, (primary_row_of_project h r Hr Hi Hpr).
    + intros h Hne. rewrite lookup_insert_ne by done. destruct (decide (old = h)) as [<-|Hoh].
      * rewrite lookup_delete_eq. right. split; [done|]. eauto.
      * rewrite lookup_delete_ne by done. left. by rewrite Hne1.
Qed.

Lemma no_other_primary : is_internal_project_hostname P = false →
  (∀ r, project_hostnames d !! P = Some r → h_project_id r = i) →
  other_project (λ row, bool_decide (p_primary_hostname row = P)) i d = false.
Proof.
  intros HP HownP. apply other_project_false. intros j q Hq Hne. apply bool_decide_eq_false.
  intros Heq. destruct (hw_primary d Hwf j q Hq) as (r & Hr & Hj & _); [by rewrite Heq|].
  rewrite Heq in Hr. rewrite (HownP r Hr) in Hj. done.
Qed.

(** Updating a project that is or becomes served. *)
Lemma served_update_spec : is_internal_project_hostname P = false → NoDup (P :: A) →
  (∀ h r, h ∈ P :: A → project_hostnames d !! h = Some r → h_project_id r = i) →
  ∃ mh, (d1 ← update_project i input m now1 (delete_same_project_additional_hostname i P d);
         replace_project_hostnames i input now2 d1)
    = Ok (set_project_hostnames (λ _, mh) (set_projects (<[i := updated_row input m now1 p0]>) d))
    ∧ hostnames_replaced d i P A now2 mh.
Proof.
  intros HP Hnd Hown. unfold update_project. simpl. rewrite Hp0. cbn [mbind result_bind ok_or].
  fold P.
  assert (other_project (λ row, bool_decide (p_primary_hostname row = P)) i
    (delete_same_project_additional_hostname i P d) = false) as ->.
  { apply no_other_primary; [done|]. intros r. apply Hown. by left. }
  destruct (sync_spec (set_projects (alter (update_row input m now1) i)
    (delete_same_project_additional_hostname i P d))) as (mh1 & -> & HP1 & Huniq1 & Hne1).
  { done. } { intros r. apply Hown. by left. } { done. }
  { exists (update_row input m now1 p0). simpl. by rewrite lookup_alter_eq, Hp0. }
  cbn [mbind result_bind].
  set (d2 := if negb (bool_decide (p_desired_php_track p0 = l_desired_php_track input)) then _ else _).
  assert (projects d2 = <[i := updated_row input m now1 p0]> (projects d)
    ∧ project_hostnames d2 = mh1 ∧ ∀ mh, set_project_hostnames (λ _, mh) d2
      = set_project_hostnames (λ _, mh) (set_projects (<[i := updated_row input m now1 p0]>) d))
    as (Hpr2 & Hh2 & Hset).
  { assert (projects d2 = <[i := updated_row input m now1 p0]> (projects d)) as Hpr.
    { unfold d2, updated_row. case_bool_decide; simpl; apply map_eq; intros k;
        (destruct (decide (i = k)) as [<-|]; [rewrite ?lookup_alter_eq, lookup_insert_eq, Hp0; done
          |by rewrite ?lookup_alter_ne, lookup_insert_ne]). }
    split; [done|]. split; [unfold d2; by case_bool_decide|]. intros mh.
    assert (set_projects (λ _, projects d2) d2 = d2) as Heta by by destruct d2.
    rewrite <-Heta, Hpr. unfold d2. by case_bool_decide. }
  destruct (replace_project_hostnames_spec i P A (updated_row input m now1 p0) now2 input d2)
    as (mh & -> & HPm & Hm).
  { done. } { done. } { by rewrite Hpr2, lookup_insert_eq. } { apply updated_row_facts. } { done. }
  { rewrite Hh2. apply Huniq1. } { rewrite Hh2. apply HP1. }
  { intros a r Ha. rewrite Hh2. intros Hr. destruct (decide (a = P)) as [->|Hne]; [by apply HP1|].
    destruct (Hne1 a Hne) as [Heq|[Hno _]]; [|congruence]. rewrite <-Heq in Hr.
    apply (Hown a); [by right|done]. }
  exists mh. rewrite Hset. split; [done|]. split; [done|]. intros h Hne. rewrite Hm by done.
  case_decide; [done|]. rewrite Hh2. destruct (Hne1 h Hne) as [->|[-> (r & -> & Hi)]]; [done|].
  simpl. by rewrite decide_True.
Qed.

(** Updating a project that never was served and is not now. *)
Lemma internal_update_spec : is_internal_project_hostname (p_primary_hostname p0) = true →
  P = p_primary_hostname p0 →
  update_project i input m now1 (delete_same_project_additional_hostname i P d)
  = Ok (set_projects (<[i := updated_row input m now1 p0]>) d).
Proof.
  intros Hint HP.
  assert (delete_same_project_additional_hostname i P d = d) as ->.
  { unfold delete_same_project_additional_hostname.
    assert (filter (λ '(h, row), ¬ (h_project_id row = i ∧ h = P ∧ h_is_primary row = false))
      (project_hostnames d) = project_hostnames d) as Hf.
    { apply map_filter_id. intros h r Hr (Hi & _). by destruct (internal_has_no_rows h r Hint Hr). }
    destruct d. unfold set_project_hostnames. simpl in *. by rewrite Hf. }
  unfold update_project. rewrite Hp0. cbn [mbind result_bind ok_or].
  assert (other_project (λ row, bool_decide (p_primary_hostname row = l_primary_hostname input)) i d
    = false) as ->.
  { apply other_project_false. intros j q Hq Hne. apply bool_decide_eq_false. intros Heq.
    assert (is_internal_project_hostname (p_primary_hostname q) = true) as Hintq
      by (rewrite Heq; by rewrite <-HP in Hint).
    pose proof (hw_internal d Hwf j q Hq Hintq) as Hj. pose proof (hw_internal d Hwf i p0 Hp0 Hint) as Hi.
    apply Hne. rewrite Heq in Hj. fold P in Hj. rewrite HP, Hi in Hj.
    unfold internal_project_hostname in Hj. apply (f_equal (strip_suffix ".invalid")) in Hj.
    rewrite !(proj2 (strip_suffix_Some ".invalid" _ _) eq_refl) in Hj. by injection Hj as ->. }
  unfold sync_primary_hostname. rewrite primary_rows_nil.
  2: { intros h r Hr Hi _. by destruct (internal_has_no_rows h r Hint Hr). }
  cbn [try_fold mbind result_bind]. unfold updated_row.
  case_bool_decide; simpl; f_equal; unfold set_projects; f_equal; simpl; apply map_eq; intros k;
    (destruct (decide (i = k)) as [<-|]; [rewrite ?lookup_alter_eq, lookup_insert_eq, Hp0; done
      |by rewrite ?lookup_alter_ne, lookup_insert_ne]).
Qed.
End update.

(** ** Computations that never reach an SQLite error *)

Definition no_sqlite {A} (r : result StateError A) : Prop := ∀ s, r ≠ Err (Sqlite s).

Lemma no_sqlite_ok {A} (a : A) : no_sqlite (Ok a).
Proof. by intros s. Qed.
Lemma no_sqlite_bind {A B} (r : result StateError A) (f : A → result StateError B) :
  no_sqlite r → (∀ a, r = Ok a → no_sqlite (f a)) → no_sqlite (r ≫= f).
Proof. intros Hr Hf. destruct r as [a|e]; simpl; [by apply Hf|]. intros s [= ->]. by apply (Hr s). Qed.
Lemma no_sqlite_ensure b e : (∀ s, e ≠ Sqlite s) → no_sqlite (ensure b e).
Proof. intros He s. destruct b; simpl; [done|]. intros [= ->]. by apply (He s). Qed.
Lemma no_sqlite_ok_or {A} (o : option A) e : (∀ s, e ≠ Sqlite s) → no_sqlite (ok_or o e).
Proof. intros He s. destruct o; simpl; [done|]. intros [= ->]. by apply (He s). Qed.
Lemma no_sqlite_map_err {E A} (f : E → StateError) (r : result E A) :
  (∀ e s, f e ≠ Sqlite s) → no_sqlite (map_err f r).
Proof. intros Hf s. destruct r; simpl; [done|]. intros [= H]. by apply (Hf e s). Qed.
Lemma no_sqlite_try_fold {A B} (f : B → A → result StateError B) l b :
  (∀ b x, no_sqlite (f b x)) → no_sqlite (try_fold f l b).
Proof.
  intros Hf. revert b. induction l as [|x l IH]; intros b; [apply no_sqlite_ok|].
  simpl. apply no_sqlite_bind; [done|]. intros. apply IH.
Qed.

Create HintDb sqlite discriminated.
#[local] Hint Resolve no_sqlite_ok no_sqlite_bind no_sqlite_ensure no_sqlite_ok_or
  no_sqlite_map_err no_sqlite_try_fold : sqlite.

Ltac solve_no_sqlite :=
  repeat first
    [ progress intros
    | apply no_sqlite_ok | apply no_sqlite_bind
    | apply no_sqlite_ensure; discriminate | apply no_sqlite_ok_or; discriminate
    | apply no_sqlite_map_err; discriminate
    | apply no_sqlite_try_fold
    | match goal with |- no_sqlite (match ?x with _ => _ end) => destruct x end
    | match goal with |- no_sqlite (Err _) => intros ?; discriminate end
    | assumption ].

Lemma no_sqlite_concrete_track t : no_sqlite (validate_concrete_track t).
Proof. unfold validate_concrete_track, validate_managed_resource_identity. solve_no_sqlite. Qed.

Lemma no_sqlite_php_track t : no_sqlite (validate_project_php_track t).
Proof. unfold validate_project_php_track. solve_no_sqlite. Qed.

Lemma no_sqlite_hostname h : no_sqlite (validate_project_hostname h).
Proof.
  unfold validate_project_hostname, try_iter, validate_project_hostname_label. solve_no_sqlite.
Qed.

Lemma no_sqlite_link_input input m : no_sqlite (validate_link_project_input input m).
Proof.
  unfold validate_link_project_input, validate_project_path, validate_original_project_path, try_iter.
  repeat first [apply no_sqlite_hostname|apply no_sqlite_php_track|progress solve_no_sqlite].
Qed.

Lemma no_sqlite_hostname_set i P A d : no_sqlite (validate_project_hostname_set i P A d).
Proof.
  unfold validate_project_hostname_set, hostname_set_step.
  repeat first [apply no_sqlite_hostname|progress solve_no_sqlite].
Qed.

Lemma no_sqlite_slug p d : no_sqlite (generate_project_slug p d).
Proof.
  unfold generate_project_slug, project_slug_base. apply no_sqlite_bind; [solve_no_sqlite|].
  intros base _. generalize 0 as a. induction PROJECT_SLUG_ATTEMPTS as [|r IH]; intros a; simpl.
  - solve_no_sqlite.
  - case_match; [apply IH|solve_no_sqlite].
Qed.

Lemma no_sqlite_id draw d : no_sqlite (generate_project_id draw d).
Proof. unfold generate_project_id. solve_no_sqlite. Qed.

(** ** Reading on a well-formed database *)

Definition record_for (d : Db) (i : string) (row : ProjectRow) (r : ProjectRecord) : Prop :=
  id r = i ∧ p_project_slug row = Some (slug r) ∧ path r = p_path row
  ∧ project_mode_as_database (mode r) = p_serves_http row
  ∧ primary_hostname r = (if is_internal_project_hostname (p_primary_hostname row) then None
                          else Some (p_primary_hostname row))
  ∧ desired_php_track r = p_desired_php_track row
  ∧ additional_hostnames r = additional_hostnames_for_project i d
  ∧ created_at r = p_created_at row.

Lemma project_into_record_ok `{Json} d i row s : projects d !! i = Some row → runtime_readable row →
  p_project_slug row = Some s → ∃ r, project_into_record d i row = Ok r ∧ record_for d i row r.
Proof.
  intros Hi (Hm & rq & ld & ig & Hr) Hs. unfold project_into_record, project_php_runtime_for_project.
  rewrite Hi. simpl. destruct (Hr i) as (-> & -> & ->). simpl. rewrite Hs. simpl.
  destruct (project_mode_from_database (p_serves_http row)) as [m|] eqn:Hmode; [|done].
  eexists. split; [done|]. unfold record_for. simpl. split_and!; try done.
  unfold project_mode_from_database in Hmode.
  destruct (Z.eqb_spec (p_serves_http row) 1) as [->|]; [by injection Hmode as <-|].
  by destruct (Z.eqb_spec (p_serves_http row) 0) as [->|]; simplify_eq.
Qed.

Lemma read_existing `{Json} d i row : projects_wf d → projects d !! i = Some row →
  ∃ r, project_into_record d i row = Ok r ∧ record_for d i row r.
Proof.
  intros Hwf Hi. destruct (hw_slug d Hwf i row Hi) as (s & Hs & _).
  apply (project_into_record_ok d i row s); [done|by eapply hw_readable|done].
Qed.

Lemma find_project_Some f d i row : find_project f d = Some (i, row) →
  projects d !! i = Some row ∧ f i row = true.
Proof. intros [Hin Hf]%find_some. by apply list_elem_of_In, elem_of_map_to_list in Hin. Qed.

Lemma find_project_None f d : find_project f d = None → ∀ i row, projects d !! i = Some row → f i row = false.
Proof.
  intros Hno i row Hi. by apply (find_none _ _ Hno (i, row)), list_elem_of_In, elem_of_map_to_list.
Qed.

(** The project of a path: the row with that path, if there is one. *)
Lemma project_by_path_spec `{Json} d p : projects_wf d →
  (project_by_path p d = Ok None ∧ ∀ j q, projects d !! j = Some q → p_path q ≠ p)
  ∨ ∃ i row r, project_by_path p d = Ok (Some r) ∧ projects d !! i = Some row ∧ p_path row = p
      ∧ record_for d i row r.
Proof.
  intros Hwf. unfold project_by_path. destruct (find_project _ d) as [[i row]|] eqn:Hf.
  - right. apply find_project_Some in Hf as [Hi Hp]. split_bools.
    destruct (read_existing d i row Hwf Hi) as (r & Hr & Hrec). exists i, row, r. simpl.
    by rewrite Hr.
  - left. split; [done|]. intros j q Hj. apply (find_project_None _ _ Hf) in Hj. by split_bools.
Qed.

Lemma project_by_id_ok `{Json} d i row s : projects d !! i = Some row → runtime_readable row →
  p_project_slug row = Some s → ∃ r, project_by_id i d = Ok (Some r) ∧ record_for d i row r.
Proof.
  intros Hi Hr Hs. destruct (project_into_record_ok d i row s Hi Hr Hs) as (r & Hrec & Hfor).
  exists r. unfold project_by_id. rewrite Hi. simpl. by rewrite Hrec.
Qed.

(** ** Keeping the database well formed *)

Lemma parse_empty_extensions `{JsonLaws} i k :
  parse_user_extension_json i k "[]" = Ok [] ∧ parse_runtime_extension_json i k "[]" = Ok [].
Proof.
  unfold parse_user_extension_json, parse_runtime_extension_json, parse_extension_json.
  by rewrite list_json_empty.
Qed.

Lemma mode_readable m : is_ok (project_mode_from_database (project_mode_as_database m)) = true.
Proof. by destruct m. Qed.

Lemma updated_row_readable `{JsonLaws} input m now row : runtime_readable row →
  runtime_readable (updated_row input m now row).
Proof.
  intros [_ Hr]. unfold updated_row. case_bool_decide; (split; [apply mode_readable|]); [done|].
  exists [], [], []. intros i. split_and!; apply parse_empty_extensions.
Qed.

(** The project [i] as it is written: its path, slug and columns clash with no other
    project's. *)
Record row_fits `{Json} (d : Db) (i : string) (row : ProjectRow) : Prop := {
  rf_path : ∀ j q, projects d !! j = Some q → j ≠ i → p_path q ≠ p_path row;
  rf_slug : ∃ s, p_project_slug row = Some s ∧ s ≠ "";
  rf_slug_unique : ∀ j q, projects d !! j = Some q → j ≠ i → p_project_slug q ≠ p_project_slug row;
  rf_readable : runtime_readable row;
}.

Section keeping.
Context `{Json} (d : Db) (Hwf : projects_wf d) (i : string) (row : ProjectRow)
  (Hfit : row_fits d i row).

Lemma unique_insert {B} (f : ProjectRow → B) :
  (∀ j k p q, projects d !! j = Some p → projects d !! k = Some q → f p = f q → j = k) →
  (∀ j q, projects d !! j = Some q → j ≠ i → f q ≠ f row) →
  ∀ j k p q, <[i := row]> (projects d) !! j = Some p → <[i := row]> (projects d) !! k = Some q →
    f p = f q → j = k.
Proof.
  intros Huniq Hrow j k p q [[<- <-]|[Hj Hp]]%lookup_insert_Some [[<- <-]|[Hk Hq]]%lookup_insert_Some Heq.
  - done.
  - by destruct (Hrow k q Hq (not_eq_sym Hk)).
  - by destruct (Hrow j p Hp (not_eq_sym Hj)).
  - by eapply Huniq.
Qed.

Lemma projects_wf_served P A now mh : p_primary_hostname row = P →
  is_internal_project_hostname P = false → hostnames_replaced d i P A now mh →
  (∀ h r, h ∈ P :: A → project_hostnames d !! h = Some r → h_project_id r = i) →
  projects_wf (set_project_hostnames (λ _, mh) (set_projects (<[i := row]>) d)).
Proof.
  intros HP Hint [(r0 & Hr0 & Hi0 & Hpr0) Hm] Hown. split; simpl.
  - apply unique_insert; [apply Hwf|apply Hfit].
  - intros j q [[<- <-]|[_ Hq]]%lookup_insert_Some; [apply Hfit|by eapply hw_slug].
  - apply unique_insert; [apply Hwf|apply Hfit].
  - intros j q [[<- <-]|[_ Hq]]%lookup_insert_Some; [apply Hfit|by eapply hw_readable].
  - intros h r Hh. destruct (decide (h = P)) as [->|Hne].
    + assert (r = r0) as -> by congruence. exists row. rewrite Hi0, lookup_insert_eq, HP. done.
    + rewrite Hm in Hh by done. case_decide as HA.
      * injection Hh as <-. exists row. simpl. by rewrite lookup_insert_eq, HP.
      * apply bind_Some in Hh as (r' & Hr' & Hx). case_decide as Hi; [done|]. injection Hx as <-.
        destruct (hw_owner d Hwf h r' Hr') as (q & Hq & ? & ?). exists q.
        by rewrite lookup_insert_ne.
  - intros j q [[<- <-]|[_ Hq]]%lookup_insert_Some; [congruence|by eapply hw_internal].
  - intros j q [[<- <-]|[Hj Hq]]%lookup_insert_Some Hintq; [rewrite HP; eauto|].
    destruct (hw_primary d Hwf j q Hq Hintq) as (r & Hr & Hjr & Hpr).
    assert (p_primary_hostname q ∉ P :: A) as Hnin.
    { intros Hin. apply Hj. by rewrite <-(Hown _ r Hin Hr). }
    exists r. rewrite Hm by set_solver. rewrite decide_False by set_solver.
    rewrite Hr. simpl. rewrite decide_False; [done|]. congruence.
Qed.

Lemma projects_wf_internal : p_primary_hostname row = internal_project_hostname i →
  (∀ h r, project_hostnames d !! h = Some r → h_project_id r ≠ i) →
  projects_wf (set_projects (<[i := row]>) d).
Proof.
  intros HP Hno. split; simpl.
  - apply unique_insert; [apply Hwf|apply Hfit].
  - intros j q [[<- <-]|[_ Hq]]%lookup_insert_Some; [apply Hfit|by eapply hw_slug].
  - apply unique_insert; [apply Hwf|apply Hfit].
  - intros j q [[<- <-]|[_ Hq]]%lookup_insert_Some; [apply Hfit|by eapply hw_readable].
  - intros h r Hh. destruct (hw_owner d Hwf h r Hh) as (q & Hq & ? & ?). exists q.
    rewrite lookup_insert_ne; [done|]. intros Heq. by apply (Hno h r Hh).
  - intros j q [[<- <-]|[_ Hq]]%lookup_insert_Some; [done|by eapply hw_internal].
  - intros j q [[<- <-]|[Hj Hq]]%lookup_insert_Some Hintq; [|by eapply hw_primary].
    by rewrite HP, internal_is_internal in Hintq.
Qed.
End keeping.

(** ** Ownership *)

Lemma owner_replaced d i P A now mh pr : hostnames_replaced d i P A now mh →
  ∀ h, project_owner_for_hostname h (set_project_hostnames (λ _, mh) (set_projects pr d))
    = if decide (h ∈ P :: A) then Some i
      else if decide (project_owner_for_hostname h d = Some i) then None
      else project_owner_for_hostname h d.
Proof.
  intros [(r & Hr & Hi & _) Hm] h. unfold project_owner_for_hostname. simpl.
  destruct (decide (h = P)) as [->|Hne].
  - rewrite Hr, decide_True by by left. simpl. by rewrite Hi.
  - rewrite Hm by done. destruct (decide (h ∈ A)) as [HA|HA].
    + by rewrite decide_True by by right.
    + rewrite (decide_False (P := h ∈ P :: A)) by set_solver.
      destruct (project_hostnames d !! h) as [r'|]; cbn [mbind option_bind fmap option_fmap option_map].
      * destruct (decide (h_project_id r' = i)), (decide (Some (h_project_id r') = Some i));
          simpl; congruence.
      * by destruct (decide _).
Qed.

Lemma elem_of_additional i d h : h ∈ additional_hostnames_for_project i d ↔
  ∃ r, project_hostnames d !! h = Some r ∧ h_project_id r = i ∧ h_is_primary r = false.
Proof.
  unfold additional_hostnames_for_project. rewrite elem_of_sort_on, list_elem_of_omap. split.
  - intros ([h' r] & Hin%elem_of_map_to_list & Hx). simpl in Hx.
    destruct (_ && _) eqn:E; [|done]. split_bools. simplify_eq. eauto.
  - intros (r & Hh & Hi & Hp). exists (h, r). rewrite elem_of_map_to_list. split; [done|]. simpl.
    by rewrite bool_decide_eq_true_2, Hp.
Qed.

Lemma NoDup_additional i d : NoDup (additional_hostnames_for_project i d).
Proof.
  unfold additional_hostnames_for_project. rewrite sort_on_perm.
  pose proof (NoDup_fst_map_to_list (project_hostnames d)) as Hnd.
  induction (map_to_list (project_hostnames d)) as [|[h r] l IH]; [constructor|].
  rewrite fmap_cons in Hnd. apply NoDup_cons in Hnd as [Hn Hnd]. simpl.
  destruct (bool_decide _ && _); [|by apply IH]. constructor; [|by apply IH].
  intros Hin. apply Hn. apply list_elem_of_omap in Hin as ([h' r'] & Hin & Hx).
  apply list_elem_of_fmap. exists (h', r'). split; [|done]. simpl in Hx.
  destruct (_ && _); by simplify_eq.
Qed.

(** The additional hostnames after a replacement. *)
Lemma additional_replaced d i P A now mh pr : hostnames_replaced d i P A now mh →
  NoDup (P :: A) →
  additional_hostnames_for_project i (set_project_hostnames (λ _, mh) (set_projects pr d))
  = sorted_hostnames A.
Proof.
  intros [(r & Hr & Hi & Hpr) Hm] [HPA HndA]%NoDup_cons.
  apply (StronglySorted_unique_strong (le_on (λ h : string, h))).
  - intros x y _ _ Hxy Hyx. unfold le_on in *. by apply (anti_symm String.le).
  - apply sort_on_sorted.
  - apply sort_on_sorted.
  - unfold sorted_hostnames. rewrite (sort_on_perm _ A). apply NoDup_Permutation; [apply NoDup_additional|done|].
    intros h. rewrite elem_of_additional. simpl. split.
    + intros (r' & Hr' & Hi' & Hp'). destruct (decide (h = P)) as [->|Hne]; [congruence|].
      rewrite Hm in Hr' by done. case_decide; [done|].
      apply bind_Some in Hr' as (r'' & _ & Hx). case_decide; by simplify_eq.
    + intros HA. exists (hostname_row i now false). rewrite Hm by (intros ->; done).
      by rewrite decide_True.
Qed.

Definition hostnames_free (d : Db) (i : string) (l : list string) : Prop :=
  ∀ h r, h ∈ l → project_hostnames d !! h = Some r → h_project_id r = i.

Lemma hostname_set_step_ok i d names h names' : hostname_set_step i d names h = Ok names' →
  validate_project_hostname h = Ok tt ∧ (h ∉ names) ∧ (names' = {[h]} ∪ names) ∧ hostnames_free d i [h].
Proof.
  unfold hostname_set_step, project_owner_for_hostname, hostnames_free.
  destruct (validate_project_hostname h) as [[]|]; [|done]. cbn [mbind result_bind].
  case_bool_decide as Hin; [done|]. intros H. split_and!; [done|done|..].
  - repeat case_match; congruence.
  - intros h' r ->%list_elem_of_singleton Hr. rewrite Hr in H. simpl in H. case_bool_decide; congruence.
Qed.

Lemma hostname_set_fold i d l names names' :
  try_fold (hostname_set_step i d) l names = Ok names' →
  Forall (λ h, validate_project_hostname h = Ok tt) l ∧ NoDup l ∧ (∀ h, h ∈ l → h ∉ names)
  ∧ hostnames_free d i l.
Proof.
  revert names. induction l as [|h l IH]; intros names.
  { intros _. split_and!; [constructor|constructor|set_solver|]. intros h r Hh.
    by apply not_elem_of_nil in Hh. }
  cbn [try_fold]. destruct (hostname_set_step _ _ _ _) as [names1|] eqn:E; [|done].
  apply hostname_set_step_ok in E as (Hv & Hin & -> & Hf). cbn [mbind result_bind].
  intros (Hall & Hnd & Hfresh & Hfree)%IH. split_and!; [by constructor| | |].
  - constructor; [|done]. intros Hh. apply (Hfresh h Hh). set_solver.
  - set_solver.
  - intros h' r [->|Hh']%elem_of_cons Hr; [|by eapply Hfree]. apply (Hf h r); [by left|done].
Qed.

Lemma validate_hostname_set_ok i P A d : validate_project_hostname_set i P A d = Ok tt →
  Forall (λ h, validate_project_hostname h = Ok tt) (P :: A) ∧ NoDup (P :: A)
  ∧ hostnames_free d i (P :: A).
Proof.
  unfold validate_project_hostname_set. intros H; inv_ok. apply hostname_set_fold in E. naive_solver.
Qed.

(** ** Inserting a project *)

Definition new_row (s : string) (input : LinkProjectInput) (m : ProjectMode) (now : string) : ProjectRow :=
  {| p_path := l_path input; p_primary_hostname := l_primary_hostname input;
     p_config_path := Some (l_config_path input);
     p_desired_php_track := l_desired_php_track input; p_created_at := now; p_updated_at := now;
     p_original_path := Some (l_original_path input); p_requested_extensions_json := "[]";
     p_loaded_extensions_json := "[]"; p_ignored_extensions_json := "[]";
     p_project_slug := Some s; p_serves_http := project_mode_as_database m |}.

Lemma new_row_fits `{JsonLaws} d i s input m now : slug_ok s →
  (∀ j q, projects d !! j = Some q → p_path q ≠ l_path input) →
  (∀ j q, projects d !! j = Some q → p_project_slug q ≠ Some s) →
  row_fits d i (new_row s input m now).
Proof.
  intros [(Hs & _) _] Hpath Hslug. split.
  - intros j q Hq _. by eapply Hpath.
  - by exists s.
  - intros j q Hq _. by eapply Hslug.
  - split; [apply mode_readable|]. exists [], [], []. intros k. split_and!; apply parse_empty_extensions.
Qed.

(** The primary hostname of a new or updated project belongs to no other project. *)
Lemma primary_free_served `{Json} d i P : projects_wf d → is_internal_project_hostname P = false →
  hostnames_free d i [P] → ∀ j q, projects d !! j = Some q → j ≠ i → p_primary_hostname q ≠ P.
Proof.
  intros Hwf HP Hfree j q Hq Hne Heq.
  destruct (hw_primary d Hwf j q Hq) as (r & Hr & Hj & _); [by rewrite Heq|].
  rewrite Heq in Hr. rewrite (Hfree P r) in Hj; [done|by left|done].
Qed.

Lemma primary_free_internal `{Json} d i : projects_wf d →
  ∀ j q, projects d !! j = Some q → j ≠ i → p_primary_hostname q ≠ internal_project_hostname i.
Proof.
  intros Hwf j q Hq Hne Heq.
  assert (is_internal_project_hostname (p_primary_hostname q) = true) as Hint
    by (rewrite Heq; apply internal_is_internal).
  pose proof (hw_internal d Hwf j q Hq Hint) as Hj. rewrite Heq in Hj. apply Hne.
  unfold internal_project_hostname in Hj. apply (f_equal (strip_suffix ".invalid")) in Hj.
  rewrite !(proj2 (strip_suffix_Some ".invalid" _ _) eq_refl) in Hj. by injection Hj as ->.
Qed.

Lemma insert_project_spec `{Json} d i s input m now : projects_wf d → slug_ok s →
  projects d !! i = None → slug_taken s d = false →
  (∀ j q, projects d !! j = Some q → p_path q ≠ l_path input) →
  (∀ j q, projects d !! j = Some q → j ≠ i → p_primary_hostname q ≠ l_primary_hostname input) →
  insert_project i s input m now d = Ok (set_projects (<[i := new_row s input m now]>) d).
Proof.
  intros Hwf [(Hs & _) _] Hi Hslug Hpath Hprim. unfold insert_project.
  rewrite (proj2 (is_empty_false s) Hs), Hi. simpl.
  rewrite (proj2 (other_project_false _ i d)).
  2: { intros j q Hq _. apply bool_decide_eq_false. by eapply Hpath. }
  rewrite (proj2 (other_project_false _ i d)).
  2: { intros j q Hq Hne. apply bool_decide_eq_false. by eapply Hprim. }
  by rewrite Hslug.
Qed.

Lemma read_id `{Json} p d project : project_by_id p d = Ok (Some project) → id project = p ∧ is_Some (projects d !! p).
Proof.
  unfold project_by_id, read_project. destruct (projects d !! p) as [row|]; cbn; [|done].
  intros (r & Hr & [= <-])%fmap_result_ok. unfold project_into_record in Hr. inv_ok. by split.
Qed.

(** A finalized project has the snapshot it was finalized with, as its last write. *)
Lemma finalize_ok `{Json} input now1 now2 now3 now4 d project d' :
  finalize_project_reconciliation input now1 now2 now3 now4 d = (Ok project, d') →
  ∃ d1, snapshot_taken (rc_project_id input) (rc_env_status input) (rc_env_message input) (rc_env_warnings input) now4 d1 d'
    ∧ id project = rc_project_id input.
Proof.
  unfold finalize_project_reconciliation. rewrite transact_ok. intros Hf. inv_ok.
  apply read_id in E2 as [Hid _]. apply read_id in E9 as [Hid' _]. rewrite Hid in *. exists a5. by split; [apply snapshot_ok|].
Qed.
