(* ===== verification/StateLink.v ===== *)
(** * What linking and unlinking a project guarantee
    (specification of [link_project_with_mode] and [unlink_project] of [state/src/database.rs]) *)

From stdpp Require Import fin.
From S2P Require Import Prelude RustStr Paths Hostname StateTypes StateDb StateResources.
From S2P Require Import StateObserved StateProjects.

(** ** The result of a link *)

(** [d'] is [d] with the row of project [i] and the hostname table replaced. *)
Definition link_written (d : Db) (i : string) (row : ProjectRow) (mh : gmap string HostnameRow) : Db :=
  set_project_hostnames (λ _, mh) (set_projects (<[i := row]>) d).

(** The owner of a hostname after a project [i] took the names [hs] as its own. *)
Definition owner_after (d : Db) (i : string) (hs : list string) (h : string) : option string :=
  if decide (h ∈ hs) then Some i
  else if decide (project_owner_for_hostname h d = Some i) then None
  else project_owner_for_hostname h d.

(** What a successful link promises. *)
Record link_outcome (d : Db) (input : LinkProjectInput) (m : ProjectMode) (now : string)
    (res : LinkProjectResult) (d' : Db) : Prop := {
  lo_status : lr_status res = Created ↔ (∀ j q, projects d !! j = Some q → p_path q ≠ l_path input);
  lo_project : path (lr_project res) = l_path input ∧ mode (lr_project res) = m
    ∧ desired_php_track (lr_project res) = l_desired_php_track input;
  lo_new : lr_status res = Created →
    projects d !! id (lr_project res) = None ∧ created_at (lr_project res) = now
    ∧ slug_ok (slug (lr_project res))
    ∧ (∀ j q, projects d !! j = Some q → p_project_slug q ≠ Some (slug (lr_project res)));
  lo_kept : ∀ j q, projects d !! j = Some q → p_path q = l_path input →
    id (lr_project res) = j ∧ p_project_slug q = Some (slug (lr_project res))
    ∧ created_at (lr_project res) = p_created_at q;
  lo_stored : ∃ row mh, d' = link_written d (id (lr_project res)) row mh
    ∧ record_for d' (id (lr_project res)) row (lr_project res);
  lo_hostnames : match m with
    | Served => primary_hostname (lr_project res) = Some (l_primary_hostname input)
        ∧ additional_hostnames (lr_project res) = sorted_hostnames (l_additional_hostnames input)
        ∧ ∀ h, project_owner_for_hostname h d'
            = owner_after d (id (lr_project res))
                (l_primary_hostname input :: l_additional_hostnames input) h
    | ResourceOnly => ∀ h, project_owner_for_hostname h d' = project_owner_for_hostname h d
    end;
}.

(** ** The rows a link writes *)

Lemma slug_taken_false s d : slug_taken s d = false →
  ∀ j q, projects d !! j = Some q → p_project_slug q ≠ Some s.
Proof. intros Hf j q Hq Hs. rewrite (proj2 (slug_taken_true s d)) in Hf by eauto. done. Qed.

Section writing.
Context `{JsonLaws} (d : Db) (Hwf : projects_wf d).

Lemma updated_row_fits i p0 input m now : projects d !! i = Some p0 →
  row_fits d i (updated_row input m now p0).
Proof.
  intros Hp. destruct (updated_row_facts input m now p0) as (Hpath & Hslug & _ & _). split.
  - intros j q Hq Hne Heq. rewrite Hpath in Heq. by apply Hne, (hw_path d Hwf j i q p0).
  - rewrite Hslug. by apply (hw_slug d Hwf i p0).
  - intros j q Hq Hne Heq. rewrite Hslug in Heq. by apply Hne, (hw_slug_unique d Hwf j i q p0).
  - apply updated_row_readable. by apply (hw_readable d Hwf i p0).
Qed.

(** Reading back a project whose row was just written. *)
Lemma written_read_back i row mh : row_fits d i row →
  ∃ r, project_by_id i (link_written d i row mh) = Ok (Some r)
    ∧ record_for (link_written d i row mh) i row r.
Proof.
  intros Hfit. destruct (rf_slug d i row Hfit) as (s & Hs & _).
  apply (project_by_id_ok _ i row s); [|apply Hfit|done]. simpl. apply lookup_insert_eq.
Qed.

Lemma new_id_owns_nothing i : projects d !! i = None →
  ∀ h r, project_hostnames d !! h = Some r → h_project_id r ≠ i.
Proof. intros Hi h r Hr <-. destruct (hw_owner d Hwf h r Hr) as (p & Hp & _). congruence. Qed.

(** Creating a served project. *)
Lemma served_insert_spec i s input now1 now2 : slug_ok s → projects d !! i = None →
  slug_taken s d = false → (∀ j q, projects d !! j = Some q → p_path q ≠ l_path input) →
  is_internal_project_hostname (l_primary_hostname input) = false →
  NoDup (l_primary_hostname input :: l_additional_hostnames input) →
  hostnames_free d i (l_primary_hostname input :: l_additional_hostnames input) →
  ∃ mh, (d1 ← insert_project i s input Served now1 d; replace_project_hostnames i input now2 d1)
    = Ok (link_written d i (new_row s input Served now1) mh)
    ∧ hostnames_replaced d i (l_primary_hostname input) (l_additional_hostnames input) now2 mh.
Proof.
  intros Hs Hi Hslug Hpath Hint Hnd Hfree. pose proof (new_id_owns_nothing i Hi) as Hno.
  rewrite insert_project_spec; [|done..|]; cbn [mbind result_bind].
  2: { apply primary_free_served; [done|done|]. intros h r ->%list_elem_of_singleton.
       apply Hfree. by left. }
  destruct (replace_project_hostnames_spec i (l_primary_hostname input)
    (l_additional_hostnames input) (new_row s input Served now1) now2 input
    (set_projects (<[i := new_row s input Served now1]>) d)) as (mh & -> & HP & Hm); simpl.
  { done. } { done. } { by rewrite lookup_insert_eq. } { done. } { done. }
  { intros h r Hr Hri. by destruct (Hno h r Hr). }
  { intros r Hr. destruct (Hno _ r Hr). apply (Hfree (l_primary_hostname input)); [by left|done]. }
  { intros a r Ha. apply Hfree. by right. }
  exists mh. split; [done|]. by split.
Qed.

(** The hostnames a project has: they are distinct, its own, and all it owns. *)
Lemma own_hostnames i p0 : projects d !! i = Some p0 →
  is_internal_project_hostname (p_primary_hostname p0) = false →
  NoDup (p_primary_hostname p0 :: additional_hostnames_for_project i d)
  ∧ ∀ h, project_owner_for_hostname h d = Some i
      ↔ h ∈ p_primary_hostname p0 :: additional_hostnames_for_project i d.
Proof.
  intros Hp Hint. destruct (hw_primary d Hwf i p0 Hp Hint) as (r0 & Hr0 & Hi0 & Hpr0). split.
  - constructor; [|apply NoDup_additional]. intros (r & Hr & _ & Hpr)%elem_of_additional. congruence.
  - intros h. rewrite owner_Some, elem_of_cons, elem_of_additional. split.
    + intros (r & Hr & Hi). destruct (h_is_primary r) eqn:Hpr; [|eauto]. left.
      by apply (primary_row_of_project d Hwf i p0 Hp h r).
    + intros [->|(r & Hr & Hi & _)]; eauto.
Qed.
End writing.

(** ** What the two writing statements of a link do *)

Definition link_rows (existing : option ProjectRecord) (i s : string) (input : LinkProjectInput)
    (m : ProjectMode) (now1 now2 : string) (d : Db) : result StateError Db :=
  d ← match existing with
      | Some p => update_project (id p) input m now1
                    (delete_same_project_additional_hostname (id p) (l_primary_hostname input) d)
      | None => insert_project i s input m now1 d
      end;
  if bool_decide (m = Served) || option_bool (existing ≫= primary_hostname)
  then replace_project_hostnames i input now2 d else Ok d.

Record link_write (d : Db) (i P : string) (A : list string) (m : ProjectMode) (row : ProjectRow)
    (mh : gmap string HostnameRow) : Prop := {
  lw_owner : ∀ h, project_owner_for_hostname h (link_written d i row mh)
    = match m with Served => owner_after d i (P :: A) h
                 | ResourceOnly => project_owner_for_hostname h d end;
  lw_additional : m = Served →
    additional_hostnames_for_project i (link_written d i row mh) = sorted_hostnames A;
}.

Section rows.
Context `{JsonLaws} (d : Db) (Hwf : projects_wf d) (i : string) (input : LinkProjectInput)
  (now1 now2 : string).
Let P := l_primary_hostname input.
Let A := l_additional_hostnames input.

Lemma replaced_write row mh : hostnames_replaced d i P A now2 mh → NoDup (P :: A) →
  link_write d i P A Served row mh.
Proof.
  intros Hrep Hnd. split; [intros h; by apply (owner_replaced d i P A now2)|].
  intros _. by apply (additional_replaced d i P A now2).
Qed.

Lemma rows_existing_served p row0 : projects d !! i = Some row0 → record_for d i row0 p →
  is_internal_project_hostname P = false → NoDup (P :: A) → hostnames_free d i (P :: A) →
  ∃ mh, link_rows (Some p) i (slug p) input Served now1 now2 d
      = Ok (link_written d i (updated_row input Served now1 row0) mh)
    ∧ projects_wf (link_written d i (updated_row input Served now1 row0) mh)
    ∧ link_write d i P A Served (updated_row input Served now1 row0) mh.
Proof.
  intros Hp [Hid _] Hint Hnd Hfree. unfold link_rows. rewrite Hid. simpl orb. cbn iota.
  destruct (served_update_spec d Hwf i row0 Hp input Served now1 now2 Hint Hnd Hfree)
    as (mh & Heq & Hrep). exists mh. split; [exact Heq|]. split; [|by apply replaced_write].
  apply (projects_wf_served d Hwf i _ (updated_row_fits d Hwf i row0 input Served now1 Hp) P A now2);
    [apply updated_row_facts|done..].
Qed.

Lemma rows_new_served s : slug_ok s → projects d !! i = None → slug_taken s d = false →
  (∀ j q, projects d !! j = Some q → p_path q ≠ l_path input) →
  is_internal_project_hostname P = false → NoDup (P :: A) → hostnames_free d i (P :: A) →
  ∃ mh, link_rows None i s input Served now1 now2 d
      = Ok (link_written d i (new_row s input Served now1) mh)
    ∧ projects_wf (link_written d i (new_row s input Served now1) mh)
    ∧ link_write d i P A Served (new_row s input Served now1) mh.
Proof.
  intros Hs Hi Hslug Hpath Hint Hnd Hfree.
  destruct (served_insert_spec d Hwf i s input now1 now2) as (mh & Heq & Hrep); [done..|].
  exists mh. split; [exact Heq|]. split; [|by apply replaced_write].
  apply (projects_wf_served d Hwf i _ (new_row_fits d i s input Served now1 Hs Hpath
    (slug_taken_false s d Hslug)) P A now2); done.
Qed.
End rows.

(** The hostnames of a resource-only project are those it had. *)
Section resource_only_rows.
Context `{JsonLaws} (d : Db) (Hwf : projects_wf d) (i : string) (input : LinkProjectInput)
  (now1 now2 : string).

Lemma unchanged_write row (mh : gmap string HostnameRow) P A :
  (∀ h, h_project_id <$> mh !! h = project_owner_for_hostname h d) →
  link_write d i P A ResourceOnly row mh.
Proof. intros Hm. split; [exact Hm|done]. Qed.

Lemma rows_new_internal s : slug_ok s → projects d !! i = None → slug_taken s d = false →
  (∀ j q, projects d !! j = Some q → p_path q ≠ l_path input) →
  let input := resource_only_input None i input in
  let row := new_row s input ResourceOnly now1 in
  link_rows None i s input ResourceOnly now1 now2 d
    = Ok (link_written d i row (project_hostnames d))
  ∧ projects_wf (link_written d i row (project_hostnames d)).
Proof.
  intros Hs Hi Hslug Hpath input' row. unfold link_rows.
  rewrite insert_project_spec; [|done..|by apply primary_free_internal]. split; [done|].
  change (projects_wf (set_projects (<[i := row]>) d)).
  apply projects_wf_internal; [done| |done|by apply new_id_owns_nothing].
  apply new_row_fits; [done|done|by apply slug_taken_false].
Qed.

Lemma rows_existing_internal p row0 : projects d !! i = Some row0 → record_for d i row0 p →
  is_internal_project_hostname (p_primary_hostname row0) = true →
  let input := resource_only_input (Some p) i input in
  let row := updated_row input ResourceOnly now1 row0 in
  link_rows (Some p) i (slug p) input ResourceOnly now1 now2 d
    = Ok (link_written d i row (project_hostnames d))
  ∧ projects_wf (link_written d i row (project_hostnames d)).
Proof.
  intros Hp (Hid & _ & _ & _ & Hprim & _) Hint input' row. rewrite Hint in Hprim.
  assert (l_primary_hostname input' = p_primary_hostname row0) as HP.
  { unfold input'. simpl. rewrite Hprim. symmetry. by apply (hw_internal d Hwf). }
  unfold link_rows. rewrite Hid, (internal_update_spec d Hwf i row0 Hp) by done.
  cbn [mbind result_bind option_bind]. rewrite Hprim. split; [done|].
  change (projects_wf (set_projects (<[i := row]>) d)).
  apply projects_wf_internal; [done|by apply updated_row_fits| |].
  - unfold row. destruct (updated_row_facts input' ResourceOnly now1 row0) as (_ & _ & -> & _).
    rewrite HP. by apply (hw_internal d Hwf).
  - intros h r Hr. by apply (internal_has_no_rows d Hwf i row0 Hp h r Hint).
Qed.

Lemma rows_existing_kept p row0 : projects d !! i = Some row0 → record_for d i row0 p →
  is_internal_project_hostname (p_primary_hostname row0) = false →
  let input := resource_only_input (Some p) i input in
  let row := updated_row input ResourceOnly now1 row0 in
  ∃ mh, link_rows (Some p) i (slug p) input ResourceOnly now1 now2 d = Ok (link_written d i row mh)
  ∧ projects_wf (link_written d i row mh)
  ∧ ∀ h, h_project_id <$> mh !! h = project_owner_for_hostname h d.
Proof.
  intros Hp (Hid & _ & _ & _ & Hprim & _ & Hadd & _) Hint input' row. rewrite Hint in Hprim.
  destruct (own_hostnames d Hwf i row0 Hp Hint) as [Hnd Hown].
  assert (l_primary_hostname input' = p_primary_hostname row0) as HP
    by (unfold input'; simpl; by rewrite Hprim).
  assert (l_additional_hostnames input' = additional_hostnames_for_project i d) as HA by done.
  assert (∀ h r, h ∈ l_primary_hostname input' :: l_additional_hostnames input' →
    project_hostnames d !! h = Some r → h_project_id r = i) as Hfree.
  { rewrite HP, HA. intros h r Hh%Hown Hr. unfold project_owner_for_hostname in Hh.
    rewrite Hr in Hh. by injection Hh. }
  destruct (served_update_spec d Hwf i row0 Hp input' ResourceOnly now1 now2)
    as (mh & Heq & Hrep); [by rewrite HP|by rewrite HP, HA|done|]. exists mh. split; [|split].
  - unfold link_rows. rewrite Hid. cbn [mbind option_bind]. rewrite Hprim. exact Heq.
  - apply (projects_wf_served d Hwf i row (updated_row_fits d Hwf i row0 input' ResourceOnly now1 Hp)
      (l_primary_hostname input') (l_additional_hostnames input') now2);
      [apply updated_row_facts|by rewrite HP|done|done].
  - intros h. transitivity (owner_after d i
      (l_primary_hostname input' :: l_additional_hostnames input') h).
    { exact (owner_replaced d i _ _ now2 mh (λ p, p) Hrep h). }
    unfold owner_after. rewrite HP, HA. repeat case_decide; rewrite <-?Hown in *; congruence.
Qed.
End resource_only_rows.

(** ** The generated id and slug *)

Lemma generated_id_free draw d i : generate_project_id draw d = Ok i → projects d !! i = None.
Proof.
  unfold generate_project_id. intros H. destruct (List.find _ _) as [j|] eqn:Hf; [|done].
  injection H as <-. apply List.find_some in Hf as [_ Hf]. by destruct (projects d !! j).
Qed.

Lemma generated_slug_free p d s : generate_project_slug p d = Ok s →
  slug_ok s ∧ slug_taken s d = false.
Proof.
  unfold generate_project_slug. destruct (project_slug_base p) as [base|] eqn:Hb; [|done].
  assert (N.of_nat PROJECT_SLUG_ATTEMPTS = 10000%N) as Hatt by by vm_compute.
  cbn [mbind result_bind]. intros (n & Hn & -> & Hf & _)%slug_search_ok. split; [|done].
  apply slug_attempt_ok; [by apply (project_slug_base_ok p)|]. lia.
Qed.

(** ** The three phases of a link: identify, check the hostnames, write *)

Definition link_identity (existing : option ProjectRecord) (input : LinkProjectInput)
    (draw : nat → fin 36) (d : Db) : result StateError (string * string) :=
  i ← match existing with Some p => Ok (id p) | None => generate_project_id draw d end;
  s ← match existing with Some p => Ok (slug p) | None => generate_project_slug (l_path input) d end;
  Ok (i, s).

Definition link_hostnames (existing : option ProjectRecord) (i : string) (input : LinkProjectInput)
    (m : ProjectMode) (d : Db) : result StateError LinkProjectInput :=
  if bool_decide (m = ResourceOnly) then Ok (resource_only_input existing i input)
  else _ ← validate_project_hostname_set i (l_primary_hostname input) (l_additional_hostnames input) d;
       Ok input.

Definition link_body `{Json} (input : LinkProjectInput) (m : ProjectMode) (draw : nat → fin 36)
    (now1 now2 : string) (d : Db) : result StateError (LinkProjectResult * Db) :=
  _ ← validate_link_project_input input m;
  existing ← project_by_path (l_path input) d;
  '(i, s) ← link_identity existing input draw d;
  input ← link_hostnames existing i input m d;
  d ← link_rows existing i s input m now1 now2 d;
  project ← project_by_id i d;
  project ← ok_or project (ProjectNotFound i);
  Ok ({| lr_status := link_status existing input m; lr_project := project |}, d).

Lemma link_project_phases `{Json} input m draw now1 now2 d :
  link_project_with_mode input m draw now1 now2 d = transact (link_body input m draw now1 now2) d.
Proof.
  unfold link_project_with_mode, link_body, link_identity, link_hostnames, link_rows, transact.
  destruct (validate_link_project_input input m) as [[]|]; [|done]. cbn [mbind result_bind].
  destruct (project_by_path (l_path input) d) as [existing|]; [|done]. cbn [mbind result_bind].
  destruct (match existing with Some p => Ok (id p) | None => _ end) as [i|]; [|done].
  cbn [mbind result_bind].
  destruct (match existing with Some p => Ok (slug p) | None => _ end) as [s|]; [|done].
  cbn [mbind result_bind].
  destruct (if bool_decide (m = ResourceOnly) then _ else _) as [input'|]; [|done].
  cbn [mbind result_bind].
  destruct (match existing with Some p => update_project _ _ _ _ _ | None => _ end); [|done].
  done.
Qed.

(** What the writing phase stores, whichever branch it takes. *)
Record link_stored `{Json} (d : Db) (i : string) (input : LinkProjectInput) (m : ProjectMode)
    (row : ProjectRow) (mh : gmap string HostnameRow) : Prop := {
  ls_wf : projects_wf (link_written d i row mh);
  ls_fits : row_fits d i row;
  ls_row : p_path row = l_path input ∧ p_serves_http row = project_mode_as_database m
    ∧ p_desired_php_track row = l_desired_php_track input;
  ls_hostnames : match m with
    | Served => p_primary_hostname row = l_primary_hostname input
        ∧ is_internal_project_hostname (l_primary_hostname input) = false
        ∧ link_write d i (l_primary_hostname input) (l_additional_hostnames input) Served row mh
    | ResourceOnly => ∀ h, project_owner_for_hostname h (link_written d i row mh)
        = project_owner_for_hostname h d
    end;
}.

Lemma updated_row_kept input m now row :
  p_desired_php_track (updated_row input m now row) = l_desired_php_track input
  ∧ p_created_at (updated_row input m now row) = p_created_at row.
Proof. unfold updated_row. by case_match. Qed.

Section phases.
Context `{JsonLaws} (d : Db) (Hwf : projects_wf d) (i : string) (input : LinkProjectInput)
  (now1 now2 : string).

(** The hostnames of a served link, once checked. *)
Lemma served_hostnames_checked existing :
  (∃ e, link_hostnames existing i input Served d = Err e ∧ ∀ s, e ≠ Sqlite s)
  ∨ link_hostnames existing i input Served d = Ok input
    ∧ is_internal_project_hostname (l_primary_hostname input) = false
    ∧ NoDup (l_primary_hostname input :: l_additional_hostnames input)
    ∧ hostnames_free d i (l_primary_hostname input :: l_additional_hostnames input).
Proof.
  unfold link_hostnames. simpl bool_decide. cbn iota.
  pose proof (no_sqlite_hostname_set i (l_primary_hostname input) (l_additional_hostnames input) d) as Hno.
  destruct (validate_project_hostname_set _ _ _ _) as [[]|e] eqn:Hv.
  - right. apply validate_hostname_set_ok in Hv as (Hall & Hnd & Hfree).
    apply Forall_cons in Hall as [Hp _]. apply validate_project_hostname_ok in Hp as [Hp _].
    split; [done|]. split; [by apply served_not_internal|done].
  - left. exists e. split; [done|]. intros s ->. by apply (Hno s).
Qed.

Lemma existing_phase m p row0 : projects d !! i = Some row0 → p_path row0 = l_path input →
  record_for d i row0 p →
  (∃ e, link_hostnames (Some p) i input m d = Err e ∧ ∀ s, e ≠ Sqlite s)
  ∨ ∃ input' row mh, link_hostnames (Some p) i input m d = Ok input'
    ∧ link_rows (Some p) i (slug p) input' m now1 now2 d = Ok (link_written d i row mh)
    ∧ link_stored d i input m row mh
    ∧ p_project_slug row = p_project_slug row0 ∧ p_created_at row = p_created_at row0.
Proof.
  intros Hp Hpath Hrec.
  assert (∀ input', l_desired_php_track input' = l_desired_php_track input →
    let row := updated_row input' m now1 row0 in
    row_fits d i row ∧ (p_path row = l_path input ∧ p_serves_http row = project_mode_as_database m
      ∧ p_desired_php_track row = l_desired_php_track input)
    ∧ p_project_slug row = p_project_slug row0 ∧ p_created_at row = p_created_at row0) as Hrow.
  { intros input' Ht row. destruct (updated_row_facts input' m now1 row0) as (H1 & H2 & _ & H4).
    destruct (updated_row_kept input' m now1 row0) as [H5 H6]. unfold row.
    split; [by apply updated_row_fits|]. by rewrite H1, H2, H4, H5, H6, Hpath, Ht. }
  destruct m.
  - destruct (served_hostnames_checked (Some p)) as [Herr|(Hok & Hint & Hnd & Hfree)]; [by left|right].
    destruct (rows_existing_served d Hwf i input now1 now2 p row0) as (mh & Heq & Hwf' & Hw); [done..|].
    destruct (Hrow input eq_refl) as (Hfit & Hr & Hkept).
    exists input, (updated_row input Served now1 row0), mh. split; [done|]. split; [exact Heq|].
    split; [|exact Hkept]. split; [done..|]. split; [apply updated_row_facts|done].
  - right. destruct (Hrow (resource_only_input (Some p) i input) eq_refl) as (Hfit & Hr & Hkept).
    destruct (is_internal_project_hostname (p_primary_hostname row0)) eqn:Hint.
    + destruct (rows_existing_internal d Hwf i input now1 now2 p row0 Hp Hrec Hint) as [Heq Hwf'].
      do 3 eexists. split; [reflexivity|]. split; [exact Heq|]. split; [|exact Hkept]. by split.
    + destruct (rows_existing_kept d Hwf i input now1 now2 p row0 Hp Hrec Hint) as (mh & Heq & Hwf' & Hown).
      do 3 eexists. split; [reflexivity|]. split; [exact Heq|]. split; [|exact Hkept]. by split.
Qed.

Lemma new_phase m s : slug_ok s → projects d !! i = None → slug_taken s d = false →
  (∀ j q, projects d !! j = Some q → p_path q ≠ l_path input) →
  (∃ e, link_hostnames None i input m d = Err e ∧ ∀ s, e ≠ Sqlite s)
  ∨ ∃ input' row mh, link_hostnames None i input m d = Ok input'
    ∧ link_rows None i s input' m now1 now2 d = Ok (link_written d i row mh)
    ∧ link_stored d i input m row mh
    ∧ p_project_slug row = Some s ∧ p_created_at row = now1.
Proof.
  intros Hs Hi Hslug Hpath.
  assert (∀ input', l_path input' = l_path input → row_fits d i (new_row s input' m now1)) as Hfit.
  { intros input' Hp. apply new_row_fits; [done|by rewrite Hp|by apply slug_taken_false]. }
  destruct m.
  - destruct (served_hostnames_checked None) as [Herr|(Hok & Hint & Hnd & Hfree)]; [by left|right].
    destruct (rows_new_served d Hwf i input now1 now2 s) as (mh & Heq & Hwf' & Hw); [done..|].
    exists input, (new_row s input Served now1), mh. split; [done|]. split; [exact Heq|].
    split; [|done]. split; [done|by apply Hfit|done|done].
  - right. destruct (rows_new_internal d Hwf i input now1 now2 s Hs Hi Hslug Hpath) as [Heq Hwf'].
    do 3 eexists. split; [reflexivity|]. split; [exact Heq|]. split; [|done].
    split; [done|by apply Hfit|done|done].
Qed.
End phases.

(** ** The outcome of a link *)

Lemma link_status_created existing input m : link_status existing input m = Created ↔ existing = None.
Proof. unfold link_status. destruct existing; [|done]. case_match; done. Qed.

Lemma project_mode_inj m m' : project_mode_as_database m = project_mode_as_database m' → m = m'.
Proof. by destruct m, m'. Qed.

(** The record read back describes what was stored. *)
Lemma stored_outcome `{JsonLaws} d i input input' m row mh res existing now :
  projects_wf d → link_stored d i input m row mh →
  record_for (link_written d i row mh) i row (lr_project res) →
  lr_status res = link_status existing input' m →
  match existing with
  | Some p => ∃ row0, projects d !! i = Some row0 ∧ p_path row0 = l_path input
      ∧ p_project_slug row = p_project_slug row0 ∧ p_created_at row = p_created_at row0
  | None => projects d !! i = None ∧ p_created_at row = now
      ∧ (∃ s, slug_ok s ∧ slug_taken s d = false ∧ p_project_slug row = Some s)
      ∧ (∀ j q, projects d !! j = Some q → p_path q ≠ l_path input)
  end →
  link_outcome d input m now res (link_written d i row mh).
Proof.
  intros Hwf [_ Hfit (Hpath & Hserves & Htrack) Hhost] Hrec Hst Hex.
  destruct Hrec as (Hid & Hslug & Hp & Hmode & Hprim & Ht & Hadd & Hcr) eqn:Hrec'; clear Hrec'.
  split.
  - rewrite Hst, link_status_created. destruct existing; [|naive_solver]. split; [done|].
    intros Hno. destruct Hex as (row0 & Hi & Hp0 & _). by destruct (Hno i row0 Hi).
  - split_and!; [congruence| |congruence]. apply project_mode_inj. congruence.
  - rewrite Hst, link_status_created. intros ->. destruct Hex as (Hi & Hnow & (s & Hs & Hfree & Hrs) & _).
    rewrite Hid. split_and!; [done|congruence| |].
    + by assert (slug (lr_project res) = s) as -> by congruence.
    + assert (slug (lr_project res) = s) as -> by congruence. by apply slug_taken_false.
  - intros j q Hq Hpq. destruct existing.
    + destruct Hex as (row0 & Hi & Hp0 & Hs0 & Hc0).
      assert (j = i) as -> by (apply (hw_path d Hwf j i q row0 Hq Hi); congruence).
      assert (q = row0) as -> by congruence. split_and!; congruence.
    + destruct Hex as (_ & _ & _ & Hno). by destruct (Hno j q Hq).
  - exists row, mh. rewrite Hid. done.
  - rewrite Hid. destruct m; [|exact Hhost]. destruct Hhost as (HP & Hint & [Hown Hadds]).
    rewrite Hprim, HP, Hint, Hadd. split_and!; [done|by apply Hadds|exact Hown].
Qed.

(** The checks that can refuse a link. *)
Definition link_refused (d : Db) (input : LinkProjectInput) (m : ProjectMode) (draw : nat → fin 36)
    (e : StateError) : Prop :=
  validate_link_project_input input m = Err e
  ∨ (∀ j q, projects d !! j = Some q → p_path q ≠ l_path input)
    ∧ (generate_project_id draw d = Err e ∨ generate_project_slug (l_path input) d = Err e)
  ∨ m = Served ∧ ∃ i, validate_project_hostname_set i (l_primary_hostname input)
      (l_additional_hostnames input) d = Err e.

Definition link_post `{Json} (d : Db) (input : LinkProjectInput) (m : ProjectMode)
    (draw : nat → fin 36) (now : string) (r : result StateError (LinkProjectResult * Db)) : Prop :=
  match r with
  | Ok (res, d') => projects_wf d' ∧ link_outcome d input m now res d'
  | Err e => link_refused d input m draw e ∧ ∀ s, e ≠ Sqlite s
  end.

Lemma link_hostnames_err existing i input m d e : link_hostnames existing i input m d = Err e →
  m = Served ∧ validate_project_hostname_set i (l_primary_hostname input)
    (l_additional_hostnames input) d = Err e.
Proof.
  unfold link_hostnames. case_bool_decide as Hm; [done|]. intros H. destruct m; [|done].
  split; [done|]. destruct (validate_project_hostname_set _ _ _ _); [done|].
  cbn [mbind result_bind] in H. congruence.
Qed.

(** The last two steps: the rows are written and the project is read back. *)
Lemma link_finish `{JsonLaws} d i s input input' m draw row mh existing now1 now2 :
  link_rows existing i s input' m now1 now2 d = Ok (link_written d i row mh) →
  row_fits d i row →
  (∀ r, record_for (link_written d i row mh) i row r →
    link_post d input m draw now1
      (Ok ({| lr_status := link_status existing input' m; lr_project := r |}, link_written d i row mh))) →
  link_post d input m draw now1 (
    d ← link_rows existing i s input' m now1 now2 d;
    project ← project_by_id i d;
    project ← ok_or project (ProjectNotFound i);
    Ok ({| lr_status := link_status existing input' m; lr_project := project |}, d)).
Proof.
  intros -> Hfit Hpost. cbn [mbind result_bind].
  destruct (written_read_back d i row mh Hfit) as (r & -> & Hrec). by apply Hpost.
Qed.

Lemma link_body_post `{JsonLaws} d input m draw now1 now2 : projects_wf d →
  link_post d input m draw now1 (link_body input m draw now1 now2 d).
Proof.
  intros Hwf. unfold link_body.
  pose proof (no_sqlite_link_input input m) as Hv.
  destruct (validate_link_project_input input m) as [[]|e] eqn:Hin;
    [|split; [by left|intros s ->; by apply (Hv s)]].
  cbn [mbind result_bind].
  destruct (project_by_path_spec d (l_path input) Hwf)
    as [[-> Hno]|(i & row0 & p & -> & Hi & Hpath & Hrec)]; cbn [mbind result_bind]; unfold link_identity.
  - pose proof (no_sqlite_id draw d) as Hid. destruct (generate_project_id draw d) as [i|e] eqn:Hgi;
      [|split; [right; left; by auto|intros s ->; by apply (Hid s)]]. cbn [mbind result_bind].
    pose proof (no_sqlite_slug (l_path input) d) as Hsl.
    destruct (generate_project_slug (l_path input) d) as [s|e] eqn:Hgs; [|split; [right; left; by auto|intros s ->; by apply (Hsl s)]].
    cbn [mbind result_bind]. apply generated_id_free in Hgi. apply generated_slug_free in Hgs as [Hs Hfree].
    destruct (new_phase d Hwf i input now1 now2 m s Hs Hgi Hfree Hno)
      as [(e & Herr & He)|(input' & row & mh & -> & Hrows & Hst & Hslug & Hcr)].
    { rewrite Herr. apply link_hostnames_err in Herr as [-> Herr]. split; [|done]. right; right. eauto. }
    cbn [mbind result_bind]. apply (link_finish d i s input input' m draw row mh); [done|apply Hst|].
    intros r Hr. split; [apply Hst|]. eapply stored_outcome; [done|done|exact Hr|reflexivity|]. simpl. eauto 10.
  - cbn [mbind result_bind]. assert (id p = i) as -> by apply Hrec.
    destruct (existing_phase d Hwf i input now1 now2 m p row0 Hi Hpath Hrec)
      as [(e & Herr & He)|(input' & row & mh & -> & Hrows & Hst & Hslug & Hcr)].
    { rewrite Herr. apply link_hostnames_err in Herr as [-> Herr]. split; [|done]. right; right. eauto. }
    cbn [mbind result_bind]. apply (link_finish d i _ input input' m draw row mh); [done|apply Hst|].
    intros r Hr. split; [apply Hst|]. eapply stored_outcome; [done|done|exact Hr|reflexivity|]. simpl. eauto 10.
Qed.

(** ** Unlinking *)

(** Everything [unlink_project] removes with a project, table by table. *)
Record unlinked (d : Db) (i : string) (d' : Db) : Prop := {
  un_projects : ∀ j, projects d' !! j = if decide (j = i) then None else projects d !! j;
  un_hostnames : ∀ h, project_hostnames d' !! h
    = row ← project_hostnames d !! h; if decide (h_project_id row = i) then None else Some row;
  un_allocations : ∀ k, resource_allocations d' !! k
    = a ← resource_allocations d !! k; if decide (a_project_id a = i) then None else Some a;
  un_requirements : ∀ j n, project_managed_resources d' !! (j, n)
    = if decide (j = i) then None else project_managed_resources d !! (j, n);
  un_tracks : ∀ k, managed_resource_tracks d' !! k = recounted (times_required k d') <$> managed_resource_tracks d !! k;
  un_observed : ∀ k s, observed_states d' !! (k, s)
    = if decide (k = "project_env" ∧ s = i) then None else observed_states d !! (k, s);
  un_warnings : ∀ j k o, project_env_observed_warnings d' !! (j, k, o)
    = if decide (j = i) then None else project_env_observed_warnings d !! (j, k, o);
  un_frame : ports d' = ports d ∧ resource_ports d' = resource_ports d ∧ jobs d' = jobs d
    ∧ job_diagnostic_outcomes d' = job_diagnostic_outcomes d ∧ global_php_default_track d' = global_php_default_track d;
}.

Lemma delete_requirement_raw key d :
  project_managed_resources (delete_requirement key d) = delete key (project_managed_resources d)
  ∧ tracks_of (delete_requirement key d) = tracks_of d
  ∧ outside (delete_requirement key d) = outside d.
Proof.
  unfold delete_requirement.
  destruct (project_managed_resources d !! key) as [old|] eqn:Hold; [|by rewrite delete_id].
  by rewrite tracks_of_refresh.
Qed.

Lemma delete_requirements_raw p names d :
  let d' := foldl (λ d name, delete_requirement (p, name) d) d names in
  tracks_of d' = tracks_of d ∧ outside d' = outside d
  ∧ ∀ k, project_managed_resources d' !! k
    = if decide (k.1 = p ∧ k.2 ∈ names) then None else project_managed_resources d !! k.
Proof.
  revert d. induction names as [|n names IH]; intros d; simpl.
  { split_and!; [done..|]. intros k. rewrite decide_False; [done|]. by intros [_ ?%not_elem_of_nil]. }
  destruct (delete_requirement_raw (p, n) d) as (Hr & Ht & Ho).
  destruct (IH (delete_requirement (p, n) d)) as (Ht' & Ho' & Hl).
  split_and!; [congruence|congruence|]. intros [p' n']. rewrite Hl, Hr. simpl.
  destruct (decide (p' = p ∧ n' = n)) as [[-> ->]|Hne].
  - rewrite lookup_delete_eq. rewrite (decide_True (P := p = p ∧ n ∈ n :: names)) by (split; [done|by left]).
    by case_decide.
  - rewrite lookup_delete_ne by (intros [= <- <-]; by apply Hne). apply decide_ext.
    rewrite elem_of_cons. split; [tauto|]. intros (-> & [->|Hn]); [by destruct Hne|done].
Qed.

(** The rows of a table that survive when those of [i] are deleted. *)
Lemma lookup_filter_other {K} `{Countable K} {A} (f : K → A → string) (m : gmap K A) i k :
  filter (λ '(k, a), f k a ≠ i) m !! k = a ← m !! k; if decide (f k a = i) then None else Some a.
Proof.
  rewrite map_lookup_filter. destruct (m !! k) as [a|]; [|done]. simpl.
  case_decide as Ha; [rewrite option_guard_False|rewrite option_guard_True]; naive_solver.
Qed.

Section unlinking.
Context `{JsonLaws} (d : Db) (i : string).

Let d0 : Db := set_observed_states (delete (PROJECT_ENV_OBSERVED_SUBJECT_KIND, i)) d.
Let d1 : Db := recalculate_managed_resource_usage_counts (delete_project i d0).
Let base : Db := delete_warnings i
  (set_resource_allocations (filter (λ '(_, row), a_project_id row ≠ i))
    (set_project_hostnames (filter (λ '(_, row), h_project_id row ≠ i))
      (set_projects (delete i) d0))).

Lemma unlink_tables : tracks_of d1 = tracks_of d ∧ outside d1 = outside base
  ∧ ∀ k, project_managed_resources d1 !! k
      = if decide (k.1 = i) then None else project_managed_resources d !! k.
Proof.
  unfold d1, delete_project. fold base.
  destruct (delete_requirements_raw i (project_managed_resource_names i base) base) as (Ht & Ho & Hl).
  rewrite tracks_of_recalculate. split_and!; [exact Ht|exact Ho|]. intros [p n].
  change (project_managed_resources (recalculate_managed_resource_usage_counts ?x))
    with (project_managed_resources x). rewrite Hl. simpl.
  destruct (decide (p = i)) as [->|Hne]; [|rewrite decide_False; [done|tauto]].
  case_decide as Hc; [done|]. destruct (project_managed_resources d !! (i, n)) as [q|] eqn:Hq; [|done].
  destruct Hc. split; [done|]. apply elem_of_requirement_names. by exists q.
Qed.

Lemma unlink_table {B} (f : Db → B) : (∀ x y, outside x = outside y → f x = f y) → f d1 = f base.
Proof. intros Hf. apply Hf, unlink_tables. Qed.

Lemma unlink_resources_wf : resources_wf d → resources_wf d1.
Proof.
  intros Hwf. pose proof unlink_tables as (Ht & Ho & Hl).
  assert (projects d1 = delete i (projects d)) as Hp by exact (f_equal projects Ho).
  apply (resources_wf_same d); [done|done| |].
  - intros k row. unfold d1, recalculate_managed_resource_usage_counts. simpl.
    rewrite map_lookup_imap. by intros (row0 & _ & [= <-])%bind_Some.
  - intros p n q. rewrite Hl, Hp. simpl. case_decide; [done|]. intros Hq.
    rewrite lookup_delete_ne by done.
    split; [exact (rw_project d Hwf p n q Hq)|exact (rw_track d Hwf p n q Hq)].
Qed.

Lemma unlink_unlinked : resources_wf d → unlinked d i d1.
Proof.
  intros Hwf. pose proof unlink_tables as (Htr & Ho & Hl). split.
  - intros j. assert (projects d1 = delete i (projects d)) as -> by exact (f_equal projects Ho).
    case_decide as Hj; [subst; apply lookup_delete_eq|by apply lookup_delete_ne].
  - intros h. assert (project_hostnames d1 = filter (λ '(_, row), h_project_id row ≠ i) (project_hostnames d)) as ->
      by exact (f_equal project_hostnames Ho). apply (lookup_filter_other (λ _, h_project_id)).
  - intros k.
    assert (resource_allocations d1 = filter (λ '(_, row), a_project_id row ≠ i) (resource_allocations d))
      as -> by exact (f_equal resource_allocations Ho).
    apply (lookup_filter_other (λ _, a_project_id)).
  - intros j n. by rewrite Hl.
  - intros k. by apply tracks_recounted; [apply unlink_resources_wf|].
  - intros k s.
    assert (observed_states d1 = delete (PROJECT_ENV_OBSERVED_SUBJECT_KIND, i) (observed_states d))
      as -> by exact (f_equal observed_states Ho).
    case_decide as Hc; [destruct Hc as [-> ->]; apply lookup_delete_eq|].
    apply lookup_delete_ne. intros [= <- <-]. by apply Hc.
  - intros j k o.
    assert (project_env_observed_warnings d1
      = filter (λ '(k, _), k.1.1 ≠ i) (project_env_observed_warnings d)) as ->
      by exact (f_equal project_env_observed_warnings Ho).
    rewrite (lookup_filter_other (λ k _, k.1.1)). simpl.
    destruct (project_env_observed_warnings d !! (j, k, o)); simpl; by case_decide.
  - split_and!; [exact (f_equal ports Ho)|exact (f_equal resource_ports Ho)|exact (f_equal jobs Ho)
      |exact (f_equal job_diagnostic_outcomes Ho)|exact (f_equal global_php_default_track Ho)].
Qed.

Lemma unlink_projects_wf : projects_wf d → projects_wf d1.
Proof.
  intros Hwf. pose proof unlink_tables as (_ & Ho & _).
  assert (projects d1 = delete i (projects d)) as Hp by exact (f_equal projects Ho).
  assert (∀ h r, project_hostnames d1 !! h = Some r ↔
    project_hostnames d !! h = Some r ∧ h_project_id r ≠ i) as Hh.
  { intros h r. assert (project_hostnames d1
      = filter (λ '(_, row), h_project_id row ≠ i) (project_hostnames d)) as ->
      by exact (f_equal project_hostnames Ho). by rewrite map_lookup_filter_Some. }
  split; rewrite ?Hp.
  - intros j k p q [_ Hj]%lookup_delete_Some [_ Hk]%lookup_delete_Some. by apply (hw_path d Hwf).
  - intros j p [_ Hj]%lookup_delete_Some. by apply (hw_slug d Hwf j).
  - intros j k p q [_ Hj]%lookup_delete_Some [_ Hk]%lookup_delete_Some. by apply (hw_slug_unique d Hwf).
  - intros j p [_ Hj]%lookup_delete_Some. by apply (hw_readable d Hwf j).
  - intros h r [Hr Hne]%Hh. destruct (hw_owner d Hwf h r Hr) as (p & Hpr & ?). exists p.
    rewrite lookup_delete_ne by done. by split.
  - intros j p [_ Hj]%lookup_delete_Some. by apply (hw_internal d Hwf).
  - intros j p [Hne Hj]%lookup_delete_Some Hint. destruct (hw_primary d Hwf j p Hj Hint) as (r & Hr & <- & ?).
    exists r. rewrite Hh. done.
Qed.

Lemma unlink_result : unlink_project i d =
  match (project ← project_by_id i d; ok_or project (ProjectNotFound i)) with
  | Ok r => (Ok r, d1)
  | Err e => (Err e, d)
  end.
Proof.
  unfold unlink_project, transact. destruct (project_by_id i d) as [[r|]|]; done.
Qed.
End unlinking.

(** ** Properties *)

(** C1: Linking a project keeps the projects well formed.  A link that succeeds
    creates a project exactly when none had the path, with a free id and a free
    slug, keeps the id, slug and creation time of one that had it, and changes no
    other project; a served project owns its primary and additional hostnames and
    nothing else, and a resource-only link changes no hostname's owner.  A link
    that fails was refused by one of the checks, never by a constraint of the
    database, and changes nothing. *)
Theorem link_project_with_mode_spec `{JsonLaws} d input m draw now1 now2 : projects_wf d →
  match link_project_with_mode input m draw now1 now2 d with
  | (Ok res, d') => projects_wf d' ∧ link_outcome d input m now1 res d'
  | (Err e, d') => d' = d ∧ link_refused d input m draw e ∧ ∀ s, e ≠ Sqlite s
  end.
Proof.
  intros Hwf. rewrite link_project_phases. pose proof (link_body_post d input m draw now1 now2 Hwf) as Hpost.
  unfold transact. destruct (link_body input m draw now1 now2 d) as [[res d']|e]; [exact Hpost|by split].
Qed.

(** C12: Unlinking a project removes its row, its hostnames, its allocations, its
    requirements, its warnings and its env observation, and nothing else: every other row of
    every table is the one of before, but for the usage counts, which are again the numbers
    of requirements. It keeps both invariants and returns the project; it fails exactly
    when the project does not exist, and then changes nothing. *)
Theorem unlink_project_spec `{JsonLaws} d i : projects_wf d → resources_wf d →
  match unlink_project i d with
  | (Ok r, d') => (∃ row, projects d !! i = Some row ∧ record_for d i row r)
      ∧ unlinked d i d' ∧ projects_wf d' ∧ resources_wf d'
  | (Err e, d') => d' = d ∧ projects d !! i = None ∧ e = ProjectNotFound i
  end.
Proof.
  intros Hwf Hres. rewrite unlink_result. destruct (projects d !! i) as [row|] eqn:Hi.
  - destruct (hw_slug d Hwf i row Hi) as (s & Hs & _).
    destruct (project_by_id_ok d i row s Hi (hw_readable d Hwf i row Hi) Hs) as (r & -> & Hrec).
    cbn [mbind result_bind ok_or].
    split; [by exists row|]. split; [by apply unlink_unlinked|].
    split; [by apply unlink_projects_wf|by apply unlink_resources_wf].
  - unfold project_by_id. rewrite Hi. done.
Qed.

(** ** Witnesses *)

Lemma sample_projects_wf : projects_wf sample_db.
Proof.
  split; simpl.
  - by intros i j p q [<- _]%lookup_singleton_Some [<- _]%lookup_singleton_Some _.
  - intros i p [_ <-]%lookup_singleton_Some. by exists "acme".
  - by intros i j p q [<- _]%lookup_singleton_Some [<- _]%lookup_singleton_Some _.
  - intros i p [_ <-]%lookup_singleton_Some. split; [done|]. exists [], [], []. intros k.
    split_and!; apply parse_empty_extensions.
  - intros h r [<- <-]%lookup_singleton_Some. exists sample_project. simpl.
    by rewrite lookup_singleton_eq.
  - by intros i p [_ <-]%lookup_singleton_Some.
  - intros i p [<- <-]%lookup_singleton_Some _. eexists. simpl. by rewrite lookup_singleton_eq.
Qed.

Definition sample_link : LinkProjectInput :=
  {| l_path := "/srv/shop"; l_original_path := "/srv/shop"; l_primary_hostname := "shop.test";
     l_config_path := "/srv/shop/pv.yml"; l_desired_php_track := Some "8.4";
     l_additional_hostnames := ["www.shop.test"; "api.shop.test"] |}.

Definition first_draw : nat → fin 36 := λ _, 0%fin.

Lemma link_project_with_mode_spec_witness :
  ∃ res d', link_project_with_mode sample_link Served first_draw "t1" "t2" sample_db = (Ok res, d')
    ∧ lr_status res = Created ∧ projects_wf d'
    ∧ project_owner_for_hostname "api.shop.test" d' = Some "aaaaaaaaaa"
    ∧ project_owner_for_hostname "acme.test" d' = Some "p1".
Proof.
  pose proof (link_project_with_mode_spec sample_db sample_link Served first_draw "t1" "t2"
    sample_projects_wf) as Hspec.
  destruct (link_project_with_mode sample_link Served first_draw "t1" "t2" sample_db)
    as [[res|e] d'] eqn:Heq.
  - destruct Hspec as [Hwf _]. exists res, d'. split; [reflexivity|].
    assert ((λ r, (lr_status r, id (lr_project r))) <$>
      (link_project_with_mode sample_link Served first_draw "t1" "t2" sample_db).1
      = Ok (Created, "aaaaaaaaaa")) as H1 by by vm_compute.
    assert ((λ h, project_owner_for_hostname h
      (link_project_with_mode sample_link Served first_draw "t1" "t2" sample_db).2)
        <$> ["api.shop.test"; "acme.test"] = [Some "aaaaaaaaaa"; Some "p1"]) as H2 by by vm_compute.
    rewrite Heq in H1, H2. injection H1 as H1 _. injection H2 as H2 H3.
    split; [exact H1|]. split; [exact Hwf|]. split; [exact H2|exact H3].
  - assert (is_ok (link_project_with_mode sample_link Served first_draw "t1" "t2" sample_db).1 = true)
      as H1 by by vm_compute. rewrite Heq in H1. discriminate H1.
Defined.

Lemma unlink_project_spec_witness :
  projects_wf (unlink_project "p1" sample_db).2
  ∧ project_owner_for_hostname "acme.test" (unlink_project "p1" sample_db).2 = None.
Proof.
  pose proof (unlink_project_spec sample_db "p1" sample_projects_wf sample_resources_wf) as Hspec.
  destruct (unlink_project "p1" sample_db) as [[r|e] d'] eqn:Heq.
  - destruct Hspec as (_ & _ & Hwf & _). split; [exact Hwf|].
    assert (project_owner_for_hostname "acme.test" (unlink_project "p1" sample_db).2 = None) as H1
      by by vm_compute. rewrite Heq in H1. exact H1.
  - destruct Hspec as (_ & Hno & _). assert (projects sample_db !! "p1" = Some sample_project) as H1
      by by vm_compute. rewrite H1 in Hno. discriminate Hno.
Defined.
