(* ===== verification/StateJobs.v ===== *)
(** * Jobs and their diagnostic outcomes: the [jobs] and [job_diagnostic_outcomes]
    operations of [state/src/database.rs], with the schema of
    [state/src/sql/010_job_diagnostic_outcomes.sql] *)

From S2P Require Import Prelude RustStr StateTypes StateIds StateDb StateObserved.

Definition RECENT_JOB_LIMIT : nat := 100.

(** ** Records *)

Record JobRecord := {
  job_id : string;
  job_kind : string;
  job_scope : string;
  job_status : JobStatus;
  job_started_at : string;
  job_finished_at : option string;
  job_summary : option string;
  job_error : option string;
}.
#[export] Instance job_record_eq_dec : EqDecision JobRecord.
Proof. solve_decision. Defined.

Record UnresolvedJobFailure := { uf_job : JobRecord; uf_subject : JobDiagnosticSubject }.

Record JobDiagnosticOutcome := {
  od_job_id : string; od_subject : JobDiagnosticSubject; od_outcome : string;
}.

(** ** Statements *)

Definition next_job_id (d : Db) : result StateError string :=
  next_id "job_" (map_to_list (jobs d)).*1.

(** [INSERT OR IGNORE INTO job_diagnostic_outcomes]: the UNIQUE columns are the
    whole row, and the foreign key is checked in any case. *)
Definition insert_job_diagnostic_outcome (i : string) (subject : JobDiagnosticSubject)
    (outcome : string) (d : Db) : result StateError Db :=
  let '(kind, sid) := database_identity subject in
  let row := {| oc_job_id := i; oc_subject_kind := kind; oc_subject_id := sid; oc_outcome := outcome |} in
  if bool_decide (row ∈ job_diagnostic_outcomes d) then Ok d
  else if negb (option_bool (jobs d !! i)) then Err (Sqlite (ForeignKeyViolation "job_diagnostic_outcomes"))
  else Ok (set_job_diagnostic_outcomes (λ l, l ++ [row]) d).

Definition running (row : JobRow) : bool := bool_decide (j_status row = as_str JobRunning).

(** [ORDER BY started_at DESC, id DESC]. *)
Definition newest_first (l : list (string * JobRow)) : list (string * JobRow) :=
  reverse (order_by (λ '(i, row), [j_started_at row; i]) l).

Definition finished_jobs (d : Db) : list (string * JobRow) :=
  filter (λ '(_, row), running row = false) (map_to_list (jobs d)).

Definition kept_finished (d : Db) : list string := (take RECENT_JOB_LIMIT (newest_first (finished_jobs d))).*1.

(** [DELETE FROM jobs ..], which cascades to the outcomes of the deleted jobs. *)
Definition prune_old_jobs (d : Db) : Db :=
  let deleted : gset string := dom (filter (λ '(i, row), running row = false ∧ i ∉ kept_finished d) (jobs d)) in
  set_job_diagnostic_outcomes (filter (λ o, oc_job_id o ∉ deleted))
    (set_jobs (filter (λ '(i, _), i ∉ deleted)) d).

Definition with_success (finished_at summary : string) (row : JobRow) : JobRow :=
  {| j_kind := j_kind row; j_scope := j_scope row; j_status := as_str JobSucceeded;
     j_started_at := j_started_at row; j_finished_at := Some finished_at;
     j_summary := Some summary; j_error := None |}.

Definition with_failure (finished_at error : string) (row : JobRow) : JobRow :=
  {| j_kind := j_kind row; j_scope := j_scope row; j_status := as_str JobFailed;
     j_started_at := j_started_at row; j_finished_at := Some finished_at;
     j_summary := j_summary row; j_error := Some error |}.

(** ** Operations *)

Definition start_job (kind scope started_at : string) : Op JobRecord := transact (λ d,
  i ← next_job_id d;
  Ok ({| job_id := i; job_kind := kind; job_scope := scope; job_status := JobRunning;
         job_started_at := started_at; job_finished_at := None; job_summary := None; job_error := None |},
      set_jobs (<[i := {| j_kind := kind; j_scope := scope; j_status := as_str JobRunning;
                          j_started_at := started_at; j_finished_at := None; j_summary := None;
                          j_error := None |}]>) d)).

(** [if updated == 0 { return Err(JobNotFound) }], after the commit. *)
Definition require_updated (i : string) (op : Op nat) : Op unit := λ d,
  match op d with
  | (Ok updated, d') => (if updated =? 0 then Err (JobNotFound i) else Ok tt, d')
  | (Err e, d') => (Err e, d')
  end.

Definition complete_job_with_coverage (i summary : string) (coverage : list JobDiagnosticSubject)
    (finished_at : string) : Op unit := require_updated i (transact (λ d,
  let updated := if option_bool (jobs d !! i) then 1 else 0 in
  let d := set_jobs (alter (with_success finished_at summary) i) d in
  if 0 <? updated then
    d ← try_fold (λ d subject, insert_job_diagnostic_outcome i subject "success" d) coverage d;
    Ok (updated, prune_old_jobs d)
  else Ok (updated, d))).

Definition complete_job (i summary finished_at : string) : Op unit :=
  complete_job_with_coverage i summary [] finished_at.

Definition fail_job_with_optional_subject (i error : string) (subject : option JobDiagnosticSubject)
    (finished_at : string) : Op unit := require_updated i (transact (λ d,
  let identity := (λ row, (j_kind row, j_scope row)) <$> jobs d !! i in
  let updated := if option_bool (jobs d !! i) then 1 else 0 in
  let d := set_jobs (alter (with_failure finished_at error) i) d in
  match identity with
  | Some (kind, scope) =>
      d ← insert_job_diagnostic_outcome i (default (from_job_identity kind scope) subject) "failure" d;
      Ok (updated, prune_old_jobs d)
  | None => Ok (updated, d)
  end)).

Definition fail_job (i error finished_at : string) : Op unit :=
  fail_job_with_optional_subject i error None finished_at.
Definition fail_job_with_subject (i error : string) (subject : JobDiagnosticSubject)
    (finished_at : string) : Op unit :=
  fail_job_with_optional_subject i error (Some subject) finished_at.

Definition running_jobs (d : Db) : list (string * JobRow) :=
  sort_on fst (filter (λ '(_, row), running row = true) (map_to_list (jobs d))).

Definition fail_running_jobs (error finished_at : string) : Op nat := transact (λ d,
  let running_jobs := running_jobs d in
  let updated := length running_jobs in
  let d := set_jobs (fmap (λ row, if running row then with_failure finished_at error row else row)) d in
  if 0 <? updated then
    d ← try_fold (λ d '(i, row),
          insert_job_diagnostic_outcome i (from_job_identity (j_kind row) (j_scope row)) "failure" d)
          running_jobs d;
    Ok (updated, prune_old_jobs d)
  else Ok (updated, d)).

Definition job_into_record (i : string) (row : JobRow) : result StateError JobRecord :=
  status ← job_status_from_database (j_status row);
  Ok {| job_id := i; job_kind := j_kind row; job_scope := j_scope row; job_status := status;
        job_started_at := j_started_at row; job_finished_at := j_finished_at row;
        job_summary := j_summary row; job_error := j_error row |}.

Definition recent_jobs (d : Db) : result StateError (list JobRecord) :=
  try_map (λ '(i, row), job_into_record i row)
    (take RECENT_JOB_LIMIT (newest_first (map_to_list (jobs d)))).

(** [Database::job_diagnostic_outcomes]: [ORDER BY sequence DESC]. *)
Definition list_job_diagnostic_outcomes (d : Db) : list JobDiagnosticOutcome :=
  (λ o, {| od_job_id := oc_job_id o;
           od_subject := subject_from_database (oc_subject_kind o) (oc_subject_id o);
           od_outcome := oc_outcome o |}) <$> reverse (job_diagnostic_outcomes d).

(** ** Unresolved failures *)

Definition find_map {A B} (f : A → option B) (l : list A) : option B := head (omap f l).

Definition newer_than (observed_at failure_at : string) : bool :=
  negb (bool_decide (String.le observed_at failure_at)).

Definition has_newer_healthy_observation (d : Db) (runtime_states : list RuntimeObservedStateRecord)
    (job : JobRecord) (subject : JobDiagnosticSubject) : result StateError bool :=
  let failure_at := default (job_started_at job) (job_finished_at job) in
  observed_at ←
    match subject with
    | GatewayRuntime => Ok (find_map (λ state,
        if bool_decide (rs_subject state = RuntimeGateway) && bool_decide (rs_status state = RuntimeRunning)
        then Some (rs_observed_at state) else None) runtime_states)
    | SubjectProject i =>
        state ← project_env_observed_state i d;
        Ok (state ← state;
            if bool_decide (es_status state = EnvRendered) || bool_decide (es_status state = EnvWarning)
            then Some (es_observed_at state) else None)
    | SubjectResource name track => Ok (find_map (λ state,
        if bool_decide (rs_subject state = RuntimeResource name track)
           && (bool_decide (rs_status state = RuntimeRunning) || bool_decide (rs_status state = RuntimeStopped))
        then Some (rs_observed_at state) else None) runtime_states)
    | SystemReconciliation | UpdateAssessment | Other _ _ => Ok None
    end;
  Ok (match observed_at with Some at' => newer_than at' failure_at | None => false end).

(** The variables of the two loops. *)
Record FailureScan := {
  newer_successes : list JobDiagnosticSubject;
  visited_failures : list JobDiagnosticSubject;
  recorded_failure_job_ids : list string;
  unresolved : list UnresolvedJobFailure;
}.

Section scan.
Variable healthy : JobRecord → JobDiagnosticSubject → result StateError bool.

(** What both loops do with a failure of [job]: [visited_failures.insert] runs
    first, and the observations are read only when nothing else decides. *)
Definition visit_failure (job : JobRecord) (subject : JobDiagnosticSubject) (st : FailureScan) :
    result StateError FailureScan :=
  let seen := bool_decide (subject ∈ visited_failures st) in
  let st' := {| newer_successes := newer_successes st;
                visited_failures := if seen then visited_failures st
                                    else visited_failures st ++ [subject];
                recorded_failure_job_ids := recorded_failure_job_ids st;
                unresolved := unresolved st |} in
  if seen || existsb (λ coverage, bool_decide (coverage = subject)) (newer_successes st) then Ok st'
  else
    h ← healthy job subject;
    match h with
    | true => Ok st'
    | false => Ok {| newer_successes := newer_successes st'; visited_failures := visited_failures st';
                     recorded_failure_job_ids := recorded_failure_job_ids st';
                     unresolved := unresolved st' ++ [{| uf_job := job; uf_subject := subject |}] |}
    end.

Definition outcome_step (jobs_by_id : string → option JobRecord) (st : FailureScan)
    (outcome : JobDiagnosticOutcome) : result StateError FailureScan :=
  if bool_decide (od_outcome outcome = "success") then
    Ok {| newer_successes := newer_successes st ++ [od_subject outcome];
          visited_failures := visited_failures st;
          recorded_failure_job_ids := recorded_failure_job_ids st; unresolved := unresolved st |}
  else if negb (bool_decide (od_outcome outcome = "failure")) then Ok st
  else
    let st := {| newer_successes := newer_successes st; visited_failures := visited_failures st;
                 recorded_failure_job_ids := recorded_failure_job_ids st ++ [od_job_id outcome];
                 unresolved := unresolved st |} in
    match jobs_by_id (od_job_id outcome) with
    | None => Ok st
    | Some job => visit_failure job (od_subject outcome) st
    end.

Definition job_step (st : FailureScan) (job : JobRecord) : result StateError FailureScan :=
  if negb (bool_decide (job_status job = JobFailed))
     || bool_decide (job_id job ∈ recorded_failure_job_ids st) then Ok st
  else visit_failure job (from_job_identity (job_kind job) (job_scope job)) st.
End scan.

Definition find_job (l : list JobRecord) (i : string) : option JobRecord :=
  List.find (λ job, bool_decide (job_id job = i)) l.

Definition unresolved_job_failures (d : Db) : result StateError (list UnresolvedJobFailure) :=
  jobs ← recent_jobs d;
  runtime_states ← runtime_observed_states d;
  let healthy := has_newer_healthy_observation d runtime_states in
  st ← try_fold (outcome_step healthy (find_job jobs)) (list_job_diagnostic_outcomes d)
         {| newer_successes := []; visited_failures := []; recorded_failure_job_ids := [];
            unresolved := [] |};
  st ← try_fold (job_step healthy) jobs st;
  Ok (unresolved st).

(** ** Well-formedness *)

Record jobs_wf (d : Db) : Prop := {
  jw_job : ∀ o, o ∈ job_diagnostic_outcomes d → is_Some (jobs d !! oc_job_id o);
  jw_nodup : NoDup (job_diagnostic_outcomes d);
  jw_status : ∀ i row, jobs d !! i = Some row → is_ok (job_status_from_database (j_status row)) = true;
}.

(** ** Outcomes *)

Definition outcome_row (i : string) (subject : JobDiagnosticSubject) (outcome : string) : OutcomeRow :=
  {| oc_job_id := i; oc_subject_kind := (database_identity subject).1;
     oc_subject_id := (database_identity subject).2; oc_outcome := outcome |}.

Definition with_outcomes (l : list OutcomeRow) : Db → Db := set_job_diagnostic_outcomes (λ _, l).

Lemma insert_outcome_spec i subject outcome d : is_Some (jobs d !! i) →
  NoDup (job_diagnostic_outcomes d) →
  ∃ l, insert_job_diagnostic_outcome i subject outcome d = Ok (with_outcomes l d)
    ∧ NoDup l ∧ ∀ o, o ∈ l ↔ o ∈ job_diagnostic_outcomes d ∨ o = outcome_row i subject outcome.
Proof.
  intros [row Hi] Hnd. unfold insert_job_diagnostic_outcome, outcome_row.
  destruct (database_identity subject) as [kind sid]. simpl. case_bool_decide as Hin.
  - exists (job_diagnostic_outcomes d). split; [by destruct d|]. split; [done|].
    intros o. split; [by left|]. by intros [?| ->].
  - rewrite Hi. eexists. split; [done|]. split.
    + apply NoDup_app. split_and!; [done| |apply NoDup_singleton].
      intros o Ho ->%list_elem_of_singleton. done.
    + intros o. by rewrite elem_of_app, list_elem_of_singleton.
Qed.

(** A loop that records one outcome per element. *)
Lemma insert_outcomes_spec {A} (f : A → string) (g : A → JobDiagnosticSubject) outcome l d :
  (∀ x, x ∈ l → is_Some (jobs d !! f x)) → NoDup (job_diagnostic_outcomes d) →
  ∃ ol, try_fold (λ d x, insert_job_diagnostic_outcome (f x) (g x) outcome d) l d
      = Ok (with_outcomes ol d)
    ∧ NoDup ol
    ∧ ∀ o, o ∈ ol ↔ o ∈ job_diagnostic_outcomes d ∨ ∃ x, x ∈ l ∧ o = outcome_row (f x) (g x) outcome.
Proof.
  revert d. induction l as [|x l IH]; intros d Hl Hnd; cbn [try_fold].
  - exists (job_diagnostic_outcomes d). split; [by destruct d|]. split; [done|].
    intros o. split; [by left|]. by intros [?|(x & ?%not_elem_of_nil & _)].
  - destruct (insert_outcome_spec (f x) (g x) outcome d) as (ol & -> & Hnd1 & H1); [apply Hl; by left|done|].
    cbn [mbind result_bind]. destruct (IH (with_outcomes ol d)) as (ol' & -> & Hnd2 & H2); [|done|].
    { intros y Hy. apply Hl. by right. }
    exists ol'. split; [done|]. split; [done|]. intros o. rewrite H2. simpl. rewrite H1.
    setoid_rewrite elem_of_cons. naive_solver.
Qed.

(** ** Pruning *)

Section prune.
Variable d : Db.

Lemma elem_of_finished i row : (i, row) ∈ finished_jobs d ↔ jobs d !! i = Some row ∧ running row = false.
Proof. unfold finished_jobs. rewrite list_elem_of_filter, elem_of_map_to_list. naive_solver. Qed.

Lemma NoDup_finished : NoDup (finished_jobs d).*1.
Proof.
  unfold finished_jobs. pose proof (NoDup_fst_map_to_list (jobs d)) as Hnd.
  eapply sublist_NoDup; [exact Hnd|]. apply fmap_sublist, sublist_filter.
Qed.

Lemma newest_first_perm l : newest_first l ≡ₚ l.
Proof. unfold newest_first. by rewrite reverse_Permutation, order_by_perm. Qed.

Lemma newest_first_older l n x y : x ∈ take n (newest_first l) → y ∈ drop n (newest_first l) →
  keys_le [j_started_at y.2; y.1] [j_started_at x.2; x.1].
Proof.
  intros Hx Hy. unfold newest_first in *. set (f := λ '(i, row), [j_started_at row; i]) in *.
  pose proof (order_by_sorted f l) as Hs. rewrite <-(reverse_involutive (order_by f l)) in Hs.
  rewrite <-(take_drop n (reverse (order_by f l))), reverse_app in Hs.
  apply StronglySorted_app in Hs as (H & _ & _). specialize (H y x).
  rewrite !elem_of_reverse in H. destruct x, y. by apply H.
Qed.

(** Whether a job survives. *)
Lemma lookup_prune i row : jobs (prune_old_jobs d) !! i = Some row ↔
  jobs d !! i = Some row
  ∧ (running row = true ∨ (i, row) ∈ take RECENT_JOB_LIMIT (newest_first (finished_jobs d))).
Proof.
  unfold prune_old_jobs. simpl. rewrite map_lookup_filter_Some. simpl.
  rewrite not_elem_of_dom, map_lookup_filter_None. unfold kept_finished. split.
  - intros [Hi [Hno|Hno]]; [congruence|]. split; [done|]. specialize (Hno row Hi).
    destruct (running row) eqn:Hr; [by left|right].
    destruct (decide (i ∈ (take RECENT_JOB_LIMIT (newest_first (finished_jobs d))).*1)) as [Hin|Hin].
    + apply list_elem_of_fmap in Hin as ([i' row'] & -> & Hin). simpl in *.
      assert ((i', row') ∈ finished_jobs d) as Hf.
      { rewrite <-newest_first_perm. apply elem_of_take in Hin as (k & Hk & _).
        by apply list_elem_of_lookup_2 in Hk. }
      apply elem_of_finished in Hf as [Hf _]. congruence.
    + destruct Hno. done.
  - intros [Hi Hk]. split; [done|]. right. intros row' Hi' [Hr Hin].
    assert (row' = row) as -> by congruence. destruct Hk as [Hk|Hk]; [congruence|].
    apply Hin. apply list_elem_of_fmap. by exists (i, row).
Qed.

(** The finished jobs that survive are the newest. *)
Lemma finished_prune : finished_jobs (prune_old_jobs d)
  ≡ₚ take RECENT_JOB_LIMIT (newest_first (finished_jobs d)).
Proof.
  assert (newest_first (finished_jobs d) ≡ₚ finished_jobs d) as Hp by apply newest_first_perm.
  assert (NoDup (newest_first (finished_jobs d))) as Hnd
    by (rewrite Hp; by apply (NoDup_fmap_1 fst), NoDup_finished).
  apply NoDup_Permutation.
  - unfold finished_jobs. apply NoDup_filter, NoDup_map_to_list.
  - eapply sublist_NoDup; [exact Hnd|apply sublist_take].
  - intros [i row]. unfold finished_jobs at 1. rewrite list_elem_of_filter, elem_of_map_to_list.
    rewrite lookup_prune. split; [intros (Hr & _ & [?|?]); [congruence|done]|].
    intros Hin. assert ((i, row) ∈ finished_jobs d) as Hf.
    { rewrite <-Hp. apply elem_of_take in Hin as (k & Hk & _). by apply list_elem_of_lookup_2 in Hk. }
    apply elem_of_finished in Hf as [Hi Hr]. split; [done|]. split; [done|by right].
Qed.

Lemma length_finished_prune :
  length (finished_jobs (prune_old_jobs d)) = RECENT_JOB_LIMIT `min` length (finished_jobs d).
Proof. by rewrite finished_prune, length_take, newest_first_perm. Qed.

Lemma outcomes_prune : jobs_wf d → ∀ o, o ∈ job_diagnostic_outcomes (prune_old_jobs d) ↔
  o ∈ job_diagnostic_outcomes d ∧ is_Some (jobs (prune_old_jobs d) !! oc_job_id o).
Proof.
  intros Hwf o. unfold prune_old_jobs. simpl. rewrite list_elem_of_filter.
  set (deleted := dom _). split.
  - intros [Hd Ho]. split; [done|]. destruct (jw_job d Hwf o Ho) as [row Hrow]. exists row.
    by rewrite map_lookup_filter_Some.
  - intros [Ho [row Hrow]]. by apply map_lookup_filter_Some in Hrow as [_ Hd].
Qed.

Lemma prune_wf : jobs_wf d → jobs_wf (prune_old_jobs d).
Proof.
  intros Hwf. split.
  - intros o [_ Ho]%outcomes_prune; done.
  - unfold prune_old_jobs. simpl. apply NoDup_filter, Hwf.
  - intros i row [Hi _]%lookup_prune. by apply (jw_status d Hwf i).
Qed.
End prune.

(** ** Closing jobs *)

(** What closing the jobs [row'] with one outcome per pair of [os] promises. *)
Record jobs_closed (d : Db) (rows : gmap string JobRow) (os : list OutcomeRow) (d' : Db) : Prop := {
  jc_wf : jobs_wf d';
  jc_rows : ∀ i row, jobs d' !! i = Some row → rows !! i = Some row;
  jc_running : ∀ i row, rows !! i = Some row → running row = true → jobs d' !! i = Some row;
  jc_limit : length (finished_jobs d') ≤ RECENT_JOB_LIMIT;
  jc_newest : ∀ i row j row', rows !! i = Some row → jobs d' !! i = None →
    jobs d' !! j = Some row' → running row' = false →
    keys_le [j_started_at row; i] [j_started_at row'; j];
  jc_outcomes : ∀ o, o ∈ job_diagnostic_outcomes d' ↔
    (o ∈ job_diagnostic_outcomes d ∨ o ∈ os) ∧ is_Some (jobs d' !! oc_job_id o);
  jc_frame : projects d' = projects d ∧ observed_states d' = observed_states d
    ∧ ports d' = ports d ∧ resource_allocations d' = resource_allocations d;
}.

Lemma close_spec d rows os ol : jobs_wf d →
  (∀ i row, rows !! i = Some row → is_ok (job_status_from_database (j_status row)) = true) →
  (∀ i, is_Some (jobs d !! i) → is_Some (rows !! i)) → NoDup ol →
  (∀ o, o ∈ ol ↔ o ∈ job_diagnostic_outcomes d ∨ o ∈ os) →
  (∀ o, o ∈ os → is_Some (rows !! oc_job_id o)) →
  jobs_closed d rows os (prune_old_jobs (with_outcomes ol (set_jobs (λ _, rows) d))).
Proof.
  intros Hwf Hstatus Hdom Hnd Hol Hos. set (d1 := with_outcomes ol (set_jobs (λ _, rows) d)).
  assert (jobs_wf d1) as Hwf1.
  { split; simpl; [|done|exact Hstatus]. intros o [Ho|Ho]%Hol; [apply Hdom; by apply (jw_job d Hwf)|by apply Hos]. }
  split.
  - by apply prune_wf.
  - by intros i row [Hi _]%lookup_prune.
  - intros i row Hi Hr. apply lookup_prune. by split; [|left].
  - rewrite length_finished_prune. lia.
  - intros i row j row' Hi Hno [Hj Hk]%lookup_prune Hr.
    destruct Hk as [Hk|Hk]; [congruence|]. apply (newest_first_older (finished_jobs d1) RECENT_JOB_LIMIT (j, row') (i, row)).
    + done.
    + assert ((i, row) ∈ newest_first (finished_jobs d1)) as Hin.
      { rewrite newest_first_perm, elem_of_finished. split; [done|].
        destruct (running row) eqn:Hrow; [|done].
        assert (jobs (prune_old_jobs d1) !! i = Some row) by (apply lookup_prune; by split; [|left]). congruence. }
      rewrite <-(take_drop RECENT_JOB_LIMIT (newest_first _)) in Hin.
      apply elem_of_app in Hin as [Hin|Hin]; [|done].
      assert (jobs (prune_old_jobs d1) !! i = Some row) by (apply lookup_prune; by split; [|right]). congruence.
  - intros o. rewrite outcomes_prune by done. simpl. by rewrite Hol.
  - done.
Qed.

Lemma set_jobs_alter f i row d : jobs d !! i = Some row →
  set_jobs (alter f i) d = set_jobs (λ _, <[i := f row]> (jobs d)) d.
Proof.
  intros Hi. unfold set_jobs. f_equal. apply map_eq. intros k. destruct (decide (i = k)) as [<-|].
  - by rewrite lookup_alter_eq, lookup_insert_eq, Hi.
  - by rewrite lookup_alter_ne, lookup_insert_ne.
Qed.

Lemma set_jobs_alter_none f i d : jobs d !! i = None → set_jobs (alter f i) d = d.
Proof.
  intros Hi. destruct d. unfold set_jobs. simpl in *. f_equal. apply map_eq. intros k.
  destruct (decide (i = k)) as [<-|]; [by rewrite lookup_alter_eq, Hi|by rewrite lookup_alter_ne].
Qed.

(** Closing one job with some outcomes. *)
Lemma close_one d i row f outcome l : jobs_wf d → jobs d !! i = Some row →
  is_ok (job_status_from_database (j_status (f row))) = true →
  ∃ ol, try_fold (λ d subject, insert_job_diagnostic_outcome i subject outcome d) l
      (set_jobs (alter f i) d) = Ok (with_outcomes ol (set_jobs (alter f i) d))
    ∧ jobs_closed d (<[i := f row]> (jobs d)) ((λ s, outcome_row i s outcome) <$> l)
        (prune_old_jobs (with_outcomes ol (set_jobs (alter f i) d))).
Proof.
  intros Hwf Hi Hf. rewrite (set_jobs_alter f i row d Hi).
  destruct (insert_outcomes_spec (λ _, i) (λ s, s) outcome l
    (set_jobs (λ _, <[i := f row]> (jobs d)) d)) as (ol & Heq & Hnd & Hol).
  { intros s _. simpl. rewrite lookup_insert_eq. by eexists. } { apply Hwf. }
  exists ol. split; [exact Heq|]. apply close_spec; [done| | |done| |].
  - intros j r [[<- <-]|[_ Hj]]%lookup_insert_Some; [done|by apply (jw_status d Hwf j)].
  - intros j Hj. apply lookup_insert_is_Some. destruct (decide (i = j)); [by left|by right].
  - intros o. rewrite Hol. simpl. rewrite list_elem_of_fmap. naive_solver.
  - intros o (s & -> & _)%list_elem_of_fmap. simpl. rewrite lookup_insert_eq. by eexists.
Qed.

(** ** Properties of jobs *)

(** The row of a job that was just started. *)
Lemma start_job_row kind scope now d r d' : start_job kind scope now d = (Ok r, d') →
  jobs d !! job_id r = None
  ∧ ∃ row, d' = set_jobs (<[job_id r := row]>) d ∧ running row = true ∧ j_kind row = kind ∧ j_scope row = scope.
Proof.
  unfold start_job, transact, next_job_id. destruct (next_id _ _) as [i|e] eqn:Hn; cbn [mbind result_bind]; [|done].
  apply next_id_fresh in Hn as (Hf & _). intros [= <- <-]. simpl. split.
  - apply eq_None_not_Some. intros [row Hi]. apply Hf, list_elem_of_fmap. exists (i, row).
    by rewrite elem_of_map_to_list.
  - eexists. by split_and!.
Qed.


Lemma start_job_wf kind scope now d : jobs_wf d → jobs_wf (start_job kind scope now d).2.
Proof.
  intros Hwf. unfold start_job, transact. destruct (next_job_id d) as [i|e]; cbn [mbind result_bind]; [|done].
  split; simpl; [|apply Hwf|].
  - intros o Ho. apply lookup_insert_is_Some'. right. by apply (jw_job d Hwf).
  - intros j row [[<- <-]|[_ Hj]]%lookup_insert_Some; [done|by apply (jw_status d Hwf j)].
Qed.

(** C30: A job is started under an id that no job has and whose number exceeds
    every job's; it is running, it is the record that is returned, nothing else
    changes and the tables stay well formed.  Starting fails, and changes nothing,
    only when the largest 64-bit number is taken. *)
Theorem start_job_spec kind scope now d :
  match start_job kind scope now d with
  | (Ok r, d') =>
      jobs d !! job_id r = None
      ∧ (∃ n, id_number "job_" (job_id r) = Some n
           ∧ ∀ i m, is_Some (jobs d !! i) → id_number "job_" i = Some m → (m < n)%N)
      ∧ (∃ row, d' = set_jobs (<[job_id r := row]>) d ∧ job_into_record (job_id r) row = Ok r)
      ∧ job_status r = JobRunning ∧ (jobs_wf d → jobs_wf d')
  | (Err e, d') => d' = d ∧ ∃ i, is_Some (jobs d !! i) ∧ id_number "job_" i = Some I64_MAX
  end.
Proof.
  assert (∀ i, i ∈ (map_to_list (jobs d)).*1 ↔ is_Some (jobs d !! i)) as Hids.
  { intros i. rewrite list_elem_of_fmap. split.
    - intros ([i' row] & -> & Hin%elem_of_map_to_list). by exists row.
    - intros [row Hi]. exists (i, row). by rewrite elem_of_map_to_list. }
  unfold start_job, transact, next_job_id. destruct (next_id _ _) as [i|e] eqn:Hn; cbn [mbind result_bind].
  - apply next_id_fresh in Hn as (Hf & n & Hnum & Hmax). simpl.
    assert (jobs d !! i = None) as Hi by (apply eq_None_not_Some; by rewrite <-Hids).
    split; [done|]. split.
    { exists n. split; [done|]. intros j m Hj. apply Hmax. by rewrite Hids. }
    split; [by eexists|]. split; [done|]. intros Hwf. split; simpl; [|apply Hwf|].
    + intros o Ho. apply lookup_insert_is_Some'. right. by apply (jw_job d Hwf).
    + intros j row [[<- <-]|[_ Hj]]%lookup_insert_Some; [done|by apply (jw_status d Hwf j)].
  - split; [done|]. unfold next_id in Hn. destruct (N.ltb_spec (max_number "job_" (map_to_list (jobs d)).*1) I64_MAX); [done|].
    destruct (max_number_attained "job_" (map_to_list (jobs d)).*1) as (i & Hin & Hi); [done|].
    exists i. split; [by apply Hids|done].
Qed.

(** Completing a job closes it as succeeded with its summary and no error,
    records one success per subject of its coverage, and prunes; the other jobs
    keep their rows, the running ones all stay, and of the finished ones at most a
    hundred stay, the newest, with their outcomes.  It fails exactly when the job
    does not exist, and then changes nothing. *)
Lemma complete_job_closes i summary coverage now d : jobs_wf d →
  match complete_job_with_coverage i summary coverage now d with
  | (Ok _, d') => ∃ row, jobs d !! i = Some row
      ∧ jobs_closed d (<[i := with_success now summary row]> (jobs d))
          ((λ s, outcome_row i s "success") <$> coverage) d'
  | (Err e, d') => d' = d ∧ e = JobNotFound i ∧ jobs d !! i = None
  end.
Proof.
  intros Hwf. unfold complete_job_with_coverage, require_updated, transact.
  destruct (jobs d !! i) as [row|] eqn:Hi; simpl option_bool; cbn iota.
  - destruct (close_one d i row (with_success now summary) "success" coverage Hwf Hi) as (ol & Heq & Hc); [done|].
    simpl (0 <? 1). cbn iota.
    rewrite Heq. cbn [mbind result_bind]. simpl (1 =? 0). cbn iota. by exists row.
  - simpl. by rewrite set_jobs_alter_none.
Qed.

(** Failing a job closes it as failed with the error, keeps its summary and
    records one failure, of the given subject or of the one its kind and scope
    name. *)
Lemma fail_job_closes i error subject now d : jobs_wf d →
  match fail_job_with_optional_subject i error subject now d with
  | (Ok _, d') => ∃ row, jobs d !! i = Some row
      ∧ jobs_closed d (<[i := with_failure now error row]> (jobs d))
          [outcome_row i (default (from_job_identity (j_kind row) (j_scope row)) subject) "failure"] d'
  | (Err e, d') => d' = d ∧ e = JobNotFound i ∧ jobs d !! i = None
  end.
Proof.
  intros Hwf. unfold fail_job_with_optional_subject, require_updated, transact.
  destruct (jobs d !! i) as [row|] eqn:Hi; simpl option_bool; cbn iota.
  - cbn [fmap option_fmap option_map].
    set (s := default (from_job_identity (j_kind row) (j_scope row)) subject).
    destruct (close_one d i row (with_failure now error) "failure" [s] Hwf Hi) as (ol & Heq & Hc); [done|].
    cbn [try_fold] in Heq. destruct (insert_job_diagnostic_outcome i s "failure" _) as [d1|]; [|done].
    cbn [mbind result_bind] in *. injection Heq as ->. simpl (1 =? 0). cbn iota. by exists row.
  - cbn. by rewrite set_jobs_alter_none.
Qed.

(** Failing the running jobs closes every running job as failed with the
    error, records for each the failure its kind and scope name, leaves the other
    jobs as they were and none running, and returns how many there were. *)
Theorem fail_running_jobs_spec error now d : jobs_wf d →
  let close row := if running row then with_failure now error row else row in
  ∃ d', fail_running_jobs error now d = (Ok (length (running_jobs d)), d')
    ∧ (∀ i row, jobs d' !! i = Some row → running row = false)
    ∧ (running_jobs d = [] → d' = d)
    ∧ (running_jobs d ≠ [] →
         jobs_closed d (close <$> jobs d)
           ((λ '(i, row), outcome_row i (from_job_identity (j_kind row) (j_scope row)) "failure")
              <$> running_jobs d) d').
Proof.
  intros Hwf close. unfold fail_running_jobs, transact.
  assert (∀ i row, (i, row) ∈ running_jobs d ↔ jobs d !! i = Some row ∧ running row = true) as Hrun.
  { intros i row. unfold running_jobs. rewrite elem_of_sort_on, list_elem_of_filter, elem_of_map_to_list.
    naive_solver. }
  assert (∀ row, running (close row) = false) as Hclose.
  { intros row. unfold close. destruct (running row) eqn:Hr; [done|done]. }
  destruct (running_jobs d) as [|r rs] eqn:Hrs.
  - simpl. assert (close <$> jobs d = jobs d) as Heq.
    { apply map_eq. intros i. rewrite lookup_fmap. destruct (jobs d !! i) as [row|] eqn:Hi; [|done].
      simpl. unfold close. destruct (running row) eqn:Hr; [|done].
      assert ((i, row) ∈ ([] : list (string * JobRow))) as Hin by by apply Hrun.
      by apply not_elem_of_nil in Hin. }
    exists d. split; [unfold set_jobs; fold close; rewrite Heq; by destruct d|]. split; [|done].
    intros i row Hi. rewrite <-Heq, lookup_fmap in Hi. destruct (jobs d !! i); [|done].
    injection Hi as <-. apply Hclose.
  - rewrite <-Hrs in *. set (d1 := set_jobs (fmap close) d).
    destruct (insert_outcomes_spec (λ x : string * JobRow, x.1)
      (λ x, from_job_identity (j_kind x.2) (j_scope x.2)) "failure" (running_jobs d) d1)
      as (ol & Heq & Hnd & Hol).
    { intros [i row] [Hi _]%Hrun. simpl. rewrite lookup_fmap, Hi. by eexists. } { apply Hwf. }
    assert (try_fold (λ d '(i, row),
        insert_job_diagnostic_outcome i (from_job_identity (j_kind row) (j_scope row)) "failure" d)
      (running_jobs d) d1 = Ok (with_outcomes ol d1)) as Heq'.
    { rewrite <-Heq. apply try_fold_ext. by intros ? []. }
    assert ((0 <? length (running_jobs d)) = true) as Hlen by (apply Nat.ltb_lt; rewrite Hrs; simpl; lia).
    rewrite Hlen. fold close. fold d1. rewrite Heq'. cbn [mbind result_bind].
    assert (jobs_closed d (close <$> jobs d)
      ((λ '(i, row), outcome_row i (from_job_identity (j_kind row) (j_scope row)) "failure")
         <$> running_jobs d) (prune_old_jobs (with_outcomes ol d1))) as Hc.
    { apply (close_spec d (close <$> jobs d)); [done| | |done| |].
      - intros i row Hi. rewrite lookup_fmap in Hi. destruct (jobs d !! i) as [r'|] eqn:Hj; [|done].
        injection Hi as <-. unfold close. destruct (running r'); [done|by apply (jw_status d Hwf i)].
      - intros i [row Hi]. rewrite lookup_fmap, Hi. by eexists.
      - intros o. rewrite Hol, list_elem_of_fmap. simpl.
        split; (intros [?|([i row] & ? & ?)]; [by left|right; by exists (i, row)]).
      - intros o ([i row] & -> & [Hi _]%Hrun)%list_elem_of_fmap. simpl. rewrite lookup_fmap, Hi. by eexists. }
    eexists. split; [reflexivity|]. split; [|split; [congruence|done]].
    intros i row Hi%(jc_rows _ _ _ _ Hc). rewrite lookup_fmap in Hi.
    destruct (jobs d !! i); [|done]. injection Hi as <-. apply Hclose.
Qed.

(** ** The newest event on a subject *)

Inductive DiagnosticEvent : Type :=
| Recovered (subject : JobDiagnosticSubject)
| FailedBy (job : JobRecord) (subject : JobDiagnosticSubject).

Definition event_subject (e : DiagnosticEvent) : JobDiagnosticSubject :=
  match e with Recovered s => s | FailedBy _ s => s end.

Definition outcome_event (js : list JobRecord) (o : JobDiagnosticOutcome) : option DiagnosticEvent :=
  if bool_decide (od_outcome o = "success") then Some (Recovered (od_subject o))
  else if bool_decide (od_outcome o = "failure")
  then (λ job, FailedBy job (od_subject o)) <$> find_job js (od_job_id o) else None.

Definition recorded_failures (os : list JobDiagnosticOutcome) : list string :=
  od_job_id <$> filter (λ o, od_outcome o = "failure") os.

Definition job_event (recorded : list string) (job : JobRecord) : option DiagnosticEvent :=
  if bool_decide (job_status job = JobFailed) && negb (bool_decide (job_id job ∈ recorded))
  then Some (FailedBy job (from_job_identity (job_kind job) (job_scope job))) else None.

(** The recorded outcomes, newest first, then the failed jobs without one. *)
Definition diagnostic_events (js : list JobRecord) (d : Db) : list DiagnosticEvent :=
  let os := list_job_diagnostic_outcomes d in
  omap (outcome_event js) os ++ omap (job_event (recorded_failures os)) js.

Definition newest_event (s : JobDiagnosticSubject) (es : list DiagnosticEvent) : option DiagnosticEvent :=
  List.find (λ e, bool_decide (event_subject e = s)) es.

Lemma newest_event_app s es es' : newest_event s (es ++ es')
  = match newest_event s es with Some e => Some e | None => newest_event s es' end.
Proof.
  unfold newest_event. induction es as [|e es IH]; [done|]. simpl. by case_bool_decide.
Qed.

Lemma newest_event_None s es : newest_event s es = None ↔ ∀ e, e ∈ es → event_subject e ≠ s.
Proof.
  unfold newest_event. induction es as [|e es IH]; simpl.
  - split; [|done]. intros _ e He. by apply not_elem_of_nil in He.
  - case_bool_decide as He.
    + split; [done|]. intros H. by destruct (H e ltac:(by left)).
    + rewrite IH. setoid_rewrite elem_of_cons. naive_solver.
Qed.

Section scan_spec.
Variable healthy : JobRecord → JobDiagnosticSubject → result StateError bool.

(** What the scan knows after the events [es]. *)
Record scanned (es : list DiagnosticEvent) (st : FailureScan) : Prop := {
  sc_visited : ∀ s, s ∈ visited_failures st ↔ ∃ job, FailedBy job s ∈ es;
  sc_successes : ∀ s, s ∈ newer_successes st ↔ Recovered s ∈ es;
  sc_subjects : NoDup (uf_subject <$> unresolved st);
  sc_unresolved : ∀ u, u ∈ unresolved st ↔
    newest_event (uf_subject u) es = Some (FailedBy (uf_job u) (uf_subject u))
    ∧ healthy (uf_job u) (uf_subject u) = Ok false;
}.

Lemma scanned_blocked es st s : scanned es st →
  (bool_decide (s ∈ visited_failures st)
    || existsb (λ coverage, bool_decide (coverage = s)) (newer_successes st)) = false ↔
  newest_event s es = None.
Proof.
  intros Hsc. rewrite newest_event_None, orb_false_iff, bool_decide_eq_false, (sc_visited es st Hsc).
  assert (existsb (λ coverage, bool_decide (coverage = s)) (newer_successes st) = false
    ↔ Recovered s ∉ es) as ->.
  { rewrite <-(sc_successes es st Hsc), <-not_true_iff_false, existsb_exists.
    split; intros Hno Hin; apply Hno.
    - exists s. split; [by apply list_elem_of_In|by apply bool_decide_eq_true].
    - destruct Hin as (s' & Hs'%list_elem_of_In & ->%bool_decide_eq_true). done. }
  split.
  - intros [Hf Hr] [s'|job s'] He Hs; simpl in Hs; subst; [done|]. apply Hf. by exists job.
  - intros Hno. split; [intros [job He]|intros He]; by eapply Hno.
Qed.

Lemma scanned_recovered es st s : scanned es st →
  scanned (es ++ [Recovered s])
    {| newer_successes := newer_successes st ++ [s]; visited_failures := visited_failures st;
       recorded_failure_job_ids := recorded_failure_job_ids st; unresolved := unresolved st |}.
Proof.
  intros Hsc. split; simpl.
  - intros s'. rewrite (sc_visited es st Hsc). setoid_rewrite elem_of_app.
    setoid_rewrite list_elem_of_singleton. naive_solver.
  - intros s'. rewrite !elem_of_app, (sc_successes es st Hsc), !list_elem_of_singleton. naive_solver.
  - apply Hsc.
  - intros u. rewrite (sc_unresolved es st Hsc), newest_event_app.
    destruct (newest_event (uf_subject u) es) as [e|]; [done|]. split; [by intros [? _]|].
    unfold newest_event. simpl. case_bool_decide; by intros [? _].
Qed.

Lemma scanned_failed es st job s st' : scanned es st → visit_failure healthy job s st = Ok st' →
  scanned (es ++ [FailedBy job s]) st' ∧ recorded_failure_job_ids st' = recorded_failure_job_ids st.
Proof.
  intros Hsc. pose proof (scanned_blocked es st s Hsc) as Hblock. unfold visit_failure.
  set (visited' := if bool_decide (s ∈ visited_failures st) then _ else _).
  assert (∀ s', s' ∈ visited' ↔ ∃ job', FailedBy job' s' ∈ es ++ [FailedBy job s]) as Hvis.
  { intros s'. assert (s' ∈ visited' ↔ s' ∈ visited_failures st ∨ s' = s) as ->.
    { unfold visited'. case_bool_decide; [naive_solver|]. by rewrite elem_of_app, list_elem_of_singleton. }
    rewrite (sc_visited es st Hsc). setoid_rewrite elem_of_app. setoid_rewrite list_elem_of_singleton.
    naive_solver. }
  assert (∀ s', s' ∈ newer_successes st ↔ Recovered s' ∈ es ++ [FailedBy job s]) as Hsucc.
  { intros s'. rewrite (sc_successes es st Hsc), elem_of_app, list_elem_of_singleton. naive_solver. }
  assert (∀ s', newest_event s' (es ++ [FailedBy job s])
    = match newest_event s' es with Some e => Some e
      | None => if bool_decide (s = s') then Some (FailedBy job s) else None end) as Hnew.
  { intros s'. by rewrite newest_event_app. }
  destruct (_ || _) eqn:Hb; clearbody visited'.
  - intros [= <-]. split; [|done]. split; simpl; [exact Hvis|exact Hsucc|apply Hsc|].
    intros u. rewrite (sc_unresolved es st Hsc), Hnew.
    destruct (newest_event (uf_subject u) es) as [e|] eqn:Hu; [done|].
    destruct (decide (s = uf_subject u)) as [Hs|Hs];
      [rewrite (bool_decide_eq_true_2 _ Hs)|rewrite (bool_decide_eq_false_2 _ Hs)]; [|done]. subst s. apply Hblock in Hu. congruence.
  - assert (newest_event s es = None) as Hnone by by apply Hblock.
    assert (∀ u, u ∈ unresolved st → uf_subject u ≠ s) as Hfresh.
    { intros u Hu Hs. apply (sc_unresolved es st Hsc) in Hu as [Hu _]. congruence. }
    destruct (healthy job s) as [h|] eqn:Hh; [|done]. cbn [mbind result_bind]. destruct h; intros [= <-].
    all: split; [|done]; split; simpl; [exact Hvis|exact Hsucc| |].
    + apply Hsc.
    + intros u. rewrite (sc_unresolved es st Hsc), Hnew.
      destruct (newest_event (uf_subject u) es) as [e|] eqn:Hu; [done|].
      destruct (decide (s = uf_subject u)) as [Hs|Hs];
      [rewrite (bool_decide_eq_true_2 _ Hs)|rewrite (bool_decide_eq_false_2 _ Hs)]; [|done].
      split; [by intros [? _]|]. intros [[= Hj Hs'] Hu'].
      rewrite <-Hj, <-Hs' in Hu'. congruence.
    + rewrite fmap_app. apply NoDup_app. split_and!; [apply Hsc| |apply NoDup_singleton].
      intros s' (u & -> & Hu)%list_elem_of_fmap Hs%list_elem_of_singleton. by apply (Hfresh u).
    + intros u. rewrite elem_of_app, list_elem_of_singleton, (sc_unresolved es st Hsc), Hnew.
      destruct (newest_event (uf_subject u) es) as [e|] eqn:Hu.
      * split; [|by left]. intros [?| ->]; [done|]. simpl in Hu. congruence.
      * destruct (decide (s = uf_subject u)) as [Hs|Hs];
      [rewrite (bool_decide_eq_true_2 _ Hs)|rewrite (bool_decide_eq_false_2 _ Hs)]; [|naive_solver].
        destruct u as [j s']. simpl in *. subst s'.
        split; [intros [[? _]|[= <-]]; done|]. intros [[= <-] _]. by right.
Qed.
End scan_spec.

Section loops.
Variable healthy : JobRecord → JobDiagnosticSubject → result StateError bool.

Lemma scanned_recorded es st r : scanned healthy es st →
  scanned healthy es {| newer_successes := newer_successes st; visited_failures := visited_failures st;
                        recorded_failure_job_ids := r; unresolved := unresolved st |}.
Proof. intros Hsc. split; apply Hsc. Qed.

Lemma outcome_step_spec js es st o st' : scanned healthy es st →
  outcome_step healthy (find_job js) st o = Ok st' →
  scanned healthy (es ++ option_list (outcome_event js o)) st'
  ∧ recorded_failure_job_ids st' = recorded_failure_job_ids st ++ recorded_failures [o].
Proof.
  intros Hsc. unfold outcome_step, outcome_event, recorded_failures. rewrite filter_cons, filter_nil.
  case_bool_decide as Hs.
  - intros [= <-]. split; [by apply scanned_recovered|]. simpl.
    rewrite decide_False by congruence. by rewrite app_nil_r.
  - destruct (decide (od_outcome o = "failure")) as [Hf|Hf]; simpl.
    2: { rewrite bool_decide_eq_false_2 by done. simpl. intros [= <-]. by rewrite !app_nil_r. }
    rewrite bool_decide_eq_true_2 by done. simpl.
    destruct (find_job js (od_job_id o)) as [job|]; simpl.
    + intros Hv. eapply scanned_failed in Hv as [Hsc' ->]; [by split|].
      by apply scanned_recorded.
    + intros [= <-]. rewrite app_nil_r. split; [by apply scanned_recorded|done].
Qed.

Lemma outcome_loop_spec js os es st st' : scanned healthy es st →
  try_fold (outcome_step healthy (find_job js)) os st = Ok st' →
  scanned healthy (es ++ omap (outcome_event js) os) st'
  ∧ recorded_failure_job_ids st' = recorded_failure_job_ids st ++ recorded_failures os.
Proof.
  revert es st. induction os as [|o os IH]; intros es st Hsc; cbn [try_fold].
  { intros [= <-]. simpl. by rewrite !app_nil_r. }
  destruct (outcome_step _ _ st o) as [st1|] eqn:Ho; [|done]. cbn [mbind result_bind].
  apply (outcome_step_spec js es) in Ho as [Hsc1 Hr1]; [|done].
  intros [Hsc2 Hr2]%(IH _ _ Hsc1). rewrite Hr2, Hr1. split.
  - replace (es ++ omap (outcome_event js) (o :: os))
      with ((es ++ option_list (outcome_event js o)) ++ omap (outcome_event js) os); [done|].
    simpl. rewrite <-app_assoc. f_equal. by destruct (outcome_event js o).
  - rewrite <-app_assoc. f_equal. unfold recorded_failures. rewrite <-fmap_app, <-filter_app. done.
Qed.

Lemma job_loop_spec r js es st st' : scanned healthy es st → recorded_failure_job_ids st = r →
  try_fold (job_step healthy) js st = Ok st' →
  scanned healthy (es ++ omap (job_event r) js) st'.
Proof.
  revert es st. induction js as [|job js IH]; intros es st Hsc Hr; cbn [try_fold].
  { intros [= <-]. simpl. by rewrite app_nil_r. }
  destruct (job_step healthy st job) as [st1|] eqn:Hj; [|done]. cbn [mbind result_bind].
  assert (omap (job_event r) (job :: js) = option_list (job_event r job) ++ omap (job_event r) js) as ->
    by (simpl; by destruct (job_event r job)).
  rewrite app_assoc.
  assert (scanned healthy (es ++ option_list (job_event r job)) st1 ∧ recorded_failure_job_ids st1 = r)
    as [Hsc1 Hr1]; [|by apply IH].
  unfold job_step, job_event in *. rewrite Hr in Hj. destruct (bool_decide (job_status job = JobFailed)); simpl in *.
  2: { injection Hj as <-. by rewrite app_nil_r. }
  destruct (bool_decide (job_id job ∈ r)); simpl in *; [injection Hj as <-; by rewrite app_nil_r|].
  apply (scanned_failed healthy es) in Hj as [? ->]; done.
Qed.

Lemma visit_failure_err job s st e : visit_failure healthy job s st = Err e → healthy job s = Err e.
Proof.
  unfold visit_failure. destruct (_ || _); [done|]. destruct (healthy job s) as [[]|]; simpl; congruence.
Qed.
End loops.

(** A failure is reported for a subject exactly when the newest event
    recorded on that subject is a failure of that job and no healthy observation
    of the subject is newer; a subject is reported once.  An error is one of
    reading the jobs, the observations or a project's observed state. *)
Theorem unresolved_job_failures_spec d :
  match unresolved_job_failures d with
  | Ok l => ∃ js rs, recent_jobs d = Ok js ∧ runtime_observed_states d = Ok rs
      ∧ NoDup (uf_subject <$> l)
      ∧ ∀ u, u ∈ l ↔
          newest_event (uf_subject u) (diagnostic_events js d) = Some (FailedBy (uf_job u) (uf_subject u))
          ∧ has_newer_healthy_observation d rs (uf_job u) (uf_subject u) = Ok false
  | Err e => recent_jobs d = Err e ∨ runtime_observed_states d = Err e
      ∨ ∃ i, project_env_observed_state i d = Err e
  end.
Proof.
  unfold unresolved_job_failures. destruct (recent_jobs d) as [js|]; [|by left]. cbn [mbind result_bind].
  destruct (runtime_observed_states d) as [rs|]; [|by right; left]. cbn [mbind result_bind].
  set (healthy := has_newer_healthy_observation d rs).
  assert (∀ job s e, healthy job s = Err e → ∃ i, project_env_observed_state i d = Err e) as Herr.
  { intros job s e. unfold healthy, has_newer_healthy_observation. destruct s; simpl; try done.
    intros H. exists id. by destruct (project_env_observed_state id d); simpl in H; [|congruence]. }
  set (st0 := {| newer_successes := []; visited_failures := []; recorded_failure_job_ids := [];
                 unresolved := [] |}).
  assert (scanned healthy [] st0) as Hsc0.
  { split; simpl.
    - intros s. split; [by intros ?%not_elem_of_nil|by intros (? & ?%not_elem_of_nil)].
    - intros s. split; by intros ?%not_elem_of_nil.
    - constructor.
    - intros u. split; [by intros ?%not_elem_of_nil|by intros [? _]]. }
  destruct (try_fold (outcome_step _ _) _ st0) as [st1|e] eqn:H1; cbn [mbind result_bind].
  - apply (outcome_loop_spec healthy js _ [] st0) in H1 as [Hsc1 Hr1]; [|done].
    destruct (try_fold (job_step healthy) js st1) as [st2|e] eqn:H2; cbn [mbind result_bind].
    + apply (job_loop_spec healthy _ js _ st1 st2 Hsc1 Hr1) in H2.
      exists js, rs. split; [done|]. split; [done|]. split; [apply H2|]. apply (sc_unresolved _ _ _ H2).
    + right; right. apply try_fold_err in H2 as (st & job & _ & Hj). unfold job_step in Hj.
      destruct (_ || _); [done|]. by apply visit_failure_err, Herr in Hj.
  - right; right. apply try_fold_err in H1 as (st & o & _ & Ho). unfold outcome_step in Ho.
    repeat case_match; try done. by apply visit_failure_err, Herr in Ho.
Qed.

(** ** Witnesses *)

Definition sample_jobs : Db := (start_job "reconcile" "project:p1" "t1" sample_db).2.

Lemma sample_jobs_eq : sample_jobs = set_jobs (λ _, {[ "job_000001" :=
  {| j_kind := "reconcile"; j_scope := "project:p1"; j_status := "running"; j_started_at := "t1";
     j_finished_at := None; j_summary := None; j_error := None |} ]}) sample_db.
Proof. by vm_compute. Qed.

Lemma sample_jobs_wf : jobs_wf sample_jobs.
Proof.
  rewrite sample_jobs_eq. split; simpl; [|constructor|].
  - by intros o Ho%not_elem_of_nil.
  - by intros i row [<- <-]%lookup_singleton_Some.
Qed.

Lemma sample_completed :
  ∃ d', complete_job_with_coverage "job_000001" "done" [SubjectProject "p1"] "t2" sample_jobs = (Ok tt, d')
    ∧ jobs_wf d' ∧ (j_status <$> jobs d' !! "job_000001") = Some "succeeded".
Proof.
  pose proof (complete_job_closes "job_000001" "done" [SubjectProject "p1"] "t2" sample_jobs
    sample_jobs_wf) as Hspec.
  assert ((complete_job_with_coverage "job_000001" "done" [SubjectProject "p1"] "t2" sample_jobs).1
    = Ok tt) as H1 by by vm_compute.
  assert ((j_status <$> jobs (complete_job_with_coverage "job_000001" "done" [SubjectProject "p1"] "t2"
    sample_jobs).2 !! "job_000001") = Some "succeeded") as H2 by by vm_compute.
  destruct (complete_job_with_coverage _ _ _ _ _) as [[[]|e] d']; [|discriminate H1].
  destruct Hspec as (row & _ & Hc). exists d'. split; [reflexivity|].
  split; [exact (jc_wf _ _ _ _ Hc)|exact H2].
Defined.

Lemma sample_failed :
  ∃ d', fail_job_with_optional_subject "job_000001" "boom" None "t2" sample_jobs = (Ok tt, d')
    ∧ jobs_wf d' ∧ (oc_subject_id <$> job_diagnostic_outcomes d') = ["p1"].
Proof.
  pose proof (fail_job_closes "job_000001" "boom" None "t2" sample_jobs sample_jobs_wf) as Hspec.
  assert ((fail_job_with_optional_subject "job_000001" "boom" None "t2" sample_jobs).1 = Ok tt) as H1
    by by vm_compute.
  assert ((oc_subject_id <$> job_diagnostic_outcomes (fail_job_with_optional_subject "job_000001"
    "boom" None "t2" sample_jobs).2) = ["p1"]) as H2 by by vm_compute.
  destruct (fail_job_with_optional_subject _ _ _ _ _) as [[[]|e] d']; [|discriminate H1].
  destruct Hspec as (row & _ & Hc). exists d'. split; [reflexivity|].
  split; [exact (jc_wf _ _ _ _ Hc)|exact H2].
Defined.

Lemma fail_running_jobs_spec_witness :
  ∃ d', fail_running_jobs "restarted" "t2" sample_jobs = (Ok 1, d')
    ∧ ∀ i row, jobs d' !! i = Some row → running row = false.
Proof.
  destruct (fail_running_jobs_spec "restarted" "t2" sample_jobs sample_jobs_wf) as (d' & Heq & Hrun & _).
  assert (length (running_jobs sample_jobs) = 1) as H1 by by vm_compute.
  rewrite H1 in Heq. exists d'. split; [exact Heq|exact Hrun].
Defined.

(** A later success on its subject resolves a failure. *)
Definition failed_then_completed : Db :=
  let d := (fail_job "job_000001" "boom" "t2" sample_jobs).2 in
  let d := (start_job "reconcile" "project:p1" "t3" d).2 in
  (complete_job_with_coverage "job_000002" "ok" [SubjectProject "p1"] "t4" d).2.

Example unresolved_after_failure :
  (λ l : list UnresolvedJobFailure, uf_subject <$> l) <$> unresolved_job_failures (fail_job "job_000001" "boom" "t2" sample_jobs).2
  = Ok [SubjectProject "p1"].
Proof. by vm_compute. Qed.

Example unresolved_after_success :
  (λ l : list UnresolvedJobFailure, uf_subject <$> l) <$> unresolved_job_failures failed_then_completed = Ok [].
Proof. by vm_compute. Qed.
