(* ===== verification/StateAllocations.v ===== *)
(** * Resource allocations: the [resource_allocations] operations of
    [state/src/database.rs] and the env context of a project *)

From S2P Require Import Prelude RustStr StateTypes StateIds StateDb StateResources StateProjects StateLink.

(** ** Records *)

Record ResourceAllocationInput := { ai_allocation_name : string; ai_generated_name : string }.

Record ResourceAllocationRecord := {
  al_id : string;
  al_project_id : string;
  al_resource_name : string;
  al_track : string;
  al_allocation_name : string;
  al_generated_name : string;
  al_env : gmap string string;
  al_status : ResourceAllocationStatus;
  al_created_at : string;
  al_updated_at : string;
}.

Record ProjectEnvAllocationContext := { pa_generated_name : string; pa_values : gmap string string }.
Record ProjectEnvResourceContext := {
  pr_track : string;
  pr_values : gmap string string;
  pr_allocations : gmap string ProjectEnvAllocationContext;
}.
Record ProjectEnvStateContext := {
  pc_project_id : string;
  pc_primary_hostname : option string;
  pc_resources : gmap string ProjectEnvResourceContext;
}.

(** ** Validation *)

Definition allocation_group_step (names : gset string * gset string) (a : ResourceAllocationInput) :
    result StateError (gset string * gset string) :=
  _ ← validate_resource_allocation_name (ai_allocation_name a);
  _ ← validate_resource_allocation_identity "generated name" (ai_generated_name a);
  if bool_decide (ai_allocation_name a ∈ names.1)
  then Err (InvalidResourceAllocationIdentity "allocation" (ai_allocation_name a))
  else if bool_decide (ai_generated_name a ∈ names.2)
  then Err (InvalidResourceAllocationIdentity "generated name" (ai_generated_name a))
  else Ok ({[ai_allocation_name a]} ∪ names.1, {[ai_generated_name a]} ∪ names.2).

Definition validate_resource_allocation_group (resource_name track : string)
    (allocations : list ResourceAllocationInput) : result StateError unit :=
  _ ← validate_resource_allocation_identity "resource" resource_name;
  _ ← validate_concrete_track track;
  _ ← try_fold allocation_group_step allocations (∅, ∅); Ok tt.

(** ** Statements *)

Definition next_resource_allocation_id (d : Db) : result StateError string :=
  next_id "allocation_" (map_to_list (resource_allocations d)).*1.

(** The UNIQUE columns [(resource_name, track, generated_name)], seen from the row
    of id [i]. *)
Definition generated_name_taken (i resource_name track generated_name : string) (d : Db) : bool :=
  existsb (λ '(k, row), negb (bool_decide (k = i)) && bool_decide (a_resource_name row = resource_name)
      && bool_decide (a_track row = track) && bool_decide (a_generated_name row = generated_name))
    (map_to_list (resource_allocations d)).

Definition resource_allocation_generated_name_exists (resource_name track generated_name : string)
    (d : Db) : bool :=
  existsb (λ '(_, row), bool_decide (a_resource_name row = resource_name)
      && bool_decide (a_track row = track) && bool_decide (a_generated_name row = generated_name))
    (map_to_list (resource_allocations d)).

(** The UNIQUE columns [(project_id, resource_name, allocation_name)]. *)
Definition allocation_name_taken (project_id resource_name allocation_name : string) (d : Db) : bool :=
  existsb (λ '(_, row), bool_decide (a_project_id row = project_id)
      && bool_decide (a_resource_name row = resource_name)
      && bool_decide (a_allocation_name row = allocation_name))
    (map_to_list (resource_allocations d)).

Definition retracked (track status now : string) (row : AllocationRow) : AllocationRow :=
  {| a_project_id := a_project_id row; a_resource_name := a_resource_name row; a_track := track;
     a_allocation_name := a_allocation_name row; a_generated_name := a_generated_name row;
     a_env_json := a_env_json row; a_status := status; a_created_at := a_created_at row;
     a_updated_at := now |}.

Definition deactivated (now : string) (row : AllocationRow) : AllocationRow :=
  retracked (a_track row) (as_str AllocationInactive) now row.

Definition with_env (status env_json now : string) (row : AllocationRow) : AllocationRow :=
  {| a_project_id := a_project_id row; a_resource_name := a_resource_name row; a_track := a_track row;
     a_allocation_name := a_allocation_name row; a_generated_name := a_generated_name row;
     a_env_json := env_json; a_status := status; a_created_at := a_created_at row;
     a_updated_at := now |}.

Definition new_allocation (project_id resource_name track now : string) (a : ResourceAllocationInput) :
    AllocationRow :=
  {| a_project_id := project_id; a_resource_name := resource_name; a_track := track;
     a_allocation_name := ai_allocation_name a; a_generated_name := ai_generated_name a;
     a_env_json := "{}"; a_status := as_str AllocationDesired; a_created_at := now;
     a_updated_at := now |}.

(** [UPDATE resource_allocations SET track, status, updated_at WHERE id = ..]. *)
Definition update_allocation_track (i track status now : string) (d : Db) : result StateError Db :=
  match resource_allocations d !! i with
  | None => Ok d
  | Some row =>
      if generated_name_taken i (a_resource_name row) track (a_generated_name row) d
      then unique_violation "resource_allocations.resource_name, track, generated_name"
      else Ok (set_resource_allocations (<[i := retracked track status now row]>) d)
  end.

Definition insert_allocation (i : string) (row : AllocationRow) (d : Db) : result StateError Db :=
  if option_bool (resource_allocations d !! i) then unique_violation "resource_allocations.id"
  else if allocation_name_taken (a_project_id row) (a_resource_name row) (a_allocation_name row) d
  then unique_violation "resource_allocations.project_id, resource_name, allocation_name"
  else if resource_allocation_generated_name_exists (a_resource_name row) (a_track row)
            (a_generated_name row) d
  then unique_violation "resource_allocations.resource_name, track, generated_name"
  else if negb (option_bool (projects d !! a_project_id row))
  then Err (Sqlite (ForeignKeyViolation "resource_allocations"))
  else Ok (set_resource_allocations (<[i := row]>) d).

Section allocations.
Context `{Json}.

Definition allocation_into_record (i : string) (row : AllocationRow) :
    result StateError ResourceAllocationRecord :=
  _ ← validate_resource_allocation_identity "resource" (a_resource_name row);
  _ ← validate_concrete_track (a_track row);
  _ ← validate_resource_allocation_name (a_allocation_name row);
  _ ← validate_resource_allocation_identity "generated name" (a_generated_name row);
  let context := "resource allocation " +:+ debug_str (a_project_id row) +:+ "/"
                 +:+ debug_str (a_resource_name row) +:+ "/" +:+ debug_str (a_allocation_name row) in
  env ← parse_env_context context (a_env_json row);
  status ← allocation_status_from_database (a_status row);
  Ok {| al_id := i; al_project_id := a_project_id row; al_resource_name := a_resource_name row;
        al_track := a_track row; al_allocation_name := a_allocation_name row;
        al_generated_name := a_generated_name row; al_env := env; al_status := status;
        al_created_at := a_created_at row; al_updated_at := a_updated_at row |}.

(** [SELECT .. WHERE .. ORDER BY allocation_name]. *)
Definition select_allocations (p : AllocationRow → bool) (d : Db) :
    result StateError (list ResourceAllocationRecord) :=
  try_map (λ '(i, row), allocation_into_record i row)
    (sort_on (λ '(_, row), a_allocation_name row)
       (filter (λ '(_, row), p row = true) (map_to_list (resource_allocations d)))).

Definition of_project_resource (project_id resource_name : string) (row : AllocationRow) : bool :=
  bool_decide (a_project_id row = project_id) && bool_decide (a_resource_name row = resource_name).

(** [Database::resource_allocations]. *)
Definition list_resource_allocations (project_id resource_name : string) (d : Db) :
    result StateError (list ResourceAllocationRecord) :=
  select_allocations (of_project_resource project_id resource_name) d.

Definition ready_resource_allocations (project_id resource_name track : string) (d : Db) :
    result StateError (list ResourceAllocationRecord) :=
  select_allocations (λ row, of_project_resource project_id resource_name row
    && bool_decide (a_track row = track) && bool_decide (a_status row = as_str AllocationReady)) d.

(** One turn of [for allocation in allocations]. *)
Definition replace_allocation_step (project_id resource_name track now : string)
    (existing_by_name : gmap string ResourceAllocationRecord) (d : Db)
    (allocation : ResourceAllocationInput) : result StateError Db :=
  match existing_by_name !! ai_allocation_name allocation with
  | Some existing =>
      let status := if bool_decide (al_track existing = track)
                       && bool_decide (al_status existing = AllocationReady)
                    then AllocationReady else AllocationDesired in
      update_allocation_track (al_id existing) track (as_str status) now d
  | None =>
      if resource_allocation_generated_name_exists resource_name track
           (ai_generated_name allocation) d
      then Err (ResourceAllocationGeneratedNameCollision resource_name track
                  (ai_generated_name allocation))
      else
        i ← next_resource_allocation_id d;
        insert_allocation i (new_allocation project_id resource_name track now allocation) d
  end.

Definition deactivate_step (desired : list string) (now : string) (d : Db)
    (existing : ResourceAllocationRecord) : Db :=
  if negb (bool_decide (al_allocation_name existing ∈ desired))
     && negb (bool_decide (al_status existing = AllocationInactive))
  then set_resource_allocations (alter (deactivated now) (al_id existing)) d else d.

Definition replace_project_resource_allocations (project_id resource_name track : string)
    (allocations : list ResourceAllocationInput) (now : string) :
    Op (list ResourceAllocationRecord) := transact (λ d,
  _ ← validate_resource_allocation_group resource_name track allocations;
  _ ← ensure_project_exists project_id d;
  existing_allocations ← list_resource_allocations project_id resource_name d;
  let existing_by_name := foldl (λ m a, <[al_allocation_name a := a]> m)
                            (∅ : gmap string ResourceAllocationRecord) existing_allocations in
  let desired := ai_allocation_name <$> allocations in
  d ← try_fold (replace_allocation_step project_id resource_name track now existing_by_name)
        allocations d;
  let d := foldl (deactivate_step desired now) d (snd <$> btree_iter existing_by_name) in
  records ← list_resource_allocations project_id resource_name d;
  Ok (filter (λ r, al_allocation_name r ∈ desired) records, d)).

Definition resource_allocation_by_key (project_id resource_name allocation_name : string) (d : Db) :
    result StateError ResourceAllocationRecord :=
  match List.find (λ '(_, row), of_project_resource project_id resource_name row
                     && bool_decide (a_allocation_name row = allocation_name))
          (map_to_list (resource_allocations d)) with
  | Some (i, row) => allocation_into_record i row
  | None => Err (ResourceAllocationNotFound project_id resource_name allocation_name)
  end.

Definition allocation_context (project_id resource_name track allocation_name : string) : string :=
  "resource allocation " +:+ debug_str project_id +:+ "/" +:+ debug_str resource_name +:+ "/"
    +:+ debug_str track +:+ "/" +:+ debug_str allocation_name.

(** The rows an [UPDATE .. WHERE project_id AND resource_name AND track AND
    allocation_name AND status] touches. *)
Definition allocation_matches (project_id resource_name track allocation_name : string)
    (status : ResourceAllocationStatus) (row : AllocationRow) : bool :=
  of_project_resource project_id resource_name row && bool_decide (a_track row = track)
  && bool_decide (a_allocation_name row = allocation_name)
  && bool_decide (a_status row = as_str status).

(** The body [mark_resource_allocation_ready] and
    [record_resource_allocation_env_context] share: both write the env of the
    matching row, which then is ready. *)
Definition write_allocation_env (from : ResourceAllocationStatus)
    (project_id resource_name track allocation_name : string) (env : gmap string string)
    (now : string) : Op ResourceAllocationRecord := λ d,
  match (_ ← validate_resource_allocation_identity "resource" resource_name;
         _ ← validate_concrete_track track;
         _ ← validate_resource_allocation_name allocation_name;
         serialize_env_context (allocation_context project_id resource_name track allocation_name) env)
  with
  | Err e => (Err e, d)
  | Ok env_json =>
      let matching row := allocation_matches project_id resource_name track allocation_name from row in
      let updated := length (filter (λ '(_, row), matching row = true)
                               (map_to_list (resource_allocations d))) in
      let d' := set_resource_allocations (fmap (λ row,
                  if matching row then with_env (as_str AllocationReady) env_json now row else row)) d in
      (if updated =? 0 then
         _ ← resource_allocation_by_key project_id resource_name allocation_name d';
         Err (ResourceAllocationNotDesired project_id resource_name track allocation_name)
       else resource_allocation_by_key project_id resource_name allocation_name d', d')
  end.

Definition mark_resource_allocation_ready (project_id resource_name track allocation_name : string)
    (env : gmap string string) (now : string) : Op ResourceAllocationRecord :=
  write_allocation_env AllocationDesired project_id resource_name track allocation_name env now.

Definition record_resource_allocation_env_context
    (project_id resource_name track allocation_name : string) (env : gmap string string)
    (now : string) : Op ResourceAllocationRecord :=
  write_allocation_env AllocationReady project_id resource_name track allocation_name env now.

(** ** The env context of a project *)

Definition ready_allocation_env_contexts (project_id resource_name track : string) (d : Db) :
    result StateError (gmap string ProjectEnvAllocationContext) :=
  allocations ← ready_resource_allocations project_id resource_name track d;
  Ok (foldl (λ m a, <[al_allocation_name a :=
        {| pa_generated_name := al_generated_name a; pa_values := al_env a |}]> m) ∅ allocations).

Definition env_context_step (project_id : string) (d : Db)
    (resources : gmap string ProjectEnvResourceContext) (r : ProjectManagedResourceRecord) :
    result StateError (gmap string ProjectEnvResourceContext) :=
  track ← managed_resource_track (rr_resource_name r) (rr_track r) d;
  allocations ← ready_allocation_env_contexts project_id (rr_resource_name r) (rr_track r) d;
  Ok (<[rr_resource_name r := {| pr_track := rr_track r; pr_values := tr_env track;
                                 pr_allocations := allocations |}]> resources).

Definition project_env_context (project_id : string) (d : Db) :
    result StateError ProjectEnvStateContext :=
  project ← project_by_id project_id d;
  project ← ok_or project (ProjectNotFound project_id);
  requirements ← list_project_managed_resources project_id d;
  resources ← try_fold (env_context_step project_id d) requirements ∅;
  Ok {| pc_project_id := id project; pc_primary_hostname := primary_hostname project;
        pc_resources := resources |}.
End allocations.

(** ** Reading *)

Lemma validate_allocation_identity_ok kind v :
  validate_resource_allocation_identity kind v = Ok tt ↔ is_identity v = true.
Proof. apply ensure_ok. Qed.

(** The columns of an allocation that reading it parses. *)
Definition allocation_readable `{Json} (row : AllocationRow) : Prop :=
  is_identity (a_resource_name row) = true ∧ concrete_track (a_track row)
  ∧ validate_resource_allocation_name (a_allocation_name row) = Ok tt
  ∧ is_identity (a_generated_name row) = true
  ∧ (∃ env, ∀ context, parse_env_context context (a_env_json row) = Ok env)
  ∧ ∃ status : ResourceAllocationStatus, a_status row = as_str status.

Definition allocation_of (i : string) (row : AllocationRow) (r : ResourceAllocationRecord) : Prop :=
  al_id r = i ∧ al_project_id r = a_project_id row ∧ al_resource_name r = a_resource_name row
  ∧ al_track r = a_track row ∧ al_allocation_name r = a_allocation_name row
  ∧ al_generated_name r = a_generated_name row ∧ as_str (al_status r) = a_status row.

Section reading.
Context `{JsonLaws}.

Lemma parse_env_any_context c c' s env : parse_env_context c s = Ok env → parse_env_context c' s = Ok env.
Proof.
  unfold parse_env_context. destruct (env_from_json s) as [m|]; [|done]. simpl.
  destruct (validate_env_context c m) as [[]|] eqn:Hv; [|done].
  apply validate_env_context_ok in Hv. by rewrite (proj2 (validate_env_context_ok c' m) Hv).
Qed.

Lemma allocation_read i row : allocation_readable row →
  ∃ r, allocation_into_record i row = Ok r ∧ allocation_of i row r
    ∧ ∀ context, parse_env_context context (a_env_json row) = Ok (al_env r).
Proof.
  intros (Hr & Ht & Hn & Hg & (env & He) & status & Hs). unfold allocation_into_record.
  rewrite !(proj2 (validate_allocation_identity_ok _ _)) by done.
  rewrite (proj2 (validate_concrete_track_ok _) Ht), Hn. cbn [mbind result_bind].
  rewrite He. cbn [mbind result_bind]. rewrite Hs.
  change (allocation_status_from_database (as_str status)) with (from_database (A := ResourceAllocationStatus) (as_str status)).
  rewrite from_as_str. eexists. split; [reflexivity|]. split; [|exact He]. by split_and!.
Qed.

Lemma allocation_read_inv i row r : allocation_into_record i row = Ok r →
  allocation_readable row ∧ allocation_of i row r
  ∧ ∀ context, parse_env_context context (a_env_json row) = Ok (al_env r).
Proof.
  unfold allocation_into_record. intros Hr; inv_ok.
  apply validate_allocation_identity_ok in E, E2. apply validate_concrete_track_ok in E0.
  change (allocation_status_from_database (a_status row)) with (from_database (A := ResourceAllocationStatus) (a_status row)) in E4.
  apply as_from_database in E4. split; [|split; [done|intros c; by eapply parse_env_any_context]].
  split_and!; [done|done|done|done| |by eexists].
  eexists. intros c. by eapply parse_env_any_context.
Qed.

Lemma select_allocations_spec p d :
  (∀ i row, resource_allocations d !! i = Some row → allocation_readable row) →
  ∃ l, select_allocations p d = Ok l
    ∧ (∀ r, r ∈ l ↔ ∃ i row, resource_allocations d !! i = Some row ∧ p row = true
                      ∧ allocation_into_record i row = Ok r)
    ∧ StronglySorted (le_on al_allocation_name) l ∧ NoDup (al_id <$> l).
Proof.
  intros Hread. unfold select_allocations.
  set (rows := sort_on _ _).
  assert (∀ i row, (i, row) ∈ rows ↔ resource_allocations d !! i = Some row ∧ p row = true) as Hrows.
  { intros i row. unfold rows. rewrite elem_of_sort_on, list_elem_of_filter, elem_of_map_to_list. naive_solver. }
  assert (NoDup rows.*1) as Hnd.
  { unfold rows. rewrite sort_on_perm. eapply sublist_NoDup; [exact (NoDup_fst_map_to_list (resource_allocations d))|].
    apply fmap_sublist, sublist_filter. }
  pose proof (sort_on_sorted (λ '(_, row), a_allocation_name row)
    (filter (λ '(_, row), p row = true) (map_to_list (resource_allocations d)))) as Hsort.
  fold rows in Hsort. clearbody rows.
  assert (∀ i row, (i, row) ∈ rows → allocation_readable row) as Hok.
  { intros i row [Hi _]%Hrows. by eapply Hread. }
  assert (∃ l, try_map (λ '(i, row), allocation_into_record i row) rows = Ok l
    ∧ Forall2 (λ ir r, allocation_into_record ir.1 ir.2 = Ok r ∧ allocation_of ir.1 ir.2 r) rows l)
    as (l & Hl & Hf).
  { clear -Hok H0. induction rows as [|[i row] rows IH]; [by exists []|].
    destruct IH as (l & Hl & Hf); [intros j r Hj; eapply Hok; by right|].
    destruct (allocation_read i row) as (r & Hr & Hof & _); [eapply Hok; by left|].
    exists (r :: l). simpl. rewrite Hr. simpl. rewrite Hl. split; [done|]. by constructor. }
  exists l. split; [done|]. split_and!.
  - intros r. split.
    + intros (k & Hk)%list_elem_of_lookup. destruct (Forall2_lookup_r _ _ _ _ _ Hf Hk) as ([i row] & Hi & Hr & _).
      apply list_elem_of_lookup_2, Hrows in Hi as [Hi Hp]. by exists i, row.
    + intros (i & row & Hi & Hp & Hr).
      assert ((i, row) ∈ rows) as (k & Hk)%list_elem_of_lookup by by apply Hrows.
      destruct (Forall2_lookup_l _ _ _ _ _ Hf Hk) as (r' & Hr' & Hread' & _). simpl in Hread'.
      assert (r' = r) as -> by congruence. by eapply list_elem_of_lookup_2.
  - clear -Hf Hsort. induction Hf as [|[i row] r rows l [_ Hr] Hf IH]; [constructor|].
    apply StronglySorted_inv in Hsort as [Hs Hall]. constructor; [by apply IH|].
    clear -Hr Hall Hf. induction Hf as [|[j row'] r' rows l [_ Hr'] Hf IH]; [constructor|].
    apply Forall_cons in Hall as [Hle Hall]. constructor; [|by apply IH].
    unfold le_on in *. destruct Hr as (_ & _ & _ & _ & -> & _), Hr' as (_ & _ & _ & _ & -> & _). done.
  - assert (al_id <$> l = rows.*1) as ->; [|done]. clear -Hf.
    induction Hf as [|[i row] r rows l [_ Hr] Hf IH]; [done|]. rewrite !fmap_cons, IH.
    by destruct Hr as (-> & _).
Qed.
End reading.

(** ** Well-formedness *)

Record allocations_wf `{Json} (d : Db) : Prop := {
  aw_project : ∀ i r, resource_allocations d !! i = Some r → is_Some (projects d !! a_project_id r);
  aw_name : ∀ i j r s, resource_allocations d !! i = Some r → resource_allocations d !! j = Some s →
    a_project_id r = a_project_id s → a_resource_name r = a_resource_name s →
    a_allocation_name r = a_allocation_name s → i = j;
  aw_generated : ∀ i j r s, resource_allocations d !! i = Some r → resource_allocations d !! j = Some s →
    a_resource_name r = a_resource_name s → a_track r = a_track s →
    a_generated_name r = a_generated_name s → i = j;
  aw_readable : ∀ i r, resource_allocations d !! i = Some r → allocation_readable r;
}.

Lemma existsb_rows_false (p : string → AllocationRow → bool) d :
  existsb (λ '(i, row), p i row) (map_to_list (resource_allocations d)) = false ↔
  ∀ i row, resource_allocations d !! i = Some row → p i row = false.
Proof.
  rewrite <-not_true_iff_false, existsb_exists. split.
  - intros Hno i row Hi. apply not_true_iff_false. intros Hp. apply Hno. exists (i, row).
    by rewrite <-list_elem_of_In, elem_of_map_to_list.
  - intros Hno ([i row] & Hin%list_elem_of_In%elem_of_map_to_list & Hp). rewrite Hno in Hp; done.
Qed.

Lemma generated_name_free i r t g d : generated_name_taken i r t g d = false ↔
  ∀ k row, resource_allocations d !! k = Some row → k ≠ i → a_resource_name row = r →
    a_track row = t → a_generated_name row ≠ g.
Proof.
  unfold generated_name_taken. rewrite (existsb_rows_false (λ k row, negb (bool_decide (k = i))
    && bool_decide (a_resource_name row = r) && bool_decide (a_track row = t)
    && bool_decide (a_generated_name row = g))).
  apply forall_proper; intros k. apply forall_proper; intros row.
  repeat case_bool_decide; simpl; naive_solver.
Qed.

Lemma generated_name_unused r t g d : resource_allocation_generated_name_exists r t g d = false ↔
  ∀ k row, resource_allocations d !! k = Some row → a_resource_name row = r →
    a_track row = t → a_generated_name row ≠ g.
Proof.
  unfold resource_allocation_generated_name_exists.
  rewrite (existsb_rows_false (λ _ row, bool_decide (a_resource_name row = r)
    && bool_decide (a_track row = t) && bool_decide (a_generated_name row = g))).
  apply forall_proper; intros k. apply forall_proper; intros row.
  repeat case_bool_decide; simpl; naive_solver.
Qed.

Lemma generated_name_used i r t g d : generated_name_taken i r t g d = true →
  ∃ k row, resource_allocations d !! k = Some row ∧ k ≠ i ∧ a_resource_name row = r ∧ a_track row = t ∧ a_generated_name row = g.
Proof.
  intros ([k row] & Hin%list_elem_of_In%elem_of_map_to_list & Hb)%existsb_exists. split_bools. by exists k, row.
Qed.

Lemma generated_name_exists_row r t g d : resource_allocation_generated_name_exists r t g d = true →
  ∃ k row, resource_allocations d !! k = Some row ∧ a_resource_name row = r ∧ a_track row = t ∧ a_generated_name row = g.
Proof.
  intros ([k row] & Hin%list_elem_of_In%elem_of_map_to_list & Hb)%existsb_exists. split_bools. by exists k, row.
Qed.

Lemma allocation_name_unused p r n d : allocation_name_taken p r n d = false ↔
  ∀ k row, resource_allocations d !! k = Some row → of_project_resource p r row = true →
    a_allocation_name row ≠ n.
Proof.
  unfold allocation_name_taken, of_project_resource.
  rewrite (existsb_rows_false (λ _ row, bool_decide (a_project_id row = p)
    && bool_decide (a_resource_name row = r) && bool_decide (a_allocation_name row = n))).
  apply forall_proper; intros k. apply forall_proper; intros row.
  repeat case_bool_decide; simpl; naive_solver.
Qed.

Lemma of_project_resource_true p r row : of_project_resource p r row = true ↔
  a_project_id row = p ∧ a_resource_name row = r.
Proof. unfold of_project_resource. rewrite andb_true_iff, !bool_decide_eq_true. done. Qed.

Section steps.
Context `{JsonLaws}.

Lemma allocations_wf_insert d i row : allocations_wf d → is_Some (projects d !! a_project_id row) →
  allocation_readable row →
  (∀ k s, resource_allocations d !! k = Some s → k ≠ i → a_project_id s = a_project_id row →
     a_resource_name s = a_resource_name row → a_allocation_name s ≠ a_allocation_name row) →
  (∀ k s, resource_allocations d !! k = Some s → k ≠ i → a_resource_name s = a_resource_name row →
     a_track s = a_track row → a_generated_name s ≠ a_generated_name row) →
  allocations_wf (set_resource_allocations (<[i := row]>) d).
Proof.
  intros Hwf Hp Hread Hname Hgen. split; simpl.
  - intros j r [[<- <-]|[_ Hj]]%lookup_insert_Some; [done|by eapply aw_project].
  - intros j k r s [[<- <-]|[Hj Hr]]%lookup_insert_Some [[<- <-]|[Hk Hs]]%lookup_insert_Some E1 E2 E3.
    + done.
    + by destruct (Hname k s Hs (not_eq_sym Hk)).
    + by destruct (Hname j r Hr (not_eq_sym Hj)).
    + by eapply aw_name.
  - intros j k r s [[<- <-]|[Hj Hr]]%lookup_insert_Some [[<- <-]|[Hk Hs]]%lookup_insert_Some E1 E2 E3.
    + done.
    + by destruct (Hgen k s Hs (not_eq_sym Hk)).
    + by destruct (Hgen j r Hr (not_eq_sym Hj)).
    + by eapply aw_generated.
  - intros j r [[<- <-]|[_ Hj]]%lookup_insert_Some; [done|by eapply aw_readable].
Qed.

Lemma retracked_readable track (status : ResourceAllocationStatus) now row : concrete_track track →
  allocation_readable row → allocation_readable (retracked track (as_str status) now row).
Proof.
  intros Ht (Hr & _ & Hn & Hg & He & _). split_and!; [done|done|done|done|done|]. by exists status.
Qed.

Lemma new_allocation_readable p r track now a : is_identity r = true → concrete_track track →
  validate_resource_allocation_name (ai_allocation_name a) = Ok tt →
  is_identity (ai_generated_name a) = true → allocation_readable (new_allocation p r track now a).
Proof.
  intros Hr Ht Hn Hg. split_and!; [done|done|done|done| |by exists AllocationDesired].
  exists ∅. apply parse_env_empty.
Qed.
End steps.

(** ** Replacing the allocations of a project *)

Section replacing.
Context `{JsonLaws} (p r track now : string).

(** What the replacement writes for the wanted allocation [a]. *)
Definition kept_status (row : AllocationRow) : ResourceAllocationStatus :=
  if decide (a_track row = track ∧ a_status row = as_str AllocationReady)
  then AllocationReady else AllocationDesired.

Definition written (d : Db) (a : ResourceAllocationInput) (i : string) (row' : AllocationRow) : Prop :=
  (∃ row, resource_allocations d !! i = Some row ∧ of_project_resource p r row = true
     ∧ a_allocation_name row = ai_allocation_name a
     ∧ row' = retracked track (as_str (kept_status row)) now row)
  ∨ ((∀ k row, resource_allocations d !! k = Some row → of_project_resource p r row = true →
        a_allocation_name row ≠ ai_allocation_name a)
     ∧ resource_allocations d !! i = None ∧ row' = new_allocation p r track now a).

Lemma written_name d a i row' : written d a i row' →
  of_project_resource p r row' = true ∧ a_allocation_name row' = ai_allocation_name a
  ∧ a_track row' = track.
Proof.
  intros [(row & _ & Hof & Hn & ->)|(_ & _ & ->)]; [by rewrite <-Hn|].
  split_and!; [by apply of_project_resource_true|done|done].
Qed.

(** The record the map of existing allocations holds for a name. *)
Definition existing_at (d : Db) (ex : gmap string ResourceAllocationRecord) (n : string) : Prop :=
  match ex !! n with
  | Some rec => ∃ row, resource_allocations d !! al_id rec = Some row
      ∧ of_project_resource p r row = true ∧ a_allocation_name row = n ∧ allocation_of (al_id rec) row rec
  | None => ∀ i row, resource_allocations d !! i = Some row → of_project_resource p r row = true →
      a_allocation_name row ≠ n
  end.

Definition wanted_ok (a : ResourceAllocationInput) : Prop :=
  validate_resource_allocation_name (ai_allocation_name a) = Ok tt
  ∧ is_identity (ai_generated_name a) = true.

(** The name [n] is new to the project's allocations of the resource. *)
Definition unknown_name (d : Db) (n : string) : Prop := ∀ k row, resource_allocations d !! k = Some row →
  a_project_id row = p → a_resource_name row = r → a_allocation_name row ≠ n.

(** A generated name is in use on the track, by another allocation than [n]: one that is on the
    track, or one of the [names] that are wanted there, which keeps its generated name or, if it is
    new, brings one. *)
Definition in_the_way (d : Db) (l : list ResourceAllocationInput) (n g : string) : Prop :=
  (∃ k row, resource_allocations d !! k = Some row ∧ a_resource_name row = r ∧ a_generated_name row = g
     ∧ (a_track row = track ∨ a_project_id row = p ∧ a_allocation_name row ∈ ai_allocation_name <$> l)
     ∧ ¬ (a_project_id row = p ∧ a_allocation_name row = n))
  ∨ ∃ b, b ∈ l ∧ ai_allocation_name b ≠ n ∧ ai_generated_name b = g ∧ unknown_name d (ai_allocation_name b).

(** The numbers of the ids run out. *)
Definition ids_run_out (d : Db) (n : nat) : Prop :=
  (I64_MAX ≤ max_number "allocation_" (map_to_list (resource_allocations d)).*1 + N.of_nat n)%N.

(** Why the allocation [a] is refused when [l] is wanted: its generated name is in use on the
    track, the ids are exhausted, or, when it is moved, the generated name it has is in use there. *)
Definition step_error (d : Db) (l : list ResourceAllocationInput) (a : ResourceAllocationInput) (e : StateError) : Prop :=
  (unknown_name d (ai_allocation_name a)
     ∧ (e = ResourceAllocationGeneratedNameCollision r track (ai_generated_name a)
          ∧ in_the_way d l (ai_allocation_name a) (ai_generated_name a)
        ∨ e = Sqlite (InvalidColumnType "next_number") ∧ ids_run_out d (length l)))
  ∨ ∃ i row, resource_allocations d !! i = Some row ∧ a_project_id row = p ∧ a_resource_name row = r
      ∧ a_allocation_name row = ai_allocation_name a
      ∧ e = Sqlite (UniqueViolation "resource_allocations.resource_name, track, generated_name")
      ∧ in_the_way d l (ai_allocation_name a) (a_generated_name row).

Lemma unknown_name_eq d n : unknown_name d n ↔
  ∀ k row, resource_allocations d !! k = Some row → of_project_resource p r row = true → a_allocation_name row ≠ n.
Proof.
  unfold unknown_name. split; intros Hn k row Hk.
  - intros [? ?]%of_project_resource_true. by apply (Hn k).
  - intros ? ?. apply (Hn k); [done|]. by apply of_project_resource_true.
Qed.

(** A row of the table that is found. *)
Lemma name_in_use k row d l n g : resource_allocations d !! k = Some row → a_resource_name row = r → a_track row = track →
  a_generated_name row = g → ¬ (a_project_id row = p ∧ a_allocation_name row = n) → in_the_way d l n g.
Proof. intros Hk Hr Ht Hg Hn. left. exists k, row. by split_and!; [..|left|]. Qed.

Lemma kept_status_eq rec row : allocation_of (al_id rec) row rec →
  (if bool_decide (al_track rec = track) && bool_decide (al_status rec = AllocationReady)
   then AllocationReady else AllocationDesired) = kept_status row.
Proof.
  intros (_ & _ & _ & Ht & _ & _ & Hs). unfold kept_status. rewrite Ht, <-Hs.
  destruct (decide (a_track row = track ∧ as_str (al_status rec) = as_str AllocationReady)) as [[-> Hr]|Hno].
  - apply as_str_inj in Hr. by rewrite Hr, !bool_decide_eq_true_2.
  - case_bool_decide as H1; [|done]. case_bool_decide as H2; [|done].
    destruct Hno. by rewrite H2.
Qed.

Lemma replace_step_spec d ex a : allocations_wf d → is_Some (projects d !! p) →
  is_identity r = true → concrete_track track → wanted_ok a → existing_at d ex (ai_allocation_name a) →
  match replace_allocation_step p r track now ex d a with
  | Ok d' => ∃ i row', d' = set_resource_allocations (<[i := row']>) d ∧ written d a i row'
      ∧ allocations_wf d' ∧ (resource_allocations d !! i = None → next_resource_allocation_id d = Ok i)
  | Err e => step_error d [a] a e
  end.
Proof.
  intros Hwf Hp Hr Ht [Hn Hg] Hex. unfold replace_allocation_step, existing_at in *.
  destruct (ex !! ai_allocation_name a) as [rec|].
  - destruct Hex as (row & Hrow & Hof & Hname & Hrec).
    rewrite (kept_status_eq rec row Hrec). unfold update_allocation_track. rewrite Hrow.
    destruct (generated_name_taken _ _ _ _ d) eqn:Hfree.
    { apply of_project_resource_true in Hof as [Hpr1 Hpr2]. right. exists (al_id rec), row. split_and!; [done..|].
      apply (generated_name_used (al_id rec)) in Hfree as (k & s & Hs & Hk & Hres & Htr & Hgen). apply (name_in_use k s); [done|congruence|done|done|].
      intros [? ?]. apply Hk, (aw_name d Hwf k (al_id rec) s row); congruence. }
    rewrite generated_name_free in Hfree.
    exists (al_id rec), (retracked track (as_str (kept_status row)) now row).
    split; [done|]. split; [left; by exists row|]. split; [|by rewrite Hrow].
    apply allocations_wf_insert; [done|exact (aw_project d Hwf _ row Hrow)| | |].
    + apply retracked_readable; [done|]. exact (aw_readable d Hwf _ row Hrow).
    + intros k s Hs Hk E1 E2 E3. by apply Hk, (aw_name d Hwf k (al_id rec) s row).
    + intros k s Hs Hk E1 E2. by apply (Hfree k s).
  - assert (unknown_name d (ai_allocation_name a)) as Hun by by apply unknown_name_eq.
    destruct (resource_allocation_generated_name_exists _ _ _ d) eqn:Hgen.
    { left. split; [done|]. left. split; [done|]. apply generated_name_exists_row in Hgen as (k & s & Hs & Hres & Htr & Hg').
      apply (name_in_use k s); [done..|]. intros [? ?]. by apply (Hun k s). }
    pose proof Hgen as Hfree. rewrite generated_name_unused in Hfree.
    unfold next_resource_allocation_id. destruct (next_id _ _) as [i|e] eqn:Hi; cbn [mbind result_bind].
    2: { left. split; [done|]. right. unfold next_id in Hi. destruct (N.ltb_spec (max_number "allocation_" (map_to_list (resource_allocations d)).*1) I64_MAX); [done|].
         injection Hi as <-. split; [done|]. unfold ids_run_out. lia. }
    pose proof Hi as Hnext.
    apply next_id_fresh in Hi as (Hi & _).
    assert (resource_allocations d !! i = None) as Hnone.
    { apply eq_None_not_Some. intros [row Hrow]. apply Hi. apply list_elem_of_fmap. exists (i, row).
      by rewrite elem_of_map_to_list. }
    unfold insert_allocation. simpl. rewrite Hnone. simpl.
    rewrite (proj2 (allocation_name_unused p r (ai_allocation_name a) d)) by exact Hex.
    rewrite Hgen. destruct Hp as [pr Hp]. rewrite Hp. simpl.
    exists i, (new_allocation p r track now a). split; [done|]. split; [by right|]. split; [|done].
    apply allocations_wf_insert; [done|by exists pr|by apply new_allocation_readable| |].
    + intros k s Hs _ E1 E2. apply (Hex k s Hs). by apply of_project_resource_true.
    + intros k s Hs _ E1 E2. by apply (Hfree k s).
Qed.

(** The rows of the project and resource that one of the names picks. *)
Definition targeted (names : list string) (row : AllocationRow) : Prop :=
  of_project_resource p r row = true ∧ a_allocation_name row ∈ names.

(** After inserting a written row, the other names are as they were. *)
Lemma existing_at_insert d ex i row' a n : written d a i row' → n ≠ ai_allocation_name a →
  existing_at d ex n → existing_at (set_resource_allocations (<[i := row']>) d) ex n.
Proof.
  intros Hw Hne. destruct (written_name d a i row' Hw) as (_ & Hname & _).
  unfold existing_at. simpl. destruct (ex !! n) as [rec|].
  - intros (row & Hrow & Hof & Hn & Hrec). exists row. rewrite lookup_insert_ne; [done|].
    intros Heq. destruct Hw as [(row0 & Hrow0 & _ & Hn0 & _)|(_ & Hno & _)]; congruence.
  - intros Hno j row [[<- <-]|[_ Hj]]%lookup_insert_Some Hof; [congruence|by eapply Hno].
Qed.

Lemma written_before d a i row' b j row'' : allocations_wf d → written d a i row' →
  ai_allocation_name b ≠ ai_allocation_name a →
  written (set_resource_allocations (<[i := row']>) d) b j row'' → written d b j row''.
Proof.
  intros Hwf Hw Hne. destruct (written_name d a i row' Hw) as (_ & Hname & _).
  intros [(row & Hrow & Hof & Hn & ->)|(Hno & Hj & ->)]; simpl in *.
  - apply lookup_insert_Some in Hrow as [[<- <-]|[_ Hrow]]; [congruence|]. left. by exists row.
  - apply lookup_insert_None in Hj as [Hj Hij]. right. split; [|done].
    intros k row Hk Hof Hn. destruct (decide (k = i)) as [->|Hki].
    + destruct Hw as [(row0 & Hrow0 & _ & Hn0 & _)|(_ & Hnone & _)]; congruence.
    + apply (Hno k row); [by rewrite lookup_insert_ne|done|done].
Qed.

(** What was in the way of a step was so before, or is one of the allocations that are wanted. *)
Lemma in_the_way_more d l l' n g : l ⊆ l' → in_the_way d l n g → in_the_way d l' n g.
Proof.
  intros Hl [(k & row & ? & ? & ? & [?|[? (b & Hn & Hb)%list_elem_of_fmap]] & ?)|(b & Hb & ?)].
  - left. exists k, row. by split_and!; [..|left|].
  - left. exists k, row. split_and!; [done..| |done]. right. split; [done|]. apply list_elem_of_fmap. exists b. split; [done|by apply Hl].
  - right. exists b. split; [by apply Hl|done].
Qed.

Lemma step_error_more d l l' a e : l ⊆ l' → length l ≤ length l' → step_error d l a e → step_error d l' a e.
Proof.
  intros Hl Hlen [(Hu & [[-> Hw]|[-> Hi]])|(i & row & ? & ? & ? & ? & -> & Hw)].
  - left. split; [done|]. left. split; [done|]. by apply (in_the_way_more d l).
  - left. split; [done|]. right. split; [done|]. unfold ids_run_out in *. lia.
  - right. exists i, row. split_and!; [done..|]. by apply (in_the_way_more d l).
Qed.

Lemma in_the_way_before d a l i row' n g : written d a i row' → n ≠ ai_allocation_name a →
  in_the_way (set_resource_allocations (<[i := row']>) d) l n g → in_the_way d (a :: l) n g.
Proof.
  intros Hw Hne. destruct (written_name d a i row' Hw) as ([Hp' Hr']%of_project_resource_true & Hname & Htr).
  intros [(k & row & Hk & Hres & Hgen & Hwhere & Hnot)|(b & Hb & Hbn & Hbg & Hun)].
  - simpl in Hk. apply lookup_insert_Some in Hk as [[<- <-]|[Hik Hk]].
    + destruct Hw as [(row0 & Hrow0 & Hof0 & Hn0 & ->)|(Hno & Hnone & ->)].
      * left. exists i, row0. apply of_project_resource_true in Hof0 as [Hp0 Hr0]. split_and!; [done..| |].
        -- right. split; [done|]. rewrite Hn0. by left.
        -- intros [_ ?]. congruence.
      * right. exists a. split_and!; [by left|done|done|]. by apply unknown_name_eq.
    + left. exists k, row. split_and!; [done..| |done]. destruct Hwhere as [?|[? ?]]; [by left|]. right. split; [done|by right].
  - destruct (decide (ai_allocation_name b = ai_allocation_name a)) as [Heq|Hneq].
    + exfalso. apply (Hun i row'); [apply lookup_insert_eq|done|done|congruence].
    + right. exists b. split_and!; [by right|done|done|]. intros k row Hk Hpk Hrk Hnk.
      destruct (decide (k = i)) as [->|Hki]; [|by apply (Hun k row); [simpl; rewrite lookup_insert_ne|..]].
      destruct Hw as [(row0 & Hrow0 & _ & Hn0 & _)|(_ & Hnone & _)]; congruence.
Qed.

Lemma ids_of_rows (m1 m2 : gmap string AllocationRow) : dom m1 = dom m2 → (map_to_list m1).*1 ≡ₚ (map_to_list m2).*1.
Proof.
  intros Hd. apply NoDup_Permutation; [apply NoDup_fst_map_to_list..|]. intros k.
  assert (∀ m : gmap string AllocationRow, k ∈ (map_to_list m).*1 ↔ k ∈ dom m) as Hk; [|by rewrite !Hk, Hd].
  intros m. rewrite list_elem_of_fmap, elem_of_dom. split.
  - intros ([k' row] & -> & Hin%elem_of_map_to_list). by eexists.
  - intros [row Hrow]. exists (k, row). by rewrite elem_of_map_to_list.
Qed.

Lemma ids_run_out_before d a l i row' : written d a i row' → (resource_allocations d !! i = None → next_resource_allocation_id d = Ok i) →
  ids_run_out (set_resource_allocations (<[i := row']>) d) (length l) → ids_run_out d (length (a :: l)).
Proof.
  unfold ids_run_out. intros Hw Hnext. simpl resource_allocations.
  destruct Hw as [(row0 & Hrow0 & _)|(_ & Hnone & _)].
  - rewrite (max_number_perm _ _ (map_to_list (resource_allocations d)).*1); [simpl; lia|]. apply ids_of_rows.
    rewrite dom_insert_L. apply elem_of_dom_2 in Hrow0. set_solver.
  - specialize (Hnext Hnone). unfold next_resource_allocation_id, next_id in Hnext.
    destruct (N.ltb_spec (max_number "allocation_" (map_to_list (resource_allocations d)).*1) I64_MAX) as [Hlt|]; [|done].
    assert (id_number "allocation_" i = Some (max_number "allocation_" (map_to_list (resource_allocations d)).*1 + 1)%N) as Hi
      by (injection Hnext as <-; exact (id_number_padded "allocation_" (max_number "allocation_" (map_to_list (resource_allocations d)).*1 + 1) ltac:(lia))).
    rewrite (max_number_perm _ _ _ (fmap_Permutation fst _ _ (map_to_list_insert _ _ _ Hnone))). cbn [fmap list_fmap fst].
    unfold max_number at 1. cbn [foldr]. fold (max_number "allocation_" (map_to_list (resource_allocations d)).*1).
    rewrite Hi. simpl length. lia.
Qed.

Lemma step_error_before d a l i row' b e : allocations_wf d → written d a i row' →
  (resource_allocations d !! i = None → next_resource_allocation_id d = Ok i) → ai_allocation_name b ≠ ai_allocation_name a →
  step_error (set_resource_allocations (<[i := row']>) d) l b e → step_error d (a :: l) b e.
Proof.
  intros Hwf Hw Hnext Hne. destruct (written_name d a i row' Hw) as ([Hp' Hr']%of_project_resource_true & Hname & _).
  intros [(Hu & Hcase)|(j & row & Hj & Hpj & Hrj & Hnj & -> & Hway)].
  - left. split.
    + intros k row Hk Hpk Hrk Hnk. destruct (decide (k = i)) as [->|Hki]; [|by apply (Hu k row); [simpl; rewrite lookup_insert_ne|..]].
      destruct Hw as [(row0 & Hrow0 & _ & Hn0 & _)|(_ & Hnone & _)]; congruence.
    + destruct Hcase as [[-> Hway]|[-> Hrun]]; [left|right]; (split; [done|]); [by apply (in_the_way_before d a l i row')|].
      by apply (ids_run_out_before d a l i row').
  - right. simpl in Hj. apply lookup_insert_Some in Hj as [[<- <-]|[Hij Hj]]; [congruence|]. exists j, row.
    split_and!; [done..|]. by apply (in_the_way_before d a l i row').
Qed.

Lemma replace_loop_spec ex l d : allocations_wf d → is_Some (projects d !! p) →
  is_identity r = true → concrete_track track → Forall wanted_ok l →
  NoDup (ai_allocation_name <$> l) → (∀ n, n ∈ ai_allocation_name <$> l → existing_at d ex n) →
  match try_fold (replace_allocation_step p r track now ex) l d with
  | Ok d' => ∃ m, d' = set_resource_allocations (λ _, m) d ∧ allocations_wf d'
      ∧ (∀ a, a ∈ l → ∃ i row', m !! i = Some row' ∧ written d a i row')
      ∧ (∀ i row, resource_allocations d !! i = Some row →
           ¬ targeted (ai_allocation_name <$> l) row → m !! i = Some row)
      ∧ (∀ i row, m !! i = Some row → resource_allocations d !! i = Some row
           ∨ ∃ a, a ∈ l ∧ written d a i row)
  | Err e => ∃ a, a ∈ l ∧ step_error d l a e
  end.
Proof.
  intros Hwf Hp Hr Ht. revert d Hwf Hp.
  induction l as [|a l IH]; intros d Hwf Hp Hall Hnd Hex; cbn [try_fold].
  { exists (resource_allocations d). split; [by destruct d|]. split; [done|]. split_and!.
    - by intros a Ha%not_elem_of_nil. - done. - by left. }
  apply Forall_cons in Hall as [Ha Hall]. rewrite fmap_cons in Hnd, Hex.
  apply NoDup_cons in Hnd as [Hna Hnd].
  assert (existing_at d ex (ai_allocation_name a)) as Hexa by (apply Hex; by left).
  pose proof (replace_step_spec d ex a Hwf Hp Hr Ht Ha Hexa) as Hstep.
  destruct (replace_allocation_step p r track now ex d a) as [d1|e]; cbn [mbind result_bind];
    [|exists a; split; [by left|]; apply (step_error_more d [a]); [set_solver|simpl; lia|done]].
  destruct Hstep as (i & row' & -> & Hw & Hwf1 & Hnext). set (d1 := set_resource_allocations _ d) in *.
  assert (∀ b, b ∈ l → ai_allocation_name b ≠ ai_allocation_name a) as Hother.
  { intros b Hb Heq. apply Hna. rewrite <-Heq. apply list_elem_of_fmap. by exists b. }
  specialize (IH d1 Hwf1 Hp Hall Hnd).
  assert (∀ n, n ∈ ai_allocation_name <$> l → existing_at d1 ex n) as Hex1.
  { intros n Hn. apply (existing_at_insert d ex i row' a n Hw).
    - intros ->. done. - apply Hex. by right. }
  specialize (IH Hex1). destruct (try_fold _ l d1) as [d2|e].
  2: { destruct IH as (b & Hb & He). exists b. split; [by right|]. by apply (step_error_before d a l i row' b e Hwf Hw Hnext (Hother b Hb)). }
  destruct IH as (m & -> & Hwf2 & Hin & Hkeep & Honly). exists m. split; [done|]. split; [done|].
  destruct (written_name d a i row' Hw) as (Hof' & Hname' & _). split_and!.
  - intros b [->|Hb]%elem_of_cons.
    + exists i, row'. split; [|done]. apply Hkeep; [apply lookup_insert_eq|]. intros [_ Hin'].
      by rewrite Hname' in Hin'.
    + destruct (Hin b Hb) as (j & row'' & Hj & Hwb). exists j, row''. split; [done|].
      apply (written_before d a i row' b j row'' Hwf Hw); [by apply Hother|done].
  - intros j row Hj Hnt. rewrite fmap_cons in Hnt. apply Hkeep.
    + simpl. rewrite lookup_insert_ne; [done|]. intros ->. apply Hnt.
      destruct Hw as [(row0 & Hrow0 & Hof0 & Hn0 & _)|(_ & Hnone & _)]; [|congruence].
      assert (row0 = row) as <- by congruence. split; [done|]. rewrite Hn0. by left.
    + intros [Hof Hin']. apply Hnt. split; [done|]. by right.
  - intros j row Hj. destruct (Honly j row Hj) as [Hd1|(b & Hb & Hwb)].
    + simpl in Hd1. apply lookup_insert_Some in Hd1 as [[<- <-]|[_ Hd]]; [|by left].
      right. exists a. split; [by left|done].
    + right. exists b. split; [by right|].
      apply (written_before d a i row' b j row Hwf Hw); [by apply Hother|done].
Qed.
End replacing.

(** *** The unwanted allocations *)

Definition dropped (desired : list string) (now : string) (row : AllocationRow) : AllocationRow :=
  if decide (a_allocation_name row ∈ desired ∨ a_status row = as_str AllocationInactive)
  then row else deactivated now row.

Lemma deactivated_twice now row : deactivated now (deactivated now row) = deactivated now row.
Proof. done. Qed.

(** Deactivating the rows a list of records names. *)
Definition drops (desired : list string) (i : string) (rec : ResourceAllocationRecord) : bool :=
  bool_decide (al_id rec = i) && negb (bool_decide (al_allocation_name rec ∈ desired))
  && negb (bool_decide (al_status rec = AllocationInactive)).

Lemma deactivate_loop_spec desired now l d :
  ∃ m, foldl (deactivate_step desired now) d l = set_resource_allocations (λ _, m) d
    ∧ ∀ i, m !! i = if existsb (drops desired i) l then deactivated now <$> resource_allocations d !! i
                    else resource_allocations d !! i.
Proof.
  revert d. induction l as [|rec l IH]; intros d; simpl.
  - exists (resource_allocations d). split; [by destruct d|done].
  - destruct (IH (deactivate_step desired now d rec)) as (m & Hm & Hl). exists m.
    unfold deactivate_step, drops in *.
    destruct (bool_decide (al_allocation_name rec ∈ desired)),
      (bool_decide (al_status rec = AllocationInactive)); simpl in *;
      (split; [done|]); intros i; rewrite Hl, ?andb_false_r; [done..|]. rewrite !andb_true_r.
    case_bool_decide as Hi; simpl; [subst i|by rewrite lookup_alter_ne].
    rewrite lookup_alter_eq. case_match; [|done]. by destruct (resource_allocations d !! al_id rec).
Qed.

(** *** The map of existing allocations *)

Lemma foldl_insert_lookup {A B} (f : A → string) (g : A → B) l k x : NoDup (f <$> l) →
  foldl (λ m a, <[f a := g a]> m) (∅ : gmap string B) l !! k = Some x ↔
  ∃ a, a ∈ l ∧ f a = k ∧ g a = x.
Proof.
  induction l as [|a l IH] using rev_ind; intros Hnd.
  - simpl. split; [done|]. by intros (a & ?%not_elem_of_nil & _).
  - rewrite fmap_app in Hnd. apply NoDup_app in Hnd as (Hnd & Hdis & _). rewrite foldl_snoc.
    assert (∀ b, b ∈ l → f b ≠ f a) as Hne.
    { intros b Hb Heq. apply (Hdis (f b)); [apply list_elem_of_fmap; by exists b|]. rewrite Heq. by left. }
    rewrite lookup_insert_Some, IH by done. setoid_rewrite elem_of_app.
    setoid_rewrite list_elem_of_singleton. split.
    + intros [[<- <-]|[Hk (b & ? & ? & ?)]]; [exists a; auto|exists b; auto].
    + intros (b & [Hb| ->] & <- & <-); [|by left]. right. split; [|by exists b].
      intros Heq. by apply (Hne b).
Qed.

Section existing.
Context `{JsonLaws} (d : Db) (Hwf : allocations_wf d) (p r : string).

Lemma list_allocations_spec :
  ∃ l, list_resource_allocations p r d = Ok l
    ∧ (∀ rec, rec ∈ l ↔ ∃ i row, resource_allocations d !! i = Some row
         ∧ of_project_resource p r row = true ∧ allocation_into_record i row = Ok rec)
    ∧ StronglySorted (le_on al_allocation_name) l ∧ NoDup (al_allocation_name <$> l).
Proof.
  destruct (select_allocations_spec (of_project_resource p r) d (aw_readable d Hwf))
    as (l & Hl & Hin & Hs & Hnd). exists l. split; [exact Hl|]. split; [done|]. split; [done|].
  apply NoDup_fmap_2_strong; [|by apply (NoDup_fmap_1 al_id)].
  intros x y (i & row & Hi & Hof & Hr)%Hin (j & row' & Hj & Hof' & Hr')%Hin Heq.
  pose proof Hr as Hx. pose proof Hr' as Hy.
  apply allocation_read_inv in Hr as (_ & (_ & _ & _ & _ & Hn & _) & _).
  apply allocation_read_inv in Hr' as (_ & (_ & _ & _ & _ & Hn' & _) & _).
  apply of_project_resource_true in Hof as [Hp Hrn]. apply of_project_resource_true in Hof' as [Hp' Hrn'].
  assert (i = j) as -> by (apply (aw_name d Hwf i j row row'); congruence). congruence.
Qed.

Definition existing_map (l : list ResourceAllocationRecord) : gmap string ResourceAllocationRecord :=
  foldl (λ m a, <[al_allocation_name a := a]> m) ∅ l.

Lemma existing_map_spec l n :
  (∀ rec, rec ∈ l ↔ ∃ i row, resource_allocations d !! i = Some row
     ∧ of_project_resource p r row = true ∧ allocation_into_record i row = Ok rec) →
  NoDup (al_allocation_name <$> l) → existing_at p r d (existing_map l) n.
Proof.
  intros Hin Hnd. unfold existing_at. destruct (existing_map l !! n) as [rec|] eqn:Hrec.
  - apply (foldl_insert_lookup al_allocation_name (λ a, a)) in Hrec as (rec' & Hr & Hn & ->); [|done].
    apply Hin in Hr as (i & row & Hi & Hof & Hr). apply allocation_read_inv in Hr as (_ & Hr & _).
    pose proof Hr as (<- & _ & _ & _ & Hnm & _). exists row. by rewrite <-Hnm.
  - intros i row Hi Hof Hn. destruct (allocation_read i row) as (rec & Hr & Hof' & _);
      [by apply (aw_readable d Hwf i)|].
    assert (existing_map l !! n = Some rec) as Hsome; [|congruence].
    apply (foldl_insert_lookup al_allocation_name (λ a, a)); [done|]. exists rec.
    split; [apply Hin; by exists i, row|]. split; [|done]. rewrite <-Hn. apply Hof'.
Qed.
End existing.

(** *** The wanted allocations *)

Lemma allocation_group_fold l names names' :
  try_fold allocation_group_step l names = Ok names' →
  Forall wanted_ok l ∧ NoDup (ai_allocation_name <$> l) ∧ NoDup (ai_generated_name <$> l)
  ∧ (∀ a, a ∈ l → (ai_allocation_name a ∉ names.1) ∧ ai_generated_name a ∉ names.2).
Proof.
  revert names. induction l as [|a l IH]; intros names; cbn [try_fold].
  { intros _. split_and!; [constructor..|]. by intros a ?%not_elem_of_nil. }
  destruct (allocation_group_step names a) as [names1|] eqn:Hstep; [|done]. cbn [mbind result_bind].
  unfold allocation_group_step in Hstep.
  destruct (validate_resource_allocation_name (ai_allocation_name a)) as [[]|] eqn:Hn; [|done].
  cbn [mbind result_bind] in Hstep.
  destruct (validate_resource_allocation_identity "generated name" (ai_generated_name a)) as [[]|] eqn:Hg;
    [|done]. cbn [mbind result_bind] in Hstep. apply validate_allocation_identity_ok in Hg.
  case_bool_decide as H1; [done|]. case_bool_decide as H2; [done|]. injection Hstep as <-.
  intros (Hall & Hnd1 & Hnd2 & Hfresh)%IH. rewrite !fmap_cons. split_and!.
  - by constructor.
  - constructor; [|done]. intros (b & Heq & Hb)%list_elem_of_fmap.
    destruct (Hfresh b Hb) as [Hno _]. apply Hno. simpl. rewrite <-Heq. set_solver.
  - constructor; [|done]. intros (b & Heq & Hb)%list_elem_of_fmap.
    destruct (Hfresh b Hb) as [_ Hno]. apply Hno. simpl. rewrite <-Heq. set_solver.
  - intros b [->|Hb]%elem_of_cons; [done|]. destruct (Hfresh b Hb) as [Hf1 Hf2]. simpl in *. set_solver.
Qed.

(** The groups that are accepted. *)
Definition acceptable_group (r track : string) (l : list ResourceAllocationInput) : Prop :=
  is_identity r = true ∧ concrete_track track ∧ Forall wanted_ok l
  ∧ NoDup (ai_allocation_name <$> l) ∧ NoDup (ai_generated_name <$> l).

Lemma allocation_group_accepts l names : Forall wanted_ok l → NoDup (ai_allocation_name <$> l) → NoDup (ai_generated_name <$> l) →
  (∀ a, a ∈ l → (ai_allocation_name a ∉ names.1) ∧ ai_generated_name a ∉ names.2) →
  is_ok (try_fold allocation_group_step l names) = true.
Proof.
  revert names. induction l as [|a l IH]; intros names Hok Hn Hg Hf; [done|]. cbn [try_fold].
  apply Forall_cons in Hok as [[Ha1 Ha2] Hok]. rewrite fmap_cons in Hn, Hg. apply NoDup_cons in Hn as [Hn1 Hn], Hg as [Hg1 Hg].
  assert (allocation_group_step names a = Ok ({[ai_allocation_name a]} ∪ names.1, {[ai_generated_name a]} ∪ names.2)) as ->.
  { unfold allocation_group_step. rewrite Ha1. cbn [mbind result_bind]. apply (validate_allocation_identity_ok "generated name") in Ha2.
    rewrite Ha2. cbn [mbind result_bind]. destruct (Hf a ltac:(by left)) as [Hf1 Hf2]. by rewrite !bool_decide_eq_false_2. }
  cbn [mbind result_bind].
  apply IH; [done..|]. intros b Hb. destruct (Hf b ltac:(by right)) as [Hb1 Hb2]. cbn [fst snd].
  rewrite !elem_of_union, !elem_of_singleton. split; intros [Heq|?]; try done; [apply Hn1|apply Hg1]; rewrite <-Heq; apply list_elem_of_fmap; by exists b.
Qed.

Lemma validate_group_ok r track l : validate_resource_allocation_group r track l = Ok tt ↔ acceptable_group r track l.
Proof.
  unfold validate_resource_allocation_group, acceptable_group. split.
  - destruct (validate_resource_allocation_identity "resource" r) as [[]|] eqn:Hr; [|done].
    cbn [mbind result_bind]. apply validate_allocation_identity_ok in Hr.
    destruct (validate_concrete_track track) as [[]|] eqn:Ht; [|done]. cbn [mbind result_bind].
    apply validate_concrete_track_ok in Ht.
    destruct (try_fold allocation_group_step l (∅, ∅)) as [names|] eqn:Hf; [|done]. intros _.
    apply allocation_group_fold in Hf as (? & ? & ? & _). done.
  - intros (Hr & Ht & Hok & Hn & Hg). apply (validate_allocation_identity_ok "resource") in Hr. apply validate_concrete_track_ok in Ht.
    rewrite Hr, Ht. cbn [mbind result_bind]. pose proof (allocation_group_accepts l (∅, ∅) Hok Hn Hg) as Hf.
    destruct (try_fold allocation_group_step l (∅, ∅)); [done|]. discriminate Hf. intros a _. by split; apply not_elem_of_empty.
Qed.

(** *** The whole replacement *)

Section outcome.
Context `{JsonLaws} (p r track now : string) (allocations : list ResourceAllocationInput).
Let desired : list string := ai_allocation_name <$> allocations.

(** What a successful replacement promises. *)
Record allocations_replaced (d : Db) (records : list ResourceAllocationRecord) (d' : Db) : Prop := {
  ar_wf : allocations_wf d';
  ar_frame : ∃ m, d' = set_resource_allocations (λ _, m) d;
  ar_wanted : ∀ a, a ∈ allocations →
    ∃ i row', resource_allocations d' !! i = Some row' ∧ written p r track now d a i row';
  ar_others : ∀ i row, resource_allocations d !! i = Some row → of_project_resource p r row = false →
    resource_allocations d' !! i = Some row;
  ar_unwanted : ∀ i row, resource_allocations d !! i = Some row → of_project_resource p r row = true →
    a_allocation_name row ∉ desired → resource_allocations d' !! i = Some (dropped desired now row);
  ar_only : ∀ i row', resource_allocations d' !! i = Some row' →
    is_Some (resource_allocations d !! i) ∨ ∃ a, a ∈ allocations ∧ row' = new_allocation p r track now a;
  ar_records : ∀ rec, rec ∈ records ↔ ∃ i row, resource_allocations d' !! i = Some row
    ∧ of_project_resource p r row = true ∧ a_allocation_name row ∈ desired
    ∧ allocation_into_record i row = Ok rec;
  ar_sorted : StronglySorted (le_on al_allocation_name) records;
}.

Lemma wf_after_drops d d2 : allocations_wf d → projects d2 = projects d →
  (∀ i row2, resource_allocations d2 !! i = Some row2 → ∃ row1, resource_allocations d !! i = Some row1
     ∧ (row2 = row1 ∨ row2 = deactivated now row1)) → allocations_wf d2.
Proof.
  intros Hwf Hp Hd.
  assert (∀ i row2, resource_allocations d2 !! i = Some row2 → ∃ row1, resource_allocations d !! i = Some row1
    ∧ a_project_id row2 = a_project_id row1 ∧ a_resource_name row2 = a_resource_name row1
    ∧ a_track row2 = a_track row1 ∧ a_allocation_name row2 = a_allocation_name row1
    ∧ a_generated_name row2 = a_generated_name row1 ∧ allocation_readable row2) as Hrow.
  { intros i row2 Hi. destruct (Hd i row2 Hi) as (row1 & H1 & [->| ->]); exists row1.
    - split_and!; try done. by apply (aw_readable d Hwf i).
    - split_and!; try done. apply (retracked_readable (a_track row1) AllocationInactive now row1).
      + destruct (aw_readable d Hwf i row1 H1) as (_ & ? & _). done.
      + by apply (aw_readable d Hwf i). }
  split.
  - intros i row (row1 & H1 & -> & _)%Hrow. rewrite Hp. by apply (aw_project d Hwf i).
  - intros i j x y (x1 & Hx & -> & -> & _ & -> & _)%Hrow (y1 & Hy & -> & -> & _ & -> & _)%Hrow.
    by apply (aw_name d Hwf).
  - intros i j x y (x1 & Hx & _ & -> & -> & _ & -> & _)%Hrow (y1 & Hy & _ & -> & -> & _ & -> & _)%Hrow.
    by apply (aw_generated d Hwf).
  - by intros i row (row1 & _ & _ & _ & _ & _ & _ & ?)%Hrow.
Qed.

(** Which rows the records of the existing allocations deactivate. *)
Lemma drops_existing d l i : allocations_wf d →
  (∀ rec, rec ∈ l ↔ ∃ i row, resource_allocations d !! i = Some row
     ∧ of_project_resource p r row = true ∧ allocation_into_record i row = Ok rec) →
  NoDup (al_allocation_name <$> l) →
  existsb (drops desired i) (snd <$> btree_iter (existing_map l)) = true ↔
  ∃ row, resource_allocations d !! i = Some row ∧ of_project_resource p r row = true
    ∧ (a_allocation_name row ∉ desired) ∧ a_status row ≠ as_str AllocationInactive.
Proof.
  intros Hwf Hin Hnd.
  assert (∀ rec, rec ∈ (snd <$> btree_iter (existing_map l)) ↔ rec ∈ l) as Hvals.
  { intros rec. rewrite list_elem_of_fmap. split.
    - intros ([n rec'] & -> & Hb%elem_of_btree_iter).
      apply (foldl_insert_lookup al_allocation_name (λ a, a)) in Hb as (a & Ha & _ & <-); done.
    - intros Hrec. exists (al_allocation_name rec, rec). split; [done|]. apply elem_of_btree_iter.
      apply (foldl_insert_lookup al_allocation_name (λ a, a)); [done|]. by exists rec. }
  rewrite existsb_exists. setoid_rewrite <-list_elem_of_In. setoid_rewrite Hvals. unfold drops. split.
  - intros (rec & (j & row & Hj & Hof & Hr)%Hin & Hd). split_bools. subst i.
    apply allocation_read_inv in Hr as (_ & (-> & _ & _ & _ & Hn & _ & Hs) & _).
    exists row. rewrite <-Hn, <-Hs. split_and!; [done|done|done|]. by intros ?%as_str_inj.
  - intros (row & Hi & Hof & Hn & Hs).
    destruct (allocation_read i row) as (rec & Hr & (Hid & _ & _ & _ & Hn' & _ & Hs') & _);
      [by apply (aw_readable d Hwf i)|].
    exists rec. split; [apply Hin; by exists i, row|].
    rewrite Hn', Hid, (bool_decide_eq_true_2 (i = i)), (bool_decide_eq_false_2 (a_allocation_name row ∈ desired)) by done.
    simpl. apply negb_true_iff, bool_decide_eq_false. intros Heq. apply Hs. by rewrite <-Hs', Heq.
Qed.

(** Once the wanted rows are written ([m1]) and the dropped ones deactivated ([m2]). *)
Section settled.
Variables (d : Db) (l : list ResourceAllocationRecord) (m1 m2 : gmap string AllocationRow).
Hypotheses (Hwf : allocations_wf d)
  (Hin : ∀ rec, rec ∈ l ↔ ∃ i row, resource_allocations d !! i = Some row
     ∧ of_project_resource p r row = true ∧ allocation_into_record i row = Ok rec)
  (Hnd : NoDup (al_allocation_name <$> l))
  (Hm2 : ∀ i, m2 !! i = if existsb (drops desired i) (snd <$> btree_iter (existing_map l)) then deactivated now <$> m1 !! i else m1 !! i).

Lemma settled_same i row : m1 !! i = Some row → (∀ row', resource_allocations d !! i = Some row' →
    of_project_resource p r row' = true → a_allocation_name row' ∈ desired) → m2 !! i = Some row.
Proof.
  intros Hi Hno. rewrite Hm2. case_match eqn:Hb; [|done].
  apply (drops_existing d l i Hwf Hin Hnd) in Hb as (row' & Hrow' & Hof' & Hn & _). by destruct Hn; apply Hno.
Qed.

Lemma settled_written i a row' : a ∈ allocations → m1 !! i = Some row' → written p r track now d a i row' → m2 !! i = Some row'.
Proof.
  intros Ha Hi Hw. apply settled_same; [done|]. intros row Hrow Hof.
  destruct Hw as [(row0 & Hrow0 & _ & Hn0 & _)|(_ & Hnone & _)]; [|congruence].
  assert (row0 = row) as -> by congruence. rewrite Hn0. apply list_elem_of_fmap. by exists a.
Qed.

Lemma settled_unwanted i row : m1 !! i = Some row → resource_allocations d !! i = Some row → of_project_resource p r row = true →
  a_allocation_name row ∉ desired → m2 !! i = Some (dropped desired now row).
Proof.
  intros H1 Hi Hof Hn. rewrite Hm2, H1. unfold dropped. case_match eqn:Hb.
  - apply (drops_existing d l i Hwf Hin Hnd) in Hb as (row' & Hrow' & _ & _ & Hs). assert (row' = row) as -> by congruence.
    rewrite decide_False by tauto. done.
  - destruct (decide (a_allocation_name row ∈ desired ∨ _)) as [_|Hno]; [done|].
    exfalso. apply not_true_iff_false in Hb. apply Hb, (drops_existing d l i Hwf Hin Hnd). exists row. tauto.
Qed.

Lemma settled_wf : allocations_wf (set_resource_allocations (λ _, m1) d) → allocations_wf (set_resource_allocations (λ _, m2) d).
Proof.
  intros Hwf1. apply (wf_after_drops (set_resource_allocations (λ _, m1) d)); [done|done|]. simpl.
  intros i row2. rewrite Hm2. case_match; [|by eauto]. intros (row1 & Hrow1 & ->)%fmap_Some. eauto.
Qed.

Lemma settled_only i row' : m2 !! i = Some row' →
  is_Some (resource_allocations d !! i) ∨ m1 !! i = Some row'.
Proof.
  rewrite Hm2. case_match eqn:Hb; [|by right].
  apply (drops_existing d l i Hwf Hin Hnd) in Hb as (row & Hrow & _). left. by eexists.
Qed.
End settled.
End outcome.

Lemma replace_allocations_outcome `{JsonLaws} p r track allocations now d :
  allocations_wf d →
  match replace_project_resource_allocations p r track allocations now d with
  | (Ok records, d') => allocations_replaced p r track now allocations d records d'
  | (Err e, d') => d' = d
      ∧ (¬ acceptable_group r track allocations ∨ acceptable_group r track allocations ∧ projects d !! p = None ∧ e = ProjectNotFound p
         ∨ acceptable_group r track allocations ∧ ∃ a, a ∈ allocations ∧ step_error p r track d allocations a e)
  end.
Proof.
  intros Hwf. unfold replace_project_resource_allocations, transact.
  destruct (validate_resource_allocation_group r track allocations) as [[]|e] eqn:Hv; cbn [mbind result_bind];
    [|split; [done|left; intros Hacc; apply validate_group_ok in Hacc; congruence]].
  apply validate_group_ok in Hv as Hacc. pose proof Hacc as (Hr & Ht & Hall & Hnd & _). unfold ensure_project_exists.
  destruct (projects d !! p) as [pr|] eqn:Hp; simpl ensure; cbn [mbind result_bind];
    [|split; [done|right; left; done]].
  destruct (list_allocations_spec d Hwf p r) as (l & -> & Hin & _ & Hndl). cbn [mbind result_bind].
  fold (existing_map l).
  pose proof (replace_loop_spec p r track now (existing_map l) allocations d Hwf) as Hloop.
  rewrite Hp in Hloop.
  specialize (Hloop ltac:(by eexists) Hr Ht Hall Hnd (λ n _, existing_map_spec d Hwf p r l n Hin Hndl)).
  destruct (try_fold _ allocations d) as [d1|e]; cbn [mbind result_bind]; [|split; [done|by right; right]].
  destruct Hloop as (m1 & -> & Hwf1 & Hwant & Hkeep & Honly).
  destruct (deactivate_loop_spec (ai_allocation_name <$> allocations) now
    (snd <$> btree_iter (existing_map l)) (set_resource_allocations (λ _, m1) d)) as (m2 & -> & Hm2).
  simpl in Hm2.
  set (d2 := set_resource_allocations (λ _, m2) _).
  assert (allocations_wf d2) as Hwf2 by (eapply (settled_wf now allocations d l m1); done).
  destruct (list_allocations_spec d2 Hwf2 p r) as (l2 & -> & Hin2 & Hsort2 & _). cbn [mbind result_bind].
  split; [done|by exists m2|..].
  - intros a Ha. destruct (Hwant a Ha) as (i & row' & Hi & Hw). exists i, row'. split; [|done].
    by eapply (settled_written p r track now allocations d l m1 m2).
  - intros i row Hi Hof. eapply (settled_same p r now allocations d l m1 m2); [done..| |congruence].
    apply Hkeep; [done|]. intros [Hof' _]. congruence.
  - intros i row Hi Hof Hn. eapply (settled_unwanted p r now allocations d l m1 m2); [done..| |done|done|done].
    apply Hkeep; [done|]. by intros [_ Hin'].
  - intros i row' Hi. destruct (settled_only p r now allocations d l m1 m2 Hwf Hin Hndl Hm2 i row' Hi) as [?|Hi1]; [by left|].
    destruct (Honly i row' Hi1) as [Hd|(a & Ha & [(row & Hrow & _)|(_ & _ & ->)])]; [left; by eexists|left; by eexists|right; by exists a].
  - intros rec. rewrite list_elem_of_filter, Hin2. split.
    + intros (Hd & i & row & Hi & Hof & Hr'). exists i, row. split_and!; [done|done| |done].
      apply allocation_read_inv in Hr' as (_ & (_ & _ & _ & _ & <- & _) & _). done.
    + intros (i & row & Hi & Hof & Hn & Hr'). split; [|by exists i, row].
      apply allocation_read_inv in Hr' as (_ & (_ & _ & _ & _ & -> & _) & _). done.
  - by apply StronglySorted_filter.
Qed.

(** What the replacement makes of the row of a wanted allocation, of a new one, and of another one
    of the project's, column by column. *)
Definition moved_row (p r track now : string) (row : AllocationRow) : AllocationRow := {|
  a_project_id := p; a_resource_name := r; a_track := track; a_allocation_name := a_allocation_name row;
  a_generated_name := a_generated_name row; a_env_json := a_env_json row;
  a_status := if decide (a_track row = track ∧ a_status row = "ready") then "ready" else "desired";
  a_created_at := a_created_at row; a_updated_at := now |}.
Definition created_row (p r track now : string) (a : ResourceAllocationInput) : AllocationRow := {|
  a_project_id := p; a_resource_name := r; a_track := track; a_allocation_name := ai_allocation_name a;
  a_generated_name := ai_generated_name a; a_env_json := "{}"; a_status := "desired"; a_created_at := now; a_updated_at := now |}.
Definition dropped_row (now : string) (row : AllocationRow) : AllocationRow :=
  if decide (a_status row = "inactive") then row
  else {| a_project_id := a_project_id row; a_resource_name := a_resource_name row; a_track := a_track row;
          a_allocation_name := a_allocation_name row; a_generated_name := a_generated_name row; a_env_json := a_env_json row;
          a_status := "inactive"; a_created_at := a_created_at row; a_updated_at := now |}.

(** C14: Replacing a project's allocations of a resource moves each wanted one that
    exists to the track, keeping its generated name and env and staying ready only
    on the same track, creates the others as desired, deactivates the rest and
    touches no other project's; the tables stay well formed and the wanted
    allocations are returned in order.  A replacement that fails changes nothing, and it fails
    only because its input was invalid, the project does not exist, a generated name is in use on
    the track by another allocation (of the table, or one that is wanted with it), or the numbers
    of the ids run out. *)
Theorem replace_project_resource_allocations_spec `{JsonLaws} p r track allocations now d :
  allocations_wf d →
  let desired := ai_allocation_name <$> allocations in
  match replace_project_resource_allocations p r track allocations now d with
  | (Ok records, d') => allocations_wf d' ∧ (∃ m, d' = set_resource_allocations (λ _, m) d)
      ∧ (∀ a, a ∈ allocations → ∃ i,
           (∃ row, resource_allocations d !! i = Some row ∧ a_project_id row = p ∧ a_resource_name row = r
              ∧ a_allocation_name row = ai_allocation_name a ∧ resource_allocations d' !! i = Some (moved_row p r track now row))
           ∨ unknown_name p r d (ai_allocation_name a) ∧ resource_allocations d !! i = None
             ∧ resource_allocations d' !! i = Some (created_row p r track now a))
      ∧ (∀ i row, resource_allocations d !! i = Some row → a_project_id row = p → a_resource_name row = r →
           a_allocation_name row ∉ desired → resource_allocations d' !! i = Some (dropped_row now row))
      ∧ (∀ i row, resource_allocations d !! i = Some row → ¬ (a_project_id row = p ∧ a_resource_name row = r) →
           resource_allocations d' !! i = Some row)
      ∧ (∀ i row, resource_allocations d' !! i = Some row → resource_allocations d !! i = None →
           ∃ a, a ∈ allocations ∧ row = created_row p r track now a)
      ∧ StronglySorted (le_on al_allocation_name) records
      ∧ (∀ rec, rec ∈ records → ∃ row, resource_allocations d' !! al_id rec = Some row ∧ allocation_of (al_id rec) row rec
           ∧ ∀ context, parse_env_context context (a_env_json row) = Ok (al_env rec))
      ∧ ∀ i, (∃ rec, rec ∈ records ∧ al_id rec = i) ↔ ∃ row, resource_allocations d' !! i = Some row
           ∧ a_project_id row = p ∧ a_resource_name row = r ∧ a_allocation_name row ∈ desired
  | (Err e, d') => d' = d
      ∧ (¬ acceptable_group r track allocations
         ∨ acceptable_group r track allocations ∧ projects d !! p = None ∧ e = ProjectNotFound p
         ∨ acceptable_group r track allocations ∧ ∃ a, a ∈ allocations ∧ step_error p r track d allocations a e)
  end.
Proof.
  intros Hwf. pose proof (replace_allocations_outcome p r track allocations now d Hwf) as Hout. cbn zeta.
  destruct (replace_project_resource_allocations p r track allocations now d) as [[records|e] d']; [|done].
  destruct Hout as [Hwf' Hframe Hwant Hother Hunw Honly Hrec Hsort]. split; [done|]. split; [done|]. split_and!.
  - intros a (i & row' & Hi & [(row & Hrow & Hof & Hn & ->)|(Hno & Hnone & ->)])%Hwant; exists i.
    + apply of_project_resource_true in Hof as [<- <-]. left. exists row. split_and!; [done..|]. rewrite Hi. f_equal.
      unfold moved_row, retracked, kept_status. cbn. by case_decide.
    + right. split; [by apply unknown_name_eq|done].
  - intros i row Hi Hp Hr Hn. rewrite (Hunw i row Hi) by (by apply of_project_resource_true || done). unfold dropped, dropped_row. cbn.
    destruct (decide (a_status row = "inactive")) as [Hs|Hs]; [by rewrite decide_True by by right|].
    by rewrite decide_False by (by intros [?|?]).
  - intros i row Hi Hno. apply Hother; [done|]. apply not_true_iff_false. by intros ?%of_project_resource_true.
  - intros i row Hi Hnone. destruct (Honly i row Hi) as [[? ?]|Ha]; [congruence|exact Ha].
  - done.
  - intros rec (i & row & Hi & _ & _ & Hr)%Hrec. apply allocation_read_inv in Hr as (_ & Hof & Henv). pose proof Hof as (<- & _).
    by exists row.
  - intros i. split.
    + intros (rec & (j & row & Hj & Hof%of_project_resource_true & Hn & Hr)%Hrec & <-). apply allocation_read_inv in Hr as (_ & (-> & _) & _).
      exists row. destruct Hof. by split_and!.
    + intros (row & Hi & Hp & Hr & Hn). destruct (allocation_read i row) as (rec & Hread & (Hid & _) & _); [by apply (aw_readable d' Hwf' i)|].
      exists rec. split; [|done]. apply Hrec. exists i, row. split_and!; [done|by apply of_project_resource_true|done..].
Qed.

(** ** Becoming ready *)

Lemma allocation_matches_true p r track n status row : allocation_matches p r track n status row = true ↔
  of_project_resource p r row = true ∧ a_track row = track ∧ a_allocation_name row = n
  ∧ a_status row = as_str status.
Proof. unfold allocation_matches. rewrite !andb_true_iff, !bool_decide_eq_true. tauto. Qed.

Section ready.
Context `{JsonLaws} (d : Db) (Hwf : allocations_wf d) (p r n : string).

(** At most one row has the key. *)
Lemma by_key_spec i row : resource_allocations d !! i = Some row → of_project_resource p r row = true →
  a_allocation_name row = n → resource_allocation_by_key p r n d = allocation_into_record i row.
Proof.
  intros Hi Hof Hn. unfold resource_allocation_by_key. destruct (List.find _ _) as [[j row']|] eqn:Hf.
  - apply List.find_some in Hf as [Hj%list_elem_of_In%elem_of_map_to_list Hb].
    apply andb_true_iff in Hb as [Hof' Hn'%bool_decide_eq_true].
    apply of_project_resource_true in Hof as [? ?]. apply of_project_resource_true in Hof' as [? ?].
    assert (i = j) as <- by (apply (aw_name d Hwf i j row row'); congruence). congruence.
  - apply (List.find_none _ _) with (x := (i, row)) in Hf.
    + rewrite Hof, (bool_decide_eq_true_2 _ Hn) in Hf. done.
    + by apply list_elem_of_In, elem_of_map_to_list.
Qed.

Lemma matching_rows track status : length (filter (λ '(_, row), allocation_matches p r track n status row = true)
    (map_to_list (resource_allocations d))) = 0 ↔
  ∀ i row, resource_allocations d !! i = Some row → allocation_matches p r track n status row = false.
Proof.
  rewrite length_zero_iff_nil. split.
  - intros Hnil i row Hi. apply not_true_iff_false. intros Hm.
    assert ((i, row) ∈ ([] : list (string * AllocationRow))) as Hin; [|by apply not_elem_of_nil in Hin].
    rewrite <-Hnil, list_elem_of_filter, elem_of_map_to_list. done.
  - intros Hno. apply elem_of_nil_inv. intros [i row] [Hm Hi%elem_of_map_to_list]%list_elem_of_filter.
    by rewrite (Hno i row Hi) in Hm.
Qed.

(** Writing the env of the matching row. *)
Lemma rewrite_matching track status env_json now i row : resource_allocations d !! i = Some row →
  allocation_matches p r track n status row = true →
  set_resource_allocations (fmap (λ row, if allocation_matches p r track n status row
      then with_env (as_str AllocationReady) env_json now row else row)) d
  = set_resource_allocations (<[i := with_env (as_str AllocationReady) env_json now row]>) d.
Proof.
  intros Hi Hm. unfold set_resource_allocations. f_equal. apply map_eq. intros k. rewrite lookup_fmap.
  destruct (decide (i = k)) as [<-|Hne].
  - rewrite lookup_insert_eq, Hi. simpl. by rewrite Hm.
  - rewrite lookup_insert_ne by done. destruct (resource_allocations d !! k) as [s|] eqn:Hk; [|done].
    simpl. destruct (allocation_matches p r track n status s) eqn:Hms; [|done]. exfalso. apply Hne.
    apply allocation_matches_true in Hm as (Hof & _ & Hn & _).
    apply allocation_matches_true in Hms as (Hof' & _ & Hn' & _).
    apply of_project_resource_true in Hof as [? ?]. apply of_project_resource_true in Hof' as [? ?].
    apply (aw_name d Hwf i k row s); congruence.
Qed.

Lemma rewrite_none track status env_json now :
  (∀ i row, resource_allocations d !! i = Some row → allocation_matches p r track n status row = false) →
  set_resource_allocations (fmap (λ row, if allocation_matches p r track n status row
      then with_env (as_str AllocationReady) env_json now row else row)) d = d.
Proof.
  intros Hno. destruct d as [? ? ? ? al ? ? ? ? ? ? ?]. unfold set_resource_allocations. simpl in *. f_equal.
  apply map_eq. intros k. rewrite lookup_fmap. destruct (al !! k) as [s|] eqn:Hk; [|done]. simpl.
  by rewrite (Hno k s).
Qed.
End ready.

(** The checks of an env write. *)
Definition env_write_checks `{Json} (p r track n : string) (env : gmap string string) :
    result StateError string :=
  _ ← validate_resource_allocation_identity "resource" r;
  _ ← validate_concrete_track track;
  _ ← validate_resource_allocation_name n;
  serialize_env_context (allocation_context p r track n) env.

(** What an env write from the status [from] promises. *)
Definition env_write_post `{Json} (from : ResourceAllocationStatus) (p r track n : string)
    (env : gmap string string) (now : string) (d : Db)
    (res : result StateError ResourceAllocationRecord * Db) : Prop :=
  match res with
  | (Ok rec, d') => ∃ i row env_json, resource_allocations d !! i = Some row
      ∧ allocation_matches p r track n from row = true
      ∧ d' = set_resource_allocations (<[i := with_env (as_str AllocationReady) env_json now row]>) d
      ∧ al_id rec = i ∧ al_status rec = AllocationReady ∧ al_env rec = env
      ∧ al_generated_name rec = a_generated_name row ∧ allocations_wf d'
  | (Err e, d') => d' = d
      ∧ (env_write_checks p r track n env = Err e
         ∨ (∀ i row, resource_allocations d !! i = Some row → allocation_matches p r track n from row = false)
           ∧ (e = ResourceAllocationNotFound p r n
                ∧ (∀ i row, resource_allocations d !! i = Some row → of_project_resource p r row = true →
                     a_allocation_name row ≠ n)
              ∨ e = ResourceAllocationNotDesired p r track n))
  end.

Lemma write_allocation_env_post `{JsonLaws} from p r track n env now d : allocations_wf d →
  env_write_post from p r track n env now d (write_allocation_env from p r track n env now d).
Proof.
  intros Hwf. unfold write_allocation_env. fold (env_write_checks p r track n env).
  destruct (env_write_checks p r track n env) as [env_json|e] eqn:Hchk; [|by split; [|left]].
  destruct (length _ =? 0) eqn:Hlen.
  - apply Nat.eqb_eq in Hlen. pose proof (proj1 (matching_rows d p r n track from) Hlen) as Hno.
    rewrite (rewrite_none d Hwf p r n track from env_json now Hno).
    destruct (resource_allocation_by_key p r n d) as [rec|e] eqn:Hkey; cbn [mbind result_bind].
    + split; [done|]. right. split; [done|]. by right.
    + split; [done|]. right. split; [done|]. left. unfold resource_allocation_by_key in Hkey.
      destruct (List.find _ _) as [[i row]|] eqn:Hf.
      * apply List.find_some in Hf as [Hi%list_elem_of_In%elem_of_map_to_list _].
        destruct (allocation_read i row (aw_readable d Hwf i row Hi)) as (rec & Hr & _). congruence.
      * injection Hkey as <-. split; [done|]. intros i row Hi Hof Hn.
        apply (List.find_none _ _) with (x := (i, row)) in Hf.
        -- rewrite Hof, (bool_decide_eq_true_2 _ Hn) in Hf. done.
        -- by apply list_elem_of_In, elem_of_map_to_list.
  - apply Nat.eqb_neq in Hlen.
    assert (∃ i row, resource_allocations d !! i = Some row ∧ allocation_matches p r track n from row = true)
      as (i & row & Hi & Hm).
    { destruct (filter _ _) as [|[i row] l] eqn:Hf; [done|]. exists i, row.
      assert ((i, row) ∈ (i, row) :: l) as Hin by by left. rewrite <-Hf in Hin.
      by apply list_elem_of_filter in Hin as [? ?%elem_of_map_to_list]. }
    rewrite (rewrite_matching d Hwf p r n track from env_json now i row Hi Hm).
    set (row' := with_env _ _ _ row). set (d' := set_resource_allocations _ d).
    pose proof Hm as (Hof & Ht & Hn & _)%allocation_matches_true.
    destruct (aw_readable d Hwf i row Hi) as (R1 & R2 & R3 & R4 & _ & _).
    assert (∀ c, parse_env_context c env_json = Ok env) as Henv.
    { intros c. unfold env_write_checks in Hchk. inv_ok. by eapply env_context_roundtrip. }
    assert (allocation_readable row') as Hread.
    { split_and!; [done..|by exists env|by exists AllocationReady]. }
    assert (allocations_wf d') as Hwf'.
    { apply allocations_wf_insert; [done|exact (aw_project d Hwf i row Hi)|done| |].
      - intros k s Hs Hk E1 E2 E3. by apply Hk, (aw_name d Hwf k i s row).
      - intros k s Hs Hk E1 E2 E3. by apply Hk, (aw_generated d Hwf k i s row). }
    rewrite (by_key_spec d' Hwf' p r n i row'); [|simpl; apply lookup_insert_eq|done|done].
    destruct (allocation_read i row' Hread) as (rec & -> & (Hid & _ & _ & _ & _ & Hg & Hs) & Hpe).
    exists i, row, env_json. split_and!; [done|done|done|done| | |done|done].
    + by apply as_str_inj.
    + specialize (Hpe ""). simpl in Hpe. rewrite Henv in Hpe. by injection Hpe.
Qed.

(** An allocation becomes ready only from the desired status, on its track, and
    then carries exactly the env it was given; nothing else changes.  Otherwise the
    call fails and changes nothing: its input is invalid, there is no such
    allocation, or it is not desired on that track. *)
Theorem mark_resource_allocation_ready_spec `{JsonLaws} p r track n env now d : allocations_wf d →
  env_write_post AllocationDesired p r track n env now d
    (mark_resource_allocation_ready p r track n env now d).
Proof. apply write_allocation_env_post. Qed.

(** The env of an allocation is replaced only while the allocation is ready. *)
Theorem record_resource_allocation_env_context_spec `{JsonLaws} p r track n env now d : allocations_wf d →
  env_write_post AllocationReady p r track n env now d
    (record_resource_allocation_env_context p r track n env now d).
Proof. apply write_allocation_env_post. Qed.

(** ** The env context of a project *)

Section env_context.
Context `{JsonLaws} (d : Db) (Hres : resources_wf d) (Hall : allocations_wf d) (p : string).

Lemma track_env n t tr : managed_resource_tracks d !! (n, t) = Some tr →
  ∃ rec, managed_resource_track n t d = Ok rec ∧ parse_env_context "" (t_env_json tr) = Ok (tr_env rec).
Proof.
  intros Htr. pose proof (rw_track_row d Hres (n, t) tr Htr) as Hok. unfold managed_resource_track.
  rewrite Htr. cbn [ok_or mbind result_bind].
  destruct (track_into_record (n, t) tr) as [rec|] eqn:Hrec; [|done]. exists rec. split; [done|].
  unfold track_into_record in Hrec. inv_ok. by eapply parse_env_any_context.
Qed.

(** The context of one resource: the ready allocations on the required track. *)
Definition allocation_context_of (n t a : string) (y : ProjectEnvAllocationContext) : Prop :=
  ∃ i row, resource_allocations d !! i = Some row
    ∧ allocation_matches p n t a AllocationReady row = true
    ∧ a_generated_name row = pa_generated_name y
    ∧ parse_env_context "" (a_env_json row) = Ok (pa_values y).

Lemma ready_contexts_spec n t : ∃ m, ready_allocation_env_contexts p n t d = Ok m
  ∧ ∀ a y, m !! a = Some y ↔ allocation_context_of n t a y.
Proof.
  unfold ready_allocation_env_contexts, ready_resource_allocations.
  destruct (select_allocations_spec (λ row, of_project_resource p n row && bool_decide (a_track row = t)
    && bool_decide (a_status row = as_str AllocationReady)) d (aw_readable d Hall))
    as (l & -> & Hin & _ & Hnd). cbn [mbind result_bind].
  eexists. split; [reflexivity|]. intros a y. rewrite (foldl_insert_lookup al_allocation_name).
  - unfold allocation_context_of. split.
    + intros (rec & (i & row & Hi & Hp & Hr)%Hin & <- & <-). exists i, row.
      apply allocation_read_inv in Hr as (_ & (_ & _ & _ & _ & Hn & Hg & _) & He).
      rewrite allocation_matches_true. split_bools. done.
    + intros (i & row & Hi & (Hof & Ht & Hn & Hs)%allocation_matches_true & Hg & He).
      destruct (allocation_read i row) as (rec & Hr & (_ & _ & _ & _ & Hn' & Hg' & _) & He');
        [by apply (aw_readable d Hall i)|].
      exists rec. split; [|split; [congruence|]].
      * apply Hin. exists i, row. split_and!; [done| |done].
        by rewrite Hof, !bool_decide_eq_true_2.
      * specialize (He' ""). destruct y as [g v]. simpl in *. f_equal; congruence.
  - apply NoDup_fmap_2_strong; [|by apply (NoDup_fmap_1 al_id)].
    intros x z (i & row & Hi & Hp & Hr)%Hin (j & row' & Hj & Hp' & Hr')%Hin Heq.
    pose proof Hr as (_ & (_ & _ & _ & _ & Hn & _) & _)%allocation_read_inv.
    pose proof Hr' as (_ & (_ & _ & _ & _ & Hn' & _) & _)%allocation_read_inv.
    apply andb_true_iff in Hp as [[Hof _]%andb_true_iff _].
    apply andb_true_iff in Hp' as [[Hof' _]%andb_true_iff _].
    apply of_project_resource_true in Hof as [? ?]. apply of_project_resource_true in Hof' as [? ?].
    assert (i = j) as -> by (apply (aw_name d Hall i j row row'); congruence). congruence.
Qed.

Definition resource_context_of (n t : string) (x : ProjectEnvResourceContext) : Prop :=
  pr_track x = t
  ∧ (∃ tr, managed_resource_tracks d !! (n, t) = Some tr
       ∧ parse_env_context "" (t_env_json tr) = Ok (pr_values x))
  ∧ ∀ a y, pr_allocations x !! a = Some y ↔ allocation_context_of n t a y.

Lemma env_context_loop l m : (∀ n q, (n, q) ∈ l → project_managed_resources d !! (p, n) = Some q) →
  NoDup l.*1 →
  ∃ m', try_fold (env_context_step p d) (requirement_record p <$> l) m = Ok m'
    ∧ (∀ n, n ∉ l.*1 → m' !! n = m !! n)
    ∧ (∀ n q, (n, q) ∈ l → ∃ x, m' !! n = Some x ∧ resource_context_of n (q_track q) x).
Proof.
  revert m. induction l as [|[n q] l IH]; intros m Hl Hnd.
  { exists m. split; [done|]. split; [done|]. by intros n q ?%not_elem_of_nil. }
  apply NoDup_cons in Hnd as [Hn Hnd]. rewrite fmap_cons. cbn [try_fold].
  destruct (rw_track d Hres p n q) as [tr Htr]; [apply Hl; by left|].
  destruct (track_env n (q_track q) tr Htr) as (rec & Hrec & Henv).
  destruct (ready_contexts_spec n (q_track q)) as (ms & Hready & Hms).
  assert (env_context_step p d m (requirement_record p (n, q)) = Ok (<[n :=
    {| pr_track := q_track q; pr_values := tr_env rec; pr_allocations := ms |}]> m)) as ->.
  { unfold env_context_step. simpl. rewrite Hrec. cbn [mbind result_bind]. by rewrite Hready. }
  cbn [mbind result_bind].
  destruct (IH (<[n := {| pr_track := q_track q; pr_values := tr_env rec; pr_allocations := ms |}]> m))
    as (m' & Hm' & Hout & Hin); [intros; apply Hl; by right|done|].
  exists m'. split; [exact Hm'|]. split.
  - intros k [Hkn Hkl]%not_elem_of_cons. simpl in Hkn. rewrite Hout by done. by rewrite lookup_insert_ne.
  - intros k q' [[= -> ->]|Hk]%elem_of_cons; [|by apply Hin].
    rewrite Hout by done. rewrite lookup_insert_eq. eexists. split; [done|].
    split_and!; [done|by exists tr|done].
Qed.
End env_context.

Lemma NoDup_project_requirements p d : NoDup (project_requirements p d).*1.
Proof.
  unfold project_requirements. rewrite sort_on_perm.
  pose proof (NoDup_fst_map_to_list (project_managed_resources d)) as Hnd.
  induction (map_to_list (project_managed_resources d)) as [|[[p' n] q] l IH]; [constructor|].
  rewrite fmap_cons in Hnd. apply NoDup_cons in Hnd as [Hno Hnd]. simpl.
  case_bool_decide as Hp; [|by apply IH]. rewrite fmap_cons. constructor; [|by apply IH].
  intros ([n' q'] & Heq & Hin)%list_elem_of_fmap. simpl in Heq, Hp. subst n' p'.
  apply Hno. apply list_elem_of_omap in Hin as ([[p' n'] q''] & Hin & Hx). simpl in Hx.
  case_bool_decide as Hp'; [|done]. injection Hx as Hn' _. subst p' n'.
  apply list_elem_of_fmap. by exists (p, n, q'').
Qed.

(** The env context of a project has an entry for exactly the resources it
    requires, on the required track, with the env of that track and with exactly
    the allocations of the project that are ready on it, each with its generated
    name and env.  It fails only when the project does not exist. *)
Theorem project_env_context_spec `{JsonLaws} p d :
  projects_wf d → resources_wf d → allocations_wf d →
  match project_env_context p d with
  | Ok c => (∃ row, projects d !! p = Some row ∧ pc_project_id c = p
        ∧ pc_primary_hostname c = if is_internal_project_hostname (p_primary_hostname row) then None
                                  else Some (p_primary_hostname row))
      ∧ ∀ n, match project_managed_resources d !! (p, n) with
             | Some q => ∃ x, pc_resources c !! n = Some x ∧ resource_context_of d p n (q_track q) x
             | None => pc_resources c !! n = None
             end
  | Err e => projects d !! p = None ∧ e = ProjectNotFound p
  end.
Proof.
  intros Hproj Hres Hall. unfold project_env_context.
  destruct (projects d !! p) as [row|] eqn:Hp.
  2: { unfold project_by_id. by rewrite Hp. }
  destruct (hw_slug d Hproj p row Hp) as (s & Hs & _).
  destruct (project_by_id_ok d p row s Hp (hw_readable d Hproj p row Hp) Hs)
    as (r & -> & (Hid & _ & _ & _ & Hprim & _)). cbn [mbind result_bind ok_or].
  rewrite (list_requirements_ok p d Hres). cbn [mbind result_bind].
  destruct (env_context_loop d Hres Hall p (project_requirements p d) ∅) as (m & -> & Hout & Hin).
  - intros n q. apply elem_of_project_requirements.
  - apply NoDup_project_requirements.
  - cbn [mbind result_bind]. split; [by exists row|]. intros n. simpl.
    destruct (project_managed_resources d !! (p, n)) as [q|] eqn:Hq.
    + apply Hin. by apply elem_of_project_requirements.
    + rewrite Hout; [done|]. intros ([n' q] & -> & Hnq%elem_of_project_requirements)%list_elem_of_fmap.
      simpl in Hq. congruence.
Qed.

(** ** Witnesses *)

Lemma sample_allocations_wf : allocations_wf sample_db.
Proof. split; by intros. Qed.

Definition sample_wanted : list ResourceAllocationInput :=
  [{| ai_allocation_name := "app"; ai_generated_name := "acme_app" |}].

Definition sample_allocated : Db :=
  (replace_project_resource_allocations "p1" "postgres" "18" sample_wanted "t1" sample_db).2.

Lemma sample_allocated_wf : allocations_wf sample_allocated.
Proof.
  assert (resource_allocations sample_allocated = {[ "allocation_000001" :=
    new_allocation "p1" "postgres" "18" "t1" {| ai_allocation_name := "app"; ai_generated_name := "acme_app" |} ]})
    as Ha by by vm_compute.
  assert (projects sample_allocated = {[ "p1" := sample_project ]}) as Hp by by vm_compute.
  split; rewrite ?Ha, ?Hp.
  - intros i r [<- <-]%lookup_singleton_Some. simpl. rewrite lookup_singleton_eq. by eexists.
  - by intros i j r s [<- _]%lookup_singleton_Some [<- _]%lookup_singleton_Some.
  - by intros i j r s [<- _]%lookup_singleton_Some [<- _]%lookup_singleton_Some.
  - intros i r [_ <-]%lookup_singleton_Some. apply (new_allocation_readable "p1" "postgres" "18" "t1").
    + by vm_compute.
    + apply validate_concrete_track_ok. by vm_compute.
    + by vm_compute.
    + by vm_compute.
Qed.

Lemma replace_project_resource_allocations_spec_witness :
  allocations_wf (replace_project_resource_allocations "p1" "postgres" "18" sample_wanted "t1" sample_db).2.
Proof.
  pose proof (replace_project_resource_allocations_spec "p1" "postgres" "18" sample_wanted "t1" sample_db
    sample_allocations_wf) as Hspec.
  assert (is_ok (replace_project_resource_allocations "p1" "postgres" "18" sample_wanted "t1" sample_db).1
    = true) as Hok by by vm_compute.
  destruct (replace_project_resource_allocations "p1" "postgres" "18" sample_wanted "t1" sample_db)
    as [[records|e] d']; [|discriminate Hok].
  destruct Hspec. assumption.
Defined.

Lemma mark_resource_allocation_ready_spec_witness :
  ∃ rec d', mark_resource_allocation_ready "p1" "postgres" "18" "app" {[ "database" := "acme_app" ]} "t2"
      sample_allocated = (Ok rec, d')
    ∧ al_status rec = AllocationReady ∧ al_env rec = {[ "database" := "acme_app" ]}.
Proof.
  pose proof (mark_resource_allocation_ready_spec "p1" "postgres" "18" "app" {[ "database" := "acme_app" ]}
    "t2" sample_allocated sample_allocated_wf) as Hspec.
  assert (is_ok (mark_resource_allocation_ready "p1" "postgres" "18" "app" {[ "database" := "acme_app" ]}
    "t2" sample_allocated).1 = true) as Hok by by vm_compute.
  destruct (mark_resource_allocation_ready _ _ _ _ _ _ _) as [[rec|e] d']; [|discriminate Hok].
  destruct Hspec as (i & row & env_json & _ & _ & _ & _ & Hs & He & _).
  exists rec, d'. split; [reflexivity|]. split; [exact Hs|exact He].
Defined.

Lemma record_resource_allocation_env_context_spec_witness :
  (record_resource_allocation_env_context "p1" "postgres" "18" "app" ∅ "t2" sample_allocated).2
  = sample_allocated.
Proof.
  pose proof (record_resource_allocation_env_context_spec "p1" "postgres" "18" "app" ∅ "t2" sample_allocated
    sample_allocated_wf) as Hspec.
  assert (is_ok (record_resource_allocation_env_context "p1" "postgres" "18" "app" ∅ "t2" sample_allocated).1
    = false) as Hok by by vm_compute.
  destruct (record_resource_allocation_env_context _ _ _ _ _ _ _) as [[rec|e] d']; [discriminate Hok|].
  exact (proj1 Hspec).
Defined.

(** A project that requires a resource and has a ready allocation of it. *)
Definition sample_env_db : Db :=
  let d := (replace_project_managed_resources "p1" [Build_ProjectManagedResourceInput "postgres" "18"]
              "t1" sample_db).2 in
  let d := (replace_project_resource_allocations "p1" "postgres" "18" sample_wanted "t1" d).2 in
  (mark_resource_allocation_ready "p1" "postgres" "18" "app" {[ "database" := "acme_app" ]} "t2" d).2.

Example sample_env_context :
  (λ c : ProjectEnvStateContext, (λ x : ProjectEnvResourceContext,
      pa_generated_name <$> pr_allocations x !! "app") <$> pc_resources c !! "postgres")
    <$> project_env_context "p1" sample_env_db = Ok (Some (Some "acme_app")).
Proof. by vm_compute. Qed.

Lemma allocations_projects `{Json} p n t allocations now d :
  projects (replace_project_resource_allocations p n t allocations now d).2 = projects d.
Proof.
  apply (transact_inv (λ d', projects d' = projects d)); [|done]. intros records d' Hd _. inv_ok.
  match goal with |- projects (foldl (deactivate_step ?x ?y) _ _) = _ =>
    assert (∀ es d1, projects (foldl (deactivate_step x y) d1 es) = projects d1) as -> end.
  { induction es as [|existing es IH]; intros d1; [done|]. cbn. rewrite IH. unfold deactivate_step. by destruct (_ && _). }
  revert E2. apply (try_fold_inv (λ d', projects d' = projects d)); [|done]. intros d1 input d2 _ <- Hr.
  unfold replace_allocation_step, update_allocation_track, insert_allocation in Hr.
  destruct (_ !! _) as [existing|].
  - destruct (resource_allocations d1 !! _); [destruct (generated_name_taken _ _ _ _ _); [done|]|]; by inv_ok.
  - destruct (resource_allocation_generated_name_exists _ _ _ _); [done|]. inv_ok.
    repeat (let H := fresh in match type of Hr with (if ?b then _ else _) = _ => destruct b eqn:H; [done|] end). by inv_ok.
Qed.
