(* ===== verification/DaemonScope.v ===== *)
(** * Reconciliation scopes: what a daemon job is about, and how clients spell it
    ([daemon/src/reconciliation.rs], [ReconciliationScope]) *)

From S2P Require Import Prelude RustStr.

(** ** Data *)

Record ReconciliationScopeComponent := { component_text : string }.
Inductive ReconciliationScope : Type :=
| SystemScope
| ProjectScope (id : ReconciliationScopeComponent)
| ResourceScope (name track : ReconciliationScopeComponent).

Inductive ReconciliationScopeParseError : Type :=
| UnknownScope (scope : string)
| InvalidComponentCount (scope : string) (expected actual : nat)
| EmptyComponent (scope part : string).

#[export] Instance scope_component_eq_dec : EqDecision ReconciliationScopeComponent.
Proof. solve_decision. Defined.
#[export] Instance scope_eq_dec : EqDecision ReconciliationScope.
Proof. solve_decision. Defined.
#[export] Instance scope_error_eq_dec : EqDecision ReconciliationScopeParseError.
Proof. solve_decision. Defined.

Definition COLON : ascii := ":".

(** ** Operations *)

(** [impl fmt::Display for ReconciliationScope]. *)
Definition scope_display (s : ReconciliationScope) : string :=
  match s with
  | SystemScope => "system"
  | ProjectScope id => "project:" +:+ component_text id
  | ResourceScope name track => "resource:" +:+ component_text name +:+ ":" +:+ component_text track
  end.

(** [ReconciliationScopeComponent::new]. *)
Definition scope_component_new (value part scope : string) (expected_components : nat) :
    result ReconciliationScopeParseError ReconciliationScopeComponent :=
  if is_empty value then Err (EmptyComponent scope part)
  else
    let actual_components := length (split COLON scope) in
    if negb (actual_components =? expected_components)
    then Err (InvalidComponentCount scope expected_components actual_components)
    else Ok {| component_text := value |}.

Definition scope_project (id : string) : result ReconciliationScopeParseError ReconciliationScope :=
  let scope := "project:" +:+ id in
  id ← scope_component_new id "id" scope 2;
  Ok (ProjectScope id).

Definition scope_resource (name track : string) :
    result ReconciliationScopeParseError ReconciliationScope :=
  let scope := "resource:" +:+ name +:+ ":" +:+ track in
  name ← scope_component_new name "name" scope 3;
  track ← scope_component_new track "track" scope 3;
  Ok (ResourceScope name track).

(** [impl FromStr for ReconciliationScope]: the arms of the [match] in order. *)
Definition scope_from_str (scope : string) : result ReconciliationScopeParseError ReconciliationScope :=
  let parts := split COLON scope in
  match parts with
  | [] => Err (UnknownScope scope)
  | kind :: rest =>
      if bool_decide (kind = "system") then
        match rest with [] => Ok SystemScope | _ => Err (UnknownScope scope) end
      else if bool_decide (kind = "project") then
        match rest with
        | [id] =>
            if is_empty id then Err (EmptyComponent scope "id")
            else Ok (ProjectScope {| component_text := id |})
        | _ => Err (InvalidComponentCount scope 2 (length parts))
        end
      else if bool_decide (kind = "resource") then
        match rest with
        | [name; track] =>
            if negb (is_empty name) && negb (is_empty track)
            then Ok (ResourceScope {| component_text := name |} {| component_text := track |})
            else if is_empty name then Err (EmptyComponent scope "name")
            else Err (EmptyComponent scope "track")
        | _ => Err (InvalidComponentCount scope 3 (length parts))
        end
      else Err (UnknownScope scope)
  end.

(** ** What the parser accepts *)

(** The components of a scope that was built or parsed: not empty, no colon. *)
Definition scope_component_wf (c : ReconciliationScopeComponent) : bool :=
  negb (is_empty (component_text c)) && lacks COLON (component_text c).

Definition scope_wf (s : ReconciliationScope) : bool :=
  match s with
  | SystemScope => true
  | ProjectScope id => scope_component_wf id
  | ResourceScope name track => scope_component_wf name && scope_component_wf track
  end.

(** The words that start a scope, split off the rest of the text. *)
Lemma split_project id : split COLON ("project:" +:+ id) = "project" :: split COLON id.
Proof. apply (split_app_sep COLON "project" id). reflexivity. Qed.
Lemma split_resource rest : split COLON ("resource:" +:+ rest) = "resource" :: split COLON rest.
Proof. apply (split_app_sep COLON "resource" rest). reflexivity. Qed.
Lemma split_resource_components name track :
  split COLON ("resource:" +:+ name +:+ ":" +:+ track)
  = "resource" :: split COLON name ++ split COLON track.
Proof.
  rewrite split_resource, str_cons_app. simpl. by rewrite split_app.
Qed.

Lemma split_one s t : split COLON s = [t] ↔ t = s ∧ lacks COLON s = true.
Proof.
  split.
  - intros H. pose proof (join_split COLON s) as Hj. rewrite H in Hj. simpl in Hj. subst t.
    pose proof (split_pieces_lack COLON s) as Hl. rewrite H in Hl. by inversion Hl.
  - intros [-> H]. by apply split_lacks.
Qed.

Lemma split_two_not_lacks s p q l : split COLON s = p :: q :: l → lacks COLON s = false.
Proof. intros H. apply not_true_is_false. intros Hl. by rewrite (split_lacks _ _ Hl) in H. Qed.

Lemma component_wf_split c : scope_component_wf c = true →
  component_text c ≠ "" ∧ split COLON (component_text c) = [component_text c].
Proof.
  unfold scope_component_wf. intros [H1 H2]%andb_true_iff. split_bools.
  split; [by apply is_empty_false|by apply split_lacks].
Qed.

Lemma piece_wf x l : x ∈ l → Forall (λ p, lacks COLON p = true) l → is_empty x = false →
  scope_component_wf {| component_text := x |} = true.
Proof. intros Hx Hl He. unfold scope_component_wf. simpl. rewrite He. simpl.
  by apply (proj1 (Forall_forall _ l) Hl). Qed.

Lemma from_str_display s : scope_wf s = true → scope_from_str (scope_display s) = Ok s.
Proof.
  destruct s as [|[id]|[name] [track]]; [reflexivity|..]; intros Hwf; cbn [scope_display component_text];
    unfold scope_from_str.
  - destruct (component_wf_split _ Hwf) as [Hne Hs]. simpl in Hs, Hne.
    rewrite split_project, Hs. simpl. by apply is_empty_false in Hne as ->.
  - cbn [scope_wf] in Hwf. apply andb_true_iff in Hwf as [Hn Ht].
    destruct (component_wf_split _ Hn) as [Hn1 Hn2], (component_wf_split _ Ht) as [Ht1 Ht2].
    simpl in Hn1, Hn2, Ht1, Ht2. rewrite split_resource_components, Hn2, Ht2. simpl.
    by apply is_empty_false in Hn1 as ->; apply is_empty_false in Ht1 as ->.
Qed.

Lemma from_str_sound text s : scope_from_str text = Ok s →
  scope_wf s = true ∧ text = scope_display s.
Proof.
  unfold scope_from_str. pose proof (join_split COLON text) as Hj.
  pose proof (split_pieces_lack COLON text) as Hl.
  destruct (split COLON text) as [|kind rest]; [done|].
  apply Forall_cons in Hl as [_ Hl].
  case_bool_decide; [subst kind|case_bool_decide; [subst kind|case_bool_decide; [subst kind|done]]].
  - destruct rest; [|done]. intros [= <-]. by rewrite <-Hj.
  - destruct rest as [|id [|? ?]]; try done. destruct (is_empty id) eqn:He; [done|].
    intros [= <-]. rewrite <-Hj. split; [|done]. eapply piece_wf; [by left|done..].
  - destruct rest as [|name [|track [|? ?]]]; try done.
    destruct (is_empty name) eqn:Hn, (is_empty track) eqn:Ht; simpl; try done.
    intros [= <-]. rewrite <-Hj. split; [|done]. cbn [scope_wf].
    apply andb_true_iff. split; eapply piece_wf; try done; [by left|by right; left].
Qed.

Lemma project_from_str id : scope_project id = scope_from_str ("project:" +:+ id).
Proof.
  unfold scope_project, scope_component_new, scope_from_str. rewrite split_project. simpl.
  destruct (split COLON id) as [|p [|q l]] eqn:Hs; [by destruct (split_nonempty COLON id)|..].
  - apply split_one in Hs as [-> _]. by destruct (is_empty id).
  - destruct id; [done|]. done.
Qed.

Lemma resource_from_str name track s : scope_resource name track = Ok s ↔
  scope_from_str ("resource:" +:+ name +:+ ":" +:+ track) = Ok s ∧ lacks COLON name = true.
Proof.
  unfold scope_resource, scope_component_new, scope_from_str. rewrite split_resource_components.
  destruct (split COLON name) as [|p l] eqn:Hn; [by destruct (split_nonempty COLON name)|].
  destruct (split COLON track) as [|q m] eqn:Ht; [by destruct (split_nonempty COLON track)|].
  destruct l as [|p' l], m as [|q' m].
  - apply split_one in Hn as [-> Hn], Ht as [-> Ht]. rewrite Hn. simpl.
    destruct (is_empty name), (is_empty track); simpl; naive_solver.
  - destruct (is_empty name), (is_empty track); simpl; naive_solver.
  - rewrite (split_two_not_lacks _ _ _ _ Hn). simpl. rewrite length_app, Nat.add_comm.
    destruct l, (is_empty name); simpl; naive_solver.
  - rewrite (split_two_not_lacks _ _ _ _ Hn). simpl. rewrite length_app, Nat.add_comm.
    destruct l, (is_empty name); simpl; naive_solver.
Qed.

(** A text parses as a scope exactly when it is the display of a scope whose
    components are neither empty nor contain a colon, so the scope of a stored
    job is read back from its text; and the constructors agree with the parser:
    [project] is parsing the text it builds, errors included, and [resource]
    accepts the components whose text parses. *)
Theorem scope_parse_spec :
  (∀ text s, scope_from_str text = Ok s ↔ scope_wf s = true ∧ text = scope_display s)
  ∧ (∀ id, scope_project id = scope_from_str ("project:" +:+ id))
  ∧ (∀ name track s, scope_resource name track = Ok s ↔
       scope_from_str ("resource:" +:+ name +:+ ":" +:+ track) = Ok s ∧ lacks COLON name = true).
Proof.
  split_and!.
  - intros text s. split; [apply from_str_sound|intros [Hwf ->]; by apply from_str_display].
  - apply project_from_str.
  - apply resource_from_str.
Qed.
