(* ===== verification/DaemonQueue.v ===== *)
(** * The reconciliation queue ([daemon/src/reconciliation.rs]): one job at a time,
    in order, duplicates coalesced, under the update lock

    The mutex makes each operation one transition of [QueueInner]; the callers'
    futures are [waiter]s and [RunningReconciliation]s, and [step] interleaves them. *)

From S2P Require Import Prelude RustStr StateTypes DaemonScope.

(** ** Data *)

Inductive ReconciliationQueueKey : Type :=
| Reconcile (scope : ReconciliationScope)
| UpdateSystem.

Record ReconciliationJob := {
  rj_key : ReconciliationQueueKey; rj_scope : ReconciliationScope; rj_job_id : string;
}.

(** The guard of the locked file; dropping it unlocks. *)
Inductive UpdateLock : Type := UpdateLockGuard.

Record QueueState := {
  active : option ReconciliationJob;
  queued : list ReconciliationJob;
  update_lock : option UpdateLock;
}.

(** [notify] counts the calls of [notify_waiters]: a [Notified] future completes
    when the count has passed the one at which it was created. *)
Record QueueInner := { q_state : QueueState; q_notify : nat }.

#[export] Instance queue_key_eq_dec : EqDecision ReconciliationQueueKey.
Proof. solve_decision. Defined.
#[export] Instance queue_job_eq_dec : EqDecision ReconciliationJob.
Proof. solve_decision. Defined.
#[export] Instance update_lock_eq_dec : EqDecision UpdateLock.
Proof. solve_decision. Defined.
#[export] Instance queue_state_eq_dec : EqDecision QueueState.
Proof. solve_decision. Defined.

(** [ReconciliationQueue::new]. *)
Definition queue_new : QueueInner :=
  {| q_state := {| active := None; queued := []; update_lock := None |}; q_notify := 0 |}.

(** The scope of a job with a key: [System] for an update. *)
Definition key_scope (key : ReconciliationQueueKey) : ReconciliationScope :=
  match key with Reconcile scope => scope | UpdateSystem => SystemScope end.

(** ** Operations on the locked state *)

Definition set_lock (lock : option UpdateLock) (st : QueueState) : QueueState :=
  {| active := active st; queued := queued st; update_lock := lock |}.

Definition idle (st : QueueState) : bool :=
  negb (option_bool (active st)) && bool_decide (queued st = []).

Definition release_update_lock_if_idle (st : QueueState) : QueueState :=
  if idle st then set_lock None st else st.

Definition matching_queued_job (st : QueueState) (key : ReconciliationQueueKey) : option ReconciliationJob :=
  List.find (λ job, bool_decide (rj_key job = key)) (queued st).

Definition push_queued (job : ReconciliationJob) (inner : QueueInner) : QueueInner :=
  let st := q_state inner in
  {| q_state := {| active := active st; queued := queued st ++ [job]; update_lock := update_lock st |};
     q_notify := S (q_notify inner) |}.

Definition remove_queued_job (inner : QueueInner) (job : ReconciliationJob) : bool * QueueInner :=
  let st := q_state inner in
  let kept := filter (λ queued, rj_job_id queued ≠ rj_job_id job) (queued st) in
  let st' := {| active := active st; queued := kept; update_lock := update_lock st |} in
  if length kept =? length (queued st) then (false, {| q_state := st'; q_notify := q_notify inner |})
  else (true, {| q_state := release_update_lock_if_idle st'; q_notify := S (q_notify inner) |}).

Definition release_active_job (inner : QueueInner) (job : ReconciliationJob) : bool * QueueInner :=
  let st := q_state inner in
  if bool_decide (rj_job_id <$> active st = Some (rj_job_id job)) then
    (true, {| q_state := release_update_lock_if_idle
                {| active := None; queued := queued st; update_lock := update_lock st |};
              q_notify := S (q_notify inner) |})
  else (false, inner).

(** ** The handles, over the state [W] the callbacks act on *)

Section queue.
Context {W E : Type}.

Definition JobFinalizer : Type := string → W → W.
Definition CreateJob : Type := W → result E string * W.

Record QueuedReconciliation := {
  qr_job : ReconciliationJob; qr_abandon : option JobFinalizer; qr_released : bool;
}.
Record RunningReconciliation := {
  rr_job : ReconciliationJob; rr_abandon : option JobFinalizer; rr_finished : bool;
}.
Inductive EnqueueResult : Type :=
| Queued (q : QueuedReconciliation)
| Coalesced (job : ReconciliationJob).

(** [state.queued.push_back(job.clone())] and the handle for it. *)
Definition admit_job (key : ReconciliationQueueKey) (i : string) (abandon : JobFinalizer) (inner : QueueInner) :
    EnqueueResult * QueueInner :=
  let job := {| rj_key := key; rj_scope := key_scope key; rj_job_id := i |} in
  (Queued {| qr_job := job; qr_abandon := Some abandon; qr_released := false |}, push_queued job inner).

Definition enqueue_with_key (key : ReconciliationQueueKey) (create_job_id : CreateJob)
    (abandon : JobFinalizer) (w : W) (inner : QueueInner) : result E EnqueueResult * (W * QueueInner) :=
  match matching_queued_job (q_state inner) key with
  | Some job => (Ok (Coalesced job), (w, inner))
  | None =>
      match create_job_id w with
      | (Err e, w) => (Err e, (w, inner))
      | (Ok i, w) => let '(r, inner) := admit_job key i abandon inner in (Ok r, (w, inner))
      end
  end.

(** [ReconciliationQueue::enqueue]: nothing is done for an abandoned job. *)
Definition enqueue (scope : ReconciliationScope) (create_job_id : CreateJob) :=
  enqueue_with_key (Reconcile scope) create_job_id (λ _ w, w).

Definition enqueue_with_abandon (scope : ReconciliationScope) := enqueue_with_key (Reconcile scope).

(** [acquire] is [UpdateLock::acquire(paths)], and [from_state] the conversion of
    its error. *)
Definition enqueue_mutating_with_key (acquire : W → result StateError UpdateLock) (from_state : StateError → E)
    (key : ReconciliationQueueKey) (create_job_id : CreateJob) (abandon : JobFinalizer)
    (w : W) (inner : QueueInner) : result E EnqueueResult * (W * QueueInner) :=
  match matching_queued_job (q_state inner) key with
  | Some job => (Ok (Coalesced job), (w, inner))
  | None =>
      let acquired_lock := negb (option_bool (update_lock (q_state inner))) in
      match (if acquired_lock then Some <$> acquire w else Ok (update_lock (q_state inner))) with
      | Err e => (Err (from_state e), (w, inner))
      | Ok lock =>
          let inner := {| q_state := set_lock lock (q_state inner); q_notify := q_notify inner |} in
          match create_job_id w with
          | (Err e, w) =>
              let st := q_state inner in
              let st := if acquired_lock && negb (option_bool (active st)) && bool_decide (queued st = [])
                        then set_lock None st else st in
              (Err e, (w, {| q_state := st; q_notify := q_notify inner |}))
          | (Ok i, w) => let '(r, inner) := admit_job key i abandon inner in (Ok r, (w, inner))
          end
      end
  end.

Definition enqueue_mutating_with_abandon (acquire : W → result StateError UpdateLock) (from_state : StateError → E)
    (scope : ReconciliationScope) := enqueue_mutating_with_key acquire from_state (Reconcile scope).

Definition enqueue_system_update_with_abandon (acquire : W → result StateError UpdateLock)
    (from_state : StateError → E) := enqueue_mutating_with_key acquire from_state UpdateSystem.

(** The locked block of [wait_for_turn]: the running handle, what is left of the
    queued one, and the queue; [None] is another round of the loop. *)
Definition take_turn (q : QueuedReconciliation) (inner : QueueInner) :
    option (RunningReconciliation * QueuedReconciliation * QueueInner) :=
  let st := q_state inner in
  match active st, queued st with
  | None, front :: rest =>
      if bool_decide (rj_job_id front = rj_job_id (qr_job q)) then
        Some ({| rr_job := front; rr_abandon := qr_abandon q; rr_finished := false |},
              {| qr_job := qr_job q; qr_abandon := None; qr_released := true |},
              {| q_state := {| active := Some front; queued := rest; update_lock := update_lock st |};
                 q_notify := q_notify inner |})
      else None
  | _, _ => None
  end.

(** [if let Some(abandon_job) = self.abandon_job.take() { abandon_job(id) }]. *)
Definition run_finalizer (f : option JobFinalizer) (i : string) (w : W) : W :=
  match f with Some f => f i w | None => w end.

(** [impl Drop for QueuedReconciliation]. *)
Definition queued_drop (q : QueuedReconciliation) (w : W) (inner : QueueInner) : W * QueueInner :=
  if qr_released q then (w, inner)
  else
    let '(removed, inner) := remove_queued_job inner (qr_job q) in
    (if removed then run_finalizer (qr_abandon q) (rj_job_id (qr_job q)) w else w, inner).

(** [impl Drop for RunningReconciliation]. *)
Definition running_drop (r : RunningReconciliation) (w : W) (inner : QueueInner) : W * QueueInner :=
  if rr_finished r then (w, inner)
  else
    let '(released, inner) := release_active_job inner (rr_job r) in
    (if released then run_finalizer (rr_abandon r) (rj_job_id (rr_job r)) w else w, inner).

(** [RunningReconciliation::finish], and the drop at its end. *)
Definition running_finish (r : RunningReconciliation) (w : W) (inner : QueueInner) : W * QueueInner :=
  let inner := (release_active_job inner (rr_job r)).2 in
  running_drop {| rr_job := rr_job r; rr_abandon := rr_abandon r; rr_finished := true |} w inner.

(** ** The store of jobs the queue relies on

    [open w i]: the store [w] has job [i] and it is not closed; [ok] is the store's
    own invariant. *)
Class JobStore (ok : W → Prop) (open : W → string → Prop) (create : CreateJob) (abandon : JobFinalizer) : Prop := {
  create_ok : ∀ w, ok w → ok (create w).2;
  create_fresh : ∀ w i, ok w → (create w).1 = Ok i → ¬ open w i ∧ open (create w).2 i;
  create_keeps : ∀ w j, ok w → open w j → open (create w).2 j;
  abandon_ok : ∀ w i, ok w → ok (abandon i w);
  abandon_keeps : ∀ w i j, ok w → i ≠ j → open w j → open (abandon i w) j;
}.

(** ** Interleavings *)

(** Where the future that holds a queued handle stands: before [wait_for_turn],
    with a [Notified] created but the state not looked at yet, or awaiting it. *)
Inductive wait_point : Type := Accepted | Listening (seen : nat) | Sleeping (seen : nat).

Record waiter := { w_handle : QueuedReconciliation; w_point : wait_point }.

Record Daemon := {
  world : W;
  inner : QueueInner;
  waiters : list waiter;
  runners : list RunningReconciliation;
}.

Definition daemon_init (w : W) : Daemon :=
  {| world := w; inner := queue_new; waiters := []; runners := [] |}.

Definition job_ids : list ReconciliationJob → list string := map rj_job_id.
Definition waiting_job (wt : waiter) : ReconciliationJob := qr_job (w_handle wt).
Definition queue_ids (st : QueueState) : list string := job_ids (option_list (active st) ++ queued st).
Definition live_ids (d : Daemon) : list string := queue_ids (q_state (inner d)).

Inductive event : Type :=
| EvEnqueued (mutating : bool) (i : string)
| EvRefused
| EvListened
| EvSlept
| EvStarted (i : string)
| EvDropped (i : string)
| EvFinished
| EvAborted
| EvWorld.

(** One of the two ways to enqueue: with the update lock or without. *)
Definition submit (lock : option ((W → result StateError UpdateLock) * (StateError → E))) :=
  match lock with
  | Some (acquire, from_state) => enqueue_mutating_with_key acquire from_state
  | None => enqueue_with_key
  end.

(** [wait_for_turn] may be called on, or woken from, this point. *)
Definition may_listen (notify : nat) (p : wait_point) : bool :=
  match p with Accepted => true | Listening _ => false | Sleeping seen => seen <? notify end.

(** Every step is an operation above.  What a new job is called is up to the
    store of jobs: no live job has its id. *)
Inductive step (d : Daemon) : event → Daemon → Prop :=
| StepEnqueue lock key create abandon h w q :
    submit lock key create abandon (world d) (inner d) = (Ok (Queued h), (w, q)) →
    rj_job_id (qr_job h) ∉ live_ids d →
    step d (EvEnqueued (option_bool lock) (rj_job_id (qr_job h)))
      {| world := w; inner := q; runners := runners d;
         waiters := waiters d ++ [{| w_handle := h; w_point := Accepted |}] |}
| StepRefused lock key create abandon r w q :
    submit lock key create abandon (world d) (inner d) = (r, (w, q)) →
    (∀ h, r ≠ Ok (Queued h)) →
    step d EvRefused {| world := w; inner := q; waiters := waiters d; runners := runners d |}
| StepListen l1 wt l2 :
    waiters d = l1 ++ wt :: l2 → may_listen (q_notify (inner d)) (w_point wt) = true →
    step d EvListened {| world := world d; inner := inner d; runners := runners d;
      waiters := l1 ++ {| w_handle := w_handle wt; w_point := Listening (q_notify (inner d)) |} :: l2 |}
| StepSleep l1 wt l2 seen :
    waiters d = l1 ++ wt :: l2 → w_point wt = Listening seen →
    take_turn (w_handle wt) (inner d) = None →
    step d EvSlept {| world := world d; inner := inner d; runners := runners d;
      waiters := l1 ++ {| w_handle := w_handle wt; w_point := Sleeping seen |} :: l2 |}
| StepStart l1 wt l2 seen r h q w' q' :
    waiters d = l1 ++ wt :: l2 → w_point wt = Listening seen →
    take_turn (w_handle wt) (inner d) = Some (r, h, q) →
    queued_drop h (world d) q = (w', q') →
    step d (EvStarted (rj_job_id (rr_job r)))
      {| world := w'; inner := q'; waiters := l1 ++ l2; runners := runners d ++ [r] |}
| StepDrop l1 wt l2 w q :
    waiters d = l1 ++ wt :: l2 → queued_drop (w_handle wt) (world d) (inner d) = (w, q) →
    step d (EvDropped (rj_job_id (waiting_job wt)))
      {| world := w; inner := q; waiters := l1 ++ l2; runners := runners d |}
| StepFinish l1 r l2 w q :
    runners d = l1 ++ r :: l2 → running_finish r (world d) (inner d) = (w, q) →
    step d EvFinished {| world := w; inner := q; waiters := waiters d; runners := l1 ++ l2 |}
| StepAbort l1 r l2 w q :
    runners d = l1 ++ r :: l2 → running_drop r (world d) (inner d) = (w, q) →
    step d EvAborted {| world := w; inner := q; waiters := waiters d; runners := l1 ++ l2 |}
| StepWorld w :
    step d EvWorld {| world := w; inner := inner d; waiters := waiters d; runners := runners d |}.

Inductive run (d : Daemon) : list event → Daemon → Prop :=
| run_nil : run d [] d
| run_snoc evs d' ev d'' : run d evs d' → step d' ev d'' → run d (evs ++ [ev]) d''.

(** ** The invariant *)

Definition can_take_turn (q : QueuedReconciliation) (inner : QueueInner) : bool :=
  option_bool (take_turn q inner).

(** What each waiter's program point says of the queue. *)
Definition waiter_ok (q : QueueInner) (wt : waiter) : Prop :=
  qr_released (w_handle wt) = false ∧ is_Some (qr_abandon (w_handle wt)) ∧
  match w_point wt with
  | Accepted => True
  | Listening seen => seen ≤ q_notify q
  | Sleeping seen => seen ≤ q_notify q ∧ (seen = q_notify q → take_turn (w_handle wt) q = None)
  end.

Record daemon_inv (d : Daemon) : Prop := {
  di_queue : map waiting_job (waiters d) = queued (q_state (inner d));
  di_ids : NoDup (live_ids d);
  di_keys : NoDup (map rj_key (queued (q_state (inner d))));
  di_runner : map rr_job (runners d) = option_list (active (q_state (inner d)));
  di_unfinished : Forall (λ r, rr_finished r = false ∧ is_Some (rr_abandon r)) (runners d);
  di_idle : idle (q_state (inner d)) = true → update_lock (q_state (inner d)) = None;
  di_waiters : Forall (waiter_ok (inner d)) (waiters d);
}.

Lemma daemon_init_inv w : daemon_inv (daemon_init w).
Proof. split; simpl; try done; constructor. Qed.

(** A waiter stays well placed when the queue is notified, and when no new turn
    comes up. *)
Lemma waiter_ok_mono q q' wt : waiter_ok q wt → q_notify q ≤ q_notify q' →
  (q_notify q' = q_notify q → take_turn (w_handle wt) q = None → take_turn (w_handle wt) q' = None) →
  waiter_ok q' wt.
Proof.
  unfold waiter_ok. intros (Hr & Ha & Hp) Hn Ht. split_and!; [done..|].
  destruct (w_point wt); [done|lia|]. destruct Hp as [Hs Hp]. split; [lia|].
  intros ->. apply Ht; [lia|apply Hp; lia].
Qed.

Lemma waiters_ok_notified q q' l : Forall (waiter_ok q) l → q_notify q < q_notify q' → Forall (waiter_ok q') l.
Proof. intros H Hn. eapply Forall_impl; [done|]. intros wt Hw. eapply waiter_ok_mono; [done|lia|lia]. Qed.

(** ** What the operations do to the queue *)

Lemma matching_none st key : matching_queued_job st key = None ↔ key ∉ map rj_key (queued st).
Proof.
  unfold matching_queued_job. induction (queued st) as [|job l IH]; simpl; [set_solver|].
  case_bool_decide as Hk; [|rewrite IH]; set_solver.
Qed.

Lemma matching_some st key job : matching_queued_job st key = Some job → job ∈ queued st ∧ rj_key job = key.
Proof.
  unfold matching_queued_job. intros H. apply find_some in H as [Hin Hk].
  apply bool_decide_eq_true in Hk. split; [by apply list_elem_of_In|done].
Qed.

(** A request that is queued: the handle, and the one job at the end of the queue. *)
Lemma submit_queued lock key create abandon w q h w' q' :
  submit lock key create abandon w q = (Ok (Queued h), (w', q')) →
  (key ∉ map rj_key (queued (q_state q)))
  ∧ qr_job h = {| rj_key := key; rj_scope := key_scope key; rj_job_id := rj_job_id (qr_job h) |}
  ∧ qr_released h = false ∧ qr_abandon h = Some abandon
  ∧ create w = (Ok (rj_job_id (qr_job h)), w')
  ∧ active (q_state q') = active (q_state q)
  ∧ queued (q_state q') = queued (q_state q) ++ [qr_job h]
  ∧ q_notify q' = S (q_notify q)
  ∧ update_lock (q_state q') = (if option_bool lock then Some UpdateLockGuard else update_lock (q_state q)).
Proof.
  rewrite <-matching_none. destruct lock as [[acquire from_state]|]; simpl;
    unfold enqueue_mutating_with_key, enqueue_with_key;
    destruct (matching_queued_job _ _); try (intros; simplify_eq; fail).
  - destruct (update_lock (q_state q)) as [[]|] eqn:Hl; simpl.
    2: destruct (acquire w) as [[]|e]; simpl; [|intros; simplify_eq].
    all: destruct (create w) as [[i|e] w1]; simpl; intros; simplify_eq; simpl; by split_and!.
  - destruct (create w) as [[i|e] w1]; simpl; intros; simplify_eq; simpl; by split_and!.
Qed.

(** A request that is not leaves the queue, except that an error after the lock
    was taken keeps it when there is work. *)
Lemma submit_refused lock key create abandon w q r w' q' :
  submit lock key create abandon w q = (r, (w', q')) → (∀ h, r ≠ Ok (Queued h)) →
  q_notify q' = q_notify q
  ∧ (q_state q' = q_state q
     ∨ (lock ≠ None ∧ idle (q_state q) = false ∧ q_state q' = set_lock (Some UpdateLockGuard) (q_state q))).
Proof.
  destruct lock as [[acquire from_state]|]; simpl;
    unfold enqueue_mutating_with_key, enqueue_with_key; intros H Hr;
    (destruct (matching_queued_job _ _); [simplify_eq; by auto|]).
  - destruct q as [[a l lk] n]; simpl in *. destruct lk as [[]|]; simpl in *.
    + destruct (create w) as [[i|e] w1]; simpl in *; simplify_eq; [by destruct (Hr _ eq_refl)|by auto].
    + destruct (acquire w) as [[]|e]; simpl in *; [|simplify_eq; by auto].
      destruct (create w) as [[i|e] w1]; simpl in *; simplify_eq; [by destruct (Hr _ eq_refl)|].
      unfold idle; simpl. destruct (negb (option_bool a) && bool_decide (l = [])) eqn:Hi; simpl; [by auto|].
      split; [done|]. right. by split_and!.
  - destruct (create w) as [[i|e] w1]; simpl in *; simplify_eq; [by destruct (Hr _ eq_refl)|by auto].
Qed.

Lemma submit_coalesced lock key create abandon w q job w' q' :
  submit lock key create abandon w q = (Ok (Coalesced job), (w', q')) →
  w' = w ∧ q' = q ∧ job ∈ queued (q_state q) ∧ rj_key job = key.
Proof.
  destruct lock as [[acquire from_state]|]; simpl; unfold enqueue_mutating_with_key, enqueue_with_key;
    destruct (matching_queued_job _ _) as [job'|] eqn:Hm; intros Hs.
  1,3: injection Hs as -> <- <-; by apply matching_some in Hm as [? ?].
  all: repeat case_match; simplify_eq.
Qed.

(** A request that fails leaves the store as the creation of the id left it, if
    it came to that. *)
Lemma submit_error lock key create abandon w q e w' q' :
  submit lock key create abandon w q = (Err e, (w', q')) → w' = w ∨ create w = (Err e, w').
Proof.
  destruct lock as [[acquire from_state]|]; simpl; unfold enqueue_mutating_with_key, enqueue_with_key;
    (destruct (matching_queued_job _ _); [done|]).
  - destruct (if negb _ then _ else _); [|intros [= _ <- _]; by left].
    destruct (create w) as [[i|e'] w1]; simpl; [done|]. intros [= <- <- _]. by right.
  - destruct (create w) as [[i|e'] w1]; simpl; [done|]. intros [= <- <- _]. by right.
Qed.

(** Over a store that keeps its promise, new ids are fresh, as [StepEnqueue] asks,
    and the jobs of the queue stay open when one is queued and when one is dropped. *)
Lemma submit_open ok open lock key create abandon w q h w' q' : JobStore ok open create abandon →
  ok w → (∀ i, i ∈ queue_ids (q_state q) → open w i) →
  submit lock key create abandon w q = (Ok (Queued h), (w', q')) →
  (rj_job_id (qr_job h) ∉ queue_ids (q_state q)) ∧ ok w'
  ∧ ∀ i, i ∈ queue_ids (q_state q') → open w' i.
Proof.
  intros Hstore Hok Hopen (_ & _ & _ & _ & Hc & Ha & Hq & _)%submit_queued.
  destruct (create_fresh w (rj_job_id (qr_job h)) Hok) as [Hnew Hi]; [by rewrite Hc|].
  pose proof (create_ok w Hok) as Hok'. rewrite Hc in *. split_and!; [by intros ?%Hopen|done|].
  unfold queue_ids, job_ids. rewrite Ha, Hq, app_assoc, map_app. intros i [Hin|Hin]%elem_of_app.
  - pose proof (create_keeps w i Hok (Hopen i Hin)) as Hk. by rewrite Hc in Hk.
  - by apply list_elem_of_singleton in Hin as ->.
Qed.

Lemma take_turn_some h q r h' q' : take_turn h q = Some (r, h', q') →
  active (q_state q) = None ∧ rr_finished r = false ∧ rr_abandon r = qr_abandon h
  ∧ rj_job_id (rr_job r) = rj_job_id (qr_job h) ∧ qr_released h' = true
  ∧ queued (q_state q) = rr_job r :: queued (q_state q')
  ∧ active (q_state q') = Some (rr_job r) ∧ update_lock (q_state q') = update_lock (q_state q)
  ∧ q_notify q' = q_notify q.
Proof.
  unfold take_turn. destruct (active (q_state q)) eqn:Ha, (queued (q_state q)) as [|front rest] eqn:Hq; try done.
  case_bool_decide; [|done]. intros [= <- <- <-]. simpl. by split_and!.
Qed.

Lemma take_turn_busy h q : active (q_state q) ≠ None → take_turn h q = None.
Proof. unfold take_turn. by destruct (active (q_state q)). Qed.

(** Dropping the waiter of a queued job: the job leaves the queue, and its
    finalizer runs. *)
Lemma queued_drop_spec h w q l1 l2 : qr_released h = false →
  queued (q_state q) = l1 ++ qr_job h :: l2 → NoDup (job_ids (queued (q_state q))) →
  queued_drop h w q = (run_finalizer (qr_abandon h) (rj_job_id (qr_job h)) w,
    {| q_state := release_update_lock_if_idle
         {| active := active (q_state q); queued := l1 ++ l2; update_lock := update_lock (q_state q) |};
       q_notify := S (q_notify q) |}).
Proof.
  intros Hr Hq Hnd. unfold queued_drop, remove_queued_job. rewrite Hr, Hq. rewrite Hq in Hnd.
  assert (∀ l, rj_job_id (qr_job h) ∉ job_ids l →
    filter (λ j, rj_job_id j ≠ rj_job_id (qr_job h)) l = l) as Hkeep.
  { intros l Hl. apply list_filter_every. intros j Hj Heq. apply Hl. rewrite <-Heq. by apply list_elem_of_fmap_2. }
  unfold job_ids in Hnd. rewrite map_app in Hnd. simpl in Hnd.
  apply NoDup_app in Hnd as (_ & Hd & [Hn _]%NoDup_cons).
  rewrite filter_app, filter_cons_False by auto.
  rewrite !Hkeep; [|done|intros Hin; eapply Hd; [done|by left]].
  rewrite !length_app. simpl. by destruct (Nat.eqb_spec (length l1 + length l2) (length l1 + S (length l2))); [lia|].
Qed.

Lemma release_active_spec q job : active (q_state q) = Some job →
  release_active_job q job = (true,
    {| q_state := release_update_lock_if_idle
         {| active := None; queued := queued (q_state q); update_lock := update_lock (q_state q) |};
       q_notify := S (q_notify q) |}).
Proof. intros H. unfold release_active_job. rewrite H. simpl. by rewrite bool_decide_eq_true_2. Qed.

Lemma release_idle_fields st : active (release_update_lock_if_idle st) = active st
  ∧ queued (release_update_lock_if_idle st) = queued st
  ∧ (idle st = true → update_lock (release_update_lock_if_idle st) = None)
  ∧ (idle st = false → update_lock (release_update_lock_if_idle st) = update_lock st).
Proof. unfold release_update_lock_if_idle. by destruct (idle st) eqn:H. Qed.

Lemma idle_release st : idle (release_update_lock_if_idle st) = idle st.
Proof. unfold idle. by destruct (release_idle_fields st) as (-> & -> & _). Qed.

(** ** Every step keeps the invariant *)

Lemma inv_enqueue d lock key create abandon h w q : daemon_inv d →
  submit lock key create abandon (world d) (inner d) = (Ok (Queued h), (w, q)) →
  rj_job_id (qr_job h) ∉ live_ids d →
  daemon_inv {| world := w; inner := q; runners := runners d;
    waiters := waiters d ++ [{| w_handle := h; w_point := Accepted |}] |}.
Proof.
  intros [Hq Hids Hk Hr Hu Hi Hw] Hs Hfresh.
  apply submit_queued in Hs as (Hkey & Hjob & Hrel & Hab & _ & Ha & Hql & Hn & _).
  split; simpl; unfold live_ids, queue_ids in *; simpl; rewrite ?Ha, ?Hql.
  - by rewrite map_app, Hq.
  - rewrite app_assoc. unfold job_ids in *. rewrite map_app. apply NoDup_app. split_and!; [done| |apply NoDup_singleton].
    simpl. set_solver.
  - rewrite map_app. apply NoDup_app. split_and!; [done| |apply NoDup_singleton].
    simpl. rewrite Hjob. simpl. set_solver.
  - done.
  - done.
  - unfold idle. rewrite Hql. rewrite bool_decide_eq_false_2; [by rewrite andb_false_r|by destruct (queued _)].
  - apply Forall_app. split; [eapply waiters_ok_notified; [done|lia]|].
    apply Forall_singleton. unfold waiter_ok. simpl. by rewrite Hab.
Qed.

Lemma inv_refused d lock key create abandon r w q : daemon_inv d →
  submit lock key create abandon (world d) (inner d) = (r, (w, q)) → (∀ h, r ≠ Ok (Queued h)) →
  daemon_inv {| world := w; inner := q; waiters := waiters d; runners := runners d |}.
Proof.
  intros [Hq Hids Hk Hr Hu Hi Hw] Hs Hno. destruct (submit_refused _ _ _ _ _ _ _ _ _ Hs Hno) as (Hn & Hst).
  assert (active (q_state q) = active (q_state (inner d)) ∧ queued (q_state q) = queued (q_state (inner d))) as [Ha Hql]
    by (by destruct Hst as [->|(_ & _ & ->)]).
  split; simpl; unfold live_ids, queue_ids in *; simpl; rewrite ?Ha, ?Hql; try done.
  - destruct Hst as [->|(_ & Hidle & ->)]; [done|]. unfold idle in *. simpl. by rewrite Hidle.
  - eapply Forall_impl; [done|]. intros wt Hwt. eapply waiter_ok_mono; [done|lia|].
    intros _. unfold take_turn. by rewrite Ha, Hql; destruct (active _), (queued _); try case_bool_decide.
Qed.

(** A waiter that moves to another point. *)
Lemma inv_move d l1 wt l2 p : daemon_inv d → waiters d = l1 ++ wt :: l2 →
  waiter_ok (inner d) {| w_handle := w_handle wt; w_point := p |} →
  daemon_inv {| world := world d; inner := inner d; runners := runners d;
    waiters := l1 ++ {| w_handle := w_handle wt; w_point := p |} :: l2 |}.
Proof.
  intros [Hq Hids Hk Hr Hu Hi Hw] Hl Hok. rewrite Hl in *. split; simpl; try done.
  - by rewrite <-Hq, !map_app.
  - apply Forall_app in Hw as [Hw1 [_ Hw2]%Forall_cons]. apply Forall_app. split; [done|]. by constructor.
Qed.

(** The waiter whose turn it is holds the first job. *)
Lemma turn_is_first d l1 wt l2 r h q : daemon_inv d → waiters d = l1 ++ wt :: l2 →
  take_turn (w_handle wt) (inner d) = Some (r, h, q) → l1 = [] ∧ waiting_job wt = rr_job r.
Proof.
  intros Hinv Hl Ht. pose proof (di_queue d Hinv) as Hq. pose proof (di_ids d Hinv) as Hids.
  apply take_turn_some in Ht as (_ & _ & _ & Hid & _ & Hqd & _). rewrite Hl, Hqd in Hq.
  destruct l1 as [|w1 l1]; simpl in Hq; [by injection Hq|]. exfalso. injection Hq as Hj Hrest.
  unfold live_ids, queue_ids, job_ids in Hids. rewrite map_app, Hqd in Hids.
  apply NoDup_app in Hids as (_ & _ & Hids). simpl in Hids.
  apply NoDup_cons in Hids as [Hn _]. apply Hn. rewrite Hid, <-Hrest, !map_app.
  apply elem_of_app. right. by left.
Qed.

Lemma inv_start d l1 wt l2 r h q w' q' : daemon_inv d → waiters d = l1 ++ wt :: l2 →
  take_turn (w_handle wt) (inner d) = Some (r, h, q) → queued_drop h (world d) q = (w', q') →
  daemon_inv {| world := w'; inner := q'; waiters := l1 ++ l2; runners := runners d ++ [r] |}.
Proof.
  intros Hinv Hl Ht Hd. destruct (turn_is_first _ _ _ _ _ _ _ Hinv Hl Ht) as [-> Hj].
  apply take_turn_some in Ht as (Ha & Hrf & Hra & Hid & Hrel & Hqd & Ha' & Hlk & Hn).
  unfold queued_drop in Hd. rewrite Hrel in Hd. injection Hd as <- <-.
  destruct Hinv as [Hq Hids Hk Hr Hu Hi Hw]. rewrite Hl in Hq, Hw. simpl in *.
  unfold live_ids, queue_ids in *. rewrite Ha, Hqd in *. simpl in *.
  apply Forall_cons in Hw as [Hwt Hw]. split; simpl; unfold live_ids, queue_ids; simpl; rewrite ?Ha'.
  - by injection Hq.
  - done.
  - by apply NoDup_cons in Hk as [_ ?].
  - rewrite map_app, Hr. done.
  - apply Forall_app. split; [done|]. apply Forall_singleton. split; [done|]. rewrite Hra. apply Hwt.
  - unfold idle. by rewrite Ha'.
  - eapply Forall_impl; [done|]. intros wt' Hwt'. eapply waiter_ok_mono; [done|lia|].
    intros _ _. apply take_turn_busy. by rewrite Ha'.
Qed.

Lemma inv_drop d l1 wt l2 w q : daemon_inv d → waiters d = l1 ++ wt :: l2 →
  queued_drop (w_handle wt) (world d) (inner d) = (w, q) →
  daemon_inv {| world := w; inner := q; waiters := l1 ++ l2; runners := runners d |}.
Proof.
  intros [Hq Hids Hk Hr Hu Hi Hw] Hl Hd. rewrite Hl in Hq, Hw. rewrite map_app in Hq. simpl in Hq.
  apply Forall_app in Hw as [Hw1 [Hwt Hw2]%Forall_cons]. unfold live_ids, queue_ids, job_ids in Hids. rewrite map_app in Hids.
  erewrite queued_drop_spec in Hd; [|apply Hwt|by rewrite <-Hq|by apply NoDup_app in Hids as (_ & _ & ?)].
  injection Hd as <- <-. rewrite <-Hq in *.
  edestruct (release_idle_fields) as (Ha & Hql & Hlk & _).
  split; simpl; unfold live_ids, queue_ids, job_ids; simpl; rewrite ?Ha, ?Hql; simpl.
  - by rewrite map_app.
  - rewrite map_app. eapply sublist_NoDup; [done|]. rewrite !map_app. simpl.
    apply sublist_app, sublist_app; [done..|by apply sublist_cons].
  - eapply sublist_NoDup; [done|]. rewrite !map_app. simpl. apply sublist_app; [done|by apply sublist_cons].
  - done.
  - done.
  - rewrite idle_release. exact Hlk.
  - apply Forall_app. split; (eapply waiters_ok_notified; [done|simpl; lia]).
Qed.

(** The one running job is the active one, whether it finishes or is dropped. *)
Lemma runner_is_active d l1 r l2 : daemon_inv d → runners d = l1 ++ r :: l2 →
  l1 = [] ∧ l2 = [] ∧ active (q_state (inner d)) = Some (rr_job r).
Proof.
  intros Hinv Hl. pose proof (di_runner d Hinv) as Hr. rewrite Hl, map_app in Hr. simpl in Hr.
  destruct (active _); [|by destruct l1]. destruct l1; [|by destruct l1]. by destruct l2; injection Hr as ->.
Qed.

Lemma inv_release d r w : daemon_inv d → active (q_state (inner d)) = Some (rr_job r) →
  daemon_inv {| world := w; inner := (release_active_job (inner d) (rr_job r)).2;
                waiters := waiters d; runners := [] |}.
Proof.
  intros [Hq Hids Hk Hr Hu Hi Hw] Ha. rewrite (release_active_spec _ _ Ha). simpl.
  edestruct (release_idle_fields) as (Ha' & Hql & Hlk & _).
  split; simpl; unfold live_ids, queue_ids, job_ids in *; simpl; rewrite ?Ha', ?Hql; simpl; try done.
  - rewrite map_app in Hids. by apply NoDup_app in Hids as (_ & _ & ?).
  - rewrite idle_release. exact Hlk.
  - eapply waiters_ok_notified; [done|simpl; lia].
Qed.

Lemma step_inv d ev d' : daemon_inv d → step d ev d' → daemon_inv d'.
Proof.
  intros Hinv Hstep. pose proof (di_waiters d Hinv) as Hw. pose proof (di_unfinished d Hinv) as Hu.
  destruct Hstep as [ | |l1 wt l2 Hl Hm|l1 wt l2 seen Hl Hp Ht| |l1 wt l2 w q Hl Hd|l1 r l2 w q Hl Hd|l1 r l2 w q Hl Hd|w].
  - by eapply inv_enqueue.
  - by eapply inv_refused.
  - apply inv_move; [done..|]. rewrite Hl in Hw. apply Forall_app in Hw as [_ [Hwt _]%Forall_cons].
    split_and!; simpl; [apply Hwt..|done].
  - apply inv_move; [done..|]. rewrite Hl in Hw. apply Forall_app in Hw as [_ [Hwt _]%Forall_cons].
    destruct Hwt as (Hr & Ha & Hs). rewrite Hp in Hs. by split_and!.
  - by eapply inv_start.
  - by eapply inv_drop.
  - destruct (runner_is_active _ _ _ _ Hinv Hl) as (-> & -> & Ha). injection Hd as <- <-.
    by apply inv_release.
  - destruct (runner_is_active _ _ _ _ Hinv Hl) as (-> & -> & Ha). rewrite Hl in Hu.
    apply Forall_singleton in Hu as [Hf _]. unfold running_drop in Hd. rewrite Hf in Hd.
    rewrite (surjective_pairing (release_active_job _ _)) in Hd. injection Hd as <- <-. by apply inv_release.
  - by destruct Hinv.
Qed.

Lemma run_inv d evs d' : daemon_inv d → run d evs d' → daemon_inv d'.
Proof. intros Hinv Hrun. induction Hrun; [done|by eapply step_inv]. Qed.

(** ** The abstract queue the interleavings refine *)

Definition state_of (d : Daemon) : QueueState := q_state (inner d).
Definition with_turn (a : option ReconciliationJob) (l : list ReconciliationJob) (st : QueueState) : QueueState :=
  {| active := a; queued := l; update_lock := update_lock st |}.

(** One event of a first-in first-out queue with one active slot, whose members
    may leave from anywhere, and of its lock. *)
Inductive effect (st : QueueState) : event → QueueState → Prop :=
| EffEnqueued (m : bool) job :
    effect st (EvEnqueued m (rj_job_id job))
      (set_lock (if m then Some UpdateLockGuard else update_lock st)
         (with_turn (active st) (queued st ++ [job]) st))
| EffRefusedLocked : idle st = false → effect st EvRefused (set_lock (Some UpdateLockGuard) st)
| EffSilent ev : ev ∈ [EvRefused; EvListened; EvSlept; EvWorld] → effect st ev st
| EffStarted job rest : active st = None → queued st = job :: rest →
    effect st (EvStarted (rj_job_id job)) (with_turn (Some job) rest st)
| EffDropped l1 job l2 : queued st = l1 ++ job :: l2 →
    effect st (EvDropped (rj_job_id job)) (release_update_lock_if_idle (with_turn (active st) (l1 ++ l2) st))
| EffReleased ev job : active st = Some job → ev ∈ [EvFinished; EvAborted] →
    effect st ev (release_update_lock_if_idle (with_turn None (queued st) st)).

Lemma release_effect d ev job : active (state_of d) = Some job → ev ∈ [EvFinished; EvAborted] →
  effect (state_of d) ev (q_state (release_active_job (inner d) job).2).
Proof. intros Ha Hev. rewrite (release_active_spec _ _ Ha). by eapply EffReleased. Qed.

Lemma step_effect d ev d' : daemon_inv d → step d ev d' → effect (state_of d) ev (state_of d').
Proof.
  intros Hinv Hstep. pose proof (di_waiters d Hinv) as Hw. pose proof (di_ids d Hinv) as Hids.
  pose proof (di_queue d Hinv) as Hq. unfold live_ids, queue_ids, job_ids in *. unfold state_of.
  destruct Hstep as [lock key create abandon h w q Hs _|lock key create abandon r w q Hs Hno| | 
    |l1 wt l2 seen r h q w' q' Hl Hp Ht Hd|l1 wt l2 w q Hl Hd|l1 r l2 w q Hl Hd|l1 r l2 w q Hl Hd|w]; simpl.
  - apply submit_queued in Hs as (_ & _ & _ & _ & _ & Ha & Hql & _ & Hlk).
    destruct (q_state q). simpl in *. subst. apply EffEnqueued.
  - apply submit_refused in Hs as (_ & [->|(_ & Hi & ->)]); [|by apply EffRefusedLocked|done].
    apply EffSilent. by left.
  - apply EffSilent. set_solver.
  - apply EffSilent. set_solver.
  - apply take_turn_some in Ht as (Ha & _ & _ & _ & Hrel & Hqd & Ha' & Hlk & _).
    unfold queued_drop in Hd. rewrite Hrel in Hd. injection Hd as <- <-.
    destruct (q_state q) as [a l lk]. simpl in *. subst. by apply EffStarted.
  - rewrite Hl in Hq, Hw. rewrite map_app in Hq, Hids. simpl in Hq.
    apply Forall_app in Hw as [_ [Hwt _]%Forall_cons].
    erewrite queued_drop_spec in Hd; [|apply Hwt|by rewrite <-Hq|by apply NoDup_app in Hids as (_ & _ & ?)].
    injection Hd as <- <-. by apply (EffDropped _ _ (waiting_job wt)).
  - destruct (runner_is_active _ _ _ _ Hinv Hl) as (_ & _ & Ha). injection Hd as <- <-.
    apply release_effect; [done|by left].
  - destruct (runner_is_active _ _ _ _ Hinv Hl) as (-> & -> & Ha).
    pose proof (di_unfinished d Hinv) as Hu. rewrite Hl in Hu. apply Forall_singleton in Hu as [Hf _].
    unfold running_drop in Hd. rewrite Hf, (surjective_pairing (release_active_job _ _)) in Hd.
    injection Hd as <- <-. apply release_effect; [done|by right; left].
  - apply EffSilent. set_solver.
Qed.

(** While there is work, the lock is held, as long as every request takes it. *)
Definition locked_while_busy (st : QueueState) : Prop :=
  idle st = false → update_lock st = Some UpdateLockGuard.

Lemma release_locked a l st : locked_while_busy st →
  (active st = None → a = None) → (queued st = [] → l = []) ∨ idle st = false →
  locked_while_busy (release_update_lock_if_idle (with_turn a l st)).
Proof.
  unfold locked_while_busy. intros Hst Ha Hl. rewrite idle_release. intros Hi.
  destruct (release_idle_fields (with_turn a l st)) as (_ & _ & _ & ->); [|done]. simpl. apply Hst.
  destruct Hl as [Hl|]; [|done]. unfold idle, with_turn in *. simpl in *.
  destruct (active st); [done|]. rewrite Ha in Hi by done. simpl in *.
  apply bool_decide_eq_false in Hi. apply bool_decide_eq_false. auto.
Qed.

Lemma effect_locked st ev st' : effect st ev st' → (∀ i, ev ≠ EvEnqueued false i) →
  locked_while_busy st → locked_while_busy st'.
Proof.
  intros [m job|Hi|ev' Hev|job rest Ha Hq|l1 job l2 Hq|ev' job Ha Hev] Hm Hst; try done.
  - destruct m; [done|]. by destruct (Hm (rj_job_id job)).
  - intros _. simpl. apply Hst. unfold idle. by rewrite Hq, bool_decide_eq_false_2, andb_false_r.
  - apply release_locked; [done..|]. left. rewrite Hq. by destruct l1.
  - apply release_locked; [done..|]. right. unfold idle. by rewrite Ha.
Qed.

(** ** Order: what was accepted is started in the same order, or abandoned *)

Definition enqueued_id (ev : event) : option string :=
  match ev with EvEnqueued _ i => Some i | _ => None end.
Definition started_id (ev : event) : option string :=
  match ev with EvStarted i => Some i | _ => None end.
Definition dropped_id (ev : event) : option string :=
  match ev with EvDropped i => Some i | _ => None end.

(** The requests accepted are the jobs started, dropped or still queued, and the
    ones started or queued come in the order of acceptance. *)
Definition accounted (evs : list event) (st : QueueState) : Prop :=
  let waiting := job_ids (queued st) in
  sublist (omap started_id evs ++ waiting) (omap enqueued_id evs)
  ∧ omap enqueued_id evs ≡ₚ omap started_id evs ++ omap dropped_id evs ++ waiting.

Lemma omap_snoc {A B} (f : A → option B) l x : omap f (l ++ [x]) = omap f l ++ option_list (f x).
Proof. rewrite omap_app. simpl. by destruct (f x). Qed.

Lemma silent_ids ev : ev ∈ [EvRefused; EvListened; EvSlept; EvWorld] ∨ ev ∈ [EvFinished; EvAborted] →
  enqueued_id ev = None ∧ started_id ev = None ∧ dropped_id ev = None.
Proof. rewrite !elem_of_cons, elem_of_nil. naive_solver. Qed.

Lemma effect_accounted evs st ev st' : effect st ev st' → accounted evs st → accounted (evs ++ [ev]) st'.
Proof.
  unfold accounted, job_ids. rewrite !omap_snoc. intros Heff [Hs Hp].
  destruct Heff as [m job|Hi|ev' Hev|job rest Ha Hq|l1 job l2 Hq|ev' job Ha Hev];
    rewrite ?(proj1 (proj2 (release_idle_fields _))); simpl; rewrite ?Hq, ?map_app, ?app_nil_r in *.
  - split; [rewrite app_assoc; by apply sublist_app|]. rewrite Hp. simpl. by rewrite <-!app_assoc.
  - done.
  - destruct (silent_ids ev') as (-> & -> & ->); [by left|]. by rewrite !app_nil_r.
  - split; [by rewrite <-app_assoc|]. rewrite Hp. simpl. solve_Permutation.
  - split; [|rewrite Hp; simpl; solve_Permutation]. etrans; [|exact Hs].
    apply sublist_app, sublist_app; [done..|by apply sublist_cons].
  - destruct (silent_ids ev') as (-> & -> & ->); [by right|]. by rewrite !app_nil_r.
Qed.

(** ** Progress: nothing sleeps through its turn, and the queue drains *)

(** The events of the futures themselves, and with them the cancellations. *)
Definition cooperative (ev : event) : bool :=
  match ev with EvListened | EvSlept | EvStarted _ | EvFinished => true | _ => false end.
Definition draining (ev : event) : bool :=
  cooperative ev || match ev with EvDropped _ | EvAborted => true | _ => false end.

Definition settled (d : Daemon) : Prop :=
  waiters d = [] ∧ runners d = [] ∧ idle (state_of d) = true ∧ update_lock (state_of d) = None.

(** Rounds of the loop a waiter has left while nothing else happens. *)
Definition rounds (notify : nat) (wt : waiter) : nat :=
  match w_point wt with
  | Accepted => 4
  | Listening seen => if notify <=? seen then 1 else 3
  | Sleeping seen => if notify <=? seen then 0 else 2
  end.
Definition handles (d : Daemon) : nat := 2 * length (waiters d) + length (runners d).
Definition rounds_left (d : Daemon) : nat :=
  sum_list_with (rounds (q_notify (inner d))) (waiters d).

Lemma step_measure d ev d' : step d ev d' → draining ev = true →
  handles d' < handles d ∨ (handles d' = handles d ∧ rounds_left d' < rounds_left d).
Proof.
  unfold handles, rounds_left.
  intros [ | |l1 wt l2 Hl Hm|l1 wt l2 seen Hl Hp Ht|l1 wt l2 seen r h q w' q' Hl Hp Ht Hd|l1 wt l2 w q Hl Hd
    |l1 r l2 w q Hl Hd|l1 r l2 w q Hl Hd|w] Hev; try done; simpl; rewrite Hl.
  - right. rewrite !length_app. split; [done|]. rewrite !sum_list_with_app. simpl.
    unfold rounds, may_listen in *. simpl. rewrite Nat.leb_refl. destruct (w_point wt); [lia|done|].
    apply Nat.ltb_lt in Hm. destruct (Nat.leb_spec (q_notify (inner d)) seen); lia.
  - right. rewrite !length_app. split; [done|]. rewrite !sum_list_with_app. simpl.
    unfold rounds. simpl. rewrite Hp. destruct (_ <=? _); lia.
  - left. rewrite !length_app. simpl. lia.
  - left. rewrite !length_app. simpl. lia.
  - left. rewrite !length_app. simpl. lia.
  - left. rewrite !length_app. simpl. lia.
Qed.

Definition drains_to (d' d : Daemon) : Prop := ∃ ev, step d ev d' ∧ draining ev = true.

Lemma draining_terminates d : Acc drains_to d.
Proof.
  remember (handles d) as n eqn:Hn. revert d Hn. induction (lt_wf n) as [n _ IHn]. intros d Hn.
  remember (rounds_left d) as m eqn:Hm. revert d Hn Hm. induction (lt_wf m) as [m _ IHm]. intros d -> ->.
  constructor. intros d' (ev & Hstep & Hev).
  destruct (step_measure _ _ _ Hstep Hev) as [H|[He H]]; [by apply (IHn _ H)|by eapply (IHm _ H)].
Qed.

(** Somebody can always go on: the job that runs, or the waiter of the first one. *)
Lemma progress d : daemon_inv d → settled d ∨ ∃ ev d', step d ev d' ∧ cooperative ev = true.
Proof.
  intros Hinv. pose proof (di_queue d Hinv) as Hq. pose proof (di_runner d Hinv) as Hr.
  pose proof (di_waiters d Hinv) as Hw. destruct (runners d) as [|r rs] eqn:Hrs.
  2: { right. destruct (running_finish r (world d) (inner d)) as [w q] eqn:Hf.
       eexists _, _. split; [by apply (StepFinish d [] r rs)|done]. }
  simpl in Hr. destruct (active (q_state (inner d))) eqn:Ha; [done|].
  destruct (waiters d) as [|wt ws] eqn:Hws.
  - left. assert (idle (state_of d) = true) as Hi by (unfold idle, state_of; by rewrite Ha, <-Hq).
    split_and!; [done..|by apply (di_idle d Hinv)].
  - right. simpl in Hq. destruct (w_point wt) as [|seen|seen] eqn:Hp.
    + eexists _, _. split; [apply (StepListen d [] wt ws); [done|by rewrite Hp]|done].
    + assert (∃ r h q, take_turn (w_handle wt) (inner d) = Some (r, h, q)) as (r & h & q & Ht).
      { unfold take_turn. rewrite Ha, <-Hq, bool_decide_eq_true_2 by done. by eexists _, _, _. }
      destruct (queued_drop h (world d) q) as [w' q'] eqn:Hd.
      eexists _, _. split; [by eapply (StepStart d [] wt ws)|done].
    + destruct (decide (seen < q_notify (inner d))) as [Hlt|Hge].
      * eexists _, _. split; [apply (StepListen d [] wt ws); [done|]|done].
        unfold may_listen. rewrite Hp. by apply Nat.ltb_lt.
      * exfalso. apply Forall_cons in Hw as [(_ & _ & Hs) _]. rewrite Hp in Hs. destruct Hs as [Hle Ht].
        specialize (Ht ltac:(lia)). unfold take_turn in Ht.
        by rewrite Ha, <-Hq, bool_decide_eq_true_2 in Ht.
Qed.

Lemma run_cons d ev d1 evs d2 : step d ev d1 → run d1 evs d2 → run d (ev :: evs) d2.
Proof.
  intros Hs Hrun. induction Hrun as [|evs d' ev' d'' Hrun IH Hs'].
  - apply (run_snoc d [] d ev); [constructor|done].
  - by apply (run_snoc d (ev :: evs) d').
Qed.

Lemma drains d : daemon_inv d → ∃ evs d', run d evs d' ∧ Forall (λ ev, cooperative ev = true) evs ∧ settled d'.
Proof.
  induction (draining_terminates d) as [d _ IH]. intros Hinv.
  destruct (progress d Hinv) as [Hset|(ev & d1 & Hs & Hc)].
  - exists [], d. split_and!; [constructor|constructor|done].
  - destruct (IH d1) as (evs & d2 & Hrun & Hall & Hset).
    + exists ev. split; [done|]. unfold draining. by rewrite Hc.
    + by eapply step_inv.
    + exists (ev :: evs), d2. split_and!; [by eapply run_cons|by constructor|done].
Qed.

(** ** Properties of the queue *)

Inductive effects (st : QueueState) : list event → QueueState → Prop :=
| effects_nil : effects st [] st
| effects_snoc evs st' ev st'' : effects st evs st' → effect st' ev st'' → effects st (evs ++ [ev]) st''.

(** C6: Whatever the interleaving of requests, waiters, completions, cancellations
    and changes of the stored state: at most one job runs and it is the active one;
    every queued job has exactly one waiting handle, in queue order; no two queued
    jobs have the same key and no two live ones the same id; an idle queue has
    given the update lock back, and if every request took the lock a busy queue
    holds it. *)
Theorem queue_safe w evs d : run (daemon_init w) evs d →
  map rr_job (runners d) = option_list (active (state_of d))
  ∧ map waiting_job (waiters d) = queued (state_of d)
  ∧ NoDup (map rj_key (queued (state_of d))) ∧ NoDup (live_ids d)
  ∧ (idle (state_of d) = true → update_lock (state_of d) = None)
  ∧ ((∀ i, EvEnqueued false i ∉ evs) → idle (state_of d) = false →
       update_lock (state_of d) = Some UpdateLockGuard).
Proof.
  intros Hrun. assert (daemon_inv d) as Hinv by (eapply run_inv; [apply daemon_init_inv|done]).
  split_and!; try apply Hinv. clear Hinv. induction Hrun as [|evs d' ev d'' Hrun IH Hs]; [done|].
  intros Hm. assert (daemon_inv d') as Hinv by (eapply run_inv; [apply daemon_init_inv|done]).
  apply (effect_locked _ _ _ (step_effect _ _ _ Hinv Hs)); [set_solver|]. red. apply IH. set_solver.
Qed.

(** C8: The interleavings refine a first-in first-out queue: every run is a run
    of the abstract queue on the same events, the jobs that were accepted are
    exactly those started, dropped while queued, or still queued, and the ones
    started come in the order of acceptance, before the ones still queued. *)
Theorem queue_refines_fifo w evs d : run (daemon_init w) evs d →
  effects (q_state queue_new) evs (state_of d) ∧ accounted evs (state_of d).
Proof.
  intros Hrun. induction Hrun as [|evs d' ev d'' Hrun [IHe IHa] Hs].
  - split; [constructor|]. done.
  - assert (daemon_inv d') as Hinv by (eapply run_inv; [apply daemon_init_inv|done]).
    pose proof (step_effect _ _ _ Hinv Hs) as Heff.
    split; [by eapply effects_snoc|by eapply effect_accounted].
Qed.

(** C7: No wake-up is lost and the queue drains: from every state that can be
    reached, a waiter whose turn has come and that sleeps has been notified; the
    futures can bring the queue to rest by their own steps, every job started and
    the update lock released; and without new requests they cannot go on for ever,
    whatever is cancelled. *)
Theorem queue_drains w evs d : run (daemon_init w) evs d →
  (∀ wt seen, wt ∈ waiters d → w_point wt = Sleeping seen →
     can_take_turn (w_handle wt) (inner d) = true → may_listen (q_notify (inner d)) (w_point wt) = true)
  ∧ (∃ evs' d', run d evs' d' ∧ Forall (λ ev, cooperative ev = true) evs' ∧ settled d')
  ∧ Acc drains_to d.
Proof.
  intros Hrun. assert (daemon_inv d) as Hinv by (eapply run_inv; [apply daemon_init_inv|done]).
  split_and!; [|by apply drains|apply draining_terminates].
  intros wt seen Hin Hp Ht. pose proof (di_waiters d Hinv) as Hw. rewrite Forall_forall in Hw.
  destruct (Hw _ Hin) as (_ & _ & Hs). rewrite Hp in *. destruct Hs as [Hle Hs]. simpl.
  apply Nat.ltb_lt. unfold can_take_turn in Ht. destruct (decide (seen = q_notify (inner d))) as [He|]; [|lia].
  by rewrite (Hs He) in Ht.
Qed.

(** Enqueueing a mutating job: a queued job with the same key is returned and
    nothing changes; otherwise the update lock is held or taken first, one job with
    the id that was created goes to the end of the queue and the waiters are
    notified; when the lock cannot be taken or the id not created, the error is
    returned, the jobs are untouched, and a lock taken for nothing is released. *)
Theorem enqueue_mutating_spec acquire from_state key create abandon w q :
  let st := q_state q in
  match enqueue_mutating_with_key acquire from_state key create abandon w q with
  | (Ok (Coalesced job), (w', q')) => job ∈ queued st ∧ rj_key job = key ∧ w' = w ∧ q' = q
  | (Ok (Queued h), (w', q')) =>
      (key ∉ map rj_key (queued st)) ∧ create w = (Ok (rj_job_id (qr_job h)), w')
      ∧ (update_lock st = None → acquire w = Ok UpdateLockGuard)
      ∧ qr_job h = {| rj_key := key; rj_scope := key_scope key; rj_job_id := rj_job_id (qr_job h) |}
      ∧ q' = {| q_state := {| active := active st; queued := queued st ++ [qr_job h];
                              update_lock := Some UpdateLockGuard |}; q_notify := S (q_notify q) |}
  | (Err e, (w', q')) =>
      (key ∉ map rj_key (queued st))
      ∧ ((∃ e', update_lock st = None ∧ acquire w = Err e' ∧ e = from_state e' ∧ w' = w ∧ q' = q)
         ∨ (create w = (Err e, w') ∧ q_notify q' = q_notify q
            ∧ q_state q' = if bool_decide (update_lock st = None) && idle st then st
                           else set_lock (Some UpdateLockGuard) st))
  end.
Proof.
  intros st. unfold enqueue_mutating_with_key. fold st.
  destruct (matching_queued_job st key) as [job|] eqn:Hm.
  { apply matching_some in Hm as [? ?]. by split_and!. }
  apply matching_none in Hm. destruct q as [[a l lk] n]. simpl in st. subst st. simpl in *.
  destruct lk as [[]|]; simpl.
  - destruct (create w) as [[i|e] w1]; simpl; [by split_and!|]. split; [done|]. right. by split_and!.
  - destruct (acquire w) as [[]|e] eqn:Hacq; simpl.
    2: { split; [done|]. left. exists e. by split_and!. }
    destruct (create w) as [[i|e] w1]; simpl; [by split_and!|]. split; [done|]. right. split_and!; [done..|].
    unfold idle. simpl. destruct (negb (option_bool a)), (bool_decide (l = [])); done.
Qed.
End queue.

Arguments Daemon : clear implicits.
Arguments daemon_init {W} w.

(** ** A run: a job starts, a second one queues behind it and sleeps, the first finishes *)

Definition sample_submit (i : string) : list string → result StateError string * list string :=
  λ w, (Ok i, w ++ [i]).
Definition sample_abandon : string → list string → list string := λ i w, w ++ ["abandoned " +:+ i].
Definition sample_lock : option ((list string → result StateError UpdateLock) * (StateError → StateError)) :=
  Some (λ _, Ok UpdateLockGuard, λ e, e).
Definition sample_job (i : string) (key : ReconciliationQueueKey) : ReconciliationJob :=
  {| rj_key := key; rj_scope := key_scope key; rj_job_id := i |}.
Definition sample_key : ReconciliationQueueKey :=
  Reconcile (ProjectScope {| component_text := "project_1" |}).

Definition sample_handle (i : string) (key : ReconciliationQueueKey) : QueuedReconciliation :=
  {| qr_job := sample_job i key; qr_abandon := Some sample_abandon; qr_released := false |}.

Definition sample_running : RunningReconciliation :=
  {| rr_job := sample_job "job_1" UpdateSystem; rr_abandon := Some sample_abandon; rr_finished := false |}.

Definition sample_events : list event :=
  [EvEnqueued true "job_1"; EvListened; EvStarted "job_1"; EvEnqueued true "job_2"; EvListened;
   EvSlept; EvFinished].

Definition sample_daemon : Daemon (list string) :=
  {| world := ["job_1"; "job_2"];
     inner := {| q_state := {| active := None; queued := [sample_job "job_2" sample_key];
                               update_lock := Some UpdateLockGuard |}; q_notify := 3 |};
     waiters := [{| w_handle := sample_handle "job_2" sample_key; w_point := Sleeping 2 |}];
     runners := [] |}.

Lemma sample_run : run (E := StateError) (daemon_init []) sample_events sample_daemon.
Proof.
  unfold sample_events. eapply run_cons.
  { eapply (StepEnqueue _ sample_lock UpdateSystem (sample_submit "job_1") sample_abandon
      (sample_handle "job_1" UpdateSystem) ["job_1"]); [reflexivity|by apply (bool_decide_unpack _)]. }
  eapply run_cons; [by eapply (StepListen _ [] _ [])|].
  eapply run_cons; [eapply (StepStart _ [] _ [] _ sample_running); reflexivity|].
  eapply run_cons.
  { eapply (StepEnqueue _ sample_lock sample_key (sample_submit "job_2") sample_abandon
      (sample_handle "job_2" sample_key) ["job_1"; "job_2"]); [reflexivity|by apply (bool_decide_unpack _)]. }
  eapply run_cons; [by eapply (StepListen _ [] _ [])|].
  eapply run_cons; [by eapply (StepSleep _ [] _ [])|].
  eapply run_cons; [by eapply (StepFinish _ [] _ [])|].
  constructor.
Qed.

Lemma queue_safe_witness : NoDup (live_ids sample_daemon)
  ∧ update_lock (state_of sample_daemon) = Some UpdateLockGuard.
Proof.
  destruct (queue_safe [] sample_events sample_daemon sample_run) as (_ & _ & _ & Hids & _ & Hlock).
  split; [exact Hids|]. apply Hlock; [|reflexivity]. intros i. unfold sample_events. set_solver.
Defined.

Lemma queue_refines_fifo_witness : accounted sample_events (state_of sample_daemon).
Proof. exact (proj2 (queue_refines_fifo [] sample_events sample_daemon sample_run)). Defined.

Lemma queue_drains_witness : may_listen (q_notify (inner sample_daemon)) (Sleeping 2) = true.
Proof.
  destruct (queue_drains [] sample_events sample_daemon sample_run) as [H _].
  apply (H {| w_handle := sample_handle "job_2" sample_key; w_point := Sleeping 2 |} 2); [left|reflexivity..].
Defined.

(** A second request for the same scope joins the first, and an update does not. *)
Example duplicate_scope_coalesces :
  fst (enqueue_with_key (E := StateError) sample_key (sample_submit "job_3") sample_abandon [] (inner sample_daemon))
  = Ok (Coalesced (sample_job "job_2" sample_key)).
Proof. reflexivity. Qed.
Example lock_conflict_changes_nothing :
  enqueue_mutating_with_key (λ _, Err (CoordinationLockHeld "/run/update.lock")) (λ e, e) UpdateSystem
    (sample_submit "job_1") sample_abandon [] queue_new
  = (Err (CoordinationLockHeld "/run/update.lock"), ([], queue_new)).
Proof. reflexivity. Qed.
