(* ===== verification/DaemonDebounce.v ===== *)
(** * The reconciliation debouncer ([daemon/src/reconciliation.rs],
    [ReconciliationDebouncer]): bursts of requests become one call per scope *)

From S2P Require Import Prelude RustStr DaemonScope.

#[export] Instance scope_component_countable : Countable ReconciliationScopeComponent :=
  inj_countable' component_text (λ s, {| component_text := s |}) (λ '(Build_ReconciliationScopeComponent _), eq_refl).

Definition scope_encode (s : ReconciliationScope) :
    () + (ReconciliationScopeComponent + ReconciliationScopeComponent * ReconciliationScopeComponent) :=
  match s with
  | SystemScope => inl ()
  | ProjectScope id => inr (inl id)
  | ResourceScope name track => inr (inr (name, track))
  end.
Definition scope_decode
    (c : () + (ReconciliationScopeComponent + ReconciliationScopeComponent * ReconciliationScopeComponent)) :
    ReconciliationScope :=
  match c with
  | inl () => SystemScope
  | inr (inl id) => ProjectScope id
  | inr (inr (name, track)) => ResourceScope name track
  end.
#[export] Instance scope_countable : Countable ReconciliationScope.
Proof. refine (inj_countable' scope_encode scope_decode _). by intros []. Defined.

(** The derived [Ord] of a scope: the variant, then its components. *)
Definition scope_keys (s : ReconciliationScope) : list string :=
  match s with
  | SystemScope => ["0"]
  | ProjectScope id => ["1"; component_text id]
  | ResourceScope name track => ["2"; component_text name; component_text track]
  end.

(** ** Data and operations *)

Record DebounceInner := { pending : gset ReconciliationScope; worker_running : bool }.
Definition debounce_new : DebounceInner := {| pending := ∅; worker_running := false |}.

(** The locked block of [request]: the new state, and [should_spawn]. *)
Definition request (scope : ReconciliationScope) (inner : DebounceInner) : DebounceInner * bool :=
  if worker_running inner
  then ({| pending := {[scope]} ∪ pending inner; worker_running := true |}, false)
  else ({| pending := {[scope]} ∪ pending inner; worker_running := true |}, true).

(** The locked block of [flush_after_delay]: the scopes, in the order of the set. *)
Definition take_pending (inner : DebounceInner) : list ReconciliationScope * DebounceInner :=
  (order_by scope_keys (elements (pending inner)), {| pending := ∅; worker_running := false |}).

(** A spawned [flush_after_delay]: asleep for the delay, or in its loop. *)
Inductive worker : Type := Delaying | Flushing (scopes : list ReconciliationScope).

Record Debouncer := { inner : DebounceInner; workers : list worker }.
Definition debouncer_new : Debouncer := {| inner := debounce_new; workers := [] |}.

Inductive event : Type :=
| EvRequested (scope : ReconciliationScope)
| EvTaken
| EvHandled (scope : ReconciliationScope)
| EvEnded.
#[export] Instance event_eq_dec : EqDecision event.
Proof. solve_decision. Defined.

Inductive step (d : Debouncer) : event → Debouncer → Prop :=
| StepRequest scope inner' should_spawn :
    request scope (inner d) = (inner', should_spawn) →
    step d (EvRequested scope)
      {| inner := inner'; workers := workers d ++ if should_spawn then [Delaying] else [] |}
| StepTake l1 l2 scopes inner' :
    workers d = l1 ++ Delaying :: l2 → take_pending (inner d) = (scopes, inner') →
    step d EvTaken {| inner := inner'; workers := l1 ++ Flushing scopes :: l2 |}
| StepHandle l1 scope scopes l2 :
    workers d = l1 ++ Flushing (scope :: scopes) :: l2 →
    step d (EvHandled scope) {| inner := inner d; workers := l1 ++ Flushing scopes :: l2 |}
| StepEnd l1 l2 :
    workers d = l1 ++ Flushing [] :: l2 → step d EvEnded {| inner := inner d; workers := l1 ++ l2 |}.

Inductive run (d : Debouncer) : list event → Debouncer → Prop :=
| run_nil : run d [] d
| run_snoc evs d' ev d'' : run d evs d' → step d' ev d'' → run d (evs ++ [ev]) d''.

(** ** What is owed *)

Definition in_flight (w : worker) : list ReconciliationScope :=
  match w with Delaying => [] | Flushing scopes => scopes end.
Definition delaying (w : worker) : nat := match w with Delaying => 1 | Flushing _ => 0 end.

(** The calls the workers and the pending set still stand for. *)
Definition outstanding (d : Debouncer) : list ReconciliationScope :=
  elements (pending (inner d)) ++ (workers d ≫= in_flight).

Definition handled (s : ReconciliationScope) (ev : event) : nat :=
  if bool_decide (ev = EvHandled s) then 1 else 0.
Definition occurrences (s : ReconciliationScope) : list ReconciliationScope → nat :=
  sum_list_with (λ x, if bool_decide (x = s) then 1 else 0).

(** One worker sleeps while the flag says so, and the flag covers what is pending. *)
Record debouncer_inv (d : Debouncer) : Prop := {
  db_worker : sum_list_with delaying (workers d) = if worker_running (inner d) then 1 else 0;
  db_pending : pending (inner d) ≠ ∅ → worker_running (inner d) = true;
}.

Lemma debounce_step_inv d ev d' : debouncer_inv d → step d ev d' → debouncer_inv d'.
Proof.
  intros [Hw Hp] [scope inner' spawn Hr|l1 l2 scopes inner' Hl Ht|l1 scope scopes l2 Hl|l1 l2 Hl];
    try rewrite Hl, sum_list_with_app in Hw.
  - unfold request in Hr. destruct (worker_running (inner d)) eqn:Hrun; injection Hr as <- <-;
      split; simpl; try done; rewrite sum_list_with_app, Hw; done.
  - injection Ht as <- <-. split; simpl; [|done]. rewrite sum_list_with_app. simpl in *.
    destruct (worker_running (inner d)); lia.
  - by split; simpl; [rewrite sum_list_with_app|].
  - split; simpl; [|done]. by rewrite sum_list_with_app.
Qed.

Lemma debounce_run_inv d evs d' : debouncer_inv d → run d evs d' → debouncer_inv d'.
Proof. intros Hinv Hrun. induction Hrun; [done|by eapply debounce_step_inv]. Qed.

Lemma debouncer_new_inv : debouncer_inv debouncer_new.
Proof. by split. Qed.

Lemma ordered_scopes (X : gset ReconciliationScope) : order_by scope_keys (elements X) ≡ₚ elements X.
Proof. apply order_by_perm. Qed.

(** *** Each step neither loses nor invents a call *)

Lemma debounce_step_keeps s d ev d' : step d ev d' → s ∈ outstanding d →
  s ∈ outstanding d' ∨ ev = EvHandled s.
Proof.
  unfold outstanding. intros [scope inner' spawn Hr|l1 l2 scopes inner' Hl Ht|l1 scope scopes l2 Hl|l1 l2 Hl];
    cbn [inner workers]; rewrite ?Hl, ?bind_app, ?bind_cons; cbn [in_flight];
    rewrite !elem_of_app, ?elem_of_elements.
  - unfold request in Hr. destruct (worker_running _); injection Hr as <- <-; rewrite ?app_nil_r, ?bind_app; set_solver.
  - injection Ht as <- <-. rewrite ordered_scopes, elem_of_elements. set_solver.
  - rewrite elem_of_cons. naive_solver.
  - rewrite elem_of_nil. tauto.
Qed.

Lemma debounce_step_counts s d ev d' : step d ev d' →
  handled s ev + occurrences s (outstanding d')
  = occurrences s (outstanding d) + if bool_decide (ev = EvRequested s ∧ s ∉ pending (inner d)) then 1 else 0.
Proof.
  unfold outstanding, handled, occurrences.
  intros [scope inner' spawn Hr|l1 l2 scopes inner' Hl Ht|l1 scope scopes l2 Hl|l1 l2 Hl];
    cbn [inner workers]; rewrite ?Hl, ?bind_app, ?bind_cons, !sum_list_with_app; cbn [in_flight];
    rewrite ?sum_list_with_app.
  - assert (pending inner' = {[scope]} ∪ pending (inner d)) as Hp
      by (unfold request in Hr; by destruct (worker_running _); injection Hr as <- <-).
    assert ((if spawn then [Delaying] else []) ≫= in_flight = []) as Hwk by (by destruct spawn).
    rewrite Hp, Hwk. simpl. destruct (decide (scope ∈ pending (inner d))) as [Hin|Hin].
    + assert ({[scope]} ∪ pending (inner d) = pending (inner d)) as -> by set_solver.
      rewrite (bool_decide_eq_false_2 (_ ∧ _)) by (intros [[= ->] ?]; done). lia.
    + rewrite elements_union_singleton by done. simpl. destruct (decide (scope = s)) as [->|Hne].
      * rewrite !bool_decide_eq_true_2 by done. lia.
      * rewrite !bool_decide_eq_false_2 by (try intros [[= ->] ?]; done). lia.
  - rewrite (bool_decide_eq_false_2 (_ ∧ _)) by (by intros [? ?]). injection Ht as <- <-. simpl. rewrite elements_empty, (ordered_scopes (pending (inner d))). simpl. lia.
  - rewrite (bool_decide_eq_false_2 (_ ∧ _)) by (by intros [? ?]). simpl. repeat case_bool_decide; first [congruence|lia].
  - rewrite (bool_decide_eq_false_2 (_ ∧ _)) by (by intros [? ?]). simpl. lia.
Qed.

(** *** Bursts *)

(** The bursts of a scope so far: the stretches between two flushes in which it was requested, however
    often, and whether the last stretch is one. *)
Definition burst_step (s : ReconciliationScope) (acc : nat * bool) (ev : event) : nat * bool :=
  match ev with
  | EvRequested s' => if bool_decide (s' = s) then ((if acc.2 : bool then acc.1 else S acc.1), true) else acc
  | EvTaken => (acc.1, false)
  | _ => acc
  end.
Definition bursts (s : ReconciliationScope) (evs : list event) : nat * bool := foldl (burst_step s) (0, false) evs.

Lemma bursts_run s evs d : run debouncer_new evs d →
  bursts s evs = (sum_list_with (handled s) evs + occurrences s (outstanding d), bool_decide (s ∈ pending (inner d))).
Proof.
  intros Hrun. induction Hrun as [|evs d' ev d'' Hrun IH Hs]; [done|].
  unfold bursts. rewrite foldl_app. change (foldl (burst_step s) (0, false) evs) with (bursts s evs). rewrite IH. cbn [foldl].
  rewrite sum_list_with_app. cbn [sum_list_with]. pose proof (debounce_step_counts s _ _ _ Hs) as Hc.
  destruct Hs as [scope inner' spawn Hr|l1 l2 scopes inner' Hl Ht|l1 scope scopes l2 Hl|l1 l2 Hl]; unfold burst_step; cbn [fst snd inner] in *.
  - assert (pending inner' = {[scope]} ∪ pending (inner d')) as ->
      by (unfold request in Hr; by destruct (worker_running _); injection Hr as <- <-).
    destruct (decide (scope = s)) as [->|Hsc].
    + rewrite (bool_decide_eq_true_2 (s = s)) by done. rewrite (bool_decide_eq_true_2 (s ∈ {[s]} ∪ _)) by set_solver. f_equal.
      destruct (decide (s ∈ pending (inner d'))) as [Hin|Hin].
      * rewrite (bool_decide_eq_true_2 (s ∈ _)) by done. rewrite (bool_decide_eq_false_2 (_ ∧ _)) in Hc by tauto. lia.
      * rewrite (bool_decide_eq_false_2 (s ∈ _)) by done. rewrite (bool_decide_eq_true_2 (_ ∧ _)) in Hc by done. lia.
    + rewrite (bool_decide_eq_false_2 (scope = s)) by done.
      rewrite (bool_decide_eq_false_2 (_ ∧ _)) in Hc by (intros [[= ->] ?]; done). f_equal; [lia|]. apply bool_decide_ext. set_solver.
  - rewrite (bool_decide_eq_false_2 (_ ∧ _)) in Hc by (by intros [? ?]). injection Ht as <- <-. cbn [pending].
    rewrite (bool_decide_eq_false_2 (s ∈ ∅)) by set_solver. f_equal. lia.
  - rewrite (bool_decide_eq_false_2 (_ ∧ _)) in Hc by (by intros [? ?]). f_equal. lia.
  - rewrite (bool_decide_eq_false_2 (_ ∧ _)) in Hc by (by intros [? ?]). f_equal. lia.
Qed.

(** *** Properties *)

Lemma run_requested_owed d evs1 scope evs2 d' : run d (evs1 ++ EvRequested scope :: evs2) d' →
  EvHandled scope ∈ evs2 ∨ scope ∈ outstanding d'.
Proof.
  revert d'. induction evs2 as [|ev evs2 IH] using rev_ind; intros d' Hrun.
  - right. inversion Hrun as [Hnil|evs d1 ev d2 Hrun1 Hstep Heq]; subst.
    + by apply (f_equal length) in Hnil; rewrite length_app in Hnil; simpl in Hnil; lia.
    + apply app_inj_tail in Heq as [_ ->]. inversion Hstep as [s inner' spawn Hr| | |]; subst.
      unfold outstanding, request in *. simpl. destruct (worker_running _); injection Hr as <- <-; simpl; set_solver.
  - inversion Hrun as [Hnil|evs d1 ev' d2 Hrun1 Hstep Heq]; subst.
    + by apply (f_equal length) in Hnil; rewrite length_app in Hnil; simpl in Hnil; lia.
    + rewrite app_comm_cons, app_assoc in Heq. apply app_inj_tail in Heq as [-> ->].
      destruct (IH _ Hrun1) as [Hin|Hin]; [left; set_solver|].
      destruct (debounce_step_keeps _ _ _ _ Hstep Hin) as [?| ->]; [by right|left; set_solver].
Qed.

(** Without further requests every step brings the workers closer to their end. *)
Definition burden (w : worker) : nat :=
  match w with Delaying => 2 | Flushing scopes => S (length scopes) end.
Definition remaining (d : Debouncer) : nat :=
  length (elements (pending (inner d))) + sum_list_with burden (workers d).
Definition settles_to (d' d : Debouncer) : Prop :=
  ∃ ev, step d ev d' ∧ ∀ scope, ev ≠ EvRequested scope.

Lemma remaining_decreases d d' : settles_to d' d → remaining d' < remaining d.
Proof.
  intros (ev & Hstep & Hev). unfold remaining.
  destruct Hstep as [scope inner' spawn Hr|l1 l2 scopes inner' Hl Ht|l1 scope scopes l2 Hl|l1 l2 Hl];
    simpl; rewrite ?Hl, ?sum_list_with_app; simpl.
  - by destruct (Hev scope).
  - injection Ht as <- <-. cbn [pending]. rewrite elements_empty.
    rewrite (Permutation_length (ordered_scopes (pending (inner d)))). simpl. lia.
  - lia.
  - lia.
Qed.

Lemma settling_terminates d : Acc settles_to d.
Proof.
  remember (remaining d) as n eqn:Hn. revert d Hn. induction (lt_wf n) as [n _ IH]. intros d ->.
  constructor. intros d' Hs. by eapply IH; [apply remaining_decreases|].
Qed.

Lemma settling_progress d : debouncer_inv d → (workers d = [] ∧ outstanding d = []) ∨ ∃ d', settles_to d' d.
Proof.
  intros [Hw Hp]. unfold outstanding. destruct (workers d) as [|[|[|scope scopes]] ws] eqn:Hl.
  - left. simpl in Hw. destruct (worker_running (inner d)); [done|].
    destruct (decide (pending (inner d) = ∅)) as [->|Hne]; [|by specialize (Hp Hne)].
    simpl. by rewrite elements_empty.
  - right. eexists. exists EvTaken. split; [by apply (StepTake _ [] ws)|done].
  - right. eexists. exists EvEnded. split; [by apply (StepEnd _ [] ws)|done].
  - right. eexists. exists (EvHandled scope). split; [by apply (StepHandle _ [] scope scopes ws)|done].
Qed.

(** C29: In every run of the debouncer, each request is followed by a call of the
    handler for its scope, or that call is still owed; and bursts are one call: the calls made for a
    scope and those still owed are as many as the stretches between two flushes in which the scope
    was requested, however often it was requested in each (the stretch that is still open
    counts when the scope is pending, which it is exactly when it was requested in it);
    at most one worker sleeps, and one does whenever something is pending; and
    when the requests stop, the workers end after finitely many steps, owing nothing. *)
Theorem debounce_delivers evs d : run debouncer_new evs d →
  (∀ evs1 scope evs2, evs = evs1 ++ EvRequested scope :: evs2 →
     EvHandled scope ∈ evs2 ∨ scope ∈ outstanding d)
  ∧ (∀ scope, sum_list_with (handled scope) evs + occurrences scope (outstanding d) = (bursts scope evs).1
       ∧ (scope ∈ pending (inner d) ↔ (bursts scope evs).2 = true))
  ∧ (sum_list_with delaying (workers d) ≤ 1
     ∧ (pending (inner d) ≠ ∅ → sum_list_with delaying (workers d) = 1))
  ∧ Acc settles_to d
  ∧ ((workers d = [] ∧ outstanding d = []) ∨ ∃ d', settles_to d' d).
Proof.
  intros Hrun. assert (debouncer_inv d) as Hinv by (eapply debounce_run_inv; [apply debouncer_new_inv|done]).
  split_and!.
  - intros evs1 scope evs2 ->. by eapply run_requested_owed.
  - intros scope. rewrite (bursts_run scope evs d Hrun). cbn [fst snd]. by rewrite bool_decide_eq_true.
  - rewrite (db_worker d Hinv). by destruct (worker_running _); lia.
  - intros Hp. by rewrite (db_worker d Hinv), (db_pending d Hinv).
  - apply settling_terminates.
  - by apply settling_progress.
Qed.

(** Two requests for one scope and one for another before the delay is over. *)
Definition sample_scope : ReconciliationScope := ProjectScope {| component_text := "project_1" |}.
Definition sample_burst : list event :=
  [EvRequested sample_scope; EvRequested sample_scope; EvRequested SystemScope; EvTaken].

Lemma sample_burst_run : run debouncer_new sample_burst
  {| inner := debounce_new; workers := [Flushing [SystemScope; sample_scope]] |}.
Proof.
  change sample_burst with (((([] ++ [EvRequested sample_scope]) ++ [EvRequested sample_scope])
    ++ [EvRequested SystemScope]) ++ [EvTaken]).
  eapply run_snoc; [eapply run_snoc; [eapply run_snoc; [eapply run_snoc; [constructor|]|]|]|].
  1-3: eapply StepRequest; reflexivity.
  eapply (StepTake _ [] []); vm_compute; reflexivity.
Qed.

Lemma debounce_delivers_witness :
  sum_list_with (handled sample_scope) sample_burst + occurrences sample_scope [SystemScope; sample_scope] = 1.
Proof.
  destruct (debounce_delivers _ _ sample_burst_run) as (_ & H & _). exact (proj1 (H sample_scope)).
Defined.
