(* ===== verification/Manifest.v ===== *)
(** * The artifact manifest: [resources/src/manifest.rs], with the modules an
    artifact declares ([PhpExtensionModule] of [php_extensions.rs])

    The JSON text is read by [serde_json] into the raw records; what follows is
    the validation of those and the choice of an artifact. *)

From S2P Require Import Prelude RustStr Paths Identity Registry.

(** ** Data *)

(** [OffsetDateTime] compares instants: nanoseconds since the epoch. *)
Record PublishedAt := { published_instant : Z }.

Inductive PhpExtensionLoadKind : Type := Extension | ZendExtension.
Record PhpExtensionModule := {
  px_name : string; px_load_kind : PhpExtensionLoadKind; px_relative_path : string;
}.

Inductive RevocationState : Type := Active | Revoked (reason : string).

Record ManifestArtifact := {
  ma_resource_name : ResourceName;
  ma_track : TrackName;
  ma_artifact_version : ArtifactVersion;
  ma_upstream_version : string;
  ma_pv_build_revision : string;
  ma_platform : ArtifactPlatform;
  ma_url : string;
  ma_sha256 : Sha256Digest;
  ma_size : N;
  ma_published_at : PublishedAt;
  ma_php_extensions : list PhpExtensionModule;
  ma_revocation_state : RevocationState;
}.
Record ManifestTrack := { mt_name : TrackName; mt_artifacts : list ManifestArtifact }.
Record ManifestResource := {
  mr_name : ResourceName; mr_default_track : TrackName; mr_tracks : list ManifestTrack;
}.
Inductive ManifestSchemaVersion : Type := V1.
Record ArtifactManifest := {
  am_schema_version : ManifestSchemaVersion;
  am_minimum_pv_version : PvVersion;
  am_resources : list ManifestResource;
}.
Inductive ManifestSelection : Type :=
| SelectLatest (artifact : ManifestArtifact)
| RevokedFallback (artifact revoked_latest : ManifestArtifact).

Record RawManifestPhpExtension := { re_name : string; re_load_kind : string; re_path : string }.
Record RawArtifact := {
  ra_artifact_version : string;
  ra_upstream_version : string;
  ra_pv_build_revision : string;
  ra_platform : string;
  ra_url : string;
  ra_sha256 : string;
  ra_size : N;
  ra_published_at : string;
  ra_php_extensions : list RawManifestPhpExtension;
  ra_revoked : bool;
  ra_revocation_reason : option string;
}.
Record RawTrack := { rt_name : string; rt_artifacts : list RawArtifact }.
Record RawResource := { rr_name : string; rr_default_track : string; rr_tracks : list RawTrack }.
Record RawManifest := {
  rm_schema_version : N; rm_minimum_pv_version : string; rm_resources : list RawResource;
}.

(** [url::Url], as far as it is looked at. *)
Record ParsedUrl := {
  url_scheme : string; url_host : option string; url_path_segments : option (list string);
}.

#[export] Instance published_at_eq_dec : EqDecision PublishedAt.
Proof. solve_decision. Defined.
#[export] Instance php_load_kind_eq_dec : EqDecision PhpExtensionLoadKind.
Proof. solve_decision. Defined.
#[export] Instance php_module_eq_dec : EqDecision PhpExtensionModule.
Proof. solve_decision. Defined.
#[export] Instance revocation_eq_dec : EqDecision RevocationState.
Proof. solve_decision. Defined.
#[export] Instance resource_name_eq_dec : EqDecision ResourceName.
Proof. solve_decision. Defined.
#[export] Instance track_name_eq_dec : EqDecision TrackName.
Proof. solve_decision. Defined.
#[export] Instance artifact_version_eq_dec : EqDecision ArtifactVersion.
Proof. solve_decision. Defined.
#[export] Instance sha256_eq_dec : EqDecision Sha256Digest.
Proof. solve_decision. Defined.
#[export] Instance manifest_artifact_eq_dec : EqDecision ManifestArtifact.
Proof. solve_decision. Defined.

Definition artifact_version_text (a : ManifestArtifact) : string :=
  artifact_version_str (ma_artifact_version a).
Definition published (a : ManifestArtifact) : Z := published_instant (ma_published_at a).

(** ** Validation *)

(** [RevocationState::from_raw]. *)
Definition revocation_from_raw (revoked : bool) (reason : option string) :
    result ResourcesError RevocationState :=
  match revoked, reason with
  | false, None => Ok Active
  | false, Some _ => Err (InvalidRevocationState "revocation_reason requires revoked=true")
  | true, Some reason =>
      if negb (is_empty (trim reason)) then Ok (Revoked reason)
      else Err (InvalidRevocationState "revoked artifacts require a non-empty revocation_reason")
  | true, None =>
      Err (InvalidRevocationState "revoked artifacts require a non-empty revocation_reason")
  end.
Definition is_revoked (s : RevocationState) : bool :=
  match s with Revoked _ => true | Active => false end.

Definition schema_version_parse (value : N) : result ResourcesError ManifestSchemaVersion :=
  if (value =? 1)%N then Ok V1 else Err (UnsupportedManifestSchema value 1).

Definition reject_reserved_track_name (name : string) : result ResourcesError unit :=
  if is_reserved_alias name then Err (ReservedTrackName name) else Ok tt.

Definition resource_supports_php_extensions (resource : ResourceName) : bool :=
  bool_decide (resource_name_str resource = "php") || bool_decide (resource_name_str resource = "frankenphp").

Definition php_extension_name_char (c : ascii) : bool := is_ascii_alphanumeric c || char_eqb c "_".

Definition validate_manifest_php_extension_name (name : string) : result ResourcesError unit :=
  if negb (is_empty name) && str_all php_extension_name_char name then Ok tt
  else Err (InvalidManifest ("invalid PHP extension name " +:+ tick name)).

Definition validate_manifest_php_extension_path (path : string) : result ResourcesError string :=
  if is_empty path || contains BACKSLASH path || existsb is_empty (split SEPARATOR path) || is_absolute path
     || existsb (λ c, bool_decide (c = CurDir) || bool_decide (c = ParentDir)) (components path)
  then Err (InvalidManifest ("invalid PHP extension path " +:+ tick path))
  else Ok path.

Definition php_extension_from_raw (raw : RawManifestPhpExtension) : result ResourcesError PhpExtensionModule :=
  _ ← validate_manifest_php_extension_name (re_name raw);
  relative_path ← validate_manifest_php_extension_path (re_path raw);
  load_kind ← (if bool_decide (re_load_kind raw = "extension") then Ok Extension
               else if bool_decide (re_load_kind raw = "zend_extension") then Ok ZendExtension
               else Err (InvalidManifest ("invalid PHP extension load kind " +:+ tick (re_load_kind raw))));
  Ok {| px_name := re_name raw; px_load_kind := load_kind; px_relative_path := relative_path |}.

(** [.map(..).collect::<Result<Vec<_>>>()] with a set of the keys met so far: the
    first error stops the iteration, and a key met twice is the error [dup]. *)
Fixpoint collect_unique {A B K} `{Countable K} (key : A → K) (dup : A → ResourcesError)
    (f : A → result ResourcesError B) (seen : gset K) (l : list A) : result ResourcesError (list B) :=
  match l with
  | [] => Ok []
  | x :: l =>
      if bool_decide (key x ∈ seen) then Err (dup x)
      else
        y ← f x;
        ys ← collect_unique key dup f ({[key x]} ∪ seen) l;
        Ok (y :: ys)
  end.

Definition validate_manifest_php_extension_duplicates (extensions : list PhpExtensionModule) :
    result ResourcesError unit :=
  _ ← collect_unique px_name (λ e, InvalidManifest ("duplicate PHP extension " +:+ tick (px_name e)))
        Ok ∅ extensions;
  Ok tt.

Section manifest.
(** RFC 3339 parsing of the [time] crate, [Url::parse], and the version the crate is built as. *)
Context (parse_rfc3339 : string → option Z) (url_parse : string → option ParsedUrl).
Context (pkg_version : string).

Definition published_at_parse (value : string) : result ResourcesError PublishedAt :=
  match parse_rfc3339 value with
  | Some instant => Ok {| published_instant := instant |}
  | None => Err (InvalidPublishedAt value)
  end.

Definition validate_artifact_url (url : string) : result ResourcesError string :=
  if contains BACKSLASH url then Err (InvalidArtifactUrl url)
  else
    match url_parse url with
    | None => Err (InvalidArtifactUrl url)
    | Some parsed =>
        if negb (bool_decide (url_scheme parsed = "https")) || negb (option_bool (url_host parsed))
        then Err (InvalidArtifactUrl url)
        else
          match segments ← url_path_segments parsed; last segments with
          | None => Err (InvalidArtifactUrl url)
          | Some name =>
              if is_empty name || bool_decide (name = ".") || bool_decide (name = "..") || contains BACKSLASH name
              then Err (InvalidArtifactUrl url) else Ok url
          end
    end.

(** [ManifestArtifact::from_raw]: the fields are validated in the order they are written. *)
Definition artifact_from_raw (resource_name : ResourceName) (track : TrackName) (raw : RawArtifact) :
    result ResourcesError ManifestArtifact :=
  php_extensions ← try_map php_extension_from_raw (ra_php_extensions raw);
  _ ← validate_manifest_php_extension_duplicates php_extensions;
  _ ← ensure (bool_decide (php_extensions = []) || resource_supports_php_extensions resource_name)
        (InvalidManifest "php_extensions are only supported on php or frankenphp artifacts");
  artifact_version ← artifact_version_new (ra_artifact_version raw);
  platform ← artifact_platform_new (ra_platform raw);
  url ← validate_artifact_url (ra_url raw);
  sha256 ← sha256_new (ra_sha256 raw);
  published_at ← published_at_parse (ra_published_at raw);
  revocation_state ← revocation_from_raw (ra_revoked raw) (ra_revocation_reason raw);
  Ok {| ma_resource_name := resource_name; ma_track := track; ma_artifact_version := artifact_version;
        ma_upstream_version := ra_upstream_version raw; ma_pv_build_revision := ra_pv_build_revision raw;
        ma_platform := platform; ma_url := url; ma_sha256 := sha256; ma_size := ra_size raw;
        ma_published_at := published_at; ma_php_extensions := php_extensions;
        ma_revocation_state := revocation_state |}.

(** ** Candidates *)

Definition artifact_matches (target : TargetPlatform) (a : ManifestArtifact) : bool :=
  platform_matches (ma_platform a) target.

(** One artifact per version, an exact platform before [any]. *)
Definition candidate_entry (candidates : gmap string ManifestArtifact) (a : ManifestArtifact) :
    gmap string ManifestArtifact :=
  match candidates !! artifact_version_text a with
  | Some candidate =>
      if platform_is_exact (ma_platform a) && negb (platform_is_exact (ma_platform candidate))
      then <[artifact_version_text a := a]> candidates else candidates
  | None => <[artifact_version_text a := a]> candidates
  end.

Definition platform_selected_candidates (target : TargetPlatform) (t : ManifestTrack) : list ManifestArtifact :=
  (btree_iter (foldl candidate_entry ∅ (filter (λ a, artifact_matches target a = true) (mt_artifacts t)))).*2.

Definition specificity_entry (seen : gmap string (bool * bool)) (a : ManifestArtifact) : bool * bool :=
  let any := bool_decide (ma_platform a = AnyPlatform) in
  match seen !! artifact_version_text a with
  | Some (has_any, has_exact) => if any then (true, has_exact) else (has_any, true)
  | None => (any, platform_is_exact (ma_platform a))
  end.

Definition validate_platform_specificity (resource : string) (t : ManifestTrack) : result ResourcesError unit :=
  _ ← try_fold (λ seen a,
    let entry := specificity_entry seen a in
    if entry.1 && entry.2 then
      Err (InvalidManifest ("artifact version " +:+ tick (artifact_version_text a) +:+ " in resource "
        +:+ tick resource +:+ " track " +:+ tick (track_name_str (mt_name t))
        +:+ " mixes `any` with exact platforms"))
    else Ok (<[artifact_version_text a := entry]> seen)) (mt_artifacts t) ∅;
  Ok tt.

Definition duplicate_slot (resource : string) (t : ManifestTrack) : ResourcesError :=
  InvalidManifest ("duplicate published_at candidate in resource " +:+ tick resource +:+ " track "
    +:+ tick (track_name_str (mt_name t))).

Definition validate_unique_published_at_slots (resource : string) (t : ManifestTrack) :
    result ResourcesError unit :=
  try_iter (λ target,
    _ ← collect_unique published (λ _, duplicate_slot resource t) Ok ∅ (platform_selected_candidates target t);
    Ok tt) [DarwinArm64; DarwinAmd64].

(** [ManifestTrack::from_raw]. *)
Definition track_from_raw (resource : ResourceName) (raw : RawTrack) : result ResourcesError ManifestTrack :=
  _ ← reject_reserved_track_name (rt_name raw);
  name ← track_name_new (rt_name raw);
  artifacts ← collect_unique (λ a, (ra_artifact_version a, ra_platform a))
    (λ _, InvalidManifest ("duplicate artifact identity in resource " +:+ tick (resource_name_str resource)
       +:+ " track " +:+ tick (rt_name raw)))
    (artifact_from_raw resource name) ∅ (rt_artifacts raw);
  _ ← ensure (negb (bool_decide (artifacts = [])))
    (InvalidManifest ("resource " +:+ tick (resource_name_str resource) +:+ " track " +:+ tick (rt_name raw)
       +:+ " has no artifacts"));
  let track := {| mt_name := name; mt_artifacts := artifacts |} in
  _ ← validate_platform_specificity (resource_name_str resource) track;
  _ ← validate_unique_published_at_slots (resource_name_str resource) track;
  Ok track.

(** [ManifestResource::from_raw]. *)
Definition resource_from_raw (raw : RawResource) : result ResourcesError ManifestResource :=
  name ← resource_name_new (rr_name raw);
  _ ← reject_reserved_track_name (rr_default_track raw);
  default_track ← track_name_new (rr_default_track raw);
  tracks ← collect_unique rt_name
    (λ t, InvalidManifest ("duplicate track " +:+ tick (rt_name t) +:+ " for resource " +:+ tick (rr_name raw)))
    (track_from_raw name) ∅ (rr_tracks raw);
  _ ← ensure (existsb (λ t, bool_decide (mt_name t = default_track)) tracks)
    (InvalidManifest ("default track " +:+ tick (track_name_str default_track)
       +:+ " does not exist for resource " +:+ tick (resource_name_str name)));
  Ok {| mr_name := name; mr_default_track := default_track; mr_tracks := tracks |}.

(** The closure of [ArtifactManifest::from_raw] over the resources. *)
Fixpoint resources_from_raw (seen : gset string) (l : list RawResource) :
    result ResourcesError (list ManifestResource) :=
  match l with
  | [] => Ok []
  | raw :: l =>
      descriptor ← resolve (rr_name raw);
      if is_alias descriptor (rr_name raw) then Err (ManifestUsesAlias (rr_name raw) (rd_name descriptor))
      else if bool_decide (rr_name raw ∈ seen) then
        Err (InvalidManifest ("duplicate resource " +:+ tick (rr_name raw)))
      else
        resource ← resource_from_raw raw;
        resources ← resources_from_raw ({[rr_name raw]} ∪ seen) l;
        Ok (resource :: resources)
  end.

Definition manifest_from_raw (raw : RawManifest) : result ResourcesError ArtifactManifest :=
  schema_version ← schema_version_parse (rm_schema_version raw);
  minimum_pv_version ← pv_version_parse (rm_minimum_pv_version raw);
  current_pv_version ← pv_version_parse pkg_version;
  _ ← ensure (negb (bool_decide (pv_version_compare minimum_pv_version current_pv_version = Gt)))
    (RequiresNewerPv (pv_raw minimum_pv_version) (pv_raw current_pv_version));
  resources ← resources_from_raw ∅ (rm_resources raw);
  Ok {| am_schema_version := schema_version; am_minimum_pv_version := minimum_pv_version;
        am_resources := resources |}.
End manifest.

(** ** Selection *)

Definition best_candidate (resource : string) (target : TargetPlatform) (t : ManifestTrack)
    (candidates : list ManifestArtifact) : result ResourcesError (option ManifestArtifact) :=
  try_fold (λ best a,
    match best with
    | Some current =>
        if bool_decide (published a = published current) then
          Err (AmbiguousArtifactSelection resource (track_name_str (mt_name t)) (target_platform_str target))
        else if (published a <=? published current)%Z then Ok best
        else Ok (Some a)
    | None => Ok (Some a)
    end) candidates None.

Definition artifact_active (a : ManifestArtifact) : bool := negb (is_revoked (ma_revocation_state a)).

Definition track_select_latest (resource : string) (target : TargetPlatform) (t : ManifestTrack) :
    result ResourcesError ManifestSelection :=
  let candidates := platform_selected_candidates target t in
  installable ← best_candidate resource target t (filter (λ a, artifact_active a = true) candidates);
  installable ← ok_or installable
    (NoInstallableArtifact resource (track_name_str (mt_name t)) (target_platform_str target));
  latest ← best_candidate resource target t candidates;
  match latest with
  | Some revoked_latest =>
      if is_revoked (ma_revocation_state revoked_latest) && (published installable <? published revoked_latest)%Z
      then Ok (RevokedFallback installable revoked_latest)
      else Ok (SelectLatest installable)
  | None => Ok (SelectLatest installable)
  end.

Definition resource_track (track : string) (r : ManifestResource) : result ResourcesError ManifestTrack :=
  ok_or (List.find (λ t, bool_decide (track_name_str (mt_name t) = track)) (mr_tracks r))
    (TrackNotFound (resource_name_str (mr_name r)) track).

Definition manifest_resource (resource : ResourceName) (m : ArtifactManifest) : result ResourcesError ManifestResource :=
  match List.find (λ r, bool_decide (mr_name r = resource)) (am_resources m) with
  | Some r => Ok r
  | None =>
      _ ← resolve_canonical (resource_name_str resource);
      Err (ResourceNotInManifest (resource_name_str resource))
  end.

Definition select_latest (resource : ResourceName) (track : TrackName) (target : TargetPlatform)
    (m : ArtifactManifest) : result ResourcesError ManifestSelection :=
  r ← manifest_resource resource m;
  t ← resource_track (track_name_str track) r;
  track_select_latest (resource_name_str (mr_name r)) target t.

Definition select_artifact (resource : ResourceName) (track : TrackName) (artifact_version : ArtifactVersion)
    (target : TargetPlatform) (m : ArtifactManifest) : result ResourcesError (option ManifestArtifact) :=
  r ← manifest_resource resource m;
  t ← resource_track (track_name_str track) r;
  Ok (List.find (λ a, bool_decide (ma_artifact_version a = artifact_version))
        (platform_selected_candidates target t)).

Definition resolve_track (resource : ResourceName) (selector : TrackSelector) (m : ArtifactManifest) :
    result ResourcesError TrackName :=
  r ← manifest_resource resource m;
  match selector with
  | Latest => Ok (mr_default_track r)
  | Track track => mt_name <$> resource_track (track_name_str track) r
  end.

Definition resource_tracks (m : ArtifactManifest) : list (ResourceName * TrackName) :=
  r ← am_resources m; (λ t, (mr_name r, mt_name t)) <$> mr_tracks r.

Definition selection_artifact (s : ManifestSelection) : ManifestArtifact :=
  match s with SelectLatest a | RevokedFallback a _ => a end.
Definition selection_revoked_latest (s : ManifestSelection) : option ManifestArtifact :=
  match s with SelectLatest _ => None | RevokedFallback _ r => Some r end.

(** ** Well-formed manifests *)

Record track_wf (resource : ResourceName) (t : ManifestTrack) : Prop := {
  tw_artifacts : mt_artifacts t ≠ [];
  tw_owner : ∀ a, a ∈ mt_artifacts t → ma_resource_name a = resource ∧ ma_track a = mt_name t;
  tw_identity : NoDup ((λ a, (artifact_version_text a, ma_platform a)) <$> mt_artifacts t);
  tw_specific : ∀ a b, a ∈ mt_artifacts t → b ∈ mt_artifacts t →
    artifact_version_text a = artifact_version_text b →
    platform_is_exact (ma_platform a) = platform_is_exact (ma_platform b);
  tw_slots : ∀ target, NoDup (published <$> platform_selected_candidates target t);
  tw_modules : ∀ a, a ∈ mt_artifacts t → NoDup (px_name <$> ma_php_extensions a)
    ∧ (ma_php_extensions a ≠ [] → resource_supports_php_extensions resource = true);
  tw_name : valid_identity (track_name_str (mt_name t)) = true ∧ is_reserved_alias (track_name_str (mt_name t)) = false;
}.

Record resource_wf (r : ManifestResource) : Prop := {
  rw_tracks : ∀ t, t ∈ mr_tracks r → track_wf (mr_name r) t;
  rw_names : NoDup (mt_name <$> mr_tracks r);
  rw_default : mr_default_track r ∈ mt_name <$> mr_tracks r;
  rw_canonical : is_ok (resolve_canonical (resource_name_str (mr_name r))) = true;
}.

Record manifest_wf (m : ArtifactManifest) : Prop := {
  mw_resources : ∀ r, r ∈ am_resources m → resource_wf r;
  mw_names : NoDup (mr_name <$> am_resources m);
}.

(** *** [collect_unique] *)

Lemma collect_unique_ok {A B K} `{Countable K} (key : A → K) dup (f : A → result ResourcesError B) seen l ys :
  collect_unique key dup f seen l = Ok ys →
  NoDup (key <$> l) ∧ (∀ x, x ∈ l → key x ∉ seen) ∧ Forall2 (λ x y, f x = Ok y) l ys.
Proof.
  revert seen ys. induction l as [|x l IH]; intros seen ys; simpl.
  { intros [= <-]. split_and!; [constructor|set_solver|constructor]. }
  case_bool_decide as Hx; [done|]. intros Hc. inv_ok.
  destruct (IH _ _ E0) as (Hnd & Hseen & Hall). split_and!.
  - apply NoDup_cons. split; [|done]. rewrite list_elem_of_fmap. intros (x' & Heq & Hin).
    destruct (Hseen _ Hin). set_solver.
  - intros x' [->|Hin]%elem_of_cons; [done|]. specialize (Hseen _ Hin). set_solver.
  - by constructor.
Qed.

Lemma collect_unique_same {A K} `{Countable K} (key : A → K) dup seen (l l' : list A) :
  collect_unique key dup Ok seen l = Ok l' → l' = l ∧ NoDup (key <$> l).
Proof.
  intros H'. apply collect_unique_ok in H' as (Hnd & _ & Hall). split; [|done]. clear Hnd.
  induction Hall as [|x y l l' [= <-] _ IH]; [done|]. by rewrite IH.
Qed.

(** *** Candidates *)

Lemma foldl_candidates l m : NoDup (artifact_version_text <$> l) →
  (∀ a, a ∈ l → m !! artifact_version_text a = None) →
  ∀ k a, foldl candidate_entry m l !! k = Some a ↔ m !! k = Some a ∨ (a ∈ l ∧ artifact_version_text a = k).
Proof.
  revert m. induction l as [|x l IH]; intros m Hnd Hm k a; simpl; [set_solver|].
  apply NoDup_cons in Hnd as [Hx Hnd]. assert (m !! artifact_version_text x = None) as Hn by (apply Hm; by left).
  unfold candidate_entry at 2. rewrite Hn. rewrite IH; [|done|].
  - rewrite lookup_insert_Some, elem_of_cons. split.
    + intros [[[<- <-]|[_ ?]]|[? ?]]; auto.
    + intros [Hk|[[->|Hin] <-]]; [|by auto|by auto].
      left. right. split; [intros <-; congruence|done].
  - intros b Hb. rewrite lookup_insert_ne; [apply Hm; by right|]. intros Heq. apply Hx.
    rewrite Heq. by apply list_elem_of_fmap_2.
Qed.

Lemma matching_same_platform a b target : artifact_matches target a = true → artifact_matches target b = true →
  platform_is_exact (ma_platform a) = platform_is_exact (ma_platform b) → ma_platform a = ma_platform b.
Proof.
  unfold artifact_matches, platform_is_exact. by destruct (ma_platform a), (ma_platform b), target.
Qed.

(** In a well-formed track the candidates for a target are all the artifacts that match it. *)
Lemma candidates_perm resource t target : track_wf resource t →
  platform_selected_candidates target t ≡ₚ filter (λ a, artifact_matches target a = true) (mt_artifacts t).
Proof.
  intros Hwf. set (l := filter _ _).
  assert (∀ a b, a ∈ l → b ∈ l → artifact_version_text a = artifact_version_text b → a = b) as Hinj.
  { intros a b [Ha Ha']%list_elem_of_filter [Hb Hb']%list_elem_of_filter Hv.
    pose proof (matching_same_platform a b target Ha Hb (tw_specific _ _ Hwf a b Ha' Hb' Hv)) as Hp.
    eapply (NoDup_fmap_inj_on (λ a, (artifact_version_text a, ma_platform a))); [apply Hwf|done..|]. by rewrite Hv, Hp. }
  assert (NoDup l) as Hndl.
  { apply NoDup_filter. eapply NoDup_fmap_1. apply (tw_identity _ _ Hwf). }
  assert (NoDup (artifact_version_text <$> l)) as Hnd.
  { by apply NoDup_fmap_2_strong. }
  unfold platform_selected_candidates. fold l. apply NoDup_Permutation; [|done|].
  - unfold btree_iter.
    assert (NoDup ((map_to_list (foldl candidate_entry ∅ l)).*2)) as Hm; [|by rewrite sort_on_perm].
    apply NoDup_fmap_2_strong; [|apply NoDup_map_to_list].
    intros [k a] [k' a'] Hk Hk' Heq. simpl in Heq. subst a'.
    apply elem_of_map_to_list in Hk, Hk'. rewrite foldl_candidates in Hk, Hk' by done.
    destruct Hk as [?|[_ <-]]; [done|]. by destruct Hk' as [?|[_ <-]].
  - intros a. rewrite list_elem_of_fmap. split.
    + intros ([k a'] & -> & Hk%elem_of_btree_iter). rewrite foldl_candidates in Hk by done.
      by destruct Hk as [?|[? _]].
    + intros Ha. exists (artifact_version_text a, a). split; [done|]. apply elem_of_btree_iter.
      rewrite foldl_candidates by done. by right.
Qed.

(** *** The newest candidate *)

(** [a] is published after, or at the same instant as, every artifact of [l]. *)
Definition newest (l : list ManifestArtifact) (a : ManifestArtifact) : Prop :=
  a ∈ l ∧ ∀ b, b ∈ l → (published b ≤ published a)%Z.

Lemma best_candidate_spec resource target t l : NoDup (published <$> l) →
  ∃ best, best_candidate resource target t l = Ok best
    ∧ (best = None ↔ l = []) ∧ ∀ a, best = Some a → newest l a.
Proof.
  intros Hnd. unfold best_candidate.
  match goal with |- context [try_fold ?f _ _] => set (step := f) end.
  assert (∀ cur x, step (Some cur) x =
    if bool_decide (published x = published cur) then
      Err (AmbiguousArtifactSelection resource (track_name_str (mt_name t)) (target_platform_str target))
    else if (published x <=? published cur)%Z then Ok (Some cur) else Ok (Some x)) as Hstep by done.
  assert (∀ l cur, NoDup (published <$> (cur :: l)) →
    ∃ a, try_fold step l (Some cur) = Ok (Some a) ∧ newest (cur :: l) a) as Hgen.
  { clear l Hnd. induction l as [|x l IH]; intros cur Hnd.
    { exists cur. split; [done|]. split; [by left|]. by intros b ->%list_elem_of_singleton. }
    rewrite !fmap_cons in Hnd. apply NoDup_cons in Hnd as [Hcur Hnd].
    cbn [try_fold]. rewrite Hstep, bool_decide_eq_false_2 by set_solver.
    destruct (Z.leb_spec (published x) (published cur)); cbn [mbind result_bind].
    - destruct (IH cur) as (a & Ha & Hin & Hmax).
      { apply NoDup_cons in Hnd as [_ Hnd]. apply NoDup_cons. set_solver. }
      exists a. split; [done|]. split; [set_solver|]. intros b. rewrite !elem_of_cons. intros [->|[->|Hb]].
      + apply Hmax. by left.
      + etrans; [done|]. apply Hmax. by left.
      + apply Hmax. by right.
    - destruct (IH x) as (a & Ha & Hin & Hmax); [done|].
      exists a. split; [done|]. split; [set_solver|]. intros b. rewrite !elem_of_cons. intros [->|Hb].
      + etrans; [|apply (Hmax x); by left]. lia.
      + apply Hmax. set_solver. }
  destruct l as [|x l]; [exists None; by split_and!|].
  destruct (Hgen l x Hnd) as (a & Ha & Hnew). exists (Some a). split_and!; [done|done|].
  by intros ? [= <-].
Qed.

Lemma newest_perm l l' a : l ≡ₚ l' → newest l a ↔ newest l' a.
Proof. intros H. unfold newest. by setoid_rewrite H. Qed.

(** The artifacts a target can install, and the ones it matches at all. *)
Definition matching (target : TargetPlatform) (t : ManifestTrack) : list ManifestArtifact :=
  filter (λ a, artifact_matches target a = true) (mt_artifacts t).
Definition installable (target : TargetPlatform) (t : ManifestTrack) : list ManifestArtifact :=
  filter (λ a, artifact_active a = true) (matching target t).

Lemma track_select_latest_spec resource text target t : track_wf resource t →
  match track_select_latest text target t with
  | Ok s => newest (installable target t) (selection_artifact s)
      ∧ match selection_revoked_latest s with
        | Some r => newest (matching target t) r ∧ is_revoked (ma_revocation_state r) = true
            ∧ (published (selection_artifact s) < published r)%Z
        | None => newest (matching target t) (selection_artifact s)
        end
  | Err e => e = NoInstallableArtifact text (track_name_str (mt_name t)) (target_platform_str target)
      ∧ installable target t = []
  end.
Proof.
  intros Hwf. pose proof (candidates_perm _ _ target Hwf) as Hp. fold (matching target t) in Hp.
  pose proof (tw_slots _ _ Hwf target) as Hnd. unfold track_select_latest.
  set (cands := platform_selected_candidates target t) in *.
  assert (filter (λ a, artifact_active a = true) cands ≡ₚ installable target t) as Hpi
    by (unfold installable; by rewrite Hp).
  destruct (best_candidate_spec text target t cands Hnd) as (latest & Hl & Hlnone & Hlnew).
  destruct (best_candidate_spec text target t (filter (λ a, artifact_active a = true) cands)) as (best & Hb & Hbnone & Hbnew).
  { eapply sublist_NoDup; [exact Hnd|]. apply fmap_sublist, sublist_filter. }
  rewrite Hb. cbn [mbind result_bind]. destruct best as [a|]; cbn [ok_or mbind result_bind].
  2: { split; [done|]. apply Permutation_nil. by rewrite <-Hpi, (proj1 Hbnone). }
  specialize (Hbnew a eq_refl). rewrite (newest_perm _ _ _ Hpi) in Hbnew. rewrite Hl. cbn [mbind result_bind].
  destruct latest as [r|].
  2: { exfalso. destruct Hbnew as [Hin _]. unfold installable in Hin. apply list_elem_of_filter in Hin as [_ Hin].
       rewrite <-Hp, (proj1 Hlnone eq_refl) in Hin. by apply elem_of_nil in Hin. }
  specialize (Hlnew r eq_refl). rewrite (newest_perm _ _ _ Hp) in Hlnew.
  assert (a ∈ matching target t) as Ha.
  { destruct Hbnew as [Hin _]. by apply list_elem_of_filter in Hin as [_ ?]. }
  assert ((published r ≤ published a)%Z → newest (matching target t) a) as Hle.
  { intros Hra. split; [done|]. intros b Hin. etrans; [by apply Hlnew|done]. }
  destruct (is_revoked (ma_revocation_state r)) eqn:Hr; simpl.
  - destruct (Z.ltb_spec (published a) (published r)); simpl; by split_and!; auto.
  - split; [done|]. apply Hle, Hbnew. apply list_elem_of_filter. split; [|apply Hlnew].
    unfold artifact_active. by rewrite Hr.
Qed.

(** *** What validation establishes *)

Section from_raw.
Context (parse_rfc3339 : string → option Z) (url_parse : string → option ParsedUrl) (pkg_version : string).

Lemma artifact_platform_new_str s p : artifact_platform_new s = Ok p → artifact_platform_str p = s.
Proof. unfold artifact_platform_new. repeat case_bool_decide; intros H'; inv_ok; by subst. Qed.

Lemma artifact_from_raw_ok resource track raw a :
  artifact_from_raw parse_rfc3339 url_parse resource track raw = Ok a →
  ma_resource_name a = resource ∧ ma_track a = track
  ∧ artifact_version_text a = ra_artifact_version raw
  ∧ artifact_platform_str (ma_platform a) = ra_platform raw
  ∧ NoDup (px_name <$> ma_php_extensions a)
  ∧ (ma_php_extensions a ≠ [] → resource_supports_php_extensions resource = true).
Proof.
  unfold artifact_from_raw, validate_manifest_php_extension_duplicates, artifact_version_new.
  intros H'. inv_ok. unfold artifact_version_text. simpl. split_and!; [done|done| | | |].
  - destruct (validate_identity _ _) eqn:Hv; simpl in *; [|done]. inv_ok. simpl.
    by apply validate_identity_ok in Hv as [-> _].
  - by eapply artifact_platform_new_str.
  - by eapply collect_unique_same.
  - intros Hne. match goal with H : _ || _ = true |- _ => by rewrite bool_decide_eq_false_2 in H end.
Qed.

(** An artifact is recorded under its version by whether its platform is exact. *)
Definition recorded (seen : gmap string (bool * bool)) (a : ManifestArtifact) : Prop :=
  ∃ e, seen !! artifact_version_text a = Some e
    ∧ (if platform_is_exact (ma_platform a) then e.2 else e.1) = true ∧ e.1 && e.2 = false.

Lemma specificity_entry_recorded seen a : (specificity_entry seen a).1 && (specificity_entry seen a).2 = false →
  recorded (<[artifact_version_text a := specificity_entry seen a]> seen) a
  ∧ ∀ b, recorded seen b → recorded (<[artifact_version_text a := specificity_entry seen a]> seen) b.
Proof.
  intros Hs. assert (∀ b, artifact_version_text b = artifact_version_text a →
    (if platform_is_exact (ma_platform b) then (specificity_entry seen a).2 else (specificity_entry seen a).1) = true →
    recorded (<[artifact_version_text a := specificity_entry seen a]> seen) b) as Hrec.
  { intros b Hv Hb. exists (specificity_entry seen a). by rewrite Hv, lookup_insert_eq. }
  split.
  - apply Hrec; [done|]. unfold specificity_entry, platform_is_exact.
    case_bool_decide; destruct (seen !! artifact_version_text a) as [[]|]; done.
  - intros b (e & Hb & He & Hn). destruct (decide (artifact_version_text b = artifact_version_text a)) as [Hv|Hv].
    + apply Hrec; [done|]. unfold specificity_entry in *. rewrite <-Hv, Hb in *. destruct e as [e1 e2]. simpl in *.
      destruct (platform_is_exact (ma_platform b)); case_bool_decide; simpl in *; by subst.
    + exists e. by rewrite lookup_insert_ne.
Qed.

Lemma validate_platform_specificity_ok resource t : validate_platform_specificity resource t = Ok tt →
  ∀ a b, a ∈ mt_artifacts t → b ∈ mt_artifacts t → artifact_version_text a = artifact_version_text b →
    platform_is_exact (ma_platform a) = platform_is_exact (ma_platform b).
Proof.
  unfold validate_platform_specificity.
  match goal with |- context [try_fold ?f _ _] => set (step := f) end. intros H'.
  destruct (try_fold step (mt_artifacts t) ∅) as [seen|] eqn:Hf; [|done]. clear H'.
  assert (∀ l seen seen', try_fold step l seen = Ok seen' →
    (∀ a, a ∈ l → recorded seen' a) ∧ ∀ a, recorded seen a → recorded seen' a) as Hgen.
  { clear. induction l as [|x l IH]; intros seen seen' H'.
    { injection H' as <-. split; [by intros a ?%elem_of_nil|done]. }
    cbn [try_fold] in H'. destruct (step seen x) as [seen1|] eqn:Hx; [|done]. cbn [mbind result_bind] in H'.
    destruct (IH _ _ H') as [Hl Hmono]. unfold step in Hx.
    destruct ((specificity_entry seen x).1 && (specificity_entry seen x).2) eqn:Hs; [done|]. injection Hx as <-.
    destruct (specificity_entry_recorded seen x Hs) as [Hx Hkeep].
    split; [|by auto]. intros a [->|Ha]%elem_of_cons; auto. }
  destruct (Hgen _ _ _ Hf) as [Hrec _]. intros a b Ha Hb Hv.
  destruct (Hrec a Ha) as (e & He & Hea & Hn), (Hrec b Hb) as (e' & He' & Heb & _).
  rewrite Hv, He' in He. injection He as ->.
  destruct (platform_is_exact (ma_platform a)), (platform_is_exact (ma_platform b)), e as [[] []]; done.
Qed.

Lemma validate_slots_ok resource t : validate_unique_published_at_slots resource t = Ok tt →
  ∀ target, NoDup (published <$> platform_selected_candidates target t).
Proof.
  unfold validate_unique_published_at_slots. intros H' target. apply try_iter_ok in H'.
  assert (target ∈ [DarwinArm64; DarwinAmd64]) as Hin by (destruct target; set_solver).
  rewrite Forall_forall in H'. apply H' in Hin. inv_ok. by eapply collect_unique_same.
Qed.

Lemma track_name_new_ok s t : track_name_new s = Ok t → track_name_str t = s ∧ valid_identity s = true.
Proof.
  unfold track_name_new. destruct (validate_identity _ _) eqn:Hv; simpl; [|done]. intros [= <-].
  by apply validate_identity_ok in Hv as [-> ?].
Qed.

Lemma track_from_raw_wf resource raw t : track_from_raw parse_rfc3339 url_parse resource raw = Ok t →
  track_wf resource t ∧ track_name_str (mt_name t) = rt_name raw.
Proof.
  unfold track_from_raw, reject_reserved_track_name. destruct (is_reserved_alias (rt_name raw)) eqn:Hres; [done|].
  cbn [mbind result_bind].
  destruct (track_name_new (rt_name raw)) as [name|] eqn:Hname; [|done]. cbn [mbind result_bind].
  destruct (collect_unique _ _ _ ∅ (rt_artifacts raw)) as [l|] eqn:Hall; [|done]. cbn [mbind result_bind].
  case_bool_decide as Hne; [done|]. cbn [ensure negb mbind result_bind]. set (track := {| mt_name := name; mt_artifacts := l |}).
  destruct (validate_platform_specificity _ track) as [[]|] eqn:Hspec; [|done]. cbn [mbind result_bind].
  destruct (validate_unique_published_at_slots _ track) as [[]|] eqn:Hslots; [|done]. intros [= <-].
  apply track_name_new_ok in Hname as [Hname Hid]. apply collect_unique_ok in Hall as (Hnd & _ & Hall).
  assert (∀ a, a ∈ l → ∃ raw', artifact_from_raw parse_rfc3339 url_parse resource name raw' = Ok a) as Hraw.
  { intros a Ha. destruct (Forall2_elem_r _ _ _ _ Hall Ha) as (raw' & _ & H'). by exists raw'. }
  split; [|done]. split; simpl.
  - done.
  - intros a (raw' & H')%Hraw. by apply artifact_from_raw_ok in H' as (? & ? & _).
  - apply (NoDup_fmap_1 (prod_map id artifact_platform_str)). rewrite <-list_fmap_compose.
    erewrite <-Forall2_keys; [exact Hnd| |exact Hall].
    intros x y H'. apply artifact_from_raw_ok in H' as (_ & _ & Hv & Hp & _). unfold compose. simpl. by rewrite Hv, Hp.
  - exact (validate_platform_specificity_ok _ track Hspec).
  - exact (validate_slots_ok _ track Hslots).
  - intros a (raw' & H')%Hraw. by apply artifact_from_raw_ok in H' as (_ & _ & _ & _ & ?).
  - by rewrite Hname.
Qed.

Lemma resource_from_raw_wf raw r : resource_from_raw parse_rfc3339 url_parse raw = Ok r →
  is_ok (resolve_canonical (rr_name raw)) = true →
  resource_wf r ∧ resource_name_str (mr_name r) = rr_name raw.
Proof.
  unfold resource_from_raw, resource_name_new. intros H' Hcanon.
  destruct (validate_identity _ _) as [name|] eqn:Hname; [|done]. cbn [fmap result_fmap mbind result_bind] in H'.
  apply validate_identity_ok in Hname as [-> _].
  destruct (reject_reserved_track_name _) as [[]|]; [|done]. cbn [mbind result_bind] in H'.
  destruct (track_name_new _) as [default_track|]; [|done]. cbn [mbind result_bind] in H'.
  destruct (collect_unique _ _ _ ∅ (rr_tracks raw)) as [l|] eqn:Hall; [|done]. cbn [mbind result_bind] in H'.
  destruct (existsb _ l) eqn:Hdef; [|done]. injection H' as <-. simpl.
  apply collect_unique_ok in Hall as (Hnd & _ & Hall). split; [|done]. split; simpl.
  - intros t Ht. destruct (Forall2_elem_r _ _ _ _ Hall Ht) as (raw' & _ & H').
    by apply track_from_raw_wf in H' as [? _].
  - apply (NoDup_fmap_1 track_name_str). rewrite <-list_fmap_compose.
    erewrite <-Forall2_keys; [exact Hnd| |exact Hall].
    intros x t H'. by apply track_from_raw_wf in H' as [_ <-].
  - apply existsb_exists in Hdef as (t & Hin & Ht). apply bool_decide_eq_true in Ht as <-.
    by apply list_elem_of_fmap_2, list_elem_of_In.
  - done.
Qed.

Lemma resolve_not_alias name d : resolve name = Ok d → is_alias d name = false →
  is_ok (resolve_canonical name) = true.
Proof.
  unfold resolve, resolve_canonical. intros Hr Ha. destruct (List.find _ RESOURCES) as [d'|] eqn:Hf in Hr; cbn [ok_or] in Hr; [|done].
  injection Hr as ->. apply find_some in Hf as [Hin Hf]. rewrite Ha, orb_false_r in Hf.
  destruct (List.find (λ d, is_canonical d name) RESOURCES) eqn:Hc; [done|].
  by rewrite (find_none _ _ Hc d Hin) in Hf.
Qed.

Lemma resources_from_raw_wf seen l rs : resources_from_raw parse_rfc3339 url_parse seen l = Ok rs →
  (∀ r, r ∈ rs → resource_wf r ∧ resource_name_str (mr_name r) ∉ seen) ∧ NoDup (mr_name <$> rs).
Proof.
  revert seen rs. induction l as [|raw l IH]; intros seen rs; cbn [resources_from_raw].
  { intros [= <-]. split; [by intros r ?%elem_of_nil|constructor]. }
  destruct (resolve (rr_name raw)) as [d|] eqn:Hd; [|done]. cbn [mbind result_bind].
  destruct (is_alias d (rr_name raw)) eqn:Ha; [done|]. case_bool_decide as Hseen; [done|].
  destruct (resource_from_raw _ _ raw) as [r|] eqn:Hr; [|done]. cbn [mbind result_bind].
  destruct (resources_from_raw _ _ _ l) as [rs'|] eqn:Hrs; [|done]. intros [= <-].
  apply resource_from_raw_wf in Hr as [Hwf Hname]; [|by eapply resolve_not_alias].
  apply IH in Hrs as [Hall Hnd]. split.
  - intros r' [->|Hin]%elem_of_cons; [by rewrite Hname|]. destruct (Hall r' Hin). set_solver.
  - rewrite fmap_cons. apply NoDup_cons. split; [|done]. rewrite list_elem_of_fmap. intros (r' & Heq & Hin).
    destruct (Hall r' Hin) as [_ Hn]. rewrite <-Heq, Hname in Hn. set_solver.
Qed.

Lemma manifest_resources_wf raw m : manifest_from_raw parse_rfc3339 url_parse pkg_version raw = Ok m → manifest_wf m.
Proof.
  unfold manifest_from_raw. intros H'. inv_ok.
  match goal with H : resources_from_raw _ _ ∅ _ = Ok _ |- _ => apply resources_from_raw_wf in H as [Hall Hnd] end.
  split; simpl; [|done]. intros r Hr. by apply Hall.
Qed.

(** C15: A manifest that is accepted is well formed: its schema is known and its
    minimum version not newer than this build's; its resources are canonical
    registry names, each once; each has the default track among its tracks, the
    track names valid, not reserved and each once; each track has artifacts, all
    its own, no two with the same version and platform, no version both for any
    platform and an exact one, and no two candidates of a target published at the
    same instant; only PHP runtimes declare modules, each once. *)
Theorem manifest_from_raw_wf raw m : manifest_from_raw parse_rfc3339 url_parse pkg_version raw = Ok m →
  manifest_wf m ∧ rm_schema_version raw = 1%N
  ∧ ∃ current, pv_version_parse pkg_version = Ok current
      ∧ pv_version_compare (am_minimum_pv_version m) current ≠ Gt.
Proof.
  intros H'. split; [by eapply manifest_resources_wf|]. revert H'.
  unfold manifest_from_raw, schema_version_parse. destruct (N.eqb_spec (rm_schema_version raw) 1) as [Hs|]; [|done].
  cbn [mbind result_bind]. destruct (pv_version_parse (rm_minimum_pv_version raw)) as [v|]; [|done].
  cbn [mbind result_bind]. destruct (pv_version_parse pkg_version) as [current|]; [|done]. cbn [mbind result_bind].
  case_bool_decide as Hle; [done|]. cbn [ensure negb mbind result_bind].
  destruct (resources_from_raw _ _ ∅ _) as [rs|]; [|done]. intros [= <-].
  split; [done|]. by exists current.
Qed.
End from_raw.

(** ** Selecting from a well-formed manifest *)

(** [t] is the track of the manifest with these names. *)
Definition located (m : ArtifactManifest) (resource : ResourceName) (track : TrackName)
    (r : ManifestResource) (t : ManifestTrack) : Prop :=
  r ∈ am_resources m ∧ mr_name r = resource ∧ t ∈ mr_tracks r ∧ mt_name t = track.

Lemma track_name_str_inj a b : track_name_str a = track_name_str b → a = b.
Proof. destruct a, b. simpl. by intros ->. Qed.

Lemma manifest_resource_spec resource m :
  match manifest_resource resource m with
  | Ok r => r ∈ am_resources m ∧ mr_name r = resource
  | Err e => (∀ r, r ∈ am_resources m → mr_name r ≠ resource)
      ∧ (e = ResourceNotInManifest (resource_name_str resource) ∨ e = UnknownResource (resource_name_str resource))
  end.
Proof.
  unfold manifest_resource. destruct (List.find _ (am_resources m)) as [r|] eqn:Hf.
  - apply find_some in Hf as [Hin Hn]. apply bool_decide_eq_true in Hn. split; [by apply list_elem_of_In|done].
  - assert (∀ r, r ∈ am_resources m → mr_name r ≠ resource) as Hno.
    { intros r Hin%list_elem_of_In Hr. apply (find_none _ _ Hf) in Hin. by apply bool_decide_eq_false in Hin. }
    unfold resolve_canonical. destruct (List.find _ RESOURCES); cbn [ok_or mbind result_bind]; auto.
Qed.

Lemma resource_track_spec track r :
  match resource_track (track_name_str track) r with
  | Ok t => t ∈ mr_tracks r ∧ mt_name t = track
  | Err e => (∀ t, t ∈ mr_tracks r → mt_name t ≠ track)
      ∧ e = TrackNotFound (resource_name_str (mr_name r)) (track_name_str track)
  end.
Proof.
  unfold resource_track. destruct (List.find _ (mr_tracks r)) as [t|] eqn:Hf; cbn [ok_or].
  - apply find_some in Hf as [Hin Hn]. apply bool_decide_eq_true in Hn.
    split; [by apply list_elem_of_In|by apply track_name_str_inj].
  - split; [|done]. intros t Hin%list_elem_of_In Ht. apply (find_none _ _ Hf) in Hin.
    apply bool_decide_eq_false in Hin. by rewrite Ht in Hin.
Qed.

Lemma located_wf m resource track r t : manifest_wf m → located m resource track r t → track_wf resource t.
Proof. intros Hwf (Hr & <- & Ht & _). by apply (mw_resources m Hwf r Hr). Qed.

(** In a well-formed manifest the latest artifact is chosen without
    ambiguity: it is one of the named track that matches the target, not revoked,
    and the newest of those; when a revoked one is newer still the choice says so
    and names the newest; it fails only when the resource or track is not there,
    or every artifact that matches the target is revoked. *)
Theorem select_latest_spec m resource track target : manifest_wf m →
  match select_latest resource track target m with
  | Ok s => ∃ r t, located m resource track r t ∧ newest (installable target t) (selection_artifact s)
      ∧ match selection_revoked_latest s with
        | Some a => newest (matching target t) a ∧ is_revoked (ma_revocation_state a) = true
            ∧ (published (selection_artifact s) < published a)%Z
        | None => newest (matching target t) (selection_artifact s)
        end
  | Err e =>
      (∃ r t, located m resource track r t ∧ installable target t = []
         ∧ e = NoInstallableArtifact (resource_name_str resource) (track_name_str track) (target_platform_str target))
      ∨ ((∀ r t, ¬ located m resource track r t)
         ∧ (e = TrackNotFound (resource_name_str resource) (track_name_str track)
            ∨ e = ResourceNotInManifest (resource_name_str resource)
            ∨ e = UnknownResource (resource_name_str resource)))
  end.
Proof.
  intros Hwf. unfold select_latest. pose proof (manifest_resource_spec resource m) as Hr.
  destruct (manifest_resource resource m) as [r|e]; cbn [mbind result_bind].
  2: { destruct Hr as [Hno He]. right. split; [|tauto]. intros r t (Hin & Hn & _). by apply (Hno r). }
  destruct Hr as [Hr Hn]. pose proof (resource_track_spec track r) as Ht.
  destruct (resource_track _ r) as [t|e]; cbn [mbind result_bind].
  2: { destruct Ht as [Hno ->]. right. rewrite Hn. split; [|by left]. intros r' t (Hr' & Hn' & Ht & Htn).
       assert (r' = r) as -> by (eapply (NoDup_fmap_inj_on mr_name); [apply Hwf|done..|by rewrite Hn]).
       by apply (Hno t). }
  destruct Ht as [Ht Htn]. assert (located m resource track r t) as Hloc by done.
  pose proof (track_select_latest_spec resource (resource_name_str (mr_name r)) target t
    (located_wf _ _ _ _ _ Hwf Hloc)) as Hs.
  rewrite Hn in *. destruct (track_select_latest _ target t) as [s|e].
  - by exists r, t.
  - destruct Hs as [-> Hi]. left. exists r, t. by rewrite Htn.
Qed.

(** In a well-formed manifest a version is found exactly when the named track
    has an artifact of that version for the target, and it is that artifact;
    a selector resolves to a track the resource has, so that choosing the latest
    artifact of a resolved track can only fail for want of one that is not revoked. *)
Theorem select_artifact_spec m resource : manifest_wf m →
  (∀ track version target a, select_artifact resource track version target m = Ok (Some a) ↔
     ∃ r t, located m resource track r t ∧ a ∈ mt_artifacts t ∧ artifact_matches target a = true
       ∧ ma_artifact_version a = version)
  ∧ (∀ selector track, resolve_track resource selector m = Ok track →
       (∃ r t, located m resource track r t) ∧ match selector with Latest => True | Track name => track = name end).
Proof.
  intros Hwf. unfold select_artifact, resolve_track. pose proof (manifest_resource_spec resource m) as Hr.
  destruct (manifest_resource resource m) as [r|e]; cbn [mbind result_bind].
  2: { destruct Hr as [Hno _]. split; [|done]. intros track version target a. split; [done|].
       intros (r & t & (Hin & Hn & _) & _). by destruct (Hno r). }
  destruct Hr as [Hr Hn].
  assert (∀ r', r' ∈ am_resources m → mr_name r' = resource → r' = r) as Hone.
  { intros r' Hr' Hn'. eapply (NoDup_fmap_inj_on mr_name); [apply Hwf|done..|by rewrite Hn]. }
  split.
  - intros track version target a. pose proof (resource_track_spec track r) as Ht.
    destruct (resource_track _ r) as [t|e]; cbn [mbind result_bind].
    2: { destruct Ht as [Hno _]. split; [done|]. intros (r' & t & (Hr' & Hn' & Ht & Htn) & _).
         rewrite (Hone r') in Ht by done. by destruct (Hno t). }
    destruct Ht as [Ht Htn]. assert (located m resource track r t) as Hloc by done.
    pose proof (located_wf _ _ _ _ _ Hwf Hloc) as Hwft.
    pose proof (candidates_perm _ _ target Hwft) as Hp.
    assert (∀ b, b ∈ platform_selected_candidates target t ↔ b ∈ mt_artifacts t ∧ artifact_matches target b = true) as Hin.
    { intros b. rewrite Hp, list_elem_of_filter. tauto. }
    split.
    + intros [= Hf]. apply find_some in Hf as [Ha%list_elem_of_In%Hin Hv]. apply bool_decide_eq_true in Hv.
      exists r, t. by destruct Ha.
    + intros (r' & t' & (Hr' & Hn' & Ht' & Htn') & Ha & Hm & Hv). rewrite (Hone r') in Ht' by done.
      assert (t' = t) as ->.
      { eapply (NoDup_fmap_inj_on mt_name); [apply (mw_resources m Hwf r Hr)|done..|by rewrite Htn]. }
      f_equal. destruct (List.find _ _) as [b|] eqn:Hf.
      * apply find_some in Hf as [Hb%list_elem_of_In%Hin Hbv]. apply bool_decide_eq_true in Hbv. f_equal.
        eapply (NoDup_fmap_inj_on (λ a, (artifact_version_text a, ma_platform a))); [apply Hwft|by apply Hb|done|].
        assert (artifact_version_text b = artifact_version_text a) as Hva
          by (unfold artifact_version_text; by rewrite Hbv, Hv).
        rewrite Hva, (matching_same_platform b a target); [done|by apply Hb|done|].
        by apply (tw_specific _ _ Hwft); [apply Hb|..].
      * exfalso. assert (a ∈ platform_selected_candidates target t) as Hc by (by apply Hin).
        apply list_elem_of_In, (find_none _ _ Hf) in Hc. by apply bool_decide_eq_false in Hc.
  - intros [|name] track H'.
    + injection H' as <-. split; [|done]. pose proof (rw_default r (mw_resources m Hwf r Hr)) as Hd.
      apply list_elem_of_fmap in Hd as (t & Heq & Ht). by exists r, t.
    + pose proof (resource_track_spec name r) as Ht. destruct (resource_track _ r) as [t|e]; [|done].
      injection H' as <-. destruct Ht as [Ht Htn]. split; [|done]. by exists r, t.
Qed.

(** ** A manifest with a revoked latest artifact *)

Definition sample_rfc3339 (value : string) : option Z :=
  if bool_decide (value = "2026-01-01T00:00:00Z") then Some 1767225600000000000%Z
  else if bool_decide (value = "2026-01-02T00:00:00Z") then Some 1767312000000000000%Z
  else None.
Definition sample_url_parse (url : string) : option ParsedUrl :=
  rest ← strip_prefix "https://artifacts.test/" url;
  Some {| url_scheme := "https"; url_host := Some "artifacts.test"; url_path_segments := Some (split "/" rest) |}.

Definition sample_raw_artifact (version platform published_at : string) (reason : option string) : RawArtifact :=
  {| ra_artifact_version := version; ra_upstream_version := "8.4.1"; ra_pv_build_revision := "1";
     ra_platform := platform; ra_url := "https://artifacts.test/php/" +:+ version +:+ ".tar.zst";
     ra_sha256 := "0123456789abcdef0123456789abcdef0123456789abcdef0123456789abcdef"; ra_size := 1024;
     ra_published_at := published_at;
     ra_php_extensions := [{| re_name := "redis"; re_load_kind := "extension"; re_path := "lib/redis.so" |}];
     ra_revoked := option_bool reason; ra_revocation_reason := reason |}.
Definition sample_raw_manifest : RawManifest :=
  {| rm_schema_version := 1; rm_minimum_pv_version := "0.1.0";
     rm_resources := [{| rr_name := "php"; rr_default_track := "8.4";
       rr_tracks := [{| rt_name := "8.4"; rt_artifacts :=
         [sample_raw_artifact "8.4.1-pv1" "darwin-arm64" "2026-01-01T00:00:00Z" None;
          sample_raw_artifact "8.4.1-pv2" "darwin-arm64" "2026-01-02T00:00:00Z" (Some "broken build")] |}] |}] |}.
Definition sample_manifest : result ResourcesError ArtifactManifest :=
  manifest_from_raw sample_rfc3339 sample_url_parse "0.2.0" sample_raw_manifest.
Definition sample_artifact_manifest : ArtifactManifest :=
  match sample_manifest with
  | Ok m => m
  | Err _ => {| am_schema_version := V1; am_minimum_pv_version := {| pv_major := 0; pv_minor := 0; pv_patch := 0; pv_raw := "" |};
                am_resources := [] |}
  end.

Lemma sample_manifest_ok : sample_manifest = Ok sample_artifact_manifest.
Proof. vm_compute. reflexivity. Qed.
Lemma sample_manifest_wf : manifest_wf sample_artifact_manifest.
Proof. exact (manifest_resources_wf _ _ _ _ _ sample_manifest_ok). Qed.

Lemma manifest_from_raw_wf_witness : manifest_wf sample_artifact_manifest.
Proof. exact (proj1 (manifest_from_raw_wf _ _ _ _ _ sample_manifest_ok)). Defined.

Definition version_of {E} (r : result E ManifestSelection) : option (string * option string) :=
  match r with
  | Ok s => Some (artifact_version_text (selection_artifact s), artifact_version_text <$> selection_revoked_latest s)
  | Err _ => None
  end.

Lemma select_latest_spec_witness :
  ∃ r t, located sample_artifact_manifest {| resource_name_str := "php" |} {| track_name_str := "8.4" |} r t.
Proof.
  pose proof (select_latest_spec sample_artifact_manifest {| resource_name_str := "php" |}
    {| track_name_str := "8.4" |} DarwinArm64 sample_manifest_wf) as H.
  destruct (select_latest _ _ _ _) as [s|e] eqn:Hs; [|by vm_compute in Hs].
  destruct H as (r & t & Hloc & _). by exists r, t.
Defined.

Lemma select_artifact_spec_witness :
  ∃ r t, located sample_artifact_manifest {| resource_name_str := "php" |} {| track_name_str := "8.4" |} r t.
Proof.
  destruct (select_artifact_spec sample_artifact_manifest {| resource_name_str := "php" |} sample_manifest_wf)
    as [_ H]. apply (H Latest). vm_compute. reflexivity.
Defined.

(** The fallback is reported, and the other platform has nothing to install. *)
Example sample_selects_fallback :
  version_of (select_latest {| resource_name_str := "php" |} {| track_name_str := "8.4" |} DarwinArm64 sample_artifact_manifest)
  = Some ("8.4.1-pv1", Some "8.4.1-pv2").
Proof. vm_compute. reflexivity. Qed.
Example sample_other_platform :
  select_latest {| resource_name_str := "php" |} {| track_name_str := "8.4" |} DarwinAmd64 sample_artifact_manifest
  = Err (NoInstallableArtifact "php" "8.4" "darwin-amd64").
Proof. vm_compute. reflexivity. Qed.
