(* ===== verification/DaemonJobs.v ===== *)
(** * Daemon jobs ([daemon/src/jobs.rs]): what a job does to the database between
    its start and its end

    The reconcilers a job calls are parameters, as are the clock and, for each opening of
    the database, whether it and the call made on it go through; the messages streamed to
    the client change no state and are left out. *)

From S2P Require Import Prelude RustStr StateTypes StateIds StateDb StateObserved StateResources StateProjects StateJobs DaemonScope DaemonQueue.

Definition FRANKENPHP_NOT_INSTALLED : string := "Gateway runtime skipped; FrankenPHP is not installed".

(** ** Data *)

Record ProjectEnvReconciliationSummary := { pe_message : string; pe_requested_php_extensions : bool }.
Record ManagedResourceUpdateReport := { ur_installed_count : nat; ur_updated_count : nat }.

Record SystemProjectReconciliationReport := {
  sr_total : nat;
  sr_succeeded : nat;
  sr_successful_project_ids : list string;
  sr_summaries : list string;
  sr_failures : list string;
}.
Definition empty_report (total : nat) : SystemProjectReconciliationReport :=
  {| sr_total := total; sr_succeeded := 0; sr_successful_project_ids := []; sr_summaries := []; sr_failures := [] |}.

Definition successful_project_coverage (r : SystemProjectReconciliationReport) : list JobDiagnosticSubject :=
  SubjectProject <$> sr_successful_project_ids r.

Record CompletedUpdateJob := { cu_summary : string; cu_coverage : list JobDiagnosticSubject }.

(** ** Summaries *)

Definition system_project_summary (report : SystemProjectReconciliationReport) : option string :=
  if sr_total report =? 0 then None
  else if negb (bool_decide (sr_failures report = [])) then
    Some ("Project env reconciled for " +:+ show_nat (sr_succeeded report) +:+ " of "
          +:+ show_nat (sr_total report) +:+ " Projects; failures: " +:+ join ", " (sr_failures report))
  else match sr_summaries report with
       | [summary] => Some summary
       | _ => Some ("Project env reconciled for " +:+ show_nat (sr_succeeded report) +:+ " Projects")
       end.

Definition system_reconciliation_summary (report : SystemProjectReconciliationReport) (gateway_summary : string) : string :=
  match system_project_summary report with
  | None => gateway_summary
  | Some project_summary =>
      if bool_decide (gateway_summary = FRANKENPHP_NOT_INSTALLED) then project_summary
      else project_summary +:+ "; " +:+ gateway_summary
  end.

Definition managed_resource_reconciliation_summary (resource_name track : string)
    (report : SystemProjectReconciliationReport) : string :=
  let head := "Managed Resource " +:+ resource_name +:+ " track " +:+ track +:+ " standalone reconciliation deferred" in
  match system_project_summary report with
  | None => head
  | Some project_summary => head +:+ "; " +:+ project_summary
  end.

Definition unchanged_update_summary (report : ManagedResourceUpdateReport) : string :=
  if ur_installed_count report =? 0 then "none installed" else "current".

Definition gateway_runtime_resource (resource_name : string) : bool :=
  bool_decide (resource_name ∈ ["php"; "frankenphp"]).

Definition reconciliation_started_message (scope : ReconciliationScope) : string :=
  match scope with
  | ProjectScope _ => "Project env reconciliation started"
  | SystemScope => "System reconciliation started"
  | ResourceScope name _ =>
      if gateway_runtime_resource (component_text name) then "Gateway runtime reconciliation started"
      else "Managed Resource runtime reconciliation started"
  end.

(** [BTreeSet<(String, String)>] in its order. *)
Definition resource_pairs (X : gset (string * string)) : list (string * string) :=
  order_by (λ p, [p.1; p.2]) (elements X).

(** ** Jobs *)

(** The tables, and how often the database was opened. *)
Record Store := { store_db :> Db; store_opens : nat }.
Definition opened (d : Db) (s : Store) : Store := {| store_db := d; store_opens := S (store_opens s) |}.

Section jobs.
Context {E : Type} (from_state : StateError → E) (error_display : E → string).
(** How the [n]-th opening of the database, with the one call that follows it, goes: an error
    of SQLite in either ends it and leaves the tables alone. *)
Context (database_open : nat → result StateError unit) (now : string).

(** A fallible action on the database that keeps what it did when it fails. *)
Definition Act (A : Type) : Type := Store → result E A * Store.

Definition act_ret {A} (a : A) : Act A := λ d, (Ok a, d).
Definition act_bind {A B} (m : Act A) (f : A → Act B) : Act B := λ d,
  match m d with (Ok a, d') => f a d' | (Err e, d') => (Err e, d') end.
Definition act_map {A B} (f : A → B) (m : Act A) : Act B := act_bind m (λ a, act_ret (f a)).

#[local] Instance act_mbind : MBind Act := λ A B f m, act_bind m f.

(** [Database::open(paths)?.op(..)?]. *)
Definition with_database {A} (op : Op A) : Act A := λ s,
  match database_open (store_opens s) with
  | Err e => (Err (from_state e), opened s s)
  | Ok _ => let '(r, d') := op s in (map_err from_state r, opened d' s)
  end.
Definition reading {A} (query : Db → result StateError A) : Act A := with_database (λ d, (query d, d)).

Context (reconcile_project_env : string → Act ProjectEnvReconciliationSummary).
Context (reconcile_gateway_runtimes : Act string).
Context (reconcile_system_resources : Act unit).
Context (update_installed : Act ManagedResourceUpdateReport).

Definition start_reconciliation_job (scope : string) : Act string :=
  job ← with_database (start_job "reconcile" scope now); act_ret (job_id job).
Definition start_update_job : Act string :=
  job ← with_database (start_job "update" "system" now); act_ret (job_id job).

Definition abandon_reconciliation_job (i : string) : Act unit :=
  with_database (fail_job i "reconciliation was abandoned before completion" now).
Definition abandon_update_job (i : string) : Act unit :=
  with_database (fail_job i "Managed Resource update was abandoned before completion" now).

(** The callbacks that go with a queued job. *)
Definition enqueue_reconciliation_job (acquire : Store → result StateError UpdateLock) (scope : ReconciliationScope) :
    Store → QueueInner → result E EnqueueResult * (Store * QueueInner) :=
  enqueue_mutating_with_abandon acquire from_state scope
    (start_reconciliation_job (scope_display scope)) (λ i d, (abandon_reconciliation_job i d).2).
Definition enqueue_update_job (acquire : Store → result StateError UpdateLock) :
    Store → QueueInner → result E EnqueueResult * (Store * QueueInner) :=
  enqueue_system_update_with_abandon acquire from_state start_update_job (λ i d, (abandon_update_job i d).2).

Definition linked_projects : Act (list ProjectRecord) := reading list_projects.

(** One round of the loop over the projects: a failure is noted and the loop goes on. *)
Definition project_step (acc : SystemProjectReconciliationReport * Store) (project : ProjectRecord) :
    SystemProjectReconciliationReport * Store :=
  let '(report, d) := acc in
  match reconcile_project_env (id project) d with
  | (Ok summary, d') =>
      ({| sr_total := sr_total report; sr_succeeded := S (sr_succeeded report);
          sr_successful_project_ids := sr_successful_project_ids report ++ [id project];
          sr_summaries := sr_summaries report ++ [pe_message summary]; sr_failures := sr_failures report |}, d')
  | (Err error, d') =>
      let project_label := default (slug project) (primary_hostname project) in
      ({| sr_total := sr_total report; sr_succeeded := sr_succeeded report;
          sr_successful_project_ids := sr_successful_project_ids report; sr_summaries := sr_summaries report;
          sr_failures := sr_failures report ++ [project_label +:+ ": " +:+ error_display error] |}, d')
  end.

Definition project_loop (projects : list ProjectRecord) : Act SystemProjectReconciliationReport := λ d,
  let '(report, d') := foldl project_step (empty_report (length projects), d) projects in (Ok report, d').

Definition reconcile_system_projects : Act SystemProjectReconciliationReport :=
  projects ← linked_projects; project_loop projects.

Definition reconcile_system_projects_and_resources : Act SystemProjectReconciliationReport :=
  _ ← reconcile_system_projects; _ ← reconcile_system_resources; reconcile_system_projects.

Definition missing_gateway_runtime_resource : Act bool :=
  tracks ← reading list_managed_resource_tracks;
  act_ret (existsb (λ record, gateway_runtime_resource (tr_resource_name record)
    && bool_decide (tr_desired_state record = Installed)
    && negb (option_bool (tr_current_artifact_path record))) tracks).

Definition reconcile_project_env_and_missing_resources (project_id : string) : Act ProjectEnvReconciliationSummary :=
  summary ← reconcile_project_env project_id;
  if negb (pe_requested_php_extensions summary) then act_ret summary
  else
    missing ← missing_gateway_runtime_resource;
    if negb missing then act_ret summary
    else _ ← reconcile_system_resources; reconcile_project_env project_id.

Definition completed_system_reconciliation_coverage (report : SystemProjectReconciliationReport) :
    Act (list JobDiagnosticSubject) :=
  resources ← reading (λ d, try_map (λ i, list_project_managed_resources i d) (sr_successful_project_ids report));
  let pairs : gset (string * string) :=
    list_to_set ((λ r, (rr_resource_name r, rr_track r)) <$> concat resources) in
  act_ret ([SystemReconciliation; GatewayRuntime] ++ successful_project_coverage report
    ++ ((λ '(name, track), SubjectResource name track) <$> resource_pairs pairs)).

Definition complete_gateway_reconciliation (i : string) : Act string :=
  summary ← reconcile_gateway_runtimes;
  _ ← with_database (complete_job_with_coverage i summary [GatewayRuntime] now);
  act_ret summary.

Definition complete_system_reconciliation (i : string) : Act string :=
  report ← reconcile_system_projects_and_resources;
  gateway_summary ← reconcile_gateway_runtimes;
  coverage ← completed_system_reconciliation_coverage report;
  _ ← with_database (complete_job_with_coverage i (system_reconciliation_summary report gateway_summary) coverage now);
  act_ret (system_reconciliation_summary report gateway_summary).

Definition complete_managed_resource_reconciliation (i name track : string) : Act string :=
  report ← reconcile_system_projects;
  let summary := managed_resource_reconciliation_summary name track report in
  _ ← with_database (complete_job_with_coverage i summary
    (SubjectResource name track :: successful_project_coverage report) now);
  act_ret summary.

Definition complete_project_reconciliation (i project_id : string) : Act string :=
  project_env_summary ← reconcile_project_env_and_missing_resources project_id;
  gateway_summary ← reconcile_gateway_runtimes;
  let summary :=
    if bool_decide (gateway_summary = FRANKENPHP_NOT_INSTALLED) then pe_message project_env_summary
    else pe_message project_env_summary +:+ "; " +:+ gateway_summary in
  _ ← with_database (complete_job_with_coverage i summary [SubjectProject project_id; GatewayRuntime] now);
  act_ret summary.

Definition reconciliation_body (i : string) (scope : ReconciliationScope) : Act string :=
  match scope with
  | SystemScope => complete_system_reconciliation i
  | ResourceScope name track =>
      if gateway_runtime_resource (component_text name) then complete_gateway_reconciliation i
      else complete_managed_resource_reconciliation i (component_text name) (component_text track)
  | ProjectScope project_id => complete_project_reconciliation i (component_text project_id)
  end.

(** The error of a body is recorded on its job, and returned. *)
Definition fail_on_error {A} (fail : string → E → Op unit) (i : string) (body : Act A) : Act A := λ d,
  match body d with
  | (Ok a, d') => (Ok a, d')
  | (Err error, d') =>
      match with_database (fail i error) d' with
      | (Ok _, d'') => (Err error, d'')
      | (Err e, d'') => (Err e, d'')
      end
  end.

Definition complete_reconciliation_job (i : string) (scope : ReconciliationScope) : Act string :=
  fail_on_error (λ i error, fail_job i (error_display error) now) i (reconciliation_body i scope).

(** *** Updates *)

(** [FailedUpdateJob]: the error, and the subject it is recorded under. *)
Definition with_subject {A} (subject : JobDiagnosticSubject) (m : Act A) :
    Store → result (E * JobDiagnosticSubject) A * Store := λ d,
  let '(r, d') := m d in (map_err (λ e, (e, subject)) r, d').

Definition complete_update_job_inner : Store → result (E * JobDiagnosticSubject) CompletedUpdateJob * Store := λ d,
  match with_subject UpdateAssessment update_installed d with
  | (Err e, d) => (Err e, d)
  | (Ok report, d) =>
      if ur_updated_count report =? 0 then
        (Ok {| cu_summary := unchanged_update_summary report; cu_coverage := [] |}, d)
      else
        match with_subject SystemReconciliation reconcile_system_projects_and_resources d with
        | (Err e, d) => (Err e, d)
        | (Ok project_report, d) =>
            match with_subject GatewayRuntime reconcile_gateway_runtimes d with
            | (Err e, d) => (Err e, d)
            | (Ok gateway_summary, d) =>
                let reconciliation_summary := system_reconciliation_summary project_report gateway_summary in
                match with_subject SystemReconciliation (completed_system_reconciliation_coverage project_report) d with
                | (Err e, d) => (Err e, d)
                | (Ok coverage, d) =>
                    (Ok {| cu_summary := "updated " +:+ show_nat (ur_updated_count report)
                             +:+ " artifact(s); reconciled: " +:+ reconciliation_summary;
                           cu_coverage := coverage |}, d)
                end
            end
        end
  end.

Definition complete_update_job (i : string) : Act string := λ d,
  match complete_update_job_inner d with
  | (Ok completed, d) =>
      match with_database (complete_job_with_coverage i (cu_summary completed)
              (UpdateAssessment :: cu_coverage completed) now) d with
      | (Ok _, d) => (Ok (cu_summary completed), d)
      | (Err e, d) => (Err e, d)
      end
  | (Err (error, subject), d) =>
      match with_database (fail_job_with_subject i (error_display error) subject now) d with
      | (Ok _, d) => (Err error, d)
      | (Err e, d) => (Err e, d)
      end
  end.

(** *** Jobs that do not go through the queue *)

Definition run_invalid_reconciliation_scope_job (scope parse_error : string) : Act unit :=
  job ← with_database (start_job "reconcile" scope now);
  with_database (fail_job (job_id job) ("invalid reconciliation scope `" +:+ scope +:+ "`: " +:+ parse_error) now).

Definition run_started_job (kind scope : string) : Act unit :=
  job ← with_database (start_job kind scope now);
  if negb (bool_decide (kind = "reconcile")) || negb (is_ok (scope_from_str scope)) then
    with_database (fail_job (job_id job)
      ("unsupported daemon job `" +:+ kind +:+ "` with scope `" +:+ scope +:+ "`") now)
  else with_database (complete_job (job_id job) "stub job completed" now).

(** How [run_job] routes a request. *)
Inductive JobRoute : Type :=
| RouteReconciliation (scope : ReconciliationScope)
| RouteInvalidScope (error : ReconciliationScopeParseError)
| RouteUpdate
| RouteStarted.
Definition run_job_route (kind scope : string) : JobRoute :=
  if bool_decide (kind = "reconcile") then
    match scope_from_str scope with Ok scope => RouteReconciliation scope | Err error => RouteInvalidScope error end
  else if bool_decide (kind = "update") && bool_decide (scope = "system") then RouteUpdate
  else RouteStarted.

Definition record_background_reconciliation_error (scope : string) (error : E) : Act unit :=
  failures ← reading unresolved_job_failures;
  if existsb (λ f, bool_decide (job_kind (uf_job f) = "reconcile") && bool_decide (job_scope (uf_job f) = scope)
       && bool_decide (job_error (uf_job f) = Some (error_display error))) failures
  then act_ret tt
  else
    job ← with_database (start_job "reconcile" scope now);
    with_database (fail_job (job_id job) (error_display error) now).

(** ** Properties *)

(** *** Bodies leave the jobs to the job's own operations *)

(** Two databases with the same jobs and outcomes. *)
Definition same_jobs (d d' : Db) : Prop :=
  jobs d' = jobs d ∧ job_diagnostic_outcomes d' = job_diagnostic_outcomes d.
Definition keeps_jobs {A} (m : Act A) : Prop := ∀ d : Store, same_jobs d (m d).2.

#[local] Instance same_jobs_preorder : PreOrder same_jobs.
Proof.
  split; [by intros d|]. intros d1 d2 d3 [H1 H2] [H3 H4]. split; congruence.
Qed.

Lemma ret_keeps {A} (a : A) : keeps_jobs (act_ret a).
Proof. intros d. done. Qed.
Lemma bind_keeps {A B} (m : Act A) (f : A → Act B) :
  keeps_jobs m → (∀ a, keeps_jobs (f a)) → keeps_jobs (a ← m; f a).
Proof.
  intros Hm Hf d. cbv [mbind act_mbind act_bind]. specialize (Hm d). destruct (m d) as [[a|e] d1]; [|done].
  by etrans; [exact Hm|apply Hf].
Qed.
Lemma reading_keeps {A} (query : Db → result StateError A) : keeps_jobs (reading query).
Proof. intros d. unfold reading, with_database. by destruct (database_open _). Qed.

Section keeps.
(** What the reconcilers are relied on for: they do not write the job tables. *)
Context (project_env_keeps : ∀ i, keeps_jobs (reconcile_project_env i)).
Context (gateway_keeps : keeps_jobs reconcile_gateway_runtimes).
Context (resources_keep : keeps_jobs reconcile_system_resources).

Lemma project_loop_keeps projects : keeps_jobs (project_loop projects).
Proof.
  intros d. unfold project_loop. generalize (empty_report (length projects)) as report. revert d.
  induction projects as [|p projects IH]; intros d report; simpl; [done|].
  pose proof (project_env_keeps (id p) d) as Hp. destruct (reconcile_project_env (id p) d) as [[s|e] d1];
    (etrans; [exact Hp|apply IH]).
Qed.

Lemma system_projects_keep : keeps_jobs reconcile_system_projects.
Proof. apply bind_keeps; [apply reading_keeps|apply project_loop_keeps]. Qed.
Lemma projects_and_resources_keep : keeps_jobs reconcile_system_projects_and_resources.
Proof.
  apply bind_keeps; [apply system_projects_keep|]. intros _.
  apply bind_keeps; [apply resources_keep|]. intros _. apply system_projects_keep.
Qed.
Lemma project_and_resources_keep i : keeps_jobs (reconcile_project_env_and_missing_resources i).
Proof.
  apply bind_keeps; [apply project_env_keeps|]. intros summary. destruct (negb _); [apply ret_keeps|].
  apply bind_keeps; [apply bind_keeps; [apply reading_keeps|intros ?; apply ret_keeps]|]. intros missing.
  destruct (negb missing); [apply ret_keeps|]. apply bind_keeps; [apply resources_keep|]. intros _. apply project_env_keeps.
Qed.
Lemma coverage_keeps report : keeps_jobs (completed_system_reconciliation_coverage report).
Proof. apply bind_keeps; [apply reading_keeps|]. intros rs. apply ret_keeps. Qed.

Lemma same_jobs_wf d d' : same_jobs d d' → jobs_wf d → jobs_wf d'.
Proof. intros [Hj Ho] [H1 H2 H3]. split; rewrite ?Hj, ?Ho; done. Qed.

(** On a database where job [i] is there, [body] fails with the jobs as they were,
    or completes the job last, with a coverage that [P] holds of. *)
Definition completes (i : string) (P : list JobDiagnosticSubject → Prop) (body : Act string) : Prop := ∀ d : Store,
  jobs_wf d → is_Some (jobs d !! i) →
  match body d with
  | (Err e, d') => same_jobs d d'
  | (Ok summary, d') => ∃ (d1 : Db) coverage, same_jobs d d1 ∧ P coverage
      ∧ complete_job_with_coverage i summary coverage now d1 = (Ok tt, store_db d')
  end.

Definition yields {A} (m : Act A) (Q : A → Prop) : Prop := ∀ d a, (m d).1 = Ok a → Q a.

Lemma bind_completes_yield {A} i P Q (m : Act A) (f : A → Act string) :
  keeps_jobs m → yields m Q → (∀ a, Q a → completes i P (f a)) → completes i P (a ← m; f a).
Proof.
  intros Hm Hq Hf d Hwf Hi. cbv [mbind act_mbind act_bind]. specialize (Hm d). specialize (Hq d).
  destruct (m d) as [[a|e] d1]; simpl in Hm; [|done].
  specialize (Hf a (Hq a eq_refl) d1 (same_jobs_wf _ _ Hm Hwf)). rewrite (proj1 Hm) in Hf. specialize (Hf Hi).
  destruct (f a d1) as [[s|e] d2]; [|by etrans].
  destruct Hf as (d3 & coverage & Hs & HP & Hc). exists d3, coverage. split_and!; [by etrans|done|done].
Qed.

Lemma bind_completes {A} i P (m : Act A) (f : A → Act string) :
  keeps_jobs m → (∀ a, completes i P (f a)) → completes i P (a ← m; f a).
Proof. intros Hm Hf. by apply (bind_completes_yield i P (λ _, True)). Qed.

Lemma complete_completes i summary coverage (P : list JobDiagnosticSubject → Prop) : P coverage →
  completes i P (_ ← with_database (complete_job_with_coverage i summary coverage now); act_ret summary).
Proof.
  intros HP d Hwf [row Hi]. cbv [mbind act_mbind act_bind with_database]. destruct (database_open _); [|done].
  pose proof (complete_job_closes i summary coverage now d Hwf) as Hc.
  destruct (complete_job_with_coverage i summary coverage now d) as [[[]|e] d'] eqn:Heq; simpl.
  - exists (store_db d), coverage. by split_and!.
  - destruct Hc as (_ & _ & Hno). congruence.
Qed.

(** The subject a failure of a scope's job is recorded under. *)
Definition scope_subject (scope : ReconciliationScope) : JobDiagnosticSubject :=
  from_job_identity "reconcile" (scope_display scope).

Lemma scope_subject_eq scope : scope_wf scope = true → scope_subject scope =
  match scope with
  | SystemScope => SystemReconciliation
  | ProjectScope id => SubjectProject (component_text id)
  | ResourceScope name track =>
      if gateway_runtime_resource (component_text name) then GatewayRuntime
      else SubjectResource (component_text name) (component_text track)
  end.
Proof.
  unfold scope_subject, from_job_identity. intros Hwf.
  destruct scope as [|id|name track]; [reflexivity|..]; cbn [scope_display].
  - apply component_wf_split in Hwf as [Hne Hs]. change ":"%char with COLON. rewrite split_project, Hs.
    apply is_empty_false in Hne. cbn. by rewrite Hne.
  - cbn [scope_wf] in Hwf. apply andb_true_iff in Hwf as [[Hn1 Hn2]%component_wf_split [Ht1 Ht2]%component_wf_split].
    change ":"%char with COLON. rewrite split_resource_components, Hn2, Ht2. cbn [app].
    apply is_empty_false in Hn1, Ht1. unfold gateway_runtime_resource. rewrite Hn1, Ht1.
    change (bool_decide ("resource" = "resource")) with true. cbn. by destruct (bool_decide (component_text name ∈ _)).
Qed.

Lemma coverage_system report :
  yields (completed_system_reconciliation_coverage report) (λ coverage, SystemReconciliation ∈ coverage).
Proof.
  intros d coverage. cbv [completed_system_reconciliation_coverage mbind act_mbind act_bind reading with_database].
  destruct (database_open _); [|done]. destruct (try_map _ _) as [rs|e]; [|done].
  intros [= <-]. by left.
Qed.

Lemma body_completes i scope : scope_wf scope = true →
  completes i (λ coverage, scope_subject scope ∈ coverage) (reconciliation_body i scope).
Proof.
  intros Hwf. rewrite (scope_subject_eq scope Hwf). destruct scope as [|id|name track]; simpl.
  - apply bind_completes; [apply projects_and_resources_keep|]. intros report.
    apply bind_completes; [apply gateway_keeps|]. intros gateway.
    apply (bind_completes_yield _ _ (λ coverage, SystemReconciliation ∈ coverage)); [apply coverage_keeps| |].
    + apply coverage_system.
    + intros coverage Hc. by apply complete_completes.
  - apply bind_completes; [apply project_and_resources_keep|]. intros summary.
    apply bind_completes; [apply gateway_keeps|]. intros gateway.
    apply complete_completes. by left.
  - destruct (gateway_runtime_resource _).
    + apply bind_completes; [apply gateway_keeps|]. intros summary. apply complete_completes. by left.
    + apply bind_completes; [apply system_projects_keep|]. intros report. apply complete_completes. by left.
Qed.

(** What the end of job [i] with row [row] leaves: [status] tells how the row is closed. *)
Definition job_ended (i : string) (row : JobRow) (os : list OutcomeRow) (d d' : Db) : Prop :=
  ∃ d1, same_jobs d d1 ∧ jobs_closed d1 (<[i := row]> (jobs d)) os d'.

(** The error of a body is recorded, if the database opens for that. *)
Lemma fail_on_error_closes {A} fail subject i (body : Act A) (d d1 : Store) e row :
  (∀ error, ∃ message, fail i error = fail_job_with_optional_subject i message (subject error) now
     ∧ message = error_display error) →
  jobs_wf d → jobs d !! i = Some row → body d = (Err e, d1) → same_jobs d d1 →
  match database_open (store_opens d1) with
  | Ok _ => ∃ d', fail_on_error fail i body d = (Err e, d') ∧ job_ended i (with_failure now (error_display e) row)
      [outcome_row i (default (from_job_identity (j_kind row) (j_scope row)) (subject e)) "failure"] d d'
  | Err x => fail_on_error fail i body d = (Err (from_state x), opened d1 d1)
  end.
Proof.
  intros Hfail Hwf Hi Hb Hbody. unfold fail_on_error. rewrite Hb. unfold with_database.
  destruct (database_open (store_opens d1)) as [[]|x]; [|done]. destruct (Hfail e) as (message & -> & ->).
  pose proof (fail_job_closes i (error_display e) (subject e) now d1 (same_jobs_wf _ _ Hbody Hwf)) as Hc.
  destruct (fail_job_with_optional_subject _ _ _ _ d1) as [[[]|e'] d2]; simpl.
  - destruct Hc as (row' & Hrow & Hc). rewrite (proj1 Hbody) in Hrow, Hc.
    rewrite Hi in Hrow. injection Hrow as <-. eexists. split; [done|]. by exists d1.
  - destruct Hc as (_ & _ & Hno). rewrite (proj1 Hbody) in Hno. congruence.
Qed.

(** *** The reference for the loop over the projects *)

(** Each project in turn, with what its reconciliation returned. *)
Fixpoint run_projects (projects : list ProjectRecord) (d : Store) :
    list (ProjectRecord * result E ProjectEnvReconciliationSummary) * Store :=
  match projects with
  | [] => ([], d)
  | p :: projects =>
      let '(r, d1) := reconcile_project_env (id p) d in
      let '(rs, d2) := run_projects projects d1 in ((p, r) :: rs, d2)
  end.

Definition succeeded_id (pr : ProjectRecord * result E ProjectEnvReconciliationSummary) : option string :=
  match pr.2 with Ok _ => Some (id pr.1) | Err _ => None end.
Definition succeeded_summary (pr : ProjectRecord * result E ProjectEnvReconciliationSummary) : option string :=
  match pr.2 with Ok s => Some (pe_message s) | Err _ => None end.
Definition failure_line (pr : ProjectRecord * result E ProjectEnvReconciliationSummary) : option string :=
  match pr.2 with
  | Ok _ => None
  | Err e => Some (default (slug pr.1) (primary_hostname pr.1) +:+ ": " +:+ error_display e)
  end.

Lemma project_loop_eq projects d : project_loop projects d =
  let '(rs, d') := run_projects projects d in
  (Ok {| sr_total := length projects; sr_succeeded := length (omap succeeded_id rs);
         sr_successful_project_ids := omap succeeded_id rs; sr_summaries := omap succeeded_summary rs;
         sr_failures := omap failure_line rs |}, d').
Proof.
  unfold project_loop. set (total := length projects).
  assert (∀ report, sr_total report = total → foldl project_step (report, d) projects =
    let '(rs, d') := run_projects projects d in
    ({| sr_total := total; sr_succeeded := sr_succeeded report + length (omap succeeded_id rs);
        sr_successful_project_ids := sr_successful_project_ids report ++ omap succeeded_id rs;
        sr_summaries := sr_summaries report ++ omap succeeded_summary rs;
        sr_failures := sr_failures report ++ omap failure_line rs |}, d')) as Hgen.
  { clearbody total. revert d. induction projects as [|p projects IH]; intros d report Ht; simpl.
    - rewrite !app_nil_r, Nat.add_0_r, <-Ht. by destruct report.
    - destruct (reconcile_project_env (id p) d) as [[s|e] d1]; rewrite IH by done;
        destruct (run_projects projects d1) as [rs d2]; simpl; f_equal; f_equal;
        rewrite <-?app_assoc; try done; lia. }
  rewrite Hgen by done. by destruct (run_projects projects d).
Qed.

Lemma try_map_fails {A B F} (f : A → result F B) l e : try_map f l = Err e → ∃ x, x ∈ l ∧ f x = Err e.
Proof.
  induction l as [|x l IH]; cbn; [done|]. destruct (f x) as [b|e'] eqn:Hx; cbn.
  - destruct (try_map f l) as [bs|e']; cbn; [done|]. intros [= ->]. destruct (IH eq_refl) as (y & Hy & Hf). exists y. split; [by right|done].
  - intros [= ->]. exists x. split; [by left|done].
Qed.

Lemma requirements_read p d rs : list_project_managed_resources p d = Ok rs →
  ∀ n t, (∃ r, r ∈ rs ∧ rr_resource_name r = n ∧ rr_track r = t)
    ↔ ∃ q, project_managed_resources d !! (p, n) = Some q ∧ q_track q = t.
Proof.
  unfold list_project_managed_resources. rewrite try_map_ok. intros Hall n t.
  assert (∀ n' q r, requirement_into_record p n' q = Ok r → rr_resource_name r = n' ∧ rr_track r = q_track q) as Hr.
  { intros n' q r. unfold requirement_into_record. intros H. by inv_ok. }
  split.
  - intros (r & Hin & <- & <-). destruct (Forall2_elem_r _ _ _ _ Hall Hin) as ([n' q] & Hq & H).
    apply elem_of_project_requirements in Hq. apply Hr in H as [-> ->]. by exists q.
  - intros (q & Hq & <-). apply elem_of_project_requirements in Hq.
    destruct (Forall2_elem_l _ _ _ _ Hall Hq) as (r & Hin & H). apply Hr in H as [<- <-]. by exists r.
Qed.


(** C23: A reconciliation job does not end open, as long as the database opens. When its body
    succeeds, the summary is returned and the job is closed as succeeded with it and with a
    success of, at least, the subject a failure of the same scope is recorded under. When
    it fails, the database is opened again, and then the error is returned and the job is
    closed as failed with the error's text; but if that opening, or the call on it, is
    refused, that error is returned instead and the job stays as it was. The other open
    jobs are untouched either way. Assumed: the scope is one that can be written and read
    back, the job is in well-formed tables, and the reconcilers that it calls do not write
    the tables of the jobs. *)
Theorem reconciliation_job_closes i scope row (d : Store) : scope_wf scope = true →
  jobs_wf d → jobs d !! i = Some row →
  match reconciliation_body i scope d with
  | (Ok summary, d') => complete_reconciliation_job i scope d = (Ok summary, d')
      ∧ ∃ coverage, scope_subject scope ∈ coverage
          ∧ job_ended i (with_success now summary row) ((λ s, outcome_row i s "success") <$> coverage) d d'
  | (Err e, d1) =>
      match database_open (store_opens d1) with
      | Ok _ => ∃ d', complete_reconciliation_job i scope d = (Err e, d')
          ∧ job_ended i (with_failure now (error_display e) row)
              [outcome_row i (from_job_identity (j_kind row) (j_scope row)) "failure"] d d'
      | Err x => ∃ d', complete_reconciliation_job i scope d = (Err (from_state x), d') ∧ same_jobs d d'
      end
  end.
Proof.
  intros Hscope Hwf Hi. pose proof (body_completes i scope Hscope d Hwf ltac:(by exists row)) as Hb.
  unfold complete_reconciliation_job. destruct (reconciliation_body i scope d) as [[s|e] d1] eqn:Hbody.
  - split; [unfold fail_on_error; by rewrite Hbody|].
    destruct Hb as (d2 & coverage & Hs & Hin & Hc). exists coverage. split; [done|]. exists d2. split; [done|].
    pose proof (complete_job_closes i s coverage now d2 (same_jobs_wf _ _ Hs Hwf)) as Hcl. rewrite Hc in Hcl.
    destruct Hcl as (row' & Hrow & Hcl). rewrite (proj1 Hs) in Hrow, Hcl. rewrite Hi in Hrow. by injection Hrow as <-.
  - pose proof (fail_on_error_closes (λ i error, fail_job i (error_display error) now) (λ _, None) i
      (reconciliation_body i scope) d d1 e row ltac:(by eexists) Hwf Hi Hbody Hb) as Hf.
    destruct (database_open (store_opens d1)) as [u|x]; [exact Hf|]. eexists. by split.
Qed.

End keeps.

(** *** The database as the queue's store of jobs *)

Definition job_open (d : Db) (i : string) : Prop := ∃ row, jobs d !! i = Some row ∧ running row = true.

Lemma start_store kind scope (d : Store) : jobs_wf d →
  jobs_wf (with_database (start_job kind scope now) d).2
  ∧ (∀ j, job_open d j → job_open (with_database (start_job kind scope now) d).2 j)
  ∧ ∀ r, (with_database (start_job kind scope now) d).1 = Ok r →
      jobs d !! job_id r = None
      ∧ ∃ row, jobs (with_database (start_job kind scope now) d).2 !! job_id r = Some row
          ∧ running row = true ∧ j_kind row = kind ∧ j_scope row = scope.
Proof.
  intros Hwf. unfold with_database. destruct (database_open _); [|by split_and!].
  destruct (start_job kind scope now d) as [[r|e] d'] eqn:Hs; simpl.
  - pose proof (start_job_wf kind scope now d Hwf) as Hwf'. rewrite Hs in Hwf'.
    apply start_job_row in Hs as (Hno & row & -> & Hr & Hk & Hsc). split_and!; [done| |].
    + intros j (row' & Hj & Hr'). exists row'. simpl. rewrite lookup_insert_ne by congruence. done.
    + intros r' [= <-]. split; [done|]. exists row. simpl. by rewrite lookup_insert_eq.
  - unfold start_job, transact in Hs. destruct (mbind _ _) as [[? ?]|]; [done|]. injection Hs as _ <-. by split_and!.
Qed.

Lemma start_error kind scope d e d' : with_database (start_job kind scope now) d = (Err e, d') → store_db d' = store_db d.
Proof.
  unfold with_database, start_job, transact. destruct (database_open _); [|by intros [= _ <-]].
  by destruct (mbind _ _) as [[? ?]|]; intros [= _ <-].
Qed.

Lemma abandon_store i message (d : Store) : jobs_wf d →
  jobs_wf (with_database (fail_job i message now) d).2
  ∧ ∀ j, i ≠ j → job_open d j → job_open (with_database (fail_job i message now) d).2 j.
Proof.
  intros Hwf. unfold with_database. destruct (database_open _); [|done].
  pose proof (fail_job_closes i message None now d Hwf) as Hc. unfold fail_job.
  destruct (fail_job_with_optional_subject i message None now d) as [[[]|e] d']; simpl.
  - destruct Hc as (row & Hi & Hc). split; [apply Hc|]. intros j Hij (row' & Hj & Hr). exists row'. split; [|done].
    apply (jc_running _ _ _ _ Hc); [by rewrite lookup_insert_ne|done].
  - by destruct Hc as (-> & _).
Qed.

(** What the queue asks of its store, for jobs that are started and failed in the database. *)
Lemma database_job_store kind scope message :
  JobStore (λ s : Store, jobs_wf s) (λ s : Store, job_open s) (job ← with_database (start_job kind scope now); act_ret (job_id job))
    (λ i d, (with_database (fail_job i message now) d).2).
Proof.
  split.
  all: cbv [mbind act_mbind act_bind act_ret].
  - intros d Hwf. destruct (start_store kind scope d Hwf) as (H & _). by destruct (with_database _ d) as [[]].
  - intros d i Hwf Hc. destruct (start_store kind scope d Hwf) as (_ & _ & H).
    destruct (with_database _ d) as [[r|e] d'] eqn:Hd; [|done]. injection Hc as <-.
    destruct (H r eq_refl) as (Hno & row & Hrow & Hr & _). split; [intros (row' & Hrow' & _); congruence|by exists row].
  - intros d j Hwf Hj. destruct (start_store kind scope d Hwf) as (_ & H & _). apply H in Hj.
    by destruct (with_database _ d) as [[]].
  - intros d i Hwf. by apply abandon_store.
  - intros d i j Hwf. by apply abandon_store.
Qed.

(** Enqueueing a reconciliation over a database whose live jobs are all open:
    a new job has an id no live job has, is recorded as running under the text the
    scope parses from, and all live jobs stay open; an abandoned one is closed as
    failed, if the database opens, and only it leaves the queue; coalescing changes
    nothing and returns a queued job for the same scope; an error leaves the tables and
    the jobs of the queue as they were. *)
Theorem enqueue_reconciliation_spec acquire scope (d : Store) q : scope_wf scope = true → jobs_wf d →
  (∀ i, i ∈ queue_ids (q_state q) → job_open d i) → NoDup (queue_ids (q_state q)) →
  match enqueue_reconciliation_job acquire scope d q with
  | (Ok (Queued h), (d', q')) =>
      let i := rj_job_id (qr_job h) in
      (i ∉ queue_ids (q_state q)) ∧ jobs_wf d' ∧ (∀ j, j ∈ queue_ids (q_state q') → job_open d' j)
      ∧ (∃ row, jobs d' !! i = Some row ∧ j_kind row = "reconcile" ∧ scope_from_str (j_scope row) = Ok scope
           ∧ match queued_drop h d' q' with
             | (d'', q'') => queue_ids (q_state q'') = queue_ids (q_state q)
                 ∧ (database_open (store_opens d') = Ok tt →
                    jobs_closed d' (<[i := with_failure now "reconciliation was abandoned before completion" row]> (jobs d'))
                      [outcome_row i (scope_subject scope) "failure"] d'')
             end)
  | (Ok (Coalesced job), (d', q')) => d' = d ∧ q' = q ∧ job ∈ queued (q_state q) ∧ rj_key job = Reconcile scope
  | (Err e, (d', q')) => store_db d' = store_db d ∧ queue_ids (q_state q') = queue_ids (q_state q)
  end.
Proof.
  intros Hscope Hwf Hopen Hnd.
  change (enqueue_reconciliation_job acquire scope d q) with (submit (Some (acquire, from_state)) (Reconcile scope)
    (start_reconciliation_job (scope_display scope)) (λ i d, (abandon_reconciliation_job i d).2) d q).
  destruct (submit _ _ _ _ d q) as [r [d' q']] eqn:Hsub.
  destruct r as [[h|job]|e].
  - pose proof (submit_open _ _ _ _ _ _ _ _ _ _ _ (database_job_store "reconcile" (scope_display scope)
      "reconciliation was abandoned before completion") Hwf Hopen Hsub) as (Hnew & Hwf' & Hopen').
    cbv zeta. split_and!; [done|done|done|].
    apply submit_queued in Hsub as (_ & _ & Hrel & Hab & Hc & Ha & Hq & _).
    unfold start_reconciliation_job in Hc. cbv [mbind act_mbind act_bind act_ret] in Hc.
    destruct (start_store "reconcile" (scope_display scope) d Hwf) as (_ & _ & Hstart).
    destruct (with_database _ d) as [[job|e] d1] eqn:Hd1; [|done]. injection Hc as Hi <-.
    destruct (Hstart job eq_refl) as (_ & row & Hrow & _ & Hkind & Hsc). simpl in Hrow. rewrite Hi in Hrow.
    exists row. split_and!; [done|done|rewrite Hsc; by apply from_str_display|].
    assert (NoDup (job_ids (queued (q_state q')))) as Hndq.
    { unfold queue_ids, job_ids in *. rewrite Hq. rewrite map_app in *. apply NoDup_app in Hnd as (_ & _ & Hnd).
      apply NoDup_app. split_and!; [done| |apply NoDup_singleton]. intros j Hj Hj'%list_elem_of_singleton. subst j.
      apply Hnew, elem_of_app. by right. }
    rewrite (queued_drop_spec h d1 q' (queued (q_state q)) []) by done. split.
    + simpl. unfold queue_ids. destruct (release_idle_fields {| active := active (q_state q');
        queued := queued (q_state q) ++ []; update_lock := update_lock (q_state q') |}) as (-> & -> & _).
      simpl. by rewrite Ha, app_nil_r.
    + rewrite Hab. cbn [run_finalizer]. unfold abandon_reconciliation_job, with_database in *.
      intros Hopened. rewrite Hopened.
      pose proof (fail_job_closes (rj_job_id (qr_job h)) "reconciliation was abandoned before completion" None now d1 Hwf') as Hf.
      unfold fail_job. destruct (fail_job_with_optional_subject _ _ None now d1) as [[[]|e] d2]; simpl.
      * destruct Hf as (row' & Hrow' & Hf). rewrite Hrow in Hrow'. injection Hrow' as <-.
        unfold scope_subject. rewrite <-Hsc, <-Hkind. exact Hf.
      * destruct Hf as (_ & _ & Hno). congruence.
  - by apply submit_coalesced in Hsub.
  - split.
    + apply submit_error in Hsub as [->|Hc]; [done|]. unfold start_reconciliation_job in Hc.
      cbv [mbind act_mbind act_bind act_ret] in Hc. destruct (with_database _ d) as [[job|e'] d1] eqn:Hd1; [done|].
      injection Hc as _ <-. by apply start_error in Hd1.
    + apply submit_refused in Hsub as (_ & [->|(_ & _ & ->)]); done.
Qed.
End jobs.

(** ** Witnesses *)

Definition sample_env : string → Act (E := StateError) ProjectEnvReconciliationSummary :=
  λ _, act_ret {| pe_message := "Project env is up to date"; pe_requested_php_extensions := false |}.
Definition sample_gateway : Act (E := StateError) string := act_ret "Gateway runtimes reconciled".
Definition sample_resources : Act (E := StateError) unit := act_ret tt.
Definition sample_project_scope : ReconciliationScope := ProjectScope {| component_text := "p1" |}.

Definition sample_store : Store := {| store_db := sample_jobs; store_opens := 0 |}.
(** The project's environment fails, and the database can be opened [n] times. *)
Definition sample_closing (n : nat) : result StateError string * Store :=
  complete_reconciliation_job (λ e, e) (λ _, "error") (λ k, if k <? n then Ok tt else Err (ProjectNotFound "opening")) "t2"
    (λ i, λ d, (Err (ProjectNotFound i), d)) sample_gateway sample_resources "job_000001" sample_project_scope sample_store.

Lemma reconciliation_job_closes_witness : ∃ e d', sample_closing 1 = (Err e, d') ∧ jobs_wf d'.
Proof.
  destruct (jobs sample_jobs !! "job_000001") as [row|] eqn:Hrow; [|by vm_compute in Hrow].
  assert (∀ i, keeps_jobs (E := StateError) (A := ProjectEnvReconciliationSummary) (λ d, (Err (ProjectNotFound i), d))) as Henv by by intros i d.
  pose proof (reconciliation_job_closes (λ e, e) (λ _, "error") (λ k, if k <? 1 then Ok tt else Err (ProjectNotFound "opening")) "t2"
    (λ i, λ d, (Err (ProjectNotFound i), d)) sample_gateway sample_resources
    Henv (ret_keeps _) (ret_keeps _) "job_000001" sample_project_scope row sample_store
    ltac:(by vm_compute) sample_jobs_wf Hrow) as H.
  match type of H with match ?b with _ => _ end => let v := eval vm_compute in (b.1) in
    assert (b.1 = v) as Hv by (vm_compute; reflexivity); assert (store_opens b.2 = 0) as Ho by (vm_compute; reflexivity);
    destruct b as [[s|e] d1]; cbn [fst snd] in Hv, Ho; [discriminate Hv|] end.
  rewrite Ho in H. destruct H as (d' & Hrun & d2 & _ & Hc). exists e, d'. exact (conj Hrun (jc_wf _ _ _ _ Hc)).
Defined.

(** The job is closed as failed, or stays open when the database does not open again. *)
Example failure_recorded : j_status <$> jobs (sample_closing 1).2 !! "job_000001" = Some "failed"
  ∧ j_status <$> jobs (sample_closing 0).2 !! "job_000001" = Some "running".
Proof. vm_compute. split; reflexivity. Qed.

Lemma enqueue_reconciliation_spec_witness :
  ∃ h d' q', enqueue_reconciliation_job (λ e : StateError, e) (λ _, Ok tt) "t2" (λ _, Ok UpdateLockGuard)
      sample_project_scope sample_store queue_new = (Ok (Queued h), (d', q'))
    ∧ rj_job_id (qr_job h) = "job_000002" ∧ job_open d' "job_000002".
Proof.
  pose proof (enqueue_reconciliation_spec (λ e : StateError, e) (λ _, Ok tt) "t2" (λ _, Ok UpdateLockGuard)
    sample_project_scope sample_store queue_new ltac:(by vm_compute) sample_jobs_wf
    ltac:(intros i Hi; by apply elem_of_nil in Hi) ltac:(constructor)) as H.
  assert (match (enqueue_reconciliation_job (λ e : StateError, e) (λ _, Ok tt) "t2" (λ _, Ok UpdateLockGuard)
      sample_project_scope sample_store queue_new) with
    | (Ok (Queued h), (_, q')) => bool_decide (rj_job_id (qr_job h) = "job_000002")
        && bool_decide (queue_ids (q_state q') = ["job_000002"])
    | _ => false end = true) as Hok by by vm_compute.
  destruct (enqueue_reconciliation_job _ _ _ _ _ _ _) as [[[h|job]|e] [d' q']]; [|discriminate Hok..].
  apply andb_true_iff in Hok as [Hid%bool_decide_eq_true Hq%bool_decide_eq_true].
  destruct H as (_ & _ & Hopen & _). exists h, d', q'. split; [reflexivity|]. split; [exact Hid|].
  apply Hopen. rewrite Hq. left.
Defined.

(** A project whose environment fails is reported, and its subject is not covered. *)
Example failed_project_is_not_covered :
  match project_loop (E := StateError) (λ _, "boom")
          (λ i d, if bool_decide (i = "p1") then (Err (ProjectNotFound i), d) else sample_env i d)
          (match list_projects sample_db with Ok l => l | Err _ => [] end) {| store_db := sample_db; store_opens := 0 |} with
  | (Ok report, _) => (sr_total report, sr_successful_project_ids report, sr_failures report)
  | (Err _, _) => (0, [], [])
  end = (1, [], ["acme.test: boom"]).
Proof. vm_compute. reflexivity. Qed.
