(* ===== verification/KernelTable.v ===== *)
(** * The kernel's table of TCP sockets ([platform/src/listener/macos/kernel_table.rs]):
    fetching a snapshot and reading the loopback listeners out of its bytes

    Slices are indexed at offsets read from the table itself: a [Parse] is [None]
    where the code would index out of bounds and panic. *)

From Stdlib Require Import Strings.Byte ZArith.
From S2P Require Import Prelude.

Local Open Scope N_scope.

(** ** Layout *)

Definition MAX_ATTEMPTS : nat := 3.
Definition XINPGEN_LENGTH : N := 24.
Definition XGEN_HEADER_LENGTH : N := 8.
Definition XINPCB_MINIMUM_LENGTH : N := 104.
Definition XTCPCB_MINIMUM_LENGTH : N := 40.
Definition XSO_INPCB : N := 0x010.
Definition XSO_TCPCB : N := 0x020.
Definition INP_IPV4 : N := 0x1.
Definition INP_IPV6 : N := 0x2.
Definition TCPS_LISTEN : N := 1.
Definition INPCB_LOCAL_PORT_OFFSET : N := 18.
Definition INPCB_GENERATION_OFFSET : N := 28.
Definition INPCB_VERSION_FLAGS_OFFSET : N := 44.
Definition INPCB_LOCAL_ADDRESS_OFFSET : N := 64.
Definition INPCB_LOCAL_ADDRESS_LENGTH : N := 16.
Definition INPCB_IPV4_ADDRESS_OFFSET : N := INPCB_LOCAL_ADDRESS_OFFSET + 12.
Definition TCPCB_STATE_OFFSET : N := 36.
Definition USIZE_MAX : N := 2 ^ 64 - 1.
Definition ENOMEM : Z := 12.

(** ** Data *)

Inductive ParseError : Type :=
| TableTooShort (minimum actual : N)
| InvalidEnvelopeLength (position : string) (expected actual : N)
| TruncatedRecordHeader (offset : N)
| InvalidRecordLength (offset length : N)
| TruncatedRecord (offset padded_length : N)
| KnownRecordTooShort (offset kind minimum actual : N)
| MissingInternetPcb (offset : N)
| IncompleteRecord
| MissingTrailer
| SnapshotChanged (header_count header_generation header_socket_generation
                   trailer_count trailer_generation trailer_socket_generation : N).

Record SnapshotEnvelope := { count : N; generation : N; socket_generation : N }.

Record InternetPcb := {
  pcb_generation : N; version_flags : N; local_port : N; local_address : list byte;
}.

#[export] Instance byte_eq_dec : EqDecision byte := Byte.byte_eq_dec.
#[export] Instance parse_error_eq_dec : EqDecision ParseError.
Proof. solve_decision. Defined.

(** ** Bytes *)

Definition Parse (A : Type) : Type := option (result ParseError A).

Definition parse_bind {A B} (m : Parse A) (k : A → Parse B) : Parse B :=
  match m with
  | Some (Ok a) => k a
  | Some (Err e) => Some (Err e)
  | None => None
  end.

Local Notation "x ←? m ; k" := (parse_bind m (λ x, k)) (at level 100, m at next level, right associativity).

Definition reading {A} (m : option A) : Parse A := Ok <$> m.
Definition failing {A} (e : ParseError) : Parse A := Some (Err e).

Definition len (bytes : list byte) : N := N.of_nat (length bytes).

(** [bytes[offset]] to [bytes[offset + n - 1]]. *)
Definition slice (bytes : list byte) (offset n : N) : option (list byte) :=
  if offset + n <=? len bytes
  then Some (take (N.to_nat n) (drop (N.to_nat offset) bytes)) else None.

Definition byte_at (bytes : list byte) (i : N) : option N := Byte.to_N <$> bytes !! N.to_nat i.

(** [from_ne_bytes]: both macOS targets are little-endian. *)
Definition from_le_bytes (l : list byte) : N := foldr (λ b v, Byte.to_N b + 256 * v) 0 l.
Definition from_be_bytes (l : list byte) : N := foldl (λ v b, 256 * v + Byte.to_N b) 0 l.

Definition read_native_u32 (bytes : list byte) (offset : N) : option N := from_le_bytes <$> slice bytes offset 4.
Definition read_native_u64 (bytes : list byte) (offset : N) : option N := from_le_bytes <$> slice bytes offset 8.
Definition read_network_u16 (bytes : list byte) (offset : N) : option N := from_be_bytes <$> slice bytes offset 2.

(** ** Addresses *)

(** [Ipv4Addr::is_loopback] and [is_unspecified]. *)
Definition ipv4_loopback (address : list byte) : bool := bool_decide (head address = Some x7f).
Definition unspecified (address : list byte) : bool := forallb (Byte.eqb x00) address.
(** [Ipv6Addr::is_loopback]. *)
Definition ipv6_loopback (address : list byte) : bool := bool_decide (address = replicate 15 x00 ++ [x01]).

(** The address array has 16 bytes, so the constant indices of the IPv4 part are
    in range. *)
Definition ipv4_part (address : list byte) : list byte :=
  take 4 (drop (N.to_nat (INPCB_IPV4_ADDRESS_OFFSET - INPCB_LOCAL_ADDRESS_OFFSET)) address).

Definition occupies_loopback (pcb : InternetPcb) : bool :=
  let ipv4 := ipv4_part (local_address pcb) in
  let ipv6 := local_address pcb in
  (negb (N.land (version_flags pcb) INP_IPV4 =? 0) && (ipv4_loopback ipv4 || unspecified ipv4))
  || (negb (N.land (version_flags pcb) INP_IPV6 =? 0) && (ipv6_loopback ipv6 || unspecified ipv6)).

(** ** Parsing *)

Definition parse_envelope (bytes : list byte) (position : string) : Parse SnapshotEnvelope :=
  actual ←? reading (read_native_u32 bytes 0);
  if negb (actual =? XINPGEN_LENGTH) then failing (InvalidEnvelopeLength position XINPGEN_LENGTH actual)
  else
    c ←? reading (read_native_u32 bytes 4);
    g ←? reading (read_native_u64 bytes 8);
    s ←? reading (read_native_u64 bytes 16);
    Some (Ok {| count := c; generation := g; socket_generation := s |}).

Definition require_record_length (record : list byte) (offset kind minimum : N) : Parse unit :=
  if len record <? minimum then failing (KnownRecordTooShort offset kind minimum (len record)) else Some (Ok tt).

Definition parse_internet_pcb (record : list byte) (offset : N) : Parse InternetPcb :=
  _ ←? require_record_length record offset XSO_INPCB XINPCB_MINIMUM_LENGTH;
  address ←? reading (slice record INPCB_LOCAL_ADDRESS_OFFSET INPCB_LOCAL_ADDRESS_LENGTH);
  g ←? reading (read_native_u64 record INPCB_GENERATION_OFFSET);
  flags ←? reading (byte_at record INPCB_VERSION_FLAGS_OFFSET);
  port ←? reading (read_network_u16 record INPCB_LOCAL_PORT_OFFSET);
  Some (Ok {| pcb_generation := g; version_flags := flags; local_port := port; local_address := address |}).

Definition parse_tcp_state (record : list byte) (offset : N) : Parse N :=
  _ ←? require_record_length record offset XSO_TCPCB XTCPCB_MINIMUM_LENGTH;
  reading (read_native_u32 record TCPCB_STATE_OFFSET).

(** [length.checked_add(7).map(|value| value & !7)]. *)
Definition padded_record_length (offset length : N) : result ParseError N :=
  if length + 7 <=? USIZE_MAX then Ok (N.ldiff (length + 7) 7) else Err (TruncatedRecord offset length).

(** What the loop carries: the offset, the internet record still waiting for its
    TCP record, and the ports found. *)
Definition Scan : Type := N * option InternetPcb * gset N.

(** The arms of [match kind]. *)
Definition scan_record (header : SnapshotEnvelope) (record : list byte) (offset kind : N)
    (pending : option InternetPcb) (ports : gset N) : Parse (option InternetPcb * gset N) :=
  if kind =? XSO_INPCB then
    match pending with
    | Some _ => failing IncompleteRecord
    | None => pcb ←? parse_internet_pcb record offset; Some (Ok (Some pcb, ports))
    end
  else if kind =? XSO_TCPCB then
    match pending with
    | None => failing (MissingInternetPcb offset)
    | Some pcb =>
        state ←? parse_tcp_state record offset;
        Some (Ok (None, if (pcb_generation pcb <=? generation header) && (state =? TCPS_LISTEN)
                           && occupies_loopback pcb
                        then {[local_port pcb]} ∪ ports else ports))
    end
  else Some (Ok (pending, ports)).

(** A round of the loop that reads one record. *)
Definition scan_next (header : SnapshotEnvelope) (table : list byte) (s : Scan) : Parse Scan :=
  let '(offset, pending, ports) := s in
  let remaining := len table - offset in
  if remaining <? XGEN_HEADER_LENGTH then failing (TruncatedRecordHeader offset)
  else
    length ←? reading (read_native_u32 table offset);
    if length <=? XINPGEN_LENGTH then failing (InvalidRecordLength offset length)
    else
      padded_length ←? Some (padded_record_length offset length);
      if remaining <? padded_length then failing (TruncatedRecord offset padded_length)
      else
        record ←? reading (slice table offset length);
        kind ←? reading (read_native_u32 record 4);
        found ←? scan_record header record offset kind pending ports;
        Some (Ok (offset + padded_length, found.1, found.2)).

(** The round that finds the trailing envelope. *)
Definition scan_trailer (header : SnapshotEnvelope) (table : list byte) (s : Scan) : Parse (gset N) :=
  let '(offset, pending, ports) := s in
  trailer ←? parse_envelope (drop (N.to_nat offset) table) "trailing";
  if option_bool pending then failing IncompleteRecord
  else if negb (generation header =? generation trailer) || negb (count header =? count trailer)
  then failing (SnapshotChanged (count header) (generation header) (socket_generation header)
                  (count trailer) (generation trailer) (socket_generation trailer))
  else Some (Ok ports).

(** [while offset < table.len()]; every record moves the offset forward, so the
    table's length is fuel enough. *)
Fixpoint scan_loop (fuel : nat) (header : SnapshotEnvelope) (table : list byte) (s : Scan) : Parse (gset N) :=
  match fuel with
  | O => None
  | S fuel =>
      let offset := s.1.1 in
      if offset <? len table then
        if len table - offset =? XINPGEN_LENGTH then scan_trailer header table s
        else s' ←? scan_next header table s; scan_loop fuel header table s'
      else failing MissingTrailer
  end.

Definition parse_tcp_table (table : list byte) : Parse (gset N) :=
  if len table <? XINPGEN_LENGTH then failing (TableTooShort XINPGEN_LENGTH (len table))
  else
    header ←? parse_envelope table "leading";
    if (len table =? XINPGEN_LENGTH) && (count header =? 0) then Some (Ok ∅)
    else scan_loop (S (length table)) header table (XINPGEN_LENGTH, None, ∅).

(** ** What a table says

    A [field] is read where it is; [record_ok], [padding_ok] and [frames] are the
    framing of the records, and [sockets] pairs every internet record with the TCP
    record that follows it, other kinds in between being skipped. *)

Definition field (record : list byte) (offset n : nat) : list byte := take n (drop offset record).
Definition record_kind (record : list byte) : N := from_le_bytes (field record 4 4).

Definition decode_pcb (record : list byte) : InternetPcb :=
  {| pcb_generation := from_le_bytes (field record 28 8);
     version_flags := from_le_bytes (field record 44 1);
     local_port := from_be_bytes (field record 18 2);
     local_address := field record 64 16 |}.

Definition decode_state (record : list byte) : N := from_le_bytes (field record 36 4).

Definition record_ok (record : list byte) : Prop :=
  from_le_bytes (take 4 record) = len record ∧ XINPGEN_LENGTH < len record.
Definition padding_ok (record padding : list byte) : Prop :=
  (len record + len padding) mod 8 = 0 ∧ len padding < 8.

Inductive frames : list byte → list (list byte) → Prop :=
| frames_nil : frames [] []
| frames_cons record padding body records :
    record_ok record → padding_ok record padding → frames body records →
    frames (record ++ padding ++ body) (record :: records).

Inductive sockets : option (list byte) → list (list byte) → list (list byte * list byte) → Prop :=
| sockets_nil : sockets None [] []
| sockets_other waiting record records pairs :
    record_kind record ≠ XSO_INPCB → record_kind record ≠ XSO_TCPCB →
    sockets waiting records pairs → sockets waiting (record :: records) pairs
| sockets_inet record records pairs :
    record_kind record = XSO_INPCB → XINPCB_MINIMUM_LENGTH <= len record →
    sockets (Some record) records pairs → sockets None (record :: records) pairs
| sockets_tcp inet record records pairs :
    record_kind record = XSO_TCPCB → XTCPCB_MINIMUM_LENGTH <= len record →
    sockets None records pairs → sockets (Some inet) (record :: records) ((inet, record) :: pairs).

Definition is_envelope (e : list byte) : Prop :=
  length e = 24%nat ∧ from_le_bytes (take 4 e) = XINPGEN_LENGTH.
Definition decode_envelope (e : list byte) : SnapshotEnvelope :=
  {| count := from_le_bytes (field e 4 4); generation := from_le_bytes (field e 8 8);
     socket_generation := from_le_bytes (field e 16 8) |}.

(** A pair is a listener of the snapshot that loopback connections reach. *)
Definition serving (snapshot : N) (pair : list byte * list byte) : bool :=
  (pcb_generation (decode_pcb pair.1) <=? snapshot) && (decode_state pair.2 =? TCPS_LISTEN)
  && occupies_loopback (decode_pcb pair.1).

Definition served (snapshot : N) (pairs : list (list byte * list byte)) : gset N :=
  list_to_set ((λ pair, local_port (decode_pcb pair.1)) <$> filter (λ pair, serving snapshot pair = true) pairs).

(** ** Reading within bounds *)

Ltac layout :=
  unfold XINPGEN_LENGTH, XGEN_HEADER_LENGTH, XINPCB_MINIMUM_LENGTH, XTCPCB_MINIMUM_LENGTH,
    INPCB_LOCAL_PORT_OFFSET, INPCB_GENERATION_OFFSET, INPCB_VERSION_FLAGS_OFFSET,
    INPCB_LOCAL_ADDRESS_OFFSET, INPCB_LOCAL_ADDRESS_LENGTH, TCPCB_STATE_OFFSET, len in *; lia.

Lemma len_drop bytes (n : N) : n <= len bytes → len (drop (N.to_nat n) bytes) = len bytes - n.
Proof. unfold len. rewrite length_drop. lia. Qed.

Lemma slice_Some bytes offset n : offset + n <= len bytes →
  slice bytes offset n = Some (field bytes (N.to_nat offset) (N.to_nat n)).
Proof. intros H. unfold slice. by rewrite (proj2 (N.leb_le _ _) H). Qed.

Lemma len_field bytes offset n : (offset + n <= length bytes)%nat → length (field bytes offset n) = n.
Proof. intros H. unfold field. rewrite length_take, length_drop. lia. Qed.

Lemma from_le_bytes_bound l : from_le_bytes l < 256 ^ len l.
Proof.
  induction l as [|b l IH]; [done|]. unfold len in *.
  change (from_le_bytes (b :: l)) with (Byte.to_N b + 256 * from_le_bytes l).
  cbn [length]. rewrite Nat2N.inj_succ, N.pow_succ_r'. pose proof (Byte.to_N_bounded b). lia.
Qed.

(** The length field rounded up to a multiple of eight. *)
Lemma ldiff_7 n : N.ldiff n 7 = 8 * (n / 8).
Proof. change 7 with (N.ones 3). rewrite N.ldiff_ones_r, N.shiftl_mul_pow2, N.shiftr_div_pow2. apply N.mul_comm. Qed.

Lemma padded_length_ok offset n : n < 2 ^ 32 → padded_record_length offset n = Ok (8 * ((n + 7) / 8)).
Proof.
  intros Hn. unfold padded_record_length, USIZE_MAX.
  rewrite (proj2 (N.leb_le _ _)) by lia. by rewrite ldiff_7.
Qed.

Lemma padded_bounds n : n <= 8 * ((n + 7) / 8) < n + 8.
Proof.
  generalize (N.div_mod (n + 7) 8 ltac:(done)) (N.mod_lt (n + 7) 8 ltac:(done)).
  generalize ((n + 7) mod 8) ((n + 7) / 8). lia.
Qed.

Lemma read_native_u32_Some bytes offset : offset + 4 <= len bytes →
  read_native_u32 bytes offset = Some (from_le_bytes (field bytes (N.to_nat offset) 4)).
Proof. intros H. unfold read_native_u32. by rewrite slice_Some. Qed.

Lemma field_u32_bound bytes offset : from_le_bytes (field bytes offset 4) < 2 ^ 32.
Proof.
  eapply N.lt_le_trans; [apply from_le_bytes_bound|]. change (2 ^ 32) with (256 ^ 4).
  apply N.pow_le_mono_r; [done|]. unfold len, field. rewrite length_take. lia.
Qed.

Lemma parse_envelope_eq bytes position : XINPGEN_LENGTH <= len bytes →
  parse_envelope bytes position =
    if negb (from_le_bytes (take 4 bytes) =? XINPGEN_LENGTH)
    then failing (InvalidEnvelopeLength position XINPGEN_LENGTH (from_le_bytes (take 4 bytes)))
    else Some (Ok (decode_envelope bytes)).
Proof.
  intros H. unfold parse_envelope, read_native_u64, read_native_u32.
  rewrite !slice_Some by layout. reflexivity.
Qed.

Lemma parse_internet_pcb_eq record offset :
  parse_internet_pcb record offset =
    if len record <? XINPCB_MINIMUM_LENGTH
    then failing (KnownRecordTooShort offset XSO_INPCB XINPCB_MINIMUM_LENGTH (len record))
    else Some (Ok (decode_pcb record)).
Proof.
  unfold parse_internet_pcb, require_record_length. destruct (N.ltb_spec (len record) XINPCB_MINIMUM_LENGTH) as [|H]; [done|].
  unfold read_native_u64, read_network_u16, byte_at in *. rewrite !slice_Some by layout.
  destruct (lookup_lt_is_Some_2 record 44) as [b Hb]; [layout|].
  cbn. change (N.to_nat INPCB_VERSION_FLAGS_OFFSET) with 44%nat. rewrite Hb. cbn. unfold decode_pcb.
  do 3 f_equal. unfold field. rewrite (drop_S _ _ _ Hb). cbn [firstn]. rewrite take_0. cbn. lia.
Qed.

Lemma parse_tcp_state_eq record offset :
  parse_tcp_state record offset =
    if len record <? XTCPCB_MINIMUM_LENGTH
    then failing (KnownRecordTooShort offset XSO_TCPCB XTCPCB_MINIMUM_LENGTH (len record))
    else Some (Ok (decode_state record)).
Proof.
  unfold parse_tcp_state, require_record_length. destruct (N.ltb_spec (len record) XTCPCB_MINIMUM_LENGTH) as [|H]; [done|].
  cbn [parse_bind]. by rewrite read_native_u32_Some by layout.
Qed.

Ltac parse_step := repeat match goal with
  | |- context [?a <? ?b] => destruct (N.ltb_spec a b)
  | |- context [?a <=? ?b] => destruct (N.leb_spec a b)
  | |- context [?a =? ?b] => destruct (N.eqb_spec a b)
  end.

(** A record is cut out of the rest of the table by its length field. *)
Lemma cut_record rest n : from_le_bytes (take 4 rest) = n → XINPGEN_LENGTH < n →
  8 * ((n + 7) / 8) <= len rest →
  ∃ record padding body, rest = record ++ padding ++ body ∧ len record = n ∧ record_ok record
    ∧ padding_ok record padding ∧ len record + len padding = 8 * ((n + 7) / 8).
Proof.
  intros Hn Hlt Hle. pose proof (padded_bounds n) as Hb. set (p := 8 * ((n + 7) / 8)) in *.
  set (record := take (N.to_nat n) rest).
  set (padding := take (N.to_nat (p - n)) (drop (N.to_nat n) rest)).
  assert (len record = n) as Hr by (unfold record, len in *; rewrite length_take; lia).
  assert (len padding = p - n) as Hp by (unfold padding, len in *; rewrite length_take, length_drop; lia).
  exists record, padding, (drop (N.to_nat (p - n)) (drop (N.to_nat n) rest)).
  unfold padding_ok, record_ok. rewrite Hr, Hp. split_and!; [|done| |done| |lia|lia].
  - unfold record, padding. by rewrite !take_drop.
  - unfold record. rewrite take_take. by rewrite Nat.min_l by layout.
  - replace (n + (p - n)) with (8 * ((n + 7) / 8)) by (unfold p in *; lia).
    rewrite N.mul_comm. by apply N.Div0.mod_mul.
Qed.

(** The arithmetic of a record's frame. *)
Lemma frame_length record padding : padding_ok record padding →
  8 * ((len record + 7) / 8) = len record + len padding.
Proof.
  intros [Hm Hlt]. pose proof (padded_bounds (len record)) as Hb.
  apply N.Div0.div_exact in Hm. set (q := (len record + len padding) / 8) in *.
  set (c := (len record + 7) / 8) in *. lia.
Qed.

(** ** One round of the loop *)

(** A round reads only the rest of the table. *)
Lemma scan_next_eq header table offset pending ports : offset <= len table →
  let rest := drop (N.to_nat offset) table in
  let n := from_le_bytes (take 4 rest) in
  scan_next header table (offset, pending, ports) =
    if len rest <? XGEN_HEADER_LENGTH then failing (TruncatedRecordHeader offset)
    else if n <=? XINPGEN_LENGTH then failing (InvalidRecordLength offset n)
    else if len rest <? 8 * ((n + 7) / 8) then failing (TruncatedRecord offset (8 * ((n + 7) / 8)))
    else
      found ←? scan_record header (take (N.to_nat n) rest) offset
                  (record_kind (take (N.to_nat n) rest)) pending ports;
      Some (Ok (offset + 8 * ((n + 7) / 8), found.1, found.2)).
Proof.
  intros Ho rest n. unfold scan_next. rewrite <-len_drop by done. fold rest.
  destruct (N.ltb_spec (len rest) XGEN_HEADER_LENGTH) as [|H8]; [done|].
  assert (len rest = len table - offset) as Hl by by apply len_drop.
  rewrite read_native_u32_Some by layout. cbn [parse_bind reading fmap option_fmap option_map].
  change (field table (N.to_nat offset) 4) with (take 4 rest). fold n.
  destruct (N.leb_spec n XINPGEN_LENGTH) as [|Hn]; [done|].
  assert (n < 2 ^ 32) as Hmax by apply (field_u32_bound rest 0).
  rewrite padded_length_ok by done. cbn [parse_bind].
  pose proof (padded_bounds n) as Hb. set (p := 8 * ((n + 7) / 8)) in *.
  destruct (N.ltb_spec (len rest) p) as [|Hp]; [done|].
  rewrite slice_Some by lia. cbn [parse_bind reading fmap option_fmap option_map].
  change (field table (N.to_nat offset) (N.to_nat n)) with (take (N.to_nat n) rest).
  rewrite read_native_u32_Some by (unfold len in *; rewrite length_take; layout). done.
Qed.

(** What a record does to the pairing and the ports; [None] where it is refused. *)
Definition advance (header : SnapshotEnvelope) (record : list byte) (pending : option InternetPcb)
    (ports : gset N) : option (option InternetPcb * gset N) :=
  if record_kind record =? XSO_INPCB then
    if negb (option_bool pending) && (XINPCB_MINIMUM_LENGTH <=? len record)
    then Some (Some (decode_pcb record), ports) else None
  else if record_kind record =? XSO_TCPCB then
    match pending with
    | Some pcb =>
        if XTCPCB_MINIMUM_LENGTH <=? len record then
          Some (None, if (pcb_generation pcb <=? generation header) && (decode_state record =? TCPS_LISTEN)
                         && occupies_loopback pcb
                      then {[local_port pcb]} ∪ ports else ports)
        else None
    | None => None
    end
  else Some (pending, ports).

(** A record is never read out of bounds. *)
Lemma scan_record_spec header record offset pending ports :
  (∃ found, scan_record header record offset (record_kind record) pending ports = Some (Ok found)
     ∧ advance header record pending ports = Some found)
  ∨ (∃ e, scan_record header record offset (record_kind record) pending ports = Some (Err e)
     ∧ advance header record pending ports = None).
Proof.
  unfold scan_record, advance. rewrite parse_internet_pcb_eq, parse_tcp_state_eq, !N.leb_antisym.
  destruct (record_kind record =? XSO_INPCB), (record_kind record =? XSO_TCPCB), pending; simpl;
    try destruct (_ <? _); simpl; eauto.
Qed.

Lemma take_4_frame record padding body : record_ok record →
  take 4 (record ++ padding ++ body) = take 4 record.
Proof. intros [_ H]. apply take_app_le. layout. Qed.

(** A round succeeds exactly when a whole record stands next and fits the pairing. *)
Lemma scan_next_ok header table offset pending ports s' : offset <= len table →
  scan_next header table (offset, pending, ports) = Some (Ok s') ↔
  ∃ record padding body found, drop (N.to_nat offset) table = record ++ padding ++ body
    ∧ record_ok record ∧ padding_ok record padding
    ∧ advance header record pending ports = Some found
    ∧ s' = (offset + (len record + len padding), found.1, found.2).
Proof.
  intros Ho. rewrite (scan_next_eq _ _ _ _ _ Ho). set (rest := drop _ table).
  pose proof (padded_bounds (from_le_bytes (take 4 rest))) as Hb. split.
  - parse_step; try discriminate.
    destruct (cut_record rest _ eq_refl) as (record & padding & body & Hr & Hlen & Hok & Hpad & Hsum); [done..|].
    assert (take (N.to_nat (from_le_bytes (take 4 rest))) rest = record) as ->
      by (rewrite <-Hlen, Hr; unfold len; by rewrite Nat2N.id, take_app_length).
    rewrite <-Hsum.
    destruct (scan_record_spec header record offset pending ports) as [(found & -> & Ha)|(e & -> & _)]; [|done].
    cbn. intros [= <-]. by exists record, padding, body, found.
  - intros (record & padding & body & found & Hr & Hok & Hpad & Ha & ->). pose proof (frame_length _ _ Hpad) as Hp.
    rewrite Hr, take_4_frame in * by done. destruct Hok as [Hn Hlt]. rewrite Hn in *.
    assert (len (record ++ padding ++ body) = len record + (len padding + len body)) as Hl
      by (unfold len; rewrite !length_app; lia).
    rewrite Hl, Hp. rewrite (proj2 (N.ltb_ge _ _)) by layout. rewrite (proj2 (N.leb_gt _ _)) by done.
    rewrite (proj2 (N.ltb_ge _ _)) by lia.
    assert (take (N.to_nat (len record)) (record ++ padding ++ body) = record) as ->
      by (unfold len; by rewrite Nat2N.id, take_app_length).
    destruct (scan_record_spec header record offset pending ports) as [(found' & -> & Ha')|(e & _ & Ha')];
      rewrite Ha in Ha'; [|done]. injection Ha' as <-. done.
Qed.

Lemma scan_next_frame header table offset pending ports record padding body found : offset <= len table →
  drop (N.to_nat offset) table = record ++ padding ++ body → record_ok record → padding_ok record padding →
  advance header record pending ports = Some found →
  scan_next header table (offset, pending, ports) = Some (Ok (offset + (len record + len padding), found.1, found.2)).
Proof. intros Ho Hr Hok Hpad Ha. apply scan_next_ok; [done|]. by exists record, padding, body, found. Qed.

(** A round never reads out of bounds, and moves on by more than an envelope. *)
Lemma scan_next_spec header table offset pending ports : offset <= len table →
  (∃ s', scan_next header table (offset, pending, ports) = Some (Ok s')
     ∧ offset + XINPGEN_LENGTH < s'.1.1 <= len table)
  ∨ (∃ e, scan_next header table (offset, pending, ports) = Some (Err e)).
Proof.
  intros Ho. destruct (scan_next header table (offset, pending, ports)) as [[s'|e]|] eqn:Hs; [left|by right; exists e|].
  - exists s'. split; [done|]. apply scan_next_ok in Hs as (record & padding & body & found & Hr & [_ Hlt] & Hpad & _ & ->); [|done].
    cbn. assert (len table - offset = len record + len padding + len body); [|lia].
    rewrite <-len_drop, Hr by done. unfold len. rewrite !length_app. lia.
  - exfalso. rewrite (scan_next_eq _ _ _ _ _ Ho) in Hs. revert Hs. parse_step; try discriminate.
    match goal with |- context [scan_record ?h ?r ?o _ ?p ?q] =>
      destruct (scan_record_spec h r o p q) as [(found & -> & _)|(e & -> & _)] end; done.
Qed.

(** The fuel is enough: a loop with more of it than bytes left ends. *)
Lemma scan_loop_total header table fuel : ∀ offset pending ports, offset <= len table →
  len table - offset < N.of_nat fuel → is_Some (scan_loop fuel header table (offset, pending, ports)).
Proof.
  induction fuel as [|fuel IH]; intros offset pending ports Ho Hf; [lia|]. cbn [scan_loop fst snd].
  destruct (N.ltb_spec offset (len table)) as [Hlt|]; [|by eexists].
  destruct (N.eqb_spec (len table - offset) XINPGEN_LENGTH) as [Htr|_].
  - unfold scan_trailer. rewrite parse_envelope_eq by (rewrite len_drop; lia).
    destruct (negb _); [by eexists|]. cbn [parse_bind]. destruct (option_bool _); [by eexists|].
    destruct (_ || _); by eexists.
  - destruct (scan_next_spec header table offset pending ports Ho) as [(s' & -> & Hs)|(e & ->)]; [|by eexists].
    cbn [parse_bind]. destruct s' as [[o' p'] q']. cbn in Hs. apply IH; layout.
Qed.

(** ** The whole loop *)

Definition closes (header : SnapshotEnvelope) (trailer : list byte) : Prop :=
  is_envelope trailer ∧ generation header = generation (decode_envelope trailer)
  ∧ count header = count (decode_envelope trailer).

Lemma served_app snapshot ps qs : served snapshot (ps ++ qs) = served snapshot ps ∪ served snapshot qs.
Proof. unfold served. by rewrite filter_app, fmap_app, list_to_set_app_L. Qed.

Lemma served_one snapshot inet record (ports : gset N) :
  (if serving snapshot (inet, record) then {[local_port (decode_pcb inet)]} ∪ ports else ports)
  = ports ∪ served snapshot [(inet, record)].
Proof.
  unfold served. rewrite filter_cons, filter_nil. destruct (serving snapshot (inet, record)); cbn; set_solver.
Qed.

Lemma advance_inv header record waiting ports found :
  advance header record (decode_pcb <$> waiting) ports = Some found →
  ∃ waiting' new, found = (decode_pcb <$> waiting', ports ∪ served (generation header) new)
    ∧ ∀ records pairs, sockets waiting' records pairs → sockets waiting (record :: records) (new ++ pairs).
Proof.
  unfold advance. destruct (N.eqb_spec (record_kind record) XSO_INPCB) as [Hi|Hi].
  - destruct waiting; [done|]. cbn. destruct (N.leb_spec XINPCB_MINIMUM_LENGTH (len record)); [|done].
    intros [= <-]. exists (Some record), []. split; [cbn; f_equal; set_solver|]. intros. by apply sockets_inet.
  - destruct (N.eqb_spec (record_kind record) XSO_TCPCB) as [Ht|Ht].
    + destruct waiting as [inet|]; [|done]. cbn. destruct (N.leb_spec XTCPCB_MINIMUM_LENGTH (len record)); [|done].
      intros [= <-]. exists None, [(inet, record)]. split; [|intros; by apply sockets_tcp].
      by rewrite <-served_one.
    + intros [= <-]. exists waiting, []. split; [f_equal; set_solver|]. intros. by apply sockets_other.
Qed.

Lemma sockets_cons_inv header ports waiting record records pairs : sockets waiting (record :: records) pairs →
  ∃ waiting' new pairs', pairs = new ++ pairs' ∧ sockets waiting' records pairs'
    ∧ advance header record (decode_pcb <$> waiting) ports
      = Some (decode_pcb <$> waiting', ports ∪ served (generation header) new).
Proof.
  unfold advance. inversion 1 as [|? ? ? ? Hi Ht|? ? ? Hi Hl|? ? ? ? Ht Hl]; subst.
  - exists waiting, [], pairs. rewrite (proj2 (N.eqb_neq _ _) Hi), (proj2 (N.eqb_neq _ _) Ht).
    split_and!; [done..|]. do 2 f_equal. set_solver.
  - exists (Some record), [], pairs. rewrite (proj2 (N.eqb_eq _ _) Hi), (proj2 (N.leb_le _ _) Hl).
    split_and!; [done..|]. cbn. do 2 f_equal. set_solver.
  - exists None, [(inet, record)], pairs0. rewrite Ht, (proj2 (N.leb_le _ _) Hl). split_and!; [done..|].
    by rewrite <-served_one.
Qed.

Lemma scan_trailer_ok header table offset pending ports P : offset <= len table →
  len table - offset = XINPGEN_LENGTH →
  scan_trailer header table (offset, pending, ports) = Some (Ok P) ↔
  closes header (drop (N.to_nat offset) table) ∧ pending = None ∧ P = ports.
Proof.
  intros Ho Hr. unfold scan_trailer, closes, is_envelope. pose proof (len_drop _ _ Ho) as Hl. rewrite Hr in Hl.
  rewrite parse_envelope_eq by lia. set (t := drop _ table) in *.
  destruct (N.eqb_spec (from_le_bytes (take 4 t)) XINPGEN_LENGTH) as [He|He]; cbn [negb parse_bind failing].
  2: { split; [done|intros (((_ & ?) & _) & _); done]. }
  assert (length t = 24%nat) as Ht by (unfold len, XINPGEN_LENGTH in Hl; lia).
  destruct pending; cbn [option_bool]; [split; [done|by intros (_ & ? & _)]|].
  destruct (N.eqb_spec (generation header) (generation (decode_envelope t))),
    (N.eqb_spec (count header) (count (decode_envelope t))); cbn [negb orb];
    (split; [try done; by intros [= ->]|intros ((_ & Hg & Hc) & _ & Hp); first [by rewrite Hp|done]]).
Qed.

Lemma drop_frame table (offset : N) record padding body : drop (N.to_nat offset) table = record ++ padding ++ body →
  drop (N.to_nat (offset + (len record + len padding))) table = body.
Proof.
  intros Hr. unfold len. rewrite <-Nat2N.inj_add, N2Nat.inj_add, Nat2N.id, <-drop_drop, Hr, app_assoc, <-length_app.
  apply drop_app_length.
Qed.

(** The loop succeeds exactly on whole records that pair up, closed by an envelope
    that matches the leading one. *)
Lemma scan_loop_ok header table P fuel : ∀ offset waiting ports, offset <= len table →
  len table - offset < N.of_nat fuel →
  scan_loop fuel header table (offset, decode_pcb <$> waiting, ports) = Some (Ok P) ↔
  ∃ body trailer records pairs, drop (N.to_nat offset) table = body ++ trailer ∧ closes header trailer
    ∧ frames body records ∧ sockets waiting records pairs ∧ P = ports ∪ served (generation header) pairs.
Proof.
  induction fuel as [|fuel IH]; intros offset waiting ports Ho Hf; [lia|]. cbn [scan_loop fst].
  pose proof (len_drop _ _ Ho) as Hl. destruct (N.ltb_spec offset (len table)) as [Hlt|Hge].
  2: { split; [done|]. intros (body & trailer & records & pairs & Hr & ((Ht & _) & _) & _). exfalso.
       rewrite Hr in Hl. unfold len in Hl at 1. rewrite length_app in Hl. lia. }
  destruct (N.eqb_spec (len table - offset) XINPGEN_LENGTH) as [Htr|Hntr].
  - rewrite scan_trailer_ok by done. split.
    + intros (Hc & Hw & ->). exists [], (drop (N.to_nat offset) table), [], [].
      destruct waiting; [done|]. split_and!; [done|done|constructor..|]. unfold served. cbn. set_solver.
    + intros (body & trailer & records & pairs & Hr & Hc & Hfr & Hs & ->). rewrite Hr in Hl |- *.
      destruct Hc as ((Ht & He) & Hc). unfold len in Hl. rewrite length_app in Hl.
      destruct Hfr as [|record padding body records [_ Hlen] _ _]; [|exfalso; rewrite !length_app in Hl; layout].
      inversion Hs; subst. split_and!; [done..|]. unfold served. cbn. set_solver.
  - split.
    + destruct (scan_next header table (offset, decode_pcb <$> waiting, ports)) as [[s'|e]|] eqn:Hs; [|done..].
      cbn [parse_bind]. apply scan_next_ok in Hs as (record & padding & body & found & Hr & Hok & Hpad & Ha & ->); [|done].
      apply advance_inv in Ha as (waiting' & new & -> & Hnew). cbn [fst snd].
      pose proof (drop_frame _ _ _ _ _ Hr) as Hd. rewrite Hr in Hl. destruct Hok as [Hsz Hlen].
      unfold len in Hl at 1. rewrite !length_app in Hl.
      rewrite IH by layout. intros (body' & trailer & records & pairs & Hr' & Hc & Hfr & Hso & ->).
      exists (record ++ padding ++ body'), trailer, (record :: records), (new ++ pairs).
      rewrite Hr. rewrite Hd in Hr'. rewrite Hr'. split_and!; [by rewrite <-!app_assoc|done| |by apply Hnew|].
      * by apply frames_cons.
      * rewrite served_app. set_solver.
    + intros (body & trailer & records & pairs & Hr & Hc & Hfr & Hs & ->).
      destruct Hfr as [|record padding body records Hok Hpad Hfr].
      { exfalso. apply Hntr. rewrite <-Hl, Hr. destruct Hc as ((Ht & _) & _). cbn. unfold len. by rewrite Ht. }
      apply (sockets_cons_inv header ports) in Hs as (waiting' & new & pairs' & -> & Hso & Ha).
      rewrite <-!app_assoc in Hr. pose proof (drop_frame _ _ _ _ _ Hr) as Hd.
      assert (len record + len padding <= len table - offset ∧ XINPGEN_LENGTH < len record) as [Hfit Hlen].
      { split; [|apply Hok]. rewrite <-Hl, Hr. unfold len. rewrite !length_app. lia. }
      rewrite (scan_next_frame _ _ _ _ _ _ _ _ _ Ho Hr Hok Hpad Ha). cbn [parse_bind fst snd]. apply IH; [layout..|]. exists body, trailer, records, pairs'.
      split_and!; [done..|]. rewrite served_app. set_solver.
Qed.

(** ** The table *)

Section fetching.
Context {W IoError : Type}.

(** [sysctlbyname]: without a buffer the size of the table, with one the bytes
    written to it; [raw_os_error] is the error's code. *)
Context (query : option (list byte) → W → result IoError N * option (list byte) * W).
Context (raw_os_error : IoError → option Z).

Inductive FetchError : Type :=
| FetchSize (e : IoError)
| FetchRead (e : IoError)
| TableGrowth (attempts : nat)
| InvalidReturnedLength (capacity actual : N).

Inductive KernelTableError : Type :=
| KernelFetch (e : FetchError)
| KernelParse (e : ParseError)
| SnapshotUnstable (attempts : nat).

(** One attempt; [None] is another round of the loop. *)
Definition fetch_attempt (w : W) : option (result FetchError (list byte)) * W :=
  match query None w with
  | (Err e, _, w) => (Some (Err (FetchSize e)), w)
  | (Ok capacity, _, w) =>
      let table := replicate (N.to_nat capacity) x00 in
      match query (Some table) w with
      | (Ok actual, table', w) =>
          if actual <=? capacity then (Some (Ok (take (N.to_nat actual) (default table table'))), w)
          else (Some (Err (InvalidReturnedLength capacity actual)), w)
      | (Err e, _, w) =>
          if bool_decide (raw_os_error e = Some ENOMEM) then (None, w) else (Some (Err (FetchRead e)), w)
      end
  end.

Fixpoint fetch_attempts (n : nat) (w : W) : result FetchError (list byte) * W :=
  match n with
  | O => (Err (TableGrowth MAX_ATTEMPTS), w)
  | S n => match fetch_attempt w with
           | (Some r, w) => (r, w)
           | (None, w) => fetch_attempts n w
           end
  end.

Definition fetch_tcp_table : W → result FetchError (list byte) * W := fetch_attempts MAX_ATTEMPTS.

(** [loopback_tcp_listener_ports]; the outer [None] is the panic of the parser. *)
Fixpoint listener_attempts (n : nat) (w : W) : option (result KernelTableError (gset N)) * W :=
  match n with
  | O => (Some (Err (SnapshotUnstable MAX_ATTEMPTS)), w)
  | S n =>
      match fetch_tcp_table w with
      | (Err e, w) => (Some (Err (KernelFetch e)), w)
      | (Ok table, w) =>
          match parse_tcp_table table with
          | Some (Ok ports) => (Some (Ok ports), w)
          | Some (Err (SnapshotChanged _ _ _ _ _ _)) => listener_attempts n w
          | Some (Err e) => (Some (Err (KernelParse e)), w)
          | None => (None, w)
          end
      end
  end.

Definition loopback_tcp_listener_ports : W → option (result KernelTableError (gset N)) * W :=
  listener_attempts MAX_ATTEMPTS.
End fetching.

(** The ports a table lists: it is an empty snapshot, or an envelope, whole records
    that pair up, and an envelope of the same snapshot. *)
Definition lists (table : list byte) (ports : gset N) : Prop :=
  (is_envelope table ∧ count (decode_envelope table) = 0 ∧ ports = ∅)
  ∨ ∃ leading body trailer records pairs, table = leading ++ body ++ trailer
      ∧ is_envelope leading ∧ closes (decode_envelope leading) trailer
      ∧ frames body records ∧ sockets None records pairs
      ∧ ports = served (generation (decode_envelope leading)) pairs.

Lemma is_envelope_take table : XINPGEN_LENGTH <= len table →
  from_le_bytes (take 4 table) = XINPGEN_LENGTH → is_envelope (take 24 table).
Proof.
  intros Hl He. split; [rewrite length_take; layout|]. rewrite take_take. exact He.
Qed.

Lemma decode_envelope_take table rest : length table = 24%nat → decode_envelope (table ++ rest) = decode_envelope table.
Proof.
  intros Hl. unfold decode_envelope, field.
  rewrite !skipn_app, !firstn_app, !length_drop, Hl. cbn [Nat.sub firstn]. by rewrite !take_0, !app_nil_r.
Qed.

Lemma lists_envelope table ports : lists table ports →
  XINPGEN_LENGTH <= len table ∧ from_le_bytes (take 4 table) = XINPGEN_LENGTH.
Proof.
  intros [([Hl He] & _)|(leading & body & trailer & records & pairs & -> & [Hl He] & _)].
  - split; [unfold len; rewrite Hl; layout|done].
  - split; [unfold len; rewrite length_app, Hl; layout|]. rewrite take_app_le by lia. done.
Qed.

(** After the leading envelope, unless the snapshot is empty, comes what the loop
    reads. *)
Lemma lists_loop table ports : XINPGEN_LENGTH <= len table → from_le_bytes (take 4 table) = XINPGEN_LENGTH →
  ¬ (len table = XINPGEN_LENGTH ∧ count (decode_envelope table) = 0) →
  (∃ body trailer records pairs, drop (N.to_nat XINPGEN_LENGTH) table = body ++ trailer
     ∧ closes (decode_envelope table) trailer ∧ frames body records ∧ sockets None records pairs
     ∧ ports = ∅ ∪ served (generation (decode_envelope table)) pairs) ↔ lists table ports.
Proof.
  intros Hl He Hne. change (N.to_nat XINPGEN_LENGTH) with 24%nat. split.
  - intros (body & trailer & records & pairs & Hr & Hc & Hfr & Hs & ->). right.
    exists (take 24 table), body, trailer, records, pairs.
    assert (decode_envelope table = decode_envelope (take 24 table)) as <-.
    { rewrite <-(take_drop 24 table) at 1. apply decode_envelope_take. rewrite length_take. layout. }
    split_and!; [by rewrite <-Hr, take_drop|by apply is_envelope_take|done..|set_solver].
  - intros [([Ht _] & H0 & _)|(leading & body & trailer & records & pairs & -> & [Ht He'] & Hc & Hfr & Hs & ->)].
    + destruct Hne. split; [layout|done].
    + exists body, trailer, records, pairs. rewrite decode_envelope_take by done. rewrite <-Ht, drop_app_length.
      split_and!; [done..|set_solver].
Qed.

(** *** Who listens, read off the bytes *)

Definition record_byte (record : list byte) (i : nat) : N := default 0 (Byte.to_N <$> record !! i).

(** A socket of the snapshot, or older, that listens on [port], and that an IPv4 connection to
    127.0.0.1 or an IPv6 one to ::1 reaches: it takes IPv4, and is bound to 127.x.x.x or to every
    address, or it takes IPv6, and is bound to ::1 or to every address. *)
Definition listens_on (snapshot : N) (inet tcp : list byte) (port : N) : Prop :=
  port = from_be_bytes (field inet 18 2) ∧ from_le_bytes (field inet 28 8) <= snapshot ∧ from_le_bytes (field tcp 36 4) = 1
  ∧ (N.testbit (record_byte inet 44) 0 = true
       ∧ ((∃ rest, field inet 76 4 = x7f :: rest) ∨ Forall (eq x00) (field inet 76 4))
     ∨ N.testbit (record_byte inet 44) 1 = true
       ∧ (field inet 64 16 = replicate 15 x00 ++ [x01] ∨ Forall (eq x00) (field inet 64 16))).

Lemma flag_bit (record : list byte) (bit : N) : bit = 0 ∨ bit = 1 →
  N.land (from_le_bytes (field record 44 1)) (2 ^ bit) ≠ 0 ↔ N.testbit (record_byte record 44) bit = true.
Proof.
  unfold record_byte, field. assert (record !! 44%nat = drop 44 record !! 0%nat) as -> by by rewrite lookup_drop.
  destruct (drop 44 record) as [|x l]; [intros [-> | ->]; by split|]. change (take 1 (x :: l)) with [x].
  change ((x :: l) !! 0%nat) with (Some x). intros [-> | ->]; destruct x; by vm_compute; split.
Qed.

Lemma unspecified_true l : unspecified l = true ↔ Forall (eq x00) l.
Proof.
  unfold unspecified. rewrite forallb_forall, Forall_forall. setoid_rewrite <-list_elem_of_In.
  assert (∀ x, Byte.eqb x00 x = true ↔ x00 = x) as Hx; [|by setoid_rewrite Hx].
  intros x. split; [apply Byte.byte_dec_bl|apply Byte.byte_dec_lb].
Qed.

Lemma ipv4_part_eq record : ipv4_part (field record 64 16) = field record 76 4.
Proof.
  unfold ipv4_part, field. change (N.to_nat _) with 12%nat. rewrite skipn_firstn_comm, skipn_skipn, firstn_firstn. done.
Qed.

Lemma serving_true snapshot inet tcp : serving snapshot (inet, tcp) = true ↔
  listens_on snapshot inet tcp (from_be_bytes (field inet 18 2)).
Proof.
  unfold serving, listens_on, occupies_loopback. cbn [fst snd decode_pcb pcb_generation version_flags local_port local_address].
  rewrite ipv4_part_eq, !andb_true_iff, orb_true_iff, !andb_true_iff, !orb_true_iff, !unspecified_true, !negb_true_iff, !N.eqb_neq, N.leb_le, N.eqb_eq.
  unfold INP_IPV4, INP_IPV6. rewrite (flag_bit inet 0), (flag_bit inet 1) by tauto.
  assert (ipv4_loopback (field inet 76 4) = true ↔ ∃ rest, field inet 76 4 = x7f :: rest) as ->.
  { unfold ipv4_loopback. rewrite bool_decide_eq_true. destruct (field inet 76 4); naive_solver. }
  unfold ipv6_loopback, decode_state, TCPS_LISTEN. rewrite bool_decide_eq_true. tauto.
Qed.

Lemma served_ports snapshot pairs port : port ∈ served snapshot pairs ↔ ∃ inet tcp, (inet, tcp) ∈ pairs ∧ listens_on snapshot inet tcp port.
Proof.
  unfold served. rewrite elem_of_list_to_set, list_elem_of_fmap. split.
  - intros ([inet tcp] & -> & [Hs Hin]%list_elem_of_filter). exists inet, tcp. split; [done|]. by apply serving_true.
  - intros (inet & tcp & Hin & Hl). assert (port = from_be_bytes (field inet 18 2)) as -> by apply Hl.
    exists (inet, tcp). split; [done|]. apply list_elem_of_filter. split; [by apply serving_true|done].
Qed.

(** What a well-formed table lists: nothing, in an empty snapshot, or the ports of the sockets whose
    records are between the envelopes, each internet record with the TCP record that follows it. *)
Definition well_formed (table : list byte) (ports : gset N) : Prop :=
  (is_envelope table ∧ from_le_bytes (field table 4 4) = 0 ∧ ports = ∅)
  ∨ ∃ leading body trailer records pairs, table = leading ++ body ++ trailer
      ∧ is_envelope leading ∧ closes (decode_envelope leading) trailer
      ∧ frames body records ∧ sockets None records pairs
      ∧ ∀ port, port ∈ ports ↔ ∃ inet tcp, (inet, tcp) ∈ pairs ∧ listens_on (from_le_bytes (field leading 8 8)) inet tcp port.

Lemma well_formed_lists table ports : well_formed table ports ↔ lists table ports.
Proof.
  unfold well_formed, lists. apply or_iff_compat_l. split; intros (leading & body & trailer & records & pairs & ? & ? & ? & ? & ? & Hp);
    exists leading, body, trailer, records, pairs; split_and!; try done.
  - apply set_eq. intros port. rewrite served_ports. apply Hp.
  - intros port. rewrite Hp. apply served_ports.
Qed.

Lemma parse_tcp_table_lists table :
  match parse_tcp_table table with
  | Some (Ok ports) => lists table ports
  | Some (Err _) => ∀ ports, ¬ lists table ports
  | None => False
  end.
Proof.
  unfold parse_tcp_table. destruct (N.ltb_spec (len table) XINPGEN_LENGTH) as [Hs|Hl].
  { intros ports [Hl _]%lists_envelope. lia. }
  rewrite parse_envelope_eq by done.
  destruct (N.eqb_spec (from_le_bytes (take 4 table)) XINPGEN_LENGTH) as [He|He]; cbn [negb parse_bind failing].
  2: { by intros ports [_ ?]%lists_envelope. }
  destruct (N.eqb_spec (len table) XINPGEN_LENGTH) as [H24|H24],
    (N.eqb_spec (count (decode_envelope table)) 0) as [H0|H0]; cbn [andb].
  { left. split_and!; [split; [layout|done]|done..]. }
  all: assert (∀ ports, scan_loop (S (length table)) (decode_envelope table) table (XINPGEN_LENGTH, None, ∅) = Some (Ok ports)
         ↔ lists table ports) as Hiff.
  1, 3, 5: intros ports; rewrite (scan_loop_ok (decode_envelope table) table ports (S (length table)) XINPGEN_LENGTH None ∅)
    by layout; apply lists_loop; [done..|tauto].
  all: destruct (scan_loop_total (decode_envelope table) table (S (length table)) XINPGEN_LENGTH None ∅) as [[ports|e] Hr];
    [layout..| |]; rewrite Hr in *; [by apply Hiff|by intros ports ?%Hiff].
Qed.

(** C13: The socket table is read within its bounds and completely: for any bytes the
    parse ends without an index out of range; it succeeds exactly on an envelope,
    whole eight-byte-aligned records and an envelope of the same snapshot, every
    internet record paired with the TCP record after it; and then the ports are
    those of the pairs that existed at the snapshot, listen, and accept loopback connections: sockets
    for IPv4 bound to 127.x.x.x or to every address, or for IPv6 bound to ::1 or to every address. *)
Theorem parse_tcp_table_spec table :
  match parse_tcp_table table with
  | Some (Ok ports) => well_formed table ports
  | Some (Err _) => ∀ ports, ¬ well_formed table ports
  | None => False
  end.
Proof.
  pose proof (parse_tcp_table_lists table) as Ht. destruct (parse_tcp_table table) as [[ports|e]|]; [|intros ports|done].
  - by apply well_formed_lists.
  - rewrite well_formed_lists. apply Ht.
Qed.

(** The ports reported come from one snapshot of the kernel, the parser never
    panics, and a snapshot that changed is fetched again rather than reported. *)
Theorem listener_ports_sound {W IoError} query raw_os_error (w : W) :
  match (loopback_tcp_listener_ports (IoError := IoError) query raw_os_error w).1 with
  | Some (Ok ports) => ∃ w1 table w2, fetch_tcp_table query raw_os_error w1 = (Ok table, w2) ∧ lists table ports
  | Some (Err (KernelParse e)) => ∃ w1 table w2, fetch_tcp_table query raw_os_error w1 = (Ok table, w2)
      ∧ parse_tcp_table table = Some (Err e) ∧ ∀ c g s c' g' s', e ≠ SnapshotChanged c g s c' g' s'
  | Some (Err _) => True
  | None => False
  end.
Proof.
  unfold loopback_tcp_listener_ports. generalize MAX_ATTEMPTS at 1 as n. intros n. revert w.
  induction n as [|n IH]; intros w; [done|]. cbn [listener_attempts].
  destruct (fetch_tcp_table query raw_os_error w) as [[table|e] w2] eqn:Hf; [|done].
  pose proof (parse_tcp_table_lists table) as Hp.
  destruct (parse_tcp_table table) as [[ports|e]|] eqn:Ht; [by exists w, table, w2| |done].
  destruct e; cbn [fst]; try (exists w, table, w2; split_and!; done). apply IH.
Qed.

(** ** A sample table *)

Fixpoint le_bytes (n : nat) (v : N) : list byte :=
  match n with O => [] | S n => default x00 (Byte.of_N (v mod 256)) :: le_bytes n (v / 256) end.
Definition sample_envelope (generation : N) : list byte :=
  le_bytes 4 24 ++ le_bytes 4 2 ++ le_bytes 8 generation ++ le_bytes 8 7.
Definition sample_inet (port generation : N) (address : list byte) : list byte :=
  le_bytes 4 104 ++ le_bytes 4 XSO_INPCB ++ replicate 10 x00
  ++ rev (le_bytes 2 port) ++ replicate 8 x00 ++ le_bytes 8 generation
  ++ replicate 8 x00 ++ [x01] ++ replicate 19 x00 ++ replicate 12 x00 ++ address ++ replicate 24 x00.
Definition sample_tcp (state : N) : list byte := le_bytes 4 40 ++ le_bytes 4 XSO_TCPCB ++ replicate 28 x00 ++ le_bytes 4 state.
Definition sample_other : list byte := le_bytes 4 29 ++ le_bytes 4 1 ++ replicate 24 x00.

Definition sample_table : list byte :=
  sample_envelope 100
  ++ sample_inet 8080 99 [x7f; x00; x00; x01] ++ sample_other ++ sample_tcp 1
  ++ sample_inet 8081 99 [x7f; x00; x00; x01] ++ sample_tcp 4
  ++ sample_inet 8082 101 [x7f; x00; x00; x01] ++ sample_tcp 1
  ++ sample_inet 8083 99 [x0a; x00; x00; x01] ++ sample_tcp 1
  ++ sample_envelope 100.

(** Of four sockets one listens on loopback and is not newer than the snapshot. *)
Example sample_table_ports : parse_tcp_table sample_table = Some (Ok {[8080]}).
Proof. vm_compute. reflexivity. Qed.

Example sample_table_lists : lists sample_table {[8080]}.
Proof. pose proof (parse_tcp_table_lists sample_table) as H. by rewrite sample_table_ports in H. Qed.

Example truncated_table : parse_tcp_table (take 60 sample_table) = Some (Err (TruncatedRecord 24 104)).
Proof. reflexivity. Qed.
