(* ===== verification/HostFs.v ===== *)
(** * The host's file system, with failures, and the helpers over it
    ([resources/src/fs.rs])

    Paths are the components below the root; only the last one may be a symbolic link.
    Every call to [std::fs] may fail for a reason of the host: [fault_at n] says
    whether the [n]-th call does, and how far it got. *)

From S2P Require Import Prelude RustStr Paths Identity.

(** ** Paths, nodes and errors *)

Notation path := (list string).

Definition path_str (p : path) : string := "/" +:+ join "/" p.

Inductive node : Type :=
| File (content : string)
| Dir
| Link (target : string).

Notation Fs := (@gmap (list string) (@list_eq_dec string String.eq_dec)
  (@list_countable string String.eq_dec String.countable) node).

Inductive ErrorKind : Type := NotFound | OtherKind.
(** [std::io::Error]: its kind and its text. *)
Record IoError := { io_kind : ErrorKind; io_text : string }.

Definition ENOENT : IoError := {| io_kind := NotFound; io_text := "No such file or directory (os error 2)" |}.
Definition EEXIST : IoError := {| io_kind := OtherKind; io_text := "File exists (os error 17)" |}.
Definition ENOTDIR : IoError := {| io_kind := OtherKind; io_text := "Not a directory (os error 20)" |}.
Definition EISDIR : IoError := {| io_kind := OtherKind; io_text := "Is a directory (os error 21)" |}.
Definition EINVAL : IoError := {| io_kind := OtherKind; io_text := "Invalid argument (os error 22)" |}.
Definition ENOTEMPTY : IoError := {| io_kind := OtherKind; io_text := "Directory not empty (os error 66)" |}.

#[export] Instance node_eq_dec : EqDecision node.
Proof. solve_decision. Defined.

(** A call that fails has got as far as [fault_count] and [fault_reached] say. *)
Record Fault := { fault_text : string; fault_count : nat; fault_reached : path → bool }.
Definition fault_error (f : Fault) : IoError := {| io_kind := OtherKind; io_text := fault_text f |}.

Class Host := { fault_at : nat → option Fault; process_id : nat }.

(** [counter] is the crate's atomic counter for temporary names. *)
Record World := { files : Fs; clock : nat; counter : nat }.

Definition IO (E A : Type) : Type := World → result E A * World.

#[export] Instance io_ret {E} : MRet (IO E) := λ A a w, (Ok a, w).
#[export] Instance io_bind {E} : MBind (IO E) := λ A B f m w,
  match m w with
  | (Ok a, w) => f a w
  | (Err e, w) => (Err e, w)
  end.

Definition io_fail {E A : Type} (e : E) : IO E A := λ w, (Err e, w).
Definition io_map_err {E F A : Type} (f : E → F) (m : IO E A) : IO F A := λ w, let '(r, w) := m w in (map_err f r, w).
Definition io_lift {E A : Type} (r : result E A) : IO E A := λ w, (r, w).
(** A call whose failure is looked at. *)
Definition io_try {E F A : Type} (m : IO E A) : IO F (result E A) := λ w, let '(r, w) := m w in (Ok r, w).

Definition set_files (fs : Fs) (w : World) : World := {| files := fs; clock := clock w; counter := counter w |}.
Definition fetch_counter {E} : IO E nat := λ w,
  (Ok (counter w), {| files := files w; clock := clock w; counter := S (counter w) |}).

(** ** Trees *)

(** [q] is [p] or below it. *)
Definition under (p q : path) : Prop := p `prefix_of` q.
#[export] Instance under_dec p q : Decision (under p q) := _.

Definition without (p : path) (fs : Fs) : Fs := filter (λ '(q, _), ¬ under p q) fs.
Definition subtree (p : path) (fs : Fs) : Fs := filter (λ '(q, _), under p q) fs.

(** The subtree at [a], moved to [b]. *)
Definition moved (a b : path) (fs : Fs) : Fs :=
  list_to_map ((λ '(q, n), (b ++ drop (length a) q, n)) <$> map_to_list (subtree a fs)).

Definition children (p : path) (fs : Fs) : list (string * node) :=
  omap (λ '(q, n), match last q with
                   | Some name => if bool_decide (q = p ++ [name]) then Some (name, n) else None
                   | None => None
                   end) (map_to_list fs).

Definition parent (p : path) : option path := match p with [] => None | _ => Some (removelast p) end.
Definition with_file_name (name : string) (p : path) : path := removelast p ++ [name].

(** The directories [create_dir_all] goes through. *)
Definition ancestors (p : path) : list path := (λ n, take n p) <$> seq 1 (length p).

(** Where a link at [p] leads. *)
Definition link_path (p : path) (target : string) : path :=
  rev (walk (if is_absolute target then [] else rev (removelast p)) 0 (components target)).1.

(** The host gives up after this many links. *)
Definition MAX_LINKS : nat := 32.

Fixpoint resolve (n : nat) (fs : Fs) (p : path) : option node :=
  match fs !! p, n with
  | Some (Link target), S n => resolve n fs (link_path p target)
  | Some (Link _), O => None
  | found, _ => found
  end.

(** ** [std::fs] *)

Section host.
Context `{Host}.

Definition syscall {A : Type} (act : Fs → result IoError (A * Fs)) (partial : Fault → Fs → Fs) : IO IoError A := λ w,
  let next fs := {| files := fs; clock := S (clock w); counter := counter w |} in
  match fault_at (clock w) with
  | Some f => (Err (fault_error f), next (partial f (files w)))
  | None => match act (files w) with
            | Ok (a, fs) => (Ok a, next fs)
            | Err e => (Err e, next (files w))
            end
  end.

(** A call that only looks. *)
Definition query {A : Type} (f : Fs → result IoError A) : IO IoError A :=
  syscall (λ fs, (λ a, (a, fs)) <$> f fs) (λ _ fs, fs).

Definition make_dirs (l : list path) (fs : Fs) : Fs := foldl (λ fs q, <[q := Dir]> fs) fs l.

Definition missing_dir (fs : Fs) (q : path) : bool := negb (bool_decide (fs !! q = Some Dir)).

Definition not_dir (fs : Fs) (q : path) : bool := match fs !! q with Some Dir | None => false | _ => true end.

Definition std_create_dir_all (p : path) : IO IoError unit :=
  syscall (λ fs,
      if existsb (not_dir fs) (ancestors p) then Err ENOTDIR
      else Ok (tt, make_dirs (List.filter (missing_dir fs) (ancestors p)) fs))
    (λ f fs, if existsb (not_dir fs) (ancestors p) then fs
             else make_dirs (take (fault_count f) (List.filter (missing_dir fs) (ancestors p))) fs).

Definition std_remove_dir_all (p : path) : IO IoError unit :=
  syscall (λ fs, match fs !! p with
                 | None => Err ENOENT
                 | Some (File _) => Err ENOTDIR
                 | Some (Link _) => Ok (tt, delete p fs)
                 | Some Dir => Ok (tt, without p fs)
                 end)
    (λ f fs, filter (λ '(q, _), ¬ (under p q ∧ fault_reached f q = true)) fs).

Definition std_remove_file (p : path) : IO IoError unit :=
  syscall (λ fs, match fs !! p with
                 | None => Err ENOENT
                 | Some Dir => Err EISDIR
                 | Some _ => Ok (tt, delete p fs)
                 end) (λ _ fs, fs).

Definition parent_is_dir (p : path) (fs : Fs) : bool :=
  match parent p with Some q => bool_decide (q = [] ∨ fs !! q = Some Dir) | None => true end.

(** Nothing, an empty directory for a directory, or a file or link for one. *)
Definition may_replace (a : node) (b : option node) (b_empty : bool) : result IoError unit :=
  match a, b with
  | _, None => Ok tt
  | Dir, Some Dir => if b_empty then Ok tt else Err ENOTEMPTY
  | Dir, Some _ => Err ENOTDIR
  | _, Some Dir => Err EISDIR
  | _, Some _ => Ok tt
  end.

Definition std_rename (a b : path) : IO IoError unit :=
  syscall (λ fs,
      n ← ok_or (fs !! a) ENOENT;
      _ ← ensure (parent_is_dir b fs) ENOENT;
      _ ← ensure (negb (bool_decide (a ≠ b ∧ under a b))) EINVAL;
      _ ← (if bool_decide (a = b) then Ok tt else may_replace n (fs !! b) (bool_decide (children b fs = [])));
      Ok (tt, moved a b fs ∪ without b (without a fs))) (λ _ fs, fs).

Definition std_symlink (target : string) (p : path) : IO IoError unit :=
  syscall (λ fs,
      if option_bool (fs !! p) then Err EEXIST
      else if parent_is_dir p fs then Ok (tt, <[p := Link target]> fs) else Err ENOENT) (λ _ fs, fs).

Definition std_read_link (p : path) : IO IoError string :=
  query (λ fs, match fs !! p with Some (Link t) => Ok t | Some _ => Err EINVAL | None => Err ENOENT end).

Definition std_symlink_metadata (p : path) : IO IoError node := query (λ fs, ok_or (fs !! p) ENOENT).

Definition std_read_dir (p : path) : IO IoError (list (string * node)) :=
  query (λ fs, match fs !! p with Some Dir => Ok (children p fs) | Some _ => Err ENOTDIR | None => Err ENOENT end).

(** [File::open(p)?.sync_all()]. *)
Definition std_sync (p : path) : IO IoError unit := query (λ fs, if option_bool (fs !! p) then Ok tt else Err ENOENT).

(** [path.exists()] follows links; an error counts as absence. *)
Definition path_exists {E} (p : path) : IO E bool := λ w,
  match query (λ fs, ok_or (resolve MAX_LINKS fs p) ENOENT) w with (Ok _, w) => (Ok true, w) | (Err _, w) => (Ok false, w) end.

(** ** [resources/src/fs.rs] *)

Definition filesystem_error (p : path) (source : IoError) : ResourcesError := Filesystem (path_str p) (io_text source).

Definition create_dir_all (p : path) : IO ResourcesError unit := io_map_err (filesystem_error p) (std_create_dir_all p).

Definition if_exists (p : path) (m : IO IoError unit) : IO ResourcesError unit := λ w,
  match m w with
  | (Ok _, w) => (Ok tt, w)
  | (Err source, w) =>
      match io_kind source with
      | NotFound => (Ok tt, w)
      | OtherKind => (Err (filesystem_error p source), w)
      end
  end.

Definition remove_dir_all_if_exists (p : path) : IO ResourcesError unit := if_exists p (std_remove_dir_all p).
Definition remove_file_if_exists (p : path) : IO ResourcesError unit := if_exists p (std_remove_file p).
Definition rename (a b : path) : IO ResourcesError unit := io_map_err (filesystem_error b) (std_rename a b).
Definition sync_directory (p : path) : IO ResourcesError unit := io_map_err (filesystem_error p) (std_sync p).

Definition path_entry_exists (p : path) : IO ResourcesError bool := λ w,
  match std_symlink_metadata p w with
  | (Ok _, w) => (Ok true, w)
  | (Err source, w) =>
      match io_kind source with
      | NotFound => (Ok false, w)
      | OtherKind => (Err (filesystem_error p source), w)
      end
  end.

Definition path_is_directory (p : path) : IO ResourcesError bool :=
  io_map_err (filesystem_error p) (n ← std_symlink_metadata p; mret (bool_decide (n = Dir))).
End host.

(** ** Looking paths up *)

Lemma lookup_without p fs q : without p fs !! q = if decide (under p q) then None else fs !! q.
Proof.
  unfold without. case_decide as Hu.
  - apply map_lookup_filter_None. right. intros n _ Hn. by apply Hn.
  - destruct (fs !! q) as [n|] eqn:Hq; [by apply map_lookup_filter_Some|].
    apply map_lookup_filter_None. by left.
Qed.

Lemma lookup_moved a b fs q n : moved a b fs !! q = Some n ↔ ∃ r, q = b ++ r ∧ fs !! (a ++ r) = Some n.
Proof.
  unfold moved. set (l := _ <$> _).
  assert (∀ q' n', (q', n') ∈ l ↔ ∃ r, q' = b ++ r ∧ fs !! (a ++ r) = Some n') as Hl.
  { intros q' n'. unfold l. rewrite list_elem_of_fmap. split.
    - intros ([q0 n0] & [= -> ->] & Hin). apply elem_of_map_to_list, map_lookup_filter_Some in Hin as [Hq [r ->]].
      exists r. by rewrite drop_app_length.
    - intros (r & -> & Hq). exists (a ++ r, n'). rewrite drop_app_length. split; [done|].
      apply elem_of_map_to_list, map_lookup_filter_Some. split; [done|by exists r]. }
  rewrite <-elem_of_list_to_map, Hl; [done|].
  unfold l. rewrite <-list_fmap_compose. apply NoDup_fmap_2_strong; [|apply NoDup_map_to_list].
  intros [q1 n1] [q2 n2] H1 H2 Heq. cbn in Heq.
  apply elem_of_map_to_list, map_lookup_filter_Some in H1 as [Hq1 [r1 ->]].
  apply elem_of_map_to_list, map_lookup_filter_Some in H2 as [Hq2 [r2 ->]].
  rewrite !drop_app_length in Heq. apply app_inv_head in Heq as ->. congruence.
Qed.

Lemma under_drop p q : under p q → q = p ++ drop (length p) q.
Proof. intros [r ->]. by rewrite drop_app_length. Qed.

Lemma under_refl p : under p p.
Proof. exists []. by rewrite app_nil_r. Qed.
Lemma under_app p r : under p (p ++ r).
Proof. by exists r. Qed.
Lemma under_trans p q r : under p q → under q r → under p r.
Proof. intros [s ->] [t ->]. exists (s ++ t). by rewrite app_assoc. Qed.

Lemma parent_below (p : path) (x : string) (r : path) : parent (p ++ x :: r) = Some (p ++ removelast (x :: r)).
Proof.
  unfold parent. destruct (p ++ x :: r) eqn:He; [by destruct p|]. rewrite <-He. by rewrite removelast_app.
Qed.

Lemma elem_of_children (dir : path) (s : Fs) (name : string) (n : node) :
  (name, n) ∈ children dir s ↔ s !! (dir ++ [name]) = Some n.
Proof.
  unfold children. rewrite list_elem_of_omap. split.
  - intros ([q m] & Hin%elem_of_map_to_list & Hq). destruct (last q) as [x|] eqn:Hx; [|done].
    case_bool_decide as Hd; [|done]. injection Hq as -> ->. by subst.
  - intros Hn. exists (dir ++ [name], n). split; [by apply elem_of_map_to_list|].
    rewrite last_snoc. by rewrite bool_decide_eq_true_2.
Qed.

(** Two names in a directory have separate subtrees. *)
Lemma under_siblings (p : path) (x y : string) r q : x ≠ y → under (p ++ x :: r) q → ¬ under (p ++ [y]) q.
Proof.
  intros Hxy [s ->] [t Ht]. rewrite <-!app_assoc in Ht. apply app_inv_head in Ht. cbn in Ht. congruence.
Qed.

(** The tree after a rename. *)
Lemma lookup_rename a b fs q :
  (moved a b fs ∪ without b (without a fs)) !! q =
    if decide (under b q) then fs !! (a ++ drop (length b) q)
    else if decide (under a q) then None else fs !! q.
Proof.
  destruct (moved a b fs !! q) as [n|] eqn:Hm.
  - rewrite (lookup_union_Some_l _ _ _ _ Hm). apply lookup_moved in Hm as (r & -> & Hr).
    rewrite decide_True by apply under_app. by rewrite drop_app_length, Hr.
  - rewrite lookup_union_r by done. rewrite !lookup_without.
    case_decide as Hb; [|by case_decide]. symmetry. apply eq_None_not_Some. intros [n Hn].
    assert (moved a b fs !! q = Some n); [|congruence]. apply lookup_moved.
    exists (drop (length b) q). by rewrite <-under_drop.
Qed.

Lemma lookup_make_dirs l fs q : make_dirs l fs !! q = if decide (q ∈ l) then Some Dir else fs !! q.
Proof.
  unfold make_dirs. revert fs. induction l as [|p l IH]; intros fs; cbn [foldl]; [done|].
  rewrite IH. destruct (decide (q ∈ l)) as [Hin|Hin].
  - rewrite decide_True; [done|by right].
  - destruct (decide (q = p)) as [->|Hne].
    + rewrite lookup_insert_eq, decide_True; [done|by left].
    + rewrite lookup_insert_ne, decide_False by (rewrite ?elem_of_cons; naive_solver). done.
Qed.

Lemma elem_of_ancestors p q : q ∈ ancestors p ↔ under q p ∧ q ≠ [].
Proof.
  unfold ancestors. rewrite list_elem_of_fmap. split.
  - intros (n & -> & Hn%elem_of_seq). split; [apply prefix_take|]. destruct p; [cbn in Hn; lia|].
    destruct n; [lia|done].
  - intros [[r ->] Hq]. exists (length q). rewrite take_app_length, elem_of_seq, length_app.
    destruct q; [done|]. cbn. split; [done|lia].
Qed.

(** ** Reasoning about calls

    [hoare P m Q X]: from a tree that satisfies [P], a success leaves one that
    satisfies [Q] and an error one that satisfies [X], whatever the failures. *)

Definition hoare {E A : Type} (P : Fs → Prop) (m : IO E A) (Q : A → Fs → Prop) (X : Fs → Prop) : Prop :=
  ∀ w, P (files w) → match m w with (Ok a, w') => Q a (files w') | (Err _, w') => X (files w') end.

(** [m] changes only paths that satisfy [C]. *)
Definition changes {E A : Type} (C : path → Prop) (m : IO E A) : Prop :=
  ∀ w q, ¬ C q → files (m w).2 !! q = files w !! q.

Section rules.
Context {E : Type}.
Implicit Types P X : Fs → Prop.

Lemma hoare_ret {A : Type} (a : A) (Q : A → Fs → Prop) X : hoare (E := E) (Q a) (mret a) Q X.
Proof. by intros w. Qed.

Lemma hoare_fail {A : Type} (e : E) (Q : A → Fs → Prop) X : hoare X (io_fail e) Q X.
Proof. by intros w. Qed.

Lemma hoare_bind {A B : Type} P (m : IO E A) (f : A → IO E B) R Q X :
  hoare P m R X → (∀ a, hoare (R a) (f a) Q X) → hoare P (m ≫= f) Q X.
Proof.
  intros Hm Hf w Hw. specialize (Hm w Hw). unfold mbind, io_bind.
  destruct (m w) as [[a|e] w']; [by apply Hf|done].
Qed.

Lemma hoare_seq {A B : Type} P R (m : IO E A) (k : IO E B) Q X :
  hoare P m (λ _, R) X → hoare R k Q X → hoare P (m ≫= λ _, k) Q X.
Proof. intros Hm Hk. eapply hoare_bind; [done|]. by intros ?. Qed.

Lemma hoare_conseq {A : Type} P P' (m : IO E A) Q Q' X X' :
  (∀ s, P s → P' s) → (∀ a s, Q' a s → Q a s) → (∀ s, X' s → X s) → hoare P' m Q' X' → hoare P m Q X.
Proof.
  intros HP HQ HX Hm w Hw. specialize (Hm w (HP _ Hw)). destruct (m w) as [[a|e] w']; auto.
Qed.

Lemma hoare_pre {A : Type} P P' (m : IO E A) Q X : (∀ s, P s → P' s) → hoare P' m Q X → hoare P m Q X.
Proof. intros HP. by apply hoare_conseq. Qed.

(** A failure with the tree as it was is covered by [X]. *)
Lemma hoare_lift {A : Type} P (r : result E A) X : (∀ s, P s → X s) → hoare P (io_lift r) (λ a s, r = Ok a ∧ P s) X.
Proof. intros HX w Hw. destruct r; cbn; auto. Qed.

(** What [m] does not change stays true. *)
Lemma hoare_changes {A : Type} (C : path → Prop) (m : IO E A) P X :
  changes C m → (∀ s s', (∀ q, ¬ C q → s' !! q = s !! q) → P s → P s') → (∀ s, P s → X s) →
  hoare P m (λ _, P) X.
Proof.
  intros Hm HP HX w Hw. specialize (Hm w).
  assert (P (files (m w).2)) as H by (eapply HP; [|done]; intros; by apply Hm).
  destruct (m w) as [[a|e] w']; cbn in H; auto.
Qed.

(** A call that changes nothing tells its result, and leaves the tree. *)
Lemma hoare_look {A : Type} P (m : IO E A) X : changes (λ _, False) m → (∀ s, P s → X s) →
  hoare P m (λ _, P) X.
Proof.
  intros Hm HX. apply (hoare_changes (λ _, False)); [done| |done].
  intros s s' Heq Hs. assert (s' = s) as ->; [|done]. apply map_eq. intros q. apply Heq. by intros [].
Qed.

(** Facts known of the tree before stay available. *)
Lemma hoare_pure {A : Type} P (φ : Prop) (m : IO E A) Q X : (φ → hoare P m Q X) → hoare (λ s, φ ∧ P s) m Q X.
Proof. intros Hm w [Hφ HP]. by apply Hm. Qed.

Lemma hoare_map_err {E' A : Type} P (f : E → E') (m : IO E A) Q X : hoare P m Q X → hoare P (io_map_err f m) Q X.
Proof. intros Hm w Hw. specialize (Hm w Hw). unfold io_map_err. by destruct (m w) as [[a|e] w']. Qed.

Lemma changes_bind {A B : Type} (C : path → Prop) (m : IO E A) (f : A → IO E B) :
  changes C m → (∀ a, changes C (f a)) → changes C (m ≫= f).
Proof.
  intros Hm Hf w q Hq. specialize (Hm w q Hq). unfold mbind, io_bind.
  destruct (m w) as [[a|e] w']; cbn in *; [|done]. by rewrite Hf.
Qed.

Lemma changes_ret {A : Type} (C : path → Prop) (a : A) : changes (E := E) C (mret a).
Proof. done. Qed.
Lemma changes_fail {A : Type} (C : path → Prop) (e : E) : changes (A := A) C (io_fail e).
Proof. done. Qed.
Lemma changes_lift {A : Type} (C : path → Prop) (r : result E A) : changes C (io_lift r).
Proof. done. Qed.
Lemma changes_counter (C : path → Prop) : changes (E := E) C fetch_counter.
Proof. done. Qed.
Lemma changes_map_err {E' A : Type} (C : path → Prop) (f : E → E') (m : IO E A) : changes C m → changes C (io_map_err f m).
Proof. intros Hm w q Hq. specialize (Hm w q Hq). unfold io_map_err. by destruct (m w). Qed.
Lemma changes_try {F A : Type} (C : path → Prop) (m : IO E A) : changes C m → changes C (io_try (F := F) m).
Proof. intros Hm w q Hq. specialize (Hm w q Hq). unfold io_try. by destruct (m w). Qed.
Lemma changes_weaken {A : Type} (C D : path → Prop) (m : IO E A) : (∀ q, C q → D q) → changes C m → changes D m.
Proof. intros HCD Hm w q Hq. apply Hm. auto. Qed.
End rules.

Section calls.
Context `{Host}.

(** A call of [std::fs]: its effect or the rest of a failure. *)
Lemma hoare_syscall {A : Type} (P : Fs → Prop) (act : Fs → result IoError (A * Fs)) partial Q X :
  (∀ s a s', P s → act s = Ok (a, s') → Q a s') → (∀ s, P s → X s) →
  (∀ f s, P s → X (partial f s)) → hoare P (syscall act partial) Q X.
Proof.
  intros Ha He Hp w Hw. unfold syscall. destruct (fault_at (clock w)); [by apply Hp|].
  destruct (act (files w)) as [[a s]|e] eqn:Hact; cbn; [by eapply Ha|by apply He].
Qed.

Lemma hoare_query {A : Type} (P : Fs → Prop) (f : Fs → result IoError A) X : (∀ s, P s → X s) →
  hoare P (query f) (λ a s, f s = Ok a ∧ P s) X.
Proof.
  intros HX. apply hoare_syscall; [|done|by intros; apply HX].
  intros s a s' Hs. destruct (f s) eqn:Hf; cbn; [|done]. by intros [= <- <-].
Qed.

Lemma changes_query {A : Type} (C : path → Prop) (f : Fs → result IoError A) : changes C (query f).
Proof.
  intros w q Hq. unfold query, syscall. destruct (fault_at (clock w)); [done|].
  destruct (f (files w)); done.
Qed.

Lemma changes_std_create_dir_all p : changes (λ q, q ∈ ancestors p) (std_create_dir_all p).
Proof.
  intros w q Hq. unfold std_create_dir_all, syscall.
  assert (∀ l, (∀ x, x ∈ l → x ∈ ancestors p) → make_dirs l (files w) !! q = files w !! q) as Hl.
  { intros l Hl. rewrite lookup_make_dirs, decide_False by auto. done. }
  assert (∀ x, x ∈ List.filter (missing_dir (files w)) (ancestors p) → x ∈ ancestors p) as Hf.
  { intros x Hx. rewrite list_elem_of_In, filter_In, <-list_elem_of_In in Hx. tauto. }
  destruct (fault_at (clock w)) as [f|]; cbn; destruct (existsb _ _); cbn; try done; apply Hl; [|done].
  intros x Hx. apply Hf. by eapply subseteq_take.
Qed.

Lemma changes_syscall {A : Type} (C : path → Prop) (act : Fs → result IoError (A * Fs)) partial :
  (∀ fs a fs' q, act fs = Ok (a, fs') → ¬ C q → fs' !! q = fs !! q) →
  (∀ f fs q, ¬ C q → partial f fs !! q = fs !! q) → changes C (syscall act partial).
Proof.
  intros Ha Hp w q Hq. unfold syscall. destruct (fault_at (clock w)); [by apply Hp|].
  destruct (act (files w)) as [[a fs]|e] eqn:He; [by eapply Ha|done].
Qed.

Lemma changes_std_remove_dir_all p : changes (under p) (std_remove_dir_all p).
Proof.
  apply changes_syscall.
  - intros fs a fs' q. destruct (fs !! p) as [[c| |t]|]; try done; intros [= <- <-] Hq.
    + by rewrite lookup_without, decide_False.
    + rewrite lookup_delete_ne; [done|]. intros ->. by apply Hq, under_refl.
  - intros f fs q Hq. destruct (fs !! q) as [n|] eqn:Hn.
    + apply map_lookup_filter_Some. split; [done|]. by intros [? _].
    + apply map_lookup_filter_None. by left.
Qed.

Lemma changes_std_remove_file p : changes (λ q, q = p) (std_remove_file p).
Proof.
  apply changes_syscall; [|done]. intros fs a fs' q.
  destruct (fs !! p) as [[c| |t]|]; try done; intros [= <- <-] Hq; by rewrite lookup_delete_ne by congruence.
Qed.

Lemma std_rename_ok fs a b fs' :
  (n ← ok_or (fs !! a) ENOENT;
   _ ← ensure (parent_is_dir b fs) ENOENT;
   _ ← ensure (negb (bool_decide (a ≠ b ∧ under a b))) EINVAL;
   _ ← (if bool_decide (a = b) then Ok tt else may_replace n (fs !! b) (bool_decide (children b fs = [])));
   Ok (tt, moved a b fs ∪ without b (without a fs))) = Ok (tt, fs') →
  (∃ n, fs !! a = Some n) ∧ fs' = moved a b fs ∪ without b (without a fs).
Proof. intros Hr. inv_ok. split; [by eexists|done]. Qed.

Lemma changes_std_rename a b : changes (λ q, under a q ∨ under b q) (std_rename a b).
Proof.
  apply changes_syscall; [|done]. intros fs [] fs' q [_ ->]%std_rename_ok Hq.
  rewrite lookup_rename, !decide_False by tauto. done.
Qed.

Lemma changes_std_symlink t p : changes (λ q, q = p) (std_symlink t p).
Proof.
  apply changes_syscall; [|done]. intros fs a fs' q. destruct (option_bool (fs !! p)); [done|].
  destruct (parent_is_dir p fs); [|done]. intros [= <- <-] Hq. by rewrite lookup_insert_ne by congruence.
Qed.

Lemma changes_if_exists (C : path → Prop) p (m : IO IoError unit) : changes C m → changes C (if_exists p m).
Proof.
  intros Hm w q Hq. specialize (Hm w q Hq). unfold if_exists. destruct (m w) as [[a|[[] ?]] w']; done.
Qed.

Lemma changes_entry_exists (C : path → Prop) p : changes C (path_entry_exists p).
Proof.
  intros w q Hq. pose proof (changes_query C (λ fs, ok_or (fs !! p) ENOENT) w q Hq) as Hm.
  unfold path_entry_exists, std_symlink_metadata. destruct (query _ w) as [[a|[[] ?]] w']; done.
Qed.

Lemma hoare_entry_exists (P X : Fs → Prop) p : (∀ s, P s → X s) →
  hoare P (path_entry_exists p) (λ b s, b = option_bool (s !! p) ∧ P s) X.
Proof.
  intros HX w Hw. unfold path_entry_exists, std_symlink_metadata, query, syscall.
  destruct (fault_at (clock w)); cbn; [by apply HX|]. by destruct (files w !! p) eqn:Hp; cbn; by rewrite Hp.
Qed.

Lemma hoare_is_directory (P X : Fs → Prop) p : (∀ s, P s → X s) →
  hoare P (path_is_directory p) (λ b s, (b = true → s !! p = Some Dir) ∧ P s) X.
Proof.
  intros HX. unfold path_is_directory. apply hoare_map_err. eapply hoare_bind; [by apply hoare_query|].
  intros n w [Hn HP]. split; [|done]. intros ->%bool_decide_eq_true. destruct (files w !! p); cbn in Hn; congruence.
Qed.

(** Removing what is there, or failing on the way. *)
Lemma hoare_if_exists (P X : Fs → Prop) p (m : IO IoError unit) (Q : unit → Fs → Prop) :
  (∀ w, P (files w) → match m w with
     | (Ok a, w') => Q a (files w')
     | (Err e, w') => match io_kind e with NotFound => Q tt (files w') | OtherKind => X (files w') end
     end) → hoare P (if_exists p m) Q X.
Proof.
  intros Hm w Hw. specialize (Hm w Hw). unfold if_exists. by destruct (m w) as [[[]|[[] ?]] w'].
Qed.

Lemma hoare_remove_dir (P X : Fs → Prop) p : (∀ s, P s → s !! p = Some Dir) →
  (∀ s s', P s → (∀ q, ¬ under p q → s' !! q = s !! q) → X s') →
  hoare P (remove_dir_all_if_exists p) (λ _ s', ∃ s, P s ∧ s' = without p s) X.
Proof.
  intros HP HX. apply hoare_if_exists. intros w Hw.
  pose proof (λ q, changes_std_remove_dir_all p w q) as Hc.
  unfold std_remove_dir_all, syscall in *. destruct (fault_at (clock w)); cbn in *; [by eapply HX|].
  rewrite (HP _ Hw). cbn. by exists (files w).
Qed.

Lemma hoare_remove_file (P X : Fs → Prop) p : (∀ s, P s → s !! p ≠ Some Dir) → (∀ s, P s → X s) →
  hoare P (remove_file_if_exists p) (λ _ s', ∃ s, P s ∧ s' = delete p s) X.
Proof.
  intros HP HX. apply hoare_if_exists. intros w Hw. specialize (HP _ Hw).
  unfold std_remove_file, syscall. destruct (fault_at (clock w)); cbn; [by apply HX|].
  destruct (files w !! p) as [[c| |l]|] eqn:Hp; cbn; [by exists (files w)|done|by exists (files w)|].
  exists (files w). split; [done|]. by rewrite delete_id.
Qed.

Lemma changes_path_exists {E : Type} (C : path → Prop) p : changes C (path_exists (E := E) p).
Proof.
  intros w q Hq. pose proof (changes_query C (λ fs, ok_or (resolve MAX_LINKS fs p) ENOENT) w q Hq) as Hm.
  unfold path_exists. by destruct (query _ w) as [[a|e] w'].
Qed.
End calls.

#[export] Hint Resolve changes_ret changes_fail changes_lift changes_counter changes_query changes_entry_exists
  changes_path_exists : pv.

(** Confinement of a composed call from that of its parts: [C] may be larger than
    what a part changes. *)
Ltac confine :=
  repeat match goal with
  | |- changes _ (mbind _ _) => apply changes_bind; [|intros ?]
  | |- changes _ (io_map_err _ _) => apply changes_map_err
  | |- changes _ (io_try _) => apply changes_try
  | |- changes _ (if_exists _ _) => apply changes_if_exists
  | |- changes _ (if ?b then _ else _) => destruct b
  | |- changes _ (match ?x with _ => _ end) => destruct x
  | |- changes _ (create_dir_all _) => apply changes_map_err; eapply changes_weaken; [|apply changes_std_create_dir_all]
  | |- changes _ (remove_dir_all_if_exists _) => apply changes_if_exists; eapply changes_weaken; [|apply changes_std_remove_dir_all]
  | |- changes _ (remove_file_if_exists _) => apply changes_if_exists; eapply changes_weaken; [|apply changes_std_remove_file]
  | |- changes _ (rename _ _) => apply changes_map_err; eapply changes_weaken; [|apply changes_std_rename]
  | |- changes _ (std_symlink _ _) => eapply changes_weaken; [|apply changes_std_symlink]
  | |- changes _ (sync_directory _) => apply changes_map_err, changes_query
  | |- changes _ (path_is_directory _) => unfold path_is_directory
  | |- changes _ (std_symlink_metadata _) => apply changes_query
  | |- changes _ (std_read_link _) => apply changes_query
  | |- changes _ (std_read_dir _) => apply changes_query
  | |- changes _ _ => solve [auto with pv]
  end.

(** ** What a call returns *)

Definition gives {E A : Type} (m : IO E A) (Q : A → Prop) : Prop := ∀ w a w', m w = (Ok a, w') → Q a.
Lemma gives_any {E A : Type} (m : IO E A) : gives m (λ _, True).
Proof. by intros w a w' _. Qed.
Lemma gives_bind {E A B : Type} (m : IO E A) (f : A → IO E B) Q R : gives m Q → (∀ a, Q a → gives (f a) R) → gives (m ≫= f) R.
Proof.
  intros Hm Hf w b w'. unfold mbind, io_bind. destruct (m w) as [[a|e] w1] eqn:Hw; [|done]. apply (Hf a (Hm _ _ _ Hw)).
Qed.
Lemma gives_seq {E A B : Type} (m : IO E A) (f : A → IO E B) R : (∀ a, gives (f a) R) → gives (m ≫= f) R.
Proof. intros Hf. apply (gives_bind _ _ (λ _, True)); [apply gives_any|]. intros a _. apply Hf. Qed.
Lemma gives_ret {E A : Type} (a : A) (Q : A → Prop) : Q a → gives (E := E) (mret a) Q.
Proof. by intros Ha w b w' [= <- _]. Qed.
Lemma gives_fail {E A : Type} (e : E) (Q : A → Prop) : gives (io_fail e) Q.
Proof. intros w a w' Ha. discriminate Ha. Qed.
Lemma gives_lift {E A : Type} (r : result E A) (Q : A → Prop) : (∀ a, r = Ok a → Q a) → gives (io_lift r) Q.
Proof. intros Hr w a w' [= Ha _]. by apply Hr. Qed.
Lemma gives_conseq {E A : Type} (m : IO E A) (Q Q' : A → Prop) : (∀ a, Q a → Q' a) → gives m Q → gives m Q'.
Proof. intros HQ Hm w a w' Hw. by apply HQ, (Hm w a w'). Qed.
Lemma gives_map_err {E F A : Type} (f : E → F) (m : IO E A) Q : gives m Q → gives (io_map_err f m) Q.
Proof.
  intros Hm w a w'. unfold io_map_err. destruct (m w) as [[x|e] w1] eqn:Hw; [|done]. intros [= -> _]. by apply (Hm _ _ _ Hw).
Qed.
