(* ===== verification/Installer.v ===== *)
(** * Installing an artifact ([resources/src/install.rs])

    A release is unpacked beside the others, validated, moved into place and only
    then pointed to by the track's [current] link. *)

From S2P Require Import Prelude RustStr Paths Identity Manifest HostFs.

(** ** Data *)

(** [tar::EntryType], as far as the installer tells entries apart. *)
Inductive EntryType : Type :=
| Regular | Directory | HardLink | Symlink | Char | Block | Fifo | Continuous
| GNULongName | GNULongLink | GNUSparse | XGlobalHeader | XHeader | OtherEntry.

Record ArtifactInstall := {
  ai_resource_name : ResourceName; ai_track : TrackName; ai_artifact_version : ArtifactVersion;
  ai_release_path : path; ai_current_path : path;
  ai_previous_release : option string; ai_release_existed_before : bool;
}.

Definition should_skip_archive_entry (t : EntryType) : bool :=
  match t with XGlobalHeader | XHeader | GNULongName | GNULongLink => true | _ => false end.

Definition archive_entry_type_name (t : EntryType) : string :=
  match t with
  | HardLink => "hard link"
  | Symlink => "symlink"
  | Char => "character special"
  | Block => "block special"
  | Fifo => "fifo"
  | Continuous => "contiguous file"
  | GNUSparse => "sparse file"
  | _ => "unknown"
  end.

Definition validate_archive_entry_type (archive_path : path) (t : EntryType) : result ResourcesError unit :=
  match t with
  | Regular | Directory => Ok tt
  | _ => Err (InvalidArtifactArchive (path_str archive_path)
               ("unsupported archive entry type " +:+ tick (archive_entry_type_name t)))
  end.

(** The loop of [clean_archive_path]; entry paths are text. *)
Fixpoint clean_components (archive_path : path) (text : string) (l : list component) : result ResourcesError path :=
  match l with
  | [] => Ok []
  | Normal value :: l => cons value <$> clean_components archive_path text l
  | CurDir :: l => clean_components archive_path text l
  | (ParentDir | RootDir) :: _ =>
      Err (InvalidArtifactArchive (path_str archive_path) ("archive entry " +:+ tick text +:+ " is not relative"))
  end.

Definition clean_archive_path (archive_path : path) (text : string) : result ResourcesError path :=
  clean ← clean_components archive_path text (components text);
  match clean with
  | [] => Err (InvalidArtifactArchive (path_str archive_path) "archive entry path is empty")
  | _ => Ok clean
  end.

Definition invalid_archive (p : path) (source : IoError) : ResourcesError :=
  InvalidArtifactArchive (path_str p) (io_text source).

Definition invalid_current_pointer (name : ResourceName) (current_path : path) (target : string) : ResourcesError :=
  InvalidArtifactLayout (resource_name_str name)
    ("current pointer " +:+ tick (path_str current_path) +:+ " targets invalid release " +:+ tick target).

Definition validate_artifact_matches_request (name : ResourceName) (track : TrackName) (artifact : ManifestArtifact) :
    result ResourcesError unit :=
  ensure (bool_decide (ma_resource_name artifact = name) && bool_decide (ma_track artifact = track))
    (InvalidArtifactLayout (resource_name_str name)
      ("artifact belongs to " +:+ tick (resource_name_str (ma_resource_name artifact)) +:+ " track "
       +:+ tick (track_name_str (ma_track artifact)) +:+ ", not " +:+ tick (resource_name_str name)
       +:+ " track " +:+ tick (track_name_str track))).

Section installer.
Context `{Host}.

(** The archive, through [flate2] and [tar]: its entries, and writing one out. *)
Context {Entry : Type} (entry_type : Entry → EntryType) (entry_path : Entry → result IoError string).
Context (open_archive : path → IO ResourcesError (list (result IoError Entry))).
Context (unpack : Entry → path → IO IoError unit).
(** The adapter: its resource, and its check of the tree below a root. *)
Context (adapter_name : ResourceName) (validate_tree : (path → option node) → result ResourcesError unit).
Context (resources_dir : path).

Definition tree (root : path) (fs : Fs) : path → option node := λ q, fs !! (root ++ q).

(** [adapter.validate_installation(root)]. *)
Definition validate_installation (root : path) : IO ResourcesError unit := λ w, (validate_tree (tree root (files w)), w).

Definition track_dir (track : TrackName) : path :=
  resources_dir ++ [resource_name_str adapter_name; track_name_str track].
Definition releases_dir (track : TrackName) : path := track_dir track ++ ["releases"].
Definition release_dir (track : TrackName) (version : string) : path := releases_dir track ++ [version].
Definition current_link (track : TrackName) : path := track_dir track ++ ["current"].

(** ** Unpacking *)

(** One entry; the root found so far. *)
Definition unpack_entry (archive_path staging : path) (root_name : option string) (entry : result IoError Entry) :
    IO ResourcesError (option string) :=
  entry ← io_lift (map_err (invalid_archive archive_path) entry);
  if should_skip_archive_entry (entry_type entry) then mret root_name
  else
    _ ← io_lift (validate_archive_entry_type archive_path (entry_type entry));
    text ← io_lift (map_err (invalid_archive archive_path) (entry_path entry));
    relative_path ← io_lift (clean_archive_path archive_path text);
    match relative_path with
    | [] => mret root_name
    | first_component :: _ =>
        if match root_name with Some root => negb (bool_decide (root = first_component)) | None => false end
        then io_fail (InvalidArtifactArchive (path_str archive_path)
                       "archive must contain exactly one top-level directory")
        else
          let output_path := staging ++ relative_path in
          _ ← (match parent output_path with Some dir => create_dir_all dir | None => mret tt end);
          _ ← io_map_err (invalid_archive archive_path) (unpack entry output_path);
          mret (Some first_component)
    end.

Fixpoint unpack_entries (archive_path staging : path) (root_name : option string)
    (entries : list (result IoError Entry)) : IO ResourcesError (option string) :=
  match entries with
  | [] => mret root_name
  | entry :: entries =>
      root_name ← unpack_entry archive_path staging root_name entry;
      unpack_entries archive_path staging root_name entries
  end.

Definition unpack_single_root_archive (archive_path staging : path) : IO ResourcesError path :=
  entries ← open_archive archive_path;
  root_name ← unpack_entries archive_path staging None entries;
  match root_name with
  | None => io_fail (InvalidArtifactArchive (path_str archive_path) "archive is empty")
  | Some root_name =>
      let root_path := staging ++ [root_name] in
      is_dir ← path_is_directory root_path;
      if is_dir : bool then mret root_path
      else io_fail (InvalidArtifactArchive (path_str archive_path) "archive root is not a directory")
  end.

Definition unpack_validate_and_promote (archive_path staging release_path : path) (version : ArtifactVersion) :
    IO ResourcesError unit :=
  _ ← remove_dir_all_if_exists staging;
  _ ← create_dir_all staging;
  root ← unpack_single_root_archive archive_path staging;
  _ ← validate_installation root;
  _ ← rename root release_path;
  _ ← (match parent release_path with Some dir => sync_directory dir | None => mret tt end);
  exists_ ← path_exists release_path;
  if exists_ : bool then mret tt
  else io_fail (InvalidArtifactLayout (resource_name_str adapter_name)
                 ("artifact " +:+ tick (artifact_version_str version) +:+ " was not installed")).

(** ** The current pointer *)

Definition staging_dir (dir : path) (version : ArtifactVersion) : IO ResourcesError path :=
  counter ← fetch_counter;
  mret (dir ++ [".installing-" +:+ artifact_version_str version +:+ "-" +:+ show_nat process_id +:+ "-" +:+ show_nat counter]).

Definition update_current_pointer (dir : path) (version : ArtifactVersion) : IO ResourcesError unit :=
  counter ← fetch_counter;
  let temporary_path := dir ++ ["current." +:+ show_nat process_id +:+ "." +:+ show_nat counter +:+ ".tmp"] in
  _ ← remove_file_if_exists temporary_path;
  _ ← io_map_err (filesystem_error temporary_path)
        (std_symlink ("releases/" +:+ artifact_version_str version) temporary_path);
  _ ← rename temporary_path (dir ++ ["current"]);
  sync_directory dir.

Definition current_release_name (current_path : path) : IO ResourcesError (option string) :=
  present ← path_entry_exists current_path;
  if negb present then mret None
  else
    target ← io_map_err (filesystem_error current_path) (std_read_link current_path);
    let invalid := io_fail (invalid_current_pointer adapter_name current_path target) in
    match strip_prefix "releases/" target with
    | None => invalid
    | Some version =>
        if contains "/" version || is_empty version || negb (is_ok (artifact_version_new version)) then invalid
        else
          match parent current_path with
          | None => invalid
          | Some dir =>
              let target_path := dir ++ ["releases"; version] in
              present ← path_entry_exists target_path;
              is_dir ← (if present : bool then path_is_directory target_path else mret false);
              if is_dir : bool then mret (Some version) else invalid
          end
    end.

(** ** Pruning *)

(** [release_entries]: the directories below, each with its name. *)
Definition release_entries (dir : path) : IO ResourcesError (list string) :=
  entries ← io_map_err (filesystem_error dir) (std_read_dir dir);
  mret (omap (λ '(name, n), if bool_decide (n = Dir) then Some name else None) entries).

Fixpoint prune_loop (dir : path) (current : string) (previous : option string) (names : list string) :
    IO ResourcesError unit :=
  match names with
  | [] => mret tt
  | name :: names =>
      _ ← (if bool_decide (name = current) || bool_decide (Some name = previous) then mret tt
           else remove_dir_all_if_exists (dir ++ [name]));
      prune_loop dir current previous names
  end.

Definition prune_old_releases (dir : path) (current : ArtifactVersion) (previous : option string) : IO ResourcesError unit :=
  names ← release_entries dir;
  _ ← prune_loop dir (artifact_version_str current) previous names;
  sync_directory dir.

(** ** The installer *)

Definition install_record (track : TrackName) (version : ArtifactVersion) (previous : option string) (existed : bool) :
    ArtifactInstall :=
  {| ai_resource_name := adapter_name; ai_track := track; ai_artifact_version := version;
     ai_release_path := release_dir track (artifact_version_str version); ai_current_path := current_link track;
     ai_previous_release := previous; ai_release_existed_before := existed |}.

(** The release is there but is not valid: it is removed, and the pointer to it. *)
Definition discard_existing_release (track : TrackName) (version : ArtifactVersion) (previous : option string) :
    IO ResourcesError unit :=
  _ ← remove_dir_all_if_exists (release_dir track (artifact_version_str version));
  _ ← sync_directory (releases_dir track);
  if bool_decide (previous = Some (artifact_version_str version)) then
    _ ← remove_file_if_exists (current_link track);
    sync_directory (track_dir track)
  else mret tt.

Definition install_existing_release (track : TrackName) (artifact : ManifestArtifact) :
    IO ResourcesError (option ArtifactInstall) :=
  _ ← io_lift (validate_artifact_matches_request adapter_name track artifact);
  let version := ma_artifact_version artifact in
  present ← path_exists (release_dir track (artifact_version_str version));
  if negb present then mret None
  else
    previous ← current_release_name (current_link track);
    valid ← io_try (validate_installation (release_dir track (artifact_version_str version)));
    if negb (is_ok valid) then
      _ ← discard_existing_release track version previous;
      mret None
    else
      _ ← prune_old_releases (releases_dir track) version previous;
      _ ← update_current_pointer (track_dir track) version;
      mret (Some (install_record track version previous true)).

(** [if let Err(_cleanup_error) = ...]: the first error is returned. *)
Definition or_cleanup {A} (m : IO ResourcesError A) (cleanup : IO ResourcesError unit) : IO ResourcesError A := λ w,
  match m w with
  | (Ok a, w) => (Ok a, w)
  | (Err e, w) => (Err e, (cleanup w).2)
  end.

Definition install_new_release (track : TrackName) (version : ArtifactVersion) (archive_path : path) :
    IO ResourcesError ArtifactInstall :=
  previous ← current_release_name (current_link track);
  _ ← create_dir_all (releases_dir track);
  staging ← staging_dir (track_dir track) version;
  _ ← or_cleanup
        (unpack_validate_and_promote archive_path staging (release_dir track (artifact_version_str version)) version)
        (remove_dir_all_if_exists staging);
  _ ← remove_dir_all_if_exists staging;
  _ ← prune_old_releases (releases_dir track) version previous;
  _ ← update_current_pointer (track_dir track) version;
  mret (install_record track version previous false).

Definition install (track : TrackName) (artifact : ManifestArtifact) (archive_path : path) :
    IO ResourcesError ArtifactInstall :=
  _ ← io_lift (validate_artifact_matches_request adapter_name track artifact);
  existing ← install_existing_release track artifact;
  match existing with
  | Some existing_install => mret existing_install
  | None => install_new_release track (ma_artifact_version artifact) archive_path
  end.

Definition rollback (i : ArtifactInstall) : IO ResourcesError unit :=
  match parent (ai_current_path i) with
  | None => io_fail (InvalidArtifactLayout (resource_name_str (ai_resource_name i))
              ("current pointer " +:+ tick (path_str (ai_current_path i)) +:+ " has no parent"))
  | Some dir =>
      _ ← (match ai_previous_release i with
           | Some previous =>
               previous ← io_lift (artifact_version_new previous);
               update_current_pointer dir previous
           | None =>
               _ ← remove_file_if_exists (ai_current_path i);
               sync_directory dir
           end);
      if ai_release_existed_before i then mret tt
      else
        _ ← remove_dir_all_if_exists (ai_release_path i);
        match parent (ai_release_path i) with Some dir => sync_directory dir | None => mret tt end
  end.

(** ** What the archive and the adapter promise *)

(** Opening an archive changes nothing, an entry is written at the path given, and
    an adapter looks only at the tree it is shown, which it accepts only when it is
    a directory with something in it. *)
Class InstallerLaws : Prop := {
  open_changes p : changes (λ _, False) (open_archive p);
  unpack_changes e p : changes (under p) (unpack e p);
  validate_ext t t' : (∀ q, t q = t' q) → validate_tree t = validate_tree t';
  validate_directory t : validate_tree t = Ok tt → t [] = Some Dir;
  validate_occupied t : validate_tree t = Ok tt → ∃ x n, t [x] = Some n;
}.

Context `{!InstallerLaws}.

(** ** Confinement *)

Lemma under_or_above (p r q : path) : under q (p ++ r) → under p q ∨ under q p.
Proof. intros Hq. destruct (prefix_weak_total q p (p ++ r)) as [?|?]; [done|apply under_app|by right|by left]. Qed.

Lemma ancestors_below (p r q : path) : q ∈ ancestors (p ++ r) → under p q ∨ q ∈ ancestors p.
Proof.
  intros [[Hu|Hu]%under_or_above Hne]%elem_of_ancestors; [by left|right; by apply elem_of_ancestors].
Qed.

Definition below_or_above (p q : path) : Prop := under p q ∨ q ∈ ancestors p.

Lemma unpack_entry_confined archive_path staging root_name entry :
  changes (below_or_above staging) (unpack_entry archive_path staging root_name entry).
Proof.
  unfold unpack_entry. apply changes_bind; [auto with pv|intros e]. destruct (should_skip_archive_entry _); [auto with pv|].
  apply changes_bind; [auto with pv|intros _]. apply changes_bind; [auto with pv|intros text].
  apply changes_bind; [auto with pv|intros [|x r]]; [auto with pv|].
  destruct (match root_name with Some _ => _ | None => _ end); [auto with pv|]. rewrite parent_below.
  confine; [intros q; apply ancestors_below|].
  eapply changes_weaken; [|apply unpack_changes]. intros q Hq. left. eapply under_trans; [apply under_app|done].
Qed.

Lemma unpack_confined archive_path staging :
  changes (below_or_above staging) (unpack_single_root_archive archive_path staging).
Proof.
  unfold unpack_single_root_archive. apply changes_bind.
  { eapply changes_weaken; [|apply open_changes]. done. }
  intros entries. apply changes_bind; [|intros; confine].
  generalize (None (A := string)). induction entries as [|e entries IH]; intros root_name; cbn [unpack_entries]; [auto with pv|].
  apply changes_bind; [apply unpack_entry_confined|apply IH].
Qed.

(** ** The current pointer *)

Section pointer.
Context (track : TrackName) (v : string) (s0 : Fs).
Let cur := current_link track.
Let rel u := release_dir track u.

(** The pointer is absent, or leads to a release that is there. *)
Definition points (o : option string) (s : Fs) : Prop :=
  s !! current_link track = (λ u, Link ("releases/" +:+ u)) <$> o
  ∧ ∀ u, o = Some u → s !! release_dir track u = Some Dir.

(** The release that was current, if another than [v], is as it was. *)
Definition kept (o : option string) (s : Fs) : Prop :=
  ∀ u q, o = Some u → u ≠ v → under (release_dir track u) q → s !! q = s0 !! q.

Definition live (o : option string) (s : Fs) : Prop := points o s ∧ kept o s.

(** Release [v] is there and passes the adapter's check. *)
Definition ready (s : Fs) : Prop :=
  s !! release_dir track v = Some Dir ∧ validate_tree (tree (release_dir track v) s) = Ok tt.

Definition switched (o : option string) (s : Fs) : Prop := points (Some v) s ∧ ready s ∧ kept o s.

(** Where an operation may stop. *)
Definition settled (o : option string) (s : Fs) : Prop := live o s ∨ switched o s.

Lemma release_under u q : under (rel u) q → under (releases_dir track) q.
Proof. apply under_trans. unfold rel, release_dir. apply under_app. Qed.

Lemma current_not_release : ¬ under (releases_dir track) cur.
Proof.
  unfold releases_dir, cur, current_link. intros [r Hr]. rewrite <-app_assoc in Hr. apply app_inv_head in Hr. done.
Qed.

Lemma release_ne u : rel u ≠ releases_dir track.
Proof.
  unfold rel, release_dir. intros He%(f_equal length). rewrite length_app in He. cbn in He. lia.
Qed.

Lemma live_stable (C : path → Prop) o s s' : (∀ q, ¬ C q → s' !! q = s !! q) → ¬ C cur →
  (∀ u, o = Some u → ¬ C (rel u)) → (∀ u q, o = Some u → u ≠ v → under (rel u) q → ¬ C q) →
  live o s → live o s'.
Proof.
  intros Heq Hcur Hrel Hk [[Hc Hd] Hkept]. split; [split|].
  - by rewrite Heq.
  - intros u Hu. rewrite Heq; [by apply Hd|by apply Hrel].
  - intros u q Hu Hne Hq. rewrite Heq; [by apply (Hkept u)|by eapply Hk].
Qed.

(** Changes away from the pointer and the releases. *)
Lemma live_elsewhere (C : path → Prop) o s s' : (∀ q, ¬ C q → s' !! q = s !! q) → ¬ C cur →
  (∀ q, under (releases_dir track) q → q ≠ releases_dir track → ¬ C q) → live o s → live o s'.
Proof.
  intros Heq Hcur Hrel. apply (live_stable C); [done..| |].
  - intros u _. apply Hrel; [apply (release_under u), under_refl|]. apply release_ne.
  - intros u q _ _ Hq. apply Hrel; [by eapply release_under|]. intros ->. destruct Hq as [r Hr].
    apply (release_ne u). unfold rel, release_dir in Hr |- *. rewrite <-app_assoc in Hr.
    rewrite <-(app_nil_r (releases_dir track)) in Hr at 1. by apply app_inv_head in Hr.
Qed.

Lemma ready_stable (C : path → Prop) s s' : (∀ q, ¬ C q → s' !! q = s !! q) →
  (∀ q, under (rel v) q → ¬ C q) → ready s → ready s'.
Proof.
  intros Heq HC [Hd Hv]. split.
  - rewrite Heq; [done|apply HC, under_refl].
  - rewrite <-Hv. apply validate_ext. intros q. unfold tree. apply Heq, HC, under_app.
Qed.

(** *** Reading the pointer *)

Lemma current_release_name_spec (o : option string) (P : Fs → Prop) : (∀ s, P s → points o s) →
  hoare P (current_release_name cur) (λ previous s, previous = o ∧ P s) P.
Proof.
  intros HP. unfold current_release_name. eapply hoare_bind; [by apply hoare_entry_exists|].
  intros present. apply (hoare_pre _ (λ s, present = option_bool o ∧ P s)).
  { intros s [-> Hs]. split; [|done]. destruct (HP s Hs) as [Hc _]. unfold cur. rewrite Hc. by destruct o. }
  apply hoare_pure. intros ->. destruct o as [u|]; cbn [option_bool negb]; [|by intros w Hw].
  eapply hoare_bind; [apply hoare_map_err, hoare_query; done|]. intros target.
  apply (hoare_pre _ (λ s, target = "releases/" +:+ u ∧ P s)).
  { intros s [Ht Hs]. split; [|done]. destruct (HP s Hs) as [Hc _]. unfold cur in Ht. rewrite Hc in Ht. by injection Ht. }
  apply hoare_pure. intros ->. rewrite strip_prefix_app.
  destruct (contains _ _ || _ || _); [apply hoare_fail|].
  destruct (parent cur) as [dir|]; [|apply hoare_fail].
  eapply hoare_bind; [by apply hoare_entry_exists|]. intros present.
  eapply hoare_bind.
  - eapply (hoare_look _ _ P); [by destruct present; confine|by intros s [_ Hs]].
  - intros is_dir. apply (hoare_pre _ P); [by intros s [_ Hs]|]. destruct is_dir; [by intros w Hw|apply hoare_fail].
Qed.

(** *** Moving the pointer *)

Lemma temporary_ne (x y z : string) : "current." +:+ x +:+ y +:+ z ≠ "current".
Proof. done. Qed.

Lemma update_current_pointer_spec (P X : Fs → Prop) version :
  (∀ s s', (∀ q, q ≠ cur → ¬ under (track_dir track) q ∨ under (releases_dir track) q → s' !! q = s !! q) →
     s' !! cur = s !! cur → P s → P s') →
  (∀ s, P s → X s) →
  (∀ s s', P s → (∀ q, q ≠ cur → ¬ under (track_dir track) q ∨ under (releases_dir track) q → s' !! q = s !! q) →
     s' !! cur = Some (Link ("releases/" +:+ artifact_version_str version)) → X s') →
  hoare P (update_current_pointer (track_dir track) version)
    (λ _ s', ∃ s, P s ∧ (∀ q, q ≠ cur → ¬ under (track_dir track) q ∨ under (releases_dir track) q → s' !! q = s !! q)
       ∧ s' !! cur = Some (Link ("releases/" +:+ artifact_version_str version))) X.
Proof.
  intros Hstable HX Hmoved. unfold update_current_pointer.
  eapply hoare_bind; [apply (hoare_look P); [apply changes_counter|done]|]. intros counter. cbn beta zeta.
  set (name := "current." +:+ _). assert (name ≠ "current") as Hname by done.
  assert (name ≠ "releases") as Hname' by done. set (temporary := track_dir track ++ [name]).
  assert (∀ q, q ≠ cur → ¬ under (track_dir track) q ∨ under (releases_dir track) q → ¬ under temporary q) as Haway.
  { intros q _ [Hq|Hq] Ht; [apply Hq; by eapply under_trans; [apply under_app|]|].
    by eapply (under_siblings (track_dir track) "releases" name [] q). }
  assert (¬ under temporary cur) as Hcur.
  { intros Ht. apply (under_siblings (track_dir track) "current" name [] cur); [done|apply under_refl|done]. }
  eapply hoare_seq.
  { apply (hoare_changes (λ q, q = temporary)); [confine; done| |done]. intros s s' Heq Hs. eapply Hstable; [| |done].
    - intros q Hne Hq. apply Heq. intros ->. by eapply Haway; [| |apply under_refl].
    - apply Heq. intros He. apply Hcur. rewrite He. apply under_refl. }
  eapply (hoare_seq _ (λ s, P s ∧ s !! temporary = Some (Link ("releases/" +:+ artifact_version_str version)))).
  { apply hoare_map_err, hoare_syscall; [|done|done]. intros s [] s' Hs.
    destruct (option_bool (s !! temporary)); [done|]. destruct (parent_is_dir temporary s); [|done]. intros [= <-].
    split; [|apply lookup_insert_eq]. eapply Hstable; [| |done].
    - intros q Hne Hq. apply lookup_insert_ne. intros ->. by eapply Haway; [| |apply under_refl].
    - apply lookup_insert_ne. intros He. apply Hcur. rewrite <-He. apply under_refl. }
  apply (hoare_seq _ (λ s', ∃ s, P s
    ∧ (∀ q, q ≠ cur → ¬ under (track_dir track) q ∨ under (releases_dir track) q → s' !! q = s !! q)
    ∧ s' !! cur = Some (Link ("releases/" +:+ artifact_version_str version)))).
  { apply hoare_map_err, hoare_syscall; [|by intros s [Hs _]; apply HX|by intros _ s [Hs _]; apply HX].
    intros s [] s' [Hs Hlink] Hr. apply std_rename_ok in Hr as [_ ->]. exists s. split_and!; [done| |].
    - intros q Hne Hq. rewrite lookup_rename. rewrite decide_False.
      2: { intros [r Hr]. destruct Hq as [Hq|Hq].
           - apply Hq. rewrite Hr. unfold cur. eexists. by rewrite <-app_assoc.
           - eapply (under_siblings (track_dir track) "releases" "current" [] q); [done|done|by exists r]. }
      rewrite decide_False; [done|]. by apply Haway.
    - change (track_dir track ++ ["current"]) with cur. rewrite lookup_rename, decide_True by apply under_refl.
      by rewrite drop_all, app_nil_r. }
  apply hoare_look; [confine|]. intros s' (s & Hs & Hq & Hc). by eapply Hmoved.
Qed.

(** *** Beside the releases *)

Definition is_staging (st : path) : Prop :=
  ∃ name, st = track_dir track ++ [name] ∧ name ≠ "current" ∧ name ≠ "releases".

Lemma sibling_apart x y q : x ≠ y → below_or_above (track_dir track ++ [x]) q → ¬ under (track_dir track ++ [y]) q.
Proof.
  intros Hxy [Hq|[Hq _]%elem_of_ancestors] Hy; [by eapply (under_siblings (track_dir track) x y [])|].
  eapply (under_siblings (track_dir track) x y []); [done|apply under_refl|by eapply under_trans].
Qed.

Lemma staging_apart st q : is_staging st → below_or_above st q → q ≠ cur ∧ ¬ under (releases_dir track) q.
Proof.
  intros (name & -> & Hc & Hr) Hq. split; [|by eapply sibling_apart].
  intros ->. by eapply (sibling_apart name "current"); [| |apply under_refl].
Qed.

(** Changes beside the releases leave the pointer, its release and release [v]. *)
Lemma live_beside (C : path → Prop) (o : option string) s s' : (∀ q, ¬ C q → s' !! q = s !! q) →
  (∀ q, C q → q ≠ cur ∧ ¬ under (releases_dir track) q) → live o s → live o s'.
Proof.
  intros Heq HC. apply (live_elsewhere C); [done|by intros [? _]%HC|]. by intros q Hq _ [_ ?]%HC.
Qed.

Lemma ready_beside (C : path → Prop) s s' : (∀ q, ¬ C q → s' !! q = s !! q) →
  (∀ q, C q → q ≠ cur ∧ ¬ under (releases_dir track) q) → ready s → ready s'.
Proof.
  intros Heq HC. apply (ready_stable C); [done|]. intros q Hq [_ Hn]%HC. by apply Hn, (release_under v).
Qed.

Lemma hoare_beside {A : Type} (C : path → Prop) (o : option string) (m : IO ResourcesError A) :
  changes C m → (∀ q, C q → q ≠ cur ∧ ¬ under (releases_dir track) q) →
  hoare (live o) m (λ _, live o) (live o) ∧ hoare (λ s, live o s ∧ ready s) m (λ _ s, live o s ∧ ready s) (live o).
Proof.
  intros Hm HC. split; apply (hoare_changes C); [done| |done|done| |by intros s [? _]].
  - intros s s' Heq. by apply (live_beside C).
  - intros s s' Heq [Hl Hr]. split; [by eapply (live_beside C)|by eapply (ready_beside C)].
Qed.

(** *** Unpacking, validating, moving into place *)

Lemma unpack_root (archive_path staging : path) (P X : Fs → Prop) :
  (∀ s s', (∀ q, ¬ below_or_above staging q → s' !! q = s !! q) → P s → P s') → (∀ s, P s → X s) →
  hoare P (unpack_single_root_archive archive_path staging)
    (λ root s, (∃ name, root = staging ++ [name]) ∧ s !! root = Some Dir ∧ P s) X.
Proof.
  intros HP HX. unfold unpack_single_root_archive. eapply hoare_bind.
  { apply (hoare_look P); [apply open_changes|done]. }
  intros entries. eapply hoare_bind.
  { apply (hoare_changes (below_or_above staging) _ P); [|done|done].
    generalize (None (A := string)). induction entries as [|e entries IH]; intros r; cbn [unpack_entries]; [auto with pv|].
    apply changes_bind; [apply unpack_entry_confined|apply IH]. }
  intros [name|]; [|eapply hoare_pre; [done|apply hoare_fail]].
  eapply hoare_bind; [by apply hoare_is_directory|]. intros [|].
  - intros w [Hd Hw]. cbn. split_and!; [by exists name|by apply Hd|done].
  - eapply hoare_pre; [|apply hoare_fail]. intros s [_ Hs]. auto.
Qed.

Lemma rename_release (o : option string) (root staging : path) : is_staging staging → (∃ name, root = staging ++ [name]) →
  hoare (λ s, s !! root = Some Dir ∧ validate_tree (tree root s) = Ok tt ∧ live o s)
    (rename root (rel v)) (λ _ s, live o s ∧ ready s) (live o).
Proof.
  intros Hst [name ->]. apply hoare_map_err, hoare_syscall; [|by intros s (_ & _ & ?)|by intros _ s (_ & _ & ?)].
  intros s [] s' (Hd & Hv & Hl) Hr. apply std_rename_ok in Hr as [_ ->]. set (root := staging ++ [name]) in *.
  assert (∀ q, under root q → q ≠ cur ∧ ¬ under (releases_dir track) q) as Hroot.
  { intros q Hq. apply (staging_apart staging); [done|]. left. eapply under_trans; [apply under_app|done]. }
  split.
  - destruct Hl as [[Hc Hu] Hk]. split; [split|].
    + rewrite lookup_rename, !decide_False; [done|by intros [? _]%Hroot|].
      intros Hq. by apply current_not_release, (release_under v).
    + intros u ->. rewrite lookup_rename. case_decide as Hv'.
      * assert (u = v) as ->.
        { destruct (decide (u = v)) as [|Hne]; [done|]. exfalso.
          by eapply (under_siblings (releases_dir track) u v [] (rel u)); [|apply under_refl|]. }
        by rewrite drop_all, app_nil_r.
      * rewrite decide_False; [by apply Hu|]. intros [_ Hn]%Hroot. by apply Hn, (release_under u), under_refl.
    + intros u q -> Hne Hq. rewrite lookup_rename, !decide_False; [by eapply Hk|..].
      * intros [_ Hn]%Hroot. by apply Hn, (release_under u).
      * by eapply (under_siblings (releases_dir track) u v [] q).
  - split.
    + rewrite lookup_rename, decide_True by apply under_refl. by rewrite drop_all, app_nil_r.
    + rewrite <-Hv. apply validate_ext. intros q. unfold tree.
      by rewrite lookup_rename, decide_True, drop_app_length by apply under_app.
Qed.

Lemma promote_spec (o : option string) (archive_path staging : path) version : is_staging staging →
  hoare (live o) (unpack_validate_and_promote archive_path staging (rel v) version)
    (λ _ s, live o s ∧ ready s) (live o).
Proof.
  intros Hst. unfold unpack_validate_and_promote.
  assert (∀ q, below_or_above staging q → q ≠ cur ∧ ¬ under (releases_dir track) q) as Haway
    by (intros q; by apply staging_apart).
  eapply hoare_seq; [apply (hoare_beside (below_or_above staging)); [confine; by left|done]|].
  eapply hoare_seq; [apply (hoare_beside (below_or_above staging)); [confine; by right|done]|].
  eapply hoare_bind; [apply (unpack_root _ _ (live o)); [|done]|].
  { intros s s' Heq. by apply (live_beside (below_or_above staging)). }
  intros root. apply hoare_pure. intros Hroot.
  apply (hoare_seq _ (λ s, s !! root = Some Dir ∧ validate_tree (tree root s) = Ok tt ∧ live o s)).
  { intros w [Hd Hl]. unfold validate_installation. destruct (validate_tree _) as [[]|] eqn:Hv; [|done].
    by split_and!. }
  eapply hoare_seq; [by eapply rename_release|].
  eapply hoare_seq; [apply hoare_look; [confine|by intros s [? _]]|].
  eapply hoare_bind; [apply hoare_look; [confine|by intros s [? _]]|].
  intros [|]; [by intros w Hw|]. eapply hoare_pre; [|apply hoare_fail]. by intros s [? _].
Qed.

(** *** Pruning and discarding *)

Lemma prune_spec (o : option string) version : artifact_version_str version = v →
  hoare (λ s, live o s ∧ ready s) (prune_old_releases (releases_dir track) version o)
    (λ _ s, live o s ∧ ready s) (live o).
Proof.
  intros Hv. apply (hoare_changes (λ q, ∃ name, name ≠ v ∧ Some name ≠ o ∧ under (rel name) q)).
  - unfold prune_old_releases, release_entries. rewrite Hv. confine.
    rename a into names. induction names as [|name names IH]; cbn [prune_loop]; [auto with pv|].
    apply changes_bind; [|by intros _]. destruct (bool_decide (name = v)) eqn:H1, (bool_decide (Some name = o)) eqn:H2; cbn [orb];
      try (apply changes_ret). split_bools. confine. intros q Hq. by exists name.
  - intros s s' Heq [Hl Hr]. split.
    + eapply (live_stable _ _ _ _ Heq); [..|done].
      * intros (name & _ & _ & Hq). by apply current_not_release, (release_under name).
      * intros u Hu (name & _ & Hne & Hq).
        eapply (under_siblings (releases_dir track) u name [] (rel u)); [congruence|apply under_refl|done].
      * intros u q Hu _ Hq (name & _ & Hne & Hq').
        eapply (under_siblings (releases_dir track) u name [] q); [congruence|done|done].
    + apply (ready_stable _ _ _ Heq); [|done]. intros q Hq (name & Hne & _ & Hq').
      eapply (under_siblings (releases_dir track) v name [] q); [congruence|done|done].
  - by intros s [? _].
Qed.

(** A release that is not the current one can be discarded. *)
Lemma discard_spec (o : option string) version : artifact_version_str version = v → o ≠ Some v →
  hoare (live o) (discard_existing_release track version o) (λ _, live o) (live o).
Proof.
  intros Hv Ho. unfold discard_existing_release. rewrite Hv, bool_decide_eq_false_2 by done.
  apply (hoare_changes (under (rel v))); [confine; done| |done]. intros s s' Heq.
  apply (live_stable _ _ _ _ Heq).
  - intros Hq. by apply current_not_release, (release_under v).
  - intros u Hu Hq. eapply (under_siblings (releases_dir track) u v [] (rel u)); [congruence|apply under_refl|done].
  - intros u q Hu Hne Hq. by eapply (under_siblings (releases_dir track) u v [] q).
Qed.

Lemma switch_spec (o : option string) version : artifact_version_str version = v →
  hoare (λ s, live o s ∧ ready s) (update_current_pointer (track_dir track) version) (λ _, switched o) (settled o).
Proof.
  intros Hv.
  assert (∀ u q, under (rel u) q → q ≠ cur ∧ under (releases_dir track) q) as Hrel.
  { intros u q Hq%release_under. split; [|done]. intros ->. by apply current_not_release. }
  assert (∀ s s', live o s ∧ ready s →
    (∀ q, q ≠ cur → ¬ under (track_dir track) q ∨ under (releases_dir track) q → s' !! q = s !! q) →
    ready s' ∧ kept o s' ∧ ∀ u, s' !! rel u = s !! rel u) as Hkeep.
  { intros s s' [[_ Hk] Hr] Heq. split_and!.
    - apply (ready_stable (λ q, ¬ (q ≠ cur ∧ under (releases_dir track) q)) s); [|by intros q Hq%Hrel Hn; apply Hn|done].
      intros q Hq. apply dec_stable in Hq as [Hne Hu]. by apply Heq; [|right].
    - intros u q Hu Hne Hq. destruct (Hrel u q Hq) as [Hc Hun]. rewrite Heq by auto. by eapply Hk.
    - intros u. destruct (Hrel u (rel u) (under_refl _)) as [Hc Hun]. apply Heq; auto. }
  assert (∀ s s', live o s ∧ ready s →
    (∀ q, q ≠ cur → ¬ under (track_dir track) q ∨ under (releases_dir track) q → s' !! q = s !! q) →
    s' !! cur = Some (Link ("releases/" +:+ artifact_version_str version)) → switched o s') as Hswitched.
  { intros s s' Hs Heq Hc. destruct (Hkeep s s' Hs Heq) as (Hr & Hk & _). split_and!; [|done|done].
    split; [unfold cur in Hc; by rewrite Hc, Hv|]. by intros u [= <-]; apply Hr. }
  eapply hoare_conseq; [by intros s Hs; exact Hs| |by intros s Hs; exact Hs|apply update_current_pointer_spec].
  - cbn beta. intros _ s' (s & Hs & Heq & Hc). by eapply Hswitched.
  - intros s s' Heq Hc Hs. destruct (Hkeep s s' Hs Heq) as (Hr & Hk & Hu). split; [split; [|done]|done].
    destruct Hs as [[[Hp Hd] _] _]. split; [unfold cur in Hc; by rewrite Hc|]. intros u ->. unfold rel in Hu. rewrite Hu. by apply Hd.
  - intros s [Hs _]. by left.
  - intros s s' Hs Heq Hc. right. by eapply Hswitched.
Qed.

Lemma hoare_cleanup {A : Type} (P X Y : Fs → Prop) (m : IO ResourcesError A) (cleanup : IO ResourcesError unit) (Q : A → Fs → Prop) :
  hoare P m Q X → hoare X cleanup (λ _, Y) Y → hoare P (or_cleanup m cleanup) Q Y.
Proof.
  intros Hm Hc w Hw. specialize (Hm w Hw). unfold or_cleanup. destruct (m w) as [[a|e] w']; [done|].
  specialize (Hc w' Hm). by destruct (cleanup w') as [[|] w''].
Qed.

(** *** The installer *)

Lemma install_new_release_spec (o : option string) version (archive_path : path) : artifact_version_str version = v →
  hoare (live o) (install_new_release track version archive_path)
    (λ i s, i = install_record track version o false ∧ switched o s) (settled o).
Proof.
  intros Hv. assert (∀ s, live o s → settled o s) as Hlive by (by left). unfold install_new_release.
  eapply hoare_bind.
  { eapply hoare_conseq; [by intros s Hs; exact Hs|by intros a s Hs; exact Hs|exact Hlive|].
    apply (current_release_name_spec o (live o)). by intros s [? _]. }
  intros previous. apply hoare_pure. intros ->.
  eapply hoare_seq.
  { eapply hoare_conseq; [by intros s Hs; exact Hs|by intros a s Hs; exact Hs|exact Hlive|].
    apply (hoare_changes (λ q, q ∈ ancestors (releases_dir track))); [confine; done| |done]. intros s s' Heq.
    apply (live_elsewhere _ _ _ _ Heq).
    - intros [Hq _]%elem_of_ancestors. by eapply (under_siblings (track_dir track) "current" "releases" [] (releases_dir track));
        [|by eapply under_trans; [apply under_refl|]|apply under_refl].
    - intros q [r ->] Hne [[r' Hr] _]%elem_of_ancestors. apply Hne.
      rewrite <-app_assoc in Hr. rewrite <-(app_nil_r (releases_dir track)) in Hr at 1. apply app_inv_head in Hr.
      symmetry in Hr. apply app_eq_nil in Hr as [-> _]. apply app_nil_r. }
  eapply (hoare_bind _ _ _ (λ st s, is_staging st ∧ live o s)).
  { intros w Hw. cbn. split; [|done]. eexists. by split_and!. }
  intros staging. apply hoare_pure. intros Hst. rewrite Hv.
  assert (∀ q, under staging q → q ≠ cur ∧ ¬ under (releases_dir track) q) as Haway
    by (intros q Hq; apply (staging_apart staging); [done|by left]).
  eapply hoare_seq.
  { eapply hoare_conseq; [by intros s Hs; exact Hs|by intros a s Hs; exact Hs|exact Hlive|].
    eapply hoare_cleanup; [by apply promote_spec|]. apply (hoare_beside (under staging)); [confine; done|done]. }
  eapply hoare_seq.
  { eapply hoare_conseq; [by intros s Hs; exact Hs|by intros a s Hs; exact Hs|exact Hlive|].
    apply (hoare_beside (under staging)); [confine; done|done]. }
  eapply hoare_seq.
  { eapply hoare_conseq; [by intros s Hs; exact Hs|by intros a s Hs; exact Hs|exact Hlive|by apply prune_spec]. }
  eapply hoare_seq; [by apply switch_spec|]. by intros w Hw.
Qed.

(** A release that is there and valid is never replaced: a directory is not moved onto
    one that has entries. *)
Lemma rename_refused (root : path) : hoare (λ s, s !! root = Some Dir ∧ ready s) (rename root (rel v)) (λ _ _, root = rel v) (λ _, True).
Proof.
  apply hoare_map_err, hoare_syscall; [|done..]. intros s [] s' [Hd [Hrel Hval]] Hr. inv_ok. injection Hd as ->.
  case_bool_decide as Hroot; [done|]. change (s !! rel v = Some Dir) in Hrel. rewrite Hrel in E2. cbn in E2. case_bool_decide as Hc; [|done].
  apply validate_occupied in Hval as (x & n & Hx). unfold tree in Hx.
  apply (proj2 (elem_of_children (rel v) s x n)) in Hx. rewrite Hc in Hx. by apply elem_of_nil in Hx.
Qed.

Lemma promote_refused (archive_path staging : path) version : is_staging staging →
  hoare ready (unpack_validate_and_promote archive_path staging (rel v) version) (λ _ _, False) (λ _, True).
Proof.
  intros Hst. unfold unpack_validate_and_promote.
  assert (∀ q, under (rel v) q → ¬ below_or_above staging q) as Haway.
  { intros q Hq%release_under Hb. by destruct (staging_apart staging q Hst Hb). }
  assert (∀ s s', (∀ q, ¬ below_or_above staging q → s' !! q = s !! q) → ready s → ready s') as Hkeep.
  { intros s s' Heq. by apply (ready_stable (below_or_above staging)). }
  eapply hoare_seq; [apply (hoare_changes (below_or_above staging)); [confine; by left|exact Hkeep|done]|].
  eapply hoare_seq; [apply (hoare_changes (below_or_above staging)); [confine; by right|exact Hkeep|done]|].
  eapply hoare_bind; [by apply (unpack_root _ _ ready)|].
  intros root. apply hoare_pure. intros [name ->].
  eapply (hoare_seq _ (λ s, s !! (staging ++ [name]) = Some Dir ∧ ready s)).
  { intros w Hw. unfold validate_installation. by destruct (validate_tree _) as [[]|]. }
  eapply hoare_bind; [apply rename_refused|]. intros _u w Hn. exfalso.
  apply (Haway (staging ++ [name])); [rewrite Hn; apply under_refl|left; apply under_app].
Qed.

Lemma new_release_refused version (archive_path : path) : artifact_version_str version = v →
  hoare ready (install_new_release track version archive_path) (λ _ _, False) (λ _, True).
Proof.
  intros Hv. unfold install_new_release.
  eapply hoare_bind; [apply (hoare_look ready); [|done]|intros previous].
  { unfold current_release_name. confine. }
  eapply hoare_seq.
  { apply (hoare_changes (λ q, q ∈ ancestors (releases_dir track)) _ ready); [confine; done| |done]. intros s s' Heq.
    apply (ready_stable _ _ _ Heq). intros q [r ->] [[r' Hr] _]%elem_of_ancestors. apply (f_equal length) in Hr.
    unfold rel, release_dir in Hr. rewrite !length_app in Hr. cbn in Hr. lia. }
  eapply (hoare_bind _ _ _ (λ st s, is_staging st ∧ ready s)).
  { intros w Hw. cbn. split; [|done]. eexists. by split_and!. }
  intros staging. apply hoare_pure. intros Hst. rewrite Hv.
  eapply (hoare_seq _ (λ _, False)); [|by intros w Hw].
  eapply hoare_cleanup; [by apply promote_refused|]. intros w _. by destruct (remove_dir_all_if_exists staging w) as [[]].
Qed.

(** The release that is current is valid. *)
Definition current_valid (o : option string) (s : Fs) : Prop :=
  o = Some v → validate_tree (tree (release_dir track v) s) = Ok tt.

Lemma install_existing_release_spec (o : option string) artifact :
  artifact_version_str (ma_artifact_version artifact) = v →
  hoare (λ s, live o s ∧ current_valid o s) (install_existing_release track artifact)
    (λ r s, match r with
            | Some i => i = install_record track (ma_artifact_version artifact) o true ∧ switched o s
            | None => live o s ∧ current_valid o s
            end) (settled o).
Proof.
  intros Hv. assert (∀ s, live o s → settled o s) as Hlive by (by left).
  assert (∀ s, live o s ∧ current_valid o s → settled o s) as Hlive' by (intros s [? _]; by left).
  unfold install_existing_release. rewrite Hv.
  eapply hoare_bind; [by apply hoare_look; [apply changes_lift|]|]. intros _u. cbn beta zeta.
  eapply hoare_bind; [by apply hoare_look; [apply changes_path_exists|]|].
  intros [|]; cbn [negb]; [|by intros w Hw].
  eapply hoare_bind.
  { eapply hoare_conseq; [by intros s Hs; exact Hs|by intros a s Hs; exact Hs|exact Hlive'|].
    apply (current_release_name_spec o (λ s, live o s ∧ current_valid o s)). by intros s [[? _] _]. }
  intros previous. apply hoare_pure. intros ->.
  eapply (hoare_bind _ _ _ (λ valid s, (is_ok valid = false → o ≠ Some v) ∧ live o s ∧ (is_ok valid = true → ready s))).
  { intros w [Hl Hc]. cbn. unfold validate_installation.
    split_and!; [|done|].
    - destruct (validate_tree _) eqn:Hval; [done|]. intros _ Ho. rewrite (Hc Ho) in Hval. done.
    - destruct (validate_tree _) as [[]|] eqn:Hval; [|done]. intros _. split; [|done].
      apply validate_directory in Hval. unfold tree in Hval. by rewrite app_nil_r in Hval. }
  intros valid. destruct (is_ok valid); cbn [negb].
  - apply (hoare_pre _ (λ s, live o s ∧ ready s)); [by intros s (_ & ? & Hr); split; [|apply Hr]|].
    eapply hoare_seq.
    { eapply hoare_conseq; [by intros s Hs; exact Hs|by intros a s Hs; exact Hs|exact Hlive|by apply prune_spec]. }
    eapply hoare_seq; [by apply switch_spec|]. by intros w Hw.
  - apply hoare_pure. intros Ho. specialize (Ho eq_refl).
    apply (hoare_seq _ (live o)); [|intros w Hw; split; [exact Hw|intros Ho2; by destruct (Ho Ho2)]].
    eapply hoare_conseq; [|by intros a s Hs; exact Hs|exact Hlive|by apply discard_spec]. by intros s [? _].
Qed.

(** *** Rolling back *)

Lemma switched_releases (o : option string) s : points o s0 → switched o s → ∀ u, o = Some u → s !! rel u = Some Dir.
Proof.
  intros [_ Hd] ([_ Hv] & _ & Hk) u Hu. destruct (decide (u = v)) as [->|Hne]; [by apply Hv|].
  unfold rel. rewrite (Hk u); [by apply Hd|done|done|apply under_refl].
Qed.

(** Either pointer, both releases there. *)
Definition unwinding (o : option string) (s : Fs) : Prop := (points (Some v) s ∨ points o s) ∧ kept o s.

(** Leaving the pointer's releases alone keeps them what they were. *)
Lemma switched_kept (o : option string) s s' : points o s0 → switched o s →
  (∀ u q, under (rel u) q → s' !! q = s !! q) →
  ready s' ∧ kept o s' ∧ ∀ u, o = Some u → s' !! rel u = Some Dir.
Proof.
  intros Hp0 Hs Hat. pose proof (switched_releases _ _ Hp0 Hs) as Hu. destruct Hs as (_ & Hr & Hk). split_and!.
  - apply (ready_stable (λ q, ¬ under (rel v) q) s); [|by intros q Hq Hn|done].
    intros q Hq. apply dec_stable in Hq. by apply (Hat v).
  - intros u q Ho Hne Hq. rewrite (Hat u q Hq). by apply (Hk u).
  - intros u Ho. rewrite (Hat u _ (under_refl _)). by apply Hu.
Qed.

Lemma restore_previous u previous : artifact_version_str previous = u → points (Some u) s0 →
  hoare (switched (Some u)) (update_current_pointer (track_dir track) previous)
    (λ _ s, live (Some u) s ∧ s !! rel v = Some Dir) (unwinding (Some u)).
Proof.
  intros Hprev Hp0.
  assert (∀ s s' : Fs, (∀ q, q ≠ cur → ¬ under (track_dir track) q ∨ under (releases_dir track) q → s' !! q = s !! q) →
    ∀ w q, under (rel w) q → s' !! q = s !! q) as Hat.
  { intros s s' Heq w q Hq%release_under. apply Heq; [|by right]. intros ->. by apply current_not_release. }
  eapply hoare_conseq; [by intros s Hs; exact Hs| |by intros s Hs; exact Hs|
    apply (update_current_pointer_spec (switched (Some u)))].
  - cbn beta. intros _ s' (s & Hs & Heq & Hc).
    destruct (switched_kept _ s s' Hp0 Hs (Hat s s' Heq)) as (Hr & Hk & Hu).
    split; [split; [split|done]|apply Hr]; [by rewrite <-Hprev; exact Hc|exact Hu].
  - intros s s' Heq Hc Hs. destruct (switched_kept _ s s' Hp0 Hs (Hat s s' Heq)) as (Hr & Hk & Hu).
    split_and!; [|done|done]. destruct Hs as [[Hcur _] _]. split; [unfold cur in Hc; by rewrite Hc|].
    intros u' [= <-]. apply Hr.
  - intros s (? & _ & ?). by split; [left|].
  - intros s s' Hs Heq Hc. destruct (switched_kept _ s s' Hp0 Hs (Hat s s' Heq)) as (Hr & Hk & Hu).
    split; [right; split; [by rewrite <-Hprev; exact Hc|exact Hu]|done].
Qed.

Lemma restore_none : points None s0 →
  hoare (switched None) (_ ← remove_file_if_exists cur; sync_directory (track_dir track))
    (λ _ s, live None s ∧ s !! rel v = Some Dir) (unwinding None).
Proof.
  intros Hp0.
  assert (∀ s, s !! rel v = Some Dir → live None (delete cur s) ∧ delete cur s !! rel v = Some Dir) as Hdel.
  { intros s Hd. split; [split; [split|]|]; [by apply lookup_delete_eq|done|done|].
    rewrite lookup_delete_ne; [done|]. intros Hc. apply current_not_release. rewrite Hc. apply (release_under v), under_refl. }
  eapply hoare_seq.
  { apply (hoare_remove_file (switched None)).
    - intros s [[Hc _] _]. unfold cur. by rewrite Hc.
    - intros s (? & _ & ?). by split; [left|]. }
  apply (hoare_pre _ (λ s, live None s ∧ s !! rel v = Some Dir)).
  { intros s' (s & (_ & [Hd _] & _) & ->). by apply Hdel. }
  apply hoare_look; [confine|]. intros s [[Hp Hk] _]. by split; [right|].
Qed.

(** Removing the new release leaves the pointer, which is elsewhere. *)
Lemma remove_new_spec (o : option string) : o ≠ Some v →
  hoare (λ s, live o s ∧ s !! rel v = Some Dir) (remove_dir_all_if_exists (rel v))
    (λ _ s, live o s ∧ ∀ q, under (rel v) q → s !! q = None) (unwinding o).
Proof.
  intros Ho.
  assert (∀ s s', live o s → (∀ q, ¬ under (rel v) q → s' !! q = s !! q) → live o s') as Hl.
  { intros s s' Hl Heq. apply (live_stable _ _ _ _ Heq); [..|done].
    - intros Hq. by apply current_not_release, (release_under v).
    - intros u Hu Hq. eapply (under_siblings (releases_dir track) u v [] (rel u)); [congruence|apply under_refl|done].
    - intros u q Hu Hne Hq. by eapply (under_siblings (releases_dir track) u v [] q). }
  eapply hoare_conseq; [by intros s Hs; exact Hs| |by intros s Hs; exact Hs|
    apply (hoare_remove_dir (λ s, live o s ∧ s !! rel v = Some Dir))].
  - cbn beta. intros _ s' (s & [Hs _] & ->). split.
    + apply (Hl s); [done|]. intros q Hq. by rewrite lookup_without, decide_False.
    + intros q Hq. by rewrite lookup_without, decide_True.
  - by intros s [_ Hd].
  - intros s s' [Hs _] Heq. destruct (Hl s s' Hs Heq) as [Hp Hk]. by split; [right|].
Qed.
End pointer.

(** ** Properties *)

Lemma install_spec track artifact (archive_path : path) (o : option string) s0 :
  let v := artifact_version_str (ma_artifact_version artifact) in
  hoare (λ s, live track v s0 o s ∧ current_valid track v o s) (install track artifact archive_path)
    (λ i s, (∃ existed, i = install_record track (ma_artifact_version artifact) o existed ∧ (existed = false → o ≠ Some v))
       ∧ switched track v s0 o s)
    (settled track v s0 o).
Proof.
  intros v. unfold install. eapply hoare_bind; [apply hoare_look; [apply changes_lift|intros s [? _]; by left]|]. intros _u.
  eapply hoare_bind; [by apply install_existing_release_spec|]. intros [i|].
  - intros w' [-> Hs]. split; [by eexists|done].
  - intros w [Hl Hc]. pose proof (install_new_release_spec track v s0 o _ archive_path eq_refl w Hl) as Hn.
    pose proof (new_release_refused track v (ma_artifact_version artifact) archive_path eq_refl w) as Href.
    destruct (install_new_release _ _ _ w) as [[i|e] w']; [|done]. destruct Hn as [-> Hs]. split; [|done]. exists false. split; [done|].
    intros _ Ho. apply Href. destruct Hl as [[_ Hd] _]. split; [by apply Hd|by apply Hc].
Qed.

Lemma live_now track v (o : option string) s : points track o s → live track v s o s.
Proof. by split. Qed.

(** C3: Installing an artifact never leaves the track's current pointer astray,
    wherever a call to the host fails: when it pointed to a release (and that
    release, if it is the one being installed, is valid), a success points it to
    the release of the artifact, which is there and passes the adapter's check; an
    error leaves it at the old release or has already moved it to the new, checked
    one; and the files of the old release are untouched in every case. *)
Theorem install_keeps_current track artifact (archive_path : path) (o : option string) w :
  let v := artifact_version_str (ma_artifact_version artifact) in
  points track o (files w) → current_valid track v o (files w) →
  match install track artifact archive_path w with
  | (Ok i, w') => (∃ existed, i = install_record track (ma_artifact_version artifact) o existed ∧ (existed = false → o ≠ Some v))
      ∧ switched track v (files w) o (files w')
  | (Err _, w') => settled track v (files w) o (files w')
  end.
Proof.
  intros v Hp Hc. apply (install_spec track artifact archive_path o). split; [by apply live_now|done].
Qed.

(** The rollback of an install that changed the pointer. *)
Lemma rollback_spec track version existed (o : option string) s0 :
  let v := artifact_version_str version in
  points track o s0 → (existed = false → o ≠ Some v) →
  hoare (switched track v s0 o) (rollback (install_record track version o existed))
    (λ _ s, live track v s0 o s ∧ (existed = false → ∀ q, under (release_dir track v) q → s !! q = None))
    (unwinding track v s0 o).
Proof.
  intros v Hp Ho. unfold rollback. cbn [ai_current_path install_record]. unfold current_link at 1.
  rewrite parent_below, app_nil_r. cbn [ai_previous_release ai_release_existed_before ai_release_path].
  apply (hoare_seq _ (λ s, live track v s0 o s ∧ s !! release_dir track v = Some Dir)).
  - destruct o as [u|]; [|by apply restore_none].
    eapply hoare_bind; [apply (hoare_lift (switched track v s0 (Some u)))|].
    { intros s (? & _ & ?). by split; [left|]. }
    intros previous. apply hoare_pure. intros Hprev. apply restore_previous; [|done].
    unfold artifact_version_new, validate_identity in Hprev. destruct (valid_identity u); [by injection Hprev as <-|done].
  - destruct existed.
    + intros w' [Hl _]. by split.
    + eapply hoare_seq; [by apply remove_new_spec, Ho|].
      eapply hoare_conseq; [by intros s Hs'; exact Hs'| | |apply hoare_look; [confine|by intros s Hs'; exact Hs']].
      * by intros _ s [Hl Hg].
      * intros s [[? ?] _]. by split; [right|].
Qed.

(** Rolling an install back returns the track to where it was: the pointer leads
    again to the release it led to before, whose files are untouched, or is gone if
    there was none, and a release that the install added is gone.  A rollback that
    fails leaves the pointer at the old or the new release. *)
Theorem rollback_restores track artifact archive_path (o : option string) w i w1 :
  let v := artifact_version_str (ma_artifact_version artifact) in
  points track o (files w) → current_valid track v o (files w) →
  install track artifact archive_path w = (Ok i, w1) →
  match rollback i w1 with
  | (Ok _, w2) => live track v (files w) o (files w2)
      ∧ (ai_release_existed_before i = false → ∀ q, under (release_dir track v) q → files w2 !! q = None)
  | (Err _, w2) => unwinding track v (files w) o (files w2)
  end.
Proof.
  intros v Hp Hc Hi.
  pose proof (install_spec track artifact archive_path o (files w) w (conj (live_now _ _ _ _ Hp) Hc)) as Hpost.
  rewrite Hi in Hpost. destruct Hpost as [(existed & -> & Ho) Hs].
  pose proof (rollback_spec track _ existed o (files w) Hp Ho w1 Hs) as Hroll. by destruct (rollback _ w1) as [[]].
Qed.

(** *** Confinement of the installer *)

(** The names that the installer gives in a track's directory; [etc] and [data] are not. *)
Definition installer_name (name : string) : bool :=
  bool_decide (name = "releases") || starts_with "current" name || starts_with ".installing-" name.

(** The paths that an install may change. *)
Definition owned (track : TrackName) (q : path) : Prop :=
  (∃ name r, q = track_dir track ++ name :: r ∧ installer_name name = true) ∨ q ∈ ancestors (track_dir track).

Lemma below_track track name r q : installer_name name = true → under (track_dir track ++ name :: r) q → owned track q.
Proof. intros Hn [t ->]. left. exists name, (r ++ t). by rewrite <-app_assoc. Qed.

Lemma above_track track name r q : installer_name name = true → q ∈ ancestors (track_dir track ++ name :: r) → owned track q.
Proof.
  intros Hn [Hq Hne]%elem_of_ancestors. change (name :: r) with ([name] ++ r) in Hq. rewrite app_assoc in Hq.
  apply under_or_above in Hq as [Hq|Hq]; [by apply (below_track track name [])|].
  destruct (decide (q = track_dir track ++ [name])) as [->|]; [by apply (below_track track name []), under_refl|].
  right. apply elem_of_ancestors. split; [|done]. destruct Hq as [t Ht].
  destruct t as [|x t _] using rev_ind; [rewrite app_nil_r in Ht; congruence|].
  rewrite app_assoc in Ht. apply app_inj_tail in Ht as [-> _]. apply under_app.
Qed.

Lemma releases_owned track q : under (releases_dir track) q → owned track q.
Proof. by apply (below_track track "releases" []). Qed.
Lemma release_owned track u q : under (release_dir track u) q → owned track q.
Proof. unfold release_dir, releases_dir. rewrite <-app_assoc. by apply (below_track track "releases"). Qed.

Lemma pointer_confined track version : changes (owned track) (update_current_pointer (track_dir track) version).
Proof.
  unfold update_current_pointer. confine.
  all: try (intros q ->; eapply (below_track track _ []); [|apply under_refl]; done).
  intros q [Hq|Hq]; (eapply below_track; [|exact Hq]; done).
Qed.

Lemma prune_confined track version previous :
  changes (owned track) (prune_old_releases (releases_dir track) version previous).
Proof.
  unfold prune_old_releases, release_entries. confine. rename a into names.
  induction names as [|name names IH]; cbn [prune_loop]; [auto with pv|].
  apply changes_bind; [|by intros _]. confine. intros q. apply release_owned.
Qed.

Lemma name_confined track : changes (owned track) (current_release_name (current_link track)).
Proof. unfold current_release_name. confine. Qed.

Definition outside (track : TrackName) (s0 s : Fs) : Prop := ∀ q, ¬ owned track q → s !! q = s0 !! q.

Lemma outside_changes {A : Type} track s0 (m : IO ResourcesError A) : changes (owned track) m →
  hoare (outside track s0) m (λ _, outside track s0) (outside track s0).
Proof.
  intros Hm. apply (hoare_changes _ _ _ _ Hm); [|done]. intros s s' Heq Hs q Hq. rewrite Heq by done. by apply Hs.
Qed.

Lemma promote_confined track s0 name archive_path version : installer_name name = true →
  hoare (outside track s0)
    (unpack_validate_and_promote archive_path (track_dir track ++ [name]) (release_dir track (artifact_version_str version)) version)
    (λ _, outside track s0) (outside track s0).
Proof.
  intros Hname. unfold unpack_validate_and_promote.
  eapply hoare_seq; [apply outside_changes; confine; intros q; by apply below_track|].
  eapply hoare_seq; [apply outside_changes; confine; intros q; by apply above_track|].
  eapply hoare_bind.
  { apply (unpack_root _ _ (outside track s0)); [|done]. intros s s' Heq Hs q Hq. rewrite Heq; [by apply Hs|].
    intros [Hb|Ha]; apply Hq; [by eapply below_track|by eapply above_track]. }
  intros root. apply hoare_pure. intros [r ->]. eapply hoare_pre; [by intros s [_ Hs]; exact Hs|].
  eapply hoare_seq; [apply outside_changes; unfold validate_installation; by intros w q|].
  eapply hoare_seq; [apply outside_changes; confine; intros q [Hq|Hq]; [|by eapply release_owned]|].
  - rewrite <-app_assoc in Hq. by eapply below_track.
  - apply outside_changes. confine.
Qed.

Lemma new_release_confined track s0 version archive_path :
  hoare (outside track s0) (install_new_release track version archive_path) (λ _, outside track s0) (outside track s0).
Proof.
  unfold install_new_release.
  eapply hoare_bind; [apply outside_changes, name_confined|]. intros previous.
  eapply hoare_seq; [apply outside_changes; confine; intros q; by apply above_track|].
  eapply (hoare_bind _ _ _ (λ st s, (∃ name, st = track_dir track ++ [name] ∧ installer_name name = true) ∧ outside track s0 s)).
  { intros w Hw. cbn. split; [by eexists|done]. }
  intros staging. apply hoare_pure. intros (name & -> & Hname).
  assert (changes (owned track) (remove_dir_all_if_exists (track_dir track ++ [name]))) as Hrm
    by (confine; intros q; by apply below_track).
  eapply hoare_seq; [eapply hoare_cleanup; [by apply promote_confined|by apply outside_changes]|].
  eapply hoare_seq; [by apply outside_changes|].
  eapply hoare_seq; [apply outside_changes, prune_confined|].
  eapply hoare_seq; [apply outside_changes, pointer_confined|]. by intros w Hw.
Qed.

Lemma existing_release_confined track artifact :
  changes (owned track) (install_existing_release track artifact).
Proof.
  unfold install_existing_release. apply changes_bind; [auto with pv|intros _u].
  apply changes_bind; [auto with pv|intros [|]]; cbn [negb]; [|auto with pv].
  apply changes_bind; [apply name_confined|intros previous].
  apply changes_bind; [apply changes_try; by intros w q|intros valid]. destruct (negb _).
  - apply changes_bind; [|intros _u2; auto with pv]. unfold discard_existing_release. confine.
    + intros q. apply release_owned.
    + intros q ->. eapply (below_track track _ []); [|apply under_refl]; done.
  - apply changes_bind; [apply prune_confined|intros _u2]. apply changes_bind; [apply pointer_confined|intros _u3]. auto with pv.
Qed.

Lemma install_outside track artifact archive_path s0 :
  hoare (outside track s0) (install track artifact archive_path) (λ _, outside track s0) (outside track s0).
Proof.
  unfold install. eapply hoare_bind; [apply outside_changes; auto with pv|]. intros _u.
  eapply hoare_bind; [apply outside_changes, existing_release_confined|]. intros [i|]; [by intros w' Hw|].
  apply new_release_confined.
Qed.

Lemma rollback_confined track version previous existed : changes (owned track) (rollback (install_record track version previous existed)).
Proof.
  unfold rollback. cbn [ai_current_path install_record]. unfold current_link at 1.
  rewrite parent_below, app_nil_r. cbn [ai_previous_release ai_release_existed_before ai_release_path install_record].
  apply changes_bind; [|intros _u; destruct existed; confine; intros q; apply release_owned].
  destruct previous as [u|]; [|confine; intros q ->; eapply (below_track track _ []); [|apply under_refl]; done].
  apply changes_bind; [auto with pv|intros v]. apply pointer_confined.
Qed.

(** *** What an archive may hold *)

(** A path of an entry that stays below where it is unpacked: relative, without [..], and not empty. *)
Definition stays_below (text : string) : Prop :=
  starts_with_char "/" text = false ∧ ".." ∉ split "/" text ∧ ∃ name, name ∈ split "/" text ∧ name ≠ "" ∧ name ≠ ".".

(** An entry that is only a header, or a file or a directory at such a path: no link and no device. *)
Definition harmless (entry : result IoError Entry) : Prop := ∃ e, entry = Ok e
  ∧ (entry_type e ∈ [XGlobalHeader; XHeader; GNULongName; GNULongLink]
     ∨ (entry_type e = Regular ∨ entry_type e = Directory) ∧ ∃ text, entry_path e = Ok text ∧ stays_below text).

Lemma clean_components_normal archive_path text l names : clean_components archive_path text l = Ok names →
  RootDir ∉ l ∧ ParentDir ∉ l ∧ ∀ name, name ∈ names ↔ Normal name ∈ l.
Proof.
  revert names. induction l as [|[| | |value] l IH]; intros names; cbn [clean_components]; try done.
  - intros [= <-]. split_and!; [apply not_elem_of_nil..|]. intros name. by split; intros ?%elem_of_nil.
  - intros (Hr & Hp & Hn)%IH. rewrite !not_elem_of_cons. split_and!; [done..|]. intros name. rewrite Hn, elem_of_cons. naive_solver.
  - destruct (clean_components archive_path text l) as [rest|]; [|done]. intros [= <-]. destruct (IH rest eq_refl) as (Hr & Hp & Hn).
    rewrite !not_elem_of_cons. split_and!; [done..|]. intros name. rewrite !elem_of_cons, Hn. naive_solver.
Qed.

Lemma clean_path_below archive_path text names : clean_archive_path archive_path text = Ok names → stays_below text.
Proof.
  unfold clean_archive_path. destruct (clean_components _ _ _) as [clean|] eqn:Hc; [|done]. cbn. intros Hn.
  apply clean_components_normal in Hc as (Hroot & Hparent & Hnames). unfold stays_below, components, is_absolute, SEPARATOR in *.
  destruct (starts_with_char "/" text); [destruct Hroot; by left|].
  destruct (split "/" text) as [|first rest] eqn:Hsplit; [by apply split_nonempty in Hsplit|]. split_and!; [done| |].
  - rewrite elem_of_app in Hparent. apply Decidable.not_or in Hparent as [Hp1 Hp2]. rewrite elem_of_cons. intros [<-|Hin].
    + apply Hp1. by left.
    + apply Hp2, list_elem_of_omap. by exists "..".
  - destruct clean as [|name clean]; [done|]. assert (Normal name ∈ option_list (first_component first) ++ omap piece_component rest) as Hin
      by (apply Hnames; by left).
    assert (∀ piece, piece_component piece = Some (Normal name) → piece ≠ "" ∧ piece ≠ ".") as Hpiece.
    { intros piece. unfold piece_component. case_bool_decide; [done|]. by case_bool_decide. }
    apply elem_of_app in Hin as [Hin|(piece & Hin & Hp)%list_elem_of_omap].
    + exists first. split; [by left|]. apply Hpiece. unfold first_component in Hin. case_bool_decide.
      * by apply list_elem_of_singleton in Hin.
      * destruct (piece_component first); [by apply list_elem_of_singleton in Hin as ->|by apply elem_of_nil in Hin].
    + exists piece. split; [by right|]. by apply Hpiece.
Qed.

Lemma unpack_entry_harmless archive_path staging root_name entry :
  gives (unpack_entry archive_path staging root_name entry) (λ _, harmless entry).
Proof.
  unfold unpack_entry. eapply gives_bind; [apply gives_lift; intros e He; exact He|]. intros e He. cbn beta in He.
  assert (entry = Ok e) as -> by (by destruct entry; [injection He as ->|discriminate He]).
  destruct (should_skip_archive_entry (entry_type e)) eqn:Hskip.
  { apply gives_ret. exists e. split; [done|]. left. unfold should_skip_archive_entry in Hskip.
    destruct (entry_type e); first [discriminate Hskip|set_solver]. }
  eapply gives_bind; [apply gives_lift; intros u Hu; exact Hu|]. intros [] Htype. cbn beta in Htype.
  eapply gives_bind; [apply gives_lift; intros text Ht; exact Ht|]. intros text Htext. cbn beta in Htext.
  eapply gives_bind; [apply gives_lift; intros p Hp; exact Hp|]. intros relative Hclean. cbn beta in Hclean.
  intros w r w' _. exists e. split; [done|]. right. split.
  - unfold validate_archive_entry_type in Htype. destruct (entry_type e); first [discriminate Htype|by left|by right].
  - exists text. split; [|by eapply clean_path_below]. destruct (entry_path e); [by injection Htext as ->|discriminate Htext].
Qed.

Lemma unpack_entries_harmless archive_path staging root_name entries :
  gives (unpack_entries archive_path staging root_name entries) (λ _, Forall harmless entries).
Proof.
  revert root_name. induction entries as [|entry entries IH]; intros root_name; cbn [unpack_entries]; [by apply gives_ret|].
  eapply gives_bind; [apply unpack_entry_harmless|]. intros root' He. eapply gives_conseq; [|apply IH]. intros r Hr. by constructor.
Qed.

(** An archive that was opened, and holds nothing else. *)
Definition opened_harmless (archive_path : path) : Prop := ∃ w1 entries w2,
  open_archive archive_path w1 = (Ok entries, w2) ∧ Forall harmless entries.

Lemma promote_harmless archive_path staging release_path version :
  gives (unpack_validate_and_promote archive_path staging release_path version) (λ _, opened_harmless archive_path).
Proof.
  unfold unpack_validate_and_promote. do 2 (apply gives_seq; intros ?). eapply gives_bind.
  - unfold unpack_single_root_archive. intros w root w' Hw. unfold mbind at 1, io_bind at 1 in Hw.
    destruct (open_archive archive_path w) as [[entries|e] w1] eqn:Ho; [|done].
    unfold mbind at 1, io_bind at 1 in Hw. destruct (unpack_entries archive_path staging None entries w1) as [[r|e] w2] eqn:Hu; [|done].
    apply unpack_entries_harmless in Hu. assert (opened_harmless archive_path) as Hh by (by exists w, entries, w1). exact Hh.
  - intros root Hh w u w' _. exact Hh.
Qed.

Lemma install_harmless track artifact archive_path : gives (install track artifact archive_path)
  (λ i, ai_release_existed_before i = false → opened_harmless archive_path).
Proof.
  unfold install. apply gives_seq. intros _. apply (gives_bind _ _ (λ existing, ∀ i, existing = Some i → ai_release_existed_before i = true)).
  - unfold install_existing_release. apply gives_seq. intros _. apply gives_seq. intros [|]; cbn [negb]; [|by apply gives_ret].
    do 2 (apply gives_seq; intros ?). destruct (negb _); (apply gives_seq; intros _); [by apply gives_ret|].
    apply gives_seq. intros _. apply gives_ret. by intros i [= <-].
  - intros [i|] Hi; [apply gives_ret; intros Hf; by rewrite (Hi i eq_refl) in Hf|].
    unfold install_new_release. do 3 (apply gives_seq; intros ?). eapply (gives_bind _ _ (λ _, opened_harmless archive_path)).
    + intros w u w'. unfold or_cleanup. destruct (unpack_validate_and_promote _ _ _ _ w) as [[x|e] w1] eqn:Hp; [|done].
      intros _. by apply (promote_harmless _ _ _ _ _ _ _ Hp).
    + intros u Hh w i w' _ _. exact Hh.
Qed.

(** C21: An install touches nothing outside what it owns of its track's directory — the
    releases, the pointer and its own temporaries, never the resource's configuration
    or data — whatever the archive holds and wherever it fails; the only other paths that may
    change are the directories above, which are made when missing. And an archive is only
    installed when all its entries are files or directories (or mere headers) at relative paths
    without [..]: one with a link, a device, an absolute or a parent path is refused. (Assumed
    of the tar library: opening an archive changes nothing, and an entry that is unpacked writes
    only at the path it is given or below; and of the adapter: its check changes nothing.) *)
Theorem install_confined track artifact archive_path w :
  let '(r, w') := install track artifact archive_path w in
  (∀ q, ¬ owned track q → files w' !! q = files w !! q)
  ∧ match r with
    | Ok i => ai_release_existed_before i = false → ∃ w1 entries w2,
        open_archive archive_path w1 = (Ok entries, w2)
        ∧ Forall (λ entry, ∃ e, entry = Ok e
            ∧ (entry_type e ∈ [XGlobalHeader; XHeader; GNULongName; GNULongLink]
               ∨ (entry_type e = Regular ∨ entry_type e = Directory) ∧ ∃ text, entry_path e = Ok text ∧ stays_below text)) entries
    | Err _ => True
    end.
Proof.
  pose proof (install_outside track artifact archive_path (files w) w (λ _ _, eq_refl)) as Ho.
  destruct (install track artifact archive_path w) as [[i|e] w'] eqn:Hi; split; [exact Ho| |exact Ho|done].
  exact (install_harmless track artifact archive_path w i w' Hi).
Qed.
End installer.

(** ** A sample track

    An archive of three entries, an adapter that wants [bin/redis-server], and a
    track whose current release is another version. *)

Section sample.

Definition SampleEntry : Type := EntryType * string * string.
Definition sample_entries : list SampleEntry :=
  [(Directory, "redis", ""); (XHeader, "pax", ""); (Directory, "./redis/bin/", ""); (Regular, "redis/bin/redis-server", "elf")].
Definition sample_type (e : SampleEntry) : EntryType := e.1.1.
Definition sample_path (e : SampleEntry) : result IoError string := Ok e.1.2.
Definition sample_open (p : path) : IO ResourcesError (list (result IoError SampleEntry)) := mret (Ok <$> sample_entries).
Definition sample_unpack (e : SampleEntry) (p : path) : IO IoError unit := λ w,
  (Ok tt, set_files (<[p := match e.1.1 with Directory => Dir | _ => File e.2 end]> (files w)) w).
Definition sample_name : ResourceName := {| resource_name_str := "redis" |}.
Definition sample_validate (t : path → option node) : result ResourcesError unit :=
  match t [], t ["bin"], t ["bin"; "redis-server"] with
  | Some Dir, Some Dir, Some (File _) => Ok tt
  | _, _, _ => Err (InvalidArtifactLayout "redis" "missing bin/redis-server")
  end.
Definition sample_resources : path := ["pv"; "resources"].
Definition sample_track : TrackName := {| track_name_str := "7.2" |}.
Definition sample_artifact (version : string) : ManifestArtifact :=
  {| ma_resource_name := sample_name; ma_track := sample_track;
     ma_artifact_version := {| artifact_version_str := version |}; ma_upstream_version := "7.2.5";
     ma_pv_build_revision := "1"; ma_platform := AnyPlatform; ma_url := ""; ma_sha256 := {| sha256_str := "" |};
     ma_size := 1; ma_published_at := {| published_instant := 0 |}; ma_php_extensions := [];
     ma_revocation_state := Active |}.

Definition sample_dir (p : path) : path := sample_resources ++ "redis" :: "7.2" :: p.
(** A release with its binary, or an empty one. *)
Definition sample_release (version : string) (whole : bool) (fs : Fs) : Fs :=
  let fs := make_dirs (ancestors (sample_dir ["releases"; version; "bin"])) fs in
  if whole then <[sample_dir ["releases"; version; "bin"; "redis-server"] := File "elf"]> fs else fs.
Definition sample_world (version : string) (whole : bool) : World :=
  {| files := <[sample_dir ["current"] := Link ("releases/" +:+ version)]> (sample_release version whole ∅);
     clock := 0; counter := 0 |}.

(** A host where the [n]-th call fails. *)
Definition failing_host (n : option nat) : Host :=
  {| fault_at := λ k, if bool_decide (Some k = n)
                      then Some {| fault_text := "Input/output error (os error 5)"; fault_count := 0;
                                   fault_reached := λ _, false |} else None;
     process_id := 7 |}.

#[export] Instance sample_laws : InstallerLaws sample_open sample_unpack sample_validate.
Proof.
  split.
  - by intros p w q.
  - intros e p w q Hq. cbn. rewrite lookup_insert_ne; [done|]. intros ->. apply Hq, under_refl.
  - intros t t' Heq. unfold sample_validate. by rewrite !Heq.
  - intros t. unfold sample_validate. by destruct (t []) as [[| |]|].
  - intros t. unfold sample_validate. intros Ht. exists "bin". by destruct (t []) as [[]|], (t ["bin"]) as [n|]; try done; exists n.
Qed.

Definition sample_install (n : option nat) (version : string) (w : World) :=
  install (H := failing_host n) sample_type sample_path sample_open sample_unpack sample_name sample_validate
    sample_resources sample_track (sample_artifact version) ["tmp"; "redis.tar.gz"] w.
Definition sample_rollback (i : ArtifactInstall) (w : World) := rollback (H := failing_host None) i w.

Lemma sample_points version whole : points sample_name sample_resources sample_track (Some version) (files (sample_world version whole)).
Proof.
  split.
  - cbn [files sample_world fmap option_fmap option_map]. apply lookup_insert_eq.
  - intros u [= <-]. cbn [files sample_world]. rewrite lookup_insert_ne by done. unfold sample_release.
    assert (sample_dir ["releases"; version] ∈ ancestors (sample_dir ["releases"; version; "bin"])) as Hin.
    { apply elem_of_ancestors. split; [exists ["bin"]; done|done]. }
    destruct whole; rewrite ?lookup_insert_ne by done; by rewrite lookup_make_dirs, decide_True.
Qed.

Lemma install_keeps_current_witness :
  points sample_name sample_resources sample_track (Some "7.2.4-pv1") (files (sample_world "7.2.4-pv1" true))
  ∧ current_valid sample_name sample_validate sample_resources sample_track "7.2.5-pv1" (Some "7.2.4-pv1")
      (files (sample_world "7.2.4-pv1" true))
  ∧ ∃ i w', sample_install None "7.2.5-pv1" (sample_world "7.2.4-pv1" true) = (Ok i, w')
      ∧ points sample_name sample_resources sample_track (Some "7.2.5-pv1") (files w').
Proof.
  split_and!; [apply sample_points|done|].
  pose proof (install_keeps_current sample_type sample_path sample_open sample_unpack sample_name sample_validate
    sample_resources (H := failing_host None) sample_track (sample_artifact "7.2.5-pv1") ["tmp"; "redis.tar.gz"]
    (Some "7.2.4-pv1") (sample_world "7.2.4-pv1" true) (sample_points _ _) ltac:(done)) as Hi.
  unfold sample_install. destruct (install _ _ _ _ _ _ _ _ _ _ _) as [[i|e] w'] eqn:He.
  - exists i, w'. split; [done|]. apply Hi.
  - exfalso. apply (f_equal (is_ok ∘ fst)) in He. vm_compute in He. discriminate.
Defined.

Lemma sample_install_rolls_back :
  match sample_install None "7.2.5-pv1" (sample_world "7.2.4-pv1" true) with
  | (Ok i, w1) => is_ok (sample_rollback i w1).1 && negb (ai_release_existed_before i)
  | (Err _, _) => false
  end = true.
Proof. vm_compute. reflexivity. Qed.

Lemma rollback_restores_witness : ∃ i w1,
  sample_install None "7.2.5-pv1" (sample_world "7.2.4-pv1" true) = (Ok i, w1)
  ∧ points sample_name sample_resources sample_track (Some "7.2.4-pv1") (files (sample_rollback i w1).2)
  ∧ files (sample_rollback i w1).2 !! sample_dir ["releases"; "7.2.5-pv1"] = None.
Proof.
  pose proof sample_install_rolls_back as Hok.
  destruct (sample_install None "7.2.5-pv1" (sample_world "7.2.4-pv1" true)) as [[i|e] w1] eqn:Hi; [|done].
  pose proof (rollback_restores sample_type sample_path sample_open sample_unpack sample_name sample_validate
    sample_resources (H := failing_host None) sample_track (sample_artifact "7.2.5-pv1") ["tmp"; "redis.tar.gz"]
    (Some "7.2.4-pv1") (sample_world "7.2.4-pv1" true) i w1 (sample_points _ _) ltac:(done) Hi) as Hr.
  apply andb_true_iff in Hok as [Hok Hnew]. apply negb_true_iff in Hnew.
  exists i, w1. split; [done|]. unfold sample_rollback in *.
  destruct (rollback i w1) as [[[]|e] w2]; [|done]. destruct Hr as [[Hp _] Hgone]. split; [exact Hp|].
  apply (Hgone Hnew). apply under_refl.
Defined.

Lemma install_confined_witness : ¬ owned sample_name sample_resources sample_track (sample_dir ["data"; "dump.rdb"]) ∧
  files (sample_install (Some 12) "7.2.5-pv1" (sample_world "7.2.4-pv1" true)).2 !! ["tmp"; "redis.tar.gz"]
  = files (sample_world "7.2.4-pv1" true) !! ["tmp"; "redis.tar.gz"].
Proof.
  split; [intros [(name & r & [= <- <-] & Hn)|[[r Hr] _]%elem_of_ancestors]; [by vm_compute in Hn|done]|].
  pose proof (install_confined sample_type sample_path sample_open sample_unpack sample_name sample_validate
    sample_resources (H := failing_host (Some 12)) sample_track (sample_artifact "7.2.5-pv1") ["tmp"; "redis.tar.gz"]
    (sample_world "7.2.4-pv1" true)) as Hc. unfold sample_install. destruct (install _ _ _ _ _ _ _ _ _ _ _) as [r w'].
  apply (proj1 Hc). intros [(name & r' & Hr & _)|[[r' Hr] _]%elem_of_ancestors]; done.
Defined.

(** When the current release is the one to install and is not valid, it is removed
    before the pointer to it.  A failure between the two leaves a pointer that leads
    nowhere, and every later install of the track is refused. *)
Example discarded_current_release_strands_the_track :
  let w1 := (sample_install (Some 6) "7.2.5-pv1" (sample_world "7.2.5-pv1" false)).2 in
  files w1 !! sample_dir ["releases"; "7.2.5-pv1"] = None
  ∧ files w1 !! sample_dir ["current"] = Some (Link "releases/7.2.5-pv1")
  ∧ (sample_install None "7.2.5-pv1" w1).1
    = Err (InvalidArtifactLayout "redis"
        "current pointer `/pv/resources/redis/7.2/current` targets invalid release `releases/7.2.5-pv1`")
  ∧ (sample_install None "7.2.6-pv1" w1).1 = (sample_install None "7.2.5-pv1" w1).1.
Proof. vm_compute. split_and!; reflexivity. Qed.
End sample.
