(* ===== verification/RustLines.v ===== *)
(** * Lines and words: [str::lines], [split_inclusive], [split_whitespace],
    [rsplit_once] and inserting text, with the facts about trimmed lines *)

From S2P Require Import Prelude RustStr.

Definition newline : string := String NEWLINE "".

(** [s.split_inclusive(c)]: every piece but the last ends in [c]. *)
Fixpoint split_inclusive (c : ascii) (s : string) : list string :=
  match s with
  | "" => []
  | String d s =>
      if char_eqb d c then String d "" :: split_inclusive c s
      else match split_inclusive c s with
           | [] => [String d ""]
           | piece :: pieces => String d piece :: pieces
           end
  end.

(** A line without its ending: a newline, and one carriage return before it. *)
Definition strip_line_end (line : string) : string :=
  match strip_suffix newline line with
  | Some line => default line (strip_suffix (String CARRIAGE_RETURN "") line)
  | None => line
  end.

(** [s.lines()]. *)
Definition lines (s : string) : list string := strip_line_end <$> split_inclusive NEWLINE s.

(** [s.split_whitespace()]. *)
Fixpoint words_of (word : string) (cs : list string) : list string :=
  match cs with
  | [] => if is_empty word then [] else [word]
  | c :: cs =>
      if is_whitespace c then (if is_empty word then words_of "" cs else word :: words_of "" cs)
      else words_of (word +:+ c) cs
  end.
Definition split_whitespace (s : string) : list string := words_of "" (chars s).

(** [s.rsplit_once(sep)], for a separator that is not empty. *)
Fixpoint rsplit_once (sep s : string) : option (string * string) :=
  match s with
  | "" => None
  | String c s' =>
      match rsplit_once sep s' with
      | Some (a, b) => Some (String c a, b)
      | None => match strip_prefix sep s with Some b => Some ("", b) | None => None end
      end
  end.

(** [s.insert_str(n, t)]. *)
Definition insert_str (n : nat) (t s : string) : string := str_take n s +:+ t +:+ str_drop n s.

Definition trimmed_lines (s : string) : list string := trim <$> lines s.

(** ** Pieces *)

Lemma concat_split_inclusive c s : str_concat (split_inclusive c s) = s.
Proof.
  induction s as [|d s IH]; [done|]. cbn [split_inclusive]. destruct (char_eqb d c).
  - cbn [str_concat]. by rewrite IH.
  - destruct (split_inclusive c s); cbn [str_concat] in *; by rewrite <-IH.
Qed.

(** A text that is empty or ends in the separator. *)
Definition closed (c : ascii) (s : string) : bool := is_empty s || ends_with_char c s.

Lemma closed_cons c d s : s ≠ "" → closed c (String d s) = closed c s.
Proof. intros Hs. destruct s as [|e s]; [done|]. done. Qed.

Lemma split_inclusive_app c s t : closed c s = true →
  split_inclusive c (s +:+ t) = split_inclusive c s ++ split_inclusive c t.
Proof.
  induction s as [|d s IH]; [done|]. intros Hc. rewrite str_cons_app. cbn [split_inclusive].
  destruct (decide (s = "")) as [->|Hs].
  - unfold closed, ends_with_char in Hc. cbn in Hc. apply bool_decide_eq_true in Hc. injection Hc as ->.
    by rewrite char_eqb_refl.
  - rewrite closed_cons in Hc by done. rewrite IH by done. destruct (char_eqb d c); [done|].
    destruct (split_inclusive c s) as [|p ps] eqn:E; [|done].
    pose proof (concat_split_inclusive c s) as H. rewrite E in H. by subst.
Qed.

Lemma closed_app c s t : closed c t = true → t ≠ "" → closed c (s +:+ t) = true.
Proof.
  intros Hc Ht. induction s as [|d s IH]; [done|]. rewrite str_cons_app, closed_cons; [done|].
  intros He. apply Ht. by destruct s.
Qed.

(** ** Trimming a line's end *)

Lemma chars_snoc_ascii s c : is_ascii c = true → is_continuation c = false →
  chars (s +:+ String c "") = chars s ++ [String c ""].
Proof.
  intros Ha Hc. induction s as [|d s IH]; [done|]. rewrite str_cons_app. cbn [chars]. rewrite IH.
  destruct (chars s) as [|g gs] eqn:E; cbn [app].
  - by rewrite Hc.
  - destruct g as [|e r]; [done|]. by destruct (is_continuation e && _).
Qed.

Lemma drop_while_snoc {A : Type} (p : A → bool) l x : p x = true →
  drop_while p (l ++ [x]) = match drop_while p l with [] => [] | l' => l' ++ [x] end.
Proof.
  intros Hx. induction l as [|y l IH]; cbn; [by rewrite Hx|]. destruct (p y); [apply IH|done].
Qed.

Lemma chars_concat_suffix gs s : chars s = gs → ∀ gs' gs'', gs = gs' ++ gs'' → chars (str_concat gs'') = gs''.
Proof.
  intros <-. induction s as [|c s IH]; intros gs' gs'' Hgs.
  - symmetry in Hgs. apply app_eq_nil in Hgs as [_ ->]. done.
  - destruct gs' as [|g gs']; [cbn [app] in Hgs; by rewrite <-Hgs, str_concat_chars|].
    cbn [chars] in Hgs. destruct (chars s) as [|[|d r] gs] eqn:E.
    + injection Hgs as _ Hgs. symmetry in Hgs. apply app_eq_nil in Hgs as [_ ->]. done.
    + injection Hgs as _ Hgs. by eapply IH.
    + destruct (is_continuation d && _); injection Hgs as _ Hgs.
      * eapply (IH (String d r :: gs')). by rewrite Hgs.
      * by eapply IH.
Qed.

Lemma drop_while_suffix {A : Type} (p : A → bool) l : ∃ l', l = l' ++ drop_while p l.
Proof.
  induction l as [|x l [l' IH]]; [by exists []|]. cbn. destruct (p x); [|by exists []].
  exists (x :: l'). cbn. by rewrite <-IH.
Qed.

Lemma chars_trim_start s : chars (trim_start s) = drop_while is_whitespace (chars s).
Proof.
  unfold trim_start. destruct (drop_while_suffix is_whitespace (chars s)) as [l Hl]. by eapply chars_concat_suffix.
Qed.

(** Whitespace at the end does not matter to [trim]. *)
Lemma trim_snoc s c : is_ascii c = true → is_continuation c = false → is_whitespace (String c "") = true →
  trim (s +:+ String c "") = trim s.
Proof.
  intros Ha Hc Hw. unfold trim, trim_end. rewrite !chars_trim_start, chars_snoc_ascii, drop_while_snoc by done.
  destruct (drop_while is_whitespace (chars s)); [done|].
  rewrite reverse_snoc. cbn [drop_while]. by rewrite Hw.
Qed.

(** Trimming goes through the line endings. *)
Lemma trimmed_lines_pieces s : trimmed_lines s = trim <$> split_inclusive NEWLINE s.
Proof.
  unfold trimmed_lines, lines. rewrite <-list_fmap_compose. apply list_fmap_ext. intros _ piece _. cbn.
  unfold strip_line_end. destruct (strip_suffix newline piece) as [l|] eqn:Hl; [|done].
  apply strip_suffix_Some in Hl as ->. unfold newline. rewrite trim_snoc by done.
  destruct (strip_suffix _ l) as [l'|] eqn:Hl'; [|done]. apply strip_suffix_Some in Hl' as ->.
  cbn [default]. by rewrite trim_snoc.
Qed.

Lemma trimmed_lines_app s t : closed NEWLINE s = true →
  trimmed_lines (s +:+ t) = trimmed_lines s ++ trimmed_lines t.
Proof. intros Hc. by rewrite !trimmed_lines_pieces, split_inclusive_app, fmap_app. Qed.

Lemma trimmed_lines_line l t : lacks NEWLINE l = true → trimmed_lines (l +:+ newline +:+ t) = trim l :: trimmed_lines t.
Proof.
  intros Hl. rewrite !trimmed_lines_pieces, str_app_assoc.
  assert (∀ l, lacks NEWLINE l = true → split_inclusive NEWLINE (l +:+ newline) = [l +:+ newline]) as Hone.
  { clear. intros l Hl. induction l as [|c l IH]; [done|]. rewrite lacks_cons in Hl. split_bools.
    rewrite str_cons_app. cbn [split_inclusive]. by rewrite H, IH. }
  rewrite split_inclusive_app, Hone by (try done; apply closed_app; done). cbn. f_equal. by apply trim_snoc.
Qed.

(** Closing the last line changes no line. *)
Lemma trimmed_lines_close s : closed NEWLINE s = false → trimmed_lines (s +:+ newline) = trimmed_lines s.
Proof.
  rewrite !trimmed_lines_pieces. intros Hc.
  assert (∃ ps p, split_inclusive NEWLINE s = ps ++ [p] ∧ split_inclusive NEWLINE (s +:+ newline) = ps ++ [p +:+ newline])
    as (ps & p & -> & ->); [|by rewrite !fmap_app; cbn; unfold newline; rewrite trim_snoc].
  induction s as [|c s IH]; [done|]. destruct (decide (s = "")) as [->|Hs].
  - unfold closed, ends_with_char in Hc. cbn in Hc. apply bool_decide_eq_false in Hc.
    exists [], (String c ""). cbn [split_inclusive String.append newline].
    rewrite (proj2 (char_eqb_neq c NEWLINE)) by congruence. done.
  - rewrite closed_cons in Hc by done. destruct (IH Hc) as (ps & p & H1 & H2).
    rewrite str_cons_app. cbn [split_inclusive]. rewrite H1, H2. destruct (char_eqb c NEWLINE); [by exists (String c "" :: ps), p|].
    destruct ps as [|q ps]; [by exists [], (String c p)|by exists (String c q :: ps), p].
Qed.

Lemma lines_lack s : Forall (λ l, lacks NEWLINE l = true) (lines s).
Proof.
  unfold lines. apply Forall_fmap, Forall_forall. intros piece Hp. cbn.
  assert (lacks NEWLINE piece = true ∨ ∃ l, piece = l +:+ newline ∧ lacks NEWLINE l = true) as [Hl|(l & -> & Hl)].
  { revert piece Hp. induction s as [|c s IH]; cbn [split_inclusive]; intros piece Hp; [by apply elem_of_nil in Hp|].
    destruct (char_eqb c NEWLINE) eqn:Hc.
    - apply elem_of_cons in Hp as [->|Hp]; [right|by apply IH]. apply char_eqb_eq in Hc as ->. by exists "".
    - destruct (split_inclusive NEWLINE s) as [|q qs].
      + apply list_elem_of_singleton in Hp as ->. left. by rewrite lacks_cons, Hc.
      + apply elem_of_cons in Hp as [->|Hp]; [|apply IH; by right].
        destruct (IH q ltac:(by left)) as [Hq|(l & -> & Hl)]; [left|right; exists (String c l)];
          rewrite lacks_cons, Hc; [done|by split]. }
  - unfold strip_line_end. destruct (strip_suffix newline piece) eqn:Hs; [|done].
    apply strip_suffix_Some in Hs as ->. exfalso. unfold lacks in Hl. rewrite str_all_app in Hl. split_bools. done.
  - unfold strip_line_end. rewrite (proj2 (strip_suffix_Some _ _ _) eq_refl).
    destruct (strip_suffix _ l) eqn:Hs; [|done]. apply strip_suffix_Some in Hs as ->.
    cbn. unfold lacks in Hl. rewrite str_all_app in Hl. by split_bools.
Qed.

(** Lines written out one by one are read back. *)
Lemma trimmed_lines_concat (ls : list string) : Forall (λ l, lacks NEWLINE l = true) ls →
  trimmed_lines (str_concat ((λ l, l +:+ newline) <$> ls)) = trim <$> ls.
Proof.
  induction 1 as [|l ls Hl Hls IH]; [done|]. cbn [fmap list_fmap str_concat].
  rewrite <-str_app_assoc, trimmed_lines_line by done. cbn. by f_equal.
Qed.

Definition unlines (ls : list string) : string := str_concat ((λ l, l +:+ newline) <$> ls).

Lemma unlines_app ls ls' : unlines (ls ++ ls') = unlines ls +:+ unlines ls'.
Proof. unfold unlines. by rewrite fmap_app, str_concat_app. Qed.

Lemma unlines_cons l ls : unlines (l :: ls) = (l +:+ newline) +:+ unlines ls.
Proof. done. Qed.

(** A closed text is its lines written out. *)
Lemma closed_unlines s : closed NEWLINE s = true → ∃ ls, s = unlines ls
  ∧ split_inclusive NEWLINE s = (λ l, l +:+ newline) <$> ls ∧ Forall (λ l, lacks NEWLINE l = true) ls.
Proof.
  intros Hc. assert (∃ ls, split_inclusive NEWLINE s = (λ l, l +:+ newline) <$> ls ∧ Forall (λ l, lacks NEWLINE l = true) ls)
    as (ls & Hs & Hl); [|exists ls; split_and!; [|done..]; unfold unlines; by rewrite <-Hs, concat_split_inclusive].
  induction s as [|c s IH]; [by exists []|]. destruct (decide (s = "")) as [->|Hs].
  - unfold closed, ends_with_char in Hc. cbn in Hc. apply bool_decide_eq_true in Hc. injection Hc as ->.
    exists [""]. split; [done|]. by constructor.
  - rewrite closed_cons in Hc by done. destruct (IH Hc) as (ls & Hls & Hl). cbn [split_inclusive]. rewrite Hls.
    destruct (char_eqb c NEWLINE) eqn:Hcn.
    + apply char_eqb_eq in Hcn as ->. exists ("" :: ls). split; [done|]. by constructor.
    + destruct ls as [|l ls].
      * pose proof (concat_split_inclusive NEWLINE s) as H. rewrite Hls in H. by subst.
      * exists (String c l :: ls). split; [done|]. inversion Hl; subst. constructor; [|done].
        by rewrite lacks_cons, Hcn.
Qed.

Lemma closed_of_unlines ls : closed NEWLINE (unlines ls) = true.
Proof.
  induction ls as [|l ls IH] using rev_ind; [done|]. rewrite unlines_app.
  assert (unlines [l] = l +:+ newline) as -> by (unfold unlines; cbn; by rewrite str_app_nil_r).
  rewrite str_app_assoc. by apply closed_app.
Qed.

Lemma take_app_str s t : str_take (len s) (s +:+ t) = s.
Proof. induction s as [|c s IH]; [by destruct t|]. cbn. by f_equal. Qed.
Lemma drop_app_str s t : str_drop (len s) (s +:+ t) = t.
Proof. induction s as [|c s IH]; [by destruct t|]. done. Qed.

Lemma insert_str_app s t u : insert_str (len s) u (s +:+ t) = s +:+ u +:+ t.
Proof. unfold insert_str. by rewrite take_app_str, drop_app_str. Qed.

(** A text of ASCII characters between two that are not spaces is trimmed. *)
Lemma trim_ends s c d : str_all is_ascii s = true → str_head s = Some c → str_last s = Some d →
  is_graph c = true → is_graph d = true → trim s = s.
Proof.
  intros Ha Hh Hl Hc Hd. apply is_graph_facts in Hc as [_ Hc], Hd as [_ Hd].
  assert (trim_start s = s) as Hs.
  { unfold trim_start. destruct s as [|e s]; [done|]. injection Hh as ->.
    rewrite (drop_while_id _ _ (String c "")); [apply str_concat_chars| |done].
    by rewrite chars_ascii. }
  unfold trim. rewrite Hs. unfold trim_end. rewrite chars_ascii by done.
  rewrite (drop_while_id _ _ (String d "")); [|by rewrite head_reverse; apply singles_last|done].
  rewrite reverse_involutive, <-chars_ascii by done. apply str_concat_chars.
Qed.
