(* ===== verification/PfRules.v ===== *)
(** * The packet-filter rules ([platform/src/pf.rs], first half): the PV anchor and
    the reference to it in [pf.conf], their texts, parsers and edits *)

From S2P Require Import Prelude RustStr RustLines.

(** ** Data *)

Definition PV_MARKER : string := "# Managed by PV".
Definition PF_ANCHOR_SOURCE_MARKER : string := "# Source: PV prepared pf anchor for /etc/pf.anchors/com.prvious.pv".
Definition PF_CONF_SOURCE_MARKER : string := "# Source: PV prepared pf.conf reference for /etc/pf.conf".
(** [com.prvious.pv] in quotes. *)
Definition quoted_anchor : string := String QUOTE ("com.prvious.pv" +:+ String QUOTE "").
Definition PF_RDR_ANCHOR_DIRECTIVE : string := "rdr-anchor " +:+ quoted_anchor.
Definition LEGACY_PF_ANCHOR_DIRECTIVE : string := "anchor " +:+ quoted_anchor.
Definition PF_LOAD_ANCHOR_DIRECTIVE : string :=
  "load anchor " +:+ quoted_anchor +:+ " from " +:+ String QUOTE ("/etc/pf.anchors/com.prvious.pv" +:+ String QUOTE "").

Definition U16_MAX : N := 65535.

Record PfRedirectConfig := { http_port : N; https_port : N }.
Inductive PfConfReference : Type := PfConfReferenceUnit.

Record ActivePfRedirectInspection := {
  pf_enabled : bool; pv_config : option PfRedirectConfig; pv_anchor_has_unparsed_rules : bool;
  resolved_target_ports : gset N; has_unresolved_redirect_targets : bool;
}.

#[export] Instance pf_config_eq_dec : EqDecision PfRedirectConfig.
Proof. solve_decision. Defined.
#[export] Instance pf_reference_eq_dec : EqDecision PfConfReference.
Proof. solve_decision. Defined.

(** ** Lines *)

Definition active_pf_line (line : string) : option string :=
  let line := trim line in
  if is_empty line || starts_with_char "#" line then None else Some line.

Definition active_lines (content : string) : list string := omap active_pf_line (lines content).

Definition parse_u16 (s : string) : option N := n ← parse_u64 s; if (n <=? U16_MAX)%N then Some n else None.

(** ** The anchor *)

Definition redirect_prefix (public_port : string) : string :=
  "rdr pass on lo0 inet proto tcp from any to 127.0.0.1 port " +:+ public_port +:+ " -> 127.0.0.1 port ".

Definition render_anchor (c : PfRedirectConfig) : string :=
  PV_MARKER +:+ newline +:+ PF_ANCHOR_SOURCE_MARKER +:+ newline
  +:+ redirect_prefix "80" +:+ pretty (http_port c) +:+ newline
  +:+ redirect_prefix "443" +:+ pretty (https_port c) +:+ newline.

(** What the loops over the lines collect: each port at most once. *)
Definition Ports : Type := option N * option N.

Definition set_http (port : N) (ports : Ports) : option Ports :=
  match ports.1 with Some _ => None | None => Some (Some port, ports.2) end.
Definition set_https (port : N) (ports : Ports) : option Ports :=
  match ports.2 with Some _ => None | None => Some (ports.1, Some port) end.

Definition anchor_line (ports : Ports) (line : string) : option Ports :=
  match strip_prefix (redirect_prefix "80") line with
  | Some port => n ← parse_u16 port; set_http n ports
  | None =>
      match strip_prefix (redirect_prefix "443") line with
      | Some port => n ← parse_u16 port; set_https n ports
      | None => None
      end
  end.

(** A loop whose body may return [None] early. *)
Fixpoint fold_lines {S : Type} (f : S → string → option S) (l : list string) (s : S) : option S :=
  match l with
  | [] => Some s
  | x :: l => s ← f s x; fold_lines f l s
  end.

Definition parse_anchor (content : string) : option PfRedirectConfig :=
  ports ← fold_lines anchor_line (active_lines content) (None, None);
  if length (active_lines content) =? 2 then
    http ← ports.1; https ← ports.2; Some {| http_port := http; https_port := https |}
  else None.

Definition parse_active_redirect_port (line : string) (public_port : string) : option N :=
  tail ← strip_prefix "rdr pass on lo0 inet proto tcp from any to 127.0.0.1 port " line;
  tail ← (match strip_prefix (public_port +:+ " -> ") tail with
          | Some tail => Some tail
          | None => strip_prefix ("= " +:+ public_port +:+ " -> ") tail
          end);
  redirect_port ← snd <$> rsplit_once " port " tail;
  redirect_port ← head (split_whitespace redirect_port);
  parse_u16 redirect_port.

Definition active_rule_line (ports : Ports) (line : string) : option Ports :=
  match parse_active_redirect_port line "80" with
  | Some port => set_http port ports
  | None =>
      match parse_active_redirect_port line "443" with
      | Some port => set_https port ports
      | None => None
      end
  end.

Definition parse_active_rules (content : string) : option PfRedirectConfig :=
  ports ← fold_lines active_rule_line (active_lines content) (None, None);
  http ← ports.1; https ← ports.2; Some {| http_port := http; https_port := https |}.

(** ** The reference in pf.conf *)

Definition pf_conf_reference_directives : string * string := (PF_RDR_ANCHOR_DIRECTIVE, PF_LOAD_ANCHOR_DIRECTIVE).

Definition reference_render : string :=
  let '(rdr_directive, load_directive) := pf_conf_reference_directives in
  PV_MARKER +:+ newline +:+ PF_CONF_SOURCE_MARKER +:+ newline +:+ rdr_directive +:+ newline +:+ load_directive +:+ newline.

Definition is_pv_pf_conf_reference_directive (line : string) : bool :=
  starts_with PF_RDR_ANCHOR_DIRECTIVE line || starts_with LEGACY_PF_ANCHOR_DIRECTIVE line
  || starts_with ("load anchor " +:+ quoted_anchor) line.

(** [has_rdr_anchor] and [has_load]; [other] is what another line does. *)
Definition directive_line (other : string → bool * bool → option (bool * bool)) (has : bool * bool) (line : string) :
    option (bool * bool) :=
  if bool_decide (line = PF_RDR_ANCHOR_DIRECTIVE) then if has.1 then None else Some (true, has.2)
  else if bool_decide (line = PF_LOAD_ANCHOR_DIRECTIVE) then if has.2 then None else Some (has.1, true)
  else other line has.

(** Both branches after the directives return [None]. *)
Definition parse_block (content : string) : option PfConfReference :=
  has ← fold_lines (directive_line (λ _ _, None)) (active_lines content) (false, false);
  if (length (active_lines content) =? 2) && has.1 && has.2 then Some PfConfReferenceUnit else None.

Definition embedded_line : bool * bool → string → option (bool * bool) :=
  directive_line (λ line has, if is_pv_pf_conf_reference_directive line then None else Some has).

Definition parse_embedded_pf_conf_reference (content : string) : option PfConfReference :=
  has ← fold_lines embedded_line (active_lines content) (false, false);
  if has.1 && has.2 then Some PfConfReferenceUnit else None.

(** ** Editing pf.conf *)

Definition is_pf_filter_rule (line : string) : bool :=
  bool_decide (line = "block") || starts_with "block " line || bool_decide (line = "pass") || starts_with "pass " line
  || bool_decide (line = "dummynet-anchor") || starts_with "dummynet-anchor " line
  || starts_with "anchor " line || starts_with "antispoof " line.

Definition filter_line (line : string) : bool :=
  match active_pf_line line with Some line => is_pf_filter_rule line | None => false end.

Fixpoint first_filter_offset (offset : nat) (pieces : list string) : option nat :=
  match pieces with
  | [] => None
  | line :: pieces => if filter_line line then Some offset else first_filter_offset (offset + len line) pieces
  end.

Definition first_pf_filter_rule_index (content : string) : option nat :=
  first_filter_offset 0 (split_inclusive NEWLINE content).

Definition close_line (s : string) : string := if ends_with_char NEWLINE s then s else s +:+ newline.

Definition rdr_reference : string :=
  PV_MARKER +:+ newline +:+ PF_CONF_SOURCE_MARKER +:+ newline +:+ pf_conf_reference_directives.1 +:+ newline.
Definition load_reference : string :=
  PV_MARKER +:+ newline +:+ PF_CONF_SOURCE_MARKER +:+ newline +:+ pf_conf_reference_directives.2 +:+ newline.

Definition append_pf_reference (content reference : string) : string :=
  if is_empty (trim content) then reference
  else
    let candidate := close_line content in
    let candidate :=
      match first_pf_filter_rule_index candidate with
      | Some index => insert_str index rdr_reference candidate
      | None => candidate +:+ rdr_reference
      end in
    close_line candidate +:+ load_reference.

(** The lines that are PV's own, trimmed. *)
Definition is_pv_line (trimmed : string) : bool :=
  bool_decide (trimmed ∈ [PV_MARKER; PF_CONF_SOURCE_MARKER; PF_RDR_ANCHOR_DIRECTIVE; LEGACY_PF_ANCHOR_DIRECTIVE;
                          PF_LOAD_ANCHOR_DIRECTIVE]).

Definition remove_pf_reference_lines (content : string) : string :=
  str_concat ((λ line, line +:+ newline) <$> List.filter (λ line, negb (is_pv_line (trim line))) (lines content)).

(** ** Rules reported by pfctl *)

Definition is_loaded_pv_rdr_anchor_rule (line : string) : bool :=
  match strip_prefix PF_RDR_ANCHOR_DIRECTIVE line with
  | Some tail => is_empty tail || starts_with_char " " tail
  | None => false
  end.

Definition main_nat_rules_load_pv_rdr_anchor (content : string) : bool :=
  existsb is_loaded_pv_rdr_anchor_rule (active_lines content).

Fixpoint first_status (l : list string) : option bool :=
  match l with
  | [] => None
  | line :: l =>
      match strip_prefix "Status:" line with
      | None => first_status l
      | Some status =>
          match head (split_whitespace status) with
          | Some word => if bool_decide (word = "Enabled") then Some true
                         else if bool_decide (word = "Disabled") then Some false else None
          | None => None
          end
      end
  end.

(** *** [s.parse::<IpAddr>()] *)

Fixpoint span (p : ascii → bool) (s : string) : string * string :=
  match s with
  | "" => ("", "")
  | String c s' => if p c then let '(a, b) := span p s' in (String c a, b) else ("", s)
  end.

(** A number of at most [max] digits, as [Parser::read_number]; the rest. *)
Definition read_octet (s : string) : option string :=
  let '(digits, rest) := span is_ascii_digit s in
  if is_empty digits || (3 <? len digits) || (starts_with_char "0" digits && (1 <? len digits)) then None
  else n ← digits_value 0 digits; if (n <=? 255)%N then Some rest else None.
Definition read_group (s : string) : option string :=
  let '(digits, rest) := span is_ascii_hexdigit s in
  if is_empty digits || (4 <? len digits) then None else Some rest.

Definition read_ipv4 (s : string) : option string :=
  s ← read_octet s; s ← strip_prefix "." s; s ← read_octet s; s ← strip_prefix "." s;
  s ← read_octet s; s ← strip_prefix "." s; read_octet s.

(** [read_groups]: the groups read, whether the last two were an IPv4 address, the
    rest; [slots] are left after the first [i]. *)
Fixpoint read_groups (slots i : nat) (s : string) : nat * bool * string :=
  match slots with
  | 0 => (i, false, s)
  | S slots =>
      let after_separator := if i =? 0 then Some s else strip_prefix ":" s in
      match (if slots =? 0 then None else s ← after_separator; read_ipv4 s) with
      | Some rest => (i + 2, true, rest)
      | None => match (s ← after_separator; read_group s) with
                | Some rest => read_groups slots (S i) rest
                | None => (i, false, s)
                end
      end
  end.

Definition read_ipv6 (s : string) : option string :=
  let '(head_size, head_ipv4, rest) := read_groups 8 0 s in
  if head_size =? 8 then Some rest
  else if head_ipv4 then None
  else rest ← strip_prefix "::" rest; Some (read_groups (8 - (head_size + 1)) 0 rest).2.

Definition parses_as_ip_addr (s : string) : bool :=
  match read_ipv4 s with
  | Some rest => is_empty rest
  | None => match read_ipv6 s with Some rest => is_empty rest | None => false end
  end.

(** *** Targets *)

Inductive RedirectTarget : Type := ResolvedPort (port : N) | Unresolved.

Definition redirect_target (rule : string) : RedirectTarget :=
  match rsplit_once " -> " rule with
  | None => Unresolved
  | Some (_, target) =>
      match split_whitespace target with
      | address :: port_word :: port :: rest =>
          if negb (parses_as_ip_addr address) || negb (bool_decide (port_word = "port")) then Unresolved
          else
            match (if bool_decide (port = "=") then head rest else Some port) with
            | Some port => match parse_u16 port with Some n => ResolvedPort n | None => Unresolved end
            | None => Unresolved
            end
      | _ => Unresolved
      end
  end.

Definition inspect_redirect_targets (rules : string) : gset N * bool :=
  foldl (λ acc line,
    match redirect_target line with
    | ResolvedPort port => ({[port]} ∪ acc.1, acc.2)
    | Unresolved => (acc.1, true)
    end) (∅, false) (List.filter (starts_with "rdr ") (active_lines rules)).

Example ip_addresses : forallb parses_as_ip_addr
    ["127.0.0.1"; "0.0.0.0"; "::"; "::1"; "1::"; "1:2:3:4:5:6:7:8"; "::ffff:10.0.0.1"; "1:2:3:4:5:6:7::"; "fe80::1:ABCD"]
  && forallb (λ s, negb (parses_as_ip_addr s))
    [""; "127.0.0"; "127.0.0.01"; "127.0.0.256"; "1.2.3.4.5"; ":"; ":::"; "1::2::3"; "12345::"; "1:2:3:4:5:6:7:8:9"; "1.2.3.4::"; "g::"]
  = true.
Proof. reflexivity. Qed.

(** ** Facts about lines *)

(** What [active_pf_line] keeps of a trimmed line. *)
Definition keep_active (trimmed : string) : option string :=
  if is_empty trimmed || starts_with_char "#" trimmed then None else Some trimmed.

Lemma active_lines_trimmed content : active_lines content = omap keep_active (trimmed_lines content).
Proof.
  unfold active_lines, trimmed_lines. induction (lines content) as [|l ls IH]; [done|].
  cbn [fmap list_fmap omap list_omap]. unfold active_pf_line at 1, keep_active at 1. by rewrite IH.
Qed.

Lemma trimmed_unlines ls : Forall (λ l, lacks NEWLINE l = true) ls → trimmed_lines (unlines ls) = trim <$> ls.
Proof. apply trimmed_lines_concat. Qed.

Lemma fold_lines_app {S : Type} (f : S → string → option S) l l' s :
  fold_lines f (l ++ l') s = (s ← fold_lines f l s; fold_lines f l' s).
Proof. revert s. induction l as [|x l IH]; intros s; [done|]. cbn. destruct (f s x); [apply IH|done]. Qed.

(** Lines without PV directives leave the flags as they are. *)
Lemma embedded_skip l has : existsb is_pv_pf_conf_reference_directive l = false →
  fold_lines embedded_line l has = Some has.
Proof.
  revert has. induction l as [|x l IH]; intros has Hl; [done|]. cbn [existsb] in Hl. apply orb_false_iff in Hl as [Hx Hl].
  cbn [fold_lines]. assert (embedded_line has x = Some has) as ->; [|by apply IH].
  unfold embedded_line, directive_line. rewrite !bool_decide_eq_false_2, Hx; [done|..]; by intros ->.
Qed.

Definition filter_trimmed (trimmed : string) : bool :=
  match keep_active trimmed with Some line => is_pf_filter_rule line | None => false end.

Lemma first_filter_spec ls offset :
  match first_filter_offset offset ((λ l, l +:+ newline) <$> ls) with
  | Some index => ∃ before line after, ls = before ++ line :: after ∧ index = offset + len (unlines before)
      ∧ Forall (λ l, filter_trimmed (trim l) = false) before
  | None => Forall (λ l, filter_trimmed (trim l) = false) ls
  end.
Proof.
  revert offset. induction ls as [|l ls IH]; intros offset; [constructor|]. cbn [fmap list_fmap first_filter_offset].
  assert (filter_line (l +:+ newline) = filter_trimmed (trim l)) as ->.
  { unfold filter_line, active_pf_line, filter_trimmed, keep_active, newline. by rewrite trim_snoc. }
  destruct (filter_trimmed (trim l)) eqn:Hl; [by exists [], l, ls; split_and!; [|cbn; lia|constructor]|].
  specialize (IH (offset + len (l +:+ newline))).
  destruct (first_filter_offset _ _) as [index|]; [|by constructor].
  destruct IH as (before & line & after & -> & -> & Hb). exists (l :: before), line, after.
  split_and!; [done| |by constructor]. rewrite unlines_cons, (len_app _ (unlines before)). lia.
Qed.

Definition reference_lines (directive : string) : list string := [PV_MARKER; PF_CONF_SOURCE_MARKER; directive].

Lemma rdr_reference_lines : rdr_reference = unlines (reference_lines PF_RDR_ANCHOR_DIRECTIVE).
Proof. reflexivity. Qed.
Lemma load_reference_lines : load_reference = unlines (reference_lines PF_LOAD_ANCHOR_DIRECTIVE).
Proof. reflexivity. Qed.

Lemma close_line_unlines ls : ls ≠ [] → close_line (unlines ls) = unlines ls.
Proof.
  intros Hls. pose proof (closed_of_unlines ls) as Hc. unfold closed, close_line in *.
  destruct (ends_with_char NEWLINE (unlines ls)); [done|]. rewrite orb_false_r in Hc. apply is_empty_true in Hc.
  destruct ls as [|[|c l] ls]; done.
Qed.

Lemma close_line_spec s : s ≠ "" → closed NEWLINE (close_line s) = true ∧ trimmed_lines (close_line s) = trimmed_lines s.
Proof.
  intros Hs. unfold close_line. destruct (ends_with_char NEWLINE s) eqn:He.
  - unfold closed. rewrite He, orb_true_r. done.
  - split; [by apply closed_app|]. apply trimmed_lines_close. unfold closed. by rewrite He, (proj2 (is_empty_false s) Hs).
Qed.

(** What appending writes: the translation rule before the first filter rule, the
    load at the end, each under the two comments. *)
Lemma append_lines content reference : trim content ≠ "" → ∃ before after,
  append_pf_reference content reference
    = unlines (before ++ reference_lines PF_RDR_ANCHOR_DIRECTIVE ++ after ++ reference_lines PF_LOAD_ANCHOR_DIRECTIVE)
  ∧ trimmed_lines content = trim <$> before ++ after
  ∧ Forall (λ l, lacks NEWLINE l = true) (before ++ after)
  ∧ Forall (λ l, filter_trimmed (trim l) = false) before.
Proof.
  intros Hc. unfold append_pf_reference. rewrite (proj2 (is_empty_false _) Hc).
  assert (content ≠ "") as Hne by by intros ->.
  destruct (close_line_spec content Hne) as [Hclosed Htrim]. rewrite <-Htrim. set (candidate := close_line content) in *.
  destruct (closed_unlines _ Hclosed) as (ls & Hls & Hpieces & Hlack). unfold first_pf_filter_rule_index. rewrite Hpieces.
  rewrite Hls, trimmed_unlines, rdr_reference_lines, load_reference_lines by done. pose proof (first_filter_spec ls 0) as Hfirst.
  destruct (first_filter_offset _ _) as [index|].
  - destruct Hfirst as (before & line & after & -> & -> & Hb). rewrite Nat.add_0_l, unlines_app, insert_str_app, <-!unlines_app.
    exists before, (line :: after). split_and!; [|done|done|done].
    rewrite close_line_unlines, <-unlines_app by (by destruct before). by rewrite <-!app_assoc.
  - rewrite <-unlines_app. exists ls, []. rewrite app_nil_r. split_and!; [|done|done|done].
    rewrite close_line_unlines, <-unlines_app by (by destruct ls). by rewrite <-!app_assoc.
Qed.

(** ** Facts about the texts *)

Lemma trimmed_remove content :
  trimmed_lines (remove_pf_reference_lines content) = List.filter (λ t, negb (is_pv_line t)) (trimmed_lines content).
Proof.
  unfold remove_pf_reference_lines, trimmed_lines at 2. pose proof (lines_lack content) as Hl.
  rewrite trimmed_lines_concat by (apply Forall_forall; intros x [Hx _]%list_elem_of_In%List.filter_In;
    apply list_elem_of_In in Hx; by eapply Forall_forall in Hl).
  induction (lines content) as [|l ls IH]; [done|]. cbn [List.filter fmap list_fmap].
  inversion Hl; subst. destruct (negb (is_pv_line (trim l))); cbn [fmap list_fmap]; by rewrite <-IH.
Qed.

(** The user's own lines of a text. *)
Definition user_lines (content : string) : list string := List.filter (λ t, negb (is_pv_line t)) (trimmed_lines content).

(** A text whose rules do not name the PV anchor. *)
Definition names_pv_anchor (content : string) : bool :=
  existsb is_pv_pf_conf_reference_directive (active_lines content).

Definition trimmed_reference (directive : string) : list string := [PV_MARKER; PF_CONF_SOURCE_MARKER; directive].

Lemma append_trimmed content reference : trim content ≠ "" → ∃ before after,
  trimmed_lines (append_pf_reference content reference)
    = before ++ trimmed_reference PF_RDR_ANCHOR_DIRECTIVE ++ after ++ trimmed_reference PF_LOAD_ANCHOR_DIRECTIVE
  ∧ trimmed_lines content = before ++ after ∧ Forall (λ t, filter_trimmed t = false) before.
Proof.
  intros Hc. destruct (append_lines content reference Hc) as (before & after & -> & -> & Hlack & Hb).
  exists (trim <$> before), (trim <$> after). rewrite fmap_app. apply Forall_app in Hlack as [Hlb Hla].
  split_and!; [|done|by apply Forall_fmap]. rewrite trimmed_unlines; [by rewrite !fmap_app|].
  apply Forall_app_2; [done|]. apply Forall_app_2; [by repeat constructor|]. apply Forall_app_2; [done|by repeat constructor].
Qed.

(** Adding the reference to a [pf.conf] that has none of it. *)
Lemma append_embedded content reference : trim content ≠ "" → names_pv_anchor content = false →
  parse_embedded_pf_conf_reference (append_pf_reference content reference) = Some PfConfReferenceUnit.
Proof.
  intros Hc. unfold names_pv_anchor, parse_embedded_pf_conf_reference. rewrite !active_lines_trimmed.
  destruct (append_trimmed content reference Hc) as (before & after & -> & -> & _).
  rewrite !omap_app, existsb_app. intros [Hb Ha]%orb_false_iff.
  change (omap keep_active (trimmed_reference PF_RDR_ANCHOR_DIRECTIVE)) with [PF_RDR_ANCHOR_DIRECTIVE].
  change (omap keep_active (trimmed_reference PF_LOAD_ANCHOR_DIRECTIVE)) with [PF_LOAD_ANCHOR_DIRECTIVE].
  rewrite fold_lines_app, embedded_skip by done. cbn [mbind option_bind app fold_lines].
  change (embedded_line (false, false) PF_RDR_ANCHOR_DIRECTIVE) with (Some (true, false)). cbn [mbind option_bind].
  rewrite fold_lines_app, embedded_skip by done. reflexivity.
Qed.

Lemma user_append content reference : trim content ≠ "" →
  user_lines (append_pf_reference content reference) = user_lines content.
Proof.
  intros Hc. unfold user_lines. destruct (append_trimmed content reference Hc) as (before & after & -> & -> & _).
  rewrite !List.filter_app. change (List.filter _ (trimmed_reference PF_RDR_ANCHOR_DIRECTIVE)) with (@nil string).
  change (List.filter _ (trimmed_reference PF_LOAD_ANCHOR_DIRECTIVE)) with (@nil string). by rewrite app_nil_r.
Qed.

(** Adding the PV reference to a [pf.conf] that has rules of its own and none
    that names the PV anchor keeps every line of it in order; the redirect
    reference comes before the first filter rule (packet filter refuses translation
    rules after one) and the load at the end. The result is recognised as holding
    the reference under the PV marker, and removing PV's lines from it gives the
    user's lines back. *)
Theorem append_reference_spec content reference :
  trim content ≠ "" → names_pv_anchor content = false →
  let candidate := append_pf_reference content reference in
  parse_embedded_pf_conf_reference candidate = Some PfConfReferenceUnit
  ∧ (∃ before after,
       trimmed_lines candidate
         = before ++ trimmed_reference PF_RDR_ANCHOR_DIRECTIVE ++ after ++ trimmed_reference PF_LOAD_ANCHOR_DIRECTIVE
       ∧ trimmed_lines content = before ++ after
       ∧ Forall (λ t, filter_trimmed t = false) before)
  ∧ trimmed_lines (remove_pf_reference_lines candidate) = user_lines content.
Proof.
  intros Hc Hn. cbv zeta. split_and!; [by apply append_embedded|by apply append_trimmed|].
  rewrite trimmed_remove. by apply user_append.
Qed.

(** A configuration of the host as shipped, shortened. *)
Definition sample_pf_conf : string :=
  unlines ["# com.apple ruleset"; "scrub-anchor " +:+ String QUOTE ("com.apple/*" +:+ String QUOTE "");
           "nat-anchor " +:+ String QUOTE ("com.apple/*" +:+ String QUOTE ""); "";
           "  anchor " +:+ String QUOTE ("com.apple/*" +:+ String QUOTE ""); "pass out all"].

Lemma append_reference_spec_witness :
  names_pv_anchor sample_pf_conf = false
  ∧ parse_embedded_pf_conf_reference (append_pf_reference sample_pf_conf reference_render) = Some PfConfReferenceUnit.
Proof.
  split; [vm_compute; reflexivity|].
  apply (append_reference_spec sample_pf_conf reference_render); [|vm_compute; reflexivity].
  intros H. apply (f_equal is_empty) in H. vm_compute in H. discriminate H.
Defined.

(** ** The anchor, written and read *)

Definition anchor_lines (http https : string) : list string :=
  [redirect_prefix "80" +:+ http; redirect_prefix "443" +:+ https].

(** What one line of an anchor adds. *)
Lemma anchor_line_Some ports line ports' : anchor_line ports line = Some ports' ↔
  ∃ text n, parse_u16 text = Some n
    ∧ ((line = redirect_prefix "80" +:+ text ∧ ports.1 = None ∧ ports' = (Some n, ports.2))
       ∨ (line = redirect_prefix "443" +:+ text ∧ ports.2 = None ∧ ports' = (ports.1, Some n))).
Proof.
  unfold anchor_line, set_http, set_https. split.
  - destruct (strip_prefix (redirect_prefix "80") line) as [text|] eqn:H80.
    + apply strip_prefix_Some in H80 as ->. destruct (parse_u16 text) as [n|] eqn:Hn; [|done]. cbn [mbind option_bind].
      destruct (ports.1) eqn:Hp; [done|]. intros [= <-]. exists text, n. split; [done|]. by left.
    + destruct (strip_prefix (redirect_prefix "443") line) as [text|] eqn:H443; [|done].
      apply strip_prefix_Some in H443 as ->. destruct (parse_u16 text) as [n|] eqn:Hn; [|done]. cbn [mbind option_bind].
      destruct (ports.2) eqn:Hp; [done|]. intros [= <-]. exists text, n. split; [done|]. by right.
  - intros (text & n & Hn & [(-> & Hp & ->)|(-> & Hp & ->)]).
    + rewrite strip_prefix_app, Hn. cbn [mbind option_bind]. by rewrite Hp.
    + change (strip_prefix (redirect_prefix "80") (redirect_prefix "443" +:+ text)) with (@None string).
      rewrite strip_prefix_app, Hn. cbn [mbind option_bind]. by rewrite Hp.
Qed.

Lemma parse_anchor_lines content c : parse_anchor content = Some c ↔ ∃ http https,
  parse_u16 http = Some (http_port c) ∧ parse_u16 https = Some (https_port c)
  ∧ active_lines content ≡ₚ anchor_lines http https.
Proof.
  unfold parse_anchor. split.
  - destruct (fold_lines _ _ _) as [[http https]|] eqn:Hf; [|done]. cbn [mbind option_bind fst snd].
    destruct (length (active_lines content) =? 2) eqn:Hlen; [|done]. apply Nat.eqb_eq in Hlen.
    destruct http as [http|], https as [https|]; try done. intros [= <-]. cbn [http_port https_port].
    destruct (active_lines content) as [|a [|b [|]]]; try done. cbn [fold_lines] in Hf.
    destruct (anchor_line (None, None) a) as [p|] eqn:Ha; [|done]. cbn [mbind option_bind] in Hf.
    destruct (anchor_line p b) as [p'|] eqn:Hb; [|done]. cbn [mbind option_bind] in Hf. injection Hf as ->.
    apply anchor_line_Some in Ha as (t & n & Hn & Ha), Hb as (t' & n' & Hn' & Hb).
    destruct Ha as [(-> & _ & ->)|(-> & _ & ->)], Hb as [(-> & ? & [= -> ->])|(-> & ? & [= -> ->])]; try done.
    + by exists t, t'.
    + exists t', t. split_and!; [done..|]. apply perm_swap.
  - intros (http & https & Hhttp & Hhttps & Hperm). symmetry in Hperm.
    assert (∀ p n line, parse_u16 line = Some n → p.1 = None →
      anchor_line p (redirect_prefix "80" +:+ line) = Some (Some n, p.2)) as H80
      by (intros p n line ??; apply anchor_line_Some; exists line, n; split; [done|by left]).
    assert (∀ p n line, parse_u16 line = Some n → p.2 = None →
      anchor_line p (redirect_prefix "443" +:+ line) = Some (p.1, Some n)) as H443
      by (intros p n line ??; apply anchor_line_Some; exists line, n; split; [done|by right]).
    destruct c as [h s]. cbn [http_port https_port] in *.
    apply Permutation_length_2_inv in Hperm as [-> | ->]; cbn [fold_lines length Nat.eqb].
    + rewrite (H80 _ h) by done. cbn [mbind option_bind]. by rewrite (H443 _ s).
    + rewrite (H443 _ s) by done. cbn [mbind option_bind]. by rewrite (H80 _ h).
Qed.

Lemma parse_u16_pretty n : (n ≤ U16_MAX)%N → parse_u16 (pretty n) = Some n.
Proof.
  intros Hn. unfold parse_u16. rewrite parse_u64_pretty by (unfold U16_MAX, U64_MAX in *; lia).
  cbn [mbind option_bind]. by rewrite (proj2 (N.leb_le _ _) Hn).
Qed.

(** A redirect line is its own trimmed text, on one line. *)
Lemma redirect_line_text public n : public ∈ ["80"; "443"] →
  let line := redirect_prefix public +:+ pretty (n : N) in lacks NEWLINE line = true ∧ trim line = line ∧ keep_active line = Some line.
Proof.
  intros Hp line. destruct (pretty_N_digits n) as (Hne & Hall & _ & _).
  assert (str_all is_ascii (redirect_prefix public) = true ∧ lacks NEWLINE (redirect_prefix public) = true
    ∧ ∀ t, str_head (redirect_prefix public +:+ t) = Some "r"%char) as (Ha & Hl & Hh)
    by (repeat (apply elem_of_cons in Hp as [->|Hp]; [done|]); by apply elem_of_nil in Hp).
  destruct (str_last_nonempty _ Hne) as [d Hd]. pose proof (str_all_last _ _ _ Hall Hd) as Hdig.
  apply str_last_Some in Hd as [t Ht]. assert (is_graph d = true) as Hg.
  { revert Hdig. apply (implb_true_iff (is_ascii_digit d) (is_graph d)).
    by apply (all_bytes_spec (λ d, implb (is_ascii_digit d) (is_graph d))). }
  split_and!.
  - unfold line, lacks. rewrite str_all_app. unfold lacks in Hl. rewrite Hl. by apply (str_all_lacks is_ascii_digit).
  - apply (trim_ends _ "r"%char d); [|by apply Hh| |done|done].
    + unfold line. rewrite str_all_app, Ha. cbn. apply (str_all_impl is_ascii_digit); [|done].
      intros c Hc. revert Hc. apply (implb_true_iff (is_ascii_digit c) (is_ascii c)).
      by apply (all_bytes_spec (λ d, implb (is_ascii_digit d) (is_ascii d))).
    + unfold line. rewrite Ht, str_app_assoc. apply str_last_app.
  - unfold keep_active. specialize (Hh (pretty n)). fold line in Hh. unfold starts_with_char. rewrite Hh. by destruct line.
Qed.

Lemma active_render_anchor c : active_lines (render_anchor c) = anchor_lines (pretty (http_port c)) (pretty (https_port c)).
Proof.
  assert (render_anchor c = unlines ([PV_MARKER; PF_ANCHOR_SOURCE_MARKER]
    ++ anchor_lines (pretty (http_port c)) (pretty (https_port c)))) as ->.
  { unfold render_anchor, anchor_lines. rewrite !unlines_app, !unlines_cons. cbn [unlines fmap list_fmap str_concat].
    by rewrite ?str_app_nil_r, <-?str_app_assoc. }
  destruct (redirect_line_text "80" (http_port c) ltac:(by left)) as (Hl1 & Ht1 & Hk1).
  destruct (redirect_line_text "443" (https_port c) ltac:(right; by left)) as (Hl2 & Ht2 & Hk2).
  rewrite active_lines_trimmed, trimmed_unlines by (repeat constructor; done).
  cbn [app fmap list_fmap anchor_lines]. rewrite Ht1, Ht2. cbn [omap list_omap]. by rewrite Hk1, Hk2.
Qed.

(** A text is read as the PV anchor exactly when its active lines are the two
    PV redirects, for port 80 and for port 443, once each in either order and
    nothing else; and the anchor written for two ports is read back as them. *)
Theorem parse_anchor_spec content c :
  (parse_anchor content = Some c ↔ ∃ http https,
     parse_u16 http = Some (http_port c) ∧ parse_u16 https = Some (https_port c)
     ∧ active_lines content ≡ₚ anchor_lines http https)
  ∧ ((http_port c ≤ U16_MAX)%N → (https_port c ≤ U16_MAX)%N → parse_anchor (render_anchor c) = Some c).
Proof.
  split; [apply parse_anchor_lines|]. intros Hhttp Hhttps. apply parse_anchor_lines.
  exists (pretty (http_port c)), (pretty (https_port c)). rewrite active_render_anchor.
  by split_and!; [apply parse_u16_pretty..|].
Qed.

Lemma parse_anchor_spec_witness :
  parse_anchor (render_anchor {| http_port := 48080; https_port := 65535 |}) = Some {| http_port := 48080; https_port := 65535 |}.
Proof. apply (parse_anchor_spec ""); vm_compute; discriminate. Defined.
