(* ===== verification/StateFs.v ===== *)
(** * PV's own files ([state/src/fs.rs]): atomic writes and copies, and the rest of the
    host's calls they use

    Permissions and owners are not part of the tree: a call that sets or validates
    them finds the entry or fails. *)

From S2P Require Import Prelude RustStr Paths HostFs.

(** [StateError::Filesystem], the only error these functions give over a tree without
    permissions; callers look at its source. *)
Record FsError := { fs_path : path; fs_source : IoError }.

Definition fs_error (p : path) (source : IoError) : FsError := {| fs_path := p; fs_source := source |}.
(** Its [Display]. *)
Definition fs_error_display (e : FsError) : string :=
  "filesystem error at " +:+ path_str (fs_path e) +:+ ": " +:+ io_text (fs_source e).

Definition file_name (p : path) : option string := last p.

(** ** [std::fs], continued *)

(** Where opening [p] leads, through links. *)
Fixpoint final_path (n : nat) (fs : Fs) (p : path) : option path :=
  match fs !! p, n with
  | Some (Link target), S n => final_path n fs (link_path p target)
  | Some (Link _), O => None
  | _, _ => Some p
  end.

(** Opening for writing: the file that is truncated or created. *)
Definition open_write (p : path) (fs : Fs) : result IoError path :=
  match final_path MAX_LINKS fs p with
  | None => Err EINVAL
  | Some q =>
      match fs !! q with
      | Some Dir => Err EISDIR
      | _ => if parent_is_dir q fs then Ok q else Err ENOENT
      end
  end.

Definition read_node (p : path) (fs : Fs) : result IoError string :=
  match resolve MAX_LINKS fs p with
  | Some (File content) => Ok content
  | Some Dir => Err EISDIR
  | _ => Err ENOENT
  end.

Section host.
Context `{Host}.

Definition std_read_to_string (p : path) : IO IoError string := query (read_node p).

(** What reaches the file before a failure is a prefix, and it may be created empty. *)
Definition write_partial (p : path) (content : string) (f : Fault) (fs : Fs) : Fs :=
  match open_write p fs with
  | Ok q => if fault_reached f p then <[q := File (str_take (fault_count f) content)]> fs else fs
  | Err _ => fs
  end.

Definition std_write (p : path) (content : string) : IO IoError unit :=
  syscall (λ fs, q ← open_write p fs; Ok (tt, <[q := File content]> fs)) (write_partial p content).

Definition std_copy (a b : path) : IO IoError unit :=
  syscall (λ fs, content ← read_node a fs; q ← open_write b fs; Ok (tt, <[q := File content]> fs))
    (λ f fs, match read_node a fs with Ok content => write_partial b content f fs | Err _ => fs end).

Definition std_metadata (p : path) : IO IoError node := query (λ fs, ok_or (resolve MAX_LINKS fs p) ENOENT).
Definition std_set_permissions (p : path) : IO IoError unit :=
  query (λ fs, if option_bool (resolve MAX_LINKS fs p) then Ok tt else Err ENOENT).

(** Opening for appending, which creates the file. *)
Definition appended (q : path) (fs : Fs) : Fs := match fs !! q with Some _ => fs | None => <[q := File ""]> fs end.
Definition std_open_append (p : path) : IO IoError unit :=
  syscall (λ fs, q ← open_write p fs; Ok (tt, appended q fs))
    (λ f fs, match open_write p fs with Ok q => if fault_reached f p then appended q fs else fs | Err _ => fs end).

(** [OpenOptions::create_new]: an existing entry is refused. *)
Definition std_create_new (p : path) : IO IoError unit :=
  syscall (λ fs, if option_bool (fs !! p) then Err EEXIST
                 else if parent_is_dir p fs then Ok (tt, <[p := File ""]> fs) else Err ENOENT) (λ _ fs, fs).

(** ** [state/src/fs.rs] *)

Definition at_path {A : Type} (p : path) (m : IO IoError A) : IO FsError A := io_map_err (fs_error p) m.

Definition create_dir_all (p : path) : IO FsError unit := at_path p (std_create_dir_all p).
Definition rename (from to : path) : IO FsError unit := at_path to (std_rename from to).
Definition remove_file (p : path) : IO FsError unit := at_path p (std_remove_file p).
Definition delete_file (p : path) : IO FsError unit := remove_file p.
Definition delete_dir_all (p : path) : IO FsError unit := at_path p (std_remove_dir_all p).
Definition read_to_string (p : path) : IO FsError string := at_path p (std_read_to_string p).
Definition read_link (p : path) : IO FsError string := at_path p (std_read_link p).
Definition symlink_file (target : string) (link : path) : IO FsError unit := at_path link (std_symlink target link).
Definition sync_directory (p : path) : IO FsError unit := at_path p (std_sync p).
Definition copy_file (source target : path) : IO FsError unit := at_path target (std_copy source target).

(** [Err(Filesystem { source, .. }) if source.kind() == NotFound => Ok(missing)]. *)
Definition or_missing {A : Type} (missing : A) (m : IO FsError A) : IO FsError A := λ w,
  match m w with
  | (Ok a, w) => (Ok a, w)
  | (Err e, w) => match io_kind (fs_source e) with NotFound => (Ok missing, w) | OtherKind => (Err e, w) end
  end.

Definition remove_file_if_exists (p : path) : IO FsError unit := or_missing tt (remove_file p).
Definition path_entry_exists (p : path) : IO FsError bool :=
  or_missing false (_ ← at_path p (std_symlink_metadata p); mret true).
Definition path_is_file (p : path) : IO FsError bool :=
  or_missing false (n ← at_path p (std_symlink_metadata p); mret (match n with File _ => true | _ => false end)).
Definition path_is_directory (p : path) : IO FsError bool :=
  or_missing false (n ← at_path p (std_symlink_metadata p); mret (match n with Dir => true | _ => false end)).
Definition read_dir_paths (p : path) : IO FsError (list path) :=
  or_missing [] (entries ← at_path p (std_read_dir p); mret ((λ entry, p ++ [entry.1]) <$> entries)).

Definition set_mode (p : path) : IO FsError unit := at_path p (std_set_permissions p).
Definition validate_mode (p : path) : IO FsError unit := _ ← at_path p (std_metadata p); mret tt.
Definition validate_owner (p : path) : IO FsError unit := _ ← at_path p (std_metadata p); mret tt.

Definition secure_file (p : path) : IO FsError unit := _ ← set_mode p; _ ← validate_mode p; validate_owner p.
Definition secure_sensitive_file : path → IO FsError unit := secure_file.
Definition secure_executable_file : path → IO FsError unit := secure_file.

Definition ensure_user_dir (p : path) : IO FsError unit :=
  _ ← create_dir_all p; _ ← set_mode p; _ ← validate_mode p; validate_owner p.

Definition ensure_parent_dir (p : path) : IO FsError unit :=
  match parent p with Some dir => ensure_user_dir dir | None => mret tt end.

Definition sync_parent_directory (p : path) : IO FsError unit :=
  match parent p with Some dir => sync_directory dir | None => mret tt end.

Definition temporary_path_at (counter : nat) (p : path) : path :=
  with_file_name (default "pv" (file_name p) +:+ "." +:+ show_nat process_id +:+ "." +:+ show_nat counter +:+ ".tmp") p.
Definition temporary_path_for (p : path) : IO FsError path := counter ← fetch_counter; mret (temporary_path_at counter p).

Definition write_atomically (p : path) (content : string) : IO FsError unit :=
  temporary_path ← temporary_path_for p;
  _ ← at_path temporary_path (std_write temporary_path content);
  _ ← secure_sensitive_file temporary_path;
  at_path p (std_rename temporary_path p).

Definition write_sensitive_file (p : path) (content : string) : IO FsError unit :=
  _ ← ensure_parent_dir p;
  _ ← write_atomically p content;
  secure_sensitive_file p.

Definition open_append_file (p : path) : IO FsError unit :=
  _ ← ensure_parent_dir p;
  _ ← at_path p (std_open_append p);
  secure_sensitive_file p.

Definition create_new_file (p : path) : IO FsError unit := _ ← ensure_parent_dir p; at_path p (std_create_new p).

(** The first error is the one returned. *)
Definition or_else_remove {A : Type} (m : IO FsError A) (temporary_path : path) : IO FsError A := λ w,
  match m w with
  | (Ok a, w) => (Ok a, w)
  | (Err e, w) => (Err e, (remove_file_if_exists temporary_path w).2)
  end.

Definition copy_file_atomically (source target : path) : IO FsError unit :=
  _ ← ensure_parent_dir target;
  temporary_path ← temporary_path_for target;
  _ ← or_else_remove (_ ← copy_file source temporary_path; rename temporary_path target) temporary_path;
  sync_parent_directory target.
End host.

(** ** What the calls keep *)

Definition others (C : path → Prop) (s0 s : Fs) : Prop := ∀ (q : path), ¬ C q → s !! q = s0 !! q.

Definition is_link (n : option node) : bool := match n with Some (Link _) => true | _ => false end.

Lemma final_path_plain n fs p : is_link (fs !! p) = false → final_path n fs p = Some p.
Proof. intros Hl. destruct n; cbn; by destruct (fs !! p) as [[]|]. Qed.

Lemma resolve_plain n fs p : is_link (fs !! p) = false → resolve n fs p = fs !! p.
Proof. intros Hl. destruct n; cbn; by destruct (fs !! p) as [[]|]. Qed.

Lemma open_write_plain p fs q : is_link (fs !! p) = false → open_write p fs = Ok q → q = p.
Proof.
  intros Hl. unfold open_write. rewrite final_path_plain by done. destruct (fs !! p) as [[]|]; try done;
    destruct (parent_is_dir p fs); congruence.
Qed.

(** ** Triples that tell the errors *)

Section triples.
Context {E : Type}.
Implicit Types (X : E → Fs → Prop).

Definition triple {A : Type} (P : Fs → Prop) (m : IO E A) (Q : A → Fs → Prop) X : Prop :=
  ∀ w, P (files w) → match m w with (Ok a, w') => Q a (files w') | (Err e, w') => X e (files w') end.

Lemma triple_bind {A B : Type} P (m : IO E A) (f : A → IO E B) R Q X :
  triple P m R X → (∀ a, triple (R a) (f a) Q X) → triple P (m ≫= f) Q X.
Proof. intros Hm Hf w Hw. specialize (Hm w Hw). unfold mbind, io_bind. destruct (m w) as [[a|e] w']; [by apply Hf|done]. Qed.

Lemma triple_seq {A B : Type} P R (m : IO E A) (k : IO E B) Q X :
  triple P m (λ _, R) X → triple R k Q X → triple P (m ≫= λ _, k) Q X.
Proof. intros Hm Hk. eapply triple_bind; [done|]. by intros ?. Qed.

Lemma triple_ret {A : Type} (a : A) (Q : A → Fs → Prop) X : triple (Q a) (mret a) Q X.
Proof. by intros w Hw. Qed.

Lemma triple_fail {A : Type} e (Q : A → Fs → Prop) X : triple (X e) (io_fail e) Q X.
Proof. by intros w Hw. Qed.

Lemma triple_pre {A : Type} (P P' : Fs → Prop) (m : IO E A) Q X : (∀ s, P s → P' s) → triple P' m Q X → triple P m Q X.
Proof. intros HP Hm w Hw. apply Hm, HP, Hw. Qed.

Lemma triple_pure {A : Type} (φ : Prop) P (m : IO E A) Q X : (φ → triple P m Q X) → triple (λ s, φ ∧ P s) m Q X.
Proof. intros Hm w [Hφ HP]. by apply Hm. Qed.

(** Errors that say nothing of their own. *)
Lemma triple_hoare {A : Type} P (m : IO E A) Q (Y : Fs → Prop) X : hoare P m Q Y → (∀ e s, Y s → X e s) → triple P m Q X.
Proof. intros Hm HX w Hw. specialize (Hm w Hw). destruct (m w) as [[a|e] w']; [done|by apply HX]. Qed.

End triples.

(** A step whose failure is looked at. *)
Lemma triple_try_told {E F A B : Type} P (m : IO F A) (f : result F A → IO E B) R Y Q X : triple P m R Y →
  (∀ a, triple (R a) (f (Ok a)) Q X) → (∀ e, triple (Y e) (f (Err e)) Q X) → triple P (io_try m ≫= f) Q X.
Proof.
  intros Hm Hok Herr w Hw. specialize (Hm w Hw). unfold mbind, io_bind, io_try. destruct (m w) as [[a|e] w']; [by apply Hok|by apply Herr].
Qed.

Lemma triple_try {E F A B : Type} P (m : IO F A) (f : result F A → IO E B) R Y Q X : hoare P m R Y →
  (∀ a, triple (R a) (f (Ok a)) Q X) → (∀ e, triple Y (f (Err e)) Q X) → triple P (io_try m ≫= f) Q X.
Proof. intros Hm. by apply triple_try_told. Qed.

Lemma hoare_try {E F A : Type} (P : Fs → Prop) (m : IO E A) Q X (Z : Fs → Prop) : hoare P m Q X →
  hoare P (io_try (F := F) m) (λ r s, match r with Ok a => Q a s | Err _ => X s end) Z.
Proof. intros Hm w Hw. specialize (Hm w Hw). unfold io_try. by destruct (m w) as [[]]. Qed.

Section spec.
Context `{Host}.

Lemma changes_at_path {A : Type} (C : path → Prop) p (m : IO IoError A) : changes C m → changes C (at_path p m).
Proof. apply changes_map_err. Qed.

Lemma changes_or_missing {A : Type} (C : path → Prop) (a : A) (m : IO FsError A) : changes C m → changes C (or_missing a m).
Proof.
  intros Hm w q Hq. specialize (Hm w q Hq). unfold or_missing. destruct (m w) as [[x|[p [[] t]]] w']; done.
Qed.

Lemma changes_secure_file (C : path → Prop) p : changes C (secure_file p).
Proof.
  unfold secure_file, set_mode, validate_mode, validate_owner.
  repeat first [apply changes_at_path, changes_query | apply changes_bind; [|intros ?] | apply changes_ret].
Qed.

Lemma changes_ensure_parent_dir p : changes (λ q, q ∈ ancestors (removelast p)) (ensure_parent_dir p).
Proof.
  unfold ensure_parent_dir. destruct p as [|x p]; [apply changes_ret|]. cbn [parent]. unfold ensure_user_dir.
  apply changes_bind; [apply changes_at_path, changes_std_create_dir_all|intros _u]. apply changes_secure_file.
Qed.

(** Writing to a path that is not a link: the text or, on failure, any content. *)
Lemma hoare_std_write (P : Fs → Prop) p content : (∀ s, P s → is_link (s !! p) = false) →
  hoare P (std_write p content) (λ _ s', ∃ s, P s ∧ s' = <[p := File content]> s)
    (λ s', P s' ∨ ∃ s c, P s ∧ s' = <[p := File c]> s).
Proof.
  intros Hl. apply hoare_syscall.
  - intros s [] s' Hs. destruct (open_write p s) as [q|] eqn:Ho; [|done]. cbn. intros [= <-].
    apply open_write_plain in Ho as ->; [by exists s|by apply Hl].
  - intros s Hs. by left.
  - intros f s Hs. unfold write_partial. destruct (open_write p s) as [q|] eqn:Ho; [|by left].
    destruct (fault_reached f p); [|by left]. apply open_write_plain in Ho as ->; [|by apply Hl]. right. by exists s, (str_take (fault_count f) content).
Qed.

(** Renaming replaces the target in one step. *)
Lemma hoare_std_rename (P : Fs → Prop) a b :
  hoare P (std_rename a b) (λ _ s', ∃ s, P s ∧ s' = moved a b s ∪ without b (without a s)) P.
Proof.
  apply hoare_syscall; [|done|done]. intros s [] s' Hs [_ ->]%std_rename_ok. by exists s.
Qed.

(** A call whose errors leave what held before it. *)
Lemma hoare_err {E A : Type} (P X : Fs → Prop) (m : IO E A) Q : (∀ s, P s → X s) → hoare P m Q P → hoare P m Q X.
Proof. intros HX. by apply hoare_conseq. Qed.

(** Looking at the entry itself; none counts as [missing]. *)
Lemma hoare_entry {A : Type} (P X : Fs → Prop) (p : path) (missing : A) (g : node → A) : (∀ s, P s → X s) →
  hoare P (or_missing missing (n ← at_path p (std_symlink_metadata p); mret (g n)))
    (λ a s, a = match s !! p with Some n => g n | None => missing end ∧ P s) X.
Proof.
  intros HX w Hw. unfold or_missing, at_path, io_map_err, mbind, io_bind, std_symlink_metadata, query, syscall.
  destruct (fault_at (clock w)); cbn; [by apply HX|]. by destruct (files w !! p) as [n|] eqn:Hn; cbn; rewrite Hn.
Qed.

(** ** Atomic writes *)

Definition temporary (p t : path) : Prop := ∃ n, t = temporary_path_at n p.

(** The paths a write to [p] may change: the directories above, its temporary file, itself. *)
Definition touched (p q : path) : Prop :=
  q ∈ ancestors (removelast p) ∨ (∃ t, temporary p t ∧ under t q) ∨ under p q.

Lemma temporary_at (dir : path) (name : string) n :
  temporary_path_at n (dir ++ [name]) = dir ++ [name +:+ "." +:+ show_nat process_id +:+ "." +:+ show_nat n +:+ ".tmp"].
Proof. unfold temporary_path_at, with_file_name, file_name. by rewrite last_snoc, removelast_last. Qed.

Lemma temporary_name_ne (name rest : string) : name +:+ "." +:+ rest ≠ name.
Proof. intros Hn. apply (f_equal len) in Hn. rewrite len_app in Hn. cbn in Hn. lia. Qed.

Lemma not_under_sibling (dir : path) (x y : string) : x ≠ y → ¬ under (dir ++ [x]) (dir ++ [y]).
Proof. intros Hxy [r Hr]. rewrite <-app_assoc in Hr. apply app_inv_head in Hr. cbn in Hr. congruence. Qed.

Lemma child_not_ancestor (dir : path) (x : string) : dir ++ [x] ∉ ancestors dir.
Proof. intros [[r Hr] _]%elem_of_ancestors. apply (f_equal length) in Hr. rewrite !length_app in Hr. cbn in Hr. lia. Qed.

(** A file of a directory and its temporaries are apart from those of another name
    that is not a prefix of it up to a dot. *)
Lemma sibling_untouched (dir : path) (x y : string) : x ≠ y → (∀ rest, x ≠ y +:+ "." +:+ rest) → ¬ touched (dir ++ [y]) (dir ++ [x]).
Proof.
  intros Hxy Hrest [Ha|[(t & [n ->] & Hu)|Hu]].
  - rewrite removelast_last in Ha. by apply child_not_ancestor in Ha.
  - rewrite temporary_at in Hu. eapply not_under_sibling; [|exact Hu]. intros He. by eapply Hrest.
  - eapply not_under_sibling; [|exact Hu]. by intros ->.
Qed.

Lemma temporary_untouched (dir : path) (x y : string) t : (∀ rest, x +:+ "." +:+ rest ≠ y) →
  (∀ rest rest', x +:+ "." +:+ rest ≠ y +:+ "." +:+ rest') → temporary (dir ++ [x]) t → ¬ touched (dir ++ [y]) t.
Proof.
  intros Hxy Hrest [n ->]. rewrite temporary_at. apply sibling_untouched; [apply Hxy|apply Hrest].
Qed.

(** While the temporary file is written, the target is as it was. *)
Definition waiting (p : path) (s0 s : Fs) : Prop :=
  s !! p = s0 !! p ∧ others (touched p) s0 s ∧ ∀ t, temporary p t → t = p ∨ is_link (s !! t) = false.

(** The target is as it was, or whole. *)
Definition whole (p : path) (content : string) (s0 s : Fs) : Prop :=
  (s !! p = s0 !! p ∨ s !! p = Some (File content)) ∧ others (touched p) s0 s.

Definition wrote (p : path) (content : string) (s0 s : Fs) : Prop :=
  s !! p = Some (File content) ∧ others (touched p) s0 s.

Section write.
Variables (dir : path) (name content : string) (s0 : Fs).
Let p : path := dir ++ [name].

Lemma temporary_apart t : temporary p t → t ≠ p ∧ ¬ under t p ∧ ¬ under p t ∧ t ∉ ancestors (removelast p).
Proof.
  intros [n ->]. unfold p. rewrite temporary_at, removelast_last. pose proof (temporary_name_ne name) as Hn.
  split_and!; [|by apply not_under_sibling|apply not_under_sibling; by symmetry|apply child_not_ancestor].
  intros [_ Hx]%app_inj_tail. by eapply Hn.
Qed.

Lemma waiting_whole s : waiting p s0 s → whole p content s0 s.
Proof. intros (Hp & Ho & _). by split; [left|]. Qed.

Lemma waiting_parent : hoare (waiting p s0) (ensure_parent_dir p) (λ _, waiting p s0) (whole p content s0).
Proof.
  eapply hoare_changes; [apply changes_ensure_parent_dir| |apply waiting_whole].
  intros s s' Hs' (Hp & Ho & Hl). split_and!.
  - rewrite Hs'; [done|]. unfold p. rewrite removelast_last. apply child_not_ancestor.
  - intros q Hq. rewrite Hs', Ho; [done..|]. intros ?. apply Hq. by left.
  - intros t Ht. destruct (temporary_apart t Ht) as (_ & _ & _ & Ha). rewrite Hs' by done. by apply Hl.
Qed.

Lemma insert_temporary t c s : temporary p t → waiting p s0 s → waiting p s0 (<[t := File c]> s).
Proof.
  intros Ht (Hp & Ho & Hl). destruct (temporary_apart t Ht) as (Hne & _). split_and!.
  - by rewrite lookup_insert_ne.
  - intros q Hq. rewrite lookup_insert_ne; [by apply Ho|]. intros <-. apply Hq. right; left. exists t. split; [done|apply under_refl].
  - intros u Hu. destruct (decide (u = t)) as [->|]; [right; by rewrite lookup_insert_eq|].
    rewrite lookup_insert_ne by done. by apply Hl.
Qed.

(** Writing the temporary file, however far it gets. *)
Lemma write_temporary_spec t : temporary p t → hoare (waiting p s0) (at_path t (std_write t content))
  (λ _ s, waiting p s0 s ∧ s !! t = Some (File content)) (waiting p s0).
Proof.
  intros Ht. apply hoare_map_err. destruct (temporary_apart t Ht) as (Hne & _).
  eapply hoare_conseq; [by intros s Hs; exact Hs| | |apply (hoare_std_write (waiting p s0))].
  - cbn. intros _ s (s1 & Hs & ->). split; [by apply insert_temporary|by rewrite lookup_insert_eq].
  - intros s [Hs|(s1 & c & Hs & ->)]; [done|by apply insert_temporary].
  - intros s (_ & _ & Hl). destruct (Hl t Ht); done.
Qed.

(** Moving the whole temporary file onto the target. *)
Lemma promote_temporary t : temporary p t → hoare (λ s, waiting p s0 s ∧ s !! t = Some (File content))
  (at_path p (std_rename t p)) (λ _, wrote p content s0) (λ s, waiting p s0 s ∧ s !! t = Some (File content)).
Proof.
  intros Ht. apply hoare_map_err. eapply hoare_conseq; [by intros s Hs; exact Hs| |by intros s Hs; exact Hs|apply hoare_std_rename].
  cbn. intros _ s (s1 & [(Hp & Ho & Hl) Hc] & ->). split.
  - rewrite lookup_rename, decide_True by apply under_refl. by rewrite drop_all, app_nil_r.
  - intros q Hq. rewrite lookup_rename, !decide_False; [by apply Ho| |].
    + intros Hu. apply Hq. right; left. by exists t.
    + intros Hu. apply Hq. by right; right.
Qed.

Lemma secure_spec (P : Fs → Prop) t : hoare P (secure_file t) (λ _, P) P.
Proof. apply hoare_look; [apply changes_secure_file|done]. Qed.

Lemma hoare_counter (P X : Fs → Prop) : hoare (E := FsError) P fetch_counter (λ _, P) X.
Proof. intros w Hw. done. Qed.

Lemma write_sensitive_file_hoare :
  hoare (waiting p s0) (write_sensitive_file p content) (λ _, wrote p content s0) (whole p content s0).
Proof.
  unfold write_sensitive_file. eapply hoare_seq; [apply waiting_parent|].
  apply (hoare_seq _ (wrote p content s0)).
  - eapply hoare_conseq; [by intros s Hs; exact Hs|by intros ? s Hs; exact Hs|apply waiting_whole|].
    unfold write_atomically. eapply (hoare_bind _ _ _ (λ t s, temporary p t ∧ waiting p s0 s)).
    { unfold temporary_path_for. eapply hoare_bind; [apply hoare_counter|]. intros n w Hw. split; [by exists n|done]. }
    intros t. apply hoare_pure. intros Ht. eapply hoare_seq; [by apply write_temporary_spec|].
    eapply (hoare_conseq _ _ _ _ _ _ (λ s, waiting p s0 s ∧ s !! t = Some (File content)));
      [by intros s Hs; exact Hs|by intros ? s Hs; exact Hs|by intros s [Hs _]|].
    eapply hoare_seq; [apply secure_spec|by apply promote_temporary].
  - eapply (hoare_conseq _ _ _ _ _ _ (wrote p content s0)); [by intros s Hs; exact Hs|by intros ? s Hs; exact Hs| |apply secure_spec].
    intros s [Hp Ho]. by split; [right|].
Qed.
(** *** Copies *)

Variable source : path.
Hypothesis source_apart : ¬ touched p source.

Definition copying (s : Fs) : Prop := waiting p s0 s ∧ s0 !! source = Some (File content).

Lemma copying_source s : copying s → read_node source s = Ok content.
Proof.
  intros [(_ & Ho & _) Hs]. unfold read_node. by rewrite resolve_plain, (Ho source source_apart), Hs; [|rewrite (Ho source), Hs].
Qed.

Lemma copy_temporary_spec t : temporary p t → hoare copying (copy_file source t)
  (λ _ s, waiting p s0 s ∧ s !! t = Some (File content)) (waiting p s0).
Proof.
  intros Ht. apply hoare_map_err. destruct (temporary_apart t Ht) as (Hne & _). apply hoare_syscall.
  - intros s [] s' Hc. rewrite (copying_source s Hc). cbn. destruct Hc as [Hw _].
    destruct (open_write t s) as [q|] eqn:Hq; [|done]. cbn. intros [= <-].
    apply open_write_plain in Hq as ->; [|by destruct Hw as (_ & _ & Hl); destruct (Hl t Ht)].
    split; [by apply insert_temporary|by rewrite lookup_insert_eq].
  - by intros s [Hw _].
  - intros f s Hc. rewrite (copying_source s Hc). destruct Hc as [Hw _]. unfold write_partial.
    destruct (open_write t s) as [q|] eqn:Hq; [|done]. destruct (fault_reached f t); [|done].
    apply open_write_plain in Hq as ->; [by apply insert_temporary|by destruct Hw as (_ & _ & Hl); destruct (Hl t Ht)].
Qed.

Lemma delete_temporary t s s' : temporary p t → (∀ q, q ≠ t → s' !! q = s !! q) → whole p content s0 s → whole p content s0 s'.
Proof.
  intros Ht Hs' [Hp Ho]. destruct (temporary_apart t Ht) as (Hne & _). split; [by rewrite Hs'|].
  intros q Hq. rewrite Hs'; [by apply Ho|]. intros ->. apply Hq. right; left. exists t. split; [done|apply under_refl].
Qed.

Lemma copy_file_atomically_hoare :
  hoare copying (copy_file_atomically source p) (λ _, wrote p content s0) (whole p content s0).
Proof.
  unfold copy_file_atomically. apply (hoare_seq _ copying).
  { intros w [Hw Hs]. specialize (waiting_parent w Hw). by destruct (ensure_parent_dir p w) as [[]]. }
  eapply (hoare_bind _ _ _ (λ t s, temporary p t ∧ copying s)).
  { unfold temporary_path_for. eapply hoare_bind; [apply hoare_counter|]. intros n w Hw. split; [by exists n|done]. }
  intros t. apply hoare_pure. intros Ht. apply (hoare_seq _ (wrote p content s0)).
  - assert (hoare copying (_ ← copy_file source t; rename t p) (λ _, wrote p content s0) (whole p content s0)) as Hm.
    { eapply hoare_seq.
      - eapply hoare_conseq; [by intros s Hs; exact Hs|by intros ? s Hs; exact Hs|apply waiting_whole|by apply copy_temporary_spec].
      - eapply (hoare_conseq _ _ _ _ _ _ (λ s, waiting p s0 s ∧ s !! t = Some (File content)));
          [by intros s Hs; exact Hs|by intros ? s Hs; exact Hs| |by apply promote_temporary].
        intros s [Hw _]. by apply waiting_whole. }
    intros w Hw. specialize (Hm w Hw). unfold or_else_remove.
    destruct ((_ ← copy_file source t; rename t p) w) as [[a|e] w1]; [done|].
    eapply delete_temporary; [done| |done]. intros q Hq.
    apply (changes_or_missing (λ q, q = t)); [|done]. apply changes_at_path, changes_std_remove_file.
  - eapply (hoare_conseq _ _ _ _ _ _ (wrote p content s0)); [by intros s Hs; exact Hs|by intros ? s Hs; exact Hs| |].
    { intros s [Hp Ho]. by split; [right|]. }
    apply hoare_look; [|done]. unfold sync_parent_directory. destruct (parent p); [apply changes_at_path, changes_query|apply changes_ret].
Qed.
End write.

Definition plain_temporaries (p : path) (s : Fs) : Prop := ∀ t, temporary p t → is_link (s !! t) = false.

Lemma write_sensitive_file_whole (p : path) content w : p ≠ [] → plain_temporaries p (files w) →
  match write_sensitive_file p content w with
  | (Ok _, w') => wrote p content (files w) (files w')
  | (Err _, w') => whole p content (files w) (files w')
  end.
Proof.
  intros Hp Hl. destruct (exists_last Hp) as (dir & name & ->).
  apply (write_sensitive_file_hoare dir name content (files w)). split_and!; [done..|]. intros t Ht. right. by apply Hl.
Qed.

(** Writing a sensitive file is atomic: whatever call fails, the file holds what it
    held before or the whole new text, and after a success the new text; only the
    directories above it, its temporary file and itself are touched.  (No name of a
    temporary file of the target may be a link: the write would follow it.) *)
Theorem write_sensitive_file_atomic (p : path) content w :
  p ≠ [] → plain_temporaries p (files w) →
  match write_sensitive_file p content w with
  | (Ok _, w') => files w' !! p = Some (File content) ∧ others (touched p) (files w) (files w')
  | (Err _, w') => (files w' !! p = files w !! p ∨ files w' !! p = Some (File content))
      ∧ others (touched p) (files w) (files w')
  end.
Proof. intros Hp Hl. exact (write_sensitive_file_whole p content w Hp Hl). Qed.

(** Copying a file is atomic: the target is as it was or whole, and after a success
    it is the source's text; a file that is not among the ones touched is never changed. *)
Theorem copy_file_atomically_spec (source target : path) content w :
  target ≠ [] → (∀ t, temporary target t → is_link (files w !! t) = false) →
  ¬ touched target source → files w !! source = Some (File content) →
  match copy_file_atomically source target w with
  | (Ok _, w') => files w' !! target = Some (File content) ∧ others (touched target) (files w) (files w')
  | (Err _, w') => (files w' !! target = files w !! target ∨ files w' !! target = Some (File content))
      ∧ others (touched target) (files w) (files w')
  end.
Proof.
  intros Hp Hl Hs Hc. destruct (exists_last Hp) as (dir & name & ->).
  apply (copy_file_atomically_hoare dir name content (files w) source); [done|]. split; [|done].
  split_and!; [done..|]. intros t Ht. right. by apply Hl.
Qed.
End spec.

(** ** Confinement

    A computation is confined to [C] when, as long as no path of [L] is a link, it
    changes nothing outside [C] and makes no link in [L]: a link would lead what is
    written elsewhere. *)

Section confined.
Context `{Host}.
Variables C L : path → Prop.

Definition linkless (s : Fs) : Prop := ∀ q, L q → is_link (s !! q) = false.
Definition within (s0 s : Fs) : Prop := others C s0 s ∧ linkless s.
Definition confined {E A : Type} (m : IO E A) : Prop := ∀ s0, hoare (within s0) m (λ _, within s0) (within s0).

Lemma within_refl s : linkless s → within s s.
Proof. by split. Qed.

Lemma confined_ret {E A : Type} (a : A) : confined (E := E) (mret a).
Proof. by intros s0 w Hw. Qed.
Lemma confined_fail {E A : Type} (e : E) : confined (A := A) (io_fail e).
Proof. by intros s0 w Hw. Qed.
Lemma confined_lift {E A : Type} (r : result E A) : confined (io_lift r).
Proof. intros s0 w Hw. by destruct r. Qed.
Lemma confined_bind {E A B : Type} (m : IO E A) (f : A → IO E B) : confined m → (∀ a, confined (f a)) → confined (m ≫= f).
Proof. intros Hm Hf s0. eapply hoare_bind; [apply Hm|intros a; apply Hf]. Qed.
Lemma confined_map_err {E F A : Type} (f : E → F) (m : IO E A) : confined m → confined (io_map_err f m).
Proof. intros Hm s0. apply hoare_map_err, Hm. Qed.
Lemma confined_try {E F A : Type} (m : IO E A) : confined m → confined (io_try (F := F) m).
Proof. intros Hm s0 w Hw. specialize (Hm s0 w Hw). unfold io_try. by destruct (m w) as [[]]. Qed.
Lemma confined_missing {A : Type} (a : A) (m : IO FsError A) : confined m → confined (or_missing a m).
Proof. intros Hm s0 w Hw. specialize (Hm s0 w Hw). unfold or_missing. by destruct (m w) as [[x|[p [[] t]]] w']. Qed.

Lemma confined_if_exists p (m : IO IoError unit) : confined m → confined (if_exists p m).
Proof. intros Hm s0 w Hw. specialize (Hm s0 w Hw). unfold if_exists. by destruct (m w) as [[[]|[[] t]] w']. Qed.

(** Whatever changes paths of [C] that are not in [L]. *)
Lemma confined_changes {E A : Type} (D : path → Prop) (m : IO E A) :
  changes D m → (∀ q, D q → C q) → (∀ q, D q → ¬ L q) → confined m.
Proof.
  intros Hm HC HL s0. apply (hoare_changes D); [done| |done].
  intros s s' Heq [Ho Hl]. split.
  - intros q Hq. rewrite Heq; [by apply Ho|]. intros Hd. by apply Hq, HC.
  - intros q Hq. rewrite Heq; [by apply Hl|]. intros Hd. by apply (HL q).
Qed.
Lemma confined_look {E A : Type} (m : IO E A) : changes (λ _, False) m → confined m.
Proof. intros Hm. by apply (confined_changes (λ _, False)). Qed.

Lemma within_insert s0 s p n : C p → is_link (Some n) = false → within s0 s → within s0 (<[p := n]> s).
Proof.
  intros HC Hn [Ho Hl]. split.
  - intros q Hq. rewrite lookup_insert_ne; [by apply Ho|]. by intros <-.
  - intros q Hq. rewrite lookup_insert. case_decide; [done|by apply Hl].
Qed.
Lemma within_delete s0 s p : C p → within s0 s → within s0 (delete p s).
Proof.
  intros HC [Ho Hl]. split.
  - intros q Hq. rewrite lookup_delete_ne; [by apply Ho|]. by intros <-.
  - intros q Hq. rewrite lookup_delete. case_decide; [done|by apply Hl].
Qed.
Lemma within_make_dirs s0 s l : (∀ q, q ∈ l → C q) → within s0 s → within s0 (make_dirs l s).
Proof.
  intros HC. unfold make_dirs. revert s. induction l as [|p l IH]; intros s Hs; [done|]. cbn. apply IH.
  - intros q Hq. apply HC. by right.
  - apply within_insert; [apply HC; by left|done..].
Qed.

Lemma confined_dirs p : (∀ q, q ∈ ancestors p → C q) → confined (std_create_dir_all p).
Proof.
  intros HC s0. assert (∀ fs x, x ∈ List.filter (missing_dir fs) (ancestors p) → C x) as Hf.
  { intros fs x Hx. rewrite list_elem_of_In, filter_In, <-list_elem_of_In in Hx. apply HC, Hx. }
  apply hoare_syscall; [|done|].
  - intros s [] s' Hs. destruct (existsb _ _); [done|]. intros [= <-]. apply within_make_dirs; [apply Hf|done].
  - intros f s Hs. destruct (existsb _ _); [done|]. apply within_make_dirs; [|done]. intros q Hq. apply (Hf s). by eapply subseteq_take.
Qed.

Lemma confined_write p content : C p → L p → confined (std_write p content).
Proof.
  intros HC HL s0. eapply hoare_conseq; [by intros s Hs; exact Hs| | |apply (hoare_std_write (within s0)); intros s [_ Hl]; by apply Hl].
  - intros _ s (s1 & Hs & ->). by apply within_insert.
  - intros s [Hs|(s1 & c & Hs & ->)]; [done|by apply within_insert].
Qed.

Lemma confined_rename a b : (∀ r, C (a ++ r)) → (∀ r, C (b ++ r)) → (∀ r, L (a ++ r)) → confined (std_rename a b).
Proof.
  intros Ha Hb HL s0. eapply hoare_conseq; [by intros s Hs; exact Hs| |by intros s Hs; exact Hs|apply (hoare_std_rename (within s0))].
  cbn. intros _ s (s1 & [Ho Hl] & ->). split; intros q Hq; rewrite lookup_rename.
  - rewrite !decide_False; [by apply Ho|intros [r ->]; by apply Hq..].
  - case_decide; [apply Hl, HL|]. case_decide; [done|by apply Hl].
Qed.

Lemma confined_remove_file p : C p → confined (std_remove_file p).
Proof.
  intros HC s0. apply hoare_syscall; [|done..]. intros s [] s' Hs. destruct (s !! p) as [[]|]; intros [= <-]; by apply within_delete.
Qed.
(** The directory, what is above it, and no link below it. *)
Record region (dir : path) : Prop := {
  region_above q : q ∈ ancestors dir → C q;
  region_below q : under dir q → C q ∧ L q;
}.

Lemma temporary_inside dir name t : temporary (dir ++ [name]) t → under dir t.
Proof. intros [n ->]. rewrite temporary_at. apply under_app. Qed.

Lemma ensure_dir_confined p : (∀ q, q ∈ ancestors p → C q) → confined (ensure_user_dir p).
Proof.
  intros HC. unfold ensure_user_dir. apply confined_bind; [by apply confined_map_err, confined_dirs|intros _u].
  apply confined_look, (changes_secure_file (λ _, False)).
Qed.

Lemma region_rename dir t p : region dir → under dir t → under dir p → confined (std_rename t p).
Proof. intros Hr Ht Hp. apply confined_rename; intros r; apply (region_below dir Hr); by eapply under_trans; [|apply under_app]. Qed.

(** Writing a file: the directories above it, the file and its temporaries. *)
Lemma write_sensitive_confined_at dir name content : (∀ q, q ∈ ancestors dir → C q) →
  (∀ t q, t = dir ++ [name] ∨ temporary (dir ++ [name]) t → under t q → C q ∧ L q) → confined (write_sensitive_file (dir ++ [name]) content).
Proof.
  intros Ha Hr. unfold write_sensitive_file, ensure_parent_dir. rewrite parent_below, app_nil_r.
  apply confined_bind; [by apply ensure_dir_confined|intros _u].
  apply confined_bind; [|intros _v; apply confined_look, changes_secure_file].
  intros s0. unfold write_atomically. eapply (hoare_bind _ _ _ (λ t s, temporary (dir ++ [name]) t ∧ within s0 s)).
  { unfold temporary_path_for. eapply hoare_bind; [apply hoare_counter|]. intros n w Hw. split; [by exists n|done]. }
  intros t. apply hoare_pure. intros Ht. destruct (Hr t t (or_intror Ht) (under_refl t)). revert s0.
  apply confined_bind; [by apply confined_map_err, confined_write|intros _v].
  apply confined_bind; [apply confined_look, changes_secure_file|intros _w].
  apply confined_map_err, confined_rename; intros r; eapply Hr; [by right|apply under_app|by left|apply under_app|by right|apply under_app].
Qed.

Lemma write_sensitive_confined dir name content : region dir → confined (write_sensitive_file (dir ++ [name]) content).
Proof.
  intros Hr. apply write_sensitive_confined_at; [apply (region_above dir Hr)|]. intros t q Ht Hq. apply (region_below dir Hr).
  eapply under_trans; [|exact Hq]. destruct Ht as [->|Ht]; [apply under_app|by eapply temporary_inside].
Qed.
End confined.

(** A wider region. *)
Lemma confined_weaken (C C' L : path → Prop) {E A : Type} (m : IO E A) : (∀ q, C q → C' q) → confined C L m → confined C' L m.
Proof.
  intros HC Hm s0 w [Ho Hl]. specialize (Hm (files w) w (within_refl C L _ Hl)).
  assert (∀ s, within C L (files w) s → within C' L s0 s) as Hstep.
  { intros s [Ho' Hl']. split; [|done]. intros q Hq. rewrite Ho', Ho; [done|done|auto]. }
  destruct (m w) as [[a|e] w']; by apply Hstep.
Qed.

(** What depends on nothing in [C] is kept. *)
Lemma confined_keeps (C L : path → Prop) {E A : Type} (m : IO E A) (P : Fs → Prop) : confined C L m →
  (∀ s s', (∀ q, ¬ C q → s' !! q = s !! q) → P s → P s') →
  hoare (λ s, P s ∧ linkless L s) m (λ _ s, P s ∧ linkless L s) (λ s, P s ∧ linkless L s).
Proof.
  intros Hm HP w [Hp Hl]. specialize (Hm (files w) w (within_refl C L _ Hl)).
  assert (∀ s, within C L (files w) s → P s ∧ linkless L s) as Hstep.
  { intros s [Ho' Hl']. split; [|done]. by apply (HP (files w)). }
  destruct (m w) as [[a|e] w']; by apply Hstep.
Qed.

(** ** A sample write *)

(** A host whose [n]-th call fails, after a prefix of what it writes. *)
Definition faulty_host (n : option nat) : Host :=
  {| fault_at := λ k, if bool_decide (Some k = n) then Some {| fault_text := "No space left on device (os error 28)";
       fault_count := 3; fault_reached := λ _, true |} else None; process_id := 7 |}.

Definition sample_target : path := ["home"; ".pv"; "daemon.token"].
Definition sample_files : World :=
  {| files := list_to_map [(["home"], Dir); (["home"; ".pv"], Dir); (sample_target, File "old"); (["home"; "copy"], File "whole")];
     clock := 0; counter := 0 |}.

Lemma sample_no_links (h : Host) t : temporary (H := h) sample_target t → is_link (files sample_files !! t) = false.
Proof.
  intros _. destruct (files sample_files !! t) as [n|] eqn:Hn; [|done].
  assert (map_Forall (λ _ n, is_link (Some n) = false) (files sample_files)) as Hall by (apply (bool_decide_eq_true_1 _); vm_compute; reflexivity).
  exact (Hall t n Hn).
Qed.

Lemma write_sensitive_file_atomic_witness :
  files (write_sensitive_file (H := faulty_host None) sample_target "new" sample_files).2 !! sample_target = Some (File "new")
  ∧ (files (write_sensitive_file (H := faulty_host (Some 4)) sample_target "new" sample_files).2 !! sample_target = Some (File "old")
     ∨ files (write_sensitive_file (H := faulty_host (Some 4)) sample_target "new" sample_files).2 !! sample_target = Some (File "new")).
Proof.
  pose proof (write_sensitive_file_atomic (H := faulty_host None) sample_target "new" sample_files ltac:(done) (sample_no_links _)) as Hw.
  pose proof (write_sensitive_file_atomic (H := faulty_host (Some 4)) sample_target "new" sample_files ltac:(done) (sample_no_links _)) as Hf.
  destruct (write_sensitive_file (H := faulty_host None) sample_target "new" sample_files) as [[[]|e] w1] eqn:E1;
    [|exfalso; vm_compute in E1; discriminate E1].
  destruct (write_sensitive_file (H := faulty_host (Some 4)) sample_target "new" sample_files) as [[[]|e] w2] eqn:E2;
    [exfalso; vm_compute in E2; discriminate E2|].
  split; [apply Hw|apply Hf].
Defined.
