(* ===== verification/AppRelease.v ===== *)
(** * PV's own releases ([state/src/app_release.rs]): a directory per version under
    [bin/releases], and [bin/pv], the link to the active one *)

From S2P Require Import Prelude RustStr Paths HostFs StateTypes StateFs.

(** ** Versions *)

Definition parse_version_component (component version : string) : result StateError unit :=
  if is_empty component || (1 <? len component) && starts_with_char "0" component then Err (InvalidAppReleaseVersion version)
  else match parse_u64 component with Some _ => Ok tt | None => Err (InvalidAppReleaseVersion version) end.

Definition validate_app_release_version (version : string) : result StateError unit :=
  if contains "/" version || contains BACKSLASH version then Err (InvalidAppReleaseVersion version)
  else
    match split "." version with
    | [major; minor; patch] =>
        _ ← parse_version_component major version;
        _ ← parse_version_component minor version;
        parse_version_component patch version
    | _ => Err (InvalidAppReleaseVersion version)
    end.

Record AppReleaseInstall := { ai_version : string; ai_binary_path : path }.

(** [StateError::Filesystem]. *)
Definition state_fs_error (e : FsError) : StateError := StateTypes.Filesystem (path_str (fs_path e)) (io_text (fs_source e)).
Definition fs {A : Type} (m : IO FsError A) : IO StateError A := io_map_err state_fs_error m.

Definition invalid_pointer (p : path) (target : string) : StateError := InvalidAppReleasePointer (path_str p) target.

(** ** The layout

    [bin] is the directory of [PvPaths::bin]. *)
Section layout.
Context `{Host} (bin : path).

Definition app_releases_dir : path := bin ++ ["releases"].
Definition app_release_binary (version : string) : path := app_releases_dir ++ [version; "pv"].
Definition active_pv_binary : path := bin ++ ["pv"].

Definition install_release_binary (version : string) (source : path) : IO StateError AppReleaseInstall :=
  _ ← io_lift (validate_app_release_version version);
  let binary_path := app_release_binary version in
  _ ← fs (copy_file_atomically source binary_path);
  _ ← fs (secure_executable_file binary_path);
  mret {| ai_version := version; ai_binary_path := binary_path |}.

Definition temporary_active_symlink : IO StateError path :=
  counter ← fetch_counter; mret (temporary_path_at counter active_pv_binary).

Definition activate_release (version : string) : IO StateError unit :=
  _ ← io_lift (validate_app_release_version version);
  let release_binary := app_release_binary version in
  is_file ← fs (path_is_file release_binary);
  if negb is_file then io_fail (AppReleaseMissing version (path_str release_binary))
  else
    temporary_path ← temporary_active_symlink;
    _ ← fs (remove_file_if_exists temporary_path);
    _ ← fs (symlink_file ("releases/" +:+ version +:+ "/pv") temporary_path);
    _ ← fs (rename temporary_path active_pv_binary);
    fs (sync_directory bin).

(** The version a pointer names. *)
Definition pointer_version (target_text : string) : option string :=
  rest ← strip_prefix "releases/" target_text; strip_suffix "/pv" rest.

Definition active_release : IO StateError (option string) :=
  present ← fs (path_entry_exists active_pv_binary);
  if negb (present : bool) then mret None
  else
    target_text ← fs (read_link active_pv_binary);
    match pointer_version target_text with
    | None => io_fail (invalid_pointer active_pv_binary target_text)
    | Some version =>
        _ ← io_lift (validate_app_release_version version);
        is_file ← fs (path_is_file (bin ++ split "/" target_text));
        if (is_file : bool) then mret (Some version) else io_fail (invalid_pointer active_pv_binary target_text)
    end.

Fixpoint prune_loop (active_version previous_version : string) (releases : list path) : IO StateError unit :=
  match releases with
  | [] => mret tt
  | release_path :: releases =>
      _ ← (match file_name release_path with
           | None => mret tt
           | Some version =>
               if bool_decide (version = active_version) || bool_decide (version = previous_version) then mret tt
               else fs (delete_dir_all release_path)
           end);
      prune_loop active_version previous_version releases
  end.

Definition prune_releases (previous_version : string) : IO StateError unit :=
  _ ← io_lift (validate_app_release_version previous_version);
  active ← active_release;
  match active with
  | None => mret tt
  | Some active_version =>
      present ← fs (path_entry_exists app_releases_dir);
      if negb present then mret tt
      else
        releases ← fs (read_dir_paths app_releases_dir);
        prune_loop active_version previous_version releases
  end.

Definition remove_release (version : string) : IO StateError unit :=
  _ ← io_lift (validate_app_release_version version);
  fs (or_missing tt (delete_dir_all (app_releases_dir ++ [version]))).
End layout.

(** ** The active release *)

Section facts.
Context `{Host} (bin : path).

(** The pointer leads to a binary that is there. *)
Definition active (version : string) (s : Fs) : Prop :=
  s !! active_pv_binary bin = Some (Link ("releases/" +:+ version +:+ "/pv"))
  ∧ ∃ content, s !! app_release_binary bin version = Some (File content).

(** What switching the pointer may touch: it and its temporary names. *)
Definition pointer_paths (q : path) : Prop :=
  under (active_pv_binary bin) q ∨ ∃ t, temporary (active_pv_binary bin) t ∧ under t q.

Lemma releases_apart x r q : under (bin ++ "releases" :: r) q → x ≠ "releases" → ¬ under (bin ++ [x]) q.
Proof. intros Hr Hx. eapply under_siblings; [|exact Hr]. by symmetry. Qed.

Lemma pointer_temporary n : temporary_path_at n (active_pv_binary bin)
  = bin ++ ["pv." +:+ show_nat process_id +:+ "." +:+ show_nat n +:+ ".tmp"].
Proof. unfold active_pv_binary. by rewrite temporary_at. Qed.

(** Nothing under [releases] is among them. *)
Lemma releases_not_pointer q : under (app_releases_dir bin) q → ¬ pointer_paths q.
Proof.
  intros Hq [Hp|(t & [n ->] & Ht)]; [by eapply (releases_apart "pv" [])|].
  rewrite pointer_temporary in Ht. by apply (releases_apart _ [] q Hq) in Ht.
Qed.

Lemma app_release_under version : under (app_releases_dir bin) (app_release_binary bin version).
Proof. apply under_app. Qed.

Definition is_file (n : option node) : bool := match n with Some (File _) => true | _ => false end.

Lemma hoare_is_file (P X : Fs → Prop) p : (∀ s, P s → X s) →
  hoare P (fs (path_is_file p)) (λ b s, b = is_file (s !! p) ∧ P s) X.
Proof. intros HX. by apply hoare_map_err, hoare_entry. Qed.

Lemma hoare_present (P X : Fs → Prop) p : (∀ s, P s → X s) →
  hoare P (fs (path_entry_exists p)) (λ b s, b = option_bool (s !! p) ∧ P s) X.
Proof. intros HX. by apply hoare_map_err, hoare_entry. Qed.

Lemma hoare_read_link (P X : Fs → Prop) p : (∀ s, P s → X s) →
  hoare P (fs (read_link p)) (λ t s, s !! p = Some (Link t) ∧ P s) X.
Proof.
  intros HX. apply hoare_map_err, hoare_map_err. eapply hoare_conseq; [by intros s Hs; exact Hs| |exact HX|by apply hoare_query].
  cbn. intros t s [Ht Hs]. split; [|done]. destruct (s !! p) as [[]|]; try done. by injection Ht as ->.
Qed.
(** *** Switching the pointer *)

Section switch.
Variables (version : string) (s0 : Fs).
Let pointer : path := active_pv_binary bin.

Definition unswitched (s : Fs) : Prop := s !! pointer = s0 !! pointer ∧ others pointer_paths s0 s.
Definition switched (s : Fs) : Prop :=
  s !! pointer = Some (Link ("releases/" +:+ version +:+ "/pv")) ∧ others pointer_paths s0 s
  ∧ is_file (s0 !! app_release_binary bin version) = true.
Definition either (s : Fs) : Prop := unswitched s ∨ switched s.

Lemma pointer_temporary_apart t : temporary pointer t → t ≠ pointer ∧ ¬ under t pointer ∧ ¬ under pointer t.
Proof. intros Ht. by destruct (temporary_apart bin "pv" t Ht) as (? & ? & ? & _). Qed.

Lemma unswitched_binary s : unswitched s → s !! app_release_binary bin version = s0 !! app_release_binary bin version.
Proof. intros [_ Ho]. apply Ho, releases_not_pointer, app_release_under. Qed.

Lemma unswitched_changes t s s' : temporary pointer t → (∀ q, q ≠ t → s' !! q = s !! q) → unswitched s → unswitched s'.
Proof.
  intros Ht Hs' [Hp Ho]. destruct (pointer_temporary_apart t Ht) as (Hne & _). split; [by rewrite Hs'|].
  intros q Hq. rewrite Hs'; [by apply Ho|]. intros ->. apply Hq. right. exists t. split; [done|apply under_refl].
Qed.

Lemma clear_temporary t : temporary pointer t →
  hoare unswitched (fs (remove_file_if_exists t)) (λ _, unswitched) either.
Proof.
  intros Ht. eapply (hoare_changes (λ q, q = t)).
  - apply changes_map_err, changes_or_missing, changes_at_path, changes_std_remove_file.
  - intros s s' Hs'. by eapply unswitched_changes.
  - by left.
Qed.

Lemma link_temporary t target : temporary pointer t →
  hoare unswitched (fs (symlink_file target t)) (λ _ s, unswitched s ∧ s !! t = Some (Link target)) either.
Proof.
  intros Ht. apply hoare_map_err, hoare_map_err, hoare_syscall; [|by left|by left].
  intros s [] s' Hs. destruct (option_bool (s !! t)); [done|]. destruct (parent_is_dir t s); [|done]. intros [= <-].
  split; [|by rewrite lookup_insert_eq]. eapply unswitched_changes; [done| |done].
  intros q Hq. by rewrite lookup_insert_ne by congruence.
Qed.

Lemma promote_pointer t : temporary pointer t → is_file (s0 !! app_release_binary bin version) = true →
  hoare (λ s, unswitched s ∧ s !! t = Some (Link ("releases/" +:+ version +:+ "/pv"))) (fs (rename t pointer))
    (λ _, switched) either.
Proof.
  intros Ht Hf. apply hoare_map_err, hoare_map_err.
  apply hoare_err; [by intros s [Hs _]; left|].
  eapply hoare_conseq; [by intros s Hs; exact Hs| |by intros s Hs; exact Hs|apply hoare_std_rename].
  cbn. intros _ s (s1 & [[Hp Ho] Hl] & ->). split_and!; [| |done].
  - rewrite lookup_rename, decide_True by apply under_refl. by rewrite drop_all, app_nil_r.
  - intros q Hq. rewrite lookup_rename, !decide_False; [by apply Ho| |].
    + intros Hu. apply Hq. right. by exists t.
    + intros Hu. apply Hq. by left.
Qed.

Lemma activate_hoare : hoare unswitched (activate_release bin version)
  (λ _ s, validate_app_release_version version = Ok tt ∧ switched s) either.
Proof.
  unfold activate_release. eapply hoare_bind; [apply hoare_lift; by left|]. intros []. apply hoare_pure. intros Hv.
  eapply hoare_bind; [by apply hoare_is_file; left|]. intros b. apply hoare_pre with (λ s, (b = true →
    is_file (s0 !! app_release_binary bin version) = true) ∧ unswitched s).
  { intros s [-> Hs]. split; [|done]. by rewrite unswitched_binary. }
  apply hoare_pure. intros Hb. destruct b; cbn [negb]; [|eapply hoare_pre; [|apply hoare_fail]; by left].
  specialize (Hb eq_refl). eapply (hoare_bind _ _ _ (λ t s, temporary pointer t ∧ unswitched s)).
  { unfold temporary_active_symlink. eapply (hoare_bind _ _ _ (λ _, unswitched)); [by intros w Hw|].
    intros n w Hw. split; [by exists n|done]. }
  intros t. apply hoare_pure. intros Ht. eapply hoare_seq; [by apply clear_temporary|].
  eapply hoare_bind; [by apply link_temporary|]. intros _u. eapply hoare_seq; [by apply promote_pointer|].
  apply hoare_err; [by right|]. eapply hoare_conseq; [by intros s Hs; exact Hs| |by intros s Hs; exact Hs|
    apply (hoare_look switched); [apply changes_map_err, changes_at_path, changes_query|by intros s Hs; exact Hs]].
  by intros ? s Hs.
Qed.
End switch.

(** Activating a release switches the pointer in one step, wherever a call fails:
    a success leaves it leading to the binary of that version, which is there; an
    error leaves it as it was or already switched; nothing but the pointer and its
    temporary names is touched, so no release is. *)
Theorem activate_release_spec version w :
  match activate_release bin version w with
  | (Ok _, w') => validate_app_release_version version = Ok tt ∧ active version (files w')
      ∧ others pointer_paths (files w) (files w')
  | (Err _, w') => (files w' !! active_pv_binary bin = files w !! active_pv_binary bin ∨ active version (files w'))
      ∧ others pointer_paths (files w) (files w')
  end.
Proof.
  pose proof (activate_hoare version (files w) w ltac:(by split)) as Ha.
  assert (∀ s, switched version (files w) s → active version s) as Hact.
  { intros s (Hp & Ho & Hf). split; [done|]. rewrite Ho by apply releases_not_pointer, app_release_under.
    destruct (files w !! _) as [[c| |]|]; try done. by exists c. }
  destruct (activate_release bin version w) as [[[]|e] w'].
  - destruct Ha as [Hv Hs]. split_and!; [done|by apply Hact|apply Hs].
  - destruct Ha as [[Hp Ho]|Hs]; [by split; [left|]|]. split; [right; by apply Hact|apply Hs].
Qed.

(** ** Reading the pointer *)

Definition pointer_text (version : string) : string := "releases/" +:+ version +:+ "/pv".

Lemma pointer_version_Some target version : pointer_version target = Some version ↔ target = pointer_text version.
Proof.
  unfold pointer_version, pointer_text. split.
  - destruct (strip_prefix "releases/" target) as [rest|] eqn:Hp; [|done]. cbn. intros Hs.
    apply strip_prefix_Some in Hp as ->. by apply strip_suffix_Some in Hs as ->.
  - intros ->. rewrite strip_prefix_app. cbn. by apply strip_suffix_Some.
Qed.

Lemma valid_version_lacks version : validate_app_release_version version = Ok tt → lacks "/" version = true.
Proof.
  unfold validate_app_release_version. rewrite contains_lacks. by destruct (lacks "/" version).
Qed.

Lemma pointer_components version : lacks "/" version = true →
  bin ++ split "/" (pointer_text version) = app_release_binary bin version.
Proof.
  intros Hv. unfold pointer_text, app_release_binary, app_releases_dir.
  change ("releases/" +:+ version +:+ "/pv") with ("releases" +:+ String "/" (version +:+ String "/" "pv")).
  by rewrite !split_app_sep, <-app_assoc.
Qed.

Definition reads (o : option string) (s : Fs) : Prop :=
  match o with
  | None => s !! active_pv_binary bin = None
  | Some version => validate_app_release_version version = Ok tt ∧ active version s
  end.

Lemma active_release_hoare (P : Fs → Prop) : hoare P (active_release bin) (λ o s, reads o s ∧ P s) P.
Proof.
  unfold active_release. eapply hoare_bind; [by apply hoare_present|]. intros b.
  destruct b; cbn [negb].
  2:{ intros w [Hb Hw]. split; [|done]. cbn. by destruct (files w !! active_pv_binary bin). }
  apply (hoare_pre _ P); [by intros s [_ Hs]|]. eapply hoare_bind; [by apply hoare_read_link|]. intros target.
  destruct (pointer_version target) as [version|] eqn:Ht; [|apply (hoare_pre _ P); [by intros s [_ Hs]|apply hoare_fail]].
  apply pointer_version_Some in Ht as ->. eapply hoare_bind; [apply hoare_lift; by intros s [_ Hs]|]. intros [].
  apply hoare_pure. intros Hv. rewrite pointer_components by by apply valid_version_lacks.
  eapply hoare_bind; [apply hoare_is_file; by intros s [_ Hs]|]. intros b. destruct b.
  - intros w (Hf & Hl & Hw). split; [|done]. split; [done|]. split; [done|].
    destruct (files w !! app_release_binary bin version) as [[c| |]|]; try done. by exists c.
  - apply (hoare_pre _ P); [by intros s (_ & _ & Hs)|apply hoare_fail].
Qed.

Lemma active_inj u v s : active u s → active v s → u = v.
Proof.
  intros [Hu _] [Hv _]. assert (pointer_text u = pointer_text v) as Hp by (unfold pointer_text; congruence).
  apply (f_equal pointer_version) in Hp. rewrite !(proj2 (pointer_version_Some _ _) eq_refl) in Hp. congruence.
Qed.

(** ** Pruning *)

Definition release_path (name : string) : path := app_releases_dir bin ++ [name].

Lemma release_path_apart (x y : string) q : x ≠ y → under (release_path x) q → ¬ under (release_path y) q.
Proof. unfold release_path. intros Hxy. by apply under_siblings with (r := []). Qed.

(** What pruning may remove. *)
Definition stale_paths (keep : string → Prop) (q : path) : Prop := ∃ name, ¬ keep name ∧ under (release_path name) q.

Definition pruned (keep : string → Prop) (names : list string) (s0 s : Fs) : Prop :=
  others (stale_paths keep) s0 s ∧ (∀ name, name ∈ names → ¬ keep name → s !! release_path name = None)
  ∧ ∀ q, s !! q = None ∨ s !! q = s0 !! q.

Lemma delete_release_hoare keep names name s0 : ¬ keep name →
  hoare (pruned keep names s0) (fs (delete_dir_all (release_path name))) (λ _, pruned keep (name :: names) s0)
    (others (stale_paths keep) s0).
Proof.
  intros Hk. apply hoare_map_err, hoare_map_err. intros w (Ho & Hn & Hor).
  assert (others (stale_paths keep) s0 (files (std_remove_dir_all (release_path name) w).2)) as Hafter.
  { intros q Hq. rewrite (changes_std_remove_dir_all (release_path name) w); [by apply Ho|].
    intros Hu. apply Hq. by exists name. }
  unfold std_remove_dir_all, syscall in *. destruct (fault_at (clock w)); [done|].
  destruct (files w !! release_path name) as [[c| |t]|]; cbn in *; try done.
  - split_and!; [done| |].
    + intros x [->|Hx]%elem_of_cons Hkx; rewrite lookup_without; [by rewrite decide_True by apply under_refl|].
      case_decide; [done|by apply Hn].
    + intros q. rewrite lookup_without. case_decide; [by left|done].
  - split_and!; [done| |].
    + intros x [->|Hx]%elem_of_cons Hkx; [by rewrite lookup_delete_eq|].
      destruct (decide (release_path x = release_path name)) as [->|]; [by rewrite lookup_delete_eq|].
      rewrite lookup_delete_ne by done. by apply Hn.
    + intros q. destruct (decide (q = release_path name)) as [->|]; [left; by rewrite lookup_delete_eq|].
      by rewrite lookup_delete_ne.
Qed.

Lemma pruned_weaken keep names names' s0 s : (∀ x, x ∈ names' → x ∈ names ∨ keep x) → pruned keep names s0 s → pruned keep names' s0 s.
Proof. intros Hn (Ho & Hs & Hq). split_and!; [done| |done]. intros x Hx Hk. destruct (Hn x Hx); [by apply Hs|done]. Qed.

Lemma prune_loop_hoare a previous s0 names done_ : let keep := λ x, x = a ∨ x = previous in
  hoare (pruned keep done_ s0) (prune_loop a previous (release_path <$> names)) (λ _, pruned keep (done_ ++ names) s0)
    (others (stale_paths keep) s0).
Proof.
  intros keep. revert done_. induction names as [|x names IH]; intros done_; cbn [fmap list_fmap prune_loop].
  { rewrite app_nil_r. by intros w Hw. }
  apply (hoare_seq _ (pruned keep (done_ ++ [x]) s0)).
  - unfold file_name, release_path. rewrite last_snoc. fold (release_path x).
    destruct (bool_decide (x = a) || bool_decide (x = previous)) eqn:Hx.
    + intros w Hw. eapply pruned_weaken; [|exact Hw]. intros y [Hy|Hy%list_elem_of_singleton]%elem_of_app; [by left|right].
      subst y. unfold keep. by apply orb_true_iff in Hx as [?%bool_decide_eq_true|?%bool_decide_eq_true]; [left|right].
    + apply orb_false_iff in Hx as [?%bool_decide_eq_false ?%bool_decide_eq_false].
      eapply hoare_conseq; [by intros s Hs; exact Hs| |by intros s Hs; exact Hs|by apply delete_release_hoare; unfold keep; tauto].
      cbn. intros _ s. apply pruned_weaken. intros y. rewrite elem_of_app, list_elem_of_singleton, elem_of_cons. tauto.
  - specialize (IH (done_ ++ [x])). by rewrite <-app_assoc in IH.
Qed.

Lemma hoare_read_dir (P X : Fs → Prop) p : (∀ s, P s → X s) →
  hoare P (fs (read_dir_paths p)) (λ l s, (∃ names, l = (λ x, p ++ [x]) <$> names
    ∧ (s !! p = Some Dir → ∀ x, s !! (p ++ [x]) ≠ None → x ∈ names)) ∧ P s) X.
Proof.
  intros HX. apply hoare_map_err. intros w Hw.
  unfold read_dir_paths, or_missing, at_path, io_map_err, mbind, io_bind, std_read_dir, query, syscall.
  destruct (fault_at (clock w)); cbn; [by apply HX|]. destruct (files w !! p) as [[c| |t]|] eqn:Hp; cbn; try by apply HX.
  - split; [|done]. exists (children p (files w)).*1. split; [by rewrite <-list_fmap_compose|].
    intros _ x Hx. destruct (files w !! (p ++ [x])) as [n|] eqn:Hn; [|done].
    apply list_elem_of_fmap. exists (x, n). split; [done|by apply elem_of_children].
  - split; [|done]. exists []. split; [done|]. congruence.
Qed.

Definition kept_by (previous : string) (s0 : Fs) (x : string) : Prop := active x s0 ∨ x = previous.

Lemma prune_releases_hoare previous s0 : hoare (λ s, s = s0) (prune_releases bin previous)
  (λ _ s, others (stale_paths (kept_by previous s0)) s0 s
     ∧ ∀ a x, active a s0 → s0 !! app_releases_dir bin = Some Dir → x ≠ a → x ≠ previous → s !! release_path x = None)
  (others (stale_paths (kept_by previous s0)) s0).
Proof.
  set (keep := kept_by previous s0).
  assert (∀ s, s = s0 → others (stale_paths keep) s0 s) as Hsame by by intros s ->.
  unfold prune_releases. eapply hoare_bind; [by apply hoare_lift|]. intros []. apply hoare_pure. intros _.
  eapply hoare_bind; [apply hoare_err; [exact Hsame|apply active_release_hoare]|]. intros [a|].
  2:{ intros w' [Hn Hw']. rewrite Hw' in *. split; [by apply Hsame|]. intros a x [Ha _]. cbn in Hn. congruence. }
  apply (hoare_pre _ (λ s, active a s0 ∧ s = s0)); [by intros s [[_ Ha] ->]|]. apply hoare_pure. intros Ha.
  assert (∀ x, keep x ↔ x = a ∨ x = previous) as Hkeep.
  { intros x. unfold keep, kept_by. split; [|by intros [->| ->]; [left|right]]. intros [Hx| ->]; [left; by eapply active_inj|by right]. }
  eapply hoare_bind; [by apply hoare_present|]. intros b. destruct b; cbn [negb].
  2:{ intros w' [Hb Hw']. rewrite Hw' in *. split; [by apply Hsame|]. intros a' x _ Hd. by rewrite Hd in Hb. }
  apply (hoare_pre _ (λ s, s = s0)); [by intros s [_ ->]|]. eapply hoare_bind; [by apply hoare_read_dir|]. intros l.
  apply (hoare_pre _ (λ s, (∃ names, l = release_path <$> names
    ∧ (s0 !! app_releases_dir bin = Some Dir → ∀ x, s0 !! release_path x ≠ None → x ∈ names)) ∧ s = s0)); [by intros s [Hl ->]|].
  apply hoare_pure. intros (names & -> & Hnames).
  assert (∀ s, others (stale_paths (λ x, x = a ∨ x = previous)) s0 s → others (stale_paths keep) s0 s) as Hw.
  { intros s Ho q Hq. apply Ho. intros (x & Hx & Hu). apply Hq. exists x. by rewrite Hkeep. }
  eapply hoare_conseq; [| |exact Hw|apply (prune_loop_hoare a previous s0 names [])].
  - intros s ->. split_and!; [done|by intros x ?%elem_of_nil|by right].
  - intros _ s (Ho & Hp & Hq). split; [by apply Hw|]. intros a' x Ha' Hd Hxa Hxp. assert (a' = a) as -> by (by eapply active_inj).
    destruct (decide (x ∈ names)) as [|Hx]; [apply Hp; [done|tauto]|]. destruct (Hq (release_path x)) as [| ->]; [done|].
    apply eq_None_not_Some. intros [n Hn]. apply Hx, Hnames; congruence.
Qed.
(** Pruning removes only releases other than the active and the previous one,
    whichever call fails: the pointer, everything outside [releases] and everything in
    those two stay as they are. After a success, when a release is active, no other
    is left. *)
Theorem prune_releases_spec previous w :
  match prune_releases bin previous w with
  | (Ok _, w') => others (stale_paths (kept_by previous (files w))) (files w) (files w')
      ∧ (∀ a x, active a (files w) → files w !! app_releases_dir bin = Some Dir → x ≠ a → x ≠ previous →
           files w' !! release_path x = None)
  | (Err _, w') => others (stale_paths (kept_by previous (files w))) (files w) (files w')
  end.
Proof. pose proof (prune_releases_hoare previous (files w) w eq_refl) as Hh. by destruct (prune_releases bin previous w) as [[]]. Qed.
End facts.

(** ** Sample releases *)

Definition sample_bin : path := ["pv"; "bin"].
Definition sample_releases : World :=
  {| files := list_to_map (([([ "pv" ], Dir); (sample_bin, Dir); (sample_bin ++ ["releases"], Dir);
        (sample_bin ++ ["pv"], Link "releases/1.2.0/pv")])
       ++ concat ((λ v, [(sample_bin ++ ["releases"; v], Dir); (sample_bin ++ ["releases"; v; "pv"], File ("binary " +:+ v))])
            <$> ["1.0.0"; "1.1.0"; "1.2.0"]));
     clock := 0; counter := 0 |}.

Lemma prune_releases_spec_witness :
  (prune_releases (H := faulty_host None) sample_bin "1.1.0" sample_releases).1 = Ok tt
  ∧ files (prune_releases (H := faulty_host None) sample_bin "1.1.0" sample_releases).2 !! release_path sample_bin "1.0.0" = None.
Proof.
  pose proof (prune_releases_spec (H := faulty_host None) sample_bin "1.1.0" sample_releases) as Hp.
  destruct (prune_releases (H := faulty_host None) sample_bin "1.1.0" sample_releases) as [[[]|e] w] eqn:E;
    [|exfalso; vm_compute in E; discriminate E].
  split; [done|]. apply (proj2 Hp "1.2.0"); [|done|done|done]. split; [done|by exists "binary 1.2.0"].
Defined.
