(* ===== verification/SelfUpdate.v ===== *)
(** * The application's update manifest ([self-update/src/lib.rs]): versions, assets and
    the choice of the asset for a platform *)

From S2P Require Import Prelude RustStr Manifest.

Definition SUPPORTED_SCHEMA_VERSION : N := 1.
Definition STABLE_CHANNEL : string := "stable".

(** ** Data *)

Record AppUpdateVersion := { av_major : N; av_minor : N; av_patch : N; av_raw : string }.
Record Sha256Digest := { digest_str : string }.
Record AppUpdatePublishedAt := { published_str : string }.
Inductive AppUpdatePlatform : Type := DarwinArm64 | DarwinAmd64.
Record AppUpdateAsset := { aa_platform : AppUpdatePlatform; aa_url : string; aa_sha256 : Sha256Digest; aa_size : N }.
Record AppUpdateManifest := {
  am_schema_version : N; am_channel : string; am_version : AppUpdateVersion; am_minimum_pv_version : AppUpdateVersion;
  am_published_at : AppUpdatePublishedAt; am_assets : list AppUpdateAsset;
}.

Inductive AppUpdateManifestError : Type :=
| InvalidManifest (reason : string)
| UnsupportedManifestSchema (schema_version supported_schema_version : N)
| UnsupportedChannel (channel : string)
| InvalidIdentity (kind value : string)
| RequiresNewerPv (minimum_pv_version current_pv_version : string)
| InvalidPublishedAt (value : string)
| UnsupportedPlatform (platform : string)
| InvalidAssetUrl (url : string)
| InvalidAssetSize (platform : string) (size : N)
| DuplicatePlatform (platform : string)
| NoAssets
| MissingPlatform (platform : string)
| UnsupportedCurrentPlatform.

Record RawAsset := { ra_platform : string; ra_url : string; ra_sha256 : string; ra_size : N }.
Record RawManifest := {
  rm_schema_version : N; rm_channel : string; rm_version : string; rm_minimum_pv_version : string;
  rm_published_at : string; rm_assets : list RawAsset;
}.

#[export] Instance app_platform_eq_dec : EqDecision AppUpdatePlatform.
Proof. solve_decision. Defined.

(** ** Versions *)

Definition invalid_identity {A : Type} (kind value : string) : result AppUpdateManifestError A := Err (InvalidIdentity kind value).

Definition parse_version_component (component value : string) : result AppUpdateManifestError N :=
  if is_empty component || (1 <? len component) && starts_with_char "0" component then invalid_identity "version" value
  else ok_or (parse_u64 component) (InvalidIdentity "version" value).

Definition version_parse (value : string) : result AppUpdateManifestError AppUpdateVersion :=
  if contains "/" value || contains BACKSLASH value then invalid_identity "version" value
  else
    match split "." value with
    | [major; minor; patch] =>
        major ← parse_version_component major value;
        minor ← parse_version_component minor value;
        patch ← parse_version_component patch value;
        Ok {| av_major := major; av_minor := minor; av_patch := patch; av_raw := value |}
    | _ => invalid_identity "version" value
    end.

(** The derived [Ord]. *)
Definition version_compare (a b : AppUpdateVersion) : comparison :=
  match N.compare (av_major a) (av_major b) with
  | Eq => match N.compare (av_minor a) (av_minor b) with
          | Eq => match N.compare (av_patch a) (av_patch b) with
                  | Eq => String.compare (av_raw a) (av_raw b)
                  | c => c
                  end
          | c => c
          end
  | c => c
  end.
Definition version_gt (a b : AppUpdateVersion) : bool := match version_compare a b with Gt => true | _ => false end.

(** ** Identities *)

Definition sha256_parse (value : string) : result AppUpdateManifestError Sha256Digest :=
  if bool_decide (len value = 64) && str_all is_ascii_hexdigit value then Ok {| digest_str := to_ascii_lowercase value |}
  else invalid_identity "sha256" value.

Definition platform_parse (value : string) : result AppUpdateManifestError AppUpdatePlatform :=
  if bool_decide (value = "darwin-arm64") then Ok DarwinArm64
  else if bool_decide (value = "darwin-amd64") then Ok DarwinAmd64
  else Err (UnsupportedPlatform value).

Definition platform_as_str (p : AppUpdatePlatform) : string :=
  match p with DarwinArm64 => "darwin-arm64" | DarwinAmd64 => "darwin-amd64" end.

Section manifest.
(** RFC 3339 parsing of the [time] crate, [Url::parse], [serde_json] and the version of the build. *)
Context (parse_rfc3339 : string → option Z) (url_parse : string → option ParsedUrl).
Context (json_parse : string → result string RawManifest) (pkg_version : string).

Definition current_version : result AppUpdateManifestError AppUpdateVersion := version_parse pkg_version.

Definition published_at_parse (value : string) : result AppUpdateManifestError AppUpdatePublishedAt :=
  match parse_rfc3339 value with
  | Some _ => Ok {| published_str := value |}
  | None => Err (InvalidPublishedAt value)
  end.

Definition validate_asset_url (url : string) : result AppUpdateManifestError string :=
  if contains BACKSLASH url then Err (InvalidAssetUrl url)
  else
    match url_parse url with
    | None => Err (InvalidAssetUrl url)
    | Some parsed =>
        if negb (bool_decide (url_scheme parsed = "https")) || negb (option_bool (url_host parsed)) then Err (InvalidAssetUrl url)
        else
          match segments ← url_path_segments parsed; last segments with
          | None => Err (InvalidAssetUrl url)
          | Some file_name =>
              if is_empty file_name || bool_decide (file_name = ".") || bool_decide (file_name = "..") || contains BACKSLASH file_name
              then Err (InvalidAssetUrl url) else Ok url
          end
    end.

Definition asset_from_raw (raw : RawAsset) : result AppUpdateManifestError AppUpdateAsset :=
  platform ← platform_parse (ra_platform raw);
  if (ra_size raw =? 0)%N then Err (InvalidAssetSize (platform_as_str platform) (ra_size raw))
  else
    url ← validate_asset_url (ra_url raw);
    sha256 ← sha256_parse (ra_sha256 raw);
    Ok {| aa_platform := platform; aa_url := url; aa_sha256 := sha256; aa_size := ra_size raw |}.

(** The map that is collected, with the platforms seen. *)
Fixpoint assets_loop (seen : list AppUpdatePlatform) (raw_assets : list RawAsset) :
    result AppUpdateManifestError (list AppUpdateAsset) :=
  match raw_assets with
  | [] => Ok []
  | raw :: raw_assets =>
      platform ← platform_parse (ra_platform raw);
      if bool_decide (platform ∈ seen) then Err (DuplicatePlatform (platform_as_str platform))
      else
        asset ← asset_from_raw raw;
        assets ← assets_loop (platform :: seen) raw_assets;
        Ok (asset :: assets)
  end.

Definition parse_assets (raw_assets : list RawAsset) : result AppUpdateManifestError (list AppUpdateAsset) :=
  match raw_assets with [] => Err NoAssets | _ => assets_loop [] raw_assets end.

Definition from_raw (raw : RawManifest) : result AppUpdateManifestError AppUpdateManifest :=
  if negb (rm_schema_version raw =? SUPPORTED_SCHEMA_VERSION)%N
  then Err (UnsupportedManifestSchema (rm_schema_version raw) SUPPORTED_SCHEMA_VERSION)
  else if negb (bool_decide (rm_channel raw = STABLE_CHANNEL)) then Err (UnsupportedChannel (rm_channel raw))
  else
    version ← version_parse (rm_version raw);
    minimum_pv_version ← version_parse (rm_minimum_pv_version raw);
    current_pv_version ← current_version;
    if version_gt minimum_pv_version current_pv_version
    then Err (RequiresNewerPv (av_raw minimum_pv_version) (av_raw current_pv_version))
    else
      published_at ← published_at_parse (rm_published_at raw);
      assets ← parse_assets (rm_assets raw);
      Ok {| am_schema_version := rm_schema_version raw; am_channel := rm_channel raw; am_version := version;
            am_minimum_pv_version := minimum_pv_version; am_published_at := published_at; am_assets := assets |}.

Definition manifest_parse (json : string) : result AppUpdateManifestError AppUpdateManifest :=
  raw ← map_err InvalidManifest (json_parse json); from_raw raw.
End manifest.

Definition select_platform (m : AppUpdateManifest) (platform : AppUpdatePlatform) : result AppUpdateManifestError AppUpdateAsset :=
  ok_or (head (List.filter (λ asset, bool_decide (aa_platform asset = platform)) (am_assets m)))
    (MissingPlatform (platform_as_str platform)).

(** ** What an accepted manifest is *)

Lemma version_parse_raw value v : version_parse value = Ok v → av_raw v = value ∧ lacks "/" value = true.
Proof.
  unfold version_parse. rewrite contains_lacks. destruct (lacks "/" value) eqn:Hl; [|done]. cbn [negb orb].
  destruct (contains BACKSLASH value); [done|]. destruct (split "." value) as [|a [|b [|c [|]]]]; try done.
  intros Hv. inv_ok. done.
Qed.

Section facts.
Context (parse_rfc3339 : string → option Z) (url_parse : string → option ParsedUrl).
Context (json_parse : string → result string RawManifest) (pkg_version : string).

(** The asset is the raw one, checked. *)
Definition asset_wf (raw : RawAsset) (a : AppUpdateAsset) : Prop :=
  platform_as_str (aa_platform a) = ra_platform raw ∧ aa_url a = ra_url raw
  ∧ digest_str (aa_sha256 a) = to_ascii_lowercase (ra_sha256 raw) ∧ aa_size a = ra_size raw
  ∧ aa_size a ≠ 0%N ∧ len (ra_sha256 raw) = 64
  ∧ ∃ parsed, url_parse (aa_url a) = Some parsed ∧ url_scheme parsed = "https" ∧ is_Some (url_host parsed).

Lemma platform_parse_ok s p : platform_parse s = Ok p → platform_as_str p = s.
Proof. unfold platform_parse. repeat case_bool_decide; [by intros [= <-]..|done]. Qed.

Lemma validate_asset_url_ok url url' : validate_asset_url url_parse url = Ok url' →
  url' = url ∧ ∃ parsed, url_parse url = Some parsed ∧ url_scheme parsed = "https" ∧ is_Some (url_host parsed).
Proof.
  unfold validate_asset_url. destruct (contains BACKSLASH url); [done|]. destruct (url_parse url) as [parsed|]; [|done].
  case_bool_decide as Hs; [|done]. cbn [negb orb]. destruct (url_host parsed) eqn:Hh; [|done]. cbn [option_bool negb].
  destruct (segments ← url_path_segments parsed; last segments) as [name|]; [|done].
  destruct (is_empty name || _ || _ || _); [done|]. intros [= <-]. split; [done|]. exists parsed. by rewrite Hh.
Qed.

Lemma asset_from_raw_wf raw a : asset_from_raw url_parse raw = Ok a → asset_wf raw a.
Proof.
  unfold asset_from_raw. intros Ha. destruct (platform_parse (ra_platform raw)) as [p|] eqn:Hp; [|done]. cbn in Ha.
  destruct (N.eqb_spec (ra_size raw) 0) as [|Hsize]; [done|].
  destruct (validate_asset_url url_parse (ra_url raw)) as [url|] eqn:Hu; [|done]. cbn in Ha.
  unfold sha256_parse in Ha. case_bool_decide as Hlen; [|done]. cbn [andb] in Ha.
  destruct (str_all is_ascii_hexdigit (ra_sha256 raw)); [|done]. cbn in Ha. injection Ha as <-.
  apply platform_parse_ok in Hp. apply validate_asset_url_ok in Hu as [-> Hparsed]. by split_and!.
Qed.

Lemma assets_loop_wf seen raws assets : assets_loop url_parse seen raws = Ok assets →
  Forall2 asset_wf raws assets ∧ NoDup (aa_platform <$> assets) ∧ ∀ p, p ∈ aa_platform <$> assets → p ∉ seen.
Proof.
  revert seen assets. induction raws as [|raw raws IH]; intros seen assets Ha; cbn [assets_loop] in Ha.
  { injection Ha as <-. split_and!; [constructor|constructor|]. by intros p ?%elem_of_nil. }
  destruct (platform_parse (ra_platform raw)) as [p|] eqn:Hp; [|done]. cbn [mbind result_bind] in Ha.
  case_bool_decide as Hseen; [done|]. destruct (asset_from_raw url_parse raw) as [a|] eqn:Hraw; [|done]. cbn in Ha.
  destruct (assets_loop url_parse (p :: seen) raws) as [l|] eqn:Hl; [|done]. cbn in Ha. injection Ha as <-.
  destruct (IH _ _ Hl) as (Hwf & Hnd & Hnot).
  assert (aa_platform a = p) as Hap.
  { unfold asset_from_raw in Hraw. rewrite Hp in Hraw. cbn in Hraw. destruct (ra_size raw =? 0)%N; [done|]. by inv_ok. }
  split_and!; [by constructor; [apply asset_from_raw_wf|]| |]; cbn [fmap list_fmap]; rewrite Hap.
  - constructor; [|done]. intros Hin. apply (Hnot p Hin). by left.
  - intros q [->|Hq]%elem_of_cons; [done|]. intros Hqs. apply (Hnot q Hq). by right.
Qed.

(** A manifest that is accepted is of the known schema and the stable channel, asks
    for no newer PV than this build, carries a version that is one path component, and
    has at least one asset, each the raw one with a known platform, an [https] URL with a
    host, a digest and a size, no two for the same platform; so that choosing for a
    platform finds exactly the asset of that platform. *)
Theorem from_raw_spec raw m : from_raw parse_rfc3339 url_parse pkg_version raw = Ok m →
  am_schema_version m = SUPPORTED_SCHEMA_VERSION ∧ am_channel m = STABLE_CHANNEL
  ∧ (∃ current, version_parse pkg_version = Ok current ∧ version_gt (am_minimum_pv_version m) current = false)
  ∧ (version_parse (rm_version raw) = Ok (am_version m) ∧ av_raw (am_version m) = rm_version raw ∧ lacks "/" (rm_version raw) = true)
  ∧ am_assets m ≠ [] ∧ NoDup (aa_platform <$> am_assets m) ∧ Forall2 asset_wf (rm_assets raw) (am_assets m)
  ∧ ∀ platform a, select_platform m platform = Ok a ↔ a ∈ am_assets m ∧ aa_platform a = platform.
Proof.
  unfold from_raw. destruct (N.eqb_spec (rm_schema_version raw) SUPPORTED_SCHEMA_VERSION) as [Hs|]; [|done]. cbn [negb].
  case_bool_decide as Hc; [|done]. cbn [negb]. intros Hm.
  destruct (version_parse (rm_version raw)) as [v|] eqn:Hv; [|done]. cbn [mbind result_bind] in Hm.
  destruct (version_parse (rm_minimum_pv_version raw)) as [minimum|] eqn:Hmin; [|done]. cbn [mbind result_bind] in Hm.
  unfold current_version in Hm. destruct (version_parse pkg_version) as [current|] eqn:Hcur; [|done]. cbn [mbind result_bind] in Hm.
  destruct (version_gt minimum current) eqn:Hgt; [done|].
  destruct (published_at_parse parse_rfc3339 (rm_published_at raw)) as [pub|]; [|done]. cbn [mbind result_bind] in Hm.
  destruct (parse_assets url_parse (rm_assets raw)) as [assets|] eqn:Ha; [|done]. cbn in Hm. injection Hm as <-.
  cbn [am_schema_version am_channel am_version am_minimum_pv_version am_assets].
  unfold parse_assets in Ha. destruct (rm_assets raw) as [|r raws] eqn:Hr; [done|].
  apply assets_loop_wf in Ha as (Hwf & Hnd & _). apply version_parse_raw in Hv as Hraw.
  split_and!; [done..|by exists current|done|by apply Hraw|by apply Hraw|by inversion Hwf|done|done|].
  intros platform a. unfold select_platform. cbn [am_assets]. clear -Hnd.
  assert (∀ a, a ∈ List.filter (λ asset, bool_decide (aa_platform asset = platform)) assets ↔ a ∈ assets ∧ aa_platform a = platform) as Hin.
  { intros b. by rewrite !list_elem_of_In, filter_In, bool_decide_eq_true. }
  destruct (List.filter _ assets) as [|b l] eqn:Hf; cbn; split; try done.
  - intros Hb. apply Hin in Hb. by apply elem_of_nil in Hb.
  - intros [= ->]. apply Hin. by left.
  - intros Ha. pose proof (proj2 (Hin a) Ha) as Ha'. f_equal. destruct (proj1 (Hin b) ltac:(by left)) as [Hb Hpb].
    destruct Ha as [Ha Hpa]. eapply NoDup_fmap_inj_on; [exact Hnd|done..|congruence].
Qed.
End facts.

Definition sample_raw_asset (platform : string) : RawAsset :=
  {| ra_platform := platform; ra_url := "https://updates.example/pv"; ra_size := 1;
     ra_sha256 := "0123456789ABCDEF0123456789abcdef0123456789abcdef0123456789abcdef" |}.
Definition sample_raw_manifest : RawManifest :=
  {| rm_schema_version := 1; rm_channel := "stable"; rm_version := "1.10.0"; rm_minimum_pv_version := "1.2.0";
     rm_published_at := "2026-05-22T14:30:12Z"; rm_assets := [sample_raw_asset "darwin-arm64"; sample_raw_asset "darwin-amd64"] |}.
Definition sample_url (_ : string) : option ParsedUrl :=
  Some {| url_scheme := "https"; url_host := Some "updates.example"; url_path_segments := Some ["pv"] |}.

Lemma from_raw_spec_witness : ∃ m, from_raw (λ _, Some 0%Z) sample_url "1.2.0" sample_raw_manifest = Ok m
  ∧ ∃ a, select_platform m DarwinAmd64 = Ok a ∧ aa_platform a = DarwinAmd64.
Proof.
  destruct (from_raw (λ _, Some 0%Z) sample_url "1.2.0" sample_raw_manifest) as [m|e] eqn:E; [|vm_compute in E; discriminate E].
  exists m. split; [done|].
  destruct (from_raw_spec (λ _, Some 0%Z) sample_url "1.2.0" sample_raw_manifest m E) as (_ & _ & _ & _ & _ & _ & _ & Hsel).
  vm_compute in E. injection E as <-. eexists. split; [reflexivity|]. by eapply Hsel.
Defined.
