(* ===== verification/AppUpdate.v ===== *)
(** * Updating the application ([cli/src/commands/update.rs], the application phase):
    download, verify, install, activate, restart, and roll back *)

From S2P Require Import Prelude RustStr Paths HostFs StateTypes StateFs AppRelease Manifest SelfUpdate.

(** Errors keep the error whose text the code stores. *)
Inductive ExecuteError : Type :=
| State (e : StateError)
| CoordinationLockHeldBy (p : string)
| Manifest (e : AppUpdateManifestError)
| Daemon (message : string)
| HostFailure (message : string)
| AppUpdateInvalidActiveRelease (reason : option StateError)
| AppUpdateActiveReleaseMismatch (active_version current_version : string)
| AppUpdateSizeMismatch (url : string) (expected actual : N)
| AppUpdateChecksumMismatch (url expected actual : string)
| AppUpdateRollbackFailed (original : string + ExecuteError) (rollback : StateError)
| AppUpdateRollbackDaemonFailed (original : string + ExecuteError) (rollback : ExecuteError)
| AppUpdatePostActivationFailed (message : string + ExecuteError).

Inductive DaemonHealthCheck : Type := RequireCompatibleProtocol | AcceptProtocolMismatch.
Inductive AppUpdateOutcome : Type := Current | Updated.

Definition update_state_error (e : StateError) : ExecuteError :=
  match e with CoordinationLockHeld p => CoordinationLockHeldBy p | e => State e end.

(** What the phase uses of the rest of the program and of the host. *)
Class UpdateEnvironment := {
  layout_directories : list path;
  downloads : path;
  daemon_startup_error : path;
  acquire_update_lock : IO StateError unit;
  normalize_launch_agent : IO string path;
  fetch_manifest_text : IO string string;
  app_update_platform : result AppUpdateManifestError AppUpdatePlatform;
  (** What the HTTP client writes before it ends, and how it ends. *)
  transfer : string → nat → string * result string unit;
  sha256_hex : string → string;
  bootout_launch_agent_if_loaded : IO ExecuteError unit;
  bootstrap_launch_agent : path → IO ExecuteError unit;
  kickstart_launch_agent : IO ExecuteError unit;
  wait_until_daemon_started : DaemonHealthCheck → IO ExecuteError unit;
  output_line : string → IO string unit;
  (** Without the text of the error that ends the line. *)
  warning : string → IO string unit;
  parse_marker : string → option (string * string);
  parse_rfc3339 : string → option Z;
  url_parse : string → option ParsedUrl;
  json_parse : string → result string RawManifest;
  pkg_version : string;
}.

Section update.
Context `{Host} `{UpdateEnvironment} (bin : path).

Definition state {A : Type} (m : IO StateError A) : IO ExecuteError A := io_map_err State m.
Definition state_fs {A : Type} (m : IO FsError A) : IO ExecuteError A := state (fs m).
Definition manifest_result {A : Type} (r : result AppUpdateManifestError A) : IO ExecuteError A := io_lift (map_err Manifest r).

(** What the host or the terminal refuses. *)
Definition host {A : Type} (m : IO string A) : IO ExecuteError A := io_map_err HostFailure m.
Definition say (line : string) : IO ExecuteError unit := host (output_line line).
Definition warn (line : string) : IO ExecuteError unit := host (warning line).

Definition current_pv_version : result AppUpdateManifestError AppUpdateVersion := current_version pkg_version.
Definition parse_app_manifest (json : string) : result AppUpdateManifestError AppUpdateManifest :=
  manifest_parse parse_rfc3339 url_parse json_parse pkg_version json.

Fixpoint ensure_layout (directories : list path) : IO FsError unit :=
  match directories with
  | [] => mret tt
  | directory :: directories => _ ← ensure_user_dir directory; ensure_layout directories
  end.

Definition validate_active_release (current_version : AppUpdateVersion) : IO ExecuteError string :=
  active_version ← io_map_err (λ e, AppUpdateInvalidActiveRelease (Some e)) (active_release bin);
  match active_version with
  | None => io_fail (AppUpdateInvalidActiveRelease None)
  | Some active_version =>
      if bool_decide (active_version = av_raw current_version) then mret active_version
      else io_fail (AppUpdateActiveReleaseMismatch active_version (av_raw current_version))
  end.

(** ** Download *)

Definition temporary_app_download_path : IO ExecuteError path :=
  counter ← fetch_counter;
  mret (downloads ++ ["pv-app-" +:+ show_nat process_id +:+ "-" +:+ show_nat counter +:+ ".tmp"]).

(** The body, once all of it is written to the new file. *)
Definition download (url : string) (p : path) : IO ExecuteError string := λ w,
  let '(body, outcome) := transfer url (clock w) in
  match std_write p body w with
  | (Err e, w) => (Err (HostFailure (io_text e)), w)
  | (Ok _, w) => match outcome with Ok _ => (Ok body, w) | Err e => (Err (HostFailure e), w) end
  end.

Definition remove_download (p : path) : IO ExecuteError unit := state_fs (remove_file_if_exists p).

Definition write_download_cleanup_warning (cleanup : result ExecuteError unit) : IO ExecuteError unit :=
  match cleanup with
  | Err _ => warn "failed to remove temporary PV app download"
  | Ok _ => mret tt
  end.

(** The download is removed, and the error returned. *)
Definition reject_download {A : Type} (p : path) (e : ExecuteError) : IO ExecuteError A :=
  cleanup ← io_try (remove_download p);
  _ ← write_download_cleanup_warning cleanup;
  io_fail e.

Definition download_app_asset (asset : AppUpdateAsset) : IO ExecuteError path :=
  _ ← state_fs (ensure_user_dir downloads);
  p ← temporary_app_download_path;
  _ ← state_fs (create_new_file p);
  downloaded ← io_try (download (aa_url asset) p);
  match downloaded with
  | Err e => reject_download p e
  | Ok body =>
      if negb (N.of_nat (len body) =? aa_size asset)%N
      then reject_download p (AppUpdateSizeMismatch (aa_url asset) (aa_size asset) (N.of_nat (len body)))
      else if negb (bool_decide (sha256_hex body = digest_str (aa_sha256 asset)))
      then reject_download p (AppUpdateChecksumMismatch (aa_url asset) (digest_str (aa_sha256 asset)) (sha256_hex body))
      else mret p
  end.

(** ** The daemon *)

Definition restart_daemon_without_reconciliation (launch_agent_path : path) (health_check : DaemonHealthCheck) :
    IO ExecuteError unit :=
  _ ← bootout_launch_agent_if_loaded;
  _ ← bootstrap_launch_agent launch_agent_path;
  _ ← state_fs (remove_file_if_exists daemon_startup_error);
  _ ← kickstart_launch_agent;
  wait_until_daemon_started health_check.

Definition read_daemon_startup_failure : IO ExecuteError (option (string * string)) :=
  content ← io_try (read_to_string daemon_startup_error);
  mret (match content with
        | Ok content =>
            '(kind, message) ← parse_marker content;
            if is_empty kind || is_empty message then None else Some (kind, message)
        | Err _ => None
        end).

Definition daemon_startup_failure_message : IO ExecuteError (option string) :=
  marker ← read_daemon_startup_failure;
  mret ('(kind, message) ← marker;
        if bool_decide (kind = "migration_failed") then Some ("database migration failed after update: " +:+ message)
        else if bool_decide (kind = "startup_failed") then Some ("daemon startup failed after update: " +:+ message)
        else None).

Definition app_update_failure_message (e : ExecuteError) : IO ExecuteError (string + ExecuteError) :=
  match e with
  | Daemon _ =>
      message ← daemon_startup_failure_message;
      mret (inl (default "daemon did not become healthy after update" message))
  | e => mret (inr e)
  end.

(** ** The phase *)

Definition write_cleanup_warning (cleanup : result StateError unit) : IO ExecuteError unit :=
  match cleanup with
  | Err _ => warn "failed to remove failed PV app release"
  | Ok _ => mret tt
  end.

Definition rollback_app_update (launch_agent_path : path) (previous failed : string) (original_error : ExecuteError) :
    IO ExecuteError AppUpdateOutcome :=
  original_message ← app_update_failure_message original_error;
  restored ← io_try (activate_release bin previous);
  match restored with
  | Err restore_error =>
      _ ← say "PV application: update failed; rollback failed";
      io_fail (AppUpdateRollbackFailed original_message restore_error)
  | Ok _ =>
      cleanup ← io_try (remove_release bin failed);
      restarted ← io_try (restart_daemon_without_reconciliation launch_agent_path RequireCompatibleProtocol);
      match restarted with
      | Err rollback_error =>
          _ ← say ("PV application: update failed; restored " +:+ previous);
          _ ← write_cleanup_warning cleanup;
          io_fail (AppUpdateRollbackDaemonFailed original_message rollback_error)
      | Ok _ =>
          _ ← say ("PV application: update failed; rolled back to " +:+ previous);
          _ ← write_cleanup_warning cleanup;
          io_fail (AppUpdatePostActivationFailed original_message)
      end
  end.

(** Installing what was downloaded, and removing the download. *)
Definition install_downloaded (version : string) (downloaded : path) : IO ExecuteError unit :=
  install_result ← io_try (install_release_binary bin version downloaded);
  cleanup_result ← io_try (remove_download downloaded);
  match install_result, cleanup_result with
  | Ok _, Ok _ => mret tt
  | Ok _, Err cleanup_error => io_fail cleanup_error
  | Err install_error, cleanup_result =>
      _ ← write_download_cleanup_warning cleanup_result;
      io_fail (State install_error)
  end.

(** From the activation on. *)
Definition switch_release (launch_agent_path : path) (previous_version updated_version : string) :
    IO ExecuteError AppUpdateOutcome :=
  _ ← state (activate_release bin updated_version);
  restarted ← io_try (restart_daemon_without_reconciliation launch_agent_path AcceptProtocolMismatch);
  match restarted with
  | Err e => rollback_app_update launch_agent_path previous_version updated_version e
  | Ok _ =>
      _ ← say ("PV application: updated " +:+ previous_version +:+ " -> " +:+ updated_version);
      _ ← say "Daemon restarted and healthy";
      pruned ← io_try (prune_releases bin previous_version);
      _ ← (match pruned with
           | Err _ => warn "failed to prune old PV app releases"
           | Ok _ => mret tt
           end);
      mret Updated
  end.

Definition run_app_update_phase : IO ExecuteError AppUpdateOutcome :=
  _ ← say "PV update";
  _ ← io_map_err update_state_error acquire_update_lock;
  _ ← state_fs (ensure_layout layout_directories);
  current_version ← manifest_result current_pv_version;
  previous_version ← validate_active_release current_version;
  launch_agent_path ← host normalize_launch_agent;
  json ← host fetch_manifest_text;
  manifest ← manifest_result (parse_app_manifest json);
  if negb (version_gt (am_version manifest) current_version) then
    _ ← say ("PV application: current " +:+ av_raw current_version);
    mret Current
  else
    platform ← manifest_result app_update_platform;
    asset ← manifest_result (select_platform manifest platform);
    downloaded ← download_app_asset asset;
    _ ← install_downloaded (av_raw (am_version manifest)) downloaded;
    switch_release launch_agent_path previous_version (av_raw (am_version manifest)).
End update.

(** ** What the environment promises

    [inside] is what lies below [bin]: only the code above writes there. *)

Definition inside (bin q : path) : Prop := under bin q ∧ q ≠ bin.

Class UpdateLaws `{Host} `{UpdateEnvironment} (bin : path) := {
  layout_apart : Forall (λ directory, ¬ inside bin directory) layout_directories;
  downloads_apart : ¬ under bin downloads ∧ ¬ under downloads bin;
  marker_apart : ¬ inside bin daemon_startup_error;
  lock_calm : changes (λ q, ¬ inside bin q) acquire_update_lock;
  agent_calm : changes (λ q, ¬ inside bin q) normalize_launch_agent;
  manifest_calm : changes (λ q, ¬ inside bin q) fetch_manifest_text;
  bootout_calm : changes (λ q, ¬ inside bin q) bootout_launch_agent_if_loaded;
  bootstrap_calm p : changes (λ q, ¬ inside bin q) (bootstrap_launch_agent p);
  kickstart_calm : changes (λ q, ¬ inside bin q) kickstart_launch_agent;
  wait_calm c : changes (λ q, ¬ inside bin q) (wait_until_daemon_started c);
  output_calm s : changes (λ q, ¬ inside bin q) (output_line s);
  warning_calm s : changes (λ q, ¬ inside bin q) (warning s);
}.

Section safety.
Context `{Host} `{UpdateEnvironment} (bin : path) `{!UpdateLaws bin}.

Notation calm := (changes (λ q, ¬ inside bin q)).

(** A condition on what lies below [bin]. *)
Definition inner (P : Fs → Prop) : Prop := ∀ s s', (∀ q, inside bin q → s' !! q = s !! q) → P s → P s'.

Lemma hoare_calm {E A : Type} (P X : Fs → Prop) (m : IO E A) : inner P → calm m → (∀ s, P s → X s) → hoare P m (λ _, P) X.
Proof. intros HP Hm. apply (hoare_changes _ _ _ _ Hm). intros s s' Hs. apply HP. intros q Hq. apply Hs. by intros []. Qed.

Lemma ancestor_outside (p q : path) : ¬ inside bin p → q ∈ ancestors p → ¬ inside bin q.
Proof.
  intros Hp [Hq _]%elem_of_ancestors [Hb Hne]. apply Hp. split; [by eapply under_trans|].
  intros ->. by apply Hne, (anti_symm prefix).
Qed.

Lemma calm_ensure_user_dir p : ¬ inside bin p → calm (ensure_user_dir p).
Proof.
  intros Hp. unfold ensure_user_dir. apply changes_bind; [|intros _u; apply changes_secure_file].
  apply changes_at_path. eapply changes_weaken; [|apply changes_std_create_dir_all]. intros q. by apply ancestor_outside.
Qed.

Lemma calm_ensure_layout : calm (ensure_layout layout_directories).
Proof.
  induction layout_apart as [|d ds Hd Hds IH]; [apply changes_ret|].
  cbn [ensure_layout]. apply changes_bind; [by apply calm_ensure_user_dir|by intros _u].
Qed.

Lemma calm_remove_file p : ¬ inside bin p → calm (remove_file_if_exists p).
Proof.
  intros Hp. apply changes_or_missing, changes_at_path. eapply changes_weaken; [|apply changes_std_remove_file]. by intros q ->.
Qed.

Lemma calm_remove_download p : ¬ inside bin p → calm (remove_download p).
Proof. intros Hp. by apply changes_map_err, changes_map_err, calm_remove_file. Qed.

Lemma calm_restart agent check : calm (restart_daemon_without_reconciliation agent check).
Proof.
  unfold restart_daemon_without_reconciliation.
  apply changes_bind; [apply bootout_calm|intros _u]. apply changes_bind; [apply bootstrap_calm|intros _u2].
  apply changes_bind; [apply changes_map_err, changes_map_err, calm_remove_file, marker_apart|intros _u3].
  apply changes_bind; [apply kickstart_calm|intros _u4; apply wait_calm].
Qed.

Lemma calm_failure_message e : calm (app_update_failure_message e).
Proof.
  destruct e; try apply changes_ret. unfold app_update_failure_message, daemon_startup_failure_message, read_daemon_startup_failure.
  apply changes_bind; [|intros ?; apply changes_ret]. apply changes_bind; [|intros ?; apply changes_ret].
  apply changes_bind; [|intros ?; apply changes_ret]. apply changes_try, changes_at_path, changes_query.
Qed.

Lemma calm_cleanup_warning {E : Type} (r : result E unit) (s : string) :
  calm (match r with Err _ => warn s | Ok _ => mret tt end).
Proof. destruct r; [apply changes_ret|apply changes_map_err, warning_calm]. Qed.

Lemma calm_active_release : calm (active_release bin).
Proof.
  unfold active_release. apply changes_bind; [|intros [|]]; cbn [negb]; [|apply changes_bind; [|intros t]|apply changes_ret].
  - apply changes_map_err, changes_or_missing, changes_bind; [|intros ?; apply changes_ret]. apply changes_at_path, changes_query.
  - apply changes_map_err, changes_at_path, changes_query.
  - destruct (pointer_version t); [|apply changes_fail]. apply changes_bind; [apply changes_lift|intros _u].
    apply changes_bind; [|intros [|]; [apply changes_ret|apply changes_fail]].
    apply changes_map_err, changes_or_missing, changes_bind; [|intros ?; apply changes_ret]. apply changes_at_path, changes_query.
Qed.

(** ** The download *)

(** The file that was downloaded, outside [bin]. *)
Definition downloaded_ok (asset : AppUpdateAsset) (p : path) (s : Fs) : Prop :=
  ∃ body, s !! p = Some (File body) ∧ N.of_nat (len body) = aa_size asset ∧ sha256_hex body = digest_str (aa_sha256 asset).

Definition download_path (p : path) : Prop := ∃ name, p = downloads ++ [name].

Lemma download_outside p : download_path p → ¬ inside bin p ∧ p ∉ ancestors bin.
Proof.
  intros [name ->]. destruct downloads_apart as [Hb Hd]. split.
  - intros [[r Hr] Hne]. destruct r as [|x r _] using rev_ind; [rewrite app_nil_r in Hr; by rewrite Hr in Hne|].
    rewrite app_assoc in Hr. apply app_inj_tail in Hr as [Hr _]. apply Hb. by exists r.
  - intros [Hu _]%elem_of_ancestors. apply Hd. eapply under_trans; [apply under_app|done].
Qed.

Lemma inner_and (P Q : Fs → Prop) : inner P → inner Q → inner (λ s, P s ∧ Q s).
Proof. intros HP HQ s s' Hs [??]. split; [by eapply HP|by eapply HQ]. Qed.

Lemma calm_ensure_parent p : download_path p → calm (ensure_parent_dir p).
Proof.
  intros [name ->]. eapply changes_weaken; [|apply changes_ensure_parent_dir]. intros q. rewrite removelast_last.
  apply ancestor_outside. destruct downloads_apart as [Hb _]. by intros [].
Qed.

(** Changing only a path outside leaves what lies inside. *)
Lemma inner_one (P : Fs → Prop) p s s' : inner P → ¬ inside bin p → (∀ q, q ≠ p → s' !! q = s !! q) → P s → P s'.
Proof. intros HP Hp Hs. apply HP. intros q Hq. apply Hs. by intros ->. Qed.

Lemma create_new_hoare (P X : Fs → Prop) p : inner P → (∀ s, P s → X s) → download_path p →
  hoare P (state_fs (create_new_file p)) (λ _ s, P s ∧ is_link (s !! p) = false) X.
Proof.
  intros HP HX Hp. apply hoare_map_err, hoare_map_err. unfold create_new_file.
  eapply hoare_seq; [by apply hoare_calm, HX; [|apply calm_ensure_parent]|]. apply hoare_map_err, hoare_syscall; [|done..].
  intros s [] s' Hs. destruct (option_bool (s !! p)); [done|]. destruct (parent_is_dir p s); [|done]. intros [= <-].
  rewrite lookup_insert_eq. split; [|done]. eapply inner_one; [done|by apply download_outside| |done].
  intros q Hq. by rewrite lookup_insert_ne by congruence.
Qed.

Lemma download_hoare (P : Fs → Prop) url p : inner P → download_path p →
  hoare (λ s, P s ∧ is_link (s !! p) = false) (download url p) (λ body s, P s ∧ s !! p = Some (File body)) P.
Proof.
  intros HP Hp w Hw. unfold download. destruct (transfer url (clock w)) as [body outcome].
  pose proof (hoare_std_write (λ s, P s ∧ is_link (s !! p) = false) p body ltac:(by intros s [])) as Hwrite.
  specialize (Hwrite w Hw). assert (∀ s c, P s → P (<[p := File c]> s)) as Hins.
  { intros s c Hs. eapply inner_one; [done|by apply download_outside| |done]. intros q Hq. by rewrite lookup_insert_ne by congruence. }
  destruct (std_write p body w) as [[[]|e] w1]; cbn.
  - destruct Hwrite as (s & [Hs _] & Hw1). destruct outcome as [[]|e]; cbn; rewrite Hw1; [|by apply Hins].
    rewrite lookup_insert_eq. split; [by apply Hins|done].
  - destruct Hwrite as [[Hs _]|(s & c & [Hs _] & ->)]; [done|by apply Hins].
Qed.

Lemma reject_hoare {A : Type} (P : Fs → Prop) p e (Q : A → Fs → Prop) : inner P → download_path p → hoare P (reject_download p e) Q P.
Proof.
  intros HP Hp. unfold reject_download. eapply hoare_bind; [apply hoare_calm; [done| |done]|].
  - apply changes_try, calm_remove_download. by apply download_outside.
  - intros r. eapply hoare_seq; [apply hoare_calm; [done| |done]; apply calm_cleanup_warning|]. apply hoare_fail.
Qed.

(** A download that is kept is complete and has the digest. *)
Lemma download_app_asset_hoare (P : Fs → Prop) asset : inner P →
  hoare P (download_app_asset asset) (λ p s, (download_path p ∧ P s) ∧ downloaded_ok asset p s) P.
Proof.
  intros HP. unfold download_app_asset. eapply hoare_seq.
  { apply hoare_calm; [done| |done]. apply changes_map_err, changes_map_err, calm_ensure_user_dir.
    destruct downloads_apart as [Hb _]. by intros []. }
  eapply (hoare_bind _ _ _ (λ p s, download_path p ∧ P s)).
  { unfold temporary_app_download_path. eapply (hoare_bind _ _ _ (λ _, P)); [by intros w Hw|].
    intros n w Hw. split; [by eexists|done]. }
  intros p. apply hoare_pure. intros Hp. eapply hoare_seq; [by apply create_new_hoare|].
  eapply hoare_bind; [apply hoare_try, download_hoare; done|]. intros [body|e]; [|by apply reject_hoare].
  destruct (N.eqb_spec (N.of_nat (len body)) (aa_size asset)) as [Hsize|]; cbn [negb].
  2:{ eapply hoare_pre; [|by apply reject_hoare]. by intros s []. }
  case_bool_decide as Hsha; cbn [negb].
  2:{ eapply hoare_pre; [|by apply reject_hoare]. by intros s []. }
  intros w [Hs Hb]. split; [done|]. by exists body.
Qed.

(** ** The releases while they change *)

Section releases.
Variables (previous version c0 : string).
Hypothesis distinct : previous ≠ version.

(** The pointer is at the previous release, whose binary is as it was. *)
Definition at_previous (s : Fs) : Prop :=
  s !! active_pv_binary bin = Some (Link (pointer_text previous)) ∧ s !! app_release_binary bin previous = Some (File c0).

(** The pointer is at the new release; the previous one is still there. *)
Definition at_new (body : string) (s : Fs) : Prop :=
  s !! active_pv_binary bin = Some (Link (pointer_text version)) ∧ s !! app_release_binary bin version = Some (File body)
  ∧ s !! app_release_binary bin previous = Some (File c0).

Definition installed (body : string) (s : Fs) : Prop := at_previous s ∧ s !! app_release_binary bin version = Some (File body).

(** Nothing at the temporary names of the new binary leads elsewhere. *)
Definition no_links (s : Fs) : Prop :=
  ∀ t, temporary (app_release_binary bin version) t → is_link (s !! t) = false.

Lemma binary_inside v : inside bin (app_release_binary bin v).
Proof.
  unfold app_release_binary, app_releases_dir. rewrite <-app_assoc. split; [apply under_app|].
  intros He. apply (f_equal length) in He. rewrite length_app in He. cbn in He. lia.
Qed.

Lemma pointer_inside : inside bin (active_pv_binary bin).
Proof.
  split; [apply under_app|]. intros He. apply (f_equal length) in He. unfold active_pv_binary in He.
  rewrite length_app in He. cbn in He. lia.
Qed.

Lemma binary_name v : app_release_binary bin v = release_path bin v ++ ["pv"].
Proof. unfold app_release_binary, release_path. by rewrite <-app_assoc. Qed.

Lemma binary_temporary t : temporary (app_release_binary bin version) t → ∃ x, t = release_path bin version ++ [x].
Proof. intros [n ->]. rewrite binary_name, temporary_at. by eexists. Qed.

Lemma inner_previous : inner at_previous.
Proof. intros s s' Hs [Hp Hb]. split; rewrite Hs; [done|apply pointer_inside|done|apply binary_inside]. Qed.

Lemma inner_new body : inner (at_new body).
Proof.
  intros s s' Hs (Hp & Hn & Hb). split_and!; rewrite Hs; [done|apply pointer_inside|done|apply binary_inside|done|apply binary_inside].
Qed.

Lemma inner_installed body : inner (installed body).
Proof.
  intros s s' Hs [Hp Hb]. split; [by eapply inner_previous|]. rewrite Hs; [done|apply binary_inside].
Qed.

Lemma inner_no_links : inner no_links.
Proof.
  intros s s' Hs Hl t Ht. rewrite Hs; [by apply Hl|]. destruct (binary_temporary t Ht) as [x ->].
  unfold release_path, app_releases_dir. rewrite <-!app_assoc. split; [apply under_app|].
  intros He. apply (f_equal length) in He. rewrite length_app in He. cbn in He. lia.
Qed.

(** What belongs to one release is apart from what a write to the other touches. *)
Lemma previous_untouched : ¬ touched (app_release_binary bin version) (app_release_binary bin previous).
Proof.
  rewrite !binary_name. intros [Ha|[(t & Ht & Hu)|Hu]].
  - rewrite removelast_last in Ha. apply elem_of_ancestors in Ha as [[r Hr] _].
    apply (f_equal length) in Hr. unfold release_path in Hr. rewrite !length_app in Hr. cbn in Hr. lia.
  - rewrite <-binary_name in Ht. destruct (binary_temporary t Ht) as [x ->].
    apply (release_path_apart bin version previous (release_path bin previous ++ ["pv"])); [by symmetry| |apply under_app].
    eapply under_trans; [apply under_app|done].
  - apply (release_path_apart bin version previous (release_path bin previous ++ ["pv"])); [by symmetry| |apply under_app].
    eapply under_trans; [apply under_app|done].
Qed.

Lemma pointer_untouched : ¬ touched (app_release_binary bin version) (active_pv_binary bin).
Proof.
  assert (∀ q, under q (active_pv_binary bin) → length q ≤ S (length bin)) as Hlen.
  { intros q [r Hr]. apply (f_equal length) in Hr. unfold active_pv_binary in Hr. rewrite !length_app in Hr. cbn in Hr. lia. }
  assert (length (release_path bin version) = S (S (length bin))) as Hrel.
  { unfold release_path, app_releases_dir. rewrite !length_app. cbn. lia. }
  rewrite !binary_name. intros [Ha|[(t & Ht & Hu)|Hu]].
  - rewrite removelast_last in Ha. apply elem_of_ancestors in Ha as [Hu _]. unfold release_path, app_releases_dir, active_pv_binary in Hu.
    destruct Hu as [r Hr]. rewrite <-!app_assoc in Hr. apply app_inv_head in Hr. done.
  - rewrite <-binary_name in Ht. destruct (binary_temporary t Ht) as [x ->]. apply Hlen in Hu. rewrite length_app, Hrel in Hu. cbn in Hu. lia.
  - apply Hlen in Hu. rewrite length_app, Hrel in Hu. cbn in Hu. lia.
Qed.

Lemma download_untouched p : download_path p → ¬ touched (app_release_binary bin version) p.
Proof.
  intros Hp. destruct (download_outside p Hp) as [Hi _]. rewrite binary_name. intros [Ha|[(t & Ht & Hu)|Hu]].
  - rewrite removelast_last in Ha. apply elem_of_ancestors in Ha as [[r Hr] _]. destruct Hp as [name ->], downloads_apart as [Hb Hd].
    unfold release_path, app_releases_dir in Hr. rewrite <-!app_assoc in Hr.
    destruct (prefix_weak_total downloads bin (bin ++ ["releases"] ++ [version])) as [Hx|Hx]; [|by eexists|by apply Hd|by apply Hb].
    rewrite Hr. by eexists.
  - rewrite <-binary_name in Ht. destruct (binary_temporary t Ht) as [x ->]. apply Hi. split.
    + eapply under_trans; [|exact Hu]. unfold release_path, app_releases_dir. rewrite <-!app_assoc. apply under_app.
    + intros ->. destruct Hu as [r Hr]. apply (f_equal length) in Hr. unfold release_path, app_releases_dir in Hr.
      rewrite !length_app in Hr. cbn in Hr. lia.
  - apply Hi. split.
    + eapply under_trans; [|exact Hu]. unfold release_path, app_releases_dir. rewrite <-!app_assoc. apply under_app.
    + intros ->. destruct Hu as [r Hr]. apply (f_equal length) in Hr. unfold release_path, app_releases_dir in Hr.
      rewrite !length_app in Hr. cbn in Hr. lia.
Qed.

(** *** Installing *)

Lemma others_previous s s' : others (touched (app_release_binary bin version)) s s' → at_previous s → at_previous s'.
Proof. intros Ho [Hp Hb]. split; rewrite Ho; [done|apply pointer_untouched|done|apply previous_untouched]. Qed.

Lemma copy_hoare p body : download_path p →
  hoare (λ s, (at_previous s ∧ no_links s) ∧ s !! p = Some (File body)) (copy_file_atomically p (app_release_binary bin version))
    (λ _, installed body) at_previous.
Proof.
  intros Hd w [[Hp Hl] Hb].
  assert (copying (release_path bin version) "pv" body (files w) p (files w)) as Hc.
  { unfold copying, waiting. rewrite <-binary_name. split; [|done]. split_and!; [done..|]. intros t Ht. right. by apply Hl. }
  pose proof (copy_file_atomically_hoare (release_path bin version) "pv" body (files w) p) as Hcopy.
  rewrite <-binary_name in Hcopy. specialize (Hcopy (download_untouched p Hd) w Hc).
  destruct (copy_file_atomically p (app_release_binary bin version) w) as [[[]|e] w'].
  - destruct Hcopy as [Hnew Ho]. rewrite <-?binary_name in Hnew, Ho. split; [by eapply others_previous|done].
  - destruct Hcopy as [_ Ho]. rewrite <-?binary_name in Ho. by eapply others_previous.
Qed.

Lemma install_hoare p body : download_path p →
  hoare (λ s, (at_previous s ∧ no_links s) ∧ s !! p = Some (File body)) (install_downloaded bin version p)
    (λ _, installed body) at_previous.
Proof.
  intros Hd. unfold install_downloaded.
  assert (hoare (λ s, (at_previous s ∧ no_links s) ∧ s !! p = Some (File body)) (install_release_binary bin version p)
    (λ _, installed body) at_previous) as Hi.
  { unfold install_release_binary. eapply hoare_bind; [apply hoare_lift; by intros s [[]]|]. intros []. apply hoare_pure. intros _.
    eapply hoare_seq; [by apply hoare_map_err, copy_hoare|]. eapply hoare_seq; [|intros w Hw; exact Hw].
    apply hoare_look; [|by intros s []]. apply changes_map_err, changes_secure_file. }
  eapply hoare_bind; [by eapply hoare_try|]. intros [i|e].
  - eapply hoare_bind.
    { apply hoare_calm; [apply inner_installed| |by intros s []]. apply changes_try, calm_remove_download. by apply download_outside. }
    intros [r|e]; [by intros w Hw|]. eapply hoare_pre; [|apply hoare_fail]. by intros s [].
  - eapply hoare_bind.
    { apply hoare_calm; [apply inner_previous| |done]. apply changes_try, calm_remove_download. by apply download_outside. }
    intros r. eapply hoare_seq; [apply hoare_calm; [apply inner_previous|apply calm_cleanup_warning|done]|]. apply hoare_fail.
Qed.

(** *** Switching, and back *)

Definition safe (body : string) (s : Fs) : Prop := at_previous s ∨ at_new body s.

Lemma binary_not_pointer v : ¬ pointer_paths bin (app_release_binary bin v).
Proof. apply releases_not_pointer, app_release_under. Qed.

Lemma activate_new_hoare body : hoare (installed body) (activate_release bin version) (λ _, at_new body) (safe body).
Proof.
  intros w [[Hp Hb] Hn]. pose proof (activate_hoare bin version (files w) w ltac:(by split)) as Ha.
  assert (∀ s, others (pointer_paths bin) (files w) s → s !! app_release_binary bin version = Some (File body)
    ∧ s !! app_release_binary bin previous = Some (File c0)) as Hbin by by intros s Ho; rewrite !Ho by apply binary_not_pointer.
  destruct (activate_release bin version w) as [[[]|e] w'].
  - destruct Ha as [_ (Hl & Ho & _)]. destruct (Hbin _ Ho). by split_and!.
  - destruct Ha as [[Hl Ho]|(Hl & Ho & _)]; destruct (Hbin _ Ho).
    + left. split; [by rewrite Hl|done].
    + right. by split_and!.
Qed.

Lemma activate_previous_hoare body : hoare (at_new body) (activate_release bin previous) (λ _, at_previous) (safe body).
Proof.
  intros w (Hp & Hn & Hb). pose proof (activate_hoare bin previous (files w) w ltac:(by split)) as Ha.
  assert (∀ s, others (pointer_paths bin) (files w) s → s !! app_release_binary bin version = Some (File body)
    ∧ s !! app_release_binary bin previous = Some (File c0)) as Hbin by by intros s Ho; rewrite !Ho by apply binary_not_pointer.
  destruct (activate_release bin previous w) as [[[]|e] w'].
  - destruct Ha as [_ (Hl & Ho & _)]. destruct (Hbin _ Ho). by split.
  - destruct Ha as [[Hl Ho]|(Hl & Ho & _)]; destruct (Hbin _ Ho).
    + right. split_and!; [by rewrite Hl|done|done].
    + left. by split.
Qed.

Lemma remove_failed_hoare : hoare at_previous (remove_release bin version) (λ _, at_previous) at_previous.
Proof.
  apply (hoare_changes (under (release_path bin version))); [| |done].
  - unfold remove_release. apply changes_bind; [apply changes_lift|intros _u].
    apply changes_map_err, changes_or_missing, changes_at_path, changes_std_remove_dir_all.
  - intros s s' Hs [Hp Hb]. split; rewrite Hs; try done.
    + unfold release_path, app_releases_dir, active_pv_binary. intros [r Hr]. rewrite <-!app_assoc in Hr. by apply app_inv_head in Hr.
    + rewrite binary_name. by apply (release_path_apart bin previous); [|apply under_app].
Qed.

Lemma prune_hoare body : hoare (at_new body) (prune_releases bin previous) (λ _, at_new body) (at_new body).
Proof.
  intros w Hw. pose proof (prune_releases_hoare bin previous (files w) w eq_refl) as Hpr.
  assert (∀ s, others (stale_paths bin (kept_by bin previous (files w))) (files w) s → at_new body s) as Ho.
  { intros s Ho. destruct Hw as (Hp & Hn & Hb).
    assert (∀ v, kept_by bin previous (files w) v → s !! app_release_binary bin v = files w !! app_release_binary bin v) as Hkeep.
    { intros v Hv. apply Ho. intros (x & Hx & Hu). rewrite binary_name in Hu.
      destruct (decide (x = v)) as [->|Hne]; [done|].
      by apply (release_path_apart bin v x (release_path bin v ++ ["pv"])); [by symmetry|apply under_app|]. }
    split_and!.
    - rewrite Ho; [done|]. intros (x & _ & r & Hr). unfold release_path, app_releases_dir, active_pv_binary in Hr.
      rewrite <-!app_assoc in Hr. by apply app_inv_head in Hr.
    - rewrite Hkeep; [done|]. left. split; [done|by eexists].
    - rewrite Hkeep; [done|by right]. }
  destruct (prune_releases bin previous w) as [[[]|e] w']; [apply Ho, Hpr|apply Ho, Hpr].
Qed.

(** *** Errors *)

(** The errors that say the previous release is back. *)
Definition rolled_back (e : ExecuteError) : bool :=
  match e with AppUpdateRollbackDaemonFailed _ _ | AppUpdatePostActivationFailed _ => true | _ => false end.

Definition plain {A : Type} (m : IO ExecuteError A) : Prop := ∀ w e w', m w = (Err e, w') → rolled_back e = false.

Lemma plain_bind {A B : Type} (m : IO ExecuteError A) (f : A → IO ExecuteError B) : plain m → (∀ a, plain (f a)) → plain (m ≫= f).
Proof.
  intros Hm Hf w e w'. unfold mbind, io_bind. destruct (m w) as [[a|e1] w1] eqn:E; [apply Hf|]. intros [= <- <-]. by eapply Hm.
Qed.
Lemma plain_ret {A : Type} (a : A) : plain (mret a).
Proof. done. Qed.
Lemma plain_fail {A : Type} e : rolled_back e = false → plain (io_fail (A := A) e).
Proof. intros He w e' w' [= <- <-]. done. Qed.
Lemma plain_map_err {E A : Type} (f : E → ExecuteError) (m : IO E A) : (∀ e, rolled_back (f e) = false) → plain (io_map_err f m).
Proof. intros Hf w e w'. unfold io_map_err. destruct (m w) as [[a|e1] w1]; [done|]. intros [= <- <-]. apply Hf. Qed.
Lemma plain_try {E A : Type} (m : IO E A) : plain (io_try m).
Proof. intros w e w'. unfold io_try. by destruct (m w). Qed.

Lemma plain_manifest {A : Type} (r : result AppUpdateManifestError A) : plain (manifest_result r).
Proof. intros w e w'. unfold manifest_result, io_lift. destruct r; [done|]. by intros [= <- <-]. Qed.

Lemma plain_warning {E : Type} (r : result E unit) s : plain (match r with Err _ => warn s | Ok _ => mret tt end).
Proof. destruct r; [apply plain_ret|by apply plain_map_err]. Qed.

Lemma plain_remove_download p : plain (remove_download p).
Proof. by apply plain_map_err. Qed.

Lemma plain_reject {A : Type} p e : rolled_back e = false → plain (reject_download (A := A) p e).
Proof.
  intros He. unfold reject_download. apply plain_bind; [apply plain_try|intros r].
  apply plain_bind; [apply plain_warning|intros _u; by apply plain_fail].
Qed.

Lemma plain_download_asset asset : plain (download_app_asset asset).
Proof.
  unfold download_app_asset. apply plain_bind; [by apply plain_map_err|intros _u]. apply plain_bind; [by intros w e w'|intros p].
  apply plain_bind; [by apply plain_map_err|intros _u2].
  assert (plain (download (aa_url asset) p)) as Hd.
  { intros w e w'. unfold download. destruct (transfer (aa_url asset) (clock w)) as [body outcome].
    destruct (std_write p body w) as [[[]|e1] w1]; [destruct outcome|]; intros [= <- <-]; done. }
  intros w e w'. unfold mbind, io_bind, io_try. destruct (download (aa_url asset) p w) as [[body|e1] w1] eqn:E.
  - destruct (negb _); [by apply plain_reject|]. destruct (negb _); [by apply plain_reject|done].
  - apply plain_reject. by eapply Hd.
Qed.

Lemma plain_validate current : plain (validate_active_release bin current).
Proof.
  unfold validate_active_release. apply plain_bind; [by apply plain_map_err|intros [v|]]; [|by apply plain_fail].
  case_bool_decide; [apply plain_ret|by apply plain_fail].
Qed.

Lemma plain_install p : plain (install_downloaded bin version p).
Proof.
  unfold install_downloaded. apply plain_bind; [apply plain_try|intros r1].
  intros w e w'. unfold mbind, io_bind, io_try. destruct (remove_download p w) as [[[]|e1] w1] eqn:E; destruct r1 as [i|e2].
  - done.
  - apply (plain_bind (write_download_cleanup_warning (Ok tt)) (λ _, io_fail (State e2))); [apply plain_ret|intros _u; by apply plain_fail].
  - intros [= <- <-]. by eapply plain_remove_download.
  - apply (plain_bind (write_download_cleanup_warning (Err e1)) (λ _, io_fail (State e2)));
      [by apply plain_map_err|intros _u; by apply plain_fail].
Qed.

(** *** Triples over the phase's errors *)

Lemma triple_plain {A : Type} P (m : IO ExecuteError A) Q (Y : Fs → Prop) (X : ExecuteError → Fs → Prop) :
  hoare P m Q Y → plain m → (∀ e s, Y s → rolled_back e = false → X e s) → triple P m Q X.
Proof.
  intros Hm Hplain HX w Hw. specialize (Hm w Hw). destruct (m w) as [[a|e] w'] eqn:E; [done|]. apply HX; [done|by eapply Hplain].
Qed.

(** How the phase may fail: on one of the two releases, and on the previous one if it says so. *)
Definition failed (body : string) (e : ExecuteError) (s : Fs) : Prop :=
  safe body s ∧ (rolled_back e = true → at_previous s).

Lemma failed_plain body (P : Fs → Prop) : (∀ s, P s → safe body s) → ∀ e s, P s → rolled_back e = false → failed body e s.
Proof. intros HP e s Hs He. split; [by apply HP|congruence]. Qed.

(** A line of output between two steps. *)
Lemma triple_say {A : Type} body P (m : IO ExecuteError A) l Q : inner P → (∀ s, P s → safe body s) →
  triple P m Q (failed body) → triple P (say l ≫= λ _, m) Q (failed body).
Proof.
  intros HP Hsafe Hm. eapply triple_bind; [|intros _u; exact Hm].
  eapply (triple_plain _ _ _ P); [|by apply plain_map_err|by apply failed_plain].
  apply hoare_calm; [done|by apply changes_map_err, output_calm|done].
Qed.

Lemma triple_warning {E A : Type} body P (r : result E unit) (m : IO ExecuteError A) l Q : inner P → (∀ s, P s → safe body s) →
  triple P m Q (failed body) → triple P ((match r with Err _ => warn l | Ok _ => mret tt end) ≫= λ _, m) Q (failed body).
Proof.
  intros HP Hsafe Hm. eapply triple_bind; [|intros _u; exact Hm].
  eapply (triple_plain _ _ _ P); [|by apply plain_warning|by apply failed_plain].
  apply hoare_calm; [done|apply calm_cleanup_warning|done].
Qed.

Lemma safe_inner body : inner (safe body).
Proof. intros s s' Hs [Hp|Hn]; [left; by eapply inner_previous|right; by eapply inner_new]. Qed.

Lemma calm_hoare_restart P agent check : inner P → hoare P (restart_daemon_without_reconciliation agent check) (λ _, P) P.
Proof. intros HP. apply hoare_calm; [done|apply calm_restart|done]. Qed.

Lemma plain_failure_message e : plain (app_update_failure_message e).
Proof.
  destruct e; try apply plain_ret. unfold app_update_failure_message, daemon_startup_failure_message, read_daemon_startup_failure.
  repeat (apply plain_bind; [|intros ?; apply plain_ret]). apply plain_try.
Qed.

Lemma report_triple {E A : Type} body l l' (r : result E unit) e (Q : A → Fs → Prop) :
  triple at_previous (_ ← say l; _ ← (match r with Err _ => warn l' | Ok _ => mret tt end); io_fail e) Q (failed body).
Proof.
  assert (∀ s, at_previous s → safe body s) as Hps by by left.
  apply triple_say; [apply inner_previous|done|]. apply triple_warning; [apply inner_previous|done|].
  eapply triple_pre; [|apply triple_fail]. intros s Hs. by split; [apply Hps|].
Qed.

Lemma finish_triple {E : Type} body l (r : result E unit) :
  triple (at_new body) (_ ← (match r with Err _ => warn l | Ok _ => mret tt end); mret Updated)
    (λ o s, o = Updated ∧ at_new body s) (failed body).
Proof. apply triple_warning; [apply inner_new|by right|]. by intros w Hw. Qed.

Lemma rollback_triple agent body e :
  triple (at_new body) (rollback_app_update bin agent previous version e) (λ _ _, False) (failed body).
Proof.
  unfold rollback_app_update. assert (∀ s, at_new body s → safe body s) as Hns by by right.
  eapply triple_bind.
  { eapply (triple_plain _ _ _ (at_new body)); [|apply plain_failure_message|by apply failed_plain].
    apply hoare_calm; [apply inner_new|apply calm_failure_message|done]. }
  intros message. eapply triple_try; [apply activate_previous_hoare| |].
  - intros _u. eapply triple_try; [apply remove_failed_hoare| |]; intros r;
      (eapply triple_try; [apply calm_hoare_restart, inner_previous| |]; intros r').
    + apply (report_triple (E := StateError) body _ "failed to remove failed PV app release" (Ok r)).
    + apply (report_triple (E := StateError) body _ "failed to remove failed PV app release" (Ok r)).
    + apply (report_triple (E := StateError) body _ "failed to remove failed PV app release" (Err r)).
    + apply (report_triple (E := StateError) body _ "failed to remove failed PV app release" (Err r)).
  - intros r. apply triple_say; [apply safe_inner|done|]. eapply triple_pre; [|apply triple_fail]. intros s Hs. by split.
Qed.

Lemma switch_triple agent body :
  triple (installed body) (switch_release bin agent previous version) (λ o s, o = Updated ∧ at_new body s) (failed body).
Proof.
  unfold switch_release. assert (∀ s, at_new body s → safe body s) as Hns by by right.
  eapply triple_bind.
  { eapply (triple_plain _ _ _ (safe body)); [apply hoare_map_err, activate_new_hoare|by apply plain_map_err|by apply failed_plain]. }
  intros _u. eapply triple_try; [apply calm_hoare_restart, inner_new| |].
  - intros _u2. apply triple_say; [apply inner_new|done|]. apply triple_say; [apply inner_new|done|].
    eapply triple_try; [apply prune_hoare| |]; intros r; [apply (finish_triple (E := StateError) body "failed to prune old PV app releases" (Ok r))|apply (finish_triple (E := StateError) body "failed to prune old PV app releases" (Err r))].
  - intros e w Hw. pose proof (rollback_triple agent body e w Hw) as Hr. by destruct (rollback_app_update _ _ _ _ _ w) as [[o|e'] w'].
Qed.
End releases.

(** ** The whole phase *)

Lemma version_compare_refl v : version_compare v v = Eq.
Proof.
  unfold version_compare. rewrite !N.compare_refl. induction (av_raw v) as [|c r IH]; [done|]. cbn [String.compare].
  unfold Ascii.compare. by rewrite N.compare_refl.
Qed.

(** A newer version has another text. *)
Lemma newer_distinct current v : version_parse (av_raw current) = Ok current → version_parse (av_raw v) = Ok v →
  version_gt v current = true → av_raw current ≠ av_raw v.
Proof.
  intros Hc Hv Hgt Heq. assert (v = current) as -> by congruence. unfold version_gt in Hgt. by rewrite version_compare_refl in Hgt.
Qed.

Lemma manifest_version json m : parse_app_manifest json = Ok m → version_parse (av_raw (am_version m)) = Ok (am_version m).
Proof.
  unfold parse_app_manifest, manifest_parse. destruct (json_parse json) as [raw|]; [|done]. cbn [map_err mbind result_bind].
  unfold from_raw. destruct (negb _); [done|]. destruct (negb _); [done|].
  destruct (version_parse (rm_version raw)) as [v|] eqn:Hv; [|done]. cbn [mbind result_bind]. intros Hm.
  destruct (version_parse (rm_minimum_pv_version raw)) as [minimum|]; [|done]. cbn [mbind result_bind] in Hm.
  destruct (current_version pkg_version) as [cur|]; [|done]. cbn [mbind result_bind] in Hm. destruct (version_gt minimum cur); [done|].
  destruct (published_at_parse _ _); [|done]. cbn [mbind result_bind] in Hm. destruct (parse_assets _ _); [|done]. cbn in Hm.
  injection Hm as <-. cbn. by rewrite (proj1 (version_parse_raw _ _ Hv)).
Qed.

(** What the manifest that was fetched offers for this host: a version and a binary. *)
Definition offered (v : AppUpdateVersion) (body : string) : Prop :=
  ∃ json m platform asset, (∃ w w', fetch_manifest_text w = (Ok json, w')) ∧ parse_app_manifest json = Ok m
    ∧ app_update_platform = Ok platform ∧ select_platform m platform = Ok asset
    ∧ v = am_version m ∧ N.of_nat (len body) = aa_size asset ∧ sha256_hex body = digest_str (aa_sha256 asset).

Section phase.
Variables (current : AppUpdateVersion) (c0 : string).
Hypothesis current_ok : current_pv_version = Ok current.
Let previous : string := av_raw current.

Definition beginning (s : Fs) : Prop := at_previous previous c0 s ∧ ∀ v, no_links v s.

Definition updated (s : Fs) : Prop :=
  ∃ v body, version_gt v current = true ∧ offered v body ∧ at_new previous (av_raw v) c0 body s.

Definition phase_failed (e : ExecuteError) (s : Fs) : Prop :=
  (at_previous previous c0 s ∨ updated s) ∧ (rolled_back e = true → at_previous previous c0 s).

Lemma beginning_inner : inner beginning.
Proof.
  intros s s' Hs [Hp Hl]. split; [by eapply inner_previous|]. intros v. by eapply inner_no_links.
Qed.

Lemma beginning_failed e s : beginning s → rolled_back e = false → phase_failed e s.
Proof. intros [Hp _] He. split; [by left|congruence]. Qed.

(** A step that keeps out of [bin]. *)
Lemma phase_step {A B : Type} (m : IO ExecuteError A) (f : A → IO ExecuteError B) Q : calm m → plain m →
  (∀ a, triple beginning (f a) Q phase_failed) → triple beginning (m ≫= f) Q phase_failed.
Proof.
  intros Hm Hplain Hf. eapply triple_bind; [|exact Hf]. eapply (triple_plain _ _ _ beginning); [|done|exact beginning_failed].
  apply hoare_calm; [apply beginning_inner|done|done].
Qed.

(** A step of which the result is told. *)
Lemma phase_step_told {A B : Type} (m : IO ExecuteError A) (f : A → IO ExecuteError B) Q : calm m → plain m →
  (∀ a, (∃ w w', m w = (Ok a, w')) → triple beginning (f a) Q phase_failed) → triple beginning (m ≫= f) Q phase_failed.
Proof.
  intros Hm Hplain Hf. eapply (triple_bind _ _ _ (λ a s, (∃ w w', m w = (Ok a, w')) ∧ beginning s)).
  - eapply (triple_plain _ _ _ beginning); [|done|exact beginning_failed]. intros w Hw.
    pose proof (hoare_calm beginning beginning m beginning_inner Hm ltac:(done) w Hw) as Hh.
    destruct (m w) as [[a|e] w'] eqn:E; [|done]. split; [by exists w, w'|done].
  - intros a w [Ha Hw]. by apply Hf.
Qed.

Lemma phase_manifest {A B : Type} (r : result AppUpdateManifestError A) (f : A → IO ExecuteError B) Q :
  (∀ a, r = Ok a → triple beginning (f a) Q phase_failed) → triple beginning (manifest_result r ≫= f) Q phase_failed.
Proof.
  intros Hf. apply phase_step_told; [by intros w q|apply plain_manifest|]. intros a (w & w' & Ha). apply Hf.
  unfold manifest_result, io_lift in Ha. destruct r; cbn in Ha; congruence.
Qed.

Lemma calm_validate : calm (validate_active_release bin current).
Proof.
  unfold validate_active_release. apply changes_bind; [apply changes_map_err, calm_active_release|].
  intros [v|]; [|apply changes_fail]. case_bool_decide; [apply changes_ret|apply changes_fail].
Qed.

Lemma validate_told v : (∃ w w', validate_active_release bin current w = (Ok v, w')) → v = previous.
Proof.
  intros (w & w' & Hv). unfold validate_active_release, mbind, io_bind in Hv.
  destruct (io_map_err _ _ w) as [[[u|]|e] w1]; try done. case_bool_decide as Hu; [|done]. injection Hv as <- _. done.
Qed.

Definition phase_ok (o : AppUpdateOutcome) (s : Fs) : Prop :=
  match o with Current => at_previous previous c0 s | Updated => updated s end.

(** From the asset on. *)
Lemma update_triple agent m asset v : v = am_version m → version_gt v current = true → previous ≠ av_raw v →
  (∀ body, N.of_nat (len body) = aa_size asset → sha256_hex body = digest_str (aa_sha256 asset) → offered v body) →
  triple beginning (downloaded ← download_app_asset asset; _ ← install_downloaded bin (av_raw v) downloaded;
    switch_release bin agent previous (av_raw v)) phase_ok phase_failed.
Proof.
  intros -> Hgt Hne Hoff. set (v := am_version m) in *. eapply triple_bind.
  { eapply (triple_plain _ _ _ beginning); [apply download_app_asset_hoare, beginning_inner|apply plain_download_asset|exact beginning_failed]. }
  intros p w [[Hp [Hprev Hl]] (body & Hb & Hsize & Hsha)]. revert w Hprev Hl Hb.
  enough (triple (λ s, (at_previous previous c0 s ∧ no_links (av_raw v) s) ∧ s !! p = Some (File body))
    (_ ← install_downloaded bin (av_raw v) p; switch_release bin agent previous (av_raw v)) phase_ok phase_failed) as Hm.
  { intros w Hprev Hl Hb. apply Hm. by split_and!. }
  assert (∀ s, at_new previous (av_raw v) c0 body s → updated s) as Hup by by intros s Hs; exists v, body; split_and!; [|apply Hoff|].
  eapply triple_bind.
  { eapply (triple_plain _ _ _ (at_previous previous c0)); [by apply install_hoare|apply plain_install|].
    intros e s Hs He. split; [by left|congruence]. }
  intros _u w Hw. pose proof (switch_triple previous (av_raw v) c0 Hne agent body w Hw) as Hs.
  destruct (switch_release bin agent previous (av_raw v) w) as [[o|e] w'].
  - destruct Hs as [-> Hs]. by apply Hup.
  - destruct Hs as [[Hs|Hs] He]; split; [by left|done|right; by apply Hup|done].
Qed.

Lemma phase_triple : triple beginning (run_app_update_phase bin) phase_ok phase_failed.
Proof.
  unfold run_app_update_phase.
  apply phase_step; [apply changes_map_err, output_calm|by apply plain_map_err|intros _u].
  apply phase_step; [apply changes_map_err, lock_calm|apply plain_map_err; by intros []|intros _u2].
  apply phase_step; [apply changes_map_err, changes_map_err, calm_ensure_layout|by apply plain_map_err|intros _u3].
  apply phase_manifest. intros cur Hcur. assert (cur = current) as -> by congruence.
  apply phase_step_told; [apply calm_validate|apply plain_validate|]. intros u ->%validate_told.
  apply phase_step; [apply changes_map_err, agent_calm|by apply plain_map_err|intros agent].
  apply phase_step_told; [apply changes_map_err, manifest_calm|by apply plain_map_err|intros json (w1 & w2 & Hjson)].
  apply phase_manifest. intros m Hm. destruct (version_gt (am_version m) current) eqn:Hgt; cbn [negb].
  - apply phase_manifest. intros platform Hplatform. apply phase_manifest. intros asset Hasset.
    apply (update_triple agent m asset); [done|done| |].
    + apply newer_distinct; [|by eapply manifest_version|done].
      unfold current_pv_version, current_version in current_ok. by rewrite (proj1 (version_parse_raw _ _ current_ok)).
    + intros body Hsize Hsha. exists json, m, platform, asset. split_and!; [|done..].
      unfold host, io_map_err in Hjson. destruct (fetch_manifest_text w1) as [[j|e] w1'] eqn:E; cbn in Hjson; [|done].
      injection Hjson as -> ->. by exists w1, w2.
  - apply phase_step; [apply changes_map_err, output_calm|by apply plain_map_err|intros _u4]. intros w [Hw _]. exact Hw.
Qed.
End phase.

(** C2: An update of the application never leaves PV without a whole release to run,
    whichever call fails. It starts with the pointer at the release of this build. If
    the phase reports no newer version, the pointer and that release are as they were;
    if it reports an update, the pointer leads to the binary of a newer version offered by
    the manifest that was fetched, of the size and digest given there; on an error it
    leads to one of the two, and to the release it started with if the error says that
    PV was rolled back; and the release it started with is kept in every case. *)
Theorem run_app_update_phase_safe current c0 w :
  current_pv_version = Ok current → at_previous (av_raw current) c0 (files w) → (∀ v, no_links v (files w)) →
  match run_app_update_phase bin w with
  | (Ok Current, w') => at_previous (av_raw current) c0 (files w')
  | (Ok Updated, w') => updated current c0 (files w')
  | (Err e, w') => (at_previous (av_raw current) c0 (files w') ∨ updated current c0 (files w'))
      ∧ (rolled_back e = true → at_previous (av_raw current) c0 (files w'))
  end.
Proof.
  intros Hc Hp Hl. pose proof (phase_triple current c0 Hc w (conj Hp Hl)) as Ht.
  by destruct (run_app_update_phase bin w) as [[[]|e] w'].
Qed.
End safety.

(** ** A sample update

    PV 1.2.0 finds 1.10.0 in the manifest; the new daemon comes up or does not. *)
Definition demo_bin : path := ["pv"; "bin"].

Definition sample_body : string := "new binary".
Definition sample_asset : RawAsset :=
  {| ra_platform := "darwin-arm64"; ra_url := "https://updates.example/pv"; ra_sha256 := SelfUpdate.digest_str {| digest_str :=
       "0123456789abcdef0123456789abcdef0123456789abcdef0123456789abcdef" |}; ra_size := 10 |}.
Definition sample_manifest : RawManifest :=
  {| rm_schema_version := 1; rm_channel := "stable"; rm_version := "1.10.0"; rm_minimum_pv_version := "1.0.0";
     rm_published_at := "2026-05-22T14:30:12Z"; rm_assets := [sample_asset] |}.

(** A host on which no call fails. *)
Definition sound_host : Host := {| fault_at := λ _, None; process_id := 7 |}.

Definition demo_environment (healthy : bool) : UpdateEnvironment := {|
  layout_directories := [["pv"]; ["pv"; "bin"]; ["pv"; "downloads"]; ["pv"; "run"]];
  downloads := ["pv"; "downloads"];
  daemon_startup_error := ["pv"; "run"; "daemon-startup-error.json"];
  acquire_update_lock := mret tt;
  normalize_launch_agent := mret ["Users"; "u"; "Library"; "LaunchAgents"; "com.prvious.pv.plist"];
  fetch_manifest_text := mret "{}";
  app_update_platform := Ok DarwinArm64;
  transfer := λ _ _, (sample_body, Ok tt);
  sha256_hex := λ body, if bool_decide (body = sample_body) then ra_sha256 sample_asset else "";
  bootout_launch_agent_if_loaded := mret tt;
  bootstrap_launch_agent := λ _, mret tt;
  kickstart_launch_agent := mret tt;
  wait_until_daemon_started := λ check, match check with
    | AcceptProtocolMismatch => if healthy then mret tt else io_fail (Daemon "timed out")
    | RequireCompatibleProtocol => mret tt
    end;
  output_line := λ _, mret tt;
  warning := λ _, mret tt;
  parse_marker := λ _, None;
  parse_rfc3339 := λ _, Some 0%Z;
  url_parse := λ _, Some {| url_scheme := "https"; url_host := Some "updates.example"; url_path_segments := Some ["pv"] |};
  json_parse := λ _, Ok sample_manifest;
  pkg_version := "1.2.0";
|}.

Definition demo_current : AppUpdateVersion := {| av_major := 1; av_minor := 2; av_patch := 0; av_raw := "1.2.0" |}.

Definition demo_world : World := {|
  files := list_to_map [
    (["pv"], Dir); (demo_bin, Dir); (demo_bin ++ ["releases"], Dir); (demo_bin ++ ["releases"; "1.2.0"], Dir);
    (demo_bin ++ ["releases"; "1.2.0"; "pv"], File "old binary"); (demo_bin ++ ["pv"], Link "releases/1.2.0/pv")];
  clock := 0; counter := 0 |}.

Definition demo_run (healthy : bool) : result ExecuteError AppUpdateOutcome * World :=
  run_app_update_phase (H := sound_host) (H0 := demo_environment healthy) demo_bin demo_world.

#[local] Instance demo_laws healthy : UpdateLaws (H := sound_host) (H0 := demo_environment healthy) demo_bin.
Proof.
  assert (∀ {E A : Type} (a : A), changes (E := E) (λ q, ¬ inside demo_bin q) (mret a)) as Hret by by intros E A a w q.
  split; cbn; try by intros; apply Hret.
  - repeat constructor; intros [[r Hr] Hne]; try done; congruence.
  - split; intros [r Hr]; done.
  - intros [[r Hr] _]. done.
  - intros c. destruct c; [apply Hret|]. destruct healthy; [apply Hret|by intros w q].
Qed.

Lemma no_links_sample v : no_links (H := sound_host) demo_bin v (files demo_world).
Proof.
  intros t Ht. destruct (is_link (files demo_world !! t)) eqn:Hl; [|done]. exfalso.
  destruct (files demo_world !! t) as [n|] eqn:Hn; [|done].
  assert (map_Forall (λ p n, is_link (Some n) = true → length p = 3) (files demo_world)) as Hall.
  { apply (bool_decide_eq_true_1 _). vm_compute. reflexivity. }
  specialize (Hall t n Hn Hl). destruct Ht as [k ->]. unfold temporary_path_at, with_file_name, app_release_binary, app_releases_dir in Hall.
  rewrite length_app in Hall. cbn in Hall. lia.
Qed.

Lemma run_app_update_phase_safe_witness :
  (demo_run true).1 = Ok Updated ∧ updated (H0 := demo_environment true) demo_bin demo_current "old binary" (files (demo_run true).2)
  ∧ (demo_run false).1 = Err (AppUpdatePostActivationFailed (inl "daemon did not become healthy after update"))
  ∧ at_previous demo_bin (av_raw demo_current) "old binary" (files (demo_run false).2).
Proof.
  assert (demo_run true = (Ok Updated, (demo_run true).2)) as E by (vm_compute; reflexivity).
  assert (demo_run false = (Err (AppUpdatePostActivationFailed (inl "daemon did not become healthy after update")), (demo_run false).2))
    as E' by (vm_compute; reflexivity).
  split; [by rewrite E|]. split; [|split; [by rewrite E'|]].
  - pose proof (run_app_update_phase_safe (H := sound_host) (H0 := demo_environment true) demo_bin demo_current "old binary" demo_world eq_refl
      ltac:(split; reflexivity) no_links_sample) as Hs. fold (demo_run true) in Hs. rewrite E in Hs. exact Hs.
  - pose proof (run_app_update_phase_safe (H := sound_host) (H0 := demo_environment false) demo_bin demo_current "old binary" demo_world eq_refl
      ltac:(split; reflexivity) no_links_sample) as Hs. fold (demo_run false) in Hs. rewrite E' in Hs. by apply Hs.
Defined.
