(* ===== verification/PfInstall.v ===== *)
(** * Installing the packet-filter redirects ([platform/src/pf.rs], second half): the
    state of the files, the privileged commands, and the way back *)

From S2P Require Import Prelude RustStr RustLines Paths HostFs StateFs PfRules.

Inductive PlatformError : Type :=
| SystemIntegration (message : string)
| SystemIntegrationCommand (command source : string)
| SystemIntegrationCommandStatus (command status : string).

Definition platform_error_display (e : PlatformError) : string :=
  match e with
  | SystemIntegration message => "system integration operation failed: " +:+ message
  | SystemIntegrationCommand command source =>
      "could not run system integration command `" +:+ command +:+ "`: " +:+ source
  | SystemIntegrationCommandStatus command status =>
      "system integration command `" +:+ command +:+ "` exited with " +:+ status
  end.

(** ** The state of a file *)

Inductive PfFileState (T : Type) : Type :=
| Missing (p : path)
| FileCurrent (p : path) (value : T)
| Stale (p : path) (expected actual : option T)
| Conflict (p : path)
| Unreadable (p : path) (message : string).
#[global] Arguments Missing {_} p.
#[global] Arguments FileCurrent {_} p value.
#[global] Arguments Stale {_} p expected actual.
#[global] Arguments Conflict {_} p.
#[global] Arguments Unreadable {_} p message.

Definition classify_pv_file_state {T : Type} `{EqDecision T} (p : path) (expected actual : option T) : PfFileState T :=
  match expected, actual with
  | Some expected, Some actual =>
      if bool_decide (expected = actual) then FileCurrent p actual else Stale p (Some expected) (Some actual)
  | Some expected, None => Stale p (Some expected) None
  | None, Some actual => FileCurrent p actual
  | None, None => Stale p None None
  end.

Definition has_pv_marker (content : string) : bool :=
  existsb (λ line, bool_decide (trim line = PV_MARKER)) (lines content).

(** What a file that was read says; [None]: there is none. *)
Definition reference_state (p : path) (expected : option PfConfReference) (content : option string) : PfFileState PfConfReference :=
  match content with
  | None => Missing p
  | Some content =>
      if negb (has_pv_marker content) then
        if existsb is_pv_pf_conf_reference_directive (active_lines content) then Conflict p else Missing p
      else classify_pv_file_state p expected (parse_embedded_pf_conf_reference content)
  end.

Definition pv_file_state {T : Type} `{EqDecision T} (p : path) (expected : option T) (parse : string → option T)
    (conflict_when_unmarked : bool) (content : option string) : PfFileState T :=
  match content with
  | None => Missing p
  | Some content =>
      if negb (has_pv_marker content) && conflict_when_unmarked then Conflict p
      else classify_pv_file_state p expected (parse content)
  end.

(** An argument of a command: a word, or a path's text. *)
Inductive Arg : Type := Word (text : string) | PathArg (p : path).
#[export] Instance arg_eq_dec : EqDecision Arg.
Proof. solve_decision. Defined.

Section pf.
Context `{Host}.

Definition read_optional (p : path) : IO FsError (option string) := or_missing None (content ← read_to_string p; mret (Some content)).

Definition inspect_pf_conf_reference {E : Type} (p : path) (expected : option PfConfReference) : IO E (PfFileState PfConfReference) := λ w,
  match read_optional p w with
  | (Ok content, w) => (Ok (reference_state p expected content), w)
  | (Err error, w) => (Ok (Unreadable p (fs_error_display error)), w)
  end.

Definition inspect_pv_file {E T : Type} `{EqDecision T} (p : path) (expected : option T) (parse : string → option T)
    (conflict_when_unmarked : bool) : IO E (PfFileState T) := λ w,
  match read_optional p w with
  | (Ok content, w) => (Ok (pv_file_state p expected parse conflict_when_unmarked content), w)
  | (Err error, w) => (Ok (Unreadable p (fs_error_display error)), w)
  end.

Definition inspect_pf_anchor_file {E : Type} (p : path) (expected : option PfRedirectConfig) : IO E (PfFileState PfRedirectConfig) :=
  inspect_pv_file p expected parse_anchor true.

(** ** Commands

    [run_system] is [run_system_command]: a program with its arguments. *)
Context (run_system : string → list Arg → IO PlatformError unit).

Definition sudo (args : list Arg) : IO PlatformError unit := run_system "/usr/bin/sudo" args.

Definition pfctl_check (p : path) : IO PlatformError unit := sudo [Word "/sbin/pfctl"; Word "-nf"; PathArg p].
Definition install_file (source target : path) : IO PlatformError unit :=
  sudo [Word "/usr/bin/install"; Word "-m"; Word "0644"; PathArg source; PathArg target].
Definition force_remove (p : path) : IO PlatformError unit := sudo [Word "/bin/rm"; Word "-f"; PathArg p].

Definition integration {A : Type} (m : IO FsError A) : IO PlatformError A :=
  io_map_err (λ e, SystemIntegration (fs_error_display e)) m.
Definition read_platform_file (p : path) : IO PlatformError string := integration (read_to_string p).
Definition read_optional_platform_file (p : path) : IO PlatformError (option string) := integration (read_optional p).
Definition write_temporary_file (p : path) (content : string) : IO PlatformError unit :=
  integration (write_sensitive_file p content).

Definition install_pf_anchor (prepared_anchor_path system_anchor_path : path) : IO PlatformError unit :=
  match parent system_anchor_path with
  | None => io_fail (SystemIntegration ("pf anchor path has no parent directory: " +:+ path_str system_anchor_path))
  | Some dir =>
      _ ← pfctl_check prepared_anchor_path;
      _ ← sudo [Word "/bin/mkdir"; Word "-p"; PathArg dir];
      install_file prepared_anchor_path system_anchor_path
  end.

Definition reload_pf (system_pf_conf_path : path) : IO PlatformError unit :=
  sudo [Word "/sbin/pfctl"; Word "-f"; PathArg system_pf_conf_path].

(** [rollback_pf_anchor_with_runner] and [rollback_pf_conf_with_runner] are the same code. *)
Definition rollback_file (system_path : path) (backup : option string) (backup_path : path) : IO PlatformError unit :=
  match backup with
  | Some backup =>
      _ ← integration (write_sensitive_file backup_path backup);
      _ ← install_file backup_path system_path;
      _ ← io_try (delete_file backup_path);
      mret tt
  | None => force_remove system_path
  end.
Definition rollback_pf_anchor : path → option string → path → IO PlatformError unit := rollback_file.
Definition rollback_pf_conf : path → option string → path → IO PlatformError unit := rollback_file.

(** The [pf.conf] to install, from the state of the one there. *)
Definition pf_conf_candidate (system_pf_conf_path : path) (prepared_reference : string)
    (state : PfFileState PfConfReference) : IO PlatformError string :=
  match state with
  | Missing _ =>
      current ← read_optional_platform_file system_pf_conf_path;
      mret (append_pf_reference (default "" current) prepared_reference)
  | FileCurrent _ _ => read_platform_file system_pf_conf_path
  | Stale _ _ _ =>
      current ← read_platform_file system_pf_conf_path;
      mret (append_pf_reference (remove_pf_reference_lines current) prepared_reference)
  | Conflict p => io_fail (SystemIntegration ("system pf.conf reference is not PV-owned: " +:+ path_str p))
  | Unreadable p message =>
      io_fail (SystemIntegration ("system pf.conf reference could not be inspected: " +:+ path_str p +:+ ": " +:+ message))
  end.

(** The closure after the anchor is in place. *)
Definition post_anchor (candidate_path system_pf_conf_path : path) : IO PlatformError unit :=
  _ ← pfctl_check candidate_path;
  _ ← install_file candidate_path system_pf_conf_path;
  _ ← reload_pf system_pf_conf_path;
  sudo [Word "/sbin/pfctl"; Word "-E"].

Definition rollback_message (name : string) (r : result PlatformError unit) : list string :=
  match r with Err e => [name +:+ ": " +:+ platform_error_display e] | Ok _ => [] end.

Definition roll_back (error : PlatformError) (system_anchor_path system_pf_conf_path : path)
    (anchor_backup pf_conf_backup : option string) (anchor_backup_path pf_conf_backup_path : path) : IO PlatformError unit :=
  conf ← io_try (rollback_pf_conf system_pf_conf_path pf_conf_backup pf_conf_backup_path);
  anchor ← io_try (rollback_pf_anchor system_anchor_path anchor_backup anchor_backup_path);
  match rollback_message "pf.conf" conf ++ rollback_message "pf anchor" anchor with
  | [] => io_fail error
  | rollback_errors =>
      io_fail (SystemIntegration (platform_error_display error +:+ "; additionally failed to rollback "
        +:+ join "; " rollback_errors))
  end.

Definition install_pf_redirects (prepared_anchor_path prepared_reference_path system_anchor_path system_pf_conf_path : path) :
    IO PlatformError unit :=
  prepared_anchor ← read_platform_file prepared_anchor_path;
  prepared_reference ← read_platform_file prepared_reference_path;
  if negb (option_bool (parse_anchor prepared_anchor)) then
    io_fail (SystemIntegration ("prepared pf anchor is not a valid PV anchor: " +:+ path_str prepared_anchor_path))
  else if negb (option_bool (parse_block prepared_reference)) then
    io_fail (SystemIntegration ("prepared pf.conf reference is not valid: " +:+ path_str prepared_reference_path))
  else
    system_reference_state ← inspect_pf_conf_reference system_pf_conf_path (Some PfConfReferenceUnit);
    candidate ← pf_conf_candidate system_pf_conf_path prepared_reference system_reference_state;
    let candidate_path := with_file_name "pf.conf.candidate" prepared_reference_path in
    anchor_backup ← read_optional_platform_file system_anchor_path;
    let anchor_backup_path := with_file_name "pf.anchor.rollback" prepared_anchor_path in
    pf_conf_backup ← read_optional_platform_file system_pf_conf_path;
    let pf_conf_backup_path := with_file_name "pf.conf.rollback" prepared_reference_path in
    _ ← integration (write_sensitive_file candidate_path candidate);
    _ ← install_pf_anchor prepared_anchor_path system_anchor_path;
    post_anchor_result ← io_try (post_anchor candidate_path system_pf_conf_path);
    match post_anchor_result with
    | Err error =>
        roll_back error system_anchor_path system_pf_conf_path anchor_backup pf_conf_backup anchor_backup_path pf_conf_backup_path
    | Ok _ => mret tt
    end.

(** ** Removing *)

(** [getrandom::fill], in hexadecimal. *)
Context (random_suffix : result string string).

Definition temporary_pf_conf_candidate_path (candidate_dir : path) : result PlatformError path :=
  suffix ← map_err SystemIntegration random_suffix;
  Ok (candidate_dir ++ ["pv-pf-conf-" +:+ suffix +:+ "-uninstall"]).

Definition remove_reference (system_pf_conf_path candidate_dir : path) (state : PfFileState PfConfReference) : IO PlatformError unit :=
  match state with
  | Missing _ => mret tt
  | FileCurrent _ _ | Stale _ _ _ =>
      current ← read_platform_file system_pf_conf_path;
      let candidate := remove_pf_reference_lines current in
      candidate_path ← io_lift (temporary_pf_conf_candidate_path candidate_dir);
      _ ← write_temporary_file candidate_path candidate;
      _ ← pfctl_check candidate_path;
      install_file candidate_path system_pf_conf_path
  | Conflict p => io_fail (SystemIntegration ("system pf.conf reference is not PV-owned: " +:+ path_str p))
  | Unreadable p message =>
      io_fail (SystemIntegration ("system pf.conf reference could not be inspected: " +:+ path_str p +:+ ": " +:+ message))
  end.

Definition remove_pf_redirects (system_anchor_path system_pf_conf_path candidate_dir : path) : IO PlatformError unit :=
  system_reference_state ← inspect_pf_conf_reference system_pf_conf_path None;
  _ ← remove_reference system_pf_conf_path candidate_dir system_reference_state;
  _ ← force_remove system_anchor_path;
  reload_pf system_pf_conf_path.

(** ** The active rules *)

Section active.
Context (run_system_output : string → list string → IO PlatformError string).
Inductive PrivilegeMode : Type := Interactive | NonInteractive.

Definition sudo_pfctl_args (mode : PrivilegeMode) : list string :=
  match mode with Interactive => ["/sbin/pfctl"] | NonInteractive => ["-n"; "/sbin/pfctl"] end.

Definition active_pf_rules (pfctl_args : list string) (mode : PrivilegeMode) : IO PlatformError string :=
  rules ← io_try (run_system_output "/sbin/pfctl" pfctl_args);
  match rules with
  | Ok rules => mret rules
  | Err non_sudo_error =>
      rules ← io_try (run_system_output "/usr/bin/sudo" (sudo_pfctl_args mode ++ pfctl_args));
      match (rules : result PlatformError string) with
      | Ok rules => mret rules
      | Err _ => io_fail non_sudo_error
      end
  end.

Definition active_pf_redirect_config (mode : PrivilegeMode) : IO PlatformError (option PfRedirectConfig) :=
  main_nat_rules ← active_pf_rules ["-s"; "nat"] mode;
  if negb (main_nat_rules_load_pv_rdr_anchor main_nat_rules) then mret None
  else
    anchor_nat_rules ← active_pf_rules ["-a"; "com.prvious.pv"; "-s"; "nat"] mode;
    mret (parse_active_rules anchor_nat_rules).

Definition parse_pf_enabled (info : string) : result PlatformError bool :=
  ok_or (first_status (active_lines info)) (SystemIntegration "pfctl status did not report whether PF is enabled").

Definition inspect_active_pf_redirects_unprivileged : IO PlatformError ActivePfRedirectInspection :=
  pf_info ← run_system_output "/sbin/pfctl" ["-s"; "info"];
  enabled ← io_lift (parse_pf_enabled pf_info);
  main_nat_rules ← run_system_output "/sbin/pfctl" ["-s"; "nat"];
  '(config, unparsed) ← (if main_nat_rules_load_pv_rdr_anchor main_nat_rules then
      anchor_nat_rules ← run_system_output "/sbin/pfctl" ["-a"; "com.prvious.pv"; "-s"; "nat"];
      let config := parse_active_rules anchor_nat_rules in
      mret (config, negb (option_bool config) && negb (bool_decide (active_lines anchor_nat_rules = [])))
    else mret (None, false));
  recursive_nat_rules ← run_system_output "/sbin/pfctl" ["-a"; "*"; "-s"; "nat"];
  let '(ports, unresolved) := inspect_redirect_targets recursive_nat_rules in
  mret {| pf_enabled := enabled; pv_config := config; pv_anchor_has_unparsed_rules := unparsed;
          resolved_target_ports := ports; has_unresolved_redirect_targets := unresolved |}.
End active.
End pf.

(** ** The configuration that is installed *)

(** The [pf.conf] put in place of the one there ([None]: there is none), when there is one. *)
Definition candidate_of (prepared_reference : string) (content : option string) : option string :=
  match reference_state [] (Some PfConfReferenceUnit) content with
  | Missing _ => Some (append_pf_reference (default "" content) prepared_reference)
  | FileCurrent _ _ => content
  | Stale _ _ _ => current ← content; Some (append_pf_reference (remove_pf_reference_lines current) prepared_reference)
  | Conflict _ | Unreadable _ _ => None
  end.

(** The user's rules, in order. *)
Definition user_rules (content : string) : list string := omap keep_active (user_lines content).

Lemma user_rules_append content reference : trim content ≠ "" → user_rules (append_pf_reference content reference) = user_rules content.
Proof. intros Hc. unfold user_rules. by rewrite user_append. Qed.

Lemma user_rules_remove content : user_rules (remove_pf_reference_lines content) = user_rules content.
Proof.
  unfold user_rules, user_lines. rewrite trimmed_remove. f_equal. induction (trimmed_lines content) as [|t l IH]; [done|].
  cbn [List.filter]. destruct (negb (is_pv_line t)) eqn:Ht; [|done]. cbn [List.filter]. by rewrite Ht, IH.
Qed.

(** A block of nothing but the reference holds it. *)
Lemma block_embedded reference : parse_block reference = Some PfConfReferenceUnit →
  parse_embedded_pf_conf_reference reference = Some PfConfReferenceUnit.
Proof.
  unfold parse_block, parse_embedded_pf_conf_reference.
  assert (∀ l has has', fold_lines (directive_line (λ _ _, None)) l has = Some has' → fold_lines embedded_line l has = Some has') as Hl.
  { induction l as [|x l IH]; intros has has'; [done|]. cbn [fold_lines]. unfold embedded_line, directive_line.
    destruct (bool_decide (x = PF_RDR_ANCHOR_DIRECTIVE)).
    - destruct has.1; [done|]. cbn [mbind option_bind]. apply IH.
    - destruct (bool_decide (x = PF_LOAD_ANCHOR_DIRECTIVE)); [|done]. destruct has.2; [done|]. cbn [mbind option_bind]. apply IH. }
  destruct (fold_lines _ (active_lines reference) (false, false)) as [has|] eqn:Hf; [|done]. rewrite (Hl _ _ _ Hf).
  cbn [mbind option_bind]. rewrite <-andb_assoc. destruct (length (active_lines reference) =? 2); [|done]. done.
Qed.

Lemma append_recognised content reference : parse_block reference = Some PfConfReferenceUnit → names_pv_anchor content = false →
  parse_embedded_pf_conf_reference (append_pf_reference content reference) = Some PfConfReferenceUnit.
Proof.
  intros Hr Hn. destruct (decide (trim content = "")) as [Hb|Hb]; [|by apply append_embedded].
  unfold append_pf_reference. rewrite (proj2 (is_empty_true _) Hb). by apply block_embedded.
Qed.

(** The [pf.conf] that is installed in place of the one there. It holds the PV
    reference, unless the old one carries the PV marker beside a rule on the PV anchor
    that is not one of PV's own lines; the user's rules are the same, in the same
    order; and there is one to install for every file but one that names the PV anchor
    without the PV marker, which is left to its owner. *)
Theorem candidate_spec reference content :
  parse_block reference = Some PfConfReferenceUnit →
  match candidate_of reference content with
  | Some candidate =>
      (names_pv_anchor (remove_pf_reference_lines (default "" content)) = false →
         parse_embedded_pf_conf_reference candidate = Some PfConfReferenceUnit)
      ∧ (∀ c, content = Some c → trim c ≠ "" → trim (remove_pf_reference_lines c) ≠ "" → user_rules candidate = user_rules c)
  | None => ∃ c, content = Some c ∧ has_pv_marker c = false ∧ names_pv_anchor c = true
  end.
Proof.
  intros Hr. unfold candidate_of, reference_state. destruct content as [c|]; cbn [default].
  2:{ split; [|done]. intros _. apply append_recognised; done. }
  destruct (has_pv_marker c) eqn:Hm; cbn [negb].
  - unfold classify_pv_file_state. destruct (parse_embedded_pf_conf_reference c) as [[]|] eqn:He.
    + rewrite bool_decide_eq_true_2 by done. split; [done|]. by intros c' [= <-].
    + cbn [mbind option_bind]. split; [by apply append_recognised|]. intros c' [= <-] Hc Hrem.
      by rewrite user_rules_append, user_rules_remove.
  - fold (names_pv_anchor c). destruct (names_pv_anchor c) eqn:Hn; [by exists c|].
    split; [intros _; by apply append_recognised|]. intros c' [= <-] Hc _. by apply user_rules_append.
Qed.

Lemma candidate_spec_witness :
  parse_block reference_render = Some PfConfReferenceUnit
  ∧ ∃ candidate, candidate_of reference_render (Some sample_pf_conf) = Some candidate
      ∧ parse_embedded_pf_conf_reference candidate = Some PfConfReferenceUnit.
Proof.
  split; [reflexivity|]. pose proof (candidate_spec reference_render (Some sample_pf_conf) eq_refl) as Hc.
  destruct (candidate_of reference_render (Some sample_pf_conf)) as [candidate|] eqn:E; [|vm_compute in E; discriminate E].
  exists candidate. split; [done|]. apply Hc. vm_compute. reflexivity.
Defined.

(** A rule on the PV anchor that starts like a PV line without being one stays where it
    is, and makes what is installed unrecognised, so the reference stays stale. *)
Definition stray_pf_conf : string :=
  unlines [PV_MARKER; PF_CONF_SOURCE_MARKER; PF_RDR_ANCHOR_DIRECTIVE +:+ " all"; "pass out all"].

Example stray_rule_keeps_the_reference_stale :
  ∃ candidate, candidate_of reference_render (Some stray_pf_conf) = Some candidate
    ∧ parse_embedded_pf_conf_reference candidate = None
    ∧ candidate_of reference_render (Some candidate) = Some candidate.
Proof. eexists. split_and!; [vm_compute; reflexivity|vm_compute; reflexivity|vm_compute; reflexivity]. Qed.

(** ** What the privileged commands promise

    [pfctl] touches no file; [mkdir -p] only the directories named; [rm -f] and
    [install] only their target, which [install] replaces by a file with the content of
    its source. *)
Class SystemCommands `{Host} (run_system : string → list Arg → IO PlatformError unit) := {
  pfctl_looks args : changes (λ _, False) (run_system "/usr/bin/sudo" (Word "/sbin/pfctl" :: args));
  mkdir_makes p : changes (λ q, q ∈ ancestors p) (run_system "/usr/bin/sudo" [Word "/bin/mkdir"; Word "-p"; PathArg p]);
  rm_removes (p : path) w :
    match run_system "/usr/bin/sudo" [Word "/bin/rm"; Word "-f"; PathArg p] w with
    | (Ok _, w') => files w' = delete p (files w)
    | (Err _, w') => ∀ q, q ≠ p → files w' !! q = files w !! q
    end;
  install_copies (source target : path) content w :
    read_node source (files w) = Ok content → files w !! target ≠ Some Dir →
    match run_system "/usr/bin/sudo"
            [Word "/usr/bin/install"; Word "-m"; Word "0644"; PathArg source; PathArg target] w with
    | (Ok _, w') => files w' = <[target := File content]> (files w)
    | (Err _, w') => files w' !! target ≠ Some Dir ∧ ∀ q, q ≠ target → files w' !! q = files w !! q
    end;
}.

Section install.
Context `{Host} (run_system : string → list Arg → IO PlatformError unit) `{!SystemCommands run_system}.

(** The two prepared files are in one directory of PV ([PvPaths]); the system's are elsewhere. *)
Variables (dir anchor conf : path).
Definition prepared_anchor_path : path := dir ++ ["com.prvious.pv"].
Definition prepared_reference_path : path := dir ++ ["pf.conf"].

Definition mine (q : path) : Prop := under dir q ∨ q ∈ ancestors dir.

Hypothesis anchor_apart : ¬ mine anchor ∧ ¬ under anchor dir.
Hypothesis conf_apart : ¬ mine conf ∧ ¬ under conf dir.
Hypothesis anchor_conf : anchor ≠ conf ∧ conf ∉ ancestors (removelast anchor).

Lemma child_mine (name : string) : mine (dir ++ [name]).
Proof. left. apply under_app. Qed.

Lemma child_apart (name : string) : dir ++ [name] ≠ anchor ∧ dir ++ [name] ≠ conf ∧ dir ++ [name] ∉ ancestors (removelast anchor).
Proof.
  destruct anchor_apart as [Ha _], conf_apart as [Hc _]. pose proof (child_mine name) as Hm.
  split_and!; [by intros <-|by intros <-|]. intros [Hu _]%elem_of_ancestors. apply Ha. left.
  eapply under_trans; [apply under_app|]. eapply under_trans; [exact Hu|].
  destruct anchor as [|x l] using rev_ind; [done|]. rewrite removelast_last. apply under_app.
Qed.

Lemma touched_mine (name : string) q : touched (dir ++ [name]) q → mine q.
Proof.
  intros [Ha|[(t & [n ->] & Hu)|Hu]].
  - rewrite removelast_last in Ha. by right.
  - rewrite temporary_at in Hu. left. eapply under_trans; [apply under_app|exact Hu].
  - left. eapply under_trans; [apply under_app|exact Hu].
Qed.

(** What matters of the tree while the installation runs. *)
Definition system_is (a c : option node) (s : Fs) : Prop := s !! anchor = a ∧ s !! conf = c.

Definition backups_clear (s : Fs) : Prop :=
  plain_temporaries (dir ++ ["pf.anchor.rollback"]) s ∧ plain_temporaries (dir ++ ["pf.conf.rollback"]) s.

Lemma system_mine a c s s' : (∀ q, ¬ mine q → s' !! q = s !! q) → system_is a c s → system_is a c s'.
Proof. intros Hs [Ha Hc]. split; rewrite Hs; [done|apply anchor_apart|done|apply conf_apart]. Qed.

Lemma clear_others (P : path → Prop) s s' : (∀ t, (temporary (dir ++ ["pf.anchor.rollback"]) t ∨ temporary (dir ++ ["pf.conf.rollback"]) t) → ¬ P t) →
  others P s s' → backups_clear s → backups_clear s'.
Proof. intros HP Ho [Ha Hc]. split; intros t Ht; rewrite Ho by auto; [by apply Ha|by apply Hc]. Qed.

Lemma backup_temporary t : temporary (dir ++ ["pf.anchor.rollback"]) t ∨ temporary (dir ++ ["pf.conf.rollback"]) t →
  ∃ name, t = dir ++ [name].
Proof. intros [[n ->]|[n ->]]; rewrite temporary_at; by eexists. Qed.

(** *** The steps *)

Notation run := (run_system "/usr/bin/sudo").

(** A file of the directory is written: the system's files stay. *)
Lemma write_step (name content : string) (P : Fs → Prop) :
  (∀ s s', others (touched (dir ++ [name])) s s' → P s → P s') →
  hoare (λ s, P s ∧ plain_temporaries (dir ++ [name]) s) (integration (write_sensitive_file (dir ++ [name]) content))
    (λ _ s, P s ∧ s !! (dir ++ [name]) = Some (File content)) P.
Proof.
  intros Hkeep. apply hoare_map_err. intros w [Hw Hl].
  pose proof (write_sensitive_file_whole (dir ++ [name]) content w (λ Hn, app_cons_not_nil dir [] name (eq_sym Hn)) Hl) as Hwrite.
  destruct (write_sensitive_file (dir ++ [name]) content w) as [[[]|e] w'].
  - destruct Hwrite as [Hf Ho]. split; [by eapply Hkeep|done].
  - destruct Hwrite as [_ Ho]. by eapply Hkeep.
Qed.

Lemma pfctl_step (P : Fs → Prop) args : hoare P (run (Word "/sbin/pfctl" :: args)) (λ _, P) P.
Proof. apply hoare_look; [apply pfctl_looks|done]. Qed.

(** Copying a file of the directory over one of the system's. *)
Lemma copy_step (name content : string) (target : path) w : files w !! (dir ++ [name]) = Some (File content) →
  files w !! target ≠ Some Dir →
  match install_file run_system (dir ++ [name]) target w with
  | (Ok _, w') => files w' = <[target := File content]> (files w)
  | (Err _, w') => files w' !! target ≠ Some Dir ∧ ∀ q, q ≠ target → files w' !! q = files w !! q
  end.
Proof.
  intros Hs Ht. apply install_copies; [|done]. unfold read_node. by rewrite resolve_plain, Hs; [|rewrite Hs].
Qed.

(** Putting a system file back as it was. *)
Lemma rollback_step (target : path) (name : string) backup (P : Fs → Prop) :
  ¬ mine target →
  (∀ s s', others (λ q, touched (dir ++ [name]) q ∨ q = target) s s' → P s → P s') →
  hoare (λ s, (P s ∧ plain_temporaries (dir ++ [name]) s) ∧ s !! target ≠ Some Dir) (rollback_file run_system target backup (dir ++ [name]))
    (λ _ s, P s ∧ s !! target = File <$> backup) P.
Proof.
  intros Htarget Hkeep. unfold rollback_file. destruct backup as [backup|].
  - eapply (hoare_seq _ (λ s, (P s ∧ s !! target ≠ Some Dir) ∧ s !! (dir ++ [name]) = Some (File backup))).
    { eapply hoare_conseq; [by intros s Hs; exact Hs|by intros ? s Hs; exact Hs| |].
      2:{ apply hoare_map_err. intros w [[Hw Hl] Hd].
          pose proof (write_sensitive_file_whole (dir ++ [name]) backup w (λ Hn, app_cons_not_nil dir [] name (eq_sym Hn)) Hl) as Hwrite.
          assert (∀ s, others (touched (dir ++ [name])) (files w) s → P s ∧ s !! target ≠ Some Dir) as Ho.
          { intros s Ho. split; [eapply Hkeep; [|exact Hw]; intros q Hq; apply Ho; tauto|].
            rewrite Ho; [done|]. intros Ht. by eapply Htarget, touched_mine. }
          destruct (write_sensitive_file (dir ++ [name]) backup w) as [[[]|e] w'];
            [destruct Hwrite as [Hf Hoth]; split; [by apply Ho|done]|destruct Hwrite as [_ Hoth]; apply Ho in Hoth as [Hoth _]; exact Hoth]. }
      done. }
    eapply (hoare_seq _ (λ s, P s ∧ s !! target = Some (File backup))).
    { intros w [[Hw Hd] Hb]. pose proof (copy_step name backup target w Hb Hd) as Hcopy.
      destruct (install_file run_system (dir ++ [name]) target w) as [[[]|e] w'].
      - rewrite Hcopy. split; [|by rewrite lookup_insert_eq]. eapply Hkeep; [|exact Hw]. intros q Hq.
        rewrite lookup_insert_ne; [done|]. intros <-. apply Hq. by right.
      - destruct Hcopy as [_ Hsame]. eapply Hkeep; [|exact Hw]. intros q Hq. apply Hsame. intros ->. apply Hq. by right. }
    apply (hoare_seq _ (λ s, P s ∧ s !! target = Some (File backup))); [|by intros w Hw].
    eapply (hoare_changes (λ q, q = dir ++ [name])); [| |by intros s []].
    + apply changes_try, changes_at_path, changes_std_remove_file.
    + intros s s' Hs [HPs Ht]. split.
      * eapply Hkeep; [|exact HPs]. intros q Hq. apply Hs. intros ->. apply Hq. left. right; right. apply under_refl.
      * rewrite Hs; [done|]. intros ->. apply Htarget, child_mine.
  - intros w [[Hw _] _]. pose proof (rm_removes target w) as Hrm. unfold force_remove, sudo.
    destruct (run [Word "/bin/rm"; Word "-f"; PathArg target] w) as [[[]|e] w'].
    + rewrite Hrm. split; [|by rewrite lookup_delete_eq]. eapply Hkeep; [|exact Hw]. intros q Hq.
      rewrite lookup_delete_ne; [done|]. intros <-. apply Hq. by right.
    + eapply Hkeep; [|exact Hw]. intros q Hq. apply Hrm. intros ->. apply Hq. by right.
Qed.

(** *** Reading *)

Lemma hoare_read (p : path) s0 :
  hoare (λ s, s = s0) (read_platform_file p) (λ content s, read_node p s0 = Ok content ∧ s = s0) (λ s, s = s0).
Proof.
  apply hoare_map_err, hoare_map_err. eapply hoare_conseq; [by intros s Hs; exact Hs| |by intros s Hs; exact Hs|by apply hoare_query].
  cbn. intros content s [Hc ->]. done.
Qed.

(** A file that is not a link is read as it is, or is not there. *)
Lemma hoare_read_optional (p : path) s0 : is_link (s0 !! p) = false →
  hoare (λ s, s = s0) (read_optional p) (λ o s, s0 !! p = File <$> o ∧ s = s0) (λ s, s = s0).
Proof.
  intros Hl w Hw. unfold read_optional, or_missing, read_to_string, at_path, io_map_err, mbind, io_bind, std_read_to_string, query, syscall.
  destruct (fault_at (clock w)); cbn; [done|]. rewrite Hw. unfold read_node. rewrite resolve_plain by done.
  destruct (s0 !! p) as [[content| |t]|] eqn:Hp; cbn; try done.
Qed.

Lemma hoare_inspect s0 : is_link (s0 !! conf) = false →
  hoare (λ s, s = s0) (inspect_pf_conf_reference (E := PlatformError) conf (Some PfConfReferenceUnit))
    (λ state s, ((∃ o, s0 !! conf = File <$> o ∧ state = reference_state conf (Some PfConfReferenceUnit) o)
       ∨ ∃ message, state = Unreadable conf message) ∧ s = s0) (λ s, s = s0).
Proof.
  intros Hl w Hw. unfold inspect_pf_conf_reference. pose proof (hoare_read_optional conf s0 Hl w Hw) as Hr.
  destruct (read_optional conf w) as [[o|e] w']; [destruct Hr as [Ho Hs]; split; [left; by exists o|done]|].
  split; [right; by eexists|done].
Qed.

Lemma candidate_hoare reference o s0 : s0 !! conf = File <$> o →
  hoare (λ s, s = s0) (pf_conf_candidate conf reference (reference_state conf (Some PfConfReferenceUnit) o))
    (λ candidate s, candidate_of reference o = Some candidate ∧ s = s0) (λ s, s = s0).
Proof.
  intros Ho. assert (is_link (s0 !! conf) = false) as Hl by by rewrite Ho; destruct o.
  assert (∀ content, o = Some content → ∀ f : string → string,
    hoare (λ s, s = s0) (current ← read_platform_file conf; mret (f current)) (λ candidate s, f content = candidate ∧ s = s0) (λ s, s = s0)) as Hread.
  { intros content -> f. eapply hoare_bind; [apply hoare_read|]. intros current w [Hc Hw]. split; [|done]. f_equal.
    unfold read_node in Hc. rewrite resolve_plain, Ho in Hc by done. cbn in Hc. congruence. }
  assert (hoare (λ s, s = s0) (current ← read_optional_platform_file conf; mret (append_pf_reference (default "" current) reference))
    (λ candidate s, append_pf_reference (default "" o) reference = candidate ∧ s = s0) (λ s, s = s0)) as Hopt.
  { eapply hoare_bind; [by apply hoare_map_err, hoare_read_optional|]. intros current w [Hc Hw]. split; [|done]. do 2 f_equal.
    rewrite Ho in Hc. destruct o, current; cbn in Hc; congruence. }
  assert (∀ (m : IO PlatformError string) candidate,
    hoare (λ s, s = s0) m (λ x s, candidate = x ∧ s = s0) (λ s, s = s0) →
    hoare (λ s, s = s0) m (λ x s, Some candidate = Some x ∧ s = s0) (λ s, s = s0)) as Hsome.
  { intros m candidate. apply hoare_conseq; [done| |done]. by intros x s [-> ->]. }
  unfold candidate_of, reference_state. destruct o as [content|]; cbn [default]; [|by apply Hsome].
  destruct (negb (has_pv_marker content)).
  - destruct (existsb _ _); [|by apply Hsome]. eapply hoare_pre; [|apply hoare_fail]. done.
  - unfold classify_pv_file_state. destruct (parse_embedded_pf_conf_reference content) as [[]|].
    + rewrite bool_decide_eq_true_2 by done. apply Hsome. pose proof (Hread content eq_refl id) as Hid.
      intros w Hw. specialize (Hid w Hw). unfold mbind, io_bind in Hid. cbn. by destruct (read_platform_file conf w) as [[]].
    + apply Hsome. by apply (Hread content eq_refl (λ current, append_pf_reference (remove_pf_reference_lines current) reference)).
Qed.

(** *** The whole installation *)

Section whole.
Variable s0 : Fs.
Hypothesis plain_start : is_link (s0 !! anchor) = false ∧ is_link (s0 !! conf) = false
  ∧ is_link (s0 !! prepared_anchor_path) = false.
Hypothesis clear_start : backups_clear s0 ∧ plain_temporaries (dir ++ ["pf.conf.candidate"]) s0.

(** The anchor and [pf.conf] are as they were; or only copying the anchor went wrong; or the
    error tells what could not be put back. *)
Definition install_failed (e : PlatformError) (s : Fs) : Prop :=
  system_is (s0 !! anchor) (s0 !! conf) s
  ∨ (s !! conf = s0 !! conf ∧ ∃ w w', install_file run_system prepared_anchor_path anchor w = (Err e, w'))
  ∨ ∃ original rest, e = SystemIntegration (platform_error_display original +:+ "; additionally failed to rollback " +:+ rest).

Definition install_done (s : Fs) : Prop :=
  ∃ pa config reference o candidate, read_node prepared_anchor_path s0 = Ok pa ∧ parse_anchor pa = Some config
    ∧ read_node prepared_reference_path s0 = Ok reference ∧ parse_block reference = Some PfConfReferenceUnit
    ∧ s0 !! conf = File <$> o ∧ candidate_of reference o = Some candidate
    ∧ s !! anchor = Some (File pa) ∧ s !! conf = Some (File candidate).

Lemma start_failed e s : s = s0 → install_failed e s.
Proof. intros ->. by left. Qed.

(** Before the anchor is copied. *)
Definition prepared (pa candidate : string) (s : Fs) : Prop :=
  system_is (s0 !! anchor) (s0 !! conf) s ∧ backups_clear s ∧ s !! prepared_anchor_path = Some (File pa)
  ∧ s !! (dir ++ ["pf.conf.candidate"]) = Some (File candidate).

Lemma prepared_outside pa candidate s s' : (∀ q, q ∈ ancestors (removelast anchor) ∨ s' !! q = s !! q) →
  prepared pa candidate s → prepared pa candidate s'.
Proof.
  intros Hs ([Ha Hc] & [Hb1 Hb2] & Hp & Hcand).
  assert (∀ name, s' !! (dir ++ [name]) = s !! (dir ++ [name])) as Hchild.
  { intros name. destruct (Hs (dir ++ [name])) as [Hin|]; [|done]. by destruct (child_apart name) as (_ & _ & Hn). }
  assert (s' !! anchor = s !! anchor) as Hsa.
  { destruct (Hs anchor) as [[[r Hr] Hne]%elem_of_ancestors|]; [|done]. apply (f_equal length) in Hr.
    destruct anchor as [|x l _] using rev_ind; [done|]. rewrite removelast_last, !length_app in Hr. cbn in Hr. lia. }
  assert (s' !! conf = s !! conf) as Hsc by (destruct (Hs conf) as [Hin|]; [by destruct anchor_conf|done]).
  split_and!.
  - split; congruence.
  - split; intros t Ht; (destruct (backup_temporary t ltac:(tauto)) as [name ->]; rewrite Hchild; first [by apply Hb1|by apply Hb2]).
  - unfold prepared_anchor_path. by rewrite Hchild.
  - by rewrite Hchild.
Qed.

(** After it. *)
Definition anchored (pa : string) (cnode : option node) (s : Fs) : Prop := system_is (Some (File pa)) cnode s ∧ backups_clear s.

Lemma anchor_step pa candidate o : s0 !! anchor = File <$> o →
  triple (prepared pa candidate) (install_pf_anchor run_system prepared_anchor_path anchor)
    (λ _ s, anchored pa (s0 !! conf) s ∧ s !! (dir ++ ["pf.conf.candidate"]) = Some (File candidate)) install_failed.
Proof.
  intros Ho. unfold install_pf_anchor. destruct (parent anchor) as [d|] eqn:Hd.
  2:{ eapply triple_pre; [|apply triple_fail]. intros s (Hs & _). by left. }
  assert (d = removelast anchor) as -> by (by destruct anchor; [|injection Hd as <-]).
  assert (∀ e s, prepared pa candidate s → install_failed e s) as Hfail by by intros e s (Hs & _); left.
  eapply triple_seq; [by eapply triple_hoare; [apply pfctl_step|exact Hfail]|].
  eapply (triple_seq _ (prepared pa candidate)).
  { eapply triple_hoare; [|exact Hfail]. eapply hoare_changes; [apply mkdir_makes| |by intros s Hs; exact Hs].
    intros s s' Hs. apply prepared_outside. intros q. destruct (decide (q ∈ ancestors (removelast anchor))); [by left|right; by apply Hs]. }
  intros w ([Ha Hc] & Hb & Hp & Hcand).
  assert (files w !! anchor ≠ Some Dir) as Hdir by by rewrite Ha, Ho; destruct o.
  pose proof (copy_step "com.prvious.pv" pa anchor w Hp Hdir) as Hcopy. fold prepared_anchor_path in Hcopy.
  destruct (install_file run_system prepared_anchor_path anchor w) as [[[]|e] w'] eqn:E.
  - rewrite Hcopy. destruct (child_apart "pf.conf.candidate") as (Hne & _).
    split; [|by rewrite lookup_insert_ne]. split.
    + split; [by rewrite lookup_insert_eq|]. rewrite lookup_insert_ne; [done|apply anchor_conf].
    + destruct Hb as [Hb1 Hb2]. split; intros t Ht; (destruct (backup_temporary t ltac:(tauto)) as [name Hname];
        rewrite lookup_insert_ne; [first [by apply Hb1|by apply Hb2]|]; rewrite Hname; intros He; by destruct (child_apart name)).
  - right; left. destruct Hcopy as [_ Hsame]. split; [|by exists w, w'].
    rewrite Hsame; [done|]. intros He. by destruct anchor_conf.
Qed.

(** What is left when a later step failed: the backups can still be put back. *)
Definition shaken (s : Fs) : Prop := (backups_clear s ∧ s !! anchor ≠ Some Dir) ∧ s !! conf ≠ Some Dir.

Lemma anchored_shaken pa s : s0 !! conf ≠ Some Dir → anchored pa (s0 !! conf) s → shaken s.
Proof. intros Hc [[Hsa Hsc] Hb]. split; [split; [done|by rewrite Hsa]|by rewrite Hsc]. Qed.

Lemma post_anchor_step pa candidate : s0 !! conf ≠ Some Dir →
  hoare (λ s, anchored pa (s0 !! conf) s ∧ s !! (dir ++ ["pf.conf.candidate"]) = Some (File candidate))
    (post_anchor run_system (dir ++ ["pf.conf.candidate"]) conf)
    (λ _ s, s !! anchor = Some (File pa) ∧ s !! conf = Some (File candidate)) shaken.
Proof.
  intros Hc. unfold post_anchor.
  eapply hoare_seq; [apply hoare_err; [|apply pfctl_step]; intros s [Hs _]; by eapply anchored_shaken|].
  apply (hoare_seq _ (λ s, (s !! anchor = Some (File pa) ∧ s !! conf = Some (File candidate)) ∧ shaken s)).
  - intros w [[[Hsa Hsc] Hb] Hcand].
    pose proof (copy_step "pf.conf.candidate" candidate conf w Hcand ltac:(by rewrite Hsc)) as Hcopy.
    assert (∀ s, (∀ q, q ≠ conf → s !! q = files w !! q) → backups_clear s) as Hclear.
    { intros s Hs. destruct Hb as [Hb1 Hb2]. split; intros t Ht; (destruct (backup_temporary t ltac:(tauto)) as [name Hname];
        rewrite Hs; [first [by apply Hb1|by apply Hb2]|]; rewrite Hname; by destruct (child_apart name) as (_ & Hne & _)). }
    destruct (install_file run_system (dir ++ ["pf.conf.candidate"]) conf w) as [[[]|e] w'].
    + assert (∀ q, q ≠ conf → files w' !! q = files w !! q) as Hsame by by intros q Hq; rewrite Hcopy, lookup_insert_ne.
      split; [split; [rewrite Hsame; [done|apply anchor_conf]|by rewrite Hcopy, lookup_insert_eq]|].
      split; [split; [by apply Hclear|rewrite Hsame; [by rewrite Hsa|apply anchor_conf]]|by rewrite Hcopy, lookup_insert_eq].
    + destruct Hcopy as [Hd Hsame]. split; [|done]. split; [by apply Hclear|]. rewrite Hsame; [by rewrite Hsa|apply anchor_conf].
  - eapply hoare_seq; [apply hoare_err; [|apply pfctl_step]; by intros s []|].
    apply hoare_err; [by intros s []|].
    eapply hoare_conseq; [by intros s Hs; exact Hs| |by intros s Hs; exact Hs|apply pfctl_step]. by intros ? s [].
Qed.

Lemma rollback_anchor_names : (∀ rest, "pf.anchor.rollback" +:+ "." +:+ rest ≠ "pf.conf.rollback")
  ∧ (∀ rest rest', "pf.anchor.rollback" +:+ "." +:+ rest ≠ "pf.conf.rollback" +:+ "." +:+ rest').
Proof. by split; intros. Qed.

(** Both system files are put back, or the error says which could not be. *)
Lemma roll_back_step error anchor_backup conf_backup : s0 !! anchor = File <$> anchor_backup → s0 !! conf = File <$> conf_backup →
  triple shaken (roll_back run_system error anchor conf anchor_backup conf_backup (dir ++ ["pf.anchor.rollback"]) (dir ++ ["pf.conf.rollback"]))
    (λ _ _, False) install_failed.
Proof.
  intros Ha Hc. unfold roll_back, rollback_pf_conf, rollback_pf_anchor. set (tc := plain_temporaries (dir ++ ["pf.anchor.rollback"])).
  destruct rollback_anchor_names as [Hn1 Hn2]. destruct anchor_conf as [Hne _].
  assert (hoare (λ s, ((tc s ∧ s !! anchor ≠ Some Dir) ∧ plain_temporaries (dir ++ ["pf.conf.rollback"]) s) ∧ s !! conf ≠ Some Dir)
    (rollback_file run_system conf conf_backup (dir ++ ["pf.conf.rollback"]))
    (λ _ s, (tc s ∧ s !! anchor ≠ Some Dir) ∧ s !! conf = File <$> conf_backup) (λ s, tc s ∧ s !! anchor ≠ Some Dir)) as Hconf.
  { apply rollback_step; [apply conf_apart|]. intros s s' Ho [Ht Hd]. split.
    - intros t Htt. rewrite Ho; [by apply Ht|]. intros [Htouch| ->].
      + revert Htouch. exact (temporary_untouched _ _ _ _ Hn1 Hn2 Htt).
      + destruct (backup_temporary conf ltac:(by left)) as [name Hname]. destruct (child_apart name) as (_ & Hx & _). by rewrite <-Hname in Hx.
    - rewrite Ho; [done|]. intros [Htouch|]; [|done]. apply touched_mine in Htouch. by destruct anchor_apart. }
  assert (∀ cnode, hoare (λ s, (s !! conf = cnode ∧ tc s) ∧ s !! anchor ≠ Some Dir)
    (rollback_file run_system anchor anchor_backup (dir ++ ["pf.anchor.rollback"]))
    (λ _ s, s !! conf = cnode ∧ s !! anchor = File <$> anchor_backup) (λ s, s !! conf = cnode)) as Hanchor.
  { intros cnode. apply rollback_step; [apply anchor_apart|]. intros s s' Ho Hs. rewrite Ho; [done|].
    intros [Htouch|]; [|done]. apply touched_mine in Htouch. by destruct conf_apart. }
  eapply triple_try; [eapply hoare_pre; [|exact Hconf]; by intros s [[[Hb1 Hb2] Hd] Hdc]| |].
  - intros _u. eapply triple_try.
    + eapply hoare_pre; [|apply (Hanchor (File <$> conf_backup))]. by intros s [[Ht Hd] Hs].
    + intros _u2. cbn [rollback_message app]. eapply triple_pre; [|apply triple_fail]. intros s [Hsc Hsa]. left. by split; rewrite ?Ha, ?Hc.
    + intros e. cbn [rollback_message app]. eapply triple_pre; [|apply triple_fail]. intros s _. right; right. by eexists _, _.
  - intros e. apply (triple_bind _ _ _ (λ _ _, True)); [|intros r].
    { intros w _. unfold io_try. by destruct (rollback_file _ _ _ _ w). }
    cbn [rollback_message app]. eapply triple_pre; [|apply triple_fail]. intros s _. right; right. by eexists _, _.
Qed.

Lemma install_triple : triple (λ s, s = s0)
  (install_pf_redirects run_system prepared_anchor_path prepared_reference_path anchor conf) (λ _, install_done) install_failed.
Proof.
  destruct plain_start as (Hpa & Hpc & Hpp), clear_start as [Hclear Hcand]. unfold install_pf_redirects.
  eapply triple_bind; [eapply triple_hoare; [apply hoare_read|exact start_failed]|]. intros pa. apply triple_pure. intros Hrpa.
  eapply triple_bind; [eapply triple_hoare; [apply hoare_read|exact start_failed]|]. intros reference. apply triple_pure. intros Hrref.
  destruct (parse_anchor pa) as [config|] eqn:Hconfig; cbn [option_bool negb].
  2:{ eapply triple_pre; [|apply triple_fail]. intros s. apply start_failed. }
  destruct (parse_block reference) as [[]|] eqn:Hblock; cbn [option_bool negb].
  2:{ eapply triple_pre; [|apply triple_fail]. intros s. apply start_failed. }
  eapply triple_bind; [eapply triple_hoare; [by apply hoare_inspect|exact start_failed]|]. intros state.
  apply triple_pure. intros [(o & Ho & ->)|[message ->]].
  2:{ apply (triple_bind _ _ _ (λ _ _, False)); [|by intros ? w []]. eapply triple_pre; [|apply triple_fail]. intros s. apply start_failed. }
  eapply triple_bind; [eapply triple_hoare; [by apply candidate_hoare|exact start_failed]|]. intros candidate.
  apply triple_pure. intros Hcandidate. cbv zeta.
  replace (with_file_name "pf.conf.candidate" prepared_reference_path) with (dir ++ ["pf.conf.candidate"])
    by (unfold with_file_name, prepared_reference_path; by rewrite removelast_last).
  replace (with_file_name "pf.anchor.rollback" prepared_anchor_path) with (dir ++ ["pf.anchor.rollback"])
    by (unfold with_file_name, prepared_anchor_path; by rewrite removelast_last).
  replace (with_file_name "pf.conf.rollback" prepared_reference_path) with (dir ++ ["pf.conf.rollback"])
    by (unfold with_file_name, prepared_reference_path; by rewrite removelast_last).
  eapply triple_bind; [eapply triple_hoare; [by apply hoare_map_err, hoare_read_optional|exact start_failed]|].
  intros anchor_backup. apply triple_pure. intros Hab.
  eapply triple_bind; [eapply triple_hoare; [by apply hoare_map_err, hoare_read_optional|exact start_failed]|].
  intros conf_backup. apply triple_pure. intros Hcb.
  apply (triple_seq _ (λ s, (system_is (s0 !! anchor) (s0 !! conf) s ∧ backups_clear s
    ∧ s !! prepared_anchor_path = s0 !! prepared_anchor_path) ∧ s !! (dir ++ ["pf.conf.candidate"]) = Some (File candidate))).
  - apply (triple_pre _ (λ s, (system_is (s0 !! anchor) (s0 !! conf) s ∧ backups_clear s
      ∧ s !! prepared_anchor_path = s0 !! prepared_anchor_path) ∧ plain_temporaries (dir ++ ["pf.conf.candidate"]) s)).
    { intros s ->. by split_and!; try apply Hclear. }
    eapply triple_hoare.
    + apply (write_step "pf.conf.candidate" candidate (λ s, system_is (s0 !! anchor) (s0 !! conf) s ∧ backups_clear s
        ∧ s !! prepared_anchor_path = s0 !! prepared_anchor_path)).
      intros s s' Hoth (Hs & Hb & Hp). split_and!.
      * eapply system_mine; [|exact Hs]. intros q Hq. apply Hoth. intros Ht. by eapply Hq, touched_mine.
      * eapply clear_others; [|exact Hoth|exact Hb]. intros t [Ht|Ht]; (eapply temporary_untouched; [| |exact Ht]; by intros).
      * rewrite Hoth; [done|]. unfold prepared_anchor_path. by apply sibling_untouched.
    + intros e s (Hs & _). by left.
  - apply (triple_pre _ (prepared pa candidate)).
    { intros s [(Hs & Hb & Hp) Hc]. split; [exact Hs|]. split; [exact Hb|]. split; [|exact Hc].
      rewrite Hp. unfold read_node in Hrpa. rewrite resolve_plain in Hrpa by done.
      destruct (s0 !! prepared_anchor_path) as [[c| |t]|]; try done. by injection Hrpa as ->. }
    eapply triple_seq; [by eapply anchor_step|].
    eapply triple_try; [apply post_anchor_step; by rewrite Hcb; destruct conf_backup| |].
    + intros _u w [Hsa Hsc]. exists pa, config, reference, o, candidate. by split_and!.
    + intros error w Hw. pose proof (roll_back_step error anchor_backup conf_backup Hab Hcb w Hw) as Hr.
      by destruct (roll_back _ _ _ _ _ _ _ _ w) as [[u|e] w'].
Qed.
End whole.
End install.

(** C11: Installing the redirects replaces the anchor and [pf.conf] together or puts them
    back, whichever call or command fails. A success leaves the prepared anchor, which is
    a valid one, and the candidate for the [pf.conf] that was there. After an error both
    are as they were, unless it was the copy of the anchor itself that failed, which
    leaves [pf.conf] as it was, or the error says that putting them back failed too. *)
Theorem install_pf_redirects_spec `{Host} run_system `{!SystemCommands run_system} (dir anchor conf : path) w :
  ¬ mine dir anchor ∧ ¬ under anchor dir → ¬ mine dir conf ∧ ¬ under conf dir →
  anchor ≠ conf ∧ conf ∉ ancestors (removelast anchor) →
  is_link (files w !! anchor) = false ∧ is_link (files w !! conf) = false
    ∧ is_link (files w !! prepared_anchor_path dir) = false →
  backups_clear dir (files w) ∧ plain_temporaries (dir ++ ["pf.conf.candidate"]) (files w) →
  match install_pf_redirects run_system (prepared_anchor_path dir) (prepared_reference_path dir) anchor conf w with
  | (Ok _, w') => install_done dir anchor conf (files w) (files w')
  | (Err e, w') => install_failed run_system dir anchor conf (files w) e (files w')
  end.
Proof.
  intros Ha Hc Hac Hplain Hclear.
  exact (install_triple run_system dir anchor conf Ha Hc Hac (files w) Hplain Hclear w eq_refl).
Qed.

(** ** A sample host *)

Section sample.
(** The commands do what they say, but for those that [fails] picks. *)
Variable fails : list Arg → bool.

Definition sample_system (program : string) (args : list Arg) : IO PlatformError unit := λ w,
  if fails args then (Err (SystemIntegrationCommandStatus program "exit status: 1"), w)
  else
    match args with
    | [Word command; Word _; PathArg p] =>
        if bool_decide (command = "/bin/mkdir")
        then (Ok tt, set_files (make_dirs (List.filter (missing_dir (files w)) (ancestors p)) (files w)) w)
        else if bool_decide (command = "/bin/rm") then (Ok tt, set_files (delete p (files w)) w)
        else (Ok tt, w)
    | [Word command; Word _; Word _; PathArg source; PathArg target] =>
        if bool_decide (command = "/usr/bin/install") then
          match read_node source (files w) with
          | Ok content => (Ok tt, set_files (<[target := File content]> (files w)) w)
          | Err e => (Err (SystemIntegrationCommandStatus program "exit status: 71"), w)
          end
        else (Ok tt, w)
    | _ => (Ok tt, w)
    end.

#[local] Instance sample_commands : SystemCommands (H := faulty_host None) sample_system.
Proof.
  split.
  - intros args w q _. unfold sample_system. destruct (fails _); [done|].
    destruct args as [|[?|?] [|[?|?] [|[?|?] [|[?|?] [|]]]]]; done.
  - intros p w q Hq. unfold sample_system. destruct (fails _); [done|].
    rewrite bool_decide_eq_true_2 by done. cbn [files snd set_files]. rewrite lookup_make_dirs.
    rewrite decide_False; [done|]. rewrite list_elem_of_In, filter_In, <-list_elem_of_In. tauto.
  - intros p w. unfold sample_system. destruct (fails _); [done|]. done.
  - intros source target content w Hs Ht. unfold sample_system. destruct (fails _); [done|]. cbn. by rewrite Hs.
Qed.
End sample.

Definition sample_dir : path := ["pv"; "config"; "pf"].
Definition sample_anchor : path := ["etc"; "pf.anchors"; "com.prvious.pv"].
Definition sample_conf : path := ["etc"; "pf.conf"].
Definition sample_config : PfRedirectConfig := {| http_port := 48080; https_port := 48443 |}.
Definition sample_host_files : World := {|
  files := list_to_map [
    (["etc"], Dir); (["etc"; "pf.anchors"], Dir); (sample_conf, File sample_pf_conf);
    (["pv"], Dir); (["pv"; "config"], Dir); (sample_dir, Dir);
    (prepared_anchor_path sample_dir, File (render_anchor sample_config)); (prepared_reference_path sample_dir, File reference_render)];
  clock := 0; counter := 0 |}.

Definition sample_install (fails : list Arg → bool) : result PlatformError unit * World :=
  install_pf_redirects (H := faulty_host None) (sample_system fails)
    (prepared_anchor_path sample_dir) (prepared_reference_path sample_dir) sample_anchor sample_conf sample_host_files.

Definition is_reload (args : list Arg) : bool :=
  match args with [Word _; Word flag; PathArg _] => bool_decide (flag = "-f") && negb (bool_decide (args = [Word "/bin/rm"; Word "-f"; PathArg sample_anchor])) | _ => false end.

Lemma sample_no_link t : is_link (files sample_host_files !! t) = false.
Proof.
  destruct (files sample_host_files !! t) as [n|] eqn:Hn; [|done].
  assert (map_Forall (λ _ n, is_link (Some n) = false) (files sample_host_files)) as Hall by (apply (bool_decide_eq_true_1 _); vm_compute; reflexivity).
  exact (Hall t n Hn).
Qed.

Lemma install_pf_redirects_spec_witness :
  (sample_install (λ _, false)).1 = Ok tt
  ∧ install_done sample_dir sample_anchor sample_conf (files sample_host_files) (files (sample_install (λ _, false)).2).
Proof.
  assert (Hside : ¬ mine sample_dir sample_anchor ∧ ¬ under sample_anchor sample_dir) by
    (split; [intros [[r Hr]|[[r Hr] _]%elem_of_ancestors]|intros [r Hr]]; cbv in Hr; discriminate Hr).
  assert (Hside' : ¬ mine sample_dir sample_conf ∧ ¬ under sample_conf sample_dir) by
    (split; [intros [[r Hr]|[[r Hr] _]%elem_of_ancestors]|intros [r Hr]]; cbv in Hr; discriminate Hr).
  assert (Hapart : sample_anchor ≠ sample_conf ∧ sample_conf ∉ ancestors (removelast sample_anchor)) by
    (split; [discriminate|]; intros [[r Hr] _]%elem_of_ancestors; cbv in Hr; discriminate Hr).
  pose proof (install_pf_redirects_spec (H := faulty_host None) (sample_system (λ _, false))
    (SystemCommands0 := sample_commands (λ _, false)) sample_dir sample_anchor sample_conf
    sample_host_files Hside Hside' Hapart 
    (conj (sample_no_link _) (conj (sample_no_link _) (sample_no_link _)))
    (conj (conj (λ t _, sample_no_link t) (λ t _, sample_no_link t)) (λ t _, sample_no_link t))) as Hi.
  fold (sample_install (λ _, false)) in Hi.
  assert (sample_install (λ _, false) = (Ok tt, (sample_install (λ _, false)).2)) as E by (vm_compute; reflexivity).
  split; [by rewrite E|]. rewrite E in Hi. exact Hi.
Defined.

(** The reload is refused: both files are put back, and the error is the reload's. *)
Example refused_reload_is_rolled_back :
  (sample_install is_reload).1 = Err (SystemIntegrationCommandStatus "/usr/bin/sudo" "exit status: 1")
  ∧ files (sample_install is_reload).2 !! sample_anchor = None
  ∧ files (sample_install is_reload).2 !! sample_conf = Some (File sample_pf_conf).
Proof. vm_compute. split_and!; reflexivity. Qed.
