(* ===== verification/StatePaths.v ===== *)
(** * PV's directories and files ([state/src/paths.rs]), and the layout that
    [state/src/fs.rs] creates

    Names that the code splices into a path are resource names, tracks, runtime keys
    and ids; the lemmas say what they must not contain. *)

From S2P Require Import Prelude RustStr HostFs StateFs.

Record PvPaths := {
  pv_home : path;
  pv_root : path;
  pv_db : path;
  pv_bin : path;
  pv_run : path;
  pv_logs : path;
  pv_downloads : path;
  pv_config : path;
  pv_certificates : path;
  pv_composer : path;
  pv_resources : path;
}.

Record PathEntry := { pe_name : string; pe_path : path; pe_layout_directory : bool }.
Record PathSummaryEntry := { ps_name : string; ps_path : string }.

(** [base.join(relative)] of a relative path. *)
Definition kept_piece (s : string) : bool := negb (is_empty s) && negb (bool_decide (s = ".")).
Definition join_path (base : path) (relative : string) : path := base ++ List.filter kept_piece (split "/" relative).

Definition for_home (home : path) : PvPaths :=
  let root := join_path home ".pv" in
  {| pv_home := home; pv_root := root; pv_db := join_path root "pv.db"; pv_bin := join_path root "bin";
     pv_run := join_path root "run"; pv_logs := join_path root "logs";
     pv_downloads := join_path root "downloads"; pv_config := join_path root "config";
     pv_certificates := join_path root "certificates"; pv_composer := join_path root "composer";
     pv_resources := join_path root "resources" |}.

Section paths.
Variable paths : PvPaths.

Definition app_releases_dir : path := join_path (pv_bin paths) "releases".
Definition app_release_binary (version : string) : path := join_path (join_path app_releases_dir version) "pv".
Definition active_pv_binary : path := join_path (pv_bin paths) "pv".

Definition update_lock : path := join_path (pv_run paths) "update.lock".
Definition daemon_socket : path := join_path (pv_run paths) "pv.sock".
Definition daemon_startup_error : path := join_path (pv_run paths) "daemon-startup-error.json".

Definition daemon_log : path := join_path (pv_logs paths) "daemon.log".
Definition launchd_stdout_log : path := join_path (pv_logs paths) "launchd.out.log".
Definition launchd_stderr_log : path := join_path (pv_logs paths) "launchd.err.log".

Definition resolver_config : path := join_path (pv_config paths) "resolver/test".
Definition pf_anchor_config : path := join_path (pv_config paths) "pf/com.prvious.pv".
Definition pf_conf_reference_config : path := join_path (pv_config paths) "pf/pf.conf".
Definition gateway_root_config : path := join_path (pv_config paths) "gateway/Caddyfile".
Definition gateway_projects_config_dir : path := join_path (pv_config paths) "gateway/projects".
Definition worker_root_config (php_runtime : string) : path :=
  join_path (pv_config paths) ("workers/php-" +:+ php_runtime +:+ "/Caddyfile").
Definition worker_projects_config_dir (php_runtime : string) : path :=
  join_path (pv_config paths) ("workers/php-" +:+ php_runtime +:+ "/projects").
Definition resource_runtime_config (resource_name track : string) : path :=
  join_path (pv_config paths) ("resources/" +:+ resource_name +:+ "/" +:+ track +:+ ".json").

Definition ca_certificate : path := join_path (pv_certificates paths) "ca.pem".
Definition ca_private_key : path := join_path (pv_certificates paths) "ca-key.pem".
Definition project_tls_dir (project_id : string) : path :=
  join_path (join_path (pv_certificates paths) "projects") project_id.
Definition project_tls_certificate (project_id : string) : path := join_path (project_tls_dir project_id) "tls.crt".
Definition project_tls_private_key (project_id : string) : path := join_path (project_tls_dir project_id) "tls.key".

Definition gateway_log : path := join_path (pv_logs paths) "gateway/gateway.log".
Definition gateway_access_log : path := join_path (pv_logs paths) "gateway/access.log".
Definition gateway_error_log : path := join_path (pv_logs paths) "gateway/error.log".
Definition worker_log (php_runtime : string) : path :=
  join_path (pv_logs paths) ("workers/php-" +:+ php_runtime +:+ ".log").
Definition resource_log (resource_name track : string) : path :=
  join_path (pv_logs paths) ("resources/" +:+ resource_name +:+ "/" +:+ track +:+ ".log").

Definition gateway_pid : path := join_path (pv_run paths) "gateway.pid".
Definition gateway_runtime_metadata : path := join_path (pv_run paths) "gateway.json".
Definition worker_pid (php_runtime : string) : path :=
  join_path (pv_run paths) ("workers/php-" +:+ php_runtime +:+ ".pid").
Definition worker_runtime_metadata (php_runtime : string) : path :=
  join_path (pv_run paths) ("workers/php-" +:+ php_runtime +:+ ".json").
Definition resource_pid (resource_name track : string) : path :=
  join_path (pv_run paths) ("resources/" +:+ resource_name +:+ "/" +:+ track +:+ ".pid").
Definition resource_runtime_metadata (resource_name track : string) : path :=
  join_path (pv_run paths) ("resources/" +:+ resource_name +:+ "/" +:+ track +:+ ".json").

Definition resource_data_dir (resource_name track : string) : path :=
  join_path (join_path (join_path (pv_resources paths) resource_name) track) "data".

Definition path_entry (name : string) (p : path) (layout_directory : bool) : PathEntry :=
  {| pe_name := name; pe_path := p; pe_layout_directory := layout_directory |}.

Definition path_entries : list PathEntry :=
  [path_entry "home" (pv_home paths) false; path_entry "root" (pv_root paths) true;
   path_entry "db" (pv_db paths) false; path_entry "bin" (pv_bin paths) true;
   path_entry "run" (pv_run paths) true; path_entry "logs" (pv_logs paths) true;
   path_entry "downloads" (pv_downloads paths) true; path_entry "config" (pv_config paths) true;
   path_entry "certificates" (pv_certificates paths) true; path_entry "composer" (pv_composer paths) true;
   path_entry "resources" (pv_resources paths) true].

Definition layout_directories : list (string * path) :=
  (λ entry, (pe_name entry, pe_path entry)) <$> List.filter pe_layout_directory path_entries.
Definition summary : list PathSummaryEntry :=
  (λ entry, {| ps_name := pe_name entry; ps_path := path_str (pe_path entry) |}) <$> path_entries.

(** ** [state/src/fs.rs] *)

Context `{Host}.

Fixpoint ensure_dirs (directories : list (string * path)) : IO FsError unit :=
  match directories with
  | [] => mret tt
  | (_, directory) :: directories => _ ← ensure_user_dir directory; ensure_dirs directories
  end.
Definition ensure_layout : IO FsError unit := ensure_dirs layout_directories.

Definition remove_daemon_socket : IO FsError unit :=
  socket_exists ← path_exists (E := FsError) daemon_socket;
  if socket_exists : bool then remove_file daemon_socket else mret tt.
End paths.

(** ** Facts *)

(** A text that is one component of a path. *)
Definition plain_name (s : string) : Prop := kept_piece s = true ∧ lacks "/" s = true.

Lemma join_plain base s : plain_name s → join_path base s = base ++ [s].
Proof. intros [Hk Hs]. unfold join_path. rewrite split_lacks by done. cbn. by rewrite Hk. Qed.
Lemma join_app base a b : plain_name a → join_path base (a +:+ "/" +:+ b) = join_path (base ++ [a]) b.
Proof. intros [Hk Ha]. unfold join_path. change ("/" +:+ b) with (String "/" b). rewrite split_app_sep by done. cbn. rewrite Hk. by rewrite <-app_assoc. Qed.

Lemma plain_suffixed s suffix : lacks "/" s = true → lacks "/" suffix = true → 1 < len suffix →
  plain_name (s +:+ suffix).
Proof.
  intros Hs Hx Hl. split; [|by rewrite lacks_app, Hs, Hx]. unfold kept_piece.
  assert (1 < len (s +:+ suffix)) as Hlen by (rewrite len_app; lia).
  destruct (s +:+ suffix) as [|c [|]]; cbn in Hlen; [lia..|]. cbn. by rewrite bool_decide_eq_false_2.
Qed.

(** The files of a track: below a directory of the resource, under the track's name. *)
Lemma track_file base kind r t suffix : plain_name kind → plain_name r → lacks "/" t = true →
  lacks "/" suffix = true → 1 < len suffix →
  join_path base (kind +:+ "/" +:+ r +:+ "/" +:+ t +:+ suffix) = base ++ [kind; r; t +:+ suffix].
Proof.
  intros Hk Hr Ht Hs Hl. rewrite join_app, join_app, join_plain by (done || by apply plain_suffixed).
  by rewrite <-!app_assoc.
Qed.

(** Two tracks never share a pid file, a metadata file, a log or a configuration. *)
Lemma track_files_distinct base kind suffix r t r' t' : plain_name kind → plain_name r → plain_name r' →
  lacks "/" t = true → lacks "/" t' = true → lacks "/" suffix = true → 1 < len suffix →
  join_path base (kind +:+ "/" +:+ r +:+ "/" +:+ t +:+ suffix)
  = join_path base (kind +:+ "/" +:+ r' +:+ "/" +:+ t' +:+ suffix) → r = r' ∧ t = t'.
Proof.
  intros Hk Hr Hr' Ht Ht' Hs Hl. rewrite !track_file by done.
  intros [= -> Heq]%app_inv_head. split; [done|]. pose proof (proj2 (strip_suffix_Some suffix _ t) eq_refl) as H1.
  pose proof (proj2 (strip_suffix_Some suffix _ t') eq_refl) as H2. congruence.
Qed.
