(* ===== verification/Effects.v ===== *)
(** * Computations that keep a state and may fail, over any state: sequencing, parts of
    the state, and triples *)

From S2P Require Import Prelude.

(** A computation over the state [S]; what it did stays done when it fails. *)
Definition eff (S E A : Type) : Type := S → result E A * S.

#[export] Instance eff_ret {S E} : MRet (eff S E) := λ A a s, (Ok a, s).
#[export] Instance eff_bind {S E} : MBind (eff S E) := λ A B f m s,
  match m s with (Ok a, s) => f a s | (Err e, s) => (Err e, s) end.

Definition eff_fail {S E A : Type} (e : E) : eff S E A := λ s, (Err e, s).
Definition eff_lift {S E A : Type} (r : result E A) : eff S E A := λ s, (r, s).
Definition eff_get {S E A : Type} (f : S → A) : eff S E A := λ s, (Ok (f s), s).
Definition eff_modify {S E : Type} (f : S → S) : eff S E unit := λ s, (Ok tt, f s).
Definition eff_map_err {S E F A : Type} (f : E → F) (m : eff S E A) : eff S F A := λ s,
  let '(r, s) := m s in (map_err f r, s).
(** A call whose failure is looked at. *)
Definition eff_try {S E F A : Type} (m : eff S E A) : eff S F (result E A) := λ s, let '(r, s) := m s in (Ok r, s).

(** A part of a state. *)
Record part (S T : Type) := { get_part : S → T; set_part : T → S → S }.
Arguments get_part {S T} _ _.
Arguments set_part {S T} _ _ _.

Definition on_part {S T E F A : Type} (l : part S T) (f : E → F) (m : T → result E A * T) : eff S F A := λ s,
  let '(r, t) := m (get_part l s) in (map_err f r, set_part l t s).

(** A [for] loop. *)
Fixpoint eff_iter {S E A : Type} (f : A → eff S E unit) (l : list A) : eff S E unit :=
  match l with [] => mret tt | x :: l => _ ← f x; eff_iter f l end.

Lemma eff_bind_ok {S E A B : Type} (m : eff S E A) (f : A → eff S E B) s b s2 :
  (m ≫= f) s = (Ok b, s2) ↔ ∃ a s1, m s = (Ok a, s1) ∧ f a s1 = (Ok b, s2).
Proof.
  unfold mbind, eff_bind. destruct (m s) as [[a|e] s1]; split.
  - intros Hf. by exists a, s1.
  - by intros (a' & s1' & [= <- <-] & Hf).
  - done.
  - by intros (a' & s1' & ? & _).
Qed.

Lemma eff_try_ok {S E F A B : Type} (m : eff S F A) (f : result F A → eff S E B) s b s2 :
  (eff_try m ≫= f) s = (Ok b, s2) → ∃ r s1, m s = (r, s1) ∧ f r s1 = (Ok b, s2).
Proof. unfold mbind, eff_bind, eff_try. destruct (m s) as [r s1]. intros Hf. by exists r, s1. Qed.

Lemma eff_iter_ext {S E A : Type} (f g : A → eff S E unit) l : (∀ x, f x = g x) → eff_iter f l = eff_iter g l.
Proof. intros Hfg. induction l as [|x l IH]; [done|]. cbn. by rewrite Hfg, IH. Qed.

(** ** Triples *)

Section specs.
Context {S E : Type}.
Implicit Types (P R I : S → Prop) (X : E → S → Prop).

Definition spec {A : Type} P (m : eff S E A) (Q : A → S → Prop) X : Prop :=
  ∀ s, P s → match m s with (Ok a, s') => Q a s' | (Err e, s') => X e s' end.

Lemma spec_bind {A B : Type} P (m : eff S E A) (f : A → eff S E B) (R : A → S → Prop) (Q : B → S → Prop) X :
  spec P m R X → (∀ a, spec (R a) (f a) Q X) → spec P (m ≫= f) Q X.
Proof. intros Hm Hf s Hs. specialize (Hm s Hs). unfold mbind, eff_bind. destruct (m s) as [[a|e] s']; [by apply Hf|done]. Qed.

Lemma spec_ret {A : Type} (a : A) (Q : A → S → Prop) X : spec (Q a) (mret a) Q X.
Proof. by intros s Hs. Qed.

Lemma spec_fail {A : Type} e (Q : A → S → Prop) X : spec (X e) (eff_fail e) Q X.
Proof. by intros s Hs. Qed.

Lemma spec_conseq {A : Type} (P P' : S → Prop) (m : eff S E A) (Q Q' : A → S → Prop) X X' :
  (∀ s, P s → P' s) → (∀ a s, Q' a s → Q a s) → (∀ e s, X' e s → X e s) → spec P' m Q' X' → spec P m Q X.
Proof.
  intros HP HQ HX Hm s Hs. specialize (Hm s (HP s Hs)). destruct (m s) as [[a|e] s']; [by apply HQ|by apply HX].
Qed.

Lemma spec_pre {A : Type} (P P' : S → Prop) (m : eff S E A) (Q : A → S → Prop) X : (∀ s, P s → P' s) → spec P' m Q X → spec P m Q X.
Proof. intros HP. by apply spec_conseq. Qed.

Lemma spec_pure {A : Type} (φ : Prop) P (m : eff S E A) (Q : A → S → Prop) X : (φ → spec P m Q X) → spec (λ s, φ ∧ P s) m Q X.
Proof. intros Hm s [Hφ HP]. by apply Hm. Qed.

(** The state a step starts from, and the run itself. *)
Lemma spec_at {A : Type} P (m : eff S E A) (Q : A → S → Prop) X : (∀ s, P s → spec (λ s', s' = s) m Q X) → spec P m Q X.
Proof. intros Hm s Hs. by apply (Hm s Hs). Qed.
Lemma spec_run {A : Type} s0 P (m : eff S E A) (Q : A → S → Prop) X : spec P m Q X →
  spec (λ s, s = s0 ∧ P s) m (λ a s, m s0 = (Ok a, s) ∧ Q a s) (λ e s, m s0 = (Err e, s) ∧ X e s).
Proof. intros Hm s [-> Hs]. specialize (Hm s0 Hs). by destruct (m s0) as [[a|e] s']. Qed.

Lemma spec_lift {A : Type} P (r : result E A) (Q : A → S → Prop) X :
  (∀ a, r = Ok a → ∀ s, P s → Q a s) → (∀ e, r = Err e → ∀ s, P s → X e s) → spec P (eff_lift r) Q X.
Proof. intros Hok Herr s Hs. unfold eff_lift. destruct r as [a|e]; [by apply Hok|by apply Herr]. Qed.

Lemma spec_conj {A : Type} P P' (m : eff S E A) (Q Q' : A → S → Prop) X X' : spec P m Q X → spec P' m Q' X' →
  spec (λ s, P s ∧ P' s) m (λ a s, Q a s ∧ Q' a s) (λ e s, X e s ∧ X' e s).
Proof. intros Hm Hm' s [Hs Hs']. specialize (Hm s Hs). specialize (Hm' s Hs'). by destruct (m s) as [[]]. Qed.

(** Running a step and looking at how it ended. *)
Lemma spec_try {F A B : Type} P (m : eff S F A) (f : result F A → eff S E B) (R : A → S → Prop) (Y : F → S → Prop) (Q : B → S → Prop) X :
  (∀ s, P s → match m s with (Ok a, s') => R a s' | (Err e, s') => Y e s' end) →
  (∀ a, spec (R a) (f (Ok a)) Q X) → (∀ e, spec (Y e) (f (Err e)) Q X) → spec P (eff_try m ≫= f) Q X.
Proof.
  intros Hm Hok Herr s Hs. specialize (Hm s Hs). unfold mbind, eff_bind, eff_try. destruct (m s) as [[a|e] s']; [by apply Hok|by apply Herr].
Qed.

(** A relation every step keeps is kept by the whole. *)
Definition keeps {A : Type} I (m : eff S E A) : Prop := spec I m (λ _, I) (λ _, I).

Lemma keeps_ret {A : Type} I (a : A) : keeps I (mret a).
Proof. by intros s Hs. Qed.
Lemma keeps_fail {A : Type} I (e : E) : keeps I (eff_fail (A := A) e).
Proof. by intros s Hs. Qed.
Lemma keeps_lift {A : Type} I (r : result E A) : keeps I (eff_lift r).
Proof. by apply spec_lift. Qed.
Lemma keeps_get {A : Type} I (f : S → A) : keeps I (eff_get (E := E) f).
Proof. by intros s Hs. Qed.
Lemma keeps_bind {A B : Type} I (m : eff S E A) (f : A → eff S E B) :
  keeps I m → (∀ a, keeps I (f a)) → keeps I (m ≫= f).
Proof. intros Hm Hf. by eapply spec_bind. Qed.
Lemma keeps_iter {A : Type} I (f : A → eff S E unit) l : (∀ x, x ∈ l → keeps I (f x)) → keeps I (eff_iter f l).
Proof.
  induction l as [|x l IH]; intros Hf; [apply keeps_ret|]. apply keeps_bind; [apply Hf; by left|].
  intros _. apply IH. intros y Hy. apply Hf. by right.
Qed.
End specs.

Lemma keeps_map_err {S E F A : Type} I (f : E → F) (m : eff S E A) : keeps I m → keeps I (eff_map_err f m).
Proof. intros Hm s Hs. specialize (Hm s Hs). unfold eff_map_err. by destruct (m s) as [[]]. Qed.
Lemma keeps_try {S E F A : Type} I (m : eff S E A) : keeps I m → keeps I (eff_try (F := F) m).
Proof. intros Hm s Hs. specialize (Hm s Hs). unfold eff_try. by destruct (m s) as [[]]. Qed.
