(* ===== verification/Errors.v ===== *)
(** * The errors of the daemon and their texts: the [#[error]] attributes of
    [state/src/error.rs], [config/src/error.rs] and [daemon/src/error.rs]

    An error of a library is kept as its text, except [std::io::Error], whose kind
    the code looks at. *)

From S2P Require Import Prelude RustStr StateTypes HostFs.
From S2P Require Import ConfigModel Identity PfInstall.

(** [format!("{n:o}")]. *)
Fixpoint octal_digits (fuel : nat) (n : N) (acc : string) : string :=
  match fuel with
  | 0 => acc
  | S fuel =>
      let acc := String (ascii_of_N (48 + n mod 8)) acc in
      if (n <? 8)%N then acc else octal_digits fuel (n / 8) acc
  end.
(** A [u32] has at most 11 octal digits. *)
Definition show_octal (n : N) : string := octal_digits 11 n "".

Section displays.
Context (sqlite_display : SqliteError → string) (time_format_error : string).

Definition state_error_display (e : StateError) : string :=
  match e with
  | MissingHome => "home directory could not be determined"
  | NonUtf8Home p => "home directory is not valid UTF-8: " +:+ debug_str p
  | StateTypes.Filesystem p source => "filesystem error at " +:+ p +:+ ": " +:+ source
  | StateTypes.UnsupportedPlatform c target => capability_as_str c +:+ " is unsupported on " +:+ target
  | InvalidAppReleaseVersion v => "invalid PV app release version " +:+ tick v
  | AppReleaseMissing v p => "PV app release " +:+ tick v +:+ " is missing at " +:+ p
  | InvalidAppReleasePointer p t => "active PV binary symlink at " +:+ p +:+ " targets invalid release " +:+ tick t
  | CoordinationLockHeld p =>
      "PV self-update/daemon mutation coordination is active; the OS lock is held on " +:+ p
  | UnsafePermissions p expected actual =>
      "unsafe permissions for " +:+ p +:+ ": expected " +:+ show_octal expected +:+ ", found " +:+ show_octal actual
  | UnexpectedOwner p expected actual =>
      "unexpected owner for " +:+ p +:+ ": expected uid " +:+ pretty expected +:+ ", found uid " +:+ pretty actual
  | Sqlite source => "SQLite error: " +:+ sqlite_display source
  | MigrationFailed v name source =>
      "migration " +:+ pretty v +:+ " (" +:+ name +:+ ") failed: " +:+ sqlite_display source
  | MigrationNameMismatch v expected actual =>
      "migration " +:+ pretty v +:+ " name mismatch: expected " +:+ expected +:+ ", found " +:+ actual
  | UnknownJobStatus s => "unknown daemon job status " +:+ tick s
  | UnknownManagedResourceDesiredState s => "unknown managed resource desired state " +:+ tick s
  | UnknownResourceAllocationStatus s => "unknown resource allocation status " +:+ tick s
  | UnknownProjectEnvObservedStatus s => "unknown Project env observed status " +:+ tick s
  | UnknownProjectMode v => "unknown Project serving mode value " +:+ tick (pretty v)
  | UnknownRuntimeObservedStatus s => "unknown runtime observed status " +:+ tick s
  | InvalidRuntimeSubject kind v => "invalid runtime subject " +:+ kind +:+ " " +:+ tick v
  | ProjectNotFound t => "Project " +:+ tick t +:+ " was not found"
  | InvalidProjectPath kind p reason => "invalid Project " +:+ kind +:+ " " +:+ tick p +:+ ": " +:+ reason
  | InvalidProjectHostname h reason => "invalid Project hostname " +:+ tick h +:+ ": " +:+ reason
  | InvalidProjectTrack t => "invalid Project PHP track " +:+ tick t
  | ProjectHostnameCollision h i => "Project hostname " +:+ tick h +:+ " is already owned by Project " +:+ tick i
  | DuplicateProjectHostname h => "Project hostname " +:+ tick h +:+ " appears more than once for the same Project"
  | ProjectIdExhausted n => "could not allocate a unique Project ID after " +:+ pretty n +:+ " attempts"
  | InvalidProjectSlug name => "Project directory name " +:+ tick name +:+ " cannot produce a valid Project slug"
  | ProjectSlugMissing i => "Project " +:+ tick i +:+ " has no stored Project slug"
  | ProjectSlugExhausted n => "could not allocate a unique Project slug after " +:+ pretty n +:+ " attempts"
  | ProjectNotServed i => "Project " +:+ tick i +:+ " is resource-only and has no served hostname"
  | InvalidManagedResourceIdentity kind v => "invalid managed resource " +:+ kind +:+ " " +:+ tick v
  | ReservedConcreteTrack t => "reserved concrete track " +:+ tick t +:+ " must be resolved before state storage"
  | InvalidResourceAllocationIdentity kind v => "invalid resource allocation " +:+ kind +:+ " " +:+ tick v
  | ResourceAllocationGeneratedNameCollision r t g =>
      "Resource allocation generated name " +:+ tick g +:+ " for resource " +:+ tick r +:+ " track " +:+ tick t
        +:+ " is already in use"
  | InvalidEnvJson c reason => "invalid env JSON for " +:+ c +:+ ": " +:+ reason
  | InvalidEnvContext c reason => "invalid env context for " +:+ c +:+ ": " +:+ reason
  | ResourceAllocationNotFound i r a =>
      "Resource allocation " +:+ tick a +:+ " for Project " +:+ tick i +:+ " resource " +:+ tick r +:+ " was not found"
  | ResourceAllocationNotDesired i r t a =>
      "Resource allocation " +:+ tick a +:+ " for Project " +:+ tick i +:+ " resource " +:+ tick r +:+ " track "
        +:+ tick t +:+ " is not in desired state"
  | InvalidProjectEnvObservedWarning kind v => "invalid Project env observed warning " +:+ kind +:+ " " +:+ tick v
  | JobNotFound i => "daemon job " +:+ tick i +:+ " was not found"
  | InvalidPortOwner o reason => "invalid port owner " +:+ tick o +:+ ": " +:+ reason
  | UnknownPortOwnerKind k => "unknown port owner kind " +:+ tick k
  | NoAvailablePort name preferred first last attempts =>
      "no available port for " +:+ name +:+ "; tried preferred " +:+ pretty preferred +:+ " and up to "
        +:+ pretty attempts +:+ " candidates in " +:+ pretty first +:+ "-" +:+ pretty last
  | TimeFormat => "time formatting failed: " +:+ time_format_error
  | BackupNameExhausted p => "could not allocate a unique migration backup name under " +:+ p
  end.

Context (io_kind_display : io_error_kind → string).

Definition config_error_display (e : ConfigError) : string :=
  match e with
  | NonUtf8Path p => "Project path is not valid UTF-8: " +:+ debug_str p
  | ConfigFileConflict p a => "Project config file conflict: both " +:+ p +:+ " and " +:+ a +:+ " exist"
  | ConfigFilesystem p source => "filesystem error at " +:+ p +:+ ": " +:+ io_kind_display source
  | ConfigUnsupportedPlatform c target => c +:+ " are unsupported on " +:+ target
  | ProjectRootNotDirectory p => "Project root must be an existing directory: " +:+ p
  | ConfigPathEscapesRoot p => "Project config symlink escapes the Project root: " +:+ p
  | ParseError source => "Project config YAML parse error: " +:+ source
  | InvalidInitJson p reason => "Project init could not parse JSON file " +:+ p +:+ ": " +:+ reason
  | RootMustBeMapping found => "Project config root must be a mapping, found " +:+ found
  | UnknownTopLevelKey k => "unknown Project config key " +:+ tick k
  | UnknownPhpKey k => "unknown Project config key " +:+ tick ("php." +:+ k)
  | UnknownResourceKey r k => "unknown Project config key " +:+ tick k +:+ " under resource " +:+ tick r
  | UnknownAllocationKey r a k =>
      "unknown Project config key " +:+ tick k +:+ " under allocation " +:+ tick (r +:+ "." +:+ a)
  | InvalidFieldType f expected found =>
      "Project config field " +:+ tick f +:+ " must be " +:+ expected +:+ ", found " +:+ found
  | EmptyField f => "Project config field " +:+ tick f +:+ " must not be empty"
  | InvalidPhpTrack t reason => "invalid Project config PHP track " +:+ tick t +:+ ": " +:+ reason
  | InvalidResourceTrack r t reason =>
      "invalid Project config resource " +:+ tick r +:+ " version " +:+ tick t +:+ ": " +:+ reason
  | InvalidHostname h reason => "invalid Project hostname " +:+ tick h +:+ ": " +:+ reason
  | DuplicateHostname h => "duplicate Project config hostname " +:+ tick h
  | AbsoluteDocumentRoot d => "Project config document_root must be relative to the Project root: " +:+ d
  | DocumentRootEscapesProject d => "Project config document_root escapes the Project root: " +:+ d
  | DocumentRootNotDirectory d => "Project config document_root must be an existing directory: " +:+ d
  | AbsoluteEnvFile f => "Project config env_file must be relative to the Project root: " +:+ f
  | EnvFileEscapesProject f => "Project config env_file escapes the Project root: " +:+ f
  | EnvFileParentNotDirectory f => "Project config env_file parent must be an existing directory: " +:+ f
  | EnvFileNotFile f => "Project config env_file must point to a file: " +:+ f
  | InvalidEnvKey k => "invalid Project config env key " +:+ tick k
  | InvalidAllocationName a => "invalid Project config allocation name " +:+ tick a
  | DuplicateResource r => "duplicate Project config resource " +:+ tick r
  | UnsupportedResourceAllocations r => "Project config resource " +:+ tick r +:+ " does not support allocations"
  | DuplicateNormalizedAllocation r a n =>
      "duplicate Project config allocation " +:+ tick a +:+ " for resource " +:+ tick r
        +:+ " after normalizing to " +:+ tick n
  | InvalidEnvPlaceholder f p reason =>
      "invalid Project config env placeholder " +:+ tick p +:+ " in " +:+ tick f +:+ ": " +:+ reason
  | UnknownEnvPlaceholder f p => "unknown Project config env placeholder " +:+ tick p +:+ " in " +:+ tick f
  | EnvPlaceholderContractError r reason =>
      "failed to load env placeholder contract for Project config resource " +:+ tick r +:+ ": " +:+ reason
  | MissingResourceEnvContext r => "missing Project env context for resource " +:+ tick r
  | MissingAllocationEnvContext r a => "missing Project env context for allocation " +:+ tick (r +:+ "." +:+ a)
  | MissingEnvContext f p => "missing Project env context value " +:+ tick p +:+ " for " +:+ tick f
  | DuplicateRenderedEnvKey k first second =>
      "duplicate rendered Project env key " +:+ tick k +:+ " from same-depth mappings " +:+ tick first
        +:+ " and " +:+ tick second
  | MalformedManagedEnvBlock reason => "malformed PV-managed .env block: " +:+ reason
  end.

(** ** The daemon's errors *)

Inductive DaemonError : Type :=
| DaemonIo (source : IoError)
| StartupCleanupFailed (source cleanup : DaemonError)
| SocketInUse (p : string)
| DaemonJson (source : string)
| Frame (source : string)
| Protocol (source : string)
| ProtocolTimedOut (phase : string)
| ProtocolMismatch (expected actual : N)
| UnexpectedProtocolResponse (reason : string)
| DaemonRejected (message : string)
| DnsDecode (source : string)
| DnsEncode (source : string)
| DnsBind (protocol : string) (port : Z) (in_use : bool) (source : string)
| DaemonState (source : StateError)
| DaemonConfig (source : ConfigError)
| DaemonResources (source : ResourcesError)
| ManagedResourceCommand (source : string)
| DaemonPlatform (source : string)
| ManagedResourceDefaultInstallFailures (failures : list string)
| Redis (source : string)
| Task (source : string)
| MissingProcessId (name : string)
| MissingProcessIdentity (name : string) (pid : N)
| ReadinessTimedOut (check : string) (timeout_ms : N) (last_error : option string)
| UnsupportedManagedResourceRuntime (resource : string)
| NonPvManagedResourceRuntimeListener (name : string)
| ManagedResourceArtifactMissing (resource track : string)
| ManagedResourceTrackRemoved (resource track : string)
| ManagedResourcePortMissing (resource track port : string)
| ManagedResourcePortNameReserved (resource track port : string)
| InvalidSqlIdentifier (identifier : string)
| SqlAdmin (source : string)
| DaemonTimeFormat.

(** [{last_error:?}]. *)
Definition debug_option (o : option string) : string :=
  match o with Some s => "Some(" +:+ debug_str s +:+ ")" | None => "None" end.

Fixpoint daemon_error_display (e : DaemonError) : string :=
  match e with
  | DaemonIo source => "I/O error: " +:+ io_text source
  | StartupCleanupFailed source cleanup =>
      daemon_error_display source +:+ "; additionally failed to remove daemon socket during startup cleanup: "
        +:+ daemon_error_display cleanup
  | SocketInUse p => "daemon socket is already in use at " +:+ p
  | DaemonJson source => "daemon protocol JSON error: " +:+ source
  | Frame source => "daemon protocol frame error: " +:+ source
  | Protocol source => source
  | ProtocolTimedOut phase => "daemon protocol error: daemon " +:+ phase +:+ " timed out"
  | ProtocolMismatch _ _ => "daemon protocol error: daemon protocol mismatch; run `pv daemon:restart`"
  | UnexpectedProtocolResponse reason => "daemon protocol error: " +:+ reason
  | DaemonRejected message => "daemon protocol error: " +:+ message
  | DnsDecode source => "DNS request decode error: " +:+ source
  | DnsEncode source => "DNS response encode error: " +:+ source
  | DnsBind protocol port _ source =>
      "DNS resolver failed to bind " +:+ protocol +:+ " on 127.0.0.1:" +:+ pretty port +:+ ": " +:+ source
  | DaemonState source => "state error: " +:+ state_error_display source
  | DaemonConfig source => "Project config error: " +:+ config_error_display source
  | DaemonResources source => "Managed Resource error: " +:+ resources_error_display source
  | ManagedResourceCommand source => "Managed Resource command failed: " +:+ source
  | DaemonPlatform source => "platform error: " +:+ source
  | ManagedResourceDefaultInstallFailures failures =>
      "Managed Resource default installs failed: " +:+ join "; " failures
  | Redis source => "Redis readiness failed: " +:+ source
  | Task source => "daemon task failed: " +:+ source
  | MissingProcessId name => "process " +:+ tick name +:+ " started without an observable pid"
  | MissingProcessIdentity name pid =>
      "process " +:+ tick name +:+ " started without observable identity for pid " +:+ pretty pid
  | ReadinessTimedOut check ms last_error =>
      "readiness check " +:+ tick check +:+ " timed out after " +:+ pretty ms +:+ "ms; last error: "
        +:+ debug_option last_error
  | UnsupportedManagedResourceRuntime r => "Managed Resource runtime " +:+ tick r +:+ " is not supported yet"
  | NonPvManagedResourceRuntimeListener name =>
      "Managed Resource runtime " +:+ tick name +:+ " is listening but no PV-owned process could be verified"
  | ManagedResourceArtifactMissing r t =>
      "Managed Resource runtime " +:+ tick r +:+ " track " +:+ tick t +:+ " is missing installed artifact path"
  | ManagedResourceTrackRemoved r t =>
      "Managed Resource runtime " +:+ tick r +:+ " track " +:+ tick t +:+ " is marked removed"
  | ManagedResourcePortMissing r t p =>
      "Managed Resource runtime " +:+ tick r +:+ " track " +:+ tick t +:+ " is missing port " +:+ tick p
  | ManagedResourcePortNameReserved r t p =>
      "Managed Resource runtime " +:+ tick r +:+ " track " +:+ tick t +:+ " uses reserved port name " +:+ tick p
  | InvalidSqlIdentifier i =>
      "invalid SQL database identifier " +:+ tick i
        +:+ ": identifiers must use ASCII alphanumeric characters and underscores"
  | SqlAdmin source => "SQL admin error: " +:+ source
  | DaemonTimeFormat => "time formatting failed: " +:+ time_format_error
  end.
End displays.
