(* ===== verification/Supervisor.v ===== *)
(** * The process supervisor ([daemon/src/supervisor.rs]): starting a runtime, finding it
    again after a restart of the daemon, signalling it, waiting for it

    The operating system is asked through [ProcessHost]: its answers depend on when it
    is asked and on nothing else, so that anything may happen between two calls. The
    state is the file system, the time, and the signals PV has sent. *)

From S2P Require Import Prelude RustStr Paths Identity StateTypes HostFs StateFs StatePaths StateDb Effects Errors.

(** ** Data *)

Inductive ProcessSignal : Type := Reload | Terminate | Kill.

Record ProcessStartIdentity := { ps_seconds : N; ps_microseconds : N }.
#[export] Instance start_identity_eq_dec : EqDecision ProcessStartIdentity.
Proof. solve_decision. Defined.

(** [platform::ProcessIdentity]. *)
Record ProcessIdentity := {
  pi_executable : string;
  pi_argument_zero : string;
  pi_arguments : list string;
  pi_start_identity : ProcessStartIdentity;
}.
#[export] Instance process_identity_eq_dec : EqDecision ProcessIdentity.
Proof. solve_decision. Defined.

Record ProcessSpec := {
  sp_name : string;
  sp_command : string;
  sp_arguments : list string;
  sp_private_environment : gmap string string;
  sp_config_path : string;
  sp_log_path : string;
  sp_pid_path : string;
  sp_metadata_path : string;
  sp_resource_name : string;
  sp_track : string;
}.

Record ProcessExecutableIdentity := { ex_executable : string; ex_argument_zero : string }.

Record RuntimeMetadata := {
  md_name : string;
  md_pid : N;
  md_command : string;
  md_arguments : list string;
  md_private_environment_fingerprint : option string;
  md_config_path : string;
  md_resource_name : string;
  md_track : string;
  md_log_path : string;
  md_started_at : string;
  md_process_start_identity : option ProcessStartIdentity;
  md_process_executable_identity : option ProcessExecutableIdentity;
}.

(** [ManagedProcess], [OwnedRuntime] and [AdoptedProcess], without their paths' copies. *)
Record ManagedProcess := { mp_pid : N; mp_log_path : string; mp_pid_path : string; mp_metadata_path : string }.
Record OwnedRuntime := {
  ow_pid : N;
  ow_command : string;
  ow_arguments : list string;
  ow_process_start_identity : ProcessStartIdentity;
  ow_process_executable_identity : option ProcessExecutableIdentity;
  ow_log_path : string;
  ow_pid_path : string;
  ow_metadata_path : string;
}.
Record AdoptedProcess := { ad_owned : OwnedRuntime }.

(** Durations and instants, in nanoseconds. *)
Definition millis (n : N) : N := n * 1000000.
Definition as_millis (d : N) : N := d / 1000000.
Definition READINESS_POLL_INTERVAL : N := millis 25.
Definition READINESS_PROBE_TIMEOUT : N := millis 1000.
Definition SCRIPT_IDENTITY_POLL_INTERVAL : N := millis 10.
Definition SCRIPT_IDENTITY_STABILIZATION : N := millis 250.
Definition SCRIPT_IDENTITY_TIMEOUT : N := millis 5000.
Definition KILL_WAIT : N := millis 1000.

(** ** The operating system *)

(** What [kill] answers when it does not succeed: no such process, not allowed, or
    something else. *)
Inductive KillError : Type := NoSuchProcess | NotPermitted (e : IoError) | OtherKillError (e : IoError).
Definition kill_io_error (e : KillError) : IoError :=
  match e with
  | NoSuchProcess => {| io_kind := OtherKind; io_text := "No such process (os error 3)" |}
  | NotPermitted e | OtherKillError e => e
  end.

(** How a child that is waited for ends: after a while, with an error, or not. *)
Inductive ChildWait : Type := ExitsAfter (d : N) | WaitFails (e : IoError) | RunsOn.
(** What a readiness probe does when it is given some time. *)
Inductive Probe : Type := ProbeReady (d : N) | ProbeFails (d : N) (e : string) | ProbeHangs.

(** The [n]-th call and its answer. *)
Class ProcessHost := {
  containment : result string unit;
  inspect_at : nat → N → result string (option ProcessIdentity);
  kill_at : nat → N → ProcessSignal → result KillError unit;
  test_at : nat → N → result KillError unit;
  spawn_at : nat → result IoError (option N);
  try_wait_at : nat → result IoError bool;
  wait_at : nat → ChildWait;
  probe_at : nat → Probe;
  timestamp_at : nat → result unit string;
  (** How much longer than asked a sleep takes, and how long another call takes. *)
  delay_at : nat → N;
}.

Class MetadataJson := {
  metadata_to_json : RuntimeMetadata → result string string;
  metadata_from_json : string → result string RuntimeMetadata;
  sha256 : string → string;
}.
Class MetadataJsonLaws `{MetadataJson} := {
  metadata_round_trip m s : metadata_to_json m = Ok s → metadata_from_json s = Ok m;
}.

(** A signal to a process group: the number of the call and when it was made. *)
Record Signalled := { sg_call : nat; sg_time : N; sg_group : N; sg_signal : ProcessSignal }.

(** [su_calls] counts the calls; [su_sent] has the signals that were sent and [su_spawned]
    the processes that were started, the last first. *)
Record Supervised := {
  su_world : World;
  su_now : N;
  su_calls : nat;
  su_sent : list Signalled;
  su_spawned : list N;
}.

Definition world_part : part Supervised World := {|
  get_part := su_world;
  set_part w s := {| su_world := w; su_now := su_now s; su_calls := su_calls s; su_sent := su_sent s; su_spawned := su_spawned s |} |}.

Definition from_fs (e : FsError) : DaemonError :=
  DaemonState (StateTypes.Filesystem (path_str (fs_path e)) (io_text (fs_source e))).

(** The path that a text spells. *)
Definition path_of (s : string) : path := List.filter kept_piece (split "/" s).

Section supervisor.
Context `{Host} `{ProcessHost} `{MetadataJson}.

Definition Sup (A : Type) : Type := eff Supervised DaemonError A.

Definition on_files {A : Type} (m : IO FsError A) : Sup A := on_part world_part from_fs m.

(** A call of the operating system: it is counted and takes some time. *)
Definition asks {A : Type} (f : nat → A) : Sup A := λ s,
  let n := su_calls s in
  (Ok (f n), {| su_world := su_world s; su_now := su_now s + delay_at n; su_calls := S n; su_sent := su_sent s; su_spawned := su_spawned s |}).

Definition sleep (d : N) : Sup unit := λ s,
  let n := su_calls s in
  (Ok tt, {| su_world := su_world s; su_now := su_now s + d + delay_at n; su_calls := S n; su_sent := su_sent s; su_spawned := su_spawned s |}).

Definition instant_now : Sup N := eff_get su_now.
(** [readiness_timeout.checked_sub(started_at.elapsed()).filter(|r| !r.is_zero())]. *)
Definition remaining_timeout (started_at timeout : N) : Sup (option N) := eff_get (λ s,
  let elapsed := (su_now s - started_at)%N in
  if (elapsed <? timeout)%N then Some (timeout - elapsed)%N else None).

Definition require_process_containment : Sup unit := eff_lift (map_err DaemonPlatform containment).

Definition inspect_process_identity (pid : N) : Sup (option ProcessIdentity) :=
  answer ← asks (λ n, inspect_at n pid);
  eff_lift (map_err DaemonPlatform answer).

Definition invalid_input (text : string) : DaemonError := DaemonIo {| io_kind := OtherKind; io_text := text |}.

Definition I32_MAX : N := 2 ^ 31 - 1.
Definition process_group_pid (pid : N) : result DaemonError N :=
  if (I32_MAX <? pid)%N then Err (invalid_input "out of range integral type conversion attempted")
  else if (pid =? 0)%N then Err (invalid_input "process id must be positive")
  else Ok pid.

Definition record_sent (pid : N) (signal : ProcessSignal) : Sup unit := eff_modify (λ s,
  {| su_world := su_world s; su_now := su_now s; su_calls := su_calls s;
     su_sent := {| sg_call := su_calls s; sg_time := su_now s; sg_group := pid; sg_signal := signal |} :: su_sent s;
     su_spawned := su_spawned s |}).

Definition signal_process_group (pid : N) (signal : ProcessSignal) : Sup unit :=
  group ← eff_lift (process_group_pid pid);
  _ ← record_sent group signal;
  answer ← asks (λ n, kill_at n group signal);
  match answer with
  | Ok _ => mret tt
  | Err NoSuchProcess => mret tt
  | Err error => eff_fail (DaemonIo (kill_io_error error))
  end.

Definition process_group_exists (pid : N) : Sup bool :=
  group ← eff_lift (process_group_pid pid);
  answer ← asks (λ n, test_at n group);
  match answer with
  | Ok _ => mret true
  | Err NoSuchProcess | Err (NotPermitted _) => mret false
  | Err (OtherKillError error) => eff_fail (DaemonIo error)
  end.

(** ** Whose process it is *)

Definition executable_matches (identity : ProcessIdentity) (command : string) : bool :=
  path_eqb (pi_executable identity) command
  || (path_eqb command "/bin/sh" && path_eqb (pi_executable identity) "/bin/bash"
      && bool_decide (pi_argument_zero identity = command)).

Definition script_arguments_match (identity : ProcessIdentity) (command : string) (arguments : list string) : bool :=
  match pi_arguments identity with
  | script :: live_arguments => bool_decide (script = command) && bool_decide (live_arguments = arguments)
  | [] => false
  end.

Definition is_script (command : string) : Sup bool := λ s,
  match on_files (read_to_string (path_of command)) s with
  | (Ok source, s) => (Ok (starts_with "#!" source), s)
  | (Err _, s) => (Ok false, s)
  end.

Definition identity_expected (identity : ProcessIdentity) (expected : option ProcessExecutableIdentity) : bool :=
  match expected with
  | Some expected => bool_decide (ex_executable expected = pi_executable identity)
      && bool_decide (ex_argument_zero expected = pi_argument_zero identity)
  | None => false
  end.

Definition process_identity_matches (identity : ProcessIdentity) (command : string) (arguments : list string)
    (expected : option ProcessExecutableIdentity) : Sup bool :=
  let direct_arguments_match := bool_decide (pi_arguments identity = arguments) in
  let direct_command_matches := executable_matches identity command in
  script_identity_matches ←
    (if script_arguments_match identity command arguments then
       script ← is_script command; mret (script && identity_expected identity expected)
     else mret false);
  mret ((direct_command_matches && direct_arguments_match) || script_identity_matches).

Definition live_process_matches (pid : N) (command : string) (arguments : list string)
    (start_identity : ProcessStartIdentity) (expected : option ProcessExecutableIdentity) : Sup bool :=
  found ← inspect_process_identity pid;
  match found with
  | None => mret false
  | Some identity =>
      if negb (bool_decide (pi_start_identity identity = start_identity)) then mret false
      else process_identity_matches identity command arguments expected
  end.

(** ** The runtime's files *)

(** [(n as u64).to_be_bytes()]. *)
Fixpoint be_bytes (width : nat) (n : N) : string :=
  match width with
  | 0 => ""
  | S width => String (ascii_of_N (n / 256 ^ N.of_nat width mod 256)) (be_bytes width n)
  end.
Definition framed (s : string) : string := be_bytes 8 (N.of_nat (len s)) +:+ s.
Definition environment_bytes (environment : gmap string string) : string :=
  str_concat ((λ '(key, value), framed key +:+ framed value) <$> btree_iter environment).

Definition PRIVATE_ENVIRONMENT_FINGERPRINT_PREFIX : string := "sha256:v1:".
Definition private_environment_fingerprint (environment : gmap string string) : option string :=
  if bool_decide (environment = ∅) then None
  else Some (PRIVATE_ENVIRONMENT_FINGERPRINT_PREFIX +:+ sha256 (environment_bytes environment)).

Definition process_spec (m : RuntimeMetadata) (pid_path metadata_path : string) : ProcessSpec :=
  {| sp_name := md_name m; sp_command := md_command m; sp_arguments := md_arguments m;
     sp_private_environment := ∅; sp_config_path := md_config_path m; sp_log_path := md_log_path m;
     sp_pid_path := pid_path; sp_metadata_path := metadata_path; sp_resource_name := md_resource_name m;
     sp_track := md_track m |}.

Definition matches_recorded (m : RuntimeMetadata) (spec : ProcessSpec) (pid : N) : bool :=
  bool_decide (md_name m = sp_name spec) && bool_decide (md_pid m = pid)
  && bool_decide (md_command m = sp_command spec) && bool_decide (md_arguments m = sp_arguments spec)
  && bool_decide (md_config_path m = sp_config_path spec)
  && bool_decide (md_resource_name m = sp_resource_name spec) && bool_decide (md_track m = sp_track spec)
  && bool_decide (md_log_path m = sp_log_path spec).

Definition metadata_matches (m : RuntimeMetadata) (spec : ProcessSpec) (pid : N) : bool :=
  matches_recorded m spec pid
  && bool_decide (md_private_environment_fingerprint m = private_environment_fingerprint (sp_private_environment spec)).

Definition read_optional_file (p : string) : Sup (option string) := λ s,
  match read_to_string (path_of p) (su_world s) with
  | (Ok content, w) => (Ok (Some content), set_part world_part w s)
  | (Err error, w) =>
      match io_kind (fs_source error) with
      | NotFound => (Ok None, set_part world_part w s)
      | OtherKind => (Err (from_fs error), set_part world_part w s)
      end
  end.

Definition U32_MAX : N := 2 ^ 32 - 1.
(** [s.parse::<u32>()]. *)
Definition parse_u32 (s : string) : option N := n ← parse_u64 s; if (n <=? U32_MAX)%N then Some n else None.

Definition read_pid_file (p : string) : Sup (option N) :=
  found ← read_optional_file p;
  match found with
  | None => mret None
  | Some content =>
      match parse_u32 (trim content) with
      | Some pid => mret (Some pid)
      | None => eff_fail (invalid_input "invalid digit found in string")
      end
  end.

Definition read_runtime_metadata (p : string) : Sup (option RuntimeMetadata) :=
  found ← read_optional_file p;
  match found with
  | None => mret None
  | Some content => m ← eff_lift (map_err DaemonJson (metadata_from_json content)); mret (Some m)
  end.

Definition write_sensitive (p content : string) : Sup unit := on_files (write_sensitive_file (path_of p) content).

Definition write_runtime_metadata (spec : ProcessSpec) (pid : N) (start_identity : ProcessStartIdentity)
    (executable_identity : option ProcessExecutableIdentity) : Sup unit :=
  answer ← asks timestamp_at;
  started_at ← eff_lift (map_err (λ _, DaemonTimeFormat) answer);
  let metadata := {|
    md_name := sp_name spec; md_pid := pid; md_command := sp_command spec; md_arguments := sp_arguments spec;
    md_private_environment_fingerprint := private_environment_fingerprint (sp_private_environment spec);
    md_config_path := sp_config_path spec; md_resource_name := sp_resource_name spec; md_track := sp_track spec;
    md_log_path := sp_log_path spec; md_started_at := started_at;
    md_process_start_identity := Some start_identity;
    md_process_executable_identity := executable_identity |} in
  encoded ← eff_lift (map_err DaemonJson (metadata_to_json metadata));
  write_sensitive (sp_metadata_path spec) encoded.

Definition missing_identity (spec : ProcessSpec) (pid : N) : DaemonError := MissingProcessIdentity (sp_name spec) pid.

(** The loop that waits until a script's interpreter is seen twice, long enough apart, with
    the same identity; [stable] is the identity and when it was first seen. *)
Fixpoint script_identity_loop (fuel : nat) (spec : ProcessSpec) (pid started_at : N)
    (stable : option (ProcessIdentity * N)) (identity : ProcessIdentity) :
    Sup (ProcessIdentity * option ProcessExecutableIdentity) :=
  match fuel with
  | 0 => eff_fail (missing_identity spec pid)
  | S fuel =>
      now ← instant_now;
      let matches_ := script_arguments_match identity (sp_command spec) (sp_arguments spec) in
      let settled := match stable with
        | Some (seen, observed_at) => matches_ && bool_decide (seen = identity)
            && (SCRIPT_IDENTITY_STABILIZATION <=? now - observed_at)%N
        | None => false end in
      if settled then
        mret (identity, Some {| ex_executable := pi_executable identity;
                                ex_argument_zero := pi_argument_zero identity |})
      else
        let stable :=
          if matches_ then
            match stable with
            | Some (seen, observed_at) => if bool_decide (seen = identity) then stable else Some (identity, now)
            | None => Some (identity, now)
            end
          else None in
        if (SCRIPT_IDENTITY_TIMEOUT <=? now - started_at)%N then eff_fail (missing_identity spec pid)
        else
          _ ← sleep SCRIPT_IDENTITY_POLL_INTERVAL;
          found ← inspect_process_identity pid;
          match found with
          | None => eff_fail (missing_identity spec pid)
          | Some next => script_identity_loop fuel spec pid started_at stable next
          end
  end.
(** A round takes an interval at least. *)
Definition SCRIPT_IDENTITY_ROUNDS : nat := S (N.to_nat (SCRIPT_IDENTITY_TIMEOUT / SCRIPT_IDENTITY_POLL_INTERVAL)).

Definition process_identity_for_runtime_metadata (spec : ProcessSpec) (pid : N) :
    Sup (ProcessIdentity * option ProcessExecutableIdentity) :=
  found ← inspect_process_identity pid;
  match found with
  | None => eff_fail (missing_identity spec pid)
  | Some identity =>
      if executable_matches identity (sp_command spec) then mret (identity, None)
      else if negb (existsb (λ argument, bool_decide (argument = sp_command spec)) (take 2 (pi_arguments identity)))
      then mret (identity, None)
      else
        source ← on_files (read_to_string (path_of (sp_command spec)));
        if negb (starts_with "#!" source) then mret (identity, None)
        else
          started_at ← instant_now;
          script_identity_loop SCRIPT_IDENTITY_ROUNDS spec pid started_at None identity
  end.

Definition persist_runtime_files (spec : ProcessSpec) (pid : N) : Sup unit :=
  identities ← process_identity_for_runtime_metadata spec pid;
  _ ← write_sensitive (sp_pid_path spec) (pretty pid +:+ String NEWLINE "");
  write_runtime_metadata spec pid (pi_start_identity identities.1) identities.2.

(** ** Starting *)

(** [Child::kill] and [Child::wait], whose outcome is not looked at, come after the group's
    signal; the child's own process is in its group. *)
Definition terminate_spawned_child (pid : N) : Sup unit :=
  _ ← eff_try (F := DaemonError) (signal_process_group pid Kill);
  _ ← asks (λ n, tt);
  _ ← asks (λ n, tt);
  mret tt.

Definition record_spawned (pid : N) : Sup unit := eff_modify (λ s,
  {| su_world := su_world s; su_now := su_now s; su_calls := su_calls s; su_sent := su_sent s;
     su_spawned := pid :: su_spawned s |}).

Definition start (paths : PvPaths) (spec : ProcessSpec) : Sup ManagedProcess :=
  _ ← require_process_containment;
  _ ← on_files (ensure_layout paths);
  _ ← on_files (open_append_file (path_of (sp_log_path spec)));
  _ ← on_files (open_append_file (path_of (sp_log_path spec)));
  answer ← asks spawn_at;
  child ← eff_lift (map_err DaemonIo answer);
  match child with
  | None => eff_fail (MissingProcessId (sp_name spec))
  | Some pid =>
      _ ← record_spawned pid;
      persisted ← eff_try (persist_runtime_files spec pid);
      match persisted with
      | Err error => _ ← terminate_spawned_child pid; eff_fail error
      | Ok _ => mret {| mp_pid := pid; mp_log_path := sp_log_path spec; mp_pid_path := sp_pid_path spec;
                        mp_metadata_path := sp_metadata_path spec |}
      end
  end.

(** ** Finding a runtime again *)

Definition owned_runtime (spec : ProcessSpec) (pid : N) (start_identity : ProcessStartIdentity)
    (expected : option ProcessExecutableIdentity) : OwnedRuntime :=
  {| ow_pid := pid; ow_command := sp_command spec; ow_arguments := sp_arguments spec;
     ow_process_start_identity := start_identity; ow_process_executable_identity := expected;
     ow_log_path := sp_log_path spec; ow_pid_path := sp_pid_path spec;
     ow_metadata_path := sp_metadata_path spec |}.

(** The tail that [verify_ownership] and [adopt_recorded] share. *)
Definition verify_live (spec : ProcessSpec) (pid : N) (metadata : RuntimeMetadata) (recorded : bool) :
    Sup (option OwnedRuntime) :=
  match md_process_start_identity metadata with
  | None => mret None
  | Some start_identity =>
      if negb recorded then mret None
      else
        live ← live_process_matches pid (sp_command spec) (sp_arguments spec) start_identity
                 (md_process_executable_identity metadata);
        mret (if live : bool then Some (owned_runtime spec pid start_identity (md_process_executable_identity metadata))
              else None)
  end.

Definition verify_ownership (spec : ProcessSpec) : Sup (option OwnedRuntime) :=
  _ ← require_process_containment;
  found_pid ← read_pid_file (sp_pid_path spec);
  match found_pid with
  | None => mret None
  | Some pid =>
      found_metadata ← read_runtime_metadata (sp_metadata_path spec);
      match found_metadata with
      | None => mret None
      | Some metadata => verify_live spec pid metadata (metadata_matches metadata spec pid)
      end
  end.

Definition adopt (spec : ProcessSpec) : Sup (option AdoptedProcess) :=
  _ ← require_process_containment;
  owned ← verify_ownership spec;
  mret (Build_AdoptedProcess <$> owned).

Definition adopt_recorded (pid_path metadata_path : string) : Sup (option AdoptedProcess) :=
  _ ← require_process_containment;
  found_pid ← read_pid_file pid_path;
  match found_pid with
  | None => mret None
  | Some pid =>
      found_metadata ← read_runtime_metadata metadata_path;
      match found_metadata with
      | None => mret None
      | Some metadata =>
          let spec := process_spec metadata pid_path metadata_path in
          owned ← verify_live spec pid metadata (matches_recorded metadata spec pid);
          mret (Build_AdoptedProcess <$> owned)
      end
  end.

Definition matches_live (o : OwnedRuntime) : Sup bool :=
  live_process_matches (ow_pid o) (ow_command o) (ow_arguments o) (ow_process_start_identity o)
    (ow_process_executable_identity o).

Definition signal_owned (o : OwnedRuntime) (signal : ProcessSignal) : Sup bool :=
  live ← matches_live o;
  if negb live then mret false else _ ← signal_process_group (ow_pid o) signal; mret true.

Definition reload (spec : ProcessSpec) : Sup bool :=
  _ ← require_process_containment;
  found ← verify_ownership spec;
  match found with
  | None => mret false
  | Some owned => signal_owned owned Reload
  end.

(** ** Stopping *)

(** Polls until the group is gone or the time is over; a round takes an interval, or what is
    left of the time. *)
Fixpoint group_exit_loop (fuel : nat) (pid started_at timeout : N) : Sup bool :=
  match fuel with
  | 0 => exists_ ← process_group_exists pid; mret (negb exists_)
  | S fuel =>
      remaining ← remaining_timeout started_at timeout;
      match remaining with
      | None => exists_ ← process_group_exists pid; mret (negb exists_)
      | Some remaining =>
          exists_ ← process_group_exists pid;
          if negb exists_ then mret true
          else _ ← sleep (N.min remaining READINESS_POLL_INTERVAL); group_exit_loop fuel pid started_at timeout
      end
  end.
(** The rounds that fit in a time, and one more. *)
Definition poll_rounds (timeout : N) : nat := S (S (N.to_nat (timeout / READINESS_POLL_INTERVAL))).

Definition wait_for_process_group_exit (pid timeout : N) : Sup bool :=
  started_at ← instant_now; group_exit_loop (poll_rounds timeout) pid started_at timeout.

Definition timed_out (text : string) : DaemonError := DaemonIo {| io_kind := OtherKind; io_text := text |}.

Definition stop_process_group_by_pid (pid grace_period : N) : Sup unit :=
  _ ← signal_process_group pid Terminate;
  gone ← wait_for_process_group_exit pid grace_period;
  if gone : bool then mret tt
  else
    _ ← signal_process_group pid Kill;
    gone ← wait_for_process_group_exit pid KILL_WAIT;
    if gone : bool then mret tt
    else eff_fail (timed_out ("process " +:+ pretty pid +:+ " did not exit after signal")).

Definition stop_adopted (a : AdoptedProcess) (grace_period : N) : Sup unit :=
  _ ← require_process_containment;
  live ← matches_live (ad_owned a);
  if negb live then mret tt else stop_process_group_by_pid (ow_pid (ad_owned a)) grace_period.

(** [timeout(grace, wait_for_managed_process_group_exit(..))]: [None] when the time is over
    before; a sleep that would end after the deadline is cut there. *)
Definition set_now (t : N) : Sup unit := eff_modify (λ s,
  {| su_world := su_world s; su_now := N.max (su_now s) t; su_calls := su_calls s; su_sent := su_sent s; su_spawned := su_spawned s |}).

Fixpoint managed_exit_loop (fuel : nat) (pid deadline : N) : Sup (option unit) :=
  match fuel with
  | 0 => mret None
  | S fuel =>
      exists_ ← process_group_exists pid;
      if negb exists_ then mret (Some tt)
      else
        now ← instant_now;
        if (deadline <? now + READINESS_POLL_INTERVAL)%N then _ ← set_now deadline; mret None
        else _ ← sleep READINESS_POLL_INTERVAL; managed_exit_loop fuel pid deadline
  end.

Definition wait_for_managed_process_group_exit (pid timeout : N) : Sup (option unit) :=
  started_at ← instant_now;
  let deadline := (started_at + timeout)%N in
  waited ← asks wait_at;
  match waited with
  | WaitFails error => eff_fail (DaemonIo error)
  | RunsOn => _ ← set_now deadline; mret None
  | ExitsAfter d =>
      now ← instant_now;
      if (deadline <? now + d)%N then _ ← set_now deadline; mret None
      else _ ← set_now (now + d)%N; managed_exit_loop (poll_rounds timeout) pid deadline
  end.

Definition stop_managed (p : ManagedProcess) (grace_period : N) : Sup unit :=
  let pid := mp_pid p in
  _ ← require_process_containment;
  answer ← asks try_wait_at;
  exited ← eff_lift (map_err DaemonIo answer);
  over ← (if exited : bool then exists_ ← process_group_exists pid; mret (negb exists_) else mret false);
  if over : bool then mret tt
  else
    _ ← signal_process_group pid Terminate;
    waited ← wait_for_managed_process_group_exit pid grace_period;
    match waited with
    | Some _ => mret tt
    | None =>
        _ ← signal_process_group pid Kill;
        waited ← wait_for_managed_process_group_exit pid KILL_WAIT;
        match waited with
        | Some _ => mret tt
        | None => eff_fail (timed_out ("process group " +:+ pretty pid +:+ " did not exit after signal"))
        end
    end.

(** ** Readiness *)

(** [timeout(probe_timeout, check_once(..))]: [None] when the time is over first. *)
Definition check_with_timeout (probe_timeout : N) : Sup (option (result string unit)) :=
  now ← instant_now;
  let deadline := (now + probe_timeout)%N in
  probe ← asks probe_at;
  let finish d r := if (probe_timeout <? d)%N then _ ← set_now deadline; mret None
                    else _ ← set_now (now + d)%N; mret (Some r) in
  match probe with
  | ProbeReady d => finish d (Ok tt)
  | ProbeFails d e => finish d (Err e)
  | ProbeHangs => _ ← set_now deadline; mret None
  end.

Definition ELAPSED : string := "deadline has elapsed".

Fixpoint readiness_loop (fuel : nat) (check : string) (started_at timeout : N) (last_error : option string) :
    Sup unit :=
  let over := eff_fail (ReadinessTimedOut check (as_millis timeout) last_error) in
  match fuel with
  | 0 => over
  | S fuel =>
      remaining ← remaining_timeout started_at timeout;
      match remaining with
      | None => over
      | Some remaining =>
          answer ← check_with_timeout (N.min remaining READINESS_PROBE_TIMEOUT);
          match answer with
          | Some (Ok _) => mret tt
          | Some (Err error) =>
              _ ← sleep (N.min remaining READINESS_POLL_INTERVAL);
              readiness_loop fuel check started_at timeout (Some error)
          | None => readiness_loop fuel check started_at timeout (Some ELAPSED)
          end
      end
  end.

Definition wait_for_readiness (check : string) (timeout : N) : Sup unit :=
  started_at ← instant_now; readiness_loop (poll_rounds timeout) check started_at timeout None.

(** [wait_for_custom_readiness]: the check has all the time that is left, and is not tried
    again once the time is over. *)
Fixpoint custom_readiness_loop (fuel : nat) (name : string) (started_at timeout : N) (last_error : option string) :
    Sup unit :=
  let over e := eff_fail (ReadinessTimedOut ("custom:" +:+ name) (as_millis timeout) e) in
  match fuel with
  | 0 => over last_error
  | S fuel =>
      remaining ← remaining_timeout started_at timeout;
      match remaining with
      | None => over last_error
      | Some remaining =>
          answer ← check_with_timeout remaining;
          match answer with
          | Some (Ok _) => mret tt
          | Some (Err _) =>
              _ ← sleep (N.min remaining READINESS_POLL_INTERVAL);
              custom_readiness_loop fuel name started_at timeout (Some "custom readiness returned false")
          | None => over (Some ELAPSED)
          end
      end
  end.

Definition wait_for_custom_readiness (name : string) (timeout : N) : Sup unit :=
  started_at ← instant_now; custom_readiness_loop (poll_rounds timeout) name started_at timeout None.
End supervisor.

(** *** What a check is called, and the pure parts of the HTTP checks *)

Inductive ReadinessCheck : Type :=
| CheckTcp (host : string) (port : N)
| CheckGatewayHttps (http_host : string) (http_port : N) (https_host : string) (https_port : N)
    (server_name ca_certificate_path : string)
| CheckGatewayIdentity (http_host : string) (http_port : N) (https_host : string) (https_port : N)
    (server_name request_path expected_body ca_certificate_path : string)
| CheckRedisPing (host : string) (port : N)
| CheckHttp (host : string) (port : N) (request_path : string).

Definition host_port (host : string) (port : N) : string := host +:+ ":" +:+ pretty port.

Definition check_name (c : ReadinessCheck) : string :=
  match c with
  | CheckTcp host port => "tcp:" +:+ host_port host port
  | CheckGatewayHttps http_host http_port https_host https_port server_name _ =>
      "gateway:https:" +:+ server_name +:+ ":" +:+ host_port https_host https_port
        +:+ ";tcp:" +:+ host_port http_host http_port
  | CheckGatewayIdentity http_host http_port https_host https_port server_name p _ _ =>
      "gateway-identity:https:" +:+ server_name +:+ ":" +:+ host_port https_host https_port +:+ p
        +:+ ";http:" +:+ host_port http_host http_port +:+ p
  | CheckRedisPing host port => "redis-ping:" +:+ host_port host port
  | CheckHttp host port p => "http:" +:+ host_port host port +:+ p
  end.

Definition CRLF : string := String CARRIAGE_RETURN (String NEWLINE "").

Definition http_status_is_success (response : string) (bytes : nat) : bool :=
  (10 <=? bytes) && (starts_with "HTTP/1.1 2" response || starts_with "HTTP/1.0 2" response).

(** The text after the first empty line. *)
Fixpoint after_headers (response : string) : option string :=
  match strip_prefix (CRLF +:+ CRLF) response with
  | Some body => Some body
  | None => match response with "" => None | String _ response => after_headers response end
  end.

Definition http_response_has_success_body (response expected_body : string) : bool :=
  match after_headers response with
  | None => false
  | Some body => http_status_is_success response (len response) && bool_decide (body = expected_body)
  end.

(** ** Properties *)

(** *** Computations that send nothing and change no file *)

(** What [l] was sent, and only time has passed otherwise. *)
Record logged (l : list Signalled) (s s' : Supervised) : Prop := {
  logged_files : files (su_world s') = files (su_world s);
  logged_sent : su_sent s' = l ++ su_sent s;
  logged_spawned : su_spawned s' = su_spawned s;
  logged_calls : su_calls s ≤ su_calls s';
  logged_now : (su_now s ≤ su_now s')%N;
}.
Definition quiet {E A : Type} (m : eff Supervised E A) : Prop := ∀ s, logged [] s (m s).2.

Lemma logged_refl s : logged [] s s.
Proof. by split. Qed.
Lemma logged_trans l1 l2 s1 s2 s3 : logged l1 s1 s2 → logged l2 s2 s3 → logged (l2 ++ l1) s1 s3.
Proof.
  intros [Hf1 Hs1 Hp1 Hc1 Hn1] [Hf2 Hs2 Hp2 Hc2 Hn2]. split; [congruence|rewrite Hs2, Hs1; apply app_assoc|congruence|lia|lia].
Qed.
Lemma logged_then l s1 s2 s3 : logged l s1 s2 → logged [] s2 s3 → logged l s1 s3.
Proof. apply (logged_trans l []). Qed.
Lemma logged_after l s1 s2 s3 : logged [] s1 s2 → logged l s2 s3 → logged l s1 s3.
Proof. intros H1 H2. rewrite <-(app_nil_r l). by eapply logged_trans. Qed.

Create HintDb quiet discriminated.

Section quiet.
Context {E : Type}.

Lemma quiet_ret {A : Type} (a : A) : quiet (E := E) (mret a).
Proof. intros s. apply logged_refl. Qed.
Lemma quiet_fail {A : Type} (e : E) : quiet (A := A) (eff_fail e).
Proof. intros s. apply logged_refl. Qed.
Lemma quiet_lift {A : Type} (r : result E A) : quiet (eff_lift r).
Proof. intros s. apply logged_refl. Qed.
Lemma quiet_get {A : Type} (f : Supervised → A) : quiet (E := E) (eff_get f).
Proof. intros s. apply logged_refl. Qed.
Lemma quiet_bind {A B : Type} (m : eff Supervised E A) (f : A → eff Supervised E B) :
  quiet m → (∀ a, quiet (f a)) → quiet (m ≫= f).
Proof.
  intros Hm Hf s. specialize (Hm s). unfold mbind, eff_bind. destruct (m s) as [[a|e] s1]; [|done].
  eapply logged_after; [exact Hm|apply Hf].
Qed.
End quiet.

Section supervisor_quiet.
Context `{Host} `{ProcessHost} `{MetadataJson}.

Lemma quiet_asks {A : Type} (f : nat → A) : quiet (asks f).
Proof. intros s. split; cbn; [done..|lia|lia]. Qed.
Lemma quiet_sleep d : quiet (sleep d).
Proof. intros s. split; cbn; [done..|lia|lia]. Qed.
Lemma quiet_set_now t : quiet (set_now t).
Proof. intros s. split; cbn; [done..|lia]. Qed.
Lemma quiet_files {A : Type} (m : IO FsError A) : changes (λ _, False) m → quiet (on_files m).
Proof.
  intros Hm s. unfold on_files, on_part. cbn. pose proof (Hm (su_world s)) as Hw. destruct (m (su_world s)) as [r w].
  split; [apply map_eq; intros q; exact (Hw q id)|done..|reflexivity].
Qed.
#[local] Hint Resolve quiet_ret quiet_fail quiet_lift quiet_get quiet_asks quiet_sleep quiet_set_now : quiet.

Ltac quiet_step :=
  match goal with
  | |- quiet (_ ≫= _) => apply quiet_bind; [|intros ?]
  | |- quiet (match ?x with _ => _ end) => destruct x
  | |- quiet _ => solve [auto with quiet]
  | |- quiet ?m => let h := get_head m in unfold h
  end
with get_head m := match m with ?f _ => get_head f | _ => m end.

Lemma changes_read p : changes (λ _, False) (read_to_string p).
Proof. apply changes_at_path, changes_query. Qed.

Lemma quiet_optional p : quiet (read_optional_file p).
Proof.
  intros s. unfold read_optional_file. pose proof (changes_read (path_of p) (su_world s)) as Hw.
  destruct (read_to_string (path_of p) (su_world s)) as [[content|e] w];
    [|destruct (io_kind (fs_source e))]; (split; [apply map_eq; intros q; exact (Hw q id)|done..|reflexivity]).
Qed.

Lemma quiet_is_script command : quiet (is_script command).
Proof.
  intros s. unfold is_script. pose proof (quiet_files (read_to_string (path_of command)) (changes_read _) s) as Hs.
  by destruct (on_files (read_to_string (path_of command)) s) as [[]].
Qed.
#[local] Hint Resolve quiet_optional quiet_is_script : quiet.

Lemma quiet_inspect pid : quiet (inspect_process_identity pid).
Proof. unfold inspect_process_identity. repeat quiet_step. Qed.
Lemma quiet_exists pid : quiet (process_group_exists pid).
Proof. unfold process_group_exists. repeat quiet_step. Qed.
Lemma quiet_matches identity command arguments expected : quiet (process_identity_matches identity command arguments expected).
Proof. unfold process_identity_matches. repeat quiet_step. Qed.
#[local] Hint Resolve quiet_inspect quiet_exists quiet_matches : quiet.

Lemma quiet_live pid command arguments start expected : quiet (live_process_matches pid command arguments start expected).
Proof. unfold live_process_matches. repeat quiet_step. Qed.
#[local] Hint Resolve quiet_live : quiet.

Lemma quiet_verify spec : quiet (verify_ownership spec).
Proof.
  unfold verify_ownership, require_process_containment, read_pid_file, read_runtime_metadata, verify_live.
  repeat quiet_step.
Qed.

(** *** Whether a process is the one that was recorded *)

(** A process runs a command when its executable is that path, or, for [/bin/sh], when it is
    bash under that name. *)
Definition runs (identity : ProcessIdentity) (command : string) : Prop :=
  components (pi_executable identity) = components command
  ∨ components command = components "/bin/sh" ∧ components (pi_executable identity) = components "/bin/bash"
    ∧ pi_argument_zero identity = command.
(** A file that can be read and starts with the two bytes of a script, or does not. *)
Definition a_script (fs : Fs) (command : string) : Prop := ∃ rest, read_node (path_of command) fs = Ok ("#!" +:+ rest).
Definition no_script (fs : Fs) (command : string) : Prop :=
  ∃ text, read_node (path_of command) fs = Ok text ∧ ∀ rest, text ≠ "#!" +:+ rest.
(** The interpreter of a script, as the record of it has it. *)
Definition interpreter (identity : ProcessIdentity) : ProcessExecutableIdentity :=
  {| ex_executable := pi_executable identity; ex_argument_zero := pi_argument_zero identity |}.

(** The process is the runtime's command, or the recorded interpreter running its script. *)
Definition directly (identity : ProcessIdentity) (o : OwnedRuntime) : Prop :=
  runs identity (ow_command o) ∧ pi_arguments identity = ow_arguments o.
Definition as_script (fs : Fs) (identity : ProcessIdentity) (o : OwnedRuntime) : Prop :=
  pi_arguments identity = ow_command o :: ow_arguments o ∧ a_script fs (ow_command o)
  ∧ ow_process_executable_identity o = Some (interpreter identity).
(** The process [o] was seen by the [n]-th call, when the files were [fs]. *)
Definition seen (o : OwnedRuntime) (n : nat) (identity : ProcessIdentity) : Prop :=
  inspect_at n (ow_pid o) = Ok (Some identity) ∧ pi_start_identity identity = ow_process_start_identity o.
Definition alive (fs : Fs) (o : OwnedRuntime) (n : nat) : Prop :=
  ∃ identity, seen o n identity ∧ (directly identity o ∨ as_script fs identity o).

Lemma executable_runs identity command : executable_matches identity command = true ↔ runs identity command.
Proof.
  unfold executable_matches, runs, path_eqb. rewrite orb_true_iff, !andb_true_iff, !bool_decide_eq_true. tauto.
Qed.
Lemma script_matches identity command arguments :
  script_arguments_match identity command arguments = true ↔ pi_arguments identity = command :: arguments.
Proof.
  unfold script_arguments_match. destruct (pi_arguments identity) as [|script live]; [done|].
  rewrite andb_true_iff, !bool_decide_eq_true. naive_solver.
Qed.
Lemma expected_interpreter identity expected : identity_expected identity expected = true ↔ expected = Some (interpreter identity).
Proof.
  unfold identity_expected, interpreter. destruct expected as [[e z]|]; [|done]. cbn.
  rewrite andb_true_iff, !bool_decide_eq_true. naive_solver.
Qed.
Lemma starts_with_eq s : starts_with "#!" s = true ↔ ∃ rest, s = "#!" +:+ rest.
Proof.
  unfold starts_with. destruct (strip_prefix "#!" s) as [rest|] eqn:Hs; cbn [option_bool].
  - split; [intros _|done]. exists rest. by apply strip_prefix_Some.
  - split; [done|]. intros [rest ->]. by rewrite strip_prefix_app in Hs.
Qed.
Lemma scripts_differ fs command : a_script fs command → no_script fs command → False.
Proof. intros [rest Hr] (text & Ht & Hno). apply (Hno rest). congruence. Qed.

(** Reading a file. *)
Lemma read_spec p s :
  let '(r, s') := on_files (read_to_string p) s in
  su_calls s' = su_calls s ∧ files (su_world s') = files (su_world s)
  ∧ (∀ text, r = Ok text → read_node p (files (su_world s)) = Ok text)
  ∧ ((∀ n, fault_at n = None) → ∀ text, read_node p (files (su_world s)) = Ok text → r = Ok text).
Proof.
  pose proof (quiet_files _ (changes_read p) s) as Hq. apply logged_files in Hq. revert Hq.
  unfold on_files, on_part, read_to_string, at_path, io_map_err, std_read_to_string, query, syscall. cbn.
  destruct (fault_at (clock (su_world s))) as [f|] eqn:Hfault; cbn.
  - intros Hf. split_and!; [done..|]. intros Hno. by rewrite Hno in Hfault.
  - destruct (read_node p (files (su_world s))) as [content|e]; cbn; intros Hf; split_and!; try done; [by intros ? [= ->]|by intros _ ? [= ->]].
Qed.

Lemma is_script_spec command s :
  let '(r, s') := is_script command s in
  su_calls s' = su_calls s ∧ ∃ b, r = Ok b ∧ (b = true → a_script (files (su_world s)) command)
    ∧ (b = false → (∀ n, fault_at n = None) → ¬ a_script (files (su_world s)) command).
Proof.
  unfold is_script. pose proof (read_spec (path_of command) s) as Hr.
  destruct (on_files (read_to_string (path_of command)) s) as [[source|e] s']; destruct Hr as (Hc & _ & Hyes & Hno); (split; [done|]).
  - exists (starts_with "#!" source). split; [done|]. specialize (Hyes source eq_refl). split.
    + intros [rest ->]%starts_with_eq. by exists rest.
    + intros Hb _ [rest Hrest]. assert (starts_with "#!" source = true) as Ht; [|congruence]. apply starts_with_eq. exists rest. congruence.
  - exists false. split; [done|]. split; [done|]. intros _ Hfault [rest Hrest]. by specialize (Hno Hfault _ Hrest).
Qed.

Lemma identity_matches_spec identity o s :
  let '(r, s') := process_identity_matches identity (ow_command o) (ow_arguments o) (ow_process_executable_identity o) s in
  su_calls s' = su_calls s
  ∧ (r = Ok true → directly identity o ∨ as_script (files (su_world s)) identity o)
  ∧ (r = Ok false → ¬ directly identity o ∧ ((∀ n, fault_at n = None) → ¬ as_script (files (su_world s)) identity o)).
Proof.
  unfold process_identity_matches, directly, as_script, mbind, eff_bind.
  pose proof (expected_interpreter identity (ow_process_executable_identity o)) as Hexpected.
  pose proof (script_matches identity (ow_command o) (ow_arguments o)) as Hscript.
  set (direct := executable_matches _ _ && _).
  assert (direct = true ↔ runs identity (ow_command o) ∧ pi_arguments identity = ow_arguments o) as Hdirect.
  { unfold direct. by rewrite andb_true_iff, bool_decide_eq_true, executable_runs. }
  destruct (script_arguments_match identity (ow_command o) (ow_arguments o)).
  - pose proof (is_script_spec (ow_command o) s) as Hs.
    destruct (is_script (ow_command o) s) as [r s1]. destruct Hs as (Hc & b & -> & Hyes & Hno). cbn. split; [done|].
    rewrite <-Hdirect, <-Hscript, <-Hexpected. destruct direct, b, (identity_expected _ _); cbn in *; naive_solver.
  - cbn. split; [done|]. rewrite <-Hdirect, <-Hscript. destruct direct; cbn; naive_solver.
Qed.

Lemma matches_live_spec o s :
  let '(r, s') := matches_live o s in
  logged [] s s' ∧ su_calls s' = S (su_calls s)
  ∧ (r = Ok true → alive (files (su_world s)) o (su_calls s))
  ∧ (r = Ok false → ∀ identity, seen o (su_calls s) identity →
       ¬ directly identity o ∧ ((∀ n, fault_at n = None) → ¬ as_script (files (su_world s)) identity o)).
Proof.
  pose proof (quiet_live (ow_pid o) (ow_command o) (ow_arguments o) (ow_process_start_identity o)
    (ow_process_executable_identity o) s) as Hq. revert Hq. unfold matches_live.
  unfold live_process_matches, inspect_process_identity, mbind, eff_bind, asks, eff_lift. cbn.
  unfold alive, seen. destruct (inspect_at (su_calls s) (ow_pid o)) as [[identity|]|e]; cbn; [|naive_solver..].
  case_bool_decide as Hstart; cbn; [|naive_solver].
  set (s1 := {| su_world := _ |}). pose proof (identity_matches_spec identity o s1) as Hm.
  destruct (process_identity_matches _ _ _ _ s1) as [r s2]. destruct Hm as (Hc & Hyes & Hno).
  cbn. intros Hl. split_and!; [done|done|naive_solver|]. intros Hr i [[= <-] _]. by apply Hno.
Qed.

(** *** Signals *)

Definition signalled (s : Supervised) (pid : N) (signal : ProcessSignal) : Signalled :=
  {| sg_call := su_calls s; sg_time := su_now s; sg_group := pid; sg_signal := signal |}.

Lemma process_group_pid_ok pid g : process_group_pid pid = Ok g → g = pid ∧ (0 < pid ≤ I32_MAX)%N.
Proof.
  unfold process_group_pid. destruct (N.ltb_spec I32_MAX pid); [done|]. destruct (N.eqb_spec pid 0); [done|].
  intros [= <-]. lia.
Qed.

(** A signal is sent once, unless the number is not that of a group. *)
Lemma signal_group_spec pid signal s :
  let '(r, s') := signal_process_group pid signal s in
  match process_group_pid pid with
  | Ok _ => logged [signalled s pid signal] s s'
  | Err e => r = Err e ∧ s' = s
  end.
Proof.
  unfold signal_process_group, mbind, eff_bind, eff_lift. destruct (process_group_pid pid) as [g|e] eqn:Hg; [|done].
  apply process_group_pid_ok in Hg as [-> _]. cbn.
  set (s1 := {| su_world := _ |}). assert (logged [signalled s pid signal] s s1) as Hs1.
  { split; cbn; [done|done|done|lia|lia]. }
  by destruct (kill_at (su_calls s) pid signal) as [[]|[]].
Qed.

Definition gone (n : nat) (pid : N) : Prop := test_at n pid = Err NoSuchProcess ∨ ∃ e, test_at n pid = Err (NotPermitted e).

Lemma exists_spec pid s :
  let '(r, s') := process_group_exists pid s in
  logged [] s s' ∧ (r = Ok false → su_calls s < su_calls s' ∧ gone (su_calls s) pid).
Proof.
  pose proof (quiet_exists pid s) as Hq. revert Hq. unfold process_group_exists, mbind, eff_bind, eff_lift, gone.
  destruct (process_group_pid pid) as [g|e] eqn:Hg; cbn; [|done]. apply process_group_pid_ok in Hg as [-> _].
  destruct (test_at (su_calls s) pid) as [[]|[]]; cbn; intros Hq; (split; [exact Hq|]); try done; intros _; (split; [lia|]); eauto.
Qed.

(** What a wait for the group answers, and when. *)
Definition waited_for (pid started_at timeout : N) (s : Supervised) (r : result DaemonError bool) (s' : Supervised) : Prop :=
  logged [] s s'
  ∧ (r = Ok true → ∃ n, su_calls s ≤ n < su_calls s' ∧ gone n pid)
  ∧ (r = Ok false → (started_at + timeout ≤ su_now s')%N).

Lemma wait_ends pid started_at timeout s :
  (started_at ≤ su_now s)%N → (timeout ≤ su_now s - started_at)%N →
  let '(r, s') := (exists_ ← process_group_exists pid; mret (negb exists_)) s in waited_for pid started_at timeout s r s'.
Proof.
  intros Hstart Hover. unfold mbind, eff_bind. pose proof (exists_spec pid s) as He.
  destruct (process_group_exists pid s) as [[b|e] s1]; cbn; destruct He as [Hl Hgone]; (split; [done|]); [|done].
  pose proof (logged_now _ _ _ Hl). split; [|intros _; lia].
  intros [= ->%negb_true_iff]. destruct (Hgone eq_refl) as [? ?]. exists (su_calls s). split; [lia|done].
Qed.

Lemma group_exit_spec fuel pid started_at timeout s :
  (started_at ≤ su_now s)%N → (timeout ≤ su_now s - started_at + N.of_nat fuel * READINESS_POLL_INTERVAL)%N →
  let '(r, s') := group_exit_loop fuel pid started_at timeout s in waited_for pid started_at timeout s r s'.
Proof.
  revert s. induction fuel as [|fuel IH]; intros s Hstart Hfuel; [apply wait_ends; [done|lia]|].
  cbn [group_exit_loop]. unfold mbind at 1, eff_bind, remaining_timeout, eff_get. cbn.
  destruct (N.ltb_spec (su_now s - started_at) timeout) as [Hlt|]; [|by apply wait_ends].
  unfold mbind, eff_bind. pose proof (exists_spec pid s) as He.
  destruct (process_group_exists pid s) as [[[]|e] s1]; cbn; destruct He as [Hl Hgone]; [| |by split].
  - set (d := N.min _ _). set (s2 := {| su_world := su_world s1; su_now := _ |}).
    pose proof (logged_now _ _ _ Hl). pose proof (logged_calls _ _ _ Hl).
    assert (logged [] s s2) as Hl2 by (eapply logged_then; [exact Hl|apply (quiet_sleep d s1)]).
    specialize (IH s2). destruct (group_exit_loop fuel pid started_at timeout s2) as [r s'].
    destruct IH as (Hl' & Htrue & Hfalse); [cbn; lia|unfold d; cbn; lia|].
    split_and!; [by eapply logged_then| |done].
    intros Hr. destruct (Htrue Hr) as (n & Hn & Hg). exists n. split; [|done]. pose proof (logged_calls _ _ _ Hl2). lia.
  - split_and!; [done| |done]. intros _. destruct (Hgone eq_refl). exists (su_calls s). split; [lia|done].
Qed.

Lemma poll_rounds_enough timeout : (timeout ≤ N.of_nat (poll_rounds timeout) * READINESS_POLL_INTERVAL)%N.
Proof.
  unfold poll_rounds. pose proof (N.div_mod timeout READINESS_POLL_INTERVAL ltac:(done)).
  pose proof (N.mod_lt timeout READINESS_POLL_INTERVAL ltac:(done)). lia.
Qed.

Lemma group_wait_spec pid timeout s :
  let '(r, s') := wait_for_process_group_exit pid timeout s in waited_for pid (su_now s) timeout s r s'.
Proof. apply group_exit_spec; [lia|]. pose proof (poll_rounds_enough timeout). lia. Qed.

(** *** Stopping a runtime that was found *)

(** Nothing; a termination; or a termination, and a kill once the grace period is over.
    The first comes right after the call that saw the process. *)
Inductive stop_signals (fs : Fs) (o : OwnedRuntime) (grace_period : N) (n : nat) : list Signalled → Prop :=
| stop_none : stop_signals fs o grace_period n []
| stop_terminated t :
    alive fs o n → sg_call t = S n → sg_group t = ow_pid o → sg_signal t = Terminate →
    stop_signals fs o grace_period n [t]
| stop_killed t k :
    alive fs o n → sg_call t = S n → sg_group t = ow_pid o → sg_signal t = Terminate →
    sg_group k = ow_pid o → sg_signal k = Kill → (sg_time t + grace_period ≤ sg_time k)%N →
    stop_signals fs o grace_period n [k; t].

(** The signals of one attempt to stop a group, from the state it starts in. *)
Definition attempt (s : Supervised) (pid grace_period : N) (l : list Signalled) : Prop :=
  l = [] ∨ l = [signalled s pid Terminate]
  ∨ ∃ k, l = [k; signalled s pid Terminate] ∧ sg_group k = pid ∧ sg_signal k = Kill
      ∧ (su_now s + grace_period ≤ sg_time k)%N.

(** Sending a signal and waiting for the group. *)
Lemma signal_and_wait pid signal timeout (k : bool → Sup unit) s (Q : result DaemonError unit → Supervised → Prop) :
  (∀ e, Q (Err e) s) →
  (∀ s1 e, logged [signalled s pid signal] s s1 → Q (Err e) s1) →
  (∀ s1 (b : bool), logged [signalled s pid signal] s s1 →
     (b = true → ∃ n, su_calls s ≤ n < su_calls s1 ∧ gone n pid) →
     (b = false → (su_now s + timeout ≤ su_now s1)%N) → Q (k b s1).1 (k b s1).2) →
  let r := (_ ← signal_process_group pid signal; gone_ ← wait_for_process_group_exit pid timeout; k gone_) s in Q r.1 r.2.
Proof.
  intros Hnone Herr Hk. unfold mbind, eff_bind. pose proof (signal_group_spec pid signal s) as Hs.
  destruct (signal_process_group pid signal s) as [r1 s1]. destruct (process_group_pid pid) as [g|e]; [|destruct Hs as [-> ->]; apply Hnone].
  destruct r1 as [[]|e]; [|by apply Herr].
  pose proof (group_wait_spec pid timeout s1) as Hw. destruct (wait_for_process_group_exit pid timeout s1) as [[b|e] s2];
    destruct Hw as (Hl & Htrue & Hfalse); pose proof (logged_then _ _ _ _ Hs Hl) as Hl2; [|by apply Herr].
  pose proof (logged_calls _ _ _ Hs). pose proof (logged_now _ _ _ Hs).
  apply Hk; [done| |].
  - intros ->. destruct (Htrue eq_refl) as (n & Hn & Hg). exists n. split; [lia|done].
  - intros ->. specialize (Hfalse eq_refl). lia.
Qed.

Lemma stop_by_pid_spec pid grace_period s :
  let '(r, s') := stop_process_group_by_pid pid grace_period s in
  ∃ l, logged l s s' ∧ attempt s pid grace_period l
    ∧ (r = Ok tt → l ≠ [] ∧ ∃ n, su_calls s ≤ n < su_calls s' ∧ gone n pid).
Proof.
  rewrite (surjective_pairing (stop_process_group_by_pid pid grace_period s)). unfold stop_process_group_by_pid.
  apply (signal_and_wait pid Terminate grace_period _ s (λ r s', ∃ l, logged l s s' ∧ attempt s pid grace_period l
    ∧ (r = Ok tt → l ≠ [] ∧ ∃ n, su_calls s ≤ n < su_calls s' ∧ gone n pid))).
  - intros e. exists []. split_and!; [apply logged_refl|by left|done].
  - intros s1 e Hl. eexists. split_and!; [exact Hl|by right; left|done].
  - intros s1 [] Hl Htrue Hfalse; [eexists; split_and!; [exact Hl|by right; left|intros _; split; [done|by apply Htrue]]|].
    specialize (Hfalse eq_refl). pose proof (logged_calls _ _ _ Hl).
    assert (∀ s2, logged [signalled s1 pid Kill] s1 s2 →
      logged [signalled s1 pid Kill; signalled s pid Terminate] s s2
      ∧ attempt s pid grace_period [signalled s1 pid Kill; signalled s pid Terminate]) as Hkilled.
    { intros s2 Hl2. split; [by eapply (logged_trans [_] [_])|]. right; right. by exists (signalled s1 pid Kill). }
    apply (signal_and_wait pid Kill KILL_WAIT _ s1 (λ r s', ∃ l, logged l s s' ∧ attempt s pid grace_period l
      ∧ (r = Ok tt → l ≠ [] ∧ ∃ n, su_calls s ≤ n < su_calls s' ∧ gone n pid))).
    + intros e. eexists. split_and!; [exact Hl|by right; left|done].
    + intros s2 e [Hl2 Ha]%Hkilled. by exists [signalled s1 pid Kill; signalled s pid Terminate].
    + intros s2 b [Hl2 Ha]%Hkilled Hb _. exists [signalled s1 pid Kill; signalled s pid Terminate].
      destruct b; [|by split_and!]. split_and!; [done..|intros _]. split; [done|].
      destruct (Hb eq_refl) as (n & Hn & Hg). exists n. split; [cbn; lia|done].
Qed.

(** C31: Stopping a runtime that an earlier daemon started never signals another process:
    the termination is the call right after the one that saw, under the recorded pid, the
    recorded start time with the recorded command and arguments, or the recorded interpreter
    running that command's script; the kill follows it only when the grace period has
    passed. If the stop succeeds after signalling, the whole process group was seen gone:
    asked about it, the system said that there is none, or that it may not be signalled,
    which PV takes for the same. If it succeeds without signalling, the process under the pid,
    if any, was another one: with another start time, or neither running the command with the
    arguments nor, as far as the script could be read, that interpreter. No file is changed. *)
Theorem stop_adopted_spec o grace_period s :
  let '(r, s') := stop_adopted {| ad_owned := o |} grace_period s in
  ∃ l, logged l s s' ∧ stop_signals (files (su_world s)) o grace_period (su_calls s) l
    ∧ (r = Ok tt → l ≠ [] → ∃ n, su_calls s < n < su_calls s' ∧ gone n (ow_pid o))
    ∧ (r = Ok tt → l = [] → ∀ identity, seen o (su_calls s) identity →
         ¬ directly identity o ∧ ((∀ n, fault_at n = None) → ¬ as_script (files (su_world s)) identity o)).
Proof.
  unfold stop_adopted, require_process_containment. unfold mbind at 1, eff_bind. unfold eff_lift.
  destruct containment as [[]|e]; cbn [map_err]; [|exists []; split_and!; [apply logged_refl|constructor|done|done]].
  unfold mbind, eff_bind. cbn [ad_owned]. pose proof (matches_live_spec o s) as Hm.
  destruct (matches_live o s) as [[[]|e] s1]; destruct Hm as (Hl & Hc & Hyes & Hno); cbn [negb].
  - specialize (Hyes eq_refl). pose proof (stop_by_pid_spec (ow_pid o) grace_period s1) as Hs.
    destruct (stop_process_group_by_pid _ _ s1) as [r s']. destruct Hs as (l & Hl' & Ha & Hr).
    exists l. split_and!; [by eapply logged_after| | |].
    + destruct Ha as [-> |[-> |(k & -> & ? & ? & ?)]]; by constructor.
    + intros Hok _. destruct (Hr Hok) as (_ & n & Hn & Hg). exists n. split; [lia|done].
    + intros Hok ->. by destruct (Hr Hok).
  - exists []. split_and!; [done|constructor|done|intros _ _; by apply Hno].
  - exists []. by split_and!; [|constructor| |].
Qed.

(** *** Starting a runtime *)

Lemma spec_files {A : Type} (P : Fs → Prop) (m : IO FsError A) (Q : A → Fs → Prop) (X : Fs → Prop) : hoare P m Q X →
  spec (λ s, P (files (su_world s))) (on_files m) (λ a s, Q a (files (su_world s))) (λ _ s, X (files (su_world s))).
Proof.
  intros Hm s Hs. specialize (Hm (su_world s) Hs). unfold on_files, on_part. cbn. by destruct (m (su_world s)) as [[]].
Qed.

(** What a quiet computation starts with, it ends with. *)
Lemma spec_quiet {A : Type} (P : Fs → Prop) (m : Sup A) : quiet m →
  spec (λ s, P (files (su_world s))) m (λ _ s, P (files (su_world s))) (λ _ s, P (files (su_world s))).
Proof.
  intros Hm s Hs. pose proof (logged_files _ _ _ (Hm s)) as Hf. destruct (m s) as [[] s']; cbn in Hf; by rewrite Hf.
Qed.

(** The directory [dir] of the runtime's files has no links, nor is the log one. *)
Definition unlinked (dir log : path) (fs : Fs) : Prop :=
  (∀ q, under dir q → is_link (fs !! q) = false) ∧ is_link (fs !! log) = false.

Lemma unlinked_insert dir log q n fs : is_link (Some n) = false → unlinked dir log fs → unlinked dir log (<[q := n]> fs).
Proof.
  intros Hn [Hd Hl]. split; [intros r Hr|]; rewrite lookup_insert; case_decide; auto.
Qed.

Lemma unlinked_make_dirs dir log l fs : unlinked dir log fs → unlinked dir log (make_dirs l fs).
Proof. intros [Hd Hl]. split; [intros r Hr|]; rewrite lookup_make_dirs; case_decide; auto. Qed.

Lemma ensure_dir_unlinked dir log p : hoare (unlinked dir log) (ensure_user_dir p) (λ _, unlinked dir log) (unlinked dir log).
Proof.
  unfold ensure_user_dir. eapply (hoare_seq _ (unlinked dir log)).
  - apply hoare_map_err, hoare_syscall; [|done|].
    + intros s [] s' Hs. destruct (existsb _ _); [done|]. intros [= <-]. by apply unlinked_make_dirs.
    + intros f s Hs. destruct (existsb _ _); [done|]. by apply unlinked_make_dirs.
  - apply (secure_spec (unlinked dir log)).
Qed.

Lemma layout_unlinked dir log l : hoare (unlinked dir log) (ensure_dirs l) (λ _, unlinked dir log) (unlinked dir log).
Proof.
  induction l as [|[name p] l IH]; [by intros w Hw|]. cbn [ensure_dirs].
  eapply (hoare_seq _ (unlinked dir log)); [apply ensure_dir_unlinked|exact IH].
Qed.

Lemma append_unlinked dir log : hoare (unlinked dir log) (open_append_file log) (λ _, unlinked dir log) (unlinked dir log).
Proof.
  assert (∀ q fs, unlinked dir log fs → unlinked dir log (appended q fs)) as Happ.
  { intros q fs Hfs. unfold appended. destruct (fs !! q); [done|by apply unlinked_insert]. }
  unfold open_append_file. eapply (hoare_seq _ (unlinked dir log)).
  { unfold ensure_parent_dir. destruct (parent log); [apply ensure_dir_unlinked|by intros w Hw]. }
  eapply (hoare_seq _ (unlinked dir log)); [|apply (secure_spec (unlinked dir log))].
  apply hoare_map_err, hoare_syscall; [|done|].
  - intros s [] s' Hs. destruct (open_write log s); [|done]. intros [= <-]. by apply Happ.
  - intros f s Hs. destruct (open_write log s); [|done]. destruct (fault_reached f log); [by apply Happ|done].
Qed.

(** The names of the two files, and their temporary files, do not clash. *)
Record apart_names (x y : string) : Prop := {
  apart_ne : x ≠ y;
  apart_left rest : x ≠ y +:+ "." +:+ rest;
  apart_right rest : y ≠ x +:+ "." +:+ rest;
  apart_rest rest rest' : x +:+ "." +:+ rest ≠ y +:+ "." +:+ rest';
}.

(** What the two files of a runtime say. *)
Record record_read (fs : Fs) (spec : ProcessSpec) (pid : N) (m : RuntimeMetadata) : Prop := {
  read_pid : ∃ text, read_node (path_of (sp_pid_path spec)) fs = Ok text ∧ parse_u32 (trim text) = Some pid;
  read_metadata : ∃ text, read_node (path_of (sp_metadata_path spec)) fs = Ok text ∧ metadata_from_json text = Ok m;
}.
(** They record [o], as [spec] would write it. *)
Definition recorded (fs : Fs) (spec : ProcessSpec) (o : OwnedRuntime) : Prop :=
  ∃ m start, record_read fs spec (ow_pid o) m ∧ metadata_matches m spec (ow_pid o) = true
    ∧ md_process_start_identity m = Some start
    ∧ o = owned_runtime spec (ow_pid o) start (md_process_executable_identity m).

Lemma read_file p content fs : fs !! p = Some (File content) → read_node p fs = Ok content.
Proof. intros Hp. unfold read_node. by rewrite resolve_plain, Hp; [|rewrite Hp]. Qed.

Lemma singles_app s t : singles (s +:+ t) = singles s ++ singles t.
Proof. induction s as [|c s IH]; [done|]. cbn. by f_equal. Qed.

Lemma trim_graph_line s : s ≠ "" → str_all is_graph s = true → trim (s +:+ String NEWLINE "") = s.
Proof.
  intros Hne Hs. assert (chars (s +:+ String NEWLINE "") = singles s ++ [String NEWLINE ""]) as Hc.
  { rewrite chars_ascii, singles_app; [done|]. rewrite str_all_app. apply andb_true_iff. split; [|done].
    eapply str_all_impl; [|exact Hs]. by intros ? [? _]%is_graph_facts. }
  unfold trim. assert (trim_start (s +:+ String NEWLINE "") = s +:+ String NEWLINE "") as ->.
  { unfold trim_start. destruct s as [|c s]; [done|].
    rewrite (drop_while_id _ _ (String c "")); [by rewrite str_concat_chars|by rewrite Hc|].
    simpl in Hs; split_bools. by apply is_graph_facts. }
  transitivity (trim_end s); [|by apply trim_end_graph]. unfold trim_end. rewrite Hc, reverse_app.
  by rewrite (chars_graph s).
Qed.

Lemma trim_pretty_line (n : N) : trim (pretty n +:+ String NEWLINE "") = pretty n.
Proof.
  destruct (pretty_N_digits n) as (Hne & Hd & _). apply trim_graph_line; [done|]. eapply str_all_impl; [|exact Hd].
  intros c. unfold is_ascii_digit, is_graph, byte_in. rewrite !andb_true_iff, !Nat.leb_le. lia.
Qed.

Lemma quiet_script_loop fuel spec pid started_at stable identity : quiet (script_identity_loop fuel spec pid started_at stable identity).
Proof.
  revert stable identity. induction fuel as [|fuel IH]; intros stable identity; cbn [script_identity_loop];
    unfold instant_now; repeat quiet_step; apply IH.
Qed.

Lemma quiet_identity spec pid : quiet (process_identity_for_runtime_metadata spec pid).
Proof.
  unfold process_identity_for_runtime_metadata, instant_now. repeat quiet_step; apply quiet_script_loop || apply quiet_files, changes_read.
Qed.

(** How the record of a process tells it again: it runs the command, or nothing of a script
    was seen, and no interpreter is recorded; or the interpreter is that runs the script. *)
Definition recognisable (fs : Fs) (spec : ProcessSpec) (identity : ProcessIdentity) (expected : option ProcessExecutableIdentity) : Prop :=
  (expected = None ∧ (runs identity (sp_command spec) ∨ sp_command spec ∉ take 2 (pi_arguments identity) ∨ no_script fs (sp_command spec)))
  ∨ (expected = Some (interpreter identity) ∧ pi_arguments identity = sp_command spec :: sp_arguments spec ∧ a_script fs (sp_command spec)).
(** The identity was seen under the pid by a call from [k] on, before [s]. *)
Definition inspected (k : nat) (pid : N) (identity : ProcessIdentity) (s : Supervised) : Prop :=
  ∃ n, k ≤ n < su_calls s ∧ inspect_at n pid = Ok (Some identity).

Lemma inspect_spec k pid s : k ≤ su_calls s →
  let '(r, s') := inspect_process_identity pid s in
  k ≤ su_calls s' ∧ ∀ identity, r = Ok (Some identity) → inspected k pid identity s'.
Proof.
  intros Hk. unfold inspect_process_identity, mbind, eff_bind, asks, eff_lift. cbn. split; [lia|].
  intros identity Hr. exists (su_calls s). split; [cbn; lia|]. by destruct (inspect_at (su_calls s) pid) as [[]|]; [injection Hr as ->|..].
Qed.

(** What a computation that may fail leads to. *)
Definition leads {A : Type} (P : Supervised → Prop) (m : Sup A) (Q : A → Supervised → Prop) : Prop := Effects.spec P m Q (λ _ _, True).

Lemma script_loop_spec k fuel spec pid started_at stable identity :
  leads (λ s, inspected k pid identity s) (script_identity_loop fuel spec pid started_at stable identity)
    (λ r s, r.2 = Some (interpreter r.1) ∧ pi_arguments r.1 = sp_command spec :: sp_arguments spec ∧ inspected k pid r.1 s).
Proof.
  revert stable identity. induction fuel as [|fuel IH]; intros stable identity s Hs; cbn [script_identity_loop]; [done|].
  unfold mbind at 1, eff_bind at 1, instant_now, eff_get.
  set (settled := match stable with Some _ => _ | None => false end). destruct settled eqn:Hsettled.
  { cbn. split; [done|]. split; [|done]. unfold settled in Hsettled. destruct stable as [[seen at']|]; [|done].
    apply script_matches. by split_bools. }
  destruct (SCRIPT_IDENTITY_TIMEOUT <=? su_now s - started_at)%N; [done|]. unfold mbind, eff_bind, sleep. destruct Hs as (n & Hn & Hi).
  set (s1 := {| su_world := _ |}). pose proof (inspect_spec k pid s1) as Hx.
  destruct (inspect_process_identity pid s1) as [[[next|]|e] s2]; [|done..].
  apply IH. apply Hx; [cbn; lia|done].
Qed.

Lemma identity_spec k spec pid :
  leads (λ s, k ≤ su_calls s) (process_identity_for_runtime_metadata spec pid)
    (λ r s, inspected k pid r.1 s ∧ recognisable (files (su_world s)) spec r.1 r.2).
Proof.
  intros s Hs. unfold process_identity_for_runtime_metadata. unfold mbind at 1, eff_bind at 1. pose proof (inspect_spec k pid s Hs) as Hi.
  destruct (inspect_process_identity pid s) as [[[identity|]|e] s1]; [|done..]. destruct Hi as [Hk Hi]. specialize (Hi identity eq_refl).
  destruct (executable_matches identity (sp_command spec)) eqn:He; [split; [done|]; left; split; [done|left]; by apply executable_runs|].
  destruct (negb (existsb _ _)) eqn:Hargs.
  { split; [done|]. left. split; [done|]. right; left. apply negb_true_iff in Hargs. intros Hin%list_elem_of_In.
    assert (existsb (λ argument, bool_decide (argument = sp_command spec)) (take 2 (pi_arguments identity)) = true) as Ht; [|congruence].
    apply existsb_exists. exists (sp_command spec). split; [done|by apply bool_decide_eq_true_2]. }
  unfold mbind at 1, eff_bind at 1. pose proof (read_spec (path_of (sp_command spec)) s1) as Hr.
  destruct (on_files (read_to_string (path_of (sp_command spec))) s1) as [[source|e] s2]; [|done]. destruct Hr as (Hc & Hf & Hread & _).
  specialize (Hread source eq_refl). rewrite <-Hf in Hread.
  assert (inspected k pid identity s2) as Hi2 by (destruct Hi as (n & Hn & ?); exists n; split; [lia|done]).
  destruct (starts_with "#!" source) eqn:Hb; cbn [negb].
  - pose proof (proj1 (starts_with_eq source) Hb) as [rest ->]. unfold mbind, eff_bind, instant_now, eff_get.
    pose proof (script_loop_spec k SCRIPT_IDENTITY_ROUNDS spec pid (su_now s2) None identity s2 Hi2) as Hl.
    pose proof (quiet_script_loop SCRIPT_IDENTITY_ROUNDS spec pid (su_now s2) None identity s2) as Hq2. apply logged_files in Hq2.
    destruct (script_identity_loop _ _ _ _ _ _ s2) as [[[i x]|e] s3]; [|done]. cbn in Hl, Hq2 |- *. destruct Hl as (Hx & Ha & Hi3).
    split; [done|]. right. split; [done|]. split; [done|]. exists rest. by rewrite Hq2.
  - split; [done|]. left. split; [done|]. right; right. exists source. split; [done|]. intros rest ->.
    assert (starts_with "#!" ("#!" +:+ rest) = true) as Ht; [apply starts_with_eq; by exists rest|congruence].
Qed.

(** The record that is written, field by field. *)
Definition record_of (spec : ProcessSpec) (pid : N) (identity : ProcessIdentity) (expected : option ProcessExecutableIdentity) (time : string) :
    RuntimeMetadata := {|
  md_name := sp_name spec; md_pid := pid; md_command := sp_command spec; md_arguments := sp_arguments spec;
  md_private_environment_fingerprint := private_environment_fingerprint (sp_private_environment spec);
  md_config_path := sp_config_path spec; md_resource_name := sp_resource_name spec; md_track := sp_track spec;
  md_log_path := sp_log_path spec; md_started_at := time;
  md_process_start_identity := Some (pi_start_identity identity); md_process_executable_identity := expected |}.
(** The files say which process runs: what was seen of it, and how to tell it again. *)
Definition findable (k : nat) (fs : Fs) (spec : ProcessSpec) (pid : N) (s : Supervised) : Prop :=
  ∃ identity expected time, inspected k pid identity s ∧ recognisable fs spec identity expected
    ∧ record_read (files (su_world s)) spec pid (record_of spec pid identity expected time)
    ∧ recorded (files (su_world s)) spec (owned_runtime spec pid (pi_start_identity identity) expected).

(** Calls are only added. *)
Lemma keeps_calls_quiet {A : Type} k (m : Sup A) : quiet m → keeps (λ s, k ≤ su_calls s) m.
Proof. intros Hm s Hs. pose proof (logged_calls _ _ _ (Hm s)). destruct (m s) as [[] s']; cbn in *; lia. Qed.
Lemma keeps_calls_files {A : Type} k (m : IO FsError A) : keeps (λ s, k ≤ su_calls s) (on_files m).
Proof. intros s Hs. unfold on_files, on_part. cbn. by destruct (m (su_world s)) as [[] ?]. Qed.

Section persist.
Context `{!MetadataJsonLaws}.
Variables (dir : path) (pid_name metadata_name : string) (spec : ProcessSpec) (pid : N).
Hypothesis pid_at : path_of (sp_pid_path spec) = dir ++ [pid_name].
Hypothesis metadata_at : path_of (sp_metadata_path spec) = dir ++ [metadata_name].
Hypothesis apart : apart_names pid_name metadata_name.
Hypothesis pid_u32 : (pid ≤ U32_MAX)%N.

Let pid_file : path := dir ++ [pid_name].
Let metadata_file : path := dir ++ [metadata_name].
Definition plain_files (fs : Fs) : Prop := plain_temporaries pid_file fs ∧ plain_temporaries metadata_file fs.
Definition pid_written (fs : Fs) : Prop :=
  fs !! pid_file = Some (File (pretty pid +:+ String NEWLINE "")) ∧ plain_temporaries metadata_file fs.

Lemma write_pid_step : Effects.spec (λ s, plain_files (files (su_world s)))
  (write_sensitive (sp_pid_path spec) (pretty pid +:+ String NEWLINE "")) (λ _ s, pid_written (files (su_world s))) (λ _ _, True).
Proof.
  apply (spec_files _ _ (λ _, pid_written) (λ _, True)). rewrite pid_at. intros w [Hp Hm].
  pose proof (write_sensitive_file_whole pid_file (pretty pid +:+ String NEWLINE "") w (λ Hn, app_cons_not_nil dir [] pid_name (eq_sym Hn)) Hp) as Hw.
  fold pid_file. destruct (write_sensitive_file pid_file _ w) as [[[]|e] w']; [|done]. destruct Hw as [Hf Ho].
  split; [done|]. intros t Ht. rewrite Ho; [by apply Hm|]. revert Ht. apply temporary_untouched.
  - intros rest Hr. by apply (apart_left _ _ apart rest).
  - intros rest rest' Hr. by apply (apart_rest _ _ apart rest' rest).
Qed.

Lemma write_metadata_step encoded : Effects.spec (λ s, pid_written (files (su_world s)))
  (write_sensitive (sp_metadata_path spec) encoded)
  (λ _ s, files (su_world s) !! pid_file = Some (File (pretty pid +:+ String NEWLINE ""))
          ∧ files (su_world s) !! metadata_file = Some (File encoded)) (λ _ _, True).
Proof.
  apply (spec_files _ _ (λ _ fs, fs !! pid_file = Some (File (pretty pid +:+ String NEWLINE "")) ∧ fs !! metadata_file = Some (File encoded)) (λ _, True)).
  rewrite metadata_at. intros w [Hf Hm].
  pose proof (write_sensitive_file_whole metadata_file encoded w (λ Hn, app_cons_not_nil dir [] metadata_name (eq_sym Hn)) Hm) as Hw.
  fold metadata_file. destruct (write_sensitive_file metadata_file _ w) as [[[]|e] w']; [|done]. destruct Hw as [Hf' Ho].
  split; [|done]. rewrite Ho; [done|]. apply sibling_untouched; [apply apart|]. intros rest. apply apart.
Qed.

Lemma keeps_calls_write k p content : keeps (λ s, k ≤ su_calls s) (write_sensitive p content).
Proof. apply keeps_calls_files. Qed.

Lemma persist_spec k fs : leads (λ s, plain_files (files (su_world s)) ∧ k ≤ su_calls s ∧ files (su_world s) = fs)
  (persist_runtime_files spec pid) (λ _, findable k fs spec pid).
Proof.
  unfold leads, persist_runtime_files.
  eapply (spec_bind _ _ _ (λ r s, (recognisable fs spec r.1 r.2 ∧ inspected k pid r.1 s) ∧ plain_files (files (su_world s)))).
  { intros s (Hp & Hk & Hf). pose proof (identity_spec k spec pid s Hk) as Hi. pose proof (quiet_identity spec pid s) as Hq. apply logged_files in Hq.
    destruct (process_identity_for_runtime_metadata spec pid s) as [[r|e] s1]; [|done]. cbn in Hq. rewrite Hq, Hf in Hi. rewrite Hq.
    split; [split; apply Hi|done]. }
  intros [identity expected]. cbn [fst snd]. apply spec_at. intros s0 [[Hrec (n & [Hkn Hn] & Hi)] Hplain].
  assert (∀ s, su_calls s0 ≤ su_calls s → inspected k pid identity s) as Hinspected by (intros s Hs; exists n; split; [lia|done]).
  eapply spec_bind.
  { eapply (spec_conseq _ (λ s, plain_files (files (su_world s)) ∧ su_calls s0 ≤ su_calls s));
      [by intros s ->|by intros a s Hs; exact Hs|by intros e s Hs; exact I|].
    apply spec_conj; [apply write_pid_step|apply keeps_calls_write]. }
  intros _u. unfold write_runtime_metadata. eapply (spec_bind _ _ _ (λ _ s, pid_written (files (su_world s)) ∧ su_calls s0 ≤ su_calls s)).
  { eapply spec_conseq; [by intros s Hs; exact Hs|by intros a s Hs; exact Hs|by intros e s Hs; exact I|].
    apply spec_conj; [apply (spec_quiet pid_written), quiet_asks|apply keeps_calls_quiet, quiet_asks]. }
  intros answer. eapply (spec_bind _ _ _ (λ _ s, pid_written (files (su_world s)) ∧ su_calls s0 ≤ su_calls s)); [by apply spec_lift|intros started_at].
  set (m := {| md_name := _ |}).
  eapply (spec_bind _ _ _ (λ text s, metadata_to_json m = Ok text ∧ pid_written (files (su_world s)) ∧ su_calls s0 ≤ su_calls s)).
  { apply spec_lift; [|done]. intros text Htext s Hs. split; [|done]. by destruct (metadata_to_json m); [injection Htext as ->|]. }
  intros encoded. apply spec_pure. intros Hjson.
  eapply spec_conseq; [by intros s Hs; exact Hs| |by intros e s Hs; exact I|apply spec_conj; [apply write_metadata_step|apply keeps_calls_write]].
  intros ? s [[Hp Hm] Hc]. exists identity, expected, started_at.
  assert (record_read (files (su_world s)) spec pid m) as Hread.
  { split.
    - eexists. split; [rewrite pid_at; by apply read_file|]. rewrite trim_pretty_line. unfold parse_u32.
      rewrite parse_u64_pretty by (unfold U64_MAX, U32_MAX in *; lia). cbn. by rewrite (proj2 (N.leb_le _ _)).
    - exists encoded. split; [rewrite metadata_at; by apply read_file|by apply metadata_round_trip]. }
  split_and!; [by apply Hinspected|done|exact Hread|]. exists m, (pi_start_identity identity). split_and!; [exact Hread| |done|done].
  unfold metadata_matches, matches_recorded, m. cbn. by rewrite !bool_decide_eq_true_2.
Qed.
End persist.

(** No signal and no new process. *)
Definition idle (s0 s : Supervised) : Prop := su_sent s = su_sent s0 ∧ su_spawned s = su_spawned s0.

Lemma idle_files {A : Type} s0 (m : IO FsError A) : keeps (idle s0) (on_files m).
Proof. intros s Hs. unfold on_files, on_part. cbn. by destruct (m (su_world s)) as [[] ?]. Qed.
Lemma idle_quiet {A : Type} s0 (m : Sup A) : quiet m → keeps (idle s0) m.
Proof.
  intros Hm s [Hs Hp]. pose proof (logged_sent _ _ _ (Hm s)). pose proof (logged_spawned _ _ _ (Hm s)).
  destruct (m s) as [[] s']; cbn in *; split; congruence.
Qed.

Lemma idle_persist s0 spec pid : keeps (idle s0) (persist_runtime_files spec pid).
Proof.
  unfold persist_runtime_files, write_runtime_metadata. apply keeps_bind; [apply idle_quiet, quiet_identity|intros ?].
  apply keeps_bind; [apply idle_files|intros ?]. apply keeps_bind; [apply idle_quiet, quiet_asks|intros ?].
  apply keeps_bind; [apply keeps_lift|intros ?]. apply keeps_bind; [apply keeps_lift|intros ?]. apply idle_files.
Qed.

(** The child and its group are killed. *)
Definition killed (s0 : Supervised) (pid : N) (s : Supervised) : Prop :=
  su_spawned s = pid :: su_spawned s0
  ∧ ∃ k, su_sent s = k :: su_sent s0 ∧ sg_group k = pid ∧ sg_signal k = Kill.

Lemma terminate_spec s0 pid e : (0 < pid ≤ I32_MAX)%N →
  Effects.spec (λ s, su_sent s = su_sent s0 ∧ su_spawned s = pid :: su_spawned s0)
    (_ ← terminate_spawned_child pid; eff_fail (A := ManagedProcess) e) (λ _ _, False) (λ _ s, killed s0 pid s).
Proof.
  intros Hpid s [Hs Hp]. unfold terminate_spawned_child, mbind, eff_bind, eff_try.
  pose proof (signal_group_spec pid Kill s) as Hk. assert (process_group_pid pid = Ok pid) as Hg.
  { unfold process_group_pid. destruct (N.ltb_spec I32_MAX pid); [lia|]. destruct (N.eqb_spec pid 0); [lia|done]. }
  rewrite Hg in Hk. destruct (signal_process_group pid Kill s) as [r s1]. cbn.
  split; cbn; [by rewrite (logged_spawned _ _ _ Hk)|]. exists (signalled s pid Kill). by rewrite (logged_sent _ _ _ Hk), Hs.
Qed.

(** What precedes the process: the layout of the directories and the log. *)
Definition made_ready (paths : PvPaths) (spec : ProcessSpec) : Sup unit :=
  _ ← on_files (ensure_layout paths);
  _ ← on_files (open_append_file (path_of (sp_log_path spec)));
  on_files (open_append_file (path_of (sp_log_path spec))).

Lemma made_ready_spec paths spec dir s : let log := path_of (sp_log_path spec) in
  Effects.spec (λ s', (unlinked dir log (files (su_world s')) ∧ su_calls s ≤ su_calls s') ∧ idle s s') (made_ready paths spec)
    (λ _ s', (unlinked dir log (files (su_world s')) ∧ su_calls s ≤ su_calls s') ∧ idle s s')
    (λ _ s', (unlinked dir log (files (su_world s')) ∧ su_calls s ≤ su_calls s') ∧ idle s s').
Proof.
  intros log. unfold made_ready. fold log.
  assert (∀ m : IO FsError unit, hoare (unlinked dir log) m (λ _, unlinked dir log) (unlinked dir log) →
    keeps (λ s', (unlinked dir log (files (su_world s')) ∧ su_calls s ≤ su_calls s') ∧ idle s s') (on_files m)) as Hstep.
  { intros m Hm. apply spec_conj; [|apply idle_files]. apply spec_conj; [exact (spec_files _ m _ _ Hm)|apply keeps_calls_files]. }
  apply keeps_bind; [apply Hstep, layout_unlinked|intros _u]. apply keeps_bind; [apply Hstep, append_unlinked|intros _v]. apply Hstep, append_unlinked.
Qed.

(** C32: A runtime that was started can be found again. If the start succeeds, the one
    process that was started, under the pid that is returned, was seen during the start, and
    its files say so: they hold the pid, and a record with the specification's name,
    command, arguments and paths, the fingerprint of its private environment, the start time
    that was seen, and the interpreter that was seen running it, if its command is a script;
    without, the process runs the command itself, or what was seen is nothing of a script.
    They are what PV looks for, and nothing was signalled. If it fails, no process was
    started, or the group of the one that was has been killed: none is left that PV does not
    know of. Assumed: the two files have separate names in one directory, nothing below it
    and not the log is a symbolic link, a record is read as it was written, and the host
    gives a spawned process a positive pid that fits 31 bits. *)
Theorem start_spec `{!MetadataJsonLaws} paths spec dir pid_name metadata_name s :
  path_of (sp_pid_path spec) = dir ++ [pid_name] → path_of (sp_metadata_path spec) = dir ++ [metadata_name] →
  apart_names pid_name metadata_name → (∀ n pid, spawn_at n = Ok (Some pid) → (0 < pid ≤ I32_MAX)%N) →
  unlinked dir (path_of (sp_log_path spec)) (files (su_world s)) →
  match start paths spec s with
  | (Ok p, s') => su_sent s' = su_sent s ∧ su_spawned s' = mp_pid p :: su_spawned s
      ∧ findable (su_calls s) (files (su_world (made_ready paths spec s).2)) spec (mp_pid p) s'
  | (Err _, s') => idle s s' ∨ ∃ pid, killed s pid s'
  end.
Proof.
  intros Hpid Hmeta Hapart Hspawn Hlink. set (log := path_of (sp_log_path spec)) in *.
  pose proof (made_ready_spec paths spec dir s s (conj (conj Hlink (le_n _)) (conj eq_refl eq_refl))) as Hready. fold log in Hready.
  assert (start paths spec s = match containment with
    | Err e => (Err (DaemonPlatform e), s)
    | Ok _ => (_ ← made_ready paths spec;
        answer ← asks spawn_at;
        child ← eff_lift (map_err DaemonIo answer);
        match child with
        | None => eff_fail (MissingProcessId (sp_name spec))
        | Some pid =>
            _ ← record_spawned pid;
            persisted ← eff_try (persist_runtime_files spec pid);
            match persisted with
            | Err error => _ ← terminate_spawned_child pid; eff_fail error
            | Ok _ => mret {| mp_pid := pid; mp_log_path := sp_log_path spec; mp_pid_path := sp_pid_path spec;
                              mp_metadata_path := sp_metadata_path spec |}
            end
        end) s
    end) as ->.
  { unfold start, made_ready, require_process_containment, eff_lift. unfold mbind at 1, eff_bind at 1. destruct containment as [[]|e]; [|done].
    cbn [map_err]. unfold mbind, eff_bind. destruct (on_files (ensure_layout paths) s) as [[u|e] s1]; [|done].
    destruct (on_files _ s1) as [[v|e] s2]; [|done]. by destruct (on_files _ s2) as [[w|e] s3]. }
  destruct containment as [u|e]; [|left; done]. unfold mbind at 1, eff_bind at 1.
  destruct (made_ready paths spec s) as [[v|e] s1]; [|left; apply Hready]. destruct Hready as [[Hu Hc] [Hsent Hspawned]]. cbn [snd].
  unfold mbind at 1, eff_bind at 1, asks. unfold mbind at 1, eff_bind at 1, eff_lift.
  destruct (spawn_at (su_calls s1)) as [[pid|]|e] eqn:Hchild; cbn [map_err]; [|by left..]. specialize (Hspawn _ pid Hchild).
  assert (pid ≤ U32_MAX)%N as Hu32 by (transitivity I32_MAX; [lia|done]).
  unfold mbind at 1, eff_bind at 1, record_spawned, eff_modify. set (s2 := {| su_world := _ |}).
  assert (plain_files dir pid_name metadata_name (files (su_world s2))) as Hplain.
  { split; intros t [i ->]; apply Hu; rewrite temporary_at; apply under_app. }
  pose proof (persist_spec dir pid_name metadata_name spec pid Hpid Hmeta Hapart Hu32 (su_calls s) (files (su_world s1)) s2) as Hpersist.
  assert (su_calls s ≤ su_calls s2) as Hc2 by (cbn; lia). specialize (Hpersist (conj Hplain (conj Hc2 eq_refl))).
  pose proof (idle_persist s2 spec pid s2 (conj eq_refl eq_refl)) as Hidle.
  unfold mbind at 1, eff_bind at 1, eff_try. destruct (persist_runtime_files spec pid s2) as [[w|e] s3]; destruct Hidle as [Hs3 Hp3].
  - split; [by rewrite Hs3|]. split; [by rewrite Hp3; cbn; f_equal|exact Hpersist].
  - assert (su_sent s3 = su_sent s ∧ su_spawned s3 = pid :: su_spawned s) as Hs by (rewrite Hs3, Hp3; cbn; split; congruence).
    pose proof (terminate_spec s pid e Hspawn s3 Hs) as Hk.
    destruct ((_ ← terminate_spawned_child pid; eff_fail (A := ManagedProcess) e) s3) as [[p|e'] s4]; [done|right; by exists pid].
Qed.

(** *** Finding a runtime again *)

Lemma read_optional_spec p s :
  let '(r, s') := read_optional_file p s in
  files (su_world s') = files (su_world s) ∧ su_calls s' = su_calls s
  ∧ (∀ content, r = Ok (Some content) → read_node (path_of p) (files (su_world s)) = Ok content)
  ∧ ((∀ n, fault_at n = None) → ∀ content, read_node (path_of p) (files (su_world s)) = Ok content → r = Ok (Some content)).
Proof.
  pose proof (logged_files _ _ _ (quiet_optional p s)) as Hf. revert Hf.
  unfold read_optional_file, read_to_string, at_path, io_map_err, std_read_to_string, query, syscall.
  destruct (fault_at (clock (su_world s))) as [f|] eqn:Hfault.
  - cbn. intros Hf. split_and!; [done|done|done|]. intros Hno. by rewrite Hno in Hfault.
  - destruct (read_node (path_of p) (files (su_world s))) as [content|e]; cbn.
    + intros Hf. split_and!; [done|done|by intros ? [= ->]|by intros _ ? [= ->]].
    + destruct (io_kind e); cbn; intros Hf; by split_and!.
Qed.

Lemma record_unique fs spec pid m pid' m' : record_read fs spec pid m → record_read fs spec pid' m' → pid' = pid ∧ m' = m.
Proof. intros [(? & ? & ?) (? & ? & ?)] [(? & ? & ?) (? & ? & ?)]. split; congruence. Qed.

(** Up to the look at the process: the record as it is, or none to be found. *)
Lemma verify_reads spec s : containment = Ok tt →
  (∃ pid m s2, record_read (files (su_world s)) spec pid m ∧ su_calls s2 = su_calls s ∧ files (su_world s2) = files (su_world s)
     ∧ verify_ownership spec s = verify_live spec pid m (metadata_matches m spec pid) s2)
  ∨ ((∀ o, (verify_ownership spec s).1 ≠ Ok (Some o))
     ∧ ((∀ n, fault_at n = None) → ∀ pid m, ¬ record_read (files (su_world s)) spec pid m)).
Proof.
  intros Hcont. unfold verify_ownership, require_process_containment, eff_lift. rewrite Hcont. unfold mbind at 1, eff_bind. cbn [map_err].
  unfold read_pid_file, mbind, eff_bind. pose proof (read_optional_spec (sp_pid_path spec) s) as Hp.
  destruct (read_optional_file (sp_pid_path spec) s) as [[[text|]|e] s1]; destruct Hp as (Hf1 & Hc1 & Hp & Hp').
  2,3: right; split; [done|]; intros Hfault pid m [(t & Ht & _) _]; by specialize (Hp' Hfault t Ht).
  destruct (parse_u32 (trim text)) as [pid|] eqn:Hpid; cbn.
  2:{ right; split; [done|]. intros Hfault pid m [(t & Ht & Hparse) _]. specialize (Hp' Hfault t Ht). injection Hp' as ->. congruence. }
  unfold read_runtime_metadata, mbind, eff_bind. pose proof (read_optional_spec (sp_metadata_path spec) s1) as Hm.
  rewrite Hf1 in Hm. destruct (read_optional_file (sp_metadata_path spec) s1) as [[[json|]|e] s2]; destruct Hm as (Hf2 & Hc2 & Hm & Hm').
  2,3: right; split; [done|]; intros Hfault pid' m [_ (t & Ht & _)]; by specialize (Hm' Hfault t Ht).
  unfold eff_lift. destruct (metadata_from_json json) as [m|e] eqn:Hjson; cbn.
  - left. exists pid, m, s2. split; [|split; [congruence|split; [congruence|reflexivity]]]. split; [exists text|exists json]; (split; [|assumption]).
    + by apply Hp.
    + by apply Hm.
  - right; split; [done|]. intros Hfault pid' m [_ (t & Ht & Hj)]. specialize (Hm' Hfault t Ht). injection Hm' as ->. congruence.
Qed.

(** The look at the process: [sees] is what was seen, if the answer is yes. *)
Lemma live_spec o s :
  let '(r, s') := live_process_matches (ow_pid o) (ow_command o) (ow_arguments o) (ow_process_start_identity o)
                    (ow_process_executable_identity o) s in
  (r = Ok true → alive (files (su_world s)) o (su_calls s))
  ∧ (∀ identity, (∀ n, fault_at n = None) → seen o (su_calls s) identity → directly identity o → r = Ok true).
Proof.
  pose proof (matches_live_spec o s) as Hm. unfold matches_live in Hm.
  destruct (live_process_matches _ _ _ _ _ s) as [r s'] eqn:Hlive. destruct Hm as (_ & _ & Hyes & Hno). split; [done|].
  intros identity Hfault Hseen Hd. destruct r as [[]|e]; [done|by destruct (Hno eq_refl identity Hseen) as [[] _]|].
  destruct Hseen as [Hi Hst]. revert Hlive.
  unfold live_process_matches, inspect_process_identity, mbind, eff_bind, asks, eff_lift. cbn. rewrite Hi. cbn.
  rewrite bool_decide_eq_true_2 by done. cbn. unfold process_identity_matches, mbind, eff_bind.
  destruct (script_arguments_match _ _ _); [|done]. unfold is_script. by destruct (on_files _ _) as [[]].
Qed.

Lemma verify_sound_complete spec s :
  (∀ o, (verify_ownership spec s).1 = Ok (Some o) → recorded (files (su_world s)) spec o ∧ alive (files (su_world s)) o (su_calls s))
  ∧ (∀ o identity, (∀ n, fault_at n = None) → containment = Ok tt → recorded (files (su_world s)) spec o →
       seen o (su_calls s) identity → directly identity o → (verify_ownership spec s).1 = Ok (Some o)).
Proof.
  destruct containment as [[]|e] eqn:Hcont.
  2:{ assert (verify_ownership spec s = (Err (DaemonPlatform e), s)) as ->; [|by split].
      unfold verify_ownership, require_process_containment, eff_lift, mbind, eff_bind. by rewrite Hcont. }
  destruct (verify_reads spec s Hcont) as [(pid & m & s2 & Hread & Hcalls & Hfiles & ->)|[Hno Hnone]].
  2:{ split; [by intros o ?%Hno|]. intros o identity Hfault _ (m & st & Hr & _) _ _. by destruct (Hnone Hfault _ _ Hr). }
  assert (∀ o start, md_process_start_identity m = Some start → metadata_matches m spec pid = true →
    o = owned_runtime spec pid start (md_process_executable_identity m) → recorded (files (su_world s)) spec o) as Hrec.
  { intros o start Hst Hmm ->. by exists m, start. }
  unfold verify_live. destruct (md_process_start_identity m) as [start|] eqn:Hstart.
  2:{ split; [done|]. intros o identity _ _ (m' & st & Hr & _ & Hst & _) _ _. destruct (record_unique _ _ _ _ _ _ Hread Hr). congruence. }
  destruct (metadata_matches m spec pid) eqn:Hmm; cbn [negb].
  2:{ split; [done|]. intros o identity _ _ (m' & st & Hr & Hmm' & _) _ _. destruct (record_unique _ _ _ _ _ _ Hread Hr) as [Hp ->]. congruence. }
  set (o := owned_runtime spec pid start (md_process_executable_identity m)).
  pose proof (live_spec o s2) as Hlive. rewrite Hcalls, Hfiles in Hlive. unfold mbind, eff_bind. cbn in Hlive.
  destruct (live_process_matches _ _ _ _ _ s2) as [r s3]. destruct Hlive as [Hyes Hfound]. split.
  - destruct r as [[]|e]; cbn; [|done..]. intros o' [= <-]. split; [by eapply Hrec|by apply Hyes].
  - intros o' identity Hfault _ (m' & st & Hr & _ & Hst & Ho) Hseen Hd.
    destruct (record_unique _ _ _ _ _ _ Hread Hr) as [Hpid ->]. assert (o' = o) as ->.
    { rewrite Hpid in Ho. rewrite Ho. unfold o. congruence. }
    by rewrite (Hfound identity Hfault Hseen Hd).
Qed.

(** A runtime is recognised only by its record and by the process itself, and always
    then. If [verify_ownership] returns one, the pid file and the metadata say so, the
    metadata is the one this specification writes, and the call that looked saw a process
    with the recorded start time that runs the recorded command. Conversely, when the
    record is there and the process is seen under it, it is found, provided the files
    can be read. *)
Theorem verify_ownership_spec spec s :
  (∀ o, (verify_ownership spec s).1 = Ok (Some o) → recorded (files (su_world s)) spec o ∧ alive (files (su_world s)) o (su_calls s))
  ∧ (∀ o identity, (∀ n, fault_at n = None) → containment = Ok tt → recorded (files (su_world s)) spec o →
       seen o (su_calls s) identity → directly identity o → (verify_ownership spec s).1 = Ok (Some o)).
Proof. apply verify_sound_complete. Qed.

(** *** Waiting until a runtime is ready *)

Lemma check_spec probe_timeout s :
  let '(r, s') := check_with_timeout probe_timeout s in
  logged [] s s'
  ∧ (r = Ok (Some (Ok tt)) → ∃ d, probe_at (su_calls s) = ProbeReady d ∧ (d ≤ probe_timeout)%N ∧ su_calls s < su_calls s')
  ∧ (r = Ok None → (su_now s + probe_timeout ≤ su_now s')%N) ∧ (∀ e, r ≠ Err e).
Proof.
  assert (logged [] s (check_with_timeout probe_timeout s).2) as Hl.
  { apply (logged_refl s) || idtac. revert s. change (quiet (check_with_timeout probe_timeout)).
    unfold check_with_timeout, instant_now. repeat quiet_step. }
  revert Hl. unfold check_with_timeout, instant_now, mbind, eff_bind, eff_get, asks. cbn.
  destruct (probe_at (su_calls s)) as [d|d e|] eqn:Hp; [destruct (N.ltb_spec probe_timeout d)..|]; cbn; intros Hl;
    split_and!; try done; try (intros _; lia).
  intros _. exists d. split_and!; [done|lia|lia].
Qed.

(** [Ok] comes from a probe that was ready; an error, from the end of the time. *)
Definition readied (check : string) (started_at timeout : N) (s : Supervised) (r : result DaemonError unit) (s' : Supervised) : Prop :=
  logged [] s s'
  ∧ match r with
    | Ok _ => ∃ n d, su_calls s ≤ n < su_calls s' ∧ probe_at n = ProbeReady d
    | Err e => (started_at + timeout ≤ su_now s')%N ∧ ∃ last_error, e = ReadinessTimedOut check (as_millis timeout) last_error
    end.

Lemma readied_later check started_at timeout s s1 r s' : logged [] s s1 →
  readied check started_at timeout s1 r s' → readied check started_at timeout s r s'.
Proof.
  intros Hl [Hl' Hr]. split; [by eapply logged_then|]. destruct r as [[]|e]; [|done].
  destruct Hr as (n & d & Hn & Hp). exists n, d. pose proof (logged_calls _ _ _ Hl). split; [lia|done].
Qed.

Lemma readiness_loop_spec fuel check started_at timeout last_error s :
  (started_at ≤ su_now s)%N → (timeout ≤ su_now s - started_at + N.of_nat fuel * READINESS_POLL_INTERVAL)%N →
  let '(r, s') := readiness_loop fuel check started_at timeout last_error s in readied check started_at timeout s r s'.
Proof.
  revert last_error s. induction fuel as [|fuel IH]; intros last_error s Hstart Hfuel.
  { split; [apply logged_refl|]. split; [lia|by eexists]. }
  cbn [readiness_loop]. unfold mbind at 1, eff_bind, remaining_timeout, eff_get. cbn.
  destruct (N.ltb_spec (su_now s - started_at) timeout) as [Hlt|]; [|split; [apply logged_refl|]; split; [lia|by eexists]].
  set (remaining := (timeout - (su_now s - started_at))%N). unfold mbind, eff_bind.
  pose proof (check_spec (N.min remaining READINESS_PROBE_TIMEOUT) s) as Hc.
  assert (READINESS_POLL_INTERVAL ≤ READINESS_PROBE_TIMEOUT)%N as Hle by done.
  destruct (check_with_timeout _ s) as [[[[[]|error]|]|e] s1]; destruct Hc as (Hl & Hready & Hlate & Hno).
  - split; [done|]. destruct (Hready eq_refl) as (d & Hp & _ & Hlt'). exists (su_calls s), d. split; [lia|done].
  - cbn. set (d := N.min remaining READINESS_POLL_INTERVAL). set (s2 := {| su_world := su_world s1; su_now := _ |}).
    assert (logged [] s s2) as Hl2 by (eapply logged_then; [exact Hl|apply (quiet_sleep d s1)]).
    pose proof (logged_now _ _ _ Hl). specialize (IH (Some error) s2).
    destruct (readiness_loop fuel check started_at timeout (Some error) s2) as [r s'].
    eapply readied_later; [exact Hl2|]. apply IH; unfold d, s2; cbn; lia.
  - specialize (Hlate eq_refl). pose proof (logged_now _ _ _ Hl). specialize (IH (Some ELAPSED) s1).
    destruct (readiness_loop fuel check started_at timeout (Some ELAPSED) s1) as [r s'].
    eapply readied_later; [exact Hl|]. apply IH; lia.
  - by destruct (Hno e).
Qed.

(** C33: Waiting for readiness ends. It answers [Ok] only after a probe that was ready, and an
    error, the timeout of this very check, only when all the time it was given is over,
    however long each probe takes. It sends no signal and changes no file. *)
Theorem wait_for_readiness_spec check timeout s :
  let '(r, s') := wait_for_readiness check timeout s in readied check (su_now s) timeout s r s'.
Proof. apply readiness_loop_spec; [lia|]. pose proof (poll_rounds_enough timeout). lia. Qed.

(** Reloading signals only a process that was verified, and seen again just before. *)
Lemma reload_signals spec s :
  let '(r, s') := reload spec s in
  ∃ l, logged l s s' ∧ (l = [] ∨ ∃ o k, l = [k] ∧ sg_group k = ow_pid o ∧ sg_signal k = Reload
    ∧ recorded (files (su_world s)) spec o ∧ alive (files (su_world s)) o (pred (sg_call k)))
    ∧ (r = Ok false → l = []).
Proof.
  unfold reload, require_process_containment. unfold mbind at 1, eff_bind. unfold eff_lift.
  destruct containment as [[]|e]; cbn [map_err]; [|by exists []; split_and!; [apply logged_refl|left|]].
  unfold mbind, eff_bind. pose proof (quiet_verify spec s) as Hq.
  pose proof (proj1 (verify_sound_complete spec s)) as Hv.
  destruct (verify_ownership spec s) as [[[o|]|e] s1]; cbn in Hv, Hq; [|by exists []; split_and!; [|left|]..].
  destruct (Hv o eq_refl) as [Hrec _]. unfold signal_owned, mbind, eff_bind. pose proof (matches_live_spec o s1) as Hm.
  rewrite (logged_files _ _ _ Hq) in Hm.
  destruct (matches_live o s1) as [[[]|e] s2]; destruct Hm as (Hl & Hc & Hyes & _); cbn [negb];
    pose proof (logged_after [] _ _ _ Hq Hl) as Hl2; [|by exists []; split_and!; [|left|]..].
  pose proof (signal_group_spec (ow_pid o) Reload s2) as Hs. destruct (signal_process_group (ow_pid o) Reload s2) as [r s3].
  destruct (process_group_pid (ow_pid o)) as [g|e].
  - assert (∀ r' : result DaemonError bool, r' ≠ Ok false → ∃ l, logged l s s3 ∧ (l = [] ∨ ∃ o k, l = [k] ∧ sg_group k = ow_pid o
      ∧ sg_signal k = Reload ∧ recorded (files (su_world s)) spec o ∧ alive (files (su_world s)) o (pred (sg_call k))) ∧ (r' = Ok false → l = [])) as Hx.
    { intros r' Hr. exists [signalled s2 (ow_pid o) Reload]. split; [by eapply logged_after|]. split; [|done]. right.
      exists o, (signalled s2 (ow_pid o) Reload). cbn. rewrite Hc. by split_and!; [..|apply Hyes]. }
    by destruct r as [[]|e]; apply Hx.
  - destruct Hs as [-> ->]. exists []. by split_and!; [|left|].
Qed.
End supervisor_quiet.

(** *** The fingerprint of the private environment *)

Lemma be_bytes_inj width n m : be_bytes width n = be_bytes width m → (n mod 256 ^ N.of_nat width = m mod 256 ^ N.of_nat width)%N.
Proof.
  induction width as [|width IH]; [by rewrite !N.mod_1_r|]. cbn [be_bytes]. intros [= Hhead Htail%IH].
  assert (n / 256 ^ N.of_nat width mod 256 = m / 256 ^ N.of_nat width mod 256)%N as Hdigit.
  { rewrite <-(N_ascii_embedding (n / _ mod 256)), <-(N_ascii_embedding (m / _ mod 256)) by (apply N.mod_lt; lia). by rewrite Hhead. }
  rewrite Nat2N.inj_succ, N.pow_succ_r', (N.mul_comm 256).
  rewrite !N.Div0.mod_mul_r by lia. by rewrite Hdigit, Htail.
Qed.
Lemma len_be_bytes width n : len (be_bytes width n) = width.
Proof. induction width; [done|]. cbn. by f_equal. Qed.

Lemma str_app_len_inj a a' b b' : len a = len a' → a +:+ b = a' +:+ b' → a = a' ∧ b = b'.
Proof.
  revert a'. induction a as [|c a IH]; intros [|c' a']; [done..|]. cbn. intros [= Hl] [= -> Heq].
  by destruct (IH a' Hl Heq) as [-> ->].
Qed.

Definition short (s : string) : Prop := (N.of_nat (len s) < 256 ^ 8)%N.

Lemma framed_inj a a' b b' : short a → short a' → framed a +:+ b = framed a' +:+ b' → a = a' ∧ b = b'.
Proof.
  unfold framed, short. intros Ha Ha' Heq. rewrite <-!str_app_assoc in Heq.
  apply str_app_len_inj in Heq as [Hn Heq]; [|by rewrite !len_be_bytes].
  apply be_bytes_inj in Hn. change (N.of_nat 8) with 8%N in Hn. rewrite !N.mod_small in Hn by done.
  apply str_app_len_inj in Heq; [done|lia].
Qed.

(** Two environments are fingerprinted from different bytes: where a name or a value ends is
    part of them. *)
Lemma environment_bytes_inj e e' :
  (∀ k v, e !! k = Some v → short k ∧ short v) → (∀ k v, e' !! k = Some v → short k ∧ short v) →
  environment_bytes e = environment_bytes e' → e = e'.
Proof.
  intros He He' Heq.
  assert (∀ l l' : list (string * string), (∀ p, p ∈ l → short p.1 ∧ short p.2) → (∀ p, p ∈ l' → short p.1 ∧ short p.2) →
    str_concat ((λ '(key, value), framed key +:+ framed value) <$> l)
    = str_concat ((λ '(key, value), framed key +:+ framed value) <$> l') → l = l') as Hlist.
  { induction l as [|[k v] l IH]; intros [|[k' v'] l'] Hl Hl'; cbn; [done|done|done|].
    rewrite <-!str_app_assoc. intros Hs. destruct (Hl (k, v)) as [Hk Hv]; [by left|]. destruct (Hl' (k', v')) as [Hk' Hv']; [by left|].
    apply framed_inj in Hs as [-> Hs]; [|done..]. apply framed_inj in Hs as [-> Hs]; [|done..].
    f_equal. apply IH; [| |done]; intros p Hp; [apply Hl|apply Hl']; by right. }
  apply map_eq. intros k. apply option_eq. intros v.
  assert (btree_iter e = btree_iter e') as Hb.
  { apply Hlist; [| |exact Heq]; intros [k0 v0] Hp%elem_of_btree_iter; [by apply He in Hp|by apply He' in Hp]. }
  by rewrite <-!elem_of_btree_iter, Hb.
Qed.

(** ** A sample runtime *)

Definition quiet_host : Host := {| fault_at := λ _, None; process_id := 7 |}.

Definition demo_spec : ProcessSpec := {|
  sp_name := "redis-8"; sp_command := "/opt/redis"; sp_arguments := ["--port"; "6379"]; sp_private_environment := ∅;
  sp_config_path := "/u/.pv/config/resources/redis/8.json"; sp_log_path := "/u/.pv/logs/resources/redis/8.log";
  sp_pid_path := "/u/.pv/run/resources/redis/8.pid"; sp_metadata_path := "/u/.pv/run/resources/redis/8.json";
  sp_resource_name := "redis"; sp_track := "8" |}.
Definition demo_identity : ProcessIdentity := {|
  pi_executable := "/opt/redis"; pi_argument_zero := "/opt/redis"; pi_arguments := ["--port"; "6379"];
  pi_start_identity := {| ps_seconds := 100; ps_microseconds := 5 |} |}.
Definition demo_metadata : RuntimeMetadata := {|
  md_name := "redis-8"; md_pid := 42; md_command := "/opt/redis"; md_arguments := ["--port"; "6379"];
  md_private_environment_fingerprint := None; md_config_path := "/u/.pv/config/resources/redis/8.json";
  md_resource_name := "redis"; md_track := "8"; md_log_path := "/u/.pv/logs/resources/redis/8.log";
  md_started_at := "2026-05-22T14:30:12Z";
  md_process_start_identity := Some {| ps_seconds := 100; ps_microseconds := 5 |};
  md_process_executable_identity := None |}.

#[export] Instance executable_identity_eq_dec : EqDecision ProcessExecutableIdentity.
Proof. solve_decision. Defined.
#[export] Instance metadata_eq_dec : EqDecision RuntimeMetadata.
Proof. solve_decision. Defined.

(** A process that runs under pid 42 and ignores the termination. *)
Definition demo_host : ProcessHost := {|
  containment := Ok tt;
  inspect_at _ pid := Ok (if (pid =? 42)%N then Some demo_identity else None);
  kill_at _ _ _ := Ok tt;
  test_at n _ := if n <? 840 then Ok tt else Err NoSuchProcess;
  spawn_at _ := Ok (Some 42%N);
  try_wait_at _ := Ok false;
  wait_at _ := RunsOn;
  probe_at n := if n <? 3 then ProbeFails 1000 "refused" else ProbeReady 1000;
  timestamp_at _ := Ok "2026-05-22T14:30:12Z";
  delay_at _ := 1000%N |}.
(** A printer for that process's metadata. *)
Definition demo_json : MetadataJson := {|
  metadata_to_json m := if bool_decide (m = demo_metadata) then Ok "{}" else Err "unsupported";
  metadata_from_json s := if bool_decide (s = "{}") then Ok demo_metadata else Err "unsupported";
  sha256 s := s |}.

Lemma demo_json_laws : @MetadataJsonLaws demo_json.
Proof. split. cbn. intros m s. case_bool_decide as Hm; [|done]. intros [= <-]. by rewrite Hm. Qed.

Definition demo_start : Supervised :=
  {| su_world := {| files := ∅; clock := 0; counter := 0 |}; su_now := 0; su_calls := 0; su_sent := []; su_spawned := [] |}.
Definition demo_started : Supervised :=
  (@start quiet_host demo_host demo_json (for_home ["u"]) demo_spec demo_start).2.

Lemma start_spec_witness :
  let r := @start quiet_host demo_host demo_json (for_home ["u"]) demo_spec demo_start in
  is_ok r.1 = true
  ∧ match r with
    | (Ok p, s') => su_sent s' = [] ∧ su_spawned s' = [mp_pid p]
        ∧ @findable demo_host demo_json 0 (files (su_world (@made_ready quiet_host (for_home ["u"]) demo_spec demo_start).2)) demo_spec (mp_pid p) s'
    | (Err _, s') => idle demo_start s' ∨ ∃ pid, killed demo_start pid s'
    end.
Proof.
  split; [vm_compute; reflexivity|].
  refine (@start_spec quiet_host demo_host demo_json demo_json_laws (for_home ["u"]) demo_spec
    ["u"; ".pv"; "run"; "resources"; "redis"] "8.pid" "8.json" demo_start eq_refl eq_refl _ _ _).
  - split; [done|by intros..].
  - intros n pid [= <-]. done.
  - split; [|done]. intros q _. reflexivity.
Defined.

Definition demo_owned : OwnedRuntime :=
  owned_runtime demo_spec 42 {| ps_seconds := 100; ps_microseconds := 5 |} None.

Lemma verify_ownership_spec_witness :
  (@verify_ownership quiet_host demo_host demo_json demo_spec demo_started).1 = Ok (Some demo_owned).
Proof.
  apply (proj2 (@verify_ownership_spec quiet_host demo_host demo_json demo_spec demo_started) demo_owned demo_identity).
  - intros n. reflexivity.
  - reflexivity.
  - exists demo_metadata, {| ps_seconds := 100; ps_microseconds := 5 |}. split; [split|split; [|split]].
    + exists (String "4" (String "2" (String NEWLINE ""))). split; vm_compute; reflexivity.
    + exists "{}". split; vm_compute; reflexivity.
    + vm_compute; reflexivity.
    + reflexivity.
    + reflexivity.
  - split; reflexivity.
  - split; [left; reflexivity|reflexivity].
Defined.

(** The process that ignores the termination is killed after the ten seconds it has. *)
Example demo_stop :
  let r := @stop_adopted quiet_host demo_host {| ad_owned := demo_owned |} (millis 10000) demo_started in
  r.1 = Ok tt ∧ ((λ k, (sg_signal k, (millis 10000 <=? sg_time k)%N)) <$> su_sent r.2) = [(Kill, true); (Terminate, false)].
Proof. vm_compute. split; reflexivity. Qed.

(** The third probe is ready. *)
Example demo_ready : (@wait_for_readiness demo_host (check_name (CheckTcp "127.0.0.1" 6379)) (millis 5000) demo_start).1 = Ok tt.
Proof. vm_compute. reflexivity. Qed.
