(* ===== verification/ConfigFiles.v ===== *)
(** * The files of a project: [config/src/discovery.rs], [config/src/filesystem.rs] and the
    writer of [config/src/env.rs]

    Here a path may go through symbolic links at every component, as the system resolves
    it; a path that was made canonical has none, and the calls of [HostFs] apply to it.
    The permissions that the writer keeps are not part of the tree. *)

From S2P Require Import Prelude RustStr Paths ConfigModel ConfigParser ProjectEnv EnvBlock HostFs StateFs.

Definition PREFERRED_CONFIG_FILE : string := "pv.yml".
Definition ALTERNATE_CONFIG_FILE : string := "pv.yaml".

Record ProjectConfigFile := { cf_path : string; cf_exists : bool; cf_config : ProjectConfig }.

(** ** How the system resolves a path *)

Definition ELOOP : IoError := {| io_kind := OtherKind; io_text := "Too many levels of symbolic links (os error 62)" |}.

(** From the directory [done_], whose components are no links, along [rest]. *)
Fixpoint follow (links : nat) (fs : Fs) : path → list component → result IoError path :=
  fix go (done_ : path) (rest : list component) : result IoError path :=
    match rest with
    | [] => Ok done_
    | RootDir :: rest => go [] rest
    | CurDir :: rest => go done_ rest
    | ParentDir :: rest => go (removelast done_) rest
    | Normal name :: rest =>
        let here := done_ ++ [name] in
        match fs !! here with
        | None => Err ENOENT
        | Some Dir => go here rest
        | Some (File _) => match rest with [] => Ok here | _ => Err ENOTDIR end
        | Some (Link target) =>
            match links with
            | 0 => Err ELOOP
            | S links => follow links fs (if is_absolute target then [] else done_) (components target ++ rest)
            end
        end
    end.

Definition node_at (fs : Fs) (p : path) : option node := if bool_decide (p = []) then Some Dir else fs !! p.

Definition canonical (fs : Fs) (p : list component) : result IoError path := follow MAX_LINKS fs [] p.

#[global] Arguments canonical : simpl never.

(** The entry itself: the last component is not followed. *)
Definition entry_at (fs : Fs) (p : list component) : result IoError node :=
  match last p with
  | Some (Normal name) =>
      directory ← canonical fs (removelast p);
      if bool_decide (node_at fs directory = Some Dir) then ok_or (fs !! (directory ++ [name])) ENOENT else Err ENOTDIR
  | _ => found ← canonical fs p; ok_or (node_at fs found) ENOENT
  end.

(** [std::io::ErrorKind], of the errors above. *)
Definition config_kind (e : IoError) : io_error_kind :=
  match io_kind e with
  | HostFs.NotFound => ConfigModel.NotFound
  | OtherKind => if bool_decide (io_text e = io_text ENOTDIR) then NotADirectory else OtherIo
  end.

Section config.
Context `{Host}.

Definition config_error (p : string) (e : IoError) : ConfigError := ConfigFilesystem p (config_kind e).

(** ** [config/src/filesystem.rs] *)

Definition path_present (p : string) : IO ConfigError bool := λ w,
  match query (λ fs, entry_at fs (components p)) w with
  | (Ok _, w) => (Ok true, w)
  | (Err source, w) =>
      match config_kind source with
      | ConfigModel.NotFound => (Ok false, w)
      | kind => (Err (ConfigFilesystem p kind), w)
      end
  end.

Definition canonicalize_utf8 (p : string) : IO ConfigError path :=
  io_map_err (config_error p) (query (λ fs, canonical fs (components p))).

Definition read_file_at (fs : Fs) (p : list component) : result IoError string :=
  found ← canonical fs p;
  match node_at fs found with Some (File content) => Ok content | _ => Err EISDIR end.

Definition read_config_file (p : string) : IO ConfigError string :=
  io_map_err (config_error p) (query (λ fs, read_file_at fs (components p))).

(** Of paths that are canonical. *)
Definition is_directory (p : path) : IO ConfigError bool :=
  io_map_err (config_error (path_str p))
    (query (λ fs, n ← ok_or (node_at fs p) ENOENT; Ok (bool_decide (n = Dir)))).

Definition read_optional_to_string (p : path) : IO ConfigError (option string) := λ w,
  match std_read_to_string p w with
  | (Ok content, w) => (Ok (Some content), w)
  | (Err source, w) =>
      match config_kind source with
      | ConfigModel.NotFound => (Ok None, w)
      | kind => (Err (ConfigFilesystem (path_str p) kind), w)
      end
  end.

Definition file_mode (p : path) : IO ConfigError unit :=
  io_map_err (config_error (path_str p)) (_ ← std_metadata p; mret tt).

Definition write_temporary_file (p : path) (content : string) : IO FsError unit :=
  _ ← at_path p (std_create_new p);
  _ ← at_path p (std_set_permissions p);
  _ ← at_path p (std_write p content);
  at_path p (std_sync p).

Definition write_string_atomically (p : path) (content : string) : IO FsError unit :=
  temporary_path ← temporary_path_for p;
  _ ← or_else_remove (_ ← write_temporary_file temporary_path content; rename temporary_path p) temporary_path;
  sync_parent_directory p.

Definition from_config_fs (e : FsError) : ConfigError := config_error (path_str (fs_path e)) (fs_source e).
Definition write_string_atomically_with_mode (p : path) (content : string) : IO ConfigError unit :=
  io_map_err from_config_fs (write_string_atomically p content).

(** ** [config/src/discovery.rs] *)

Definition validate_document_root_shape (document_root : string) : result ConfigError unit :=
  match check_relative_shape document_root with
  | Ok _ => Ok tt
  | Err ShapeAbsolute => Err (AbsoluteDocumentRoot document_root)
  | Err ShapeEscapes => Err (DocumentRootEscapesProject document_root)
  end.

(** [Path::parent]: without the last component, if it is not the root. *)
Definition path_parent (p : list component) : option (list component) :=
  match last p with
  | None | Some RootDir => None
  | Some _ => Some (removelast p)
  end.

Definition component_str (c : component) : string :=
  match c with RootDir => "" | CurDir => "." | ParentDir => ".." | Normal name => name end.
(** The text of components, without the separators that say nothing. *)
Definition components_str (p : list component) : string :=
  match p with [RootDir] => "/" | _ => join "/" (component_str <$> p) end.

(** [canonicalize_utf8(parent)], where a missing parent has an error of its own. *)
Definition canonical_parent_of (parent : list component) (env_file : string) : IO ConfigError path := λ w,
  match query (λ fs, canonical fs parent) w with
  | (Ok p, w) => (Ok p, w)
  | (Err source, w) =>
      match config_kind source with
      | ConfigModel.NotFound | NotADirectory => (Err (EnvFileParentNotDirectory env_file), w)
      | OtherIo => (Err (ConfigFilesystem (components_str parent) OtherIo), w)
      end
  end.

Definition resolve_project_env_file_path (project_root : string) (config : ProjectConfig) : IO ConfigError path :=
  canonical_root ← canonicalize_utf8 project_root;
  let env_file := env_file config in
  let target := path_join (path_str canonical_root) env_file in
  present ← path_present target;
  if present : bool then
    canonical_target ← canonicalize_utf8 target;
    if negb (bool_decide (under canonical_root canonical_target)) then io_fail (EnvFileEscapesProject env_file)
    else
      directory ← is_directory canonical_target;
      if directory : bool then io_fail (EnvFileNotFile env_file) else mret canonical_target
  else
    match path_parent (components target) with
    | None => io_fail (EnvFileParentNotDirectory env_file)
    | Some parent =>
        canonical_parent ← canonical_parent_of parent env_file;
        if negb (bool_decide (under canonical_root canonical_parent)) then io_fail (EnvFileEscapesProject env_file)
        else
          directory ← is_directory canonical_parent;
          if negb directory then io_fail (EnvFileParentNotDirectory env_file)
          else
            match Paths.file_name target with
            | None => io_fail (EnvFileNotFile env_file)
            | Some name => mret (canonical_parent ++ [name])
            end
    end.

(** [canonicalize_utf8(&absolute_document_root)], where a missing one has an error of its own. *)
Definition canonical_document_root (p document_root : string) : IO ConfigError path := λ w,
  match query (λ fs, canonical fs (components p)) w with
  | (Ok p, w) => (Ok p, w)
  | (Err source, w) =>
      match config_kind source with
      | ConfigModel.NotFound => (Err (DocumentRootNotDirectory document_root), w)
      | kind => (Err (ConfigFilesystem p kind), w)
      end
  end.

Definition validate_project_paths (project_root : path) (config : ProjectConfig) : IO ConfigError ProjectConfig :=
  _ ← resolve_project_env_file_path (path_str project_root) config;
  _ ← io_lift (match document_root config with Some d => validate_document_root_shape d | None => Ok tt end);
  match serve config, document_root config with
  | true, Some document_root =>
      canonical_root ← canonical_document_root (path_join (path_str project_root) document_root) document_root;
      if negb (bool_decide (under project_root canonical_root)) then io_fail (DocumentRootEscapesProject document_root)
      else
        directory ← is_directory canonical_root;
        if negb directory then io_fail (DocumentRootNotDirectory document_root) else mret config
  | _, _ => mret config
  end.

Definition validate_config_for_root : path → ProjectConfig → IO ConfigError ProjectConfig := validate_project_paths.

Definition validate_config_path (project_root : path) (config_path : string) : IO ConfigError unit :=
  canonical_config_path ← canonicalize_utf8 config_path;
  if bool_decide (under project_root canonical_config_path) then mret tt else io_fail (ConfigPathEscapesRoot config_path).

Context (yaml_from_str : string → result string yaml) (apply_merge : yaml → result string yaml).

Definition read_from_root (project_root : string) : IO ConfigError ProjectConfigFile :=
  canonical_root ← canonicalize_utf8 project_root;
  directory ← is_directory canonical_root;
  if negb directory then io_fail (ProjectRootNotDirectory (path_str canonical_root))
  else
    let preferred := path_join (path_str canonical_root) PREFERRED_CONFIG_FILE in
    let alternate := path_join (path_str canonical_root) ALTERNATE_CONFIG_FILE in
    preferred_exists ← path_present preferred;
    alternate_exists ← path_present alternate;
    if preferred_exists && alternate_exists then io_fail (ConfigFileConflict preferred alternate)
    else if preferred_exists || alternate_exists then
      let p := if preferred_exists : bool then preferred else alternate in
      _ ← validate_config_path canonical_root p;
      source ← read_config_file p;
      config ← io_lift (parse yaml_from_str apply_merge source);
      config ← validate_project_paths canonical_root config;
      mret {| cf_path := p; cf_exists := true; cf_config := config |}
    else mret {| cf_path := preferred; cf_exists := false; cf_config := project_config_default |}.

(** ** [write_project_env_file] of [config/src/env.rs] *)

Definition write_project_env_file (p : path) (rendered : RenderedProjectEnv) : IO ConfigError ManagedEnvBlockTransform :=
  existing_content ← read_optional_to_string p;
  _ ← (match existing_content with Some _ => file_mode p | None => mret tt end);
  transform ← io_lift (transform_managed_env_block existing_content rendered);
  if changed transform then
    _ ← write_string_atomically_with_mode p (content transform); mret transform
  else mret transform.
End config.

(** ** Properties *)

(** *** Canonical paths *)

(** Every directory on the way to [p], and [p] itself, is a directory and no link. *)
Definition dirs (fs : Fs) (p : path) : Prop := ∀ q, q ≠ [] → under q p → fs !! q = Some Dir.
(** [p] is a file, reached through directories only. *)
Definition plain_file (fs : Fs) (p : path) : Prop := ∃ d name c, p = d ++ [name] ∧ dirs fs d ∧ fs !! p = Some (File c).

Lemma under_snoc (q d : path) (name : string) : under q (d ++ [name]) → q = d ++ [name] ∨ under q d.
Proof.
  intros [r Hr]. destruct r as [|x r _] using rev_ind; [left; by rewrite app_nil_r in Hr|right].
  rewrite app_assoc in Hr. apply app_inj_tail in Hr as [-> _]. apply under_app.
Qed.

Lemma dirs_nil fs : dirs fs [].
Proof. intros q Hq [r Hr]. destruct q; [done|discriminate]. Qed.
Lemma dirs_snoc fs d name : dirs fs d → fs !! (d ++ [name]) = Some Dir → dirs fs (d ++ [name]).
Proof. intros Hd Hn q Hq [->|Hu]%under_snoc; [done|by apply Hd]. Qed.
Lemma dirs_under fs p q : under q p → dirs fs p → dirs fs q.
Proof. intros Hu Hd r Hr Hrq. apply Hd; [done|]. by eapply under_trans. Qed.
Lemma dirs_removelast fs p : dirs fs p → dirs fs (removelast p).
Proof.
  destruct p as [|x p _] using rev_ind; [done|]. rewrite removelast_last. apply dirs_under, under_app.
Qed.

Lemma follow_cons links fs done_ c rest : follow links fs done_ (c :: rest) =
  match c with
  | RootDir => follow links fs [] rest
  | CurDir => follow links fs done_ rest
  | ParentDir => follow links fs (removelast done_) rest
  | Normal name =>
      match fs !! (done_ ++ [name]) with
      | None => Err ENOENT
      | Some Dir => follow links fs (done_ ++ [name]) rest
      | Some (File _) => match rest with [] => Ok (done_ ++ [name]) | _ => Err ENOTDIR end
      | Some (Link target) =>
          match links with
          | 0 => Err ELOOP
          | S links => follow links fs (if is_absolute target then [] else done_) (components target ++ rest)
          end
      end
  end.
Proof. by destruct links, c. Qed.

Lemma follow_real links fs done_ rest p : dirs fs done_ → follow links fs done_ rest = Ok p → dirs fs p ∨ plain_file fs p.
Proof.
  revert done_ rest. induction links as [links IH] using (well_founded_induction lt_wf). intros done_ rest. revert done_.
  induction rest as [|c rest IHrest]; intros done_ Hd.
  { destruct links; cbn; intros [= <-]; by left. }
  rewrite follow_cons. destruct c as [| | |name]; [by apply IHrest, dirs_nil|by apply IHrest|by apply IHrest, dirs_removelast|].
  destruct (fs !! (done_ ++ [name])) as [[content| |target]|] eqn:Hn; [|by apply IHrest, dirs_snoc| |done].
  - destruct rest; [|done]. intros [= <-]. right. by exists done_, name, content.
  - destruct links as [|links]; [done|]. apply (IH links); [lia|]. destruct (is_absolute target); [apply dirs_nil|done].
Qed.

Lemma canonical_real fs p q : canonical fs p = Ok q → dirs fs q ∨ plain_file fs q.
Proof. apply follow_real, dirs_nil. Qed.

(** *** Where the env file is *)

Section config_proofs.
Context `{Host}.

(** [p] is below [root], reached through directories that are no links, and is a file or
    nothing. *)
Record confined (fs : Fs) (root p : path) : Prop := {
  confined_under : under root p;
  confined_parent : ∃ d name, p = d ++ [name] ∧ dirs fs d ∧ under root d;
  confined_node : fs !! p = None ∨ ∃ c, fs !! p = Some (File c);
}.

Lemma query_result {A : Type} (f : Fs → result IoError A) w :
  files (query f w).2 = files w ∧ ∀ a, (query f w).1 = Ok a → f (files w) = Ok a.
Proof.
  unfold query, syscall. destruct (fault_at (clock w)); [done|]. destruct (f (files w)) eqn:Hf; cbn; [|done].
  split; [done|]. by intros ? [= <-].
Qed.

(** Reading: the files stay, and an answer is one of the tree's. *)
Definition reads {A : Type} (m : IO ConfigError A) (Q : A → Fs → Prop) : Prop :=
  ∀ w, files (m w).2 = files w ∧ ∀ a, (m w).1 = Ok a → Q a (files w).

Lemma reads_bind {A B : Type} (m : IO ConfigError A) (f : A → IO ConfigError B) Q R :
  reads m Q → (∀ a, reads (f a) (λ b s, Q a s → R b s)) → reads (m ≫= f) R.
Proof.
  intros Hm Hf w. specialize (Hm w). unfold mbind, io_bind. destruct (m w) as [[a|e] w1]; cbn in *; [|by split; [apply Hm|]].
  destruct Hm as [Hs Ha]. specialize (Hf a w1). rewrite Hs in Hf. destruct Hf as [Hs' Hr]. split; [done|].
  intros b Hb. by apply Hr, Ha.
Qed.
Lemma reads_ret {A : Type} (a : A) (Q : A → Fs → Prop) : (∀ s, Q a s) → reads (mret a) Q.
Proof. intros HQ w. split; [done|]. intros ? [= <-]. apply HQ. Qed.
Lemma reads_fail {A : Type} e (Q : A → Fs → Prop) : reads (io_fail e) Q.
Proof. by intros w; split. Qed.

Lemma reads_canonicalize p : reads (canonicalize_utf8 p) (λ q s, canonical s (components p) = Ok q).
Proof.
  intros w. unfold canonicalize_utf8, io_map_err. pose proof (query_result (λ fs, canonical fs (components p)) w) as [Hs Hq].
  destruct (query _ w) as [[q|e] w1]; cbn in *; [|by split]. split; [done|]. intros a [= <-]. by apply Hq.
Qed.
Lemma reads_parent parent env_file : reads (canonical_parent_of parent env_file) (λ q s, canonical s parent = Ok q).
Proof.
  intros w. unfold canonical_parent_of. pose proof (query_result (λ fs, canonical fs parent) w) as [Hs Hq].
  destruct (query _ w) as [[q|e] w1]; cbn in *; [|by destruct (config_kind e); split]. split; [done|]. intros a [= <-]. by apply Hq.
Qed.
Lemma reads_directory p : reads (is_directory p) (λ b s, b = bool_decide (node_at s p = Some Dir)).
Proof.
  intros w. unfold is_directory, io_map_err.
  pose proof (query_result (λ fs, n ← ok_or (node_at fs p) ENOENT; Ok (bool_decide (n = Dir))) w) as [Hs Hq].
  destruct (query _ w) as [[b|e] w1]; cbn in *; [|by split]. split; [done|]. intros a [= <-]. specialize (Hq b eq_refl).
  destruct (node_at (files w) p) as [n|]; [|done]. injection Hq as <-. apply bool_decide_ext. split; congruence.
Qed.

(** An entry that is not there is absent from the directory its parent leads to. *)
Lemma reads_present p : reads (path_present p) (λ b s, b = false → ∀ parent name d,
  components p = parent ++ [Normal name] → canonical s parent = Ok d → node_at s d = Some Dir → s !! (d ++ [name]) = None).
Proof.
  intros w. unfold path_present, query, syscall. destruct (fault_at (clock w)) as [f|].
  { cbn. unfold config_kind, fault_error. cbn. by destruct (bool_decide _); cbn; split. }
  destruct (entry_at (files w) (components p)) as [n|e] eqn:He; cbn; [split; [done|]; by intros ? [= <-]|].
  destruct (config_kind e); cbn; split; try done. intros b [= <-] _ parent name d Hp Hd Hdir.
  unfold entry_at in He. rewrite Hp, last_snoc, removelast_last, Hd in He. cbn in He.
  rewrite bool_decide_eq_true_2 in He by done. by destruct (files w !! (d ++ [name])).
Qed.

Lemma node_dirs fs p : dirs fs p ∨ plain_file fs p → node_at fs p = Some Dir → dirs fs p.
Proof.
  intros [Hd|(d & name & c & -> & _ & Hf)] Hn; [done|]. unfold node_at in Hn.
  rewrite bool_decide_eq_false_2 in Hn by (by destruct d). congruence.
Qed.
Lemma node_file fs p : dirs fs p ∨ plain_file fs p → node_at fs p ≠ Some Dir → plain_file fs p.
Proof.
  intros [Hd|Hp] Hn; [|done]. exfalso. apply Hn. unfold node_at. case_bool_decide; [done|]. by apply Hd, under_refl.
Qed.

Lemma confined_file fs root p : under root p → dirs fs root → plain_file fs p → confined fs root p.
Proof.
  intros Hu Hr (d & name & c & -> & Hd & Hf). split; [done| |right; by exists c]. exists d, name. split_and!; [done..|].
  apply under_snoc in Hu as [->|Hu]; [|done]. specialize (Hr (d ++ [name])). rewrite Hf in Hr.
  discriminate Hr; [by destruct d|apply under_refl].
Qed.

(** Any shape but one that ends in a name has no file name. *)
Lemma file_name_last p name : Paths.file_name p = Some name → components p = removelast (components p) ++ [Normal name].
Proof.
  unfold Paths.file_name. destruct (components p) as [|x l _] using rev_ind; [done|]. rewrite last_snoc, removelast_last.
  destruct x; [done..|]. by intros [= ->].
Qed.

(** A file or nothing: no directory, no link. *)
Definition file_or_absent (s : Fs) (p : path) : Prop := s !! p = None ∨ ∃ c, s !! p = Some (File c).

Definition env_file_confined (project_root : string) (p : path) (s : Fs) : Prop :=
  (∃ d name, p = d ++ [name]) ∧ file_or_absent s p
  ∧ ∀ root, canonical s (components project_root) = Ok root → dirs s root → confined s root p.

Lemma resolve_reads project_root config : reads (resolve_project_env_file_path project_root config) (env_file_confined project_root).
Proof.
  unfold resolve_project_env_file_path. eapply reads_bind; [apply reads_canonicalize|intros root].
  set (target := path_join (path_str root) _). eapply reads_bind; [apply reads_present|intros present].
  destruct present.
  - eapply reads_bind; [apply reads_canonicalize|intros q]. case_bool_decide as Hu; cbn [negb]; [|apply reads_fail].
    eapply reads_bind; [apply reads_directory|intros directory]. destruct directory; [apply reads_fail|].
    apply reads_ret. intros s Hdir Hq _ Hroot. symmetry in Hdir. apply bool_decide_eq_false in Hdir.
    assert (plain_file s q) as Hplain by (apply node_file; [by eapply canonical_real|done]). split_and!.
    + destruct Hplain as (d & name & c & -> & _). by exists d, name.
    + destruct Hplain as (d & name & c & _ & _ & Hc). right. by exists c.
    + intros root' Hroot' Hreal. rewrite Hroot in Hroot'. injection Hroot' as <-. by apply confined_file.
  - destruct (path_parent (components target)) as [parent|] eqn:Hparent; [|apply reads_fail].
    eapply reads_bind; [apply reads_parent|intros d]. case_bool_decide as Hu; cbn [negb]; [|apply reads_fail].
    eapply reads_bind; [apply reads_directory|intros directory]. destruct directory; cbn [negb]; [|apply reads_fail].
    destruct (Paths.file_name target) as [name|] eqn:Hname; [|apply reads_fail].
    apply reads_ret. intros s Hdir Hd Habsent Hroot. symmetry in Hdir. apply bool_decide_eq_true in Hdir.
    apply file_name_last in Hname. unfold path_parent in Hparent. rewrite Hname, last_snoc, removelast_last in Hparent. injection Hparent as <-.
    assert (s !! (d ++ [name]) = None) as Hnone by (by eapply Habsent). split_and!; [by exists d, name|by left|].
    intros root' Hroot' Hreal. rewrite Hroot in Hroot'. injection Hroot' as <-.
    split; [eapply under_trans; [exact Hu|apply under_app]| |by left].
    exists d, name. split_and!; [done| |done]. apply node_dirs; [by eapply canonical_real|done].
Qed.

(** C34: The env file that is written is always inside the project. Whatever symbolic links
    there are, a path that [resolve_project_env_file_path] accepts is below the canonical
    root of the project, every directory on the way to it is a real one, and it is itself
    a file or absent, never a link or a directory: writing there, or beside it, cannot
    leave the project. Nothing is changed by looking. *)
Theorem resolve_project_env_file_path_confined project_root config w :
  let '(r, w') := resolve_project_env_file_path project_root config w in
  files w' = files w
  ∧ ∀ p, r = Ok p → ∃ root, canonical (files w) (components project_root) = Ok root
      ∧ (dirs (files w) root → confined (files w) root p).
Proof.
  pose proof (resolve_reads project_root config w) as [Hs Hr].
  assert (∀ p, (resolve_project_env_file_path project_root config w).1 = Ok p →
    ∃ root, canonical (files w) (components project_root) = Ok root) as Hroot.
  { intros p. unfold resolve_project_env_file_path. unfold mbind at 1, io_bind.
    pose proof (reads_canonicalize project_root w) as [_ Hc]. destruct (canonicalize_utf8 project_root w) as [[root|e] w1]; [|done].
    intros _. exists root. by apply Hc. }
  destruct (resolve_project_env_file_path project_root config w) as [r w']. cbn in *. split; [done|].
  intros p ->. destruct (Hroot p eq_refl) as [root Hc]. exists root. split; [done|]. intros Hd. destruct (Hr p eq_refl) as (_ & _ & Hconf). by apply Hconf.
Qed.

(** *** Writing *)

(** Only [p] and its temporary file may change, and what would be below them. *)
Definition beside (p q : path) : Prop := under p q ∨ ∃ t, temporary p t ∧ under t q.

Section write.
Variables (dir : path) (name content : string) (s0 : Fs).
Let p : path := dir ++ [name].

(** The outcome: the whole new text, or the old file. *)
Definition env_written (s : Fs) : Prop := s !! p = Some (File content) ∧ others (beside p) s0 s.
Definition env_kept (s : Fs) : Prop := s !! p = s0 !! p ∧ others (beside p) s0 s.
(** While the temporary file is written, nothing else changes. *)
Definition pending (t : path) (s : Fs) : Prop := others (λ q, q = t) s0 s ∧ is_link (s !! t) = false.

Lemma temporary_beside t : temporary p t → t ≠ p ∧ ¬ under t p ∧ ¬ under p t.
Proof. intros Ht. by destruct (temporary_apart dir name t Ht) as (? & ? & ? & _). Qed.

Lemma others_kept t s : temporary p t → others (λ q, q = t) s0 s → env_kept s.
Proof.
  intros Ht Ho. destruct (temporary_beside t Ht) as [Hne _]. split; [by apply Ho; intros ->|].
  intros q Hq. apply Ho. intros ->. apply Hq. right. exists t. split; [done|apply under_refl].
Qed.

Lemma pending_insert t c s : pending t s → pending t (<[t := File c]> s).
Proof.
  intros [Ho Hl]. split; [|by rewrite lookup_insert_eq]. intros q Hq. rewrite lookup_insert_ne by done. by apply Ho.
Qed.

Lemma create_temporary t : hoare (λ s, s = s0) (at_path t (std_create_new t)) (λ _ s, pending t s) (λ s, others (λ q, q = t) s0 s).
Proof.
  apply hoare_map_err, hoare_syscall; [|by intros s ->|by intros f s ->].
  intros s [] s' ->. destruct (s0 !! t) eqn:Hn; cbn; [done|]. destruct (parent_is_dir t s0); [|done]. intros [= <-].
  split; [|by rewrite lookup_insert_eq]. intros q Hq. by rewrite lookup_insert_ne.
Qed.

Lemma fill_temporary t : hoare (pending t) (at_path t (std_write t content))
  (λ _ s, pending t s ∧ s !! t = Some (File content)) (λ s, others (λ q, q = t) s0 s).
Proof.
  apply hoare_map_err. eapply hoare_conseq; [by intros s Hs; exact Hs| | |apply (hoare_std_write (pending t))].
  - cbn. intros _ s (s1 & Hs & ->). split; [by apply pending_insert|by rewrite lookup_insert_eq].
  - intros s [[Hs _]|(s1 & c & Hs & ->)]; [done|by eapply pending_insert in Hs as [Hs _]].
  - by intros s [_ Hl].
Qed.

Lemma write_temporary_hoare t : hoare (λ s, s = s0) (write_temporary_file t content)
  (λ _ s, pending t s ∧ s !! t = Some (File content)) (λ s, others (λ q, q = t) s0 s).
Proof.
  unfold write_temporary_file. eapply hoare_seq; [apply create_temporary|].
  eapply (hoare_seq _ (pending t)); [apply hoare_look; [apply changes_at_path, changes_query|by intros s []]|].
  eapply hoare_seq; [apply fill_temporary|]. apply hoare_look; [apply changes_at_path, changes_query|by intros s [[Hs _] _]].
Qed.

Lemma promote_env t : temporary p t → hoare (λ s, pending t s ∧ s !! t = Some (File content)) (rename t p)
  (λ _, env_written) (λ s, others (λ q, q = t) s0 s).
Proof.
  intros Ht. apply hoare_map_err. apply (hoare_err (λ s, pending t s ∧ s !! t = Some (File content))); [by intros s [[Hs _] _]|].
  eapply hoare_conseq; [by intros s Hs; exact Hs| |by intros s Hs; exact Hs|apply hoare_std_rename].
  cbn. intros _ s (s1 & [[Ho _] Hc] & ->). split.
  - rewrite lookup_rename, decide_True by apply under_refl. by rewrite drop_all, app_nil_r.
  - intros q Hq. rewrite lookup_rename, !decide_False; [apply Ho| |].
    + intros ->. apply Hq. right. exists t. split; [done|apply under_refl].
    + intros Hu. apply Hq. right. by exists t.
    + intros Hu. apply Hq. by left.
Qed.

(** Removing the temporary file keeps the rest. *)
Lemma remove_temporary_kept t w : temporary p t → others (λ q, q = t) s0 (files w) →
  env_kept (files (remove_file_if_exists t w).2).
Proof.
  intros Ht Ho. apply (others_kept t); [done|]. intros q Hq.
  assert (changes (λ q, q = t) (remove_file_if_exists t)) as Hc by (apply changes_or_missing, changes_at_path, changes_std_remove_file).
  rewrite (Hc w q Hq). by apply Ho.
Qed.

Lemma write_string_hoare : hoare (λ s, s = s0) (write_string_atomically p content) (λ _, env_written)
  (λ s, env_kept s ∨ env_written s).
Proof.
  unfold write_string_atomically. eapply (hoare_bind _ _ _ (λ t s, temporary p t ∧ s = s0)).
  { unfold temporary_path_for. eapply hoare_bind; [apply hoare_counter|]. intros n w Hw. split; [by exists n|exact Hw]. }
  intros t. apply hoare_pure. intros Ht. eapply (hoare_seq _ env_written).
  - assert (hoare (λ s, s = s0) (_ ← write_temporary_file t content; rename t p) (λ _, env_written) (λ s, others (λ q, q = t) s0 s)) as Hw
      by (eapply hoare_seq; [apply write_temporary_hoare|by apply promote_env]).
    intros w Hs. specialize (Hw w Hs). unfold or_else_remove.
    destruct ((_ ← write_temporary_file t content; rename t p) w) as [[a|e] w1]; [done|]. left. by apply remove_temporary_kept.
  - apply hoare_look; [|by right]. unfold sync_parent_directory. destruct (parent p); [apply changes_at_path, changes_query|apply changes_ret].
Qed.
End write.

(** *** The env file *)

Definition text_at (p : path) (s : Fs) : option string := match s !! p with Some (File c) => Some c | _ => None end.
Definition user_lines_of (text : option string) : list string := user_lines false (split_env_lines (default "" text)).

Lemma read_optional_hoare p s0 : file_or_absent s0 p →
  hoare (λ s, s = s0) (read_optional_to_string p) (λ text s, text = text_at p s0 ∧ s = s0) (λ s, s = s0).
Proof.
  intros Hp w Hw. unfold read_optional_to_string, std_read_to_string, query, syscall.
  destruct (fault_at (clock w)) as [f|]; [cbn; unfold config_kind, fault_error; cbn; by destruct (bool_decide _)|].
  cbn. rewrite Hw. unfold read_node, text_at. destruct Hp as [Hn|[c Hc]].
  - rewrite resolve_plain by (by rewrite Hn). by rewrite Hn.
  - rewrite resolve_plain by (by rewrite Hc). by rewrite Hc.
Qed.

Lemma write_env_hoare dir name rendered s0 : file_or_absent s0 (dir ++ [name]) →
  let p := dir ++ [name] in
  hoare (λ s, s = s0) (write_project_env_file p rendered)
    (λ t s, transform_managed_env_block (text_at p s0) rendered = Ok t
      ∧ if changed t then env_written dir name (content t) s0 s else s = s0)
    (λ s, env_kept dir name s0 s
      ∨ ∃ t, transform_managed_env_block (text_at p s0) rendered = Ok t ∧ env_written dir name (content t) s0 s).
Proof.
  intros Hp p. assert (∀ s, s = s0 → env_kept dir name s0 s) as Hsame by (by intros s ->).
  unfold write_project_env_file. eapply (hoare_bind _ _ _ (λ text s, text = text_at p s0 ∧ s = s0)).
  { intros w Hw. pose proof (read_optional_hoare p s0 Hp w Hw) as Hr. destruct (read_optional_to_string p w) as [[x|e] w1]; [exact Hr|left; by apply Hsame]. }
  intros text. apply hoare_pure. intros ->. eapply (hoare_seq _ (λ s, s = s0)).
  { destruct (text_at p s0); [|by intros w Hw]. apply hoare_look; [|intros s1 Hs; left; by apply Hsame].
    unfold file_mode. apply changes_map_err, changes_bind; [apply changes_query|intros ?; apply changes_ret]. }
  destruct (transform_managed_env_block (text_at p s0) rendered) as [t|e]; [|intros w Hw; left; by apply Hsame].
  intros w Hw. unfold mbind, io_bind, io_lift. destruct (changed t) eqn:Hc; [|by cbn; rewrite Hc].
  pose proof (write_string_hoare dir name (content t) s0 w Hw) as Hs. unfold write_string_atomically_with_mode, io_map_err.
  change (dir ++ [name]) with p in Hs. destruct (write_string_atomically p (content t) w) as [[u|e] w1]; cbn; [by rewrite Hc|].
  destruct Hs as [Hs|Hs]; [by left|right]. by exists t.
Qed.

(** Writing the env file loses nothing of the user's. Whatever fails on the way, the
    env file is afterwards the old one or the whole rewritten one, never a part of it, the
    lines outside PV's block are the user's, and nothing but the file and its temporary
    changed. Success means that the text is the transformed one. *)
Theorem write_project_env_file_spec dir name rendered w :
  let p := dir ++ [name] in
  env_keys_ok rendered → file_or_absent (files w) p →
  let '(r, w') := write_project_env_file p rendered w in
  let before := text_at p (files w) in
  let after := text_at p (files w') in
  others (beside p) (files w) (files w')
  ∧ user_lines_of after = user_lines_of before
  ∧ match r with
    | Ok t => transform_managed_env_block before rendered = Ok t ∧ if changed t then after = Some (content t) else files w' = files w
    | Err _ => after = before ∨ ∃ t, transform_managed_env_block before rendered = Ok t ∧ after = Some (content t)
    end.
Proof.
  intros p Hk Hp. pose proof (write_env_hoare dir name rendered (files w) Hp w eq_refl) as Hw.
  change (dir ++ [name]) with p in Hw. cbn zeta in Hw.
  assert (∀ t s, transform_managed_env_block (text_at p (files w)) rendered = Ok t → env_written dir name (content t) (files w) s →
    user_lines_of (text_at p s) = user_lines_of (text_at p (files w)) ∧ text_at p s = Some (content t)) as Hwritten.
  { intros t s Ht [Hs _]. change (dir ++ [name]) with p in Hs. unfold text_at at 1 3. rewrite Hs. split; [|done]. by apply (transform_user_lines _ rendered). }
  destruct (write_project_env_file p rendered w) as [[t|e] w1].
  - destruct Hw as [Ht Hw]. destruct (changed t) eqn:Hc; [|by rewrite Hw].
    destruct (Hwritten t _ Ht Hw) as [Hu Ha]. split_and!; [apply Hw|done..].
  - destruct Hw as [[Hw Ho]|(t & Ht & Hw)].
    + change (dir ++ [name]) with p in Hw. assert (text_at p (files w1) = text_at p (files w)) as -> by (unfold text_at; by rewrite Hw).
      by split_and!; [|done|left].
    + destruct (Hwritten t _ Ht Hw) as [Hu Ha]. split_and!; [apply Hw|done|right]. by exists t.
Qed.
End config_proofs.

(** *** A configuration that was read is well formed, and renders proper keys *)

Lemma rendered_keys_ok c cx r : config_wf c → render_project_env c cx = Ok r → env_keys_ok r.
Proof.
  intros Hwf (pv & _ & Hr)%rendered_exactly k v Hk. apply Hr in Hk.
  assert (∀ scope (m : gmap string string) f cv serve k e, env_wf scope m → mapping_entry f m cv serve k e → is_env_key k = true) as Hkey.
  { intros scope m f cv serve k' e Hm (v' & Hv' & _). by apply (Hm k' v'). }
  assert (by_allocation c cx pv k v → is_env_key k = true) as Ha.
  { intros (e & rn & rc & an & ac & Hrc & Hac & (rx & ax & _ & _ & He) & _). eapply Hkey; [|exact He].
    destruct (rwf_allocations _ _ (cwf_resources _ Hwf _ _ Hrc)) as [Hal _]. by apply (Hal an ac). }
  assert (by_resource c cx pv k v → is_env_key k = true) as Hb.
  { intros (e & rn & rc & Hrc & (rx & _ & He) & _). eapply Hkey; [|exact He]. apply (rwf_env _ _ (cwf_resources _ Hwf _ _ Hrc)). }
  destruct Hk as [?|[_ [?|[_ (e & He & _)]]]]; [by apply Ha|by apply Hb|]. eapply Hkey; [apply (cwf_env _ Hwf)|exact He].
Qed.

Lemma paths_give `{Host} root config : gives (validate_project_paths root config) (λ config', config' = config).
Proof.
  unfold validate_project_paths. do 2 (apply gives_seq; intros _). destruct (serve config); [|by apply gives_ret].
  destruct (document_root config) as [document_root|]; [|by apply gives_ret]. apply gives_seq. intros canonical_root.
  destruct (negb _); [apply gives_fail|]. apply gives_seq. intros directory. destruct (negb directory); [apply gives_fail|by apply gives_ret].
Qed.

Lemma read_config_wf `{Host} yaml_from_str apply_merge root :
  gives (read_from_root yaml_from_str apply_merge root) (λ config_file, config_wf (cf_config config_file)).
Proof.
  unfold read_from_root. do 2 (apply gives_seq; intros ?). destruct (negb _); [apply gives_fail|]. cbn zeta.
  do 2 (apply gives_seq; intros ?). destruct (_ && _); [apply gives_fail|].
  destruct (_ || _); [|apply gives_ret, project_config_default_wf]. do 2 (apply gives_seq; intros ?).
  eapply gives_bind; [apply gives_lift; intros config Hc; exact (parsed_config_wf _ _ _ _ Hc)|]. intros config Hwf.
  eapply gives_bind; [apply paths_give|]. intros config' ->. by apply gives_ret.
Qed.

(** *** A project whose env file is reached through links *)

Definition shop : World :=
  {| files := list_to_map [(["home"], Dir); (["home"; "shop"], Dir); (["home"; "shop"; "env"], Dir);
       (["home"; "shop"; "env"; "local"], File sample_env_file); (["home"; "shop"; ".env"], Link "env/local");
       (["home"; "shop"; "away"], Link "../secret"); (["home"; "secret"], Dir); (["home"; "work"], Link "/home/shop")];
     clock := 0; counter := 0 |}.

Definition with_env_file (env_file : string) : ProjectConfig := {|
  serve := false; env_file := env_file; php := None; document_root := None; hostnames := []; env := ∅; resources := ∅ |}.

(** Links are followed to the file that is written; one that leaves the project is refused. *)
Example links_are_followed :
  (resolve_project_env_file_path (H := faulty_host None) "/home/work" (with_env_file ".env") shop).1
    = Ok ["home"; "shop"; "env"; "local"]
  ∧ (resolve_project_env_file_path (H := faulty_host None) "/home/work" (with_env_file "away/.env") shop).1
    = Err (EnvFileEscapesProject "away/.env")
  ∧ (resolve_project_env_file_path (H := faulty_host None) "/home/work" (with_env_file "env") shop).1 = Err (EnvFileNotFile "env")
  ∧ (resolve_project_env_file_path (H := faulty_host None) "/home/work" (with_env_file "missing/.env") shop).1
    = Err (EnvFileParentNotDirectory "missing/.env").
Proof. by vm_compute. Qed.

Definition env_text_of (h : Host) : option string :=
  text_at ["home"; "shop"; "env"; "local"] (files (write_project_env_file (H := h) ["home"; "shop"; "env"; "local"] sample_rendered shop).2).

Lemma write_project_env_file_spec_witness :
  user_lines_of (env_text_of (faulty_host None)) = ["APP=1"; ""; "DB_URL=mine"; "LAST=x"]
  ∧ user_lines_of (env_text_of (faulty_host (Some 4))) = ["APP=1"; ""; "DB_URL=mine"; "LAST=x"].
Proof.
  assert (∀ h, user_lines_of (env_text_of h) = ["APP=1"; ""; "DB_URL=mine"; "LAST=x"]) as Hall; [|exact (conj (Hall _) (Hall _))].
  intros h. pose proof (write_project_env_file_spec (H := h) ["home"; "shop"; "env"] "local" sample_rendered shop sample_keys_ok) as Hw.
  cbn zeta in Hw. unfold env_text_of. change (["home"; "shop"; "env"] ++ ["local"]) with ["home"; "shop"; "env"; "local"] in Hw.
  destruct (write_project_env_file _ _ _) as [r w']. destruct Hw as (_ & Hu & _); [right; by exists sample_env_file|].
  cbn [snd]. rewrite Hu. by vm_compute.
Defined.
