(* ===== verification/PhpRuntimes.v ===== *)
(** * Installed PHP extensions, their overlay and the defaults of a PHP track
    ([resources/src/php_extensions.rs], [resources/src/php_defaults.rs]), over PV's files

    [serde_json] is a parameter, and so is the text of [php-defaults.ini]. *)

From S2P Require Import Prelude RustStr Paths Identity Manifest HostFs StateFs StatePaths Errors.
From S2P Require StateTypes.
Import StateTypes (StateError, SqliteError).

Definition PHP_EXTENSION_METADATA_PATH : string := "share/pv/php-extensions.json".
Definition SUPPORTED_PHP_TRACKS : list string := ["8.3"; "8.4"; "8.5"].

Record RawPhpExtensionModule := { rp_name : string; rp_load_kind : string; rp_path : string }.
Record PhpExtensionResolution := {
  pr_requested : list string; pr_loaded : list PhpExtensionModule; pr_ignored : list string;
}.

Definition invalid_php_layout (reason : string) : ResourcesError := InvalidArtifactLayout "php" reason.

Definition validate_extension_name (name : string) : result ResourcesError unit :=
  if negb (is_empty name) && str_all php_extension_name_char name then Ok tt
  else Err (invalid_php_layout ("invalid PHP extension name " +:+ tick name)).

Definition validate_relative_path (p : string) : result ResourcesError string :=
  if is_empty p || contains BACKSLASH p || existsb is_empty (split SEPARATOR p) || is_absolute p
     || existsb (λ c, bool_decide (c = CurDir) || bool_decide (c = ParentDir)) (components p)
  then Err (invalid_php_layout ("invalid PHP extension path " +:+ tick p))
  else Ok p.

Definition module_from_raw (raw : RawPhpExtensionModule) : result ResourcesError PhpExtensionModule :=
  _ ← validate_extension_name (rp_name raw);
  relative_path ← validate_relative_path (rp_path raw);
  load_kind ← (if bool_decide (rp_load_kind raw = "extension") then Ok Extension
               else if bool_decide (rp_load_kind raw = "zend_extension") then Ok ZendExtension
               else Err (invalid_php_layout ("invalid PHP extension load kind " +:+ tick (rp_load_kind raw))));
  Ok {| px_name := rp_name raw; px_load_kind := load_kind; px_relative_path := relative_path |}.

Definition from_fs_error (e : FsError) : StateError := StateTypes.Filesystem (path_str (fs_path e)) (io_text (fs_source e)).

Section host.
Context `{Host} (sqlite_display : SqliteError → string) (time_format_error : string).
Context (parse_modules : string → result string (list RawPhpExtensionModule)).

Definition resources_error_from_state (e : StateError) : ResourcesError :=
  match e with
  | StateTypes.Filesystem p source => Identity.Filesystem p source
  | e => invalid_php_layout (state_error_display sqlite_display time_format_error e)
  end.

Definition on_state {A : Type} (m : IO FsError A) : IO ResourcesError A :=
  io_map_err (λ e, resources_error_from_state (from_fs_error e)) m.

(** ** The extensions an artifact declares *)

Fixpoint read_modules (artifact_root : path) (names : gset string) (raw_modules : list RawPhpExtensionModule) :
    IO ResourcesError (list PhpExtensionModule) :=
  match raw_modules with
  | [] => mret []
  | raw :: raw_modules =>
      module ← io_lift (module_from_raw raw);
      if bool_decide (px_name module ∈ names) then io_fail (invalid_php_layout ("duplicate PHP extension " +:+ tick (px_name module)))
      else
        let module_path := join_path artifact_root (px_relative_path module) in
        is_file ← on_state (path_is_file module_path);
        if negb is_file then io_fail (invalid_php_layout ("PHP extension module " +:+ tick (path_str module_path) +:+ " is missing"))
        else modules ← read_modules artifact_root ({[px_name module]} ∪ names) raw_modules; mret (module :: modules)
  end.

Definition read_php_extension_metadata (artifact_root : path) : IO ResourcesError (list PhpExtensionModule) :=
  let p := join_path artifact_root PHP_EXTENSION_METADATA_PATH in
  present ← on_state (path_entry_exists p);
  if negb present then mret []
  else
    source ← on_state (read_to_string p);
    raw_modules ← io_lift (map_err (λ e, invalid_php_layout ("invalid PHP extension metadata: " +:+ e)) (parse_modules source));
    read_modules artifact_root ∅ raw_modules.

(** ** What a project requests *)

Definition declares (catalog : list PhpExtensionModule) (name : string) : bool :=
  existsb (λ module, bool_decide (px_name module = name)) catalog.

(** One step of the loop over the requested names: the set of them, and the ignored. *)
Definition request_step (catalog : list PhpExtensionModule) (acc : gset string * list string) (name : string) :
    gset string * list string :=
  let '(requested_unique, ignored) := acc in
  if bool_decide (name ∈ requested_unique) then acc
  else ({[name]} ∪ requested_unique, if declares catalog name then ignored else ignored ++ [name]).

Definition loaded_of (catalog : list PhpExtensionModule) (unique : gset string) : list PhpExtensionModule :=
  List.filter (λ module, bool_decide (px_name module ∈ unique)) catalog.

Definition resolve_php_extension_request (artifact_root : path) (requested : list string) :
    IO ResourcesError PhpExtensionResolution :=
  catalog ← read_php_extension_metadata artifact_root;
  let '(requested_unique, ignored) := foldl (request_step catalog) (∅, []) requested in
  mret {| pr_requested := requested; pr_loaded := loaded_of catalog requested_unique; pr_ignored := ignored |}.

Definition persisted_missing (name : string) : ResourcesError :=
  invalid_php_layout ("persisted PHP extension " +:+ tick name +:+ " is missing from installed artifact metadata").

Definition persisted_step (catalog : list PhpExtensionModule) (loaded_unique : gset string) (name : string) :
    result ResourcesError (gset string) :=
  if bool_decide (name ∈ loaded_unique) then Ok loaded_unique
  else if declares catalog name then Ok ({[name]} ∪ loaded_unique)
  else Err (persisted_missing name).

Definition resolve_persisted_php_extension_modules (artifact_root : path) (loaded_extensions : list string) :
    IO ResourcesError (list PhpExtensionModule) :=
  match loaded_extensions with
  | [] => mret []
  | _ =>
      catalog ← read_php_extension_metadata artifact_root;
      loaded_unique ← io_lift (try_fold (persisted_step catalog) loaded_extensions ∅);
      mret (loaded_of catalog loaded_unique)
  end.

(** ** The overlay of a runtime *)

Variable paths : PvPaths.

Definition overlay_dir (runtime_key : string) : path :=
  join_path (join_path (join_path (pv_config paths) "php-runtimes") runtime_key) "conf.d".

Definition ini_name (index : nat) (module : PhpExtensionModule) : string :=
  show_nat (10 + index * 10) +:+ "-" +:+ px_name module +:+ ".ini".
Definition directive (k : PhpExtensionLoadKind) : string :=
  match k with Extension => "extension" | ZendExtension => "zend_extension" end.
Definition ini_text (artifact_root : path) (module : PhpExtensionModule) : string :=
  directive (px_load_kind module) +:+ "=" +:+ path_str (join_path artifact_root (px_relative_path module)) +:+ String NEWLINE "".

Fixpoint write_inis (conf_dir artifact_root : path) (index : nat) (modules : list PhpExtensionModule) : IO ResourcesError unit :=
  match modules with
  | [] => mret tt
  | module :: modules =>
      _ ← on_state (write_sensitive_file (join_path conf_dir (ini_name index module)) (ini_text artifact_root module));
      write_inis conf_dir artifact_root (S index) modules
  end.

Definition ensure_php_runtime_overlay (runtime_key : string) (artifact_root : path) (modules : list PhpExtensionModule) :
    IO ResourcesError path :=
  let conf_dir := overlay_dir runtime_key in
  _ ← on_state (or_missing tt (delete_dir_all conf_dir));
  _ ← on_state (ensure_user_dir conf_dir);
  _ ← write_inis conf_dir artifact_root 0 modules;
  mret conf_dir.

(** ** The defaults of a track *)

Record PhpTrackDefaults := { etc_dir : path; php_ini : path; conf_dir : path }.

Definition ensure_supported_track (track : string) : result StateError unit :=
  if bool_decide (track ∈ SUPPORTED_PHP_TRACKS) then Ok tt else Err (StateTypes.InvalidProjectTrack track).

Definition php_track_defaults_for_supported_track (track : string) : PhpTrackDefaults :=
  let etc_dir := join_path (pv_resources paths) ("php/" +:+ track +:+ "/etc") in
  {| etc_dir := etc_dir; php_ini := join_path etc_dir "php.ini"; conf_dir := join_path etc_dir "conf.d" |}.

Definition php_track_defaults (track : string) : result StateError PhpTrackDefaults :=
  _ ← ensure_supported_track track; Ok (php_track_defaults_for_supported_track track).

Variable PHP_TRACK_DEFAULT_INI : string.

Definition io_other (text : string) : IoError := {| io_kind := OtherKind; io_text := text |}.

Definition ensure_directory_path (p : path) (name : string) : IO FsError unit :=
  present ← StateFs.path_entry_exists p;
  directory ← (if present : bool then StateFs.path_is_directory p else mret true);
  if negb directory then io_fail (fs_error p (io_other ("PHP track defaults " +:+ name +:+ " path is not a directory")))
  else ensure_user_dir p.

Definition ensure_php_ini_path (p : path) : IO FsError unit :=
  present ← StateFs.path_entry_exists p;
  if negb present then write_sensitive_file p PHP_TRACK_DEFAULT_INI
  else
    file ← path_is_file p;
    if negb file then io_fail (fs_error p (io_other "PHP track defaults php.ini path is not a file"))
    else _ ← read_to_string p; mret tt.

Definition ensure_php_track_defaults (track : string) : IO StateError PhpTrackDefaults :=
  defaults ← io_lift (php_track_defaults track);
  _ ← io_map_err from_fs_error (ensure_directory_path (etc_dir defaults) "etc");
  _ ← io_map_err from_fs_error (ensure_directory_path (conf_dir defaults) "conf.d");
  _ ← io_map_err from_fs_error (ensure_php_ini_path (php_ini defaults));
  mret defaults.

Definition php_track_environment (track : string) : result StateError (gmap string string) :=
  defaults ← php_track_defaults track;
  Ok {[ "PHPRC" := path_str (etc_dir defaults); "PHP_INI_SCAN_DIR" := path_str (conf_dir defaults) ]}.

(** [.into_iter()] of a [BTreeMap], as [OsString]s. *)
Definition php_track_exec_environment (track : string) : result StateError (list (string * string)) :=
  environment ← php_track_environment track; Ok (btree_iter environment).

Definition php_runtime_environment (track runtime_key : string) (artifact_root : path) (modules : list PhpExtensionModule) :
    IO ResourcesError (gmap string string) :=
  environment ← io_lift (map_err resources_error_from_state (php_track_environment track));
  if negb (bool_decide (modules = [])) then
    overlay ← ensure_php_runtime_overlay runtime_key artifact_root modules;
    let scan_dir := default "" (environment !! "PHP_INI_SCAN_DIR") in
    let scan_dir := if is_empty scan_dir then scan_dir else scan_dir +:+ ":" in
    mret (<["PHP_INI_SCAN_DIR" := scan_dir +:+ path_str overlay]> environment)
  else mret environment.

Definition php_runtime_exec_environment (track runtime_key : string) (artifact_root : path) (modules : list PhpExtensionModule) :
    IO ResourcesError (list (string * string)) :=
  environment ← php_runtime_environment track runtime_key artifact_root modules; mret (btree_iter environment).
End host.

(** ** Properties *)

(** *** Calls that only read *)

Section views.
Context `{Host}.

(** Every call succeeds if the tree lets it. *)
Definition faultless : Prop := ∀ n, fault_at n = None.

(** [m] reads [f] off the tree: its answers are [f]'s, and without faults it gives them. *)
Definition views {E A : Type} (m : IO E A) (f : Fs → result E A) : Prop := ∀ w,
  files (m w).2 = files w ∧ (∀ a, (m w).1 = Ok a → f (files w) = Ok a) ∧ (faultless → (m w).1 = f (files w)).

Lemma views_ret {E A : Type} (a : A) : views (E := E) (mret a) (λ _, Ok a).
Proof. intros w. split_and!; [done| |done]. by intros ? [= <-]. Qed.
Lemma views_fail {E A : Type} (e : E) : views (A := A) (io_fail e) (λ _, Err e).
Proof. by intros w. Qed.
Lemma views_lift {E A : Type} (r : result E A) : views (io_lift r) (λ _, r).
Proof. by intros w. Qed.
Lemma views_bind {E A B : Type} (m : IO E A) (k : A → IO E B) f g :
  views m f → (∀ a, views (k a) (g a)) → views (m ≫= k) (λ s, a ← f s; g a s).
Proof.
  intros Hm Hk w. destruct (Hm w) as (Hs & Ha & Hf). unfold mbind, io_bind, result_bind. destruct (m w) as [[a|e] w1]; cbn in *.
  - destruct (Hk a w1) as (Hs' & Hb & Hf'). rewrite Hs in Hs', Hb, Hf'. by rewrite (Ha a eq_refl).
  - split_and!; [done..|]. intros Hno. by rewrite <-(Hf Hno).
Qed.
Lemma views_query {A : Type} (f : Fs → result IoError A) : views (query f) f.
Proof.
  intros w. unfold query, syscall. destruct (fault_at (clock w)) eqn:Hfault; cbn.
  - split_and!; [done..|]. intros Hno. by rewrite Hno in Hfault.
  - destruct (f (files w)); cbn; split_and!; done.
Qed.
Lemma views_map_err {E F A : Type} (h : E → F) (m : IO E A) f : views m f → views (io_map_err h m) (λ s, map_err h (f s)).
Proof.
  intros Hm w. destruct (Hm w) as (Hs & Ha & Hf). unfold io_map_err. destruct (m w) as [[a|e] w1]; cbn in *.
  - split_and!; [done|intros ? [= <-]; by rewrite (Ha a eq_refl)|intros Hno; by rewrite <-(Hf Hno)].
  - split_and!; [done|done|]. intros Hno. by rewrite <-(Hf Hno).
Qed.
Lemma views_ext {E A : Type} (m : IO E A) f g : (∀ s, f s = g s) → views m f → views m g.
Proof. intros Hfg Hm w. rewrite <-Hfg. apply Hm. Qed.

Lemma views_entry {A : Type} (p : path) (missing : A) (g : node → A) :
  views (or_missing missing (n ← at_path p (std_symlink_metadata p); mret (g n)))
    (λ s, Ok match s !! p with Some n => g n | None => missing end).
Proof.
  intros w. unfold or_missing, at_path, io_map_err, mbind, io_bind, std_symlink_metadata, query, syscall.
  destruct (fault_at (clock w)) eqn:Hfault; cbn; [split_and!; [done..|]; intros Hno; by rewrite Hno in Hfault|].
  destruct (files w !! p); cbn; split_and!; try done; by intros ? [= <-].
Qed.
End views.

(** *** What the extensions are *)

Section extensions.
Context `{Host} (sqlite_display : SqliteError → string) (time_format_error : string).
Context (parse_modules : string → result string (list RawPhpExtensionModule)).

Let read_metadata := read_php_extension_metadata sqlite_display time_format_error parse_modules.
Let resolve_request := resolve_php_extension_request sqlite_display time_format_error parse_modules.
Let resolve_persisted := resolve_persisted_php_extension_modules sqlite_display time_format_error parse_modules.

Definition is_regular (n : option node) : bool := match n with Some (File _) => true | _ => false end.

(** What [read_modules] reads. *)
Fixpoint modules_at (artifact_root : path) (names : gset string) (raw_modules : list RawPhpExtensionModule) (s : Fs) :
    result ResourcesError (list PhpExtensionModule) :=
  match raw_modules with
  | [] => Ok []
  | raw :: raw_modules =>
      module ← module_from_raw raw;
      if bool_decide (px_name module ∈ names) then Err (invalid_php_layout ("duplicate PHP extension " +:+ tick (px_name module)))
      else
        let module_path := join_path artifact_root (px_relative_path module) in
        if negb (is_regular (s !! module_path)) then Err (invalid_php_layout ("PHP extension module " +:+ tick (path_str module_path) +:+ " is missing"))
        else modules ← modules_at artifact_root ({[px_name module]} ∪ names) raw_modules s; Ok (module :: modules)
  end.

Definition metadata_at (artifact_root : path) (s : Fs) : result ResourcesError (list PhpExtensionModule) :=
  let p := join_path artifact_root PHP_EXTENSION_METADATA_PATH in
  if option_bool (s !! p) then
    source ← map_err (λ e, resources_error_from_state sqlite_display time_format_error (from_fs_error e)) (map_err (fs_error p) (read_node p s));
    raw_modules ← map_err (λ e, invalid_php_layout ("invalid PHP extension metadata: " +:+ e)) (parse_modules source);
    modules_at artifact_root ∅ raw_modules s
  else Ok [].

Lemma views_modules artifact_root names raw_modules :
  views (read_modules sqlite_display time_format_error artifact_root names raw_modules) (modules_at artifact_root names raw_modules).
Proof.
  revert names. induction raw_modules as [|raw raw_modules IH]; intros names; [apply views_ret|]. cbn [read_modules modules_at].
  apply (views_bind _ _ (λ _, module_from_raw raw) _ (views_lift _)). intros module. case_bool_decide; [apply views_fail|].
  set (module_path := join_path artifact_root (px_relative_path module)).
  eapply views_ext; [|apply (views_bind _ _ (λ s, Ok (is_regular (s !! module_path)))
    (λ is_file s, if negb is_file then Err (invalid_php_layout ("PHP extension module " +:+ tick (path_str module_path) +:+ " is missing"))
                  else modules ← modules_at artifact_root ({[px_name module]} ∪ names) raw_modules s; Ok (module :: modules)))]; [done| |].
  - unfold is_regular. eapply views_ext; [|apply views_map_err, (views_entry _ _ (λ n, match n with File _ => true | _ => false end))].
    intros s. cbn. by destruct (s !! _) as [[]|].
  - intros []; cbn [negb]; [|apply views_fail]. apply views_bind; [apply IH|intros modules; apply views_ret].
Qed.

Lemma views_metadata artifact_root : views (read_metadata artifact_root) (metadata_at artifact_root).
Proof.
  unfold read_metadata, read_php_extension_metadata. set (p := join_path artifact_root PHP_EXTENSION_METADATA_PATH).
  eapply views_ext; [|apply (views_bind _ _ (λ s, Ok (option_bool (s !! p))) (λ present s, if negb present then Ok [] else
    source ← map_err (λ e, resources_error_from_state sqlite_display time_format_error (from_fs_error e)) (map_err (fs_error p) (read_node p s));
    raw_modules ← map_err (λ e, invalid_php_layout ("invalid PHP extension metadata: " +:+ e)) (parse_modules source);
    modules_at artifact_root ∅ raw_modules s))].
  - intros s. unfold metadata_at. cbn. by destruct (option_bool _).
  - eapply views_ext; [|apply views_map_err, (views_entry _ _ (λ _, true))]. intros s. cbn. by destruct (s !! p).
  - intros []; cbn [negb]; [|apply views_ret]. apply views_bind; [apply views_map_err, views_map_err, views_query|intros source].
    apply (views_bind _ _ (λ _, _) _ (views_lift _)). intros raw_modules. apply views_modules.
Qed.

(** A module of the artifact: a file strictly inside it, not through [..]. *)
Definition installed_module (s : Fs) (artifact_root : path) (module : PhpExtensionModule) : Prop :=
  validate_extension_name (px_name module) = Ok tt ∧
  ∃ pieces, join_path artifact_root (px_relative_path module) = artifact_root ++ pieces
    ∧ pieces ≠ [] ∧ (".." ∉ pieces) ∧ is_regular (s !! (artifact_root ++ pieces)) = true.

Lemma elem_of_filter_kept x l : x ∈ List.filter kept_piece l ↔ kept_piece x = true ∧ x ∈ l.
Proof. rewrite !list_elem_of_In, filter_In. tauto. Qed.

Lemma relative_path_ok p q : validate_relative_path p = Ok q →
  q = p ∧ List.filter kept_piece (split SEPARATOR p) ≠ [] ∧ ".." ∉ List.filter kept_piece (split SEPARATOR p).
Proof.
  unfold validate_relative_path. destruct (_ || _) eqn:Hb; [done|]. intros [= <-]. apply orb_false_iff in Hb as [Hb Hdots].
  apply orb_false_iff in Hb as [Hb Habs]. apply orb_false_iff in Hb as [Hb Hempty]. split; [done|].
  assert (∀ c, c ∈ components p → c ≠ CurDir ∧ c ≠ ParentDir) as Hc.
  { intros c Hin. apply not_true_iff_false in Hdots. split; intros ->; apply Hdots, existsb_exists;
      eexists; (split; [by apply list_elem_of_In|done]). }
  assert (∀ x, x ∈ split SEPARATOR p → x ≠ "") as Hpiece.
  { intros x Hin ->. apply not_true_iff_false in Hempty. apply Hempty, existsb_exists. exists "". split; [by apply list_elem_of_In|done]. }
  unfold components in Hc. rewrite Habs in Hc. destruct (split SEPARATOR p) as [|first rest] eqn:Hsplit; [by apply split_nonempty in Hsplit|].
  assert (first ≠ "") as Hne by (apply Hpiece; by left). unfold first_component in Hc. split.
  - cbn. destruct (kept_piece first) eqn:Hk; [done|]. unfold kept_piece in Hk. rewrite (proj2 (is_empty_false first) Hne) in Hk.
    case_bool_decide as Hdot; [|done]. destruct (Hc CurDir) as [Hno _]; [by left|done].
  - intros [_ Hin]%elem_of_filter_kept. destruct (Hc ParentDir) as [_ Hno]; [|done]. apply elem_of_cons in Hin as [<-|Hin].
    + cbn. by left.
    + apply elem_of_app. right. apply list_elem_of_omap. by exists "..".
Qed.

Lemma modules_at_ok artifact_root names raw_modules s modules : modules_at artifact_root names raw_modules s = Ok modules →
  NoDup (px_name <$> modules) ∧ Forall (installed_module s artifact_root) modules ∧ ∀ n, n ∈ px_name <$> modules → n ∉ names.
Proof.
  revert names modules. induction raw_modules as [|raw raw_modules IH]; intros names modules; cbn [modules_at].
  { intros [= <-]. split_and!; [constructor..|]. by intros n ?%elem_of_nil. }
  destruct (module_from_raw raw) as [m|] eqn:Hm; [|done]. cbn [mbind result_bind]. case_bool_decide as Hfresh; [done|].
  destruct (is_regular _) eqn:Hreg; cbn [negb]; [|done]. destruct (modules_at _ _ raw_modules s) as [l|] eqn:Hl; [|done].
  intros [= <-]. apply IH in Hl as (Hnd & Hall & Hnot). rewrite fmap_cons. split_and!.
  - constructor; [|done]. intros Hin. apply (Hnot _ Hin). set_solver.
  - constructor; [|done]. unfold module_from_raw in Hm. destruct (validate_extension_name (rp_name raw)) as [[]|] eqn:Hn; [|done].
    cbn [mbind result_bind] in Hm. destruct (validate_relative_path (rp_path raw)) as [q|] eqn:Hq; [|done]. cbn [mbind result_bind] in Hm.
    apply relative_path_ok in Hq as (-> & Hp & Hd). assert (px_name m = rp_name raw ∧ px_relative_path m = rp_path raw) as [Hname Hrel].
    { destruct (bool_decide _); [by injection Hm as <-|]. destruct (bool_decide _); [by injection Hm as <-|done]. }
    split; [by rewrite Hname|]. unfold join_path in *. rewrite Hrel in Hreg |- *. by eexists.
  - intros n [->|Hin]%elem_of_cons; [done|]. intros Hn. apply (Hnot n Hin). set_solver.
Qed.

Lemma metadata_at_ok artifact_root s catalog : metadata_at artifact_root s = Ok catalog →
  NoDup (px_name <$> catalog) ∧ Forall (installed_module s artifact_root) catalog.
Proof.
  unfold metadata_at. destruct (option_bool _); [|intros [= <-]; by split; constructor]. destruct (read_node _ s); [|done].
  cbn [map_err mbind result_bind]. destruct (parse_modules _); [|done]. cbn [map_err mbind result_bind].
  intros (? & ? & _)%modules_at_ok. done.
Qed.

(** *** Requests *)

Lemma declares_true catalog n : declares catalog n = true ↔ n ∈ px_name <$> catalog.
Proof.
  unfold declares. rewrite existsb_exists, list_elem_of_fmap. setoid_rewrite <-list_elem_of_In. setoid_rewrite bool_decide_eq_true.
  split; intros (m & ? & ?); exists m; by split.
Qed.

Lemma elem_of_loaded catalog unique m : m ∈ loaded_of catalog unique ↔ m ∈ catalog ∧ px_name m ∈ unique.
Proof. unfold loaded_of. by rewrite !list_elem_of_In, filter_In, bool_decide_eq_true. Qed.
Lemma loaded_names catalog unique n : n ∈ px_name <$> loaded_of catalog unique ↔ n ∈ px_name <$> catalog ∧ n ∈ unique.
Proof.
  rewrite !list_elem_of_fmap. setoid_rewrite elem_of_loaded. split.
  - intros (m & -> & Hm & Hu). split; [by exists m|done].
  - intros [(m & -> & Hm) Hu]. by exists m.
Qed.
Lemma loaded_ext catalog u1 u2 : (∀ n, n ∈ px_name <$> catalog → n ∈ u1 ↔ n ∈ u2) → loaded_of catalog u1 = loaded_of catalog u2.
Proof.
  intros Hu. unfold loaded_of. apply filter_ext_in. intros m Hm%list_elem_of_In. apply bool_decide_ext, Hu, list_elem_of_fmap. by exists m.
Qed.
Lemma loaded_nodup catalog unique : NoDup (px_name <$> catalog) → NoDup (px_name <$> loaded_of catalog unique).
Proof.
  induction catalog as [|m l IH]; [done|]. rewrite fmap_cons. intros [Hm Hnd]%NoDup_cons. cbn. case_bool_decide; [|by apply IH].
  rewrite fmap_cons. constructor; [|by apply IH]. intros [Hin _]%loaded_names. done.
Qed.

(** After the names [done_]: the set is theirs, and the ignored are those not declared. *)
Definition requested_so_far (catalog : list PhpExtensionModule) (done_ : list string) (acc : gset string * list string) : Prop :=
  (∀ n, n ∈ acc.1 ↔ n ∈ done_) ∧ NoDup acc.2 ∧ ∀ n, n ∈ acc.2 ↔ n ∈ done_ ∧ declares catalog n = false.

Lemma request_fold catalog requested : requested_so_far catalog requested (foldl (request_step catalog) (∅, []) requested).
Proof.
  induction requested as [|x l IH] using rev_ind.
  { split_and!; cbn; [set_solver|constructor|set_solver]. }
  rewrite foldl_snoc. destruct (foldl _ _ l) as [unique ignored]. destruct IH as (Hu & Hnd & Hi). cbn in Hu, Hnd, Hi.
  unfold request_step. case_bool_decide as Hx.
  - assert (∀ n, n ∈ l ++ [x] ↔ n ∈ l) as Hl by (intros n; rewrite elem_of_app, list_elem_of_singleton; apply Hu in Hx; naive_solver).
    split_and!; cbn; [|done|]; intros n; rewrite Hl; [apply Hu|apply Hi].
  - split_and!; cbn [fst snd].
    + intros n. rewrite elem_of_union, elem_of_singleton, elem_of_app, list_elem_of_singleton, Hu. tauto.
    + destruct (declares catalog x); [done|]. apply NoDup_app. split_and!; [done| |apply NoDup_singleton].
      intros n [Hn _]%Hi ->%list_elem_of_singleton. by apply Hx, Hu.
    + intros n. rewrite elem_of_app, list_elem_of_singleton. destruct (declares catalog x) eqn:Hd.
      * rewrite Hi. split; [tauto|]. intros [[Hn| ->] Hdn]; [done|congruence].
      * rewrite elem_of_app, list_elem_of_singleton, Hi. split; [|tauto]. by intros [[Hn Hdn]| ->]; split; [left|done|right|done].
Qed.

Lemma views_request artifact_root requested : views (resolve_request artifact_root requested) (λ s,
  catalog ← metadata_at artifact_root s;
  let '(unique, ignored) := foldl (request_step catalog) (∅, []) requested in
  Ok {| pr_requested := requested; pr_loaded := loaded_of catalog unique; pr_ignored := ignored |}).
Proof.
  unfold resolve_request, resolve_php_extension_request. apply views_bind; [apply views_metadata|intros catalog].
  destruct (foldl _ _ _) as [unique ignored]. apply views_ret.
Qed.

(** Resolving what a project requests answers every request once: a requested name is
    either loaded, from a module that the installed artifact declares and has as a file
    strictly inside it, or reported as ignored, and never both; a module that is not
    requested is not loaded, and no name is loaded or reported twice. Nothing is changed. *)
Theorem resolve_php_extension_request_spec artifact_root requested w :
  match resolve_php_extension_request sqlite_display time_format_error parse_modules artifact_root requested w with
  | (Ok r, w') => files w' = files w ∧ pr_requested r = requested
      ∧ NoDup (px_name <$> pr_loaded r) ∧ NoDup (pr_ignored r)
      ∧ (∀ n, n ∈ requested ↔ n ∈ px_name <$> pr_loaded r ∨ n ∈ pr_ignored r)
      ∧ (∀ n, n ∈ pr_ignored r → n ∉ px_name <$> pr_loaded r)
      ∧ Forall (installed_module (files w) artifact_root) (pr_loaded r)
  | (Err _, w') => files w' = files w
  end.
Proof.
  destruct (views_request artifact_root requested w) as (Hs & Ha & _). unfold resolve_request in *.
  destruct (resolve_php_extension_request _ _ _ _ _ w) as [[r|e] w']; [|done]. cbn in *. specialize (Ha r eq_refl).
  destruct (metadata_at artifact_root (files w)) as [catalog|] eqn:Hc; [|done]. cbn [mbind result_bind] in Ha.
  apply metadata_at_ok in Hc as [Hnd Hall]. pose proof (request_fold catalog requested) as Hfold.
  destruct (foldl _ _ _) as [unique ignored]. injection Ha as <-. destruct Hfold as (Hu & Hni & Hi). cbn in *.
  split_and!; [done|done|by apply loaded_nodup|done| | |].
  - intros n. rewrite loaded_names, Hu, Hi, <-declares_true. split; [|tauto]. intros Hn. destruct (declares catalog n); [by left|by right].
  - intros n [_ Hn]%Hi. rewrite loaded_names, <-declares_true. by intros [Hd _]; rewrite Hn in Hd.
  - apply Forall_forall. intros m [Hm _]%elem_of_loaded. by apply (proj1 (Forall_forall _ _) Hall).
Qed.

(** *** What was persisted *)

Lemma persisted_fold catalog l unique : (∀ n, n ∈ l → declares catalog n = true) →
  ∃ u, try_fold (persisted_step catalog) l unique = Ok u ∧ ∀ n, n ∈ u ↔ n ∈ unique ∨ n ∈ l.
Proof.
  revert unique. induction l as [|x l IH]; intros unique Hl; [exists unique; split; [done|set_solver]|]. cbn [try_fold].
  assert (∀ n, n ∈ l → declares catalog n = true) as Hl' by (intros; apply Hl; by right).
  assert (∃ u, persisted_step catalog unique x = Ok u ∧ ∀ n, n ∈ u ↔ n ∈ unique ∨ n = x) as (u1 & -> & Hu1).
  { unfold persisted_step. case_bool_decide as Hx; [exists unique|rewrite Hl by (by left); exists ({[x]} ∪ unique)]; split; try done;
      intros n; [naive_solver|rewrite elem_of_union, elem_of_singleton; tauto]. }
  cbn [mbind result_bind]. destruct (IH u1 Hl') as (u & Hu & Hin). exists u. split; [done|].
  intros n. rewrite Hin, Hu1, elem_of_cons. tauto.
Qed.

Lemma views_persisted artifact_root l : l ≠ [] → views (resolve_persisted artifact_root l) (λ s,
  catalog ← metadata_at artifact_root s; unique ← try_fold (persisted_step catalog) l ∅; Ok (loaded_of catalog unique)).
Proof.
  intros Hl. unfold resolve_persisted, resolve_persisted_php_extension_modules. destruct l as [|x l]; [done|].
  apply views_bind; [apply views_metadata|intros catalog]. apply (views_bind _ _ (λ _, _) (λ unique _, Ok (loaded_of catalog unique)) (views_lift _)).
  intros unique. apply views_ret.
Qed.

(** What was persisted comes back. The names of the modules that a request loaded
    resolve, over the same files, to the same modules in the same order: no other answer
    is possible, and without faults of the host the answer is given. *)
Theorem persisted_modules_roundtrip artifact_root requested w r w1 w2 :
  resolve_php_extension_request sqlite_display time_format_error parse_modules artifact_root requested w = (Ok r, w1) →
  files w2 = files w →
  let persisted := (resolve_persisted_php_extension_modules sqlite_display time_format_error parse_modules artifact_root
                      (px_name <$> pr_loaded r) w2).1 in
  (∀ modules, persisted = Ok modules → modules = pr_loaded r) ∧ (faultless → persisted = Ok (pr_loaded r)).
Proof.
  intros Hr Hfiles. destruct (views_request artifact_root requested w) as (_ & Ha & _). unfold resolve_request in *.
  rewrite Hr in Ha. specialize (Ha r eq_refl). destruct (metadata_at artifact_root (files w)) as [catalog|] eqn:Hc; [|done]. cbn [mbind result_bind] in Ha.
  pose proof (request_fold catalog requested) as Hfold. destruct (foldl _ _ _) as [unique ignored]. injection Ha as <-. cbn [pr_loaded].
  destruct (decide (px_name <$> loaded_of catalog unique = [])) as [Hnil|Hne].
  { rewrite Hnil. apply fmap_nil_inv in Hnil. rewrite Hnil. cbn. split; [by intros ? [= <-]|done]. }
  destruct (views_persisted artifact_root _ Hne w2) as (_ & Hp & Hf). unfold resolve_persisted in *. cbn zeta.
  assert ((c ← metadata_at artifact_root (files w2); u ← try_fold (persisted_step c) (px_name <$> loaded_of catalog unique) ∅;
    Ok (loaded_of c u)) = Ok (loaded_of catalog unique)) as Hsame.
  { rewrite Hfiles, Hc. cbn [mbind result_bind]. destruct (persisted_fold catalog (px_name <$> loaded_of catalog unique) ∅) as (u & -> & Hu).
    { intros n [Hn _]%loaded_names. by apply declares_true. }
    cbn [mbind result_bind]. f_equal. apply loaded_ext. intros n Hn. rewrite Hu, loaded_names. set_solver. }
  split.
  - intros modules Hm. pose proof (eq_trans (eq_sym Hsame) (Hp modules Hm)) as Heq. by injection Heq.
  - intros Hno. exact (eq_trans (Hf Hno) Hsame).
Qed.
End extensions.

(** *** The overlay *)

(** An extension name has no dot and no dash, so the names of the files tell them apart. *)
Lemma extension_name_lacks m c : validate_extension_name (px_name m) = Ok tt → php_extension_name_char c = false → lacks c (px_name m) = true.
Proof.
  unfold validate_extension_name. destruct (_ && _) eqn:Hb; [|done]. apply andb_true_iff in Hb as [_ Hall]. intros _ Hc.
  by eapply str_all_lacks.
Qed.

Lemma show_nat_lacks n c : is_ascii_digit c = false → lacks c (show_nat n) = true.
Proof. intros Hc. eapply str_all_lacks; [exact Hc|]. apply show_nat_digits. Qed.

Lemma split_ini i m rest : validate_extension_name (px_name m) = Ok tt →
  split "." (ini_name i m +:+ rest) = (show_nat (10 + i * 10) +:+ "-" +:+ px_name m) :: split "." ("ini" +:+ rest).
Proof.
  intros Hm. unfold ini_name. replace ((show_nat (10 + i * 10) +:+ "-" +:+ px_name m +:+ ".ini") +:+ rest)
    with ((show_nat (10 + i * 10) +:+ "-" +:+ px_name m) +:+ String "." ("ini" +:+ rest)).
  - apply split_app_sep. rewrite !lacks_app. rewrite show_nat_lacks, extension_name_lacks by done. done.
  - change (String "." ("ini" +:+ rest)) with (".ini" +:+ rest). by rewrite !str_app_assoc.
Qed.

Lemma ini_stem_inj i j m n : validate_extension_name (px_name m) = Ok tt → validate_extension_name (px_name n) = Ok tt →
  show_nat (10 + i * 10) +:+ "-" +:+ px_name m = show_nat (10 + j * 10) +:+ "-" +:+ px_name n → i = j.
Proof.
  intros Hm Hn Heq. apply (f_equal (split "-")) in Heq. change ("-" +:+ px_name m) with (String "-" (px_name m)) in Heq.
  change ("-" +:+ px_name n) with (String "-" (px_name n)) in Heq. rewrite !split_app_sep in Heq by by apply show_nat_lacks.
  injection Heq as Hshow _. apply show_nat_inj in Hshow. lia.
Qed.

(** A file of another module, or a temporary of it, is never the file of this one. *)
Lemma ini_apart i j m n rest rest' : validate_extension_name (px_name m) = Ok tt → validate_extension_name (px_name n) = Ok tt →
  i ≠ j → ini_name i m +:+ rest ≠ ini_name j n +:+ rest'.
Proof.
  intros Hm Hn Hij Heq. apply (f_equal (split ".")) in Heq. rewrite !split_ini in Heq by done.
  injection Heq as Hstem _. by apply (ini_stem_inj i j m n) in Hstem.
Qed.

Section overlay.
Context `{Host} (sqlite_display : SqliteError → string) (time_format_error : string).
Variables (conf artifact_root : path) (s0 : Fs).

(** A name that PHP does not scan. *)
Definition is_temporary_name (x : string) : bool := bool_decide (last (split "." x) = Some "tmp").

(** After writing the files of [written]: they are there, and the directory has nothing
    else but what is left of their temporaries. *)
Record overlaid (written : list (string * string)) (s : Fs) : Prop := {
  ov_frame : others (λ q, q ∈ ancestors conf ∨ under conf q) s0 s;
  ov_present : ∀ y text, (y, text) ∈ written → s !! (conf ++ [y]) = Some (File text);
  ov_only : ∀ x n, s !! (conf ++ [x]) = Some n → (∃ text, (x, text) ∈ written)
    ∨ is_temporary_name x = true ∧ ∃ y text rest, (y, text) ∈ written ∧ x = y +:+ "." +:+ rest;
}.

Definition inside_overlay (q : path) : Prop := q ∈ ancestors conf ∨ under conf q.

Lemma touched_inside y q : touched (conf ++ [y]) q → inside_overlay q.
Proof.
  intros [Ha|[(t & [n ->] & Hu)|Hu]]; [left; by rewrite removelast_last in Ha|right..].
  - rewrite temporary_at in Hu. eapply under_trans; [apply under_app|exact Hu].
  - eapply under_trans; [apply under_app|exact Hu].
Qed.

Lemma ini_join k m : validate_extension_name (px_name m) = Ok tt → join_path conf (ini_name k m) = conf ++ [ini_name k m].
Proof.
  intros Hm. apply join_plain. unfold ini_name. replace (show_nat (10 + k * 10) +:+ "-" +:+ px_name m +:+ ".ini")
    with ((show_nat (10 + k * 10) +:+ "-" +:+ px_name m) +:+ ".ini") by (by rewrite !str_app_assoc).
  apply plain_suffixed; [|done|cbn; lia]. rewrite !lacks_app. rewrite show_nat_lacks, extension_name_lacks by done. done.
Qed.

(** The files of the modules before the [k]-th. *)
Definition earlier (k : nat) (written : list (string * string)) : Prop :=
  ∀ y text, (y, text) ∈ written → ∃ j n, j < k ∧ validate_extension_name (px_name n) = Ok tt ∧ y = ini_name j n.

Lemma overlaid_waiting k m written s : validate_extension_name (px_name m) = Ok tt → earlier k written → overlaid written s →
  waiting (conf ++ [ini_name k m]) s s.
Proof.
  intros Hm He Ho. split_and!; [done|done|]. intros t [n ->]. right. rewrite temporary_at.
  destruct (s !! _) as [node|] eqn:Hn; [|done]. exfalso. destruct (ov_only _ _ Ho _ _ Hn) as [(text & Hin)|(_ & y & text & rest & Hin & Heq)].
  - destruct (He _ _ Hin) as (j & m' & Hj & Hm' & Hy). symmetry in Hy. rewrite <-(str_app_nil_r (ini_name j m')) in Hy.
    apply (ini_apart j k m' m "" _ Hm' Hm) in Hy; [done|lia].
  - destruct (He _ _ Hin) as (j & m' & Hj & Hm' & ->). symmetry in Heq. apply (ini_apart j k m' m _ _ Hm' Hm) in Heq; [done|lia].
Qed.

Lemma temporary_named y t : temporary (conf ++ [y]) t → ∃ x, t = conf ++ [x] ∧ is_temporary_name x = true.
Proof.
  intros [n ->]. rewrite temporary_at. eexists. split; [done|]. unfold is_temporary_name. apply bool_decide_eq_true.
  replace (y +:+ "." +:+ show_nat process_id +:+ "." +:+ show_nat n +:+ ".tmp")
    with ((y +:+ "." +:+ show_nat process_id +:+ "." +:+ show_nat n) +:+ String "." "tmp") by (change (String "." "tmp") with ".tmp"; by rewrite !str_app_assoc).
  rewrite split_app. change (split "." "tmp") with ["tmp"]. by rewrite last_snoc.
Qed.

Lemma ordinary_untouched x y : x ≠ y → is_temporary_name x = false → ¬ touched (conf ++ [y]) (conf ++ [x]).
Proof.
  intros Hxy Hx [Ha|[(t & Ht & Hu)|Hu]].
  - rewrite removelast_last in Ha. by apply child_not_ancestor in Ha.
  - apply temporary_named in Ht as (z & -> & Hz). destruct (decide (z = x)) as [->|Hne]; [congruence|]. by apply (not_under_sibling conf z x).
  - by apply (not_under_sibling conf y x).
Qed.

Lemma overlaid_wrote k m text written s s' : validate_extension_name (px_name m) = Ok tt → earlier k written → overlaid written s →
  wrote (conf ++ [ini_name k m]) text s s' → overlaid (written ++ [(ini_name k m, text)]) s'.
Proof.
  intros Hm He Ho [Hp Hs]. split.
  - intros q Hq. rewrite Hs; [by apply (ov_frame _ _ Ho)|]. intros Ht%touched_inside. done.
  - intros y c [Hin|[= -> ->]%list_elem_of_singleton]%elem_of_app; [|done]. rewrite Hs; [by apply (ov_present _ _ Ho)|].
    destruct (He _ _ Hin) as (j & n & Hj & Hn & ->). apply sibling_untouched.
    + rewrite <-(str_app_nil_r (ini_name j n)), <-(str_app_nil_r (ini_name k m)). apply ini_apart; [done..|lia].
    + intros rest. rewrite <-(str_app_nil_r (ini_name j n)). apply ini_apart; [done..|lia].
  - intros x node Hx. destruct (decide (x = ini_name k m)) as [->|Hne]; [left; exists text; apply elem_of_app; right; by left|].
    assert (∀ rest, x = ini_name k m +:+ "." +:+ rest → is_temporary_name x = true → ∃ y c rest, (y, c) ∈ written ++ [(ini_name k m, text)] ∧ x = y +:+ "." +:+ rest) as Hmine.
    { intros rest -> _. exists (ini_name k m), text, rest. split; [apply elem_of_app; right; by left|done]. }
    destruct (strip_prefix (ini_name k m +:+ ".") x) as [rest|] eqn:Hrest.
    { apply strip_prefix_Some in Hrest as Hx'. rewrite <-str_app_assoc in Hx'. destruct (is_temporary_name x) eqn:Htmp; [right; split; [done|by eapply Hmine]|].
      rewrite Hs in Hx; [|by apply ordinary_untouched]. destruct (ov_only _ _ Ho _ _ Hx) as [(c & Hin)|[Ht _]]; [|congruence].
      left. exists c. apply elem_of_app. by left. }
    rewrite Hs in Hx.
    + destruct (ov_only _ _ Ho _ _ Hx) as [(c & Hin)|(Ht & y & c & rest & Hin & ->)].
      * left. exists c. apply elem_of_app. by left.
      * right. split; [done|]. exists y, c, rest. split; [apply elem_of_app; by left|done].
    + apply sibling_untouched; [done|]. intros rest ->. rewrite str_app_assoc in Hrest. by rewrite strip_prefix_app in Hrest.
Qed.

Lemma write_ini_step k m text written : validate_extension_name (px_name m) = Ok tt → earlier k written →
  hoare (overlaid written) (on_state sqlite_display time_format_error (write_sensitive_file (join_path conf (ini_name k m)) text))
    (λ _, overlaid (written ++ [(ini_name k m, text)])) (others inside_overlay s0).
Proof.
  intros Hm He. rewrite ini_join by done. apply hoare_map_err. intros w Hw.
  pose proof (write_sensitive_file_hoare conf (ini_name k m) text (files w) w (overlaid_waiting k m written _ Hm He Hw)) as Hs.
  destruct (write_sensitive_file _ _ w) as [[u|e] w']; [by eapply overlaid_wrote|].
  intros q Hq. destruct Hs as [_ Hs]. rewrite Hs; [by apply (ov_frame _ _ Hw)|]. intros Ht%touched_inside. done.
Qed.

Fixpoint inis (k : nat) (modules : list PhpExtensionModule) : list (string * string) :=
  match modules with [] => [] | m :: modules => (ini_name k m, ini_text artifact_root m) :: inis (S k) modules end.

Lemma inis_at k modules y text : (y, text) ∈ inis k modules ↔
  ∃ i m, modules !! i = Some m ∧ y = ini_name (k + i) m ∧ text = ini_text artifact_root m.
Proof.
  revert k. induction modules as [|m l IH]; intros k; cbn [inis].
  { split; [by intros ?%elem_of_nil|]. by intros (i & m & ? & _). }
  rewrite elem_of_cons, IH. split.
  - intros [[= -> ->]|(i & n & Hi & -> & ->)]; [exists 0, m; by rewrite Nat.add_0_r|exists (S i), n; by rewrite Nat.add_succ_r].
  - intros ([|i] & n & Hi & -> & ->); cbn in Hi; [left|right; exists i, n]; [injection Hi as ->; by rewrite Nat.add_0_r|].
    by rewrite Nat.add_succ_r.
Qed.

Lemma write_inis_hoare k modules written : Forall (λ m, validate_extension_name (px_name m) = Ok tt) modules → earlier k written →
  hoare (overlaid written) (write_inis sqlite_display time_format_error conf artifact_root k modules)
    (λ _, overlaid (written ++ inis k modules)) (others inside_overlay s0).
Proof.
  revert k written. induction modules as [|m l IH]; intros k written Hall He; cbn [write_inis inis].
  { rewrite app_nil_r. by intros w Hw. }
  apply Forall_cons in Hall as [Hm Hall]. eapply hoare_seq; [by apply write_ini_step|].
  replace (written ++ _ :: inis (S k) l) with ((written ++ [(ini_name k m, ini_text artifact_root m)]) ++ inis (S k) l) by (by rewrite <-app_assoc).
  apply IH; [done|]. intros y text [Hin|[= -> ->]%list_elem_of_singleton]%elem_of_app; [|exists k, m; split_and!; [lia|done..]].
  destruct (He _ _ Hin) as (j & n & Hj & Hn & ->). exists j, n. split_and!; [lia|done..].
Qed.

(** Emptying the directory and making it again. *)
Definition parent_first (s : Fs) : Prop := ∀ x, s !! conf ≠ Some Dir → s !! (conf ++ [x]) = None.

Lemma empty_overlay w : files w = s0 → parent_first s0 →
  match (on_state sqlite_display time_format_error (or_missing tt (delete_dir_all conf))) w with
  | (Ok _, w') => overlaid [] (files w')
  | (Err _, w') => others inside_overlay s0 (files w')
  end.
Proof.
  intros Hw Hpf. unfold on_state, or_missing, delete_dir_all, at_path, io_map_err, std_remove_dir_all, syscall.
  assert (∀ f q, ¬ inside_overlay q → filter (λ '(q, _), ¬ (under conf q ∧ fault_reached f q = true)) s0 !! q = s0 !! q) as Hfilter.
  { intros f q Hq. destruct (s0 !! q) as [n|] eqn:Hn; [|by apply map_lookup_filter_None; left].
    apply map_lookup_filter_Some. split; [done|]. intros [Hu _]. apply Hq. by right. }
  destruct (fault_at (clock w)) as [f|]; cbn.
  { rewrite Hw. intros q Hq. by apply Hfilter. }
  rewrite Hw. destruct (s0 !! conf) as [[c| |target]|] eqn:Hn; cbn; [done| | |].
  - split; [|by intros ? ? ?%elem_of_nil|].
    + intros q Hq. rewrite lookup_without, decide_False; [done|]. intros Hu. apply Hq. by right.
    + intros x n. rewrite lookup_without, decide_True by apply under_app. done.
  - split; [|by intros ? ? ?%elem_of_nil|].
    + intros q Hq. rewrite lookup_delete_ne; [done|]. intros <-. apply Hq. right. apply under_refl.
    + intros x n. rewrite lookup_delete_ne; [|by intros Heq%(f_equal length); rewrite length_app in Heq; cbn in Heq; lia].
      rewrite (Hpf x) by congruence. done.
  - split; [done|by intros ? ? ?%elem_of_nil|]. intros x n. rewrite (Hpf x) by congruence. done.
Qed.

Lemma make_overlay : hoare (overlaid []) (on_state sqlite_display time_format_error (ensure_user_dir conf)) (λ _, overlaid []) (others inside_overlay s0).
Proof.
  apply hoare_map_err. eapply (hoare_changes (λ q, q ∈ ancestors conf)); [| |by intros s Ho; apply Ho].
  - unfold ensure_user_dir. apply changes_bind; [apply changes_at_path, changes_std_create_dir_all|intros ?; apply changes_secure_file].
  - intros s s' Hs Ho. split; [|by intros ? ? ?%elem_of_nil|].
    + intros q Hq. rewrite Hs; [by apply (ov_frame _ _ Ho)|]. intros Ha. apply Hq. by left.
    + intros x n Hx. rewrite Hs in Hx by apply child_not_ancestor. by apply (ov_only _ _ Ho _ _ Hx).
Qed.
End overlay.

(** The name of a module's file, and what PHP has to read in it: one line, with the path of
    the module as an extension of the engine or as an ordinary one. *)
Definition loading_name (i : nat) (m : PhpExtensionModule) : string := show_nat (10 + 10 * i) +:+ "-" +:+ px_name m +:+ ".ini".
Definition loading_line (root : path) (m : PhpExtensionModule) : string :=
  match px_load_kind m with ZendExtension => "zend_extension=" | Extension => "extension=" end
    +:+ path_str (join_path root (px_relative_path m)) +:+ String NEWLINE "".
Lemma loading_name_eq i m : ini_name i m = loading_name i m.
Proof. unfold ini_name, loading_name. by rewrite (Nat.mul_comm i). Qed.
Lemma loading_line_eq root m : ini_text root m = loading_line root m.
Proof. unfold ini_text, loading_line, directive. by destruct (px_load_kind m). Qed.

(** C36: The overlay of a runtime is exact. On success its directory holds, for every
    module, numbered from 10 in steps of 10, the file whose one line loads it, as
    [zend_extension] or as [extension], from its path below the artifact, and nothing else
    but what a failed write may have left, whose name ends in [.tmp] and which PHP does not
    scan: a module of an earlier choice is never loaded. Whatever fails, nothing outside the
    directory changes but directories above it. Assumed: the names of the modules are
    valid, and nothing is below the directory's path where it is not a directory. *)
Theorem ensure_php_runtime_overlay_spec `{Host} sqlite_display time_format_error paths runtime_key artifact_root modules w :
  let conf := overlay_dir paths runtime_key in
  Forall (λ m, validate_extension_name (px_name m) = Ok tt) modules → parent_first conf (files w) →
  match ensure_php_runtime_overlay sqlite_display time_format_error paths runtime_key artifact_root modules w with
  | (Ok p, w') => p = conf
      ∧ (∀ i m, modules !! i = Some m → files w' !! (conf ++ [loading_name i m]) = Some (File (loading_line artifact_root m)))
      ∧ (∀ x n, files w' !! (conf ++ [x]) = Some n → last (split "." x) = Some "tmp" ∨ ∃ i m, modules !! i = Some m ∧ x = loading_name i m)
      ∧ others (inside_overlay conf) (files w) (files w')
  | (Err _, w') => others (inside_overlay conf) (files w) (files w')
  end.
Proof.
  intros conf Hall Hpf.
  assert (hoare (overlaid conf (files w) []) (_ ← on_state sqlite_display time_format_error (ensure_user_dir conf);
    _ ← write_inis sqlite_display time_format_error conf artifact_root 0 modules; mret conf)
    (λ p s, p = conf ∧ overlaid conf (files w) (inis artifact_root 0 modules) s) (others (inside_overlay conf) (files w))) as Hrest.
  { eapply hoare_seq; [apply make_overlay|]. eapply hoare_seq; [apply write_inis_hoare; [done|by intros ? ? ?%elem_of_nil]|].
    by intros w1 Hw1. }
  unfold ensure_php_runtime_overlay. fold conf. pose proof (empty_overlay sqlite_display time_format_error conf (files w) w eq_refl Hpf) as Hempty.
  unfold mbind at 1, io_bind at 1. destruct (on_state _ _ (or_missing tt (delete_dir_all conf)) w) as [[u|e] w1]; [|done].
  specialize (Hrest w1 Hempty). destruct (mbind (M := IO ResourcesError) _ _ w1) as [[p|e] w']; [|done]. destruct Hrest as [-> [Hframe Hpresent Honly]].
  split_and!; [done| | |done].
  - intros i m Hi. rewrite <-loading_name_eq, <-loading_line_eq. apply Hpresent, inis_at. by exists i, m.
  - intros x n Hx. destruct (Honly x n Hx) as [(c & Hin)|[Ht _]]; [right|left; by apply bool_decide_eq_true in Ht].
    apply inis_at in Hin as (i & m & Hi & -> & _). exists i, m. by rewrite loading_name_eq.
Qed.

(** *** An installed artifact *)

Definition php_root : path := ["opt"; "php"].
Definition sample_raw_modules : list RawPhpExtensionModule :=
  [{| rp_name := "redis"; rp_load_kind := "extension"; rp_path := "lib/redis.so" |};
   {| rp_name := "xdebug"; rp_load_kind := "zend_extension"; rp_path := "lib/xdebug.so" |}].
Definition sample_parse_modules (source : string) : result string (list RawPhpExtensionModule) :=
  if bool_decide (source = "[..]") then Ok sample_raw_modules else Err "expected value".
Definition php_world : World :=
  {| files := list_to_map [(["opt"], Dir); (php_root, Dir); (php_root ++ ["share"; "pv"; "php-extensions.json"], File "[..]");
       (php_root ++ ["lib"; "redis.so"], File ""); (php_root ++ ["lib"; "xdebug.so"], File "");
       (["home"; ".pv"; "config"; "php-runtimes"; "k"; "conf.d"], Dir);
       (["home"; ".pv"; "config"; "php-runtimes"; "k"; "conf.d"; "10-old.ini"], File "extension=old")];
     clock := 0; counter := 0 |}.
Definition php_request (requested : list string) : result ResourcesError PhpExtensionResolution * World :=
  resolve_php_extension_request (H := faulty_host None) (λ _, "") "" sample_parse_modules php_root requested php_world.

Example sample_request : (λ r, (px_name <$> pr_loaded r, pr_ignored r)) <$> (php_request ["xdebug"; "imagick"; "xdebug"; "redis"]).1
  = Ok (["redis"; "xdebug"], ["imagick"]).
Proof. by vm_compute. Qed.

Lemma persisted_modules_roundtrip_witness :
  (resolve_persisted_php_extension_modules (H := faulty_host None) (λ _, "") "" sample_parse_modules php_root ["redis"; "xdebug"] php_world).1
    = Ok [{| px_name := "redis"; px_load_kind := Extension; px_relative_path := "lib/redis.so" |};
          {| px_name := "xdebug"; px_load_kind := ZendExtension; px_relative_path := "lib/xdebug.so" |}].
Proof.
  assert ((php_request ["xdebug"; "redis"]).1 = Ok {| pr_requested := ["xdebug"; "redis"];
     pr_loaded := [{| px_name := "redis"; px_load_kind := Extension; px_relative_path := "lib/redis.so" |};
                   {| px_name := "xdebug"; px_load_kind := ZendExtension; px_relative_path := "lib/xdebug.so" |}];
     pr_ignored := [] |}) as Hok by by vm_compute.
  destruct (php_request ["xdebug"; "redis"]) as [r w1] eqn:Hr. cbn [fst] in Hok. rewrite Hok in Hr.
  apply (persisted_modules_roundtrip (H := faulty_host None) (λ _, "") "" sample_parse_modules php_root ["xdebug"; "redis"] php_world _ w1 php_world Hr eq_refl).
  intros n. reflexivity.
Defined.

Definition sample_overlay : result ResourcesError path * World :=
  ensure_php_runtime_overlay (H := faulty_host None) (λ _, "") "" (for_home ["home"]) "k" php_root
    [{| px_name := "redis"; px_load_kind := Extension; px_relative_path := "lib/redis.so" |}] php_world.

Lemma ensure_php_runtime_overlay_spec_witness :
  files sample_overlay.2 !! (overlay_dir (for_home ["home"]) "k" ++ ["10-redis.ini"])
    = Some (File ("extension=/opt/php/lib/redis.so" +:+ String NEWLINE ""))
  ∧ files sample_overlay.2 !! (overlay_dir (for_home ["home"]) "k" ++ ["10-old.ini"]) = None.
Proof.
  pose proof (ensure_php_runtime_overlay_spec (H := faulty_host None) (λ _, "") "" (for_home ["home"]) "k" php_root
    [{| px_name := "redis"; px_load_kind := Extension; px_relative_path := "lib/redis.so" |}] php_world) as Hspec.
  change (ensure_php_runtime_overlay _ _ _ _ _ _ _) with sample_overlay in Hspec.
  assert (is_ok sample_overlay.1 = true) as Hok by by vm_compute.
  destruct sample_overlay as [[p|e] w']; [|discriminate Hok]. cbn zeta in Hspec.
  destruct Hspec as (_ & Hini & Honly & _); [by repeat constructor| |split].
  - intros x Hx. exfalso. by apply Hx.
  - exact (Hini 0 _ eq_refl).
  - cbn [snd]. destruct (files w' !! _) as [n|] eqn:Hn; [|done].
    destruct (Honly "10-old.ini" n Hn) as [Ht|([|i] & m & Hi & Hx)]; [by vm_compute in Ht|by injection Hi as <-|done].
Defined.

(** PHP scans the directory in the order of the names, and the prefixes are not padded:
    with ten modules the last one is loaded second. *)
Example tenth_module_loads_second :
  let m := {| px_name := "m"; px_load_kind := Extension; px_relative_path := "m.so" |} in
  String.ltb (ini_name 0 m) (ini_name 1 m) = true ∧ String.ltb (ini_name 9 m) (ini_name 1 m) = true.
Proof. by vm_compute. Qed.
