(* ===== verification/ResourceCache.v ===== *)
(** * The cached artifact manifest ([resources/src/cache.rs]) and the atomic write of
    [resources/src/fs.rs]

    The HTTP client and the JSON, RFC 3339 and URL parsers are parameters. *)

From S2P Require Import Prelude RustStr Identity Manifest HostFs StateFs StatePaths.

Definition MANIFEST_CACHE_FILE : string := "manifest.json".

Inductive ArtifactManifestSource : Type := Latest | Cached (reason : string).
Record ArtifactManifestRefresh := { mr_manifest : ArtifactManifest; mr_source : ArtifactManifestSource }.

Definition is_from_cache (r : ArtifactManifestRefresh) : bool := match mr_source r with Cached _ => true | Latest => false end.

Section cache.
Context `{Host}.

(** ** [resources/src/fs.rs]; its errors keep the path and the text *)

Definition resources_fs_error (e : FsError) : ResourcesError := filesystem_error (fs_path e) (fs_source e).

Definition cache_parent_dir (p : path) : IO FsError unit :=
  match parent p with Some dir => _ ← create_dir_all dir; set_mode dir | None => mret tt end.

Definition on_fs {A : Type} (m : IO FsError A) : IO ResourcesError A := io_map_err resources_fs_error m.

(** [write_temporary_file], with what the caller writes into the file. *)
Definition write_temporary_with {A : Type} (p : path) (operation : path → IO ResourcesError A) : IO ResourcesError A :=
  _ ← on_fs (at_path p (std_write p ""));
  _ ← on_fs (set_mode p);
  value ← operation p;
  _ ← on_fs (sync_directory p);
  mret value.

(** The first error is the one returned. *)
Definition or_discard {A : Type} (m : IO ResourcesError A) (temporary_path : path) : IO ResourcesError A := λ w,
  match m w with
  | (Ok a, w) => (Ok a, w)
  | (Err e, w) => (Err e, (remove_file_if_exists temporary_path w).2)
  end.

Definition write_atomically_with {A : Type} (p : path) (operation : path → IO ResourcesError A) : IO ResourcesError A :=
  _ ← on_fs (cache_parent_dir p);
  temporary_path ← on_fs (temporary_path_for p);
  value ← or_discard (value ← write_temporary_with temporary_path operation;
                      _ ← on_fs (rename temporary_path p);
                      mret value) temporary_path;
  _ ← on_fs (sync_parent_directory p);
  mret value.

(** [write_string_atomically]: the caller's [write_all] reports the path it was asked to write. *)
Definition write_cache (p : path) (content : string) : IO ResourcesError unit :=
  write_atomically_with p (λ temporary_path, on_fs (at_path p (std_write temporary_path content))).
Definition read_cache (p : path) : IO ResourcesError string := on_fs (read_to_string p).

(** ** [resources/src/cache.rs] *)

Context (parse_rfc3339 : string → option Z) (url_parse : string → option ParsedUrl) (pkg_version : string).
Context (json_parse : string → result string RawManifest).

Definition artifact_manifest_parse (json : string) : result ResourcesError ArtifactManifest :=
  raw ← map_err InvalidManifest (json_parse json);
  manifest_from_raw parse_rfc3339 url_parse pkg_version raw.

Definition validate_manifest_url (url : string) : result ResourcesError unit :=
  if contains BACKSLASH url then Err (InvalidManifestUrl url)
  else
    match url_parse url with
    | None => Err (InvalidManifestUrl url)
    | Some parsed =>
        if negb (bool_decide (url_scheme parsed = "https")) || negb (option_bool (url_host parsed))
        then Err (InvalidManifestUrl url) else Ok tt
    end.

Definition cache_path (downloads_dir : path) : path := join_path downloads_dir MANIFEST_CACHE_FILE.

Section at_path.
Variable p : path.
Variable client_get_text : string → IO ResourcesError string.

Definition load_cached : IO ResourcesError ArtifactManifest :=
  json ← read_cache p; io_lift (artifact_manifest_parse json).

(** The manifest of the cache when the fetch failed. *)
Definition cache_fallback (manifest_url : string) (fetch_error : ResourcesError) : IO ResourcesError ArtifactManifestRefresh := λ w,
  match load_cached w with
  | (Ok manifest, w) => (Ok {| mr_manifest := manifest; mr_source := Cached (resources_error_display fetch_error) |}, w)
  | (Err cache_error, w) =>
      (Err (ManifestUnavailable manifest_url (path_str p)
        (resources_error_display fetch_error +:+ "; cache fallback failed: " +:+ resources_error_display cache_error)), w)
  end.

(** [ArtifactManifest::parse], the cache, and the answer. *)
Definition accept_json (json : string) : IO ResourcesError ArtifactManifestRefresh :=
  manifest ← io_lift (artifact_manifest_parse json);
  _ ← write_cache p json;
  mret {| mr_manifest := manifest; mr_source := Latest |}.

Definition refresh (manifest_url : string) : IO ResourcesError ArtifactManifestRefresh :=
  _ ← io_lift (validate_manifest_url manifest_url);
  response ← io_try (client_get_text manifest_url);
  match response with
  | Ok json => accept_json json
  | Err (HttpRequestFailed url reason) => cache_fallback manifest_url (HttpRequestFailed url reason)
  | Err fetch_error => io_fail fetch_error
  end.

Definition refresh_latest (manifest_url : string) : IO ResourcesError ArtifactManifestRefresh :=
  _ ← io_lift (validate_manifest_url manifest_url);
  json ← client_get_text manifest_url;
  accept_json json.
End at_path.
End cache.

(** ** Properties *)

Section atomic.
Context `{Host}.
Variables (dir : path) (name : string) (s0 : Fs).
Let p : path := dir ++ [name].

(** While nothing is promoted: the temporaries are no links. *)
Lemma cache_parent_waiting : hoare (waiting p s0) (cache_parent_dir p) (λ _, waiting p s0) (waiting p s0).
Proof.
  eapply (hoare_changes (λ q, q ∈ ancestors (removelast p))); [| |done].
  - unfold cache_parent_dir. destruct (parent p) as [d|] eqn:Hd; [|apply changes_ret].
    assert (d = removelast p) as -> by (destruct p; [done|by injection Hd]).
    apply changes_bind; [apply changes_at_path, changes_std_create_dir_all|intros ?]. apply changes_at_path, changes_query.
  - intros s s' Hs (Hp & Ho & Hl). unfold p in *. rewrite removelast_last in Hs. split_and!.
    + rewrite Hs; [done|]. apply child_not_ancestor.
    + intros q Hq. rewrite Hs, Ho; [done..|]. intros Ha. apply Hq. left. by rewrite removelast_last.
    + intros t Ht. destruct (temporary_apart dir name t Ht) as (_ & _ & _ & Ha). rewrite removelast_last in Ha. rewrite Hs by done. by apply Hl.
Qed.

Lemma fill_cache_temporary t q text : temporary p t → hoare (waiting p s0) (at_path q (std_write t text))
  (λ _ s, waiting p s0 s ∧ s !! t = Some (File text)) (waiting p s0).
Proof.
  intros Ht w Hw. pose proof (write_temporary_spec dir name text s0 t Ht w Hw) as Hs. unfold at_path, io_map_err in *.
  by destruct (std_write t text w) as [[]].
Qed.

Lemma removed_file t w : let s := files (remove_file_if_exists t w).2 in s = files w ∨ s = delete t (files w).
Proof.
  unfold remove_file_if_exists, or_missing, remove_file, at_path, io_map_err, std_remove_file, syscall.
  destruct (fault_at (clock w)); cbn; [by left|]. destruct (files w !! t) as [[]|]; cbn; first [by left|by right].
Qed.

Lemma waiting_discarded t w : temporary p t → waiting p s0 (files w) → waiting p s0 (files (remove_file_if_exists t w).2).
Proof.
  intros Ht Hw. destruct (removed_file t w) as [->| ->]; [done|]. destruct Hw as (Hp & Ho & Hl).
  destruct (temporary_apart dir name t Ht) as (Hne & _). split_and!.
  - by rewrite lookup_delete_ne.
  - intros q Hn. rewrite lookup_delete_ne; [by apply Ho|]. intros <-. apply Hn. right; left. exists t. split; [done|apply under_refl].
  - intros u Hu. destruct (decide (u = t)) as [->|]; [right; by rewrite lookup_delete_eq|]. rewrite lookup_delete_ne by done. by apply Hl.
Qed.

(** The target has [content], and the temporaries are no links. *)
Definition promoted (content : string) (s : Fs) : Prop := wrote p content s0 s ∧ plain_temporaries p s.

Lemma waiting_plain s : waiting p s0 s → plain_temporaries p s.
Proof. intros (_ & _ & Hl) t Ht. destruct (temporary_apart dir name t Ht) as [Hne _]. by destruct (Hl t Ht) as [?|]. Qed.

Lemma promote_kept t c : temporary p t → hoare (λ s, waiting p s0 s ∧ s !! t = Some (File c)) (on_fs (rename t p))
  (λ _, promoted c) (waiting p s0).
Proof.
  intros Ht. unfold on_fs, rename. apply hoare_map_err, hoare_map_err.
  apply hoare_err; [by intros s [Hs _]|].
  eapply hoare_conseq; [by intros s Hs; exact Hs| |by intros s Hs; exact Hs|apply hoare_std_rename].
  cbn. intros _ s (s1 & [Hw Hc] & ->). destruct (temporary_apart dir name t Ht) as (Hne & Hpt & Htp & _). split; [split|].
  - rewrite lookup_rename, decide_True by apply under_refl. by rewrite drop_all, app_nil_r.
  - destruct Hw as (_ & Ho & _). intros q Hq. rewrite lookup_rename, !decide_False; [by apply Ho| |].
    + intros Hu. apply Hq. right; left. by exists t.
    + intros Hu. apply Hq. by right; right.
  - intros u Hu. destruct (temporary_apart dir name u Hu) as (_ & _ & Hpu & _). rewrite lookup_rename, decide_False by done.
    destruct (decide (under t u)); [done|]. by apply (waiting_plain _ Hw).
Qed.

(** An atomic write of what [operation] puts into the temporary file: [φ] says how its
    answer and the text belong together. *)
Lemma write_atomically_hoare {A : Type} (operation : path → IO ResourcesError A) (φ : A → string → Prop) :
  (∀ t, temporary p t → hoare (λ s, waiting p s0 s ∧ s !! t = Some (File "")) (operation t)
    (λ a s, ∃ c, φ a c ∧ waiting p s0 s ∧ s !! t = Some (File c)) (waiting p s0)) →
  hoare (waiting p s0) (write_atomically_with p operation) (λ a s, ∃ c, φ a c ∧ promoted c s)
    (λ s, waiting p s0 s ∨ ∃ a c, φ a c ∧ promoted c s).
Proof.
  intros Hop. unfold write_atomically_with. eapply hoare_seq.
  { eapply hoare_err; [by intros s Hs; left|apply hoare_map_err, cache_parent_waiting]. }
  eapply (hoare_bind _ _ _ (λ t s, temporary p t ∧ waiting p s0 s)).
  { apply hoare_map_err. unfold temporary_path_for. eapply hoare_bind; [apply hoare_counter|]. intros n w Hw. split; [by exists n|done]. }
  intros t. apply hoare_pure. intros Ht. eapply (hoare_bind _ _ _ (λ a s, ∃ c, φ a c ∧ promoted c s)).
  - assert (hoare (waiting p s0) (value ← write_temporary_with t operation; _ ← on_fs (rename t p); mret value)
      (λ a s, ∃ c, φ a c ∧ promoted c s) (waiting p s0)) as Hm.
    { eapply (hoare_bind _ _ _ (λ a s, ∃ c, φ a c ∧ waiting p s0 s ∧ s !! t = Some (File c))).
      - unfold write_temporary_with. eapply hoare_seq; [by apply hoare_map_err, fill_cache_temporary|].
        eapply hoare_seq; [apply hoare_look; [apply changes_map_err, changes_at_path, changes_query|by intros s [Hs _]]|].
        eapply hoare_bind; [by apply Hop|]. intros a. eapply hoare_seq.
        + apply hoare_look; [apply changes_map_err, changes_at_path, changes_query|by intros s (c & _ & Hs & _)].
        + by intros w Hw.
      - intros a w (c & Hc & Hw). pose proof (promote_kept t c Ht w Hw) as Hp. unfold mbind, io_bind.
        destruct (on_fs (rename t p) w) as [[u|e] w1]; [by exists c|done]. }
    intros w Hw. specialize (Hm w Hw). unfold or_discard. destruct (mbind (M := IO ResourcesError) _ _ w) as [[a|e] w1]; [done|].
    left. by apply waiting_discarded.
  - intros a. apply (hoare_seq _ (λ s, ∃ c, φ a c ∧ promoted c s)); [|by intros w Hw].
    apply hoare_look; [|intros s (c & Hc & Hs); right; by exists a, c]. apply changes_map_err. unfold sync_parent_directory.
    destruct (parent p); [apply changes_at_path, changes_query|apply changes_ret].
Qed.

(** The target is the old file or the whole new text. *)
Lemma write_cache_hoare content : hoare (waiting p s0) (write_cache p content) (λ _, wrote p content s0) (whole p content s0).
Proof.
  eapply hoare_conseq; [by intros s Hs; exact Hs| | |apply (write_atomically_hoare _ (λ _ c, c = content))].
  - by intros _ s (c & -> & [Hs _]).
  - intros s [Hs|(a & c & -> & [Hp Ho] & _)]; [destruct Hs as (Hp & Ho & _); by split; [left|]|by split; [right|]].
  - intros t Ht. apply hoare_map_err. apply (hoare_pre _ (waiting p s0)); [by intros s [Hs _]|].
    eapply hoare_conseq; [by intros s Hs; exact Hs| |by intros s Hs; exact Hs|by apply fill_cache_temporary].
    intros _ s [Hs Hc]. by exists content.
Qed.
End atomic.

(** *** Confinement to the directory of the downloads *)

Section confinement.
Context `{Host}.
Variables (C L : path → Prop) (dir : path).
Hypothesis Hregion : region C L dir.

Lemma confined_discard {A : Type} (m : IO ResourcesError A) t : C t → confined C L m → confined C L (or_discard m t).
Proof.
  intros Ht Hm s0 w Hw. specialize (Hm s0 w Hw). unfold or_discard. destruct (m w) as [[a|e] w1]; [done|].
  pose proof (confined_missing C L tt _ (confined_map_err C L (fs_error t) _ (confined_remove_file C L t Ht)) s0 w1 Hm) as Hr.
  change (or_missing tt (io_map_err (fs_error t) (std_remove_file t))) with (remove_file_if_exists t) in Hr.
  by destruct (remove_file_if_exists t w1) as [[u|e'] w2].
Qed.

Lemma write_atomically_confined {A : Type} name (operation : path → IO ResourcesError A) :
  (∀ t, under dir t → confined C L (operation t)) → confined C L (write_atomically_with (dir ++ [name]) operation).
Proof.
  intros Hop s0. unfold write_atomically_with. eapply hoare_seq.
  { unfold cache_parent_dir. rewrite parent_below, app_nil_r. apply confined_map_err. apply confined_bind.
    - apply confined_map_err, confined_dirs, (region_above _ _ _ Hregion).
    - intros _u. apply confined_look, changes_at_path, changes_query. }
  eapply (hoare_bind _ _ _ (λ t s, under dir t ∧ within C L s0 s)).
  { apply hoare_map_err. unfold temporary_path_for. eapply hoare_bind; [apply hoare_counter|]. intros n w Hw.
    split; [|done]. by apply (temporary_inside dir name), (ex_intro _ n). }
  intros t. apply hoare_pure. intros Ht. destruct (region_below _ _ _ Hregion t Ht) as [HC HL]. revert s0. apply confined_bind.
  - apply confined_discard; [done|]. apply confined_bind.
    + unfold write_temporary_with. apply confined_bind; [by apply confined_map_err, confined_map_err, confined_write|intros _u].
      apply confined_bind; [apply confined_look, changes_map_err, changes_at_path, changes_query|intros _v].
      apply confined_bind; [by apply Hop|intros a]. apply confined_bind; [|intros _w; apply confined_ret].
      apply confined_look, changes_map_err, changes_at_path, changes_query.
    + intros a. apply confined_bind; [|intros _u; apply confined_ret]. apply confined_map_err, confined_map_err.
      apply (region_rename _ _ dir); [done..|apply under_app].
  - intros a. apply confined_bind; [|intros _u; apply confined_ret]. apply confined_look, changes_map_err. unfold sync_parent_directory.
    destruct (parent _); [apply changes_at_path, changes_query|apply changes_ret].
Qed.

Context (parse_rfc3339 : string → option Z) (url_parse : string → option ParsedUrl) (pkg_version : string).
Context (json_parse : string → result string RawManifest).
Context (client_get_text : string → IO ResourcesError string).
Hypothesis client_reads : ∀ url, changes (λ _, False) (client_get_text url).

Lemma load_cached_reads p : changes (λ _, False) (load_cached parse_rfc3339 url_parse pkg_version json_parse p).
Proof.
  unfold load_cached, read_cache, on_fs. apply changes_bind; [|intros json; apply changes_lift].
  apply changes_map_err, changes_at_path, changes_query.
Qed.

Lemma accept_confined name json : confined C L (accept_json parse_rfc3339 url_parse pkg_version json_parse (dir ++ [name]) json).
Proof.
  unfold accept_json. apply confined_bind; [apply confined_lift|intros manifest].
  apply confined_bind; [|intros _u; apply confined_ret]. unfold write_cache. apply write_atomically_confined.
  intros t Ht. destruct (region_below _ _ _ Hregion t Ht). by apply confined_map_err, confined_map_err, confined_write.
Qed.

Lemma refresh_confined name url :
  confined C L (refresh parse_rfc3339 url_parse pkg_version json_parse (dir ++ [name]) client_get_text url)
  ∧ confined C L (refresh_latest parse_rfc3339 url_parse pkg_version json_parse (dir ++ [name]) client_get_text url).
Proof.
  split; unfold refresh, refresh_latest; (apply confined_bind; [apply confined_lift|intros _u]).
  - apply confined_bind; [by apply confined_try, confined_look|]. intros [json|e]; [apply accept_confined|].
    destruct e; try apply confined_fail. intros s0 w Hw. pose proof (load_cached_reads (dir ++ [name])) as Hc.
    unfold cache_fallback. pose proof (confined_look C L _ Hc s0 w Hw) as Hr. by destruct (load_cached _ _ _ _ _ w) as [[m|e] w1].
  - apply confined_bind; [by apply confined_look|]. intros json. apply accept_confined.
Qed.
End confinement.

(** *** The cache always holds a manifest *)

Section refresh.
Context `{Host} (parse_rfc3339 : string → option Z) (url_parse : string → option ParsedUrl) (pkg_version : string).
Context (json_parse : string → result string RawManifest).
Context (client_get_text : string → IO ResourcesError string).
Hypothesis client_reads : ∀ url, changes (λ _, False) (client_get_text url).

Let parse_json := artifact_manifest_parse parse_rfc3339 url_parse pkg_version json_parse.

Variables (dir : path) (name : string).
Let p : path := dir ++ [name].

(** [refresh] over the tree [s0]: what it answers of the tree it leaves. *)
Definition refreshed (s0 : Fs) (r : ArtifactManifestRefresh) (s : Fs) : Prop :=
  others (touched p) s0 s ∧
  match mr_source r with
  | Latest => ∃ json, s !! p = Some (File json) ∧ parse_json json = Ok (mr_manifest r)
  | Cached _ => s = s0 ∧ ∃ json, read_node p s0 = Ok json ∧ parse_json json = Ok (mr_manifest r)
  end.

(** A failure leaves the old cache or a new one that is a manifest. *)
Definition refresh_failed (s0 s : Fs) : Prop :=
  others (touched p) s0 s ∧ (s !! p = s0 !! p ∨ ∃ json, s !! p = Some (File json) ∧ is_ok (parse_json json) = true).

Lemma failed_same s0 : refresh_failed s0 s0.
Proof. split; [done|by left]. Qed.

Lemma accept_json_hoare s0 json : plain_temporaries p s0 →
  hoare (λ s, s = s0) (accept_json parse_rfc3339 url_parse pkg_version json_parse p json) (refreshed s0) (refresh_failed s0).
Proof.
  intros Hl w Hw. unfold accept_json, mbind, io_bind, io_lift. fold parse_json. destruct (parse_json json) as [m|e] eqn:Hm; [|rewrite Hw; apply failed_same].
  assert (waiting p s0 (files w)) as Hwait by (rewrite Hw; split_and!; [done..|]; intros t Ht; right; by apply Hl).
  pose proof (write_cache_hoare dir name s0 json w Hwait) as Hs. change (dir ++ [name]) with p in Hs.
  destruct (write_cache p json w) as [[u|e] w1]; cbn.
  - destruct Hs as [Hp Ho]. split; [done|]. cbn. by exists json.
  - destruct Hs as [[Hp|Hp] Ho]; (split; [done|]); [by left|right]. exists json. by rewrite Hm.
Qed.

Lemma fallback_hoare s0 url e : hoare (λ s, s = s0)
  (cache_fallback parse_rfc3339 url_parse pkg_version json_parse p url e) (refreshed s0) (refresh_failed s0).
Proof.
  intros w Hw. unfold cache_fallback, load_cached, read_cache, on_fs, read_to_string, at_path, io_map_err, mbind, io_bind, io_lift, std_read_to_string, query, syscall.
  destruct (fault_at (clock w)); cbn; [rewrite Hw; apply failed_same|]. rewrite Hw. fold parse_json.
  destruct (read_node p s0) as [json|] eqn:Hr; cbn; [|apply failed_same].
  fold parse_json. destruct (parse_json json) as [m|] eqn:Hm; cbn; [|apply failed_same].
  split; [done|]. cbn. split; [done|]. by exists json.
Qed.

(** The cache of the artifact manifest never goes bad. A refresh leaves the old cache
    or a whole new text that is a valid manifest, whatever fails on the way; the manifest
    it answers is the one the cache then holds, and when it falls back on the cache the
    tree is as it was. *)
Theorem refresh_spec url w : plain_temporaries p (files w) →
  match refresh parse_rfc3339 url_parse pkg_version json_parse p client_get_text url w with
  | (Ok r, w') => refreshed (files w) r (files w')
  | (Err _, w') => refresh_failed (files w) (files w')
  end.
Proof.
  intros Hl. unfold refresh, mbind, io_bind, io_lift. destruct (validate_manifest_url url_parse url) as [u|e]; [|apply failed_same].
  unfold io_try. assert (files (client_get_text url w).2 = files w) as Hsame.
  { apply map_eq. intros q. apply (client_reads url w q). tauto. }
  destruct (client_get_text url w) as [[json|e] w1]; cbn in Hsame.
  - exact (accept_json_hoare (files w) json Hl w1 Hsame).
  - destruct e; try (unfold io_fail; cbn; rewrite Hsame; apply failed_same). exact (fallback_hoare (files w) _ _ w1 Hsame).
Qed.
End refresh.

(** *** A refresh *)

Definition sample_json_parse (json : string) : result string RawManifest :=
  if bool_decide (json = "{..}") then Ok sample_raw_manifest else Err "expected value".
Definition cache_file : path := ["home"; "downloads"; "manifest.json"].
Definition cached_world : World :=
  {| files := list_to_map [(["home"], Dir); (["home"; "downloads"], Dir); (cache_file, File "old")]; clock := 0; counter := 0 |}.

Definition sample_refresh (h : Host) : result ResourcesError ArtifactManifestRefresh * World :=
  refresh (H := h) sample_rfc3339 sample_url_parse "1.0.0" sample_json_parse cache_file (λ _, mret "{..}") "https://artifacts.test/manifest.json" cached_world.

Lemma refresh_spec_witness :
  files (sample_refresh (faulty_host None)).2 !! cache_file = Some (File "{..}")
  ∧ (files (sample_refresh (faulty_host (Some 3))).2 !! cache_file = Some (File "old")
     ∨ is_ok (artifact_manifest_parse sample_rfc3339 sample_url_parse "1.0.0" sample_json_parse
         (match files (sample_refresh (faulty_host (Some 3))).2 !! cache_file with Some (File json) => json | _ => "" end)) = true).
Proof.
  assert (∀ h, plain_temporaries (H := h) cache_file (files cached_world)) as Hl.
  { intros h t _. destruct (files cached_world !! t) as [n|] eqn:Hn; [|done].
    assert (map_Forall (λ _ n, is_link (Some n) = false) (files cached_world)) as Hall by (apply (bool_decide_eq_true_1 _); vm_compute; reflexivity).
    exact (Hall t n Hn). }
  assert (∀ h, match sample_refresh h with
    | (Ok r, w') => refreshed (H := h) sample_rfc3339 sample_url_parse "1.0.0" sample_json_parse ["home"; "downloads"] "manifest.json" (files cached_world) r (files w')
    | (Err _, w') => refresh_failed (H := h) sample_rfc3339 sample_url_parse "1.0.0" sample_json_parse ["home"; "downloads"] "manifest.json" (files cached_world) (files w')
    end) as Hspec.
  { intros h. assert (∀ url : string, changes (λ _, False) ((λ _, mret "{..}") url : IO ResourcesError string)) as Hc by (intros url; apply changes_ret).
    apply (refresh_spec (H := h) sample_rfc3339 sample_url_parse "1.0.0" sample_json_parse (λ _, mret "{..}") Hc ["home"; "downloads"] "manifest.json"), Hl. }
  split.
  - by vm_compute.
  - pose proof (Hspec (faulty_host (Some 3))) as Hs. destruct (sample_refresh (faulty_host (Some 3))) as [[r|e] w'] eqn:Hr; [exfalso; vm_compute in Hr; discriminate Hr|].
    destruct Hs as [_ [Hs|(json & Hs & Hok)]]; cbn [snd]; change (["home"; "downloads"] ++ ["manifest.json"]) with cache_file in Hs; rewrite Hs; [by left|by right].
Defined.
