(* ===== verification/ArtifactDownload.v ===== *)
(** * Downloading artifacts: [resources/src/download.rs] and the client of
    [resources/src/http.rs]

    [ureq] and [sha2] are parameters: a call of the agent answers the chunks that reading
    the body yields, and how it ends. The reports of the progress are left out; its count
    of bytes, which may overflow, is not. *)

From S2P Require Import Prelude RustStr Identity Manifest HostFs StateFs StatePaths ResourceCache.

Definition DOWNLOAD_ATTEMPTS : nat := 2.

Record ArtifactDownload := { ad_path : path; ad_from_cache : bool }.

(** [ureq::Error], and a body: what reading it yields before the end or an error. *)
Inductive UreqError : Type := StatusCode (status_code : nat) | UreqOther (text : string).
Record HttpBody := { hb_chunks : list string; hb_error : option string }.

Definition http_error (url : string) (source : UreqError) : ResourcesError :=
  match source with
  | StatusCode status_code => HttpStatusFailed url status_code
  | UreqOther text => HttpRequestFailed url text
  end.

Definition is_retriable_download_error (error : ResourcesError) : bool :=
  match error with
  | HttpRequestFailed _ _ => true
  | HttpStatusFailed _ status_code => bool_decide (status_code = 429) || ((500 <=? status_code)%nat && (status_code <=? 599)%nat)
  | _ => false
  end.

(** The text before the first [c]. *)
Definition before_first (c : ascii) (s : string) : string := default s (head (split c s)).

Definition artifact_file_name (url : string) : result ResourcesError string :=
  let without_fragment := before_first "#" url in
  let without_query := before_first "?" without_fragment in
  let file_name := default "" (last (split "/" without_query)) in
  if is_empty file_name || bool_decide (file_name = ".") || bool_decide (file_name = "..")
     || contains "/" file_name || contains BACKSLASH file_name
  then Err (InvalidArtifactUrl url) else Ok file_name.

(** What the hashing writer was given, and what the progress writer counted. *)
Record WriterState := { ws_hashed : string; ws_bytes : N }.
Definition writer_new : WriterState := {| ws_hashed := ""; ws_bytes := 0 |}.
Definition size_overflow : IoError := {| io_kind := OtherKind; io_text := "download size overflow" |}.

Section download.
Context `{Host}.
Context (agent_call : string → IO UreqError HttpBody) (sha256_hex : string → string).

(** [write] of an open file. *)
Definition append_text (p : path) (text : string) (fs : Fs) : Fs :=
  match fs !! p with Some (File c) => <[p := File (c +:+ text)]> fs | _ => fs end.
Definition std_append (p : path) (text : string) : IO IoError unit :=
  syscall (λ fs, Ok (tt, append_text p text fs))
    (λ f fs, if fault_reached f p then append_text p (str_take (fault_count f) text) fs else fs).

(** [HashingWriter] over [ProgressWriter] over the file. *)
Definition write_chunk (p : path) (st : WriterState) (buffer : string) : IO IoError WriterState :=
  _ ← std_append p buffer;
  let downloaded_bytes := (ws_bytes st + N.of_nat (len buffer))%N in
  if bool_decide (U64_MAX < downloaded_bytes)%N then io_fail size_overflow
  else mret {| ws_hashed := ws_hashed st +:+ buffer; ws_bytes := downloaded_bytes |}.

Fixpoint copy_body (url : string) (p : path) (st : WriterState) (chunks : list string) (ending : option string) :
    IO ResourcesError WriterState :=
  match chunks with
  | [] => match ending with None => mret st | Some reason => io_fail (HttpRequestFailed url reason) end
  | buffer :: chunks =>
      if is_empty buffer then mret st
      else
        st ← io_map_err (λ source, DownloadWriteFailed url (io_text source)) (write_chunk p st buffer);
        copy_body url p st chunks ending
  end.

(** [UreqResourceHttpClient::download]. *)
Definition client_download (url : string) (p : path) : IO ResourcesError WriterState :=
  response ← io_map_err (http_error url) (agent_call url);
  copy_body url p writer_new (hb_chunks response) (hb_error response).

Definition verify_checksum (artifact : ManifestArtifact) (actual : string) : result ResourcesError unit :=
  if bool_decide (actual = sha256_str (ma_sha256 artifact)) then Ok tt
  else Err (ArtifactChecksumMismatch (ma_url artifact) (sha256_str (ma_sha256 artifact)) actual).

Definition write_download (artifact : ManifestArtifact) (p : path) : IO ResourcesError unit :=
  write_atomically_with p (λ temporary_path,
    st ← client_download (ma_url artifact) temporary_path;
    io_lift (verify_checksum artifact (sha256_hex (ws_hashed st)))).

Fixpoint download_attempts (n : nat) (artifact : ManifestArtifact) (p : path) : IO ResourcesError unit :=
  match n with
  | O => write_download artifact p
  | S n =>
      written ← io_try (write_download artifact p);
      match written with
      | Err error => if is_retriable_download_error error then download_attempts n artifact p else io_fail error
      | Ok _ => mret tt
      end
  end.
Definition download_with_retry (artifact : ManifestArtifact) (p : path) : IO ResourcesError unit :=
  download_attempts (DOWNLOAD_ATTEMPTS - 1) artifact p.

(** ** The cache of the downloads *)

Definition hash_cached_file (p : path) : IO ResourcesError string :=
  content ← on_fs (read_to_string p); mret (sha256_hex content).

Definition cached_download (artifact : ManifestArtifact) (p : path) : IO ResourcesError (option ArtifactDownload) :=
  present ← path_exists p;
  if negb present then mret None
  else
    digest ← hash_cached_file p;
    if bool_decide (digest = sha256_str (ma_sha256 artifact)) then mret (Some {| ad_path := p; ad_from_cache := true |})
    else _ ← HostFs.remove_file_if_exists p; mret None.

Variable downloads_dir : path.

Definition artifact_cache_path (artifact : ManifestArtifact) : result ResourcesError path :=
  file_name ← artifact_file_name (ma_url artifact);
  Ok (join_path downloads_dir (sha256_str (ma_sha256 artifact) +:+ "-" +:+ file_name)).

Definition download (artifact : ManifestArtifact) : IO ResourcesError ArtifactDownload :=
  p ← io_lift (artifact_cache_path artifact);
  cached ← cached_download artifact p;
  match cached with
  | Some cached => mret cached
  | None => _ ← download_with_retry artifact p; mret {| ad_path := p; ad_from_cache := false |}
  end.
End download.

(** ** What the file of an artifact holds *)

Section properties.
Context `{Host}.
Context (agent_call : string → IO UreqError HttpBody) (sha256_hex : string → string).
(** A call of the network leaves the files. *)
Hypothesis agent_reads : ∀ url, changes (λ _, False) (agent_call url).
Variables (dir : path) (name : string).
Let p : path := dir ++ [name].

(** Streaming: what was hashed is what the temporary file has. *)
Section streaming.
Variables (s0 : Fs) (t : path).
Hypothesis Ht : temporary p t.

Definition streamed (st : WriterState) (s : Fs) : Prop := waiting p s0 s ∧ s !! t = Some (File (ws_hashed st)).

Lemma append_streamed st text : hoare (streamed st) (std_append t text)
  (λ _ s, waiting p s0 s ∧ s !! t = Some (File (ws_hashed st +:+ text))) (waiting p s0).
Proof.
  assert (∀ s x, streamed st s → waiting p s0 (append_text t x s) ∧ append_text t x s !! t = Some (File (ws_hashed st +:+ x))) as Happ.
  { intros s x [Hw Hc]. unfold append_text. rewrite Hc. split; [by apply insert_temporary|by rewrite lookup_insert_eq]. }
  apply hoare_syscall.
  - intros s [] s' Hs [= <-]. by apply Happ.
  - by intros s [Hs _].
  - intros f s Hs. destruct (fault_reached f t); [by apply (Happ s)|by destruct Hs].
Qed.

Lemma write_chunk_streamed st buffer : hoare (streamed st) (write_chunk t st buffer) (λ st', streamed st') (waiting p s0).
Proof.
  unfold write_chunk. eapply hoare_seq; [apply append_streamed|]. cbn zeta. intros w [Hw Hc]. by case_bool_decide.
Qed.

Lemma copy_streamed url chunks ending st : hoare (streamed st) (copy_body url t st chunks ending) (λ st', streamed st') (waiting p s0).
Proof.
  revert st. induction chunks as [|buffer chunks IH]; intros st; cbn [copy_body].
  - destruct ending; [by intros w [Hw _]|by intros w Hw].
  - destruct (is_empty buffer); [by intros w Hw|]. eapply hoare_bind; [apply hoare_map_err, write_chunk_streamed|apply IH].
Qed.

Lemma client_streamed url : hoare (λ s, waiting p s0 s ∧ s !! t = Some (File "")) (client_download agent_call url t)
  (λ st, streamed st) (waiting p s0).
Proof.
  unfold client_download. eapply hoare_bind.
  - apply hoare_map_err, hoare_look; [apply agent_reads|by intros s [Hs _]].
  - intros response. exact (copy_streamed url (hb_chunks response) (hb_error response) writer_new).
Qed.
End streaming.

Variable artifact : ManifestArtifact.
(** The text is the artifact's, as far as its digest says. *)
Definition verified (c : string) : Prop := sha256_hex c = sha256_str (ma_sha256 artifact).

Lemma write_download_hoare s0 : hoare (waiting p s0) (write_download agent_call sha256_hex artifact p)
  (λ _ s, ∃ c, verified c ∧ promoted dir name s0 c s) (λ s, waiting p s0 s ∨ ∃ c, verified c ∧ promoted dir name s0 c s).
Proof.
  eapply hoare_conseq; [by intros s Hs; exact Hs|by intros a s Hs; exact Hs| |apply (write_atomically_hoare dir name s0 _ (λ _ c, verified c))].
  - intros s [Hs|(a & Hs)]; [by left|by right].
  - intros t Ht. eapply hoare_bind; [by apply client_streamed|]. intros st w [Hw Hc]. unfold io_lift, verify_checksum.
    case_bool_decide as Hd; [|done]. by exists (ws_hashed st).
Qed.

(** Over attempts: the target is the old one or a verified one. *)
Definition attempted (s0 s : Fs) : Prop :=
  others (touched p) s0 s ∧ plain_temporaries p s ∧ (s !! p = s0 !! p ∨ ∃ c, verified c ∧ s !! p = Some (File c)).
Definition downloaded (s0 s : Fs) : Prop := others (touched p) s0 s ∧ plain_temporaries p s ∧ ∃ c, verified c ∧ s !! p = Some (File c).

Lemma attempt_hoare s0 : hoare (attempted s0) (write_download agent_call sha256_hex artifact p) (λ _, downloaded s0) (attempted s0).
Proof.
  intros w (Ho & Hpl & Hp). assert (waiting p (files w) (files w)) as Hw by (split_and!; [done..|]; intros t Ht; right; by apply Hpl).
  pose proof (write_download_hoare (files w) w Hw) as Hd.
  assert (∀ c s, verified c → promoted dir name (files w) c s → downloaded s0 s) as Hgood.
  { intros c s Hc [[Hs Hos] Hpls]. split_and!; [|done|by exists c]. intros q Hq. by rewrite Hos, Ho. }
  destruct (write_download _ _ _ _ w) as [[u|e] w1].
  - destruct Hd as (c & Hc & Hs). by eapply Hgood.
  - destruct Hd as [Hs|(c & Hc & Hs)].
    + pose proof (waiting_plain dir name (files w) _ Hs) as Hpls. destruct Hs as (Hs & Hos & _). split_and!; [|done|by rewrite Hs].
      intros q Hq. by rewrite Hos, Ho.
    + destruct (Hgood c _ Hc Hs) as (? & ? & c' & ? & ?). split_and!; [done..|]. right. by exists c'.
Qed.

Lemma attempts_hoare s0 n : hoare (attempted s0) (download_attempts agent_call sha256_hex n artifact p) (λ _, downloaded s0) (attempted s0).
Proof.
  induction n as [|n IH]; cbn [download_attempts]; [apply attempt_hoare|].
  intros w Hw. pose proof (attempt_hoare s0 w Hw) as Ha. unfold mbind, io_bind, io_try.
  destruct (write_download _ _ _ _ w) as [[u|e] w1]; [done|]. destruct (is_retriable_download_error e); [by apply IH|done].
Qed.

(** Before the download: what is there is kept, or deleted because its digest is wrong. *)
Definition looked_up (s0 : Fs) (r : option ArtifactDownload) (s : Fs) : Prop :=
  match r with
  | Some d => d = {| ad_path := p; ad_from_cache := true |} ∧ s = s0 ∧ ∃ c, verified c ∧ read_node p s = Ok c
  | None => s = s0 ∨ s = delete p s0
  end.

Lemma cached_hoare s0 : hoare (λ s, s = s0) (cached_download sha256_hex artifact p) (looked_up s0) (λ s, s = s0 ∨ s = delete p s0).
Proof.
  unfold cached_download. eapply hoare_bind; [apply hoare_look; [auto with pv|by left]|].
  intros present. destruct present; cbn [negb]; [|by intros w Hw; left].
  eapply (hoare_bind _ _ _ (λ digest s, s = s0 ∧ ∃ c, digest = sha256_hex c ∧ read_node p s0 = Ok c)).
  { intros w Hw. unfold hash_cached_file, on_fs, read_to_string, at_path, mbind, io_bind, io_map_err, std_read_to_string, query, syscall.
    destruct (fault_at (clock w)); cbn; [by left|]. rewrite Hw. destruct (read_node p s0) as [c|] eqn:Hr; cbn; [|by left].
    split; [done|]. by exists c. }
  intros digest. case_bool_decide as Hd.
  - intros w [Hw (c & Hc & Hr)]. split_and!; [done..|]. exists c. unfold verified. rewrite Hw. by rewrite <-Hc.
  - eapply (hoare_seq _ (λ s, s = s0 ∨ s = delete p s0)); [|by intros w Hw].
    eapply (hoare_conseq _ (λ s, s = s0 ∧ s0 !! p ≠ Some Dir)); [| | |apply (hoare_remove_file (λ s, s = s0 ∧ s0 !! p ≠ Some Dir))].
    + intros s (-> & c & _ & Hr). split; [done|]. intros Hdir. unfold read_node in Hr.
      rewrite resolve_plain in Hr by (by rewrite Hdir). by rewrite Hdir in Hr.
    + cbn beta. intros _ s (s1 & [-> _] & ->). by right.
    + intros s Hs. exact Hs.
    + by intros s [-> Hs].
    + intros s [-> _]. by left.
Qed.
End properties.

Lemma artifact_file_name_lacks url file_name : artifact_file_name url = Ok file_name → lacks "/" file_name = true.
Proof.
  unfold artifact_file_name. destruct (_ || contains BACKSLASH _) eqn:Hb; [done|]. intros [= <-]. split_bools.
  rewrite contains_lacks in *. by split_bools.
Qed.

Lemma cache_name_plain digest file_name : str_all is_ascii_hexdigit digest = true → lacks "/" file_name = true →
  plain_name (digest +:+ "-" +:+ file_name).
Proof.
  intros Hd Hf. split.
  - unfold kept_piece. apply andb_true_iff. split; [by destruct digest|]. apply negb_true_iff, bool_decide_eq_false.
    destruct digest as [|a digest]; [done|]. intros [= -> Hs]. by destruct digest.
  - rewrite !lacks_app, Hf, andb_true_r. revert Hd. apply str_all_impl. intros d Hd. apply negb_true_iff. unfold char_eqb. destruct (Ascii.eqb_spec d "/") as [->|]; [|done]. by vm_compute in Hd.
Qed.

(** *** Confinement to the directory of the downloads *)

Section confinement.
Context `{Host}.
Context (agent_call : string → IO UreqError HttpBody) (sha256_hex : string → string).
Hypothesis agent_reads : ∀ url, changes (λ _, False) (agent_call url).
Variables (C L : path → Prop) (dir : path).
Hypothesis Hregion : region C L dir.

Lemma append_confined p text : C p → confined C L (std_append p text).
Proof.
  intros HC s0. assert (∀ s x, within C L s0 s → within C L s0 (append_text p x s)) as Happ.
  { intros s x Hs. unfold append_text. destruct (s !! p) as [[]|]; [by apply within_insert|done..]. }
  apply hoare_syscall; [|done|].
  - intros s [] s' Hs [= <-]. by apply Happ.
  - intros f s Hs. destruct (fault_reached f p); [by apply Happ|done].
Qed.

Lemma copy_confined url p chunks ending st : C p → confined C L (copy_body url p st chunks ending).
Proof.
  intros HC. revert st. induction chunks as [|buffer chunks IH]; intros st; cbn [copy_body].
  - destruct ending; [apply confined_fail|apply confined_ret].
  - destruct (is_empty buffer); [apply confined_ret|]. apply confined_bind; [|apply IH]. apply confined_map_err.
    unfold write_chunk. apply confined_bind; [by apply append_confined|intros _u]. cbn zeta.
    case_bool_decide; [apply confined_fail|apply confined_ret].
Qed.

Lemma write_download_confined artifact name : confined C L (write_download agent_call sha256_hex artifact (dir ++ [name])).
Proof.
  apply write_atomically_confined; [done|]. intros t Ht. destruct (region_below _ _ _ Hregion t Ht).
  apply confined_bind; [|intros st; apply confined_lift]. unfold client_download.
  apply confined_bind; [by apply confined_map_err, confined_look|intros response]. by apply copy_confined.
Qed.

Lemma download_confined artifact : str_all is_ascii_hexdigit (sha256_str (ma_sha256 artifact)) = true →
  confined C L (download agent_call sha256_hex dir artifact).
Proof.
  intros Hdigest. unfold download, artifact_cache_path.
  destruct (artifact_file_name (ma_url artifact)) as [file_name|e] eqn:Hname; [|intros s0 w Hw; exact Hw].
  cbn [mbind result_bind]. rewrite join_plain by (apply cache_name_plain; [done|by eapply artifact_file_name_lacks]).
  set (p := dir ++ [_ +:+ _]). assert (C p ∧ L p) as [HC HL] by (apply (region_below _ _ _ Hregion), under_app).
  assert (confined C L (cached ← cached_download sha256_hex artifact p;
    match cached with
    | Some cached => mret cached
    | None => _ ← download_with_retry agent_call sha256_hex artifact p; mret {| ad_path := p; ad_from_cache := false |}
    end)) as Hrest; [|intros s0 w Hw; exact (Hrest s0 w Hw)].
  apply confined_bind.
  - unfold cached_download. apply confined_bind; [apply confined_look, changes_path_exists|]. intros [|]; [|apply confined_ret].
    apply confined_bind.
    + apply confined_bind; [|intros content; apply confined_ret]. apply confined_map_err, confined_look, changes_at_path, changes_query.
    + intros digest. cbn [negb]. case_bool_decide; [apply confined_ret|]. apply confined_bind; [|intros _u; apply confined_ret].
      by apply confined_if_exists, confined_remove_file.
  - intros [cached|]; [apply confined_ret|]. apply confined_bind; [|intros _u; apply confined_ret].
    unfold download_with_retry. generalize (DOWNLOAD_ATTEMPTS - 1). induction n as [|n IH]; cbn [download_attempts]; [apply write_download_confined|].
    apply confined_bind; [apply confined_try, write_download_confined|]. intros [u|e]; [apply confined_ret|].
    destruct (is_retriable_download_error e); [done|apply confined_fail].
Qed.
End confinement.

(** C37: A download is never taken for what it is not. The file that a success answers has the
    digest that the manifest gives for the artifact, whether it was there already, in which
    case nothing changed, or was fetched, in one or two attempts. Whatever fails on the way
    — the network in the middle of the body, the disk, a wrong digest — the file is the one
    of before, or none, or a verified one, never a part of one, and nothing else changes but
    the directories above and its temporaries. *)
Theorem download_verified `{Host} agent_call sha256_hex downloads_dir artifact q w :
  (∀ url, changes (λ _, False) (agent_call url)) →
  str_all is_ascii_hexdigit (sha256_str (ma_sha256 artifact)) = true →
  artifact_cache_path downloads_dir artifact = Ok q → plain_temporaries q (files w) →
  match download agent_call sha256_hex downloads_dir artifact w with
  | (Ok d, w') => ad_path d = q ∧ others (touched q) (files w) (files w')
      ∧ (∃ c, verified sha256_hex artifact c ∧ read_node q (files w') = Ok c)
      ∧ (ad_from_cache d = true → files w' = files w)
  | (Err _, w') => others (touched q) (files w) (files w')
      ∧ (files w' !! q = files w !! q ∨ files w' !! q = None ∨ ∃ c, verified sha256_hex artifact c ∧ files w' !! q = Some (File c))
  end.
Proof.
  intros Hagent Hdigest Hq Hpl. unfold download, mbind, io_bind, io_lift. rewrite Hq. unfold artifact_cache_path in Hq.
  destruct (artifact_file_name (ma_url artifact)) as [file_name|] eqn:Hname; [|done]. cbn in Hq.
  rewrite join_plain in Hq by (apply cache_name_plain; [done|by eapply artifact_file_name_lacks]). injection Hq as <-.
  set (name := _ +:+ _) in *. set (q := downloads_dir ++ [name]) in *.
  pose proof (cached_hoare sha256_hex downloads_dir name artifact (files w) w eq_refl) as Hc. fold q in Hc.
  assert (∀ s, s = files w ∨ s = delete q (files w) → others (touched q) (files w) s ∧ plain_temporaries q s ∧ (s !! q = files w !! q ∨ s !! q = None)) as Hstart.
  { intros s [->| ->]; [by split_and!; [..|left]|]. split_and!.
    - intros x Hx. rewrite lookup_delete_ne; [done|]. intros ->. apply Hx. right; right. apply under_refl.
    - intros t Ht. destruct (decide (t = q)) as [->|]; [by rewrite lookup_delete_eq|]. rewrite lookup_delete_ne by done. by apply Hpl.
    - right. by rewrite lookup_delete_eq. }
  destruct (cached_download _ _ _ w) as [[[d|]|e] w1].
  - destruct Hc as (-> & Hs & c & Hv & Hr). unfold mret, io_ret. rewrite Hs. split_and!; [done|done|by exists c; rewrite <-Hs|done].
  - destruct (Hstart _ Hc) as (Ho & Hpls & Hp). pose proof (attempts_hoare agent_call sha256_hex Hagent downloads_dir name artifact (files w1)
      (DOWNLOAD_ATTEMPTS - 1) w1) as Ha. fold q in Ha. unfold download_with_retry.
    assert (attempted sha256_hex downloads_dir name artifact (files w1) (files w1)) as Hat by (by split_and!; [..|left]).
    specialize (Ha Hat). unfold mret, io_ret. destruct (download_attempts _ _ _ _ _ w1) as [[u|e] w2].
    + destruct Ha as (Ho2 & _ & c & Hv & Hf). change (files w2 !! q = Some (File c)) in Hf. split_and!; [done| |exists c; split; [done|]|done].
      * intros x Hx. by rewrite Ho2, Ho.
      * unfold read_node. rewrite resolve_plain by (by rewrite Hf). by rewrite Hf.
    + destruct Ha as (Ho2 & _ & Hf). split; [intros x Hx; by rewrite Ho2, Ho|]. destruct Hf as [Hf|(c & Hv & Hf)].
      * change (files w2 !! q = files w1 !! q) in Hf. rewrite Hf. destruct Hp as [?|?]; [by left|by right; left].
      * right; right. by exists c.
  - destruct (Hstart _ Hc) as (Ho & _ & [Hp|Hp]); (split; [done|]); [by left|by right; left].
Qed.

(** *** A download in two chunks *)

Definition sample_digest : string := "00000000000000000000000000000000000000000000000000000000000000ab".
Definition sample_sha256 (s : string) : string := if bool_decide (s = "artifact") then sample_digest else "other".
Definition redis_artifact : ManifestArtifact := {|
  ma_resource_name := {| resource_name_str := "redis" |}; ma_track := {| track_name_str := "7.2" |};
  ma_artifact_version := {| artifact_version_str := "7.2.1-pv1" |}; ma_upstream_version := "7.2.1"; ma_pv_build_revision := "pv1";
  ma_platform := AnyPlatform; ma_url := "https://artifacts.test/redis.tar.gz?x=1"; ma_sha256 := {| sha256_str := sample_digest |};
  ma_size := 8; ma_published_at := {| published_instant := 0 |}; ma_php_extensions := []; ma_revocation_state := Active |}.
Definition downloads : path := ["home"; "downloads"].
Definition redis_file : path := downloads ++ [sample_digest +:+ "-redis.tar.gz"].
Definition downloads_world : World :=
  {| files := list_to_map [(["home"], Dir); (downloads, Dir); (redis_file, File "stale")]; clock := 0; counter := 0 |}.
Definition sample_agent (url : string) : IO UreqError HttpBody := mret {| hb_chunks := ["arti"; "fact"]; hb_error := None |}.
Definition sample_download (h : Host) : result ResourcesError ArtifactDownload * World :=
  download (H := h) sample_agent sample_sha256 downloads redis_artifact downloads_world.

Lemma download_verified_witness :
  files (sample_download (faulty_host None)).2 !! redis_file = Some (File "artifact")
  ∧ is_ok (sample_download (faulty_host (Some 5))).1 = false
  ∧ (files (sample_download (faulty_host (Some 5))).2 !! redis_file = Some (File "stale")
     ∨ files (sample_download (faulty_host (Some 5))).2 !! redis_file = None
     ∨ ∃ c, verified sample_sha256 redis_artifact c
         ∧ files (sample_download (faulty_host (Some 5))).2 !! redis_file = Some (File c)).
Proof.
  assert (∀ h, plain_temporaries (H := h) redis_file (files downloads_world)) as Hl.
  { intros h t _. destruct (files downloads_world !! t) as [n|] eqn:Hn; [|done].
    assert (map_Forall (λ _ n, is_link (Some n) = false) (files downloads_world)) as Hall by (apply (bool_decide_eq_true_1 _); vm_compute; reflexivity).
    exact (Hall t n Hn). }
  pose proof (λ h, download_verified (H := h) sample_agent sample_sha256 downloads redis_artifact redis_file downloads_world
    (λ url, changes_ret _ _) ltac:(vm_compute; reflexivity) ltac:(vm_compute; reflexivity) (Hl h)) as Hspec.
  pose proof (Hspec (faulty_host (Some 5))) as Hf.
  split; [vm_compute; reflexivity|].
  split; [vm_compute; reflexivity|].
  unfold sample_download in *. destruct (download (H := faulty_host (Some 5)) _ _ _ _ _) as [[d|e] w'] eqn:Hr; [exfalso; vm_compute in Hr; discriminate Hr|].
  destruct Hf as [_ Hf]. exact Hf.
Defined.
