(* ===== verification/ResourceCommands.v ===== *)
(** * The commands on managed resources ([resources/src/command.rs]) and the adapters of the
    runtimes ([resources/src/runtime.rs])

    A command works on the database, the files and the network at once: it looks an
    artifact up in the manifest, fetches and installs it, and records what is installed.
    Parameters: those of the manifest's cache, the downloads and the installer; what
    connecting to the database does to its files; the clock. *)

From S2P Require Import Prelude RustStr Paths Identity Registry Manifest HostFs Installer StateFs StatePaths.
From S2P Require Import ResourceCache ArtifactDownload PhpRuntimes.
From S2P Require Import StateTypes StateDb StateIds StateResources Effects.

(** ** Data *)

Inductive CommandError : Type :=
| CmdResources (e : ResourcesError)
| CmdState (e : StateError)
| TrackNotInstalled (resource track : string)
| TrackInUse (resource track : string) (usage_count : Z)
| RollbackFailed (original_error : CommandError) (rollback_error : ResourcesError).

(** [dyn ResourceAdapter]: the resource, and the check of an unpacked tree. *)
Record ResourceAdapter := {
  ad_resource_name : ResourceName;
  ad_validate : (path → option node) → result ResourcesError unit;
}.

Record ManagedResourceRevokedLatest := { rl_artifact_version : ArtifactVersion; rl_reason : string }.
Record ManagedResourceInstall := {
  mi_resource_name : ResourceName;
  mi_track : TrackName;
  mi_artifact_version : ArtifactVersion;
  mi_current_artifact_path : path;
  mi_manifest_source : ArtifactManifestSource;
  mi_revoked_latest : option ManagedResourceRevokedLatest;
  mi_downloaded_from_cache : bool;
  mi_artifact_install : ArtifactInstall;
}.

Inductive ManagedResourceUpdateStatus : Type := Current | UpdateAvailable | Blocked | RevokedStatus | Unavailable.
Record ManagedResourceUpdateRevocation := { ur_artifact_version : ArtifactVersion; ur_reason : string }.
Record ManagedResourceUpdateBlocker := { minimum_pv_version : string; current_pv_version : string }.
Record ManagedResourceTrack := {
  mt_resource_name : ResourceName;
  mt_track : TrackName;
  mt_installed_version : ArtifactVersion;
  mt_current_artifact_path : string;
  mt_usage_count : Z;
}.
Record ManagedResourceUpdateCheckTrack := {
  uc_status : ManagedResourceUpdateStatus;
  uc_resource_name : ResourceName;
  uc_track : TrackName;
  uc_current_artifact_version : ArtifactVersion;
  uc_current_artifact_path : string;
  uc_latest_artifact_version : option ArtifactVersion;
  uc_current_revocation : option ManagedResourceUpdateRevocation;
  uc_latest_revocation : option ManagedResourceUpdateRevocation;
  uc_blocked_by : option ManagedResourceUpdateBlocker;
  uc_reason : option string;
}.
Record PhpPairInstall := { pp_php : ManagedResourceInstall; pp_frankenphp : ManagedResourceInstall }.
Record ComposerWithPhpPairInstall := { cp_php_pair : PhpPairInstall; cp_composer : ManagedResourceInstall }.
Record ManagedResourceRemovalIntent := { mri_resource_name : ResourceName; mri_track : TrackName; mri_prune : bool; mri_force : bool }.
Record PhpPairRemovalIntent := { pr_php : ManagedResourceRemovalIntent; pr_frankenphp : ManagedResourceRemovalIntent }.
Record ManagedResourceUninstallOptions := { opt_prune : bool; opt_force : bool }.

(** ** The adapters of the runtimes *)

Record RuntimeArtifactAdapter := {
  rt_resource_name : ResourceName;
  rt_executable_relative_path : string;
  rt_required_file_relative_paths : list string;
}.

(** [fs::path_is_file(root.join(relative))] over the tree below [root]: releases have no
    links, and a file is below directories. *)
Definition file_at (t : path → option node) (relative : string) : bool :=
  let p := join_path [] relative in
  forallb (λ n, bool_decide (t (take n p) = Some Dir)) (seq 0 (length p))
  && match t p with Some (File _) => true | _ => false end.

Definition invalid_layout (name : ResourceName) (reason : string) : ResourcesError :=
  InvalidArtifactLayout (resource_name_str name) reason.

Fixpoint require_files (name : ResourceName) (t : path → option node) (required : list string) : result ResourcesError unit :=
  match required with
  | [] => Ok tt
  | required_file :: required =>
      if file_at t required_file then require_files name t required
      else Err (invalid_layout name ("missing required file " +:+ tick required_file))
  end.

Definition runtime_validate (a : RuntimeArtifactAdapter) (t : path → option node) : result ResourcesError unit :=
  if file_at t (rt_executable_relative_path a)
  then require_files (rt_resource_name a) t (rt_required_file_relative_paths a)
  else Err (invalid_layout (rt_resource_name a) ("missing executable " +:+ tick (rt_executable_relative_path a))).

Definition as_adapter (a : RuntimeArtifactAdapter) : ResourceAdapter :=
  {| ad_resource_name := rt_resource_name a; ad_validate := runtime_validate a |}.

Definition runtime_adapter (name executable : string) (required : list string) : result ResourcesError RuntimeArtifactAdapter :=
  resource_name ← resource_name_new name;
  Ok {| rt_resource_name := resource_name; rt_executable_relative_path := executable; rt_required_file_relative_paths := required |}.
Definition php_adapter : result ResourcesError RuntimeArtifactAdapter := runtime_adapter "php" "bin/php" [].
Definition frankenphp_adapter : result ResourcesError RuntimeArtifactAdapter := runtime_adapter "frankenphp" "bin/frankenphp" [].
Definition composer_adapter : result ResourcesError RuntimeArtifactAdapter := runtime_adapter "composer" "composer.phar" [].
Definition mailpit_adapter : result ResourcesError RuntimeArtifactAdapter := runtime_adapter "mailpit" "bin/mailpit" [].
Definition redis_adapter : result ResourcesError RuntimeArtifactAdapter := runtime_adapter "redis" "bin/redis-server" [].
Definition rustfs_adapter : result ResourcesError RuntimeArtifactAdapter := runtime_adapter "rustfs" "bin/rustfs" [].
Definition mysql_adapter : result ResourcesError RuntimeArtifactAdapter := runtime_adapter "mysql" "bin/mysqld" [].
Definition postgres_adapter : result ResourcesError RuntimeArtifactAdapter :=
  runtime_adapter "postgres" "bin/postgres" ["bin/initdb"; "share/postgres.bki"].

(** ** The state of a command *)

Record Shell := { sh_db : Db; sh_world : World; sh_ticks : nat }.
Definition sh_files (s : Shell) : Fs := files (sh_world s).

Definition db_part : part Shell Db := {|
  get_part := sh_db; set_part := λ d s, {| sh_db := d; sh_world := sh_world s; sh_ticks := sh_ticks s |} |}.
Definition world_part : part Shell World := {|
  get_part := sh_world; set_part := λ w s, {| sh_db := sh_db s; sh_world := w; sh_ticks := sh_ticks s |} |}.

Definition cmd (A : Type) : Type := eff Shell CommandError A.

Definition on_world {A : Type} (m : IO ResourcesError A) : cmd A := on_part world_part CmdResources m.
Definition on_state_world {A : Type} (m : IO StateError A) : cmd A := on_part world_part CmdState m.
Definition cmd_lift {A : Type} (r : result ResourcesError A) : cmd A := eff_lift (map_err CmdResources r).

(** A call of the database, one transaction: [now] answers for each the time it stores, or
    the error of SQLite that ends it and leaves the tables alone. *)
Definition on_db {A : Type} (now : nat → result StateError string) (m : string → Op A) : cmd A := λ s,
  let '(r, d) := match now (sh_ticks s) with Ok time => m time (sh_db s) | Err e => (Err e, sh_db s) end in
  (map_err CmdState r, {| sh_db := d; sh_world := sh_world s; sh_ticks := S (sh_ticks s) |}).
Definition read_db {A : Type} (now : nat → result StateError string) (f : Db → result StateError A) : cmd A :=
  on_db now (λ _ d, (f d, d)).

(** ** Installing *)

Definition revocation_reason (s : RevocationState) : string := match s with Revoked reason => reason | Active => "" end.
Definition revoked_fallback_from_artifact (a : ManifestArtifact) : ManagedResourceRevokedLatest :=
  {| rl_artifact_version := ma_artifact_version a; rl_reason := revocation_reason (ma_revocation_state a) |}.
Definition composer_track : result ResourcesError TrackName := track_name_new "2".

Section commands.
Context `{Host} `{Json}.
Context {Entry : Type} (entry_type : Entry → EntryType) (entry_path : Entry → result IoError string).
Context (open_archive : path → IO ResourcesError (list (result IoError Entry))) (unpack : Entry → path → IO IoError unit).
Context (agent_call : string → IO UreqError HttpBody) (sha256_hex : string → string).
Context (client_get_text : string → IO ResourcesError string).
Context (parse_rfc3339 : string → option Z) (url_parse : string → option ParsedUrl) (pkg_version : string).
Context (json_parse : string → result string RawManifest).
Context (PHP_TRACK_DEFAULT_INI : string).
(** What [Connection::open], the permissions of its files and the migrations do to the files. *)
Context (connect : IO StateError unit) (now : nat → result StateError string).
(** The fields of [ManagedResourceCommands]. *)
Context (paths : PvPaths) (manifest_url : string) (target_platform : TargetPlatform).

Definition database_open : cmd unit :=
  on_state_world (_ ← io_map_err from_fs_error (ensure_layout paths); connect).

Definition refresh_manifest : cmd ArtifactManifestRefresh :=
  on_world (refresh parse_rfc3339 url_parse pkg_version json_parse (cache_path (pv_downloads paths)) client_get_text manifest_url).
Definition refresh_latest_manifest : cmd ArtifactManifestRefresh :=
  on_world (refresh_latest parse_rfc3339 url_parse pkg_version json_parse (cache_path (pv_downloads paths)) client_get_text manifest_url).

Definition installer_install_existing (adapter : ResourceAdapter) : TrackName → ManifestArtifact → IO ResourcesError (option ArtifactInstall) :=
  install_existing_release (ad_resource_name adapter) (ad_validate adapter) (pv_resources paths).
Definition installer_install (adapter : ResourceAdapter) : TrackName → ManifestArtifact → path → IO ResourcesError ArtifactInstall :=
  Installer.install entry_type entry_path open_archive unpack (ad_resource_name adapter) (ad_validate adapter) (pv_resources paths).

Definition fetch_and_install (adapter : ResourceAdapter) (track : TrackName) (artifact : ManifestArtifact) :
    IO ResourcesError (ArtifactInstall * bool) :=
  existing ← installer_install_existing adapter track artifact;
  match existing with
  | Some existing_install => mret (existing_install, false)
  | None =>
      download ← download agent_call sha256_hex (pv_downloads paths) artifact;
      install ← installer_install adapter track artifact (ad_path download);
      mret (install, ad_from_cache download)
  end.

Definition install_selected_artifact (adapter : ResourceAdapter) (track : TrackName) (artifact : ManifestArtifact)
    (revoked_latest : option ManagedResourceRevokedLatest) (manifest_source : ArtifactManifestSource) : cmd ManagedResourceInstall :=
  installed ← on_world (fetch_and_install adapter track artifact);
  mret {| mi_resource_name := ad_resource_name adapter; mi_track := track;
          mi_artifact_version := ma_artifact_version artifact;
          mi_current_artifact_path := ai_release_path installed.1; mi_manifest_source := manifest_source;
          mi_revoked_latest := revoked_latest; mi_downloaded_from_cache := installed.2;
          mi_artifact_install := installed.1 |}.

Definition select (adapter : ResourceAdapter) (track : TrackName) (manifest : ArtifactManifest) : cmd ManifestSelection :=
  cmd_lift (select_latest (ad_resource_name adapter) track target_platform manifest).
Definition validate_install_selection (adapter : ResourceAdapter) (track : TrackName) (manifest : ArtifactManifest) : cmd unit :=
  _ ← select adapter track manifest; mret tt.

Definition record_desired (name : ResourceName) (track : TrackName) : cmd unit :=
  _ ← on_db now (record_managed_resource_track_desired (resource_name_str name) (track_name_str track) StateTypes.Installed);
  mret tt.
Definition record_installed (install : ManagedResourceInstall) : cmd unit :=
  _ ← on_db now (record_managed_resource_track_installed (resource_name_str (mi_resource_name install))
        (track_name_str (mi_track install)) (artifact_version_str (mi_artifact_version install))
        (path_str (mi_current_artifact_path install)));
  mret tt.

Definition install_track (adapter : ResourceAdapter) (track : TrackName) (manifest : ArtifactManifest)
    (manifest_source : ArtifactManifestSource) : cmd ManagedResourceInstall :=
  selection ← select adapter track manifest;
  let revoked_latest := revoked_fallback_from_artifact <$> selection_revoked_latest selection in
  _ ← database_open;
  _ ← record_desired (ad_resource_name adapter) track;
  install ← install_selected_artifact adapter track (selection_artifact selection) revoked_latest manifest_source;
  _ ← record_installed install;
  mret install.

Definition install_with_progress (adapter : ResourceAdapter) (selector : TrackSelector) : cmd ManagedResourceInstall :=
  _ ← cmd_lift (resolve_canonical (resource_name_str (ad_resource_name adapter)));
  refresh ← refresh_manifest;
  track ← cmd_lift (resolve_track (ad_resource_name adapter) selector (mr_manifest refresh));
  install_track adapter track (mr_manifest refresh) (mr_source refresh).

Definition prepare_track_install (adapter : ResourceAdapter) (track : TrackName) (manifest : ArtifactManifest)
    (manifest_source : ArtifactManifestSource) : cmd ManagedResourceInstall :=
  selection ← select adapter track manifest;
  install_selected_artifact adapter track (selection_artifact selection)
    (revoked_fallback_from_artifact <$> selection_revoked_latest selection) manifest_source.

(** *** Rolling back *)

(** The loop of [rollback_prepared_installs]; the first error. *)
Fixpoint rollback_installs (installs : list ManagedResourceInstall) (first_error : option ResourcesError) : cmd (option ResourcesError) :=
  match installs with
  | [] => mret first_error
  | install :: installs =>
      rolled ← eff_try (on_part world_part (λ e : ResourcesError, e) (rollback (mi_artifact_install install)));
      rollback_installs installs (match rolled, first_error with Err error, None => Some error | _, _ => first_error end)
  end.
Definition rollback_prepared_installs (installs : list ManagedResourceInstall) : cmd unit :=
  first_error ← rollback_installs installs None;
  match first_error with Some error => eff_fail (CmdResources error) | None => mret tt end.
Definition rollback_php_pair_install (install : PhpPairInstall) : cmd unit :=
  rollback_prepared_installs [pp_frankenphp install; pp_php install].

Definition error_after_rollback (original_error : CommandError) (rolled : result CommandError unit) : CommandError :=
  match rolled with
  | Ok _ => original_error
  | Err (CmdResources rollback_error) => RollbackFailed original_error rollback_error
  | Err error => error
  end.
Definition rollback_after_error (installs : list ManagedResourceInstall) (original_error : CommandError) : cmd CommandError :=
  rolled ← eff_try (rollback_prepared_installs installs); mret (error_after_rollback original_error rolled).
Definition rollback_php_pair_after_error (install : PhpPairInstall) (original_error : CommandError) : cmd CommandError :=
  rolled ← eff_try (rollback_php_pair_install install); mret (error_after_rollback original_error rolled).

(** [Err(error) => return Err(recover(error))]. *)
Definition or_recover {A : Type} (m : cmd A) (recover : CommandError → cmd CommandError) : cmd A :=
  result ← eff_try m;
  match result with Ok a => mret a | Err error => error ← recover error; eff_fail error end.

(** *** PHP with FrankenPHP *)

Definition prepare_php_pair_install (php frankenphp : ResourceAdapter) (track : TrackName) (manifest : ArtifactManifest)
    (manifest_source : ArtifactManifestSource) : cmd PhpPairInstall :=
  php ← prepare_track_install php track manifest manifest_source;
  frankenphp ← or_recover (prepare_track_install frankenphp track manifest manifest_source) (rollback_after_error [php]);
  mret {| pp_php := php; pp_frankenphp := frankenphp |}.

Definition ensure_php_pair_defaults (install : PhpPairInstall) : cmd unit :=
  _ ← on_state_world (ensure_php_track_defaults paths PHP_TRACK_DEFAULT_INI (track_name_str (mi_track (pp_php install)))); mret tt.

Definition install_input (install : ManagedResourceInstall) : ManagedResourceTrackInstallInput :=
  {| in_resource_name := resource_name_str (mi_resource_name install); in_track := track_name_str (mi_track install);
     in_installed_version := artifact_version_str (mi_artifact_version install);
     in_current_artifact_path := path_str (mi_current_artifact_path install) |}.

Definition record_php_pair_install (install : PhpPairInstall) : cmd unit :=
  _ ← ensure_php_pair_defaults install;
  _ ← database_open;
  _ ← on_db now (record_managed_resource_tracks_desired_and_installed [install_input (pp_php install); install_input (pp_frankenphp install)]);
  mret tt.
Definition record_composer_with_php_pair_install (php_pair : PhpPairInstall) (composer : ManagedResourceInstall) : cmd unit :=
  _ ← ensure_php_pair_defaults php_pair;
  _ ← database_open;
  _ ← on_db now (record_managed_resource_tracks_desired_and_installed
        [install_input (pp_php php_pair); install_input (pp_frankenphp php_pair); install_input composer]);
  mret tt.

(** The pair of a track: both are prepared, then both are recorded. *)
Definition install_pair_track (php frankenphp : ResourceAdapter) (track : TrackName) (manifest : ArtifactManifest)
    (manifest_source : ArtifactManifestSource) : cmd PhpPairInstall :=
  install ← prepare_php_pair_install php frankenphp track manifest manifest_source;
  _ ← or_recover (record_php_pair_install install) (rollback_php_pair_after_error install);
  mret install.

Definition runtime (r : result ResourcesError RuntimeArtifactAdapter) : cmd ResourceAdapter := cmd_lift (as_adapter <$> r).

Definition install_php_pair_with_progress (selector : TrackSelector) : cmd PhpPairInstall :=
  php ← runtime php_adapter;
  frankenphp ← runtime frankenphp_adapter;
  _ ← cmd_lift (resolve_canonical (resource_name_str (ad_resource_name php)));
  _ ← cmd_lift (resolve_canonical (resource_name_str (ad_resource_name frankenphp)));
  refresh ← refresh_manifest;
  let manifest := mr_manifest refresh in
  track ← cmd_lift (resolve_track (ad_resource_name php) selector manifest);
  _ ← validate_install_selection php track manifest;
  _ ← validate_install_selection frankenphp track manifest;
  install_pair_track php frankenphp track manifest (mr_source refresh).

Definition install_composer_with_progress : cmd ManagedResourceInstall :=
  composer ← runtime composer_adapter;
  track ← cmd_lift composer_track;
  install_with_progress composer (Track track).

Definition install_composer_with_php_pair_and_progress (php_selector : TrackSelector) : cmd ComposerWithPhpPairInstall :=
  php ← runtime php_adapter;
  frankenphp ← runtime frankenphp_adapter;
  composer ← runtime composer_adapter;
  _ ← cmd_lift (resolve_canonical (resource_name_str (ad_resource_name php)));
  _ ← cmd_lift (resolve_canonical (resource_name_str (ad_resource_name frankenphp)));
  _ ← cmd_lift (resolve_canonical (resource_name_str (ad_resource_name composer)));
  refresh ← refresh_manifest;
  let manifest := mr_manifest refresh in
  php_track ← cmd_lift (resolve_track (ad_resource_name php) php_selector manifest);
  composer_track ← cmd_lift composer_track;
  _ ← validate_install_selection php php_track manifest;
  _ ← validate_install_selection frankenphp php_track manifest;
  _ ← validate_install_selection composer composer_track manifest;
  php_pair ← prepare_php_pair_install php frankenphp php_track manifest (mr_source refresh);
  composer ← or_recover (prepare_track_install composer composer_track manifest (mr_source refresh))
    (rollback_php_pair_after_error php_pair);
  _ ← or_recover (record_composer_with_php_pair_install php_pair composer)
    (λ error, error ← rollback_after_error [composer] error; rollback_php_pair_after_error php_pair error);
  mret {| cp_php_pair := php_pair; cp_composer := composer |}.

(** ** Listing *)

(** [ManagedResourceTrack::from_state_record]. *)
Definition from_state_record (record : ManagedResourceTrackRecord) : result ResourcesError (option ManagedResourceTrack) :=
  if negb (bool_decide (tr_desired_state record = StateTypes.Installed)) then Ok None
  else
    match tr_installed_version record, tr_current_artifact_path record with
    | Some installed_version, Some current_artifact_path =>
        resource_name ← resource_name_new (tr_resource_name record);
        track ← track_name_new (tr_track record);
        installed_version ← artifact_version_new installed_version;
        Ok (Some {| mt_resource_name := resource_name; mt_track := track; mt_installed_version := installed_version;
                    mt_current_artifact_path := current_artifact_path; mt_usage_count := tr_usage_count record |})
    | _, _ => Ok None
    end.

Fixpoint listed (resource_name : option ResourceName) (records : list ManagedResourceTrackRecord) :
    result ResourcesError (list ManagedResourceTrack) :=
  match records with
  | [] => Ok []
  | record :: records =>
      if match resource_name with
         | Some resource_name => negb (bool_decide (tr_resource_name record = resource_name_str resource_name))
         | None => false
         end
      then listed resource_name records
      else
        track ← from_state_record record;
        filtered ← listed resource_name records;
        Ok (match track with Some track => track :: filtered | None => filtered end)
  end.

Definition list_tracks (resource_name : option ResourceName) : cmd (list ManagedResourceTrack) :=
  _ ← (match resource_name with
       | Some resource_name => _ ← cmd_lift (resolve_canonical (resource_name_str resource_name)); mret tt
       | None => mret tt
       end);
  _ ← database_open;
  records ← read_db now list_managed_resource_tracks;
  cmd_lift (listed resource_name records).

(** ** Updating *)

Definition of_resource (name : ResourceName) (installed : ManagedResourceTrack) : bool :=
  bool_decide (mt_resource_name installed = name).
(** A [BTreeSet<TrackName>]: the tracks by their text. *)
Definition insert_tracks (tracks : gmap string TrackName) (l : list ManagedResourceTrack) : gmap string TrackName :=
  foldl (λ tracks installed, <[track_name_str (mt_track installed) := mt_track installed]> tracks) tracks l.
Definition collect_installed_tracks (installed_tracks : list ManagedResourceTrack) (name : ResourceName)
    (tracks : gmap string TrackName) : gmap string TrackName :=
  insert_tracks tracks (List.filter (of_resource name) installed_tracks).
Definition find_installed_track (installed_tracks : list ManagedResourceTrack) (name : ResourceName) (track : TrackName) :
    option ManagedResourceTrack :=
  List.find (λ installed, of_resource name installed && bool_decide (mt_track installed = track)) installed_tracks.

Fixpoint install_tracks (adapter : ResourceAdapter) (manifest : ArtifactManifest) (manifest_source : ArtifactManifestSource)
    (tracks : list TrackName) : cmd (list ManagedResourceInstall) :=
  match tracks with
  | [] => mret []
  | track :: tracks =>
      install ← install_track adapter track manifest manifest_source;
      installs ← install_tracks adapter manifest manifest_source tracks;
      mret (install :: installs)
  end.

Definition update_with_progress (adapter : ResourceAdapter) : cmd (list ManagedResourceInstall) :=
  _ ← cmd_lift (resolve_canonical (resource_name_str (ad_resource_name adapter)));
  installed_tracks ← list_tracks (Some (ad_resource_name adapter));
  match installed_tracks with
  | [] => mret []
  | _ =>
      refresh ← refresh_latest_manifest;
      install_tracks adapter (mr_manifest refresh) (mr_source refresh) (mt_track <$> installed_tracks)
  end.

(** Every track is checked before any is installed. *)
Fixpoint validate_pairs (php frankenphp : ResourceAdapter) (manifest : ArtifactManifest) (tracks : list TrackName) : cmd unit :=
  match tracks with
  | [] => mret tt
  | track :: tracks =>
      _ ← validate_install_selection php track manifest;
      _ ← validate_install_selection frankenphp track manifest;
      validate_pairs php frankenphp manifest tracks
  end.

Fixpoint install_pairs (php frankenphp : ResourceAdapter) (manifest : ArtifactManifest) (manifest_source : ArtifactManifestSource)
    (tracks : list TrackName) : cmd (list ManagedResourceInstall) :=
  match tracks with
  | [] => mret []
  | track :: tracks =>
      install ← install_pair_track php frankenphp track manifest manifest_source;
      installs ← install_pairs php frankenphp manifest manifest_source tracks;
      mret (pp_php install :: pp_frankenphp install :: installs)
  end.

Definition update_php_pairs_with_progress : cmd (list ManagedResourceInstall) :=
  php ← runtime php_adapter;
  frankenphp ← runtime frankenphp_adapter;
  php_tracks ← list_tracks (Some (ad_resource_name php));
  frankenphp_tracks ← list_tracks (Some (ad_resource_name frankenphp));
  let tracks := (btree_iter (insert_tracks (insert_tracks ∅ php_tracks) frankenphp_tracks)).*2 in
  match tracks with
  | [] => mret []
  | _ =>
      refresh ← refresh_latest_manifest;
      _ ← validate_pairs php frankenphp (mr_manifest refresh) tracks;
      install_pairs php frankenphp (mr_manifest refresh) (mr_source refresh) tracks
  end.

Definition update_composer_with_progress : cmd (list ManagedResourceInstall) :=
  composer ← runtime composer_adapter;
  track ← cmd_lift composer_track;
  installed_tracks ← list_tracks (Some (ad_resource_name composer));
  if negb (existsb (λ installed, bool_decide (mt_track installed = track)) installed_tracks) then mret []
  else
    refresh ← refresh_latest_manifest;
    install ← install_track composer track (mr_manifest refresh) (mr_source refresh);
    mret [install].

(** [track_needs_update], of what is installed. *)
Definition track_needs_update (name : ResourceName) (track : TrackName) (installed : option ManagedResourceTrack)
    (manifest : ArtifactManifest) : result ResourcesError bool :=
  selection ← select_latest name track target_platform manifest;
  match installed with
  | None => Ok true
  | Some installed =>
      if negb (bool_decide (ma_artifact_version (selection_artifact selection) = mt_installed_version installed)) then Ok true
      else
        current_artifact ← select_artifact name track (mt_installed_version installed) target_platform manifest;
        Ok (match current_artifact with Some artifact => is_revoked (ma_revocation_state artifact) | None => false end)
  end.

(** One pair of [update_installed_php_pairs]: [||] looks at the second only when the first is current. *)
Definition pair_needs_update (php frankenphp : ResourceAdapter) (installed_tracks : list ManagedResourceTrack)
    (track : TrackName) (manifest : ArtifactManifest) : result ResourcesError bool :=
  php_needs ← track_needs_update (ad_resource_name php) track (find_installed_track installed_tracks (ad_resource_name php) track) manifest;
  if php_needs : bool then Ok true
  else track_needs_update (ad_resource_name frankenphp) track
         (find_installed_track installed_tracks (ad_resource_name frankenphp) track) manifest.

Fixpoint update_pairs (php frankenphp : ResourceAdapter) (installed_tracks : list ManagedResourceTrack)
    (manifest : ArtifactManifest) (manifest_source : ArtifactManifestSource) (tracks : list TrackName) : cmd (list ManagedResourceInstall) :=
  match tracks with
  | [] => mret []
  | track :: tracks =>
      needed ← cmd_lift (pair_needs_update php frankenphp installed_tracks track manifest);
      if negb needed then update_pairs php frankenphp installed_tracks manifest manifest_source tracks
      else
        install ← install_pair_track php frankenphp track manifest manifest_source;
        installs ← update_pairs php frankenphp installed_tracks manifest manifest_source tracks;
        mret (pp_php install :: pp_frankenphp install :: installs)
  end.

Definition update_installed_php_pairs (installed_tracks : list ManagedResourceTrack) (manifest : ArtifactManifest)
    (manifest_source : ArtifactManifestSource) : cmd (list ManagedResourceInstall) :=
  php ← runtime php_adapter;
  frankenphp ← runtime frankenphp_adapter;
  let tracks := (btree_iter (collect_installed_tracks installed_tracks (ad_resource_name frankenphp)
                   (collect_installed_tracks installed_tracks (ad_resource_name php) ∅))).*2 in
  _ ← validate_pairs php frankenphp manifest tracks;
  update_pairs php frankenphp installed_tracks manifest manifest_source tracks.

Definition update_installed_composer (installed_tracks : list ManagedResourceTrack) (manifest : ArtifactManifest)
    (manifest_source : ArtifactManifestSource) : cmd (list ManagedResourceInstall) :=
  composer ← runtime composer_adapter;
  track ← cmd_lift composer_track;
  match find_installed_track installed_tracks (ad_resource_name composer) track with
  | None => mret []
  | Some installed =>
      needed ← cmd_lift (track_needs_update (ad_resource_name composer) track (Some installed) manifest);
      if negb needed then mret []
      else install ← install_track composer track manifest manifest_source; mret [install]
  end.

Fixpoint update_backing_tracks (adapter : ResourceAdapter) (manifest : ArtifactManifest) (manifest_source : ArtifactManifestSource)
    (tracks : list ManagedResourceTrack) : cmd (list ManagedResourceInstall) :=
  match tracks with
  | [] => mret []
  | installed :: tracks =>
      needed ← cmd_lift (track_needs_update (ad_resource_name adapter) (mt_track installed) (Some installed) manifest);
      if negb needed then update_backing_tracks adapter manifest manifest_source tracks
      else
        install ← install_track adapter (mt_track installed) manifest manifest_source;
        installs ← update_backing_tracks adapter manifest manifest_source tracks;
        mret (install :: installs)
  end.

Fixpoint update_installed_backing_resources (installed_tracks : list ManagedResourceTrack) (backing_adapters : list ResourceAdapter)
    (manifest : ArtifactManifest) (manifest_source : ArtifactManifestSource) : cmd (list ManagedResourceInstall) :=
  match backing_adapters with
  | [] => mret []
  | adapter :: backing_adapters =>
      installs ← update_backing_tracks adapter manifest manifest_source
        (List.filter (of_resource (ad_resource_name adapter)) installed_tracks);
      rest ← update_installed_backing_resources installed_tracks backing_adapters manifest manifest_source;
      mret (installs ++ rest)
  end.

Fixpoint resolve_adapters (backing_adapters : list ResourceAdapter) : result ResourcesError unit :=
  match backing_adapters with
  | [] => Ok tt
  | adapter :: backing_adapters =>
      _ ← resolve_canonical (resource_name_str (ad_resource_name adapter)); resolve_adapters backing_adapters
  end.

Definition update_all_installed_with_progress (backing_adapters : list ResourceAdapter) : cmd (list ManagedResourceInstall) :=
  _ ← cmd_lift (resolve_adapters backing_adapters);
  refresh ← refresh_latest_manifest;
  let manifest := mr_manifest refresh in
  installed_tracks ← list_tracks None;
  pairs ← update_installed_php_pairs installed_tracks manifest (mr_source refresh);
  composer ← update_installed_composer installed_tracks manifest (mr_source refresh);
  backing ← update_installed_backing_resources installed_tracks backing_adapters manifest (mr_source refresh);
  mret (pairs ++ composer ++ backing).

(** ** Checking for updates *)

Definition update_revocation_from_artifact (a : ManifestArtifact) : ManagedResourceUpdateRevocation :=
  {| ur_artifact_version := ma_artifact_version a; ur_reason := revocation_reason (ma_revocation_state a) |}.
Definition update_revocation_from_current_artifact (a : ManifestArtifact) : option ManagedResourceUpdateRevocation :=
  if negb (is_revoked (ma_revocation_state a)) then None else Some (update_revocation_from_artifact a).

Definition check_track (track : ManagedResourceTrack) (status : ManagedResourceUpdateStatus) (latest : option ArtifactVersion)
    (current_revocation latest_revocation : option ManagedResourceUpdateRevocation)
    (blocked_by : option ManagedResourceUpdateBlocker) (reason : option string) : ManagedResourceUpdateCheckTrack :=
  {| uc_status := status; uc_resource_name := mt_resource_name track; uc_track := mt_track track;
     uc_current_artifact_version := mt_installed_version track; uc_current_artifact_path := mt_current_artifact_path track;
     uc_latest_artifact_version := latest; uc_current_revocation := current_revocation;
     uc_latest_revocation := latest_revocation; uc_blocked_by := blocked_by; uc_reason := reason |}.
Definition blocked_track (track : ManagedResourceTrack) (blocked_by : ManagedResourceUpdateBlocker) : ManagedResourceUpdateCheckTrack :=
  check_track track Blocked None None None (Some blocked_by) None.
Definition unavailable_track (track : ManagedResourceTrack) (reason : string) : ManagedResourceUpdateCheckTrack :=
  check_track track Unavailable None None None None (Some reason).

Definition check_installed_track_update (manifest : ArtifactManifest) (track : ManagedResourceTrack) : ManagedResourceUpdateCheckTrack :=
  match select_artifact (mt_resource_name track) (mt_track track) (mt_installed_version track) target_platform manifest with
  | Err error => unavailable_track track ("artifact lookup failed: " +:+ resources_error_display error)
  | Ok current_artifact =>
      let current_revocation := current_artifact ≫= update_revocation_from_current_artifact in
      match select_latest (mt_resource_name track) (mt_track track) target_platform manifest with
      | Err error =>
          match current_revocation with
          | Some _ => check_track track RevokedStatus None current_revocation None None None
          | None => unavailable_track track (resources_error_display error)
          end
      | Ok selection =>
          let latest_artifact := selection_artifact selection in
          let status := if option_bool current_revocation then RevokedStatus
                        else if negb (bool_decide (ma_artifact_version latest_artifact = mt_installed_version track))
                        then UpdateAvailable else Current in
          check_track track status (Some (ma_artifact_version latest_artifact)) current_revocation
            (update_revocation_from_artifact <$> selection_revoked_latest selection) None None
      end
  end.

Definition check_updates : cmd (list ManagedResourceUpdateCheckTrack) :=
  installed_tracks ← list_tracks None;
  refresh ← eff_try refresh_latest_manifest;
  match refresh with
  | Ok refresh => mret (check_installed_track_update (mr_manifest refresh) <$> installed_tracks)
  | Err (CmdResources (RequiresNewerPv minimum current)) =>
      mret ((λ track, blocked_track track {| minimum_pv_version := minimum; current_pv_version := current |}) <$> installed_tracks)
  | Err error => eff_fail error
  end.

(** ** Uninstalling *)

Definition validate_uninstall_request (name : ResourceName) (track : TrackName) : result ResourcesError unit :=
  _ ← resolve_canonical (resource_name_str name);
  if is_reserved_alias (track_name_str track) then Err (ReservedTrackName (track_name_str track)) else Ok tt.

Definition validate_uninstall_eligibility (records : list ManagedResourceTrackRecord) (name : ResourceName) (track : TrackName)
    (options : ManagedResourceUninstallOptions) : result CommandError unit :=
  let found := List.find (λ record, bool_decide (tr_resource_name record = resource_name_str name)
                                    && bool_decide (tr_track record = track_name_str track)) records in
  let eligible record := bool_decide (tr_desired_state record = StateTypes.Installed)
    && option_bool (tr_installed_version record) && option_bool (tr_current_artifact_path record) in
  match found with
  | Some installed_track =>
      if eligible installed_track then
        if (0 <? tr_usage_count installed_track)%Z && negb (opt_force options)
        then Err (TrackInUse (resource_name_str name) (track_name_str track) (tr_usage_count installed_track))
        else Ok tt
      else Err (TrackNotInstalled (resource_name_str name) (track_name_str track))
  | None => Err (TrackNotInstalled (resource_name_str name) (track_name_str track))
  end.

Definition removal_intent (name : ResourceName) (track : TrackName) (options : ManagedResourceUninstallOptions) : ManagedResourceRemovalIntent :=
  {| mri_resource_name := name; mri_track := track; mri_prune := opt_prune options; mri_force := opt_force options |}.

Definition uninstall (name : ResourceName) (track : TrackName) (options : ManagedResourceUninstallOptions) : cmd ManagedResourceRemovalIntent :=
  _ ← cmd_lift (validate_uninstall_request name track);
  _ ← database_open;
  records ← read_db now list_managed_resource_tracks;
  _ ← eff_lift (validate_uninstall_eligibility records name track options);
  _ ← on_db now (record_managed_resource_track_removal_intent (resource_name_str name) (track_name_str track)
                   (opt_prune options) (opt_force options));
  mret (removal_intent name track options).

Definition removal_input (name : ResourceName) (track : TrackName) (options : ManagedResourceUninstallOptions) : ManagedResourceTrackRemovalInput :=
  {| rm_resource_name := resource_name_str name; rm_track := track_name_str track;
     rm_prune := opt_prune options; rm_force := opt_force options |}.

Definition uninstall_php_pair (track : TrackName) (options : ManagedResourceUninstallOptions) : cmd PhpPairRemovalIntent :=
  php ← runtime php_adapter;
  frankenphp ← runtime frankenphp_adapter;
  _ ← cmd_lift (validate_uninstall_request (ad_resource_name php) track);
  _ ← cmd_lift (validate_uninstall_request (ad_resource_name frankenphp) track);
  _ ← database_open;
  records ← read_db now list_managed_resource_tracks;
  _ ← eff_lift (validate_uninstall_eligibility records (ad_resource_name php) track options);
  _ ← eff_lift (validate_uninstall_eligibility records (ad_resource_name frankenphp) track options);
  _ ← on_db now (record_managed_resource_tracks_removal_intent
        [removal_input (ad_resource_name php) track options; removal_input (ad_resource_name frankenphp) track options]);
  mret {| pr_php := removal_intent (ad_resource_name php) track options;
          pr_frankenphp := removal_intent (ad_resource_name frankenphp) track options |}.

Definition uninstall_composer (options : ManagedResourceUninstallOptions) : cmd ManagedResourceRemovalIntent :=
  composer ← runtime composer_adapter;
  track ← cmd_lift composer_track;
  uninstall (ad_resource_name composer) track options.
End commands.

(** ** What the rest of the host promises

    The archive reader and the HTTP client leave the files alone, an entry is written where
    it is asked to, and the database keeps to its own files. *)

Class CommandEnvironment `{Host} {Entry : Type} (open_archive : path → IO ResourcesError (list (result IoError Entry)))
    (unpack : Entry → path → IO IoError unit) (agent_call : string → IO UreqError HttpBody)
    (client_get_text : string → IO ResourcesError string) (connect : IO StateError unit) (paths : PvPaths) : Prop := {
  archive_reads p : changes (λ _, False) (open_archive p);
  unpack_inside e p : changes (under p) (unpack e p);
  agent_reads url : changes (λ _, False) (agent_call url);
  client_reads url : changes (λ _, False) (client_get_text url);
  connect_apart : changes (λ q, ¬ under (pv_resources paths) q ∧ ¬ under (pv_downloads paths) q) connect;
}.

(** An adapter looks only at the tree, and accepts only a directory with something in it. *)
Record sound_adapter (a : ResourceAdapter) : Prop := {
  sound_ext t t' : (∀ q, t q = t' q) → ad_validate a t = ad_validate a t';
  sound_directory t : ad_validate a t = Ok tt → t [] = Some Dir;
  sound_occupied t : ad_validate a t = Ok tt → ∃ x n, t [x] = Some n;
}.

Lemma file_at_ext t t' relative : (∀ q, t q = t' q) → file_at t relative = file_at t' relative.
Proof.
  intros Ht. unfold file_at. cbv zeta. rewrite Ht. f_equal. induction (seq 0 _) as [|n l IH]; [done|]. cbn [forallb]. rewrite Ht. by f_equal.
Qed.

Lemma runtime_file a t : runtime_validate a t = Ok tt → join_path [] (rt_executable_relative_path a) ≠ [] →
  t [] = Some Dir ∧ ∃ x n, t [x] = Some n.
Proof.
  unfold runtime_validate. destruct (file_at t _) eqn:Hf; [intros _ Hp|done].
  unfold file_at in Hf. apply andb_true_iff in Hf as [Hd Hl]. destruct (join_path [] _) as [|x [|y p]]; [done|..]; cbn in Hd; split_bools.
  - split; [done|]. destruct (t [x]) as [n|] eqn:Hx; [by exists x, n|done].
  - split; [done|]. by exists x, Dir.
Qed.

Lemma runtime_sound a : join_path [] (rt_executable_relative_path a) ≠ [] → sound_adapter (as_adapter a).
Proof.
  intros Hp. split.
  - intros t t' Ht. cbn. unfold runtime_validate. rewrite (file_at_ext t t') by done. destruct (file_at t' _); [|done].
    induction (rt_required_file_relative_paths a) as [|r l IH]; [done|]. cbn. rewrite (file_at_ext t t') by done. by destruct (file_at t' r).
  - intros t Ht. apply (runtime_file a t Ht Hp).
  - intros t Ht. apply (runtime_file a t Ht Hp).
Qed.

Lemma runtime_adapters_sound r a : r ∈ [php_adapter; frankenphp_adapter; composer_adapter; mailpit_adapter; redis_adapter;
  rustfs_adapter; mysql_adapter; postgres_adapter] → r = Ok a → sound_adapter (as_adapter a).
Proof.
  rewrite !elem_of_cons, elem_of_nil. intros Hr ->. destruct_or? Hr; try done;
    vm_compute in Hr; injection Hr as ->; apply runtime_sound; vm_compute; discriminate.
Qed.

(** ** The regions of the file system *)

Section regions.
Variable home : path.
Let paths := for_home home.
Let root : path := home ++ [".pv"].

Lemma resources_at : pv_resources paths = root ++ ["resources"].
Proof. reflexivity. Qed.
Lemma downloads_at : pv_downloads paths = root ++ ["downloads"].
Proof. reflexivity. Qed.

(** The pointer of a track and its releases. *)
Definition pivot (name : ResourceName) (track : TrackName) (q : path) : Prop :=
  q = current_link name (pv_resources paths) track ∨ under (releases_dir name (pv_resources paths) track) q.
(** What is not a pointer or a release of any track. *)
Definition side (q : path) : Prop := ¬ ∃ name track, pivot name track q.
(** Where the commands write their own files. *)
Definition scratch (q : path) : Prop :=
  under (pv_downloads paths) q ∨ ∃ t, t ∈ SUPPORTED_PHP_TRACKS ∧ under (pv_resources paths ++ ["php"; t; "etc"]) q.

(** The shape of a path of a track. *)
Lemma pivot_at name track q : pivot name track q →
  ∃ x r, q = root ++ "resources" :: resource_name_str name :: track_name_str track :: x :: r ∧ (x = "current" ∨ x = "releases").
Proof.
  intros [->|[r ->]]; unfold current_link, releases_dir, track_dir; rewrite resources_at, <-!app_assoc; cbn.
  - exists "current", []. by split; [|left].
  - exists "releases", r. by split; [|right].
Qed.

Lemma downloads_region : region side scratch (pv_downloads paths).
Proof.
  split.
  - intros q [[r Hr] _]%elem_of_ancestors (name & track & (x & r' & -> & _)%pivot_at). rewrite downloads_at, <-app_assoc in Hr.
    apply app_inv_head in Hr. cbn in Hr. congruence.
  - intros q Hq. split; [|by left]. intros (name & track & (x & r' & -> & _)%pivot_at). destruct Hq as [r Hr].
    rewrite downloads_at, <-app_assoc in Hr. apply app_inv_head in Hr. cbn in Hr. congruence.
Qed.

Lemma etc_region t : t ∈ SUPPORTED_PHP_TRACKS → region side scratch (pv_resources paths ++ ["php"; t; "etc"]).
Proof.
  intros Ht. split.
  - intros q [[r Hr] _]%elem_of_ancestors (name & track & (x & r' & -> & Hx)%pivot_at). rewrite resources_at, <-!app_assoc in Hr.
    apply app_inv_head in Hr. cbn in Hr. destruct Hx as [-> | ->]; congruence.
  - intros q Hq. split; [|right; by exists t]. intros (name & track & (x & r' & -> & Hx)%pivot_at). destruct Hq as [r Hr].
    rewrite resources_at, <-!app_assoc in Hr. apply app_inv_head in Hr. cbn in Hr. destruct Hx as [-> | ->]; congruence.
Qed.

Lemma layout_side name q p : (name, p) ∈ layout_directories paths → q ∈ ancestors p → side q.
Proof.
  intros Hp [[r Hr] _]%elem_of_ancestors (n & track & (x & r' & -> & Hx)%pivot_at).
  assert (p = root ∨ ∃ d, p = root ++ [d]) as [-> |[d ->]].
  { revert Hp. unfold layout_directories. cbn. rewrite !elem_of_cons, elem_of_nil. intros Hp.
    destruct_or? Hp; try done; injection Hp as _ ->; first [by left|right; by eexists]. }
  - rewrite <-app_assoc in Hr. apply (f_equal length) in Hr. rewrite !length_app in Hr. cbn in Hr. lia.
  - rewrite <-!app_assoc in Hr. apply app_inv_head in Hr. cbn in Hr. congruence.
Qed.

Lemma owned_scratch name track q : owned name (pv_resources paths) track q → ¬ scratch q.
Proof.
  intros [(x & r & -> & Hx)|[[r Hr] _]%elem_of_ancestors] [Hs|(t & Ht & Hs)].
  - destruct Hs as [r' Hr]. unfold track_dir in Hr. rewrite resources_at, downloads_at, <-!app_assoc in Hr.
    apply app_inv_head in Hr. cbn in Hr. congruence.
  - destruct Hs as [r' Hr]. unfold track_dir in Hr. rewrite <-!app_assoc in Hr. apply app_inv_head in Hr. cbn in Hr.
    injection Hr as _ _ -> _. by vm_compute in Hx.
  - destruct Hs as [r' ->]. unfold track_dir in Hr. rewrite resources_at, downloads_at, <-!app_assoc in Hr.
    apply app_inv_head in Hr. cbn in Hr. congruence.
  - destruct Hs as [r' ->]. unfold track_dir in Hr. rewrite <-!app_assoc in Hr. apply app_inv_head in Hr. cbn in Hr. congruence.
Qed.

Lemma owned_apart name1 track1 name2 track2 q : (name1, track1) ≠ (name2, track2) →
  owned name1 (pv_resources paths) track1 q → ¬ pivot name2 track2 q.
Proof.
  intros Hne Ho (x & r & -> & _)%pivot_at. apply Hne. destruct Ho as [(x' & r' & Hr & _)|[[r' Hr] _]%elem_of_ancestors];
    unfold track_dir in Hr; rewrite resources_at, <-!app_assoc in Hr; apply app_inv_head in Hr; cbn in Hr; [|congruence].
  injection Hr as Hn Ht _ _. destruct name1, track1, name2, track2. cbn in *. by subst.
Qed.

(** A property of the files that depends only on the paths of a track. *)
Definition local (name : ResourceName) (track : TrackName) (P : Fs → Prop) : Prop :=
  ∀ s s', (∀ q, pivot name track q → s' !! q = s !! q) → P s → P s'.

Section local.
Context (name : ResourceName) (track : TrackName) (v : string) (s0 : Fs) (o : option string).
Context (validate : (path → option node) → result ResourcesError unit).
Hypothesis validate_ext : ∀ t t', (∀ q, t q = t' q) → validate t = validate t'.
Let rd := pv_resources paths.

Lemma release_pivot u q : under (release_dir name rd track u) q → pivot name track q.
Proof. intros Hq. right. eapply under_trans; [|exact Hq]. apply under_app. Qed.
Lemma tree_local u s s' : (∀ q, pivot name track q → s' !! q = s !! q) → validate (tree (release_dir name rd track u) s') = validate (tree (release_dir name rd track u) s).
Proof. intros Heq. apply validate_ext. intros q. apply Heq, (release_pivot u), under_app. Qed.

Lemma points_local o' : local name track (points name rd track o').
Proof.
  intros s s' Heq [Hc Hd]. split; [rewrite Heq; [done|by left]|]. intros u Hu. rewrite Heq; [by apply Hd|apply (release_pivot u), under_refl].
Qed.
Lemma kept_local : local name track (kept name rd track v s0 o).
Proof. intros s s' Heq Hk u q Hu Hne Hq. rewrite Heq; [by apply (Hk u)|by apply (release_pivot u)]. Qed.
Lemma live_local : local name track (live name rd track v s0 o).
Proof. intros s s' Heq [Hp Hk]. split; [by apply (points_local _ s)|by apply (kept_local s)]. Qed.
Lemma ready_local : local name track (ready name validate rd track v).
Proof.
  intros s s' Heq [Hd Hv]. split; [rewrite Heq; [done|apply (release_pivot v), under_refl]|by rewrite (tree_local v s)].
Qed.
Lemma switched_local : local name track (switched name validate rd track v s0 o).
Proof. intros s s' Heq (Hp & Hr & Hk). split_and!; [by apply (points_local _ s)|by apply (ready_local s)|by apply (kept_local s)]. Qed.
Lemma settled_local : local name track (settled name validate rd track v s0 o).
Proof. intros s s' Heq [Hl|Hs]; [left; by apply (live_local s)|right; by apply (switched_local s)]. Qed.
Lemma unwinding_local : local name track (unwinding name rd track v s0 o).
Proof. intros s s' Heq [[Hp|Hp] Hk]; (split; [|by apply (kept_local s)]); [left|right]; by apply (points_local _ s). Qed.
Lemma current_valid_local : local name track (current_valid name validate rd track v o).
Proof. intros s s' Heq Hc Ho. rewrite (tree_local v s); [by apply Hc|done]. Qed.
End local.

(** A property that depends only on the pointers and the releases. *)
Definition on_tracks (P : Fs → Prop) : Prop := ∀ s s', (∀ q, ¬ side q → s' !! q = s !! q) → P s → P s'.
Lemma local_on_tracks name track P : local name track P → on_tracks P.
Proof. intros HP s s' Heq. apply HP. intros q Hq. apply Heq. intros Hs. apply Hs. by exists name, track. Qed.
Lemma on_tracks_and P Q : on_tracks P → on_tracks Q → on_tracks (λ s, P s ∧ Q s).
Proof. intros HP HQ s s' Heq [? ?]. split; [by apply (HP s)|by apply (HQ s)]. Qed.

Lemma local_and name track P Q : local name track P → local name track Q → local name track (λ s, P s ∧ Q s).
Proof. intros HP HQ s s' Heq [? ?]. split; [by apply (HP s)|by apply (HQ s)]. Qed.
End regions.

(** ** Steps of the commands *)

Lemma hoare_both {E A : Type} (P P' : Fs → Prop) (m : IO E A) Q Q' (X X' : Fs → Prop) : hoare P m Q X → hoare P' m Q' X' →
  hoare (λ s, P s ∧ P' s) m (λ a s, Q a s ∧ Q' a s) (λ s, X s ∧ X' s).
Proof. intros Hm Hm' w [Hw Hw']. specialize (Hm w Hw). specialize (Hm' w Hw'). by destruct (m w) as [[]]. Qed.

Section steps.
Context `{Host} `{Json}.
Context {Entry : Type} (entry_type : Entry → EntryType) (entry_path : Entry → result IoError string).
Context (open_archive : path → IO ResourcesError (list (result IoError Entry))) (unpack : Entry → path → IO IoError unit).
Context (agent_call : string → IO UreqError HttpBody) (sha256_hex : string → string).
Context (client_get_text : string → IO ResourcesError string).
Context (connect : IO StateError unit) (home : path).
Let paths := for_home home.
Context `{!CommandEnvironment open_archive unpack agent_call client_get_text connect paths}.
Let rd := pv_resources paths.
Notation fetch := (fetch_and_install entry_type entry_path open_archive unpack agent_call sha256_hex paths).
Notation side := (side home).
Notation scratch := (scratch home).

Lemma adapter_laws a : sound_adapter a → InstallerLaws open_archive unpack (ad_validate a).
Proof.
  intros [He Hd Ho]. split; [apply (archive_reads (CommandEnvironment := _))|apply (unpack_inside (CommandEnvironment := _))|exact He|exact Hd|exact Ho].
Qed.

(** A step beside the tracks, and a step on another track. *)
Lemma hoare_side {E A : Type} (m : IO E A) P : confined side scratch m → on_tracks home P →
  hoare (λ s, P s ∧ linkless scratch s) m (λ _ s, P s ∧ linkless scratch s) (λ s, P s ∧ linkless scratch s).
Proof. intros Hm HP. apply (confined_keeps side); [done|]. intros s s' Heq. by apply HP. Qed.

Lemma hoare_owned {E A : Type} (m : IO E A) name track P :
  (∀ s0, hoare (Installer.outside name rd track s0) m (λ _, Installer.outside name rd track s0) (Installer.outside name rd track s0)) →
  (∀ s s', Installer.outside name rd track s s' → P s → P s') → hoare P m (λ _, P) P.
Proof.
  intros Hm HP w Hw. specialize (Hm (files w) w (λ _ _, eq_refl)). destruct (m w) as [[a|e] w']; by apply (HP (files w)).
Qed.

Lemma outside_linkless name track s s' : Installer.outside name rd track s s' → linkless scratch s → linkless scratch s'.
Proof. intros Ho Hl q Hq. rewrite Ho; [by apply Hl|]. intros Hn. by apply (owned_scratch home name track q). Qed.

Lemma outside_local name track name' track' P s s' : (name, track) ≠ (name', track') → local home name' track' P →
  Installer.outside name rd track s s' → P s → P s'.
Proof. intros Hne HP Ho. apply HP. intros q Hq. apply Ho. intros Hn. by apply (owned_apart home name track name' track' q). Qed.

(** Fetching and installing an artifact, seen from its own track. *)
Section artifact.
Context (adapter : ResourceAdapter) (track : TrackName) (artifact : ManifestArtifact).
Hypothesis Hadapter : sound_adapter adapter.
Hypothesis Hdigest : str_all is_ascii_hexdigit (sha256_str (ma_sha256 artifact)) = true.
Let name := ad_resource_name adapter.
Let v := artifact_version_str (ma_artifact_version artifact).

Lemma existing_outside s0 : hoare (Installer.outside name rd track s0) (installer_install_existing paths adapter track artifact)
  (λ _, Installer.outside name rd track s0) (Installer.outside name rd track s0).
Proof. apply outside_changes, existing_release_confined. Qed.

Lemma installing_outside archive_path s0 : hoare (Installer.outside name rd track s0)
  (installer_install entry_type entry_path open_archive unpack paths adapter track artifact archive_path)
  (λ _, Installer.outside name rd track s0) (Installer.outside name rd track s0).
Proof. eapply install_outside, adapter_laws; done. Qed.

Lemma downloading : confined side scratch (download agent_call sha256_hex (pv_downloads paths) artifact).
Proof. apply download_confined; [apply (agent_reads (CommandEnvironment := _))|apply downloads_region|done]. Qed.

Lemma fetch_spec (o : option string) s0 : hoare (λ s, (live name rd track v s0 o s ∧ current_valid name (ad_validate adapter) rd track v o s) ∧ linkless scratch s)
  (fetch adapter track artifact)
  (λ r s, ((∃ existed, r.1 = install_record name rd track (ma_artifact_version artifact) o existed ∧ (existed = false → o ≠ Some v))
           ∧ switched name (ad_validate adapter) rd track v s0 o s) ∧ linkless scratch s)
  (λ s, settled name (ad_validate adapter) rd track v s0 o s ∧ linkless scratch s).
Proof.
  pose proof (adapter_laws adapter Hadapter) as Hlaws. unfold fetch_and_install.
  eapply hoare_bind.
  { apply hoare_both; [by apply (install_existing_release_spec open_archive unpack name (ad_validate adapter) rd track v s0 o artifact)|].
    apply (hoare_owned _ name track); [apply existing_outside|apply outside_linkless]. }
  intros [i|]; cbn beta iota zeta.
  - intros w [[-> Hs] Hl]. split; [|done]. split; [by eexists|done].
  - eapply hoare_bind.
    + eapply hoare_conseq; [by intros s Hs; exact Hs|by intros a s Hs; exact Hs| |apply (hoare_side _ _ downloading)].
      * intros s [[Hs _] Hl]. split; [by left|done].
      * apply (local_on_tracks home name track), local_and; [apply live_local|apply current_valid_local, (sound_ext _ Hadapter)].
    + intros d. eapply hoare_bind; [apply hoare_both; [by apply (install_spec entry_type entry_path open_archive unpack name (ad_validate adapter) rd track artifact)|]|].
      * apply (hoare_owned _ name track); [apply installing_outside|apply outside_linkless].
      * intros i w Hw. exact Hw.
Qed.

(** Seen from another track. *)
Lemma fetch_apart name' track' P : (name, track) ≠ (name', track') → local home name' track' P →
  hoare (λ s, P s ∧ linkless scratch s) (fetch adapter track artifact) (λ _ s, P s ∧ linkless scratch s) (λ s, P s ∧ linkless scratch s).
Proof.
  intros Hne HP. assert (∀ s s', Installer.outside name rd track s s' → P s ∧ linkless scratch s → P s' ∧ linkless scratch s') as Hkeep.
  { intros s s' Ho [Hp Hl]. split; [by eapply outside_local|by eapply outside_linkless]. }
  unfold fetch_and_install. eapply hoare_bind; [by apply (hoare_owned _ name track); [apply existing_outside|]|].
  intros [i|]; [by intros w Hw|]. eapply hoare_bind; [apply (hoare_side _ _ downloading), (local_on_tracks home name' track'), HP|].
  intros d. eapply hoare_bind; [by apply (hoare_owned _ name track); [apply installing_outside|]|]. by intros i w Hw.
Qed.

(** Rolling it back. *)
Lemma rolling_apart name' track' version o existed P : (name, track) ≠ (name', track') → local home name' track' P →
  hoare P (rollback (install_record name rd track version o existed)) (λ _, P) P.
Proof.
  intros Hne HP. apply (hoare_owned _ name track); [intros s0; apply outside_changes, rollback_confined|].
  intros s s' Ho. by apply (outside_local name track name' track').
Qed.
End artifact.

(** Opening the database, and the defaults of PHP. *)
Lemma opening : confined side scratch (_ ← io_map_err from_fs_error (ensure_layout paths); connect).
Proof.
  apply confined_bind.
  - apply confined_map_err. unfold ensure_layout. assert (∀ l, (∀ x, x ∈ l → x ∈ layout_directories paths) → confined side scratch (ensure_dirs l)) as Hl; [|by apply Hl].
    induction l as [|[n p] l IH]; intros Hl; [apply confined_ret|]. cbn [ensure_dirs]. apply confined_bind.
    + apply ensure_dir_confined. intros q. apply (layout_side home n), Hl. by left.
    + intros _u. apply IH. intros x Hx. apply Hl. by right.
  - intros _u. eapply confined_changes; [apply (connect_apart (CommandEnvironment := _))| |].
    + intros q [Hr _] (n & t & (x & r & -> & _)%pivot_at). apply Hr. eexists. unfold paths. by rewrite resources_at, <-(app_assoc (home ++ [".pv"])).
    + intros q [Hr Hd] [Hs|(t & _ & Hs)]; [done|]. apply Hr. eapply under_trans; [apply under_app|exact Hs].
Qed.

Lemma defaults_confined ini track : confined side scratch (ensure_php_track_defaults paths ini track).
Proof.
  unfold ensure_php_track_defaults, php_track_defaults, ensure_supported_track.
  case_bool_decide as Ht; [|intros s0 w Hw; exact Hw]. set (d := php_track_defaults_for_supported_track paths track).
  assert (etc_dir d = pv_resources paths ++ ["php"; track; "etc"] ∧ php_ini d = etc_dir d ++ ["php.ini"] ∧ conf_dir d = etc_dir d ++ ["conf.d"]) as (He & Hi & Hc).
  { unfold SUPPORTED_PHP_TRACKS in Ht. rewrite !elem_of_cons, elem_of_nil in Ht. destruct_or? Ht; try done; subst; by split_and!. }
  pose proof (etc_region home track Ht) as Hr. change (pv_resources (for_home home)) with (pv_resources paths) in Hr. rewrite <-He in Hr.
  assert (∀ p n, (∀ q, q ∈ ancestors p → side q) → confined side scratch (ensure_directory_path p n)) as Hdir.
  { intros p n Hp. unfold ensure_directory_path. apply confined_bind.
    { apply confined_missing, confined_bind; [apply confined_look, changes_at_path, changes_query|intros; apply confined_ret]. }
    intros present. apply confined_bind; [|intros []; [by apply ensure_dir_confined|apply confined_fail]].
    destruct present; [|apply confined_ret]. apply confined_missing, confined_bind; [apply confined_look, changes_at_path, changes_query|intros; apply confined_ret]. }
  assert (confined side scratch (_ ← io_map_err from_fs_error (ensure_directory_path (etc_dir d) "etc");
    _ ← io_map_err from_fs_error (ensure_directory_path (conf_dir d) "conf.d");
    _ ← io_map_err from_fs_error (ensure_php_ini_path ini (php_ini d)); mret d)) as Hall; [|intros s0 w Hw; exact (Hall s0 w Hw)].
  apply confined_bind; [apply confined_map_err, Hdir, (region_above _ _ _ Hr)|intros _u].
  apply confined_bind; [apply confined_map_err, Hdir|intros _v].
  { rewrite Hc. intros q [[Hq|Hq]%under_or_above Hne]%elem_of_ancestors; [by apply (region_below _ _ _ Hr)|].
    apply (region_above _ _ _ Hr), elem_of_ancestors. by split. }
  apply confined_bind; [|intros _w; apply confined_ret]. apply confined_map_err. unfold ensure_php_ini_path. apply confined_bind.
  { apply confined_missing, confined_bind; [apply confined_look, changes_at_path, changes_query|intros; apply confined_ret]. }
  intros [|]; cbn [negb]; [|rewrite Hi; by apply write_sensitive_confined].
  apply confined_bind; [|intros [|]; cbn [negb]; [|apply confined_fail]].
  - apply confined_missing, confined_bind; [apply confined_look, changes_at_path, changes_query|intros; apply confined_ret].
  - apply confined_bind; [apply confined_look, changes_at_path, changes_query|intros; apply confined_ret].
Qed.

(** *** On the state *)

Lemma on_world_spec {E A : Type} (f : E → CommandError) (m : IO E A) P Q X (D : Db → Prop) : hoare P m Q X →
  spec (λ s, P (sh_files s) ∧ D (sh_db s)) (on_part world_part f m) (λ a s, Q a (sh_files s) ∧ D (sh_db s)) (λ _ s, X (sh_files s) ∧ D (sh_db s)).
Proof.
  intros Hm s [Hp Hd]. specialize (Hm (sh_world s) Hp). unfold on_part. cbn. by destruct (m (sh_world s)) as [[a|e] w].
Qed.

Context (now : nat → result StateError string).
Lemma on_db_spec {A : Type} (m : string → Op A) (F : Fs → Prop) (D : Db → Prop) (Q : A → Db → Prop) (Y : Db → Prop) :
  (∀ time d, D d → match m time d with (Ok a, d') => Q a d' | (Err _, d') => Y d' end) → (∀ d, D d → Y d) →
  spec (λ s, F (sh_files s) ∧ D (sh_db s)) (on_db now m) (λ a s, F (sh_files s) ∧ Q a (sh_db s)) (λ _ s, F (sh_files s) ∧ Y (sh_db s)).
Proof.
  intros Hm HY s [Hf Hd]. unfold on_db. destruct (now (sh_ticks s)) as [time|e]; cbn; [|by auto].
  specialize (Hm time _ Hd). by destruct (m _ (sh_db s)) as [[a|e] d].
Qed.

Notation database_open := (database_open connect paths).

Lemma open_spec P (D : Db → Prop) : on_tracks home P →
  spec (λ s, (P (sh_files s) ∧ linkless scratch (sh_files s)) ∧ D (sh_db s)) database_open
    (λ _ s, (P (sh_files s) ∧ linkless scratch (sh_files s)) ∧ D (sh_db s)) (λ _ s, (P (sh_files s) ∧ linkless scratch (sh_files s)) ∧ D (sh_db s)).
Proof.
  intros HP. refine (on_world_spec CmdState _ (λ s, P s ∧ linkless scratch s) (λ _ s, P s ∧ linkless scratch s) (λ s, P s ∧ linkless scratch s) D _).
  apply hoare_side; [apply opening|done].
Qed.

(** *** What the database remembers of a track *)

Definition key (name : ResourceName) (track : TrackName) : string * string := (resource_name_str name, track_name_str track).
Definition remembered (d : Db) (k : string * string) : option string * option string :=
  match managed_resource_tracks d !! k with
  | Some row => (t_installed_version row, t_current_artifact_path row)
  | None => (None, None)
  end.
Definition installed_as (version current_path : string) (row : TrackRow) : Prop :=
  t_desired_state row = "installed" ∧ t_installed_version row = Some version
  ∧ t_current_artifact_path row = Some current_path ∧ t_removal_prune row = false ∧ t_removal_force row = false.
(** The row of the track, wanted, with the release it had. *)
Definition wanted (k : string * string) (d d' : Db) : Prop :=
  ∃ row, d' = put k row d ∧ (t_installed_version row, t_current_artifact_path row) = remembered d k
    ∧ t_desired_state row = "installed" ∧ t_removal_prune row = false ∧ t_removal_force row = false.

Lemma put_put k row row' d : put k row' (put k row d) = put k row' d.
Proof. unfold put, set_managed_resource_tracks. cbn. by rewrite insert_insert_eq. Qed.

Lemma spec_discard {A : Type} P (m : cmd A) (Q : Shell → Prop) X : spec P m (λ _, Q) X → spec P (_ ← m; mret tt) (λ _, Q) X.
Proof. intros Hm. eapply (spec_bind _ _ _ (λ _, Q)); [done|]. by intros a s Hs. Qed.

Lemma desired_step `{!JsonLaws} name track F d0 : resources_wf d0 →
  spec (λ s, F (sh_files s) ∧ sh_db s = d0) (record_desired now name track)
    (λ _ s, F (sh_files s) ∧ resources_wf (sh_db s) ∧ wanted (key name track) d0 (sh_db s)) (λ _ s, F (sh_files s) ∧ sh_db s = d0).
Proof.
  intros Hwf. unfold record_desired. apply spec_discard.
  apply (on_db_spec _ F (λ d, d = d0) (λ _ d, resources_wf d ∧ wanted (key name track) d0 d) (λ d, d = d0)); [|done]. intros time d ->.
  pose proof (record_desired_spec (resource_name_str name) (track_name_str track) StateTypes.Installed time d0 Hwf) as Hr.
  destruct (record_managed_resource_track_desired _ _ _ _ _) as [[r|e] d']; [|done]. destruct Hr as (Hwf' & _ & _ & ->).
  split; [done|]. eexists. split; [done|]. unfold remembered, key. by destruct (managed_resource_tracks d0 !! _).
Qed.

Lemma installed_step `{!JsonLaws} install F d0 : let k := key (mi_resource_name install) (mi_track install) in
  let stored d := resources_wf d ∧ ∃ row, d = put k row d0
    ∧ installed_as (artifact_version_str (mi_artifact_version install)) (path_str (mi_current_artifact_path install)) row in
  let D1 d := resources_wf d ∧ wanted k d0 d in
  spec (λ s, F (sh_files s) ∧ D1 (sh_db s)) (record_installed now install)
    (λ _ s, F (sh_files s) ∧ stored (sh_db s)) (λ _ s, F (sh_files s) ∧ D1 (sh_db s)).
Proof.
  intros k stored D1. unfold record_installed. apply spec_discard.
  apply (on_db_spec _ F D1 (λ _, stored) D1); [|done]. intros time d [Hwfd (row & -> & Hrem & Hdes & Hprune & Hforce)].
  pose proof (record_installed_spec (resource_name_str (mi_resource_name install)) (track_name_str (mi_track install))
    (artifact_version_str (mi_artifact_version install)) (path_str (mi_current_artifact_path install)) time _ Hwfd) as Hr.
  destruct (record_managed_resource_track_installed _ _ _ _ _ _) as [[r|e] d'].
  - destruct Hr as [Hwf' ->]. split; [done|]. change (resource_name_str _, track_name_str _) with k.
    rewrite put_lookup, put_put. eexists. by split.
  - subst d'. split; [done|]. by exists row.
Qed.

(** What preparing an artifact answers. *)
Definition prepared (adapter : ResourceAdapter) (track : TrackName) (artifact : ManifestArtifact) (o : option string)
    (i : ManagedResourceInstall) : Prop :=
  mi_resource_name i = ad_resource_name adapter ∧ mi_track i = track ∧ mi_artifact_version i = ma_artifact_version artifact
  ∧ mi_current_artifact_path i = release_dir (ad_resource_name adapter) rd track (artifact_version_str (ma_artifact_version artifact))
  ∧ ∃ existed, mi_artifact_install i = install_record (ad_resource_name adapter) rd track (ma_artifact_version artifact) o existed
    ∧ (existed = false → o ≠ Some (artifact_version_str (ma_artifact_version artifact))).

Lemma selected_step adapter track artifact (o : option string) s0 (D : Db → Prop) revoked source :
  let name := ad_resource_name adapter in
  let v := artifact_version_str (ma_artifact_version artifact) in
  sound_adapter adapter → str_all is_ascii_hexdigit (sha256_str (ma_sha256 artifact)) = true →
  spec (λ s, ((live name rd track v s0 o (sh_files s) ∧ current_valid name (ad_validate adapter) rd track v o (sh_files s))
              ∧ linkless scratch (sh_files s)) ∧ D (sh_db s))
    (install_selected_artifact entry_type entry_path open_archive unpack agent_call sha256_hex paths adapter track artifact revoked source)
    (λ i s, prepared adapter track artifact o i
       ∧ (switched name (ad_validate adapter) rd track v s0 o (sh_files s) ∧ linkless scratch (sh_files s)) ∧ D (sh_db s))
    (λ _ s, (settled name (ad_validate adapter) rd track v s0 o (sh_files s) ∧ linkless scratch (sh_files s)) ∧ D (sh_db s)).
Proof.
  intros name v Hadapter Hdigest. unfold install_selected_artifact. eapply spec_bind.
  - exact (on_world_spec CmdResources _ _ _ _ D (fetch_spec adapter track artifact Hadapter Hdigest o s0)).
  - intros [i cached] s [[[(existed & Hi & Ho) Hs] Hl] Hd]. cbn in Hi. subst i. split; [|done]. split_and!; [done..|by exists existed].
Qed.

Context (target_platform : TargetPlatform).
Notation run_install_track := (install_track entry_type entry_path open_archive unpack agent_call sha256_hex connect now paths target_platform).

(** C4: Installing a track moves the files and the database together. A success points the
    track to the chosen artifact's release, which is there and passes the adapter's check,
    and records exactly that version and path, wanted and not to be removed. A failure, of
    the network, the disk or the database, leaves the pointer at the old release or at the
    new, checked one, with the old release's files untouched, and the database as it was,
    or saying only that the track is wanted: it never names a release that was not
    installed. The tables stay well formed.
    Assumed: the track points to a release that is there, or to none, and if that is the very
    release to install, it passes the adapter's check (as for the installer: a failing
    reinstall of a release that does not would leave the pointer dangling, which is the
    finding about it); the adapter's check reads only the release and rejects an empty one;
    the manifest has the artifact and its digest is hexadecimal; no symbolic link is below
    PV's download and scratch directories; the archive reader, the HTTP client and the
    database keep to their own files. *)
Theorem install_track_spec `{!JsonLaws} adapter track manifest manifest_source selection s (o : option string) :
  let name := ad_resource_name adapter in
  let artifact := selection_artifact selection in
  let v := artifact_version_str (ma_artifact_version artifact) in
  sound_adapter adapter → select_latest name track target_platform manifest = Ok selection →
  str_all is_ascii_hexdigit (sha256_str (ma_sha256 artifact)) = true →
  resources_wf (sh_db s) → linkless scratch (sh_files s) →
  points name rd track o (sh_files s) → current_valid name (ad_validate adapter) rd track v o (sh_files s) →
  match run_install_track adapter track manifest manifest_source s with
  | (Ok i, s') => prepared adapter track artifact o i
      ∧ switched name (ad_validate adapter) rd track v (sh_files s) o (sh_files s') ∧ resources_wf (sh_db s')
      ∧ ∃ row, sh_db s' = put (key name track) row (sh_db s) ∧ installed_as v (path_str (release_dir name rd track v)) row
  | (Err _, s') => settled name (ad_validate adapter) rd track v (sh_files s) o (sh_files s') ∧ resources_wf (sh_db s')
      ∧ (sh_db s' = sh_db s ∨ wanted (key name track) (sh_db s) (sh_db s'))
  end.
Proof.
  intros name artifact v Hadapter Hselect Hdigest Hwf Hlinks Hp Hc.
  set (A := λ s1, live name rd track v (sh_files s) o s1 ∧ current_valid name (ad_validate adapter) rd track v o s1).
  set (A0 := λ s1, A s1 ∧ linkless scratch s1).
  set (D1 := λ d, resources_wf d ∧ wanted (key name track) (sh_db s) d).
  set (X := λ (_ : CommandError) s', settled name (ad_validate adapter) rd track v (sh_files s) o (sh_files s') ∧ resources_wf (sh_db s')
      ∧ (sh_db s' = sh_db s ∨ wanted (key name track) (sh_db s) (sh_db s'))).
  assert (spec (λ s1, A0 (sh_files s1) ∧ sh_db s1 = sh_db s) (run_install_track adapter track manifest manifest_source)
    (λ i s', prepared adapter track artifact o i ∧ switched name (ad_validate adapter) rd track v (sh_files s) o (sh_files s') ∧ resources_wf (sh_db s')
      ∧ ∃ row, sh_db s' = put (key name track) row (sh_db s) ∧ installed_as v (path_str (release_dir name rd track v)) row) X) as Hspec;
    [|exact (Hspec s (conj (conj (conj (live_now _ _ _ _ _ _ Hp) Hc) Hlinks) eq_refl))].
  assert (∀ e s1, A0 (sh_files s1) ∧ sh_db s1 = sh_db s → X e s1) as H0X.
  { intros e s1 [[[Hl _] _] Hd]. unfold X. rewrite Hd. split_and!; [by left|done|by left]. }
  unfold install_track, select. rewrite (Hselect : select_latest (ad_resource_name adapter) track target_platform manifest = Ok selection).
  eapply (spec_bind _ _ _ (λ sel s1, sel = selection ∧ A0 (sh_files s1) ∧ sh_db s1 = sh_db s)).
  { apply spec_lift; [|done]. intros a [= <-] s1 Hs1. by split. }
  intros sel. apply spec_pure. intros ->. cbn zeta. eapply spec_bind.
  { eapply spec_conseq; [by intros s1 Hs1; exact Hs1|by intros a s1 Hs1; exact Hs1|exact H0X|].
    apply (open_spec A (λ d, d = sh_db s)), (local_on_tracks home name track), local_and; [apply live_local|apply current_valid_local, (sound_ext _ Hadapter)]. }
  intros _u. eapply spec_bind.
  { eapply spec_conseq; [by intros s1 Hs1; exact Hs1|by intros a s1 Hs1; exact Hs1|exact H0X|]. by apply (desired_step name track A0 (sh_db s)). }
  intros _v. eapply spec_bind.
  { eapply spec_conseq; [by intros s1 Hs1; exact Hs1|by intros a s1 Hs1; exact Hs1| |].
    2:{ by apply (selected_step adapter track artifact o (sh_files s) D1). }
    intros e s1 [[Hs1 _] [Hd Hd2]]. split_and!; [done..|by right]. }
  intros i. apply spec_pure. intros Hi. pose proof Hi as (Hin & Hit & Hiv & Hip & _). eapply spec_bind.
  - eapply spec_conseq; [|by intros a s1 Hs1; exact Hs1| |apply (installed_step i (switched name (ad_validate adapter) rd track v (sh_files s) o) (sh_db s))].
    + rewrite Hin, Hit. intros s1 [[Hs1 _] Hd]. by split.
    + rewrite Hin, Hit. intros e s1 [Hs1 [Hd Hd2]]. split_and!; [by right|done|by right].
  - intros _w s1 (Hs1 & Hwf1 & Hrow). rewrite Hin, Hit, Hiv, Hip in Hrow. by split_and!.
Qed.

(** *** Preparing two tracks and rolling back *)

(** An error of a step, not of a rollback. *)
Definition step_error (e : CommandError) : Prop := match e with RollbackFailed _ _ => False | _ => True end.
Definition stepwise {A : Type} (m : cmd A) : Prop := ∀ s, match m s with (Err e, _) => step_error e | _ => True end.

Lemma stepwise_bind {A B : Type} (m : cmd A) (f : A → cmd B) : stepwise m → (∀ a, stepwise (f a)) → stepwise (m ≫= f).
Proof. intros Hm Hf s. specialize (Hm s). unfold mbind, eff_bind. destruct (m s) as [[a|e] s']; [apply Hf|done]. Qed.
Lemma stepwise_ret {A : Type} (a : A) : stepwise (mret a).
Proof. by intros s. Qed.
Lemma stepwise_lift {A : Type} (r : result ResourcesError A) : stepwise (cmd_lift r).
Proof. intros s. unfold cmd_lift, eff_lift. by destruct r. Qed.
Lemma stepwise_world {E A : Type} (f : E → CommandError) (m : IO E A) : (∀ e, step_error (f e)) → stepwise (on_part world_part f m).
Proof. intros Hf s. unfold on_part. destruct (m _) as [[a|e] w]; cbn; [done|apply Hf]. Qed.
Lemma stepwise_db {A : Type} (m : string → Op A) : stepwise (on_db now m).
Proof. intros s. unfold on_db. destruct (now _) as [time|e]; [|done]. by destruct (m _ _) as [[a|e] d]. Qed.

Notation run_prepare := (prepare_track_install entry_type entry_path open_archive unpack agent_call sha256_hex paths target_platform).

Lemma prepare_stepwise adapter track manifest source : stepwise (run_prepare adapter track manifest source).
Proof.
  unfold prepare_track_install. apply stepwise_bind; [apply stepwise_lift|intros selection].
  apply stepwise_bind; [by apply stepwise_world|intros i; apply stepwise_ret].
Qed.

Lemma spec_stepwise {A : Type} P (m : cmd A) Q X : stepwise m → spec P m Q X → spec P m Q (λ e s, step_error e ∧ X e s).
Proof. intros He Hm s Hs. specialize (He s). specialize (Hm s Hs). by destruct (m s) as [[a|e] s']. Qed.

(** Preparing an artifact, with what holds of another track. *)
Section beside.
Context (adapter : ResourceAdapter) (track : TrackName) (artifact : ManifestArtifact) (o : option string) (s0 : Fs).
Context (name' : ResourceName) (track' : TrackName) (P : Fs → Prop).
Let name := ad_resource_name adapter.
Let v := artifact_version_str (ma_artifact_version artifact).
Hypothesis Hadapter : sound_adapter adapter.
Hypothesis Hdigest : str_all is_ascii_hexdigit (sha256_str (ma_sha256 artifact)) = true.
Hypothesis Hne : (name, track) ≠ (name', track').
Hypothesis HP : local home name' track' P.

Definition waiting_track (s : Fs) : Prop := live name rd track v s0 o s ∧ current_valid name (ad_validate adapter) rd track v o s.
Definition switched_track (s : Fs) : Prop := switched name (ad_validate adapter) rd track v s0 o s.
Definition settled_track (s : Fs) : Prop := settled name (ad_validate adapter) rd track v s0 o s.
Definition unwinding_track (s : Fs) : Prop := unwinding name rd track v s0 o s.
Definition live_track (s : Fs) : Prop := live name rd track v s0 o s.

Lemma fetch_beside : hoare (λ s, (waiting_track s ∧ linkless scratch s) ∧ P s ∧ linkless scratch s) (fetch adapter track artifact)
  (λ r s, (((∃ existed, r.1 = install_record name rd track (ma_artifact_version artifact) o existed ∧ (existed = false → o ≠ Some v))
            ∧ switched_track s) ∧ linkless scratch s) ∧ P s ∧ linkless scratch s)
  (λ s, (settled_track s ∧ linkless scratch s) ∧ P s ∧ linkless scratch s).
Proof.
  apply hoare_both; [apply (fetch_spec adapter track artifact Hadapter Hdigest o s0)|].
  apply (fetch_apart adapter track artifact Hadapter Hdigest name' track' P Hne HP).
Qed.

Lemma prepare_step manifest source selection (D : Db → Prop) :
  select_latest name track target_platform manifest = Ok selection → selection_artifact selection = artifact →
  spec (λ s, (waiting_track (sh_files s) ∧ P (sh_files s) ∧ linkless scratch (sh_files s)) ∧ D (sh_db s))
    (run_prepare adapter track manifest source)
    (λ i s, prepared adapter track artifact o i ∧ (switched_track (sh_files s) ∧ P (sh_files s) ∧ linkless scratch (sh_files s)) ∧ D (sh_db s))
    (λ e s, step_error e ∧ (settled_track (sh_files s) ∧ P (sh_files s) ∧ linkless scratch (sh_files s)) ∧ D (sh_db s)).
Proof.
  intros Hselect Hart. apply spec_stepwise; [apply prepare_stepwise|]. set (before := λ s, waiting_track s ∧ P s ∧ linkless scratch s).
  unfold prepare_track_install, select. rewrite (Hselect : select_latest (ad_resource_name adapter) track target_platform manifest = Ok selection).
  eapply (spec_bind _ _ _ (λ sel s, sel = selection ∧ before (sh_files s) ∧ D (sh_db s))).
  { apply spec_lift; [|done]. intros a [= <-] s Hs. by split. }
  intros sel. apply spec_pure. intros ->. rewrite Hart. unfold install_selected_artifact. eapply spec_bind.
  - refine (on_world_spec CmdResources _ before (λ r s, (∃ existed, r.1 = install_record name rd track (ma_artifact_version artifact) o existed
       ∧ (existed = false → o ≠ Some v)) ∧ switched_track s ∧ P s ∧ linkless scratch s) (λ s, settled_track s ∧ P s ∧ linkless scratch s) D _).
    eapply hoare_conseq; [| | |apply fetch_beside]; unfold before; tauto.
  - intros [i cached] s [[(existed & Hi & Ho) Hs] Hd]. cbn in Hi. subst i. split; [|done]. split_and!; [done..|by exists existed].
Qed.

(** Rolling the install back, or what a failed rollback leaves. *)
Lemma rolled_step i : points name rd track o s0 → prepared adapter track artifact o i →
  hoare (λ s, switched_track s ∧ P s) (rollback (mi_artifact_install i)) (λ _ s, live_track s ∧ P s) (λ s, unwinding_track s ∧ P s).
Proof.
  intros Hp (_ & _ & _ & _ & existed & -> & Ho). apply hoare_both; [|by apply (rolling_apart adapter track name' track')].
  pose proof (adapter_laws adapter Hadapter) as Hlaws.
  pose proof (rollback_spec open_archive unpack name (ad_validate adapter) rd track (ma_artifact_version artifact) existed o s0 Hp Ho) as Hr.
  intros w Hw. specialize (Hr w Hw). destruct (rollback _ w) as [[_u|e] w']; [apply Hr|exact Hr].
Qed.

Lemma live_unwinding s : live_track s → unwinding_track s.
Proof. intros [Hp Hk]. split; [by right|done]. Qed.
Lemma settled_unwinding s : settled_track s → unwinding_track s.
Proof. intros [Hs|(Hp & _ & Hk)]; [by apply live_unwinding|]. split; [by left|done]. Qed.
End beside.

(** *** Recovering from an error *)

Lemma or_recover_spec {A : Type} P (m : cmd A) (recover : CommandError → cmd CommandError) (Q : A → Shell → Prop) (Y X : CommandError → Shell → Prop) :
  spec P m Q Y → (∀ e, spec (Y e) (recover e) X (λ _ _, False)) → spec P (or_recover m recover) Q X.
Proof.
  intros Hm Hr s Hs. specialize (Hm s Hs). unfold or_recover, mbind, eff_bind, eff_try. destruct (m s) as [[a|e] s']; [done|].
  specialize (Hr e s' Hm). by destruct (recover e s') as [[e'|?] s''].
Qed.

(** The error after a rollback that worked, and after one that did not. *)
Definition rolled_back (e : CommandError) (Q X : Fs → Prop) (D : Db → Prop) (e' : CommandError) (s : Shell) : Prop :=
  (e' = e ∧ Q (sh_files s) ∨ (∃ r, e' = RollbackFailed e r) ∧ X (sh_files s)) ∧ D (sh_db s).

Lemma rollback_one i e F Q X (D : Db → Prop) : hoare F (rollback (mi_artifact_install i)) (λ _, Q) X →
  spec (λ s, F (sh_files s) ∧ D (sh_db s)) (rollback_after_error [i] e) (rolled_back e Q X D) (λ _ _, False).
Proof.
  intros Hr s [Hf Hd]. specialize (Hr (sh_world s) Hf). unfold rollback_after_error, rollback_prepared_installs, rollback_installs.
  cbv [mbind eff_bind eff_try on_part mret eff_ret]. cbn. destruct (rollback _ (sh_world s)) as [[u|r] w]; cbn; (split; [|done]); [by left|].
  right. split; [by exists r|done].
Qed.

Lemma rollback_two p e F Q1 X1 Q X (D : Db → Prop) : hoare F (rollback (mi_artifact_install (pp_frankenphp p))) (λ _, Q1) X1 →
  hoare Q1 (rollback (mi_artifact_install (pp_php p))) (λ _, Q) X → hoare X1 (rollback (mi_artifact_install (pp_php p))) (λ _, X) X →
  spec (λ s, F (sh_files s) ∧ D (sh_db s)) (rollback_php_pair_after_error p e) (rolled_back e Q X D) (λ _ _, False).
Proof.
  intros Hj Hi Hi' s [Hf Hd]. specialize (Hj (sh_world s) Hf).
  unfold rollback_php_pair_after_error, rollback_php_pair_install, rollback_prepared_installs, rollback_installs.
  cbv [mbind eff_bind eff_try on_part mret eff_ret]. cbn. destruct (rollback (mi_artifact_install (pp_frankenphp p)) (sh_world s)) as [[u|r] w]; cbn.
  - specialize (Hi w Hj). destruct (rollback (mi_artifact_install (pp_php p)) w) as [[u'|r] w']; cbn; (split; [|done]); [by left|].
    right. split; [by exists r|done].
  - specialize (Hi' w Hj). destruct (rollback (mi_artifact_install (pp_php p)) w) as [[u'|r'] w']; cbn; (split; [|done]);
      (right; split; [by exists r|done]).
Qed.

(** *** PHP with FrankenPHP *)

Section pair.
Context (php frankenphp : ResourceAdapter) (track : TrackName) (a1 a2 : ManifestArtifact) (o1 o2 : option string) (s0 : Shell).
Context `{!JsonLaws} (ini : string).
Hypothesis Hphp : sound_adapter php.
Hypothesis Hfranken : sound_adapter frankenphp.
Hypothesis Hdigest1 : str_all is_ascii_hexdigit (sha256_str (ma_sha256 a1)) = true.
Hypothesis Hdigest2 : str_all is_ascii_hexdigit (sha256_str (ma_sha256 a2)) = true.
Hypothesis Hdistinct : ad_resource_name php ≠ ad_resource_name frankenphp.
Hypothesis Hwf : resources_wf (sh_db s0).
Let f0 := sh_files s0.
Let d0 := sh_db s0.
Hypothesis Hp1 : points (ad_resource_name php) rd track o1 f0.
Hypothesis Hp2 : points (ad_resource_name frankenphp) rd track o2 f0.

Notation waiting1 := (waiting_track php track a1 o1 f0).
Notation waiting2 := (waiting_track frankenphp track a2 o2 f0).
Notation switched1 := (switched_track php track a1 o1 f0).
Notation switched2 := (switched_track frankenphp track a2 o2 f0).
Notation settled1 := (settled_track php track a1 o1 f0).
Notation settled2 := (settled_track frankenphp track a2 o2 f0).
Notation live1 := (live_track php track a1 o1 f0).
Notation live2 := (live_track frankenphp track a2 o2 f0).
Notation unwinding1 := (unwinding_track php track a1 o1 f0).
Notation unwinding2 := (unwinding_track frankenphp track a2 o2 f0).

(** Both releases installed, both rows written. *)
Definition pair_rows (d : Db) : Prop := resources_wf d ∧ ∃ row1 row2,
  d = put (key (ad_resource_name frankenphp) track) row2 (put (key (ad_resource_name php) track) row1 d0)
  ∧ installed_as (artifact_version_str (ma_artifact_version a1))
      (path_str (release_dir (ad_resource_name php) rd track (artifact_version_str (ma_artifact_version a1)))) row1
  ∧ installed_as (artifact_version_str (ma_artifact_version a2))
      (path_str (release_dir (ad_resource_name frankenphp) rd track (artifact_version_str (ma_artifact_version a2)))) row2.
Definition pair_installed (p : PhpPairInstall) (s : Shell) : Prop :=
  prepared php track a1 o1 (pp_php p) ∧ prepared frankenphp track a2 o2 (pp_frankenphp p)
  ∧ switched1 (sh_files s) ∧ switched2 (sh_files s) ∧ pair_rows (sh_db s).
(** Preparing the artifact of PHP failed; preparing the one of FrankenPHP did, after it. *)
Definition php_failed (manifest : ArtifactManifest) (source : ArtifactManifestSource) : Prop :=
  ∃ e s, run_prepare php track manifest source s0 = (Err e, s).
Definition frankenphp_failed (manifest : ArtifactManifest) (source : ArtifactManifestSource) : Prop :=
  ∃ i s1 e s2, run_prepare php track manifest source s0 = (Ok i, s1) ∧ run_prepare frankenphp track manifest source s1 = (Err e, s2).
(** The database as it was; both tracks where they were, but for a track whose own
    preparation failed, which is at a whole release; unless the rollback failed as well. *)
Definition pair_failed (manifest : ArtifactManifest) (source : ArtifactManifestSource) (e : CommandError) (s : Shell) : Prop :=
  sh_db s = d0 ∧ match e with
                 | RollbackFailed _ _ => unwinding1 (sh_files s) ∧ unwinding2 (sh_files s)
                 | _ => (live1 (sh_files s) ∧ live2 (sh_files s))
                     ∨ (php_failed manifest source ∧ settled1 (sh_files s) ∧ live2 (sh_files s))
                     ∨ (frankenphp_failed manifest source ∧ live1 (sh_files s) ∧ settled2 (sh_files s))
                 end.

Lemma tracks_apart : (ad_resource_name php, track) ≠ (ad_resource_name frankenphp, track).
Proof. intros [= Hn]. by apply Hdistinct. Qed.

Lemma put_installed_row time d i : ∃ row, put_installed time d i = put (in_resource_name i, in_track i) row d
  ∧ installed_as (in_installed_version i) (in_current_artifact_path i) row.
Proof.
  unfold put_installed, upsert_desired_and_installed. rewrite upsert_put. eexists. split; [done|].
  by destruct (managed_resource_tracks d !! _).
Qed.

Lemma prepare_pair manifest source sel1 sel2 :
  select_latest (ad_resource_name php) track target_platform manifest = Ok sel1 → selection_artifact sel1 = a1 →
  select_latest (ad_resource_name frankenphp) track target_platform manifest = Ok sel2 → selection_artifact sel2 = a2 →
  spec (λ s, s = s0 ∧ (waiting1 (sh_files s) ∧ waiting2 (sh_files s) ∧ linkless scratch (sh_files s)) ∧ sh_db s = d0)
    (prepare_php_pair_install entry_type entry_path open_archive unpack agent_call sha256_hex paths target_platform php frankenphp track manifest source)
    (λ p s, (prepared php track a1 o1 (pp_php p) ∧ prepared frankenphp track a2 o2 (pp_frankenphp p))
       ∧ ((switched1 (sh_files s) ∧ switched2 (sh_files s)) ∧ linkless scratch (sh_files s)) ∧ sh_db s = d0) (pair_failed manifest source).
Proof.
  intros Hs1 Ha1 Hs2 Ha2. unfold prepare_php_pair_install.
  assert (local home (ad_resource_name frankenphp) track waiting2) as Hw2.
  { apply local_and; [apply live_local|apply current_valid_local, (sound_ext _ Hfranken)]. }
  assert (local home (ad_resource_name php) track switched1) as Hw1 by apply switched_local, (sound_ext _ Hphp).
  eapply spec_bind.
  { eapply spec_conseq; [by intros s Hs; exact Hs|by intros a s Hs; exact Hs| |apply spec_run,
      (prepare_step php track a1 o1 f0 (ad_resource_name frankenphp) track waiting2 Hphp Hdigest1 tracks_apart Hw2 manifest source sel1 (λ d, d = d0)); done].
    intros e s (Hrun & He & (Hs & [Hl _] & _) & Hd). split; [done|].
    assert (php_failed manifest source) as Hfail by by exists e, s. destruct e; try done; right; by left. }
  intros i. apply spec_at. intros s1 (Hrun & Hi & Hs1').
  eapply (spec_bind _ _ _ (λ j s, prepared frankenphp track a2 o2 j
    ∧ ((switched1 (sh_files s) ∧ switched2 (sh_files s)) ∧ linkless scratch (sh_files s)) ∧ sh_db s = d0)).
  - eapply or_recover_spec.
    + eapply spec_conseq; [| | |apply (spec_run s1), (prepare_step frankenphp track a2 o2 f0 (ad_resource_name php) track switched1 Hfranken Hdigest2
        (not_eq_sym tracks_apart) Hw1 manifest source sel2 (λ d, d = d0)); done]; [|intros j s (_ & ? & (? & ? & ?) & ?); by split_and!|by intros e s Hs; exact Hs].
      intros s ->. destruct Hs1' as [(? & ? & ?) ?]. by split_and!.
    + intros e s (Hrun2 & He & (Hset & Hsw & _) & Hd).
      assert (frankenphp_failed manifest source) as Hfail by by exists i, s1, e, s.
      pose proof (rollback_one i e (λ s, switched1 s ∧ settled2 s) (λ s, live1 s ∧ settled2 s) (λ s, unwinding1 s ∧ settled2 s) (λ d, d = d0)
        (rolled_step php track a1 o1 f0 (ad_resource_name frankenphp) track settled2 Hphp tracks_apart (settled_local _ _ _ _ _ _ _ (sound_ext _ Hfranken)) i Hp1 Hi)
        s (conj (conj Hsw Hset) Hd)) as Hr.
      destruct (rollback_after_error [i] e s) as [[e'|?] s']; [|done].
      destruct Hr as [[[-> [Hl Hst]]|[[r ->] [Hu Hst]]] Hd']; (split; [done|]).
      * destruct e; try done; right; by right.
      * split; [done|by apply settled_unwinding].
  - intros j. apply spec_pure. intros Hj s Hs. by split.
Qed.

Lemma record_stepwise p : stepwise (record_php_pair_install ini connect now paths p).
Proof.
  unfold record_php_pair_install, ensure_php_pair_defaults. repeat first [apply stepwise_db | apply stepwise_ret
    | apply stepwise_world; done | apply stepwise_bind; [|intros ?]].
Qed.

Lemma record_step p : prepared php track a1 o1 (pp_php p) → prepared frankenphp track a2 o2 (pp_frankenphp p) →
  spec (λ s, ((switched1 (sh_files s) ∧ switched2 (sh_files s)) ∧ linkless scratch (sh_files s)) ∧ sh_db s = d0)
    (record_php_pair_install ini connect now paths p)
    (λ _ s, (switched1 (sh_files s) ∧ switched2 (sh_files s)) ∧ pair_rows (sh_db s))
    (λ e s, step_error e ∧ (switched1 (sh_files s) ∧ switched2 (sh_files s)) ∧ sh_db s = d0).
Proof.
  intros (Hn1 & Ht1 & Hv1 & Hc1 & _) (Hn2 & Ht2 & Hv2 & Hc2 & _).
  assert (on_tracks home (λ s, switched1 s ∧ switched2 s)) as Hon.
  { apply on_tracks_and; [apply (local_on_tracks home (ad_resource_name php) track)|apply (local_on_tracks home (ad_resource_name frankenphp) track)];
      apply switched_local; apply sound_ext; done. }
  apply spec_stepwise; [apply record_stepwise|]. unfold record_php_pair_install, ensure_php_pair_defaults.
  set (I := λ f, (switched1 f ∧ switched2 f) ∧ linkless scratch f).
  assert (∀ (e : CommandError) s, I (sh_files s) ∧ sh_db s = d0 → (switched1 (sh_files s) ∧ switched2 (sh_files s)) ∧ sh_db s = d0) as HX.
  { by intros e s [[Hs _] Hd]. }
  eapply (spec_bind _ _ _ (λ _ s, I (sh_files s) ∧ sh_db s = d0)).
  { apply spec_discard. eapply spec_conseq; [by intros s Hs; exact Hs|by intros a s Hs; exact Hs|exact HX|].
    refine (on_world_spec CmdState _ I (λ _, I) I (λ d, d = d0) _). apply hoare_side; [apply defaults_confined|exact Hon]. }
  intros _u. eapply (spec_bind _ _ _ (λ _ s, I (sh_files s) ∧ sh_db s = d0)).
  { eapply spec_conseq; [by intros s Hs; exact Hs|by intros a s Hs; exact Hs|exact HX|].
    exact (open_spec (λ f, switched1 f ∧ switched2 f) (λ d, d = d0) Hon). }
  intros _v. apply spec_discard. eapply spec_conseq; [| |exact HX|
    apply (on_db_spec _ I (λ d, d = d0) (λ _, pair_rows) (λ d, d = d0))]; [by intros s Hs; exact Hs|by intros a s [[Hs _] Hd]| |done].
  intros time d ->. pose proof (record_installs_spec [install_input (pp_php p); install_input (pp_frankenphp p)] time d0 Hwf) as Hr.
  destruct (record_managed_resource_tracks_desired_and_installed _ time d0) as [[rs|e] d']; [|done]. destruct Hr as [Hwf' ->].
  split; [done|]. cbn [foldl]. destruct (put_installed_row time d0 (install_input (pp_php p))) as (row1 & -> & Hrow1).
  match goal with |- context [put_installed time ?d _] => destruct (put_installed_row time d (install_input (pp_frankenphp p))) as (row2 & Hput2 & Hrow2); rewrite Hput2 in * end.
  cbn in *. rewrite Hn1, Ht1, Hn2, Ht2 in *. rewrite Hv1, Hc1 in Hrow1. rewrite Hv2, Hc2 in Hrow2. by exists row1, row2.
Qed.

Lemma rollback_pair_step manifest source p e : prepared php track a1 o1 (pp_php p) → prepared frankenphp track a2 o2 (pp_frankenphp p) → step_error e →
  spec (λ s, (switched2 (sh_files s) ∧ switched1 (sh_files s)) ∧ sh_db s = d0) (rollback_php_pair_after_error p e) (pair_failed manifest source) (λ _ _, False).
Proof.
  intros Hi Hj He. eapply spec_conseq; [by intros s Hs; exact Hs| |by intros ? ? Hf; exact Hf|
    apply (rollback_two p e (λ s, switched2 s ∧ switched1 s) (λ s, live2 s ∧ switched1 s) (λ s, unwinding2 s ∧ switched1 s)
      (λ s, live1 s ∧ live2 s) (λ s, unwinding1 s ∧ unwinding2 s) (λ d, d = d0))].
  - intros e' s [[[-> [Hl1 Hl2]]|[[r ->] Hu]] Hd]; (split; [done|]); [|done]. destruct e; try done; by left.
  - apply (rolled_step frankenphp track a2 o2 f0 (ad_resource_name php) track switched1 Hfranken (not_eq_sym tracks_apart)); [|done..].
    apply switched_local, (sound_ext _ Hphp).
  - eapply hoare_conseq; [| | |apply (rolled_step php track a1 o1 f0 (ad_resource_name frankenphp) track live2 Hphp tracks_apart); [apply live_local|done..]].
    + by intros s [? ?].
    + done.
    + intros s [? ?]. split; [done|by apply live_unwinding].
  - eapply hoare_conseq; [| | |apply (rolled_step php track a1 o1 f0 (ad_resource_name frankenphp) track unwinding2 Hphp tracks_apart); [apply unwinding_local|done..]].
    + by intros s [? ?].
    + intros _u s [? ?]. split; [by apply live_unwinding|done].
    + done.
Qed.
End pair.

(** C5: PHP and FrankenPHP of a track are installed together or not at all, as far as the
    database says: both rows are written in one transaction, after both releases are
    there, checked and pointed to, or neither is. When a step fails, what was prepared is
    rolled back: both tracks are exactly where they were, with their files. Only a track
    whose own preparation failed may be at a whole new release instead, the other being
    where it was; after a failed recording there is no such exception. Only if the rollback
    fails as well, which the error then says, may both pointers have been left at the new
    releases. The assumptions are those of installing one track, for both: among them, a
    release that is pointed to and is the very one to install passes its adapter's check. *)
Theorem install_pair_track_spec `{!JsonLaws} ini php frankenphp track manifest manifest_source sel1 sel2 s (o1 o2 : option string) :
  let a1 := selection_artifact sel1 in
  let a2 := selection_artifact sel2 in
  sound_adapter php → sound_adapter frankenphp → ad_resource_name php ≠ ad_resource_name frankenphp →
  select_latest (ad_resource_name php) track target_platform manifest = Ok sel1 →
  select_latest (ad_resource_name frankenphp) track target_platform manifest = Ok sel2 →
  str_all is_ascii_hexdigit (sha256_str (ma_sha256 a1)) = true → str_all is_ascii_hexdigit (sha256_str (ma_sha256 a2)) = true →
  resources_wf (sh_db s) → linkless scratch (sh_files s) →
  points (ad_resource_name php) rd track o1 (sh_files s) → points (ad_resource_name frankenphp) rd track o2 (sh_files s) →
  current_valid (ad_resource_name php) (ad_validate php) rd track (artifact_version_str (ma_artifact_version a1)) o1 (sh_files s) →
  current_valid (ad_resource_name frankenphp) (ad_validate frankenphp) rd track (artifact_version_str (ma_artifact_version a2)) o2 (sh_files s) →
  match install_pair_track entry_type entry_path open_archive unpack agent_call sha256_hex ini connect now paths target_platform
          php frankenphp track manifest manifest_source s with
  | (Ok p, s') => pair_installed php frankenphp track a1 a2 o1 o2 s p s'
  | (Err e, s') => pair_failed php frankenphp track a1 a2 o1 o2 s manifest manifest_source e s'
  end.
Proof.
  intros a1 a2 Hphp Hfranken Hne Hs1 Hs2 Hd1 Hd2 Hwf Hl Hp1 Hp2 Hc1 Hc2.
  pose proof (prepare_pair php frankenphp track a1 a2 o1 o2 s Hphp Hfranken Hd1 Hd2 Hne Hp1 manifest manifest_source sel1 sel2 Hs1 eq_refl Hs2 eq_refl) as Hprep.
  assert (spec (λ s1, s1 = s ∧ (waiting_track php track a1 o1 (sh_files s) (sh_files s1) ∧ waiting_track frankenphp track a2 o2 (sh_files s) (sh_files s1)
      ∧ linkless scratch (sh_files s1)) ∧ sh_db s1 = sh_db s)
    (install_pair_track entry_type entry_path open_archive unpack agent_call sha256_hex ini connect now paths target_platform php frankenphp track manifest manifest_source)
    (pair_installed php frankenphp track a1 a2 o1 o2 s) (pair_failed php frankenphp track a1 a2 o1 o2 s manifest manifest_source)) as Hspec.
  - unfold install_pair_track. eapply spec_bind; [exact Hprep|]. intros p. apply spec_pure. intros [Hi Hj].
    eapply (spec_bind _ _ _ (λ _, pair_installed php frankenphp track a1 a2 o1 o2 s p)); [|by intros _u s1 Hs1'].
    eapply or_recover_spec.
    + eapply spec_conseq; [by intros s1 H'; exact H'| |by intros e s1 H'; exact H'|
        by apply (record_step php frankenphp track a1 a2 o1 o2 s ini Hphp Hfranken Hwf p Hi Hj)].
      intros _u s1 [[? ?] ?]. by split_and!.
    + intros e s1 (He & [? ?] & Hd). by apply (rollback_pair_step php frankenphp track a1 a2 o1 o2 s Hphp Hfranken Hne Hp1 Hp2 manifest manifest_source p e Hi Hj He s1).
  - exact (Hspec s (conj eq_refl (conj (conj (conj (live_now _ _ _ _ _ _ Hp1) Hc1) (conj (conj (live_now _ _ _ _ _ _ Hp2) Hc2) Hl)) eq_refl))).
Qed.
End steps.

(** ** The check tells what the update does *)

(** For a track that is installed, the check answers what the update decides, from the same
    manifest. When the update can tell, the check shows the version it would choose, and
    says that the track is current exactly when the update leaves it: the version is the
    one chosen and is not revoked. When the update would fail, the check shows no version
    and calls the track unavailable, or revoked if that is all that is known of it. *)
Theorem check_agrees_with_update target_platform manifest installed :
  let c := check_installed_track_update target_platform manifest installed in
  match track_needs_update target_platform (mt_resource_name installed) (mt_track installed) (Some installed) manifest with
  | Ok needed => (∃ selection, select_latest (mt_resource_name installed) (mt_track installed) target_platform manifest = Ok selection
        ∧ uc_latest_artifact_version c = Some (ma_artifact_version (selection_artifact selection)))
      ∧ (needed = false ↔ uc_status c = Current)
      ∧ (needed = false → uc_latest_artifact_version c = Some (mt_installed_version installed) ∧ uc_current_revocation c = None)
  | Err e => select_latest (mt_resource_name installed) (mt_track installed) target_platform manifest = Err e
      ∧ uc_latest_artifact_version c = None ∧ (uc_status c = Unavailable ∨ uc_status c = RevokedStatus ∧ uc_current_revocation c ≠ None)
  end.
Proof.
  intros c. unfold c, track_needs_update, check_installed_track_update, update_revocation_from_current_artifact.
  assert (∀ e, select_artifact (mt_resource_name installed) (mt_track installed) (mt_installed_version installed) target_platform manifest = Err e →
    select_latest (mt_resource_name installed) (mt_track installed) target_platform manifest = Err e) as Hboth.
  { intros e. unfold select_artifact, select_latest. destruct (manifest_resource _ _) as [r|e']; [|by intros [= ->]]. cbn.
    by destruct (resource_track _ r) as [t|e']; [|intros [= ->]]. }
  destruct (select_artifact _ _ _ _ _) as [current|e]; [|specialize (Hboth e eq_refl); rewrite Hboth; cbn; split_and!; [done..|by left]].
  clear Hboth. destruct (select_latest _ _ _ _) as [selection|e]; cbn.
  - destruct (decide (ma_artifact_version (selection_artifact selection) = mt_installed_version installed)) as [Heq|Hne].
    + rewrite bool_decide_eq_true_2 by done. cbn. destruct current as [a|]; cbn; [destruct (is_revoked _)|]; cbn; split_and!; try done; try by exists selection.
      all: by rewrite Heq.
    + rewrite bool_decide_eq_false_2 by done. cbn. destruct current as [a|]; cbn; [destruct (is_revoked _)|]; cbn; split_and!; try done; by exists selection.
  - destruct current as [a|]; cbn; [destruct (is_revoked _)|]; cbn; split_and!; try done; first [by left|by right].
Qed.

(** ** Uninstalling *)

Section uninstalling.
Context `{Host} `{JsonLaws} (connect : IO StateError unit) (now : nat → result StateError string) (paths : PvPaths).

Lemma track_record_found d records n t : list_managed_resource_tracks d = Ok records →
  List.find (λ record, bool_decide (tr_resource_name record = n) && bool_decide (tr_track record = t)) records
  = match managed_resource_tracks d !! (n, t) with
    | Some row => match track_into_record (n, t) row with Ok r => Some r | Err _ => None end
    | None => None
    end.
Proof.
  unfold list_managed_resource_tracks. rewrite try_map_ok.
  assert (∀ k row, (k, row) ∈ order_by (λ '(k, _), [k.1; k.2]) (map_to_list (managed_resource_tracks d)) ↔ managed_resource_tracks d !! k = Some row) as Hin.
  { intros k row. by rewrite elem_of_order_by, elem_of_map_to_list. }
  assert (NoDup (order_by (λ '(k, _), [k.1; k.2]) (map_to_list (managed_resource_tracks d))).*1) as Hnd.
  { rewrite order_by_perm. apply NoDup_fst_map_to_list. }
  revert Hin Hnd. generalize (order_by (λ '(k, _), [k.1; k.2]) (map_to_list (managed_resource_tracks d))) as l. intros l Hin Hnd Hl.
  destruct (managed_resource_tracks d !! (n, t)) as [row|] eqn:Hrow.
  - apply Hin in Hrow. clear Hin. induction Hl as [|[k row'] r l records Hr Hl IH]; [by apply elem_of_nil in Hrow|].
    cbn in Hnd. apply NoDup_cons in Hnd as [Hk Hnd]. cbn. assert (tr_resource_name r = k.1 ∧ tr_track r = k.2) as [Hn Ht].
    { unfold track_into_record in Hr. inv_ok. by split. }
    rewrite Hn, Ht. destruct k as [n' t']. cbn. apply elem_of_cons in Hrow as [[= <- <- <-]|Hrow].
    + rewrite !bool_decide_eq_true_2 by done. cbn. by rewrite Hr.
    + assert ((n', t') ≠ (n, t)) as Hne. { intros [= -> ->]. apply Hk. apply list_elem_of_fmap. by exists ((n, t), row). }
      assert (bool_decide (n' = n) && bool_decide (t' = t) = false) as ->; [|by apply IH].
      apply andb_false_iff. destruct (decide (n' = n)) as [->|]; [right|left]; apply bool_decide_eq_false; congruence.
  - apply eq_None_not_Some. intros [r Hf]. apply find_some in Hf as [Hr Hb]. split_bools. apply list_elem_of_In in Hr.
    destruct (Forall2_elem_r _ _ _ _ Hl Hr) as ([k row] & Hk & Hkr). apply Hin in Hk.
    assert (tr_resource_name r = k.1 ∧ tr_track r = k.2) as [Hn Ht]. { unfold track_into_record in Hkr. inv_ok. by split. }
    destruct k as [n' t']. cbn in *. congruence.
Qed.

(** A row of the track that may be removed: installed, and either no project requires the
    track or the removal is forced. *)
Definition removable (d : Db) (name : ResourceName) (track : TrackName) (force : bool) (row : TrackRow) : Prop :=
  managed_resource_tracks d !! key name track = Some row
  ∧ t_desired_state row = "installed"
  ∧ is_Some (t_installed_version row) ∧ is_Some (t_current_artifact_path row)
  ∧ (times_required (key name track) d = 0%Z ∨ force = true).

(** The row, to be removed: with the release, the count and the exports it has. *)
Definition removal_row (options : ManagedResourceUninstallOptions) (time : string) (row : TrackRow) : TrackRow := {|
  t_desired_state := "removed"; t_installed_version := t_installed_version row;
  t_current_artifact_path := t_current_artifact_path row; t_usage_count := t_usage_count row;
  t_env_json := t_env_json row; t_removal_prune := opt_prune options; t_removal_force := opt_force options;
  t_updated_at := time |}.

Lemma eligibility_spec d records name track options : resources_wf d → list_managed_resource_tracks d = Ok records →
  match validate_uninstall_eligibility records name track options with
  | Ok _ => ∃ row, removable d name track (opt_force options) row
  | Err e => (¬ ∃ row, removable d name track (opt_force options) row)
      ∧ (∀ r t n, e = TrackInUse r t n → n = times_required (key name track) d ∧ (0 < n)%Z ∧ opt_force options = false)
  end.
Proof.
  intros Hwf Hl. unfold validate_uninstall_eligibility. cbv zeta. rewrite (track_record_found d records _ _ Hl).
  unfold removable. rewrite <-times_required_eq. unfold key. destruct (managed_resource_tracks d !! _) as [row|] eqn:Hrow; [|by split; [intros (? & ? & _)|]].
  pose proof (rw_track_row d Hwf _ _ Hrow) as Hok. pose proof (rw_usage d Hwf _ _ Hrow) as Hu.
  assert (0 ≤ count_requirements (project_managed_resources d) (resource_name_str name, track_name_str track))%Z as Hn by (unfold count_requirements; lia).
  destruct (track_into_record _ row) as [r|] eqn:Hr; [|done]. clear Hok.
  assert (t_desired_state row = as_str (tr_desired_state r) ∧ tr_installed_version r = t_installed_version row
    ∧ tr_current_artifact_path r = t_current_artifact_path row ∧ tr_usage_count r = t_usage_count row) as (Hd & Hv & Hp & Hc).
  { unfold track_into_record in Hr. inv_ok. split_and!; try done. cbn. clear -E2. unfold desired_state_from_database in E2.
    repeat case_bool_decide; by simplify_eq. }
  rewrite Hv, Hp, Hc, Hu. destruct (tr_desired_state r); cbn.
  - destruct (t_installed_version row) as [v|] eqn:Hver, (t_current_artifact_path row) as [p|] eqn:Hpath; cbn;
      try (split; [intros (row' & [= <-] & _ & [? ?] & [? ?] & _); congruence|done]).
    destruct (Z.ltb_spec 0 (count_requirements (project_managed_resources d) (resource_name_str name, track_name_str track))) as [Hlt|Hge]; cbn.
    + destruct (opt_force options) eqn:Hf; cbn.
      * exists row. rewrite Hver, Hpath. split_and!; [done..|by right].
      * split; [|by intros ? ? ? [= _ _ <-]]. intros (row' & [= <-] & _ & _ & _ & [?|?]); [lia|done].
    + exists row. rewrite Hver, Hpath. split_and!; [done..|left; lia].
  - split; [|done]. intros (row' & [= <-] & Hd' & _). by rewrite Hd in Hd'.
Qed.

Lemma record_removal_spec n t prune force time d : resources_wf d →
  match record_managed_resource_track_removal_intent n t prune force time d with
  | (Ok _, d') => resources_wf d' ∧ d' = put (n, t) (match managed_resource_tracks d !! (n, t) with
                     | Some row => set_desired (as_str StateTypes.Removed) prune force time row
                     | None => fresh_track (as_str StateTypes.Removed) None None "{}" prune force time end) d
  | (Err _, d') => d' = d ∧ ¬ (is_identity n = true ∧ concrete_track t)
  end.
Proof.
  intros Hwf. unfold record_managed_resource_track_removal_intent. match goal with |- context [autocommit ?u _ _] => set (update := u) end.
  assert (∀ d', update d = Ok d' → resources_wf d' ∧ d' = upsert_removal_intent n t prune force time d) as Hup.
  { intros d' Hd. unfold update in Hd. inv_ok. apply validate_resource_identity_ok in E. apply validate_concrete_track_ok in E0. split; [by apply removal_intent_wf|done]. }
  assert (∀ d', update d = Ok d' → is_ok (managed_resource_track n t d') = true) as Hread.
  { intros d' (Hwf' & ->)%Hup. unfold upsert_removal_intent in *. rewrite upsert_put in *. apply (row_readable (n, t)); [done|]. by rewrite put_lookup. }
  unfold autocommit. destruct (update d) as [d'|e] eqn:Hu.
  - specialize (Hread d' eq_refl). destruct (Hup d' eq_refl) as [? ->]. destruct (managed_resource_track n t _); [|done].
    split; [done|]. apply upsert_put.
  - split; [done|]. intros [Hn Ht]. unfold update in Hu. apply (validate_resource_identity_ok "name") in Hn. apply validate_concrete_track_ok in Ht.
    rewrite Hn, Ht in Hu. done.
Qed.

Notation run_uninstall := (uninstall connect now paths).

(** What the request and the rest of the host have to allow. *)
Definition request_allowed (name : ResourceName) (track : TrackName) : Prop :=
  resource_name_str name ∈ ["php"; "frankenphp"; "composer"; "mysql"; "postgres"; "redis"; "mailpit"; "rustfs"]
  ∧ track_name_str track ≠ "latest".

Lemma canonical_names n : is_ok (resolve_canonical n) = true ↔
  n ∈ ["php"; "frankenphp"; "composer"; "mysql"; "postgres"; "redis"; "mailpit"; "rustfs"].
Proof.
  unfold resolve_canonical. destruct (List.find _ _) as [d|] eqn:Hf; cbn; (split; [intros Hok|intros Hin]); try done.
  - apply find_some in Hf as [Hd Hb]. apply list_elem_of_In in Hd. unfold is_canonical in Hb. split_bools. subst n.
    unfold RESOURCES in Hd. repeat (apply elem_of_cons in Hd as [->|Hd]; [by apply (bool_decide_unpack _); vm_compute|]). by apply elem_of_nil in Hd.
  - exfalso. revert Hf. repeat (apply elem_of_cons in Hin as [->|Hin]; [by vm_compute|]). by apply elem_of_nil in Hin.
Qed.

Lemma request_ok name track : match validate_uninstall_request name track with
  | Ok _ => request_allowed name track
  | Err _ => ¬ request_allowed name track
  end.
Proof.
  unfold validate_uninstall_request, request_allowed, is_reserved_alias, LATEST_ALIAS. pose proof (canonical_names (resource_name_str name)) as Hn.
  destruct (resolve_canonical _); cbn; [|by intros [?%Hn _]]. case_bool_decide as Ht; [by intros [_ []]|]. split; [by apply Hn|done].
Qed.

Lemma tracks_listed d : resources_wf d → ∃ records, list_managed_resource_tracks d = Ok records.
Proof.
  intros Hwf. unfold list_managed_resource_tracks.
  assert (∀ k row, (k, row) ∈ order_by (λ '(k, _), [k.1; k.2]) (map_to_list (managed_resource_tracks d)) → is_ok (track_into_record k row) = true) as Hok.
  { intros k row Hk%elem_of_order_by%elem_of_map_to_list. by apply (rw_track_row d Hwf). }
  induction (order_by _ _) as [|[k row] l IH]; [by exists []|]. specialize (Hok k row ltac:(left)) as Hr.
  destruct IH as [records Hl]; [intros k' row' Hk'; apply Hok; by right|]. cbn. destruct (track_into_record k row) as [r|]; [|done].
  rewrite Hl. by eexists.
Qed.

Lemma row_identity d name track row : resources_wf d → managed_resource_tracks d !! key name track = Some row →
  track_name_str track ≠ "latest" → is_identity (resource_name_str name) = true ∧ concrete_track (track_name_str track).
Proof.
  intros Hwf Hrow%(rw_track_row d Hwf) Ha. destruct (track_into_record _ _) as [r|] eqn:Hr; [|done]. unfold track_into_record in Hr. inv_ok.
  apply validate_resource_identity_ok in E, E0. split; [done|]. by split.
Qed.

(** C40: Uninstalling a track records the wish to remove it, nothing more, and exactly when it
    may. It succeeds when the resource is one of the eight, the track is not the reserved
    alias, the database opens and its two calls go through, the track is installed and no project requires it, or the
    removal is forced; then the one row is marked removed, now, to be pruned and forced as
    asked, and otherwise as it was: with its release, its count and its exports. Otherwise
    the database stays as it was, and an error about usage gives the number of projects that
    require the track. The database starts well formed. *)
Theorem uninstall_spec name track options s : resources_wf (sh_db s) →
  let d := sh_db s in
  let allowed := request_allowed name track ∧ is_ok (database_open connect paths s).1 = true
    ∧ is_ok (now (sh_ticks s)) = true ∧ is_ok (now (S (sh_ticks s))) = true in
  match run_uninstall name track options s with
  | (Ok intent, s') => allowed ∧ resources_wf (sh_db s')
      ∧ intent = {| mri_resource_name := name; mri_track := track; mri_prune := opt_prune options; mri_force := opt_force options |}
      ∧ ∃ row time, removable d name track (opt_force options) row ∧ now (S (sh_ticks s)) = Ok time
        ∧ sh_db s' = put (key name track) (removal_row options time row) d
  | (Err e, s') => sh_db s' = d ∧ ¬ (allowed ∧ ∃ row, removable d name track (opt_force options) row)
      ∧ (∀ r t n, e = TrackInUse r t n → n = times_required (key name track) d ∧ (0 < n)%Z ∧ opt_force options = false)
  end.
Proof.
  intros Hwf d allowed. unfold allowed, uninstall, cmd_lift, eff_lift, mbind, eff_bind, read_db, on_db. pose proof (request_ok name track) as Hreq.
  destruct (validate_uninstall_request name track) as [_u|e]; cbn [map_err]; [|split_and!; [done|by intros [[? _] _]|done]].
  assert (sh_db (database_open connect paths s).2 = d ∧ sh_ticks (database_open connect paths s).2 = sh_ticks s
    ∧ (∀ r t n, (database_open connect paths s).1 ≠ Err (TrackInUse r t n))) as (Hd & Ht & Hu).
  { unfold database_open, on_state_world, on_part. generalize (_ ← io_map_err from_fs_error (ensure_layout paths); connect : IO StateError unit).
    intros m. by destruct (m (get_part world_part s)) as [[] w]. }
  destruct (database_open connect paths s) as [[_v|e] s1]; cbn in *; [|split_and!; [done|by intros [(_ & ? & _) _]|intros ??? ->; by destruct (Hu r t n)]].
  rewrite Hd, Ht. destruct (now (sh_ticks s)) as [time0|e]; cbn; [|split_and!; [done|by intros [(_ & _ & ? & _) _]|done]].
  destruct (tracks_listed d Hwf) as [records Hl]. rewrite Hl. cbn.
  pose proof (eligibility_spec d records name track options Hwf Hl) as He.
  destruct (validate_uninstall_eligibility _ _ _ _) as [_w|e]; [|destruct He; split_and!; [done|by intros [_ ?]|done]].
  destruct He as [row Hrow]. pose proof Hrow as [Hat _]. destruct (row_identity d name track row Hwf Hat (proj2 Hreq)) as [Hn Htr].
  cbn. destruct (now (S (sh_ticks s))) as [time|e]; cbn; [|split_and!; [done|by intros [(_ & _ & _ & ?) _]|done]].
  pose proof (record_removal_spec (resource_name_str name) (track_name_str track) (opt_prune options) (opt_force options) time d Hwf) as Hr.
  destruct (record_managed_resource_track_removal_intent _ _ _ _ _ _) as [[r|e] d']; cbn; [|by destruct Hr as [_ []]].
  destruct Hr as [Hwf' ->]. split_and!; [done..|]. exists row, time. split_and!; [done..|]. unfold key in *. by rewrite Hat.
Qed.
End uninstalling.

(** ** A home with PHP 8.4 to install and Redis to remove *)

Definition shell_home : path := ["home"].
Definition shell_track : TrackName := {| track_name_str := "8.4" |}.
Definition shell_name (n : string) : ResourceName := {| resource_name_str := n |}.
Definition shell_artifact (n : string) : ManifestArtifact := {|
  ma_resource_name := shell_name n; ma_track := shell_track; ma_artifact_version := {| artifact_version_str := "8.4.1-pv1" |};
  ma_upstream_version := "8.4.1"; ma_pv_build_revision := "pv1"; ma_platform := AnyPlatform;
  ma_url := "https://artifacts.test/" +:+ n +:+ ".tar.gz"; ma_sha256 := {| sha256_str := sample_digest |}; ma_size := 8;
  ma_published_at := {| published_instant := 0 |}; ma_php_extensions := []; ma_revocation_state := Active |}.
Definition shell_resource (n : string) : ManifestResource := {|
  mr_name := shell_name n; mr_default_track := shell_track;
  mr_tracks := [{| mt_name := shell_track; mt_artifacts := [shell_artifact n] |}] |}.
Definition shell_manifest : ArtifactManifest := {|
  am_schema_version := V1; am_minimum_pv_version := {| pv_major := 0; pv_minor := 2; pv_patch := 0; pv_raw := "0.2.0" |};
  am_resources := [shell_resource "php"; shell_resource "frankenphp"] |}.

Definition shell_entries : list SampleEntry :=
  [(Directory, "pkg/bin/", ""); (Regular, "pkg/bin/php", "elf"); (Regular, "pkg/bin/frankenphp", "elf")].
Definition shell_open (p : path) : IO ResourcesError (list (result IoError SampleEntry)) := mret (Ok <$> shell_entries).
Definition shell_get (url : string) : IO ResourcesError string := mret "".
Definition shell_connect : IO StateError unit := mret tt.

#[export] Instance shell_environment (h : Host) :
  CommandEnvironment (H := h) shell_open sample_unpack sample_agent shell_get shell_connect (for_home shell_home).
Proof.
  split; [by intros p w q| |by intros url w q|by intros url w q|by intros w q].
  intros e p w q Hq. cbn. rewrite lookup_insert_ne; [done|]. intros ->. apply Hq, under_refl.
Qed.

Definition shell_php : ResourceAdapter := as_adapter {| rt_resource_name := shell_name "php"; rt_executable_relative_path := "bin/php"; rt_required_file_relative_paths := [] |}.
Definition shell_frankenphp : ResourceAdapter := as_adapter {| rt_resource_name := shell_name "frankenphp"; rt_executable_relative_path := "bin/frankenphp"; rt_required_file_relative_paths := [] |}.
Lemma shell_php_sound : sound_adapter shell_php.
Proof. apply runtime_sound. vm_compute. discriminate. Qed.
Lemma shell_frankenphp_sound : sound_adapter shell_frankenphp.
Proof. apply runtime_sound. vm_compute. discriminate. Qed.

Definition shell_start : Shell := {|
  sh_db := sample_db; sh_world := {| files := {[ ["home"] := Dir ]}; clock := 0; counter := 0 |}; sh_ticks := 0 |}.
Definition shell_now (n : nat) : result StateError string := Ok "t".

Definition shell_install (h : Host) : result CommandError ManagedResourceInstall * Shell :=
  install_track (H := h) sample_type sample_path shell_open sample_unpack sample_agent sample_sha256 shell_connect shell_now
    (for_home shell_home) DarwinArm64 shell_php shell_track shell_manifest ResourceCache.Latest shell_start.
Definition shell_install_pair (h : Host) : result CommandError PhpPairInstall * Shell :=
  install_pair_track (H := h) sample_type sample_path shell_open sample_unpack sample_agent sample_sha256 "" shell_connect shell_now
    (for_home shell_home) DarwinArm64 shell_php shell_frankenphp shell_track shell_manifest ResourceCache.Latest shell_start.

Lemma shell_linkless : linkless (scratch shell_home) (sh_files shell_start).
Proof.
  intros q _. unfold shell_start, sh_files. cbn [files sh_world]. destruct (decide (q = ["home"])) as [->|Hne]; [by rewrite lookup_singleton_eq|].
  by rewrite lookup_singleton_ne.
Qed.
Lemma shell_points n : points (shell_name n) (pv_resources (for_home shell_home)) shell_track None (sh_files shell_start).
Proof. split; [|done]. unfold shell_start, sh_files. cbn [files sh_world fmap option_fmap option_map]. by rewrite lookup_singleton_ne. Qed.
Lemma shell_installs : is_ok (shell_install (faulty_host None)).1 = true.
Proof. vm_compute. reflexivity. Qed.
Lemma shell_pair_fails : is_ok (shell_install_pair (faulty_host (Some 45))).1 = false.
Proof. vm_compute. reflexivity. Qed.

Lemma install_track_spec_witness : ∃ i s', shell_install (faulty_host None) = (Ok i, s')
  ∧ points (shell_name "php") (pv_resources (for_home shell_home)) shell_track (Some "8.4.1-pv1") (sh_files s') ∧ resources_wf (sh_db s').
Proof.
  pose proof (install_track_spec (H := faulty_host None) sample_type sample_path shell_open sample_unpack sample_agent sample_sha256 shell_get
    shell_connect shell_home shell_now DarwinArm64 shell_php shell_track shell_manifest ResourceCache.Latest (SelectLatest (shell_artifact "php"))
    shell_start None shell_php_sound ltac:(vm_compute; reflexivity) ltac:(vm_compute; reflexivity) sample_resources_wf shell_linkless
    (shell_points "php") ltac:(discriminate)) as Hspec.
  pose proof shell_installs as Hok. fold (shell_install (faulty_host None)) in Hspec.
  destruct (shell_install (faulty_host None)) as [[i|e] s']; [|discriminate Hok].
  destruct Hspec as (_ & [Hp _] & Hwf & _). exists i, s'. exact (conj eq_refl (conj Hp Hwf)).
Defined.

(** Installing FrankenPHP fails after PHP is installed: PHP is taken back. *)
Lemma install_pair_track_spec_witness : ∃ e s', shell_install_pair (faulty_host (Some 45)) = (Err e, s') ∧ sh_db s' = sample_db.
Proof.
  pose proof (install_pair_track_spec (H := faulty_host (Some 45)) sample_type sample_path shell_open sample_unpack sample_agent sample_sha256 shell_get
    shell_connect shell_home shell_now DarwinArm64 "" shell_php shell_frankenphp shell_track shell_manifest ResourceCache.Latest
    (SelectLatest (shell_artifact "php")) (SelectLatest (shell_artifact "frankenphp")) shell_start None None
    shell_php_sound shell_frankenphp_sound ltac:(vm_compute; discriminate) ltac:(vm_compute; reflexivity) ltac:(vm_compute; reflexivity)
    ltac:(vm_compute; reflexivity) ltac:(vm_compute; reflexivity) sample_resources_wf shell_linkless
    (shell_points "php") (shell_points "frankenphp") ltac:(discriminate) ltac:(discriminate)) as Hspec.
  pose proof shell_pair_fails as Hno. fold (shell_install_pair (faulty_host (Some 45))) in Hspec.
  destruct (shell_install_pair (faulty_host (Some 45))) as [[p|e] s']; [discriminate Hno|].
  destruct Hspec as [Hd _]. exists e, s'. exact (conj eq_refl Hd).
Defined.
Example shell_pair_rolled_back :
  let s' := (shell_install_pair (faulty_host (Some 45))).2 in
  sh_files s' !! current_link (shell_name "php") (pv_resources (for_home shell_home)) shell_track = None
  ∧ sh_files s' !! release_dir (shell_name "php") (pv_resources (for_home shell_home)) shell_track "8.4.1-pv1" = None.
Proof. vm_compute. split; reflexivity. Qed.

Definition redis_installed : Db :=
  (record_managed_resource_track_installed "redis" "8" "8.0.1" "/home/.pv/resources/redis/8/releases/8.0.1" "t0" sample_db).2.
Lemma redis_installed_wf : resources_wf redis_installed.
Proof.
  pose proof (record_installed_spec "redis" "8" "8.0.1" "/home/.pv/resources/redis/8/releases/8.0.1" "t0" sample_db sample_resources_wf) as Hr.
  unfold redis_installed. destruct (record_managed_resource_track_installed _ _ _ _ _ _) as [[r|e] d']; [by destruct Hr|].
  rewrite Hr. apply sample_resources_wf.
Qed.
Definition shell_uninstall : result CommandError ManagedResourceRemovalIntent * Shell :=
  uninstall (H := faulty_host None) shell_connect shell_now (for_home shell_home) (shell_name "redis") {| track_name_str := "8" |}
    {| opt_prune := true; opt_force := false |} {| sh_db := redis_installed; sh_world := sh_world shell_start; sh_ticks := 0 |}.
Lemma shell_uninstalls : is_ok shell_uninstall.1 = true.
Proof. vm_compute. reflexivity. Qed.

Lemma uninstall_spec_witness : ∃ intent s', shell_uninstall = (Ok intent, s') ∧ resources_wf (sh_db s')
  ∧ ∃ row, removable redis_installed (shell_name "redis") {| track_name_str := "8" |} false row.
Proof.
  pose proof (uninstall_spec (H := faulty_host None) shell_connect shell_now (for_home shell_home) (shell_name "redis") {| track_name_str := "8" |}
    {| opt_prune := true; opt_force := false |} {| sh_db := redis_installed; sh_world := sh_world shell_start; sh_ticks := 0 |} redis_installed_wf) as Hspec.
  pose proof shell_uninstalls as Hok. cbv zeta in Hspec. fold shell_uninstall in Hspec.
  destruct shell_uninstall as [[intent|e] s']; [|discriminate Hok].
  destruct Hspec as (_ & Hwf & _ & row & _ & Hrow & _). exists intent, s'. exact (conj eq_refl (conj Hwf (ex_intro _ row Hrow))).
Defined.
