(* ===== verification/GatewayConfig.v ===== *)
(** * The configuration of the gateway ([daemon/src/gateway_config.rs]): the texts of the
    Caddyfiles, and putting a new tree of them in place of the active one

    A tree is a root file and a directory of fragments, side by side. It is moved into
    place with what was there kept under other names, until the runtime that uses it is
    known to run; then the old one is deleted, or put back.

    The counter of temporary names is the one of the [World]. The validation, a run of
    FrankenPHP, is a parameter, as are the texts of errors. *)

From stdpp Require Import pretty.
From S2P Require Import Prelude RustStr Paths HostFs StateFs.
From S2P Require Import StateTypes PhpRuntimes Errors.

(** ** Rendering *)

Definition GATEWAY_HEALTH_HOSTNAME : string := "pv-gateway.localhost".
Definition GATEWAY_HEALTH_PATH : string := "/__pv/health".
Definition gateway_health_response (http_port https_port : Z) : string :=
  "pv-gateway-health-v1:" +:+ pretty http_port +:+ ":" +:+ pretty https_port.

Record GatewayConfigInput := {
  gc_http_port : Z;
  gc_https_port : Z;
  gc_ca_certificate_path : path;
  gc_ca_private_key_path : path;
  gc_storage_path : path;
  gc_projects_config_glob : path;
  gc_import_project_configs : bool;
}.
Record GatewayProjectRoute := {
  gr_id : string;
  gr_render_config : bool;
  gr_primary_hostname : string;
  gr_hostnames : list string;
  gr_worker_port : Z;
}.
Record PhpWorkerProject := {
  wp_primary_hostname : string;
  wp_hostnames : list string;
  wp_project_root : path;
  wp_document_root : path;
}.
Record PhpWorkerConfigInput := {
  wc_php_track : string;
  wc_port : Z;
  wc_projects_config_glob : path;
  wc_projects : list PhpWorkerProject;
}.

Definition sorted_hostnames (primary_hostname : string) (hostnames : list string) : result DaemonError (list string) :=
  if is_empty primary_hostname
  then Err (UnexpectedProtocolResponse "gateway config requires a primary hostname per route")
  else Ok (dedup (sort_on id (hostnames ++ [primary_hostname]))).

Definition comma_separated_hostnames (primary_hostname : string) (hostnames : list string) : result DaemonError string :=
  hostnames ← sorted_hostnames primary_hostname hostnames;
  Ok (join ", " hostnames).

Definition worker_site (port : Z) (hostname : string) : string := "http://" +:+ hostname +:+ ":" +:+ pretty port.
Definition comma_separated_worker_sites (primary_hostname : string) (hostnames : list string) (port : Z) : result DaemonError string :=
  hostnames ← sorted_hostnames primary_hostname hostnames;
  Ok (join ", " (worker_site port <$> hostnames)).

(** [char::is_control] of some character: U+0000 to U+001F, U+007F, and U+0080 to U+009F,
    which are two bytes. *)
Fixpoint has_control (s : string) : bool :=
  match s with
  | "" => false
  | String c s' =>
      (nat_of_ascii c <? 32)%nat || (nat_of_ascii c =? 127)%nat
      || (nat_of_ascii c =? 194)%nat && match s' with String d _ => (nat_of_ascii d <? 160)%nat | "" => false end
      || has_control s'
  end.

(** [str::replace] of one character by a text. *)
Fixpoint replace_char (c : ascii) (by_ : string) (s : string) : string :=
  match s with
  | "" => ""
  | String d s => (if char_eqb d c then by_ else String d "") +:+ replace_char c by_ s
  end.

Definition quoted_caddyfile_token (value : string) : result DaemonError string :=
  if has_control value
  then Err (UnexpectedProtocolResponse ("Caddyfile token contains a control character: " +:+ debug_str value))
  else
    let escaped := replace_char QUOTE (String BACKSLASH (String QUOTE ""))
                     (replace_char BACKSLASH (String BACKSLASH (String BACKSLASH "")) value) in
    Ok (String QUOTE escaped +:+ String QUOTE "").

Definition lines (l : list string) : string := foldr (λ line s, line +:+ String NEWLINE s) "" l.
Definition quoted (s : string) : string := String QUOTE s +:+ String QUOTE "".

(** One of the two sites that answer for the health of the gateway. *)
Definition health_site (scheme : string) (tls : list string) (health_response : string) : list string :=
  [""; scheme +:+ "://" +:+ GATEWAY_HEALTH_HOSTNAME +:+ " {"; "    bind 127.0.0.1 ::1"] ++ tls
  ++ ["    respond " +:+ GATEWAY_HEALTH_PATH +:+ " " +:+ quoted health_response +:+ " 200"; "}"].
Definition internal_tls : list string := ["    tls {"; "        issuer internal {"; "            ca local"; "        }"; "    }"].

Definition render_gateway_config (input : GatewayConfigInput) : result DaemonError string :=
  let health_response := gateway_health_response (gc_http_port input) (gc_https_port input) in
  storage ← quoted_caddyfile_token (path_str (gc_storage_path input));
  cert ← quoted_caddyfile_token (path_str (gc_ca_certificate_path input));
  key ← quoted_caddyfile_token (path_str (gc_ca_private_key_path input));
  rest ← (if gc_import_project_configs input
          then glob ← quoted_caddyfile_token (path_str (gc_projects_config_glob input)); Ok [""; "import " +:+ glob]
          else Ok [""; "http://127.0.0.1:" +:+ pretty (gc_http_port input) +:+ " {"; "    bind 127.0.0.1 ::1";
                   "    respond " +:+ quoted "PV Gateway is running" +:+ " 404"; "}"]);
  Ok (lines (["# PV_FAKE_PORT " +:+ pretty (gc_http_port input); "{"; "    admin off"; "    storage file_system {";
              "        root " +:+ storage; "    }"; "    http_port " +:+ pretty (gc_http_port input);
              "    https_port " +:+ pretty (gc_https_port input); "    pki {"; "        ca local {"; "            root {";
              "                format pem_file"; "                cert " +:+ cert; "                key " +:+ key;
              "            }"; "        }"; "    }"; "}"]
             ++ health_site "http" [] health_response ++ health_site "https" internal_tls health_response ++ rest)).

Definition render_php_worker_config (input : PhpWorkerConfigInput) : result DaemonError string :=
  rest ← (match wc_projects input with
          | [] => Ok []
          | _ => glob ← quoted_caddyfile_token (path_str (wc_projects_config_glob input)); Ok ["import " +:+ glob]
          end);
  Ok (lines (("# PV_FAKE_PORT " +:+ pretty (wc_port input)) :: rest)).

Definition render_gateway_project_config (route : GatewayProjectRoute) : result DaemonError string :=
  hosts ← comma_separated_hostnames (gr_primary_hostname route) (gr_hostnames route);
  Ok (lines ([hosts +:+ " {"; "    bind 127.0.0.1 ::1"] ++ internal_tls ++
             ["    reverse_proxy 127.0.0.1:" +:+ pretty (gr_worker_port route) +:+ " {"; "        header_up Host {host}";
              "        header_up X-Forwarded-Host {host}"; "        header_up X-Forwarded-Proto {scheme}";
              "        header_up X-Forwarded-For {remote_host}"; "    }"; "}"])).

Definition render_php_worker_project_config (project : PhpWorkerProject) (port : Z) : result DaemonError string :=
  sites ← comma_separated_worker_sites (wp_primary_hostname project) (wp_hostnames project) port;
  document_root ← quoted_caddyfile_token (path_str (wp_document_root project));
  Ok (lines [sites +:+ " {"; "    bind 127.0.0.1 ::1"; "    root * " +:+ document_root; "    php_server"; "    file_server"; "}"]).

(** ** Promotion *)

Record PromotedConfigFile := { pf_active_path : path; pf_backup_path : path; pf_active_existed : bool }.
Record PromotedConfigDir := { pd_active_dir : path; pd_backup_dir : path; pd_active_existed : bool }.
Record PromotedConfigTree := { pt_root : PromotedConfigFile; pt_fragments : PromotedConfigDir }.

Section promotion.
Context `{Host} (daemon_error_text : DaemonError → string).

Definition rollback_failed_error (original rollback : DaemonError) : DaemonError :=
  UnexpectedProtocolResponse ("Gateway config promotion failed: " +:+ daemon_error_text original
    +:+ "; rollback failed: " +:+ daemon_error_text rollback).

Definition on_fs {A : Type} (m : IO FsError A) : IO DaemonError A := io_map_err (λ e, DaemonState (from_fs_error e)) m.

Definition temporary_name (name kind : string) (counter : nat) : string :=
  name +:+ "." +:+ kind +:+ "." +:+ show_nat process_id +:+ "." +:+ show_nat counter +:+ ".tmp".
Definition candidate_path_for (p : path) : IO DaemonError path :=
  counter ← fetch_counter; mret (with_file_name (temporary_name (default "config" (file_name p)) "candidate" counter) p).
Definition backup_path_for (p : path) : IO DaemonError path :=
  counter ← fetch_counter; mret (with_file_name (temporary_name (default "config" (file_name p)) "previous" counter) p).

Definition write_candidate_config (p : path) (content : string) : IO DaemonError unit := on_fs (write_sensitive_file p content).
Definition rename_candidate_config (from to : path) : IO DaemonError unit := io_map_err DaemonIo (std_rename from to).
Definition rename_config_dir (from to : path) : IO DaemonError unit := io_map_err DaemonIo (std_rename from to).
Definition remove_candidate_config (p : path) : IO DaemonError unit := on_fs (delete_file p).
Definition delete_optional_config (p : path) : IO DaemonError unit := on_fs (or_missing tt (delete_file p)).
Definition delete_optional_dir (p : path) : IO DaemonError unit := on_fs (or_missing tt (delete_dir_all p)).

(** [promote_config_file] and [promote_config_dir] differ in the calls that delete and
    rename: what was active is moved away, the candidate takes its place, and if it cannot,
    what was active comes back. *)
Definition replace_entry (delete : path → IO DaemonError unit) (rename : path → path → IO DaemonError unit)
    (active candidate backup : path) (active_existed : bool) : IO DaemonError (path * bool) :=
  _ ← delete backup;
  _ ← (if active_existed then rename active backup else mret tt);
  renamed ← io_try (rename candidate active);
  match renamed with
  | Ok _ => mret (backup, active_existed)
  | Err error =>
      if active_existed then
        restored ← io_try (rename backup active);
        match restored with Ok _ => io_fail error | Err restore_error => io_fail (rollback_failed_error error restore_error) end
      else io_fail error
  end.
Definition promote_entry (delete : path → IO DaemonError unit) (rename : path → path → IO DaemonError unit)
    (active candidate : path) : IO DaemonError (path * bool) :=
  backup ← backup_path_for active;
  active_existed ← path_exists active;
  replace_entry delete rename active candidate backup active_existed.

Definition promote_config_file (active_path candidate_path : path) : IO DaemonError PromotedConfigFile :=
  promoted ← promote_entry delete_optional_config rename_candidate_config active_path candidate_path;
  mret {| pf_active_path := active_path; pf_backup_path := promoted.1; pf_active_existed := promoted.2 |}.
Definition promote_config_dir (active_dir candidate_dir : path) : IO DaemonError PromotedConfigDir :=
  promoted ← promote_entry delete_optional_dir rename_config_dir active_dir candidate_dir;
  mret {| pd_active_dir := active_dir; pd_backup_dir := promoted.1; pd_active_existed := promoted.2 |}.

Definition commit_file (f : PromotedConfigFile) : IO DaemonError unit :=
  if pf_active_existed f then delete_optional_config (pf_backup_path f) else mret tt.
Definition rollback_file (f : PromotedConfigFile) : IO DaemonError unit :=
  _ ← delete_optional_config (pf_active_path f);
  if pf_active_existed f then rename_candidate_config (pf_backup_path f) (pf_active_path f) else mret tt.
Definition commit_dir (d : PromotedConfigDir) : IO DaemonError unit :=
  if pd_active_existed d then delete_optional_dir (pd_backup_dir d) else mret tt.
Definition rollback_dir (d : PromotedConfigDir) : IO DaemonError unit :=
  _ ← delete_optional_dir (pd_active_dir d);
  if pd_active_existed d then rename_config_dir (pd_backup_dir d) (pd_active_dir d) else mret tt.

Definition commit_tree (t : PromotedConfigTree) : IO DaemonError unit :=
  _ ← commit_dir (pt_fragments t); commit_file (pt_root t).
(** Both are tried. *)
Definition rollback_tree (t : PromotedConfigTree) : IO DaemonError unit :=
  fragments ← io_try (rollback_dir (pt_fragments t));
  root ← io_try (rollback_file (pt_root t));
  match fragments, root with
  | Ok _, Ok _ => mret tt
  | Err error, Ok _ | Ok _, Err error => io_fail error
  | Err error, Err restore_error => io_fail (rollback_failed_error error restore_error)
  end.

(** The candidate of the root, written, validated, and written again as it is to be. *)
Definition prepare_candidate (candidate_path : path) (candidate_content active_content : string) (validate : path → IO DaemonError unit) :
    IO DaemonError path :=
  _ ← write_candidate_config candidate_path candidate_content;
  validated ← io_try (validate candidate_path);
  match validated with
  | Err error => _cleanup ← io_try (remove_candidate_config candidate_path); io_fail error
  | Ok _ => _ ← write_candidate_config candidate_path active_content; mret candidate_path
  end.
Definition prepare_root (p : path) (candidate_content active_content : string) (validate : path → IO DaemonError unit) : IO DaemonError path :=
  candidate_path ← candidate_path_for p; prepare_candidate candidate_path candidate_content active_content validate.

(** Once the root is in place: the fragments, or the root as it was. *)
Definition promote_with_fragments (root : PromotedConfigFile) (promote_fragments : IO DaemonError PromotedConfigDir) : IO DaemonError PromotedConfigTree :=
  promoted ← io_try promote_fragments;
  match promoted with
  | Ok fragments => mret {| pt_root := root; pt_fragments := fragments |}
  | Err error =>
      rolled_back ← io_try (rollback_file root);
      match rolled_back with
      | Err restore_error => io_fail (rollback_failed_error error restore_error)
      | Ok _ => io_fail error
      end
  end.
Definition promote_validated_config_tree_async (p : path) (candidate_content active_content : string)
    (validate : path → IO DaemonError unit) (promote_fragments : IO DaemonError PromotedConfigDir) : IO DaemonError PromotedConfigTree :=
  candidate_path ← prepare_root p candidate_content active_content validate;
  promoted ← io_try (promote_config_file p candidate_path);
  match promoted with
  | Err error => _cleanup ← io_try (remove_candidate_config candidate_path); io_fail error
  | Ok root => promote_with_fragments root promote_fragments
  end.

Definition promote_validated_config (p : path) (content : string) (validate : path → IO DaemonError unit) : IO DaemonError unit :=
  candidate_path ← candidate_path_for p;
  _ ← write_candidate_config candidate_path content;
  validated ← io_try (validate candidate_path);
  match validated with
  | Err error => _cleanup ← io_try (remove_candidate_config candidate_path); io_fail error
  | Ok _ => rename_candidate_config candidate_path p
  end.
End promotion.

(** ** Tokens and hostnames *)

(** A quoted token as a reader takes it: up to the closing quote, a backslash before any
    character standing for that character. *)
Fixpoint read_quoted (s : string) : option (string * string) :=
  match s with
  | "" => None
  | String c s =>
      if char_eqb c QUOTE then Some ("", s)
      else if char_eqb c BACKSLASH then
        match s with
        | String d s => (λ '(t, rest), (String d t, rest)) <$> read_quoted s
        | "" => None
        end
      else (λ '(t, rest), (String c t, rest)) <$> read_quoted s
  end.
Definition read_token (s : string) : option (string * string) :=
  match s with String c s => if char_eqb c QUOTE then read_quoted s else None | "" => None end.

Definition escape (s : string) : string :=
  replace_char QUOTE (String BACKSLASH (String QUOTE "")) (replace_char BACKSLASH (String BACKSLASH (String BACKSLASH "")) s).

Lemma escape_cons c s : escape (String c s)
  = (if char_eqb c BACKSLASH || char_eqb c QUOTE then String BACKSLASH (String c "") else String c "") +:+ escape s.
Proof.
  unfold escape. cbn [replace_char]. destruct (char_eqb c BACKSLASH) eqn:Hb; cbn [orb].
  - apply char_eqb_eq in Hb as ->. done.
  - cbn. destruct (char_eqb c QUOTE) eqn:Hq; [by apply char_eqb_eq in Hq as ->|done].
Qed.

Lemma read_escaped v rest : read_quoted (escape v +:+ String QUOTE rest) = Some (v, rest).
Proof.
  induction v as [|c v IH]; [done|]. rewrite escape_cons, <-str_app_assoc.
  destruct (char_eqb c BACKSLASH) eqn:Hb; cbn [orb].
  - apply char_eqb_eq in Hb as ->. cbn. by rewrite IH.
  - destruct (char_eqb c QUOTE) eqn:Hq; [apply char_eqb_eq in Hq as ->; cbn; by rewrite IH|].
    cbn. by rewrite Hq, Hb, IH.
Qed.

Lemma escape_line v : has_control v = false → str_all (λ c, negb (char_eqb c NEWLINE)) (escape v) = true.
Proof.
  induction v as [|c v IH]; [done|]. intros Hc. cbn [has_control] in Hc. rewrite escape_cons.
  apply orb_false_iff in Hc as [[[H32 _]%orb_false_iff _]%orb_false_iff Hv].
  assert (char_eqb c NEWLINE = false) as Hn. { destruct (char_eqb c NEWLINE) eqn:He; [|done]. apply char_eqb_eq in He as ->. done. }
  destruct (_ || _); cbn; rewrite Hn, IH by done; done.
Qed.

(** A path written in a Caddyfile is read back as it was, whatever it holds: quoting
    escapes the quotes and the backslashes, the token ends where its text does, and it
    stays on its line. A text with a control character is refused. *)
Theorem quoted_token_roundtrip value rest :
  match quoted_caddyfile_token value with
  | Ok token => has_control value = false ∧ read_token (token +:+ rest) = Some (value, rest)
      ∧ str_all (λ c, negb (char_eqb c NEWLINE)) token = true
  | Err _ => has_control value = true
  end.
Proof.
  unfold quoted_caddyfile_token. destruct (has_control value) eqn:Hc; [done|]. cbv zeta. fold (escape value). split_and!; [done| |].
  - rewrite <-str_app_assoc. change (String QUOTE "" +:+ rest) with (String QUOTE rest). cbn. apply read_escaped.
  - cbn. assert (∀ s t p, str_all p s = true → str_all p t = true → str_all p (s +:+ t) = true) as Happ.
    { intros s t p. induction s as [|c s IH]; cbn; [done|]. intros [-> Hs]%andb_true_iff Ht. by apply IH. }
    apply Happ; [by apply escape_line|done].
Qed.

(** The hostnames of a route, each once, in order. *)
Lemma sorted_hostnames_spec primary hostnames :
  match sorted_hostnames primary hostnames with
  | Ok hosts => NoDup hosts ∧ StronglySorted (le_on id) hosts ∧ ∀ h, h ∈ hosts ↔ h = primary ∨ h ∈ hostnames
  | Err _ => primary = ""
  end.
Proof.
  unfold sorted_hostnames. destruct (is_empty primary) eqn:He; [by apply is_empty_true|].
  destruct (dedup_sorted (sort_on id (hostnames ++ [primary]))) as [Hs Hn]; [apply sort_on_sorted|]. split_and!; [done..|].
  intros h. rewrite elem_of_dedup, elem_of_sort_on, elem_of_app, list_elem_of_singleton. tauto.
Qed.

(** ** Promotion

    Everything happens among the entries of one directory. *)

Section entries.
Context `{Host} (daemon_error_text : DaemonError → string) (dir : path).
Notation at_ x := (dir ++ [x]).

Lemma apart (x y : string) q : x ≠ y → under (at_ x) q → ¬ under (at_ y) q.
Proof. intros Hxy. by apply (under_siblings dir x y []). Qed.
Lemma below (x : string) r : under (at_ x) (at_ x ++ r).
Proof. apply under_app. Qed.
Lemma drop_below (x : string) (r : path) : drop (length (at_ x)) (at_ x ++ r) = r.
Proof. apply drop_app_length. Qed.

Lemma temporary_name_fresh x kind n : temporary_name x kind n ≠ x.
Proof. apply temporary_name_ne. Qed.
(** The tree of an entry, moved to another name. *)
Definition holds (x : string) (s : Fs) (y : string) (s0 : Fs) : Prop := ∀ r, s !! (at_ x ++ r) = s0 !! (at_ y ++ r).
Definition beside (names : list string) (s0 s : Fs) : Prop := ∀ q, (∀ x, x ∈ names → ¬ under (at_ x) q) → s !! q = s0 !! q.

Lemma beside_holds names x s0 s : beside names s0 s → x ∉ names → holds x s x s0.
Proof. intros Hb Hx r. apply Hb. intros y Hy. apply (apart x y); [by intros ->|apply below]. Qed.
Lemma beside_trans names s0 s1 s2 : beside names s0 s1 → beside names s1 s2 → beside names s0 s2.
Proof. intros H1 H2 q Hq. by rewrite H2, H1. Qed.
Lemma beside_weaken names names' s0 s : names ⊆ names' → beside names s0 s → beside names' s0 s.
Proof. intros Hsub Hb q Hq. apply Hb. intros x Hx. by apply Hq, Hsub. Qed.

(** What a rename of one entry to another does. *)
Lemma rename_entry (P : Fs → Prop) (a b : string) : a ≠ b →
  hoare P (std_rename (at_ a) (at_ b)) (λ _ s', ∃ s, P s ∧ holds b s' a s ∧ beside [a; b] s s' ∧ is_Some (s !! (at_ a))) P.
Proof.
  intros Hab. apply hoare_syscall; [|done|done]. intros s [] s' Hs [[n Hn] ->]%std_rename_ok. exists s. split; [done|]. split_and!.
  - intros r. rewrite lookup_rename, decide_True by apply below. by rewrite drop_below.
  - intros q Hq. rewrite lookup_rename, !decide_False; [done|apply Hq; set_solver..].
  - by exists n.
Qed.

(** *** One entry *)

Section entry.
Context (x y : string) (delete : path → IO DaemonError unit) (rename : path → path → IO DaemonError unit).
Hypothesis delete_inside : ∀ p, changes (under p) (delete p).
Hypothesis rename_is : ∀ a b, rename a b = io_map_err DaemonIo (std_rename a b).
Hypothesis names_differ : y ≠ x.
Hypothesis not_backup : ∀ n, y ≠ temporary_name x "previous" n.

Definition failed_rollback (e : DaemonError) : Prop := ∃ e1 e2, e = rollback_failed_error daemon_error_text e1 e2.

(** The candidate in place, and what was there under the backup's name. *)
Definition swapped (b : string) (existed : bool) (s0 s : Fs) : Prop :=
  holds x s y s0 ∧ is_Some (s0 !! (at_ y)) ∧ (existed = true → holds b s x s0) ∧ beside [x; y; b] s0 s.
Definition unswapped (b : string) (s0 : Fs) (e : DaemonError) (s : Fs) : Prop :=
  beside [b] s0 s ∨ failed_rollback e ∧ holds b s x s0 ∧ beside [x; b] s0 s.

Definition moved_away (b : string) (existed : bool) (s0 s : Fs) : Prop :=
  if existed then holds b s x s0 ∧ beside [x; b] s0 s else beside [b] s0 s.

Lemma move_away b existed s0 : b ≠ x →
  hoare (beside [b] s0) (if existed : bool then rename (at_ x) (at_ b) else mret tt) (λ _, moved_away b existed s0) (beside [b] s0).
Proof.
  intros Hb. unfold moved_away. destruct existed; [|by intros w Hw]. rewrite rename_is. apply hoare_map_err.
  eapply hoare_conseq; [by intros s Hs; exact Hs| |by intros s Hs; exact Hs|apply (rename_entry (beside [b] s0) x b); by intros ->].
  intros _u s (s1 & H1 & Hh & Hbe & _). split.
  - intros r. rewrite (Hh r). apply (beside_holds [b]); [done|]. set_solver.
  - eapply beside_trans; [eapply beside_weaken; [|exact H1]|exact Hbe]. set_solver.
Qed.

Lemma take_place b existed s0 : b ≠ x → y ≠ b →
  triple (moved_away b existed s0)
    (renamed ← io_try (rename (at_ y) (at_ x));
     match renamed with
     | Ok _ => mret (at_ b, existed)
     | Err error =>
         if existed then
           restored ← io_try (rename (at_ b) (at_ x));
           match restored with Ok _ => io_fail error | Err restore_error => io_fail (rollback_failed_error daemon_error_text error restore_error) end
         else io_fail error
     end)
    (λ p s, p = (at_ b, existed) ∧ swapped b existed s0 s) (unswapped b s0).
Proof.
  intros Hbx Hyb. rewrite !rename_is. eapply triple_try.
  { apply hoare_map_err. by apply rename_entry. }
  - intros _u w (s1 & H1 & Hh & Hbe & Hsome). split; [done|].
    assert (∀ q, under (at_ y) q → s1 !! q = s0 !! q) as Hy.
    { intros q Hq. destruct existed; [destruct H1 as [_ H1]|]; apply H1; intros z Hz; apply (apart y z); set_solver. }
    split_and!.
    + intros r. rewrite (Hh r). apply Hy, below.
    + rewrite <-Hy by apply under_refl. done.
    + intros ->. intros r. rewrite Hbe; [apply H1|]. intros z Hz. apply (apart b z); [set_solver|apply below].
    + destruct existed; [destruct H1 as [_ H1]|]; (eapply beside_trans; [eapply beside_weaken; [|exact H1]|eapply beside_weaken; [|exact Hbe]]); set_solver.
  - intros error. destruct existed; [|intros w H1; by left]. eapply triple_try.
    { apply hoare_map_err, rename_entry. by intros ->. }
    + intros _u w (s1 & [Hh1 Hb1] & Hh & Hbe & _). left. intros q Hq. destruct (decide (under (at_ x) q)) as [Hx|Hx].
      * destruct Hx as [r ->]. rewrite (Hh r). apply Hh1.
      * assert (¬ under (at_ b) q) by (apply Hq; set_solver). rewrite Hbe; [apply Hb1|]; intros z Hz; set_solver.
    + intros restore_error w [Hh1 Hb1]. right. split_and!; [by eexists _, _|done|done].
Qed.

Lemma replace_entry_spec b existed s0 : b ≠ x → y ≠ b →
  triple (λ s, s = s0) (replace_entry daemon_error_text delete rename (at_ x) (at_ y) (at_ b) existed)
    (λ p s, p = (at_ b, existed) ∧ swapped b existed s0 s) (unswapped b s0).
Proof.
  intros Hbx Hyb. unfold replace_entry. eapply (triple_seq _ (beside [b] s0)).
  { eapply triple_hoare; [|intros e s Hs; left; exact Hs]. apply (hoare_pre _ (beside [b] s0)); [by intros s -> q Hq|].
    apply (hoare_changes (under (at_ b))); [apply delete_inside| |done]. intros s s' Heq Hs q Hq. rewrite Heq; [by apply Hs|]. apply Hq. set_solver. }
  eapply (triple_seq _ (moved_away b existed s0)); [|by apply take_place].
  eapply triple_hoare; [by apply move_away|]. intros e s Hs. by left.
Qed.

Lemma path_exists_answered {E : Type} p w : fault_at (clock w) = None → is_link (files w !! p) = false →
  path_exists (E := E) p w = (Ok (option_bool (files w !! p)), {| files := files w; clock := S (clock w); counter := counter w |}).
Proof. intros Hf Hl. unfold path_exists, query, syscall. rewrite Hf, (resolve_plain _ _ _ Hl). by destruct (files w !! p). Qed.

Lemma promote_entry_answered w : fault_at (clock w) = None → is_link (files w !! (at_ x)) = false →
  ∃ w1, files w1 = files w ∧ promote_entry daemon_error_text delete rename (at_ x) (at_ y) w
    = replace_entry daemon_error_text delete rename (at_ x) (at_ y) (at_ (temporary_name x "previous" (counter w))) (option_bool (files w !! (at_ x))) w1.
Proof.
  intros Hf Hl. unfold promote_entry, backup_path_for, mbind, io_bind, fetch_counter, mret, io_ret. rewrite path_exists_answered by done.
  unfold with_file_name, file_name. rewrite removelast_last, last_snoc. eexists. split; [|reflexivity]. done.
Qed.

Lemma promote_entry_spec w : fault_at (clock w) = None → is_link (files w !! (at_ x)) = false →
  let b := temporary_name x "previous" (counter w) in
  match promote_entry daemon_error_text delete rename (at_ x) (at_ y) w with
  | (Ok p, w') => p = (at_ b, option_bool (files w !! (at_ x))) ∧ swapped b (option_bool (files w !! (at_ x))) (files w) (files w')
  | (Err e, w') => unswapped b (files w) e (files w')
  end.
Proof.
  intros Hf Hl b. destruct (promote_entry_answered w Hf Hl) as (w1 & Hw & ->).
  apply (replace_entry_spec b _ (files w)); [apply temporary_name_fresh|apply not_backup|done].
Qed.
End entry.
End entries.

(** ** The whole tree *)

Section tree.
Context `{Host} (daemon_error_text : DaemonError → string) (dir : path).
Notation at_ x := (dir ++ [x]).
Notation failed := (failed_rollback daemon_error_text).
Notation ROOT := "Caddyfile".
Notation PROJECTS := "projects".
Context (candidate_content active_content : string) (validate : path → IO DaemonError unit) (fragments : nat).
(** Validating reads the configuration, and may keep files of its own elsewhere. *)
Hypothesis validate_elsewhere : ∀ p, changes (λ q, ¬ under dir q) (validate p).
Let candidate_dir : string := temporary_name PROJECTS "candidate" fragments.

(** *** Deleting *)

Lemma changes_delete_config p : changes (λ q, q = p) (delete_optional_config p).
Proof. apply changes_map_err, changes_or_missing, changes_at_path, changes_std_remove_file. Qed.
Lemma changes_delete_dir p : changes (under p) (delete_optional_dir p).
Proof. apply changes_map_err, changes_or_missing, changes_at_path, changes_std_remove_dir_all. Qed.

Lemma delete_config_spec p s1 : hoare (λ s, s = s1) (delete_optional_config p) (λ _ s, s = delete p s1) (λ s, s = s1).
Proof.
  apply hoare_map_err. intros w Hw. unfold or_missing, delete_file, remove_file, at_path, io_map_err, std_remove_file, syscall.
  destruct (fault_at (clock w)); [done|]. rewrite Hw. destruct (s1 !! p) as [[]|] eqn:Hp; cbn; try done. by rewrite delete_id.
Qed.

Lemma delete_dir_spec p s1 n : s1 !! p = Some n → is_link (Some n) = false →
  hoare (λ s, s = s1) (delete_optional_dir p) (λ _ s, s = without p s1) (λ s, others (under p) s1 s).
Proof.
  intros Hp Hl. apply hoare_map_err. intros w Hw. unfold or_missing, delete_dir_all, at_path, io_map_err, std_remove_dir_all, syscall.
  destruct (fault_at (clock w)) as [f|]; cbn; rewrite Hw.
  - intros q Hq. destruct (s1 !! q) as [m|] eqn:Hs; [apply map_lookup_filter_Some; split; [done|by intros [? _]]|apply map_lookup_filter_None; by left].
  - rewrite Hp. destruct n; cbn; [|done..]. by intros q Hq.
Qed.

(** *** Rolling back one entry *)

Notation holds := (holds dir).
Notation beside := (beside dir).

Lemma put_back (P : Fs → Prop) x b s0 (existed : bool) (s1 : Fs) : b ≠ x → (existed = true → ∀ s, P s → holds b s x s0) → (∀ s, P s → beside [x] s1 s) →
  hoare P (if existed then io_map_err DaemonIo (std_rename (at_ b) (at_ x)) else mret tt)
    (λ _ s, (if existed then holds x s x s0 else P s) ∧ beside [x; b] s1 s) P.
Proof.
  intros Hb Hh Hbe. destruct existed; [apply hoare_map_err|by intros w Hw; split; [|eapply beside_weaken; [|by apply Hbe]; set_solver]].
  eapply hoare_conseq; [by intros s Hs; exact Hs| |by intros s Hs; exact Hs|by apply rename_entry].
  intros _u s (s2 & H2 & Hm & Hb2 & _). split.
  - intros r. rewrite (Hm r). by apply (Hh eq_refl).
  - eapply beside_trans; [eapply beside_weaken; [|by apply Hbe]|eapply beside_weaken; [|exact Hb2]]; set_solver.
Qed.

Lemma rollback_file_spec b existed s0 s1 : b ≠ ROOT → (existed = true → holds b s1 ROOT s0) →
  hoare (λ s, s = s1) (rollback_file {| pf_active_path := at_ ROOT; pf_backup_path := at_ b; pf_active_existed := existed |})
    (λ _ s, (existed = true ∨ s0 !! (at_ ROOT) = None → s !! (at_ ROOT) = s0 !! (at_ ROOT)) ∧ beside [ROOT; b] s1 s)
    (λ s, (existed = true → holds b s ROOT s0) ∧ beside [ROOT] s1 s).
Proof.
  intros Hb Hh. unfold rollback_file. cbn [pf_active_path pf_backup_path pf_active_existed].
  assert (beside [ROOT] s1 (delete (at_ ROOT) s1)) as Hdel.
  { intros q Hq. rewrite lookup_delete_ne; [done|]. intros <-. apply (Hq ROOT); [set_solver|apply under_refl]. }
  assert (existed = true → ∀ s, s = delete (at_ ROOT) s1 → holds b s ROOT s0) as Hd.
  { intros He s ->. intros r. rewrite <-(Hh He r). apply Hdel. intros z Hz. apply (apart dir b z); [set_solver|apply below]. }
  eapply hoare_seq.
  { eapply hoare_err; [|apply delete_config_spec]. intros s ->. by split; [|intros q Hq]. }
  eapply hoare_conseq; [by intros s Hs; exact Hs| | |apply (put_back (λ s, s = delete (at_ ROOT) s1) ROOT b s0 existed s1 Hb Hd)].
  - intros _u s [Hs Hbe]. split; [|done]. intros Hor. destruct existed.
    + specialize (Hs []). by rewrite app_nil_r in Hs.
    + destruct Hor as [?|Hn]; [done|]. rewrite Hs, Hn. apply lookup_delete_eq.
  - intros s ->. split; [intros He; by apply Hd|done].
  - by intros s ->.
Qed.

Lemma rollback_dir_spec b existed s0 s1 n : b ≠ PROJECTS → (existed = true → holds b s1 PROJECTS s0) →
  s1 !! (at_ PROJECTS) = Some n → is_link (Some n) = false →
  hoare (λ s, s = s1) (rollback_dir {| pd_active_dir := at_ PROJECTS; pd_backup_dir := at_ b; pd_active_existed := existed |})
    (λ _ s, (existed = true ∨ (∀ r, s0 !! (at_ PROJECTS ++ r) = None) → holds PROJECTS s PROJECTS s0) ∧ beside [PROJECTS; b] s1 s)
    (λ s, (existed = true → holds b s PROJECTS s0) ∧ beside [PROJECTS] s1 s).
Proof.
  intros Hb Hh Hn Hl. unfold rollback_dir. cbn [pd_active_dir pd_backup_dir pd_active_existed].
  assert (∀ s, others (under (at_ PROJECTS)) s1 s → beside [PROJECTS] s1 s ∧ (existed = true → holds b s PROJECTS s0)) as Hout.
  { intros s Ho. assert (beside [PROJECTS] s1 s) as Hbe by (intros q Hq; apply Ho, Hq; set_solver). split; [done|].
    intros He r. rewrite <-(Hh He r). apply Hbe. intros z Hz. apply (apart dir b z); [set_solver|apply below]. }
  assert (others (under (at_ PROJECTS)) s1 (without (at_ PROJECTS) s1)) as Hdel.
  { intros q Hq. by rewrite lookup_without, decide_False. }
  eapply hoare_seq.
  { eapply hoare_conseq; [by intros s Hs; exact Hs|by intros _u s Hs; exact Hs| |by eapply delete_dir_spec]. intros s Ho.
    destruct (Hout s Ho). by split. }
  eapply hoare_conseq; [by intros s Hs; exact Hs| | |
    apply (put_back (λ s, s = without (at_ PROJECTS) s1) PROJECTS b s0 existed s1 Hb); [intros He s ->; by apply Hout|intros s ->; by apply Hout]].
  - intros _u s [Hs Hbe]. split; [|done]. intros Hor. destruct existed; [done|]. destruct Hor as [?|Hnone]; [done|].
    intros r. rewrite Hs, lookup_without, decide_True by apply below. by rewrite Hnone.
  - intros s ->. destruct (Hout _ Hdel) as [? ?]. by split.
Qed.

(** *** The candidate of the root *)

(** The configuration: its root file, its fragments and the candidates of them. *)
Definition kept (s0 s : Fs) : Prop := ∀ x, x ∈ [ROOT; PROJECTS; candidate_dir] → holds x s x s0.

Section prepare.
Variable counter : nat.
Let c : string := temporary_name ROOT "candidate" counter.

Definition preparing (q : path) : Prop := touched (at_ c) q ∨ ¬ under dir q.
Definition candidates (q : path) : Prop := ∃ t, (t = at_ c ∨ temporary (at_ c) t) ∧ under t q.

Lemma candidate_names x : x ∈ [ROOT; PROJECTS; candidate_dir] → x ≠ c ∧ ∀ rest, x ≠ c +:+ "." +:+ rest.
Proof.
  unfold c, candidate_dir, temporary_name. rewrite !elem_of_cons, elem_of_nil. intros [->|[->|[->|[]]]]; by split.
Qed.

Lemma preparing_kept s0 s : others preparing s0 s → kept s0 s.
Proof.
  intros Ho x Hx r. apply Ho. destruct (candidate_names x Hx) as [Hc Hr]. intros [[Ha|[(t & [n ->] & Hu)|Hu]]|Hu].
  - rewrite removelast_last in Ha. apply elem_of_ancestors in Ha as [[r' Hr'] _]. apply (f_equal length) in Hr'.
    rewrite !length_app in Hr'. cbn in Hr'. lia.
  - rewrite temporary_at in Hu. eapply (apart dir); [|exact Hu|apply below]. intros He. by eapply Hr.
  - eapply (apart dir); [|exact Hu|apply below]. by intros ->.
  - apply Hu. rewrite <-app_assoc. apply under_app.
Qed.

Lemma candidates_below q : candidates q → under dir q.
Proof.
  intros (t & [->|[n ->]] & Hq); (eapply under_trans; [|exact Hq]); [apply under_app|]. rewrite temporary_at. apply under_app.
Qed.

Notation confined_prepare := (confined preparing candidates).

Lemma write_candidate_spec content s0 : hoare (within preparing candidates s0) (write_candidate_config (at_ c) content)
  (λ _ s, within preparing candidates s0 s ∧ s !! (at_ c) = Some (File content)) (within preparing candidates s0).
Proof.
  apply hoare_map_err. intros w Hw.
  assert (confined_prepare (write_sensitive_file (at_ c) content)) as Hc.
  { apply write_sensitive_confined_at.
    - intros q Hq. left; left. by rewrite removelast_last.
    - intros t q Ht Hq. split; [|by exists t]. left; right. destruct Ht as [->|Ht]; [by right|left; by exists t]. }
  specialize (Hc s0 w Hw).
  pose proof (write_sensitive_file_whole (at_ c) content w ltac:(by destruct dir)) as Hs.
  destruct (write_sensitive_file (at_ c) content w) as [[u|e] w']; [|done]. split; [done|]. apply Hs.
  intros t Ht. apply (proj2 Hw). exists t. split; [by right|apply under_refl].
Qed.

Lemma prepare_candidate_spec s0 : hoare (within preparing candidates s0)
  (prepare_candidate (at_ c) candidate_content active_content validate)
  (λ p s, p = at_ c ∧ kept s0 s ∧ s !! (at_ c) = Some (File active_content)) (kept s0).
Proof.
  assert (∀ s, within preparing candidates s0 s → kept s0 s) as Hk by (intros s [Ho _]; by apply preparing_kept).
  eapply (hoare_conseq _ _ _ _ _ _ (within preparing candidates s0)); [by intros s Hs; exact Hs|by intros p s Hs; exact Hs|exact Hk|].
  unfold prepare_candidate. eapply hoare_seq.
  { eapply hoare_conseq; [by intros s Hs; exact Hs| |by intros s Hs; exact Hs|apply write_candidate_spec]. by intros _u s [Hs _]; exact Hs. }
  eapply hoare_bind; [apply (confined_try preparing candidates)|].
  { apply (confined_changes _ _ (λ q, ¬ under dir q)); [apply validate_elsewhere|by right|]. intros q Hq Hc. by apply Hq, candidates_below. }
  intros [_u|error].
  - eapply hoare_seq; [apply write_candidate_spec|]. intros w [Hw Hc]. split_and!; [done|by apply Hk|done].
  - eapply hoare_seq; [apply (confined_try preparing candidates), confined_map_err, confined_map_err, confined_remove_file|by intros w Hw].
    left; right; right. apply under_refl.
Qed.
End prepare.

Definition linkless_dir (s : Fs) : Prop := ∀ q, under dir q → is_link (s !! q) = false.

Lemma prepare_root_spec w : linkless_dir (files w) →
  let c := temporary_name ROOT "candidate" (counter w) in
  match prepare_root (at_ ROOT) candidate_content active_content validate w with
  | (Ok p, w') => p = at_ c ∧ kept (files w) (files w') ∧ files w' !! (at_ c) = Some (File active_content)
  | (Err _, w') => kept (files w) (files w')
  end.
Proof.
  intros Hl c. unfold prepare_root, candidate_path_for, mbind, io_bind, fetch_counter, mret, io_ret, with_file_name, file_name.
  rewrite removelast_last, last_snoc. cbn [default from_option]. fold c.
  apply (prepare_candidate_spec (counter w) (files w)). split; [done|]. intros q Hq. by eapply Hl, candidates_below.
Qed.

(** *** Putting the tree in place *)

Notation promote_dir := (promote_config_dir daemon_error_text (at_ PROJECTS) (at_ candidate_dir)).
Notation run_promote := (promote_validated_config_tree_async daemon_error_text (at_ ROOT) candidate_content active_content validate promote_dir).

(** The two questions whether the active entries exist are answered: a host that does not
    answer is taken to say no. *)
Definition answered (w : World) : Prop :=
  match prepare_root (at_ ROOT) candidate_content active_content validate w with
  | (Ok c, w1) => fault_at (clock w1) = None
      ∧ match promote_config_file daemon_error_text (at_ ROOT) c w1 with (Ok _, w2) => fault_at (clock w2) = None | _ => True end
  | _ => True
  end.

Definition config_kept (s0 s : Fs) : Prop := s !! (at_ ROOT) = s0 !! (at_ ROOT) ∧ holds PROJECTS s PROJECTS s0.
(** What was there is still in the directory, if only under another name. *)
Definition recoverable (s0 s : Fs) : Prop :=
  (s0 !! (at_ ROOT) ≠ None → ∃ b, s !! (at_ b) = s0 !! (at_ ROOT)) ∧ (s0 !! (at_ PROJECTS) ≠ None → ∃ b, holds b s PROJECTS s0).
Definition unchanged_or_recoverable (s0 : Fs) (e : DaemonError) (s : Fs) : Prop :=
  config_kept s0 s ∨ failed e ∧ recoverable s0 s.

Definition root_handle (b : string) (s0 : Fs) : PromotedConfigFile :=
  {| pf_active_path := at_ ROOT; pf_backup_path := at_ b; pf_active_existed := option_bool (s0 !! (at_ ROOT)) |}.
Definition dir_handle (b : string) (s0 : Fs) : PromotedConfigDir :=
  {| pd_active_dir := at_ PROJECTS; pd_backup_dir := at_ b; pd_active_existed := option_bool (s0 !! (at_ PROJECTS)) |}.

(** The new tree is in place, and the old one is kept under the names of the backups. *)
Record promoted (t : PromotedConfigTree) (s0 s : Fs) (n1 n2 : nat) : Prop := {
  pm_tree : t = {| pt_root := root_handle (temporary_name ROOT "previous" n1) s0; pt_fragments := dir_handle (temporary_name PROJECTS "previous" n2) s0 |};
  pm_root : s !! (at_ ROOT) = Some (File active_content);
  pm_projects : holds PROJECTS s candidate_dir s0;
  pm_candidate : is_Some (s0 !! (at_ candidate_dir));
  pm_root_kept : s0 !! (at_ ROOT) ≠ None → holds (temporary_name ROOT "previous" n1) s ROOT s0;
  pm_projects_kept : s0 !! (at_ PROJECTS) ≠ None → holds (temporary_name PROJECTS "previous" n2) s PROJECTS s0;
}.

Lemma holds_root b s s0 : holds b s ROOT s0 → s !! (at_ b) = s0 !! (at_ ROOT).
Proof. intros Hh. specialize (Hh []). by rewrite !app_nil_r in Hh. Qed.
Lemma holds_via x y z s s1 s0 : holds x s y s1 → holds y s1 z s0 → holds x s z s0.
Proof. intros H1 H2 r. by rewrite (H1 r). Qed.
Lemma holds_beside names x y s s1 s0 : beside names s1 s → x ∉ names → holds x s1 y s0 → holds x s y s0.
Proof. intros Hb Hx. apply holds_via. by eapply beside_holds. Qed.
Lemma option_bool_present {A} (o : option A) : option_bool o = true ↔ o ≠ None.
Proof. by rewrite option_bool_true, not_eq_None_Some. Qed.

(** The names that are used are apart. *)
Lemma names_apart n1 n2 n3 : let c := temporary_name ROOT "candidate" n1 in
  let b1 := temporary_name ROOT "previous" n2 in let b2 := temporary_name PROJECTS "previous" n3 in
  NoDup [ROOT; PROJECTS; candidate_dir; c; b1; b2].
Proof.
  cbv zeta. unfold candidate_dir, temporary_name. rewrite !NoDup_cons, !elem_of_cons, !elem_of_nil.
  split_and!; try (by intros Hx; destruct_or? Hx). apply NoDup_nil_2.
Qed.

(** The root could be neither replaced nor put back. *)
Definition stuck_root (b : string) (s0 : Fs) (e : DaemonError) (s : Fs) : Prop :=
  config_kept s0 s ∨ failed e ∧ holds b s ROOT s0 ∧ holds PROJECTS s PROJECTS s0.

Lemma promote_root_spec p w s0 : kept s0 (files w) → linkless_dir s0 → files w !! p = Some (File active_content) →
  ∀ n, p = at_ (temporary_name ROOT "candidate" n) → fault_at (clock w) = None →
  let b := temporary_name ROOT "previous" (counter w) in
  match promote_config_file daemon_error_text (at_ ROOT) p w with
  | (Ok root, w') => root = root_handle b s0 ∧ files w' !! (at_ ROOT) = Some (File active_content)
      ∧ (s0 !! (at_ ROOT) ≠ None → holds b (files w') ROOT s0) ∧ holds PROJECTS (files w') PROJECTS s0 ∧ holds candidate_dir (files w') candidate_dir s0
  | (Err e, w') => stuck_root b s0 e (files w')
  end.
Proof.
  intros Hk Hl Hc n -> Hf b. unfold promote_config_file, mbind, io_bind.
  pose proof (names_apart n (counter w) 0) as Hn. cbv zeta in Hn. fold b in Hn. rewrite !NoDup_cons, !elem_of_cons, !elem_of_nil in Hn.
  assert (files w !! (at_ ROOT) = s0 !! (at_ ROOT)) as Hroot by (apply holds_root, Hk; set_solver).
  pose proof (promote_entry_spec daemon_error_text dir ROOT (temporary_name ROOT "candidate" n) delete_optional_config rename_candidate_config) as Hspec.
  specialize (Hspec (λ p, changes_weaken _ (under p) _ (λ q Hq, eq_ind_r (under p) (under_refl p) Hq) (changes_delete_config p)) (λ _ _, eq_refl)).
  specialize (Hspec ltac:(done) ltac:(done) w Hf). rewrite Hroot in Hspec. specialize (Hspec (Hl _ (under_app _ _))). cbv zeta in Hspec. fold b in Hspec.
  destruct (promote_entry _ _ _ _ _ w) as [[[bp ex]|e] w'].
  - destruct Hspec as ([= -> ->] & Hh & _ & Hb & Hbe). unfold mret, io_ret. cbn [fst snd].
    assert (∀ x, x = PROJECTS ∨ x = candidate_dir → holds x (files w') x s0) as Hx.
    { intros x Hx. apply (holds_via x x x (files w') (files w)); [|apply Hk; set_solver]. eapply beside_holds; [exact Hbe|].
      unfold b in Hn. set_solver. }
    split_and!; [done| |intros Hs|apply Hx; by left|apply Hx; by right].
    + specialize (Hh []). rewrite !app_nil_r in Hh. by rewrite Hh.
    + apply (holds_via b ROOT ROOT (files w') (files w)); [by apply Hb, option_bool_present|apply Hk; set_solver].
  - destruct Hspec as [Hbe|(Hfail & Hb & Hbe)].
    + left. split; [rewrite <-Hroot; apply holds_root, (beside_holds dir [b]); [done|set_solver]|].
      apply (holds_via _ PROJECTS _ _ (files w)); [apply (beside_holds dir [b]); [done|set_solver]|apply Hk; set_solver].
    + right. split_and!; [done|apply (holds_via b ROOT ROOT _ (files w)); [done|apply Hk; set_solver]|].
      apply (holds_via _ PROJECTS _ _ (files w)); [by apply (beside_holds dir [ROOT; b]); [|set_solver]|apply Hk; set_solver].
Qed.

Lemma promote_dir_spec w s0 s1 : files w = s1 → fault_at (clock w) = None → linkless_dir s0 →
  holds PROJECTS s1 PROJECTS s0 → holds candidate_dir s1 candidate_dir s0 →
  let b := temporary_name PROJECTS "previous" (counter w) in
  match promote_dir w with
  | (Ok d, w') => d = dir_handle b s0 ∧ holds PROJECTS (files w') candidate_dir s0 ∧ is_Some (s0 !! (at_ candidate_dir))
      ∧ (s0 !! (at_ PROJECTS) ≠ None → holds b (files w') PROJECTS s0) ∧ beside [PROJECTS; candidate_dir; b] s1 (files w')
  | (Err e, w') => beside [b] s1 (files w') ∨ failed e ∧ holds b (files w') PROJECTS s0 ∧ beside [PROJECTS; b] s1 (files w')
  end.
Proof.
  intros <- Hf Hl Hp Hc b. unfold promote_config_dir, mbind, io_bind.
  pose proof (names_apart 0 0 (counter w)) as Hn. cbv zeta in Hn. fold b in Hn. rewrite !NoDup_cons, !elem_of_cons, !elem_of_nil in Hn.
  assert (files w !! (at_ PROJECTS) = s0 !! (at_ PROJECTS)) as Hat by (specialize (Hp []); by rewrite !app_nil_r in Hp).
  assert (files w !! (at_ candidate_dir) = s0 !! (at_ candidate_dir)) as Hcat by (specialize (Hc []); by rewrite !app_nil_r in Hc).
  pose proof (promote_entry_spec daemon_error_text dir PROJECTS candidate_dir delete_optional_dir rename_config_dir changes_delete_dir (λ _ _, eq_refl)) as Hspec.
  specialize (Hspec ltac:(done) ltac:(done) w Hf). rewrite Hat in Hspec. specialize (Hspec (Hl _ (under_app _ _))). cbv zeta in Hspec. fold b in Hspec.
  destruct (promote_entry _ _ _ _ _ w) as [[[bp ex]|e] w'].
  - destruct Hspec as ([= -> ->] & Hh & Hsome & Hb & Hbe). unfold mret, io_ret. cbn [fst snd]. rewrite Hcat in Hsome. split_and!; [done| |done| |done].
    + by eapply (holds_via PROJECTS candidate_dir).
    + intros Hs. eapply (holds_via b PROJECTS); [by apply Hb, option_bool_present|done].
  - destruct Hspec as [Hbe|(Hfail & Hb & Hbe)]; [by left|]. right. split_and!; [done| |done]. by eapply (holds_via b PROJECTS).
Qed.

(** The root is put back when the fragments cannot be promoted. *)
Lemma roll_root_back b s0 s1 : b ≠ ROOT → PROJECTS ≠ b → (s0 !! (at_ ROOT) ≠ None → holds b s1 ROOT s0) →
  hoare (λ s, s = s1) (rollback_file (root_handle b s0))
    (λ _ s, s !! (at_ ROOT) = s0 !! (at_ ROOT) ∧ beside [ROOT; b] s1 s) (λ s, (s0 !! (at_ ROOT) ≠ None → holds b s ROOT s0) ∧ beside [ROOT] s1 s).
Proof.
  intros Hb Hp Hh. eapply hoare_conseq; [by intros s Hs; exact Hs| | |apply (rollback_file_spec b _ s0 s1 Hb)].
  - intros _u s [Hs Hbe]. split; [|done]. apply Hs. destruct (s0 !! (at_ ROOT)); [by left|by right].
  - intros s [Hs Hbe]. split; [|done]. intros He. apply Hs. by apply option_bool_present.
  - intros He. apply Hh. by apply option_bool_present.
Qed.

(** Removing the candidate of the root changes nothing else. *)
Lemma clean_candidate c b s0 e Q : c ≠ ROOT → c ≠ PROJECTS → c ≠ b →
  triple (stuck_root b s0 e) (_cleanup ← io_try (remove_candidate_config (at_ c)); io_fail e : IO DaemonError PromotedConfigTree) Q
    (unchanged_or_recoverable s0).
Proof.
  intros Hr Hp Hb. apply (triple_seq _ (stuck_root b s0 e)).
  - apply (triple_hoare _ _ _ (λ _, False)); [|done]. intros w Hw.
    pose proof (changes_try (F := DaemonError) (λ q, q = at_ c) (remove_candidate_config (at_ c))
      (changes_map_err _ _ _ (changes_at_path _ _ _ (changes_std_remove_file _))) w) as Heq.
    unfold io_try in *. destruct (remove_candidate_config (at_ c) w) as [r w']. cbn [snd] in Heq.
    assert (∀ x y, c ≠ x → holds x (files w) y s0 → holds x (files w') y s0) as Hx.
    { intros x y Hx Hh r'. rewrite Heq; [apply Hh|]. rewrite <-app_assoc. intros Hq%app_inv_head. cbn in Hq. congruence. }
    destruct Hw as [[Hs Hh]|(Hf & Hh & Hh')]; [left|right; split_and!; [done|by apply Hx..]]. split; [|by apply Hx].
    rewrite Heq; [done|]. intros [_ Hq]%app_inj_tail. by apply Hr.
  - intros w [Hs|(Hf & Hh & Hh')]; [by left|right]. split; [done|].
    split; intros _; [exists b; by apply holds_root|by exists PROJECTS].
Qed.


Lemma with_fragments_spec n w s0 : let b := temporary_name ROOT "previous" n in
  fault_at (clock w) = None → linkless_dir s0 → files w !! (at_ ROOT) = Some (File active_content) →
  (s0 !! (at_ ROOT) ≠ None → holds b (files w) ROOT s0) → holds PROJECTS (files w) PROJECTS s0 → holds candidate_dir (files w) candidate_dir s0 →
  match promote_with_fragments daemon_error_text (root_handle b s0) promote_dir w with
  | (Ok t, w') => ∃ n2, promoted t s0 (files w') n n2
  | (Err e, w') => unchanged_or_recoverable s0 e (files w')
  end.
Proof.
  intros b Hf Hl Hroot Hb Hp Hc. unfold promote_with_fragments, mbind, io_bind, io_try.
  pose proof (promote_dir_spec w s0 (files w) eq_refl Hf Hl Hp Hc) as Hdir. cbv zeta in Hdir.
  pose proof (names_apart 0 n (counter w)) as Hn. cbv zeta in Hn. fold b in Hn.
  set (b2 := temporary_name PROJECTS "previous" (counter w)) in *. rewrite !NoDup_cons, !elem_of_cons, !elem_of_nil in Hn.
  destruct (promote_dir w) as [[d|e] w1].
  - destruct Hdir as (-> & Hd & Hsome & Hkept & Hbe). exists (counter w). fold b2. split; [done| |done|done| |done].
    + rewrite <-Hroot. apply holds_root, (beside_holds dir _ ROOT _ _ Hbe). set_solver.
    + intros Hs. eapply (holds_beside [PROJECTS; candidate_dir; b2]); [exact Hbe|set_solver|by apply Hb].
  - assert (s0 !! (at_ ROOT) ≠ None → holds b (files w1) ROOT s0) as Hb1.
    { intros Hs. destruct Hdir as [Hbe|(_ & _ & Hbe)]; (eapply holds_beside; [exact Hbe|set_solver|by apply Hb]). }
    assert ((holds PROJECTS (files w1) PROJECTS s0) ∨ failed e ∧ holds b2 (files w1) PROJECTS s0) as Hp1.
    { destruct Hdir as [Hbe|(Hfail & Hh & _)]; [left|by right]. eapply holds_beside; [exact Hbe|set_solver|done]. }
    pose proof (roll_root_back b s0 (files w1) ltac:(set_solver) ltac:(set_solver) Hb1 w1 eq_refl) as Hback.
    destruct (rollback_file _ w1) as [[_u|e2] w2].
    + destruct Hback as [Hr Hbe]. destruct Hp1 as [Hp1|[Hfail Hp1]]; [left|right; split; [done|]].
      * split; [done|]. eapply holds_beside; [exact Hbe|set_solver|done].
      * split; intros _; [by exists ROOT|]. exists b2. eapply holds_beside; [exact Hbe|set_solver|done].
    + right. destruct Hback as [Hr Hbe]. split; [by eexists _, _|]. split.
      * intros Hs. exists b. by apply holds_root, Hr.
      * intros _. destruct Hp1 as [Hp1|[_ Hp1]]; [exists PROJECTS|exists b2]; (eapply holds_beside; [exact Hbe|set_solver|done]).
Qed.

Lemma promote_tree_outcome w : linkless_dir (files w) → answered w →
  match run_promote w with
  | (Ok t, w') => ∃ n1 n2, promoted t (files w) (files w') n1 n2
  | (Err e, w') => unchanged_or_recoverable (files w) e (files w')
  end.
Proof.
  intros Hl Ha. unfold answered in Ha. unfold promote_validated_config_tree_async.
  pose proof (prepare_root_spec w Hl) as Hp. cbv zeta in Hp. set (s0 := files w) in *.
  unfold mbind at 1, io_bind at 1. destruct (prepare_root _ _ _ _ w) as [[p|e] w1].
  2: { left. split; [apply holds_root, Hp; set_solver|apply Hp; set_solver]. }
  destruct Hp as (-> & Hk & Hc). destruct Ha as [Hf1 Ha].
  pose proof (promote_root_spec _ w1 s0 Hk Hl Hc _ eq_refl Hf1) as Hroot. cbv zeta in Hroot.
  unfold mbind at 1, io_bind at 1, io_try at 1.
  destruct (promote_config_file _ _ _ w1) as [[root|e] w2].
  - destruct Hroot as (-> & Hr & Hb & Hp & Hcand). pose proof (with_fragments_spec _ w2 s0 Ha Hl Hr Hb Hp Hcand) as Hfin.
    destruct (promote_with_fragments _ _ _ w2) as [[t|e] w3]; [|done]. destruct Hfin as [n2 ?]. by eexists _, _.
  - pose proof (names_apart (counter w) (counter w1) 0) as Hn. cbv zeta in Hn. rewrite !NoDup_cons, !elem_of_cons, !elem_of_nil in Hn.
    by apply (clean_candidate (temporary_name ROOT "candidate" (counter w)) (temporary_name ROOT "previous" (counter w1)) s0 e
      (λ t s, ∃ n1 n2, promoted t s0 s n1 n2) ltac:(set_solver) ltac:(set_solver) ltac:(set_solver) w2 Hroot).
Qed.

(** *** Keeping it, or going back *)

Definition in_place (s0 s : Fs) : Prop := s !! (at_ ROOT) = Some (File active_content) ∧ holds PROJECTS s candidate_dir s0.

Lemma rollback_tree_spec t s0 n1 n2 w : linkless_dir s0 → (s0 !! (at_ PROJECTS) = None → ∀ r, s0 !! (at_ PROJECTS ++ r) = None) →
  promoted t s0 (files w) n1 n2 →
  match rollback_tree daemon_error_text t w with (Ok _, w') => config_kept s0 (files w') | (Err _, w') => recoverable s0 (files w') end.
Proof.
  intros Hl Hrooted [-> Hr Hp [n Hn] Hb1 Hb2]. set (b1 := temporary_name ROOT "previous" n1) in *. set (b2 := temporary_name PROJECTS "previous" n2) in *.
  pose proof (names_apart 0 n1 n2) as Hnames. cbv zeta in Hnames. fold b1 b2 in Hnames. rewrite !NoDup_cons, !elem_of_cons, !elem_of_nil in Hnames.
  unfold rollback_tree, mbind, io_bind, io_try. cbn [pt_root pt_fragments].
  pose proof (Hp []) as Hat. rewrite !app_nil_r, Hn in Hat.
  assert (is_link (Some n) = false) as Hln by (rewrite <-Hn; apply Hl, under_app).
  pose proof (rollback_dir_spec b2 (option_bool (s0 !! (at_ PROJECTS))) s0 (files w) n ltac:(set_solver)
    (λ He, Hb2 (proj1 (option_bool_present _) He)) Hat Hln w eq_refl) as Hdir. unfold dir_handle.
  assert (∀ w1, beside [PROJECTS; b2] (files w) (files w1) → s0 !! (at_ ROOT) ≠ None → holds b1 (files w1) ROOT s0) as Hb1'.
  { intros w1 Hbe Hs. eapply holds_beside; [exact Hbe|set_solver|by apply Hb1]. }
  assert (∀ s, (option_bool (s0 !! (at_ PROJECTS)) = true ∨ (∀ r, s0 !! (at_ PROJECTS ++ r) = None) → holds PROJECTS s PROJECTS s0) → holds PROJECTS s PROJECTS s0) as Hback.
  { intros s Hs. apply Hs. destruct (s0 !! (at_ PROJECTS)); [by left|right; by apply Hrooted]. }
  destruct (rollback_dir _ w) as [[_u|e] w1]; destruct Hdir as [Hd Hbe].
  - apply Hback in Hd. pose proof (roll_root_back b1 s0 (files w1) ltac:(set_solver) ltac:(set_solver) (Hb1' w1 Hbe) w1 eq_refl) as Hroot.
    destruct (rollback_file _ w1) as [[_v|e] w2]; destruct Hroot as [Hr2 Hbe2].
    + split; [done|]. eapply holds_beside; [exact Hbe2|set_solver|done].
    + split; intros Hs; [exists b1; by apply holds_root, Hr2|]. exists PROJECTS. eapply holds_beside; [exact Hbe2|set_solver|done].
  - assert (beside [PROJECTS; b2] (files w) (files w1)) as Hbe' by (eapply beside_weaken; [|exact Hbe]; set_solver).
    pose proof (roll_root_back b1 s0 (files w1) ltac:(set_solver) ltac:(set_solver) (Hb1' w1 Hbe') w1 eq_refl) as Hroot.
    destruct (rollback_file _ w1) as [[_v|e2] w2]; destruct Hroot as [Hr2 Hbe2]; (split; intros Hs;
      [first [by exists ROOT|exists b1; by apply holds_root, Hr2]|exists b2; eapply holds_beside; [exact Hbe2|set_solver|by apply Hd, option_bool_present]]).
Qed.

Lemma commit_tree_spec t s0 n1 n2 w : promoted t s0 (files w) n1 n2 → in_place s0 (files (commit_tree t w).2).
Proof.
  intros [-> Hr Hp _ _ _]. set (b1 := temporary_name ROOT "previous" n1). set (b2 := temporary_name PROJECTS "previous" n2).
  pose proof (names_apart 0 n1 n2) as Hnames. cbv zeta in Hnames. fold b1 b2 in Hnames. rewrite !NoDup_cons, !elem_of_cons, !elem_of_nil in Hnames.
  assert (changes (λ q, under (at_ b1) q ∨ under (at_ b2) q) (commit_tree {| pt_root := root_handle b1 s0; pt_fragments := dir_handle b2 s0 |})) as Hc.
  { unfold commit_tree, commit_dir, commit_file. cbn. apply changes_bind; [|intros _u].
    - destruct (option_bool _); [|apply changes_ret]. eapply changes_weaken; [|apply changes_delete_dir]. by right.
    - destruct (option_bool _); [|apply changes_ret]. eapply changes_weaken; [|apply changes_delete_config]. intros q ->. left. apply under_refl. }
  assert (beside [b1; b2] (files w) (files (commit_tree {| pt_root := root_handle b1 s0; pt_fragments := dir_handle b2 s0 |} w).2)) as Hbe.
  { intros q Hq. apply Hc. intros [?|?]; eapply Hq; [|done| |done]; set_solver. }
  split; [|eapply holds_beside; [exact Hbe|set_solver|done]].
  rewrite <-Hr. apply holds_root, (beside_holds dir _ ROOT _ _ Hbe). set_solver.
Qed.

(** C39: The configuration of the gateway, or of a worker, changes as a whole. Promoting a
    new tree puts the root file and the fragments in place, with the old ones kept aside;
    rolling that back brings the old root and every old fragment back, and committing it
    leaves the new ones. When the validation, a write or a rename fails, the active
    configuration is the old one; and if putting it back fails too, which the error says,
    it is still in the directory under another name. (The look whether there is an active
    configuration has to be answered; links are not followed.) *)
Theorem config_tree_spec w : linkless_dir (files w) →
  (files w !! (at_ PROJECTS) = None → ∀ r, files w !! (at_ PROJECTS ++ r) = None) → answered w →
  match run_promote w with
  | (Ok t, w') => in_place (files w) (files w') ∧ in_place (files w) (files (commit_tree t w').2)
      ∧ match rollback_tree daemon_error_text t w' with
        | (Ok _, w'') => config_kept (files w) (files w'')
        | (Err _, w'') => recoverable (files w) (files w'')
        end
  | (Err e, w') => unchanged_or_recoverable (files w) e (files w')
  end.
Proof.
  intros Hl Hrooted Ha. pose proof (promote_tree_outcome w Hl Ha) as Hp. destruct (run_promote w) as [[t|e] w']; [|done].
  destruct Hp as (n1 & n2 & Hp). split_and!; [split; apply Hp|by eapply commit_tree_spec|by eapply rollback_tree_spec].
Qed.
End tree.

(** ** A gateway with one project *)

Definition gateway_dir : path := ["home"; "gateway"].
Definition gateway_files : Fs := list_to_map [(["home"], Dir); (gateway_dir, Dir); (gateway_dir ++ ["Caddyfile"], File "old root");
  (gateway_dir ++ ["projects"], Dir); (gateway_dir ++ ["projects"; "p1.Caddyfile"], File "old p1");
  (gateway_dir ++ ["projects.candidate.7.0.tmp"], Dir); (gateway_dir ++ ["projects.candidate.7.0.tmp"; "p2.Caddyfile"], File "new p2")].
Definition gateway_world : World := {| files := gateway_files; clock := 0; counter := 1 |}.
Definition error_name (e : DaemonError) : string :=
  match e with DaemonIo source => io_text source | UnexpectedProtocolResponse reason => reason | _ => "other" end.
Definition promote_sample (h : Host) : result DaemonError PromotedConfigTree * World :=
  promote_validated_config_tree_async (H := h) error_name (gateway_dir ++ ["Caddyfile"]) "candidate" "new root" (λ _, mret tt)
    (promote_config_dir (H := h) error_name (gateway_dir ++ ["projects"]) (gateway_dir ++ ["projects.candidate.7.0.tmp"])) gateway_world.
Definition look (w : World) : list (option node) :=
  (λ q, files w !! q) <$> [gateway_dir ++ ["Caddyfile"]; gateway_dir ++ ["projects"; "p1.Caddyfile"]; gateway_dir ++ ["projects"; "p2.Caddyfile"]].

Lemma gateway_linkless : linkless_dir gateway_dir (files gateway_world).
Proof.
  intros q _. destruct (files gateway_world !! q) as [n|] eqn:Hn; [|done].
  assert (map_Forall (λ _ n, is_link (Some n) = false) (files gateway_world)) as Hall by (apply (bool_decide_eq_true_1 _); vm_compute; reflexivity).
  exact (Hall q n Hn).
Qed.
Lemma gateway_answered : answered (H := faulty_host None) error_name gateway_dir "candidate" "new root" (λ _, mret tt) gateway_world.
Proof. unfold answered. vm_compute. split; reflexivity. Qed.
Lemma promote_sample_ok : is_ok (promote_sample (faulty_host None)).1 = true.
Proof. vm_compute. reflexivity. Qed.

Lemma config_tree_spec_witness : ∃ t w', promote_sample (faulty_host None) = (Ok t, w')
  ∧ files w' !! (gateway_dir ++ ["Caddyfile"]) = Some (File "new root")
  ∧ match rollback_tree (H := faulty_host None) error_name t w' with
    | (Ok _, w'') => config_kept gateway_dir (files gateway_world) (files w'')
    | (Err _, w'') => recoverable gateway_dir (files gateway_world) (files w'')
    end.
Proof.
  pose proof (config_tree_spec (H := faulty_host None) error_name gateway_dir "candidate" "new root" (λ _, mret tt) 0
    (λ p w q _, eq_refl) gateway_world gateway_linkless ltac:(vm_compute; discriminate) gateway_answered) as Hspec.
  pose proof promote_sample_ok as Hok.
  change (promote_validated_config_tree_async _ _ _ _ _ _ gateway_world) with (promote_sample (faulty_host None)) in Hspec.
  destruct (promote_sample (faulty_host None)) as [[t|e] w']; [|discriminate Hok].
  destruct Hspec as ([Hroot _] & _ & Hback). exists t, w'. exact (conj eq_refl (conj Hroot Hback)).
Defined.

(** When the host does not answer whether there is an active root, it is replaced as if
    there were none, and going back deletes the new one: neither is left. *)
Example unanswered_look_loses_the_root :
  match promote_sample (faulty_host (Some 24)) with
  | (Ok t, w1) => match rollback_tree (H := faulty_host None) error_name t w1 with
                  | (Ok _, w2) => files w2 !! (gateway_dir ++ ["Caddyfile"]) = None
                      ∧ bool_decide (map_Exists (λ _ n, n = File "old root") (files w2)) = false
                  | _ => False
                  end
  | _ => False
  end.
Proof. vm_compute. split; reflexivity. Qed.
