(* ===== verification/ProjectPlan.v ===== *)
(** * What a project needs of the managed resources ([daemon/src/project_env.rs], planning)

    The state of the daemon has the database, the world of the files, a count of the
    timestamps taken and the structured log. *)

From S2P Require Import Prelude RustStr Identity Registry Manifest HostFs StateFs StatePaths ResourceCache.
From S2P Require Import StateTypes StateDb StateIds StateResources StateAllocations StateProjects.
From S2P Require Import Effects Errors ConfigModel ProjectEnv.

Record Daemon := { dm_db : Db; dm_world : World; dm_ticks : nat; dm_log : list (string * string) }.

Definition db_part : part Daemon Db := {|
  get_part := dm_db;
  set_part := λ d s, {| dm_db := d; dm_world := dm_world s; dm_ticks := dm_ticks s; dm_log := dm_log s |} |}.
Definition world_part : part Daemon World := {|
  get_part := dm_world;
  set_part := λ w s, {| dm_db := dm_db s; dm_world := w; dm_ticks := dm_ticks s; dm_log := dm_log s |} |}.

Definition act (A : Type) : Type := eff Daemon DaemonError A.

(** A call of the database, of the resources crate's files, and a reading of the database. *)
Definition on_db {A : Type} (m : Op A) : act A := on_part db_part DaemonState m.
Definition on_resources {A : Type} (m : IO ResourcesError A) : act A := on_part world_part DaemonResources m.
Definition read_db {A : Type} (f : Db → result StateError A) : act A := λ s, (map_err DaemonState (f (dm_db s)), s).
Definition state_lift {A : Type} (r : result StateError A) : act A := eff_lift (map_err DaemonState r).
Definition resources_lift {A : Type} (r : result ResourcesError A) : act A := eff_lift (map_err DaemonResources r).
Definition config_lift {A : Type} (r : result ConfigError A) : act A := eff_lift (map_err DaemonConfig r).

(** [OffsetDateTime::now_utc], of the calls of the database that store it. *)
Definition stamp (now : nat → string) : act string := λ s,
  (Ok (now (dm_ticks s)), {| dm_db := dm_db s; dm_world := dm_world s; dm_ticks := S (dm_ticks s); dm_log := dm_log s |}).
Definition stamped {A : Type} (now : nat → string) (m : string → Op A) : act A := at' ← stamp now; on_db (m at').

Record ProjectResourcePlan := {
  pl_resources : list ProjectManagedResourceInput;
  pl_allocations : gmap string (list ResourceAllocationInput);
}.

Section plan.
Context `{Host} `{Json} (paths : PvPaths) (now : nat → string).
Context (parse_rfc3339 : string → option Z) (url_parse : string → option ParsedUrl) (pkg_version : string).
Context (json_parse : string → result string RawManifest).

Definition cached_manifest : act ArtifactManifest :=
  on_resources (load_cached parse_rfc3339 url_parse pkg_version json_parse (cache_path (pv_downloads paths))).

(** ** Planning *)

Definition resolved_project_resource_track (resource_name : ResourceName) (selector existing_track : option string) : act string :=
  selector ← resources_lift (match selector with Some selector => track_selector_parse selector | None => Ok Identity.Latest end);
  track ← (match selector with
           | Identity.Latest =>
               match existing_track with
               | Some track => mret track
               | None =>
                   manifest ← cached_manifest;
                   track ← resources_lift (resolve_track resource_name Identity.Latest manifest);
                   mret (track_name_str track)
               end
           | Track track => mret (track_name_str track)
           end);
  concrete_track ← resources_lift (concrete_track_name_new track);
  mret (track_name_str (Identity.concrete_track concrete_track)).

Definition allocation_generated_name (resource : string) (project : ProjectRecord) (allocation : string)
    (existing_allocations : gmap string ResourceAllocationRecord) : result ResourcesError string :=
  match existing_allocations !! allocation with
  | Some existing => Ok (al_generated_name existing)
  | None => ran_generated_name <$> generated_allocation_name resource (slug project) allocation
  end.

Definition plan_allocation (resource : string) (project : ProjectRecord) (existing_allocations : gmap string ResourceAllocationRecord)
    (allocation : string) : result ResourcesError ResourceAllocationInput :=
  generated_name ← allocation_generated_name resource project allocation existing_allocations;
  Ok {| ai_allocation_name := allocation; ai_generated_name := generated_name |}.

Definition plan_resource (project : ProjectRecord) (existing_tracks : gmap string string) (resource : string)
    (resource_config : ResourceConfig) : act (ProjectManagedResourceInput * list ResourceAllocationInput) :=
  resource_name ← resources_lift (resource_name_new resource);
  track ← resolved_project_resource_track resource_name (rc_track resource_config) (existing_tracks !! resource);
  existing_allocations ← read_db (list_resource_allocations (id project) resource);
  allocations ← resources_lift (try_map (plan_allocation resource project (existing_map existing_allocations))
                                  (btree_iter (rc_allocations resource_config)).*1);
  mret ({| ri_resource_name := resource; ri_track := track |}, allocations).

Fixpoint plan_resources (project : ProjectRecord) (existing_tracks : gmap string string) (l : list (string * ResourceConfig)) :
    act ProjectResourcePlan :=
  match l with
  | [] => mret {| pl_resources := []; pl_allocations := ∅ |}
  | (resource, resource_config) :: l =>
      planned ← plan_resource project existing_tracks resource resource_config;
      rest ← plan_resources project existing_tracks l;
      mret {| pl_resources := planned.1 :: pl_resources rest;
              pl_allocations := <[resource := planned.2]> (pl_allocations rest) |}
  end.

Definition track_map (l : list ProjectManagedResourceRecord) : gmap string string :=
  foldl (λ m r, <[rr_resource_name r := rr_track r]> m) ∅ l.

Definition project_resource_plan (project : ProjectRecord) (config : ProjectConfig) : act ProjectResourcePlan :=
  existing ← read_db (list_project_managed_resources (id project));
  plan_resources project (track_map existing) (btree_iter (resources config)).

(** ** Applying a plan *)

Definition replace_allocations (project_id resource_name track : string) (allocations : list ResourceAllocationInput) : act unit :=
  _ ← stamped now (replace_project_resource_allocations project_id resource_name track allocations); mret tt.

Definition apply_project_resource_plan (project_id : string) (plan : ProjectResourcePlan) : act unit :=
  existing_resources ← read_db (list_project_managed_resources project_id);
  _ ← stamped now (replace_project_managed_resources project_id (pl_resources plan));
  _ ← eff_iter (λ r, match pl_allocations plan !! ri_resource_name r with
                     | Some allocations => replace_allocations project_id (ri_resource_name r) (ri_track r) allocations
                     | None => mret tt
                     end) (pl_resources plan);
  eff_iter (λ existing, match pl_allocations plan !! rr_resource_name existing with
                        | Some _ => mret tt
                        | None => replace_allocations project_id (rr_resource_name existing) (rr_track existing) []
                        end) existing_resources.

(** ** The context of a plan *)

Definition missing_allocation (resource allocation : string) : DaemonError :=
  DaemonConfig (MissingAllocationEnvContext resource allocation).

Definition planned_allocation_step (resource_name track : string) (existing_allocations : gmap string ResourceAllocationRecord)
    (allocations : gmap string AllocationEnvContext) (allocation : ResourceAllocationInput) :
    result DaemonError (gmap string AllocationEnvContext) :=
  match existing_allocations !! ai_allocation_name allocation with
  | None => Err (missing_allocation resource_name (ai_allocation_name allocation))
  | Some existing =>
      if negb (bool_decide (al_track existing = track)) || negb (bool_decide (al_status existing = AllocationReady))
      then Err (missing_allocation resource_name (ai_allocation_name allocation))
      else Ok (<[ai_allocation_name allocation :=
                   {| ac_generated_name := al_generated_name existing; ac_values := al_env existing |}]> allocations)
  end.

Definition planned_allocation_contexts (d : Db) (project_id resource_name track : string)
    (allocation_plan : option (list ResourceAllocationInput)) : result DaemonError (gmap string AllocationEnvContext) :=
  match allocation_plan with
  | None => Ok ∅
  | Some allocations =>
      existing ← map_err DaemonState (list_resource_allocations project_id resource_name d);
      try_fold (planned_allocation_step resource_name track (existing_map existing)) allocations ∅
  end.

Definition context_step (d : Db) (project_id : string) (plan : ProjectResourcePlan)
    (contexts : gmap string ResourceEnvContext) (resource : ProjectManagedResourceInput) :
    result DaemonError (gmap string ResourceEnvContext) :=
  allocations ← planned_allocation_contexts d project_id (ri_resource_name resource) (ri_track resource)
                  (pl_allocations plan !! ri_resource_name resource);
  track ← map_err DaemonState (managed_resource_track (ri_resource_name resource) (ri_track resource) d);
  if bool_decide (tr_env track = ∅) then Err (DaemonConfig (MissingResourceEnvContext (ri_resource_name resource)))
  else Ok (<[ri_resource_name resource :=
               {| rx_track := ri_track resource; rx_values := tr_env track; rx_allocations := allocations |}]> contexts).

Definition served_project_hostname (project : ProjectRecord) : result DaemonError string :=
  ok_or (StateProjects.primary_hostname project) (DaemonState (ProjectNotServed (id project))).

Definition project_env_context_for_plan (project : ProjectRecord) (config : ProjectConfig) (plan : ProjectResourcePlan)
    (d : Db) : result DaemonError ProjectEnvContext :=
  contexts ← try_fold (context_step d (id project) plan) (pl_resources plan) ∅;
  let serves_http := bool_decide (mode project = Served) && serve config in
  hostname ← (if serves_http then served_project_hostname project else Ok "");
  Ok {| ProjectEnv.primary_hostname := hostname;
        tls_ca_path := if serves_http then path_str (ca_certificate paths) else "";
        tls_cert_path := if serves_http then path_str (project_tls_certificate paths (id project)) else "";
        tls_key_path := if serves_http then path_str (project_tls_private_key paths (id project)) else "";
        cx_resources := contexts |}.
End plan.

(** ** Properties *)

(** *** The database around one resource of one project *)

Section rows.
Context `{JsonLaws}.

(** The rows of [r] of [p] are the same. *)
Definition same_rows (p r : string) (d d' : Db) : Prop := ∀ i row, of_project_resource p r row = true →
  resource_allocations d' !! i = Some row ↔ resource_allocations d !! i = Some row.

Lemma same_rows_refl p r d : same_rows p r d d.
Proof. done. Qed.
Lemma same_rows_trans p r d1 d2 d3 : same_rows p r d1 d2 → same_rows p r d2 d3 → same_rows p r d1 d3.
Proof. intros H12 H23 i row Hof. by rewrite (H23 i row Hof), (H12 i row Hof). Qed.

(** A replacement for [r] leaves the rows of another resource, or of another project. *)
Lemma replaced_same_rows p r track now allocations d records d' p' r' : allocations_wf d →
  allocations_replaced p r track now allocations d records d' → (p', r') ≠ (p, r) → same_rows p' r' d d'.
Proof.
  intros Hwf Har Hne i row Hof. apply of_project_resource_true in Hof as Hk.
  assert (of_project_resource p r row = false) as Hno.
  { apply not_true_iff_false. intros Hpr%of_project_resource_true. apply Hne. f_equal; destruct Hk, Hpr; congruence. }
  split; [|intros Hi; by apply (ar_others _ _ _ _ _ _ _ _ Har)]. intros Hi'.
  destruct (ar_only _ _ _ _ _ _ _ _ Har i row Hi') as [[row0 Hrow0]|(a & _ & ->)].
  2:{ exfalso. apply not_true_iff_false in Hno. apply Hno. by apply of_project_resource_true. }
  destruct (of_project_resource p r row0) eqn:Hof0.
  2:{ pose proof (ar_others _ _ _ _ _ _ _ _ Har i row0 Hrow0 Hof0). congruence. }
  exfalso. apply not_true_iff_false in Hno. apply Hno. apply of_project_resource_true in Hof0 as Hpr.
  destruct (decide (a_allocation_name row0 ∈ ai_allocation_name <$> allocations)) as [Hin|Hnin].
  - apply list_elem_of_fmap in Hin as (a & Hname & Ha). destruct (ar_wanted _ _ _ _ _ _ _ _ Har a Ha) as (j & row' & Hj & Hw).
    destruct Hw as [(row1 & Hrow1 & Hof1 & Hn1 & ->)|(Hnone & _)]; [|by destruct (Hnone i row0 Hrow0 Hof0)].
    apply of_project_resource_true in Hof1 as Hpr1. assert (i = j) as <-.
    { apply (aw_name d Hwf i j row0 row1 Hrow0 Hrow1); destruct Hpr, Hpr1; congruence. }
    assert (row = retracked track (as_str (kept_status track row1)) now row1) as -> by congruence. by apply of_project_resource_true.
  - pose proof (ar_unwanted _ _ _ _ _ _ _ _ Har i row0 Hrow0 Hof0 Hnin) as Hd. assert (row = dropped (ai_allocation_name <$> allocations) now row0) as -> by congruence.
    unfold dropped. by destruct (decide _).
Qed.

(** The wanted allocations of [r] at [track]; the generated names of [d0]'s rows stay. *)
Definition settled (d0 : Db) (p r track : string) (allocations : list ResourceAllocationInput) (d : Db) : Prop :=
  (∀ a, a ∈ allocations → ∃ i row, resource_allocations d !! i = Some row ∧ of_project_resource p r row = true
     ∧ a_allocation_name row = ai_allocation_name a ∧ a_track row = track
     ∧ ((∃ row0, resource_allocations d0 !! i = Some row0 ∧ of_project_resource p r row0 = true
           ∧ a_allocation_name row0 = ai_allocation_name a ∧ a_generated_name row = a_generated_name row0)
        ∨ (∀ j row0, resource_allocations d0 !! j = Some row0 → of_project_resource p r row0 = true → a_allocation_name row0 ≠ ai_allocation_name a)
          ∧ a_generated_name row = ai_generated_name a))
  ∧ ∀ i row, resource_allocations d !! i = Some row → of_project_resource p r row = true →
      a_allocation_name row ∉ ai_allocation_name <$> allocations → a_status row = as_str AllocationInactive.

Lemma settled_same_rows d0 p r track allocations d d' : same_rows p r d d' → settled d0 p r track allocations d →
  settled d0 p r track allocations d'.
Proof.
  intros Hsame [Hw Hu]. split.
  - intros a Ha. destruct (Hw a Ha) as (i & row & Hi & Hof & Hrest). exists i, row. split; [by apply Hsame|by split].
  - intros i row Hi Hof. apply Hu with i; [by apply Hsame|done].
Qed.

Lemma replaced_settled d0 p r track now allocations d records d' : allocations_wf d → same_rows p r d0 d →
  allocations_replaced p r track now allocations d records d' → settled d0 p r track allocations d'.
Proof.
  intros Hwf Hsame Har. split.
  - intros a Ha. destruct (ar_wanted _ _ _ _ _ _ _ _ Har a Ha) as (i & row' & Hi & Hw). exists i, row'.
    destruct (written_name p r track now d a i row' Hw) as (Hof & Hn & Ht). split_and!; [done..|].
    destruct Hw as [(row & Hrow & Hofr & Hnr & ->)|(Hnone & _ & ->)].
    + left. exists row. split_and!; [by apply Hsame|done..].
    + right. split; [|done]. intros j row0 Hj Hof0. apply Hnone with j; [by apply Hsame|done].
  - intros i row Hi Hof Hnin. destruct (ar_only _ _ _ _ _ _ _ _ Har i row Hi) as [[row0 Hrow0]|(a & Ha & ->)].
    2:{ exfalso. apply Hnin, list_elem_of_fmap. by exists a. }
    destruct (of_project_resource p r row0) eqn:Hof0.
    2:{ pose proof (ar_others _ _ _ _ _ _ _ _ Har i row0 Hrow0 Hof0) as Ho. congruence. }
    destruct (decide (a_allocation_name row0 ∈ ai_allocation_name <$> allocations)) as [Hin|Hnin0].
    + exfalso. apply list_elem_of_fmap in Hin as (a & Hname & Ha). destruct (ar_wanted _ _ _ _ _ _ _ _ Har a Ha) as (j & row' & Hj & Hw).
      destruct (written_name p r track now d a j row' Hw) as (_ & Hn & _).
      destruct Hw as [(row1 & Hrow1 & Hof1 & Hn1 & _)|(Hnone & _)]; [|by destruct (Hnone i row0 Hrow0 Hof0)].
      apply of_project_resource_true in Hof0, Hof1. assert (i = j) as <- by (apply (aw_name d Hwf i j row0 row1); naive_solver congruence).
      assert (row = row') as -> by congruence. apply Hnin. rewrite Hn. apply list_elem_of_fmap. by exists a.
    + pose proof (ar_unwanted _ _ _ _ _ _ _ _ Har i row0 Hrow0 Hof0 Hnin0) as Hd. assert (row = dropped (ai_allocation_name <$> allocations) now row0) as -> by congruence.
      unfold dropped. destruct (decide _) as [[?|Hs]|]; done.
Qed.
End rows.

(** *** Applying a plan *)

Lemma stamped_spec {A : Type} now (P : Db → Prop) (m : string → Op A) (Q : A → Db → Prop) (X : DaemonError → Db → Prop) :
  (∀ at' d, P d → match m at' d with (Ok a, d') => Q a d' | (Err e, d') => X (DaemonState e) d' end) →
  spec (λ s, P (dm_db s)) (stamped now m) (λ a s, Q a (dm_db s)) (λ e s, X e (dm_db s)).
Proof.
  intros Hm s Hs. unfold stamped, mbind, eff_bind, stamp, on_db, on_part. cbn. specialize (Hm (now (dm_ticks s)) (dm_db s) Hs).
  by destruct (m _ _) as [[a|e] d'].
Qed.

(** Only the allocations differ. *)
Definition only_allocations (d d' : Db) : Prop := ∃ m, d' = set_resource_allocations (λ _, m) d.

Lemma only_allocations_refl d : only_allocations d d.
Proof. exists (resource_allocations d). by destruct d. Qed.
Lemma only_allocations_trans d1 d2 d3 : only_allocations d1 d2 → only_allocations d2 d3 → only_allocations d1 d3.
Proof. intros [m ->] [m' ->]. by exists m'. Qed.
Lemma only_allocations_resources `{JsonLaws} d d' : only_allocations d d' → resources_wf d → resources_wf d'.
Proof. intros [m ->] [H1 H2 H3 H4]. by split. Qed.

Section apply.
Context `{JsonLaws} (now : nat → string) (p : string) (d0 d1 : Db).

(** Name, track and wanted allocations. *)
Definition todo : Type := string * string * list ResourceAllocationInput.

(** [d0] is the database the plan was made for, [d1] has the new requirements. *)
Record progress (finished : list todo) (d : Db) : Prop := {
  pg_wf : allocations_wf d;
  pg_frame : only_allocations d1 d;
  pg_settled : ∀ n t allocations, (n, t, allocations) ∈ finished → settled d0 p n t allocations d;
  pg_rest : ∀ p' n, p' ≠ p ∨ n ∉ (λ x : todo, x.1.1) <$> finished → same_rows p' n d0 d;
}.

Definition interrupted (d : Db) : Prop := allocations_wf d ∧ only_allocations d1 d.

Lemma replace_allocations_step finished n t allocations : n ∉ (λ x : todo, x.1.1) <$> finished →
  spec (λ s, progress finished (dm_db s)) (replace_allocations now p n t allocations)
    (λ _ s, progress (finished ++ [(n, t, allocations)]) (dm_db s)) (λ _ s, interrupted (dm_db s)).
Proof.
  intros Hn. unfold replace_allocations. eapply (spec_bind _ _ _ (λ _ s, progress (finished ++ [(n, t, allocations)]) (dm_db s))); [|by intros records s Hs].
  apply (stamped_spec now (progress finished) _ (λ _ d, progress (finished ++ [(n, t, allocations)]) d) (λ _ d, interrupted d)).
  intros at' d Hd. pose proof (replace_allocations_outcome p n t allocations at' d (pg_wf _ _ Hd)) as Ho.
  destruct (replace_project_resource_allocations p n t allocations at' d) as [[records|e] d'].
  2:{ destruct Ho as [-> _]. split; [apply (pg_wf _ _ Hd)|apply (pg_frame _ _ Hd)]. }
  assert (∀ p' n', p' ≠ p ∨ n' ≠ n → same_rows p' n' d d') as Hother.
  { intros p' n' Hne. apply (replaced_same_rows p n t at' allocations d records d' p' n' (pg_wf _ _ Hd) Ho). naive_solver. }
  split.
  - apply (ar_wf _ _ _ _ _ _ _ _ Ho).
  - eapply only_allocations_trans; [apply (pg_frame _ _ Hd)|apply (ar_frame _ _ _ _ _ _ _ _ Ho)].
  - intros n' t' allocations' [Hin|[= -> -> ->]%list_elem_of_singleton]%elem_of_app.
    + eapply settled_same_rows; [|by apply (pg_settled _ _ Hd)]. apply Hother. right. intros ->. apply Hn, list_elem_of_fmap. by exists (n, t', allocations').
    + eapply (replaced_settled d0 p n t at' allocations d records); [apply (pg_wf _ _ Hd)| |done]. apply (pg_rest _ _ Hd). by right.
  - intros p' n' Hor. rewrite fmap_app in Hor. apply (same_rows_trans p' n' d0 d d').
    + apply (pg_rest _ _ Hd). destruct Hor as [?|Hnin]; [by left|right]. intros Hin. apply Hnin, elem_of_app. by left.
    + apply Hother. destruct Hor as [?|Hnin]; [by left|right]. intros ->. apply Hnin, elem_of_app. right. by left.
Qed.

(** A loop of replacements, some skipped. *)
Lemma replace_loop {A : Type} (f : A → option todo) (l : list A) finished :
  NoDup ((λ x : todo, x.1.1) <$> (finished ++ omap f l)) →
  spec (λ s, progress finished (dm_db s))
    (eff_iter (λ x, match f x with Some (n, t, allocations) => replace_allocations now p n t allocations | None => mret tt end) l)
    (λ _ s, progress (finished ++ omap f l) (dm_db s)) (λ _ s, interrupted (dm_db s)).
Proof.
  revert finished. induction l as [|x l IH]; intros finished Hnd; cbn [eff_iter omap list_omap].
  { rewrite app_nil_r. by intros s Hs. }
  destruct (f x) as [[[n t] allocations]|] eqn:Hf.
  - cbn in Hnd. rewrite Hf in Hnd. eapply (spec_bind _ _ _ (λ _ s, progress (finished ++ [(n, t, allocations)]) (dm_db s))).
    + apply replace_allocations_step. rewrite fmap_app in Hnd. apply NoDup_app in Hnd as (_ & Hdis & _). intros Hin. apply (Hdis n Hin). by left.
    + intros _. replace (finished ++ (n, t, allocations) :: omap f l) with ((finished ++ [(n, t, allocations)]) ++ omap f l) by (by rewrite <-app_assoc).
      apply IH. by rewrite <-app_assoc.
  - cbn in Hnd. rewrite Hf in Hnd. eapply (spec_bind _ _ _ (λ _ s, progress finished (dm_db s))); [by intros s Hs|intros _]. by apply IH.
Qed.
End apply.

(** *** The whole plan *)

Lemma project_requirements_nodup p d : NoDup (project_requirements p d).*1.
Proof.
  unfold project_requirements. rewrite sort_on_perm. set (f := λ '(pn, row), _).
  assert (∀ (l : list (string * string * RequirementRow)), NoDup l.*1 → NoDup (omap f l).*1) as Hl; [|apply Hl, NoDup_fst_map_to_list].
  induction l as [|[[p' n] q] l IH]; [intros; constructor|]. rewrite fmap_cons. intros [Hnin Hnd]%NoDup_cons. cbn.
  case_bool_decide as Hp; [|by apply IH]. cbn in Hp. subst p'. rewrite fmap_cons. constructor; [|by apply IH].
  intros ([n' q'] & Heq & Hin)%list_elem_of_fmap. cbn in Heq. subst n'. apply list_elem_of_omap in Hin as ([[p' n''] q''] & Hin & Hf).
  cbn in Hf. case_bool_decide as Hp; [|done]. injection Hf as <- <-. cbn in Hp. subst p'. apply Hnin, list_elem_of_fmap. eexists. by split; [|exact Hin].
Qed.

Lemma requirement_names_nodup p d : NoDup (rr_resource_name <$> (requirement_record p <$> project_requirements p d)).
Proof. rewrite <-list_fmap_compose. exact (project_requirements_nodup p d). Qed.

(** What applying a plan made for [d0] leaves. *)
Record plan_applied `{Json} (p : string) (plan : ProjectResourcePlan) (d0 d : Db) : Prop := {
  pa_resources_wf : resources_wf d;
  pa_allocations_wf : allocations_wf d;
  pa_projects : projects d = projects d0;
  pa_requires : ∀ n t, (∃ q, project_managed_resources d !! (p, n) = Some q ∧ q_track q = t)
    ↔ Build_ProjectManagedResourceInput n t ∈ pl_resources plan;
  pa_planned : ∀ n t allocations, Build_ProjectManagedResourceInput n t ∈ pl_resources plan →
    pl_allocations plan !! n = Some allocations → settled d0 p n t allocations d;
  pa_dropped : ∀ n q, project_managed_resources d0 !! (p, n) = Some q → pl_allocations plan !! n = None →
    settled d0 p n (q_track q) [] d;
  pa_others : ∀ p' n, p' ≠ p → same_rows p' n d0 d
    ∧ project_managed_resources d !! (p', n) = project_managed_resources d0 !! (p', n);
}.

Section whole.
Context `{JsonLaws} (now : nat → string) (p : string) (plan : ProjectResourcePlan) (d0 : Db).
Hypotheses (Hres : resources_wf d0) (Hall : allocations_wf d0).

Definition planned_todo (r : ProjectManagedResourceInput) : option todo :=
  (λ allocations, (ri_resource_name r, ri_track r, allocations)) <$> pl_allocations plan !! ri_resource_name r.
Definition dropped_todo (r : ProjectManagedResourceRecord) : option todo :=
  match pl_allocations plan !! rr_resource_name r with Some _ => None | None => Some (rr_resource_name r, rr_track r, []) end.

Lemma planned_names (l : list ProjectManagedResourceInput) n : n ∈ (λ x : todo, x.1.1) <$> omap planned_todo l → n ∈ ri_resource_name <$> l ∧ is_Some (pl_allocations plan !! n).
Proof.
  intros ([[n' t] a] & -> & (r & Hr & Hf)%list_elem_of_omap)%list_elem_of_fmap. unfold planned_todo in Hf.
  destruct (pl_allocations plan !! ri_resource_name r) as [x|] eqn:Hx; [|done]. injection Hf as <- _ _. cbn.
  split; [apply list_elem_of_fmap; by exists r|by rewrite Hx].
Qed.
Lemma dropped_names (l : list ProjectManagedResourceRecord) n : n ∈ (λ x : todo, x.1.1) <$> omap dropped_todo l → n ∈ rr_resource_name <$> l ∧ pl_allocations plan !! n = None.
Proof.
  intros ([[n' t] a] & -> & (r & Hr & Hf)%list_elem_of_omap)%list_elem_of_fmap. unfold dropped_todo in Hf.
  destruct (pl_allocations plan !! rr_resource_name r) as [x|] eqn:Hx; [done|]. injection Hf as <- _ _. cbn.
  split; [apply list_elem_of_fmap; by exists r|done].
Qed.

Lemma omap_names_nodup {A : Type} (name : A → string) (f : A → option todo) (l : list A) :
  (∀ x y, f x = Some y → y.1.1 = name x) → NoDup (name <$> l) → NoDup ((λ x : todo, x.1.1) <$> omap f l).
Proof.
  intros Hf. induction l as [|x l IH]; [intros; constructor|]. rewrite fmap_cons. intros [Hnin Hnd]%NoDup_cons. cbn.
  destruct (f x) as [y|] eqn:Hy; [|by apply IH]. rewrite fmap_cons. constructor; [|by apply IH]. rewrite (Hf x y Hy).
  intros (z & Hz & (x' & Hx' & Hfx')%list_elem_of_omap)%list_elem_of_fmap. apply Hnin. rewrite Hz, (Hf x' z Hfx').
  apply list_elem_of_fmap. by exists x'.
Qed.

(** The names of both loops are distinct. *)
Lemma todo_names_nodup : NoDup (ri_resource_name <$> pl_resources plan) →
  NoDup ((λ x : todo, x.1.1) <$> (omap planned_todo (pl_resources plan)
    ++ omap dropped_todo (requirement_record p <$> project_requirements p d0))).
Proof.
  intros Hnd. rewrite fmap_app. apply NoDup_app. split_and!.
  - apply (omap_names_nodup ri_resource_name); [|done]. intros r y Hy. unfold planned_todo in Hy.
    destruct (pl_allocations plan !! _); [|done]. by injection Hy as <-.
  - intros n [_ [x Hx]]%planned_names [_ Hnone]%dropped_names. congruence.
  - apply (omap_names_nodup rr_resource_name); [|apply requirement_names_nodup]. intros r y Hy. unfold dropped_todo in Hy.
    destruct (pl_allocations plan !! _); [done|]. by injection Hy as <-.
Qed.

Lemma progress_start d1 : outside d1 = outside d0 → progress p d0 d1 [] d1.
Proof.
  intros Ho. assert (resource_allocations d1 = resource_allocations d0) as Ha by exact (f_equal resource_allocations Ho).
  assert (projects d1 = projects d0) as Hp by exact (f_equal projects Ho). split.
  - destruct Hall as [H1 H2 H3 H4]. split; by rewrite ?Ha, ?Hp.
  - apply only_allocations_refl.
  - by intros n t allocations ?%elem_of_nil.
  - intros p' n _ i row _. by rewrite Ha.
Qed.

Lemma apply_plan_hoare : spec (λ s, dm_db s = d0) (apply_project_resource_plan now p plan)
  (λ _ s, plan_applied p plan d0 (dm_db s)) (λ _ s, resources_wf (dm_db s) ∧ allocations_wf (dm_db s)).
Proof.
  unfold apply_project_resource_plan. set (existing := requirement_record p <$> project_requirements p d0).
  eapply (spec_bind _ _ _ (λ l s, l = existing ∧ dm_db s = d0)).
  { intros s Hs. unfold read_db. rewrite Hs, list_requirements_ok by done. by split. }
  intros l. apply spec_pure. intros ->.
  pose proof (λ at', replace_requirements_outcome p (pl_resources plan) at' d0 Hres) as Hrep.
  destruct (validate_project_managed_resource_inputs (pl_resources plan)) as [[]|e] eqn:Hv.
  2:{ eapply (spec_bind _ _ _ (λ _ _, False)); [|by intros ? ? []].
      intros s Hs. unfold stamped, mbind, eff_bind, stamp, on_db, on_part. cbn. rewrite Hs, Hrep. cbn. by split. }
  apply validate_inputs_ok in Hv as [_ Hnd].
  eapply (spec_bind _ _ _ (λ _ s, ∃ d1, progress p d0 d1 [] (dm_db s) ∧ dm_db s = d1 ∧ resources_wf d1 ∧ outside d1 = outside d0
    ∧ (∀ n t, (∃ q, project_managed_resources d1 !! (p, n) = Some q ∧ q_track q = t) ↔ Build_ProjectManagedResourceInput n t ∈ pl_resources plan)
    ∧ ∀ p' n, p' ≠ p → project_managed_resources d1 !! (p', n) = project_managed_resources d0 !! (p', n))).
  { intros s Hs. unfold stamped, mbind, eff_bind, stamp, on_db, on_part. cbn. rewrite Hs. specialize (Hrep (now (dm_ticks s))).
    destruct (projects d0 !! p); [|by rewrite Hrep].
    destruct Hrep as (records & d1 & -> & Hwf1 & Ho & _ & Hreq & Hother & _). cbn. exists d1. by split_and!; [apply progress_start|..]. }
  intros _ s (d1 & Hpg & Hs1 & Hwf1 & Ho & Hreq & Hother). pose proof (todo_names_nodup Hnd) as Hnames.
  assert (NoDup ((λ x : todo, x.1.1) <$> ([] ++ omap planned_todo (pl_resources plan)))) as Hnames1
    by (rewrite fmap_app in Hnames; apply NoDup_app in Hnames; apply Hnames).
  pose proof (replace_loop now p d0 d1 planned_todo (pl_resources plan) [] Hnames1 s Hpg) as Hloop1.
  assert (∀ d, interrupted d1 d → resources_wf d ∧ allocations_wf d) as Hint.
  { intros d [Hwf Hframe]. split; [by eapply only_allocations_resources|done]. }
  rewrite (eff_iter_ext _ (λ x, match planned_todo x with Some (n, t, allocations) => replace_allocations now p n t allocations | None => mret tt end))
    by (intros r; unfold planned_todo; by destruct (pl_allocations plan !! _)).
  unfold mbind, eff_bind. destruct (eff_iter _ (pl_resources plan) s) as [[[]|e] s2]; [|by apply Hint].
  rewrite (eff_iter_ext _ (λ x, match dropped_todo x with Some (n, t, allocations) => replace_allocations now p n t allocations | None => mret tt end))
    by (intros r; unfold dropped_todo; by destruct (pl_allocations plan !! _)).
  pose proof (replace_loop now p d0 d1 dropped_todo existing _ Hnames s2 Hloop1) as Hloop2.
  destruct (eff_iter _ existing s2) as [[[]|e] s3]; [|by apply Hint]. destruct (pg_frame _ _ _ _ _ Hloop2) as [m Hm].
  split.
  - by apply Hint; split; [apply (pg_wf _ _ _ _ _ Hloop2)|exists m].
  - apply (pg_wf _ _ _ _ _ Hloop2).
  - rewrite Hm. exact (f_equal projects Ho).
  - rewrite Hm. exact Hreq.
  - intros n t allocations Hin Ha. apply (pg_settled _ _ _ _ _ Hloop2). apply elem_of_app. left. apply list_elem_of_omap.
    eexists. split; [exact Hin|]. unfold planned_todo. cbn. by rewrite Ha.
  - intros n q Hq Hnone. apply (pg_settled _ _ _ _ _ Hloop2). apply elem_of_app. right. apply list_elem_of_omap.
    exists (requirement_record p (n, q)). split; [|unfold dropped_todo; cbn; by rewrite Hnone].
    apply list_elem_of_fmap. exists (n, q). split; [done|]. by apply elem_of_project_requirements.
  - intros p' n Hne. split; [apply (pg_rest _ _ _ _ _ Hloop2); by left|]. rewrite Hm. by apply Hother.
Qed.
End whole.

(** *** Planning again *)

Section lists.
Context `{JsonLaws} (d : Db) (p r : string) (l : list ResourceAllocationRecord).
Hypotheses (Hwf : allocations_wf d) (Hl : list_resource_allocations p r d = Ok l).

Lemma existing_lookup i row : resource_allocations d !! i = Some row → of_project_resource p r row = true →
  ∃ rec, existing_map l !! a_allocation_name row = Some rec ∧ allocation_into_record i row = Ok rec.
Proof.
  intros Hi Hof. destruct (list_allocations_spec d Hwf p r) as (l' & Hl' & Hin & _ & Hnd). assert (l' = l) as -> by congruence.
  destruct (allocation_read i row) as (rec & Hr & Hrec & _); [by apply (aw_readable d Hwf i)|]. exists rec. split; [|done].
  apply (foldl_insert_lookup al_allocation_name (λ a, a)); [done|]. exists rec.
  split_and!; [apply Hin; by exists i, row|by destruct Hrec as (_ & _ & _ & _ & ? & _)|done].
Qed.

Lemma existing_lookup_inv n rec : existing_map l !! n = Some rec →
  ∃ i row, resource_allocations d !! i = Some row ∧ of_project_resource p r row = true
    ∧ a_allocation_name row = n ∧ allocation_into_record i row = Ok rec.
Proof.
  intros Hn. destruct (list_allocations_spec d Hwf p r) as (l' & Hl' & Hin & _ & Hnd). assert (l' = l) as -> by congruence.
  apply (foldl_insert_lookup al_allocation_name (λ a, a)) in Hn as (rec' & Hrec & Hname & ->); [|done].
  apply Hin in Hrec as (i & row & Hi & Hof & Hr). exists i, row. split_and!; [done..| |done].
  apply allocation_read_inv in Hr as (_ & (_ & _ & _ & _ & <- & _) & _). done.
Qed.
End lists.

Lemma Forall2_impl_elem {A B : Type} (P Q : A → B → Prop) l k :
  Forall2 P l k → (∀ x y, y ∈ k → P x y → Q x y) → Forall2 Q l k.
Proof. induction 1 as [|x y l k Hxy _ IH]; intros HQ; constructor; [apply HQ; [by left|done]|apply IH; intros; apply HQ; [by right|done]]. Qed.

Lemma concrete_track_again track ct : concrete_track_name_new track = Ok ct →
  track_name_str (Identity.concrete_track ct) = track ∧ concrete_track_name_new (track_name_str (Identity.concrete_track ct)) = Ok ct.
Proof.
  intros Hct. assert (track_name_str (Identity.concrete_track ct) = track) as ->; [|done].
  unfold concrete_track_name_new, track_name_new, validate_identity in Hct. destruct (is_reserved_alias track); [done|].
  by destruct (valid_identity track); [injection Hct as <-|].
Qed.

Section replan.
Context `{Host} `{JsonLaws} (paths : PvPaths).
Context (parse_rfc3339 : string → option Z) (url_parse : string → option ParsedUrl) (pkg_version : string).
Context (json_parse : string → result string RawManifest).

Let plan_track := resolved_project_resource_track paths parse_rfc3339 url_parse pkg_version json_parse.
Let plan_one := plan_resource paths parse_rfc3339 url_parse pkg_version json_parse.
Let plan_all := plan_resources paths parse_rfc3339 url_parse pkg_version json_parse.

(** A reading that succeeded: the database is as it was. *)
Definition reads_db {A : Type} (m : act A) : Prop := ∀ s, dm_db (m s).2 = dm_db s.

Lemma reads_db_bind {A B : Type} (m : act A) (f : A → act B) : reads_db m → (∀ a, reads_db (f a)) → reads_db (m ≫= f).
Proof. intros Hm Hf s. specialize (Hm s). unfold mbind, eff_bind. destruct (m s) as [[a|e] s1]; [|done]. rewrite Hf. exact Hm. Qed.
Lemma reads_db_lift {A : Type} (r : result DaemonError A) : reads_db (eff_lift r).
Proof. done. Qed.
Lemma reads_db_ret {A : Type} (a : A) : reads_db (mret a).
Proof. done. Qed.
Lemma reads_db_read {A : Type} (f : Db → result StateError A) : reads_db (read_db f).
Proof. done. Qed.
Lemma reads_db_resources {A : Type} (m : IO ResourcesError A) : reads_db (on_resources m).
Proof. intros s. unfold on_resources, on_part. by destruct (m _) as [[]]. Qed.
Ltac reads_db := repeat first [apply reads_db_bind; [|intros ?] | apply reads_db_lift | apply reads_db_ret | apply reads_db_read
  | apply reads_db_resources].

Lemma plan_track_reads n selector existing : reads_db (plan_track n selector existing).
Proof.
  apply reads_db_bind; [apply reads_db_lift|intros selected]. apply reads_db_bind; [|intros track; reads_db].
  destruct selected; [destruct existing|]; reads_db.
Qed.
Lemma plan_one_reads project tracks resource cfg : reads_db (plan_one project tracks resource cfg).
Proof. apply reads_db_bind; [apply reads_db_lift|intros n]. apply reads_db_bind; [apply plan_track_reads|intros track; reads_db]. Qed.
Lemma plan_all_reads project tracks l : reads_db (plan_all project tracks l).
Proof.
  induction l as [|[resource cfg] l IH]; [done|]. apply reads_db_bind; [apply plan_one_reads|intros planned].
  apply reads_db_bind; [exact IH|intros rest; reads_db].
Qed.

(** The track that was resolved resolves to itself, without the manifest. *)
Lemma plan_track_again n selector existing track s s1 s2 : plan_track n selector existing s = (Ok track, s1) →
  plan_track n selector (Some track) s2 = (Ok track, s2).
Proof.
  unfold plan_track, resolved_project_resource_track, mbind, eff_bind, resources_lift, eff_lift, map_err, mret, eff_ret.
  destruct (match selector with Some selector => _ | None => _ end) as [[|t]|e]; [| |done].
  - intros Hs. assert (∃ ct, track_name_str (Identity.concrete_track ct) = track ∧ concrete_track_name_new track = Ok ct) as (ct & <- & Hct); [|by rewrite Hct].
    destruct existing as [track0|].
    + destruct (concrete_track_name_new track0) as [ct|] eqn:Hct; [|done]. injection Hs as <- _. exists ct. split; [done|].
      by apply (concrete_track_again track0).
    + destruct (cached_manifest _ _ _ _ _ s) as [[m|e] s']; [|done]. destruct (resolve_track n Identity.Latest m) as [t|]; [|done].
      destruct (concrete_track_name_new (track_name_str t)) as [ct|] eqn:Hct; [|done]. injection Hs as <- _. exists ct. split; [done|].
      by apply (concrete_track_again (track_name_str t)).
  - destruct (concrete_track_name_new (track_name_str t)) as [ct|]; [|done]. by intros [= <- _].
Qed.

Lemma plan_allocation_again project resource d d' l l' track allocations a : allocations_wf d → allocations_wf d' →
  list_resource_allocations (id project) resource d = Ok l → list_resource_allocations (id project) resource d' = Ok l' →
  settled d (id project) resource track allocations d' → a ∈ allocations →
  plan_allocation resource project (existing_map l) (ai_allocation_name a) = Ok a →
  plan_allocation resource project (existing_map l') (ai_allocation_name a) = Ok a.
Proof.
  intros Hwf Hwf' Hl Hl' [Hw _] Ha Hplan. destruct (Hw a Ha) as (i & row & Hi & Hof & Hn & _ & Hgen).
  destruct (existing_lookup d' (id project) resource l' Hwf' Hl' i row Hi Hof) as (rec & Hrec & Hread). rewrite Hn in Hrec.
  apply allocation_read_inv in Hread as (_ & (_ & _ & _ & _ & _ & Hg & _) & _).
  unfold plan_allocation, allocation_generated_name in *. rewrite Hrec. cbn [mbind result_bind]. rewrite Hg.
  assert (a_generated_name row = ai_generated_name a) as ->; [|by destruct a].
  destruct Hgen as [(row0 & Hrow0 & Hof0 & Hn0 & ->)|[_ ?]]; [|done].
  destruct (existing_lookup d (id project) resource l Hwf Hl i row0 Hrow0 Hof0) as (rec0 & Hrec0 & Hread0). rewrite Hn0 in Hrec0.
  apply allocation_read_inv in Hread0 as (_ & (_ & _ & _ & _ & _ & Hg0 & _) & _).
  rewrite Hrec0 in Hplan. cbn [mbind result_bind] in Hplan. injection Hplan as <-. by rewrite <-Hg0.
Qed.

Lemma plan_one_again project tracks tracks' resource cfg planned s s1 s2 :
  plan_one project tracks resource cfg s = (Ok planned, s1) → tracks' !! resource = Some (ri_track planned.1) →
  allocations_wf (dm_db s) → allocations_wf (dm_db s2) →
  settled (dm_db s) (id project) resource (ri_track planned.1) planned.2 (dm_db s2) →
  plan_one project tracks' resource cfg s2 = (Ok planned, s2).
Proof.
  intros Hp Ht Hwf Hwf' Hset. apply eff_bind_ok in Hp as (n & sa & Hn & Hp).
  apply eff_bind_ok in Hp as (track & sb & Htrack & Hp). apply eff_bind_ok in Hp as (l & sc & Hl & Hp).
  apply eff_bind_ok in Hp as (allocations & sd & Hmap & Hp). injection Hp as <- <-. cbn [fst snd ri_track] in *.
  unfold resources_lift, eff_lift in Hn, Hmap. destruct (resource_name_new resource) as [n'|] eqn:Hname; [|done]. injection Hn as -> <-.
  assert (dm_db sb = dm_db s) as Hsb by (pose proof (plan_track_reads n (rc_track cfg) (tracks !! resource) s) as Hr; unfold plan_track in Hr; by rewrite Htrack in Hr).
  unfold read_db in Hl. rewrite Hsb in Hl. destruct (list_resource_allocations (id project) resource (dm_db s)) as [l0|] eqn:Hl0; [|done]. injection Hl as -> <-.
  destruct (try_map _ _) as [allocations'|] eqn:Hall in Hmap; [|done]. injection Hmap as -> <-. apply try_map_ok in Hall.
  destruct (list_allocations_spec (dm_db s2) Hwf' (id project) resource) as (l' & Hl' & _).
  apply eff_bind_ok. exists n, s2. split; [unfold resources_lift, eff_lift; by rewrite Hname|].
  apply eff_bind_ok. exists track, s2. split; [rewrite Ht; by eapply plan_track_again|].
  apply eff_bind_ok. exists l', s2. split; [unfold read_db; by rewrite Hl'|].
  apply eff_bind_ok. exists allocations, s2. split; [|done]. unfold resources_lift, eff_lift.
  assert (try_map (plan_allocation resource project (existing_map l')) (btree_iter (rc_allocations cfg)).*1 = Ok allocations) as ->; [|done].
  apply try_map_ok. eapply Forall2_impl_elem; [exact Hall|]. intros name a Ha Hplan. cbv beta in *.
  assert (name = ai_allocation_name a) as ->.
  { unfold plan_allocation in Hplan. destruct (allocation_generated_name _ _ _ _); [|done]. by injection Hplan as <-. }
  by eapply (plan_allocation_again project resource (dm_db s) (dm_db s2) l l' track allocations).
Qed.

Lemma plan_one_name project tracks resource cfg s planned s1 : plan_one project tracks resource cfg s = (Ok planned, s1) →
  ri_resource_name planned.1 = resource.
Proof.
  intros Hone. apply eff_bind_ok in Hone as (n & s3 & _ & Hone). apply eff_bind_ok in Hone as (track & s4 & _ & Hone).
  apply eff_bind_ok in Hone as (existing & s5 & _ & Hone). apply eff_bind_ok in Hone as (allocations & s6 & _ & Hone). by injection Hone as <- _.
Qed.

Lemma plan_all_names project tracks l s plan s1 : plan_all project tracks l s = (Ok plan, s1) →
  ri_resource_name <$> pl_resources plan = l.*1.
Proof.
  revert s plan. induction l as [|[resource cfg] l IH]; intros s plan Hp; [by injection Hp as <- _|].
  apply eff_bind_ok in Hp as (planned & sa & Hone & Hp). apply eff_bind_ok in Hp as (rest & sb & Hrest & Hp). injection Hp as <- <-.
  cbn. rewrite (IH sa rest Hrest). f_equal. by eapply plan_one_name.
Qed.

Lemma plan_all_again project tracks tracks' l plan s s1 s2 : NoDup l.*1 →
  plan_all project tracks l s = (Ok plan, s1) → allocations_wf (dm_db s) → allocations_wf (dm_db s2) →
  (∀ n t, Build_ProjectManagedResourceInput n t ∈ pl_resources plan → tracks' !! n = Some t) →
  (∀ n t allocations, Build_ProjectManagedResourceInput n t ∈ pl_resources plan → pl_allocations plan !! n = Some allocations →
     settled (dm_db s) (id project) n t allocations (dm_db s2)) →
  plan_all project tracks' l s2 = (Ok plan, s2).
Proof.
  revert s plan s1. induction l as [|[resource cfg] l IH]; intros s plan s1 Hnd Hp Hwf Hwf' Ht Hset; [by injection Hp as <- _|].
  rewrite fmap_cons in Hnd. apply NoDup_cons in Hnd as [Hnin Hnd].
  apply eff_bind_ok in Hp as (planned & sa & Hone & Hp). apply eff_bind_ok in Hp as (rest & sb & Hrest & Hp). injection Hp as <- <-.
  cbn [pl_resources pl_allocations] in *. assert (ri_resource_name planned.1 = resource) as Hname.
  { by eapply plan_one_name. }
  assert (Build_ProjectManagedResourceInput resource (ri_track planned.1) ∈ planned.1 :: pl_resources rest) as Hfirst
    by (rewrite <-Hname; destruct planned as [[] ?]; by left).
  assert (dm_db sa = dm_db s) as Hsa by (pose proof (plan_one_reads project tracks resource cfg s) as Hr; unfold plan_one in Hr; by rewrite Hone in Hr).
  apply eff_bind_ok. exists planned, s2. split.
  { eapply (plan_one_again project tracks tracks'); [exact Hone|by apply Ht|done..|]. apply Hset; [done|by rewrite lookup_insert_eq]. }
  apply eff_bind_ok. exists rest, s2. split; [|done]. apply (IH sa rest sb); [done..|by rewrite Hsa|done| |].
  - intros n t Hin. apply Ht. by right.
  - intros n t allocations Hin Ha. rewrite Hsa. apply Hset; [by right|]. rewrite lookup_insert_ne; [done|]. intros ->. apply Hnin.
    rewrite <-(plan_all_names project tracks l sa rest sb Hrest). apply list_elem_of_fmap. by exists (Build_ProjectManagedResourceInput n t).
Qed.

(** C35: A plan that was applied is stable. Planning the same configuration again, over
    the database that applying it left, gives the same plan: the same tracks, though
    another release may be the latest by then, and the same generated names; it reads
    neither the manifest nor anything else of the files, so it cannot fail. *)
Theorem applied_plan_is_stable now project config plan s s1 s2 s3 :
  resources_wf (dm_db s) → allocations_wf (dm_db s) →
  project_resource_plan paths parse_rfc3339 url_parse pkg_version json_parse project config s = (Ok plan, s1) →
  apply_project_resource_plan now (id project) plan s1 = (Ok tt, s2) → dm_db s3 = dm_db s2 →
  project_resource_plan paths parse_rfc3339 url_parse pkg_version json_parse project config s3 = (Ok plan, s3).
Proof.
  intros Hres Hall Hp Happly Hs3. apply eff_bind_ok in Hp as (existing & sa & Hex & Hp). unfold read_db in Hex.
  rewrite (list_requirements_ok _ _ Hres) in Hex. injection Hex as <- <-.
  assert (dm_db s1 = dm_db s) as Hs1.
  { pose proof (plan_all_reads project (track_map (requirement_record (id project) <$> project_requirements (id project) (dm_db s)))
      (btree_iter (resources config)) s) as Hr. unfold plan_all in Hr. by rewrite Hp in Hr. }
  pose proof (apply_plan_hoare now (id project) plan (dm_db s) Hres Hall s1 Hs1) as Happ. rewrite Happly in Happ. rewrite <-Hs3 in Happ.
  apply eff_bind_ok. eexists _, s3. split; [unfold read_db; by rewrite (list_requirements_ok _ _ (pa_resources_wf _ _ _ _ Happ))|].
  eapply plan_all_again; [apply NoDup_fst_btree_iter|exact Hp|done|apply (pa_allocations_wf _ _ _ _ Happ)| |by apply (pa_planned _ _ _ _ Happ)].
  intros n t Hin. apply (pa_requires _ _ _ _ Happ) in Hin as (q & Hq & <-).
  apply (foldl_insert_lookup rr_resource_name rr_track); [apply requirement_names_nodup|].
  exists (requirement_record (id project) (n, q)). split_and!; [|done..]. apply list_elem_of_fmap. exists (n, q). split; [done|]. by apply elem_of_project_requirements.
Qed.
End replan.

(** Applying a plan makes the database say exactly what the plan says. On success the
    project requires the planned resources at the planned tracks and nothing else; every
    planned allocation is on its track under its generated name, the one it already had
    if it existed; every other allocation of a resource that is planned, or was required
    before, is inactive; no other project's requirements or allocations change. A failure
    leaves the tables well formed. *)
Theorem apply_project_resource_plan_spec `{JsonLaws} now p plan s :
  resources_wf (dm_db s) → allocations_wf (dm_db s) →
  match apply_project_resource_plan now p plan s with
  | (Ok _, s') => plan_applied p plan (dm_db s) (dm_db s')
  | (Err _, s') => resources_wf (dm_db s') ∧ allocations_wf (dm_db s')
  end.
Proof. intros Hres Hall. by apply (apply_plan_hoare now p plan (dm_db s) Hres Hall s). Qed.

(** *** The context of a plan *)

Lemma try_fold_insert {E A B : Type} (k : A → string) (g : A → result E B) (f : gmap string B → A → result E (gmap string B)) l m0 :
  (∀ m x, f m x = (y ← g x; Ok (<[k x := y]> m))) → (∀ x y, x ∈ l → y ∈ l → k x = k y → g x = g y) →
  match try_fold f l m0 with
  | Ok m => (∀ x, x ∈ l → ∃ y, g x = Ok y ∧ m !! k x = Some y) ∧ ∀ n, n ∉ k <$> l → m !! n = m0 !! n
  | Err e => ∃ x, x ∈ l ∧ g x = Err e
  end.
Proof.
  intros Hf. revert m0. induction l as [|x l IH]; intros m0 Hk; cbn [try_fold]; [split; [by intros x ?%elem_of_nil|done]|].
  rewrite Hf. destruct (g x) as [y|e] eqn:Hg; cbn [mbind result_bind]; [|exists x; split; [by left|done]].
  specialize (IH (<[k x := y]> m0)). destruct (try_fold f l _) as [m|e].
  - destruct IH as [Hin Hout]; [intros ? ? ? ?; apply Hk; by right|]. split.
    + intros z [->|Hz]%elem_of_cons; [|by apply Hin]. exists y. split; [done|].
      destruct (decide (k x ∈ k <$> l)) as [Hkx|Hkx]; [|rewrite Hout by done; by rewrite lookup_insert_eq].
      apply list_elem_of_fmap in Hkx as (z & Hkz & Hz). destruct (Hin z Hz) as (y' & Hy' & Hm).
      assert (g x = g z) as Hgz by (apply Hk; [by left|by right|done]). rewrite Hkz. congruence.
    + intros n Hn. rewrite fmap_cons in Hn. apply not_elem_of_cons in Hn as [Hne Hn]. rewrite Hout by done. by rewrite lookup_insert_ne.
  - destruct IH as (z & Hz & He); [intros ? ? ? ?; apply Hk; by right|]. exists z. split; [by right|done].
Qed.

Section context.
Context `{JsonLaws} (paths : PvPaths) (project : ProjectRecord) (config : ProjectConfig) (plan : ProjectResourcePlan) (d : Db).
Hypotheses (Hwf : allocations_wf d) (Hnd : NoDup (ri_resource_name <$> pl_resources plan)).

(** The allocation is ready on the track, and [cx] is what the row says. *)
Definition ready_allocation (resource track : string) (a : ResourceAllocationInput) (cx : AllocationEnvContext) : Prop :=
  ∃ i row, resource_allocations d !! i = Some row ∧ of_project_resource (id project) resource row = true
    ∧ a_allocation_name row = ai_allocation_name a ∧ a_track row = track ∧ a_status row = as_str AllocationReady
    ∧ ac_generated_name cx = a_generated_name row ∧ ∀ context, parse_env_context context (a_env_json row) = Ok (ac_values cx).

(** The installed track has an env. *)
Definition ready_track (r : ProjectManagedResourceInput) (values : gmap string string) : Prop :=
  values ≠ ∅ ∧ ∃ track, managed_resource_track (ri_resource_name r) (ri_track r) d = Ok track ∧ tr_env track = values.

Definition allocation_context_of (resource track : string) (existing : gmap string ResourceAllocationRecord)
    (a : ResourceAllocationInput) : result DaemonError AllocationEnvContext :=
  match existing !! ai_allocation_name a with
  | None => Err (missing_allocation resource (ai_allocation_name a))
  | Some rec =>
      if negb (bool_decide (al_track rec = track)) || negb (bool_decide (al_status rec = AllocationReady))
      then Err (missing_allocation resource (ai_allocation_name a))
      else Ok {| ac_generated_name := al_generated_name rec; ac_values := al_env rec |}
  end.

Lemma allocation_context_ready resource track l a : list_resource_allocations (id project) resource d = Ok l →
  (∀ cx, allocation_context_of resource track (existing_map l) a = Ok cx → ready_allocation resource track a cx)
  ∧ (∀ cx, ready_allocation resource track a cx → is_ok (allocation_context_of resource track (existing_map l) a) = true).
Proof.
  intros Hl. unfold allocation_context_of. split.
  - intros cx. destruct (existing_map l !! ai_allocation_name a) as [rec|] eqn:Hrec; [|done].
    case_bool_decide as Ht; [|done]. case_bool_decide as Hs; [|done]. cbn. intros [= <-].
    destruct (existing_lookup_inv d (id project) resource l Hwf Hl _ rec Hrec) as (i & row & Hi & Hof & Hn & Hr).
    apply allocation_read_inv in Hr as (_ & (_ & _ & _ & Htr & _ & Hg & Hst) & Henv). exists i, row.
    split_and!; [done|done|done|congruence|by rewrite <-Hst, Hs|done|done].
  - intros cx (i & row & Hi & Hof & Hn & Ht & Hs & _).
    destruct (existing_lookup d (id project) resource l Hwf Hl i row Hi Hof) as (rec & Hrec & Hr). rewrite Hn in Hrec. rewrite Hrec.
    apply allocation_read_inv in Hr as (_ & (_ & _ & _ & Htr & _ & Hg & Hst) & _).
    rewrite bool_decide_eq_true_2 by congruence. rewrite bool_decide_eq_true_2 by (apply as_str_inj; congruence). done.
Qed.

(** The context of one resource. *)
Definition ready_resource (r : ProjectManagedResourceInput) (rx : ResourceEnvContext) : Prop :=
  rx_track rx = ri_track r ∧ ready_track r (rx_values rx)
  ∧ ∀ allocations, pl_allocations plan !! ri_resource_name r = Some allocations → ∀ a, a ∈ allocations →
      ∃ cx, rx_allocations rx !! ai_allocation_name a = Some cx ∧ ready_allocation (ri_resource_name r) (ri_track r) a cx.

Lemma planned_contexts_ready (r : ProjectManagedResourceInput) :
  (∀ m, planned_allocation_contexts d (id project) (ri_resource_name r) (ri_track r) (pl_allocations plan !! ri_resource_name r) = Ok m →
     ∀ allocations, pl_allocations plan !! ri_resource_name r = Some allocations → ∀ a, a ∈ allocations →
       ∃ cx, m !! ai_allocation_name a = Some cx ∧ ready_allocation (ri_resource_name r) (ri_track r) a cx)
  ∧ ((∀ allocations, pl_allocations plan !! ri_resource_name r = Some allocations → ∀ a, a ∈ allocations →
        ∃ cx, ready_allocation (ri_resource_name r) (ri_track r) a cx) →
     is_ok (planned_allocation_contexts d (id project) (ri_resource_name r) (ri_track r) (pl_allocations plan !! ri_resource_name r)) = true).
Proof.
  unfold planned_allocation_contexts. destruct (pl_allocations plan !! ri_resource_name r) as [allocations|]; [|done].
  destruct (list_allocations_spec d Hwf (id project) (ri_resource_name r)) as (l & Hl & _). rewrite Hl. cbn [map_err mbind result_bind].
  pose proof (try_fold_insert ai_allocation_name (allocation_context_of (ri_resource_name r) (ri_track r) (existing_map l))
    (planned_allocation_step (ri_resource_name r) (ri_track r) (existing_map l)) allocations ∅) as Hfold.
  assert (∀ m a, planned_allocation_step (ri_resource_name r) (ri_track r) (existing_map l) m a =
    (y ← allocation_context_of (ri_resource_name r) (ri_track r) (existing_map l) a; Ok (<[ai_allocation_name a := y]> m))) as Hstep.
  { intros m a. unfold planned_allocation_step, allocation_context_of. destruct (existing_map l !! _); [|done]. by destruct (_ || _). }
  specialize (Hfold Hstep). destruct (try_fold _ allocations ∅) as [m|e].
  - destruct Hfold as [Hin _]; [intros x y _ _ Hk; unfold allocation_context_of; by rewrite Hk|]. split; [|done].
    intros ? [= <-] ? [= <-] a Ha. destruct (Hin a Ha) as (cx & Hcx & Hm). exists cx. split; [done|].
    by apply (allocation_context_ready (ri_resource_name r) (ri_track r) l a Hl).
  - destruct Hfold as (a & Ha & He); [intros x y _ _ Hk; unfold allocation_context_of; by rewrite Hk|]. split; [done|].
    intros Hready. destruct (Hready allocations eq_refl a Ha) as (cx & Hcx).
    pose proof (proj2 (allocation_context_ready (ri_resource_name r) (ri_track r) l a Hl) cx Hcx) as Hok. by rewrite He in Hok.
Qed.

Definition resource_context_result (r : ProjectManagedResourceInput) : result DaemonError ResourceEnvContext :=
  allocations ← planned_allocation_contexts d (id project) (ri_resource_name r) (ri_track r) (pl_allocations plan !! ri_resource_name r);
  track ← map_err DaemonState (managed_resource_track (ri_resource_name r) (ri_track r) d);
  if bool_decide (tr_env track = ∅) then Err (DaemonConfig (MissingResourceEnvContext (ri_resource_name r)))
  else Ok {| rx_track := ri_track r; rx_values := tr_env track; rx_allocations := allocations |}.

Lemma resource_result_ready r :
  (∀ rx, resource_context_result r = Ok rx → ready_resource r rx) ∧ (∀ rx, ready_resource r rx → is_ok (resource_context_result r) = true).
Proof.
  unfold resource_context_result. destruct (planned_contexts_ready r) as [Hok Hready]. split.
  - intros rx. destruct (planned_allocation_contexts _ _ _ _ _) as [m|]; [|done]. cbn [mbind result_bind].
    destruct (managed_resource_track _ _ d) as [track|] eqn:Ht; [|done]. cbn [map_err mbind result_bind]. case_bool_decide as He; [done|].
    intros [= <-]. split_and!; [done|by split; [|exists track]|]. exact (Hok m eq_refl).
  - intros rx (_ & (Hne & track & Ht & Henv) & Ha). destruct (planned_allocation_contexts _ _ _ _ _) as [m|].
    + cbn [mbind result_bind]. rewrite Ht. cbn [map_err mbind result_bind]. by rewrite bool_decide_eq_false_2 by congruence.
    + discriminate Hready. intros allocations Hall a Hin. destruct (Ha allocations Hall a Hin) as (cx & _ & Hcx). by exists cx.
Qed.

(** The hostname that a served project needs. *)
Definition serves_http : bool := bool_decide (mode project = Served) && serve config.

Lemma contexts_fold :
  match try_fold (context_step d (id project) plan) (pl_resources plan) ∅ with
  | Ok m => (∀ r, r ∈ pl_resources plan → ∃ rx, resource_context_result r = Ok rx ∧ m !! ri_resource_name r = Some rx)
      ∧ ∀ n, n ∉ ri_resource_name <$> pl_resources plan → m !! n = None
  | Err e => ∃ r, r ∈ pl_resources plan ∧ resource_context_result r = Err e
  end.
Proof.
  pose proof (try_fold_insert ri_resource_name resource_context_result (context_step d (id project) plan) (pl_resources plan) ∅) as Hfold.
  destruct (try_fold _ _ _) as [m|e]; apply Hfold.
  all: try (intros m' r; unfold context_step, resource_context_result; destruct (planned_allocation_contexts _ _ _ _ _); [|done];
    cbn [mbind result_bind]; destruct (managed_resource_track _ _ d); [|done]; cbn [map_err mbind result_bind]; by destruct (bool_decide _)).
  all: intros x y Hx Hy Hk; by rewrite (NoDup_fmap_inj_on ri_resource_name (pl_resources plan) x y).
Qed.
End context.

(** A project's env is rendered only from what is ready. The context of a plan exists
    exactly when every planned resource has an installed env on its track, every planned
    allocation of it is ready on that track, and a served project has a hostname. Then it
    names the planned resources and no others, and says for each the installed env, and
    for each allocation the generated name and the env of its row. *)
Theorem project_env_context_for_plan_spec `{JsonLaws} paths project config plan d :
  allocations_wf d → NoDup (ri_resource_name <$> pl_resources plan) →
  let served := serves_http project config in
  match project_env_context_for_plan paths project config plan d with
  | Ok cx => (∀ r, r ∈ pl_resources plan → ∃ rx, cx_resources cx !! ri_resource_name r = Some rx ∧ ready_resource project plan d r rx)
      ∧ (∀ n, n ∉ ri_resource_name <$> pl_resources plan → cx_resources cx !! n = None)
      ∧ (if served then StateProjects.primary_hostname project = Some (ProjectEnv.primary_hostname cx) else ProjectEnv.primary_hostname cx = "")
  | Err _ => (served = true ∧ StateProjects.primary_hostname project = None)
      ∨ ∃ r, r ∈ pl_resources plan ∧ ∀ rx, ¬ ready_resource project plan d r rx
  end.
Proof.
  intros Hwf Hnd served. pose proof (contexts_fold project plan d Hnd) as Hfold.
  unfold project_env_context_for_plan. destruct (try_fold _ (pl_resources plan) ∅) as [m|e]; cbn [mbind result_bind].
  - destruct Hfold as [Hin Hout]. change (bool_decide (mode project = Served) && serve config) with served. unfold served_project_hostname.
    destruct served eqn:Hs; [destruct (StateProjects.primary_hostname project) as [h|] eqn:Hh; [|by left]|]; cbn.
    all: split_and!; [|done|done]; intros r Hr; destruct (Hin r Hr) as (rx & Hrx & Hm); exists rx; (split; [done|]);
      by apply (resource_result_ready project plan d Hwf r).
  - right. destruct Hfold as (r & Hr & He). exists r. split; [done|]. intros rx Hrx.
    pose proof (proj2 (resource_result_ready project plan d Hwf r) rx Hrx) as Hok. by rewrite He in Hok.
Qed.

(** *** A project with a database *)

Definition shop_project : ProjectRecord := {|
  id := "p1"; slug := "acme"; mode := Served; path := "/home/acme"; original_path := "/home/acme";
  StateProjects.primary_hostname := Some "acme.test"; config_path := "/home/acme/pv.yml"; desired_php_track := None;
  php_runtime := {| rt_track := None; rt_requested_extensions := []; rt_loaded_extensions := []; rt_ignored_extensions := [] |};
  additional_hostnames := []; created_at := "t0"; updated_at := "t0" |}.
Definition shop_config : ProjectConfig := {|
  serve := true; env_file := ".env"; php := None; document_root := None; hostnames := []; env := ∅;
  resources := {[ "postgres" := {| rc_track := Some "18"; rc_env := ∅; rc_allocations := {[ "app" := {| alloc_env := ∅ |} ]} |} ]} |}.
Definition shop_plan : ProjectResourcePlan := {|
  pl_resources := [Build_ProjectManagedResourceInput "postgres" "18"];
  pl_allocations := {[ "postgres" := [{| ai_allocation_name := "app"; ai_generated_name := "acme_app" |}] ]} |}.
Definition shop_daemon : Daemon := {| dm_db := sample_db; dm_world := cached_world; dm_ticks := 0; dm_log := [] |}.
Definition shop_now (n : nat) : string := "t" +:+ show_nat (S n).

Definition replan (s : Daemon) : result DaemonError ProjectResourcePlan * Daemon :=
  project_resource_plan (H := faulty_host None) (for_home ["home"]) sample_rfc3339 sample_url_parse "1.0.0" sample_json_parse shop_project shop_config s.

Lemma apply_project_resource_plan_spec_witness :
  allocations_wf (dm_db (apply_project_resource_plan shop_now "p1" shop_plan shop_daemon).2).
Proof.
  pose proof (apply_project_resource_plan_spec shop_now "p1" shop_plan shop_daemon sample_resources_wf sample_allocations_wf) as Hspec.
  destruct (apply_project_resource_plan shop_now "p1" shop_plan shop_daemon) as [[u|e] s'].
  - exact (pa_allocations_wf _ _ _ _ Hspec).
  - exact (proj2 Hspec).
Defined.

Lemma shop_plan_ok : ∃ s1, replan shop_daemon = (Ok shop_plan, s1) ∧ s1 = (replan shop_daemon).2.
Proof.
  assert ((λ plan, (pl_resources plan, map_to_list (pl_allocations plan))) <$> (replan shop_daemon).1
    = Ok (pl_resources shop_plan, map_to_list (pl_allocations shop_plan))) as Hplan by by vm_compute.
  revert Hplan. generalize (replan shop_daemon). intros [r s1] (plan & Hr & Heq)%fmap_result_ok. exists s1. split; [|done].
  apply pair_equal_spec in Heq as [H1 H2]. assert (pl_allocations plan = pl_allocations shop_plan) as H3 by (apply map_to_list_inj; by rewrite H2).
  assert (plan = shop_plan) as <- by (revert H1 H3; clear; destruct plan as [a b], shop_plan as [a' b']; cbn [pl_resources pl_allocations]; by intros -> ->). cbn [fst] in Hr. by rewrite Hr.
Qed.

Lemma shop_apply_ok : let s1 := (replan shop_daemon).2 in
  ∃ s2, apply_project_resource_plan shop_now "p1" shop_plan s1 = (Ok tt, s2) ∧ project_managed_resource_names "p1" (dm_db s2) = ["postgres"].
Proof.
  intros s1. assert (is_ok (apply_project_resource_plan shop_now "p1" shop_plan s1).1 = true) as Happly by by vm_compute.
  assert (project_managed_resource_names "p1" (dm_db (apply_project_resource_plan shop_now "p1" shop_plan s1).2) = ["postgres"])
    as Hnames by by vm_compute.
  revert Happly Hnames. generalize (apply_project_resource_plan shop_now "p1" shop_plan s1). intros [[[]|e] s2] Happly Hnames; [|discriminate Happly].
  by exists s2.
Qed.

Lemma applied_plan_is_stable_witness :
  ∃ s, replan s = (Ok shop_plan, s) ∧ project_managed_resource_names "p1" (dm_db s) = ["postgres"].
Proof.
  destruct shop_plan_ok as (s1 & Hr & Hs1). destruct shop_apply_ok as (s2 & Ha & Hnames). rewrite <-Hs1 in Ha. exists s2. split; [|exact Hnames].
  exact (applied_plan_is_stable (H := faulty_host None) (for_home ["home"]) sample_rfc3339 sample_url_parse "1.0.0" sample_json_parse
    shop_now shop_project shop_config shop_plan shop_daemon s1 s2 s2 sample_resources_wf sample_allocations_wf Hr Ha eq_refl).
Defined.

(** Not ready yet: there is no context. *)
Lemma project_env_context_for_plan_spec_witness :
  ∃ r, r ∈ pl_resources shop_plan ∧ ∀ rx, ¬ ready_resource shop_project shop_plan sample_allocated r rx.
Proof.
  pose proof (project_env_context_for_plan_spec (for_home ["home"]) shop_project shop_config shop_plan sample_allocated sample_allocated_wf) as Hspec.
  assert (is_ok (project_env_context_for_plan (for_home ["home"]) shop_project shop_config shop_plan sample_allocated) = false) as Hno by by vm_compute.
  cbn zeta in Hspec. destruct (project_env_context_for_plan _ _ _ _ _) as [cx|e]; [discriminate Hno|].
  destruct Hspec as [[_ Hh]|Hr]; [by repeat constructor; set_solver|discriminate Hh|exact Hr].
Defined.

(** Installed, with an env, and its allocation ready. *)
Definition ready_db : Db :=
  let d := (replace_project_managed_resources "p1" (pl_resources shop_plan) "t1" sample_db).2 in
  let d := (record_managed_resource_track_env_context "postgres" "18" {[ "port" := "5432" ]} "t1" d).2 in
  let d := (replace_project_resource_allocations "p1" "postgres" "18" [{| ai_allocation_name := "app"; ai_generated_name := "acme_app" |}] "t1" d).2 in
  (mark_resource_allocation_ready "p1" "postgres" "18" "app" {[ "database" := "acme_app" ]} "t2" d).2.

Example ready_context :
  (λ cx, (ProjectEnv.primary_hostname cx, (λ rx, (rx_values rx !! "port", ac_generated_name <$> rx_allocations rx !! "app")) <$> cx_resources cx !! "postgres"))
    <$> project_env_context_for_plan (for_home ["home"]) shop_project shop_config shop_plan ready_db
  = Ok ("acme.test", Some (Some "5432", Some "acme_app")).
Proof. by vm_compute. Qed.
