(* ===== verification/ProjectReconcile.v ===== *)
(** * Reconciling a project's env ([daemon/src/project_env.rs])

    Parameters: reconciling the managed resources of a plan (the processes of
    [managed_resources], with its catalog and progress), the certificates of the platform
    crate, [serde_yaml] and [serde_json]. The structured log is best effort. *)

From S2P Require Import Prelude RustStr Identity Manifest HostFs StateFs StatePaths ResourceCache PhpRuntimes.
From S2P Require Import StateTypes StateDb StateResources StateAllocations StateObserved StateProjects Effects Errors.
From S2P Require Import ConfigModel ConfigParser ProjectEnv EnvBlock ConfigFiles ProjectPlan.
From S2P Require DaemonJobs.
Import DaemonJobs (ProjectEnvReconciliationSummary, Build_ProjectEnvReconciliationSummary, pe_message, pe_requested_php_extensions).

Record ResolvedPhpRuntime := {
  rp_track : string;
  rp_runtime_key : string;
  rp_requested_extensions : list string;
  rp_loaded_extensions : list string;
  rp_ignored_extensions : list string;
  rp_loaded_modules : list PhpExtensionModule;
}.

Record GeneratedCertificate := { certificate_pem : string; private_key_pem : string }.

(** ** The project and its configuration *)

Definition project_mode_for_config (config : ProjectConfig) : ProjectMode := if serve config then Served else ResourceOnly.

Definition with_mode (m : ProjectMode) (hostname : option string) (project : ProjectRecord) : ProjectRecord := {|
  id := id project; slug := slug project; mode := m; path := path project; original_path := original_path project;
  StateProjects.primary_hostname := hostname; config_path := config_path project;
  desired_php_track := desired_php_track project; php_runtime := php_runtime project;
  additional_hostnames := additional_hostnames project; created_at := created_at project; updated_at := updated_at project |}.

Definition project_with_config_mode (project : ProjectRecord) (config : ProjectConfig) : ProjectRecord :=
  let m := project_mode_for_config config in
  with_mode m (match m, StateProjects.primary_hostname project with
               | Served, None => Some (slug project +:+ ".test")
               | _, hostname => hostname
               end) project.

Definition observed_warning (w : ProjectEnvWarning) : ProjectEnvObservedWarningInput :=
  match w with
  | DuplicateExistingKey key => {| wi_kind := "duplicate_key";
      wi_message := "generated Project env key " +:+ tick key +:+ " already exists outside the PV-managed block" |}
  end.
Definition observed_warnings (ws : list ProjectEnvWarning) : list ProjectEnvObservedWarningInput := observed_warning <$> ws.

Definition ignored_php_extension_warnings (runtime : ResolvedPhpRuntime) : list ProjectEnvObservedWarningInput :=
  (λ extension, {| wi_kind := "ignored_php_extension"; wi_message := "ignored unsupported PHP extension " +:+ tick extension |})
    <$> rp_ignored_extensions runtime.

(** [as_str] of a path of the database, as the path of the tree. *)
Definition tree_path (p : string) : HostFs.path := join_path [] p.

Section reconcile.
Context `{Host} `{Json} (paths : PvPaths) (now : nat → string).
Context (parse_rfc3339 : string → option Z) (url_parse : string → option ParsedUrl) (pkg_version : string).
Context (json_parse : string → result string RawManifest) (parse_modules : string → result string (list RawPhpExtensionModule)).
Context (yaml_from_str : string → result string yaml) (apply_merge : yaml → result string yaml).
Context (sqlite_display : SqliteError → string) (time_format_error : string).
Context (generate_project_certificate : string → string → string → result string GeneratedCertificate).
Context (project_certificate_matches : string → string → string → string → bool).
Context (reconcile_project_resources : ProjectRecord → ProjectResourcePlan → act unit).
Context (daemon_error_text : DaemonError → string).

Definition on_config {A : Type} (m : IO ConfigError A) : act A := on_part world_part DaemonConfig m.
Definition on_state_files {A : Type} (m : IO FsError A) : act A := on_part world_part (λ e, DaemonState (from_fs_error e)) m.
(** A call that cannot fail. *)
Definition on_world {A : Type} (m : IO DaemonError A) : act A := on_part world_part (λ e, e) m.

(** ** Certificates *)

Definition read_optional_file (p : HostFs.path) : act (option string) :=
  on_state_files (or_missing None (content ← StateFs.read_to_string p; mret (Some content))).

Definition project_tls_artifact_exists (project : ProjectRecord) : act bool :=
  present ← on_state_files (StateFs.path_entry_exists (project_tls_certificate paths (id project)));
  if present : bool then mret true else on_state_files (StateFs.path_entry_exists (project_tls_private_key paths (id project))).

Definition project_tls_files_are_current (project : ProjectRecord) (ca_certificate_pem : string) : act bool :=
  hostname ← eff_lift (served_project_hostname project);
  certificate ← read_optional_file (project_tls_certificate paths (id project));
  private_key ← read_optional_file (project_tls_private_key paths (id project));
  mret (match certificate, private_key with
        | Some certificate, Some private_key => project_certificate_matches certificate private_key hostname ca_certificate_pem
        | _, _ => false
        end).

Definition ensure_project_tls_files (project : ProjectRecord) : act unit :=
  hostname ← eff_lift (served_project_hostname project);
  ca_certificate_pem ← on_state_files (StateFs.read_to_string (ca_certificate paths));
  ca_private_key_pem ← on_state_files (StateFs.read_to_string (ca_private_key paths));
  current ← project_tls_files_are_current project ca_certificate_pem;
  if current : bool then mret tt
  else
    generated ← eff_lift (map_err DaemonPlatform (generate_project_certificate hostname ca_certificate_pem ca_private_key_pem));
    _ ← on_state_files (write_sensitive_file (project_tls_certificate paths (id project)) (certificate_pem generated +:+ ca_certificate_pem));
    on_state_files (write_sensitive_file (project_tls_private_key paths (id project)) (private_key_pem generated)).

(** [structured_log::project_tls_maintenance_failed]. *)
Definition log_tls_failure (project_id error : string) : act unit := λ s,
  (Ok tt, {| dm_db := dm_db s; dm_world := dm_world s; dm_ticks := dm_ticks s; dm_log := dm_log s ++ [(project_id, error)] |}).

Definition maintain_existing_project_tls_after_config_error (project : ProjectRecord) (required_by_config : bool) : act unit :=
  if negb (bool_decide (mode project = Served)) then mret tt
  else
    wanted ← (if required_by_config then mret true
              else present ← eff_try (project_tls_artifact_exists project);
                   mret (match present with Ok present => present | Err _ => false end));
    if negb wanted then mret tt
    else
      ensured ← eff_try (ensure_project_tls_files project);
      match ensured with Ok _ => mret tt | Err error => log_tls_failure (id project) (daemon_error_text error) end.

(** ** The PHP runtime *)

Definition manifest_is_cached : act bool := on_world (path_exists (join_path (pv_downloads paths) "manifest.json")).

Definition default_project_php_track : act string :=
  manifest ← cached_manifest paths parse_rfc3339 url_parse pkg_version json_parse;
  php ← resources_lift (resource_name_new "php");
  track ← resources_lift (resolve_track php Identity.Latest manifest);
  mret (track_name_str track).

Definition resolve_project_php_track (config_selector stored_selector global_selector : option string) : act string :=
  selector ← resources_lift (match config_selector with Some s => Some <$> track_selector_parse s | None => Ok None end);
  track ← (match selector with
           | Some Identity.Latest => match stored_selector with Some track => mret track | None => default_project_php_track end
           | Some (Track track) => mret (track_name_str track)
           | None =>
               match stored_selector with
               | Some track => mret track
               | None => match global_selector with Some track => mret track | None => default_project_php_track end
               end
           end);
  concrete ← resources_lift (concrete_track_name_new track);
  mret (track_name_str (Identity.concrete_track concrete)).

(** The first record that is installed and has an artifact. *)
Definition installed_php_release (track : string) : act (option HostFs.path) :=
  records ← read_db list_managed_resource_tracks;
  mret (head (omap (λ record,
    if bool_decide (tr_resource_name record = "php") && bool_decide (tr_track record = track)
       && bool_decide (tr_desired_state record = Installed) && option_bool (tr_installed_version record)
    then tree_path <$> tr_current_artifact_path record else None) records)).

Definition requested_extensions_of (php : option PhpConfig) : list string := from_option php_extensions [] php.

Definition resolve_project_php_runtime (project : ProjectRecord) (php : option PhpConfig) : act ResolvedPhpRuntime :=
  let selector := php ≫= php_version in
  global_selector ← read_db (λ d, Ok (read_global_php_default_track d));
  stored ← (if option_bool selector then mret true
            else cached ← manifest_is_cached; mret (negb cached && negb (option_bool global_selector)));
  let stored_selector := if stored : bool then desired_php_track project else None in
  track ← resolve_project_php_track selector stored_selector global_selector;
  let requested_extensions := requested_extensions_of php in
  release ← installed_php_release track;
  resolution ← (match release with
                | Some release => on_resources (resolve_php_extension_request sqlite_display time_format_error parse_modules release requested_extensions)
                | None => mret {| pr_requested := requested_extensions; pr_loaded := []; pr_ignored := requested_extensions |}
                end);
  let loaded_extensions := px_name <$> pr_loaded resolution in
  runtime_key ← state_lift (php_runtime_key track loaded_extensions);
  mret {| rp_track := track; rp_runtime_key := runtime_key; rp_requested_extensions := pr_requested resolution;
          rp_loaded_extensions := loaded_extensions; rp_ignored_extensions := pr_ignored resolution;
          rp_loaded_modules := pr_loaded resolution |}.

(** Nothing says that PHP is wanted. *)
Definition no_php_wanted (project : ProjectRecord) (php : option PhpConfig) : act bool :=
  if option_bool php || option_bool (desired_php_track project) then mret false
  else
    cached ← manifest_is_cached;
    if cached : bool then mret false else global ← read_db (λ d, Ok (read_global_php_default_track d)); mret (negb (option_bool global)).

Definition maybe_resolve_project_php_runtime (project : ProjectRecord) (php : option PhpConfig) (serves_http : bool) :
    act (option ResolvedPhpRuntime) :=
  if negb serves_http && negb (option_bool php) then mret None
  else
    nothing ← no_php_wanted project php;
    if nothing : bool then mret None else runtime ← resolve_project_php_runtime project php; mret (Some runtime).

Definition record_project_php_runtime_resource_requirements (runtime : ResolvedPhpRuntime) : act unit :=
  _ ← stamped now (record_managed_resource_track_desired "php" (rp_track runtime) Installed);
  _ ← stamped now (record_managed_resource_track_desired "frankenphp" (rp_track runtime) Installed);
  mret tt.

(** ** Before anything is done *)

Definition read_optional_project_env_file (project : ProjectRecord) (config : ProjectConfig) : act (option string) :=
  p ← on_config (resolve_project_env_file_path (path project) config);
  read_optional_file p.

Definition validate_project_config_and_plan (project : ProjectRecord) (config_file : ProjectConfigFile) : act ProjectResourcePlan :=
  let config := cf_config config_file in
  _ ← (if bool_decide (mode project = Served) && serve config then
         hostname ← eff_lift (served_project_hostname project);
         read_db (validate_project_hostnames (id project) hostname (ConfigModel.hostnames config))
       else mret tt);
  _ ← config_lift (validate_project_env_shape config);
  plan ← project_resource_plan paths parse_rfc3339 url_parse pkg_version json_parse project config;
  _ ← (if has_env_mappings config then
         existing_content ← read_optional_project_env_file project config;
         config_lift (validate_managed_env_block existing_content)
       else mret tt);
  mret plan.

Definition validate_project_config_for_gateway (project : ProjectRecord) (config_file : ProjectConfigFile) : act unit :=
  _ ← validate_project_config_and_plan project config_file; mret tt.

(** ** The end of a reconciliation *)

Definition reloaded_project (project_id : string) : act ProjectRecord :=
  found ← read_db (project_by_id project_id);
  eff_lift (ok_or found (DaemonState (ProjectNotFound project_id))).

Definition finalize_input (project : ProjectRecord) (config_file : ProjectConfigFile) (resolved : option ResolvedPhpRuntime)
    (status : ProjectEnvObservedStatus) (message : string) (warnings : list ProjectEnvObservedWarningInput) :
    ProjectReconciliationStateInput := {|
  rc_project_id := id project;
  rc_link := {| l_path := path project; l_original_path := original_path project;
    l_primary_hostname := default (slug project +:+ ".test") (StateProjects.primary_hostname project);
    l_config_path := cf_path config_file; l_desired_php_track := None;
    l_additional_hostnames := ConfigModel.hostnames (cf_config config_file) |};
  rc_mode := project_mode_for_config (cf_config config_file);
  rc_php_runtime := (λ runtime, {| rti_track := rp_track runtime; rti_requested_extensions := rp_requested_extensions runtime;
    rti_loaded_extensions := rp_loaded_extensions runtime; rti_ignored_extensions := rp_ignored_extensions runtime |}) <$> resolved;
  rc_env_status := status; rc_env_message := Some message; rc_env_warnings := warnings |}.

Definition finalize_project_reconciliation_state (project : ProjectRecord) (config_file : ProjectConfigFile)
    (resolved : option ResolvedPhpRuntime) (status : ProjectEnvObservedStatus) (message : string)
    (warnings : list ProjectEnvObservedWarningInput) : act ProjectRecord :=
  project ← reloaded_project (id project);
  now1 ← stamp now; now2 ← stamp now; now3 ← stamp now; now4 ← stamp now;
  on_db (finalize_project_reconciliation (finalize_input project config_file resolved status message warnings) now1 now2 now3 now4).

(** The status, message and summary of a success, by its warnings. *)
Definition finish (project : ProjectRecord) (config_file : ProjectConfigFile) (resolved : option ResolvedPhpRuntime)
    (requested : bool) (warnings : list ProjectEnvObservedWarningInput) (message warned_message summary warned_summary : string) :
    act ProjectEnvReconciliationSummary :=
  let clean := bool_decide (warnings = []) in
  _ ← finalize_project_reconciliation_state project config_file resolved (if clean then EnvRendered else EnvWarning)
        (if clean then message else warned_message) warnings;
  mret {| pe_message := if clean then summary else warned_summary; pe_requested_php_extensions := requested |}.

Definition finish_without_mappings (project : ProjectRecord) (config_file : ProjectConfigFile) (resolved : option ResolvedPhpRuntime)
    (requested : bool) (runtime_warnings : list ProjectEnvObservedWarningInput) : act ProjectEnvReconciliationSummary :=
  finish project config_file resolved requested runtime_warnings
    "no Project env mappings configured" "Project runtime has warnings"
    "Project env unchanged; no mappings configured" "Project env unchanged with warnings".

Definition render_and_finish (project candidate_project : ProjectRecord) (config_file : ProjectConfigFile) (plan : ProjectResourcePlan)
    (resolved : option ResolvedPhpRuntime) (requested : bool) (runtime_warnings : list ProjectEnvObservedWarningInput) :
    act ProjectEnvReconciliationSummary :=
  let config := cf_config config_file in
  context ← (λ s, (project_env_context_for_plan paths candidate_project config plan (dm_db s), s) : result DaemonError ProjectEnvContext * Daemon);
  rendered ← config_lift (render_project_env config context);
  env_file_path ← on_config (resolve_project_env_file_path (path candidate_project) config);
  transform ← on_config (write_project_env_file env_file_path rendered);
  finish project config_file resolved requested (observed_warnings (warnings transform) ++ runtime_warnings)
    "rendered Project env" "rendered Project env with warnings" "Project env rendered" "Project env rendered with warnings".

(** ** The reconciliation *)

(** What is done before the env is rendered. *)
Definition apply_plan_and_resources (candidate_project : ProjectRecord) (plan : ProjectResourcePlan) (resolved : option ResolvedPhpRuntime) : act unit :=
  _ ← (match resolved with Some runtime => record_project_php_runtime_resource_requirements runtime | None => mret tt end);
  _ ← apply_project_resource_plan now (id candidate_project) plan;
  reconcile_project_resources candidate_project plan.

Definition reconcile_checked_project (project candidate_project : ProjectRecord) (config_file : ProjectConfigFile) (plan : ProjectResourcePlan)
    (resolved : option ResolvedPhpRuntime) : act ProjectEnvReconciliationSummary :=
  let config := cf_config config_file in
  let serves_http := bool_decide (mode candidate_project = Served) in
  tls_maintenance ← (if serves_http && uses_tls_placeholders config
                     then ensured ← eff_try (ensure_project_tls_files candidate_project); mret (Some ensured)
                     else mret None);
  applied ← eff_try (apply_plan_and_resources candidate_project plan resolved);
  match applied, tls_maintenance with
  | Err error, Some (Err tls_error) => _ ← log_tls_failure (id candidate_project) (daemon_error_text tls_error); eff_fail error
  | Err error, _ => eff_fail error
  | Ok _, Some (Err error) => eff_fail error
  | Ok _, _ =>
      let runtime_warnings := from_option ignored_php_extension_warnings [] resolved in
      let requested := negb (bool_decide (requested_extensions_of (php config) = [])) in
      if negb (has_env_mappings config) then finish_without_mappings project config_file resolved requested runtime_warnings
      else render_and_finish project candidate_project config_file plan resolved requested runtime_warnings
  end.

Definition reconcile_loaded_project (project : ProjectRecord) : act ProjectEnvReconciliationSummary :=
  config_file ← eff_try (on_config (read_from_root yaml_from_str apply_merge (path project)));
  match config_file with
  | Err error => _ ← maintain_existing_project_tls_after_config_error project false; eff_fail error
  | Ok config_file =>
      let config := cf_config config_file in
      let candidate_project := project_with_config_mode project config in
      let serves_http := bool_decide (mode candidate_project = Served) in
      preflight ← eff_try (plan ← validate_project_config_and_plan candidate_project config_file;
                           resolved ← maybe_resolve_project_php_runtime candidate_project (php config) serves_http;
                           mret (plan, resolved));
      match preflight with
      | Err error => _ ← maintain_existing_project_tls_after_config_error project (uses_tls_placeholders config); eff_fail error
      | Ok (plan, resolved) => reconcile_checked_project project candidate_project config_file plan resolved
      end
  end.

Definition record_project_env_failure (project_id message : string) : act unit :=
  _ ← stamped now (record_project_env_observed_snapshot project_id EnvFailed (Some message) []); mret tt.

Definition reconcile_project_env (project_id : string) : act ProjectEnvReconciliationSummary :=
  project ← reloaded_project project_id;
  outcome ← eff_try (reconcile_loaded_project project);
  match outcome with
  | Ok summary => mret summary
  | Err error => _ ← record_project_env_failure (id project) (daemon_error_text error); eff_fail error
  end.
End reconcile.


(** ** The outcome of every reconciliation is recorded *)

(** [p] is a project of the database. *)
Definition has_project (p : string) (s : Daemon) : Prop := is_Some (projects (dm_db s) !! p).

(** What a success leaves: the state is [rendered], or [warning] with the warnings. *)
Definition success_recorded (p : string) (s : Daemon) : Prop := ∃ message ws at' d1,
  snapshot_taken p (if bool_decide (ws = []) then EnvRendered else EnvWarning) (Some message) ws at' d1 (dm_db s).

Lemma keeps_same_projects {A : Type} p (m : act A) :
  (∀ s, projects (dm_db (m s).2) = projects (dm_db s)) → keeps (has_project p) m.
Proof. intros Hm s Hs. specialize (Hm s). unfold has_project in *. destruct (m s) as [[a|e] s1]; cbn in Hm; by rewrite Hm. Qed.

Lemma keeps_part {F A : Type} p (f : F → DaemonError) (m : World → result F A * World) : keeps (has_project p) (on_part world_part f m).
Proof. apply keeps_same_projects. intros s. unfold on_part. by destruct (m _) as [r w]. Qed.
Lemma keeps_read {A : Type} p (f : Db → result StateError A) : keeps (has_project p) (read_db f).
Proof. by apply keeps_same_projects. Qed.
Lemma keeps_stamped {A : Type} p now (m : string → Op A) : (∀ at' d, projects (m at' d).2 = projects d) → keeps (has_project p) (stamped now m).
Proof.
  intros Hm. apply keeps_same_projects. intros s. unfold stamped, mbind, eff_bind, stamp, on_db, on_part. cbn.
  specialize (Hm (now (dm_ticks s)) (dm_db s)). by destruct (m _ _) as [r d'].
Qed.
Lemma keeps_log p i e : keeps (has_project p) (log_tls_failure i e).
Proof. by apply keeps_same_projects. Qed.
(** One step of a proof that a computation keeps the project. *)
Ltac keeps_step :=
  match goal with
  | |- keeps _ (stamped _ _) => apply keeps_stamped; intros ? ?
  | |- keeps _ (if ?b then _ else _) => destruct b
  | |- keeps _ (match ?x with _ => _ end) => destruct x
  | |- keeps _ (eff_iter _ _) => apply keeps_iter; intros ? _
  | |- keeps _ (eff_try _) => apply keeps_try
  | |- keeps _ (_ ≫= _) => apply keeps_bind; [|intros ?]
  | |- keeps _ (on_part _ _ _) => apply keeps_part
  | |- keeps _ (read_db _) => apply keeps_read
  | |- keeps _ (eff_lift _) => apply keeps_lift
  | |- keeps _ (mret _) => apply keeps_ret
  | |- keeps _ (eff_fail _) => apply keeps_fail
  | |- keeps _ (log_tls_failure _ _) => apply keeps_log
  end.
Ltac keeps_project := repeat (cbn zeta; keeps_step).

Section recorded.
Context `{Host} `{Json} (paths : PvPaths) (now : nat → string).
Context (parse_rfc3339 : string → option Z) (url_parse : string → option ParsedUrl) (pkg_version : string).
Context (json_parse : string → result string RawManifest) (parse_modules : string → result string (list RawPhpExtensionModule)).
Context (yaml_from_str : string → result string yaml) (apply_merge : yaml → result string yaml).
Context (sqlite_display : SqliteError → string) (time_format_error : string).
Context (generate_project_certificate : string → string → string → result string GeneratedCertificate).
Context (project_certificate_matches : string → string → string → string → bool).
Context (reconcile_project_resources : ProjectRecord → ProjectResourcePlan → act unit).
Context (daemon_error_text : DaemonError → string) (p : string).

(** Reconciling the resources does not unlink projects. *)
Hypothesis resources_keep : ∀ project plan, keeps (has_project p) (reconcile_project_resources project plan).

Let ensure_tls := ensure_project_tls_files paths generate_project_certificate project_certificate_matches.
Let maintain_tls := maintain_existing_project_tls_after_config_error paths generate_project_certificate project_certificate_matches daemon_error_text.
Let loaded := reconcile_loaded_project paths now parse_rfc3339 url_parse pkg_version json_parse parse_modules yaml_from_str apply_merge
  sqlite_display time_format_error generate_project_certificate project_certificate_matches reconcile_project_resources daemon_error_text.
Let checked := reconcile_checked_project paths now generate_project_certificate project_certificate_matches reconcile_project_resources daemon_error_text.

Lemma tls_keeps project : keeps (has_project p) (ensure_tls project).
Proof. unfold ensure_tls, ensure_project_tls_files, project_tls_files_are_current, read_optional_file, on_state_files. keeps_project. Qed.
Lemma maintain_keeps project required : keeps (has_project p) (maintain_tls project required).
Proof.
  unfold maintain_tls, maintain_existing_project_tls_after_config_error, project_tls_artifact_exists, on_state_files.
  keeps_project. apply tls_keeps.
Qed.
Lemma validate_keeps project config_file :
  keeps (has_project p) (validate_project_config_and_plan paths parse_rfc3339 url_parse pkg_version json_parse project config_file).
Proof.
  unfold validate_project_config_and_plan, read_optional_project_env_file, read_optional_file, project_resource_plan, on_config, on_state_files, config_lift.
  keeps_project. apply keeps_same_projects. intros s. f_equal. apply plan_all_reads.
Qed.
Lemma runtime_keeps project php serves_http : keeps (has_project p) (maybe_resolve_project_php_runtime paths parse_rfc3339 url_parse pkg_version
  json_parse parse_modules sqlite_display time_format_error project php serves_http).
Proof.
  unfold maybe_resolve_project_php_runtime, no_php_wanted, resolve_project_php_runtime, resolve_project_php_track, installed_php_release,
    default_project_php_track, cached_manifest, manifest_is_cached, on_world, on_resources, resources_lift, state_lift. keeps_project.
Qed.
Lemma apply_keeps candidate plan resolved : keeps (has_project p) (apply_plan_and_resources now reconcile_project_resources candidate plan resolved).
Proof.
  unfold apply_plan_and_resources, record_project_php_runtime_resource_requirements, apply_project_resource_plan, replace_allocations.
  keeps_project; first [apply resources_keep|apply track_desired_projects|apply requirements_projects|apply allocations_projects].
Qed.

(** Finishing records the state; if it fails, nothing of the database changed. *)
Lemma finish_spec project config_file resolved requested ws message warned_message summary warned_summary : id project = p →
  spec (has_project p) (finish now project config_file resolved requested ws message warned_message summary warned_summary)
    (λ _, success_recorded p) (λ _, has_project p).
Proof.
  intros Hid. unfold finish, finalize_project_reconciliation_state. eapply (spec_bind _ _ _ (λ _, success_recorded p)); [|by intros r s Hs].
  apply (spec_bind _ _ _ (λ r s, id r = p ∧ has_project p s)).
  { intros s Hs. unfold reloaded_project, mbind, eff_bind, read_db, eff_lift. rewrite Hid. cbn.
    destruct (project_by_id p (dm_db s)) as [[r|]|e] eqn:Hr; [|done..]. by apply read_id in Hr as [Hr _]. }
  intros r. apply spec_pure. intros Hr s Hs. unfold mbind, eff_bind, stamp, on_db, on_part. cbn.
  match goal with |- context [finalize_project_reconciliation ?i ?a ?b ?c ?e ?d] =>
    pose proof (finalize_ok i a b c e d) as Hok; pose proof (transact_err (A := ProjectRecord)) as Herr;
    destruct (finalize_project_reconciliation i a b c e d) as [[project'|err] d'] eqn:Hf end.
  - destruct (Hok project' d' eq_refl) as (d1 & Ht & _). cbn in Ht. rewrite Hr in Ht. unfold success_recorded. cbn.
    eexists _, ws, _, d1. exact Ht.
  - unfold finalize_project_reconciliation in Hf. apply transact_err in Hf as ->. exact Hs.
Qed.

Lemma render_and_finish_spec project candidate config_file plan resolved requested ws : id project = p →
  spec (has_project p) (render_and_finish paths now project candidate config_file plan resolved requested ws)
    (λ _, success_recorded p) (λ _, has_project p).
Proof.
  intros Hid. unfold render_and_finish.
  eapply (spec_bind _ _ _ (λ _, has_project p)); [by apply keeps_same_projects|intros context].
  eapply (spec_bind _ _ _ (λ _, has_project p)); [apply keeps_lift|intros rendered].
  eapply (spec_bind _ _ _ (λ _, has_project p)); [apply keeps_part|intros file].
  eapply (spec_bind _ _ _ (λ _, has_project p)); [apply keeps_part|intros transform]. by apply finish_spec.
Qed.

Lemma checked_spec project candidate config_file plan resolved : id project = p →
  spec (has_project p) (checked project candidate config_file plan resolved) (λ _, success_recorded p) (λ _, has_project p).
Proof.
  intros Hid. unfold checked, reconcile_checked_project.
  eapply (spec_bind _ _ _ (λ _, has_project p)).
  { destruct (_ && _); [|apply keeps_ret]. apply keeps_bind; [apply keeps_try, tls_keeps|intros ?; apply keeps_ret]. }
  intros tls. eapply (spec_bind _ _ _ (λ _, has_project p)); [apply keeps_try, apply_keeps|].
  assert (∀ e : DaemonError, spec (has_project p) (eff_fail e : act ProjectEnvReconciliationSummary) (λ _, success_recorded p) (λ _, has_project p)) as Hfail
    by (by intros e s Hs).
  intros [[]|e]; destruct tls as [[[]|tls_error]|]; cbn beta iota zeta; try apply Hfail.
  3: eapply (spec_bind _ _ _ (λ _, has_project p)); [apply keeps_log|intros _; apply Hfail].
  all: destruct (negb _); [by apply finish_spec|by apply render_and_finish_spec].
Qed.

Lemma loaded_spec project : id project = p →
  spec (has_project p) (loaded project) (λ _, success_recorded p) (λ _, has_project p).
Proof.
  intros Hid. unfold loaded, reconcile_loaded_project.
  assert (∀ (m : act unit) (e : DaemonError), keeps (has_project p) m → spec (has_project p) ((_ ← m; eff_fail e) : act ProjectEnvReconciliationSummary)
    (λ _, success_recorded p) (λ _, has_project p)) as Hfail.
  { intros m e Hm. eapply (spec_bind _ _ _ (λ _, has_project p)); [exact Hm|by intros _ s Hs]. }
  eapply (spec_bind _ _ _ (λ _, has_project p)); [apply keeps_try, keeps_part|].
  intros [config_file|e]; [|apply Hfail, maintain_keeps]. cbn zeta.
  eapply (spec_bind _ _ _ (λ _, has_project p)).
  { apply keeps_try, keeps_bind; [apply validate_keeps|intros plan]. apply keeps_bind; [apply runtime_keeps|intros resolved; apply keeps_ret]. }
  intros [[plan resolved]|e]; [by apply checked_spec|apply Hfail, maintain_keeps].
Qed.
End recorded.

(** ** The env file of a reconciled project *)

(** The env was rendered from the context in [sr], and of its files only the env file changed; the
    user's lines assign the [keys] too. *)
Definition env_file_written `{Host} `{Json} (paths : PvPaths) (candidate : ProjectRecord) (config : ProjectConfig) (plan : ProjectResourcePlan)
    (keys : list string) (sr s' : Daemon) : Prop := ∃ cx rendered dir name lines,
  project_env_context_for_plan paths candidate config plan (dm_db sr) = Ok cx
  ∧ render_project_env config cx = Ok rendered
  ∧ let file := dir ++ [name] in
    let before := default "" (text_at file (files (dm_world sr))) in
    let after := default "" (text_at file (files (dm_world s'))) in
    env_file_confined (path candidate) file (files (dm_world sr))
    ∧ text_lines before lines ∧ block_rewritten rendered before lines after ∧ duplicate_keys rendered lines keys
    ∧ others (beside file) (files (dm_world sr)) (files (dm_world s')).

(** What is done with the database only. *)
Lemma finish_world `{Json} now project config_file resolved requested ws message warned_message summary warned_summary s :
  dm_world (finish now project config_file resolved requested ws message warned_message summary warned_summary s).2 = dm_world s.
Proof.
  unfold finish, finalize_project_reconciliation_state, reloaded_project, mbind, eff_bind, read_db, eff_lift, stamp, on_db, on_part.
  destruct (project_by_id _ _) as [[r|]|e]; cbn; try done. by destruct (finalize_project_reconciliation _ _ _ _ _ _) as [[r'|e] d'].
Qed.

Lemma unchanged_content existing rendered t : transform_managed_env_block existing rendered = Ok t → changed t = false → content t = default "" existing.
Proof.
  unfold transform_managed_env_block. intros Ht Hc. inv_ok. destruct (_ && _); inv_ok; [done|]. cbn in *.
  by apply negb_false_iff, bool_decide_eq_true in Hc.
Qed.

(** A step that recorded how the env is: the row and the warnings of [p], as pairs of kind and message. *)
Definition env_state_is (p status : string) (message : option string) (ws : list (string * string)) (d : Db) : Prop :=
  (∃ at', observed_states d !! env_key p = Some {| o_status := status; o_message := message; o_observed_at := at' |})
  ∧ ∀ k m, is_Some (project_env_observed_warnings d !! (p, k, m)) ↔ (k, m) ∈ ws.

Lemma snapshot_state p status message ws now d d' : snapshot_taken p status message ws now d d' →
  env_state_is p (as_str status) message (warning_pairs ws) d'.
Proof. intros Ht. split; [eexists; apply Ht|apply Ht]. Qed.

Lemma finish_state `{Json} now project config_file resolved requested ws message warned_message summary warned_summary s r s' :
  finish now project config_file resolved requested ws message warned_message summary warned_summary s = (Ok r, s') →
  dm_world s' = dm_world s
  ∧ ∃ text, env_state_is (id project) (if bool_decide (ws = []) then "rendered" else "warning") (Some text) (warning_pairs ws) (dm_db s').
Proof.
  intros Hr. split; [by rewrite <-(finish_world now project config_file resolved requested ws message warned_message summary warned_summary s), Hr|].
  unfold finish, finalize_project_reconciliation_state in Hr.
  apply eff_bind_ok in Hr as (project' & s1 & (found & s2 & Hfound & Hr)%eff_bind_ok & Hret). injection Hret as _ <-.
  unfold reloaded_project in Hfound. apply eff_bind_ok in Hfound as (row & s3 & Hrow & Hlift). unfold read_db in Hrow.
  injection Hrow as Hrow <-. injection Hlift as Hlift <-. destruct row as [row|]; [|done]. injection Hlift as ->.
  destruct (project_by_id (id project) (dm_db s)) as [row|] eqn:Hread; [|done]. injection Hrow as ->.
  apply read_id in Hread as [Hid _]. revert Hr. unfold mbind, eff_bind, stamp, on_db, on_part. cbn.
  match goal with |- context [finalize_project_reconciliation ?i ?a ?b ?c ?e ?d] =>
    pose proof (finalize_ok i a b c e d) as Hok; destruct (finalize_project_reconciliation i a b c e d) as [[x|err] d'] eqn:Hf end; [|done].
  intros [= _ <-]. destruct (Hok x d' eq_refl) as (d1 & Ht & _). apply snapshot_state in Ht. cbn in Ht. rewrite Hid in Ht.
  revert Ht. destruct (bool_decide (ws = [])); intros Ht; eexists; exact Ht.
Qed.

(** The messages of the warnings. *)
Definition warning_texts (keys ignored : list string) : list (string * string) :=
  ((λ key, ("duplicate_key", "generated Project env key `" +:+ key +:+ "` already exists outside the PV-managed block")) <$> keys)
  ++ ((λ extension, ("ignored_php_extension", "ignored unsupported PHP extension `" +:+ extension +:+ "`")) <$> ignored).
Definition ignored_extensions (resolved : option ResolvedPhpRuntime) : list string := from_option rp_ignored_extensions [] resolved.

Lemma warning_pairs_eq keys resolved :
  warning_pairs (observed_warnings (DuplicateExistingKey <$> keys) ++ from_option ignored_php_extension_warnings [] resolved)
  = warning_texts keys (ignored_extensions resolved).
Proof.
  unfold warning_pairs, warning_texts. rewrite fmap_app. f_equal.
  - unfold observed_warnings. rewrite <-!list_fmap_compose. apply list_fmap_ext. intros i key _. cbn. unfold tick. by rewrite <-!str_app_assoc.
  - destruct resolved as [runtime|]; [|done]. cbn. unfold ignored_php_extension_warnings. rewrite <-list_fmap_compose. by apply list_fmap_ext.
Qed.

(** How a success shows: the warnings are there, and the status says whether there are any. *)
Definition success_shown (p : string) (keys ignored : list string) (d : Db) : Prop := ∃ text,
  env_state_is p (if bool_decide (keys ++ ignored = []) then "rendered" else "warning") (Some text) (warning_texts keys ignored) d.

Lemma success_shown_by `{Json} now project config_file resolved requested keys message warned_message summary warned_summary s r s' :
  finish now project config_file resolved requested
    (observed_warnings (DuplicateExistingKey <$> keys) ++ from_option ignored_php_extension_warnings [] resolved)
    message warned_message summary warned_summary s = (Ok r, s') →
  dm_world s' = dm_world s ∧ success_shown (id project) keys (ignored_extensions resolved) (dm_db s').
Proof.
  intros Hr. apply finish_state in Hr as [Hw [text Hs]]. split; [done|]. exists text. rewrite warning_pairs_eq in Hs.
  assert (bool_decide (observed_warnings (DuplicateExistingKey <$> keys) ++ from_option ignored_php_extension_warnings [] resolved = [])
    = bool_decide (keys ++ ignored_extensions resolved = [])) as Hb; [|by rewrite <-Hb].
  destruct keys, resolved as [[? ? ? ? [] ?]|]; by apply bool_decide_ext.
Qed.

Lemma render_writes `{Host} `{Json} paths now project candidate config_file plan resolved requested sr summary s' :
  config_wf (cf_config config_file) →
  render_and_finish paths now project candidate config_file plan resolved requested
    (from_option ignored_php_extension_warnings [] resolved) sr = (Ok summary, s') →
  ∃ keys, env_file_written paths candidate (cf_config config_file) plan keys sr s'
    ∧ success_shown (id project) keys (ignored_extensions resolved) (dm_db s').
Proof.
  intros Hwf. unfold render_and_finish. cbn zeta.
  intros (cx & s1 & [= Hcx <-] & (rendered & s2 & [= Hr <-] & (file & s3 & Hf & (t & s4 & Ht & Hfin)%eff_bind_ok)%eff_bind_ok)%eff_bind_ok)%eff_bind_ok.
  inv_ok. unfold on_config, on_part in Hf, Ht. cbn in Hf, Ht.
  destruct (resolve_reads (path candidate) (cf_config config_file) (dm_world sr)) as [Hsame Hconf].
  destruct (resolve_project_env_file_path _ _ _) as [[p|e] w3]; [|done]. injection Hf as -> <-. cbn in Hsame, Hconf, Ht.
  specialize (Hconf file eq_refl). destruct Hconf as ((dir & name & ->) & Habs & Hconf).
  pose proof (write_env_hoare dir name rendered (files (dm_world sr)) Habs w3 Hsame) as Hwrite. cbn zeta in Hwrite.
  destruct (write_project_env_file _ _ w3) as [[t'|e] w4]; [|done]. injection Ht as -> <-. destruct Hwrite as [Htr Hwrite].
  assert (default "" (text_at (dir ++ [name]) (files w4)) = content t ∧ others (beside (dir ++ [name])) (files (dm_world sr)) (files w4)) as [Hafter Hoth].
  { destruct (changed t) eqn:Hc.
    - destruct Hwrite as [Hfile Hoth]. split; [|done]. unfold text_at. by rewrite Hfile.
    - rewrite Hwrite. split; [|done]. by rewrite (unchanged_content _ _ _ Htr Hc). }
  pose proof (text_lines_split (default "" (text_at (dir ++ [name]) (files (dm_world sr))))) as Hlines.
  destruct (transform_warnings _ _ _ _ Hlines Htr) as (keys & Hkeys & Hdup). rewrite Hkeys in Hfin.
  apply success_shown_by in Hfin as [Hw Hshown]. cbn in Hw. exists keys. split; [|done].
  eexists cx, rendered, dir, name, _. rewrite Hw. do 2 (split; [done|]). cbn zeta.
  split; [split; [by exists dir, name|done]|]. split; [exact Hlines|]. rewrite Hafter. split; [|by split].
  apply (transform_text _ _ _ _); [by eapply rendered_keys_ok|exact Hlines|exact Htr].
Qed.

(** *** What a success went through *)

Section success.
Context `{Host} `{Json} (paths : PvPaths) (now : nat → string).
Context (parse_rfc3339 : string → option Z) (url_parse : string → option ParsedUrl) (pkg_version : string).
Context (json_parse : string → result string RawManifest) (parse_modules : string → result string (list RawPhpExtensionModule)).
Context (yaml_from_str : string → result string yaml) (apply_merge : yaml → result string yaml).
Context (sqlite_display : SqliteError → string) (time_format_error : string).
Context (generate_project_certificate : string → string → string → result string GeneratedCertificate).
Context (project_certificate_matches : string → string → string → string → bool).
Context (reconcile_project_resources : ProjectRecord → ProjectResourcePlan → act unit).
Context (daemon_error_text : DaemonError → string).

Let resolve_runtime := maybe_resolve_project_php_runtime paths parse_rfc3339 url_parse pkg_version json_parse parse_modules
  sqlite_display time_format_error.
Let make_plan := project_resource_plan paths parse_rfc3339 url_parse pkg_version json_parse.

(** The config was read, the plan made and the runtime resolved on the database of before; then the
    plan was applied and its resources reconciled, which left [sr]. *)
Definition prepared (s : Daemon) (project : ProjectRecord) (config_file : ProjectConfigFile) (plan : ProjectResourcePlan)
    (resolved : option ResolvedPhpRuntime) (sr : Daemon) : Prop :=
  let config := cf_config config_file in
  let candidate := project_with_config_mode project config in
  ∃ s1 s2 s3 s4 s5 s6,
    on_config (read_from_root yaml_from_str apply_merge (path project)) s = (Ok config_file, s1)
    ∧ make_plan candidate config s1 = (Ok plan, s2)
    ∧ (dm_db s3 = dm_db s ∧ resolve_runtime candidate (php config) (bool_decide (mode candidate = Served)) s3 = (Ok resolved, s4))
    ∧ apply_project_resource_plan now (id candidate) plan s5 = (Ok tt, s6)
    ∧ reconcile_project_resources candidate plan s6 = (Ok tt, sr).

(** What it left, when it ended well. *)
Definition ended_well (project : ProjectRecord) (config_file : ProjectConfigFile) (plan : ProjectResourcePlan)
    (resolved : option ResolvedPhpRuntime) (sr s' : Daemon) : Prop :=
  let config := cf_config config_file in
  let candidate := project_with_config_mode project config in
  ∃ keys, success_shown (id project) keys (ignored_extensions resolved) (dm_db s')
    ∧ if has_env_mappings config then env_file_written paths candidate config plan keys sr s'
      else keys = [] ∧ dm_world s' = dm_world sr.

Lemma checked_ends project candidate config_file plan resolved s summary s' :
  config_wf (cf_config config_file) → candidate = project_with_config_mode project (cf_config config_file) →
  reconcile_checked_project paths now generate_project_certificate project_certificate_matches reconcile_project_resources
    daemon_error_text project candidate config_file plan resolved s = (Ok summary, s') →
  ∃ s5 s6 sr, apply_project_resource_plan now (id candidate) plan s5 = (Ok tt, s6)
    ∧ reconcile_project_resources candidate plan s6 = (Ok tt, sr) ∧ ended_well project config_file plan resolved sr s'.
Proof.
  intros Hwf Hcand. unfold reconcile_checked_project. intros (tls & s1 & _ & (applied & sr & Happly & Hrest)%eff_try_ok)%eff_bind_ok.
  destruct applied as [[]|e].
  2:{ destruct tls as [[[]|tls_error]|]; discriminate Hrest. }
  unfold apply_plan_and_resources in Happly. apply eff_bind_ok in Happly as (u & s2 & _ & ([] & s3 & Hap & Hres)%eff_bind_ok).
  exists s2, s3, sr. split; [exact Hap|]. split; [exact Hres|]. unfold ended_well. cbn zeta. rewrite <-Hcand.
  destruct (has_env_mappings (cf_config config_file)); cbn [negb] in Hrest.
  - destruct tls as [[[]|tls_error]|]; [|discriminate Hrest|];
      apply render_writes in Hrest as (keys & ? & ?); try done; by exists keys.
  - destruct tls as [[[]|tls_error]|]; [|discriminate Hrest|];
      apply (success_shown_by _ _ _ _ _ []) in Hrest as [Hw Hs]; by exists [].
Qed.

Lemma validated_plan candidate config_file s plan s' :
  validate_project_config_and_plan paths parse_rfc3339 url_parse pkg_version json_parse candidate config_file s = (Ok plan, s') →
  (∃ s2, make_plan candidate (cf_config config_file) s = (Ok plan, s2)) ∧ dm_db s' = dm_db s.
Proof.
  unfold validate_project_config_and_plan. intros (u & s1 & Hu & (u' & s2 & Hu' & (plan' & s3 & Hp & (u'' & s4 & Hu'' & Hret)%eff_bind_ok)%eff_bind_ok)%eff_bind_ok)%eff_bind_ok.
  injection Hret as -> <-. injection Hu' as _ <-.
  assert (s1 = s) as ->.
  { destruct (_ && _); [|by injection Hu as _ <-]. apply eff_bind_ok in Hu as (h & s5 & Hh & Hr). injection Hh as _ <-. by injection Hr as _ <-. }
  split; [by exists s3|]. transitivity (dm_db s3).
  - destruct (has_env_mappings _); [|by injection Hu'' as _ <-].
    unfold read_optional_project_env_file, read_optional_file, on_config, on_state_files, config_lift, on_part in Hu''.
    apply eff_bind_ok in Hu'' as (c & s5 & (f & s6 & Hf & Hc)%eff_bind_ok & Hl). injection Hl as _ <-. cbn in Hf, Hc.
    destruct (resolve_project_env_file_path _ _ _) as [r w]. injection Hf as _ <-. cbn in Hc.
    destruct (or_missing _ _ _) as [r' w']. by injection Hc as _ <-.
  - unfold project_resource_plan in Hp. apply eff_bind_ok in Hp as (existing & s5 & Hex & Hp). injection Hex as _ <-.
    pose proof (plan_all_reads paths parse_rfc3339 url_parse pkg_version json_parse candidate (track_map existing) (btree_iter (resources (cf_config config_file))) s) as Hr.
    cbn zeta in Hr. by rewrite Hp in Hr.
Qed.

Lemma reconciled_ok p s summary s' :
  reconcile_project_env paths now parse_rfc3339 url_parse pkg_version json_parse parse_modules
    yaml_from_str apply_merge sqlite_display time_format_error generate_project_certificate project_certificate_matches
    reconcile_project_resources daemon_error_text p s = (Ok summary, s') →
  ∃ project config_file plan resolved sr, project_by_id p (dm_db s) = Ok (Some project)
    ∧ prepared s project config_file plan resolved sr ∧ ended_well project config_file plan resolved sr s'.
Proof.
  intros Hr. unfold reconcile_project_env in Hr. apply eff_bind_ok in Hr as (project & s1 & Hp & (outcome & s2 & Hl & Hout)%eff_try_ok).
  unfold reloaded_project in Hp. apply eff_bind_ok in Hp as (found & s3 & Hfound & Hp). unfold read_db in Hfound.
  injection Hfound as Hfound <-. injection Hp as Hp <-. destruct found as [found|]; [|done]. injection Hp as ->. inv_ok.
  destruct outcome as [summary'|e]; [|by apply eff_bind_ok in Hout as (? & ? & _ & ?)]. injection Hout as -> <-. exists project.
  unfold reconcile_loaded_project in Hl. apply eff_try_ok in Hl as (read & s1 & Hread & Hrest).
  pose proof Hread as Hread'. unfold on_config, on_part in Hread'. cbn in Hread'.
  pose proof (read_config_wf yaml_from_str apply_merge (path project) (dm_world s)) as Hwf.
  destruct (read_from_root _ _ _ (dm_world s)) as [[config_file|e] w1]; injection Hread' as <- <-; cbn [map_err] in *.
  2:{ by apply eff_bind_ok in Hrest as (? & ? & _ & ?). }
  specialize (Hwf _ _ eq_refl). cbn zeta in *.
  apply eff_try_ok in Hrest as ([[plan resolved]|e] & s4 & Hpre & Hrest); [|by apply eff_bind_ok in Hrest as (? & ? & _ & ?)].
  apply eff_bind_ok in Hpre as (plan' & s5 & [[s6 Hplan] Hdb]%validated_plan & (resolved' & s7 & Hres & Hret)%eff_bind_ok).
  injection Hret as -> -> <-. apply checked_ends in Hrest as (s8 & s9 & sr & Happly & Hresources & Hend); [|done..].
  exists config_file, plan, resolved, sr. split; [done|]. split; [|done].
  eexists _, s6, s5, _, s8, s9. split; [exact Hread|]. split; [exact Hplan|]. split; [split; [by rewrite Hdb|exact Hres]|]. by split.
Qed.
End success.


(** C10: What a successful reconciliation of a project leaves in its env file. If its config
    has env mappings, then, after the plan made of the config was applied and the resources it
    planned were reconciled, the env was rendered from the context of that plan, and the env file,
    which is inside the project, ends with PV's block for it in place: the user's own lines, as a
    reader of the text before sees them, are all there in their order, around the block, and no
    file other than the env file (and its temporary) was touched since. Without env mappings
    nothing is written. *)
Theorem reconcile_project_env_writes `{Host} `{Json} paths now parse_rfc3339 url_parse pkg_version json_parse parse_modules
    yaml_from_str apply_merge sqlite_display time_format_error generate_project_certificate project_certificate_matches
    reconcile_project_resources daemon_error_text p s :
  let '(r, s') := reconcile_project_env paths now parse_rfc3339 url_parse pkg_version json_parse parse_modules
    yaml_from_str apply_merge sqlite_display time_format_error generate_project_certificate project_certificate_matches
    reconcile_project_resources daemon_error_text p s in
  match r with Err _ => True | Ok _ => ∃ project config_file plan resolved sr, project_by_id p (dm_db s) = Ok (Some project)
    ∧ prepared paths now parse_rfc3339 url_parse pkg_version json_parse parse_modules
    yaml_from_str apply_merge sqlite_display time_format_error reconcile_project_resources s project config_file plan resolved sr
    ∧ let config := cf_config config_file in let candidate := project_with_config_mode project config in
      if has_env_mappings config then ∃ keys, env_file_written paths candidate config plan keys sr s' else dm_world s' = dm_world sr
  end.
Proof.
  destruct (reconcile_project_env _ _ _ _ _ _ _ _ _ _ _ _ _ _ _ _ s) as [[summary|e] s'] eqn:Hr; [|done].
  apply reconciled_ok in Hr as (project & config_file & plan & resolved & sr & Hp & Hprep & keys & _ & Hfile).
  exists project, config_file, plan, resolved, sr. do 2 (split; [done|]). cbn zeta.
  destruct (has_env_mappings _); [by exists keys|by destruct Hfile].
Qed.

(** *** A project whose directory is gone *)

Definition shop_reconcile `{Host} (p : string) : act ProjectEnvReconciliationSummary :=
  reconcile_project_env (for_home ["home"]) shop_now sample_rfc3339 sample_url_parse "1.0.0" sample_json_parse (λ _, Ok []) (λ _, Err "")
    (λ _, Err "") (λ _, "") "" (λ _ _ _, Err "") (λ _ _ _ _, false) (λ _ _, mret tt) (λ _, "cannot reconcile") p.

Lemma shop_reconcile_fails : is_ok (shop_reconcile (H := faulty_host None) "p1" shop_daemon).1 = false.
Proof. by vm_compute. Qed.
Lemma shop_project_read : is_ok (project_by_id "p1" (dm_db shop_daemon)) = true
  ∧ match project_by_id "p1" (dm_db shop_daemon) with Ok (Some _) => True | _ => False end.
Proof. by vm_compute. Qed.


(** A project with one mapping: its env file is written beside the user's lines. *)
Definition srv_world : World := {|
  files := list_to_map [(["srv"], Dir); (["srv"; "acme"], Dir); (["srv"; "acme"; "pv.yml"], File "env: ..");
                        (["srv"; "acme"; ".env"], File ("MINE=1" +:+ newline))];
  clock := 0; counter := 0 |}.
Definition srv_daemon : Daemon := {| dm_db := sample_db; dm_world := srv_world; dm_ticks := 0; dm_log := [] |}.
Definition srv_yaml : yaml := YMapping [(YString "env", YMapping [(YString "APP_NAME", YString "acme")])].
Definition srv_reconcile `{Host} (p : string) : act ProjectEnvReconciliationSummary :=
  reconcile_project_env (for_home ["home"]) shop_now sample_rfc3339 sample_url_parse "1.0.0" sample_json_parse (λ _, Ok []) (λ _, Ok srv_yaml)
    Ok (λ _, "") "" (λ _ _ _, Err "") (λ _ _ _ _, false) (λ _ _, mret tt) (λ _, "cannot reconcile") p.

Example srv_reconciled :
  let '(r, s') := srv_reconcile (H := faulty_host None) "p1" srv_daemon in
  (pe_message <$> r, o_status <$> observed_states (dm_db s') !! env_key "p1", text_at ["srv"; "acme"; ".env"] (files (dm_world s')))
  = (Ok "Project env rendered", Some "rendered",
     Some (join_env_lines ["MINE=1"; "# >>> PV MANAGED"; "APP_NAME=acme"; "# <<< PV MANAGED"])).
Proof. by vm_compute. Qed.

(** A project that wants PHP extensions before PHP is installed. *)
Definition php_yaml (extensions : list string) : yaml := YMapping [(YString "php", YMapping [(YString "version", YString "8.4");
  (YString "extensions", YSequence (YString <$> extensions))])].
Definition php_reconcile `{Host} (extensions : list string) : act ProjectEnvReconciliationSummary :=
  reconcile_project_env (for_home ["home"]) shop_now sample_rfc3339 sample_url_parse "1.0.0" sample_json_parse (λ _, Ok [])
    (λ _, Ok (php_yaml extensions)) Ok (λ _, "") "" (λ _ _ _, Err "") (λ _ _ _ _, false) (λ _ _, mret tt)
    (λ e, match e with DaemonState (InvalidProjectEnvObservedWarning kind value) => kind +:+ " " +:+ value | _ => "other" end) "p1".
Definition env_outcome (extensions : list string) : option string * option string :=
  let s' := (php_reconcile (H := faulty_host None) extensions srv_daemon).2 in
  let row := observed_states (dm_db s') !! env_key "p1" in (o_status <$> row, row ≫= o_message).

(** The same unsupported extension twice: harmless once PHP is installed, but before that every
    requested extension is reported as ignored, as often as it is requested, and the warnings
    are refused. *)
Example repeated_extension_fails_before_install :
  env_outcome ["redis"] = (Some "warning", Some "Project runtime has warnings")
  ∧ env_outcome ["redis"; "redis"]
    = (Some "failed", Some "warning ignored_php_extension:ignored unsupported PHP extension `redis`").
Proof. by vm_compute. Qed.
