(* ===== verification/GatewayPlan.v ===== *)
(** * What the gateway and the PHP workers are to run ([daemon/src/gateway.rs], planning)

    The plan is made from the database and the projects' configurations: one worker per
    PHP runtime, with the projects that it serves. It is computed in the daemon's state
    ([ProjectPlan]), because on the way ports are assigned and the projects whose
    configuration is refused are recorded as failed.

    Parameters: those of [ProjectReconcile], which ports are free (that depends on when it
    is asked), and SHA-256. *)

From stdpp Require Import pretty.
From S2P Require Import Prelude RustStr Paths Identity Manifest HostFs StateFs StatePaths ResourceCache PhpRuntimes.
From S2P Require Import StateTypes StateDb StatePorts StateResources StateObserved StateProjects Effects Errors.
From S2P Require Import ConfigModel ConfigParser ConfigFiles ProjectPlan ProjectReconcile.

(** ** The plan *)

Record GatewayRuntimePlan := {
  gp_http_port : Z;
  gp_https_port : Z;
  gp_ca_certificate_path : HostFs.path;
  gp_ca_private_key_path : HostFs.path;
  gp_storage_path : HostFs.path;
}.

Record RuntimeProject := {
  rj_id : string;
  rj_render_config : bool;
  rj_primary_hostname : string;
  rj_hostnames : list string;
  rj_project_root : HostFs.path;
  rj_document_root : HostFs.path;
}.

Record PhpWorkerRuntimePlan := {
  pw_php_track : string;
  pw_runtime_key : string;
  pw_loaded_modules : list PhpExtensionModule;
  pw_port : Z;
  pw_projects : list RuntimeProject;
}.

Record RuntimePlan := { rn_gateway : GatewayRuntimePlan; rn_workers : list PhpWorkerRuntimePlan }.

Definition with_projects (projects : list RuntimeProject) (w : PhpWorkerRuntimePlan) : PhpWorkerRuntimePlan :=
  {| pw_php_track := pw_php_track w; pw_runtime_key := pw_runtime_key w; pw_loaded_modules := pw_loaded_modules w;
     pw_port := pw_port w; pw_projects := projects |}.

Definition additional_hostnames (primary_hostname : string) (state_hostnames config_hostnames : list string) : list string :=
  dedup (sort_on (λ h, h) (List.filter (λ h, negb (bool_decide (h = primary_hostname))) (state_hostnames ++ config_hostnames))).

(** The workers so far, by their runtime keys. *)
Notation workers_so_far := (gmap string PhpWorkerRuntimePlan).

Section plan.
Context `{Host} `{Json} (paths : PvPaths) (now : nat → string).
Context (parse_rfc3339 : string → option Z) (url_parse : string → option ParsedUrl) (pkg_version : string).
Context (json_parse : string → result string RawManifest) (parse_modules : string → result string (list RawPhpExtensionModule)).
Context (yaml_from_str : string → result string yaml) (apply_merge : yaml → result string yaml).
Context (sqlite_display : SqliteError → string) (time_format_error : string).
Context (config_error_text : ConfigError → string) (daemon_error_text : DaemonError → string).
(** [local_loopback_port_available], asked after other ports, at a given time. *)
Context (local_loopback_port_available : nat → list Z → Z → bool).
Context (sha256_hex : string → string).

(** ** Ports *)

Definition assign_gateway_ports : act GatewayPortAssignments :=
  available ← eff_get (λ s, local_loopback_port_available (dm_ticks s));
  now_http ← stamp now; now_https ← stamp now;
  on_db (StatePorts.assign_gateway_ports available now_http now_https).

Definition php_worker_request (runtime_key : string) : PortRequest :=
  php_worker runtime_key RUNTIME_PORT_FALLBACK_START RUNTIME_PORT_FALLBACK_START RUNTIME_PORT_FALLBACK_END.
Definition assign_worker_port (runtime_key : string) : act PortAssignment :=
  available ← eff_get (λ s, local_loopback_port_available (dm_ticks s));
  stamped now (assign_port (php_worker_request runtime_key) available).

(** ** The runtime of a project *)

Definition append_runtime_project (workers : workers_so_far) (runtime : ResolvedPhpRuntime) (runtime_project : RuntimeProject) :
    act workers_so_far :=
  match workers !! rp_runtime_key runtime with
  | Some worker => mret (<[rp_runtime_key runtime := with_projects (pw_projects worker ++ [runtime_project]) worker]> workers)
  | None =>
      assignment ← assign_worker_port (rp_runtime_key runtime);
      mret (<[rp_runtime_key runtime :=
                {| pw_php_track := rp_track runtime; pw_runtime_key := rp_runtime_key runtime;
                   pw_loaded_modules := rp_loaded_modules runtime; pw_port := assigned_port assignment;
                   pw_projects := [runtime_project] |}]> workers)
  end.

(** [installed_php_release] is the one of [project_env.rs]. *)
Definition loaded_php_extension_modules (track : string) (loaded_extensions : list string) : act (list PhpExtensionModule) :=
  release ← installed_php_release track;
  match release with
  | None =>
      if negb (bool_decide (loaded_extensions = [])) then
        eff_fail (DaemonResources (InvalidArtifactLayout "php"
          ("persisted PHP extension " +:+ tick (join ", " loaded_extensions)
             +:+ " cannot be reconstructed because PHP track " +:+ tick track +:+ " is not installed")))
      else mret []
  | Some release =>
      on_resources (resolve_persisted_php_extension_modules sqlite_display time_format_error parse_modules release loaded_extensions)
  end.

Definition persisted_project_php_runtime (project : ProjectRecord) : act (option ResolvedPhpRuntime) :=
  match rt_track (php_runtime project) with
  | None => mret None
  | Some track =>
      let loaded_extensions := rt_loaded_extensions (php_runtime project) in
      loaded_modules ← loaded_php_extension_modules track loaded_extensions;
      runtime_key ← state_lift (php_runtime_key track loaded_extensions);
      mret (Some {| rp_track := track; rp_runtime_key := runtime_key;
                    rp_requested_extensions := rt_requested_extensions (php_runtime project);
                    rp_loaded_extensions := loaded_extensions;
                    rp_ignored_extensions := rt_ignored_extensions (php_runtime project);
                    rp_loaded_modules := loaded_modules |})
  end.

Definition served_hostname (project : ProjectRecord) : act string :=
  eff_lift (ok_or (StateProjects.primary_hostname project) (DaemonState (ProjectNotServed (id project)))).

(** A project that keeps what it had: the fragments it has are read again, not rendered. *)
Definition persisted_runtime_project (project : ProjectRecord) (primary_hostname : string) : RuntimeProject :=
  {| rj_id := id project; rj_render_config := false; rj_primary_hostname := primary_hostname;
     rj_hostnames := additional_hostnames primary_hostname (StateProjects.additional_hostnames project) [];
     rj_project_root := tree_path (path project); rj_document_root := tree_path (path project) |}.

Definition append_persisted_runtime_project (workers : workers_so_far) (project : ProjectRecord) : act workers_so_far :=
  if bool_decide (mode project = ResourceOnly) then mret workers
  else
    primary_hostname ← served_hostname project;
    runtime ← eff_try (persisted_project_php_runtime project);
    match runtime with
    | Ok (Some runtime) => append_runtime_project workers runtime (persisted_runtime_project project primary_hostname)
    | Ok None => mret workers
    | Err (DaemonResources (InvalidArtifactLayout _ _) as error) =>
        _ ← record_project_env_failure now (id project) (daemon_error_text error); mret workers
    | Err error => eff_fail error
    end.

(** ** The projects *)

Definition resolve_project_document_root (project_root : HostFs.path) (config : ProjectConfig) : act HostFs.path :=
  match ConfigModel.document_root config with
  | Some document_root => mret (join_path project_root document_root)
  | None =>
      let public_root := join_path project_root "public" in
      directory ← on_state_files (StateFs.path_is_directory public_root);
      mret (if directory : bool then public_root else project_root)
  end.

(** A project whose configuration was accepted. *)
Definition append_configured_project (workers : workers_so_far) (project : ProjectRecord) (config : ProjectConfig) : act workers_so_far :=
  primary_hostname ← served_hostname project;
  runtime ← resolve_project_php_runtime paths parse_rfc3339 url_parse pkg_version json_parse parse_modules sqlite_display time_format_error
              project (ConfigModel.php config);
  document_root ← resolve_project_document_root (tree_path (path project)) config;
  append_runtime_project workers runtime
    {| rj_id := id project; rj_render_config := true; rj_primary_hostname := primary_hostname;
       rj_hostnames := additional_hostnames primary_hostname (StateProjects.additional_hostnames project) (ConfigModel.hostnames config);
       rj_project_root := tree_path (path project); rj_document_root := document_root |}.

(** A configuration that is refused is recorded, and the project keeps what it had. *)
Definition append_refused_project (workers : workers_so_far) (project : ProjectRecord) (message : string) : act workers_so_far :=
  _ ← record_project_env_failure now (id project) message;
  append_persisted_runtime_project workers project.

Definition plan_project (workers : workers_so_far) (project : ProjectRecord) : act workers_so_far :=
  if bool_decide (mode project = ResourceOnly) then mret workers
  else
    config_file ← eff_try (on_part world_part (λ e, e) (read_from_root yaml_from_str apply_merge (path project)));
    match config_file with
    | Err error => append_refused_project workers project (config_error_text error)
    | Ok config_file =>
        let config := cf_config config_file in
        if negb (bool_decide (serve config = bool_decide (mode project = Served))) then append_persisted_runtime_project workers project
        else
          validated ← eff_try (validate_project_config_for_gateway paths parse_rfc3339 url_parse pkg_version json_parse project config_file);
          match validated with
          | Err error => append_refused_project workers project (daemon_error_text error)
          | Ok _ => append_configured_project workers project config
          end
    end.

Fixpoint plan_projects (workers : workers_so_far) (l : list ProjectRecord) : act workers_so_far :=
  match l with
  | [] => mret workers
  | project :: l => workers ← plan_project workers project; plan_projects workers l
  end.

(** ** The plan of everything *)

Definition gateway_storage_path : act HostFs.path :=
  certificate ← read_optional_file (ca_certificate paths);
  let suffix := match certificate with Some certificate => sha256_hex certificate | None => "missing-ca" end in
  mret (join_path (pv_certificates paths) ("caddy-" +:+ suffix)).

Definition sorted_worker (worker : PhpWorkerRuntimePlan) : PhpWorkerRuntimePlan :=
  with_projects (sort_on rj_primary_hostname (pw_projects worker)) worker.

(** [build_runtime_plan], once the database is open. *)
Definition build_runtime_plan : act RuntimePlan :=
  gateway_ports ← assign_gateway_ports;
  projects ← read_db list_projects;
  workers ← plan_projects ∅ projects;
  storage_path ← gateway_storage_path;
  mret {| rn_gateway := {| gp_http_port := assigned_port (http gateway_ports); gp_https_port := assigned_port (https gateway_ports);
                           gp_ca_certificate_path := ca_certificate paths; gp_ca_private_key_path := ca_private_key paths;
                           gp_storage_path := storage_path |};
          rn_workers := sorted_worker <$> (btree_iter workers).*2 |}.
End plan.

(** ** Properties *)

(** A computation that leaves the database as it is. *)
Lemma reads_db_part {F A : Type} (f : F → DaemonError) (m : World → result F A * World) : reads_db (on_part world_part f m).
Proof. intros s. unfold on_part. by destruct (m _) as [[]]. Qed.
Lemma reads_db_try {A : Type} (m : act A) : reads_db m → reads_db (eff_try (F := DaemonError) m).
Proof. intros Hm s. specialize (Hm s). unfold eff_try. by destruct (m s) as [[]]. Qed.
Lemma reads_db_try_part {F A : Type} (m : World → result F A * World) : reads_db (eff_try (on_part world_part (λ e : F, e) m)).
Proof. intros s. unfold eff_try, on_part. by destruct (m _) as [[]]. Qed.
Lemma reads_db_fail {A : Type} e : reads_db (eff_fail (A := A) e).
Proof. done. Qed.
Ltac reads_step :=
  match goal with
  | |- reads_db (if ?b then _ else _) => destruct b
  | |- reads_db (match ?x with _ => _ end) => destruct x
  | |- reads_db (eff_try _) => apply reads_db_try
  | |- reads_db (_ ≫= _) => apply reads_db_bind; [|intros ?]
  | |- reads_db (on_part _ _ _) => apply reads_db_part
  | |- reads_db (read_db _) => apply reads_db_read
  | |- reads_db (eff_lift _) => apply reads_db_lift
  | |- reads_db (mret _) => apply reads_db_ret
  | |- reads_db (eff_fail _) => apply reads_db_fail
  end.
Ltac reads_all := repeat (cbn zeta; reads_step).

Lemma spec_reads {A : Type} (P : Db → Prop) (m : act A) : reads_db m → spec (λ s, P (dm_db s)) m (λ _ s, P (dm_db s)) (λ _ s, P (dm_db s)).
Proof. intros Hm s Hs. specialize (Hm s). destruct (m s) as [[]]; cbn in Hm; by rewrite Hm. Qed.

(** What a project has in the plan. *)
Definition served_as (p : ProjectRecord) (j : RuntimeProject) : Prop :=
  id p = rj_id j ∧ mode p = Served ∧ StateProjects.primary_hostname p = Some (rj_primary_hostname j).

(** The env state of [p] says that something failed. *)
Definition env_failed (p : string) (d : Db) : Prop :=
  ∃ row, observed_states d !! env_key p = Some row ∧ o_status row = as_str EnvFailed.

Definition in_plan (p : ProjectRecord) (workers : list PhpWorkerRuntimePlan) : Prop :=
  ∃ w j, w ∈ workers ∧ j ∈ pw_projects w ∧ served_as p j.
(** A served project that is not in the plan: no runtime was ever resolved for it, or its state says why. *)
Definition accounted (p : ProjectRecord) (workers : list PhpWorkerRuntimePlan) (d : Db) : Prop :=
  in_plan p workers ∨ rt_track (php_runtime p) = None ∨ env_failed (id p) d.

(** A worker that is known to the database, for a runtime that exists. *)
Definition worker_known (d : Db) (w : PhpWorkerRuntimePlan) : Prop :=
  port <$> port_of d (PhpWorker (pw_runtime_key w)) = Some (pw_port w)
  ∧ (∃ loaded, php_runtime_key (pw_php_track w) loaded = Ok (pw_runtime_key w))
  ∧ pw_projects w ≠ [].

(** The workers after the projects of [done_], from the database [d0]. *)
Record planned (d0 : Db) (done_ : list ProjectRecord) (workers : workers_so_far) (d : Db) : Prop := {
  pl_ports : ports_wf d;
  pl_known : ∀ k w, workers !! k = Some w → pw_runtime_key w = k ∧ worker_known d w;
  pl_others : ∀ o, (∀ k, o = PhpWorker k → workers !! k = None) → port_of d o = port_of d0 o;
  pl_from : ∀ k w j, workers !! k = Some w → j ∈ pw_projects w → ∃ p, p ∈ done_ ∧ served_as p j;
  pl_once : ∀ k w, workers !! k = Some w → NoDup (rj_id <$> pw_projects w);
  pl_one : ∀ k1 w1 j1 k2 w2 j2, workers !! k1 = Some w1 → workers !! k2 = Some w2 → j1 ∈ pw_projects w1 → j2 ∈ pw_projects w2 →
    rj_id j1 = rj_id j2 → k1 = k2;
  pl_all : ∀ p, p ∈ done_ → mode p = Served → accounted p (map_to_list workers).*2 d;
}.

Lemma assign_port_keeps (d : Db) r avail at' : observed_states (assign_port r avail at' d).2 = observed_states d.
Proof.
  unfold assign_port, transact. destruct (identity (owner r)) as [i|]; [|done]. cbn.
  destruct (port_assignment d i) as [[a|]|]; [done| |done]. cbn. destruct (assigned_port_numbers_except d i) as [l|]; [|done]. cbn.
  destruct (fst _) as [p|]; [|done].
  unfold upsert_port. destruct (uses_resource_ports_table i); unfold upsert_port_row; by case_bool_decide.
Qed.

Lemma known_in (workers : workers_so_far) w : w ∈ (map_to_list workers).*2 ↔ ∃ k, workers !! k = Some w.
Proof.
  rewrite list_elem_of_fmap. split.
  - intros ([k w'] & -> & Hin%elem_of_map_to_list). by exists k.
  - intros [k Hk]. exists (k, w). split; [done|by apply elem_of_map_to_list].
Qed.

(** More of a worker, and a failure, leave a project accounted for. *)
Lemma accounted_mono p (workers workers' : workers_so_far) d d' :
  (∀ k w, workers !! k = Some w → ∃ w', workers' !! k = Some w' ∧ pw_projects w ⊆ pw_projects w') →
  (env_failed (id p) d → env_failed (id p) d') → accounted p (map_to_list workers).*2 d → accounted p (map_to_list workers').*2 d'.
Proof.
  intros Hw Hf [(w & j & [k Hk]%known_in & Hj & Hs)|[?|?]]; [|right; by left|right; right; by apply Hf].
  destruct (Hw k w Hk) as (w' & Hk' & Hsub). left. exists w', j. split; [apply known_in; by exists k|]. split; [by apply Hsub|done].
Qed.

(** Skipping a project that is accounted for. *)
Lemma planned_skip d0 done_ workers d p : planned d0 done_ workers d →
  (mode p = Served → accounted p (map_to_list workers).*2 d) → planned d0 (done_ ++ [p]) workers d.
Proof.
  intros [? ? ? Hfrom ? ? Hall] Hp. split; [done|done|done| |done|done|].
  - intros k w j Hk Hj. destruct (Hfrom k w j Hk Hj) as (q & ? & ?). exists q. split; [set_solver|done].
  - intros q [?| ->%list_elem_of_singleton]%elem_of_app; [by apply Hall|by apply Hp].
Qed.

(** A change of the database that keeps the ports and the failures. *)
Lemma planned_db d0 done_ workers d d' : ports d' = ports d → resource_ports d' = resource_ports d →
  (∀ p, env_failed p d → env_failed p d') → planned d0 done_ workers d → planned d0 done_ workers d'.
Proof.
  intros Hp Hr Hf [Hwf Hk Ho ? ? ? Hall].
  assert (∀ o, port_of d' o = port_of d o) as Hof by (intros o; unfold port_of; by rewrite Hp, Hr).
  split; [|..|done|done|done|].
  - destruct Hwf as [H1 H2 H3]. split; rewrite ?Hp, ?Hr; done.
  - intros k w Hw. destruct (Hk k w Hw) as (? & ? & ?). unfold worker_known. by rewrite Hof.
  - intros o Hn. rewrite Hof. by apply Ho.
  - intros p Hin Hm. eapply accounted_mono; [|apply Hf|by apply Hall]. intros k w Hw. by exists w.
Qed.

(** The fresh port of a new worker. *)
Lemma assign_worker_spec now avail key d1 : ports_wf d1 →
  spec (λ s, dm_db s = d1) (assign_worker_port now avail key)
    (λ a s, let d := dm_db s in ports_wf d ∧ port <$> port_of d (PhpWorker key) = Some (assigned_port a)
       ∧ (∀ o, o ≠ PhpWorker key → port_of d o = port_of d1 o) ∧ observed_states d = observed_states d1)
    (λ _ s, dm_db s = d1).
Proof.
  intros Hwf s Hs. unfold assign_worker_port, stamped, stamp, mbind, eff_bind, eff_get, on_db, on_part. cbn. rewrite Hs.
  set (avail' := avail _). set (at' := now _). set (r := php_worker_request key).
  pose proof (assign_port_keeps d1 r avail' at') as Hobs.
  destruct (identity (owner r)) as [i|e] eqn:Hi.
  2: { unfold assign_port, transact. by rewrite Hi. }
  destruct (assign_port_spec d1 r avail' at' i Hwf eq_refl Hi)
    as [(row & a & Ho & -> & ? & Ha)|[(a & d' & Ho & Heq & ? & _ & Hto & Hwf')|(Ho & -> & _)]]; cbn; [| |done].
  - split_and!; [done| |done|done]. rewrite Ha. by change (owner r) with (PhpWorker key) in Ho; rewrite Ho.
  - rewrite Heq in Hobs |- *. cbn in *. change (owner r) with (PhpWorker key) in Hto. split_and!; [done| | |done].
    + by rewrite Hto, decide_True.
    + intros o Hne. by rewrite Hto, decide_False.
Qed.

Section append.
Context (now : nat → string) (avail : nat → list Z → Z → bool) (d0 : Db) (done_ : list ProjectRecord) (p : ProjectRecord).
Hypothesis fresh : id p ∉ id <$> done_.

Lemma not_done j k w workers d : planned d0 done_ workers d → workers !! k = Some w → j ∈ pw_projects w → rj_id j ≠ id p.
Proof.
  intros Hpl Hk Hj Heq. destruct (pl_from _ _ _ _ Hpl k w j Hk Hj) as (q & Hq & Hid & _). apply fresh.
  rewrite <-Heq, <-Hid. by apply list_elem_of_fmap_2.
Qed.

(** The worker [w'] of [key] is the old one with [j], or one with [j] alone. *)
Lemma planned_insert workers d1 d j w' key : served_as p j → planned d0 done_ workers d1 → ports_wf d →
  (∀ o, o ≠ PhpWorker key → port_of d o = port_of d1 o) → (∀ q, env_failed q d1 → env_failed q d) →
  pw_runtime_key w' = key → worker_known d w' →
  pw_projects w' = from_option pw_projects [] (workers !! key) ++ [j] → planned d0 (done_ ++ [p]) (<[key := w']> workers) d.
Proof.
  intros Hj Hpl Hwf Hother Hobs Hkey Hknown Hproj.
  assert (∀ k w j', <[key := w']> workers !! k = Some w → j' ∈ pw_projects w →
    (k = key ∧ j' = j) ∨ ∃ w0, workers !! k = Some w0 ∧ j' ∈ pw_projects w0) as Hcases.
  { intros k w j' [[<- <-]|[Hne Hk]]%lookup_insert_Some; [|by intros ?; right; exists w].
    rewrite Hproj. intros [Hin| ->%list_elem_of_singleton]%elem_of_app; [|by left]. right.
    destruct (workers !! key) as [w0|]; [by exists w0|by apply elem_of_nil in Hin]. }
  assert (rj_id j = id p) as Hjid by (symmetry; apply Hj).
  split; [done|..].
  - intros k w [[<- <-]|[Hne Hk]]%lookup_insert_Some; [done|]. destruct (pl_known _ _ _ _ Hpl k w Hk) as (Hk' & Hport & ?).
    split; [done|]. split; [|done]. rewrite Hother; [done|]. congruence.
  - intros o Hn. rewrite Hother.
    + apply (pl_others _ _ _ _ Hpl). intros k ->. specialize (Hn k eq_refl). by apply lookup_insert_None in Hn as [? _].
    + intros ->. specialize (Hn key eq_refl). by rewrite lookup_insert_eq in Hn.
  - intros k w j' Hk Hj'. destruct (Hcases k w j' Hk Hj') as [[-> ->]|(w0 & Hk0 & Hj0)]; [exists p; split; [set_solver|done]|].
    destruct (pl_from _ _ _ _ Hpl k w0 j' Hk0 Hj0) as (q & ? & ?). exists q. split; [set_solver|done].
  - intros k w [[<- <-]|[Hne Hk]]%lookup_insert_Some; [|by eapply pl_once]. rewrite Hproj, fmap_app. apply NoDup_app. split_and!.
    + destruct (workers !! key) as [w0|] eqn:Hw0; [by eapply pl_once|apply NoDup_nil_2].
    + intros x Hx ->%list_elem_of_singleton. apply list_elem_of_fmap in Hx as (j' & Hx & Hin).
      destruct (workers !! key) as [w0|] eqn:Hw0; [|by apply elem_of_nil in Hin].
      eapply (not_done j' key w0); [done..|]. by rewrite <-Hx.
    + apply NoDup_singleton.
  - intros k1 w1 j1 k2 w2 j2 Hk1 Hk2 Hj1 Hj2 Heq.
    destruct (Hcases k1 w1 j1 Hk1 Hj1) as [[-> ->]|(v1 & Hv1 & Hi1)], (Hcases k2 w2 j2 Hk2 Hj2) as [[-> ->]|(v2 & Hv2 & Hi2)].
    + done.
    + destruct (not_done j2 k2 v2 workers d1 Hpl Hv2 Hi2). by rewrite <-Heq.
    + destruct (not_done j1 k1 v1 workers d1 Hpl Hv1 Hi1). by rewrite Heq.
    + by eapply pl_one.
  - intros q Hq Hm. apply elem_of_app in Hq as [Hq| ->%list_elem_of_singleton].
    + eapply accounted_mono; [|apply Hobs|by eapply pl_all]. intros k w Hk.
      destruct (decide (k = key)) as [->|Hne]; [|exists w; by rewrite lookup_insert_ne].
      exists w'. rewrite lookup_insert_eq, Hproj, Hk. split; [done|]. cbn. set_solver.
    + left. exists w', j. split; [apply known_in; exists key; by rewrite lookup_insert_eq|]. split; [rewrite Hproj; set_solver|done].
Qed.

Lemma append_spec workers runtime j : served_as p j →
  (∃ loaded, php_runtime_key (rp_track runtime) loaded = Ok (rp_runtime_key runtime)) →
  spec (λ s, planned d0 done_ workers (dm_db s)) (append_runtime_project now avail workers runtime j)
    (λ workers' s, planned d0 (done_ ++ [p]) workers' (dm_db s)) (λ _ s, ports_wf (dm_db s)).
Proof.
  intros Hj Hkey. unfold append_runtime_project. destruct (workers !! rp_runtime_key runtime) as [w|] eqn:Hw.
  - intros s Hpl. cbn. destruct (pl_known _ _ _ _ Hpl _ _ Hw) as (Hk & Hport & Hloaded & _).
    eapply planned_insert; [done|done|by eapply pl_ports|done|done|done| |by rewrite Hw].
    split_and!; [done|done|]. cbn. by destruct (pw_projects w).
  - intros s Hpl. pose proof (assign_worker_spec now avail (rp_runtime_key runtime) (dm_db s) (pl_ports _ _ _ _ Hpl) s eq_refl) as Ha.
    unfold mbind, eff_bind. destruct (assign_worker_port _ _ _ s) as [[a|e] s1]; [|by rewrite Ha; eapply pl_ports].
    destruct Ha as (Hwf & Hport & Hother & Hobs). cbn.
    eapply planned_insert; [done|done|done|done| |done| |by rewrite Hw].
    + intros q (row & ? & ?). exists row. by rewrite Hobs.
    + by split_and!.
Qed.
End append.

(** *** From the projects to the plan *)

Section planning.
Context `{Host} `{Json} (paths : PvPaths) (now : nat → string).
Context (parse_rfc3339 : string → option Z) (url_parse : string → option ParsedUrl) (pkg_version : string).
Context (json_parse : string → result string RawManifest) (parse_modules : string → result string (list RawPhpExtensionModule)).
Context (yaml_from_str : string → result string yaml) (apply_merge : yaml → result string yaml).
Context (sqlite_display : SqliteError → string) (time_format_error : string).
Context (config_error_text : ConfigError → string) (daemon_error_text : DaemonError → string).
Context (avail : nat → list Z → Z → bool) (sha256_hex : string → string).

Let persisted := append_persisted_runtime_project now parse_modules sqlite_display time_format_error daemon_error_text avail.
Let refused := append_refused_project now parse_modules sqlite_display time_format_error daemon_error_text avail.
Let configured := append_configured_project paths now parse_rfc3339 url_parse pkg_version json_parse parse_modules sqlite_display time_format_error avail.
Let plan_one := plan_project paths now parse_rfc3339 url_parse pkg_version json_parse parse_modules yaml_from_str apply_merge
  sqlite_display time_format_error config_error_text daemon_error_text avail.
Let plan_all := plan_projects paths now parse_rfc3339 url_parse pkg_version json_parse parse_modules yaml_from_str apply_merge
  sqlite_display time_format_error config_error_text daemon_error_text avail.
Let build := build_runtime_plan paths now parse_rfc3339 url_parse pkg_version json_parse parse_modules yaml_from_str apply_merge
  sqlite_display time_format_error config_error_text daemon_error_text avail sha256_hex.

Lemma persisted_reads project : reads_db (persisted_project_php_runtime parse_modules sqlite_display time_format_error project).
Proof. unfold persisted_project_php_runtime, loaded_php_extension_modules, installed_php_release, on_resources, state_lift. reads_all. Qed.
Lemma validate_reads project config_file : reads_db (validate_project_config_for_gateway paths parse_rfc3339 url_parse pkg_version json_parse project config_file).
Proof.
  unfold validate_project_config_for_gateway, validate_project_config_and_plan, read_optional_project_env_file, read_optional_file,
    project_resource_plan, on_config, on_state_files, config_lift. reads_all. apply plan_all_reads.
Qed.
Lemma runtime_resolve_reads project php : reads_db (resolve_project_php_runtime paths parse_rfc3339 url_parse pkg_version json_parse parse_modules
  sqlite_display time_format_error project php).
Proof.
  unfold resolve_project_php_runtime, resolve_project_php_track, installed_php_release, default_project_php_track, cached_manifest,
    manifest_is_cached, on_world, on_resources, resources_lift, state_lift. reads_all.
Qed.
Lemma document_root_reads root config : reads_db (resolve_project_document_root root config).
Proof. unfold resolve_project_document_root, on_state_files. reads_all. Qed.
Lemma storage_reads : reads_db (gateway_storage_path paths sha256_hex).
Proof. unfold gateway_storage_path, read_optional_file, on_state_files. reads_all. Qed.

(** A runtime's key is that of its track and extensions. *)
Definition keyed (runtime : ResolvedPhpRuntime) : Prop := ∃ loaded, php_runtime_key (rp_track runtime) loaded = Ok (rp_runtime_key runtime).

Lemma state_lift_ok {A : Type} (r : result StateError A) s a s' : (state_lift r : act A) s = (Ok a, s') → r = Ok a.
Proof. unfold state_lift, eff_lift. destruct r; cbn; congruence. Qed.

Lemma resolve_keyed project php s runtime s' : resolve_project_php_runtime paths parse_rfc3339 url_parse pkg_version json_parse parse_modules
  sqlite_display time_format_error project php s = (Ok runtime, s') → keyed runtime.
Proof.
  unfold resolve_project_php_runtime. cbn zeta.
  intros (g & s1 & _ & (st & s2 & _ & (tr & s3 & _ & (rel & s4 & _ & (res & s5 & _ & (key & s6 & Hkey & Hret)%eff_bind_ok)%eff_bind_ok)%eff_bind_ok)%eff_bind_ok)%eff_bind_ok)%eff_bind_ok.
  apply state_lift_ok in Hkey. injection Hret as <- _. by eexists.
Qed.

Lemma persisted_keyed project s runtime s' :
  persisted_project_php_runtime parse_modules sqlite_display time_format_error project s = (Ok (Some runtime), s') → keyed runtime.
Proof.
  unfold persisted_project_php_runtime. destruct (rt_track _); [|done]. cbn zeta.
  intros (ms & s1 & _ & (key & s2 & Hkey & Hret)%eff_bind_ok)%eff_bind_ok. apply state_lift_ok in Hkey. injection Hret as <- _. by eexists.
Qed.
Lemma persisted_none project s s' :
  persisted_project_php_runtime parse_modules sqlite_display time_format_error project s = (Ok None, s') → rt_track (php_runtime project) = None.
Proof.
  unfold persisted_project_php_runtime. destruct (rt_track _); [|done]. cbn zeta.
  by intros (ms & s1 & _ & (key & s2 & Hkey & Hret)%eff_bind_ok)%eff_bind_ok.
Qed.

(** The failure of a project is recorded, and nothing of the ports changes. *)
Lemma record_failure_spec project_id message d1 :
  spec (λ s, dm_db s = d1) (record_project_env_failure now project_id message)
    (λ _ s, env_failed project_id (dm_db s) ∧ (∀ q, env_failed q d1 → env_failed q (dm_db s))
       ∧ ports (dm_db s) = ports d1 ∧ resource_ports (dm_db s) = resource_ports d1)
    (λ _ s, ports (dm_db s) = ports d1 ∧ resource_ports (dm_db s) = resource_ports d1).
Proof.
  intros s Hs. unfold record_project_env_failure, stamped, stamp, mbind, eff_bind, on_db, on_part. cbn. rewrite Hs.
  unfold record_project_env_observed_snapshot, autocommit, ensure_project_exists. cbn -[record_snapshot_in_transaction].
  destruct (option_bool _); cbn -[record_snapshot_in_transaction]; [|done].
  destruct (record_snapshot_in_transaction _ _ _ _ _ _) as [d'|e] eqn:Hr; [|done]. apply snapshot_ok in Hr.
  destruct (st_rest _ _ _ _ _ _ _ Hr) as (o & w & Hd). destruct (_ ≫= _) as [a|e]; cbn; [|by rewrite Hd]. split_and!.
  - eexists. split; [apply Hr|done].
  - intros q (row & Hrow & Hst). destruct (decide (q = project_id)) as [->|Hne].
    + eexists. split; [apply Hr|done].
    + exists row. split; [|done]. rewrite (proj1 (st_others _ _ _ _ _ _ _ Hr)); [done|]. unfold env_key. congruence.
  - by rewrite Hd.
  - by rewrite Hd.
Qed.

Section project.
Context (d0 : Db) (done_ : list ProjectRecord) (p : ProjectRecord).
Hypothesis fresh : id p ∉ id <$> done_.

Let before workers (s : Daemon) : Prop := planned d0 done_ workers (dm_db s).
Let after workers (s : Daemon) : Prop := planned d0 (done_ ++ [p]) workers (dm_db s).
Let stopped (_ : DaemonError) (s : Daemon) : Prop := ports_wf (dm_db s).

Lemma before_reads {A : Type} (m : act A) (φ : A → Prop) workers : reads_db m → (∀ s a s', m s = (Ok a, s') → φ a) →
  spec (before workers) m (λ a s, φ a ∧ before workers s) stopped.
Proof.
  intros Hm Hφ s Hs. specialize (Hm s). specialize (Hφ s). unfold before, stopped in *. destruct (m s) as [[a|e] s']; cbn in Hm; rewrite Hm; [|by eapply pl_ports].
  split; [by eapply Hφ|done].
Qed.

Lemma before_kept {A : Type} (m : act A) workers : reads_db m → spec (before workers) m (λ _, before workers) stopped.
Proof. intros Hm. eapply spec_conseq; [done| | |by apply (before_reads m (λ _, True))]; [by intros a s [_ ?]|done]. Qed.

Lemma served_read project s h s' : (served_hostname project) s = (Ok h, s') → StateProjects.primary_hostname project = Some h.
Proof. unfold served_hostname, eff_lift, ok_or. destruct (StateProjects.primary_hostname project); [by intros [= <- _]|done]. Qed.

Lemma failure_skips workers message : spec (before workers) (_ ← record_project_env_failure now (id p) message; mret workers) after stopped.
Proof.
  intros s Hs. pose proof (record_failure_spec (id p) message (dm_db s) s eq_refl) as Hr. unfold mbind, eff_bind.
  destruct (record_project_env_failure now (id p) message s) as [[u|e] s1].
  - destruct Hr as (Hf & Hmono & Hp & Hrp). apply planned_skip; [by eapply planned_db|]. intros _. right. by right.
  - destruct Hr as [Hp Hrp]. destruct (pl_ports _ _ _ _ Hs) as [H1 H2 H3]. by split; rewrite ?Hp, ?Hrp.
Qed.

Lemma persisted_spec workers : spec (before workers) (persisted workers p) after stopped.
Proof.
  unfold persisted, append_persisted_runtime_project. case_bool_decide as Hmode.
  { intros s Hs. apply planned_skip; [done|]. congruence. }
  eapply (spec_bind _ _ _ (λ h s, StateProjects.primary_hostname p = Some h ∧ before workers s)).
  { apply before_reads; [apply reads_db_lift|intros s a s'; apply served_read]. }
  intros hostname. apply spec_pure. intros Hhost.
  intros s Hs. unfold mbind at 1, eff_bind, eff_try.
  pose proof (persisted_reads p s) as Hread. pose proof (persisted_keyed p s) as Hkeyed. pose proof (persisted_none p s) as Hnone.
  destruct (persisted_project_php_runtime _ _ _ p s) as [[[runtime|]|e] s1]; cbn in Hread.
  - assert (before workers s1) as Hs1 by (unfold before; by rewrite Hread).
    apply (append_spec now avail d0 done_ p fresh); [|by eapply Hkeyed|exact Hs1]. split_and!; [done| |done]. by destruct (mode p).
  - assert (before workers s1) as Hs1 by (unfold before; by rewrite Hread). apply planned_skip; [done|]. intros _. right. left. by eapply Hnone.
  - assert (before workers s1) as Hs1 by (unfold before; by rewrite Hread).
    assert (stopped e s1) as Hstop by (by eapply pl_ports).
    destruct e; try exact Hstop. destruct source; try exact Hstop. by apply failure_skips.
Qed.

Lemma refused_spec workers message : spec (before workers) (refused workers p message) after stopped.
Proof.
  unfold refused, append_refused_project. eapply (spec_bind _ _ _ (λ _, before workers)); [|intros _; apply persisted_spec].
  intros s Hs. pose proof (record_failure_spec (id p) message (dm_db s) s eq_refl) as Hr.
  destruct (record_project_env_failure now (id p) message s) as [[u|e] s1].
  - destruct Hr as (Hf & Hmono & Hp & Hrp). by eapply planned_db.
  - destruct Hr as [Hp Hrp]. destruct (pl_ports _ _ _ _ Hs) as [H1 H2 H3]. by split; rewrite ?Hp, ?Hrp.
Qed.

Lemma configured_spec workers config : mode p = Served → spec (before workers) (configured workers p config) after stopped.
Proof.
  intros Hmode. unfold configured, append_configured_project.
  eapply (spec_bind _ _ _ (λ h s, StateProjects.primary_hostname p = Some h ∧ before workers s)).
  { apply before_reads; [apply reads_db_lift|intros s a s'; apply served_read]. }
  intros hostname. apply spec_pure. intros Hhost.
  eapply (spec_bind _ _ _ (λ runtime s, keyed runtime ∧ before workers s)).
  { apply before_reads; [apply runtime_resolve_reads|intros s a s'; apply resolve_keyed]. }
  intros runtime. apply spec_pure. intros Hkeyed.
  eapply (spec_bind _ _ _ (λ _, before workers)); [apply before_kept, document_root_reads|].
  intros root. by apply (append_spec now avail d0 done_ p fresh).
Qed.

Lemma plan_project_spec workers : spec (before workers) (plan_one workers p) after stopped.
Proof.
  unfold plan_one, plan_project. case_bool_decide as Hmode.
  { intros s Hs. apply planned_skip; [done|]. congruence. }
  assert (mode p = Served) as Hserved by (by destruct (mode p)).
  eapply (spec_bind _ _ _ (λ _, before workers)); [apply before_kept, reads_db_try_part|].
  intros config_file. destruct config_file as [config_file|e]; [|apply refused_spec].
  cbn zeta. destruct (negb _); [apply persisted_spec|].
  eapply (spec_bind _ _ _ (λ _, before workers)); [apply before_kept, reads_db_try, validate_reads|].
  intros validated. destruct validated; [by apply configured_spec|apply refused_spec].
Qed.
End project.

Lemma plan_projects_spec d0 l : ∀ done_ workers, NoDup (id <$> done_ ++ l) →
  spec (λ s, planned d0 done_ workers (dm_db s)) (plan_all workers l)
    (λ workers' s, planned d0 (done_ ++ l) workers' (dm_db s)) (λ _ s, ports_wf (dm_db s)).
Proof.
  induction l as [|p l IH]; intros done_ workers Hnd; cbn.
  { intros s Hs. by rewrite app_nil_r. }
  eapply spec_bind.
  - apply plan_project_spec. rewrite fmap_app in Hnd. apply NoDup_app in Hnd as (_ & Hdis & _). intros Hin. apply (Hdis _ Hin). cbn. by left.
  - intros workers'. specialize (IH (done_ ++ [p]) workers'). rewrite <-app_assoc in IH. by apply IH.
Qed.
End planning.

(** The projects of the database have distinct ids. *)
Lemma list_projects_ids `{Json} d l : list_projects d = Ok l → NoDup (id <$> l).
Proof.
  unfold list_projects. intros Hl%try_map_ok.
  assert (id <$> l = (order_by (λ '(_, row), option_list (p_project_slug row)) (map_to_list (projects d))).*1) as ->.
  { induction Hl as [|[i row] p ks l Hp Hl IH]; [done|]. cbn. rewrite IH. f_equal. unfold project_into_record in Hp. by inv_ok. }
  rewrite order_by_perm. apply NoDup_fst_map_to_list.
Qed.

(** Assigning ports changes nothing else. *)
Lemma upsert_port_only d i p t d' : upsert_port d i p t = Ok d' → ∃ a b, d' = set_resource_ports (λ _, b) (set_ports (λ _, a) d).
Proof.
  unfold upsert_port. destruct (uses_resource_ports_table i); destruct (upsert_port_row _ _ _ _) as [m|]; intros [= <-].
  - exists (ports d), m. by destruct d.
  - exists m, (resource_ports d). by destruct d.
Qed.
Lemma in_transaction_only d r l avail asked t a l' asked' d' : assign_port_in_transaction d r l avail asked t = Ok (a, l', asked', d') →
  ∃ x y, d' = set_resource_ports (λ _, y) (set_ports (λ _, x) d).
Proof.
  unfold assign_port_in_transaction. destruct (identity (owner r)) as [i|]; [|done]. cbn [mbind result_bind].
  destruct (port_assignment d i) as [[found|]|]; [| |done]; cbn [mbind result_bind].
  - intros [= <- <- <- <-]. exists (ports d), (resource_ports d). by destruct d.
  - destruct (probe _ _ _ _) as [[c|] asked1]; [|done]. destruct (upsert_port d i c t) as [d1|] eqn:Hu; [|done]. intros [= <- <- <- <-].
    by eapply upsert_port_only.
Qed.
Lemma gateway_ports_only d avail t1 t2 : ∃ x y,
  (StatePorts.assign_gateway_ports avail t1 t2 d).2 = set_resource_ports (λ _, y) (set_ports (λ _, x) d).
Proof.
  assert (∃ x y, d = set_resource_ports (λ _, y) (set_ports (λ _, x) d)) as Hsame by (exists (ports d), (resource_ports d); by destruct d).
  unfold StatePorts.assign_gateway_ports, transact. destruct (assigned_port_numbers d) as [l|]; [|done]. cbn [mbind result_bind].
  destruct (assign_port_in_transaction d _ _ _ _ _) as [[[[a l1] asked1] d1]|] eqn:H1; [|done]. cbn [mbind result_bind].
  destruct (assign_port_in_transaction d1 _ _ _ _ _) as [[[[b l2] asked2] d2]|] eqn:H2; [|done]. cbn [mbind result_bind].
  apply in_transaction_only in H1 as (x1 & y1 & ->), H2 as (x2 & y2 & ->). by exists x2, y2.
Qed.

(** ** What a plan promises *)

(** The plan of the projects of [d0], with the database as it is then. *)
Record plan_made (d0 : Db) (projects : list ProjectRecord) (plan : RuntimePlan) (d : Db) : Prop := {
  pm_wf : ports_wf d;
  pm_http : port <$> port_of d (Gateway Http) = Some (gp_http_port (rn_gateway plan));
  pm_https : port <$> port_of d (Gateway Https) = Some (gp_https_port (rn_gateway plan));
  pm_known : ∀ w, w ∈ rn_workers plan → worker_known d w;
  pm_ports : NoDup (gp_http_port (rn_gateway plan) :: gp_https_port (rn_gateway plan) :: (pw_port <$> rn_workers plan));
  pm_keys : NoDup (pw_runtime_key <$> rn_workers plan);
  pm_others : ∀ o, (∀ g, o ≠ Gateway g) → (∀ w, w ∈ rn_workers plan → o ≠ PhpWorker (pw_runtime_key w)) → port_of d o = port_of d0 o;
  pm_once : NoDup (rj_id <$> (rn_workers plan ≫= pw_projects));
  pm_from : ∀ w j, w ∈ rn_workers plan → j ∈ pw_projects w → ∃ p, p ∈ projects ∧ served_as p j;
  pm_all : ∀ p, p ∈ projects → mode p = Served → accounted p (rn_workers plan) d;
  pm_order : ∀ w, w ∈ rn_workers plan → StronglySorted (le_on rj_primary_hostname) (pw_projects w);
}.

Section made.
Context (d0 d1 : Db) (projects : list ProjectRecord) (workers : workers_so_far) (d : Db).
Hypothesis Hpl : planned d1 projects workers d.

Let listed : list PhpWorkerRuntimePlan := sorted_worker <$> (btree_iter workers).*2.

Lemma elem_of_listed w : w ∈ listed ↔ ∃ k w0, workers !! k = Some w0 ∧ w = sorted_worker w0.
Proof.
  unfold listed. rewrite list_elem_of_fmap. split.
  - intros (w0 & -> & ([k w1] & -> & Hin%elem_of_btree_iter)%list_elem_of_fmap). by exists k, w1.
  - intros (k & w0 & Hk & ->). exists w0. split; [done|]. apply list_elem_of_fmap. exists (k, w0). split; [done|by apply elem_of_btree_iter].
Qed.

Lemma sorted_projects w j : j ∈ pw_projects (sorted_worker w) ↔ j ∈ pw_projects w.
Proof. cbn. by rewrite elem_of_sort_on. Qed.

Lemma listed_keys : pw_runtime_key <$> listed = (btree_iter workers).*1.
Proof.
  unfold listed. assert (∀ k w, (k, w) ∈ btree_iter workers → pw_runtime_key w = k) as Hk.
  { intros k w Hin%elem_of_btree_iter. by apply (pl_known _ _ _ _ Hpl). }
  induction (btree_iter workers) as [|[k w] l IH]; [done|]. cbn. f_equal; [apply Hk; by left|]. apply IH. intros k' w' Hin. apply Hk. by right.
Qed.

Lemma listed_once : NoDup (rj_id <$> (listed ≫= pw_projects)).
Proof.
  unfold listed. assert (NoDup (btree_iter workers).*1) as Hnd by apply NoDup_fst_btree_iter.
  assert (∀ k w, (k, w) ∈ btree_iter workers → workers !! k = Some w) as Hin by (by intros k w ?%elem_of_btree_iter).
  induction (btree_iter workers) as [|[k w] l IH]; [apply NoDup_nil_2|].
  cbn in Hnd |- *. apply NoDup_cons in Hnd as [Hfresh Hnd]. rewrite fmap_app. apply NoDup_app. split_and!.
  - rewrite sort_on_perm. eapply (pl_once _ _ _ _ Hpl k). apply Hin. by left.
  - intros x Hx Hy. apply list_elem_of_fmap in Hx as (j & -> & Hj), Hy as (j' & Heq & Hj'). rewrite elem_of_sort_on in Hj.
    apply list_elem_of_bind in Hj' as (w' & Hj' & Hw'). apply list_elem_of_fmap in Hw' as (w1 & -> & Hw1).
    apply list_elem_of_fmap in Hw1 as ([k' w2] & -> & Hw2). rewrite sorted_projects in Hj'. cbn in Hj'.
    assert (k = k') as ->; [|by destruct (Hfresh (list_elem_of_fmap_2 fst _ _ Hw2))].
    eapply (pl_one _ _ _ _ Hpl k w j k' w2 j'); [apply Hin; by left|apply Hin; by right|done..].
  - apply IH; [done|]. intros k' w' Hl. apply Hin. by right.
Qed.

Lemma listed_known w : w ∈ listed → worker_known d w.
Proof.
  intros (k & w0 & Hk & ->)%elem_of_listed. destruct (pl_known _ _ _ _ Hpl k w0 Hk) as (_ & Hport & Hkey & Hne).
  split; [done|]. split; [done|]. intros Hnil. apply Hne, Permutation_nil_r. cbn in Hnil. rewrite <-(sort_on_perm rj_primary_hostname). by rewrite Hnil.
Qed.

Lemma listed_in_plan p : in_plan p (map_to_list workers).*2 → in_plan p listed.
Proof.
  intros (w & j & [k Hk]%known_in & Hj & Hs). exists (sorted_worker w), j. split; [apply elem_of_listed; by exists k, w|].
  split; [by apply sorted_projects|done].
Qed.

(** Owners that differ have ports that differ. *)
Lemma ports_apart (owners : list (PortOwner * Z)) : ports_wf d → NoDup owners.*1 →
  (∀ o p, (o, p) ∈ owners → port <$> port_of d o = Some p) → NoDup owners.*2.
Proof.
  intros Hwf Hnd Hof. induction owners as [|[o p] owners IH]; [apply NoDup_nil_2|]. cbn in Hnd |- *.
  apply NoDup_cons in Hnd as [Hfresh Hnd]. apply NoDup_cons. split; [|apply IH; [done|]; intros; apply Hof; by right].
  intros Hin. apply list_elem_of_fmap in Hin as ([o' p'] & Hp & Hin). cbn in Hp. subst p'. apply Hfresh.
  assert (o = o') as ->; [|exact (list_elem_of_fmap_2 fst _ _ Hin)].
  pose proof (Hof o p (list_elem_of_here _ _)) as H1. pose proof (Hof o' p (list_elem_of_further _ _ _ Hin)) as H2.
  apply fmap_Some in H1 as (r1 & H1 & E1), H2 as (r2 & H2 & E2). eapply port_of_inj; [done|done|done|congruence].
Qed.
End made.

Section build.
Context `{Host} `{Json} (paths : PvPaths) (now : nat → string).
Context (parse_rfc3339 : string → option Z) (url_parse : string → option ParsedUrl) (pkg_version : string).
Context (json_parse : string → result string RawManifest) (parse_modules : string → result string (list RawPhpExtensionModule)).
Context (yaml_from_str : string → result string yaml) (apply_merge : yaml → result string yaml).
Context (sqlite_display : SqliteError → string) (time_format_error : string).
Context (config_error_text : ConfigError → string) (daemon_error_text : DaemonError → string).
Context (avail : nat → list Z → Z → bool) (sha256_hex : string → string).

(** The gateway's ports come first; the rest of the database is as it was. *)
Lemma gateway_ports_step d0 : ports_wf d0 →
  spec (λ s, dm_db s = d0) (assign_gateway_ports now avail)
    (λ g s, let d := dm_db s in ports_wf d ∧ list_projects d = list_projects d0
       ∧ port <$> port_of d (Gateway Http) = Some (assigned_port (http g))
       ∧ port <$> port_of d (Gateway Https) = Some (assigned_port (https g))
       ∧ ∀ o, (∀ g, o ≠ Gateway g) → port_of d o = port_of d0 o)
    (λ _ s, ports_wf (dm_db s)).
Proof.
  intros Hwf s Hs. unfold assign_gateway_ports, stamp, mbind, eff_bind, eff_get, on_db, on_part. cbn -[StatePorts.assign_gateway_ports]. rewrite Hs.
  match goal with |- context [StatePorts.assign_gateway_ports ?a ?t1 ?t2 d0] =>
    pose proof (gateway_ports_only d0 a t1 t2) as (x & y & Honly);
    destruct (assign_gateway_ports_spec d0 a t1 t2 Hwf) as [(g & d' & Heq & Hwf' & Hh & Hhs & _ & Hother)|(r & _ & Heq)] end;
    rewrite Heq in Honly |- *; cbn in *; [|done].
  split_and!; [done|by rewrite Honly|done|done|]. intros o Ho. apply Hother; apply Ho.
Qed.

(** C18: The plan of the gateway and its workers, whatever the projects' configurations say
    and whichever of them are refused. Every port in it is the one that the database has
    assigned to its runtime, and no two are equal; nobody else's port changes. There is one
    worker per runtime key, and its projects are sorted by their hostnames. Every project in
    the plan is a served project of the database and is in it once, and a served project
    that is not in it has either never had a runtime, or its recorded state says that it
    failed. A plan that cannot be made leaves the ports well formed. *)
Theorem build_runtime_plan_spec s projects : ports_wf (dm_db s) → list_projects (dm_db s) = Ok projects →
  match build_runtime_plan paths now parse_rfc3339 url_parse pkg_version json_parse parse_modules yaml_from_str apply_merge
          sqlite_display time_format_error config_error_text daemon_error_text avail sha256_hex s with
  | (Ok plan, s') => plan_made (dm_db s) projects plan (dm_db s')
  | (Err _, s') => ports_wf (dm_db s')
  end.
Proof.
  intros Hwf Hlist. revert s Hwf Hlist. intros s0 Hwf Hlist.
  assert (spec (λ s, dm_db s = dm_db s0) (build_runtime_plan paths now parse_rfc3339 url_parse pkg_version json_parse parse_modules yaml_from_str apply_merge
          sqlite_display time_format_error config_error_text daemon_error_text avail sha256_hex)
    (λ plan s, plan_made (dm_db s0) projects plan (dm_db s)) (λ _ s, ports_wf (dm_db s))) as Hspec; [|exact (Hspec s0 eq_refl)].
  eapply spec_bind; [by apply gateway_ports_step|]. intros g s1 (Hwf1 & Hl1 & Hh & Hhs & Hother).
  unfold mbind at 1, eff_bind, read_db. rewrite Hl1, Hlist. cbn [map_err].
  pose proof (plan_projects_spec paths now parse_rfc3339 url_parse pkg_version json_parse parse_modules yaml_from_str apply_merge
    sqlite_display time_format_error config_error_text daemon_error_text avail (dm_db s1) projects [] ∅ (list_projects_ids _ _ Hlist) s1) as Hplan.
  unfold mbind at 1, eff_bind. destruct (plan_projects _ _ _ _ _ _ _ _ _ _ _ _ _ _ ∅ projects s1) as [[workers|e] s2].
  2: { apply Hplan. split; try done; intros *; rewrite ?lookup_empty; try done. by intros ?%elem_of_nil. }
  assert (planned (dm_db s1) projects workers (dm_db s2)) as Hpl.
  { apply Hplan. split; try done; intros *; rewrite ?lookup_empty; try done. by intros ?%elem_of_nil. }
  clear Hplan. pose proof (storage_reads paths sha256_hex s2) as Hst. unfold mbind, eff_bind.
  destruct (gateway_storage_path paths sha256_hex s2) as [[storage|e] s3]; cbn in Hst; cbn -[sorted_worker]; rewrite Hst; [|by eapply pl_ports].
  set (listed := sorted_worker <$> (btree_iter workers).*2).
  assert (∀ g, port <$> port_of (dm_db s2) (Gateway g) = port <$> port_of (dm_db s1) (Gateway g)) as Hgw.
  { intros gp. by rewrite (pl_others _ _ _ _ Hpl). }
  pose proof (listed_keys _ _ _ _ Hpl : pw_runtime_key <$> listed = _) as Hkeys.
  split; cbn -[sorted_worker]; fold listed.
  - by eapply pl_ports.
  - exact (eq_trans (Hgw Http) Hh).
  - exact (eq_trans (Hgw Https) Hhs).
  - apply (listed_known _ _ _ _ Hpl).
  - pose proof (ports_apart (dm_db s2) ((Gateway Http, assigned_port (http g)) :: (Gateway Https, assigned_port (https g))
      :: ((λ w, (PhpWorker (pw_runtime_key w), pw_port w)) <$> listed)) (pl_ports _ _ _ _ Hpl)) as Hap.
    cbn in Hap. rewrite <-!list_fmap_compose in Hap. apply Hap.
    + apply NoDup_cons. split; [by intros [?|(w & ? & _)%list_elem_of_fmap]%elem_of_cons|]. apply NoDup_cons.
      split; [by intros (w & ? & _)%list_elem_of_fmap|].
      rewrite (list_fmap_compose pw_runtime_key PhpWorker). apply NoDup_fmap_2; [by intros ?? [=]|]. rewrite Hkeys. apply NoDup_fst_btree_iter.
    + intros o p [[= -> ->]|[[= -> ->]|(w & [= -> ->] & Hw)%list_elem_of_fmap]%elem_of_cons]%elem_of_cons; [by rewrite Hgw..|].
      by apply (listed_known _ _ _ _ Hpl w).
  - rewrite Hkeys. apply NoDup_fst_btree_iter.
  - intros o Hg Hw. rewrite (pl_others _ _ _ _ Hpl); [by apply Hother|]. intros k ->. destruct (workers !! k) as [w|] eqn:Hk; [|done].
    destruct (Hw (sorted_worker w)); [apply (elem_of_listed workers); by exists k, w|]. cbn. f_equal. symmetry. by apply (pl_known _ _ _ _ Hpl).
  - apply (listed_once _ _ _ _ Hpl).
  - intros w j (k & w0 & Hk & ->)%(elem_of_listed workers) Hj. by apply (pl_from _ _ _ _ Hpl k w0 j Hk), sorted_projects.
  - intros p Hp Hm. destruct (pl_all _ _ _ _ Hpl p Hp Hm) as [?|?]; [left; by apply listed_in_plan|by right].
  - intros w (k & w0 & Hk & ->)%(elem_of_listed workers). apply sort_on_sorted.
Qed.
End build.

(** *** One project that is served *)

Definition srv_plan `{Host} (yaml : result string yaml) : result DaemonError RuntimePlan * Daemon :=
  build_runtime_plan (for_home ["home"]) shop_now sample_rfc3339 sample_url_parse "1.0.0" sample_json_parse (λ _, Ok []) (λ _, yaml) Ok
    (λ _, "") "" (λ _, "config") (λ _, "daemon") (λ _ _ p, negb (p =? 48080)%Z) (λ _, "cafe") srv_daemon.

Definition ports_of_plan (plan : RuntimePlan) : Z * Z * list (string * Z * list string) :=
  (gp_http_port (rn_gateway plan), gp_https_port (rn_gateway plan),
   (λ w, (pw_runtime_key w, pw_port w, rj_primary_hostname <$> pw_projects w)) <$> rn_workers plan).

(** The preferred HTTP port is taken; the worker gets the port after the gateway's. *)
Example srv_plan_ports : ports_of_plan <$> (srv_plan (H := faulty_host None) (Ok (php_yaml []))).1
  = Ok (45000%Z, 48443%Z, [("8.4", 45001%Z, ["acme.test"])]).
Proof. by vm_compute. Qed.
(** A configuration that cannot be read, of a project that never had a runtime. *)
Example srv_plan_refused : let '(r, s') := srv_plan (H := faulty_host None) (Err "bad") in
  (ports_of_plan <$> r, o_status <$> observed_states (dm_db s') !! env_key "p1") = (Ok (45000%Z, 48443%Z, []), Some "failed").
Proof. by vm_compute. Qed.

Lemma sample_db_ports : ports_wf sample_db.
Proof.
  assert (ports sample_db = ∅ ∧ resource_ports sample_db = ∅) as [Hp Hr] by done.
  split; rewrite ?Hp, ?Hr; [by intros k row ?%lookup_empty_Some..|apply NoDup_nil_2].
Qed.
Lemma srv_projects : ∃ l, list_projects (dm_db srv_daemon) = Ok l.
Proof. eexists. vm_compute. reflexivity. Qed.
Lemma srv_plan_ok : is_ok (srv_plan (H := faulty_host None) (Ok (php_yaml []))).1 = true.
Proof. by vm_compute. Qed.

Lemma build_runtime_plan_spec_witness : ∃ projects plan s',
  srv_plan (H := faulty_host None) (Ok (php_yaml [])) = (Ok plan, s') ∧ plan_made (dm_db srv_daemon) projects plan (dm_db s').
Proof.
  destruct srv_projects as [projects Hl].
  pose proof (build_runtime_plan_spec (H := faulty_host None) (for_home ["home"]) shop_now sample_rfc3339 sample_url_parse "1.0.0" sample_json_parse
    (λ _, Ok []) (λ _, Ok (php_yaml [])) Ok (λ _, "") "" (λ _, "config") (λ _, "daemon") (λ _ _ p, negb (p =? 48080)%Z) (λ _, "cafe")
    srv_daemon projects sample_db_ports Hl) as Hspec.
  pose proof srv_plan_ok as Hok. unfold srv_plan in Hok |- *.
  destruct (build_runtime_plan _ _ _ _ _ _ _ _ _ _ _ _ _ _ _ srv_daemon) as [[plan|e] s']; [|discriminate Hok].
  exists projects, plan, s'. exact (conj eq_refl Hspec).
Defined.
