(* ===== verification/Gateway.v ===== *)
(** * The gateway and the PHP workers ([daemon/src/gateway.rs]): their configuration is put
    in place, their processes are reloaded or started, and what became of them is recorded

    The state has the daemon's (the database, the files, the log), what the supervisor
    keeps (the time, the calls, the signals and the processes), a count of how often the
    database was opened, and the diagnostics that were logged.

    Parameters: opening the database, running FrankenPHP to validate a configuration,
    [pfctl], the listeners on loopback as a text, and those of [GatewayPlan]. The counters
    of the names of candidates are the [World]'s. *)

From stdpp Require Import pretty.
From S2P Require Import Prelude RustStr Paths Identity Manifest HostFs StateFs StatePaths ResourceCache PhpRuntimes.
From S2P Require Import StateTypes StateDb StatePorts StateResources StateObserved StateProjects Effects Errors.
From S2P Require PfRules PfInstall ResourceCommands.
From S2P Require Import Supervisor GatewayConfig.
From S2P Require Import ConfigModel ConfigParser ConfigFiles ProjectPlan ProjectReconcile GatewayPlan.
Import PfRules (PfRedirectConfig, Build_PfRedirectConfig, ActivePfRedirectInspection, pf_enabled, pv_anchor_has_unparsed_rules,
  resolved_target_ports, has_unresolved_redirect_targets, PfConfReference, PfConfReferenceUnit).
Import PfInstall (PfFileState, FileCurrent, inspect_pf_anchor_file, inspect_pf_conf_reference, inspect_active_pf_redirects_unprivileged,
  PlatformError).
Import ResourceCommands (RuntimeArtifactAdapter, rt_resource_name, rt_executable_relative_path, rt_required_file_relative_paths,
  frankenphp_adapter, invalid_layout).

#[local] Existing Instance PfRules.pf_config_eq_dec.

Definition PHP_INI_ENVIRONMENT_KEYS : list string := ["PHPRC"; "PHP_INI_SCAN_DIR"].
Definition RUNTIME_READINESS_TIMEOUT : N := millis 60000.
Definition PF_PUBLIC_READINESS_TIMEOUT : N := millis 2000.
Definition FOREIGN_LISTENER_PROBE_TIMEOUT : N := millis 100.
Definition STOP_GRACE_PERIOD : N := millis 1000.
Definition PUBLIC_HTTP_PORT : Z := 80.
Definition PUBLIC_HTTPS_PORT : Z := 443.
Definition GATEWAY_RUNTIME_RECONCILED : string := "Gateway runtime reconciled".
Definition FRANKENPHP_NOT_INSTALLED : string := "Gateway runtime skipped; FrankenPHP is not installed".

(** ** Data *)

Record FrankenphpCommand := { fc_executable : string }.
Record InstalledFrankenphpRuntime := { if_command : FrankenphpCommand; if_artifact_root : HostFs.path }.

Inductive GatewayPfRoutingState : Type := RoutingActive | RoutingInactive | RoutingDrifted | RoutingUnknown.
#[export] Instance routing_eq_dec : EqDecision GatewayPfRoutingState.
Proof. solve_decision. Defined.

Inductive ReadinessFailurePolicy : Type := FailRuntime | PreserveRuntime.
#[export] Instance policy_eq_dec : EqDecision ReadinessFailurePolicy.
Proof. solve_decision. Defined.
Inductive RuntimeReadinessOutcome : Type := Verified | Unverified.
#[export] Instance outcome_eq_dec : EqDecision RuntimeReadinessOutcome.
Proof. solve_decision. Defined.

Record RuntimeReadinessPlan := { rd_check : ReadinessCheck; rd_failure_policy : ReadinessFailurePolicy; rd_timeout : N }.
Record GatewayReadinessPorts := { gy_http : Z; gy_https : Z }.

Record ProjectConfigFragment := {
  fg_project_id : string;
  fg_file_name : string;
  fg_primary_hostname : string;
  fg_content : string;
}.
Record GatewayConfigReconciliation := { gn_promoted_config : PromotedConfigTree; gn_readiness_hostname : option string }.

(** [structured_log::runtime_readiness_diagnostics]. *)
Record ReadinessDiagnostics := { dg_runtime : string; dg_error : string; dg_process_exited : string; dg_listeners : string }.

(** How a run of FrankenPHP to validate a configuration ends. *)
Inductive ValidationRun : Type :=
| ValidationNotStarted (e : IoError)
| ValidationWithoutPid
| ValidationWaitFails (e : IoError)
| ValidationTimesOut
| ValidationUnread (e : IoError)
| ValidationEnds (success : bool) (status stdout stderr : string).
Record ValidationOutput := { vo_success : bool; vo_status : string; vo_stdout : string; vo_stderr : string }.

(** ** Commands and their environment *)

Definition frankenphp_config_arguments (action config_path : string) : list string :=
  [action; "--config"; config_path; "--adapter"; "caddyfile"].
Definition validate_arguments (config_path : string) : list string := frankenphp_config_arguments "validate" config_path.
Definition run_arguments (config_path : string) : list string := frankenphp_config_arguments "run" config_path.

Definition frankenphp_xdg_environment (paths : PvPaths) : gmap string string :=
  {[ "XDG_CONFIG_HOME" := path_str (pv_config paths); "XDG_DATA_HOME" := path_str (pv_certificates paths) ]}.

Definition gateway_process_spec (paths : PvPaths) (command : FrankenphpCommand) : ProcessSpec :=
  {| sp_name := "gateway"; sp_command := fc_executable command;
     sp_arguments := run_arguments (path_str (gateway_root_config paths));
     sp_private_environment := frankenphp_xdg_environment paths;
     sp_config_path := path_str (gateway_root_config paths); sp_log_path := path_str (gateway_log paths);
     sp_pid_path := path_str (gateway_pid paths); sp_metadata_path := path_str (gateway_runtime_metadata paths);
     sp_resource_name := "gateway"; sp_track := "core" |}.

(** ** Which subject a worker is *)

Definition worker_runtime_subject (worker : PhpWorkerRuntimePlan) : RuntimeSubject :=
  if bool_decide (pw_runtime_key worker = pw_php_track worker) then RuntimePhpWorker (pw_php_track worker)
  else PhpRuntimeWorker (pw_runtime_key worker).
Definition php_runtime_subject (runtime_key : string) : RuntimeSubject :=
  if contains "+" runtime_key then PhpRuntimeWorker runtime_key else RuntimePhpWorker runtime_key.

(** ** How the gateway is probed *)

Definition gateway_readiness_ports (plan : RuntimePlan) (state : GatewayPfRoutingState) : GatewayReadinessPorts :=
  if negb (bool_decide (state = RoutingInactive)) then {| gy_http := PUBLIC_HTTP_PORT; gy_https := PUBLIC_HTTPS_PORT |}
  else {| gy_http := gp_http_port (rn_gateway plan); gy_https := gp_https_port (rn_gateway plan) |}.

Definition gateway_readiness_check_for_ports (plan : RuntimePlan) (readiness_hostname : option string) (ports : GatewayReadinessPorts) : ReadinessCheck :=
  match readiness_hostname with
  | Some server_name => CheckGatewayHttps "127.0.0.1" (Z.to_N (gy_http ports)) "127.0.0.1" (Z.to_N (gy_https ports)) server_name
                          (path_str (gp_ca_certificate_path (rn_gateway plan)))
  | None => CheckTcp "127.0.0.1" (Z.to_N (gy_http ports))
  end.

Definition gateway_identity_readiness_check (expected_http_port expected_https_port probe_http_port probe_https_port : Z)
    (ca_certificate_path : HostFs.path) : ReadinessCheck :=
  CheckGatewayIdentity "127.0.0.1" (Z.to_N probe_http_port) "127.0.0.1" (Z.to_N probe_https_port) GATEWAY_HEALTH_HOSTNAME GATEWAY_HEALTH_PATH
    (gateway_health_response expected_http_port expected_https_port) (path_str ca_certificate_path).

Definition gateway_public_readiness_check (plan : RuntimePlan) (ports : GatewayReadinessPorts) : ReadinessCheck :=
  gateway_identity_readiness_check (gp_http_port (rn_gateway plan)) (gp_https_port (rn_gateway plan)) (gy_http ports) (gy_https ports)
    (gp_ca_certificate_path (rn_gateway plan)).

Definition gateway_readiness_plan (plan : RuntimePlan) (readiness_hostname : option string) (state : GatewayPfRoutingState)
    (readiness_timeout : N) : RuntimeReadinessPlan :=
  let ports := gateway_readiness_ports plan state in
  let failure_policy := match state with RoutingActive | RoutingInactive => FailRuntime | RoutingDrifted | RoutingUnknown => PreserveRuntime end in
  let timeout := match failure_policy with FailRuntime => readiness_timeout | PreserveRuntime => N.min readiness_timeout PF_PUBLIC_READINESS_TIMEOUT end in
  {| rd_check := if bool_decide (state = RoutingInactive) then gateway_readiness_check_for_ports plan readiness_hostname ports
                 else gateway_public_readiness_check plan ports;
     rd_failure_policy := failure_policy; rd_timeout := timeout |}.

Definition classify_gateway_pf_routing_state (expected : PfRedirectConfig) (inspection : option ActivePfRedirectInspection) (files_current : bool) :
    GatewayPfRoutingState :=
  match inspection with
  | None => if files_current then RoutingUnknown else RoutingDrifted
  | Some inspection =>
      match PfRules.pv_config inspection with
      | Some active =>
          if bool_decide (active = expected) && pf_enabled inspection && files_current then RoutingActive else RoutingDrifted
      | None =>
          if pv_anchor_has_unparsed_rules inspection || has_unresolved_redirect_targets inspection
             || bool_decide (PfRules.http_port expected ∈ resolved_target_ports inspection)
             || bool_decide (PfRules.https_port expected ∈ resolved_target_ports inspection)
          then RoutingDrifted else RoutingInactive
      end
  end.

Definition gateway_runtime_status (state : GatewayPfRoutingState) (outcome : RuntimeReadinessOutcome) : RuntimeObservedStatus * string :=
  match state, outcome with
  | RoutingActive, _ | RoutingUnknown, Verified => (RuntimeRunning, GATEWAY_RUNTIME_RECONCILED)
  | RoutingInactive, _ => (RuntimeDegraded, "Low-port routing is inactive; run `pv ports:install` to restore ports 80 and 443")
  | RoutingDrifted, _ => (RuntimeDegraded, "Low-port routing is drifted; run `pv ports:install` to restore ports 80 and 443")
  | RoutingUnknown, Unverified => (RuntimeDegraded, "Low-port routing is unknown; run `pv ports:install` to verify ports 80 and 443")
  end.

(** ** The state *)

Record GatewayState := {
  gs_daemon : Daemon;
  gs_now : N;
  gs_calls : nat;
  gs_sent : list Signalled;
  gs_spawned : list N;
  gs_opens : nat;
  gs_diagnostics : list ReadinessDiagnostics;
}.

Definition with_world (w : World) (s : Daemon) : Daemon :=
  {| dm_db := dm_db s; dm_world := w; dm_ticks := dm_ticks s; dm_log := dm_log s |}.

Definition daemon_part : part GatewayState Daemon := {|
  get_part := gs_daemon;
  set_part d s := {| gs_daemon := d; gs_now := gs_now s; gs_calls := gs_calls s; gs_sent := gs_sent s; gs_spawned := gs_spawned s;
                     gs_opens := gs_opens s; gs_diagnostics := gs_diagnostics s |} |}.
(** What the supervisor keeps: the files are the daemon's. *)
Definition sup_part : part GatewayState Supervised := {|
  get_part s := {| su_world := dm_world (gs_daemon s); su_now := gs_now s; su_calls := gs_calls s; su_sent := gs_sent s; su_spawned := gs_spawned s |};
  set_part u s := {| gs_daemon := with_world (su_world u) (gs_daemon s); gs_now := su_now u; gs_calls := su_calls u; gs_sent := su_sent u;
                     gs_spawned := su_spawned u; gs_opens := gs_opens s; gs_diagnostics := gs_diagnostics s |} |}.

Definition Gw (A : Type) : Type := eff GatewayState DaemonError A.

Definition on_daemon {A : Type} (m : act A) : Gw A := on_part daemon_part (λ e, e) m.
Definition on_sup {A : Type} (m : Sup A) : Gw A := on_part sup_part (λ e, e) m.
Definition on_io {A : Type} (m : IO DaemonError A) : Gw A := on_daemon (on_world m).
Definition counted_open (s : GatewayState) : GatewayState :=
  {| gs_daemon := gs_daemon s; gs_now := gs_now s; gs_calls := gs_calls s; gs_sent := gs_sent s; gs_spawned := gs_spawned s;
     gs_opens := S (gs_opens s); gs_diagnostics := gs_diagnostics s |}.
Definition with_diagnostics (d : ReadinessDiagnostics) (s : GatewayState) : GatewayState :=
  {| gs_daemon := gs_daemon s; gs_now := gs_now s; gs_calls := gs_calls s; gs_sent := gs_sent s; gs_spawned := gs_spawned s;
     gs_opens := gs_opens s; gs_diagnostics := gs_diagnostics s ++ [d] |}.

Definition gateway_problem (reason : string) : DaemonError := UnexpectedProtocolResponse reason.

Section gateway.
Context `{Host} `{Json} `{ProcessHost} `{MetadataJson} (paths : PvPaths) (now : nat → string).
Context (parse_rfc3339 : string → option Z) (url_parse : string → option ParsedUrl) (pkg_version : string).
Context (json_parse : string → result string RawManifest) (parse_modules : string → result string (list RawPhpExtensionModule)).
Context (yaml_from_str : string → result string yaml) (apply_merge : yaml → result string yaml).
Context (sqlite_display : SqliteError → string) (time_format_error PHP_TRACK_DEFAULT_INI : string).
Context (config_error_text : ConfigError → string) (daemon_error_text : DaemonError → string).
Context (local_loopback_port_available : nat → list Z → Z → bool) (sha256_hex : string → string).
(** [Database::open], the [n]-th time. *)
Context (database_open : nat → result StateError unit).
(** FrankenPHP, run by the [n]-th call of the files with a path, arguments, the variables it
    does not inherit and those that it is given. *)
Context (run_frankenphp : nat → string → list string → list string → gmap string string → ValidationRun).
Context (run_system_output : string → list string → IO PlatformError string).
Context (loopback_listener_port_snapshot : nat → string).

Definition open_database : Gw unit := λ s, (map_err DaemonState (database_open (gs_opens s)), counted_open s).

(** ** Recording *)

Definition record_runtime_observed (subject : RuntimeSubject) (status : RuntimeObservedStatus) (message : option string) : Gw unit :=
  _ ← open_database;
  on_daemon (_ ← stamped now (record_runtime_observed_snapshot subject status message); mret tt).
Definition record_runtime_error (subject : RuntimeSubject) (error : DaemonError) : Gw unit :=
  record_runtime_observed subject RuntimeFailed (Some (daemon_error_text error)).
(** [record_runtime_error(..)?; return Err(error);] *)
Definition fail_recorded {A : Type} (subject : RuntimeSubject) (error : DaemonError) : Gw A :=
  _ ← record_runtime_error subject error; eff_fail error.
(** A step whose error is recorded. *)
Definition or_record {A : Type} (subject : RuntimeSubject) (m : Gw A) : Gw A :=
  r ← eff_try m; match r with Ok a => mret a | Err error => fail_recorded subject error end.

Definition record_gateway_runtime_observed (state : GatewayPfRoutingState) (outcome : RuntimeReadinessOutcome) : Gw unit :=
  let '(status, message) := gateway_runtime_status state outcome in
  record_runtime_observed RuntimeGateway status (Some message).

(** ** The installed FrankenPHP *)

(** [path_is_file] of [resources/src/fs.rs]. *)
Definition resource_is_file (p : HostFs.path) : IO ResourcesError bool := λ w,
  match std_symlink_metadata p w with
  | (Ok n, w) => (Ok (match n with File _ => true | _ => false end), w)
  | (Err source, w) => match io_kind source with HostFs.NotFound => (Ok false, w) | HostFs.OtherKind => (Err (filesystem_error p source), w) end
  end.
Fixpoint require_installed (name : ResourceName) (root : HostFs.path) (required : list string) : IO ResourcesError unit :=
  match required with
  | [] => mret tt
  | required_file :: required =>
      found ← resource_is_file (join_path root required_file);
      if found : bool then require_installed name root required
      else io_fail (invalid_layout name ("missing required file " +:+ tick required_file))
  end.
Definition validate_installation (a : RuntimeArtifactAdapter) (root : HostFs.path) : IO ResourcesError unit :=
  found ← resource_is_file (join_path root (rt_executable_relative_path a));
  if found : bool then require_installed (rt_resource_name a) root (rt_required_file_relative_paths a)
  else io_fail (invalid_layout (rt_resource_name a) ("missing executable " +:+ tick (rt_executable_relative_path a))).

Definition frankenphp_runtime_from_record (record : ManagedResourceTrackRecord) : act InstalledFrankenphpRuntime :=
  match tr_current_artifact_path record with
  | None => eff_fail (gateway_problem ("installed FrankenPHP track " +:+ tick (tr_track record) +:+ " is missing an artifact path"))
  | Some artifact_path =>
      let root := tree_path artifact_path in
      adapter ← resources_lift frankenphp_adapter;
      _ ← on_resources (validate_installation adapter root);
      mret {| if_command := {| fc_executable := path_str (join_path root (rt_executable_relative_path adapter)) |}; if_artifact_root := root |}
  end.

Definition installed_frankenphp_tracks : act (list ManagedResourceTrackRecord) :=
  records ← read_db list_managed_resource_tracks;
  mret (List.filter (λ record, bool_decide (tr_resource_name record = "frankenphp") && bool_decide (tr_desired_state record = Installed)
          && option_bool (tr_installed_version record) && option_bool (tr_current_artifact_path record)) records).

Definition first_installed_frankenphp_command : Gw (option FrankenphpCommand) :=
  _ ← open_database;
  on_daemon (tracks ← installed_frankenphp_tracks;
             match last tracks with
             | None => mret None
             | Some record => runtime ← frankenphp_runtime_from_record record; mret (Some (if_command runtime))
             end).

Definition installed_frankenphp_runtime_for_track (php_track : string) : Gw (option InstalledFrankenphpRuntime) :=
  _ ← open_database;
  on_daemon (tracks ← installed_frankenphp_tracks;
             match List.find (λ record, bool_decide (tr_track record = php_track)) tracks with
             | None => mret None
             | Some record => runtime ← frankenphp_runtime_from_record record; mret (Some runtime)
             end).

Definition plan_runtimes : Gw RuntimePlan :=
  _ ← open_database;
  on_daemon (build_runtime_plan paths now parse_rfc3339 url_parse pkg_version json_parse parse_modules yaml_from_str apply_merge
    sqlite_display time_format_error config_error_text daemon_error_text local_loopback_port_available sha256_hex).

(** ** Validation by FrankenPHP *)

Definition run_validation_command (command : FrankenphpCommand) (config_path : HostFs.path) (private_environment : gmap string string) :
    IO DaemonError ValidationOutput := λ w,
  let w' := {| files := files w; clock := S (clock w); counter := counter w |} in
  match run_frankenphp (clock w) (fc_executable command) (validate_arguments (path_str config_path)) PHP_INI_ENVIRONMENT_KEYS private_environment with
  | ValidationNotStarted e | ValidationWaitFails e | ValidationUnread e => (Err (DaemonIo e), w')
  | ValidationWithoutPid => (Err (MissingProcessId "FrankenPHP config validation"), w')
  | ValidationTimesOut => (Err (ProtocolTimedOut "FrankenPHP config validation"), w')
  | ValidationEnds success status stdout stderr =>
      (Ok {| vo_success := success; vo_status := status; vo_stdout := stdout; vo_stderr := stderr |}, w')
  end.

Definition validate_config (command : FrankenphpCommand) (private_environment : gmap string string) (config_path : HostFs.path) :
    IO DaemonError unit :=
  output ← run_validation_command command config_path private_environment;
  if vo_success output then mret tt
  else io_fail (gateway_problem ("FrankenPHP config validation failed for " +:+ path_str config_path +:+ ": status=" +:+ vo_status output
                  +:+ "; stdout=" +:+ vo_stdout output +:+ "; stderr=" +:+ vo_stderr output)).

(** ** Environments of the workers *)

Definition frankenphp_worker_environment (worker : PhpWorkerRuntimePlan) (artifact_root : HostFs.path) : act (gmap string string) :=
  environment ← on_resources (php_runtime_environment sqlite_display time_format_error paths (pw_php_track worker) (pw_runtime_key worker)
                                artifact_root (pw_loaded_modules worker));
  mret (environment ∪ frankenphp_xdg_environment paths).

Definition worker_config_private_environment (worker : PhpWorkerRuntimePlan) (artifact_root : HostFs.path) : act (gmap string string) :=
  _ ← on_part world_part DaemonState (ensure_php_track_defaults paths PHP_TRACK_DEFAULT_INI (pw_php_track worker));
  frankenphp_worker_environment worker artifact_root.

Definition worker_process_spec (worker : PhpWorkerRuntimePlan) (command : FrankenphpCommand) (artifact_root : HostFs.path) : act ProcessSpec :=
  private_environment ← frankenphp_worker_environment worker artifact_root;
  let key := pw_runtime_key worker in
  mret {| sp_name := "php-worker-" +:+ key; sp_command := fc_executable command;
          sp_arguments := run_arguments (path_str (worker_root_config paths key)); sp_private_environment := private_environment;
          sp_config_path := path_str (worker_root_config paths key); sp_log_path := path_str (worker_log paths key);
          sp_pid_path := path_str (worker_pid paths key); sp_metadata_path := path_str (worker_runtime_metadata paths key);
          sp_resource_name := "php-worker"; sp_track := key |}.

(** ** Packet filter *)

Definition SYSTEM_PF_ANCHOR_PATH : HostFs.path := ["etc"; "pf.anchors"; "com.prvious.pv"].
Definition SYSTEM_PF_CONF_PATH : HostFs.path := ["etc"; "pf.conf"].

Definition is_current {T : Type} (state : PfFileState T) : bool := match state with FileCurrent _ _ => true | _ => false end.

Definition pf_files_current (expected : PfRedirectConfig) : IO DaemonError bool :=
  prepared_anchor ← inspect_pf_anchor_file (pf_anchor_config paths) (Some expected);
  prepared_reference ← inspect_pf_conf_reference (pf_conf_reference_config paths) (Some PfConfReferenceUnit);
  system_anchor ← inspect_pf_anchor_file SYSTEM_PF_ANCHOR_PATH (Some expected);
  system_reference ← inspect_pf_conf_reference SYSTEM_PF_CONF_PATH (Some PfConfReferenceUnit);
  mret (is_current prepared_anchor && is_current prepared_reference && is_current system_anchor && is_current system_reference).

Definition gateway_pf_routing_state (plan : RuntimePlan) : IO DaemonError GatewayPfRoutingState :=
  let expected := {| PfRules.http_port := Z.to_N (gp_http_port (rn_gateway plan)); PfRules.https_port := Z.to_N (gp_https_port (rn_gateway plan)) |} in
  files_current ← pf_files_current expected;
  inspected ← io_try (inspect_active_pf_redirects_unprivileged run_system_output);
  mret (match inspected with
        | Ok inspection => classify_gateway_pf_routing_state expected (Some inspection) files_current
        | Err _ => classify_gateway_pf_routing_state expected None files_current
        end).

(** ** Fragments *)

Definition project_config_file_name (project_id : string) : string := project_id +:+ ".Caddyfile".

Definition candidate_config_dir_for (directory : HostFs.path) : IO DaemonError HostFs.path :=
  counter ← fetch_counter;
  mret (with_file_name (temporary_name (default "projects" (file_name directory)) "candidate" counter) directory).

Definition read_preserved_project_config_fragment (directory : HostFs.path) (name : string) : IO DaemonError (option string) :=
  on_fs (or_missing None (content ← StateFs.read_to_string (join_path directory name); mret (Some content))).

Definition gateway_project_routes (plan : RuntimePlan) : list GatewayProjectRoute :=
  worker ← rn_workers plan;
  (λ project, {| gr_id := rj_id project; gr_render_config := rj_render_config project; gr_primary_hostname := rj_primary_hostname project;
                 gr_hostnames := rj_hostnames project; gr_worker_port := pw_port worker |}) <$> pw_projects worker.

(** The fragments that there are: rendered now, or as they were. *)
Fixpoint config_fragments {A : Type} (active_dir : HostFs.path) (project_id hostname : A → string) (rendered : A → option (result DaemonError string))
    (l : list A) : IO DaemonError (list ProjectConfigFragment) :=
  match l with
  | [] => mret []
  | x :: l =>
      let name := project_config_file_name (project_id x) in
      content ← (match rendered x with
                 | Some content => content ← io_lift content; mret (Some content)
                 | None => read_preserved_project_config_fragment active_dir name
                 end);
      rest ← config_fragments active_dir project_id hostname rendered l;
      mret (match content with
            | Some content => {| fg_project_id := project_id x; fg_file_name := name; fg_primary_hostname := hostname x; fg_content := content |} :: rest
            | None => rest
            end)
  end.

Definition gateway_project_config_fragments (routes : list GatewayProjectRoute) : IO DaemonError (list ProjectConfigFragment) :=
  config_fragments (gateway_projects_config_dir paths) gr_id gr_primary_hostname
    (λ route, if gr_render_config route then Some (render_gateway_project_config route) else None) routes.

Definition worker_project (project : RuntimeProject) : PhpWorkerProject :=
  {| wp_primary_hostname := rj_primary_hostname project; wp_hostnames := rj_hostnames project;
     wp_project_root := rj_project_root project; wp_document_root := rj_document_root project |}.
Definition worker_project_config_fragments (worker : PhpWorkerRuntimePlan) : IO DaemonError (list ProjectConfigFragment) :=
  config_fragments (worker_projects_config_dir paths (pw_runtime_key worker)) rj_id rj_primary_hostname
    (λ project, if rj_render_config project then Some (render_php_worker_project_config (worker_project project) (pw_port worker)) else None)
    (pw_projects worker).

Definition gateway_readiness_hostname (fragments : list ProjectConfigFragment) : option string := fg_primary_hostname <$> head fragments.

Fixpoint write_fragments (directory : HostFs.path) (fragments : list ProjectConfigFragment) : IO DaemonError unit :=
  match fragments with
  | [] => mret tt
  | fragment :: fragments =>
      _ ← on_fs (write_sensitive_file (join_path directory (fg_file_name fragment)) (fg_content fragment)); write_fragments directory fragments
  end.
Definition delete_optional_file (p : HostFs.path) : IO DaemonError unit := on_fs (or_missing tt (delete_file p)).
Definition write_project_config_fragments (directory : HostFs.path) (fragments : list ProjectConfigFragment) : IO DaemonError unit :=
  match fragments with
  | [] =>
      let marker_path := join_path directory ".pv-empty" in
      _ ← on_fs (write_sensitive_file marker_path ""); delete_optional_file marker_path
  | _ => write_fragments directory fragments
  end.

(** ** Putting a configuration in place *)

Record RuntimeConfigTreePromotion := {
  pn_subject : RuntimeSubject;
  pn_config_path : HostFs.path;
  pn_candidate_content : string;
  pn_active_content : string;
  pn_private_environment : gmap string string;
  pn_promote_fragments : IO DaemonError PromotedConfigDir;
  pn_command : FrankenphpCommand;
}.

Definition promote_runtime_config_tree (p : RuntimeConfigTreePromotion) : Gw PromotedConfigTree :=
  or_record (pn_subject p)
    (on_io (promote_validated_config_tree_async daemon_error_text (pn_config_path p) (pn_candidate_content p) (pn_active_content p)
              (validate_config (pn_command p) (pn_private_environment p)) (pn_promote_fragments p))).

(** Writing the fragments of a candidate, promoting it, and clearing up. *)
Definition write_and_promote (subject : RuntimeSubject) (candidate_dir : HostFs.path) (fragments : list ProjectConfigFragment)
    (promotion : RuntimeConfigTreePromotion) : Gw PromotedConfigTree :=
  written ← eff_try (on_io (write_project_config_fragments candidate_dir fragments));
  promoted ← (match written with
              | Ok _ => eff_try (promote_runtime_config_tree promotion)
              | Err error => _ ← record_runtime_error subject error; mret (Err error)
              end);
  _cleanup ← eff_try (E := DaemonError) (on_io (delete_optional_dir candidate_dir));
  eff_lift promoted.

Definition gateway_config_input (plan : RuntimePlan) (glob : HostFs.path) (import_project_configs : bool) : GatewayConfigInput :=
  let gateway := rn_gateway plan in
  {| gc_http_port := gp_http_port gateway; gc_https_port := gp_https_port gateway;
     gc_ca_certificate_path := gp_ca_certificate_path gateway; gc_ca_private_key_path := gp_ca_private_key_path gateway;
     gc_storage_path := gp_storage_path gateway; gc_projects_config_glob := glob; gc_import_project_configs := import_project_configs |}.
Definition all_fragments (directory : HostFs.path) : HostFs.path := join_path directory "*.Caddyfile".

(** Once the candidate's directory has a name. *)
Definition promote_gateway_config (command : FrankenphpCommand) (plan : RuntimePlan) (active_dir candidate_dir : HostFs.path) :
    Gw GatewayConfigReconciliation :=
  fragments ← on_io (gateway_project_config_fragments (gateway_project_routes plan));
  let import_project_configs := negb (bool_decide (length fragments = 0)) in
  active_content ← or_record RuntimeGateway
    (eff_lift (render_gateway_config (gateway_config_input plan (all_fragments active_dir) import_project_configs)));
  candidate_content ← or_record RuntimeGateway
    (eff_lift (render_gateway_config (gateway_config_input plan (all_fragments candidate_dir) import_project_configs)));
  promoted_config ← write_and_promote RuntimeGateway candidate_dir fragments
    {| pn_subject := RuntimeGateway; pn_config_path := gateway_root_config paths; pn_candidate_content := candidate_content;
       pn_active_content := active_content; pn_private_environment := frankenphp_xdg_environment paths;
       pn_promote_fragments := promote_config_dir daemon_error_text active_dir candidate_dir; pn_command := command |};
  mret {| gn_promoted_config := promoted_config; gn_readiness_hostname := gateway_readiness_hostname fragments |}.

Definition reconcile_gateway_config (command : FrankenphpCommand) (plan : RuntimePlan) : Gw GatewayConfigReconciliation :=
  let active_dir := gateway_projects_config_dir paths in
  candidate_dir ← on_io (candidate_config_dir_for active_dir);
  promote_gateway_config command plan active_dir candidate_dir.

Definition worker_config_input (worker : PhpWorkerRuntimePlan) (glob : HostFs.path) (projects : list PhpWorkerProject) : PhpWorkerConfigInput :=
  {| wc_php_track := pw_php_track worker; wc_port := pw_port worker; wc_projects_config_glob := glob; wc_projects := projects |}.

Definition reconcile_worker_config (command : FrankenphpCommand) (artifact_root : HostFs.path) (worker : PhpWorkerRuntimePlan) : Gw PromotedConfigTree :=
  let subject := worker_runtime_subject worker in
  private_environment ← or_record subject (on_daemon (worker_config_private_environment worker artifact_root));
  let active_dir := worker_projects_config_dir paths (pw_runtime_key worker) in
  candidate_dir ← on_io (candidate_config_dir_for active_dir);
  fragments ← on_io (worker_project_config_fragments worker);
  let projects := worker_project <$> List.filter (λ project, bool_decide (rj_id project ∈ fg_project_id <$> fragments)) (pw_projects worker) in
  active_content ← or_record subject (eff_lift (render_php_worker_config (worker_config_input worker (all_fragments active_dir) projects)));
  candidate_content ← or_record subject (eff_lift (render_php_worker_config (worker_config_input worker (all_fragments candidate_dir) projects)));
  write_and_promote subject candidate_dir fragments
    {| pn_subject := subject; pn_config_path := worker_root_config paths (pw_runtime_key worker); pn_candidate_content := candidate_content;
       pn_active_content := active_content; pn_private_environment := private_environment;
       pn_promote_fragments := promote_config_dir daemon_error_text active_dir candidate_dir; pn_command := command |}.

(** ** Processes *)

Definition has_exited (process : ManagedProcess) : Sup bool := answer ← asks try_wait_at; eff_lift (map_err DaemonIo answer).

Definition foreign_listener_is_ready : Sup bool :=
  answer ← check_with_timeout FOREIGN_LISTENER_PROBE_TIMEOUT;
  mret (match answer with Some (Ok _) => true | _ => false end).

Definition runtime_process_exit_state (process : ManagedProcess) : Sup string :=
  exited ← eff_try (has_exited process);
  mret (match exited with Ok true => "true" | Ok false => "false" | Err error => "unknown: " +:+ daemon_error_text error end).

Definition record_runtime_readiness_diagnostics (spec : ProcessSpec) (process : ManagedProcess) (error : DaemonError) : Gw unit :=
  process_exited ← on_sup (runtime_process_exit_state process);
  listeners ← on_sup (asks loopback_listener_port_snapshot);
  eff_modify (with_diagnostics {| dg_runtime := sp_name spec; dg_error := daemon_error_text error; dg_process_exited := process_exited; dg_listeners := listeners |}).

(** A runtime that PV owns is told to read its configuration again. *)
Definition reload_runtime (spec : ProcessSpec) (readiness : RuntimeReadinessPlan) : Gw RuntimeReadinessOutcome :=
  reloaded ← on_sup (reload spec);
  if reloaded : bool then
    ready ← eff_try (on_sup (wait_for_readiness (check_name (rd_check readiness)) (rd_timeout readiness)));
    match ready with
    | Ok _ => mret Verified
    | Err error =>
        preserved ← (if bool_decide (rd_failure_policy readiness = PreserveRuntime)
                     then owned ← on_sup (verify_ownership spec); mret (option_bool owned) else mret false);
        if preserved : bool then mret Unverified else eff_fail error
    end
  else eff_fail (gateway_problem ("runtime " +:+ tick (sp_name spec) +:+ " could not be reloaded because PV ownership changed")).

(** What is recorded is stopped; a listener that PV does not own is left alone. *)
Definition clear_the_way (spec : ProcessSpec) : Gw unit :=
  recorded ← on_sup (adopt_recorded (sp_pid_path spec) (sp_metadata_path spec));
  match recorded with
  | Some adopted => on_sup (stop_adopted adopted STOP_GRACE_PERIOD)
  | None =>
      foreign ← on_sup foreign_listener_is_ready;
      if foreign : bool
      then eff_fail (gateway_problem ("runtime " +:+ tick (sp_name spec) +:+ " is listening but no PV-owned process could be verified"))
      else mret tt
  end.

(** Once the process is there. *)
Definition await_runtime (spec : ProcessSpec) (readiness : RuntimeReadinessPlan) (process : ManagedProcess) : Gw RuntimeReadinessOutcome :=
  ready ← eff_try (on_sup (wait_for_readiness (check_name (rd_check readiness)) (rd_timeout readiness)));
  match ready with
  | Err error =>
      _ ← record_runtime_readiness_diagnostics spec process error;
      preserved ← (if bool_decide (rd_failure_policy readiness = PreserveRuntime)
                   then exited ← on_sup (has_exited process); mret (negb exited) else mret false);
      if preserved : bool then mret Unverified
      else _ ← on_sup (stop_managed process STOP_GRACE_PERIOD); eff_fail error
  | Ok _ =>
      exited ← on_sup (has_exited process);
      if exited : bool then eff_fail (gateway_problem ("runtime " +:+ tick (sp_name spec) +:+ " exited before readiness was verified"))
      else mret Verified
  end.
Definition start_runtime (spec : ProcessSpec) (readiness : RuntimeReadinessPlan) : Gw RuntimeReadinessOutcome :=
  process ← on_sup (start paths spec); await_runtime spec readiness process.

Definition start_or_adopt_runtime (spec : ProcessSpec) (readiness : RuntimeReadinessPlan) (subject : RuntimeSubject) : Gw RuntimeReadinessOutcome :=
  or_record subject
    (adopted ← on_sup (adopt spec);
     match adopted with
     | Some _ => reload_runtime spec readiness
     | None => _ ← clear_the_way spec; start_runtime spec readiness
     end).

Definition runtime_config_rollback_failed_error (original rollback : DaemonError) : DaemonError :=
  gateway_problem ("Gateway runtime config rollback failed after runtime reconciliation failed: " +:+ daemon_error_text original
    +:+ "; rollback failed: " +:+ daemon_error_text rollback).

Definition start_or_adopt_promoted_runtime (promoted_config : PromotedConfigTree) (spec : ProcessSpec) (readiness : RuntimeReadinessPlan)
    (subject : RuntimeSubject) : Gw RuntimeReadinessOutcome :=
  result ← eff_try (start_or_adopt_runtime spec readiness subject);
  match result with
  | Ok outcome => _ ← or_record subject (on_io (commit_tree promoted_config)); mret outcome
  | Err error =>
      rolled_back ← eff_try (on_io (rollback_tree daemon_error_text promoted_config));
      match rolled_back with
      | Err rollback_error => fail_recorded subject (runtime_config_rollback_failed_error error rollback_error)
      | Ok _ => eff_fail error
      end
  end.

(** ** Workers that nothing needs any more *)

Definition read_directory_files (directory : HostFs.path) : IO DaemonError (list HostFs.path) :=
  λ w, match std_read_dir directory w with
       | (Ok entries, w) => (Ok (omap (λ '(name, n), match n with File _ => Some (directory ++ [name]) | _ => None end) entries), w)
       | (Err error, w) => match io_kind error with HostFs.NotFound => (Ok [], w) | HostFs.OtherKind => (Err (DaemonIo error), w) end
       end.

Definition worker_track_of (p : HostFs.path) : option string :=
  match file_name p with Some name => strip_prefix "php-" name ≫= strip_suffix ".json" | None => None end.
Definition runtime_worker_tracks : IO DaemonError (list string) :=
  files ← read_directory_files (join_path (pv_run paths) "workers"); mret (omap worker_track_of files).

Definition cleanup_stale_worker_runtime (runtime_key : string) : Gw unit :=
  _ ← on_io (delete_optional_file (worker_pid paths runtime_key));
  _ ← on_io (delete_optional_file (worker_runtime_metadata paths runtime_key));
  _ ← on_io (delete_optional_file (worker_root_config paths runtime_key));
  _ ← on_io (delete_optional_dir (worker_projects_config_dir paths runtime_key));
  _ ← open_database;
  on_daemon (_ ← on_db (release_port (PhpWorker runtime_key)); mret tt).

Definition stop_stale_worker (runtime_key : string) : Gw unit :=
  adopted ← on_sup (adopt_recorded (path_str (worker_pid paths runtime_key)) (path_str (worker_runtime_metadata paths runtime_key)));
  _ ← (match adopted with Some adopted => on_sup (stop_adopted adopted STOP_GRACE_PERIOD) | None => mret tt end);
  _ ← record_runtime_observed (php_runtime_subject runtime_key) RuntimeStopped (Some "PHP worker stopped; no Projects remain on this track");
  cleanup_stale_worker_runtime runtime_key.

Definition stop_stale_worker_runtimes (plan : RuntimePlan) : Gw unit :=
  tracks ← on_io runtime_worker_tracks;
  eff_iter (λ runtime_key, if bool_decide (runtime_key ∈ pw_runtime_key <$> rn_workers plan) then mret tt else stop_stale_worker runtime_key) tracks.

(** ** Everything *)

Definition worker_readiness (worker : PhpWorkerRuntimePlan) (readiness_timeout : N) : RuntimeReadinessPlan :=
  {| rd_check := CheckTcp "127.0.0.1" (Z.to_N (pw_port worker)); rd_failure_policy := FailRuntime; rd_timeout := readiness_timeout |}.

(** Every worker's FrankenPHP is found before any worker is touched. *)
Fixpoint worker_commands (workers : list PhpWorkerRuntimePlan) : Gw (list (PhpWorkerRuntimePlan * InstalledFrankenphpRuntime)) :=
  match workers with
  | [] => mret []
  | worker :: workers =>
      runtime ← or_record (worker_runtime_subject worker)
        (found ← installed_frankenphp_runtime_for_track (pw_php_track worker);
         match found with
         | Some runtime => mret runtime
         | None => eff_fail (gateway_problem ("FrankenPHP is not installed for PHP track " +:+ tick (pw_php_track worker)))
         end);
      rest ← worker_commands workers;
      mret ((worker, runtime) :: rest)
  end.

Definition reconcile_worker (readiness_timeout : N) (w : PhpWorkerRuntimePlan * InstalledFrankenphpRuntime) : Gw unit :=
  let '(worker, runtime) := w in
  let subject := worker_runtime_subject worker in
  process_spec ← or_record subject (on_daemon (worker_process_spec worker (if_command runtime) (if_artifact_root runtime)));
  promoted_config ← reconcile_worker_config (if_command runtime) (if_artifact_root runtime) worker;
  _ ← start_or_adopt_promoted_runtime promoted_config process_spec (worker_readiness worker readiness_timeout) subject;
  record_runtime_observed subject RuntimeRunning (Some GATEWAY_RUNTIME_RECONCILED).

Definition reconcile_gateway (command : FrankenphpCommand) (plan : RuntimePlan) (readiness_timeout : N)
    (pf_routing_state : option GatewayPfRoutingState) : Gw unit :=
  gateway_config ← reconcile_gateway_config command plan;
  state ← (match pf_routing_state with Some state => mret state | None => on_io (gateway_pf_routing_state plan) end);
  outcome ← start_or_adopt_promoted_runtime (gn_promoted_config gateway_config) (gateway_process_spec paths command)
              (gateway_readiness_plan plan (gn_readiness_hostname gateway_config) state readiness_timeout) RuntimeGateway;
  record_gateway_runtime_observed state outcome.

Definition reconcile_plan (command : FrankenphpCommand) (plan : RuntimePlan) (readiness_timeout : N)
    (pf_routing_state : option GatewayPfRoutingState) : Gw string :=
  commands ← worker_commands (rn_workers plan);
  _ ← eff_iter (reconcile_worker readiness_timeout) commands;
  _ ← reconcile_gateway command plan readiness_timeout pf_routing_state;
  _ ← stop_stale_worker_runtimes plan;
  mret GATEWAY_RUNTIME_RECONCILED.

Definition reconcile_gateway_runtimes_with_pf_state (readiness_timeout : N) (pf_routing_state : option GatewayPfRoutingState) : Gw string :=
  gateway_command ← first_installed_frankenphp_command;
  match gateway_command with
  | None =>
      _ ← record_runtime_observed RuntimeGateway RuntimeStopped (Some FRANKENPHP_NOT_INSTALLED);
      mret FRANKENPHP_NOT_INSTALLED
  | Some command =>
      plan ← or_record RuntimeGateway plan_runtimes;
      reconcile_plan command plan readiness_timeout pf_routing_state
  end.
Definition reconcile_gateway_runtimes : Gw string := reconcile_gateway_runtimes_with_pf_state RUNTIME_READINESS_TIMEOUT None.

(** What [pv doctor] asks: is the gateway behind the public ports this one? *)
Definition probe_gateway_identity (expected : PfRedirectConfig) (ca_certificate_path : HostFs.path) : Sup unit :=
  wait_for_readiness (check_name (gateway_identity_readiness_check (Z.of_N (PfRules.http_port expected)) (Z.of_N (PfRules.https_port expected))
    PUBLIC_HTTP_PORT PUBLIC_HTTPS_PORT ca_certificate_path)) (millis 1000).
End gateway.

(** ** Properties *)

(** What the supervisor keeps. *)
Definition sup (s : GatewayState) : Supervised := get_part sup_part s.

(** The signals that were sent and the processes that were started between two states. *)
Definition ran (l : list Signalled) (ps : list N) (s s' : Supervised) : Prop :=
  su_sent s' = l ++ su_sent s ∧ su_spawned s' = ps ++ su_spawned s ∧ su_calls s ≤ su_calls s'.

Lemma ran_refl s : ran [] [] s s.
Proof. by split_and!. Qed.
Lemma ran_trans l1 p1 l2 p2 s1 s2 s3 : ran l1 p1 s1 s2 → ran l2 p2 s2 s3 → ran (l2 ++ l1) (p2 ++ p1) s1 s3.
Proof. intros (Hl1 & Hp1 & Hc1) (Hl2 & Hp2 & Hc2). split_and!; [by rewrite Hl2, Hl1, app_assoc|by rewrite Hp2, Hp1, app_assoc|lia]. Qed.
Lemma ran_logged l s s' : logged l s s' → ran l [] s s'.
Proof. intros [_ Hs Hp Hc _]. by split_and!. Qed.
Lemma ran_then l ps s1 s2 s3 : ran l ps s1 s2 → logged [] s2 s3 → ran l ps s1 s3.
Proof. intros H1 H2%ran_logged. exact (ran_trans _ _ [] [] _ _ _ H1 H2). Qed.

Section processes.
Context `{Host} `{ProcessHost} `{MetadataJson}.

(** [pid] was told to end. *)
Definition told (pid : N) (l : list Signalled) : Prop := ∃ k, k ∈ l ∧ sg_group k = pid ∧ (sg_signal k = Terminate ∨ sg_signal k = Kill).
(** The child was asked about between the two states, and had ended or could not be asked. *)
Definition ended (s s' : Supervised) : Prop := ∃ n, su_calls s ≤ n < su_calls s' ∧ try_wait_at n ≠ Ok false.
Definition probed (s s' : Supervised) : Prop := ∃ n d, su_calls s ≤ n < su_calls s' ∧ probe_at n = ProbeReady d.

Ltac quiet_step :=
  match goal with
  | |- quiet (_ ≫= _) => apply quiet_bind; [|intros ?]
  | |- quiet (match ?x with _ => _ end) => destruct x
  | |- quiet (mret _) => apply quiet_ret
  | |- quiet (eff_fail _) => apply quiet_fail
  | |- quiet (eff_lift _) => apply quiet_lift
  | |- quiet (eff_get _) => apply quiet_get
  | |- quiet (asks _) => apply quiet_asks
  | |- quiet (set_now _) => apply quiet_set_now
  | |- quiet (sleep _) => apply quiet_sleep
  | |- quiet (verify_ownership _) => apply quiet_verify
  | |- quiet (live_process_matches _ _ _ _ _) => apply quiet_live
  | |- quiet (Supervisor.read_optional_file _) => apply quiet_optional
  | |- quiet (process_group_exists _) => apply quiet_exists
  | |- quiet ?m => let h := get_head m in unfold h
  end
with get_head m := match m with ?f _ => get_head f | _ => m end.
Ltac quiet := repeat quiet_step.

Lemma quiet_try {E F A : Type} (m : eff Supervised E A) : quiet m → quiet (eff_try (F := F) m).
Proof. intros Hm s. specialize (Hm s). unfold eff_try. by destruct (m s) as [[]]. Qed.
Lemma quiet_adopt spec : quiet (adopt spec).
Proof. quiet. Qed.
Lemma quiet_adopt_recorded pid_path metadata_path : quiet (adopt_recorded pid_path metadata_path).
Proof. quiet. Qed.
Lemma quiet_foreign : quiet foreign_listener_is_ready.
Proof. unfold foreign_listener_is_ready, check_with_timeout. quiet. Qed.
Lemma quiet_exited p : quiet (has_exited p).
Proof. quiet. Qed.
Lemma quiet_exit_state text p : quiet (runtime_process_exit_state text p).
Proof. unfold runtime_process_exit_state. apply quiet_bind; [apply quiet_try, quiet_exited|intros ?; quiet]. Qed.

Lemma readiness_spec check timeout s :
  let '(r, s') := wait_for_readiness check timeout s in logged [] s s' ∧ (r = Ok tt → probed s s').
Proof.
  unfold wait_for_readiness, instant_now, mbind, eff_bind, eff_get.
  pose proof (readiness_loop_spec (poll_rounds timeout) check (su_now s) timeout None s) as Hr.
  pose proof (poll_rounds_enough timeout). destruct (readiness_loop _ _ _ _ _ s) as [r s'].
  destruct Hr as [Hl Hr]; [lia|lia|]. split; [done|]. by intros ->.
Qed.

Lemma exited_spec p s : let '(r, s') := has_exited p s in
  logged [] s s' ∧ su_calls s' = S (su_calls s) ∧ (r ≠ Ok false → try_wait_at (su_calls s) ≠ Ok false).
Proof.
  pose proof (quiet_exited p s) as Hq. revert Hq. unfold has_exited, mbind, eff_bind, asks, eff_lift. cbn.
  intros Hq. split; [done|]. split; [done|]. by destruct (try_wait_at (su_calls s)) as [[]|].
Qed.

Lemma stop_adopted_logged a grace_period s : ∃ l, logged l s (stop_adopted a grace_period s).2.
Proof.
  unfold stop_adopted, require_process_containment. unfold mbind at 1, eff_bind. unfold eff_lift.
  destruct containment as [[]|e]; cbn [map_err]; [|exists []; apply logged_refl].
  unfold mbind, eff_bind. assert (quiet (matches_live (ad_owned a))) as Hm by quiet. specialize (Hm s).
  destruct (matches_live (ad_owned a) s) as [[[]|e] s1]; cbn [negb]; [|by exists []..].
  pose proof (stop_by_pid_spec (ow_pid (ad_owned a)) grace_period s1) as Hs.
  destruct (stop_process_group_by_pid _ _ s1) as [r s']. destruct Hs as (l & Hl & _). exists l. cbn.
  by eapply logged_after.
Qed.

Lemma ran_files {A : Type} (m : IO FsError A) s : ran [] [] s (on_files m s).2.
Proof. unfold on_files, on_part. cbn. by destruct (m (su_world s)) as [[] ?]. Qed.

(** Nothing is signalled and nothing started. *)
Definition calm {A : Type} (m : Sup A) : Prop := ∀ s, ran [] [] s (m s).2.
Lemma calm_bind {A B : Type} (m : Sup A) (f : A → Sup B) : calm m → (∀ a, calm (f a)) → calm (m ≫= f).
Proof.
  intros Hm Hf s. specialize (Hm s). unfold mbind, eff_bind. destruct (m s) as [[a|e] s1]; [|done].
  exact (ran_trans _ _ _ _ _ _ _ Hm (Hf a s1)).
Qed.
Lemma calm_quiet {A : Type} (m : Sup A) : quiet m → calm m.
Proof. intros Hm s. apply ran_logged, Hm. Qed.
Lemma calm_persist spec pid : calm (persist_runtime_files spec pid).
Proof.
  unfold persist_runtime_files, write_runtime_metadata. apply calm_bind; [apply calm_quiet, quiet_identity|intros ?].
  apply calm_bind; [intros s; apply ran_files|intros ?]. apply calm_bind; [apply calm_quiet, quiet_asks|intros ?].
  apply calm_bind; [apply calm_quiet, quiet_lift|intros ?]. apply calm_bind; [apply calm_quiet, quiet_lift|intros ?]. intros s. apply ran_files.
Qed.

(** Killing a group: the signal is sent when the pid may be one. *)
Lemma signal_told pid signal s : (0 < pid ≤ I32_MAX)%N → signal = Terminate ∨ signal = Kill →
  ∃ k, logged [k] s (signal_process_group pid signal s).2 ∧ sg_group k = pid ∧ sg_signal k = signal.
Proof.
  intros Hpid Hsig. pose proof (signal_group_spec pid signal s) as Hk.
  assert (process_group_pid pid = Ok pid) as Hg.
  { unfold process_group_pid. destruct (N.ltb_spec I32_MAX pid); [lia|]. destruct (N.eqb_spec pid 0); [lia|done]. }
  rewrite Hg in Hk. destruct (signal_process_group pid signal s) as [r s1]. by exists (signalled s pid signal).
Qed.

(** A runtime that is started: one process, or none, or one that is killed at once. *)
Lemma start_ran paths spec s : (∀ n pid, spawn_at n = Ok (Some pid) → (0 < pid ≤ I32_MAX)%N) →
  match start paths spec s with
  | (Ok p, s') => ran [] [mp_pid p] s s' ∧ (0 < mp_pid p ≤ I32_MAX)%N ∧ containment = Ok tt
  | (Err _, s') => ∃ l ps, ran l ps s s' ∧ length ps ≤ 1 ∧ ∀ pid, pid ∈ ps → told pid l
  end.
Proof.
  intros Hspawn. set (Q := λ (p : ManagedProcess) s', ran [] [mp_pid p] s s' ∧ (0 < mp_pid p ≤ I32_MAX)%N ∧ containment = Ok tt).
  set (X := λ (_ : DaemonError) s', ∃ l ps, ran l ps s s' ∧ length ps ≤ 1 ∧ ∀ pid, pid ∈ ps → told pid l).
  set (P := λ s', ran [] [] s s').
  assert (∀ e s', P s' → X e s') as HX.
  { intros e s' Hs'. exists [], []. split_and!; [done|cbn; lia|by intros ? ?%elem_of_nil]. }
  assert (Effects.spec P (start paths spec) Q X) as Hstart; [|specialize (Hstart s (ran_refl s)); by destruct (start paths spec s) as [[]]].
  unfold start, require_process_containment.
  eapply (spec_bind _ _ _ (λ _ s', containment = Ok tt ∧ P s')).
  { apply spec_lift; [|intros; by apply HX]. intros [] Hc s' Hs'. split; [|done]. by destruct containment as [[]|]. }
  intros _u. apply spec_pure. intros Hcont.
  assert (∀ (m : IO FsError unit) (k : Sup ManagedProcess), Effects.spec P k Q X → Effects.spec P (_ ← on_files m; k) Q X) as Hstep.
  { intros m k Hk. eapply (spec_bind _ _ _ (λ _, P)); [|by intros _v].
    intros s' Hs'. pose proof (ran_files m s') as Hf. pose proof (ran_trans _ _ _ _ _ _ _ Hs' Hf) as Hr.
    destruct (on_files m s') as [[]]; [exact Hr|by apply HX]. }
  do 3 apply Hstep.
  eapply (spec_bind _ _ _ (λ answer s', (∃ n, answer = spawn_at n) ∧ P s')).
  { intros s' Hs'. split; [by eexists|]. eapply ran_then; [exact Hs'|apply (quiet_asks spawn_at s')]. }
  intros answer. apply spec_pure. intros [n ->].
  eapply (spec_bind _ _ _ (λ child s', spawn_at n = Ok child ∧ P s')).
  { apply spec_lift; [|intros; by apply HX]. intros child Hc s' Hs'. split; [|done]. destruct (spawn_at n); [by injection Hc as ->|done]. }
  intros child. apply spec_pure. intros Hc. destruct child as [pid|]; [|intros s' Hs'; by apply HX].
  specialize (Hspawn n pid Hc).
  eapply (spec_bind _ _ _ (λ _ s', ran [] [pid] s s')).
  { intros s' (Hs & Hp & Hcalls). cbn. split_and!; cbn; [done|by rewrite Hp|done]. }
  intros _v. eapply (spec_try _ _ _ (λ _ s', ran [] [pid] s s') (λ _ s', ran [] [pid] s s')).
  - intros s' Hs'. pose proof (ran_trans _ _ _ _ _ _ _ Hs' (calm_persist spec pid s')) as Hp.
    by destruct (persist_runtime_files spec pid s') as [[]].
  - intros _w s' Hs'. exact (conj Hs' (conj Hspawn Hcont)).
  - intros e s' Hs'. unfold terminate_spawned_child, mbind, eff_bind, eff_try.
    destruct (signal_told pid Kill s' Hspawn (or_intror eq_refl)) as (k & Hk & Hg & Hkill).
    destruct (signal_process_group pid Kill s') as [r s1]. pose proof (ran_trans _ _ _ _ _ _ _ Hs' (ran_logged _ _ _ Hk)) as Hr.
    exists [k], [pid]. split; [|split; [done|]].
    + eapply ran_then; [exact Hr|]. exact (logged_after [] _ _ _ (quiet_asks (λ _, tt) s1) (quiet_asks (λ _, tt) _)).
    + intros q ->%list_elem_of_singleton. exists k. split; [by left|]. split; [done|by right].
Qed.

(** Signals, but no new process and no change of the files. *)
Definition sends {A : Type} (m : Sup A) : Prop := ∀ s, ∃ l, logged l s (m s).2.
Lemma sends_bind {A B : Type} (m : Sup A) (f : A → Sup B) : sends m → (∀ a, sends (f a)) → sends (m ≫= f).
Proof.
  intros Hm Hf s. destruct (Hm s) as [l1 Hr1]. unfold mbind, eff_bind. destruct (m s) as [[a|e] s1]; [|by exists l1].
  destruct (Hf a s1) as [l2 Hr2]. exists (l2 ++ l1). by eapply logged_trans.
Qed.
Lemma sends_quiet {A : Type} (m : Sup A) : quiet m → sends m.
Proof. intros Hm s. by exists []. Qed.
Lemma sends_signal pid signal : sends (signal_process_group pid signal).
Proof.
  intros s. pose proof (signal_group_spec pid signal s) as Hs. destruct (signal_process_group pid signal s) as [r s1].
  destruct (process_group_pid pid); [by eexists|]. destruct Hs as [_ ->]. exists []. apply logged_refl.
Qed.
Lemma quiet_managed_loop fuel pid deadline : quiet (managed_exit_loop fuel pid deadline).
Proof. induction fuel as [|fuel IH]; cbn; [quiet|]. repeat (apply IH || quiet_step). Qed.
Lemma quiet_managed_wait pid timeout : quiet (wait_for_managed_process_group_exit pid timeout).
Proof. unfold wait_for_managed_process_group_exit, instant_now. repeat (apply quiet_managed_loop || quiet_step). Qed.

Lemma stop_managed_sends p grace_period : sends (stop_managed p grace_period).
Proof.
  unfold stop_managed, require_process_containment. apply sends_bind; [apply sends_quiet, quiet_lift|intros ?].
  apply sends_bind; [apply sends_quiet, quiet_asks|intros ?]. apply sends_bind; [apply sends_quiet, quiet_lift|intros exited].
  apply sends_bind; [apply sends_quiet; destruct exited; quiet|intros [|]]; [apply sends_quiet, quiet_ret|].
  apply sends_bind; [apply sends_signal|intros ?]. apply sends_bind; [apply sends_quiet, quiet_managed_wait|intros [|]]; [apply sends_quiet, quiet_ret|].
  apply sends_bind; [apply sends_signal|intros ?]. apply sends_bind; [apply sends_quiet, quiet_managed_wait|].
  intros [|]; apply sends_quiet; [apply quiet_ret|apply quiet_fail].
Qed.

(** The end of a process that was started here: it was asked about, or told. *)
Definition settled (pid : N) (s s' : Supervised) : Prop := ∃ l, logged l s s' ∧ (told pid l ∨ ended s s').

Lemma terminate_settles pid (k : unit → Sup unit) s : (0 < pid ≤ I32_MAX)%N → (∀ u, sends (k u)) →
  settled pid s ((signal_process_group pid Terminate ≫= k) s).2.
Proof.
  intros Hpid Hk. destruct (signal_told pid Terminate s Hpid (or_introl eq_refl)) as (x & Hx & Hg & Ht).
  unfold mbind, eff_bind. destruct (signal_process_group pid Terminate s) as [[u|e] s3]; cbn in Hx.
  - destruct (Hk u s3) as [l Hl]. exists (l ++ [x]). split; [by eapply logged_trans|]. left. exists x. split; [set_solver|]. split; [done|by left].
  - exists [x]. split; [done|]. left. exists x. split; [by left|]. split; [done|by left].
Qed.

Lemma stop_managed_settles p grace_period s : (0 < mp_pid p ≤ I32_MAX)%N → containment = Ok tt →
  settled (mp_pid p) s (stop_managed p grace_period s).2.
Proof.
  intros Hpid Hcont. unfold stop_managed, require_process_containment. unfold mbind at 1, eff_bind at 1. unfold eff_lift at 1. rewrite Hcont. cbn [map_err].
  unfold mbind at 1, eff_bind at 1. pose proof (quiet_asks try_wait_at s) as Hr1. unfold asks in *. cbn [snd] in Hr1.
  set (s1 := {| su_world := su_world s; su_now := _; su_calls := S (su_calls s); su_sent := _; su_spawned := _ |}) in *.
  assert (∀ s', logged [] s1 s' → try_wait_at (su_calls s) ≠ Ok false → settled (mp_pid p) s s') as Hended.
  { intros s' Hs' Hw. exists []. split; [by eapply logged_then|]. right. exists (su_calls s). split; [|done].
    pose proof (logged_calls _ _ _ Hs') as Hc. cbn in Hc. lia. }
  assert (∀ s2 s', logged [] s1 s2 → settled (mp_pid p) s2 s' → settled (mp_pid p) s s') as Hlater.
  { intros s2 s' Hr2 (l & Hl & Ht). pose proof (logged_after _ _ _ _ Hr1 Hr2) as Hr. exists l. split; [by eapply logged_after|].
    destruct Ht as [?|(n & Hn & ?)]; [by left|right]. exists n. pose proof (logged_calls _ _ _ Hr). split; [lia|done]. }
  unfold mbind at 1, eff_bind at 1, eff_lift. destruct (try_wait_at (su_calls s)) as [exited|e] eqn:Hw; cbn [map_err]; [|by apply Hended; [apply logged_refl|]].
  assert (∀ u : unit, sends (waited ← wait_for_managed_process_group_exit (mp_pid p) grace_period;
    match waited with
    | Some _ => mret tt
    | None => _ ← signal_process_group (mp_pid p) Kill;
        waited ← wait_for_managed_process_group_exit (mp_pid p) KILL_WAIT;
        match waited with Some _ => mret tt
        | None => eff_fail (timed_out ("process group " +:+ pretty (mp_pid p) +:+ " did not exit after signal")) end
    end)) as Hrest.
  { intros _u. apply sends_bind; [apply sends_quiet, quiet_managed_wait|intros [|]]; [apply sends_quiet, quiet_ret|].
    apply sends_bind; [apply sends_signal|intros ?]. apply sends_bind; [apply sends_quiet, quiet_managed_wait|].
    intros [|]; apply sends_quiet; [apply quiet_ret|apply quiet_fail]. }
  destruct exited.
  - assert (quiet (exists_ ← process_group_exists (mp_pid p); mret (negb exists_))) as Hq by quiet. specialize (Hq s1).
    unfold mbind at 1, eff_bind at 1. destruct ((exists_ ← process_group_exists (mp_pid p); mret (negb exists_)) s1) as [[[]|e] s2].
    + by apply Hended.
    + eapply Hlater; [exact Hq|]. by apply terminate_settles.
    + by apply Hended.
  - eapply Hlater; [apply logged_refl|]. by apply terminate_settles.
Qed.
End processes.

(** *** The outcome of a runtime *)

Section outcome.
Context `{Host} `{Json} `{ProcessHost} `{MetadataJson} (paths : PvPaths) (now : nat → string).
Context (daemon_error_text : DaemonError → string) (database_open : nat → result StateError unit).
Context (loopback_listener_port_snapshot : nat → string).

Let record_error := record_runtime_error now daemon_error_text database_open.
Let start_or_adopt := start_or_adopt_runtime paths now daemon_error_text database_open loopback_listener_port_snapshot.

(** Recording touches the database and the count of its openings. *)
Lemma record_observed_sup subject status message s : sup (record_runtime_observed now database_open subject status message s).2 = sup s.
Proof.
  unfold record_runtime_observed, mbind, eff_bind, open_database. cbn. destruct (database_open (gs_opens s)) as [[]|e]; [|done]. cbn.
  unfold on_daemon, on_part, stamped, stamp, on_db, mbind, eff_bind. cbn.
  unfold record_runtime_observed_snapshot. by destruct (subject_id subject).
Qed.

(** Steps that do not open the database. *)
Definition unopened {A : Type} (m : Gw A) : Prop := ∀ s, gs_opens (m s).2 = gs_opens s.
Lemma unopened_bind {A B : Type} (m : Gw A) (f : A → Gw B) : unopened m → (∀ a, unopened (f a)) → unopened (m ≫= f).
Proof.
  intros Hm Hf s. specialize (Hm s). unfold mbind, eff_bind. destruct (m s) as [[a|e] s1]; [|done]. by rewrite (Hf a s1).
Qed.
Lemma unopened_sup {A : Type} (m : Sup A) : unopened (on_sup m).
Proof. intros s. unfold on_sup, on_part. by destruct (m (get_part sup_part s)). Qed.
Lemma unopened_io {A : Type} (m : IO DaemonError A) : unopened (on_io m).
Proof. intros s. unfold on_io, on_daemon, on_world, on_part. destruct (m _) as [[a|e] w]; done. Qed.
Lemma unopened_try {A : Type} (m : Gw A) : unopened m → unopened (eff_try m).
Proof. intros Hm s. specialize (Hm s). unfold eff_try. by destruct (m s). Qed.
Ltac unopened_step :=
  match goal with
  | |- unopened (_ ≫= _) => apply unopened_bind; [|intros ?]
  | |- unopened (on_sup _) => apply unopened_sup
  | |- unopened (eff_try _) => apply unopened_try
  | |- unopened (match ?x with _ => _ end) => destruct x
  | |- unopened _ => by intros ?
  end.
Lemma unopened_start pspec readiness :
  unopened (adopted ← on_sup (adopt pspec);
    match adopted with
    | Some _ => reload_runtime pspec readiness
    | None => _ ← clear_the_way pspec; start_runtime paths daemon_error_text loopback_listener_port_snapshot pspec readiness
    end).
Proof.
  unfold reload_runtime, clear_the_way, start_runtime, await_runtime, record_runtime_readiness_diagnostics. repeat unopened_step.
Qed.

(** The subject's last observed state is this failure. *)
Definition failure_shown (subject : RuntimeSubject) (e : DaemonError) (s : GatewayState) : Prop :=
  ∃ id at', subject_id subject = Ok id ∧ observed_states (dm_db (gs_daemon s)) !! (subject_kind subject, id)
    = Some {| o_status := "failed"; o_message := Some (daemon_error_text e); o_observed_at := at' |}.
(** The database was opened for it, for the last time so far and after [s], and that failed;
    or it has no name for the subject. The error is then this one. *)
Definition refused (subject : RuntimeSubject) (s : GatewayState) (e : DaemonError) (s' : GatewayState) : Prop :=
  ∃ x, e = DaemonState x ∧ (subject_id subject = Err x
    ∨ ∃ n, gs_opens s ≤ n ∧ gs_opens s' = S n ∧ database_open n = Err x).

Lemma record_error_spec subject e s :
  match record_error subject e s with
  | (Ok _, s') => failure_shown subject e s' ∧ gs_opens s' = S (gs_opens s)
  | (Err e', s') => refused subject s e' s'
  end.
Proof.
  unfold record_error, record_runtime_error, record_runtime_observed, mbind, eff_bind, open_database. cbn.
  destruct (database_open (gs_opens s)) as [[]|x] eqn:Ho; [|exists x; split; [done|]; right; by exists (gs_opens s)]. cbn.
  unfold on_daemon, on_part, stamped, stamp, on_db, mbind, eff_bind. cbn. unfold record_runtime_observed_snapshot.
  destruct (subject_id subject) as [i|x] eqn:Hi; cbn; [|exists x; split; [done|by left]].
  split; [|done]. exists i. eexists. split; [done|]. cbn. unfold upsert_observed. cbn. apply lookup_insert_eq.
Qed.

(** A failure is shown, or could not be recorded. *)
Definition shown (subject : RuntimeSubject) (s : GatewayState) (e : DaemonError) (s' : GatewayState) : Prop :=
  failure_shown subject e s' ∨ refused subject s e s'.

Lemma refused_later subject s1 s2 e s' : gs_opens s1 ≤ gs_opens s2 → refused subject s2 e s' → refused subject s1 e s'.
Proof. intros Hle (x & -> & [?|(n & Hn & ?)]); exists x; (split; [done|]); [by left|right]. exists n. split; [lia|done]. Qed.

Lemma or_record_spec {A : Type} subject (m : Gw A) s0 (P : GatewayState → Prop) (Q : A → GatewayState → Prop) (X : GatewayState → Prop) :
  (∀ s s', sup s' = sup s → X s → X s') → unopened m → spec P m Q (λ _, X) →
  spec (λ s, s = s0 ∧ P s) (or_record now daemon_error_text database_open subject m) Q (λ e s, X s ∧ shown subject s0 e s).
Proof.
  intros HX Hopen Hm s [-> Hs]. specialize (Hm s0 Hs). specialize (Hopen s0). unfold or_record, mbind at 1, eff_bind at 1, eff_try.
  destruct (m s0) as [[a|e] s1]; [done|]. unfold fail_recorded, mbind, eff_bind. cbn in Hopen.
  pose proof (record_error_spec subject e s1) as Hr. pose proof (record_observed_sup subject RuntimeFailed (Some (daemon_error_text e)) s1) as Hsup.
  unfold record_error, record_runtime_error in Hr |- *. destruct (record_runtime_observed _ _ _ _ _ s1) as [[u|e'] s2].
  - split; [by eapply HX|]. left. apply Hr.
  - split; [by eapply HX|]. right. eapply refused_later; [|exact Hr]. lia.
Qed.

Lemma sup_set u s : sup (set_part sup_part u s) = u.
Proof. by destruct u. Qed.
Lemma on_sup_spec {A : Type} (m : Sup A) (P : Supervised → Prop) (Q : A → Supervised → Prop) (X : DaemonError → Supervised → Prop) :
  Effects.spec P m Q X → spec (λ s, P (sup s)) (on_sup m) (λ a s, Q a (sup s)) (λ e s, X e (sup s)).
Proof.
  intros Hm s Hs. specialize (Hm (sup s) Hs). unfold on_sup, on_part. change (get_part sup_part s) with (sup s).
  destruct (m (sup s)) as [[a|e] u]; cbn [map_err]; by rewrite sup_set.
Qed.

(** From a state on: what was sent and started. *)
Definition since (s0 : Supervised) (l : list Signalled) (ps : list N) (s : GatewayState) : Prop := ran l ps s0 (sup s).

Definition unsettled (s0 : Supervised) (s : GatewayState) : Prop :=
  ∃ l ps, since s0 l ps s ∧ length ps ≤ 1 ∧ ∀ pid, pid ∈ ps → told pid l ∨ ended s0 (sup s).
(** What a success means. *)
Definition outcome_ok (readiness : RuntimeReadinessPlan) (s0 : Supervised) (o : RuntimeReadinessOutcome) (s : GatewayState) : Prop :=
  (∃ l ps, since s0 l ps s ∧ length ps ≤ 1)
  ∧ match o with Verified => probed s0 (sup s) | Unverified => rd_failure_policy readiness = PreserveRuntime end.

Lemma ended_later s0 s1 s2 s3 : su_calls s0 ≤ su_calls s1 → su_calls s2 ≤ su_calls s3 → ended s1 s2 → ended s0 s3.
Proof. intros Ha Hb (n & Hn & Hw). exists n. split; [lia|done]. Qed.
Lemma probed_later s0 s1 s2 s3 : su_calls s0 ≤ su_calls s1 → su_calls s2 ≤ su_calls s3 → probed s1 s2 → probed s0 s3.
Proof. intros Ha Hb (n & d & Hn & Hp). exists n, d. split; [lia|done]. Qed.

(** A look at the host, from a state that is known. *)
Lemma since_quiet {A : Type} (m : Sup A) s0 l ps : quiet m →
  spec (since s0 l ps) (on_sup m) (λ _, since s0 l ps) (λ _, since s0 l ps).
Proof.
  intros Hm. apply (on_sup_spec m (ran l ps s0) (λ _, ran l ps s0) (λ _, ran l ps s0)). intros s Hs.
  pose proof (ran_then _ _ _ _ _ Hs (Hm s)) as Hr. by destruct (m s) as [[]].
Qed.
Lemma since_settled s0 l s : since s0 l [] s → unsettled s0 s.
Proof. intros Hs. exists l, []. split_and!; [done|cbn; lia|by intros ? ?%elem_of_nil]. Qed.

Lemma since_look {A : Type} (m : Sup A) s0 l : quiet m → spec (since s0 l []) (on_sup m) (λ _, since s0 l []) (λ _, unsettled s0).
Proof.
  intros Hm s Hs. pose proof (since_quiet m s0 l [] Hm s Hs) as Hq. destruct (on_sup m s) as [[a|e] s']; [exact Hq|by eapply since_settled].
Qed.

Lemma reload_spec s0 pspec readiness :
  spec (since s0 [] []) (reload_runtime pspec readiness) (outcome_ok readiness s0) (λ _, unsettled s0).
Proof.
  unfold reload_runtime.
  eapply (spec_bind _ _ _ (λ _ s, ∃ l, since s0 l [] s)).
  { intros s Hs. pose proof (reload_signals pspec (sup s)) as Hr. unfold on_sup, on_part. change (get_part sup_part s) with (sup s).
    destruct (reload pspec (sup s)) as [r u]. destruct Hr as (l & Hl & _).
    assert (since s0 l [] (set_part sup_part u s)) as Hsince.
    { unfold since. rewrite sup_set. rewrite <-(app_nil_r l). exact (ran_trans _ _ _ [] _ _ _ Hs (ran_logged _ _ _ Hl)). }
    destruct r; cbn [map_err]; [by exists l|by eapply since_settled]. }
  intros reloaded s [l Hs]. destruct reloaded; [|by eapply since_settled].
  pose proof (readiness_spec (check_name (rd_check readiness)) (rd_timeout readiness) (sup s)) as Hw.
  unfold mbind at 1, eff_bind at 1, eff_try, on_sup, on_part. change (get_part sup_part s) with (sup s).
  destruct (wait_for_readiness _ _ (sup s)) as [r u]. destruct Hw as [Hl Hready]. cbn beta iota zeta.
  pose proof (ran_then _ _ _ _ _ Hs Hl) as Hr. set (s1 := set_part sup_part u s).
  assert (since s0 l [] s1) as Hs1 by (unfold since, s1; by rewrite sup_set). destruct r as [[]|e]; cbn [map_err].
  - split; [exists l, []; split; [done|cbn; lia]|]. unfold s1. rewrite sup_set. eapply probed_later; [|reflexivity|by apply Hready].
    by destruct Hs as (_ & _ & ?).
  - assert (spec (since s0 l []) (preserved ← (if bool_decide (rd_failure_policy readiness = PreserveRuntime)
                     then owned ← on_sup (verify_ownership pspec); mret (option_bool owned) else mret false);
        if preserved : bool then mret Unverified else eff_fail e) (outcome_ok readiness s0) (λ _, unsettled s0)) as Hspec; [|exact (Hspec s1 Hs1)].
    eapply (spec_bind _ _ _ (λ b s, (b = true → rd_failure_policy readiness = PreserveRuntime) ∧ since s0 l [] s)).
    { case_bool_decide as Hp.
      - eapply (spec_bind _ _ _ (λ _, since s0 l [])); [apply since_look, quiet_verify|].
        intros owned s2 Hs2. by split.
      - intros s2 Hs2. by split. }
    intros [] s2 [Hp Hs2]; [|by eapply since_settled]. split; [exists l, []; split; [done|cbn; lia]|by apply Hp].
Qed.

Lemma clear_spec s0 pspec : spec (since s0 [] []) (clear_the_way pspec) (λ _ s, ∃ l, since s0 l [] s) (λ _, unsettled s0).
Proof.
  unfold clear_the_way. eapply (spec_bind _ _ _ (λ _, since s0 [] [])); [apply since_look, quiet_adopt_recorded|].
  intros [adopted|].
  - intros s Hs. destruct (stop_adopted_logged adopted STOP_GRACE_PERIOD (sup s)) as [l Hl%ran_logged].
    unfold on_sup, on_part. change (get_part sup_part s) with (sup s). destruct (stop_adopted adopted STOP_GRACE_PERIOD (sup s)) as [r u].
    assert (since s0 l [] (set_part sup_part u s)) as Hsince.
    { unfold since. rewrite sup_set. rewrite <-(app_nil_r l). exact (ran_trans _ _ _ [] _ _ _ Hs Hl). }
    destruct r; cbn [map_err]; [by exists l|by eapply since_settled].
  - eapply (spec_bind _ _ _ (λ _, since s0 [] [])); [apply since_look, quiet_foreign|].
    intros [] s Hs; [by eapply since_settled|by exists []].
Qed.

(** From the moment the process is there. *)
Lemma diagnostics_sup pspec process error s :
  logged [] (sup s) (sup (record_runtime_readiness_diagnostics daemon_error_text loopback_listener_port_snapshot pspec process error s).2)
  ∧ ∃ u, (record_runtime_readiness_diagnostics daemon_error_text loopback_listener_port_snapshot pspec process error s).1 = Ok u.
Proof.
  unfold record_runtime_readiness_diagnostics, mbind, eff_bind, on_sup, on_part. change (get_part sup_part s) with (sup s).
  pose proof (quiet_exit_state daemon_error_text process (sup s)) as Hq.
  assert (∃ text, (runtime_process_exit_state daemon_error_text process (sup s)).1 = Ok text) as [text Ht].
  { unfold runtime_process_exit_state, mbind, eff_bind, eff_try. destruct (has_exited process (sup s)) as [r u]. by eexists. }
  destruct (runtime_process_exit_state daemon_error_text process (sup s)) as [r u]. cbn in Ht, Hq. subst r. cbn [map_err].
  unfold eff_modify. cbn -[sup]. split; [|by eexists]. eapply logged_then; [exact Hq|]. destruct u. split; cbn; [done..|lia|lia].
Qed.

Lemma await_spec s0 l process pspec readiness : (0 < mp_pid process ≤ I32_MAX)%N → containment = Ok tt →
  spec (since s0 l [mp_pid process]) (await_runtime daemon_error_text loopback_listener_port_snapshot pspec readiness process)
    (outcome_ok readiness s0) (λ _, unsettled s0).
Proof.
  intros Hpid Hcont s Hs. set (pid := mp_pid process) in *.
  assert (∀ s1, since s0 l [pid] s1 → ∀ r s2, has_exited process (sup s1) = (r, s2) → r ≠ Ok false →
    unsettled s0 (set_part sup_part s2 s1)) as Hended.
  { intros s1 Hs1 r s2 Hr Hne. pose proof (exited_spec process (sup s1)) as Hx. rewrite Hr in Hx. destruct Hx as (Hl & Hc & Hw).
    exists l, [pid]. split; [|split; [done|]].
    - unfold since. rewrite sup_set. by eapply ran_then.
    - intros q ->%list_elem_of_singleton. right. exists (su_calls (sup s1)). rewrite sup_set. split; [|by apply Hw].
      destruct Hs1 as (_ & _ & ?). lia. }
  unfold await_runtime, mbind at 1, eff_bind at 1, eff_try, on_sup at 1, on_part at 1. change (get_part sup_part s) with (sup s).
  pose proof (readiness_spec (check_name (rd_check readiness)) (rd_timeout readiness) (sup s)) as Hw.
  destruct (wait_for_readiness _ _ (sup s)) as [r u]. destruct Hw as [Hl Hready]. cbn beta iota zeta. set (s1 := set_part sup_part u s).
  assert (since s0 l [pid] s1) as Hs1 by (unfold since, s1; rewrite sup_set; by eapply ran_then).
  destruct r as [[]|error]; cbn [map_err].
  - unfold mbind, eff_bind, on_sup, on_part. change (get_part sup_part s1) with (sup s1).
    pose proof (exited_spec process (sup s1)) as Hx. specialize (Hended s1 Hs1).
    destruct (has_exited process (sup s1)) as [[[]|e] s2] eqn:He; cbn [map_err]; [by eapply Hended| |by eapply Hended].
    destruct Hx as (Hl2 & _ & _). split.
    + exists l, [pid]. split; [|done]. unfold since. rewrite sup_set. by eapply ran_then.
    + rewrite sup_set. specialize (Hready eq_refl). eapply probed_later; [by destruct Hs as (_ & _ & ?)| |exact Hready].
      pose proof (logged_calls _ _ _ Hl2). unfold s1 in *. by rewrite sup_set in *.
  - unfold mbind at 1, eff_bind at 1. destruct (diagnostics_sup pspec process error s1) as [Hd [v Hv]].
    destruct (record_runtime_readiness_diagnostics _ _ _ _ _ s1) as [r s2]. cbn in Hd, Hv. subst r. clear v.
    assert (since s0 l [pid] s2) as Hs2 by (by eapply ran_then).
    assert (∀ s3, since s0 l [pid] s3 → match (_ ← on_sup (stop_managed process STOP_GRACE_PERIOD); eff_fail (A := RuntimeReadinessOutcome) error) s3 with
      | (Ok o, s') => outcome_ok readiness s0 o s' | (Err _, s') => unsettled s0 s' end) as Hstop.
    { intros s3 Hs3. destruct (stop_managed_settles process STOP_GRACE_PERIOD (sup s3) Hpid Hcont) as (l' & Hl'%ran_logged & Htold).
      unfold mbind, eff_bind, on_sup, on_part. change (get_part sup_part s3) with (sup s3).
      destruct (stop_managed process STOP_GRACE_PERIOD (sup s3)) as [r u3]. cbn in Hl', Htold.
      assert (unsettled s0 (set_part sup_part u3 s3)) as Hu.
      { exists (l' ++ l), [pid]. split; [|split; [done|]].
        - unfold since. rewrite sup_set. exact (ran_trans _ _ _ [] _ _ _ Hs3 Hl').
        - intros q ->%list_elem_of_singleton. rewrite sup_set. destruct Htold as [(k & Hk & ?)|He]; [left; exists k; split; [set_solver|done]|right].
          eapply ended_later; [|reflexivity|exact He]. by destruct Hs3 as (_ & _ & ?). }
      by destruct r as [[]|]. }
    unfold mbind at 1, eff_bind at 1. case_bool_decide as Hp; [|by apply Hstop].
    unfold mbind at 1, eff_bind at 1, on_sup at 1, on_part at 1. change (get_part sup_part s2) with (sup s2).
    pose proof (exited_spec process (sup s2)) as Hx. pose proof (Hended s2 Hs2) as Hend.
    destruct (has_exited process (sup s2)) as [[b|e] u2] eqn:He; cbn [map_err]; [|by eapply Hend].
    assert (since s0 l [pid] (set_part sup_part u2 s2)) as Hs3 by (unfold since; rewrite sup_set; eapply ran_then; [exact Hs2|apply Hx]).
    destruct b; cbn; [by apply Hstop|]. split; [by exists l, [pid]|done].
Qed.

(** C17: Putting a runtime in force ends in one of three ways. It is verified: a probe
    answered in the meantime. It is left unverified: only when the policy
    says to preserve it. Or it fails: the subject's state shows the error that is returned,
    and a process that was started for it has been told to end, unless it had ended or the
    host would not say. Never is more than one process started. Only when the one opening of
    the database to record the failure is refused, or there is no valid name for the
    subject, is the state not written, and then that is the error. Assumed: the host gives
    a spawned process a positive pid that fits 31 bits. *)
Theorem start_or_adopt_runtime_spec pspec readiness subject s : (∀ n pid, spawn_at n = Ok (Some pid) → (0 < pid ≤ I32_MAX)%N) →
  let '(r, s') := start_or_adopt pspec readiness subject s in
  (∃ l ps, since (sup s) l ps s' ∧ length ps ≤ 1 ∧ (is_ok r = true ∨ ∀ pid, pid ∈ ps → told pid l ∨ ended (sup s) (sup s')))
  ∧ match r with
    | Ok Verified => probed (sup s) (sup s')
    | Ok Unverified => rd_failure_policy readiness = PreserveRuntime
    | Err e => shown subject s e s'
    end.
Proof.
  intros Hspawn. set (s0 := sup s).
  assert (spec (λ s', s' = s ∧ since s0 [] [] s') (start_or_adopt pspec readiness subject) (outcome_ok readiness s0) (λ e s', unsettled s0 s' ∧ shown subject s e s')) as Hspec.
  { apply or_record_spec.
    { intros s1 s2 Heq (l & ps & Hs & ?). exists l, ps. unfold since in *. by rewrite Heq. }
    { apply unopened_start. }
    eapply (spec_bind _ _ _ (λ _, since s0 [] [])); [apply since_look, quiet_adopt|]. intros [adopted|]; [apply reload_spec|].
    eapply spec_bind; [apply clear_spec|]. intros _u s1 [l Hs1]. unfold start_runtime, mbind, eff_bind, on_sup at 1, on_part at 1.
    change (get_part sup_part s1) with (sup s1). pose proof (start_ran paths pspec (sup s1) Hspawn) as Hst.
    destruct (start paths pspec (sup s1)) as [[process|e] u]; cbn [map_err].
    - destruct Hst as (Hr & Hpid & Hcont). apply (await_spec s0 l process pspec readiness Hpid Hcont).
      unfold since. rewrite sup_set. exact (ran_trans l [] [] _ _ _ _ Hs1 Hr).
    - destruct Hst as (l' & ps & Hr & Hlen & Htold). exists (l' ++ l), ps. split; [|split; [done|]].
      + unfold since. rewrite sup_set. rewrite <-(app_nil_r ps). exact (ran_trans _ _ _ _ _ _ _ Hs1 Hr).
      + intros pid Hin. left. destruct (Htold pid Hin) as (k & Hk & ?). exists k. split; [set_solver|done]. }
  specialize (Hspec s (conj eq_refl (ran_refl _))). destruct (start_or_adopt pspec readiness subject s) as [[o|e] s'].
  - destruct Hspec as [(l & ps & Hs & Hlen) Ho]. split; [|by destruct o]. exists l, ps. split; [done|]. split; [done|by left].
  - destruct Hspec as [(l & ps & Hs & Hlen & Htold) Hshown]. split; [|done]. exists l, ps. split; [done|]. split; [done|by right].
Qed.
End outcome.

(** *** The configuration follows the runtime *)

(** Opening a file to append, where it is not a link. *)
Lemma confined_append `{Host} (C L : HostFs.path → Prop) d x : region C L d → StateFs.confined C L (open_append_file (d ++ [x])).
Proof.
  intros Hr. unfold open_append_file, ensure_parent_dir. rewrite parent_below, app_nil_r.
  apply confined_bind; [apply ensure_dir_confined, (region_above _ _ d Hr)|intros _u].
  apply confined_bind; [|intros _v; apply confined_look, changes_secure_file].
  apply confined_map_err. destruct (region_below _ _ d Hr (d ++ [x]) (under_app _ _)) as [HC HL].
  assert (∀ s0 s q, within C L s0 s → open_write (d ++ [x]) s = Ok q → within C L s0 (appended q s)) as Happ.
  { intros s0 s q Hs Hq. assert (q = d ++ [x]) as ->.
    { unfold open_write in Hq. assert (final_path MAX_LINKS s (d ++ [x]) = Some (d ++ [x])) as Hf.
      { pose proof (proj2 Hs _ HL) as Hl. unfold MAX_LINKS. cbn [final_path]. by destruct (s !! (d ++ [x])) as [[]|]. }
      rewrite Hf in Hq. repeat case_match; congruence. }
    unfold appended. destruct (s !! (d ++ [x])); [done|by apply within_insert]. }
  intros s0. apply hoare_syscall; [|done|].
  - intros s [] s' Hs. destruct (open_write (d ++ [x]) s) as [q|] eqn:Hq; [|done]. intros [= <-]. by eapply Happ.
  - intros f s Hs. destruct (open_write (d ++ [x]) s) as [q|] eqn:Hq; [|done]. destruct (fault_reached f _); [by eapply Happ|done].
Qed.

Section frame.
Context `{Host} `{ProcessHost} `{MetadataJson} (C L : HostFs.path → Prop).

Definition sup_confined {A : Type} (m : Sup A) : Prop :=
  ∀ s0, Effects.spec (λ s, within C L s0 (files (su_world s))) m (λ _ s, within C L s0 (files (su_world s))) (λ _ s, within C L s0 (files (su_world s))).

Lemma sup_confined_bind {A B : Type} (m : Sup A) (f : A → Sup B) : sup_confined m → (∀ a, sup_confined (f a)) → sup_confined (m ≫= f).
Proof. intros Hm Hf s0. eapply spec_bind; [apply Hm|intros a; apply Hf]. Qed.
Lemma sup_confined_files {A : Type} (m : IO FsError A) : StateFs.confined C L m → sup_confined (on_files m).
Proof. intros Hm s0. by apply (spec_files (within C L s0) m (λ _, within C L s0) (within C L s0)). Qed.
Lemma sup_confined_same {A : Type} (m : Sup A) : (∀ s, files (su_world (m s).2) = files (su_world s)) → sup_confined m.
Proof. intros Hm s0 s Hs. specialize (Hm s). destruct (m s) as [[] s']; cbn in Hm; by rewrite Hm. Qed.
Lemma sup_confined_quiet {A : Type} (m : Sup A) : quiet m → sup_confined m.
Proof. intros Hm. apply sup_confined_same. intros s. apply (logged_files _ _ _ (Hm s)). Qed.

(** The files of a runtime are in directories apart from what must not change. *)
Record runtime_apart (paths : PvPaths) (pspec : ProcessSpec) : Prop := {
  ra_layout : ∀ d q, d ∈ (layout_directories paths).*2 → q ∈ ancestors d → C q;
  ra_log : ∃ d x, path_of (sp_log_path pspec) = d ++ [x] ∧ region C L d;
  ra_pid : ∃ d x, path_of (sp_pid_path pspec) = d ++ [x] ∧ region C L d;
  ra_metadata : ∃ d x, path_of (sp_metadata_path pspec) = d ++ [x] ∧ region C L d;
}.

Lemma layout_confined paths : (∀ d q, d ∈ (layout_directories paths).*2 → q ∈ ancestors d → C q) → StateFs.confined C L (ensure_layout paths).
Proof.
  unfold ensure_layout. induction (layout_directories paths) as [|[name p] l IH]; intros Hl; cbn [ensure_dirs]; [apply confined_ret|].
  apply confined_bind; [apply ensure_dir_confined; intros q; apply Hl; by left|intros _u]. apply IH. intros d q Hd. apply Hl. by right.
Qed.

Lemma start_confined paths pspec : runtime_apart paths pspec → sup_confined (start paths pspec).
Proof.
  intros [Hlayout (dl & xl & Hlog & Hrl) (dp & xp & Hpid & Hrp) (dm & xm & Hmeta & Hrm)]. unfold start, require_process_containment.
  apply sup_confined_bind; [apply sup_confined_quiet, quiet_lift|intros _u].
  apply sup_confined_bind; [by apply sup_confined_files, layout_confined|intros _v].
  do 2 (apply sup_confined_bind; [apply sup_confined_files; rewrite Hlog; by apply confined_append|intros ?]).
  apply sup_confined_bind; [apply sup_confined_quiet, quiet_asks|intros answer].
  apply sup_confined_bind; [apply sup_confined_quiet, quiet_lift|intros [pid|]]; [|apply sup_confined_quiet, quiet_fail].
  apply sup_confined_bind; [by apply sup_confined_same|intros _w].
  assert (sup_confined (persist_runtime_files pspec pid)) as Hpersist.
  { unfold persist_runtime_files, write_runtime_metadata, write_sensitive.
    apply sup_confined_bind; [apply sup_confined_quiet, quiet_identity|intros ids].
    apply sup_confined_bind; [apply sup_confined_files; rewrite Hpid; by apply write_sensitive_confined|intros ?].
    apply sup_confined_bind; [apply sup_confined_quiet, quiet_asks|intros ?].
    apply sup_confined_bind; [apply sup_confined_quiet, quiet_lift|intros ?].
    apply sup_confined_bind; [apply sup_confined_quiet, quiet_lift|intros ?].
    apply sup_confined_files. rewrite Hmeta. by apply write_sensitive_confined. }
  intros s0. eapply (spec_try _ _ _ (λ _ s, within C L s0 (files (su_world s))) (λ _ s, within C L s0 (files (su_world s)))).
  - intros s Hs. specialize (Hpersist s0 s Hs). by destruct (persist_runtime_files pspec pid s) as [[]].
  - by intros ? s Hs.
  - intros e. revert s0. apply sup_confined_bind; [|intros _x; apply sup_confined_quiet, quiet_fail].
    unfold terminate_spawned_child. apply sup_confined_bind.
    { apply sup_confined_same. intros s. destruct (sends_signal pid Kill s) as [l Hl]. unfold eff_try.
      pose proof (logged_files _ _ _ Hl) as Hf. by destruct (signal_process_group pid Kill s). }
    intros ?. do 2 (apply sup_confined_bind; [apply sup_confined_quiet, quiet_asks|intros ?]). apply sup_confined_quiet, quiet_ret.
Qed.
End frame.

Section follows.
Context `{Host} `{Json} `{ProcessHost} `{MetadataJson} (paths : PvPaths) (now : nat → string).
Context (daemon_error_text : DaemonError → string) (database_open : nat → result StateError unit).
Context (loopback_listener_port_snapshot : nat → string).
(** The directory of the configuration, and the directories that have no links. *)
Context (dir : HostFs.path) (L : HostFs.path → Prop) (active_content : string) (fragments : nat).

Let start_or_adopt := start_or_adopt_runtime paths now daemon_error_text database_open loopback_listener_port_snapshot.
Let run := start_or_adopt_promoted_runtime paths now daemon_error_text database_open loopback_listener_port_snapshot.

Definition files_of (s : GatewayState) : Fs := files (dm_world (gs_daemon s)).
Let C (q : HostFs.path) : Prop := ¬ under dir q.

Definition gw_confined {A : Type} (m : Gw A) : Prop :=
  ∀ s0, spec (λ s, within C L s0 (files_of s)) m (λ _ s, within C L s0 (files_of s)) (λ _ s, within C L s0 (files_of s)).

Lemma gw_confined_bind {A B : Type} (m : Gw A) (f : A → Gw B) : gw_confined m → (∀ a, gw_confined (f a)) → gw_confined (m ≫= f).
Proof. intros Hm Hf s0. eapply spec_bind; [apply Hm|intros a; apply Hf]. Qed.
Lemma gw_confined_sup {A : Type} (m : Sup A) : sup_confined C L m → gw_confined (on_sup m).
Proof.
  intros Hm s0. apply (on_sup_spec m (λ u, within C L s0 (files (su_world u))) (λ _ u, within C L s0 (files (su_world u)))
    (λ _ u, within C L s0 (files (su_world u)))), Hm.
Qed.
Lemma gw_confined_same {A : Type} (m : Gw A) : (∀ s, files_of (m s).2 = files_of s) → gw_confined m.
Proof. intros Hm s0 s Hs. specialize (Hm s). destruct (m s) as [[] s']; cbn in Hm; by rewrite Hm. Qed.
Lemma gw_confined_try {A : Type} (m : Gw A) : gw_confined m → gw_confined (eff_try m).
Proof. intros Hm s0 s Hs. specialize (Hm s0 s Hs). unfold eff_try. by destruct (m s) as [[]]. Qed.
Lemma gw_confined_quiet {A : Type} (m : Sup A) : quiet m → gw_confined (on_sup m).
Proof. intros Hm. by apply gw_confined_sup, sup_confined_quiet. Qed.
Lemma gw_confined_ret {A : Type} (a : A) : gw_confined (mret a).
Proof. by apply gw_confined_same. Qed.
Lemma gw_confined_fail {A : Type} e : gw_confined (A := A) (eff_fail e).
Proof. by apply gw_confined_same. Qed.
Lemma gw_confined_sends {A : Type} (m : Sup A) : (∀ s, ∃ l, logged l s (m s).2) → gw_confined (on_sup m).
Proof. intros Hm. apply gw_confined_sup, sup_confined_same. intros s. destruct (Hm s) as [l Hl]. apply (logged_files _ _ _ Hl). Qed.

Lemma files_of_sup s : files_of s = files (su_world (sup s)).
Proof. done. Qed.
Lemma record_files subject status message s : files_of (record_runtime_observed now database_open subject status message s).2 = files_of s.
Proof. rewrite !files_of_sup. by rewrite record_observed_sup. Qed.
Lemma or_record_confined {A : Type} subject (m : Gw A) : gw_confined m → gw_confined (or_record now daemon_error_text database_open subject m).
Proof.
  intros Hm. unfold or_record. apply gw_confined_bind; [by apply gw_confined_try|intros [a|e]]; [apply gw_confined_ret|].
  apply gw_confined_bind; [|intros ?; apply gw_confined_fail]. apply gw_confined_same. intros s. apply record_files.
Qed.

Ltac confined_step :=
  match goal with
  | |- gw_confined (_ ≫= _) => apply gw_confined_bind; [|intros ?]
  | |- gw_confined (if ?b then _ else _) => destruct b
  | |- gw_confined (match ?x with _ => _ end) => destruct x
  | |- gw_confined (eff_try _) => apply gw_confined_try
  | |- gw_confined (mret _) => apply gw_confined_ret
  | |- gw_confined (eff_fail _) => apply gw_confined_fail
  | |- gw_confined (on_sup _) => first [apply gw_confined_quiet; first [apply quiet_adopt | apply quiet_adopt_recorded | apply quiet_foreign
      | apply quiet_exited | apply quiet_exit_state | apply quiet_verify | apply quiet_asks]]
  end.

Lemma wait_confined check timeout : gw_confined (on_sup (wait_for_readiness check timeout)).
Proof. apply gw_confined_sends. intros s. pose proof (readiness_spec check timeout s) as Hw. destruct (wait_for_readiness check timeout s) as [r s']. destruct Hw as [Hl _]. by exists []. Qed.
Lemma reload_confined pspec : gw_confined (on_sup (reload pspec)).
Proof. apply gw_confined_sends. intros s. pose proof (reload_signals pspec s) as Hr. destruct (reload pspec s) as [r s']. destruct Hr as (l & Hl & _). by exists l. Qed.

(** Nothing below [dir] changes while the runtime is started or reloaded. *)
Lemma start_or_adopt_confined pspec readiness subject : runtime_apart C L paths pspec → gw_confined (start_or_adopt pspec readiness subject).
Proof.
  intros Hapart. apply or_record_confined. apply gw_confined_bind; [confined_step|intros [adopted|]].
  - unfold reload_runtime. apply gw_confined_bind; [apply reload_confined|intros ?].
    destruct a; [|confined_step]. apply gw_confined_bind; [apply gw_confined_try, wait_confined|intros ?]. repeat confined_step.
  - apply gw_confined_bind.
    { unfold clear_the_way. apply gw_confined_bind; [confined_step|intros [a|]]; [|repeat confined_step].
      apply gw_confined_sends. intros s. apply stop_adopted_logged. }
    intros ?. unfold start_runtime. apply gw_confined_bind; [by apply gw_confined_sup, start_confined|intros process].
    unfold await_runtime. apply gw_confined_bind; [apply gw_confined_try, wait_confined|intros [?|error]]; [repeat confined_step|].
    unfold record_runtime_readiness_diagnostics.
    apply gw_confined_bind; [repeat confined_step; by apply gw_confined_same|intros ?]. repeat confined_step.
    apply gw_confined_sends, stop_managed_sends.
Qed.

(** Putting a tree in place, seen from outside the configuration's directory. *)
Lemma promoted_frame t s0 s s' n1 n2 : (∀ q, under dir q → s' !! q = s !! q) →
  promoted dir active_content fragments t s0 s n1 n2 → promoted dir active_content fragments t s0 s' n1 n2.
Proof.
  intros Hsame. assert (∀ (x : string) r, s' !! ((dir ++ [x]) ++ r) = s !! ((dir ++ [x]) ++ r)) as Hx.
  { intros x r. apply Hsame. rewrite <-app_assoc. apply under_app. }
  assert (∀ x, s' !! (dir ++ [x]) = s !! (dir ++ [x])) as Hx0 by (intros x; apply Hsame, under_app).
  assert (∀ x y s1, holds dir x s y s1 → holds dir x s' y s1) as Hh by (intros x y s1 Hxy r; rewrite Hx; apply Hxy).
  intros [Ht Hr Hp Hc Hb1 Hb2]. split; [done|by rewrite Hx0|by apply Hh|done|intros Hs; by apply Hh, Hb1|intros Hs; by apply Hh, Hb2].
Qed.

Lemma on_io_files {A : Type} (m : IO DaemonError A) s : let '(r, w) := m (dm_world (gs_daemon s)) in
  ∃ s', on_io m s = (r, s') ∧ dm_world (gs_daemon s') = w ∧ dm_db (gs_daemon s') = dm_db (gs_daemon s).
Proof.
  destruct (m (dm_world (gs_daemon s))) as [r w] eqn:Hm. unfold on_io, on_daemon, on_world, on_part. cbn. rewrite Hm.
  destruct r as [a|e]; cbn; (eexists; split; [reflexivity|split; reflexivity]).
Qed.

Notation shown := (shown daemon_error_text database_open).
Notation refused := (refused database_open).
Notation failure_shown := (failure_shown daemon_error_text).

Lemma shown_same subject s0 e s s' : dm_db (gs_daemon s') = dm_db (gs_daemon s) → gs_opens s' = gs_opens s →
  shown subject s0 e s → shown subject s0 e s'.
Proof.
  intros Hd Ho [(i & at' & Hi & Hrow)|(x & -> & Hx)]; [left; exists i, at'; by rewrite Hd|right].
  exists x. split; [done|]. by rewrite Ho.
Qed.

Lemma or_record_shown {A : Type} subject (m : Gw A) s : unopened m →
  match or_record now daemon_error_text database_open subject m s with (Ok _, s') => gs_opens s' = gs_opens s | (Err e, s') => shown subject s e s' end.
Proof.
  intros Hm. assert (spec (λ s', s' = s ∧ True) (or_record now daemon_error_text database_open subject m)
    (λ _ _, True) (λ e s', True ∧ shown subject s e s')) as Hs.
  { apply (or_record_spec now daemon_error_text database_open subject m s (λ _, True) (λ _ _, True) (λ _, True)); [done|done|].
    intros s1 _. destruct (m s1) as [[]]; exact I. }
  specialize (Hs s (conj eq_refl I)). destruct (or_record _ _ _ _ _ s) as [[a|e] s1] eqn:Hr; [|apply Hs].
  specialize (Hm s). revert Hr. unfold or_record, fail_recorded, mbind, eff_bind, eff_try. destruct (m s) as [[b|e] s2]; [by intros [= <- <-]|].
  by destruct (record_runtime_error _ _ _ _ _ s2) as [[] s3].
Qed.

Section promoted_runtime.
Context (pspec : ProcessSpec) (readiness : RuntimeReadinessPlan) (subject : RuntimeSubject).
Context (t : PromotedConfigTree) (s0 : Fs) (n1 n2 : nat).
Hypothesis Hapart : runtime_apart C L paths pspec.
Hypothesis Hlinkless : linkless_dir dir s0.
Hypothesis Hrooted : s0 !! (dir ++ ["projects"]) = None → ∀ r, s0 !! ((dir ++ ["projects"]) ++ r) = None.

(** C16: The configuration on disk follows the runtime. A new tree has been put in place and
    the old one set aside; then the runtime is reloaded or started with it. If that
    succeeds, the new tree stays, and the caller gets the outcome, or the error of deleting
    the old one. If it fails, going back is tried: if that works, the old tree is back as it
    was, root and every fragment, and the failure is what the caller gets; only if going
    back fails is the tree not restored, and then the error says both and what was there is
    still in the directory. The error that the caller gets is the subject's last observed
    state, failed; only when the opening of the database to write that, the last one, is
    refused, or the subject has no valid name, is it not, and then the error is that one.
    Assumed: the runtime's own files and the layout are apart from the configuration's
    directory, and no links are in either. *)
Theorem start_or_adopt_promoted_runtime_spec s :
  linkless L (files_of s) → promoted dir active_content fragments t s0 (files_of s) n1 n2 →
  let '(started, s1) := start_or_adopt pspec readiness subject s in
  let '(r, s') := run t pspec readiness subject s in
  match started with
  | Ok outcome => in_place dir active_content fragments s0 (files_of s')
      ∧ match (commit_tree t (dm_world (gs_daemon s1))).1 with
        | Ok _ => r = Ok outcome
        | Err e => (r = Err e ∧ failure_shown subject e s') ∨ ∃ e', r = Err e' ∧ refused subject s e' s'
        end
  | Err e =>
      match (rollback_tree daemon_error_text t (dm_world (gs_daemon s1))).1 with
      | Ok _ => config_kept dir s0 (files_of s') ∧ r = Err e ∧ shown subject s e s'
      | Err e2 => recoverable dir s0 (files_of s')
          ∧ let both := UnexpectedProtocolResponse ("Gateway runtime config rollback failed after runtime reconciliation failed: "
                +:+ daemon_error_text e +:+ "; rollback failed: " +:+ daemon_error_text e2) in
            (r = Err both ∧ failure_shown subject both s') ∨ ∃ e', r = Err e' ∧ refused subject s1 e' s'
      end
  end.
Proof.
  intros Hl Hp. assert (∀ p : HostFs.path, changes (E := DaemonError) (λ q, ¬ under dir q) ((λ _, mret tt : IO DaemonError unit) p)) as Helsewhere
    by (intros; apply changes_ret).
  unfold run, start_or_adopt_promoted_runtime. fold start_or_adopt.
  pose proof (start_or_adopt_confined pspec readiness subject Hapart (files_of s) s (within_refl C L _ Hl)) as Hc. fold start_or_adopt in Hc.
  pose proof (or_record_shown subject _ s (unopened_start paths daemon_error_text loopback_listener_port_snapshot pspec readiness)) as Hshown.
  change (or_record _ _ _ _ _ s) with (start_or_adopt pspec readiness subject s) in Hshown.
  unfold mbind at 1, eff_bind at 1, eff_try at 1. destruct (start_or_adopt pspec readiness subject s) as [[outcome|e] s1]; cbn [fst];
    destruct Hc as [Hsame _]; assert (promoted dir active_content fragments t s0 (files_of s1) n1 n2) as Hp1
      by (eapply promoted_frame; [|exact Hp]; intros q Hq; apply Hsame; intros Hn; by apply Hn).
  - pose proof (commit_tree_spec dir active_content (λ _, mret tt) fragments Helsewhere t s0 n1 n2 (dm_world (gs_daemon s1)) Hp1) as Hcommit.
    pose proof (on_io_files (commit_tree t) s1) as Hio. pose proof (unopened_io (commit_tree t) s1) as Hopens.
    unfold mbind at 1, eff_bind at 1, or_record. unfold mbind at 1, eff_bind at 1, eff_try.
    destruct (commit_tree t (dm_world (gs_daemon s1))) as [r w]. destruct Hio as (s2 & Hio & Hw & _). rewrite Hio in *. cbn [fst snd] in *.
    assert (in_place dir active_content fragments s0 (files_of s2)) as Hin by (unfold files_of; by rewrite Hw).
    destruct r as [[]|e]; [by split|]. unfold fail_recorded, mbind, eff_bind.
    pose proof (record_files subject RuntimeFailed (Some (daemon_error_text e)) s2) as Hf.
    pose proof (record_error_spec now daemon_error_text database_open subject e s2) as Hr. cbn zeta in Hr.
    unfold record_runtime_error in Hr |- *. destruct (record_runtime_observed _ _ _ _ _ s2) as [[[]|e'] s3]; cbn in Hf; unfold eff_fail; rewrite Hf; (split; [done|]).
    + left. by split; [|apply Hr].
    + right. exists e'. split; [done|]. eapply refused_later; [|exact Hr]. lia.
  - pose proof (rollback_tree_spec daemon_error_text dir active_content (λ _, mret tt) fragments Helsewhere t s0 n1 n2 (dm_world (gs_daemon s1)) Hlinkless Hrooted Hp1) as Hback.
    pose proof (on_io_files (rollback_tree daemon_error_text t) s1) as Hio. pose proof (unopened_io (rollback_tree daemon_error_text t) s1) as Hopens.
    unfold mbind at 1, eff_bind at 1, eff_try.
    destruct (rollback_tree _ t (dm_world (gs_daemon s1))) as [r w]. destruct Hio as (s2 & Hio & Hw & Hd). rewrite Hio in *. cbn [fst snd] in *.
    destruct r as [[]|e2].
    + unfold eff_fail. split; [unfold files_of; by rewrite Hw|]. split; [done|by eapply shown_same].
    + unfold fail_recorded, mbind, eff_bind.
      set (e' := runtime_config_rollback_failed_error daemon_error_text e e2).
      pose proof (record_files subject RuntimeFailed (Some (daemon_error_text e')) s2) as Hf.
      pose proof (record_error_spec now daemon_error_text database_open subject e' s2) as Hr. cbn zeta in Hr.
      unfold record_runtime_error in Hr |- *. destruct (record_runtime_observed _ _ _ _ _ s2) as [[[]|x'] s3]; cbn in Hf; unfold eff_fail; rewrite Hf;
        (split; [unfold files_of; by rewrite Hw|]).
      * left. by split; [|apply Hr].
      * right. exists x'. split; [done|]. eapply refused_later; [|exact Hr]. lia.
Qed.
End promoted_runtime.
End follows.

(** ** A gateway that does not come up *)

Definition gw_paths : PvPaths := for_home ["u"].
Definition gw_dir : HostFs.path := ["u"; ".pv"; "config"; "gateway"].
Definition gw_files : Fs := list_to_map [(["u"], Dir); (["u"; ".pv"], Dir); (["u"; ".pv"; "config"], Dir); (gw_dir, Dir);
  (gw_dir ++ ["Caddyfile"], File "old root"); (gw_dir ++ ["projects"], Dir); (gw_dir ++ ["projects"; "p1.Caddyfile"], File "old p1");
  (gw_dir ++ ["projects.candidate.7.0.tmp"], Dir); (gw_dir ++ ["projects.candidate.7.0.tmp"; "p2.Caddyfile"], File "new p2")].
Definition gw_world : World := {| files := gw_files; clock := 0; counter := 1 |}.
Definition gw_promote : result DaemonError PromotedConfigTree * World :=
  promote_validated_config_tree_async (H := quiet_host) error_name (gw_dir ++ ["Caddyfile"]) "candidate" "new root" (λ _, mret tt)
    (promote_config_dir (H := quiet_host) error_name (gw_dir ++ ["projects"]) (gw_dir ++ ["projects.candidate.7.0.tmp"])) gw_world.
Definition gw_state (w : World) : GatewayState :=
  {| gs_daemon := {| dm_db := sample_db; dm_world := w; dm_ticks := 0; dm_log := [] |}; gs_now := 0; gs_calls := 0; gs_sent := []; gs_spawned := [];
     gs_opens := 0; gs_diagnostics := [] |}.

(** The process starts, and ends when it is told to; [ready] says whether it answers in between. *)
Definition gw_host (ready : bool) : ProcessHost := {|
  containment := Ok tt;
  inspect_at _ pid := Ok (if (pid =? 42)%N then Some demo_identity else None);
  kill_at _ _ _ := Ok tt;
  test_at _ _ := Err NoSuchProcess;
  spawn_at _ := Ok (Some 42%N);
  try_wait_at _ := Ok false;
  wait_at _ := ExitsAfter 0;
  probe_at n := if ready && (4 <? n) then ProbeReady 1000 else ProbeFails 1000 "refused";
  timestamp_at _ := Ok "2026-05-22T14:30:12Z";
  delay_at _ := 1000%N |}.
Definition gw_json : MetadataJson := {| metadata_to_json _ := Ok "{}"; metadata_from_json _ := Ok demo_metadata; sha256 s := s |}.
Definition gw_spec : ProcessSpec := gateway_process_spec gw_paths {| fc_executable := "/opt/frankenphp" |}.
Definition gw_readiness : RuntimeReadinessPlan := {| rd_check := CheckTcp "127.0.0.1" 45000; rd_failure_policy := FailRuntime; rd_timeout := millis 100 |}.
Definition gw_start (ready : bool) (w : World) : result DaemonError RuntimeReadinessOutcome * GatewayState :=
  @start_or_adopt_runtime quiet_host (gw_host ready) gw_json gw_paths (λ _, "t9") error_name (λ _, Ok tt) (λ _, "") gw_spec gw_readiness
    RuntimeGateway (gw_state w).
Definition gw_run (ready : bool) (t : PromotedConfigTree) (w : World) : result DaemonError RuntimeReadinessOutcome * GatewayState :=
  @start_or_adopt_promoted_runtime quiet_host (gw_host ready) gw_json gw_paths (λ _, "t9") error_name (λ _, Ok tt) (λ _, "") t gw_spec gw_readiness
    RuntimeGateway (gw_state w).

Definition gw_outcome (ready : bool) : result DaemonError RuntimeReadinessOutcome * list ProcessSignal * list N * option string :=
  let '(r, s) := gw_start ready gw_world in
  (r, sg_signal <$> gs_sent s, gs_spawned s, o_status <$> observed_states (dm_db (gs_daemon s)) !! (subject_kind RuntimeGateway, "gateway")).

(** A process that answers is left running; one that does not is told to end, and the gateway has failed. *)
Example gw_verified : gw_outcome true = (Ok Verified, [], [42%N], None).
Proof. by vm_compute. Qed.
Example gw_not_ready : gw_outcome false = (Err (ReadinessTimedOut "tcp:127.0.0.1:45000" 100 (Some "refused")), [Terminate], [42%N], Some "failed").
Proof. by vm_compute. Qed.

Lemma gw_not_ready_fails w : w = gw_world → is_ok (gw_start false w).1 = false.
Proof. intros ->. vm_compute. reflexivity. Qed.

Lemma start_or_adopt_runtime_spec_witness :
  let '(r, s') := gw_start false gw_world in
  ∃ l ps, ran l ps (sup (gw_state gw_world)) (sup s') ∧ length ps ≤ 1
    ∧ (is_ok r = true ∨ ∀ pid, pid ∈ ps → told pid l ∨ @ended (gw_host false) (sup (gw_state gw_world)) (sup s')).
Proof.
  assert (∀ n pid, @spawn_at (gw_host false) n = Ok (Some pid) → (0 < pid ≤ I32_MAX)%N) as Hspawn by (intros n pid [= <-]; done).
  pose proof (@start_or_adopt_runtime_spec quiet_host (gw_host false) gw_json gw_paths (λ _, "t9") error_name (λ _, Ok tt) (λ _, "") gw_spec gw_readiness
    RuntimeGateway (gw_state gw_world)) as Hspec.
  specialize (Hspec Hspawn). unfold gw_start. destruct (start_or_adopt_runtime _ _ _ _ _ _ _ _ _) as [r s']. exact (proj1 Hspec).
Defined.

(** ** Its configuration is put back *)

Definition gw_apart (q : HostFs.path) : Prop := under ["u"; ".pv"; "run"] q ∨ under ["u"; ".pv"; "logs"; "gateway"] q.

Lemma apart_from (d q : HostFs.path) : bool_decide (under d gw_dir) = false → bool_decide (under gw_dir d) = false → under d q → ¬ under gw_dir q.
Proof. intros H1%bool_decide_eq_false_1 H2%bool_decide_eq_false_1 Hd Hg. by destruct (prefix_weak_total _ _ _ Hd Hg). Qed.
Lemma above_apart (ds : list HostFs.path) : forallb (λ d, forallb (λ q, negb (bool_decide (under gw_dir q))) (ancestors d)) ds = true →
  ∀ d q, d ∈ ds → q ∈ ancestors d → ¬ under gw_dir q.
Proof.
  rewrite forallb_forall. intros Hds d q Hd Hq. apply list_elem_of_In in Hd. apply list_elem_of_In in Hq. specialize (Hds d Hd).
  rewrite forallb_forall in Hds. specialize (Hds q Hq). by apply negb_true_iff, bool_decide_eq_false_1 in Hds.
Qed.
Lemma gw_region d : (∀ q, under d q → gw_apart q) → bool_decide (under d gw_dir) = false → bool_decide (under gw_dir d) = false →
  forallb (λ q, negb (bool_decide (under gw_dir q))) (ancestors d) = true → region (λ q, ¬ under gw_dir q) gw_apart d.
Proof.
  intros HL H1 H2 Ha. split; [|intros q Hq; split; [by eapply apart_from|by apply HL]].
  intros q. apply (above_apart [d]); [by cbn; rewrite Ha|by left].
Qed.
Lemma gw_runtime_apart : runtime_apart (λ q, ¬ under gw_dir q) gw_apart gw_paths gw_spec.
Proof.
  split.
  - apply above_apart. by vm_compute.
  - exists ["u"; ".pv"; "logs"; "gateway"], "gateway.log". split; [by vm_compute|]. apply gw_region; [by right|by vm_compute..].
  - exists ["u"; ".pv"; "run"], "gateway.pid". split; [by vm_compute|]. apply gw_region; [by left|by vm_compute..].
  - exists ["u"; ".pv"; "run"], "gateway.json". split; [by vm_compute|]. apply gw_region; [by left|by vm_compute..].
Qed.

Lemma gw_no_links w : bool_decide (map_Forall (λ _ n, is_link (Some n) = false) (files w)) = true → ∀ q, is_link (files w !! q) = false.
Proof. intros Hall%bool_decide_eq_true_1 q. destruct (files w !! q) as [n|] eqn:Hn; [exact (Hall q n Hn)|done]. Qed.
Lemma gw_linkless : linkless_dir gw_dir (files gw_world).
Proof. intros q _. apply gw_no_links. vm_compute. reflexivity. Qed.
Lemma gw_promote_ok : match gw_promote with
  | (Ok t, w) => bool_decide (map_Forall (λ _ n, is_link (Some n) = false) (files w)) = true ∧ is_ok (gw_start false w).1 = false
  | _ => False end.
Proof. vm_compute. split; reflexivity. Qed.
Lemma gw_answered : answered (H := quiet_host) error_name gw_dir "candidate" "new root" (λ _, mret tt) gw_world.
Proof. unfold answered. vm_compute. split; reflexivity. Qed.

Lemma start_or_adopt_promoted_runtime_spec_witness : ∃ t w e s', gw_promote = (Ok t, w) ∧ gw_run false t w = (Err e, s')
  ∧ files w !! (gw_dir ++ ["Caddyfile"]) = Some (File "new root")
  ∧ (config_kept gw_dir (files gw_world) (files_of s') ∨ recoverable gw_dir (files gw_world) (files_of s')).
Proof.
  pose proof (promote_tree_outcome (H := quiet_host) error_name gw_dir "candidate" "new root" (λ _, mret tt) 0
    (λ p w q _, eq_refl) gw_world gw_linkless gw_answered) as Hp.
  pose proof gw_promote_ok as Hok. change (promote_validated_config_tree_async _ _ _ _ _ _ gw_world) with gw_promote in Hp.
  destruct gw_promote as [[t|e] w]; [|destruct Hok]. destruct Hp as (n1 & n2 & Hp). destruct Hok as [Hlinks Hfails].
  pose proof (@start_or_adopt_promoted_runtime_spec quiet_host (gw_host false) gw_json gw_paths (λ _, "t9") error_name (λ _, Ok tt) (λ _, "")
    gw_dir gw_apart "new root" 0 gw_spec gw_readiness RuntimeGateway t (files gw_world) n1 n2 gw_runtime_apart gw_linkless
    ltac:(vm_compute; discriminate) (gw_state w) (λ q _, gw_no_links w Hlinks q) Hp) as Hspec.
  fold (gw_start false w) in Hspec. destruct (gw_start false w) as [[o|e] s1]; [discriminate Hfails|].
  unfold gw_run. destruct (start_or_adopt_promoted_runtime _ _ _ _ _ _ _ _ _ _) as [r s'] eqn:Hrun.
  destruct (rollback_tree _ t (dm_world (gs_daemon s1))) as [[u|e2] w2]; cbn [fst] in Hspec.
  - destruct Hspec as (Hk & Hr & _). rewrite Hr in Hrun. exists t, w, e, s'.
    exact (conj eq_refl (conj Hrun (conj (pm_root _ _ _ _ _ _ _ _ Hp) (or_introl Hk)))).
  - destruct Hspec as (Hk & [[Hr _]|(e' & Hr & _)]); rewrite Hr in Hrun; eexists t, w, _, s';
      exact (conj eq_refl (conj Hrun (conj (pm_root _ _ _ _ _ _ _ _ Hp) (or_intror Hk)))).
Defined.
