(* ===== verification/ManagedRuntimes.v ===== *)
(** * The runtimes of the managed resources ([daemon/src/managed_resources/])

    [mod.rs]: the tracks that a project needs are installed, given ports, started or
    adopted, and their allocations are made; those that nobody needs are stopped.
    [redis.rs], [mailpit.rs] and [rustfs.rs]: what is particular to a resource, as records
    of operations.

    The state is the one of [Gateway]: the daemon's, with the processes of the supervisor.
    A [spawn_blocking] runs to its end.  Parameters: those of the supervisor, whether a
    port is free, the commands that install ([resource_commands] makes them of
    [ResourceCommands]), and what asks servers: the checks of an adapter, its preparation
    and its allocations. *)

From stdpp Require Import pretty.
From S2P Require Import Prelude RustStr Identity Paths Manifest HostFs StateFs StatePaths ResourceCache.
From S2P Require Import StateTypes StateDb StatePorts StateResources StateObserved StateAllocations StateProjects Effects Errors.
From S2P Require ResourceCommands.
From S2P Require Import Supervisor ProjectPlan ProjectReconcile Gateway.
Import ResourceCommands (RuntimeArtifactAdapter, rt_resource_name, rt_executable_relative_path, CommandError, CmdResources, CmdState,
  TrackNotInstalled, TrackInUse, RollbackFailed, redis_adapter, mailpit_adapter, rustfs_adapter, ManagedResourceUpdateCheckTrack).

Definition RESOURCE_HOST : string := "127.0.0.1".
Definition RESOURCE_READINESS_TIMEOUT : N := millis 15000.
Definition ASYNC_READINESS_POLL_INTERVAL : N := millis 50.
Definition RESOURCE_STOP_GRACE_PERIOD : N := millis 10000.
Definition RESOURCE_PROCESS_EXIT_POLL_INTERVAL : N := millis 25.
Definition RESOURCE_START_ATTEMPTS : nat := 10.
Definition RESERVED_RESOURCE_PORT_NAME : string := "default".

(** ** Data *)

Record ManagedResourcePortSpec := { ps_name : string; ps_preferred_port : Z }.

Record ManagedResourceRuntimeContext := {
  cx_resource_name : string;
  cx_track : string;
  cx_artifact_path : HostFs.path;
  cx_data_dir : HostFs.path;
  cx_ports : gmap string Z;
  cx_env : gmap string string;
}.
Definition with_env (env : gmap string string) (c : ManagedResourceRuntimeContext) : ManagedResourceRuntimeContext :=
  {| cx_resource_name := cx_resource_name c; cx_track := cx_track c; cx_artifact_path := cx_artifact_path c; cx_data_dir := cx_data_dir c;
     cx_ports := cx_ports c; cx_env := env |}.

(** An asynchronous check has a name; what it finds are the probes of the host. *)
Inductive ManagedResourceReadiness : Type := TcpHttp (check : ReadinessCheck) | AsyncCheck (name : string).

(** [dyn ManagedResourceRuntimeAdapter]. *)
Record RuntimeAdapter := {
  ra_resource_name : string;
  ra_artifact_adapter : result DaemonError RuntimeArtifactAdapter;
  ra_port_specs : list ManagedResourcePortSpec;
  ra_prepare_runtime : ManagedResourceRuntimeContext → Gw unit;
  ra_build_process_spec : ManagedResourceRuntimeContext → Gw ProcessSpec;
  ra_readiness : ManagedResourceRuntimeContext → Gw ManagedResourceReadiness;
  ra_resource_env : ManagedResourceRuntimeContext → Gw (gmap string string);
  ra_reconcile_allocations : ManagedResourceRuntimeContext → gmap string string → list ResourceAllocationRecord → Gw unit;
}.

(** The commands of [ManagedResourceCommands] that install. *)
Record InstallCommands := {
  ic_install : RuntimeArtifactAdapter → TrackName → Gw unit;
  ic_install_php_pair : TrackName → Gw unit;
  ic_install_composer : Gw unit;
}.

(** [ManagedResourceRuntimeCatalog]: the adapters, and the commands for its options. *)
Record ManagedResourceRuntimeCatalog := { ct_adapters : gmap string RuntimeAdapter; ct_commands : InstallCommands }.
Definition adapter (catalog : ManagedResourceRuntimeCatalog) (resource_name : string) : option RuntimeAdapter := ct_adapters catalog !! resource_name.
Definition artifact_adapters (catalog : ManagedResourceRuntimeCatalog) : result DaemonError (list RuntimeArtifactAdapter) :=
  try_map (λ kv : string * RuntimeAdapter, ra_artifact_adapter kv.2) (btree_iter (ct_adapters catalog)).

(** A field of an object that is printed as JSON. *)
Inductive JsonField : Type := JText (s : string) | JNumber (n : Z).

(** ** What is wanted and not there *)

Inductive DesiredResourceInstall : Type :=
| PhpPair (track : string)
| Composer
| Runtime (adapter : RuntimeArtifactAdapter) (resource_name track : string).
Record DesiredResourceInstallFailure := { df_label : string; df_error : DaemonError }.
Record DesiredResourceInstallPlan := { dp_installs : list DesiredResourceInstall; dp_failures : list DesiredResourceInstallFailure }.

Definition plan_is_empty (p : DesiredResourceInstallPlan) : bool :=
  match dp_installs p, dp_failures p with [], [] => true | _, _ => false end.
Definition label (i : DesiredResourceInstall) : string :=
  match i with
  | PhpPair track => "php/frankenphp " +:+ track
  | Composer => "composer 2"
  | Runtime _ resource_name track => resource_name +:+ " " +:+ track
  end.

(** The variables of the loop over the records. *)
Record WantedSoFar := {
  ws_php_pair_tracks : gset string;
  ws_composer_missing : bool;
  ws_runtime_installs : list DesiredResourceInstall;
  ws_failures : list DesiredResourceInstallFailure;
}.
Definition wanted_nothing : WantedSoFar := {| ws_php_pair_tracks := ∅; ws_composer_missing := false; ws_runtime_installs := []; ws_failures := [] |}.
Definition add_failure (label : string) (error : DaemonError) (w : WantedSoFar) : WantedSoFar :=
  {| ws_php_pair_tracks := ws_php_pair_tracks w; ws_composer_missing := ws_composer_missing w; ws_runtime_installs := ws_runtime_installs w;
     ws_failures := ws_failures w ++ [{| df_label := label; df_error := error |}] |}.
Definition add_runtime (install : DesiredResourceInstall) (w : WantedSoFar) : WantedSoFar :=
  {| ws_php_pair_tracks := ws_php_pair_tracks w; ws_composer_missing := ws_composer_missing w;
     ws_runtime_installs := ws_runtime_installs w ++ [install]; ws_failures := ws_failures w |}.
Definition add_php_pair (track : string) (w : WantedSoFar) : WantedSoFar :=
  {| ws_php_pair_tracks := {[track]} ∪ ws_php_pair_tracks w; ws_composer_missing := ws_composer_missing w;
     ws_runtime_installs := ws_runtime_installs w; ws_failures := ws_failures w |}.
Definition add_composer (w : WantedSoFar) : WantedSoFar :=
  {| ws_php_pair_tracks := ws_php_pair_tracks w; ws_composer_missing := true; ws_runtime_installs := ws_runtime_installs w; ws_failures := ws_failures w |}.

Definition composer_track_error (track : string) : DaemonError :=
  UnexpectedProtocolResponse ("Composer setup default expected track `2`, got " +:+ tick track).

Definition is_missing (record : ManagedResourceTrackRecord) : bool :=
  bool_decide (tr_desired_state record = Installed) && negb (option_bool (tr_current_artifact_path record)).

Definition want_record (catalog : ManagedResourceRuntimeCatalog) (w : WantedSoFar) (record : ManagedResourceTrackRecord) : WantedSoFar :=
  let name := tr_resource_name record in
  if negb (is_missing record) then w
  else if bool_decide (name = "php") || bool_decide (name = "frankenphp") then add_php_pair (tr_track record) w
  else if bool_decide (name = "composer") then
    if negb (bool_decide (tr_track record = "2")) then add_failure ("composer " +:+ tr_track record) (composer_track_error (tr_track record)) w
    else add_composer w
  else
    match adapter catalog name with
    | None => add_failure (name +:+ " " +:+ tr_track record) (UnsupportedManagedResourceRuntime name) w
    | Some adapter =>
        match ra_artifact_adapter adapter with
        | Err error => add_failure (name +:+ " " +:+ tr_track record) error w
        | Ok artifact_adapter => add_runtime (Runtime artifact_adapter name (tr_track record)) w
        end
    end.

(** A [BTreeSet<String>], in its order. *)
Definition btree_set (s : gset string) : list string := sort_on (λ x, x) (elements s).

Definition install_plan (w : WantedSoFar) : DesiredResourceInstallPlan :=
  {| dp_installs := (PhpPair <$> btree_set (ws_php_pair_tracks w)) ++ (if ws_composer_missing w then [Composer] else []) ++ ws_runtime_installs w;
     dp_failures := ws_failures w |}.

Definition missing_desired_resource_installs (catalog : ManagedResourceRuntimeCatalog) (d : Db) : result StateError DesiredResourceInstallPlan :=
  records ← list_managed_resource_tracks d;
  Ok (install_plan (foldl (want_record catalog) wanted_nothing records)).

(** How a single probe ends, and when. The source gives it no limit of time: a listener
    that takes the connection and never answers, for which it would wait without end, is
    not one of these. *)
Record ListenerAnswer := { la_ready : bool; la_after : N }.
Class ListenerHost := listener_at : nat → ListenerAnswer.

Section runtimes.
Context `{Host} `{Json} `{ProcessHost} `{ListenerHost} `{MetadataJson} (paths : PvPaths) (now : nat → string) (daemon_error_text : DaemonError → string).
Context (local_loopback_port_available : nat → list Z → Z → bool).

Definition failure_message (f : DesiredResourceInstallFailure) : string := df_label f +:+ ": " +:+ daemon_error_text (df_error f).

(** The error of several failures. *)
Definition failures_result (failures : list DesiredResourceInstallFailure) : result DaemonError unit :=
  match failures with
  | [] => Ok tt
  | [failure] => Err (df_error failure)
  | _ => Err (ManagedResourceDefaultInstallFailures (failure_message <$> failures))
  end.

Definition install_runtime_resource_track (commands : InstallCommands) (a : RuntimeArtifactAdapter) (resource_name : string) (track : TrackName) :
    Gw unit :=
  _ ← ic_install commands a track;
  if negb (bool_decide (resource_name_str (rt_resource_name a) = resource_name)) then
    eff_fail (gateway_problem ("runtime adapter installed " +:+ tick (resource_name_str (rt_resource_name a))
                                 +:+ " while reconciling " +:+ tick resource_name))
  else mret tt.

Definition track_of (track : string) : Gw TrackName := eff_lift (map_err DaemonResources (track_name_new track)).

Definition run_install (commands : InstallCommands) (install : DesiredResourceInstall) : Gw unit :=
  match install with
  | PhpPair track => track ← track_of track; ic_install_php_pair commands track
  | Composer => ic_install_composer commands
  | Runtime a resource_name track => track ← track_of track; install_runtime_resource_track commands a resource_name track
  end.

(** Every install is tried, whatever became of those before it. *)
Fixpoint run_installs (commands : InstallCommands) (installs : list DesiredResourceInstall) (failures : list DesiredResourceInstallFailure) :
    Gw (list DesiredResourceInstallFailure) :=
  match installs with
  | [] => mret failures
  | install :: installs =>
      r ← eff_try (run_install commands install);
      run_installs commands installs
        (match r with Ok _ => failures | Err error => failures ++ [{| df_label := label install; df_error := error |}] end)
  end.

Definition install_missing_desired_resource_tracks (commands : InstallCommands) (plan : DesiredResourceInstallPlan) : Gw unit :=
  if plan_is_empty plan then mret tt
  else
    failures ← run_installs commands (dp_installs plan) (dp_failures plan);
    eff_lift (failures_result failures).

(** ** The artifact of a track *)

Definition installed_track (resource_name track : string) : act (option ManagedResourceTrackRecord) :=
  records ← read_db list_managed_resource_tracks;
  match List.find (λ record, bool_decide (tr_resource_name record = resource_name) && bool_decide (tr_track record = track)) records with
  | None => mret None
  | Some record =>
      if negb (option_bool (tr_current_artifact_path record)) then mret None
      else if bool_decide (tr_desired_state record = Removed) then eff_fail (ManagedResourceTrackRemoved resource_name track)
      else mret (Some record)
  end.

Definition ensure_track_artifact (commands : InstallCommands) (a : RuntimeAdapter) (resource : ProjectManagedResourceInput) :
    Gw ManagedResourceTrackRecord :=
  found ← on_daemon (installed_track (ri_resource_name resource) (ri_track resource));
  match found with
  | Some record => mret record
  | None =>
      artifact_adapter ← eff_lift (ra_artifact_adapter a);
      track ← track_of (ri_track resource);
      _ ← install_runtime_resource_track commands artifact_adapter (ri_resource_name resource) track;
      found ← on_daemon (installed_track (ri_resource_name resource) (ri_track resource));
      eff_lift (ok_or found (ManagedResourceArtifactMissing (ri_resource_name resource) (ri_track resource)))
  end.

(** ** Ports *)

Fixpoint release_ports (owners : list PortOwner) : act unit :=
  match owners with [] => mret tt | owner :: owners => _ ← on_db (release_port owner); release_ports owners end.
Definition owned_by (resource_name track : string) (assignment : PortAssignment) : option PortOwner :=
  match assigned_owner assignment with
  | Resource name owner_track port =>
      if bool_decide (name = resource_name) && bool_decide (owner_track = track) then Some (Resource name owner_track port) else None
  | _ => None
  end.
Definition release_resource_track_ports (resource_name track : string) : act unit :=
  assignments ← read_db assigned_ports; release_ports (omap (owned_by resource_name track) assignments).

Fixpoint assign_named_ports_inner (resource_name track : string) (port_specs : list ManagedResourcePortSpec) (assignments : gmap string Z) :
    act (gmap string Z) :=
  match port_specs with
  | [] => mret assignments
  | port_spec :: port_specs =>
      if bool_decide (ps_name port_spec = RESERVED_RESOURCE_PORT_NAME) then eff_fail (ManagedResourcePortNameReserved resource_name track (ps_name port_spec))
      else
        available ← eff_get (λ s, local_loopback_port_available (dm_ticks s));
        assignment ← stamped now (assign_port (resource_port resource_name track (ps_name port_spec) (ps_preferred_port port_spec)
                                                 RUNTIME_PORT_FALLBACK_START RUNTIME_PORT_FALLBACK_END) available);
        assign_named_ports_inner resource_name track port_specs (<[ps_name port_spec := assigned_port assignment]> assignments)
  end.
Definition assign_named_ports (a : RuntimeAdapter) (resource_name track : string) : act (gmap string Z) :=
  r ← eff_try (assign_named_ports_inner resource_name track (ra_port_specs a) ∅);
  match r with
  | Ok assignments => mret assignments
  | Err error => _ ← release_resource_track_ports resource_name track; eff_fail error
  end.

(** [ports.values().all(..)]: up to the first that is taken. *)
Fixpoint all_available (available : list Z → Z → bool) (asked ports : list Z) : bool :=
  match ports with [] => true | port :: ports => available asked port && all_available available (asked ++ [port]) ports end.

Definition ports_occupied_without_recorded_runtime (resource : ProjectManagedResourceInput) (ports : gmap string Z) : Gw bool :=
  available ← on_daemon (eff_get (λ s, local_loopback_port_available (dm_ticks s)));
  if all_available available [] (btree_iter ports).*2 then mret false
  else
    recorded ← on_sup (adopt_recorded (path_str (resource_pid paths (ri_resource_name resource) (ri_track resource)))
                         (path_str (resource_runtime_metadata paths (ri_resource_name resource) (ri_track resource))));
    mret (negb (option_bool recorded)).

(** ** Readiness *)

(** The asynchronous check has all the time that is left, and is not tried again once that is over. *)
Fixpoint async_readiness_loop (fuel : nat) (name : string) (started_at timeout : N) (last_error : option string) : Sup unit :=
  let over e := eff_fail (ReadinessTimedOut ("async:" +:+ name) (as_millis timeout) e) in
  match fuel with
  | 0 => over last_error
  | S fuel =>
      remaining ← remaining_timeout started_at timeout;
      match remaining with
      | None => over last_error
      | Some remaining =>
          answer ← check_with_timeout remaining;
          match answer with
          | Some (Ok _) => mret tt
          | Some (Err error) =>
              _ ← sleep (N.min remaining ASYNC_READINESS_POLL_INTERVAL);
              async_readiness_loop fuel name started_at timeout (Some error)
          | None => over (Some ELAPSED)
          end
      end
  end.
Definition wait_for_async_readiness (name : string) (timeout : N) : Sup unit :=
  started_at ← instant_now; async_readiness_loop (poll_rounds timeout) name started_at timeout None.

Definition wait_for_managed_resource_readiness (readiness : ManagedResourceReadiness) (timeout : N) : Sup unit :=
  match readiness with
  | TcpHttp check => wait_for_readiness (check_name check) timeout
  | AsyncCheck name => wait_for_async_readiness name timeout
  end.

Definition runtime_exited_before_readiness_error (runtime_name : string) : DaemonError :=
  gateway_problem ("runtime " +:+ tick runtime_name +:+ " exited before readiness was verified").

(** The wait for a process that was started looks every 25 ms whether it has ended: while
    something of the wait goes on until [until], the looks that fall due are taken. The
    answer says when the next one is. *)
Fixpoint pass_until (fuel : nat) (process : ManagedProcess) (runtime_name : string) (until next : N) : Sup N :=
  match fuel with
  | 0 => _ ← set_now until; mret next
  | S fuel =>
      if (next <? until)%N then
        _ ← set_now next;
        exited ← has_exited process;
        if exited : bool then eff_fail (runtime_exited_before_readiness_error runtime_name)
        else now ← instant_now; pass_until fuel process runtime_name until (now + RESOURCE_PROCESS_EXIT_POLL_INTERVAL)
      else _ ← set_now until; mret next
  end.
Definition pass (process : ManagedProcess) (runtime_name : string) (until next : N) : Sup N :=
  pass_until (S (N.to_nat ((until - next) / RESOURCE_PROCESS_EXIT_POLL_INTERVAL))) process runtime_name until next.

(** How the two kinds of checks are tried. *)
Definition probe_time (readiness : ManagedResourceReadiness) (remaining : N) : N :=
  match readiness with TcpHttp _ => N.min remaining READINESS_PROBE_TIMEOUT | AsyncCheck _ => remaining end.
Definition poll_interval (readiness : ManagedResourceReadiness) : N :=
  match readiness with TcpHttp _ => READINESS_POLL_INTERVAL | AsyncCheck _ => ASYNC_READINESS_POLL_INTERVAL end.
Definition readiness_name (readiness : ManagedResourceReadiness) : string :=
  match readiness with TcpHttp check => check_name check | AsyncCheck name => "async:" +:+ name end.
Definition stops_when_elapsed (readiness : ManagedResourceReadiness) : bool := match readiness with TcpHttp _ => false | AsyncCheck _ => true end.

(** A probe, and the time when it is over: [None] when it was given up. *)
Definition begin_probe (limit : N) : Sup (option (result string unit) * N) :=
  now ← instant_now;
  probe ← asks probe_at;
  mret (match probe with
        | ProbeReady d => if (limit <? d)%N then (None, now + limit)%N else (Some (Ok tt), now + d)%N
        | ProbeFails d e => if (limit <? d)%N then (None, now + limit)%N else (Some (Err e), now + d)%N
        | ProbeHangs => (None, now + limit)%N
        end).

(** The outcome of the wait, or the end of the process: an error of the wait is a value here. *)
Fixpoint started_readiness_loop (fuel : nat) (process : ManagedProcess) (runtime_name : string) (readiness : ManagedResourceReadiness)
    (started_at timeout next : N) (last_error : option string) : Sup (result DaemonError unit) :=
  let over e := mret (Err (ReadinessTimedOut (readiness_name readiness) (as_millis timeout) e)) in
  match fuel with
  | 0 => over last_error
  | S fuel =>
      remaining ← remaining_timeout started_at timeout;
      match remaining with
      | None => over last_error
      | Some remaining =>
          probe ← begin_probe (probe_time readiness remaining);
          next ← pass process runtime_name probe.2 next;
          match probe.1 with
          | Some (Ok _) => mret (Ok tt)
          | Some (Err error) =>
              now ← instant_now;
              next ← pass process runtime_name (now + N.min remaining (poll_interval readiness)) next;
              started_readiness_loop fuel process runtime_name readiness started_at timeout next (Some error)
          | None =>
              if stops_when_elapsed readiness then over (Some ELAPSED)
              else started_readiness_loop fuel process runtime_name readiness started_at timeout next (Some ELAPSED)
          end
      end
  end.

Definition wait_for_started_runtime_readiness (process : ManagedProcess) (runtime_name : string) (readiness : ManagedResourceReadiness)
    (timeout : N) : Sup unit :=
  started_at ← instant_now;
  r ← started_readiness_loop (poll_rounds timeout) process runtime_name readiness started_at timeout
        (started_at + RESOURCE_PROCESS_EXIT_POLL_INTERVAL) None;
  match r with
  | Ok _ => mret tt
  | Err error =>
      exited ← has_exited process;
      if exited : bool then eff_fail (runtime_exited_before_readiness_error runtime_name) else eff_fail error
  end.

(** ** Starting a runtime *)

(** The paths of a process's specification are texts. *)
Definition cleanup_started_runtime_files (spec : ProcessSpec) : Gw unit :=
  _ ← on_io (delete_optional_file (path_of (sp_pid_path spec)));
  _ ← on_io (delete_optional_file (path_of (sp_metadata_path spec)));
  on_io (delete_optional_file (path_of (sp_config_path spec))).

(** [probe_readiness_once]. *)
Definition probe_readiness_once : Sup bool :=
  now ← instant_now;
  answer ← asks listener_at;
  _ ← set_now (now + la_after answer)%N;
  mret (la_ready answer).
Definition foreign_listener (readiness : ManagedResourceReadiness) : Sup bool :=
  match readiness with TcpHttp _ => probe_readiness_once | AsyncCheck _ => mret false end.

(** Once the process is there. *)
Definition await_started_runtime (spec : ProcessSpec) (readiness : ManagedResourceReadiness) (timeout : N) (process : ManagedProcess) : Gw unit :=
  ready ← eff_try (on_sup (wait_for_started_runtime_readiness process (sp_name spec) readiness timeout));
  match ready with
  | Err error =>
      _ ← on_sup (stop_managed process RESOURCE_STOP_GRACE_PERIOD);
      _ ← cleanup_started_runtime_files spec;
      eff_fail error
  | Ok _ =>
      _ ← on_sup (sleep RESOURCE_PROCESS_EXIT_POLL_INTERVAL);
      exited ← on_sup (has_exited process);
      if exited : bool then _ ← cleanup_started_runtime_files spec; eff_fail (runtime_exited_before_readiness_error (sp_name spec))
      else mret tt
  end.

Definition start_or_adopt_runtime (spec : ProcessSpec) (readiness : ManagedResourceReadiness) (timeout : N) : Gw unit :=
  adopted ← on_sup (adopt spec);
  match adopted with
  | Some _ => on_sup (wait_for_managed_resource_readiness readiness timeout)
  | None =>
      foreign ← on_sup (foreign_listener readiness);
      if foreign : bool then eff_fail (NonPvManagedResourceRuntimeListener (sp_name spec))
      else process ← on_sup (start paths spec); await_started_runtime spec readiness timeout process
  end.

(** ** The runtime of a track *)

Definition cleanup_resource_runtime_files (resource_name track : string) : Gw unit :=
  _ ← on_io (delete_optional_file (resource_pid paths resource_name track));
  _ ← on_io (delete_optional_file (resource_runtime_metadata paths resource_name track));
  on_io (delete_optional_file (resource_runtime_config paths resource_name track)).

Definition resource_subject (resource_name track : string) : RuntimeSubject := RuntimeResource resource_name track.
Definition record_observed (subject : RuntimeSubject) (status : RuntimeObservedStatus) (message : string) : Gw unit :=
  on_daemon (_ ← stamped now (record_runtime_observed_snapshot subject status (Some message)); mret tt).

Definition desired_allocations (project : ProjectRecord) (plan : ProjectResourcePlan) (resource : ProjectManagedResourceInput) :
    act (list ResourceAllocationRecord) :=
  match pl_allocations plan !! ri_resource_name resource with
  | None => mret []
  | Some allocation_plan =>
      let desired_names := ai_allocation_name <$> allocation_plan in
      allocations ← read_db (list_resource_allocations (id project) (ri_resource_name resource));
      mret (List.filter (λ allocation, bool_decide (al_track allocation = ri_track resource)
                           && bool_decide (al_allocation_name allocation ∈ desired_names)) allocations)
  end.

(** [ResourceRuntimeAttempt::run]. *)
Definition run_attempt (project : ProjectRecord) (plan : ProjectResourcePlan) (a : RuntimeAdapter) (resource : ProjectManagedResourceInput)
    (context : ManagedResourceRuntimeContext) : Gw unit :=
  env ← ra_resource_env a context;
  let context := with_env env context in
  _ ← on_daemon (_ ← stamped now (record_managed_resource_track_env_context (ri_resource_name resource) (ri_track resource) env); mret tt);
  spec ← ra_build_process_spec a context;
  _ ← ra_prepare_runtime a context;
  readiness ← ra_readiness a context;
  _ ← start_or_adopt_runtime spec readiness RESOURCE_READINESS_TIMEOUT;
  allocations ← on_daemon (desired_allocations project plan resource);
  _ ← ra_reconcile_allocations a context env allocations;
  record_observed (resource_subject (ri_resource_name resource) (ri_track resource)) RuntimeRunning "Managed Resource runtime is ready".

Definition unsupported_resource_has_seeded_env_context (resource : ProjectManagedResourceInput) : act bool :=
  records ← read_db list_managed_resource_tracks;
  mret (existsb (λ track, bool_decide (tr_resource_name track = ri_resource_name resource) && bool_decide (tr_track track = ri_track resource)
                   && negb (bool_decide (tr_env track = ∅))) records).

(** The ports of a track and what it left behind are given up before another attempt. *)
Definition give_up_ports (resource : ProjectManagedResourceInput) : Gw unit :=
  _ ← cleanup_resource_runtime_files (ri_resource_name resource) (ri_track resource);
  on_daemon (release_resource_track_ports (ri_resource_name resource) (ri_track resource)).

Definition is_foreign_listener (r : result DaemonError unit) : bool :=
  match r with Err (NonPvManagedResourceRuntimeListener _) => true | _ => false end.

(** The loop of the attempts: [more] are those after this one. *)
Fixpoint attempts (more : nat) (project : ProjectRecord) (plan : ProjectResourcePlan) (a : RuntimeAdapter) (resource : ProjectManagedResourceInput)
    (artifact_path : HostFs.path) (env : gmap string string) : Gw unit :=
  ports ← on_daemon (assign_named_ports a (ri_resource_name resource) (ri_track resource));
  occupied ← ports_occupied_without_recorded_runtime resource ports;
  let context := {| cx_resource_name := ri_resource_name resource; cx_track := ri_track resource; cx_artifact_path := artifact_path;
                    cx_data_dir := resource_data_dir paths (ri_resource_name resource) (ri_track resource);
                    cx_ports := ports; cx_env := env |} in
  match occupied, more with
  | true, S more => _ ← give_up_ports resource; attempts more project plan a resource artifact_path env
  | _, _ =>
      result ← eff_try (run_attempt project plan a resource context);
      match is_foreign_listener result, more with
      | true, S more => _ ← give_up_ports resource; attempts more project plan a resource artifact_path env
      | _, _ => eff_lift result
      end
  end.

(** [if let Err(error) = &result { record(..)?; }]. *)
Definition or_record_observed (subject : RuntimeSubject) (m : Gw unit) : Gw unit :=
  r ← eff_try m;
  match r with
  | Ok _ => mret tt
  | Err error => _ ← record_observed subject RuntimeFailed (daemon_error_text error); eff_fail error
  end.

Definition reconcile_resource_track (catalog : ManagedResourceRuntimeCatalog) (project : ProjectRecord) (plan : ProjectResourcePlan)
    (resource : ProjectManagedResourceInput) : Gw unit :=
  let subject := resource_subject (ri_resource_name resource) (ri_track resource) in
  match adapter catalog (ri_resource_name resource) with
  | None =>
      seeded ← on_daemon (unsupported_resource_has_seeded_env_context resource);
      if seeded : bool then mret tt
      else or_record_observed subject (eff_fail (UnsupportedManagedResourceRuntime (ri_resource_name resource)))
  | Some a =>
      or_record_observed subject
        (track_record ← ensure_track_artifact (ct_commands catalog) a resource;
         match tr_current_artifact_path track_record with
         | None => eff_fail (ManagedResourceArtifactMissing (ri_resource_name resource) (ri_track resource))
         | Some artifact_path => attempts (pred RESOURCE_START_ATTEMPTS) project plan a resource (tree_path artifact_path) (tr_env track_record)
         end)
  end.

(** ** Stopping what nobody needs *)

Definition stop_resource_runtime (track : ManagedResourceTrackRecord) : Gw unit :=
  let name := tr_resource_name track in
  adopted ← on_sup (adopt_recorded (path_str (resource_pid paths name (tr_track track))) (path_str (resource_runtime_metadata paths name (tr_track track))));
  _ ← (match adopted with Some adopted => on_sup (stop_adopted adopted RESOURCE_STOP_GRACE_PERIOD) | None => mret tt end);
  _ ← record_observed (resource_subject name (tr_track track)) RuntimeStopped "Managed Resource runtime stopped; no Projects require this track";
  _ ← cleanup_resource_runtime_files name (tr_track track);
  on_daemon (release_resource_track_ports name (tr_track track)).

Definition is_undemanded (catalog : ManagedResourceRuntimeCatalog) (demanded_tracks : list (string * string)) (track : ManagedResourceTrackRecord) : bool :=
  option_bool (adapter catalog (tr_resource_name track))
  && negb ((0 <? tr_usage_count track)%Z || bool_decide ((tr_resource_name track, tr_track track) ∈ demanded_tracks)).

Definition stop_undemanded_catalog_runtimes (catalog : ManagedResourceRuntimeCatalog) (demanded_tracks : list (string * string)) : Gw unit :=
  tracks ← on_daemon (read_db list_managed_resource_tracks);
  eff_iter (λ track, if is_undemanded catalog demanded_tracks track then stop_resource_runtime track else mret tt) tracks.

(** ** A project's resources, and the system's *)

Definition reconcile_project_resources_with_catalog (catalog : ManagedResourceRuntimeCatalog) (project : ProjectRecord) (plan : ProjectResourcePlan) :
    Gw unit :=
  _ ← stop_undemanded_catalog_runtimes catalog ((λ resource, (ri_resource_name resource, ri_track resource)) <$> pl_resources plan);
  eff_iter (reconcile_resource_track catalog project plan) (pl_resources plan).

Definition reconcile_system_resources_with_catalog (catalog : ManagedResourceRuntimeCatalog) : Gw unit :=
  _ ← stop_undemanded_catalog_runtimes catalog [];
  installs ← on_daemon (read_db (missing_desired_resource_installs catalog));
  install_missing_desired_resource_tracks (ct_commands catalog) installs.

(** ** Redis, Mailpit and RustFS *)

(** [serde_json::to_string] of a text, and [to_string_pretty] of an object. *)
Context (json_text : string → result string string) (json_pretty : list (string * JsonField) → result string string).

Definition required_port (context : ManagedResourceRuntimeContext) (port_name : string) : result DaemonError Z :=
  ok_or (cx_ports context !! port_name) (ManagedResourcePortMissing (cx_resource_name context) (cx_track context) port_name).
Definition port_text (p : Z) : string := pretty p.
Definition host_and_port (p : Z) : string := RESOURCE_HOST +:+ ":" +:+ port_text p.

Definition context_spec (context : ManagedResourceRuntimeContext) (a : RuntimeArtifactAdapter) (arguments : list string)
    (private_environment : gmap string string) : ProcessSpec :=
  let name := cx_resource_name context in
  let track := cx_track context in
  {| sp_name := name +:+ "-" +:+ track; sp_command := path_str (join_path (cx_artifact_path context) (rt_executable_relative_path a));
     sp_arguments := arguments; sp_private_environment := private_environment;
     sp_config_path := path_str (resource_runtime_config paths name track); sp_log_path := path_str (resource_log paths name track);
     sp_pid_path := path_str (resource_pid paths name track); sp_metadata_path := path_str (resource_runtime_metadata paths name track);
     sp_resource_name := name; sp_track := track |}.

Definition on_state_fs {A : Type} (m : IO FsError A) : Gw A := on_io (GatewayConfig.on_fs m).

Definition redis_env (port : Z) (prefix : option string) : gmap string string :=
  let env := {[ "host" := RESOURCE_HOST; "port" := port_text port; "url" := "redis://" +:+ host_and_port port +:+ "/0" ]} in
  match prefix with Some prefix => <[ "prefix" := prefix ]> env | None => env end.

Definition quotes : string := String "034" (String "034" EmptyString).
Definition newline : string := String "010" EmptyString.
Definition redis_config (port : Z) (data_dir : string) : string :=
  join newline ["bind " +:+ RESOURCE_HOST; "port " +:+ port_text port; "dir " +:+ data_dir; "save " +:+ quotes;
                "appendonly yes"; "appendfsync everysec"; "set-proc-title no"; ""].

Definition redis_process_spec (context : ManagedResourceRuntimeContext) : Gw ProcessSpec :=
  port ← eff_lift (required_port context "redis");
  let config_path := resource_runtime_config paths (cx_resource_name context) (cx_track context) in
  data_dir ← eff_lift (map_err DaemonJson (json_text (path_str (cx_data_dir context))));
  _ ← on_io (io_map_err DaemonIo (std_create_dir_all (cx_data_dir context)));
  _ ← on_state_fs (write_sensitive_file config_path (redis_config port data_dir));
  a ← eff_lift (map_err DaemonResources redis_adapter);
  mret (context_spec context a [path_str config_path] ∅).

Definition redis_allocation (port : Z) (allocation : ResourceAllocationRecord) : Gw unit :=
  let env := redis_env port (Some (al_generated_name allocation)) in
  match al_status allocation with
  | AllocationDesired =>
      on_daemon (_ ← stamped now (mark_resource_allocation_ready (al_project_id allocation) (al_resource_name allocation) (al_track allocation)
                                    (al_allocation_name allocation) env); mret tt)
  | AllocationReady =>
      if bool_decide (al_env allocation = env) then mret tt
      else on_daemon (_ ← stamped now (record_resource_allocation_env_context (al_project_id allocation) (al_resource_name allocation)
                                         (al_track allocation) (al_allocation_name allocation) env); mret tt)
  | AllocationFailed | AllocationInactive => mret tt
  end.

Definition RedisRuntimeAdapter : RuntimeAdapter := {|
  ra_resource_name := "redis";
  ra_artifact_adapter := map_err DaemonResources redis_adapter;
  ra_port_specs := [{| ps_name := "redis"; ps_preferred_port := 6379 |}];
  ra_prepare_runtime _ := mret tt;
  ra_build_process_spec := redis_process_spec;
  ra_readiness context := port ← eff_lift (required_port context "redis"); mret (TcpHttp (CheckRedisPing RESOURCE_HOST (Z.to_N port)));
  ra_resource_env context := port ← eff_lift (required_port context "redis"); mret (redis_env port None);
  ra_reconcile_allocations context _ allocations := port ← eff_lift (required_port context "redis"); eff_iter (redis_allocation port) allocations;
|}.

Definition mailpit_process_spec (context : ManagedResourceRuntimeContext) : Gw ProcessSpec :=
  smtp_port ← eff_lift (required_port context "smtp");
  dashboard_port ← eff_lift (required_port context "dashboard");
  let config_path := resource_runtime_config paths (cx_resource_name context) (cx_track context) in
  let config := [("resource", JText (cx_resource_name context)); ("track", JText (cx_track context)); ("smtp", JText (host_and_port smtp_port));
                 ("listen", JText (host_and_port dashboard_port)); ("data_dir", JText (path_str (cx_data_dir context)))] in
  _ ← on_state_fs (ensure_user_dir (cx_data_dir context));
  content ← eff_lift (map_err DaemonJson (json_pretty config));
  _ ← on_state_fs (write_sensitive_file config_path content);
  a ← eff_lift (map_err DaemonResources mailpit_adapter);
  mret (context_spec context a
    ["--smtp"; host_and_port smtp_port; "--listen"; host_and_port dashboard_port;
     "--database"; path_str (join_path (cx_data_dir context) "mailpit.db"); "--disable-version-check"] ∅).

Definition mailpit_env (context : ManagedResourceRuntimeContext) : result DaemonError (gmap string string) :=
  smtp_port ← required_port context "smtp";
  dashboard_port ← required_port context "dashboard";
  Ok {[ "smtp_host" := RESOURCE_HOST; "smtp_port" := port_text smtp_port; "dashboard_url" := "http://" +:+ host_and_port dashboard_port ]}.

Definition MailpitRuntimeAdapter : RuntimeAdapter := {|
  ra_resource_name := "mailpit";
  ra_artifact_adapter := map_err DaemonResources mailpit_adapter;
  ra_port_specs := [{| ps_name := "smtp"; ps_preferred_port := 1025 |}; {| ps_name := "dashboard"; ps_preferred_port := 8025 |}];
  ra_prepare_runtime _ := mret tt;
  ra_build_process_spec := mailpit_process_spec;
  ra_readiness context := port ← eff_lift (required_port context "dashboard"); mret (TcpHttp (CheckHttp RESOURCE_HOST (Z.to_N port) "/"));
  ra_resource_env context := eff_lift (mailpit_env context);
  ra_reconcile_allocations _ _ _ := mret tt;
|}.

(** *** RustFS: the keys that are generated, and the calls of the S3 clients *)

Context (generated_secret_key : Gw string).
(** [create_bucket] and [verify_object_operations], with an access key, a secret key and an endpoint. *)
Context (create_bucket verify_object_operations : string → string → string → string → Gw unit).

Definition required_env_value (env : gmap string string) (key : string) : result DaemonError string :=
  match env !! key with
  | Some value => if is_empty value then Err (gateway_problem ("RustFS resource env is missing " +:+ tick key)) else Ok value
  | None => Err (gateway_problem ("RustFS resource env is missing " +:+ tick key))
  end.

Definition rustfs_resource_env (context : ManagedResourceRuntimeContext) : Gw (gmap string string) :=
  api_port ← eff_lift (required_port context "api");
  let endpoint := "http://" +:+ host_and_port api_port in
  keys ← (if bool_decide (cx_env context = ∅) then secret_key ← generated_secret_key; mret ("pv-rustfs", secret_key)
          else access_key ← eff_lift (required_env_value (cx_env context) "access_key");
               secret_key ← eff_lift (required_env_value (cx_env context) "secret_key"); mret (access_key, secret_key));
  mret {[ "access_key" := keys.1; "secret_key" := keys.2; "endpoint" := endpoint; "host" := RESOURCE_HOST;
          "port" := port_text api_port; "url" := endpoint ]}.

Definition process_environment (resource_env : gmap string string) : result DaemonError (gmap string string) :=
  access_key ← required_env_value resource_env "access_key";
  secret_key ← required_env_value resource_env "secret_key";
  Ok {[ "RUSTFS_ACCESS_KEY" := access_key; "RUSTFS_SECRET_KEY" := secret_key ]}.

Definition rustfs_process_spec (context : ManagedResourceRuntimeContext) : Gw ProcessSpec :=
  api_port ← eff_lift (required_port context "api");
  console_port ← eff_lift (required_port context "console");
  let config_path := resource_runtime_config paths (cx_resource_name context) (cx_track context) in
  let config := [("resource", JText (cx_resource_name context)); ("track", JText (cx_track context)); ("api_port", JNumber api_port);
                 ("console_port", JNumber console_port); ("data_dir", JText (path_str (cx_data_dir context)))] in
  _ ← on_state_fs (ensure_user_dir (cx_data_dir context));
  content ← eff_lift (map_err DaemonJson (json_pretty config));
  _ ← on_state_fs (write_sensitive_file config_path content);
  a ← eff_lift (map_err DaemonResources rustfs_adapter);
  private_environment ← eff_lift (process_environment (cx_env context));
  mret (context_spec context a
    ["--address"; host_and_port api_port; "--console-address"; host_and_port console_port; path_str (cx_data_dir context)] private_environment).

Definition allocation_env (bucket : string) : gmap string string := {[ "bucket" := bucket ]}.
Definition rustfs_allocation (context : ManagedResourceRuntimeContext) (access_key secret_key endpoint : string) (allocation : ResourceAllocationRecord) :
    Gw unit :=
  let bucket := al_generated_name allocation in
  _ ← create_bucket access_key secret_key endpoint bucket;
  _ ← verify_object_operations access_key secret_key endpoint bucket;
  if bool_decide (al_status allocation = AllocationReady) then mret tt
  else on_daemon (_ ← stamped now (mark_resource_allocation_ready (al_project_id allocation) (cx_resource_name context) (cx_track context)
                                     (al_allocation_name allocation) (allocation_env bucket)); mret tt).

Definition RustfsRuntimeAdapter : RuntimeAdapter := {|
  ra_resource_name := "rustfs";
  ra_artifact_adapter := map_err DaemonResources rustfs_adapter;
  ra_port_specs := [{| ps_name := "api"; ps_preferred_port := 9000 |}; {| ps_name := "console"; ps_preferred_port := 9001 |}];
  ra_prepare_runtime _ := mret tt;
  ra_build_process_spec := rustfs_process_spec;
  ra_readiness context := port ← eff_lift (required_port context "api"); mret (TcpHttp (CheckHttp RESOURCE_HOST (Z.to_N port) "/health"));
  ra_resource_env := rustfs_resource_env;
  ra_reconcile_allocations context resource_env allocations :=
    access_key ← eff_lift (required_env_value resource_env "access_key");
    secret_key ← eff_lift (required_env_value resource_env "secret_key");
    endpoint ← eff_lift (required_env_value resource_env "endpoint");
    eff_iter (rustfs_allocation context access_key secret_key endpoint) allocations;
|}.

(** [ManagedResourceRuntimeCatalog::production]; the adapters of the SQL servers are arguments. *)
Definition production (mysql postgres : RuntimeAdapter) (commands : InstallCommands) : ManagedResourceRuntimeCatalog :=
  {| ct_adapters := <["postgres" := postgres]> (<["mysql" := mysql]> (<["rustfs" := RustfsRuntimeAdapter]> (<["redis" := RedisRuntimeAdapter]>
                      {["mailpit" := MailpitRuntimeAdapter]})));
     ct_commands := commands |}.
Definition without_adapters (commands : InstallCommands) : ManagedResourceRuntimeCatalog := {| ct_adapters := ∅; ct_commands := commands |}.
End runtimes.

(** ** The commands of [resources/src/command.rs], on the state of the daemon *)

Definition shell_part : part GatewayState ResourceCommands.Shell := {|
  get_part s := {| ResourceCommands.sh_db := dm_db (gs_daemon s); ResourceCommands.sh_world := dm_world (gs_daemon s);
                   ResourceCommands.sh_ticks := dm_ticks (gs_daemon s) |};
  set_part c s := set_part daemon_part {| dm_db := ResourceCommands.sh_db c; dm_world := ResourceCommands.sh_world c;
                                          dm_ticks := ResourceCommands.sh_ticks c; dm_log := dm_log (gs_daemon s) |} s |}.

Section commands.
Context (sqlite_display : SqliteError → string) (time_format_error : string).

Fixpoint command_error_text (e : CommandError) : string :=
  match e with
  | CmdResources e => resources_error_display e
  | CmdState e => state_error_display sqlite_display time_format_error e
  | TrackNotInstalled resource track => "Managed Resource " +:+ tick resource +:+ " track " +:+ tick track +:+ " is not installed"
  | TrackInUse resource track usage_count =>
      "Managed Resource " +:+ tick resource +:+ " track " +:+ tick track +:+ " is used by " +:+ pretty usage_count
        +:+ " linked project(s); use --force to remove it anyway"
  | RollbackFailed original_error rollback_error =>
      "Managed Resource operation failed with " +:+ tick (command_error_text original_error) +:+ ", and rollback also failed: "
        +:+ resources_error_display rollback_error
  end.
Definition on_commands {A : Type} (m : ResourceCommands.cmd A) : Gw A :=
  on_part shell_part (λ e, ManagedResourceCommand (command_error_text e)) m.

Context `{Host} `{Json}.
Context {Entry : Type} (entry_type : Entry → Installer.EntryType) (entry_path : Entry → result IoError string).
Context (open_archive : HostFs.path → IO ResourcesError (list (result IoError Entry))) (unpack : Entry → HostFs.path → IO IoError unit).
Context (agent_call : string → IO ArtifactDownload.UreqError ArtifactDownload.HttpBody) (sha256_hex : string → string).
Context (client_get_text : string → IO ResourcesError string).
Context (parse_rfc3339 : string → option Z) (url_parse : string → option ParsedUrl) (pkg_version : string).
Context (json_parse : string → result string RawManifest) (PHP_TRACK_DEFAULT_INI : string).
Context (connect : IO StateError unit) (now : nat → result StateError string) (paths : PvPaths) (manifest_url : string) (target_platform : TargetPlatform).
(** [UpdateLock::require_no_update_in_progress]. *)
Context (require_no_update_in_progress : Gw unit).

Definition resource_commands : InstallCommands := {|
  ic_install a track := on_commands (_ ← ResourceCommands.install_with_progress entry_type entry_path open_archive unpack agent_call sha256_hex
    client_get_text parse_rfc3339 url_parse pkg_version json_parse connect now paths manifest_url target_platform
    (ResourceCommands.as_adapter a) (Track track); mret tt);
  ic_install_php_pair track := on_commands (_ ← ResourceCommands.install_php_pair_with_progress entry_type entry_path open_archive unpack agent_call
    sha256_hex client_get_text parse_rfc3339 url_parse pkg_version json_parse PHP_TRACK_DEFAULT_INI connect now paths manifest_url target_platform
    (Track track); mret tt);
  ic_install_composer := on_commands (_ ← ResourceCommands.install_composer_with_progress entry_type entry_path open_archive unpack agent_call
    sha256_hex client_get_text parse_rfc3339 url_parse pkg_version json_parse connect now paths manifest_url target_platform; mret tt);
|}.

Definition update_check : Gw (list ManagedResourceUpdateCheckTrack) :=
  _ ← require_no_update_in_progress;
  on_commands (ResourceCommands.check_updates client_get_text parse_rfc3339 url_parse pkg_version json_parse connect now paths manifest_url target_platform).

Record ManagedResourceUpdateReport := { up_installed_count : nat; up_updated_count : nat }.

Definition update_installed (catalog : ManagedResourceRuntimeCatalog) : Gw ManagedResourceUpdateReport :=
  tracks ← on_commands (ResourceCommands.list_tracks connect now paths None);
  adapters ← eff_lift (artifact_adapters catalog);
  installs ← on_commands (ResourceCommands.update_all_installed_with_progress entry_type entry_path open_archive unpack agent_call sha256_hex
    client_get_text parse_rfc3339 url_parse pkg_version json_parse PHP_TRACK_DEFAULT_INI connect now paths manifest_url target_platform
    (ResourceCommands.as_adapter <$> adapters));
  mret {| up_installed_count := length tracks; up_updated_count := length installs |}.
End commands.

(** ** What an adapter and the commands promise: they leave the processes of the supervisor
    alone, and making allocations never answers that a listener is not PV's *)

Definition gw_calm {A : Type} (m : Gw A) : Prop := ∀ s, ran [] [] (sup s) (sup (m s).2).
Definition not_foreign {S A : Type} (m : eff S DaemonError A) : Prop :=
  ∀ s, match (m s).1 with Err (NonPvManagedResourceRuntimeListener _) => False | _ => True end.
Definition aside {A : Type} (m : Gw A) : Prop := gw_calm m ∧ not_foreign m.

Class AdapterLaws (a : RuntimeAdapter) : Prop := {
  prepare_calm context : gw_calm (ra_prepare_runtime a context);
  readiness_calm context : gw_calm (ra_readiness a context);
  build_calm context : gw_calm (ra_build_process_spec a context);
  env_calm context : gw_calm (ra_resource_env a context);
  allocations_aside context env allocations : aside (ra_reconcile_allocations a context env allocations);
}.
Class CommandsLaws (c : InstallCommands) : Prop := {
  install_calm a track : gw_calm (ic_install c a track);
  pair_calm track : gw_calm (ic_install_php_pair c track);
  composer_calm : gw_calm (ic_install_composer c);
}.

Lemma not_foreign_bind {S A B : Type} (m : eff S DaemonError A) (f : A → eff S DaemonError B) :
  not_foreign m → (∀ a, not_foreign (f a)) → not_foreign (m ≫= f).
Proof. intros Hm Hf s. specialize (Hm s). unfold mbind, eff_bind. destruct (m s) as [[a|e] s1]; [apply Hf|exact Hm]. Qed.
Lemma not_foreign_ret {S A : Type} (a : A) : not_foreign (S := S) (mret a).
Proof. by intros s. Qed.
Lemma not_foreign_try {S A : Type} {F : Type} (m : eff S F A) : not_foreign (eff_try m).
Proof. intros s. unfold eff_try. by destruct (m s). Qed.
Lemma not_foreign_get {S A : Type} (f : S → A) : not_foreign (eff_get f).
Proof. by intros s. Qed.
Lemma not_foreign_modify {S : Type} (f : S → S) : not_foreign (eff_modify f).
Proof. by intros s. Qed.
Lemma not_foreign_part {S T A : Type} (l : part S T) (m : eff T DaemonError A) : not_foreign m → not_foreign (on_part l (λ e, e) m).
Proof. intros Hm s. specialize (Hm (get_part l s)). unfold on_part. by destruct (m (get_part l s)) as [[]]. Qed.
(** Another type of errors. *)
Lemma not_foreign_wrap {S T E A : Type} (l : part S T) (f : E → DaemonError) (m : eff T E A) :
  (∀ e name, f e ≠ NonPvManagedResourceRuntimeListener name) → not_foreign (on_part l f m).
Proof. intros Hf s. unfold on_part. destruct (m (get_part l s)) as [[a|e] t]; [done|]. cbn. destruct (f e) eqn:He; try done. by eapply Hf. Qed.
Lemma not_foreign_lift {S A E : Type} (f : E → DaemonError) (r : result E A) :
  (∀ e name, f e ≠ NonPvManagedResourceRuntimeListener name) → not_foreign (S := S) (eff_lift (map_err f r)).
Proof. intros Hf s. destruct r as [a|e]; cbn; [done|]. destruct (f e) eqn:He; try done. by eapply Hf. Qed.
Lemma not_foreign_fail {S A : Type} e : (∀ name, e ≠ NonPvManagedResourceRuntimeListener name) → not_foreign (S := S) (A := A) (eff_fail e).
Proof. intros He s. cbn. destruct e; try done. by eapply He. Qed.

Lemma gw_calm_bind {A B : Type} (m : Gw A) (f : A → Gw B) : gw_calm m → (∀ a, gw_calm (f a)) → gw_calm (m ≫= f).
Proof.
  intros Hm Hf s. specialize (Hm s). unfold mbind, eff_bind. destruct (m s) as [[a|e] s1]; [|exact Hm].
  exact (ran_trans _ _ _ _ _ _ _ Hm (Hf a s1)).
Qed.
Lemma gw_calm_ret {A : Type} (a : A) : gw_calm (mret a).
Proof. intros s. apply ran_refl. Qed.
Lemma gw_calm_lift {A : Type} (r : result DaemonError A) : gw_calm (eff_lift r).
Proof. intros s. apply ran_refl. Qed.
Lemma gw_calm_fail {A : Type} e : gw_calm (A := A) (eff_fail e).
Proof. intros s. apply ran_refl. Qed.
Lemma gw_calm_try {A : Type} (m : Gw A) : gw_calm m → gw_calm (eff_try m).
Proof. intros Hm s. specialize (Hm s). unfold eff_try. by destruct (m s). Qed.
Lemma gw_calm_sup {A : Type} (m : Sup A) : calm m → gw_calm (on_sup m).
Proof.
  intros Hm s. specialize (Hm (sup s)). unfold on_sup, on_part. change (get_part sup_part s) with (sup s).
  destruct (m (sup s)) as [r u]. cbn [snd] in Hm |- *. by rewrite sup_set.
Qed.
(** The daemon's own state: the database, the files, the log. *)
Lemma gw_calm_daemon {A : Type} (m : act A) : gw_calm (on_daemon m).
Proof. intros s. unfold on_daemon, on_part. destruct (m (get_part daemon_part s)) as [r d]. by split_and!. Qed.
Lemma gw_calm_io {A : Type} (m : IO DaemonError A) : gw_calm (on_io m).
Proof. apply gw_calm_daemon. Qed.
Lemma gw_calm_iter {A : Type} (f : A → Gw unit) l : (∀ x, gw_calm (f x)) → gw_calm (eff_iter f l).
Proof. intros Hf. induction l as [|x l IH]; [apply gw_calm_ret|]. by apply gw_calm_bind. Qed.
Lemma not_foreign_iter {S A : Type} (f : A → eff S DaemonError unit) l : (∀ x, not_foreign (f x)) → not_foreign (eff_iter f l).
Proof. intros Hf. induction l as [|x l IH]; [apply not_foreign_ret|]. by apply not_foreign_bind. Qed.

Lemma aside_bind {A B : Type} (m : Gw A) (f : A → Gw B) : aside m → (∀ a, aside (f a)) → aside (m ≫= f).
Proof. intros [Hm Hn] Hf. split; [apply gw_calm_bind|apply not_foreign_bind]; try done; intros a; apply Hf. Qed.
Lemma aside_ret {A : Type} (a : A) : aside (mret a).
Proof. split; [apply gw_calm_ret|apply not_foreign_ret]. Qed.
Lemma aside_fail {A : Type} e : (∀ name, e ≠ NonPvManagedResourceRuntimeListener name) → aside (A := A) (eff_fail e).
Proof. intros He. split; [apply gw_calm_fail|by apply not_foreign_fail]. Qed.
Lemma aside_lift {A E : Type} (f : E → DaemonError) (r : result E A) :
  (∀ e name, f e ≠ NonPvManagedResourceRuntimeListener name) → aside (eff_lift (map_err f r)).
Proof. intros Hf. split; [apply gw_calm_lift|by apply not_foreign_lift]. Qed.
Lemma aside_daemon {A : Type} (m : act A) : not_foreign m → aside (on_daemon m).
Proof. intros Hm. split; [apply gw_calm_daemon|by apply not_foreign_part]. Qed.
Lemma aside_iter {A : Type} (f : A → Gw unit) l : (∀ x, aside (f x)) → aside (eff_iter f l).
Proof. intros Hf. split; [apply gw_calm_iter|apply not_foreign_iter]; intros x; apply Hf. Qed.
Lemma not_foreign_read {A : Type} (f : Db → result StateError A) : not_foreign (read_db f).
Proof. intros s. unfold read_db. by destruct (f (dm_db s)). Qed.
Lemma not_foreign_stamped {A : Type} now (m : string → Op A) : not_foreign (stamped now m).
Proof. unfold stamped. apply not_foreign_bind; [by intros s|intros at']. by apply not_foreign_wrap. Qed.
Lemma not_foreign_db {A : Type} (m : Op A) : not_foreign (on_db m).
Proof. by apply not_foreign_wrap. Qed.
Lemma aside_fs {A : Type} `{Host} (m : IO FsError A) : aside (on_io (GatewayConfig.on_fs m)).
Proof.
  apply aside_daemon. unfold ProjectReconcile.on_world. apply not_foreign_part. intros w. unfold GatewayConfig.on_fs, io_map_err. by destruct (m w) as [[]].
Qed.

Lemma aside_ok_or {A : Type} (o : option A) e : (∀ name, e ≠ NonPvManagedResourceRuntimeListener name) → aside (eff_lift (ok_or o e)).
Proof. intros He. split; [apply gw_calm_lift|]. intros s. destruct o; cbn; [done|]. destruct e; try done. by eapply He. Qed.
Lemma aside_io {A : Type} `{Host} (m : IO IoError A) : aside (on_io (io_map_err DaemonIo m)).
Proof.
  apply aside_daemon. unfold ProjectReconcile.on_world. apply not_foreign_part. intros w. unfold io_map_err. by destruct (m w) as [[]].
Qed.
Lemma aside_commands {A : Type} sqlite_display time_format_error (m : ResourceCommands.cmd A) : aside (on_commands sqlite_display time_format_error m).
Proof.
  split; [|by apply not_foreign_wrap]. intros s. unfold on_commands, on_part. destruct (m (get_part shell_part s)) as [r c]. by split_and!.
Qed.

Ltac aside_step :=
  match goal with
  | |- aside (_ ≫= _) => apply aside_bind; [|intros ?]
  | |- aside (mret _) => apply aside_ret
  | |- aside (eff_fail _) => apply aside_fail; by intros
  | |- aside (eff_lift (ok_or _ _)) => apply aside_ok_or; by intros
  | |- aside (eff_lift (map_err _ _)) => apply aside_lift; by intros
  | |- aside (on_io (io_map_err DaemonIo _)) => apply aside_io
  | |- aside (on_state_fs _) => apply aside_fs
  | |- aside (on_io (GatewayConfig.on_fs _)) => apply aside_fs
  | |- aside (on_commands _ _ _) => apply aside_commands
  | |- aside (eff_iter _ _) => apply aside_iter; intros ?
  | |- aside (on_daemon (_ ← stamped _ _; _)) => apply aside_daemon, not_foreign_bind; [apply not_foreign_stamped|intros ?; apply not_foreign_ret]
  | |- aside (on_daemon (read_db _)) => apply aside_daemon, not_foreign_read
  | |- aside (match ?x with _ => _ end) => destruct x
  | |- aside (let _ := _ in _) => cbv zeta
  end.
Ltac aside := repeat aside_step.

Lemma aside_calm {A : Type} (m : Gw A) : aside m → gw_calm m.
Proof. by intros [Hm _]. Qed.
Ltac laws := split; intros; try match goal with |- gw_calm _ => apply aside_calm end;
  cbn [RedisRuntimeAdapter MailpitRuntimeAdapter RustfsRuntimeAdapter ra_prepare_runtime ra_readiness ra_build_process_spec ra_resource_env ra_reconcile_allocations].


#[export] Instance redis_laws `{Host} `{Json} paths now json_text : AdapterLaws (RedisRuntimeAdapter paths now json_text).
Proof. laws; unfold redis_process_spec, redis_allocation, required_port; aside. Qed.
#[export] Instance mailpit_laws `{Host} paths json_pretty : AdapterLaws (MailpitRuntimeAdapter paths json_pretty).
Proof.
  laws; unfold mailpit_process_spec, required_port; aside. split; [apply gw_calm_lift|]. unfold mailpit_env, required_port. intros s.
  by destruct (cx_ports context !! "smtp"), (cx_ports context !! "dashboard").
Qed.
#[export] Instance resource_commands_laws sqlite_display time_format_error `{Host} `{Json} {Entry} entry_type entry_path open_archive unpack agent_call
    sha256_hex client_get_text parse_rfc3339 url_parse pkg_version json_parse ini connect now paths manifest_url target_platform :
  CommandsLaws (resource_commands sqlite_display time_format_error (Entry := Entry) entry_type entry_path open_archive unpack agent_call sha256_hex
    client_get_text parse_rfc3339 url_parse pkg_version json_parse ini connect now paths manifest_url target_platform).
Proof. split; intros; apply aside_calm, aside_commands. Qed.

Lemma rustfs_laws `{Host} `{Json} paths now json_pretty generated_secret_key create_bucket verify_object_operations :
  aside generated_secret_key → (∀ a s e b, aside (create_bucket a s e b)) → (∀ a s e b, aside (verify_object_operations a s e b)) →
  AdapterLaws (RustfsRuntimeAdapter paths now json_pretty generated_secret_key create_bucket verify_object_operations).
Proof.
  intros Hkey Hcreate Hverify.
  assert (∀ env key, aside (eff_lift (required_env_value env key))) as Henv.
  { intros env key. unfold required_env_value. split; [apply gw_calm_lift|]. intros s. by destruct (env !! key) as [v|]; [destruct (is_empty v)|]. }
  laws; unfold rustfs_process_spec, rustfs_resource_env, rustfs_allocation, required_port; aside; try done; try apply Henv.
  split; [apply gw_calm_lift|]. unfold process_environment, required_env_value. intros s.
  by destruct (cx_env context !! "access_key") as [v1|], (cx_env context !! "secret_key") as [v2|]; cbn; repeat (destruct (is_empty _); cbn).
Qed.

(** ** The errors of the supervisor *)

Definition foreign_error (e : DaemonError) : bool := match e with NonPvManagedResourceRuntimeListener _ => true | _ => false end.
Lemma not_foreign_recover {S A B : Type} (m : eff S DaemonError A) (f : result DaemonError A → eff S DaemonError B) : not_foreign m →
  (∀ a, not_foreign (f (Ok a))) → (∀ e, (∀ name, e ≠ NonPvManagedResourceRuntimeListener name) → not_foreign (f (Err e))) → not_foreign (eff_try m ≫= f).
Proof.
  intros Hm Hok Herr s. specialize (Hm s). unfold mbind, eff_bind, eff_try. destruct (m s) as [[a|e] s1]; [apply Hok|].
  apply Herr. intros name ->. exact Hm.
Qed.

Section errors.
Context `{Host} `{ProcessHost} `{ListenerHost} `{MetadataJson}.

Ltac foreign_step :=
  match goal with
  | |- not_foreign (_ ≫= _) => apply not_foreign_bind; [|intros ?]
  | |- not_foreign (match ?x with _ => _ end) => destruct x
  | |- not_foreign (mret _) => apply not_foreign_ret
  | |- not_foreign (eff_fail _) => apply not_foreign_fail; by intros
  | |- not_foreign (eff_lift (map_err _ _)) => apply not_foreign_lift; by intros
  | |- not_foreign (eff_try _) => apply not_foreign_try
  | |- not_foreign (eff_get _) => apply not_foreign_get
  | |- not_foreign (eff_modify _) => apply not_foreign_modify
  | |- not_foreign (asks _) => by intros ?
  | |- not_foreign (sleep _) => by intros ?
  | |- not_foreign (on_files _) => apply not_foreign_wrap; by intros
  | |- not_foreign ?m => let h := get_head m in unfold h
  end
with get_head m := match m with ?f _ => get_head f | _ => m end.
Ltac foreign := repeat foreign_step.

Lemma not_foreign_group pid : not_foreign (S := Supervised) (eff_lift (process_group_pid pid)).
Proof. intros s. unfold process_group_pid. by repeat case_match. Qed.
Lemma not_foreign_signal pid signal : not_foreign (signal_process_group pid signal).
Proof. unfold signal_process_group. apply not_foreign_bind; [apply not_foreign_group|intros ?]. foreign. Qed.
Lemma not_foreign_exists pid : not_foreign (process_group_exists pid).
Proof. unfold process_group_exists. apply not_foreign_bind; [apply not_foreign_group|intros ?]. foreign. Qed.
Lemma not_foreign_managed_loop fuel pid deadline : not_foreign (managed_exit_loop fuel pid deadline).
Proof. induction fuel as [|fuel IH]; cbn; [foreign|]. apply not_foreign_bind; [apply not_foreign_exists|intros ?]. repeat (apply IH || foreign_step). Qed.
Lemma not_foreign_managed_wait pid timeout : not_foreign (wait_for_managed_process_group_exit pid timeout).
Proof. unfold wait_for_managed_process_group_exit. repeat (apply not_foreign_managed_loop || foreign_step). Qed.
Lemma not_foreign_stop p grace_period : not_foreign (stop_managed p grace_period).
Proof.
  unfold stop_managed. repeat first [apply not_foreign_exists | apply not_foreign_signal | apply not_foreign_managed_wait | foreign_step].
Qed.
Lemma not_foreign_script_loop fuel spec pid started_at stable identity : not_foreign (script_identity_loop fuel spec pid started_at stable identity).
Proof. revert stable identity. induction fuel as [|fuel IH]; intros stable identity; cbn; [foreign|]. repeat (apply IH || foreign_step). Qed.
Lemma not_foreign_persist spec pid : not_foreign (persist_runtime_files spec pid).
Proof. unfold persist_runtime_files. repeat (apply not_foreign_script_loop || foreign_step). Qed.
Lemma not_foreign_start paths spec : not_foreign (start paths spec).
Proof.
  unfold start. repeat first [apply not_foreign_recover; [apply not_foreign_persist|intros ?|intros ? ?; apply not_foreign_bind; [|intros ?; by apply not_foreign_fail]] | foreign_step].
Qed.
Lemma not_foreign_exited p : not_foreign (has_exited p).
Proof. unfold has_exited. foreign. Qed.
Lemma not_foreign_pass fuel p name until next : not_foreign (pass_until fuel p name until next).
Proof. revert next. induction fuel as [|fuel IH]; intros next; cbn; [foreign|]. repeat first [apply IH | apply not_foreign_exited | foreign_step]. Qed.
Lemma not_foreign_started_loop fuel p name readiness started_at timeout next last_error :
  not_foreign (started_readiness_loop fuel p name readiness started_at timeout next last_error).
Proof.
  revert next last_error. induction fuel as [|fuel IH]; intros next last_error; cbn; [foreign|].
  repeat first [apply IH | apply not_foreign_pass | foreign_step].
Qed.
End errors.

(** ** Waiting *)

Section waiting.
Context `{Host} `{ProcessHost} `{ListenerHost} `{MetadataJson}.

(** Nothing is signalled or changed; the good answer comes after a probe that was ready. *)
Definition ready_wait {A : Type} (good : result DaemonError A → Prop) (m : Sup A) : Prop :=
  ∀ s, let '(r, s') := m s in logged [] s s' ∧ (good r → probed s s').

Lemma ready_quiet {A : Type} (good : result DaemonError A → Prop) (m : Sup A) : quiet m → (∀ s, ¬ good (m s).1) → ready_wait good m.
Proof. intros Hq Hg s. specialize (Hq s). specialize (Hg s). destruct (m s) as [r s']. by split. Qed.
Lemma ready_bind {A B : Type} (good : result DaemonError B → Prop) (m : Sup A) (f : A → Sup B) :
  quiet m → (∀ e, ¬ good (Err e)) → (∀ a, ready_wait good (f a)) → ready_wait good (m ≫= f).
Proof.
  intros Hq He Hf s. specialize (Hq s). unfold mbind, eff_bind. destruct (m s) as [[a|e] s1]; [|by split; [|intros ?%He]].
  specialize (Hf a s1). destruct (f a s1) as [r s2]. destruct Hf as [Hl Hr]. split; [by eapply logged_after|].
  intros Hg. eapply probed_later; [by apply (logged_calls _ _ _ Hq)|reflexivity|by apply Hr].
Qed.

Lemma ready_after {A : Type} (good : result DaemonError A → Prop) (m : Sup A) s0 s : ready_wait good m → logged [] s0 s →
  let '(r, s') := m s in logged [] s0 s' ∧ (good r → probed s0 s').
Proof.
  intros Hm Hl. specialize (Hm s). destruct (m s) as [r s']. destruct Hm as [Hl2 Hr]. split; [by eapply logged_after|].
  intros Hg. eapply probed_later; [by apply (logged_calls _ _ _ Hl)|reflexivity|by apply Hr].
Qed.

Lemma quiet_check timeout : quiet (check_with_timeout timeout).
Proof. intros s. pose proof (check_spec timeout s) as Hc. destruct (check_with_timeout timeout s) as [r s']. apply Hc. Qed.

Lemma async_loop_ready fuel name started_at timeout last_error : ready_wait (λ r, r = Ok tt) (async_readiness_loop fuel name started_at timeout last_error).
Proof.
  revert last_error. induction fuel as [|fuel IH]; intros last_error; cbn [async_readiness_loop]; [apply ready_quiet; [apply quiet_fail|done]|].
  apply ready_bind; [apply quiet_get|done|intros [remaining|]]; [|apply ready_quiet; [apply quiet_fail|done]].
  intros s. pose proof (check_spec remaining s) as Hc. unfold mbind at 1, eff_bind at 1.
  destruct (check_with_timeout remaining s) as [[[[[]|error]|]|e] s1]; destruct Hc as (Hl & Hready & _ & Hno).
  - split; [done|]. intros _. destruct (Hready eq_refl) as (d & Hp & _ & Hlt). exists (su_calls s), d. split; [lia|done].
  - refine (ready_after _ (_ ← sleep (N.min remaining ASYNC_READINESS_POLL_INTERVAL); async_readiness_loop fuel name started_at timeout (Some error)) s s1 _ Hl).
    apply ready_bind; [apply quiet_sleep|done|intros ?; apply IH].
  - by split.
  - by destruct (Hno e).
Qed.
Lemma wait_ready readiness timeout : ready_wait (λ r, r = Ok tt) (wait_for_managed_resource_readiness readiness timeout).
Proof.
  destruct readiness as [check|name]; [intros s; exact (readiness_spec (check_name check) timeout s)|]. apply ready_bind; [apply quiet_get|done|intros ?]. apply async_loop_ready.
Qed.

Lemma quiet_pass_until fuel p name until next : quiet (pass_until fuel p name until next).
Proof.
  revert next. induction fuel as [|fuel IH]; intros next; cbn [pass_until]; [apply quiet_bind; [apply quiet_set_now|intros ?; apply quiet_ret]|].
  destruct (next <? until)%N; [|apply quiet_bind; [apply quiet_set_now|intros ?; apply quiet_ret]].
  apply quiet_bind; [apply quiet_set_now|intros ?]. apply quiet_bind; [apply quiet_exited|intros [|]]; [apply quiet_fail|].
  apply quiet_bind; [apply quiet_get|intros ?]. apply IH.
Qed.
Lemma quiet_pass p name until next : quiet (pass p name until next).
Proof. apply quiet_pass_until. Qed.

Lemma begin_probe_spec limit s : let '(r, s') := begin_probe limit s in
  logged [] s s' ∧ ∃ probe, r = Ok probe ∧ (probe.1 = Some (Ok tt) → probed s s').
Proof.
  unfold begin_probe, instant_now, mbind, eff_bind, eff_get. pose proof (quiet_asks probe_at s) as Hl. unfold asks in *. cbn in Hl |- *.
  split; [done|]. eexists. split; [done|]. cbn. intros Hp. destruct (probe_at (su_calls s)) as [d|d e|] eqn:Hd.
  - exists (su_calls s), d. cbn. split; [lia|done].
  - by destruct (limit <? d)%N.
  - done.
Qed.

Lemma started_loop_ready fuel p name readiness started_at timeout next last_error :
  ready_wait (λ r, r = Ok (Ok tt)) (started_readiness_loop fuel p name readiness started_at timeout next last_error).
Proof.
  revert next last_error. induction fuel as [|fuel IH]; intros next last_error; cbn [started_readiness_loop]; [by apply ready_quiet; [apply quiet_ret|]|].
  apply ready_bind; [apply quiet_get|done|intros [remaining|]]; [|by apply ready_quiet; [apply quiet_ret|]].
  intros s. pose proof (begin_probe_spec (probe_time readiness remaining) s) as Hb. unfold mbind at 1, eff_bind at 1.
  destruct (begin_probe _ s) as [r s1]. destruct Hb as (Hl & probe & -> & Hready). destruct probe as [answer until]. cbn [fst snd] in Hready |- *.
  pose proof (quiet_pass p name until next s1) as Hpass.
  unfold mbind at 1, eff_bind at 1. destruct (pass p name until next s1) as [[next'|e] s2]; [|by split; [eapply logged_then|]].
  pose proof (logged_then _ _ _ _ Hl Hpass) as Hl2.
  destruct answer as [[[]|error]|].
  - split; [done|]. intros _. eapply probed_later; [reflexivity|by apply (logged_calls _ _ _ Hpass)|by apply Hready].
  - refine (ready_after _ (_ ≫= _) s s2 _ Hl2). apply ready_bind; [apply quiet_get|done|intros ?]. apply ready_bind; [apply quiet_pass|done|intros ?]. apply IH.
  - apply (ready_after (λ r, r = Ok (Ok tt))); [|done]. destruct (stops_when_elapsed readiness); [by apply ready_quiet; [apply quiet_ret|]|apply IH].
Qed.

(** The wait for a process that was started: an error may also be its end. *)
Lemma started_wait_ready p name readiness timeout : ready_wait (λ r, r = Ok tt) (wait_for_started_runtime_readiness p name readiness timeout).
Proof.
  unfold wait_for_started_runtime_readiness. apply ready_bind; [apply quiet_get|done|intros started_at]. intros s.
  pose proof (started_loop_ready (poll_rounds timeout) p name readiness started_at timeout (started_at + RESOURCE_PROCESS_EXIT_POLL_INTERVAL) None s) as Hw.
  unfold mbind at 1, eff_bind at 1. destruct (started_readiness_loop _ _ _ _ _ _ _ _ s) as [[[[]|error]|e] s1]; destruct Hw as [Hl Hr].
  - split; [done|]. intros _. by apply Hr.
  - assert (quiet (exited ← has_exited p; if exited : bool then eff_fail (A := unit) (runtime_exited_before_readiness_error name) else eff_fail error)) as Hq.
    { apply quiet_bind; [apply quiet_exited|intros [|]]; apply quiet_fail. }
    specialize (Hq s1). unfold mbind, eff_bind in Hq |- *. destruct (has_exited p s1) as [[[]|e] s2]; (split; [by eapply logged_after|done]).
  - by split.
Qed.
End waiting.

(** ** The outcome of a runtime *)

Section outcome.
Context `{Host} `{Json} `{ProcessHost} `{ListenerHost} `{MetadataJson} (paths : PvPaths).
Hypothesis Hspawn : ∀ n pid, spawn_at n = Ok (Some pid) → (0 < pid ≤ I32_MAX)%N.

(** At most one process was started since; it was told to end, had ended, or a probe has answered. *)
Definition settled_or_ready (s0 : Supervised) (s : GatewayState) : Prop :=
  ∃ l ps, since s0 l ps s ∧ length ps ≤ 1 ∧ ∀ pid, pid ∈ ps → told pid l ∨ ended s0 (sup s) ∨ probed s0 (sup s).

Lemma since_calm {A : Type} (m : Gw A) s0 l ps : gw_calm m → spec (since s0 l ps) m (λ _, since s0 l ps) (λ _, since s0 l ps).
Proof.
  intros Hm s Hs. specialize (Hm s). pose proof (ran_trans _ _ [] [] _ _ _ Hs Hm) as Hr. by destruct (m s) as [[]].
Qed.
Lemma settled_calm {A : Type} (m : Gw A) s0 : gw_calm m → spec (settled_or_ready s0) m (λ _, settled_or_ready s0) (λ _, settled_or_ready s0).
Proof.
  intros Hm s (l & ps & Hs & Hlen & Hp). pose proof (since_calm m s0 l ps Hm s Hs) as Hr. specialize (Hm s). destruct Hm as (_ & _ & Hcalls).
  assert (settled_or_ready s0 (m s).2) as Hx; [|by destruct (m s) as [[]]]. exists l, ps. split; [by destruct (m s) as [[]]|]. split; [done|].
  intros pid Hin. destruct (Hp pid Hin) as [?|[?|?]]; [by left|right; left; by eapply ended_later|right; right; by eapply probed_later].
Qed.
Lemma unsettled_calm {A : Type} (m : Gw A) s0 s : gw_calm m → unsettled s0 s → unsettled s0 (m s).2.
Proof.
  intros Hm (l & ps & Hs & Hlen & Hp). pose proof (since_calm m s0 l ps Hm s Hs) as Hr. specialize (Hm s). destruct Hm as (_ & _ & Hcalls).
  exists l, ps. split; [by destruct (m s) as [[]]|]. split; [done|].
  intros pid Hin. destruct (Hp pid Hin) as [?|?]; [by left|right; by eapply ended_later].
Qed.
Lemma unsettled_settled s0 s : unsettled s0 s → settled_or_ready s0 s.
Proof. intros (l & ps & Hs & Hlen & Hp). exists l, ps. split; [done|]. split; [done|]. intros pid Hin. destruct (Hp pid Hin); auto. Qed.

Lemma calm_cleanup spec : gw_calm (cleanup_started_runtime_files spec).
Proof. unfold cleanup_started_runtime_files. repeat (apply gw_calm_bind; [apply gw_calm_io|intros ?]). apply gw_calm_io. Qed.
Lemma aside_delete p : aside (on_io (delete_optional_file p)).
Proof. apply aside_fs. Qed.
Lemma aside_cleanup spec : aside (cleanup_started_runtime_files spec).
Proof. unfold cleanup_started_runtime_files. repeat (apply aside_bind; [apply aside_delete|intros ?]). apply aside_delete. Qed.

Lemma await_started_spec s0 process pspec readiness timeout : (0 < mp_pid process ≤ I32_MAX)%N → containment = Ok tt →
  spec (since s0 [] [mp_pid process]) (await_started_runtime pspec readiness timeout process)
    (λ _ s, since s0 [] [mp_pid process] s ∧ probed s0 (sup s)) (λ _, unsettled s0).
Proof.
  intros Hpid Hcont s Hs. set (pid := mp_pid process) in *.
  assert (∀ s1, since s0 [] [pid] s1 → ∀ r s2, has_exited process (sup s1) = (r, s2) → r ≠ Ok false → unsettled s0 (set_part sup_part s2 s1)) as Hended.
  { intros s1 Hs1 r s2 Hr Hne. pose proof (exited_spec process (sup s1)) as Hx. rewrite Hr in Hx. destruct Hx as (Hl & Hc & Hw).
    exists [], [pid]. split; [|split; [done|]].
    - unfold since. rewrite sup_set. by eapply ran_then.
    - intros q ->%list_elem_of_singleton. right. exists (su_calls (sup s1)). rewrite sup_set. split; [|by apply Hw].
      destruct Hs1 as (_ & _ & ?). lia. }
  unfold await_started_runtime, mbind at 1, eff_bind at 1, eff_try, on_sup at 1, on_part at 1. change (get_part sup_part s) with (sup s).
  pose proof (started_wait_ready process (sp_name pspec) readiness timeout (sup s)) as Hw.
  destruct (wait_for_started_runtime_readiness _ _ _ _ (sup s)) as [r u]. destruct Hw as [Hl Hready]. cbn beta iota zeta. set (s1 := set_part sup_part u s).
  assert (since s0 [] [pid] s1) as Hs1 by (unfold since, s1; rewrite sup_set; by eapply ran_then).
  destruct r as [[]|error]; cbn [map_err].
  - unfold mbind at 1, eff_bind at 1. unfold on_sup at 1, on_part at 1. change (get_part sup_part s1) with (sup s1).
    pose proof (quiet_sleep RESOURCE_PROCESS_EXIT_POLL_INTERVAL (sup s1)) as Hsl. unfold sleep in *. cbn [map_err snd] in Hsl |- *.
    set (u2 := {| su_world := su_world (sup s1); su_now := _; su_calls := _; su_sent := _; su_spawned := _ |}) in *. set (s2 := set_part sup_part u2 s1).
    assert (since s0 [] [pid] s2) as Hs2 by (unfold since, s2; rewrite sup_set; by eapply ran_then).
    assert (probed s0 (sup s2)) as Hp2.
    { unfold s2. rewrite sup_set. eapply probed_later; [by destruct Hs as (_ & _ & ?)| |exact (Hready eq_refl)].
      pose proof (logged_calls _ _ _ Hsl) as Hc. unfold s1 in Hc. by rewrite sup_set in Hc. }
    unfold mbind at 1, eff_bind at 1. unfold on_sup at 1, on_part at 1. change (get_part sup_part s2) with (sup s2).
    pose proof (exited_spec process (sup s2)) as Hx. pose proof (Hended s2 Hs2) as Hend.
    destruct (has_exited process (sup s2)) as [[[]|e] u3] eqn:He; cbn [map_err]; [|clear He|by eapply Hend].
    + specialize (Hend _ _ eq_refl ltac:(done)).
      pose proof (unsettled_calm (_ ← cleanup_started_runtime_files pspec; eff_fail (A := unit) (runtime_exited_before_readiness_error (sp_name pspec)))
        s0 (set_part sup_part u3 s2) (gw_calm_bind _ _ (calm_cleanup pspec) (λ _, gw_calm_fail _)) Hend) as Hu.
      unfold mbind, eff_bind in Hu |- *. by destruct (cleanup_started_runtime_files pspec (set_part sup_part u3 s2)) as [[[]|e] s3].
    + destruct Hx as (Hl2 & _ & _). split.
      * unfold since. rewrite sup_set. by eapply ran_then.
      * rewrite sup_set. eapply probed_later; [reflexivity|by apply (logged_calls _ _ _ Hl2)|done].
  - destruct (stop_managed_settles process RESOURCE_STOP_GRACE_PERIOD (sup s1) Hpid Hcont) as (l' & Hl'%ran_logged & Htold).
    unfold mbind at 1, eff_bind at 1. unfold on_sup at 1, on_part at 1. change (get_part sup_part s1) with (sup s1).
    destruct (stop_managed process RESOURCE_STOP_GRACE_PERIOD (sup s1)) as [r u3]. cbn in Hl', Htold.
    assert (unsettled s0 (set_part sup_part u3 s1)) as Hu.
    { exists (l' ++ []), [pid]. split; [|split; [done|]].
      - unfold since. rewrite sup_set. exact (ran_trans _ _ _ [] _ _ _ Hs1 Hl').
      - intros q ->%list_elem_of_singleton. rewrite sup_set. destruct Htold as [(k & Hk & ?)|He]; [left; exists k; split; [set_solver|done]|right].
        eapply ended_later; [|reflexivity|exact He]. by destruct Hs1 as (_ & _ & ?). }
    destruct r as [[]|e]; cbn [map_err]; [|done].
    pose proof (unsettled_calm (_ ← cleanup_started_runtime_files pspec; eff_fail (A := unit) error)
      s0 (set_part sup_part u3 s1) (gw_calm_bind _ _ (calm_cleanup pspec) (λ _, gw_calm_fail _)) Hu) as Hu2.
    unfold mbind, eff_bind in Hu2 |- *. by destruct (cleanup_started_runtime_files pspec (set_part sup_part u3 s1)) as [[[]|e] s3].
Qed.

Lemma not_foreign_sup {A : Type} (m : Sup A) : not_foreign m → not_foreign (on_sup m).
Proof. apply not_foreign_part. Qed.
(** Nor as the value of a wait. *)
Definition no_foreign_value (m : Sup (result DaemonError unit)) : Prop :=
  ∀ s, match (m s).1 with Ok (Err (NonPvManagedResourceRuntimeListener _)) => False | _ => True end.
Lemma no_foreign_value_bind {A : Type} (m : Sup A) (f : A → Sup (result DaemonError unit)) : (∀ a, no_foreign_value (f a)) → no_foreign_value (m ≫= f).
Proof. intros Hf s. unfold mbind, eff_bind. destruct (m s) as [[a|e] s1]; [apply Hf|done]. Qed.
Lemma no_foreign_started_loop fuel p name readiness started_at timeout next last_error :
  no_foreign_value (started_readiness_loop fuel p name readiness started_at timeout next last_error).
Proof.
  revert next last_error. induction fuel as [|fuel IH]; intros next last_error; cbn [started_readiness_loop]; [by intros s|].
  apply no_foreign_value_bind. intros [remaining|]; [|by intros s]. do 2 (apply no_foreign_value_bind; intros ?).
  destruct (a.1) as [[[]|]|]; [by intros s| |destruct (stops_when_elapsed readiness); [by intros s|apply IH]].
  do 2 (apply no_foreign_value_bind; intros ?). apply IH.
Qed.
Lemma not_foreign_started_wait p name readiness timeout : not_foreign (wait_for_started_runtime_readiness p name readiness timeout).
Proof.
  unfold wait_for_started_runtime_readiness. apply not_foreign_bind; [apply not_foreign_get|intros started_at]. intros s.
  pose proof (not_foreign_started_loop (poll_rounds timeout) p name readiness started_at timeout (started_at + RESOURCE_PROCESS_EXIT_POLL_INTERVAL) None s) as He.
  pose proof (no_foreign_started_loop (poll_rounds timeout) p name readiness started_at timeout (started_at + RESOURCE_PROCESS_EXIT_POLL_INTERVAL) None s) as Hv.
  unfold mbind at 1, eff_bind at 1. destruct (started_readiness_loop _ _ _ _ _ _ _ _ s) as [[[u|error]|e] s1]; [done| |exact He].
  cbn in Hv. apply (not_foreign_bind (has_exited p)); [apply not_foreign_exited|intros [|]]; apply not_foreign_fail; [done|].
  intros name' ->. exact Hv.
Qed.
Lemma not_foreign_await pspec readiness timeout process : not_foreign (await_started_runtime pspec readiness timeout process).
Proof.
  unfold await_started_runtime. apply not_foreign_recover; [apply not_foreign_sup, not_foreign_started_wait|intros _u|intros error Herr].
  - apply not_foreign_bind; [by apply not_foreign_sup|intros ?]. apply not_foreign_bind; [apply not_foreign_sup, not_foreign_exited|intros [|]]; [|apply not_foreign_ret].
    apply not_foreign_bind; [apply aside_cleanup|intros ?]. by apply not_foreign_fail.
  - apply not_foreign_bind; [apply not_foreign_sup, not_foreign_stop|intros ?]. apply not_foreign_bind; [apply aside_cleanup|intros ?]. by apply not_foreign_fail.
Qed.

Lemma spec_not_foreign {A : Type} P (m : Gw A) (Q : A → GatewayState → Prop) (X R : GatewayState → Prop) :
  not_foreign m → spec P m Q (λ _, X) → spec P m Q (λ e s, X s ∧ (foreign_error e = true → R s)).
Proof.
  intros Hn Hm s Hs. specialize (Hm s Hs). specialize (Hn s). destruct (m s) as [[a|e] s']; [done|]. split; [done|]. by destruct e.
Qed.

(** The runtime runs, and a probe has answered; or nothing is left running unsettled, and a
    listener that is not PV's is only answered when nothing was started. *)
Lemma start_or_adopt_spec s0 pspec readiness timeout :
  spec (since s0 [] []) (start_or_adopt_runtime paths pspec readiness timeout)
    (λ _ s, settled_or_ready s0 s ∧ probed s0 (sup s)) (λ e s, unsettled s0 s ∧ (foreign_error e = true → since s0 [] [] s)).
Proof.
  assert (∀ e s, since s0 [] [] s → unsettled s0 s ∧ (foreign_error e = true → since s0 [] [] s)) as Hnone by (intros e s Hs; split; [by eapply since_settled|done]).
  assert (∀ {A : Type} (m : Sup A), quiet m → spec (since s0 [] []) (on_sup m) (λ _, since s0 [] [])
    (λ e s, unsettled s0 s ∧ (foreign_error e = true → since s0 [] [] s))) as Hquiet.
  { intros A m Hm s Hs. pose proof (since_quiet m s0 [] [] Hm s Hs) as Hq. destruct (on_sup m s) as [[a|e] s']; [exact Hq|by apply Hnone]. }
  unfold start_or_adopt_runtime. eapply (spec_bind _ _ _ (λ _, since s0 [] [])); [apply Hquiet, quiet_adopt|]. intros [adopted|].
  - intros s Hs. pose proof (wait_ready readiness timeout (sup s)) as Hw. unfold on_sup, on_part. change (get_part sup_part s) with (sup s).
    destruct (wait_for_managed_resource_readiness readiness timeout (sup s)) as [r u]. destruct Hw as [Hl Hready].
    assert (since s0 [] [] (set_part sup_part u s)) as Hs1 by (unfold since; rewrite sup_set; by eapply ran_then).
    destruct r as [[]|e]; cbn [map_err]; [|by apply Hnone]. split; [by apply unsettled_settled, (since_settled _ [])|].
    rewrite sup_set. eapply probed_later; [by destruct Hs as (_ & _ & ?)|reflexivity|by apply Hready].
  - eapply (spec_bind _ _ _ (λ _, since s0 [] [])).
    { apply Hquiet. destruct readiness as [check|name]; [|apply quiet_ret]. unfold foreign_listener, probe_readiness_once.
      repeat (apply quiet_bind; [first [apply quiet_get|apply quiet_asks|apply quiet_set_now]|intros ?]). apply quiet_ret. }
    intros [|]; [intros s Hs; by apply Hnone|].
    apply spec_not_foreign.
    { apply not_foreign_bind; [apply not_foreign_sup, not_foreign_start|intros ?; apply not_foreign_await]. }
    intros s Hs. unfold mbind, eff_bind, on_sup, on_part. change (get_part sup_part s) with (sup s).
    pose proof (start_ran paths pspec (sup s) Hspawn) as Hst. destruct (start paths pspec (sup s)) as [[process|e] u]; cbn [map_err].
    + destruct Hst as (Hr & Hpid & Hcont).
      pose proof (await_started_spec s0 process pspec readiness timeout Hpid Hcont (set_part sup_part u s)) as Haw.
      assert (since s0 [] [mp_pid process] (set_part sup_part u s)) as Hs1 by (unfold since; rewrite sup_set; exact (ran_trans [] [] [] _ _ _ _ Hs Hr)).
      specialize (Haw Hs1). destruct (await_started_runtime pspec readiness timeout process _) as [[v|e] s2]; [|done].
      destruct Haw as [Hs2 Hp]. split; [|done]. exists [], [mp_pid process]. split; [done|]. split; [done|]. auto.
    + destruct Hst as (l' & ps & Hr & Hlen & Htold). exists l', ps. split; [|split; [done|]].
      * unfold since. rewrite sup_set. rewrite <-(app_nil_r ps), <-(app_nil_r l'). exact (ran_trans _ _ _ _ _ _ _ Hs Hr).
      * intros pid Hin. left. by apply Htold.
Qed.
End outcome.

(** ** The runtime of a track *)

Section track.
Context `{Host} `{Json} `{ProcessHost} `{ListenerHost} `{MetadataJson} (paths : PvPaths) (now : nat → string) (daemon_error_text : DaemonError → string).
Context (local_loopback_port_available : nat → list Z → Z → bool).
Hypothesis Hspawn : ∀ n pid, spawn_at n = Ok (Some pid) → (0 < pid ≤ I32_MAX)%N.

(** The last observed state of a runtime. *)
Definition runtime_shown (subject : RuntimeSubject) (status message : string) (s : GatewayState) : Prop :=
  ∃ i at', subject_id subject = Ok i ∧ observed_states (dm_db (gs_daemon s)) !! (subject_kind subject, i)
    = Some {| o_status := status; o_message := Some message; o_observed_at := at' |}.

Lemma record_observed_spec subject status message s :
  let '(r, s') := record_observed now subject status message s in
  sup s' = sup s ∧ match r with Ok _ => runtime_shown subject (as_str status) message s' | Err e => ∃ x, e = DaemonState x ∧ subject_id subject = Err x end.
Proof.
  unfold record_observed, on_daemon, on_part, stamped, stamp, on_db, mbind, eff_bind. cbn. unfold record_runtime_observed_snapshot.
  destruct (subject_id subject) as [i|x] eqn:Hi; cbn; (split; [done|]); [|by exists x].
  exists i. eexists. split; [done|]. cbn. unfold upsert_observed. cbn. apply lookup_insert_eq.
Qed.
Lemma aside_record subject status message : aside (record_observed now subject status message).
Proof. unfold record_observed. aside. Qed.

(** What an attempt may leave behind when it fails. *)
Definition failed_attempt (s0 : Supervised) (e : DaemonError) (s : GatewayState) : Prop :=
  settled_or_ready s0 s ∧ (foreign_error e = true → since s0 [] [] s).
Definition came_up (s0 : Supervised) (resource : ProjectManagedResourceInput) (s : GatewayState) : Prop :=
  settled_or_ready s0 s ∧ probed s0 (sup s)
  ∧ runtime_shown (resource_subject (ri_resource_name resource) (ri_track resource)) "running" "Managed Resource runtime is ready" s.

Lemma before_start {A : Type} (m : Gw A) s0 : gw_calm m → spec (since s0 [] []) m (λ _, since s0 [] []) (failed_attempt s0).
Proof.
  intros Hm s Hs. pose proof (since_calm m s0 [] [] Hm s Hs) as Hr. destruct (m s) as [[a|e] s']; [done|].
  split; [by apply unsettled_settled, (since_settled _ [])|done].
Qed.
Lemma before_fail {A : Type} (Q : A → GatewayState → Prop) e s0 : spec (since s0 [] []) (eff_fail e) Q (failed_attempt s0).
Proof. exact (before_start (A := A) (eff_fail e) s0 (gw_calm_fail e)). Qed.
Definition answering (s0 : Supervised) (s : GatewayState) : Prop := settled_or_ready s0 s ∧ probed s0 (sup s).
Lemma after_start {A : Type} (m : Gw A) s0 : aside m → spec (answering s0) m (λ _, answering s0) (failed_attempt s0).
Proof.
  intros [Hm Hn] s [Hs Hp]. pose proof (settled_calm m s0 Hm s Hs) as Hr. specialize (Hm s). destruct Hm as (_ & _ & Hc). specialize (Hn s).
  destruct (m s) as [[a|e] s']; cbn in Hc; [split; [done|exact (probed_later s0 s0 (sup s) (sup s') (le_n _) Hc Hp)]|]. split; [done|]. by destruct e.
Qed.

Context (project : ProjectRecord) (plan : ProjectResourcePlan) (resource : ProjectManagedResourceInput).

Lemma run_attempt_spec a context s0 : AdapterLaws a →
  spec (since s0 [] []) (run_attempt paths now project plan a resource context) (λ _, came_up s0 resource) (failed_attempt s0).
Proof.
  intros Hlaws. unfold run_attempt.
  eapply spec_bind; [apply before_start, env_calm|intros env]. eapply spec_bind; [apply before_start, gw_calm_daemon|intros _u].
  eapply spec_bind; [apply before_start, build_calm|intros pspec]. eapply spec_bind; [apply before_start, prepare_calm|intros _v].
  eapply spec_bind; [apply before_start, readiness_calm|intros readiness].
  eapply (spec_bind _ _ _ (λ _, answering s0)).
  { intros s Hs. pose proof (start_or_adopt_spec paths Hspawn s0 pspec readiness RESOURCE_READINESS_TIMEOUT s Hs) as Hst.
    destruct (start_or_adopt_runtime _ _ _ _ s) as [[w|e] s']; [exact Hst|]. destruct Hst as [Hu Hf]. split; [by apply unsettled_settled|exact Hf]. }
  intros _w. eapply spec_bind; [apply after_start, aside_daemon|intros allocations].
  { unfold desired_allocations. destruct (pl_allocations plan !! ri_resource_name resource); [|apply not_foreign_ret].
    apply not_foreign_bind; [apply not_foreign_read|intros ?; apply not_foreign_ret]. }
  eapply spec_bind; [apply after_start, allocations_aside|intros _x].
  intros s Hs. pose proof (after_start _ s0 (aside_record (resource_subject (ri_resource_name resource) (ri_track resource)) RuntimeRunning
    "Managed Resource runtime is ready") s Hs) as Hr.
  pose proof (record_observed_spec (resource_subject (ri_resource_name resource) (ri_track resource)) RuntimeRunning "Managed Resource runtime is ready" s) as Hshown.
  destruct (record_observed _ _ _ _ s) as [[y|e] s']; [|exact Hr]. destruct Hr as [Hr Hp]. split; [exact Hr|]. split; [exact Hp|apply Hshown].
Qed.

Lemma calm_give_up : gw_calm (give_up_ports paths resource).
Proof.
  unfold give_up_ports, cleanup_resource_runtime_files. apply gw_calm_bind; [|intros ?; apply gw_calm_daemon].
  repeat (apply gw_calm_bind; [apply gw_calm_io|intros ?]). apply gw_calm_io.
Qed.
Lemma calm_occupied ports : gw_calm (ports_occupied_without_recorded_runtime paths local_loopback_port_available resource ports).
Proof.
  unfold ports_occupied_without_recorded_runtime. apply gw_calm_bind; [apply gw_calm_daemon|intros available].
  destruct (all_available available [] _); [apply gw_calm_ret|].
  apply gw_calm_bind; [apply gw_calm_sup, calm_quiet, quiet_adopt_recorded|intros ?; apply gw_calm_ret].
Qed.

Lemma attempts_spec more a artifact_path env s0 : AdapterLaws a →
  spec (since s0 [] []) (attempts paths now local_loopback_port_available more project plan a resource artifact_path env)
    (λ _, came_up s0 resource) (failed_attempt s0).
Proof.
  intros Hlaws. induction more as [|more IH]; cbn [attempts];
    (eapply spec_bind; [apply before_start, gw_calm_daemon|intros ports]; eapply spec_bind; [apply before_start, calm_occupied|intros occupied]).
  - assert (∀ m : Gw unit, spec (since s0 [] []) m (λ _, came_up s0 resource) (failed_attempt s0) →
      spec (since s0 [] []) (result ← eff_try m; eff_lift result) (λ _, came_up s0 resource) (failed_attempt s0)) as Hlast.
    { intros m Hm s Hs. specialize (Hm s Hs). unfold mbind, eff_bind, eff_try, eff_lift. by destruct (m s) as [[]]. }
    assert (∀ context, spec (since s0 [] []) (result ← eff_try (run_attempt paths now project plan a resource context);
       if is_foreign_listener result then eff_lift result else eff_lift result) (λ _, came_up s0 resource) (failed_attempt s0)) as Hrun.
    { intros context s Hs. pose proof (Hlast _ (run_attempt_spec a context s0 Hlaws) s Hs) as Hr. revert Hr. unfold mbind, eff_bind, eff_try.
      destruct (run_attempt _ _ _ _ _ _ context s) as [r s1]. by destruct (is_foreign_listener r). }
    destruct occupied; apply Hrun.
  - destruct occupied; [eapply spec_bind; [apply before_start, calm_give_up|intros _u; apply IH]|].
    intros s Hs. match goal with |- context [run_attempt _ _ _ _ _ _ ?c] => pose proof (run_attempt_spec a c s0 Hlaws s Hs) as Hr end.
    unfold mbind at 1, eff_bind at 1, eff_try. destruct (run_attempt _ _ _ _ _ _ _ s) as [[u|e] s1]; [exact Hr|].
    destruct Hr as [Hr Hf]. destruct (is_foreign_listener (Err e)) eqn:He; [|exact (conj Hr Hf)].
    apply (spec_bind _ _ _ (λ _, since s0 [] []) _ _ (before_start _ s0 calm_give_up) (λ _, IH)). apply Hf. by destruct e.
Qed.

Lemma ensure_calm commands a : CommandsLaws commands → gw_calm (ensure_track_artifact commands a resource).
Proof.
  intros Hc. unfold ensure_track_artifact, install_runtime_resource_track, track_of.
  apply gw_calm_bind; [apply gw_calm_daemon|intros [record|]]; [apply gw_calm_ret|]. do 2 (apply gw_calm_bind; [apply gw_calm_lift|intros ?]).
  apply gw_calm_bind; [|intros ?; apply gw_calm_bind; [apply gw_calm_daemon|intros ?; apply gw_calm_lift]].
  apply gw_calm_bind; [apply install_calm|intros ?]. destruct (negb _); [apply gw_calm_fail|apply gw_calm_ret].
Qed.

(** A failure is what the subject shows, unless there is no name to record it under. *)
Definition told_or_nameless (subject : RuntimeSubject) (e : DaemonError) (s : GatewayState) : Prop :=
  failure_shown daemon_error_text subject e s ∨ ∃ x, e = DaemonState x ∧ subject_id subject = Err x.
Lemma or_record_observed_spec subject (m : Gw unit) s0 (Q : GatewayState → Prop) :
  spec (since s0 [] []) m (λ _, Q) (failed_attempt s0) →
  spec (since s0 [] []) (or_record_observed now daemon_error_text subject m) (λ _, Q) (λ e s, settled_or_ready s0 s ∧ told_or_nameless subject e s).
Proof.
  intros Hm s Hs. specialize (Hm s Hs). unfold or_record_observed, mbind at 1, eff_bind at 1, eff_try.
  destruct (m s) as [[u|e] s1]; [exact Hm|]. destruct Hm as [Hset _]. unfold mbind, eff_bind.
  pose proof (record_observed_spec subject RuntimeFailed (daemon_error_text e) s1) as Hr.
  destruct (record_observed _ _ _ _ s1) as [[v|e'] s2]; destruct Hr as [Hsup Hr].
  - split; [destruct Hset as (l & ps & Hset); exists l, ps; unfold since in *; by rewrite Hsup|by left].
  - split; [destruct Hset as (l & ps & Hset); exists l, ps; unfold since in *; by rewrite Hsup|by right].
Qed.

(** A resource that PV does not run, with exports that it was given. *)
Definition seeded (catalog : ManagedResourceRuntimeCatalog) (d : Db) : Prop :=
  adapter catalog (ri_resource_name resource) = None
  ∧ ∃ records r, list_managed_resource_tracks d = Ok records ∧ r ∈ records
      ∧ tr_resource_name r = ri_resource_name resource ∧ tr_track r = ri_track resource ∧ tr_env r ≠ ∅.
(** Nothing is written when the subject has no valid name, or when the tracks cannot be read
    that tell whether a resource without an adapter has exports. *)
Definition unwritten (catalog : ManagedResourceRuntimeCatalog) (d : Db) (e : DaemonError) : Prop :=
  ∃ x, e = DaemonState x
    ∧ (subject_id (resource_subject (ri_resource_name resource) (ri_track resource)) = Err x
       ∨ adapter catalog (ri_resource_name resource) = None ∧ list_managed_resource_tracks d = Err x).

Lemma seeded_read s : match on_daemon (unsupported_resource_has_seeded_env_context resource) s with
  | (Ok b, s') => b = true → ∃ records r, list_managed_resource_tracks (dm_db (gs_daemon s)) = Ok records ∧ r ∈ records
      ∧ tr_resource_name r = ri_resource_name resource ∧ tr_track r = ri_track resource ∧ tr_env r ≠ ∅
  | (Err e, _) => ∃ x, e = DaemonState x ∧ list_managed_resource_tracks (dm_db (gs_daemon s)) = Err x
  end.
Proof.
  unfold unsupported_resource_has_seeded_env_context, on_daemon, on_part, mbind, eff_bind, read_db. cbn [get_part daemon_part].
  destruct (list_managed_resource_tracks _) as [records|x]; cbn; [|by exists x]. intros Hb. apply existsb_exists in Hb as (r & Hr & Hb).
  split_bools. exists records, r. split_and!; try done. by apply list_elem_of_In.
Qed.

(** C19: Reconciling the track that a project needs, whatever it takes of installing, of ports
    that are taken and of new attempts. However it ends, at most one process was started,
    and one that was started has been told to end, unless it had ended or the host would not
    say, or has answered a probe. A success means that a probe was answered and that the
    runtime is shown as running, or that the resource is one that PV does not run and has
    exports. A failure is the runtime's last observed state; only when the track has no
    valid name, or the tracks cannot be read for a resource that PV does not run, is nothing
    written, and then that is the error. Assumed: the host gives a spawned process a
    positive pid that fits 31 bits; the adapters of the catalog start and signal no process
    by themselves, and none of their errors is the one for a foreign listener when they
    reconcile allocations; the install commands start and signal none either. (The catalog
    of PV satisfies this, where its clients do.) *)
Theorem reconcile_resource_track_spec catalog s : (∀ name a, adapter catalog name = Some a → AdapterLaws a) → CommandsLaws (ct_commands catalog) →
  let '(r, s') := reconcile_resource_track paths now daemon_error_text local_loopback_port_available catalog project plan resource s in
  settled_or_ready (sup s) s'
  ∧ match r with
    | Ok _ => seeded catalog (dm_db (gs_daemon s)) ∨ came_up (sup s) resource s'
    | Err e => failure_shown daemon_error_text (resource_subject (ri_resource_name resource) (ri_track resource)) e s'
               ∨ unwritten catalog (dm_db (gs_daemon s)) e
    end.
Proof.
  intros Hadapters Hcommands. set (s0 := sup s). set (subject := resource_subject (ri_resource_name resource) (ri_track resource)).
  set (Q := λ s', settled_or_ready s0 s' ∧ (seeded catalog (dm_db (gs_daemon s)) ∨ came_up s0 resource s')).
  set (Y := λ e s', settled_or_ready s0 s' ∧ (failure_shown daemon_error_text subject e s' ∨ unwritten catalog (dm_db (gs_daemon s)) e)).
  assert (∀ e s', settled_or_ready s0 s' ∧ told_or_nameless subject e s' → Y e s') as Htold.
  { intros e s' [? [?|(x & -> & ?)]]; (split; [done|]); [by left|right; exists x; auto]. }
  assert (match reconcile_resource_track paths now daemon_error_text local_loopback_port_available catalog project plan resource s with
    (Ok _, s') => Q s' | (Err e, s') => Y e s' end) as Hspec; [|by destruct (reconcile_resource_track _ _ _ _ _ _ _ _ s) as [[]]].
  unfold reconcile_resource_track. fold subject. destruct (adapter catalog (ri_resource_name resource)) as [a|] eqn:Ha.
  - revert s0 Q Y Htold. intros s0 Q Y Htold. assert (spec (since s0 [] []) (or_record_observed now daemon_error_text subject
      (track_record ← ensure_track_artifact (ct_commands catalog) a resource;
       match tr_current_artifact_path track_record with
       | None => eff_fail (ManagedResourceArtifactMissing (ri_resource_name resource) (ri_track resource))
       | Some artifact_path => attempts paths now local_loopback_port_available (pred RESOURCE_START_ATTEMPTS) project plan a resource
           (tree_path artifact_path) (tr_env track_record)
       end)) (λ _, Q) (λ e s', settled_or_ready s0 s' ∧ told_or_nameless subject e s')) as Hspec.
    2: { specialize (Hspec s (ran_refl _)). destruct (or_record_observed _ _ _ _ s) as [[u|e] s1]; [exact Hspec|by apply Htold]. }
    apply or_record_observed_spec. eapply spec_bind; [by apply before_start, ensure_calm|intros record].
    destruct (tr_current_artifact_path record) as [artifact_path|]; [|apply before_fail].
    intros s1 Hs1. pose proof (attempts_spec (pred RESOURCE_START_ATTEMPTS) a (tree_path artifact_path) (tr_env record) s0 (Hadapters _ _ Ha) s1 Hs1) as Hat.
    destruct (attempts _ _ _ _ _ _ _ _ _ _ s1) as [[u|e] s2]; [|exact Hat]. split; [apply Hat|by right].
  - pose proof (since_calm _ s0 [] [] (gw_calm_daemon (unsupported_resource_has_seeded_env_context resource)) s (ran_refl _)) as Hs2.
    pose proof (seeded_read s) as Hread. unfold mbind at 1, eff_bind at 1. destruct (on_daemon _ s) as [[[]|e] s2].
    + split; [by apply unsettled_settled, (since_settled _ [])|]. left. split; [done|by apply Hread].
    + pose proof (or_record_observed_spec subject (eff_fail (UnsupportedManagedResourceRuntime (ri_resource_name resource))) s0 Q (before_fail _ _ s0) s2 Hs2) as Hr.
      destruct (or_record_observed _ _ _ _ s2) as [[u|e] s3]; [exact Hr|by apply Htold].
    + destruct Hread as (x & -> & Hx). split; [by apply unsettled_settled, (since_settled _ [])|]. right. exists x. auto.
Qed.
End track.

(** ** What is wanted and not there *)

(** A track that is wanted and has no artifact, and what it asks for. *)
Definition lacking (record : ManagedResourceTrackRecord) : Prop :=
  tr_desired_state record = Installed ∧ tr_current_artifact_path record = None.
Definition demand (catalog : ManagedResourceRuntimeCatalog) (record : ManagedResourceTrackRecord) :
    DesiredResourceInstall + DesiredResourceInstallFailure :=
  let name := tr_resource_name record in
  let track := tr_track record in
  let failed e := inr {| df_label := name +:+ " " +:+ track; df_error := e |} in
  if bool_decide (name ∈ ["php"; "frankenphp"]) then inl (PhpPair track)
  else if bool_decide (name = "composer") then if bool_decide (track = "2") then inl Composer else failed (UnexpectedProtocolResponse ("Composer setup default expected track `2`, got `" +:+ track +:+ "`"))
  else match adapter catalog name with
       | None => failed (UnsupportedManagedResourceRuntime name)
       | Some a => match ra_artifact_adapter a with Ok artifact_adapter => inl (Runtime artifact_adapter name track) | Err e => failed e end
       end.

(** What installing it does: a pair is installed as a pair, Composer as Composer, and a
    runtime by its adapter, which has to be the one of the resource. *)
Definition installs (commands : InstallCommands) (i : DesiredResourceInstall) (s : GatewayState) (r : result DaemonError unit) (s' : GatewayState) : Prop :=
  match i with
  | PhpPair track =>
      match track_name_new track with
      | Ok t => ic_install_php_pair commands t s = (r, s')
      | Err e => r = Err (DaemonResources e) ∧ s' = s
      end
  | Composer => ic_install_composer commands s = (r, s')
  | Runtime a name track =>
      match track_name_new track with
      | Ok t => s' = (ic_install commands a t s).2
          ∧ match (ic_install commands a t s).1 with
            | Ok _ => r = Ok tt ↔ resource_name_str (rt_resource_name a) = name
            | Err e => r = Err e
            end
      | Err e => r = Err (DaemonResources e) ∧ s' = s
      end
  end.
(** The installs are tried one after the other. *)
Inductive tried (commands : InstallCommands) : list DesiredResourceInstall → GatewayState → list (result DaemonError unit) → GatewayState → Prop :=
| tried_nil s : tried commands [] s [] s
| tried_cons i l s r s1 rs s2 : installs commands i s r s1 → tried commands l s1 rs s2 → tried commands (i :: l) s (r :: rs) s2.

Lemma run_install_installs commands i s : installs commands i s (run_install commands i s).1 (run_install commands i s).2.
Proof.
  destruct i as [track| |a name track]; unfold installs, run_install, track_of, install_runtime_resource_track, mbind, eff_bind, eff_lift.
  - destruct (track_name_new track) as [t|e]; cbn; [apply surjective_pairing|done].
  - apply surjective_pairing.
  - destruct (track_name_new track) as [t|e]; cbn; [|done]. destruct (ic_install commands a t s) as [[u|e] s1]; cbn; [|done].
    destruct (decide (resource_name_str (rt_resource_name a) = name)) as [Hn|Hn]; [rewrite bool_decide_eq_true_2 by done|rewrite bool_decide_eq_false_2 by done];
      cbn; by split.
Qed.

Lemma is_missing_lacking record : is_missing record = true ↔ lacking record.
Proof.
  unfold is_missing, lacking. rewrite andb_true_iff, negb_true_iff, bool_decide_eq_true. destruct (tr_current_artifact_path record); naive_solver.
Qed.

Section wanted.
Context (catalog : ManagedResourceRuntimeCatalog).

(** What the records ask for, and its parts. *)
Definition asked (records : list ManagedResourceTrackRecord) : list (DesiredResourceInstall + DesiredResourceInstallFailure) :=
  omap (λ record, if is_missing record then Some (demand catalog record) else None) records.
Definition asked_pair (x : DesiredResourceInstall + DesiredResourceInstallFailure) : option string :=
  match x with inl (PhpPair t) => Some t | _ => None end.
Definition asks_composer (x : DesiredResourceInstall + DesiredResourceInstallFailure) : bool := match x with inl Composer => true | _ => false end.
Definition asked_runtime (x : DesiredResourceInstall + DesiredResourceInstallFailure) : option DesiredResourceInstall :=
  match x with inl (Runtime a n t) => Some (Runtime a n t) | _ => None end.
Definition asked_failure (x : DesiredResourceInstall + DesiredResourceInstallFailure) : option DesiredResourceInstallFailure :=
  match x with inr f => Some f | _ => None end.
Definition gathered (l : list (DesiredResourceInstall + DesiredResourceInstallFailure)) : WantedSoFar :=
  {| ws_php_pair_tracks := list_to_set (omap asked_pair l); ws_composer_missing := existsb asks_composer l;
     ws_runtime_installs := omap asked_runtime l; ws_failures := omap asked_failure l |}.

(** One more record adds what it asks for. *)
Definition added (w w' : WantedSoFar) (record : ManagedResourceTrackRecord) : Prop :=
  match demand catalog record with
  | inl (PhpPair t) => w' = add_php_pair t w
  | inl Composer => w' = add_composer w
  | inl i => w' = add_runtime i w
  | inr f => w' = add_failure (df_label f) (df_error f) w
  end.
Lemma want_record_adds w record : is_missing record = true → added w (want_record catalog w record) record.
Proof.
  intros Hm. unfold want_record, added, demand. rewrite Hm. cbn [negb].
  destruct (decide (tr_resource_name record = "php")) as [Hp|Hp]; [by rewrite Hp|].
  destruct (decide (tr_resource_name record = "frankenphp")) as [Hf|Hf]; [by rewrite Hf|].
  rewrite (bool_decide_eq_false_2 (tr_resource_name record = "php")), (bool_decide_eq_false_2 (tr_resource_name record = "frankenphp")),
    (bool_decide_eq_false_2 (tr_resource_name record ∈ ["php"; "frankenphp"])) by (try done; set_solver). cbn [orb].
  destruct (decide (tr_resource_name record = "composer")) as [Hc|Hc].
  - rewrite Hc, !(bool_decide_eq_true_2 ("composer" = "composer")) by done. by destruct (decide (tr_track record = "2")) as [Ht|Ht];
      [rewrite !(bool_decide_eq_true_2 (tr_track record = "2"))|rewrite !(bool_decide_eq_false_2 (tr_track record = "2"))].
  - rewrite !(bool_decide_eq_false_2 (tr_resource_name record = "composer")) by done.
    destruct (adapter catalog (tr_resource_name record)) as [a|]; [|done]. by destruct (ra_artifact_adapter a).
Qed.
Lemma want_present w record : is_missing record = false → want_record catalog w record = w.
Proof. intros Hm. unfold want_record. by rewrite Hm. Qed.

Lemma gather records : foldl (want_record catalog) wanted_nothing records = gathered (asked records).
Proof.
  induction records as [|record records IH] using rev_ind; [done|]. rewrite foldl_app. cbn [foldl]. rewrite IH. unfold asked at 2. rewrite omap_app. cbn [omap list_omap].
  destruct (is_missing record) eqn:Hm; [|by rewrite want_present, app_nil_r by done].
  pose proof (want_record_adds (gathered (asked records)) record Hm) as Hadd. unfold added in Hadd. fold (asked records).
  destruct (demand catalog record) as [[t| |a n t]|f] eqn:Hd; rewrite Hadd; unfold gathered, add_php_pair, add_composer, add_runtime, add_failure;
    cbn [ws_php_pair_tracks ws_composer_missing ws_runtime_installs ws_failures]; rewrite !omap_app, existsb_app; cbn -[union];
    rewrite ?app_nil_r, ?orb_true_r, ?orb_false_r; try done.
  - rewrite list_to_set_app_L. f_equal. cbn -[union]. set_solver.
  - by destruct f.
Qed.

Lemma asked_elem x records : x ∈ asked records ↔ ∃ r, r ∈ records ∧ lacking r ∧ demand catalog r = x.
Proof.
  unfold asked. rewrite list_elem_of_omap. split.
  - intros (r & Hr & Hx). exists r. rewrite <-is_missing_lacking. destruct (is_missing r); [|done]. by injection Hx.
  - intros (r & Hr & Hm%is_missing_lacking & <-). exists r. by rewrite Hm.
Qed.

Lemma planned_install i l : i ∈ dp_installs (install_plan (gathered l)) ↔ inl i ∈ l.
Proof.
  unfold install_plan, gathered. cbn. rewrite !elem_of_app, list_elem_of_fmap.
  assert (∀ t, t ∈ btree_set (list_to_set (omap asked_pair l)) ↔ inl (PhpPair t) ∈ l) as Hpairs.
  { intros t. unfold btree_set. rewrite elem_of_sort_on, elem_of_elements, elem_of_list_to_set, list_elem_of_omap. split.
    - intros ([[t'| |]|f] & Hx & Ht); cbn in Ht; try done. by injection Ht as ->.
    - intros Hx. by exists (inl (PhpPair t)). }
  assert (existsb asks_composer l = true ↔ inl Composer ∈ l) as Hcomposer.
  { rewrite existsb_exists. split.
    - intros ([[t'| |]|f] & Hx%list_elem_of_In & Ht); cbn in Ht; done.
    - intros Hx%list_elem_of_In. by exists (inl Composer). }
  assert (i ∈ omap asked_runtime l ↔ inl i ∈ l ∧ match i with Runtime _ _ _ => True | _ => False end) as Hruntime.
  { rewrite list_elem_of_omap. split.
    - intros ([[t'| |a n t]|f] & Hx & Hi); cbn in Hi; try done. by injection Hi as <-.
    - intros [Hx Hi]. exists (inl i). by destruct i. }
  rewrite Hruntime. split.
  - intros [(t & -> & Ht%Hpairs)|[Hi|[Hi _]]]; [done| |done]. destruct (existsb asks_composer l) eqn:Hx; [|set_solver].
    apply list_elem_of_singleton in Hi as ->. by apply Hcomposer.
  - intros Hi. destruct i as [t| |a n t].
    + left. exists t. split; [done|]. by apply Hpairs.
    + right. left. destruct (existsb asks_composer l); [by left|]. by apply Hcomposer in Hi.
    + right. by right.
Qed.

Lemma planned_failure f l : f ∈ dp_failures (install_plan (gathered l)) ↔ inr f ∈ l.
Proof.
  cbn. rewrite list_elem_of_omap. split.
  - intros ([i|g] & Hx & Hf); cbn in Hf; [done|]. by injection Hf as ->.
  - intros Hx. by exists (inr f).
Qed.

Lemma planned_once records : NoDup ((λ r, (tr_resource_name r, tr_track r)) <$> records) → NoDup (dp_installs (install_plan (gathered (asked records)))).
Proof.
  intros Hrecords. cbn. apply NoDup_app. split; [|split].
  - apply NoDup_fmap; [by intros ? ? [= ->]|]. unfold btree_set. rewrite sort_on_perm. apply NoDup_elements.
  - intros i (t & -> & _)%list_elem_of_fmap. rewrite elem_of_app. intros [Hi|Hi]; [destruct (existsb _ _); set_solver|].
    apply list_elem_of_omap in Hi as ([[]|] & _ & Hx); cbn in Hx; done.
  - apply NoDup_app. split; [destruct (existsb _ _); repeat constructor; set_solver|]. split.
    { intros i Hi Hx. assert (i = Composer) as -> by (destruct (existsb _ _); set_solver).
      apply list_elem_of_omap in Hx as ([[]|] & _ & Hx); cbn in Hx; done. }
    induction records as [|r records IH]; [constructor|]. cbn in Hrecords. apply NoDup_cons in Hrecords as [Hr Hrecords]. specialize (IH Hrecords).
    unfold asked. cbn [omap list_omap]. destruct (is_missing r); [|exact IH]. cbn [omap list_omap]. fold (asked records).
    destruct (asked_runtime (demand catalog r)) as [i|] eqn:Hi; [|exact IH]. apply NoDup_cons. split; [|exact IH].
    intros Hx. apply list_elem_of_omap in Hx as (x & Hx & Hxi). apply asked_elem in Hx as (r' & Hr' & _ & <-). apply Hr, list_elem_of_fmap. exists r'. split; [|done].
    assert (∀ q, asked_runtime (demand catalog q) = Some i → match i with Runtime _ n t => tr_resource_name q = n ∧ tr_track q = t | _ => False end) as Hkey.
    { intros q. unfold demand. repeat case_match; cbn; try done; intros [= <-]; done. }
    apply Hkey in Hi, Hxi. destruct i as [| |a n t]; [done..|]. destruct Hi as [-> ->], Hxi as [-> ->]. done.
Qed.
End wanted.

(** The keys of the table. *)
Lemma track_records_once d records : list_managed_resource_tracks d = Ok records → NoDup ((λ r, (tr_resource_name r, tr_track r)) <$> records).
Proof.
  unfold list_managed_resource_tracks. intros Hl%try_map_ok.
  assert ((λ r, (tr_resource_name r, tr_track r)) <$> records = (order_by (λ '(k, _), [k.1; k.2]) (map_to_list (managed_resource_tracks d))).*1) as ->.
  { induction Hl as [|[k row] r l l' Hr _ IH]; [done|]. cbn. rewrite IH. f_equal. unfold track_into_record in Hr. inv_ok. by destruct k. }
  rewrite order_by_perm. apply NoDup_fst_map_to_list.
Qed.

Lemma run_installs_tried commands l failures s : ∃ rs, tried commands l s rs (run_installs commands l failures s).2
  ∧ ∃ more, (run_installs commands l failures s).1 = Ok (failures ++ more) ∧ (more = [] ↔ Forall (λ r, r = Ok tt) rs).
Proof.
  revert failures s. induction l as [|i l IH]; intros failures s; cbn [run_installs].
  - exists []. split; [constructor|]. exists []. rewrite app_nil_r. split; [done|]. by rewrite Forall_nil.
  - unfold mbind, eff_bind, eff_try. destruct (run_install commands i s) as [r s1] eqn:Hi.
    set (failures' := match r with Ok _ => failures | Err error => failures ++ [{| df_label := label i; df_error := error |}] end).
    pose proof (run_install_installs commands i s) as Hinst. rewrite Hi in Hinst.
    destruct (IH failures' s1) as (rs & Ht & more & Hm & Hall). exists (r :: rs). split; [by econstructor|].
    unfold failures' in *. destruct r as [[]|e].
    + exists more. split; [done|]. rewrite Hall, Forall_cons. naive_solver.
    + eexists. rewrite Hm, <-app_assoc. split; [done|]. rewrite Forall_cons. split; [done|by intros [? _]].
Qed.

Section install.
Context (daemon_error_text : DaemonError → string).

Lemma failures_ok l more : failures_result daemon_error_text (l ++ more) = Ok tt ↔ l = [] ∧ more = [].
Proof. destruct l as [|f [|g l]], more as [|h [|i more]]; cbn; (split; [intros Hx; try discriminate Hx; by split|intros [Hx Hy]; try discriminate Hx; try discriminate Hy; done]). Qed.

(** C20: What is wanted and not there is installed, each once and whatever becomes of the
    others. The plan asks exactly what the tracks of the database ask that are wanted, not
    marked for removal, and have no artifact: PHP and FrankenPHP of a track as one pair,
    Composer, the runtime of any other resource, or a failure when PV has no such resource
    or no such track; nothing is asked twice. Every install of the plan is tried, in turn,
    also after one has failed, by the command for it: the one for a pair, the one for
    Composer, or the adapter of the resource. The outcome is a success exactly when the plan
    has no failure and every install succeeded. (For a database whose tracks can be read.) *)
Theorem missing_desired_resource_installs_spec catalog d records plan s :
  list_managed_resource_tracks d = Ok records → missing_desired_resource_installs catalog d = Ok plan →
  (∀ i, i ∈ dp_installs plan ↔ ∃ r, r ∈ records ∧ lacking r ∧ demand catalog r = inl i)
  ∧ (∀ f, f ∈ dp_failures plan ↔ ∃ r, r ∈ records ∧ lacking r ∧ demand catalog r = inr f)
  ∧ NoDup (dp_installs plan)
  ∧ let '(r, s') := install_missing_desired_resource_tracks daemon_error_text (ct_commands catalog) plan s in
    ∃ rs, tried (ct_commands catalog) (dp_installs plan) s rs s' ∧ (r = Ok tt ↔ dp_failures plan = [] ∧ Forall (λ r, r = Ok tt) rs).
Proof.
  intros Hrecords. unfold missing_desired_resource_installs. rewrite Hrecords. cbn. intros [= <-]. rewrite gather.
  split; [intros i; by rewrite planned_install, asked_elem|]. split; [intros f; by rewrite planned_failure, asked_elem|].
  split; [by eapply planned_once, track_records_once|]. set (plan := install_plan _).
  unfold install_missing_desired_resource_tracks. destruct (plan_is_empty plan) eqn:He.
  - exists []. unfold plan_is_empty in He. destruct (dp_installs plan), (dp_failures plan); try done. split; [constructor|]. by rewrite Forall_nil.
  - unfold mbind, eff_bind. destruct (run_installs_tried (ct_commands catalog) (dp_installs plan) (dp_failures plan) s) as (rs & Ht & more & Hm & Hall).
    destruct (run_installs _ _ _ s) as [r s1]. cbn in Ht, Hm. subst r. unfold eff_lift. exists rs. split; [done|]. rewrite <-Hall.
    apply failures_ok.
Qed.
End install.

(** ** Redis, updated while it runs *)

Definition mr_paths : PvPaths := for_home ["u"].
Definition mr_release (version : string) : string := "/u/.pv/resources/redis/8/releases/" +:+ version.
Definition mr_command (version : string) : string := mr_release version +:+ "/bin/redis-server".
Definition mr_config : string := "/u/.pv/config/resources/redis/8.json".
Definition mr_identity (command : string) : ProcessIdentity := {|
  pi_executable := command; pi_argument_zero := command; pi_arguments := [mr_config]; pi_start_identity := {| ps_seconds := 100; ps_microseconds := 5 |} |}.
(** Process 42 is of the first release and 43 of the second; the probes from [quiet] to
    [ready], and those before [first], find nobody. *)
Definition mr_answers (first quiet ready n : nat) : bool := negb ((n <? first)%nat || ((quiet <=? n)%nat && (n <? ready)%nat)).
Definition mr_listener (first quiet ready : nat) : ListenerHost := λ n, {| la_ready := mr_answers first quiet ready n; la_after := 1000 |}.
Definition mr_host (first second quiet ready : nat) : ProcessHost := {|
  containment := Ok tt;
  inspect_at _ pid := Ok (if (pid =? 42)%N then Some (mr_identity (mr_command "8.0.1")) else if (pid =? 43)%N then Some (mr_identity (mr_command "8.0.2")) else None);
  kill_at _ _ _ := Ok tt;
  test_at _ _ := Ok tt;
  spawn_at n := Ok (Some (if (n <? second)%nat then 42%N else 43%N));
  try_wait_at _ := Ok false;
  wait_at _ := RunsOn;
  probe_at n := if mr_answers first quiet ready n then ProbeReady 1000 else ProbeFails 1000 "refused";
  timestamp_at _ := Ok "2026-05-22T14:30:12Z";
  delay_at _ := 1000%N |}.
Definition mr_metadata (command : string) : RuntimeMetadata := {|
  md_name := "redis-8"; md_pid := (if bool_decide (command = mr_command "8.0.1") then 42 else 43)%N; md_command := command; md_arguments := [mr_config];
  md_private_environment_fingerprint := None; md_config_path := mr_config; md_resource_name := "redis"; md_track := "8";
  md_log_path := "/u/.pv/logs/resources/redis/8.log"; md_started_at := "2026-05-22T14:30:12Z";
  md_process_start_identity := Some {| ps_seconds := 100; ps_microseconds := 5 |}; md_process_executable_identity := None |}.
Definition mr_json : MetadataJson := {| metadata_to_json m := Ok (md_command m); metadata_from_json s := Ok (mr_metadata s); sha256 s := s |}.

Definition no_commands : InstallCommands := {| ic_install _ _ := mret tt; ic_install_php_pair _ := mret tt; ic_install_composer := mret tt |}.
Definition mr_resource : ProjectManagedResourceInput := {| ri_resource_name := "redis"; ri_track := "8" |}.
Definition mr_now (_ : nat) : string := "t9".
Definition mr_installed (version : string) (d : Db) : Db := (record_managed_resource_track_installed "redis" "8" version (mr_release version) "t0" d).2.
Definition mr_start : GatewayState :=
  {| gs_daemon := {| dm_db := mr_installed "8.0.1" sample_db; dm_world := {| files := ∅; clock := 0; counter := 0 |}; dm_ticks := 0; dm_log := [] |};
     gs_now := 0; gs_calls := 0; gs_sent := []; gs_spawned := []; gs_opens := 0; gs_diagnostics := [] |}.
Definition mr_updated (s : GatewayState) : GatewayState :=
  set_part daemon_part (set_part db_part (mr_installed "8.0.2" (dm_db (gs_daemon s))) (gs_daemon s)) s.
(** From the second reconciliation on, the port of the first process is taken. *)
Definition mr_available (ticks : nat) (_ : list Z) (p : Z) : bool := (ticks <? 4)%nat || negb (p =? 6379)%Z.

Definition mr_catalog : ManagedResourceRuntimeCatalog :=
  {| ct_adapters := {[ "redis" := @RedisRuntimeAdapter quiet_host tag_json mr_paths mr_now Ok ]}; ct_commands := no_commands |}.
Definition mr_reconcile (h : ProcessHost) (l : ListenerHost) (s : GatewayState) : result DaemonError unit * GatewayState :=
  @reconcile_resource_track quiet_host tag_json h l mr_json mr_paths mr_now GatewayConfig.error_name mr_available mr_catalog ProjectPlan.shop_project
    {| pl_resources := [mr_resource]; pl_allocations := ∅ |} mr_resource s.
Definition mr_twice (h : ProcessHost) (l : ListenerHost) : result DaemonError unit * result DaemonError unit * GatewayState :=
  let '(r, s) := mr_reconcile h l mr_start in let '(r', s) := mr_reconcile h l (mr_updated s) in (r, r', s).
Definition mr_busy : ProcessHost := mr_host 5 9 9 15.
Definition mr_ports : ListenerHost := mr_listener 5 9 15.

(** The project still needs Redis when its new release is installed. The first process is
    not one of the new release, so it is not adopted; it answers the probe, as somebody
    else would; its files are deleted and a second one is started on another port, with
    the same data. The first runs on, and nothing names it any more. *)
Example mr_updated_while_it_runs :
  let '(first, second, s) := mr_twice mr_busy mr_ports in
  first = Ok tt ∧ second = Ok tt ∧ gs_spawned s = [43; 42]%N ∧ gs_sent s = []
  ∧ files (dm_world (gs_daemon s)) !! path_of "/u/.pv/run/resources/redis/8.pid" = Some (File ("43" +:+ newline)).
Proof. vm_compute. repeat split. Qed.

Lemma mr_spawns n pid : @spawn_at mr_busy n = Ok (Some pid) → (0 < pid ≤ I32_MAX)%N.
Proof. unfold mr_busy. cbn. unfold I32_MAX. case_match; intros [= <-]; lia. Qed.
#[local] Instance no_commands_laws : CommandsLaws no_commands.
Proof. split; intros; apply gw_calm_ret. Qed.
Lemma mr_catalog_laws name a : adapter mr_catalog name = Some a → AdapterLaws a.
Proof. unfold adapter, mr_catalog. cbn. intros [<- <-]%lookup_singleton_Some. apply redis_laws. Qed.

Lemma reconcile_resource_track_spec_witness : let '(r, s) := mr_reconcile mr_busy mr_ports mr_start in
  settled_or_ready (H1 := mr_busy) (sup mr_start) s
  ∧ match r with
    | Ok _ => seeded mr_resource mr_catalog (dm_db (gs_daemon mr_start)) ∨ came_up (H1 := mr_busy) (sup mr_start) mr_resource s
    | Err e => failure_shown GatewayConfig.error_name (resource_subject (ri_resource_name mr_resource) (ri_track mr_resource)) e s
               ∨ unwritten mr_resource mr_catalog (dm_db (gs_daemon mr_start)) e
    end.
Proof.
  unfold mr_reconcile. pose proof (@reconcile_resource_track_spec quiet_host tag_json mr_busy mr_ports mr_json mr_paths mr_now GatewayConfig.error_name mr_available mr_spawns
    ProjectPlan.shop_project {| pl_resources := [mr_resource]; pl_allocations := ∅ |} mr_resource mr_catalog mr_start mr_catalog_laws no_commands_laws) as Hx.
  exact Hx.
Defined.

(** PHP, Composer of an unknown track, Redis and a resource that PV does not know are wanted, and Mailpit is there. *)
Definition wanted_db : Db :=
  foldr (λ rt d, (record_managed_resource_track_desired rt.1 rt.2 Installed "t0" d).2)
    ((record_managed_resource_track_installed "mailpit" "1" "1.2" "/u/.pv/resources/mailpit/1/releases/1.2" "t0" sample_db).2)
    [("php", "8.4"); ("frankenphp", "8.4"); ("composer", "1"); ("redis", "8"); ("elastic", "9")].
Definition wanted_records : list ManagedResourceTrackRecord := match list_managed_resource_tracks wanted_db with Ok l => l | Err _ => [] end.
Definition wanted_plan : DesiredResourceInstallPlan := 
  match missing_desired_resource_installs mr_catalog wanted_db with Ok p => p | Err _ => install_plan wanted_nothing end.
Lemma wanted_ok : list_managed_resource_tracks wanted_db = Ok wanted_records ∧ missing_desired_resource_installs mr_catalog wanted_db = Ok wanted_plan.
Proof. split; vm_compute; reflexivity. Qed.
Example wanted_installs : label <$> dp_installs wanted_plan = ["php/frankenphp 8.4"; "redis 8"].
Proof. vm_compute. reflexivity. Qed.
Example wanted_failures : df_label <$> dp_failures wanted_plan = ["composer 1"; "elastic 9"].
Proof. vm_compute. reflexivity. Qed.

Lemma missing_desired_resource_installs_spec_witness :
  NoDup (dp_installs wanted_plan)
  ∧ let '(r, s') := install_missing_desired_resource_tracks GatewayConfig.error_name no_commands wanted_plan mr_start in
    ∃ rs, tried no_commands (dp_installs wanted_plan) mr_start rs s' ∧ (r = Ok tt ↔ dp_failures wanted_plan = [] ∧ Forall (λ r, r = Ok tt) rs).
Proof.
  exact (proj2 (proj2 (missing_desired_resource_installs_spec GatewayConfig.error_name mr_catalog wanted_db wanted_records wanted_plan mr_start
    (proj1 wanted_ok) (proj2 wanted_ok)))).
Defined.
