(* ===== verification/Migrations.v ===== *)
(** * Opening the database: migrations and their backups ([state/src/migrations.rs], [backup.rs])

    The statements of a migration are run by SQLite: what they make of the tables is a
    parameter, and a migration's text is the name of its file. What PV decides is here:
    which migrations are pending, that they all happen or none, and the backup that is
    made of an existing database before, under a name of its own, while the oldest beyond
    five are removed.

    Parameters: the tables with [execute_batch], the failures of SQLite's calls,
    [VACUUM INTO] and the clock (the class [SqliteHost]). *)

From stdpp Require Import pretty.
From S2P Require Import Prelude RustStr Paths HostFs StateFs StatePaths StateTypes Effects.

(** [StateError::filesystem]. *)
Definition of_fs (e : FsError) : StateError := Filesystem (path_str (fs_path e)) (io_text (fs_source e)).

(** ** Data *)

(** [sql] is the file that is included. *)
Record Migration := { mg_version : Z; mg_name : string; mg_sql : string }.
Definition migration (version : Z) (name sql : string) : Migration := {| mg_version := version; mg_name := name; mg_sql := sql |}.

Definition DEFAULT_MIGRATIONS : list Migration := [
  migration 1 "core_state_schema" "sql/001_core_state_schema.sql";
  migration 2 "managed_resource_removal_intent" "sql/002_managed_resource_removal_intent.sql";
  migration 3 "project_primary_hostname_updates" "sql/003_project_primary_hostname_updates.sql";
  migration 4 "project_original_path" "sql/004_project_original_path.sql";
  migration 5 "project_resource_requirements" "sql/005_project_resource_requirements.sql";
  migration 6 "global_php_default" "sql/006_global_php_default.sql";
  migration 7 "resource_port_roles" "sql/007_resource_port_roles.sql";
  migration 8 "project_php_runtime_extensions" "sql/008_project_php_runtime_extensions.sql";
  migration 9 "project_mode_and_slug" "sql/009_project_mode_and_slug.sql";
  migration 10 "job_diagnostic_outcomes" "sql/010_job_diagnostic_outcomes.sql"
].

(** A connection: the table [pv_migrations] if there is one, and the other tables. *)
Record Connection (Tables : Type) := { cn_migrations : option (gmap Z string); cn_tables : Tables }.
Arguments cn_migrations {Tables} _.
Arguments cn_tables {Tables} _.
Arguments Build_Connection {Tables} _ _.

Record Opening (Tables : Type) := { op_world : World; op_connection : Connection Tables; op_calls : nat }.
Arguments op_world {Tables} _.
Arguments op_connection {Tables} _.
Arguments op_calls {Tables} _.
Arguments Build_Opening {Tables} _ _ _.

Class SqliteHost (Tables : Type) := {
  execute_batch : string → Tables → result SqliteError Tables;
  (** Why the call of this number fails, whatever it asks. *)
  sqlite_fault : nat → option SqliteError;
  vacuum_into : path → Connection Tables → IO SqliteError unit;
  (** The time, by the clock of the files. *)
  utc_now : nat → string;
}.

(** ** Names of backups *)

Definition MIGRATION_BACKUP_RETENTION : nat := 5.
Definition TIMESTAMP_LENGTH : nat := 15.
Definition DATE_LENGTH : nat := 8.

(** [str.get(..n)] and [str.get(n..)] at ASCII positions. *)
Definition valid_backup_timestamp (timestamp : string) : bool :=
  bool_decide (len timestamp = TIMESTAMP_LENGTH)
  && bool_decide (String.get DATE_LENGTH timestamp = Some "-"%char)
  && str_all is_ascii_digit (str_take DATE_LENGTH timestamp)
  && str_all is_ascii_digit (str_drop (DATE_LENGTH + 1) timestamp).

Definition migration_backup_parts (name : string) : option (string * N) :=
  stem ← strip_prefix "pv.db." name ≫= strip_suffix ".bak";
  let timestamp := str_take TIMESTAMP_LENGTH stem in
  if negb (valid_backup_timestamp timestamp) then None
  else if bool_decide (len stem = TIMESTAMP_LENGTH) then Some (timestamp, 0%N)
  else
    suffix ← strip_prefix "-" (str_drop TIMESTAMP_LENGTH stem);
    parsed_suffix ← parse_u64 suffix;
    if (0 <? parsed_suffix)%N && bool_decide (pretty parsed_suffix = suffix) then Some (timestamp, parsed_suffix) else None.

Definition USIZE_MAX : N := U64_MAX.
Definition migration_backup_sort_key (name : string) : string * N :=
  match migration_backup_parts name with Some parts => parts | None => (name, USIZE_MAX) end.
(** The order of pairs. *)
Definition key_le (x y : string) : Prop :=
  let '(t, n) := migration_backup_sort_key x in
  let '(u, m) := migration_backup_sort_key y in
  t ≠ u ∧ String.le t u ∨ t = u ∧ (n ≤ m)%N.
#[export] Instance key_le_dec : RelDecision key_le.
Proof. intros x y. unfold key_le. destruct (migration_backup_sort_key x), (migration_backup_sort_key y). apply _. Defined.
Definition sort_migration_backup_names (backups : list string) : list string := merge_sort key_le backups.

Definition backup_name (timestamp : string) (suffix : N) : string :=
  if (suffix =? 0)%N then "pv.db." +:+ timestamp +:+ ".bak" else "pv.db." +:+ timestamp +:+ "-" +:+ pretty suffix +:+ ".bak".
Definition saturating_add (n m : N) : N := N.min USIZE_MAX (n + m).

Section migrations.
Context `{Host} {Tables : Type} `{!SqliteHost Tables} (paths : PvPaths).

(** ** Calls *)

Abbreviation Mig := (eff (Opening Tables) StateError).
Definition world_part : part (Opening Tables) World :=
  {| get_part := op_world; set_part w s := {| op_world := w; op_connection := op_connection s; op_calls := op_calls s |} |}.
Definition on_files {A : Type} (m : IO FsError A) : Mig A := on_part world_part of_fs m.

Definition set_connection (c : Connection Tables) (s : Opening Tables) : Opening Tables :=
  {| op_world := op_world s; op_connection := c; op_calls := op_calls s |}.
(** A call of SQLite that fails changes nothing. *)
Definition sql {A : Type} (f : Connection Tables → result SqliteError (A * Connection Tables)) : eff (Opening Tables) SqliteError A := λ s,
  let next c := {| op_world := op_world s; op_connection := c; op_calls := S (op_calls s) |} in
  match sqlite_fault (op_calls s) with
  | Some e => (Err e, next (op_connection s))
  | None => match f (op_connection s) with Ok (a, c) => (Ok a, next c) | Err e => (Err e, next (op_connection s)) end
  end.
Definition asked {A : Type} (f : Connection Tables → result SqliteError (A * Connection Tables)) : Mig A := eff_map_err Sqlite (sql f).
(** A transaction that is dropped is rolled back. *)
Definition transaction (m : Mig unit) : Mig unit :=
  before ← eff_get op_connection;
  _ ← asked (λ c, Ok (tt, c));
  r ← eff_try (_ ← m; asked (λ c, Ok (tt, c)));
  match r with Ok _ => mret tt | Err e => _ ← eff_modify (set_connection before); eff_fail e end.

(** ** [backup.rs] *)

Definition backup_path (timestamp : string) (suffix : N) : path := join_path (pv_root paths) (backup_name timestamp suffix).
Definition is_migration_backup (name : string) : bool := option_bool (migration_backup_parts name).
Definition migration_backups : IO FsError (list string) :=
  entries ← at_path (pv_root paths) (std_read_dir (pv_root paths));
  mret (sort_migration_backup_names (List.filter is_migration_backup entries.*1)).

Definition next_suffix_after (timestamp : string) (next_suffix : N) (backup : string) : N :=
  match migration_backup_parts backup with
  | Some (backup_timestamp, suffix) => if bool_decide (backup_timestamp = timestamp) then N.max next_suffix (saturating_add suffix 1) else next_suffix
  | None => next_suffix
  end.
Definition next_backup_suffix (timestamp : string) : IO FsError N :=
  backups ← migration_backups; mret (foldl (next_suffix_after timestamp) 0%N backups).

(** [for suffix in next_suffix..=999]. *)
Fixpoint free_backup_path (tries : nat) (timestamp : string) (suffix : N) : IO FsError (option path) :=
  match tries with
  | 0 => mret None
  | S tries =>
      let candidate := backup_path timestamp suffix in
      there ← path_exists candidate;
      if there : bool then free_backup_path tries timestamp (suffix + 1) else mret (Some candidate)
  end.
Definition unique_backup_path : Mig path :=
  timestamp ← eff_get (λ s, utc_now (clock (op_world s)));
  next_suffix ← on_files (next_backup_suffix timestamp);
  found ← on_files (free_backup_path (1000 - N.to_nat next_suffix) timestamp next_suffix);
  eff_lift (ok_or found (BackupNameExhausted (path_str (pv_root paths)))).

Fixpoint remove_backups (backups : list string) : IO FsError unit :=
  match backups with [] => mret tt | backup :: backups => _ ← remove_file (join_path (pv_root paths) backup); remove_backups backups end.
Definition prune_migration_backups : IO FsError unit :=
  backups ← migration_backups; remove_backups (take (length backups - MIGRATION_BACKUP_RETENTION) backups).

(** [backup::database]. *)
Definition backup_database (create_backup : path → Mig unit) : Mig unit :=
  backup_path ← unique_backup_path;
  _ ← create_backup backup_path;
  _ ← on_files (secure_sensitive_file backup_path);
  on_files prune_migration_backups.
Definition vacuum (p : path) : Mig unit :=
  c ← eff_get op_connection;
  _ ← asked (λ c, Ok (tt, c));
  on_part world_part Sqlite (vacuum_into p c).

(** ** [migrations.rs] *)

Definition table_exists : Mig bool := asked (λ c, Ok (option_bool (cn_migrations c), c)).
Definition applied_migrations : Mig (gmap Z string) :=
  there ← table_exists;
  if there : bool then asked (λ c, Ok (default ∅ (cn_migrations c), c)) else mret ∅.

Fixpoint validate_applied_migration_names (applied : gmap Z string) (migrations : list Migration) : result StateError unit :=
  match migrations with
  | [] => Ok tt
  | m :: migrations =>
      match applied !! mg_version m with
      | Some actual =>
          if negb (bool_decide (actual = mg_name m)) then Err (MigrationNameMismatch (mg_version m) (mg_name m) actual)
          else validate_applied_migration_names applied migrations
      | None => validate_applied_migration_names applied migrations
      end
  end.

Definition with_table (c : Connection Tables) : Connection Tables := Build_Connection (Some (default ∅ (cn_migrations c))) (cn_tables c).
Definition ensure_migration_table : Mig unit := asked (λ c, Ok (tt, with_table c)).

Definition migration_failed (m : Migration) (source : SqliteError) : StateError := MigrationFailed (mg_version m) (mg_name m) source.
Definition insert_migration (m : Migration) (c : Connection Tables) : result SqliteError (unit * Connection Tables) :=
  match cn_migrations c with
  | None => Err QueryReturnedNoRows
  | Some rows =>
      if option_bool (rows !! mg_version m) then Err (UniqueViolation "pv_migrations.version")
      else Ok (tt, Build_Connection (Some (<[mg_version m := mg_name m]> rows)) (cn_tables c))
  end.
Definition apply_migration (m : Migration) : Mig unit :=
  _ ← eff_map_err (migration_failed m) (sql (λ c, tables ← execute_batch (mg_sql m) (cn_tables c); Ok (tt, Build_Connection (cn_migrations c) tables)));
  eff_map_err (migration_failed m) (sql (insert_migration m)).

Definition pending_migrations (applied : gmap Z string) (migrations : list Migration) : list Migration :=
  List.filter (λ m, negb (option_bool (applied !! mg_version m))) migrations.

Definition run (migrations : list Migration) (database_existed : bool) : Mig unit :=
  applied ← applied_migrations;
  _ ← eff_lift (validate_applied_migration_names applied migrations);
  match pending_migrations applied migrations with
  | [] => ensure_migration_table
  | pending =>
      _ ← (if database_existed then backup_database vacuum else mret tt);
      transaction (_ ← asked (λ c, Ok (tt, with_table c)); eff_iter apply_migration pending)
  end.
End migrations.

(** ** Names *)

Lemma take_app_len (s t : string) : str_take (len s) (s +:+ t) = s.
Proof. induction s as [|c s IH]; [by destruct t|]. unfold len in *. cbn. by rewrite IH. Qed.
Lemma drop_app_len (s t : string) : str_drop (len s) (s +:+ t) = t.
Proof. induction s as [|c s IH]; [by destruct t|exact IH]. Qed.
Lemma take_drop_len n (s : string) : str_take n s +:+ str_drop n s = s.
Proof. revert s. induction n as [|n IH]; intros [|c s]; try done. cbn. by rewrite IH. Qed.
Lemma valid_len t : valid_backup_timestamp t = true → len t = TIMESTAMP_LENGTH.
Proof. unfold valid_backup_timestamp. intros H. by apply andb_true_iff in H as [[[H%bool_decide_eq_true _]%andb_true_iff _]%andb_true_iff _]. Qed.

Lemma parts_name name t n : migration_backup_parts name = Some (t, n) ↔
  name = backup_name t n ∧ valid_backup_timestamp t = true ∧ (n ≤ U64_MAX)%N.
Proof.
  assert (∀ stem, strip_prefix "pv.db." ("pv.db." +:+ stem +:+ ".bak") ≫= strip_suffix ".bak" = Some stem) as Hstem.
  { intros stem. rewrite strip_prefix_app. cbn [mbind option_bind]. by apply strip_suffix_Some. }
  split.
  - unfold migration_backup_parts. destruct (strip_prefix "pv.db." name ≫= strip_suffix ".bak") as [stem|] eqn:Hs; cbn [mbind option_bind]; [|done].
    apply bind_Some in Hs as (rest & ->%strip_prefix_Some & ->%strip_suffix_Some).
    destruct (valid_backup_timestamp (str_take TIMESTAMP_LENGTH stem)) eqn:Hv; cbn [negb]; [|done].
    case_bool_decide as Hlen.
    + intros [<- <-]%(inj Some)%pair_equal_spec. assert (str_take TIMESTAMP_LENGTH stem = stem) as ->.
      { rewrite <-Hlen. rewrite <-(str_app_nil_r stem) at 2. apply take_app_len. }
      split; [done|]. split; [|done]. rewrite <-Hlen in Hv. rewrite <-(str_app_nil_r stem) in Hv at 2. by rewrite take_app_len in Hv.
    + destruct (strip_prefix "-" (str_drop TIMESTAMP_LENGTH stem)) as [suffix|] eqn:Hd; cbn [mbind option_bind]; [|done].
      apply strip_prefix_Some in Hd. destruct (parse_u64 suffix) as [m|] eqn:Hp; cbn [mbind option_bind]; [|done].
      destruct (0 <? m)%N eqn:H0; cbn [andb]; [|done]. case_bool_decide as Hm; [|done]. intros [<- <-]%(inj Some)%pair_equal_spec. subst suffix.
      split; [|split; [done|by eapply parse_u64_bound]]. unfold backup_name. apply N.ltb_lt in H0. rewrite (proj2 (N.eqb_neq m 0)) by lia.
      rewrite <-(take_drop_len TIMESTAMP_LENGTH stem) at 1. rewrite Hd. by rewrite <-!str_app_assoc.
  - intros (-> & Hv & Hn). pose proof (valid_len t Hv) as Hlen. unfold migration_backup_parts, backup_name. destruct (n =? 0)%N eqn:Hz.
    + rewrite Hstem. cbn [mbind option_bind]. assert (str_take TIMESTAMP_LENGTH t = t) as ->.
      { rewrite <-Hlen. rewrite <-(str_app_nil_r t) at 2. apply take_app_len. }
      rewrite Hv. cbn [negb]. rewrite bool_decide_eq_true_2 by done. by apply N.eqb_eq in Hz as ->.
    + assert ("pv.db." +:+ t +:+ "-" +:+ pretty n +:+ ".bak" = "pv.db." +:+ (t +:+ "-" +:+ pretty n) +:+ ".bak") as -> by (by rewrite <-!str_app_assoc).
      rewrite Hstem. cbn [mbind option_bind]. rewrite <-Hlen, take_app_len, drop_app_len, Hv. cbn [negb].
      rewrite bool_decide_eq_false_2 by (rewrite !len_app; cbn; lia). rewrite strip_prefix_app. cbn [mbind option_bind].
      rewrite parse_u64_pretty by done. cbn [mbind option_bind]. apply N.eqb_neq in Hz. rewrite (proj2 (N.ltb_lt 0 n)) by lia. cbn [andb]. by rewrite bool_decide_eq_true_2.
Qed.

Definition backup_named (name : string) : Prop := is_migration_backup name = true.
Lemma backup_named_parts name : backup_named name ↔ ∃ t n, migration_backup_parts name = Some (t, n).
Proof. unfold backup_named, is_migration_backup. rewrite option_bool_true. split; [intros [[t n] H]; eauto|intros (t & n & H); by eexists]. Qed.

(** A name of a backup is one component of a path. *)
Lemma valid_no_slash t : valid_backup_timestamp t = true → lacks "/" t = true.
Proof.
  intros Hv. pose proof (valid_len t Hv) as Hlen. unfold valid_backup_timestamp in Hv.
  apply andb_true_iff in Hv as [[[_ Hg%bool_decide_eq_true]%andb_true_iff Hd]%andb_true_iff Ht].
  rewrite <-(take_drop_len DATE_LENGTH t). rewrite lacks_app. apply andb_true_iff. split; [by eapply str_all_lacks; [|exact Hd]|].
  clear Hd. change (DATE_LENGTH + 1) with 9 in Ht. change DATE_LENGTH with 8 in *. unfold len in Hlen.
  destruct t as [|c1 [|c2 [|c3 [|c4 [|c5 [|c6 [|c7 [|c8 [|c9 t]]]]]]]]]; try done. cbn in Hg, Ht |- *. injection Hg as ->. cbn.
  by eapply str_all_lacks; [|exact Ht].
Qed.
Lemma backup_join paths name : backup_named name → join_path (pv_root paths) name = pv_root paths ++ [name].
Proof.
  intros (t & n & Hp)%backup_named_parts. assert (lacks "/" name = true ∧ name ≠ "" ∧ name ≠ ".") as (Hl & Hne & Hdot).
  { apply parts_name in Hp as (-> & Hv & _). pose proof (valid_no_slash t Hv) as Hl. unfold backup_name.
    destruct (n =? 0)%N; (split; [|done]); rewrite !lacks_app, Hl; cbn; [done|].
    rewrite (str_all_lacks is_ascii_digit "/" (pretty n)); [done..|apply pretty_N_digits]. }
  unfold join_path. rewrite split_lacks by done. cbn. unfold kept_piece. destruct name; [done|]. cbn. by rewrite bool_decide_eq_false_2.
Qed.

Lemma key_backup name t n : migration_backup_parts name = Some (t, n) → migration_backup_sort_key name = (t, n).
Proof. intros H. unfold migration_backup_sort_key. by rewrite H. Qed.
Lemma key_le_antisym x y : backup_named x → backup_named y → key_le x y → key_le y x → x = y.
Proof.
  intros (t & n & Hx)%backup_named_parts (u & m & Hy)%backup_named_parts. unfold key_le.
  rewrite (key_backup _ _ _ Hx), (key_backup _ _ _ Hy). apply parts_name in Hx as (-> & _), Hy as (-> & _).
  intros [[Htu H1]|[-> H1]] [[Hut H2]|[Heq H2]]; try congruence.
  - by destruct Htu; apply (anti_symm String.le).
  - f_equal. lia.
Qed.
#[export] Instance key_le_trans : Transitive key_le.
Proof.
  intros x y z. unfold key_le. destruct (migration_backup_sort_key x) as [t n], (migration_backup_sort_key y) as [u m], (migration_backup_sort_key z) as [v k].
  intros [[Htu H1]|[-> H1]] [[Huv H2]|[<- H2]]; [|by left..|by right; split; [|lia]].
  destruct (decide (t = v)) as [->|Htv]; [|left; split; [done|by etrans]]. destruct Htu. by apply (anti_symm String.le).
Qed.
#[export] Instance key_le_total : Total key_le.
Proof.
  intros x y. unfold key_le. destruct (migration_backup_sort_key x) as [t n], (migration_backup_sort_key y) as [u m].
  destruct (decide (t = u)) as [->|Htu]; [destruct (N.le_ge_cases n m); [left|right]; by right|].
  destruct (String.le_total t u); [left|right]; by left.
Qed.

(** ** What is promised *)

(** [VACUUM INTO] writes one file, which then holds the database; the clock gives
    timestamps. *)
Class SqliteLaws (Tables : Type) `{Host} `{!SqliteHost Tables} := {
  dump : Connection Tables → string;
  vacuum_changes p c : changes (λ q, q = p) (vacuum_into p c);
  vacuum_writes p c w : (vacuum_into p c w).1 = Ok tt → files (vacuum_into p c w).2 !! p = Some (File (dump c));
  utc_valid n : valid_backup_timestamp (utc_now n) = true;
}.

Section promises.
Context `{Host} {Tables : Type} `{!SqliteHost Tables} `{!SqliteLaws Tables} (paths : PvPaths).
Implicit Types (f g : Fs) (c : Connection Tables) (s : Opening Tables).

Abbreviation root := (pv_root paths).
Definition tree s : Fs := files (op_world s).
Definition backup_in f (x : string) : Prop := backup_named x ∧ is_Some (f !! (root ++ [x])).
Definition is_backup_path (q : path) : Prop := ∃ x, q = root ++ [x] ∧ backup_named x.

(** *** The backups there are *)

Definition listing f : list string := sort_migration_backup_names (List.filter is_migration_backup (children root f).*1).
Lemma elem_listing f x : x ∈ listing f ↔ backup_in f x.
Proof.
  unfold listing, sort_migration_backup_names. rewrite (merge_sort_Permutation key_le), list_elem_of_In, filter_In, <-list_elem_of_In, list_elem_of_fmap.
  unfold backup_in, backup_named. split.
  - intros [([y n] & -> & Hy%elem_of_children) Hb]. split; [done|]. by exists n.
  - intros [Hb [n Hn]]. split; [|done]. exists (x, n). split; [done|by apply elem_of_children].
Qed.
Lemma names_once f : NoDup (children root f).*1.
Proof.
  assert (∀ l : list (path * node), NoDup l.*1 → NoDup (omap (λ '(q, n), match last q with
    | Some name => if bool_decide (q = root ++ [name]) then Some (name, n) else None | None => None end) l).*1) as Hl.
  { induction l as [|[q n] l IH]; cbn; [constructor|]. intros [Hq Hl]%NoDup_cons. specialize (IH Hl).
    destruct (last q) as [name|]; [|done]. case_bool_decide as Heq; [|done]. cbn. apply NoDup_cons. split; [|done].
    intros ([y m] & Hy & Hin)%list_elem_of_fmap. cbn in Hy. subst y. apply Hq.
    apply list_elem_of_omap in Hin as ([q' m'] & Hin & Hm). destruct (last q') as [name'|]; [|done]. case_bool_decide as Heq'; [|done].
    injection Hm as -> ->. apply list_elem_of_fmap. exists (q', m). split; [by rewrite Heq, Heq'|done]. }
  apply Hl, NoDup_fst_map_to_list.
Qed.
Lemma listing_once f : NoDup (listing f).
Proof.
  unfold listing, sort_migration_backup_names. rewrite (merge_sort_Permutation key_le). apply NoDup_ListNoDup, List.NoDup_filter, NoDup_ListNoDup, names_once.
Qed.
Lemma listing_sorted f : StronglySorted key_le (listing f).
Proof. apply StronglySorted_merge_sort; apply _. Qed.

Lemma hoare_backups f : hoare (λ t, t = f) (migration_backups paths) (λ l t, t = f ∧ l = listing f) (λ t, t = f).
Proof.
  eapply hoare_bind; [apply hoare_map_err, (hoare_query (λ t, t = f)); by intros|]. intros entries w [He Hw]. cbn.
  destruct (files w !! root) as [[| |]|]; try done. injection He as <-. split; [done|]. by rewrite Hw.
Qed.

(** *** A name of its own *)

Lemma next_after timestamp l n0 x n : x ∈ l → migration_backup_parts x = Some (timestamp, n) →
  (n < foldl (next_suffix_after timestamp) n0 l ∨ USIZE_MAX ≤ foldl (next_suffix_after timestamp) n0 l)%N.
Proof.
  intros Hx Hp. assert (∀ l n0, (n0 ≤ foldl (next_suffix_after timestamp) n0 l)%N) as Hmono.
  { clear. induction l as [|y l IH]; intros n0; cbn; [lia|]. etrans; [|apply IH]. unfold next_suffix_after.
    destruct (migration_backup_parts y) as [[u m]|]; [case_bool_decide|]; lia. }
  revert n0. induction l as [|y l IH]; intros n0; [by apply elem_of_nil in Hx|]. cbn. apply elem_of_cons in Hx as [<-|Hx]; [|by apply IH].
  specialize (Hmono l (next_suffix_after timestamp n0 x)). unfold next_suffix_after at 1 in Hmono. rewrite Hp, bool_decide_eq_true_2 in Hmono by done.
  unfold saturating_add in Hmono. lia.
Qed.

Lemma free_found tries timestamp k f : hoare (λ t, t = f) (free_backup_path paths tries timestamp k)
  (λ found t, t = f ∧ ∀ p, found = Some p → ∃ n, p = backup_path paths timestamp n ∧ (k ≤ n < k + N.of_nat tries)%N) (λ t, t = f).
Proof.
  revert k. induction tries as [|tries IH]; intros k; cbn [free_backup_path]; [intros w Hw; by split|].
  intros w Hw. unfold mbind, eff_bind. pose proof (changes_path_exists (E := FsError) (λ _, False) (backup_path paths timestamp k) w) as Hc.
  unfold path_exists in *. destruct (query _ w) as [r w1].
  assert (files w1 = f) as Hw1. { rewrite <-Hw. apply map_eq. intros q. specialize (Hc q). destruct r; apply Hc; tauto. }
  destruct r as [a|e].
  - specialize (IH (k + 1)%N w1 Hw1). destruct (free_backup_path paths tries timestamp (k + 1) w1) as [[found|e] w2]; [|done].
    destruct IH as [Ht Hf]. split; [done|]. intros p Hp. destruct (Hf p Hp) as (n & -> & Hn). exists n. split; [done|lia].
  - split; [done|]. intros p [= <-]. exists k. split; [done|lia].
Qed.

Definition same f c s : Prop := tree s = f ∧ op_connection s = c.
Lemma spec_on_files {A : Type} f c (m : IO FsError A) (Q : A → Fs → Prop) (X : Fs → Prop) : hoare (λ t, t = f) m Q X →
  spec (same f c) (on_files m) (λ a s, Q a (tree s) ∧ op_connection s = c) (λ _ s, X (tree s) ∧ op_connection s = c).
Proof.
  intros Hm s [Ht Hc]. unfold on_files, on_part. specialize (Hm (op_world s) Ht). cbn. by destruct (m (op_world s)) as [[a|e] w].
Qed.

Lemma spec_looks {A : Type} f c (m : IO FsError A) (φ : A → Prop) : hoare (λ t, t = f) m (λ a t, t = f ∧ φ a) (λ t, t = f) →
  spec (same f c) (on_files m) (λ a s, φ a ∧ same f c s) (λ _, same f c).
Proof.
  intros Hm s Hs. pose proof (spec_on_files f c m _ _ Hm s Hs) as Hr. destruct (on_files m s) as [[a|e] s']; [|exact Hr].
  destruct Hr as [[Ht Ha] Hc]. by split.
Qed.

Lemma unique_path_spec f c : spec (same f c) (unique_backup_path paths)
  (λ p s, (∃ x, p = root ++ [x] ∧ backup_named x ∧ ¬ backup_in f x) ∧ same f c s) (λ _, same f c).
Proof.
  unfold unique_backup_path. apply (spec_bind _ _ _ (λ timestamp s, valid_backup_timestamp timestamp = true ∧ same f c s)).
  { intros s Hs. split; [apply utc_valid|exact Hs]. }
  intros timestamp. apply spec_pure. intros Hv. set (next := foldl (next_suffix_after timestamp) 0%N (listing f)).
  apply (spec_bind _ _ _ (λ n s, n = next ∧ same f c s)).
  { apply spec_looks. unfold next_backup_suffix. eapply hoare_bind; [apply hoare_backups|]. intros l w [Hw ->]. by split. }
  intros n. apply spec_pure. intros ->. eapply spec_bind; [apply spec_looks, free_found|]. intros [p|]; [|intros s [_ Hs]; exact Hs].
  apply spec_pure. intros Hfound s Hs. split; [|exact Hs]. destruct (Hfound p eq_refl) as (n & -> & Hn). exists (backup_name timestamp n).
  assert (migration_backup_parts (backup_name timestamp n) = Some (timestamp, n)) as Hparts.
  { apply parts_name. split; [done|]. split; [done|]. unfold U64_MAX. lia. }
  assert (backup_named (backup_name timestamp n)) as Hnamed by (apply backup_named_parts; eauto).
  split; [by apply backup_join|]. split; [done|]. intros Hin%elem_listing.
  destruct (next_after timestamp (listing f) 0%N _ n Hin Hparts) as [Hlt|Hlt]; fold next in Hlt; [lia|]. unfold USIZE_MAX, U64_MAX in Hlt. lia.
Qed.

(** *** The backup, and what is removed *)

Lemma spec_sql {A : Type} (g : Connection Tables → result SqliteError (A * Connection Tables)) f c :
  spec (same f c) (sql g) (λ a s, tree s = f ∧ g c = Ok (a, op_connection s)) (λ _, same f c).
Proof.
  intros s [Ht Hc]. unfold sql. destruct (sqlite_fault (op_calls s)); [by split|]. rewrite Hc. destruct (g c) as [[a c']|e] eqn:Hg; by split.
Qed.
Lemma spec_map_err {E F A : Type} P (h : E → F) (m : eff (Opening Tables) E A) Q (X : Opening Tables → Prop) :
  spec P m Q (λ _, X) → spec P (eff_map_err h m) Q (λ _, X).
Proof. intros Hm s Hs. specialize (Hm s Hs). unfold eff_map_err. by destruct (m s) as [[]]. Qed.

Definition apart f p (t : Fs) : Prop := ∀ q, q ≠ p → t !! q = f !! q.
Lemma vacuum_spec f c p : spec (same f c) (vacuum p)
  (λ _ s, (apart f p (tree s) ∧ tree s !! p = Some (File (dump c))) ∧ op_connection s = c) (λ _ s, apart f p (tree s) ∧ op_connection s = c).
Proof.
  unfold vacuum. apply (spec_bind _ _ _ (λ c' s, c' = c ∧ same f c s)); [intros s [Ht Hc]; by split|]. intros c'. apply spec_pure. intros ->.
  apply (spec_bind _ _ _ (λ _, same f c)).
  { eapply spec_conseq; [| | |apply spec_map_err, (spec_sql _ f c)]; [done| |].
    - intros [] s [Ht Hg]. injection Hg as Hg. by split.
    - intros e s [Ht Hc]. split; [|done]. intros q _. by rewrite Ht. }
  intros _u s [Ht Hc]. unfold on_part. cbn. pose proof (vacuum_changes p c (op_world s)) as Hch. pose proof (vacuum_writes p c (op_world s)) as Hw.
  assert (apart f p (files (vacuum_into p c (op_world s)).2)) as Ha by (intros q Hq; rewrite Hch by done; by rewrite <-Ht).
  destruct (vacuum_into p c (op_world s)) as [[[]|e] w]; cbn in *; [|by split]. split; [|done]. split; [done|]. by apply Hw.
Qed.

(** Some of the backups in [l] are gone. *)
Definition thinned (l : list string) g (t : Fs) : Prop := ∀ q, t !! q = g !! q ∨ t !! q = None ∧ ∃ x, x ∈ l ∧ q = root ++ [x].
Lemma hoare_remove l g : Forall backup_named l → hoare (λ t, t = g) (remove_backups paths l)
  (λ _ t, (∀ x, x ∈ l → t !! (root ++ [x]) = None) ∧ ∀ q, (∀ x, x ∈ l → q ≠ root ++ [x]) → t !! q = g !! q)
  (thinned l g).
Proof.
  revert g. induction l as [|x l IH]; intros g Hl; cbn [remove_backups].
  - intros w Hw. split; [by intros x Hx%elem_of_nil|]. intros q _. cbn. by rewrite Hw.
  - apply Forall_cons in Hl as [Hx Hl]. rewrite backup_join by done. set (p := root ++ [x]).
    apply (hoare_bind _ _ _ (λ _ t, t = delete p g)).
    + apply hoare_map_err, hoare_syscall.
      * intros t a t' ->. destruct (g !! p) as [[| |]|]; try done; by intros [= <- <-].
      * intros t ->. by left.
      * intros _f t ->. by left.
    + intros _u. eapply hoare_conseq; [| | |apply (IH (delete p g) Hl)]; [done| |].
      * intros _v t [Hd Ho]. split.
        -- intros y [->|Hy]%elem_of_cons; [|by apply Hd]. destruct (decide (x ∈ l)) as [Hin|Hin]; [by apply Hd|].
           rewrite Ho; [apply lookup_delete_eq|]. intros z Hz Heq. apply app_inj_tail in Heq as [_ ->]. done.
        -- intros q Hq. rewrite Ho by (intros z Hz; apply Hq; by right). apply lookup_delete_ne. intros <-. by apply (Hq x); [left|].
      * intros t Ht q. destruct (Ht q) as [Hq|[Hq (y & Hy & ->)]].
        -- destruct (decide (q = p)) as [->|Hne]; [right; split; [by rewrite Hq, lookup_delete_eq|exists x; by split; [left|]]|].
           left. by rewrite Hq, lookup_delete_ne.
        -- right. split; [done|]. exists y. by split; [right|].
Qed.

(** After a backup named [x] was written into [f], giving [g], and the oldest were removed, giving [t]. *)
Definition keep_count g : nat := length (listing g) - MIGRATION_BACKUP_RETENTION.
Definition pruned g t : Prop :=
  (∀ y, backup_in t y ↔ y ∈ drop (keep_count g) (listing g)) ∧ (∀ q, ¬ is_backup_path q → t !! q = g !! q)
  ∧ ∀ y, backup_in t y → t !! (root ++ [y]) = g !! (root ++ [y]).
Lemma hoare_prune g : hoare (λ t, t = g) (prune_migration_backups paths) (λ _, pruned g)
  (thinned (take (keep_count g) (listing g)) g).
Proof.
  unfold prune_migration_backups. eapply hoare_bind; [eapply hoare_conseq; [| | |apply (hoare_backups g)]; [done|by intros a t Ht; exact Ht|by intros t -> q; left]|].
  intros l. apply hoare_pre with (P' := λ t, l = listing g ∧ t = g); [by intros t [? ?]|]. apply hoare_pure. intros ->. fold (keep_count g).
  assert (∀ y, y ∈ listing g ↔ y ∈ take (keep_count g) (listing g) ∨ y ∈ drop (keep_count g) (listing g)) as Hsplit.
  { intros y. rewrite <-elem_of_app, take_drop. done. }
  assert (∀ y, y ∈ take (keep_count g) (listing g) → y ∉ drop (keep_count g) (listing g)) as Hdisj.
  { pose proof (listing_once g) as Hn. rewrite <-(take_drop (keep_count g) (listing g)) in Hn. apply NoDup_app in Hn as (_ & Hn & _). exact Hn. }
  assert (Forall backup_named (take (keep_count g) (listing g))) as Hnamed.
  { apply Forall_forall. intros y Hy. apply (elem_listing g y), Hsplit. by left. }
  eapply hoare_conseq; [| | |apply (hoare_remove _ g Hnamed)]; [done| |done]. intros _u t [Hd Ho].
  assert (∀ y, y ∉ take (keep_count g) (listing g) → t !! (root ++ [y]) = g !! (root ++ [y])) as Hkept.
  { intros y Hy. apply Ho. intros x Hx Heq. apply app_inj_tail in Heq as [_ ->]. done. }
  assert (∀ y, backup_in t y ↔ y ∈ drop (keep_count g) (listing g)) as Hin.
  { intros y. split.
    - intros [Hy Hs]. destruct (decide (y ∈ take (keep_count g) (listing g))) as [Hin|Hin]; [rewrite (Hd y Hin) in Hs; by destruct Hs|].
      rewrite Hkept in Hs by done. assert (y ∈ listing g) as Hl by (by apply elem_listing). by apply Hsplit in Hl as [?|?].
    - intros Hy. assert (y ∈ listing g) as Hl by (apply Hsplit; by right). apply elem_listing in Hl as [Hy1 Hs]. split; [done|].
      rewrite Hkept; [done|]. intros Ht. by apply (Hdisj y). }
  split; [done|]. split.
  - intros q Hq. apply Ho. intros x Hx ->. apply Hq. exists x. split; [done|]. by eapply Forall_forall in Hnamed.
  - intros y Hy. apply Hkept. intros Ht. apply (Hdisj y Ht). by apply Hin.
Qed.

(** What is gone of the backups, [MIGRATION_BACKUP_RETENTION] later ones make up for. *)
Definition five_later (t : Fs) y : Prop :=
  ∃ l, length l = MIGRATION_BACKUP_RETENTION ∧ NoDup l ∧ ∀ z, z ∈ l → backup_in t z ∧ key_le y z.
Definition keeps f (t : Fs) : Prop := ∀ y, backup_in f y → t !! (root ++ [y]) = f !! (root ++ [y]) ∨ t !! (root ++ [y]) = None ∧ five_later t y.
Lemma taken_five g t y : y ∈ take (keep_count g) (listing g) → (∀ z, z ∈ drop (keep_count g) (listing g) → backup_in t z) → five_later t y.
Proof.
  intros Hy Ht. exists (drop (keep_count g) (listing g)). split_and!.
  - rewrite length_drop. apply list_elem_of_lookup_1 in Hy as [i Hi]. apply lookup_lt_Some in Hi. rewrite length_take in Hi. unfold keep_count in *. lia.
  - pose proof (listing_once g) as Hn. rewrite <-(take_drop (keep_count g) (listing g)) in Hn. by apply NoDup_app in Hn as (_ & _ & Hn).
  - intros z Hz. split; [by apply Ht|]. pose proof (listing_sorted g) as Hs. rewrite <-(take_drop (keep_count g) (listing g)) in Hs.
    by eapply StronglySorted_app_1_elem_of in Hs.
Qed.
Lemma thinned_keeps f g t x : ¬ backup_in f x → apart f (root ++ [x]) g → thinned (take (keep_count g) (listing g)) g t → keeps f t.
Proof.
  intros Hnew Hg Ht y Hy. assert (g !! (root ++ [y]) = f !! (root ++ [y])) as Hgy.
  { apply Hg. intros Heq. apply app_inj_tail in Heq as [_ ->]. done. }
  destruct (Ht (root ++ [y])) as [Heq|[Hnone (z & Hz & Heq)]]; [left; by rewrite Heq|]. apply app_inj_tail in Heq as [_ <-].
  right. split; [done|]. apply (taken_five g); [done|]. intros u Hu.
  assert (backup_in g u) as [Hn [n Hsome]]. { apply elem_listing. rewrite <-(take_drop (keep_count g) (listing g)). apply elem_of_app. by right. }
  split; [done|]. destruct (Ht (root ++ [u])) as [->|[_ (v & Hv & Heq)]]; [by eexists|]. apply app_inj_tail in Heq as [_ <-].
  pose proof (listing_once g) as Hd. rewrite <-(take_drop (keep_count g) (listing g)) in Hd. apply NoDup_app in Hd as (_ & Hd & _). by destruct (Hd u Hv).
Qed.
Lemma apart_keeps f t x : ¬ backup_in f x → apart f (root ++ [x]) t → keeps f t.
Proof. intros Hnew Ht y Hy. left. apply Ht. intros Heq. apply app_inj_tail in Heq as [_ ->]. done. Qed.
Lemma same_keeps f t : t = f → keeps f t.
Proof. intros -> y Hy. by left. Qed.

(** What a backup of [c] leaves of the tree [f]: a new file that holds the database, while
    of all backups the oldest beyond five are gone. *)
Definition backed_up c f (t : Fs) : Prop := ∃ x, backup_named x ∧ ¬ backup_in f x
  ∧ (backup_in t x → t !! (root ++ [x]) = Some (File (dump c)))
  ∧ (∀ y, backup_in t y → y = x ∨ backup_in f y ∧ t !! (root ++ [y]) = f !! (root ++ [y]))
  ∧ (∀ y, y = x ∨ backup_in f y → ¬ backup_in t y → five_later t y)
  ∧ ((∀ y, backup_in f y → key_le y x) → backup_in t x).
Definition only_backups f (t : Fs) : Prop := ∀ q, ¬ is_backup_path q → t !! q = f !! q.

Lemma is_path_of x : backup_named x → is_backup_path (root ++ [x]).
Proof. by exists x. Qed.

Lemma pruned_backed_up c f g t x : backup_named x → ¬ backup_in f x → apart f (root ++ [x]) g → g !! (root ++ [x]) = Some (File (dump c)) →
  pruned g t → backed_up c f t ∧ only_backups f t.
Proof.
  intros Hx Hnew Hg Hgx (Hin & Hother & Hkept).
  assert (∀ y, backup_in g y ↔ y = x ∨ backup_in f y) as Hgy.
  { intros y. destruct (decide (y = x)) as [->|Hy]; [split; [by left|]; intros _; split; [done|]; by rewrite Hgx|].
    unfold backup_in. rewrite Hg by (intros Heq; apply app_inj_tail in Heq as [_ ->]; done). naive_solver. }
  assert (∀ y, backup_in t y → y = x ∨ backup_in f y) as Hback.
  { intros y Hy%Hin. apply Hgy, elem_listing. rewrite <-(take_drop (keep_count g) (listing g)). apply elem_of_app. by right. }
  assert (∀ y, y = x ∨ backup_in f y → ¬ backup_in t y → five_later t y) as Hgone.
  { intros y Hy Hnot. apply Hgy, elem_listing in Hy. rewrite <-(take_drop (keep_count g) (listing g)) in Hy. apply elem_of_app in Hy as [Hy|Hy]; [|by apply Hin in Hy].
    apply (taken_five g); [done|]. intros z. apply Hin. }
  split.
  - exists x. split_and!; [done..| | |done|].
    + intros Hxt. rewrite Hkept by done. exact Hgx.
    + intros y Hy. destruct (Hback y Hy) as [->|Hf]; [by left|]. right. split; [done|]. rewrite Hkept by done. apply Hg.
      intros Heq. apply app_inj_tail in Heq as [_ ->]. done.
    + intros Hlast. destruct (decide (is_Some (t !! (root ++ [x])))) as [Hs|Hs]; [by split|].
      destruct (Hgone x (or_introl eq_refl)) as (l & Hlen & _ & Hl); [by intros [_ ?]|].
      destruct l as [|z l]; [done|]. destruct (Hl z) as [Hz Hxz]; [by left|]. exfalso. destruct (Hback z Hz) as [->|Hf]; [by destruct Hz|].
      apply Hnew. assert (z = x) as <-; [|done]. apply key_le_antisym; [apply Hf|done|by apply Hlast|done].
  - intros q Hq. rewrite (Hother q Hq). apply Hg. intros ->. by apply Hq, is_path_of.
Qed.

Lemma backed_keeps c f t : backed_up c f t → keeps f t.
Proof.
  intros (x & Hx & Hnew & _ & Hback & Hgone & _) y Hy. destruct (decide (is_Some (t !! (root ++ [y])))) as [Hs|Hs].
  - left. destruct (Hback y) as [->|[_ ?]]; [split; [apply Hy|done]|done|done].
  - right. split; [by apply eq_None_not_Some|]. apply Hgone; [by right|]. by intros [_ ?].
Qed.

Lemma backup_spec f c : spec (same f c) (backup_database paths vacuum)
  (λ _ s, (backed_up c f (tree s) ∧ only_backups f (tree s)) ∧ op_connection s = c)
  (λ _ s, (only_backups f (tree s) ∧ keeps f (tree s)) ∧ op_connection s = c).
Proof.
  unfold backup_database. eapply spec_bind; [eapply spec_conseq; [| | |apply unique_path_spec]; [done|by intros p s Hs; exact Hs|]|].
  { intros e s [-> ->]. split; [|done]. split; [done|]. by apply same_keeps. }
  intros p. apply spec_pure. intros (x & -> & Hx & Hnew). pose proof (is_path_of x Hx) as Hp.
  assert (∀ t, apart f (root ++ [x]) t → only_backups f t) as Hapart by (intros t Ht q Hq; apply Ht; intros ->; by apply Hq).
  assert (∀ t, apart f (root ++ [x]) t → only_backups f t ∧ keeps f t) as Hboth by (intros t Ht; split; [by apply Hapart|by eapply apart_keeps]).
  eapply spec_bind; [eapply spec_conseq; [| | |apply vacuum_spec]; [done|by intros u s Hs; exact Hs|intros e s [Ht Hc]; split; [by apply Hboth|done]]|].
  intros _u. apply (spec_bind _ _ _ (λ _ s, (apart f (root ++ [x]) (tree s) ∧ tree s !! (root ++ [x]) = Some (File (dump c))) ∧ op_connection s = c)).
  - intros s [[Ha Hd] Hc]. pose proof (spec_on_files (tree s) c (secure_sensitive_file (root ++ [x])) (λ _ t, t = tree s) (λ t, t = tree s)
      (hoare_look (λ t, t = tree s) _ (λ t, t = tree s) (changes_secure_file _ _) (λ t Ht, Ht)) s (conj eq_refl Hc)) as Hs.
    destruct (on_files (secure_sensitive_file (root ++ [x])) s) as [[u|e] s']; destruct Hs as [-> Hc']; [by split|]. split; [by apply Hboth|done].
  - intros _v s [[Ha Hd] Hc]. pose proof (spec_on_files (tree s) c (prune_migration_backups paths) _ _ (hoare_prune (tree s)) s (conj eq_refl Hc)) as Hs.
    destruct (on_files (prune_migration_backups paths) s) as [[u|e] s']; destruct Hs as [Ht Hc'].
    + split; [by eapply pruned_backed_up|done].
    + split; [|done]. split; [|by eapply thinned_keeps]. intros q Hq. destruct (Ht q) as [->|[_ (y & Hy & ->)]]; [by apply Hapart|].
      exfalso. apply Hq, is_path_of, (elem_listing (tree s)). rewrite <-(take_drop (keep_count (tree s)) (listing (tree s))). apply elem_of_app. by left.
Qed.

(** *** Migrations *)

(** The files of the pending migrations, run in turn. *)
Fixpoint run_all (l : list Migration) (tables : Tables) : result SqliteError Tables :=
  match l with [] => Ok tables | m :: l => tables ← execute_batch (mg_sql m) tables; run_all l tables end.
Definition recorded (l : list Migration) (rows : gmap Z string) : gmap Z string := foldl (λ rows m, <[mg_version m := mg_name m]> rows) rows l.

Lemma migrations_spec l f c rows : cn_migrations c = Some rows →
  spec (same f c) (eff_iter apply_migration l)
    (λ _ s, tree s = f ∧ cn_migrations (op_connection s) = Some (recorded l rows) ∧ run_all l (cn_tables c) = Ok (cn_tables (op_connection s)))
    (λ _ s, tree s = f).
Proof.
  revert c rows. induction l as [|m l IH]; intros c rows Hrows; cbn [eff_iter run_all].
  - intros s [Ht <-]. by split_and!.
  - apply (spec_bind _ _ _ (λ _ s, tree s = f ∧ ∃ tables, execute_batch (mg_sql m) (cn_tables c) = Ok tables
      ∧ op_connection s = Build_Connection (Some (<[mg_version m := mg_name m]> rows)) tables)).
    + unfold apply_migration.
      apply (spec_bind _ _ _ (λ _ s, tree s = f ∧ ∃ tables, execute_batch (mg_sql m) (cn_tables c) = Ok tables
        ∧ op_connection s = Build_Connection (Some rows) tables)).
      * eapply spec_conseq; [| | |apply spec_map_err, (spec_sql _ f c)]; [done| |by intros e s [-> _]]. intros [] s [Ht Hg]. split; [done|].
        destruct (execute_batch (mg_sql m) (cn_tables c)) as [tables|] eqn:He; [|done]. injection Hg as Hg. exists tables. split; [done|]. by rewrite <-Hg, Hrows.
      * intros _u s (Ht & tables & He & Hc). pose proof (spec_map_err _ (migration_failed m) _ _ _ (spec_sql (insert_migration m) f (op_connection s)) s (conj Ht eq_refl)) as Hs.
        destruct (eff_map_err _ _ s) as [[[]|e] s']; [|by destruct Hs]. destruct Hs as [Ht' Hg]. split; [done|]. exists tables. split; [done|].
        unfold insert_migration in Hg. rewrite Hc in Hg. cbn in Hg. destruct (option_bool _); [done|]. by injection Hg as <-.
    + intros _u s (Ht & tables & He & Hc). specialize (IH (op_connection s) (<[mg_version m := mg_name m]> rows)). rewrite Hc in IH.
      specialize (IH eq_refl s (conj Ht Hc)). rewrite He. cbn. exact IH.
Qed.

Lemma transaction_spec f c (m : eff (Opening Tables) StateError unit) (Q : Connection Tables → Prop) :
  spec (same f c) m (λ _ s, tree s = f ∧ Q (op_connection s)) (λ _ s, tree s = f) →
  spec (same f c) (transaction m) (λ _ s, tree s = f ∧ Q (op_connection s)) (λ _, same f c).
Proof.
  intros Hm. unfold transaction. apply (spec_bind _ _ _ (λ before s, before = c ∧ same f c s)); [intros s [Ht Hc]; by split|].
  intros before. apply spec_pure. intros ->. apply (spec_bind _ _ _ (λ _, same f c)).
  { eapply spec_conseq; [| | |apply spec_map_err, (spec_sql _ f c)]; [done| |by intros e s Hs]. intros [] s [Ht Hg]. injection Hg as Hg. by split. }
  intros _u. apply (spec_try _ _ _ (λ _ s, tree s = f ∧ Q (op_connection s)) (λ _ s, tree s = f)).
  - apply (spec_bind _ _ _ (λ _ s, tree s = f ∧ Q (op_connection s))); [exact Hm|]. intros _v s [Ht HQ].
    pose proof (spec_map_err _ Sqlite _ _ _ (spec_sql (λ c, Ok (tt, c)) f (op_connection s)) s (conj Ht eq_refl)) as Hs. unfold asked.
    destruct (eff_map_err Sqlite _ s) as [[[]|e] s']; destruct Hs as [Ht' Hg]; [|done]. injection Hg as Hg. split; [done|]. by rewrite <-Hg.
  - intros [] s Hs. exact Hs.
  - intros e s Ht. by split.
Qed.

Lemma validate_names applied l : validate_applied_migration_names applied l = Ok tt →
  ∀ m actual, m ∈ l → applied !! mg_version m = Some actual → actual = mg_name m.
Proof.
  induction l as [|m l IH]; cbn; [by intros _ m actual Hm%elem_of_nil|]. intros Hv n actual [->|Hn]%elem_of_cons Ha.
  - rewrite Ha in Hv. by case_bool_decide.
  - apply IH; [|done..]. destruct (applied !! mg_version m); [|done]. by case_bool_decide.
Qed.
Lemma recorded_other l rows v : (∀ m, m ∈ l → mg_version m ≠ v) → recorded l rows !! v = rows !! v.
Proof.
  unfold recorded. revert rows. induction l as [|m l IH]; intros rows Hl; [done|]. cbn. rewrite IH by (intros n Hn; apply Hl; by right).
  apply lookup_insert_ne, Hl. by left.
Qed.
Lemma recorded_one l rows m : NoDup (mg_version <$> l) → m ∈ l → recorded l rows !! mg_version m = Some (mg_name m).
Proof.
  unfold recorded. revert rows. induction l as [|n l IH]; intros rows; [by intros _ Hm%elem_of_nil|]. cbn. intros [Hn Hl]%NoDup_cons [->|Hm]%elem_of_cons.
  - fold (recorded l (<[mg_version n := mg_name n]> rows)). rewrite recorded_other; [apply lookup_insert_eq|].
    intros x Hx Heq. apply Hn. rewrite <-Heq. apply list_elem_of_fmap. by exists x.
  - by apply IH.
Qed.
Lemma elem_pending applied l m : m ∈ pending_migrations applied l ↔ m ∈ l ∧ applied !! mg_version m = None.
Proof.
  unfold pending_migrations. rewrite list_elem_of_In, filter_In, <-list_elem_of_In. destruct (applied !! mg_version m); cbn; naive_solver.
Qed.
(** Every migration is recorded when the pending ones were. *)
Lemma recorded_all applied l m : NoDup (mg_version <$> l) → validate_applied_migration_names applied l = Ok tt → m ∈ l →
  recorded (pending_migrations applied l) applied !! mg_version m = Some (mg_name m).
Proof.
  intros Hl Hv Hm. destruct (applied !! mg_version m) as [actual|] eqn:Ha.
  - rewrite recorded_other; [by rewrite Ha, (validate_names _ _ Hv m actual Hm Ha)|]. intros n [_ Hn]%elem_pending Heq. by rewrite Heq, Ha in Hn.
  - apply recorded_one; [|by apply elem_pending]. clear -Hl. unfold pending_migrations.
    induction l as [|n l IH]; cbn in *; [constructor|]. apply NoDup_cons in Hl as [Hn Hl]. destruct (negb _); [|by apply IH].
    apply NoDup_cons. split; [|by apply IH]. intros (x & Hx & Hin)%list_elem_of_fmap. apply Hn. apply list_elem_of_In, filter_In in Hin as [Hin _].
    apply list_elem_of_fmap. exists x. split; [done|by apply list_elem_of_In].
Qed.

(** The two ways in which a migration is refused before anything is done: SQLite does not
    answer one of the two questions about the migrations that were applied, or one of them
    was applied under another name. *)
Definition unanswered s (e : StateError) : Prop :=
  ∃ x, e = Sqlite x ∧ (sqlite_fault (op_calls s) = Some x ∨ sqlite_fault (S (op_calls s)) = Some x).
Definition renamed (applied : gmap Z string) (migrations : list Migration) (e : StateError) : Prop :=
  ∃ m actual, m ∈ migrations ∧ applied !! mg_version m = Some actual ∧ actual ≠ mg_name m ∧ e = MigrationNameMismatch (mg_version m) (mg_name m) actual.

Lemma applied_spec s : spec (λ s', s' = s) applied_migrations (λ a s', a = default ∅ (cn_migrations (op_connection s)) ∧ same (tree s) (op_connection s) s')
  (λ e s', unanswered s e ∧ same (tree s) (op_connection s) s').
Proof.
  intros s' ->. unfold applied_migrations, table_exists, asked, mbind, eff_bind, eff_map_err, sql, same, unanswered. cbn.
  destruct (sqlite_fault (op_calls s)) as [x|]; cbn; [split; [exists x; by split; [|left]|done]|].
  destruct (cn_migrations (op_connection s)) eqn:Hrows; cbn; [rewrite Hrows|by split_and!].
  destruct (sqlite_fault (S (op_calls s))) as [x|]; cbn; [|by split_and!]. split; [exists x; by split; [|right]|done].
Qed.
Lemma validate_renamed applied l e : validate_applied_migration_names applied l = Err e → renamed applied l e.
Proof.
  unfold renamed. induction l as [|m l IH]; cbn; [done|]. destruct (applied !! mg_version m) as [actual|] eqn:Ha; [case_bool_decide; cbn|].
  2: { intros [= <-]. exists m, actual. by split_and!; [left|..]. }
  all: intros (n & a & Hn & Hrest)%IH; exists n, a; split; [by right|done].
Qed.

(** C38: Migrating a database, the file host and SQLite as they may behave. Either all the
    migrations that are pending are applied, in their order, and recorded, so that every
    migration is then recorded under its name (when no two have the same version); or
    the database is as it was. No file but a backup of migrations is written or removed,
    and no backup is lost, however the run ends, unless five later ones are there.
    When there is something to apply to a database that existed, it was first backed up
    under a new name, and so it is when a migration then fails: that backup holds the
    database as it was before, and it is only missing in the end if five later ones are
    there. The only failures without it are those from before the backup (SQLite does not
    tell what was applied, or a migration was applied under another name: no file is
    touched) and the failure to make it, after which no migration was run. *)
Theorem run_spec migrations existed s :
  let c := op_connection s in
  let applied := default ∅ (cn_migrations c) in
  let pending := pending_migrations applied migrations in
  let '(r, s') := run paths migrations existed s in
  let settled := if bool_decide (pending = []) || negb existed then tree s' = tree s else backed_up c (tree s) (tree s') in
  (only_backups (tree s) (tree s') ∧ keeps (tree s) (tree s'))
  ∧ match r with
    | Ok _ => run_all pending (cn_tables c) = Ok (cn_tables (op_connection s'))
        ∧ cn_migrations (op_connection s') = Some (recorded pending applied)
        ∧ (NoDup (mg_version <$> migrations) → ∀ m, m ∈ migrations → recorded pending applied !! mg_version m = Some (mg_name m))
        ∧ settled
    | Err e => op_connection s' = c
        ∧ ((unanswered s e ∨ renamed applied migrations e) ∧ tree s' = tree s
           ∨ existed = true ∧ pending ≠ [] ∧ (∃ s1, same (tree s) c s1 ∧ backup_database paths vacuum s1 = (Err e, s'))
           ∨ settled)
    end.
Proof.
  intros c applied pending. set (f := tree s).
  set (Z := λ s', if bool_decide (pending = []) || negb existed then tree s' = f else backed_up c f (tree s')).
  set (Q := λ s', run_all pending (cn_tables c) = Ok (cn_tables (op_connection s')) ∧ cn_migrations (op_connection s') = Some (recorded pending applied)
    ∧ (NoDup (mg_version <$> migrations) → ∀ m, m ∈ migrations → recorded pending applied !! mg_version m = Some (mg_name m)) ∧ Z s').
  set (X := λ e s', op_connection s' = c ∧ ((unanswered s e ∨ renamed applied migrations e) ∧ tree s' = f
    ∨ existed = true ∧ pending ≠ [] ∧ (∃ s1, same f c s1 ∧ backup_database paths vacuum s1 = (Err e, s')) ∨ Z s')).
  set (K := λ s', only_backups f (tree s') ∧ keeps f (tree s')).
  assert (∀ s', tree s' = f → K s') as Hsame by (intros s' Ht; split; [by rewrite Ht|by apply same_keeps]).
  assert (spec (λ s', s' = s) (run paths migrations existed) (λ _ s', K s' ∧ Q s') (λ e s', K s' ∧ X e s')) as Hrun.
  2: { specialize (Hrun s eq_refl). by destruct (run paths migrations existed s) as [[]]. }
  unfold run. eapply spec_bind; [eapply spec_conseq; [| | |apply (applied_spec s)]; [by intros s' ->|by intros a s' Hs; exact Hs|]|].
  { intros e s' [He [Ht Hc]]. split; [by apply Hsame|]. split; [done|]. left. split; [by left|done]. }
  intros a. apply spec_pure. intros ->. fold c f applied. apply (spec_bind _ _ _ (λ _ s', validate_applied_migration_names applied migrations = Ok tt ∧ same f c s')).
  { intros s' [Ht Hc]. unfold eff_lift. destruct (validate_applied_migration_names applied migrations) as [[]|e] eqn:Hv; [by split|].
    split; [by apply Hsame|]. split; [done|]. left. split; [right; by apply validate_renamed|done]. }
  intros _u. apply spec_pure. intros Hvalid. pose proof (λ Hl m, recorded_all applied migrations m Hl Hvalid) as Hall. fold pending in Hall |- *.
  destruct pending as [|m l] eqn:Hpending.
  - intros s' Hs. pose proof (spec_map_err _ Sqlite _ _ _ (spec_sql (λ c, Ok (tt, with_table c)) f c) s' Hs) as Hr. unfold ensure_migration_table, asked.
    destruct (eff_map_err Sqlite _ s') as [[[]|e] s2]; destruct Hr as [Ht Hg]; (split; [by apply Hsame|]); [|by split; [|right; right]].
    injection Hg as Hg. unfold Q. rewrite <-Hg. by split_and!.
  - rewrite <-Hpending. assert (pending ≠ []) as Hne by (by rewrite Hpending).
    eapply (spec_bind _ _ _ (λ _ s', (K s' ∧ Z s') ∧ op_connection s' = c)).
    + unfold Z. rewrite bool_decide_eq_false_2 by done. cbn [orb]. destruct existed; cbn; [|intros s' [Ht Hc]; split; [split; [by apply Hsame|done]|done]].
      apply spec_at. intros s1 Hs1. eapply spec_conseq; [| | |apply (spec_run s1), backup_spec]; [by intros s' ->| |].
      * intros u s' [_ [[Hb Ho] Hc]]. split; [|done]. split; [|done]. split; [done|by eapply backed_keeps].
      * intros e s' [Hr [HK Hc]]. split; [done|]. split; [done|]. right. left. split; [done|]. split; [done|]. by exists s1.
    + intros _v s' [[HK HZ] Hc]. set (g := tree s') in *.
      set (P := λ c', run_all pending (cn_tables c) = Ok (cn_tables c') ∧ cn_migrations c' = Some (recorded pending applied)).
      assert (spec (same g c) (transaction (_ ← asked (λ c, Ok (tt, with_table c)); eff_iter apply_migration pending))
        (λ _ s, tree s = g ∧ P (op_connection s)) (λ _, same g c)) as Htr.
      { apply transaction_spec. apply (spec_bind _ _ _ (λ _, same g (with_table c))).
        - eapply spec_conseq; [| | |apply spec_map_err, (spec_sql _ g c)]; [done| |by intros e s2 [Ht _]]. intros [] s2 [Ht Hg]. injection Hg as Hg. by split.
        - intros _w. eapply spec_conseq; [| | |apply (migrations_spec pending g (with_table c) applied eq_refl)]; [done| |by intros e s2 Hs2].
          intros [] s2 (Ht & Hrows & Hrun). by split_and!. }
      specialize (Htr s' (conj eq_refl Hc)). unfold Q, X, K, Z in *. destruct (transaction _ s') as [[u|e] s2]; destruct Htr as [Ht Hp]; fold g in Ht; rewrite Ht.
      * split; [done|]. destruct Hp as [Hp1 Hp2]. rewrite Hpending in Hp1, Hp2. by split_and!.
      * split; [done|]. split; [done|]. by right; right.
Qed.
End promises.

(** ** A database of files that were run *)

Definition mg_dump (c : Connection (list string)) : string := join "," (cn_tables c).
Definition mg_vacuum (p : path) (c : Connection (list string)) : IO SqliteError unit :=
  io_map_err (λ _, QueryReturnedNoRows)
    (@syscall (faulty_host None) unit (λ fs, if option_bool (fs !! p) then Err EEXIST else Ok (tt, <[p := File (mg_dump c)]> fs)) (λ _ fs, fs)).
#[local] Instance mg_sqlite : SqliteHost (list string) := {|
  execute_batch file tables := if bool_decide (file = "sql/bad.sql") then Err (TriggerAbort file) else Ok (tables ++ [file]);
  sqlite_fault _ := None;
  vacuum_into := mg_vacuum;
  utc_now _ := "20260522-143012" |}.
#[local] Instance mg_laws : SqliteLaws (list string) (H := faulty_host None).
Proof.
  exists mg_dump.
  - intros p c. apply changes_map_err, changes_syscall; [|done]. intros fs [] fs' q. destruct (option_bool (fs !! p)); [done|]. intros [= <-] Hq.
    by apply lookup_insert_ne.
  - intros p c w. cbn. unfold mg_vacuum, io_map_err, syscall. cbn. destruct (option_bool (files w !! p)); cbn; [done|]. intros _. apply lookup_insert_eq.
  - intros n. vm_compute. reflexivity.
Defined.

Definition mg_paths : PvPaths := for_home ["u"].
Definition mg_tree (backups : list string) : Fs :=
  foldr (λ x fs, <[pv_root mg_paths ++ [x] := File "old"]> fs) {[ ["u"] := Dir; pv_root mg_paths := Dir ]} backups.
Definition mg_opening (rows : option (gmap Z string)) (tables : list string) (backups : list string) : Opening (list string) :=
  Build_Opening {| files := mg_tree backups; clock := 0; counter := 0 |} (Build_Connection rows tables) 0.
Definition mg_backups (s : Opening (list string)) : list string := listing mg_paths (tree s).
Definition mg_run (l : list Migration) (existed : bool) (s : Opening (list string)) : result StateError unit * Opening (list string) :=
  run (H := faulty_host None) mg_paths l existed s.
Definition mg_first : list Migration := take 2 DEFAULT_MIGRATIONS.
Definition mg_rows : gmap Z string := {[ 1%Z := "core_state_schema" ]}.
Definition mg_names (day : string) : string := "pv.db.202605" +:+ day +:+ "-120000.bak".

Example mg_new_database : let '(r, s) := mg_run DEFAULT_MIGRATIONS false (mg_opening None [] []) in
  r = Ok tt ∧ cn_tables (op_connection s) = mg_sql <$> DEFAULT_MIGRATIONS ∧ mg_backups s = [].
Proof. vm_compute. repeat split. Qed.
Example mg_second_of_a_second : let '(r, s) := mg_run mg_first true (mg_opening (Some mg_rows) ["a"] [mg_names "20"; "pv.db.20260522-143012.bak"; "pv.db.bak"]) in
  r = Ok tt ∧ cn_tables (op_connection s) = ["a"; "sql/002_managed_resource_removal_intent.sql"]
  ∧ mg_backups s = [mg_names "20"; "pv.db.20260522-143012.bak"; "pv.db.20260522-143012-1.bak"]
  ∧ tree s !! (pv_root mg_paths ++ ["pv.db.20260522-143012-1.bak"]) = Some (File "a").
Proof. vm_compute. repeat split. Qed.
Example mg_bad_migration : let '(r, s) := mg_run (mg_first ++ [migration 3 "bad" "sql/bad.sql"]) true (mg_opening (Some mg_rows) ["a"] []) in
  r = Err (MigrationFailed 3 "bad" (TriggerAbort "sql/bad.sql")) ∧ op_connection s = Build_Connection (Some mg_rows) ["a"]
  ∧ mg_backups s = ["pv.db.20260522-143012.bak"].
Proof. vm_compute. repeat split. Qed.
Example mg_renamed : (mg_run [migration 1 "other" "sql/001.sql"] true (mg_opening (Some mg_rows) ["a"] [])).1
  = Err (MigrationNameMismatch 1 "other" "core_state_schema").
Proof. vm_compute. reflexivity. Qed.

(** A clock that was set back: five backups are of later days, and the one that was just
    made is the oldest. It is removed before the migrations are run. *)
Definition mg_later : list string := mg_names <$> ["23"; "24"; "25"; "26"; "27"].
Example clock_set_back_loses_the_backup : let '(r, s) := mg_run mg_first true (mg_opening (Some mg_rows) ["a"] mg_later) in
  r = Ok tt ∧ mg_backups s = mg_later.
Proof. vm_compute. repeat split. Qed.

Lemma run_spec_witness :
  let c := Build_Connection (Some mg_rows) ["a"] in
  let '(r, s) := mg_run mg_first true (mg_opening (Some mg_rows) ["a"] []) in
  only_backups mg_paths (mg_tree []) (tree s)
  ∧ match r with
    | Ok _ => backed_up (H := faulty_host None) mg_paths c (mg_tree []) (tree s)
    | Err _ => op_connection s = c
    end.
Proof.
  pose proof (run_spec (H := faulty_host None) mg_paths mg_first true (mg_opening (Some mg_rows) ["a"] [])) as Hrun. cbv zeta in Hrun.
  unfold mg_run. destruct (run (H := faulty_host None) mg_paths mg_first true (mg_opening (Some mg_rows) ["a"] [])) as [r s]. destruct Hrun as [[Ho _] Hr].
  split; [exact Ho|]. destruct r as [u|e]; [|exact (proj1 Hr)]. destruct Hr as (_ & _ & _ & Hb). exact Hb.
Defined.
